(* ===== verification/_CoqProject ===== *)
-Q . S2P
Prelude.v
Float64.v
Text.v
Hash.v
Vocab.v
Evaluator.v
Position.v
Windows.v
Coin.v
Axis.v
AxisFacts.v
TradeKeys.v
Fingerprint.v
RuleParams.v
Guards.v
Events.v
Ledger.v
WindowFacts.v
PriceFacts.v
TrackIface.v
Fee.v
Tags.v
Track.v
Arm.v
Labels.v
Compile.v
State.v
Reduce.v
Scenario.v
LedgerRefine.v
LedgerFold.v
FoldProps.v
FillProps.v
SweepProps.v
RuleProps.v
MatchProps.v
TrackProps.v
Quotes.v
Dedupe.v
Kernel.v
KernelProps.v
Episodes.v
Executor.v
ExecutorProps.v
PaperFill.v
Grammar.v
Grouping.v
Rounding.v
Series.v
Scan.v
ExitScan.v
ScanProps.v
FastExitProps.v
Projection.v
Programs.v
Live.v
RealExec.v
ExecFacts.v
ExecProps.v
ExitLock.v
ExecDemo.v
Grid.v
RuleDoc.v
RuleDocFacts.v
RuleDocProps.v
SweepAxes.v
RuleBuild.v
Frames.v
IxLabels.v
Swaps.v
Decode.v
DecodeFacts.v
DecodeProps.v
Handover.v
Supervisor.v
SupervisorProps.v
PoolNotify.v
EventLog.v
EventLogProps.v
LogReplay.v
