(* ===== verification/Prelude.v ===== *)
(** * trade-launch-bot: the trading engine, its executor and its research tools, verified

    The repository trades newly launched coins.  A feed of transactions is decoded and
    deduplicated, a strategy engine folds it into orders, an executor signs and sends them,
    and a lab replays the same decisions over a corpus of past trades.  This library models
    the parts that decide, count and price, from the Rust sources, and proves what they
    promise.  Paths below are relative to [src/]; [engine] is [hunter/engine/src], [core]
    [hunter/core/src], [lab] [hunter/lab/src/sweep], [executor] [shared/executor].

    ** Conventions

    - A machine integer is a [Z]; where its width can matter the wrap ([wrap_u]), the
      saturation ([sat_add], [sat_sub]) or the bound is written out.  Instants and durations
      are nanoseconds.  An [f64] is [SpecFloat]'s binary64 ([Float64]); [Rounding] proves
      its operations monotone.  Strings are their UTF-8 bytes ([Text]).
    - A [HashMap] or [BTreeMap] is a [gmap] where order cannot be seen, a list where it can.
    - A mutable object is a record passed along; [set_*] definitions write one field.  A
      [Result] or an early return is an option or a sum.  Interleavings of tasks and calls
      are step relations over the shared state.
    - A recursion that is not structural takes fuel.  Its size is stated at the definition
      and each such function comes with the theorem that the fuel is enough (the deadline
      walk in [RuleProps], the candidate walk in [ScanProps], the frozen tail in [FastExitProps]).
    - Code outside the repository is a parameter: [ln] and [exp] of the sketch, the chain's
      answers to the executor.

    ** The strategy engine

    [Guards] ([engine/cap.rs], [deadness.rs], [dupe_guard.rs]), [Events] ([event.rs]),
    [RuleParams] and [Evaluator] ([rule_params.rs], [metrics/evaluator.rs]) are the
    vocabulary.  [Compile] turns a loaded rule into the [CompiledRule] of [Arm] ([arm.rs]):
    entry gate, locks, monotonic kills, held-side step.  [State] ([state.rs]) is everything
    the fold carries; [Reduce] ([reduce.rs]) is the fold, one definition per handler.

    The fold is written against two interfaces.  [TrackIface.TrackOps] is what it asks of a
    coin's metrics; [Track.token_track] implements it from [Coin], [Windows]
    and [Tags] ([engine/metrics]).  [TrackIface.CoinReads] is what a
    decision reads of a coin; the track and the recorded rows of the sweep ([Scan]) are its
    instances.

    [Ledger] is the contract the fold has with the executor, a book of positions with its
    two id generators.  [LedgerRefine] and [LedgerFold] show that every event
    moves the state along ledger steps that report exactly the effects emitted; [FoldProps]
    draws the consequences (ids, caps, legal lifecycles, retries, the
    bijection of arms and positions).  [FillProps] is about the executor's reports,
    [SweepProps] about decision passes and reloads, [RuleProps] about conditions, stages and
    guards, [TrackProps] about windowed readings equalling those of the whole history.

    [RuleDoc] is the document side of a rule: [RuleParams::parse], [validate] and [to_value]
    over document values, window and number texts included.  [RuleDocFacts] gives, for each
    part, the shape its parser only ever returns and that it reads back what the printer
    wrote; [RuleDocProps] concludes that accepted rules are well formed and load unchanged
    from what a save wrote, and [RuleBuild] that such a rule compiles with no dangling index
    (a name not found, where the source panics, is an index outside every table),
    which is what lets [Arm] read a missing index as "does not hold".

    [Axis], [Fingerprint], [Grammar], [Grouping] and [TradeKeys], [Fee],
    [Tags] model how coins and trades are recognised; [MatchProps], [Grammar] and
    [Grouping] give the span algebra, the two match phases, the texts of
    conditions and the partitions of a corpus.

    ** The analysis core and the lab

    [Kernel] ([core/strategies/kernel.rs]) is the cost model and both rollups of a run,
    [PaperFill] ([paper_fill.rs]) the fill models, [Episodes] ([wallet_ledger.rs]) a
    wallet's round trips.  [Series] ([engine/metrics/series.rs]) records a coin's metrics as
    rows, [Grid] ([metrics/grid.rs]) drives it over trades and clock ticks and proves
    its fold a cut of a plain replay; [Projection] ([lab/projection.rs]) is the corpus
    row.  [Scan] and [ExitScan]
    ([lab/generic]) decide one rule over those rows: the reference walks, the shared entry
    candidates, the exit index and its fast queries, the frozen tail.  [ScanProps] and
    [FastExitProps] prove the optimised forms equal to the reference walks
    and the walks total.  [SweepAxes] ([lab/generic/axes.rs]) is the grid of a sweep: its
    combos are numbered one to one, the key of a combo names its entry side, and every combo
    assembles a rule the engine's parser takes.

    ** The executor and the ingest

    [Quotes] ([executor/pumpfun/src]) is the swap arithmetic and the reserve cache,
    [Executor] ([executor/core/src]) the nonce pool, the exposure ledger and the blockhash
    cache as interleaved atomic steps, [Dedupe] ([shared/ingest/core/src/dedupe.rs]) the
    lock-free signature ring.  Their theorems bound what a swap can cost, say when a nonce
    slot can be handed out again and that a transaction is admitted at most once more than
    its entry was evicted from the ring.

    [Live] and [RealExec] ([hunter/live/src/strategies/engine], [core/state/trade_signals.rs])
    are the real buy and sell tasks of [exec_real.rs].  A task is a [Programs.Prog]: a tree of
    requests to the guards, the journal, the feed, the chain and the database, whose answers
    are any that [Live_world] allows.  [ExecFacts] states what a request may follow on as
    policies on the task's history; [ExecProps] proves that no buy or sell is signed while an
    earlier one can still execute, over all tries of a position and all answers, and what a
    task's report is worth.  [ExitLock] interleaves any number of tasks over the shared guards
    and proves that one account is sold from by one task at a time.  [ExecDemo] runs the tasks
    against scripted worlds.  The bound on a wait's wake-ups ([Wakes]) is any number, chosen by
    the world; a send and its signing hook are two requests, so a timeout falls between them.

    ** The feed

    [Frames] holds the protobuf frame, the protocol descriptor and the key space and sender
    of a transaction ([pumpfun/src/protocol.rs], [decode/protobuf.rs]), [IxLabels] the
    registry of programs and the labels ([program_registry.rs], [instructions.rs]), [Swaps]
    the events and their readers ([swap_ix.rs], [trade.rs], [create.rs]) and [Decode] the
    pre-filter and both decodes.  The codecs of other crates are class [Codecs], what they
    promise class [CodecLaws] ([DecodeFacts]), with a concrete instance in [DecodeProps.Demo].
    [DecodeProps] proves that every swap of a transaction is told once, in order and with its
    own arguments, whatever its logs lost, that the pre-filter reads what the decode reads,
    and what identifies a trade and its payer's flow.  [Handover] ([assembly.rs]) is the task
    that moves the curve between feeds: it is never without an owner.  [Supervisor]
    ([ingest/core/src/supervisor.rs], [push.rs], [session.rs]) is the loop that drives one
    feed: connect, route, reconnect; [SupervisorProps] proves that it replays exactly the gap
    it has, always comes back and is cut for silence only by what it asked for, and
    [PoolNotify] that a feed alone never misses a pool, over a venue that is class
    [IngestVenue].

    ** The log

    [EventLog] is the log of the live events: its format ([engine/event_log.rs]), the writer
    with its segments, rotation and pruning, and boot recovery
    ([live/strategies/engine/event_log.rs]).  A directory is a map from names to bytes, what
    the file system answers is any [World]; the texts of dates and the JSON of a line are
    classes ([LogDates], [LogCodec]) with their laws, instantiated in [EventLogProps.LogDemo].
    The backward reader takes the length of the file as fuel, enough because each turn reads a
    byte ([EventLogProps]).  [EventLogProps] proves that the files are a tail of what was
    recorded and keep to the budget while the file system works and the clock does not go
    back (a failed or short write is a [World] too, and loses what it loses), and that
    recovery replays all that the whole log asks for.  [LogReplay]
    ([decision_loop.rs], [lab/replay_inspect.rs]) folds the log again: recovery takes no
    position, and an inspection ticks the gaps on the grid.

    ** What the theorems found

    A lagged price window forgets prices still inside it ([TrackProps]); a refresh task that
    starts late frees a nonce slot in use, and a slot whose hash was cleared is stranded
    ([ExecutorProps]); a chip's text loses its top value, one set of values has two stored
    spellings ([Grouping], [Grammar]).  The tick grid leaves out the tick at which a
    coin off the grid dies and the one at which a long window empties ([Grid]).
    A rule with a window under half a microsecond does not load from its own save, and the
    documented rewrite of a contradictory flat list never runs ([RuleDocProps]).
    A switch back of the curve during a hand-over leaves two feeds on it ([Handover]).
    A feed with nothing to carry takes the notification of a new pool from the feed that
    carries the pools ([PoolNotify]); widening a filter in place can cut the connection it
    was to keep, and a stalled lane reconnects live though its policy promises replay
    ([SupervisorProps]).  Two transports that deliver one signature at once
    both admit it when its part of the ring is full ([Dedupe]).  A log line torn by a crash
    takes the next event with it, a segment has two names, and boot recovery replays a coin
    whose fills all lie before what it reads ([EventLogProps], [EventLog]).

    ** Not modelled

    The runtime around these parts: the async services, HTTP handlers and database access of
    [hunter/core] and [hunter/live], transaction building and RPC sending, the
    wires and decode tasks of the feed, the forge launcher's services and the web front ends are I/O or glue whose
    behaviour lives in services and libraries outside the sources.  JSON forms of documents
    are modelled where a decision reads them ([Fee], [Tags], [RuleDoc]); the texts of
    errors are constructors, without the path of the element.  Display texts of
    the registry, tracing lines, the display readout of a rule and the import of version 1
    documents are left out.  The AVX-512 kernels of the exit scans are not
    modelled; their scalar forms are. *)

From stdpp Require Export base gmap strings list sorting option pretty.
From Stdlib Require Export ZArith Lia Bool.

#[global] Open Scope Z_scope.

Declare Scope engine_scope.
Delimit Scope engine_scope with eng.
#[global] Open Scope engine_scope.

(** ** Options as the source's combinators use them *)

Definition is_some_and {A} (o : option A) (f : A -> bool) : bool :=
  match o with Some x => f x | None => false end.

Definition is_none_or {A} (o : option A) (f : A -> bool) : bool :=
  match o with Some x => f x | None => true end.

Definition is_someb {A} (o : option A) : bool :=
  match o with Some _ => true | None => false end.

Definition is_noneb {A} (o : option A) : bool := negb (is_someb o).

Definition or_else {A} (o1 o2 : option A) : option A :=
  match o1 with Some _ => o1 | None => o2 end.

Definition unwrap_or {A} (o : option A) (d : A) : A :=
  match o with Some x => x | None => d end.

Definition map_or {A B} (o : option A) (d : B) (f : A -> B) : B :=
  match o with Some x => f x | None => d end.

(** [Iterator::find], [find_map], [position], [contains] on lists. *)
Fixpoint find_first {A} (f : A -> bool) (l : list A) : option A :=
  match l with
  | [] => None
  | x :: l => if f x then Some x else find_first f l
  end.

Fixpoint find_map {A B} (f : A -> option B) (l : list A) : option B :=
  match l with
  | [] => None
  | x :: l => match f x with Some y => Some y | None => find_map f l end
  end.

Fixpoint position_of {A} (f : A -> bool) (l : list A) : option nat :=
  match l with
  | [] => None
  | x :: l => if f x then Some O else S <$> position_of f l
  end.

Definition contains {A} `{EqDecision A} (l : list A) (x : A) : bool :=
  existsb (fun y => bool_decide (y = x)) l.

Lemma find_first_Some {A} (f : A -> bool) (l : list A) x :
  find_first f l = Some x -> x ∈ l /\ f x = true.
Proof.
  induction l as [|y l IH]; simpl; [done|].
  destruct (f y) eqn:E; [intros [= ->]; split; [left|done]|].
  intros [H ?]%IH; split; [by right|done].
Qed.

Lemma find_first_None {A} (f : A -> bool) (l : list A) :
  find_first f l = None <-> forall x, x ∈ l -> f x = false.
Proof.
  induction l as [|y l IH]; simpl.
  - split; [intros _ x H; inversion H|done].
  - destruct (f y) eqn:E; split; intros H.
    + done.
    + specialize (H y ltac:(left)). congruence.
    + intros x [->|Hx]%elem_of_cons; [done|]. by apply IH.
    + apply IH. intros x Hx. apply H. by right.
Qed.

Lemma contains_spec {A} `{EqDecision A} (l : list A) (x : A) :
  contains l x = true <-> x ∈ l.
Proof.
  unfold contains. rewrite existsb_exists. split.
  - intros (y & Hy & E%bool_decide_eq_true). subst. by apply list_elem_of_In.
  - intros Hx%list_elem_of_In. exists x. split; [done|]. by apply bool_decide_eq_true.
Qed.

(** [sort_by]: a stable insertion sort; equal elements keep their order. *)
Section stable_sort.
Context {A : Type} (le : A -> A -> bool).

Fixpoint insert_le (x : A) (l : list A) : list A :=
  match l with
  | [] => [x]
  | y :: l' => if le y x then y :: insert_le x l' else x :: l
  end.

Definition sort_by (l : list A) : list A := foldl (fun acc x => insert_le x acc) [] l.

Lemma insert_le_perm x l : insert_le x l ≡ₚ x :: l.
Proof.
  induction l as [|y l IH]; simpl; [done|]. case_match; [|done].
  rewrite IH. constructor.
Qed.

Lemma sort_by_perm l : sort_by l ≡ₚ l.
Proof.
  unfold sort_by. cut (forall acc, foldl (fun acc x => insert_le x acc) acc l ≡ₚ acc ++ l).
  { intros H. apply (H []). }
  induction l as [|x l IH]; intros acc; simpl; [by rewrite app_nil_r|].
  rewrite IH, insert_le_perm. by rewrite <- Permutation_middle.
Qed.

Context (le_total : forall a b, le a b = true \/ le b a = true).
Context (le_trans : forall a b c, le a b = true -> le b c = true -> le a c = true).

Lemma insert_le_sorted x l :
  StronglySorted (fun a b => le a b = true) l ->
  StronglySorted (fun a b => le a b = true) (insert_le x l).
Proof.
  induction 1 as [|y l Hl IH HF]; simpl; [repeat constructor|].
  destruct (le y x) eqn:E.
  - constructor; [done|]. rewrite insert_le_perm. by constructor.
  - assert (Hxy : le x y = true) by (destruct (le_total x y); congruence).
    constructor; [by constructor|]. constructor; [done|].
    eapply Forall_impl; [exact HF|]. intros z Hz. by eapply le_trans.
Qed.

Lemma sort_by_sorted l : StronglySorted (fun a b => le a b = true) (sort_by l).
Proof.
  unfold sort_by. cut (forall acc, StronglySorted (fun a b => le a b = true) acc ->
    StronglySorted (fun a b => le a b = true) (foldl (fun acc x => insert_le x acc) acc l)).
  { intros H. apply H. constructor. }
  induction l as [|x l IH]; intros acc Hacc; simpl; [done|]. by apply IH, insert_le_sorted.
Qed.
End stable_sort.

Lemma StronglySorted_impl {A} (R R' : A -> A -> Prop) l :
  (forall a b, R a b -> R' a b) -> StronglySorted R l -> StronglySorted R' l.
Proof.
  intros H. induction 1; constructor; [done|]. eapply Forall_impl; eauto.
Qed.

(** [dedup]: consecutive equal elements collapse to the first. *)
Fixpoint dedup {A} `{EqDecision A} (l : list A) : list A :=
  match l with
  | [] => []
  | x :: l' =>
      match dedup l' with
      | y :: l'' => if bool_decide (x = y) then y :: l'' else x :: y :: l''
      | [] => [x]
      end
  end.

Lemma elem_of_dedup {A} `{EqDecision A} (l : list A) x : x ∈ dedup l <-> x ∈ l.
Proof.
  induction l as [|y l IH]; simpl; [done|]. rewrite elem_of_cons, <- IH.
  destruct (dedup l) as [|z l']; [by rewrite elem_of_cons|].
  case_bool_decide as E; [subst|by rewrite (elem_of_cons (z :: l'))].
  rewrite elem_of_cons. tauto.
Qed.

Fixpoint drop_while {A} (f : A -> bool) (l : list A) : list A :=
  match l with
  | [] => []
  | x :: rest => if f x then drop_while f rest else l
  end.

Definition reduce_list {A} (f : A -> A -> A) (l : list A) : option A :=
  match l with [] => None | x :: l => Some (foldl f x l) end.

Fixpoint take_while {A} (f : A -> bool) (l : list A) : list A :=
  match l with
  | [] => []
  | x :: l => if f x then x :: take_while f l else []
  end.

(** ** Machine-width integers *)

Definition u8_max : Z := 2 ^ 8 - 1.
Definition u16_max : Z := 2 ^ 16 - 1.
Definition u32_max : Z := 2 ^ 32 - 1.
Definition u64_max : Z := 2 ^ 64 - 1.
Definition u128_max : Z := 2 ^ 128 - 1.
Definition i64_max : Z := 2 ^ 63 - 1.
Definition i64_min : Z := - 2 ^ 63.

(** An [as uN] cast of a wider integer, and [wrapping_*]. *)
Definition wrap_u (w : Z) (x : Z) : Z := x mod 2 ^ w.

(** [saturating_sub] at zero and [saturating_add] at the width's maximum. *)
Definition sat_sub (x y : Z) : Z := Z.max 0 (x - y).
Definition sat_add (top x y : Z) : Z := Z.min top (x + y).

Lemma wrap_u_small w x : 0 <= x < 2 ^ w -> wrap_u w x = x.
Proof. apply Z.mod_small. Qed.

Lemma wrap_u_bound w x : 0 <= w -> 0 <= wrap_u w x < 2 ^ w.
Proof. intros. apply Z.mod_pos_bound. by apply Z.pow_pos_nonneg. Qed.

(** ** Instants and durations

    A [chrono::DateTime<Utc>] is carried as its nanosecond count since the epoch and
    a [chrono::Duration] as a nanosecond count. *)

Abbreviation Ts := Z (only parsing).
Abbreviation Duration := Z (only parsing).

Definition ns_per_ms : Z := 10 ^ 6.
Definition ns_per_sec : Z := 10 ^ 9.
Definition ns_per_day : Z := 86400 * ns_per_sec.

Definition dur_milliseconds (n : Z) : Duration := n * ns_per_ms.
Definition dur_seconds (n : Z) : Duration := n * ns_per_sec.
Definition dur_hours (n : Z) : Duration := n * 3600 * ns_per_sec.
Definition dur_days (n : Z) : Duration := n * ns_per_day.

(** Whole units of a duration, truncated toward zero. *)
Definition num_seconds (d : Duration) : Z := Z.quot d ns_per_sec.
Definition num_milliseconds (d : Duration) : Z := Z.quot d ns_per_ms.

(** The UTC calendar day of an instant ([date_naive]), as a day number. *)
Definition utc_day (t : Ts) : Z := t / ns_per_day.

(** ** Ordered maps

    A Rust [BTreeMap] is a [gmap] whose iteration goes over its entries in key order. *)

Class KeyOrd (K : Type) := {
  key_leb : K -> K -> bool;
  key_leb_total : forall a b, key_leb a b = true \/ key_leb b a = true;
  key_leb_trans : forall a b c, key_leb a b = true -> key_leb b c = true -> key_leb a c = true;
  key_leb_antisym : forall a b, key_leb a b = true -> key_leb b a = true -> a = b;
}.

#[export] Program Instance Z_key_ord : KeyOrd Z := {| key_leb := Z.leb |}.
Next Obligation. intros; lia. Qed.
Next Obligation. intros; lia. Qed.
Next Obligation. intros; lia. Qed.

#[export] Program Instance string_key_ord : KeyOrd string := {| key_leb := String.leb |}.
Next Obligation.
  intros a b. unfold String.leb. rewrite (String.compare_antisym a b).
  destruct (String.compare b a); simpl; auto.
Qed.
Next Obligation.
  intros a. induction a as [|c a IH]; intros [|d b] [|e k]; unfold String.leb in *; simpl; try done.
  unfold Ascii.compare in *.
  destruct (N.compare_spec (Ascii.N_of_ascii c) (Ascii.N_of_ascii d)) as [E1|E1|E1]; try done;
  destruct (N.compare_spec (Ascii.N_of_ascii d) (Ascii.N_of_ascii e)) as [E2|E2|E2]; try done;
  destruct (N.compare_spec (Ascii.N_of_ascii c) (Ascii.N_of_ascii e)) as [E3|E3|E3]; try done; try lia.
  apply IH.
Qed.
Next Obligation.
  intros a b. unfold String.leb. rewrite (String.compare_antisym a b).
  destruct (String.compare b a) eqn:E; simpl; try done.
  intros _ _. symmetry. by apply String.compare_eq_iff.
Qed.

Section ordered_maps.
Context `{Countable K, !KeyOrd K} {V : Type}.
Implicit Types (m : gmap K V).

Definition entry_le (a b : K * V) : Prop := key_leb a.1 b.1 = true.

#[export] Instance entry_le_dec : forall a b, Decision (entry_le a b).
Proof. unfold entry_le. intros. apply _. Defined.

#[export] Instance entry_le_total : Total entry_le.
Proof. intros a b. apply key_leb_total. Qed.

#[export] Instance entry_le_trans : Transitive entry_le.
Proof. intros a b c. apply key_leb_trans. Qed.

(** [iter] over a map: its entries in increasing key order. *)
Definition entries m : list (K * V) := merge_sort entry_le (map_to_list m).

Definition keys m : list K := (entries m).*1.
Definition values m : list V := (entries m).*2.

Lemma entries_permutation m : entries m ≡ₚ map_to_list m.
Proof. apply merge_sort_Permutation. Qed.

Lemma entries_sorted m : StronglySorted entry_le (entries m).
Proof. apply StronglySorted_merge_sort; apply _. Qed.

Lemma elem_of_entries m k v : (k, v) ∈ entries m <-> m !! k = Some v.
Proof. rewrite entries_permutation. apply elem_of_map_to_list. Qed.

Lemma elem_of_keys m k : k ∈ keys m <-> is_Some (m !! k).
Proof.
  unfold keys. rewrite list_elem_of_fmap. split.
  - intros ([k' v] & -> & Hin%elem_of_entries). by eexists.
  - intros [v Hv]. exists (k, v). split; [done|]. by apply elem_of_entries.
Qed.

Lemma elem_of_values m v : v ∈ values m <-> exists k, m !! k = Some v.
Proof.
  unfold values. rewrite list_elem_of_fmap. split.
  - intros ([k v'] & -> & Hin%elem_of_entries). by eexists.
  - intros [k Hk]. exists (k, v). split; [done|]. by apply elem_of_entries.
Qed.

Lemma keys_NoDup m : NoDup (keys m).
Proof. unfold keys. rewrite entries_permutation. apply NoDup_fst_map_to_list. Qed.

Lemma entries_length m : length (entries m) = size m.
Proof. rewrite entries_permutation. apply length_map_to_list. Qed.

Lemma list_to_map_entries m : list_to_map (entries m) = m.
Proof.
  rewrite (list_to_map_proper (M := gmap K) (entries m) (map_to_list m)).
  - apply list_to_map_to_list.
  - apply keys_NoDup.
  - apply entries_permutation.
Qed.

(** A map rebuilt from its entries, each value changed. *)
Lemma lookup_map_entries {W} (f : K -> V -> W) m k :
  (list_to_map ((fun e => (e.1, f e.1 e.2)) <$> entries m) : gmap K W) !! k = f k <$> m !! k.
Proof.
  assert (Hk : ((fun e => (e.1, f e.1 e.2)) <$> entries m).*1 = keys m)
    by (unfold keys; rewrite <- list_fmap_compose; by apply list_fmap_ext).
  destruct (m !! k) as [v|] eqn:Hm; simpl.
  - apply elem_of_list_to_map_1; [rewrite Hk; apply keys_NoDup|].
    apply list_elem_of_fmap. exists (k, v). split; [done|]. by apply elem_of_entries.
  - apply not_elem_of_list_to_map_1. rewrite Hk, elem_of_keys, Hm. by intros [].
Qed.
End ordered_maps.

(** [values_mut] over a map. *)
Definition map_values `{Countable K} {V W} (f : V -> W) (m : gmap K V) : gmap K W := f <$> m.

(** ** Proof automation *)

(** Case on every boolean test and [match] scrutinee of the goal, one step. *)
Ltac case_step :=
  match goal with
  | |- context [match ?x with _ => _ end] => destruct x eqn:?
  end.

Ltac case_step_in H :=
  match type of H with
  | context [match ?x with _ => _ end] => destruct x eqn:?
  end.

(** Turn boolean connectives in the context into propositions. *)
Ltac bool_to_prop :=
  repeat match goal with
  | H : _ && _ = true |- _ => apply andb_true_iff in H; destruct H
  | H : _ || _ = false |- _ => apply orb_false_iff in H; destruct H
  | H : negb _ = true |- _ => apply negb_true_iff in H
  | H : negb _ = false |- _ => apply negb_false_iff in H
  | H : (_ <? _) = true |- _ => apply Z.ltb_lt in H
  | H : (_ <? _) = false |- _ => apply Z.ltb_ge in H
  | H : (_ <=? _) = true |- _ => apply Z.leb_le in H
  | H : (_ <=? _) = false |- _ => apply Z.leb_gt in H
  | H : (_ =? _) = true |- _ => apply Z.eqb_eq in H
  | H : (_ =? _) = false |- _ => apply Z.eqb_neq in H
  | H : bool_decide _ = true |- _ => apply bool_decide_eq_true in H
  | H : bool_decide _ = false |- _ => apply bool_decide_eq_false in H
  end.

Create HintDb engine.
#[export] Hint Resolve elem_of_entries keys_NoDup entries_sorted : engine.
