(* ===== verification/Float64.v ===== *)
(** * Float64: the [f64] of the source

    An [f64] is the Standard Library's executable IEEE-754 float at binary64
    parameters ([SpecFloat], precision 53, maximal exponent 1024): arithmetic rounds to
    nearest even, comparisons are false on [NaN].  The file defines the operations and
    casts the engine uses and proves the order facts its comparisons rely on. *)

From Stdlib Require Export SpecFloat.
From S2P Require Export Prelude.

Abbreviation f64 := spec_float (only parsing).

Definition fadd : f64 -> f64 -> f64 := SFadd 53 1024.
Definition fsub : f64 -> f64 -> f64 := SFsub 53 1024.
Definition fmul : f64 -> f64 -> f64 := SFmul 53 1024.
Definition fdiv : f64 -> f64 -> f64 := SFdiv 53 1024.
Definition fabs : f64 -> f64 := SFabs.
Definition fneg : f64 -> f64 := SFopp.

Definition f_nan : f64 := S754_nan.
Definition f_zero : f64 := S754_zero false.
Definition f_inf : f64 := S754_infinity false.
Definition f_neg_inf : f64 := S754_infinity true.

(** [x as f64] of an integer, and the literal [n / 10^k]. *)
Definition f_of_Z (z : Z) : f64 := binary_normalize 53 1024 z 0 false.
Definition f_dec (n : Z) (k : Z) : f64 := fdiv (f_of_Z n) (f_of_Z (10 ^ k)).

Definition flt (x y : f64) : bool := SFltb x y.
Definition fle (x y : f64) : bool := SFleb x y.
Definition feq (x y : f64) : bool := SFeqb x y.
Definition fgt (x y : f64) : bool := flt y x.
Definition fge (x y : f64) : bool := fle y x.

Notation "x '<.' y" := (flt x y) (at level 70) : engine_scope.
Notation "x '<=.' y" := (fle x y) (at level 70) : engine_scope.
Notation "x '=.' y" := (feq x y) (at level 70) : engine_scope.
Notation "x '>.' y" := (fgt x y) (at level 70) : engine_scope.
Notation "x '>=.' y" := (fge x y) (at level 70) : engine_scope.
Notation "x '⊕' y" := (fadd x y) (at level 50, left associativity) : engine_scope.
Notation "x '⊖' y" := (fsub x y) (at level 50, left associativity) : engine_scope.
Notation "x '⊗' y" := (fmul x y) (at level 40, left associativity) : engine_scope.
Notation "x '⊘' y" := (fdiv x y) (at level 40, left associativity) : engine_scope.

Definition is_nan (x : f64) : bool := match x with S754_nan => true | _ => false end.

Definition is_finite (x : f64) : bool :=
  match x with S754_zero _ | S754_finite _ _ _ => true | _ => false end.

(** [is_sign_negative]; a [NaN] is given no sign. *)
Definition is_sign_negative (x : f64) : bool :=
  match x with S754_zero s | S754_infinity s | S754_finite s _ _ => s | S754_nan => false end.

(** [f64::max] and [f64::min]: a [NaN] operand yields the other one. *)
Definition fmax (x y : f64) : f64 :=
  if is_nan x then y else if is_nan y then x else if flt x y then y else x.
Definition fmin (x y : f64) : f64 :=
  if is_nan x then y else if is_nan y then x else if flt y x then y else x.

(** [clamp lo hi]. *)
Definition fclamp (x lo hi : f64) : f64 :=
  if flt x lo then lo else if flt hi x then hi else x.

(** The integer part of a finite float, toward zero. *)
Definition f_trunc (x : f64) : Z :=
  match x with
  | S754_finite s m e =>
      let a := if 0 <=? e then Z.pos m * 2 ^ e else Z.pos m / 2 ^ (- e) in
      if s then - a else a
  | _ => 0
  end.

(** [x as iN] / [x as uN]: truncation toward zero, saturating; [NaN] is zero. *)
Definition f_as_int (lo hi : Z) (x : f64) : Z :=
  match x with
  | S754_nan => 0
  | S754_infinity s => if s then lo else hi
  | _ => Z.max lo (Z.min hi (f_trunc x))
  end.

Definition f_as_u64 : f64 -> Z := f_as_int 0 u64_max.
Definition f_as_u32 : f64 -> Z := f_as_int 0 u32_max.
Definition f_as_u16 : f64 -> Z := f_as_int 0 u16_max.
Definition f_as_i64 : f64 -> Z := f_as_int i64_min i64_max.

(** A signed integral float, keeping the sign of a zero. *)
Definition f_signed (s : bool) (z : Z) : f64 :=
  if z =? 0 then S754_zero s else binary_normalize 53 1024 (if s then - z else z) 0 false.

(** [round] (half away from zero) and [ceil]. *)
Definition fround (x : f64) : f64 :=
  match x with
  | S754_finite s m e =>
      if 0 <=? e then x else f_signed s ((2 * Z.pos m + 2 ^ (- e)) / 2 ^ (1 - e))
  | _ => x
  end.

Definition fceil (x : f64) : f64 :=
  match x with
  | S754_finite s m e =>
      if 0 <=? e then x
      else f_signed s (if s then Z.pos m / 2 ^ (- e) else (Z.pos m + 2 ^ (- e) - 1) / 2 ^ (- e))
  | _ => x
  end.

(** [fract() == 0.0]. *)
Definition f_integral (x : f64) : bool :=
  match x with
  | S754_zero _ => true
  | S754_finite _ m e => (0 <=? e) || (Z.pos m mod 2 ^ (- e) =? 0)
  | _ => false
  end.

(** ** Order

    A float that is not [NaN] is compared by the key (class, exponent, mantissa). *)

Definition fkey (x : f64) : Z * Z * Z :=
  match x with
  | S754_infinity true => (-2, 0, 0)
  | S754_finite true m e => (-1, - e, - Z.pos m)
  | S754_zero _ | S754_nan => (0, 0, 0)
  | S754_finite false m e => (1, e, Z.pos m)
  | S754_infinity false => (2, 0, 0)
  end.

Definition klt (a b : Z * Z * Z) : Prop :=
  a.1.1 < b.1.1 \/ (a.1.1 = b.1.1 /\ (a.1.2 < b.1.2 \/ (a.1.2 = b.1.2 /\ a.2 < b.2))).

Definition keq (a b : Z * Z * Z) : Prop := a.1.1 = b.1.1 /\ a.1.2 = b.1.2 /\ a.2 = b.2.

Lemma SFcompare_spec x y :
  is_nan x = false -> is_nan y = false ->
  match SFcompare x y with
  | Some Lt => klt (fkey x) (fkey y)
  | Some Eq => keq (fkey x) (fkey y)
  | Some Gt => klt (fkey y) (fkey x)
  | None => False
  end.
Proof.
  intros Hx Hy.
  destruct x as [[]|[]| |[] m1 e1]; destruct y as [[]|[]| |[] m2 e2]; try done;
    unfold klt, keq; simpl; try lia.
  all: destruct (Z.compare_spec e1 e2); simpl; try lia.
  all: change (Pos.compare_cont Eq m1 m2) with (Pos.compare m1 m2);
       destruct (Pos.compare_spec m1 m2); simpl; subst; lia.
Qed.

Lemma flt_key x y : (x <. y) = true <-> is_nan x = false /\ is_nan y = false /\ klt (fkey x) (fkey y).
Proof.
  unfold flt, SFltb. destruct (is_nan x) eqn:Hx.
  { destruct x; try done. split; [done|by intros (? & _)]. }
  destruct (is_nan y) eqn:Hy.
  { destruct y; try done. destruct x as [[]|[]| |[]]; (split; [done|by intros (_ & ? & _)]). }
  pose proof (SFcompare_spec x y Hx Hy) as H. unfold klt, keq in *.
  destruct (SFcompare x y) as [[]|]; try done; split; try done; try tauto; intros (_ & _ & ?); lia.
Qed.

Lemma fle_key x y :
  (x <=. y) = true <->
  is_nan x = false /\ is_nan y = false /\ (klt (fkey x) (fkey y) \/ keq (fkey x) (fkey y)).
Proof.
  unfold fle, SFleb. destruct (is_nan x) eqn:Hx.
  { destruct x; try done. split; [done|by intros (? & _)]. }
  destruct (is_nan y) eqn:Hy.
  { destruct y; try done. destruct x as [[]|[]| |[]]; (split; [done|by intros (_ & ? & _)]). }
  pose proof (SFcompare_spec x y Hx Hy) as H. unfold klt, keq in *.
  destruct (SFcompare x y) as [[]|]; try done; split; try done; try tauto; intros (_ & _ & ?); lia.
Qed.

(** One tactic for order goals between floats: keys, then linear arithmetic. *)
Ltac forder :=
  unfold fgt, fge in *;
  repeat match goal with
  | H : flt _ _ = true |- _ => apply flt_key in H; destruct H as (? & ? & ?)
  | H : fle _ _ = true |- _ => apply fle_key in H; destruct H as (? & ? & ?)
  end;
  repeat match goal with
  | |- flt _ _ = true => apply flt_key; split_and!
  | |- fle _ _ = true => apply fle_key; split_and!
  end; try congruence; unfold klt, keq in *; try lia.

Lemma flt_irrefl x : (x <. x) = false.
Proof. apply not_true_is_false. intros H. forder. Qed.

Lemma flt_trans x y z : (x <. y) = true -> (y <. z) = true -> (x <. z) = true.
Proof. intros. forder. Qed.

Lemma fle_trans x y z : (x <=. y) = true -> (y <=. z) = true -> (x <=. z) = true.
Proof. intros. forder. Qed.

Lemma flt_fle_trans x y z : (x <. y) = true -> (y <=. z) = true -> (x <. z) = true.
Proof. intros. forder. Qed.

Lemma fle_flt_trans x y z : (x <=. y) = true -> (y <. z) = true -> (x <. z) = true.
Proof. intros. forder. Qed.

Lemma flt_fle x y : (x <. y) = true -> (x <=. y) = true.
Proof. intros. forder. Qed.

Lemma flt_not_fle x y : (x <. y) = true -> (y <=. x) = false.
Proof. intros H. apply not_true_is_false. intros H'. forder. Qed.

Lemma fle_not_flt x y : (x <=. y) = true -> (y <. x) = false.
Proof. intros H. apply not_true_is_false. intros H'. forder. Qed.

Lemma fle_refl x : is_nan x = false -> (x <=. x) = true.
Proof. intros. forder. Qed.

Lemma is_finite_not_nan x : is_finite x = true -> is_nan x = false.
Proof. by destruct x. Qed.

Lemma flt_total x y :
  is_nan x = false -> is_nan y = false -> (x <. y) = false -> (y <=. x) = true.
Proof.
  intros Hx Hy H. apply not_true_iff_false in H. rewrite flt_key in H.
  assert (~ klt (fkey x) (fkey y)) by tauto.
  apply fle_key. split_and!; try done. unfold klt, keq in *. lia.
Qed.

Lemma fle_total x y :
  is_nan x = false -> is_nan y = false -> (x <=. y) = false -> (y <. x) = true.
Proof.
  intros Hx Hy H. apply not_true_iff_false in H. rewrite fle_key in H.
  assert (~ (klt (fkey x) (fkey y) \/ keq (fkey x) (fkey y))) by tauto.
  apply flt_key. split_and!; try done. unfold klt, keq in *. lia.
Qed.

(** A comparison with [NaN] on either side is false. *)
Lemma flt_nan_l x : (f_nan <. x) = false.
Proof. by destruct x. Qed.
Lemma flt_nan_r x : (x <. f_nan) = false.
Proof. by destruct x as [[]|[]| |[]]. Qed.
Lemma fle_nan_l x : (f_nan <=. x) = false.
Proof. by destruct x. Qed.
Lemma fle_nan_r x : (x <=. f_nan) = false.
Proof. by destruct x as [[]|[]| |[]]. Qed.

(** [max] is an upper bound of its operands that are not [NaN]. *)
Lemma fmax_ge_l x y : is_nan x = false -> (x <=. fmax x y) = true.
Proof.
  intros Hx. unfold fmax. rewrite Hx. destruct (is_nan y) eqn:Hy; [by apply fle_refl|].
  destruct (flt x y) eqn:E; [by apply flt_fle|by apply fle_refl].
Qed.

Lemma fmax_ge_r x y : is_nan y = false -> (y <=. fmax x y) = true.
Proof.
  intros Hy. unfold fmax. destruct (is_nan x) eqn:Hx; [by apply fle_refl|]. rewrite Hy.
  destruct (flt x y) eqn:E; [by apply fle_refl|by apply flt_total].
Qed.

#[export] Hint Resolve flt_irrefl flt_fle fle_refl is_finite_not_nan flt_not_fle fle_not_flt : engine.
