(* ===== verification/Text.v ===== *)
(** * Text: the [str] operations of the source on UTF-8 bytes

    A [str] is its UTF-8 bytes.  [trim] removes the code points of [White_Space], each
    given by its encoding; splitting, prefixes and the parse of unsigned integers work on
    bytes, which for valid UTF-8 is the same. *)

From Stdlib Require Export Ascii.
From S2P Require Export Prelude.

Definition byte_at (c : ascii) : Z := Z.of_N (N_of_ascii c).

Definition of_bytes (bs : list nat) : string := String.string_of_list_ascii (map ascii_of_nat bs).

Definition chars : string -> list ascii := String.list_ascii_of_string.

Definition string_rev (s : string) : string := String.string_of_list_ascii (rev (chars s)).

Fixpoint strip_prefix (p s : string) : option string :=
  match p, s with
  | EmptyString, _ => Some s
  | String a p, String b s => if Ascii.eqb a b then strip_prefix p s else None
  | String _ _, EmptyString => None
  end.

(** ** White space *)

Definition white_space : list string :=
  map of_bytes
    ([[9]; [10]; [11]; [12]; [13]; [32]; [194; 133]; [194; 160]; [225; 154; 128]]
     ++ map (fun b => [226; 128; b]) [128; 129; 130; 131; 132; 133; 134; 135; 136; 137; 138; 168; 169; 175]
     ++ [[226; 129; 159]; [227; 128; 128]])%nat.

Fixpoint trim_by (spaces : list string) (fuel : nat) (s : string) : string :=
  match fuel with
  | O => s
  | S fuel =>
      match find_map (fun w => strip_prefix w s) spaces with
      | Some r => trim_by spaces fuel r
      | None => s
      end
  end.

Definition trim_start (s : string) : string := trim_by white_space (String.length s) s.

Definition trim_back (s : string) : string :=
  string_rev (trim_by (map string_rev white_space) (String.length s) (string_rev s)).

Definition trim (s : string) : string := trim_back (trim_start s).

(** [strip_suffix]. *)
Definition strip_suffix (sfx s : string) : option string :=
  string_rev <$> strip_prefix (string_rev sfx) (string_rev s).

(** ** Splitting *)

(** [split_once]: around the first occurrence of a separator. *)
Fixpoint split_once (sep s : string) : option (string * string) :=
  match strip_prefix sep s with
  | Some r => Some (EmptyString, r)
  | None =>
      match s with
      | EmptyString => None
      | String c s => (fun p => (String c p.1, p.2)) <$> split_once sep s
      end
  end.

(** [split] at a byte. *)
Fixpoint split_on (sep : ascii) (s : string) : list string :=
  match s with
  | EmptyString => [EmptyString]
  | String c s =>
      if Ascii.eqb c sep then EmptyString :: split_on sep s
      else match split_on sep s with
           | piece :: rest => String c piece :: rest
           | [] => [String c EmptyString]
           end
  end.

Fixpoint join (sep : string) (l : list string) : string :=
  match l with
  | [] => EmptyString
  | [s] => s
  | s :: rest => s +:+ sep +:+ join sep rest
  end.

(** [trim_end_matches] of one byte. *)
Fixpoint trim_end_byte (c : ascii) (s : string) : string :=
  match s with
  | EmptyString => EmptyString
  | String a s' =>
      match trim_end_byte c s' with
      | EmptyString => if Ascii.eqb a c then EmptyString else String a EmptyString
      | t => String a t
      end
  end.

(** ** Unsigned integers *)

Definition digit_of (c : ascii) : option Z :=
  let n := byte_at c - 48 in if (0 <=? n) && (n <=? 9) then Some n else None.

Fixpoint all_digits (s : string) : bool :=
  match s with EmptyString => true | String c s => is_someb (digit_of c) && all_digits s end.

(** The digit loop of [from_str_radix]: [None] past [top]. *)
Fixpoint parse_digits (top acc : Z) (s : string) : option Z :=
  match s with
  | EmptyString => Some acc
  | String c s =>
      match digit_of c with
      | Some d => let v := 10 * acc + d in if top <? v then None else parse_digits top v s
      | None => None
      end
  end.

(** [str::parse] of an unsigned integer: an optional plus sign, then digits. *)
Definition parse_uint (top : Z) (s : string) : option Z :=
  let s := match s with String c r => if Ascii.eqb c "+" then r else s | EmptyString => s end in
  match s with EmptyString => None | _ => parse_digits top 0 s end.

(** ** Lemmas *)

Lemma chars_app a b : chars (a +:+ b) = chars a ++ chars b.
Proof. induction a as [|c a IH]; simpl; [done|]. by rewrite IH. Qed.

Lemma chars_inj a b : chars a = chars b -> a = b.
Proof.
  intros E. rewrite <- (String.string_of_list_ascii_of_string a), <- (String.string_of_list_ascii_of_string b).
  unfold chars in E. by rewrite E.
Qed.

Lemma string_rev_chars s : chars (string_rev s) = rev (chars s).
Proof. apply String.list_ascii_of_string_of_list_ascii. Qed.

Lemma string_rev_involutive s : string_rev (string_rev s) = s.
Proof. apply chars_inj. by rewrite !string_rev_chars, rev_involutive. Qed.

Lemma string_rev_app a b : string_rev (a +:+ b) = string_rev b +:+ string_rev a.
Proof. apply chars_inj. by rewrite chars_app, !string_rev_chars, chars_app, rev_app_distr. Qed.

Lemma length_chars s : String.length s = length (chars s).
Proof. induction s; simpl; congruence. Qed.

Lemma string_rev_length s : String.length (string_rev s) = String.length s.
Proof. by rewrite !length_chars, string_rev_chars, length_rev. Qed.

Lemma append_assoc a b c : (a +:+ b) +:+ c = a +:+ (b +:+ c).
Proof. apply chars_inj. rewrite !chars_app. symmetry. apply app_assoc. Qed.

Lemma append_nil a : a +:+ "" = a.
Proof. apply chars_inj. by rewrite chars_app, app_nil_r. Qed.

Lemma strip_prefix_app p s : strip_prefix p (p +:+ s) = Some s.
Proof. induction p as [|c p IH]; simpl; [done|]. by rewrite Ascii.eqb_refl. Qed.

(** A printable ASCII byte starts or ends no white space. *)
Definition plain (c : ascii) : bool := (33 <=? byte_at c) && (byte_at c <=? 126).

Definition first_plain (s : string) : bool := match s with String c _ => plain c | EmptyString => true end.

Lemma strip_other a p c s : Ascii.eqb a c = false -> strip_prefix (String a p) (String c s) = None.
Proof. intros E. simpl. by rewrite E. Qed.

Lemma trim_by_plain spaces fuel s :
  forallb (fun w => match w with String a _ => negb (plain a) | EmptyString => false end) spaces = true ->
  first_plain s = true -> trim_by spaces fuel s = s.
Proof.
  intros Hw Hs. destruct fuel as [|fuel]; [done|]. cbn [trim_by].
  replace (find_map _ spaces) with (@None string); [done|]. symmetry.
  induction spaces as [|w spaces IH]; simpl; [done|]. simpl in Hw. apply andb_prop in Hw as [Hwa Hw].
  destruct w as [|a w]; [done|]. destruct s as [|c s]; [by apply IH|].
  rewrite strip_other; [by apply IH|]. apply Ascii.eqb_neq. intros ->. simpl in Hs. by rewrite Hs in Hwa.
Qed.

Lemma trim_start_plain s : first_plain s = true -> trim_start s = s.
Proof. apply trim_by_plain. vm_compute. reflexivity. Qed.

Lemma trim_back_plain s : first_plain (string_rev s) = true -> trim_back s = s.
Proof.
  intros Hs. unfold trim_back. rewrite trim_by_plain; [apply string_rev_involutive| |done].
  vm_compute. reflexivity.
Qed.

Lemma trim_start_space s : trim_start (" " +:+ s) = trim_start s.
Proof. unfold trim_start. cbn. reflexivity. Qed.

Lemma trim_back_space s : trim_back (s +:+ " ") = trim_back s.
Proof.
  unfold trim_back. f_equal. rewrite string_rev_app.
  replace (String.length (s +:+ " ")) with (S (String.length s))
    by (rewrite !length_chars, chars_app, length_app; simpl; lia).
  reflexivity.
Qed.

(** A text that is not empty and has no white space at its ends. *)
Definition tight (s : string) : Prop :=
  s <> "" /\ first_plain s = true /\ first_plain (string_rev s) = true.

Lemma trim_tight s : tight s -> trim s = s.
Proof. intros (_ & H1 & H2). unfold trim. rewrite trim_start_plain by done. by apply trim_back_plain. Qed.

Lemma first_plain_app s t : s <> "" -> first_plain (s +:+ t) = first_plain s.
Proof. by destruct s. Qed.

Lemma trim_after s : tight s -> trim (s +:+ " ") = s.
Proof.
  intros (Hne & H1 & H2). unfold trim. rewrite trim_start_plain by (by rewrite first_plain_app).
  rewrite trim_back_space. by apply trim_back_plain.
Qed.

Lemma trim_before s : tight s -> trim (" " +:+ s) = s.
Proof. intros Hs. unfold trim. rewrite trim_start_space. by apply trim_tight. Qed.

Lemma trim_around s : tight s -> trim (" " +:+ s +:+ " ") = s.
Proof. intros Hs. unfold trim. rewrite trim_start_space. by apply trim_after. Qed.

Lemma plain_tight s : s <> "" -> Forall (fun c => plain c = true) (chars s) -> tight s.
Proof.
  intros Hne H. split_and!; [done| |].
  - destruct s; [done|]. by apply Forall_cons in H as [H _].
  - assert (H' : Forall (fun c => plain c = true) (chars (string_rev s))).
    { rewrite string_rev_chars. apply Forall_rev, H. }
    destruct (string_rev s); [done|]. by apply Forall_cons in H' as [H' _].
Qed.

(** *** Decimal texts *)

Definition is_digit (c : ascii) : bool := is_someb (digit_of c).

Lemma digit_of_char d : (d < 10)%N -> digit_of (pretty_N_char d) = Some (Z.of_N d).
Proof.
  intros H. assert (d = 0 \/ d = 1 \/ d = 2 \/ d = 3 \/ d = 4 \/ d = 5 \/ d = 6 \/ d = 7 \/ d = 8 \/ d = 9)%N by lia.
  by repeat match goal with H : _ \/ _ |- _ => destruct H as [->|H] | H : d = _ |- _ => subst d end.
Qed.

Lemma digit_plain c : is_digit c = true -> plain c = true.
Proof. unfold is_digit, digit_of, plain. destruct (_ && _) eqn:E; [|done]. lia. Qed.

Lemma digit_chars x s P : (forall c, is_digit c = true -> P c) -> Forall P (chars s) -> Forall P (chars (pretty_N_go x s)).
Proof.
  intros HP. revert s. induction (N.lt_wf_0 x) as [x _ IH]. intros s Hs.
  destruct (decide (0 < x)%N) as [Hx|Hx].
  - rewrite pretty_N_go_step by done. apply IH; [by apply N.div_lt|].
    constructor; [|done]. apply HP. unfold is_digit. by rewrite digit_of_char by (by apply N.mod_lt).
  - replace x with 0%N by lia. by rewrite pretty_N_go_0.
Qed.

Lemma parse_digits_go top x s : Z.of_N x <= top -> parse_digits top 0 (pretty_N_go x s) = parse_digits top (Z.of_N x) s.
Proof.
  revert s. induction (N.lt_wf_0 x) as [x _ IH]. intros s Hx.
  destruct (decide (0 < x)%N) as [Hp|Hp].
  - rewrite pretty_N_go_step by done.
    pose proof (N.div_mod x 10). pose proof (N.mod_lt x 10).
    assert (x `div` 10 < x)%N by (apply N.div_lt; lia). rewrite IH by lia. simpl.
    rewrite digit_of_char by lia.
    replace (10 * Z.of_N (x / 10) + Z.of_N (x mod 10)) with (Z.of_N x) by lia.
    destruct (Z.ltb_spec top (Z.of_N x)); [lia|done].
  - replace x with 0%N by lia. by rewrite pretty_N_go_0.
Qed.

Lemma pretty_nonempty_go x s : s <> "" -> pretty_N_go x s <> "".
Proof.
  revert s. induction (N.lt_wf_0 x) as [x _ IH]. intros s Hs.
  destruct (decide (0 < x)%N) as [Hp|Hp]; [rewrite pretty_N_go_step by done; apply IH; [by apply N.div_lt|done]|].
  replace x with 0%N by lia. by rewrite pretty_N_go_0.
Qed.

Lemma pretty_pos p : pretty (Z.pos p) = pretty_N_go (N.pos p) "".
Proof. done. Qed.

(** The decimal text of a natural number: digits, not empty, and parsed back. *)
Lemma pretty_digits v : 0 <= v -> Forall (fun c => is_digit c = true) (chars (pretty v)).
Proof.
  intros Hv. destruct v as [|p|p]; [repeat constructor| |lia]. rewrite pretty_pos.
  apply digit_chars; [done|constructor].
Qed.

Lemma pretty_nonempty v : 0 <= v -> pretty v <> "".
Proof.
  intros Hv. destruct v as [|p|p]; [done| |lia]. rewrite pretty_pos, pretty_N_go_step by lia.
  by apply pretty_nonempty_go.
Qed.

Lemma parse_pretty top v : 0 <= v <= top -> parse_digits top 0 (pretty v) = Some v.
Proof.
  intros Hv. destruct v as [|p|p]; [|rewrite pretty_pos, parse_digits_go by (simpl; lia); done|lia].
  change (parse_digits top 0 (pretty 0)) with (if top <? 0 then None else Some 0).
  destruct (Z.ltb_spec top 0); [lia|done].
Qed.

Lemma parse_uint_pretty top v : 0 <= v <= top -> parse_uint top (pretty v) = Some v.
Proof.
  intros Hv. pose proof (parse_pretty top v Hv) as Hp.
  pose proof (pretty_digits v ltac:(lia)) as Hd. pose proof (pretty_nonempty v ltac:(lia)) as Hne.
  unfold parse_uint. destruct (pretty v) as [|c s]; [done|]. apply Forall_cons in Hd as [Hc _].
  destruct (Ascii.eqb_spec c "+"); [by subst|done].
Qed.

Lemma all_digits_spec s : all_digits s = true <-> Forall (fun c => is_digit c = true) (chars s).
Proof.
  induction s as [|c s IH]; simpl; [by split|]. by rewrite Forall_cons, andb_true_iff, IH.
Qed.
