(* ===== verification/Hash.v ===== *)
(** * Hash: FNV-1a and the two tallies keyed by it

    [hash.rs], the hash keys of [metrics/trade_keys.rs] the fold computes itself, and
    [fingerprint/identity_launches.rs].  Strings are byte strings. *)

From S2P Require Export Prelude.

Definition FNV_OFFSET : Z := 0xcbf29ce484222325.
Definition FNV_PRIME : Z := 0x100000001b3.

Definition fnv1a_byte (h b : Z) : Z := wrap_u 64 (Z.lxor h b * FNV_PRIME).

Definition byte_of (c : Ascii.ascii) : Z := Z.of_N (Ascii.N_of_ascii c).

(** [fnv1a_bytes] over the bytes of a string and over a list of byte values. *)
Fixpoint fnv1a_str (h : Z) (s : string) : Z :=
  match s with
  | EmptyString => h
  | String c s => fnv1a_str (fnv1a_byte h (byte_of c)) s
  end.

Definition fnv1a_bytes (h : Z) (bs : list Z) : Z := foldl fnv1a_byte h bs.

(** The eight little-endian bytes of a [u64]. *)
Definition u64_le_bytes (x : Z) : list Z :=
  (fun i => Z.land (Z.shiftr x (8 * Z.of_nat i)) 255) <$> seq 0 8.

(** [trade_keys::ix_hash]: the ordered labels, unit-separated. *)
Fixpoint ix_hash_go (h : Z) (first : bool) (labels : list string) : Z :=
  match labels with
  | [] => h
  | l :: labels =>
      let h := if first then h else fnv1a_byte h 0x1f in
      ix_hash_go (fnv1a_str h l) false labels
  end.

Definition ix_hash (labels : list string) : Z := ix_hash_go FNV_OFFSET true labels.

Definition ix_hash_opt (labels : list string) : option Z :=
  match labels with [] => None | _ => Some (ix_hash labels) end.

Definition wallet_hash (addr : string) : Z := fnv1a_str FNV_OFFSET addr.

(** ** The name-reuse tally *)

Definition NAME_REUSE_WINDOW_DAYS : Z := 30.

Abbreviation IdentityHash := Z (only parsing).

Definition identity_key (build : Z) (identity : IdentityHash) : Z :=
  let h := fnv1a_bytes FNV_OFFSET (u64_le_bytes build) in
  let h := fnv1a_byte h 0x1f in
  fnv1a_bytes h (u64_le_bytes identity).

(** [IdentityLaunches]: key -> (creation time, mint hash), in recording order. *)
Abbreviation IdentityLaunches := (gmap Z (list (Ts * Z))) (only parsing).

Definition il_record (t : IdentityLaunches) (build : Z) (identity : IdentityHash) (at_ : Ts) (mint : Z)
    : IdentityLaunches :=
  let k := identity_key build identity in
  let l := unwrap_or (t !! k) [] in
  <[k := if existsb (fun e => e.2 =? mint) l then l else l ++ [(at_, mint)]]> t.

Definition il_prior (t : IdentityLaunches) (build : Z) (identity : IdentityHash) (at_ : Ts) (mint : Z) : Z :=
  let from := at_ - dur_days NAME_REUSE_WINDOW_DAYS in
  let n := map_or (t !! identity_key build identity) O
             (fun l => length (List.filter (fun e => (e.1 <? at_) && (from <=? e.1) && negb (e.2 =? mint)) l)) in
  if Z.of_nat n <=? u32_max then Z.of_nat n else u32_max.

#[global] Arguments fnv1a_byte : simpl never.
#[global] Arguments identity_key : simpl never.

(** ** Facts *)

Lemma fnv1a_byte_range h b : 0 <= fnv1a_byte h b < 2 ^ 64.
Proof. by apply wrap_u_bound. Qed.

Lemma fnv1a_str_range h s : 0 <= h < 2 ^ 64 -> 0 <= fnv1a_str h s < 2 ^ 64.
Proof. revert h. induction s; intros h Hh; simpl; [done|]. apply IHs, fnv1a_byte_range. Qed.

Lemma wallet_hash_range s : 0 <= wallet_hash s < 2 ^ 64.
Proof. apply fnv1a_str_range. vm_compute; split; congruence. Qed.

(** Recording is idempotent per mint, and only adds to a key's own list. *)
Lemma il_record_lookup_ne t b i at_ m k :
  k <> identity_key b i -> il_record t b i at_ m !! k = t !! k.
Proof. intros. unfold il_record. by rewrite lookup_insert_ne by done. Qed.

Lemma il_record_idem t b i at_ at' m : il_record (il_record t b i at_ m) b i at' m = il_record t b i at_ m.
Proof.
  unfold il_record. rewrite lookup_insert_eq, insert_insert_eq. f_equal. cbn [unwrap_or].
  set (l := unwrap_or (t !! identity_key b i) []).
  destruct (existsb (fun e => e.2 =? m) l) eqn:E.
  - by rewrite E.
  - rewrite existsb_app. cbn [existsb fst snd]. rewrite Z.eqb_refl. by rewrite orb_true_r.
Qed.
