(* ===== verification/Vocab.v ===== *)
(** * Vocab: the vocabulary of the metrics

    [metrics/mod.rs] (sides, trades, window specs and their axes), [metrics/span.rs]
    (spans), [metrics/tags/mod.rs] (tag references), [metrics/registry.rs] (the metric
    table) and [metrics/metric_ref.rs] (what one read names).  The registry's display
    texts are left out; every field a decision reads is kept. *)

From S2P Require Export Prelude Float64 Hash.

(** ** Time and trades *)

Definition secs_between (from to : Ts) : f64 := f_of_Z (num_milliseconds (to - from)) ⊘ f_of_Z 1000.

Inductive Side := Buy | Sell.

#[export] Instance Side_eq_dec : EqDecision Side.
Proof. solve_decision. Defined.

(** [metrics/fee.rs FeeKeys]: three optional declared values. *)
Record FeeKeys := { fk_cu_price : Z; fk_tip_lamports : Z; fk_cu_limit : Z; fk_present : Z }.

Record TradeLite := {
  t_side : Side;
  t_sol : f64;
  t_price : f64;
  t_reserve_sol : f64;
  t_priced_reserve_sol : f64;
  t_at : Ts;
  t_ix_hash : option Z;
  t_wallet_hash : Z;
  t_slot : Z;
  t_marker_bits : Z;
  t_leg_index : Z;
  t_tx_index : option Z;
  t_template_hash : option Z;
  t_program_hash : option Z;
  t_build_hash : option Z;
  t_core_hash : option Z;
  t_core_marks : Z;
  t_on_curve : bool;
  t_is_launch : bool;
  t_fee : FeeKeys;
  t_token_amount : f64;
  t_build_day_public : option bool;
}.

Definition FeeKeys_default : FeeKeys :=
  {| fk_cu_price := 0; fk_tip_lamports := 0; fk_cu_limit := 0; fk_present := 0 |}.

Definition TradeLite_default : TradeLite := {|
  t_side := Buy; t_sol := f_zero; t_price := f_zero; t_reserve_sol := f_zero;
  t_priced_reserve_sol := f_nan; t_at := 0; t_ix_hash := None; t_wallet_hash := 0; t_slot := 0;
  t_marker_bits := 0; t_leg_index := 0; t_tx_index := None; t_template_hash := None;
  t_program_hash := None; t_build_hash := None; t_core_hash := None; t_core_marks := 0;
  t_on_curve := true; t_is_launch := false; t_fee := FeeKeys_default; t_token_amount := f_nan;
  t_build_day_public := None |}.

Definition with_build_day_public (t : TradeLite) (b : option bool) : TradeLite := {|
  t_side := t_side t; t_sol := t_sol t; t_price := t_price t; t_reserve_sol := t_reserve_sol t;
  t_priced_reserve_sol := t_priced_reserve_sol t; t_at := t_at t; t_ix_hash := t_ix_hash t;
  t_wallet_hash := t_wallet_hash t; t_slot := t_slot t; t_marker_bits := t_marker_bits t;
  t_leg_index := t_leg_index t; t_tx_index := t_tx_index t; t_template_hash := t_template_hash t;
  t_program_hash := t_program_hash t; t_build_hash := t_build_hash t; t_core_hash := t_core_hash t;
  t_core_marks := t_core_marks t; t_on_curve := t_on_curve t; t_is_launch := t_is_launch t;
  t_fee := t_fee t; t_token_amount := t_token_amount t; t_build_day_public := b |}.

(** ** Window specs *)

Inductive WindowUnit := UnitSec | UnitSlot | UnitPrint.

#[export] Instance WindowUnit_eq_dec : EqDecision WindowUnit.
Proof. solve_decision. Defined.

Definition unit_suffix (u : WindowUnit) : string :=
  match u with UnitSec => "s" | UnitSlot => "sl" | UnitPrint => "p" end.

Definition NOMINAL_SLOT_SECS : f64 := f_dec 4 1.

Record WindowSpec := { w_size : f64; w_lag : f64; w_unit : WindowUnit }.

Definition quantize (v : f64) : Z := f_as_u64 (fmax (fround (v ⊗ f_of_Z 1000)) f_zero).

Record WindowKey := { wk_unit : WindowUnit; wk_size : Z; wk_lag : Z }.

#[export] Instance WindowKey_eq_dec : EqDecision WindowKey.
Proof. solve_decision. Defined.

Definition w_key (w : WindowSpec) : WindowKey :=
  {| wk_unit := w_unit w; wk_size := quantize (w_size w); wk_lag := quantize (w_lag w) |}.

(** The derived [PartialEq]: [f64] equality field by field. *)
Definition wspec_eqb (a b : WindowSpec) : bool :=
  (w_size a =. w_size b) && (w_lag a =. w_lag b) && bool_decide (w_unit a = w_unit b).

Record Cursor := { cur_slot_of : Z; cur_print_of : Z }.

Definition at_trade (c : Cursor) (t : TradeLite) : Cursor :=
  {| cur_slot_of := t_slot t; cur_print_of := cur_print_of c |}.

(** [x as i64] of a [u64]. *)
Definition u64_as_i64 (x : Z) : Z := if x <=? i64_max then x else x - 2 ^ 64.

Definition timestamp_millis (t : Ts) : Z := t / ns_per_ms.

Definition w_pos (w : WindowSpec) (at_ : Ts) (c : Cursor) : Z :=
  match w_unit w with
  | UnitSec => timestamp_millis at_
  | UnitSlot => u64_as_i64 (cur_slot_of c)
  | UnitPrint => u64_as_i64 (cur_print_of c)
  end.

Definition w_now_pos (w : WindowSpec) (now : Ts) (c : Cursor) : Z := w_pos w now c.

Definition w_bounds (w : WindowSpec) (now_pos : Z) : Z * Z :=
  match w_unit w with
  | UnitSec =>
      let hi := now_pos - u64_as_i64 (quantize (w_lag w)) in
      (hi - u64_as_i64 (quantize (w_size w)), hi)
  | UnitSlot | UnitPrint =>
      let hi := now_pos - f_as_i64 (fround (fmax (w_lag w) f_zero)) in
      (hi - (f_as_i64 (fround (fmax (w_size w) (f_of_Z 1))) - 1), hi)
  end.

(** ** Spans *)

Record AgeAnchor := { after_age_ms : Z }.

#[export] Instance AgeAnchor_eq_dec : EqDecision AgeAnchor.
Proof. solve_decision. Defined.

Definition anchor_secs (s : f64) : AgeAnchor := {| after_age_ms := quantize s |}.
Definition anchor_secs_f64 (a : AgeAnchor) : f64 := f_of_Z (after_age_ms a) ⊘ f_of_Z 1000.

Record Span := {
  sp_window : option WindowSpec;
  sp_slice : option WindowSpec;
  sp_since_age : option AgeAnchor;
  sp_since_amm : bool;
}.

Definition SPAN_LIFE : Span :=
  {| sp_window := None; sp_slice := None; sp_since_age := None; sp_since_amm := false |}.

Definition span_window (w : WindowSpec) : Span :=
  {| sp_window := Some w; sp_slice := None; sp_since_age := None; sp_since_amm := false |}.

Definition span_is_windowed (s : Span) : bool := is_someb (sp_window s) || is_someb (sp_slice s).

(** [flatten] of the two axes. *)
Definition span_axes (s : Span) : list WindowSpec :=
  match sp_window s with Some w => [w] | None => [] end ++
  match sp_slice s with Some w => [w] | None => [] end.

Definition span_needs_slot (s : Span) : bool :=
  existsb (fun w => bool_decide (w_unit w = UnitSlot)) (span_axes s).

Definition opt_eqb {A} (eqb : A -> A -> bool) (a b : option A) : bool :=
  match a, b with Some x, Some y => eqb x y | None, None => true | _, _ => false end.

Definition span_eqb (a b : Span) : bool :=
  opt_eqb wspec_eqb (sp_window a) (sp_window b) && opt_eqb wspec_eqb (sp_slice a) (sp_slice b) &&
  bool_decide (sp_since_age a = sp_since_age b) && Bool.eqb (sp_since_amm a) (sp_since_amm b).

(** ** Tags *)

Definition BUNDLED : string := "bundled".
Definition PUBLIC_APP : string := "public_app".
Definition BUILTIN : list string := [BUNDLED; PUBLIC_APP].

Definition tag_key_of (name : string) : Z := fnv1a_str FNV_OFFSET name.

Record TagRef := { tag_key : Z; tag_name : string; tag_negated : bool }.

#[export] Instance TagRef_eq_dec : EqDecision TagRef.
Proof. solve_decision. Defined.

(** A reference to the tag [name]: its key is the name's hash. *)
Definition tag_ref (name : string) (negated : bool) : TagRef :=
  {| tag_key := tag_key_of name; tag_name := name; tag_negated := negated |}.

Definition tag_text (t : TagRef) : string :=
  if tag_negated t then String.append "!" (tag_name t) else tag_name t.

Definition tag_at (t : TagRef) : string := String.append "@" (tag_text t).

Definition is_builtin (t : TagRef) : bool := contains BUILTIN (tag_name t).

(** ** The registry *)

Inductive Family := FamState | FamPrice | FamFlow | FamHoldings | FamCrowd | FamPrint | FamPosition.

#[export] Instance Family_eq_dec : EqDecision Family.
Proof. solve_decision. Defined.

Definition family_name (f : Family) : string :=
  match f with
  | FamState => "m_state" | FamPrice => "m_price" | FamFlow => "m_flow" | FamHoldings => "m_holdings"
  | FamCrowd => "m_crowd" | FamPrint => "m_print" | FamPosition => "m_position"
  end.

Inductive Metric :=
  | AgeSec | LiquiditySol | PeakLiquiditySol | OnCurve | RisePct | TrailPct | StallSec | BuySol |
  SellSol | NetSol | GrossSol | BuyCount | SellCount | TradeCount | BuyTxCount | SellTxCount |
  BuySharePct | TagSharePct | SliceTradeSharePct | SliceSolSharePct | ProfitSol | BagSharePct |
  BagSoldPct | UniqueWallets | TradesPerWallet | UniqueIxShapes | BuyerCount | BuyerIsNew |
  SinceBuySec | SoldBagPct | FlatBefore | PnlPct | HeldSec | RetracePct | BouncePct |
  RoomTakenPct | StageSec | SoldPct.

#[export] Instance Metric_eq_dec : EqDecision Metric.
Proof. solve_decision. Defined.

Inductive Unit := UnitSeconds | UnitSol | UnitPercent | UnitCount | UnitFlag | UnitLamports.
Inductive TagUse := TagNone | TagOptional | TagRequired.
Inductive TagLevel := LevelTrade | LevelWalletClass.

Record SpanUse := { su_life : bool; su_window : bool; su_since_age : bool; su_since_amm : bool; su_slice : bool }.

Definition SPAN_LIFE_ONLY : SpanUse := Build_SpanUse true false false false false.
Definition SPAN_LIFE_OR_WINDOW : SpanUse := Build_SpanUse true true false false false.
Definition SPAN_LIFE_WINDOW_OR_AMM : SpanUse := Build_SpanUse true true false true false.
Definition SPAN_WINDOW : SpanUse := Build_SpanUse false true false false false.
Definition SPAN_SINCE_AGE : SpanUse := Build_SpanUse false false true false false.
Definition SPAN_SLICED_WINDOW : SpanUse := Build_SpanUse false true false false true.

Record MetricSpec := {
  ms_id : Metric;
  ms_family : Family;
  ms_name : string;
  ms_unit : Unit;
  ms_tags : TagUse;
  ms_tag_level : TagLevel;
  ms_spans : SpanUse;
  ms_monotonic : bool;
  ms_eq_tolerance : f64;
  ms_hue : Z;
}.

Definition metric_row := Build_MetricSpec.

Definition metric_spec (m : Metric) : MetricSpec :=
  match m with
  | AgeSec => metric_row AgeSec FamState "age_sec" UnitSeconds TagNone LevelTrade SPAN_LIFE_ONLY true (f_dec 5 1) 222
  | LiquiditySol => metric_row LiquiditySol FamState "liquidity_sol" UnitSol TagNone LevelTrade SPAN_LIFE_ONLY false (f_dec 1 1) 226
  | PeakLiquiditySol => metric_row PeakLiquiditySol FamState "peak_liquidity_sol" UnitSol TagNone LevelTrade SPAN_LIFE_ONLY true (f_dec 1 1) 228
  | OnCurve => metric_row OnCurve FamState "on_curve" UnitFlag TagNone LevelTrade SPAN_LIFE_ONLY false (f_dec 5 1) 230
  | RisePct => metric_row RisePct FamPrice "rise_pct" UnitPercent TagNone LevelTrade SPAN_LIFE_WINDOW_OR_AMM false (f_dec 10 1) 42
  | TrailPct => metric_row TrailPct FamPrice "trail_pct" UnitPercent TagNone LevelTrade SPAN_LIFE_WINDOW_OR_AMM false (f_dec 10 1) 46
  | StallSec => metric_row StallSec FamPrice "stall_sec" UnitSeconds TagNone LevelTrade SPAN_LIFE_ONLY false (f_dec 5 1) 50
  | BuySol => metric_row BuySol FamFlow "buy_sol" UnitSol TagOptional LevelTrade SPAN_LIFE_OR_WINDOW true (f_dec 1 1) 170
  | SellSol => metric_row SellSol FamFlow "sell_sol" UnitSol TagOptional LevelTrade SPAN_LIFE_OR_WINDOW true (f_dec 1 1) 355
  | NetSol => metric_row NetSol FamFlow "net_sol" UnitSol TagOptional LevelTrade SPAN_LIFE_OR_WINDOW false (f_dec 1 1) 166
  | GrossSol => metric_row GrossSol FamFlow "gross_sol" UnitSol TagOptional LevelTrade SPAN_LIFE_OR_WINDOW true (f_dec 1 1) 174
  | BuyCount => metric_row BuyCount FamFlow "buy_count" UnitCount TagOptional LevelTrade SPAN_LIFE_OR_WINDOW true (f_dec 5 1) 158
  | SellCount => metric_row SellCount FamFlow "sell_count" UnitCount TagOptional LevelTrade SPAN_LIFE_OR_WINDOW true (f_dec 5 1) 349
  | TradeCount => metric_row TradeCount FamFlow "trade_count" UnitCount TagOptional LevelTrade SPAN_LIFE_OR_WINDOW true (f_dec 5 1) 178
  | BuyTxCount => metric_row BuyTxCount FamFlow "buy_tx_count" UnitCount TagRequired LevelTrade SPAN_LIFE_OR_WINDOW true (f_dec 5 1) 154
  | SellTxCount => metric_row SellTxCount FamFlow "sell_tx_count" UnitCount TagRequired LevelTrade SPAN_LIFE_OR_WINDOW true (f_dec 5 1) 343
  | BuySharePct => metric_row BuySharePct FamFlow "buy_share_pct" UnitPercent TagNone LevelTrade SPAN_WINDOW false (f_dec 5 1) 150
  | TagSharePct => metric_row TagSharePct FamFlow "tag_share_pct" UnitPercent TagRequired LevelTrade SPAN_LIFE_OR_WINDOW false (f_dec 10 1) 182
  | SliceTradeSharePct => metric_row SliceTradeSharePct FamFlow "slice_trade_share_pct" UnitPercent TagNone LevelTrade SPAN_SLICED_WINDOW false (f_dec 5 1) 186
  | SliceSolSharePct => metric_row SliceSolSharePct FamFlow "slice_sol_share_pct" UnitPercent TagNone LevelTrade SPAN_SLICED_WINDOW false (f_dec 5 1) 190
  | ProfitSol => metric_row ProfitSol FamHoldings "profit_sol" UnitSol TagRequired LevelTrade SPAN_LIFE_ONLY false (f_dec 1 1) 204
  | BagSharePct => metric_row BagSharePct FamHoldings "bag_share_pct" UnitPercent TagRequired LevelWalletClass SPAN_LIFE_ONLY false (f_dec 1 2) 210
  | BagSoldPct => metric_row BagSoldPct FamHoldings "bag_sold_pct" UnitPercent TagRequired LevelTrade SPAN_WINDOW false (f_dec 5 1) 214
  | UniqueWallets => metric_row UniqueWallets FamCrowd "unique_wallets" UnitCount TagNone LevelTrade SPAN_WINDOW false (f_dec 5 1) 264
  | TradesPerWallet => metric_row TradesPerWallet FamCrowd "trades_per_wallet" UnitCount TagNone LevelTrade SPAN_WINDOW false (f_dec 5 2) 268
  | UniqueIxShapes => metric_row UniqueIxShapes FamCrowd "unique_ix_shapes" UnitCount TagNone LevelTrade SPAN_WINDOW false (f_dec 5 1) 272
  | BuyerCount => metric_row BuyerCount FamCrowd "buyer_count" UnitCount TagNone LevelTrade SPAN_SINCE_AGE true (f_dec 5 1) 280
  | BuyerIsNew => metric_row BuyerIsNew FamCrowd "buyer_is_new" UnitFlag TagNone LevelTrade SPAN_SINCE_AGE false (f_dec 5 1) 284
  | SinceBuySec => metric_row SinceBuySec FamPrint "since_buy_sec" UnitSeconds TagNone LevelTrade SPAN_LIFE_ONLY false (f_dec 5 1) 248
  | SoldBagPct => metric_row SoldBagPct FamPrint "sold_bag_pct" UnitPercent TagRequired LevelTrade SPAN_LIFE_ONLY false (f_dec 5 1) 252
  | FlatBefore => metric_row FlatBefore FamPrint "flat_before" UnitFlag TagRequired LevelTrade SPAN_LIFE_ONLY false (f_dec 5 1) 256
  | PnlPct => metric_row PnlPct FamPosition "pnl_pct" UnitPercent TagNone LevelTrade SPAN_LIFE_ONLY false (f_dec 10 1) 12
  | HeldSec => metric_row HeldSec FamPosition "held_sec" UnitSeconds TagNone LevelTrade SPAN_LIFE_ONLY false (f_dec 5 1) 16
  | RetracePct => metric_row RetracePct FamPosition "retrace_pct" UnitPercent TagNone LevelTrade SPAN_LIFE_ONLY false (f_dec 10 1) 20
  | BouncePct => metric_row BouncePct FamPosition "bounce_pct" UnitPercent TagNone LevelTrade SPAN_LIFE_ONLY false (f_dec 10 1) 24
  | RoomTakenPct => metric_row RoomTakenPct FamPosition "room_taken_pct" UnitPercent TagNone LevelTrade SPAN_LIFE_ONLY false (f_dec 10 1) 28
  | StageSec => metric_row StageSec FamPosition "stage_sec" UnitSeconds TagNone LevelTrade SPAN_LIFE_ONLY false (f_dec 5 1) 32
  | SoldPct => metric_row SoldPct FamPosition "sold_pct" UnitPercent TagNone LevelTrade SPAN_LIFE_ONLY false (f_dec 5 1) 36
  end.

Definition metric_path (s : MetricSpec) : string :=
  String.append (family_name (ms_family s)) (String.append "." (ms_name s)).

Definition family (m : Metric) : Family := ms_family (metric_spec m).

(** ** What one read names *)

Record MetricRef := { mr_metric : Metric; mr_tag : option TagRef; mr_span : Span }.

Definition mref_life (m : Metric) : MetricRef :=
  {| mr_metric := m; mr_tag := None; mr_span := SPAN_LIFE |}.

Definition mref_eqb (a b : MetricRef) : bool :=
  bool_decide (mr_metric a = mr_metric b) && bool_decide (mr_tag a = mr_tag b) &&
  span_eqb (mr_span a) (mr_span b).

Definition is_position (r : MetricRef) : bool := bool_decide (family (mr_metric r) = FamPosition).

Definition is_fingerprint_scoped (r : MetricRef) : bool :=
  is_some_and (mr_tag r) (fun t => negb (is_builtin t)).

Definition is_monotonic (r : MetricRef) : bool :=
  ms_monotonic (metric_spec (mr_metric r)) && negb (span_is_windowed (mr_span r)).

(** ** Facts *)

(** The table row of a metric is its own. *)
Lemma metric_spec_id m : ms_id (metric_spec m) = m.
Proof. by destruct m. Qed.
