(* ===== verification/Evaluator.v ===== *)
(** * Evaluator: judging a value against a condition expression

    [metrics/evaluator.rs].  An expression is an OR of AND arms; a value that is not
    finite satisfies nothing.  The satisfiability check and the normalisation a rule
    goes through at save time are here too; an error keeps the numbers its text prints. *)

From S2P Require Export Vocab.

Inductive Operator := OpGt | OpGte | OpLt | OpLte | OpEq | OpNe.

#[export] Instance Operator_eq_dec : EqDecision Operator.
Proof. solve_decision. Defined.

Definition symbol (o : Operator) : string :=
  match o with
  | OpGt => ">" | OpGte => ">=" | OpLt => "<" | OpLte => "<=" | OpEq => "=" | OpNe => "!="
  end.

Record Condition := { c_operator : Operator; c_value : f64 }.

Abbreviation ConditionExpr := (list (list Condition)) (only parsing).

Definition f_two : f64 := f_of_Z 2.

Definition eval_one (c : Condition) (value tol : f64) : bool :=
  if negb (is_finite value) then false
  else match c_operator c with
  | OpGt => value >. c_value c
  | OpGte => value >=. c_value c
  | OpLt => value <. c_value c
  | OpLte => value <=. c_value c
  | OpEq => fabs (value ⊖ c_value c) <=. tol ⊘ f_two
  | OpNe => fabs (value ⊖ c_value c) >. tol ⊘ f_two
  end.

Definition is_empty {A} (l : list A) : bool := match l with [] => true | _ => false end.

(** The first condition of the first arm that holds. *)
Definition first_satisfied_cond (arms : ConditionExpr) (value tol : f64) : option Condition :=
  if is_empty arms || negb (is_finite value) then None
  else find_map (fun arm =>
    match arm with
    | [] => None
    | c0 :: _ => if forallb (fun c => eval_one c value tol) arm then Some c0 else None
    end) arms.

Definition eval (arms : ConditionExpr) (value tol : f64) : bool :=
  is_someb (first_satisfied_cond arms value tol) || is_empty arms.

(** ** Satisfiability *)

Record Bounds := { b_lo : f64; b_lo_strict : bool; b_hi : f64; b_hi_strict : bool }.

Definition raise_lo (b : Bounds) (v : f64) (strict : bool) : Bounds :=
  if (v >. b_lo b) || ((v =. b_lo b) && strict)
  then {| b_lo := v; b_lo_strict := strict; b_hi := b_hi b; b_hi_strict := b_hi_strict b |}
  else b.

Definition drop_hi (b : Bounds) (v : f64) (strict : bool) : Bounds :=
  if (v <. b_hi b) || ((v =. b_hi b) && strict)
  then {| b_lo := b_lo b; b_lo_strict := b_lo_strict b; b_hi := v; b_hi_strict := strict |}
  else b.

Definition no_bounds : Bounds :=
  {| b_lo := f_neg_inf; b_lo_strict := false; b_hi := f_inf; b_hi_strict := false |}.

Definition bound_step (half : f64) (b : Bounds) (c : Condition) : Bounds :=
  match c_operator c with
  | OpGt => raise_lo b (c_value c) true
  | OpGte => raise_lo b (c_value c) false
  | OpLt => drop_hi b (c_value c) true
  | OpLte => drop_hi b (c_value c) false
  | OpEq => drop_hi (raise_lo b (c_value c ⊖ half) false) (c_value c ⊕ half) false
  | OpNe => b
  end.

Definition ne_bands (half : f64) (conds : list Condition) : list (f64 * f64) :=
  (fun c => (c_value c ⊖ half, c_value c ⊕ half)) <$>
    List.filter (fun c => bool_decide (c_operator c = OpNe)) conds.

Inductive Unsatisfiable := BoundsCross (lo : f64) | BandRulesOut (band : f64 * f64) | NoGroupCanHold.

Definition bounds_cross (b : Bounds) : bool :=
  (b_lo b >. b_hi b) || ((b_lo b =. b_hi b) && (b_lo_strict b || b_hi_strict b)).

Definition check_arm_satisfiable (conds : list Condition) (tol : f64) : Unsatisfiable + unit :=
  let half := tol ⊘ f_two in
  let b := foldl (bound_step half) no_bounds conds in
  if bounds_cross b then inl (BoundsCross (b_lo b))
  else match find_first (fun band =>
      is_finite (b_lo b) && is_finite (b_hi b) && (band.1 <=. b_lo b) && (b_hi b <=. band.2))
      (ne_bands half conds) with
  | Some band => inl (BandRulesOut band)
  | None => inr tt
  end.

Definition is_ok {A B} (r : A + B) : bool := match r with inl _ => false | inr _ => true end.

(** The first arm that can hold settles it; otherwise the last arm's error. *)
Fixpoint check_arms (arms : ConditionExpr) (tol : f64) (last_err : Unsatisfiable) : Unsatisfiable + unit :=
  match arms with
  | [] => inl last_err
  | arm :: arms =>
      match check_arm_satisfiable arm tol with
      | inr _ => inr tt
      | inl e => check_arms arms tol e
      end
  end.

Definition check_expr_satisfiable (arms : ConditionExpr) (tol : f64) : Unsatisfiable + unit :=
  match arms with
  | [] => inr tt
  | _ => check_arms arms tol NoGroupCanHold
  end.

Definition coalesce_contributions (conds : list Condition) (tol : f64) : ConditionExpr :=
  match conds with
  | [] => []
  | _ => if is_ok (check_arm_satisfiable conds tol) then [conds] else (fun c => [c]) <$> conds
  end.

Definition normalize_condition_expr (arms : ConditionExpr) (tol : f64) : ConditionExpr :=
  match arms with
  | [arm] => coalesce_contributions arm tol
  | _ => arms
  end.

(** ** Facts *)

Lemma eval_one_finite c v tol : eval_one c v tol = true -> is_finite v = true.
Proof. unfold eval_one. by destruct (is_finite v). Qed.

Lemma find_map_Some {A B} (f : A -> option B) l y :
  find_map f l = Some y -> exists x, x ∈ l /\ f x = Some y.
Proof.
  induction l as [|x l IH]; simpl; [done|]. destruct (f x) eqn:E.
  - intros [= ->]. exists x. split; [left|done].
  - intros (z & ? & ?)%IH. exists z. split; [by right|done].
Qed.

Lemma find_map_None {A B} (f : A -> option B) l :
  find_map f l = None <-> forall x, x ∈ l -> f x = None.
Proof.
  induction l as [|x l IH]; simpl.
  - split; [intros _ x H; inversion H|done].
  - destruct (f x) eqn:E; split.
    + done.
    + intros H. specialize (H x ltac:(left)). congruence.
    + intros H y [->|Hy]%elem_of_cons; [done|]. by apply IH.
    + intros H. apply IH. intros y Hy. apply H. by right.
Qed.

Lemma forallb_Forall_true {A} (f : A -> bool) l : forallb f l = true <-> Forall (fun x => f x = true) l.
Proof.
  induction l as [|x l IH]; simpl; [split; [by constructor|done]|].
  rewrite andb_true_iff, IH, Forall_cons. done.
Qed.

(** An expression with at least one arm holds exactly when some nonempty arm holds in
    all its conditions, on a finite value. *)
Lemma eval_spec arms v tol :
  eval arms v tol = true <->
  arms = [] \/
  (is_finite v = true /\
   exists arm, arm ∈ arms /\ arm <> [] /\ Forall (fun c => eval_one c v tol = true) arm).
Proof.
  unfold eval, first_satisfied_cond. destruct arms as [|a arms]; cbn [is_empty orb].
  { split; [by left|done]. }
  rewrite orb_false_r. destruct (is_finite v) eqn:Hv; cbn [negb].
  2: { split; [done|]. intros [|(? & _)]; done. }
  split.
  - destruct (find_map _ _) eqn:E; [|done]. intros _. right. split; [done|].
    apply find_map_Some in E as (arm & Hin & H). exists arm. destruct arm; [done|].
    destruct (forallb _ _) eqn:F; [|done]. apply forallb_Forall_true in F. done.
  - intros [|(_ & arm & Hin & Hne & HF)]; [done|].
    destruct (find_map _ _) eqn:E; [done|]. exfalso.
    rewrite find_map_None in E. specialize (E arm Hin). destruct arm as [|c arm]; [done|].
    apply forallb_Forall_true in HF. by rewrite HF in E.
Qed.

Lemma eval_not_finite arms v tol : arms <> [] -> is_finite v = false -> eval arms v tol = false.
Proof.
  intros Hne Hv. apply not_true_is_false. rewrite eval_spec. intros [|(H & _)]; congruence.
Qed.

(** *** The bounds a list of range conditions leaves *)

Definition in_bounds (b : Bounds) (v : f64) : bool :=
  (if b_lo_strict b then b_lo b <. v else b_lo b <=. v) &&
  (if b_hi_strict b then v <. b_hi b else v <=. b_hi b).

(** A range condition: one of the four orderings. *)
Definition is_range (c : Condition) : bool :=
  match c_operator c with OpEq | OpNe => false | _ => true end.

Lemma feq_key x y : (x =. y) = true <-> is_nan x = false /\ is_nan y = false /\ keq (fkey x) (fkey y).
Proof.
  unfold feq, SFeqb. destruct (is_nan x) eqn:Hx.
  { destruct x; try done. split; [done|by intros (? & _)]. }
  destruct (is_nan y) eqn:Hy.
  { destruct y; try done. destruct x as [[]|[]| |[]]; (split; [done|by intros (_ & ? & _)]). }
  pose proof (SFcompare_spec x y Hx Hy) as H. unfold klt, keq in *.
  destruct (SFcompare x y) as [[]|]; try done; split; try done; try tauto; intros (_ & _ & ?); lia.
Qed.

Lemma bounds_cross_empty b v : bounds_cross b = true -> in_bounds b v = false.
Proof.
  unfold bounds_cross, in_bounds, fgt. intros H. apply not_true_is_false.
  rewrite andb_true_iff. intros [Hl Hh]. apply orb_true_iff in H as [H|H].
  - destruct (b_lo_strict b), (b_hi_strict b); forder.
  - apply andb_true_iff in H as [H%feq_key S]. destruct H as (? & ? & ?).
    destruct (b_lo_strict b), (b_hi_strict b); try done; forder.
Qed.

Lemma in_bounds_step half b c v tol :
  is_range c = true -> eval_one c v tol = true -> in_bounds b v = true ->
  in_bounds (bound_step half b c) v = true.
Proof.
  unfold is_range, eval_one, bound_step, raise_lo, drop_hi, fgt, fge.
  destruct (is_finite v) eqn:Hv; cbn [negb]; [|done].
  intros Hr Hc Hb. unfold in_bounds in *. apply andb_true_iff in Hb as [Hl Hh].
  destruct (c_operator c); try discriminate;
    match goal with |- context [if ?x then Build_Bounds _ _ _ _ else _] => destruct x end;
    cbn [b_lo b_hi b_lo_strict b_hi_strict]; apply andb_true_iff; split; assumption.
Qed.

Lemma in_bounds_fold half conds b v tol :
  Forall (fun c => is_range c = true) conds ->
  Forall (fun c => eval_one c v tol = true) conds ->
  in_bounds b v = true -> in_bounds (foldl (bound_step half) b conds) v = true.
Proof.
  intros Hr Hc. revert b. induction conds as [|c conds IH]; intros b Hb; [done|].
  apply Forall_cons in Hr as [? ?]. apply Forall_cons in Hc as [? ?].
  apply IH; try done. by eapply in_bounds_step.
Qed.

Lemma in_no_bounds v : is_finite v = true -> in_bounds no_bounds v = true.
Proof. by destruct v as [[]|[]| |[]]. Qed.

(** An arm of range conditions the check rejects holds for no value at all. *)
Lemma check_arm_sound conds tol e v :
  Forall (fun c => is_range c = true) conds ->
  check_arm_satisfiable conds tol = inl e ->
  ~ (conds <> [] /\ Forall (fun c => eval_one c v tol = true) conds).
Proof.
  intros Hr H (Hne & Hc). unfold check_arm_satisfiable in H.
  assert (Hv : is_finite v = true).
  { destruct conds; [done|]. apply Forall_cons in Hc as [Hc _]. by eapply eval_one_finite. }
  pose proof (in_bounds_fold (tol ⊘ f_two) conds no_bounds v tol Hr Hc (in_no_bounds v Hv)) as Hb.
  destruct (bounds_cross _) eqn:E.
  - by rewrite (bounds_cross_empty _ v E) in Hb.
  - replace (ne_bands (tol ⊘ f_two) conds) with (@nil (f64 * f64)) in H; [done|].
    unfold ne_bands. clear -Hr. induction conds as [|c conds IH]; [done|].
    apply Forall_cons in Hr as [Hc Hr]. simpl. unfold is_range in Hc.
    destruct (c_operator c); simpl; try done; by apply IH.
Qed.

(** Normalising twice is normalising once. *)
Lemma normalize_idempotent arms tol :
  normalize_condition_expr (normalize_condition_expr arms tol) tol = normalize_condition_expr arms tol.
Proof.
  unfold normalize_condition_expr at 2. destruct arms as [|a [|a' l]]; [done| |done].
  unfold normalize_condition_expr, coalesce_contributions. destruct a as [|c a]; [done|].
  destruct (is_ok (check_arm_satisfiable (c :: a) tol)) eqn:E.
  - by rewrite E.
  - destruct a as [|c' a]; [|done]. simpl. by rewrite E.
Qed.
