(* ===== verification/Position.v ===== *)
(** * Position: the since-entry metrics of a held position

    [metrics/position.rs]: the [PositionCtx] an entered arm carries, how one price
    folds into it and what the seven position metrics read from it. *)

From S2P Require Export Vocab.

Definition GRADUATION_PRICED_RESERVE_SOL : f64 := f_of_Z 115.
Definition f_one : f64 := f_of_Z 1.
Definition f_hundred : f64 := f_of_Z 100.

Record PositionCtx := {
  px_entry_price : f64;
  px_peak_price : f64;
  px_trough_price : f64;
  px_entered_at : Ts;
  px_stage_since : Ts;
  px_entry_priced_reserve : f64;
  px_sold_pct : f64;
}.

Definition at_fill (entry_price : f64) (entered_at : Ts) : PositionCtx := {|
  px_entry_price := entry_price; px_peak_price := entry_price; px_trough_price := entry_price;
  px_entered_at := entered_at; px_stage_since := entered_at;
  px_entry_priced_reserve := f_nan; px_sold_pct := f_zero |}.

Definition with_entry_priced_reserve (c : PositionCtx) (vsol : f64) : PositionCtx := {|
  px_entry_price := px_entry_price c; px_peak_price := px_peak_price c;
  px_trough_price := px_trough_price c; px_entered_at := px_entered_at c;
  px_stage_since := px_stage_since c; px_entry_priced_reserve := vsol;
  px_sold_pct := px_sold_pct c |}.

Definition set_extremes (c : PositionCtx) (peak trough : f64) : PositionCtx := {|
  px_entry_price := px_entry_price c; px_peak_price := peak; px_trough_price := trough;
  px_entered_at := px_entered_at c; px_stage_since := px_stage_since c;
  px_entry_priced_reserve := px_entry_priced_reserve c; px_sold_pct := px_sold_pct c |}.

Definition fold_price (c : PositionCtx) (price : f64) : PositionCtx :=
  if negb (is_finite price) then c
  else set_extremes c
    (if price >. px_peak_price c then price else px_peak_price c)
    (if price <. px_trough_price c then price else px_trough_price c).

Definition retrace (c : PositionCtx) (price : f64) : f64 :=
  if (px_peak_price c >. f_zero) && is_finite price
  then (px_peak_price c ⊖ price) ⊘ px_peak_price c ⊗ f_hundred else f_nan.

Definition bounce (c : PositionCtx) (price : f64) : f64 :=
  if (px_trough_price c >. f_zero) && is_finite price
  then (price ⊖ px_trough_price c) ⊘ px_trough_price c ⊗ f_hundred else f_nan.

Definition pnl (c : PositionCtx) (price : f64) : f64 :=
  if (px_entry_price c >. f_zero) && is_finite price
  then (price ⊖ px_entry_price c) ⊘ px_entry_price c ⊗ f_hundred else f_nan.

Definition held (c : PositionCtx) (now : Ts) : f64 := fmax (secs_between (px_entered_at c) now) f_zero.

Definition stage_sec (c : PositionCtx) (now : Ts) : f64 :=
  fmax (secs_between (px_stage_since c) now) f_zero.

(** The room to the graduation wall in percent, from the reserve at the entry. *)
Definition room_pct (v : f64) : f64 :=
  let q := GRADUATION_PRICED_RESERVE_SOL ⊘ v in (q ⊗ q ⊖ f_one) ⊗ f_hundred.

Definition room_taken (c : PositionCtx) (price : f64) : f64 :=
  let v := px_entry_priced_reserve c in
  if negb (is_finite v && (v >. f_zero)) then f_nan
  else if room_pct v >. f_zero then pnl c price ⊘ room_pct v ⊗ f_hundred else f_nan.

Definition position_value (id : Metric) (c : PositionCtx) (price : f64) (now : Ts) : f64 :=
  match id with
  | RetracePct => retrace c price
  | BouncePct => bounce c price
  | PnlPct => pnl c price
  | HeldSec => held c now
  | RoomTakenPct => room_taken c price
  | StageSec => stage_sec c now
  | SoldPct => px_sold_pct c
  | _ => f_nan
  end.

(** ** Facts *)

(** Well-formed extremes: neither is a [NaN] and the fill lies between them. *)
Definition extremes_ok (c : PositionCtx) : Prop :=
  (px_trough_price c <=. px_entry_price c) = true /\ (px_entry_price c <=. px_peak_price c) = true.

Lemma at_fill_ok p t : is_nan p = false -> extremes_ok (at_fill p t).
Proof. intros. by split; apply fle_refl. Qed.

Lemma extremes_ok_not_nan c :
  extremes_ok c ->
  is_nan (px_trough_price c) = false /\ is_nan (px_entry_price c) = false /\ is_nan (px_peak_price c) = false.
Proof. intros [H1 H2]. apply fle_key in H1 as (? & ? & _), H2 as (? & ? & _). done. Qed.

(** One fold keeps the extremes well formed, moves them outward only, and encloses the
    folded price. *)
Lemma fold_price_step c p :
  extremes_ok c ->
  extremes_ok (fold_price c p) /\
  (px_peak_price c <=. px_peak_price (fold_price c p)) = true /\
  (px_trough_price (fold_price c p) <=. px_trough_price c) = true /\
  (is_finite p = true ->
    (px_trough_price (fold_price c p) <=. p) = true /\ (p <=. px_peak_price (fold_price c p)) = true).
Proof.
  intros Hok. pose proof (extremes_ok_not_nan c Hok) as (Ht & He & Hp). destruct Hok as [H1 H2].
  unfold fold_price. destruct (is_finite p) eqn:Hf; cbn [negb].
  2: { split_and!; [done|by apply fle_refl|by apply fle_refl|done]. }
  assert (Hn : is_nan p = false) by auto with engine.
  unfold extremes_ok. cbn [set_extremes px_peak_price px_trough_price px_entry_price].
  assert (Hhi : (px_peak_price c <=. (if p >. px_peak_price c then p else px_peak_price c)) = true /\
                (p <=. (if p >. px_peak_price c then p else px_peak_price c)) = true).
  { unfold fgt. destruct (px_peak_price c <. p) eqn:E; split; auto using fle_refl, flt_fle.
    by apply flt_total. }
  assert (Hlo : ((if p <. px_trough_price c then p else px_trough_price c) <=. px_trough_price c) = true /\
                ((if p <. px_trough_price c then p else px_trough_price c) <=. p) = true).
  { destruct (p <. px_trough_price c) eqn:E; split; auto using fle_refl, flt_fle.
    by apply flt_total. }
  destruct Hhi, Hlo. split_and!; try done; eauto using fle_trans.
Qed.

(** Both extremes are always prices that were seen. *)
Lemma fold_price_witnessed c p :
  (px_peak_price (fold_price c p) = px_peak_price c \/ px_peak_price (fold_price c p) = p) /\
  (px_trough_price (fold_price c p) = px_trough_price c \/ px_trough_price (fold_price c p) = p).
Proof.
  unfold fold_price. destruct (is_finite p); simpl; [|auto].
  split; case_match; auto.
Qed.

Lemma fold_price_keeps c p :
  px_entry_price (fold_price c p) = px_entry_price c /\ px_entered_at (fold_price c p) = px_entered_at c /\
  px_stage_since (fold_price c p) = px_stage_since c /\ px_sold_pct (fold_price c p) = px_sold_pct c.
Proof. unfold fold_price. by destruct (is_finite p). Qed.

Lemma fold_prices_enclose c ps :
  extremes_ok c ->
  let c' := foldl fold_price c ps in
  extremes_ok c' /\
  (px_peak_price c <=. px_peak_price c') = true /\ (px_trough_price c' <=. px_trough_price c) = true /\
  Forall (fun p => is_finite p = true ->
    (px_trough_price c' <=. p) = true /\ (p <=. px_peak_price c') = true) ps.
Proof.
  revert c. induction ps as [|p ps IH]; intros c Hok; simpl.
  { pose proof (extremes_ok_not_nan c Hok) as (? & ? & ?). split_and!; auto using fle_refl. }
  pose proof (fold_price_step c p Hok) as (Hok' & Hp & Ht & Hin).
  destruct (IH _ Hok') as (Hok'' & Hp' & Ht' & HF).
  split_and!; eauto using fle_trans. constructor; [|done].
  intros Hf. destruct (Hin Hf). split; eauto using fle_trans.
Qed.

Lemma fold_prices_witnessed c ps :
  px_peak_price (foldl fold_price c ps) ∈ px_peak_price c :: ps /\
  px_trough_price (foldl fold_price c ps) ∈ px_trough_price c :: ps.
Proof.
  revert c. induction ps as [|p ps IH]; intros c; simpl; [split; left|].
  destruct (IH (fold_price c p)) as [H1 H2]. destruct (fold_price_witnessed c p) as [W1 W2].
  split.
  - destruct W1 as [W|W]; rewrite W in H1; set_solver.
  - destruct W2 as [W|W]; rewrite W in H2; set_solver.
Qed.

Lemma fold_prices_keep_entry c ps : px_entry_price (foldl fold_price c ps) = px_entry_price c.
Proof.
  revert c. induction ps as [|p ps IH]; intros c; simpl; [done|].
  rewrite IH. apply fold_price_keeps.
Qed.
