(* ===== verification/Windows.v ===== *)
(** * Windows: the trailing windows of a coin's trades

    [metrics/flow_window.rs] (the position-sorted buffer and the flow window),
    [metrics/flow_slice.rs], [metrics/flow_lifetime.rs].  A buffer is the [VecDeque]
    front first.  The sums are [f64] running sums as the source keeps them; the counts
    are exact, and the theorems relate them to the whole history of trades. *)

From S2P Require Export Vocab.

(** ** The position-sorted buffer *)

Definition is_foldable (sol : f64) : bool := is_finite sol && (sol >=. f_zero).

Definition in_window (spec : WindowSpec) (pos now_pos : Z) : bool :=
  let '(lo, hi) := w_bounds spec now_pos in (lo <=? pos) && (pos <=? hi).

Section buffer.
Context {A : Type}.
Implicit Types (buf : list (Z * A)).

Fixpoint rposition (f : Z * A -> bool) (buf : list (Z * A)) : option nat :=
  match buf with
  | [] => None
  | e :: buf =>
      match rposition f buf with
      | Some i => Some (S i)
      | None => if f e then Some 0%nat else None
      end
  end.

Definition push_sorted (buf : list (Z * A)) (pos : Z) (payload : A) : list (Z * A) :=
  match last buf with
  | Some e =>
      if pos <? e.1 then
        let idx := match rposition (fun e => e.1 <=? pos) buf with Some i => S i | None => 0%nat end in
        take idx buf ++ (pos, payload) :: drop idx buf
      else buf ++ [(pos, payload)]
  | None => buf ++ [(pos, payload)]
  end.

(** Pop entries off the front while [gone] holds of their position, each undone from the
    sums by [out]. *)
Fixpoint drop_while_fold {S : Type} (gone : Z -> bool) (out : S -> A -> S) (s : S) (buf : list (Z * A))
    : S * list (Z * A) :=
  match buf with
  | [] => (s, [])
  | e :: rest => if gone e.1 then drop_while_fold gone out (out s e.2) rest else (s, buf)
  end.

(** The sums of what lies inside [lo, hi], undoing both ends. *)
Definition undo_ends {S : Type} (out : S -> A -> S) (lo hi : Z) (s : S) (buf : list (Z * A)) : S :=
  let s := (drop_while_fold (fun p => p <? lo) out s buf).1 in
  (drop_while_fold (fun p => hi <? p) out s (rev buf)).1.

(** How many entries lie off each end. *)
Definition front_out (lo : Z) (buf : list (Z * A)) : nat := length (take_while (fun e => e.1 <? lo) buf).
Definition back_out (hi : Z) (buf : list (Z * A)) : nat := length (take_while (fun e => hi <? e.1) (rev buf)).
End buffer.

(** ** The flow window *)

Record FlowSums := { fs_buy : f64; fs_sell : f64; fs_buy_n : Z }.

Record WindowState := { fw_spec : WindowSpec; fw_buf : list (Z * f64); fw_sums : FlowSums }.

Definition WindowState_new (spec : WindowSpec) : WindowState :=
  {| fw_spec := spec; fw_buf := []; fw_sums := {| fs_buy := f_zero; fs_sell := f_zero; fs_buy_n := 0 |} |}.

Definition drop_entry (s : FlowSums) (signed : f64) : FlowSums :=
  if negb (is_sign_negative signed)
  then {| fs_buy := fs_buy s ⊖ signed; fs_sell := fs_sell s; fs_buy_n := sat_sub (fs_buy_n s) 1 |}
  else {| fs_buy := fs_buy s; fs_sell := fs_sell s ⊕ signed; fs_buy_n := fs_buy_n s |}.

Definition fw_evict (w : WindowState) (now_pos : Z) : WindowState :=
  let '(lo, _) := w_bounds (fw_spec w) now_pos in
  let '(sums, buf) := drop_while_fold (fun p => p <? lo) drop_entry (fw_sums w) (fw_buf w) in
  {| fw_spec := fw_spec w; fw_buf := buf; fw_sums := sums |}.

Definition fw_push (w : WindowState) (side : Side) (sol : f64) (pos : Z) : WindowState :=
  let s := fw_sums w in
  match side with
  | Buy => {| fw_spec := fw_spec w; fw_buf := push_sorted (fw_buf w) pos sol;
              fw_sums := {| fs_buy := fs_buy s ⊕ sol; fs_sell := fs_sell s;
                            fs_buy_n := wrap_u 32 (fs_buy_n s + 1) |} |}
  | Sell => {| fw_spec := fw_spec w; fw_buf := push_sorted (fw_buf w) pos (fneg sol);
               fw_sums := {| fs_buy := fs_buy s; fs_sell := fs_sell s ⊕ sol; fs_buy_n := fs_buy_n s |} |}
  end.

Definition fw_on_trade (w : WindowState) (side : Side) (sol : f64) (pos now_pos : Z) : WindowState :=
  if negb (is_foldable sol) then w else fw_evict (fw_push w side sol pos) now_pos.

Definition fw_trade_count (w : WindowState) (now_pos : Z) : f64 :=
  let '(lo, hi) := w_bounds (fw_spec w) now_pos in
  f_of_Z (Z.of_nat (length (fw_buf w)) - Z.of_nat (front_out lo (fw_buf w)) - Z.of_nat (back_out hi (fw_buf w))).

Definition fw_value (w : WindowState) (id : Metric) (now_pos : Z) : f64 :=
  let '(lo, hi) := w_bounds (fw_spec w) now_pos in
  let s := undo_ends drop_entry lo hi (fw_sums w) (fw_buf w) in
  match id with
  | BuySol => fs_buy s
  | SellSol => fs_sell s
  | GrossSol => fs_buy s ⊕ fs_sell s
  | NetSol => fs_buy s ⊖ fs_sell s
  | BuyCount => f_of_Z (fs_buy_n s)
  | SellCount => fw_trade_count w now_pos ⊖ f_of_Z (fs_buy_n s)
  | BuySharePct =>
      let gross := fs_buy s ⊕ fs_sell s in
      if gross >. f_zero then fs_buy s ⊘ gross ⊗ f_of_Z 100 else f_nan
  | TradeCount => fw_trade_count w now_pos
  | _ => f_nan
  end.

(** ** A slice of a window *)

Definition trade_share (slice reference : WindowState) (slice_now reference_now : Z) : f64 :=
  let denom := fw_trade_count reference reference_now in
  if denom >. f_zero then fw_trade_count slice slice_now ⊘ denom ⊗ f_of_Z 100 else f_nan.

Definition sol_share (slice reference : WindowState) (slice_now reference_now : Z) : f64 :=
  let denom := fw_value reference GrossSol reference_now in
  if denom >. f_zero then fw_value slice GrossSol slice_now ⊘ denom ⊗ f_of_Z 100 else f_nan.

(** ** The lifetime flow *)

Module Flow_lifetime.
Record t := { buy : f64; sell : f64; trades : Z; buys : Z }.

Definition default : t := {| buy := f_zero; sell := f_zero; trades := 0; buys := 0 |}.

Definition on_trade (s : t) (side : Side) (sol : f64) : t :=
  if negb (is_finite sol) || (sol <. f_zero) then s
  else match side with
  | Buy => {| buy := buy s ⊕ sol; sell := sell s; trades := wrap_u 64 (trades s + 1);
              buys := wrap_u 64 (buys s + 1) |}
  | Sell => {| buy := buy s; sell := sell s ⊕ sol; trades := wrap_u 64 (trades s + 1); buys := buys s |}
  end.

Definition value (s : t) (id : Metric) : f64 :=
  match id with
  | BuySol => buy s
  | SellSol => sell s
  | GrossSol => buy s ⊕ sell s
  | NetSol => buy s ⊖ sell s
  | TradeCount => f_of_Z (trades s)
  | BuyCount => f_of_Z (buys s)
  | SellCount => f_of_Z (trades s - buys s)
  | _ => f_nan
  end.
End Flow_lifetime.

(** ** Counting distinct wallets and builds

    [metrics/distinct_window.rs] (the trailing distinct counter), its two users
    [metrics/crowd_window.rs] and [metrics/build_window.rs], and the capped buyer set of
    [metrics/crowd_after_age.rs]. *)

Record DistinctWindow := { dw_spec : WindowSpec; dw_buf : list (Z * Z); dw_counts : gmap Z Z }.

Definition DistinctWindow_new (spec : WindowSpec) : DistinctWindow :=
  {| dw_spec := spec; dw_buf := []; dw_counts := ∅ |}.

Definition uncount (counts : gmap Z Z) (key : Z) : gmap Z Z :=
  match counts !! key with
  | Some n => if n - 1 =? 0 then delete key counts else <[key := n - 1]> counts
  | None => counts
  end.

Definition dw_evict (w : DistinctWindow) (now_pos : Z) : DistinctWindow :=
  let '(lo, _) := w_bounds (dw_spec w) now_pos in
  let '(counts, buf) := drop_while_fold (fun p => p <? lo) uncount (dw_counts w) (dw_buf w) in
  {| dw_spec := dw_spec w; dw_buf := buf; dw_counts := counts |}.

Definition dw_push (w : DistinctWindow) (key pos now_pos : Z) : DistinctWindow :=
  dw_evict {| dw_spec := dw_spec w; dw_buf := push_sorted (dw_buf w) pos key;
              dw_counts := <[key := wrap_u 32 (unwrap_or (dw_counts w !! key) 0 + 1)]> (dw_counts w) |} now_pos.

Definition dw_ends (w : DistinctWindow) (now_pos : Z) : nat * nat :=
  let '(lo, hi) := w_bounds (dw_spec w) now_pos in (front_out lo (dw_buf w), back_out hi (dw_buf w)).

Definition dw_count (w : DistinctWindow) (now_pos : Z) : f64 :=
  let '(front, back) := dw_ends w now_pos in
  f_of_Z (Z.of_nat (length (dw_buf w) - (front + back))).

(** One more out-of-window occurrence of a key. *)
Fixpoint tally (out : list (Z * Z)) (k : Z) : list (Z * Z) :=
  match out with
  | [] => [(k, 1)]
  | (x, n) :: rest => if x =? k then (x, n + 1) :: rest else (x, n) :: tally rest k
  end.

(** The distinct keys inside the window, as a number: the live keys less those all of
    whose occurrences lie off an end. *)
Definition dw_distinct_n (w : DistinctWindow) (now_pos : Z) : Z :=
  let '(front, back) := dw_ends w now_pos in
  if (Nat.eqb front 0) && (Nat.eqb back 0) then Z.of_nat (size (dw_counts w))
  else if Nat.leb (length (dw_buf w)) (front + back) then 0
  else
    let out := foldl tally [] ((take front (dw_buf w)).*2 ++ (take back (rev (dw_buf w))).*2) in
    let gone := List.filter (fun e => bool_decide (dw_counts w !! e.1 = Some e.2)) out in
    Z.of_nat (size (dw_counts w)) - Z.of_nat (length gone).

Definition dw_distinct (w : DistinctWindow) (now_pos : Z) : f64 := f_of_Z (dw_distinct_n w now_pos).

(** ** Wallets per window *)

Module Crowd_window.
Definition on_trade (w : DistinctWindow) (sol : f64) (wallet pos now_pos : Z) : DistinctWindow :=
  if negb (is_foldable sol) then w else dw_push w wallet pos now_pos.

Definition value (w : DistinctWindow) (id : Metric) (now_pos : Z) : f64 :=
  match id with
  | UniqueWallets => dw_distinct w now_pos
  | TradesPerWallet =>
      let wallets := dw_distinct w now_pos in
      if wallets >. f_zero then dw_count w now_pos ⊘ wallets else f_nan
  | _ => f_nan
  end.
End Crowd_window.

(** ** Builds per window *)

Module Build_window.
Definition on_trade (w : DistinctWindow) (sol : f64) (build : option Z) (pos now_pos : Z) : DistinctWindow :=
  match build with
  | Some b => if is_foldable sol then dw_push w b pos now_pos else dw_evict w now_pos
  | None => dw_evict w now_pos
  end.

Definition value (w : DistinctWindow) (id : Metric) (now_pos : Z) : f64 :=
  match id with UniqueIxShapes => dw_distinct w now_pos | _ => f_nan end.
End Build_window.

(** ** Buyers after an age *)

Module Crowd_after_age.
Record t := { anchor : AgeAnchor; cap : Z; buyers : list Z; last_print_added : bool }.

Definition new (a : AgeAnchor) (c : Z) : t :=
  {| anchor := a; cap := Z.max c 1; buyers := []; last_print_added := false |}.

Definition raise_cap (s : t) (c : Z) : t :=
  if cap s <? c
  then {| anchor := anchor s; cap := c; buyers := buyers s; last_print_added := last_print_added s |}
  else s.

Definition admits (a : AgeAnchor) (created_at at_ : Ts) : bool :=
  secs_between created_at at_ ⊗ f_of_Z 1000 >=. f_of_Z (after_age_ms a).

Definition set_added (s : t) (b : bool) : t :=
  {| anchor := anchor s; cap := cap s; buyers := buyers s; last_print_added := b |}.

Definition on_trade (s : t) (tr : TradeLite) (created_at : Ts) (creator : option Z) : t :=
  let s := set_added s false in
  if negb (bool_decide (t_side tr = Buy)) || negb (is_finite (t_sol tr)) || (t_sol tr <. f_zero) then s
  else if bool_decide (creator = Some (t_wallet_hash tr)) || negb (admits (anchor s) created_at (t_at tr)) then s
  else if cap s <=? wrap_u 32 (Z.of_nat (length (buyers s))) then s
  else if contains (buyers s) (t_wallet_hash tr) then s
  else {| anchor := anchor s; cap := cap s; buyers := buyers s ++ [t_wallet_hash tr]; last_print_added := true |}.

Definition on_tick (s : t) : t := set_added s false.

Definition value (s : t) (id : Metric) : f64 :=
  match id with
  | BuyerCount => f_of_Z (Z.of_nat (length (buyers s)))
  | BuyerIsNew => f_of_Z (if last_print_added s then 1 else 0)
  | _ => f_nan
  end.
End Crowd_after_age.

(** ** The trailing price extrema

    [metrics/price_window.rs]: two monotonic deques of (price, position), front first. *)

Record PriceWindow := { pw_spec : WindowSpec; pw_max : list (f64 * Z); pw_min : list (f64 * Z) }.

Definition PriceWindow_new (spec : WindowSpec) : PriceWindow := {| pw_spec := spec; pw_max := []; pw_min := [] |}.

(** [pop_back] while [f] holds of the back. *)
Definition pop_back_while (f : f64 * Z -> bool) (l : list (f64 * Z)) : list (f64 * Z) :=
  rev (drop_while f (rev l)).

Definition pw_evict (w : PriceWindow) (now_pos : Z) : PriceWindow :=
  let '(lo, _) := w_bounds (pw_spec w) now_pos in
  {| pw_spec := pw_spec w; pw_max := drop_while (fun e => e.2 <? lo) (pw_max w);
     pw_min := drop_while (fun e => e.2 <? lo) (pw_min w) |}.

Definition pw_on_trade (w : PriceWindow) (price : f64) (pos now_pos : Z) : PriceWindow :=
  if negb (is_finite price) then w
  else pw_evict
    {| pw_spec := pw_spec w;
       pw_max := pop_back_while (fun e => e.1 <=. price) (pw_max w) ++ [(price, pos)];
       pw_min := pop_back_while (fun e => e.1 >=. price) (pw_min w) ++ [(price, pos)] |} now_pos.

(** The entries a deque holds inside the window. *)
Definition pw_inside (w : PriceWindow) (now_pos : Z) (l : list (f64 * Z)) : list (f64 * Z) :=
  List.filter (fun e => in_window (pw_spec w) e.2 now_pos) l.

(** [max_by], [min_by] on prices, [max_by_key] on positions: the last of equal maxima,
    the first of equal minima. *)
Definition max_price (l : list (f64 * Z)) : option f64 :=
  reduce_list (fun a b => if a >. b then a else b) l.*1.
Definition min_price (l : list (f64 * Z)) : option f64 :=
  reduce_list (fun a b => if a >. b then b else a) l.*1.
Definition newest (l : list (f64 * Z)) : option f64 :=
  fst <$> reduce_list (fun a b => if b.2 <? a.2 then a else b) l.

Definition win_high (w : PriceWindow) (now_pos : Z) : option f64 := max_price (pw_inside w now_pos (pw_max w)).
Definition win_low (w : PriceWindow) (now_pos : Z) : option f64 := min_price (pw_inside w now_pos (pw_min w)).
Definition pw_current_price (w : PriceWindow) (now_pos : Z) : option f64 := newest (pw_inside w now_pos (pw_max w)).

Definition pw_trail (w : PriceWindow) (now_pos : Z) : f64 :=
  match win_high w now_pos, pw_current_price w now_pos with
  | Some high, Some cur => if high >. f_zero then (high ⊖ cur) ⊘ high ⊗ f_of_Z 100 else f_nan
  | _, _ => f_nan
  end.

Definition pw_rise (w : PriceWindow) (now_pos : Z) : f64 :=
  match win_low w now_pos, pw_current_price w now_pos with
  | Some low, Some cur => if low >. f_zero then (cur ⊖ low) ⊘ low ⊗ f_of_Z 100 else f_nan
  | _, _ => f_nan
  end.

Definition pw_value (w : PriceWindow) (id : Metric) (now_pos : Z) : f64 :=
  match id with TrailPct => pw_trail w now_pos | RisePct => pw_rise w now_pos | _ => f_nan end.
