(* ===== verification/Coin.v ===== *)
(** * Coin: the lifetime states every coin keeps

    [metrics/state.rs] (module [State_metrics]) and [metrics/price_lifetime.rs] (module
    [Price_lifetime]): the last reserves and venue, and the price path's peak, trough
    and stall clock. *)

From S2P Require Export Vocab Windows.

Module State_metrics.
Record t := { reserve_sol : option f64; peak_reserve_sol : option f64; on_curve : option bool }.

Definition default : t := {| reserve_sol := None; peak_reserve_sol := None; on_curve := None |}.

Definition on_trade (s : t) (r : f64) (c : bool) : t :=
  if is_finite r
  then {| reserve_sol := Some r;
          peak_reserve_sol := Some (map_or (peak_reserve_sol s) r (fun p => fmax p r));
          on_curve := Some c |}
  else {| reserve_sol := reserve_sol s; peak_reserve_sol := peak_reserve_sol s; on_curve := Some c |}.

Definition time (created_at now : Ts) : f64 := secs_between created_at now.

Definition liquidity (s : t) : f64 := unwrap_or (reserve_sol s) f_nan.

Definition value (s : t) (id : Metric) (created_at now : Ts) : f64 :=
  match id with
  | AgeSec => time created_at now
  | LiquiditySol => liquidity s
  | PeakLiquiditySol => unwrap_or (peak_reserve_sol s) f_nan
  | OnCurve => map_or (on_curve s) f_nan (fun c => f_of_Z (if c then 1 else 0))
  | _ => f_nan
  end.
End State_metrics.

Module Price_lifetime.
Record t := {
  peak_price : option f64;
  trough_price : option f64;
  last_price : option f64;
  peak_at : Ts;
}.

Definition new (created_at : Ts) : t :=
  {| peak_price := None; trough_price := None; last_price := None; peak_at := created_at |}.

Definition on_trade (s : t) (price : f64) (at_ : Ts) : t :=
  if negb (is_finite price) then s
  else
    let new_high := match peak_price s with Some peak => price >. peak | None => true end in
    let new_low := match trough_price s with Some trough => price <. trough | None => true end in
    {| peak_price := if new_high then Some price else peak_price s;
       peak_at := if new_high then at_ else peak_at s;
       trough_price := if new_low then Some price else trough_price s;
       last_price := Some price |}.

Definition last_price_or_nan (s : t) : f64 := unwrap_or (last_price s) f_nan.

Definition stall (s : t) (now : Ts) : f64 := fmax (secs_between (peak_at s) now) f_zero.

Definition trail (s : t) : f64 :=
  match peak_price s, last_price s with
  | Some peak, Some current =>
      if peak >. f_zero then (peak ⊖ current) ⊘ peak ⊗ f_of_Z 100 else f_nan
  | _, _ => f_nan
  end.

Definition rise (s : t) : f64 :=
  match trough_price s, last_price s with
  | Some trough, Some current =>
      if trough >. f_zero then (current ⊖ trough) ⊘ trough ⊗ f_of_Z 100 else f_nan
  | _, _ => f_nan
  end.

Definition value (s : t) (id : Metric) (now : Ts) : f64 :=
  match id with
  | StallSec => stall s now
  | TrailPct => trail s
  | RisePct => rise s
  | _ => f_nan
  end.
End Price_lifetime.

(** ** Facts *)

Module Coin_facts.
Import Price_lifetime.

(** The state after at least one finite price: the three prices are present, finite,
    and ordered. *)
Definition path_ok (s : t) : Prop :=
  match trough_price s, last_price s, peak_price s with
  | Some lo, Some p, Some hi =>
      is_finite lo = true /\ is_finite p = true /\ is_finite hi = true /\
      (lo <=. p) = true /\ (p <=. hi) = true
  | None, None, None => True
  | _, _, _ => False
  end.

Lemma new_ok c : path_ok (new c).
Proof. done. Qed.

Lemma on_trade_ok s p at_ : path_ok s -> path_ok (on_trade s p at_).
Proof.
  unfold path_ok, on_trade. destruct (is_finite p) eqn:Hf; cbn [negb]; [|done].
  assert (Hn : is_nan p = false) by auto with engine.
  destruct (trough_price s) as [lo|], (last_price s) as [q|], (peak_price s) as [hi|];
    cbn; try done; unfold fgt.
  - intros (Hlo & Hq & Hhi & H1 & H2).
    assert (is_nan lo = false) by auto with engine.
    assert (is_nan hi = false) by auto with engine.
    destruct (p <. lo) eqn:E1, (hi <. p) eqn:E2; cbn; split_and!;
      auto using fle_refl, flt_total.
  - intros _. split_and!; auto using fle_refl.
Qed.

(** The peak's stall clock restarts exactly on a strictly higher finite price (or the
    first one), and otherwise stands. *)
Lemma on_trade_clock s p at_ :
  peak_at (on_trade s p at_) =
    if is_finite p && match peak_price s with Some hi => p >. hi | None => true end
    then at_ else peak_at s.
Proof. unfold on_trade. by destruct (is_finite p). Qed.

Lemma peak_monotone s p at_ hi :
  path_ok s -> peak_price s = Some hi ->
  exists hi', peak_price (on_trade s p at_) = Some hi' /\ (hi <=. hi') = true.
Proof.
  unfold path_ok. intros Hok Hhi. rewrite Hhi in Hok.
  destruct (trough_price s), (last_price s); try done. destruct Hok as (_ & _ & Hf & _).
  unfold on_trade. destruct (is_finite p) eqn:Hp; cbn [negb].
  2: { exists hi. split; [done|]. auto with engine. }
  cbn. rewrite Hhi. unfold fgt. destruct (hi <. p) eqn:E; eexists; (split; [done|]); auto with engine.
Qed.

Lemma reserve_peak_monotone (s : State_metrics.t) r c hi :
  State_metrics.peak_reserve_sol s = Some hi -> is_nan hi = false ->
  exists hi', State_metrics.peak_reserve_sol (State_metrics.on_trade s r c) = Some hi' /\
    (hi <=. hi') = true.
Proof.
  intros Hs Hn. unfold State_metrics.on_trade. destruct (is_finite r); cbn; rewrite Hs.
  - eexists. split; [done|]. by apply fmax_ge_l.
  - eexists. split; [done|]. by apply fle_refl.
Qed.
End Coin_facts.

(** ** What a coin remembers of each wallet

    [metrics/print_wallet.rs] (module [Print_wallet]) and [metrics/holder_book.rs]: the
    per-wallet token book, its class sums, its ranking by bag size and the readings off
    them.  A [BTreeSet] is its ascending list.  The two indexings of the source that a
    missing key or index would stop ([groups[g]], [bags[w]]) read an empty group and a
    zero bag. *)

(** ** Bits of a float *)

Definition to_bits (x : f64) : Z :=
  match x with
  | S754_zero s => if s then 2 ^ 63 else 0
  | S754_infinity s => (if s then 2 ^ 63 else 0) + 2047 * 2 ^ 52
  | S754_nan => 4095 * 2 ^ 51
  | S754_finite s m e =>
      (if s then 2 ^ 63 else 0) +
      (if Z.pos m <? 2 ^ 52 then Z.pos m else (e + 1075) * 2 ^ 52 + (Z.pos m - 2 ^ 52))
  end.

Definition from_bits (b : Z) : f64 :=
  let s := 2 ^ 63 <=? b in
  let ex := (b / 2 ^ 52) mod 2 ^ 11 in
  let fr := b mod 2 ^ 52 in
  if ex =? 2047 then (if fr =? 0 then S754_infinity s else S754_nan)
  else if ex =? 0 then
    match fr with Z.pos m => S754_finite s m (-1074) | _ => S754_zero s end
  else match fr + 2 ^ 52 with Z.pos m => S754_finite s m (ex - 1075) | _ => S754_zero s end.

(** ** The wallet behind a print *)

Module Print_wallet.
Record t := { last_buy : gmap Z Ts; since_buy : f64 }.

Definition default : t := {| last_buy := ∅; since_buy := f_nan |}.

Definition on_trade (s : t) (tr : TradeLite) : t :=
  {| since_buy := map_or (last_buy s !! t_wallet_hash tr) f_nan (fun at_ => secs_between at_ (t_at tr));
     last_buy := if bool_decide (t_side tr = Buy) && is_foldable (t_sol tr)
                 then <[t_wallet_hash tr := t_at tr]> (last_buy s) else last_buy s |}.

Definition on_tick (s : t) : t := {| last_buy := last_buy s; since_buy := f_nan |}.

Definition value (s : t) (id : Metric) : f64 := match id with SinceBuySec => since_buy s | _ => f_nan end.
End Print_wallet.

(** ** The holder book *)

Inductive TopHolders := TopOne | TopTen | TopOnePct | TopTenPct.

Definition usize_div_ceil (a b : nat) : nat := Nat.div (a + b - 1) b.

Definition top_size (top : TopHolders) (holders : nat) : nat :=
  Nat.min (match top with
           | TopOne => 1 | TopTen => 10 | TopOnePct => usize_div_ceil holders 100 | TopTenPct => usize_div_ceil holders 10
           end) holders.

Definition dump_drop_pct (pool_tokens sold : f64) : f64 :=
  let keep := pool_tokens ⊘ (pool_tokens ⊕ sold) in
  (f_of_Z 1 ⊖ keep ⊗ keep) ⊗ f_of_Z 100.

Definition BUNDLE_MIN_WALLETS : Z := 3.

Record Bag := { bag_tokens : f64; bag_group : option Z; bag_public : option bool }.
Record Group := { gr_n : Z; gr_early : list Z }.

Definition Group_default : Group := {| gr_n := 0; gr_early := [0; 0] |}.

Record HolderBook := {
  hb_bags : gmap Z Bag;
  hb_groups : list Group;
  hb_group_of : gmap (Z * option Z) Z;
  hb_live : f64;
  hb_public : f64;
  hb_unknown : f64;
  hb_bundled : f64;
  hb_broken : bool;
  hb_ranked : list (Z * Z);
  hb_pool_tokens : f64;
}.

Definition HolderBook_default : HolderBook :=
  {| hb_bags := ∅; hb_groups := []; hb_group_of := ∅; hb_live := f_zero; hb_public := f_zero; hb_unknown := f_zero;
     hb_bundled := f_zero; hb_broken := false; hb_ranked := []; hb_pool_tokens := f_zero |}.

(** The order of the ranking: bits first, then wallet. *)
Definition rank_lt (a b : Z * Z) : bool := (a.1 <? b.1) || ((a.1 =? b.1) && (a.2 <? b.2)).

Fixpoint ranked_insert (x : Z * Z) (l : list (Z * Z)) : list (Z * Z) :=
  match l with
  | [] => [x]
  | y :: l' => if rank_lt x y then x :: l else if rank_lt y x then y :: ranked_insert x l' else l
  end.

Definition ranked_remove (x : Z * Z) (l : list (Z * Z)) : list (Z * Z) := List.filter (fun y => negb (bool_decide (y = x))) l.

Definition set_pool (b : HolderBook) (pool : f64) : HolderBook :=
  {| hb_bags := hb_bags b; hb_groups := hb_groups b; hb_group_of := hb_group_of b; hb_live := hb_live b;
     hb_public := hb_public b; hb_unknown := hb_unknown b; hb_bundled := hb_bundled b; hb_broken := hb_broken b;
     hb_ranked := hb_ranked b; hb_pool_tokens := pool |}.

Definition set_broken (b : HolderBook) : HolderBook :=
  {| hb_bags := hb_bags b; hb_groups := hb_groups b; hb_group_of := hb_group_of b; hb_live := hb_live b;
     hb_public := hb_public b; hb_unknown := hb_unknown b; hb_bundled := hb_bundled b; hb_broken := true;
     hb_ranked := hb_ranked b; hb_pool_tokens := hb_pool_tokens b |}.

Definition group_at (b : HolderBook) (g : Z) : Group := unwrap_or (hb_groups b !! Z.to_nat g) Group_default.

(** The wallet's bag moved by [signed] and every sum it is part of. *)
Definition move_bag (b : HolderBook) (wallet : Z) (signed : f64) : HolderBook * f64 :=
  let bag := unwrap_or (hb_bags b !! wallet) {| bag_tokens := f_zero; bag_group := None; bag_public := None |} in
  let old := bag_tokens bag in
  let new := fmax (old ⊕ signed) f_zero in
  let delta := new ⊖ old in
  let ranked := if old >. f_zero then ranked_remove (to_bits old, wallet) (hb_ranked b) else hb_ranked b in
  let ranked := if new >. f_zero then ranked_insert (to_bits new, wallet) ranked else ranked in
  ({| hb_bags := <[wallet := {| bag_tokens := new; bag_group := bag_group bag; bag_public := bag_public bag |}]> (hb_bags b);
      hb_groups := hb_groups b; hb_group_of := hb_group_of b; hb_live := hb_live b ⊕ delta;
      hb_public := match bag_group bag, bag_public bag with
                   | Some _, Some true => hb_public b ⊕ delta | _, _ => hb_public b end;
      hb_unknown := match bag_group bag, bag_public bag with
                    | Some _, None => hb_unknown b ⊕ delta | _, _ => hb_unknown b end;
      hb_bundled := match bag_group bag with
                    | Some g => if BUNDLE_MIN_WALLETS <=? gr_n (group_at b g) then hb_bundled b ⊕ delta else hb_bundled b
                    | None => hb_bundled b
                    end;
      hb_broken := hb_broken b; hb_ranked := ranked; hb_pool_tokens := hb_pool_tokens b |}, new).

Definition tokens_of (b : HolderBook) (wallet : Z) : f64 := map_or (hb_bags b !! wallet) f_zero bag_tokens.

Definition class_first_buy (b : HolderBook) (t : TradeLite) (tokens : f64) : HolderBook :=
  let public := t_build_day_public t in
  let next := wrap_u 32 (Z.of_nat (length (hb_groups b))) in
  let key := (t_slot t, t_build_hash t) in
  let g := unwrap_or (hb_group_of b !! key) next in
  let groups := if g =? next then hb_groups b ++ [Group_default] else hb_groups b in
  let group := unwrap_or (groups !! Z.to_nat g) Group_default in
  let n := wrap_u 32 (gr_n group + 1) in
  let early := if n <? BUNDLE_MIN_WALLETS then <[Z.to_nat (n - 1) := t_wallet_hash t]> (gr_early group) else gr_early group in
  let bundled :=
    if n <? BUNDLE_MIN_WALLETS then hb_bundled b
    else if n =? BUNDLE_MIN_WALLETS
    then hb_bundled b ⊕ (tokens ⊕ foldl fadd f_zero (tokens_of b <$> early))
    else hb_bundled b ⊕ tokens in
  let bag := {| bag_tokens := tokens_of b (t_wallet_hash t); bag_group := Some g; bag_public := public |} in
  {| hb_bags := <[t_wallet_hash t := bag]> (hb_bags b);
     hb_groups := <[Z.to_nat g := {| gr_n := n; gr_early := early |}]> groups;
     hb_group_of := <[key := g]> (hb_group_of b); hb_live := hb_live b;
     hb_public := match public with Some true => hb_public b ⊕ tokens | _ => hb_public b end;
     hb_unknown := match public with None => hb_unknown b ⊕ tokens | _ => hb_unknown b end;
     hb_bundled := bundled; hb_broken := hb_broken b; hb_ranked := hb_ranked b; hb_pool_tokens := hb_pool_tokens b |}.

Definition hb_on_trade (b : HolderBook) (t : TradeLite) : HolderBook :=
  let b := if (t_price t >. f_zero) && (t_priced_reserve_sol t >. f_zero)
           then set_pool b (t_priced_reserve_sol t ⊘ t_price t) else b in
  if hb_broken b then b
  else if negb (is_finite (t_token_amount t) && (t_token_amount t >=. f_zero)) then set_broken b
  else
    let held := hb_bags b !! t_wallet_hash t in
    match t_side t with
    | Buy =>
        let first_buy := is_none_or held (fun bag => is_noneb (bag_group bag)) in
        let '(b, new) := move_bag b (t_wallet_hash t) (t_token_amount t) in
        if first_buy then class_first_buy b t new else b
    | Sell =>
        match held with
        | None => b
        | Some _ => (move_bag b (t_wallet_hash t) (fneg (t_token_amount t))).1
        end
    end.

Definition hb_holders (b : HolderBook) : nat := length (hb_ranked b).

Definition top_dump_drop_pct (b : HolderBook) (top : TopHolders) : f64 :=
  if hb_broken b || (hb_pool_tokens b <=. f_zero) then f_nan
  else
    let n := top_size top (length (hb_ranked b)) in
    dump_drop_pct (hb_pool_tokens b) (foldl fadd f_zero ((fun e => from_bits e.1) <$> take n (rev (hb_ranked b)))).

Definition bag_share_pct (b : HolderBook) (cls : string) : f64 :=
  if hb_broken b || (hb_live b <=. f_zero) then f_nan
  else if String.eqb cls PUBLIC_APP then
    (if hb_unknown b >. f_zero then f_nan else hb_public b ⊘ hb_live b ⊗ f_of_Z 100)
  else if String.eqb cls BUNDLED then hb_bundled b ⊘ hb_live b ⊗ f_of_Z 100
  else f_nan.
