(* ===== verification/Axis.v ===== *)
(** * Axis: the matchable creation axes and the span algebra

    [fingerprint/axis.rs].  The registry of axes, the predicates they are matched with,
    and [SpanSet], the canonical form every numeric predicate is stored in; the facts
    give the algebra's set semantics over [u128] and the canonicity of its results. *)

From S2P Require Export Prelude.

Inductive AxisId :=
  | CuLimit | CuPrice | InitBuyLamports | MaxCostLamports | SpendableLamportsIn
  | FirstSlotBuyLamports | FirstSlotSellLamports | IxLabels | IxCount | PriorLaunches
  | CreateAta | BuildPrevDayLaunches | BuildPrevDayRunnerBps | NameReuseCount.

#[export] Instance AxisId_eq_dec : EqDecision AxisId.
Proof. solve_decision. Defined.

Inductive AxisKind := Numeric | Sequence_.
Inductive AxisUnit := AxLamports | AxComputeUnits | AxCount | AxBps | AxLabels.
Inductive AxisPhase := PhInstant | PhFirstSlot.

#[export] Instance AxisKind_eq_dec : EqDecision AxisKind.
Proof. solve_decision. Defined.
#[export] Instance AxisPhase_eq_dec : EqDecision AxisPhase.
Proof. solve_decision. Defined.

Definition ALL : list AxisId :=
  [CuLimit; CuPrice; InitBuyLamports; MaxCostLamports; SpendableLamportsIn; FirstSlotBuyLamports;
   FirstSlotSellLamports; IxLabels; IxCount; PriorLaunches; CreateAta; BuildPrevDayLaunches;
   BuildPrevDayRunnerBps; NameReuseCount].

(** The position in the registry, which is the order of a criteria map. *)
Definition axis_index (a : AxisId) : Z :=
  match a with
  | CuLimit => 0 | CuPrice => 1 | InitBuyLamports => 2 | MaxCostLamports => 3
  | SpendableLamportsIn => 4 | FirstSlotBuyLamports => 5 | FirstSlotSellLamports => 6
  | IxLabels => 7 | IxCount => 8 | PriorLaunches => 9 | CreateAta => 10
  | BuildPrevDayLaunches => 11 | BuildPrevDayRunnerBps => 12 | NameReuseCount => 13
  end.

Record AxisDef := {
  ad_id : AxisId; ad_key : string; ad_chip : string;
  ad_kind : AxisKind; ad_unit : AxisUnit; ad_phase : AxisPhase;
}.

Definition axis_def (a : AxisId) : AxisDef :=
  match a with
  | CuLimit => Build_AxisDef a "cu_limit" "cu_limit" Numeric AxComputeUnits PhInstant
  | CuPrice => Build_AxisDef a "cu_price" "cu_price" Numeric AxComputeUnits PhInstant
  | InitBuyLamports => Build_AxisDef a "init_buy_lamports" "init" Numeric AxLamports PhInstant
  | MaxCostLamports => Build_AxisDef a "max_cost_lamports" "max" Numeric AxLamports PhInstant
  | SpendableLamportsIn => Build_AxisDef a "spendable_lamports_in" "spend" Numeric AxLamports PhInstant
  | FirstSlotBuyLamports => Build_AxisDef a "first_slot_buy_lamports" "fs_buy" Numeric AxLamports PhFirstSlot
  | FirstSlotSellLamports => Build_AxisDef a "first_slot_sell_lamports" "fs_sell" Numeric AxLamports PhFirstSlot
  | IxLabels => Build_AxisDef a "ix_labels" "ix" Sequence_ AxLabels PhInstant
  | IxCount => Build_AxisDef a "ix_count" "ix_count" Numeric AxCount PhInstant
  | PriorLaunches => Build_AxisDef a "prior_launches" "prior" Numeric AxCount PhInstant
  | CreateAta => Build_AxisDef a "create_ata" "ata" Numeric AxCount PhInstant
  | BuildPrevDayLaunches => Build_AxisDef a "build_prev_day_launches" "bld_n" Numeric AxCount PhInstant
  | BuildPrevDayRunnerBps => Build_AxisDef a "build_prev_day_runner_bps" "bld_run" Numeric AxBps PhInstant
  | NameReuseCount => Build_AxisDef a "name_reuse_count" "name_rep" Numeric AxCount PhInstant
  end.

Definition axis_key (a : AxisId) : string := ad_key (axis_def a).

Definition from_key (key : string) : option AxisId :=
  find_first (fun a => bool_decide (axis_key a = key)) ALL.

Definition is_deferred (a : AxisId) : bool := bool_decide (ad_phase (axis_def a) = PhFirstSlot).

(** ** Spans *)

Record AxSpan := { s_min : option Z; s_max : option Z }.

#[export] Instance AxSpan_eq_dec : EqDecision AxSpan.
Proof. solve_decision. Defined.

Definition span_exact (v : Z) : AxSpan := {| s_min := Some v; s_max := Some v |}.
Definition span_all : AxSpan := {| s_min := None; s_max := None |}.
Definition span_lo (s : AxSpan) : Z := unwrap_or (s_min s) 0.

Definition span_contains (s : AxSpan) (v : Z) : bool :=
  is_none_or (s_min s) (fun lo => lo <=? v) && is_none_or (s_max s) (fun hi => v <=? hi).

Definition span_is_satisfiable (s : AxSpan) : bool :=
  match s_min s, s_max s with Some a, Some b => a <=? b | _, _ => true end.

Definition touches (s other : AxSpan) : bool :=
  match s_max s with
  | None => true
  | Some hi => span_lo other <=? sat_add u128_max hi 1
  end.

(** ** Predicates *)

Inductive AxisPredicate :=
  | Range (min max : option Z)
  | Spans (spans : list AxSpan)
  | Sequence (labels : list string).

#[export] Instance AxisPredicate_eq_dec : EqDecision AxisPredicate.
Proof. solve_decision. Defined.

Definition pred_exact (v : Z) : AxisPredicate := Range (Some v) (Some v).

Definition half_open (lo : Z) (hi : option Z) : AxisPredicate :=
  Range (Some lo) ((fun h => sat_sub h 1) <$> hi).

Definition pred_kind (p : AxisPredicate) : AxisKind :=
  match p with Range _ _ | Spans _ => Numeric | Sequence _ => Sequence_ end.

Definition pred_spans (p : AxisPredicate) : list AxSpan :=
  match p with
  | Range min max => [{| s_min := min; s_max := max |}]
  | Spans spans => spans
  | Sequence _ => []
  end.

Definition as_exact (p : AxisPredicate) : option Z :=
  match p with
  | Range (Some a) (Some b) => if a =? b then Some a else None
  | _ => None
  end.

Definition pred_is_satisfiable (p : AxisPredicate) : bool :=
  match p with
  | Range (Some a) (Some b) => a <=? b
  | Range _ _ => true
  | Spans spans => match spans with [] => false | _ => forallb span_is_satisfiable spans end
  | Sequence labels => match labels with [] => false | _ => true end
  end.

Inductive ShapeProblem := TooFewSpans | SpansOverlap.

(** Some adjacent pair of the list, [windows(2)]. *)
Fixpoint any_window2 {A} (f : A -> A -> bool) (l : list A) : bool :=
  match l with
  | a :: (b :: _) as l' => f a b || any_window2 f l'
  | _ => false
  end.

Definition shape_problem (p : AxisPredicate) : option ShapeProblem :=
  match p with
  | Spans spans =>
      if (length spans <? 2)%nat then Some TooFewSpans
      else if any_window2 (fun a b => negb (span_is_satisfiable a) || touches a b) spans
      then Some SpansOverlap else None
  | _ => None
  end.

Definition matches_num (p : AxisPredicate) (v : Z) : bool :=
  match p with
  | Range min max => is_none_or min (fun lo => lo <=? v) && is_none_or max (fun hi => v <=? hi)
  | Spans spans => existsb (fun s => span_contains s v) (take_while (fun s => span_lo s <=? v) spans)
  | Sequence _ => false
  end.

Definition matches_seq (p : AxisPredicate) (obs : list string) : bool :=
  match p with
  | Sequence labels => (length labels =? length obs)%nat && bool_decide (labels = obs)
  | _ => false
  end.

(** ** The span algebra: a set is its list of spans *)

Abbreviation SpanSet := (list AxSpan) (only parsing).

(** [cmp_hi(a, b) <= Equal]: an open end is last. *)
Definition hi_le (a b : option Z) : bool :=
  match a, b with
  | _, None => true
  | None, Some _ => false
  | Some x, Some y => x <=? y
  end.

Definition span_le (a b : AxSpan) : bool :=
  (span_lo a <? span_lo b) || ((span_lo a =? span_lo b) && hi_le (s_max a) (s_max b)).

(** One span merged into the output so far, whose last element is the list's head. *)
Definition merge_step (out : list AxSpan) (s : AxSpan) : list AxSpan :=
  match out with
  | prev :: rest =>
      if touches prev s then
        (if is_someb (s_max prev) && negb (hi_le (s_max s) (s_max prev))
         then {| s_min := s_min prev; s_max := s_max s |} else prev) :: rest
      else s :: out
  | [] => [s]
  end.

Definition from_spans (spans : list AxSpan) : SpanSet :=
  rev (foldl merge_step [] (sort_by span_le (List.filter span_is_satisfiable spans))).

Definition set_none : SpanSet := [].
Definition set_all : SpanSet := [span_all].
Definition set_one (s : AxSpan) : SpanSet := from_spans [s].

Definition into_predicate (t : SpanSet) : AxisPredicate :=
  match t with
  | [s] => Range (s_min s) (s_max s)
  | _ => Spans t
  end.

Definition from_predicate (p : AxisPredicate) : SpanSet := from_spans (pred_spans p).

Definition is_all (t : SpanSet) : bool :=
  match t with [s] => is_noneb (s_max s) && (span_lo s =? 0) | _ => false end.

Definition set_union (a b : SpanSet) : SpanSet := from_spans (a ++ b).

Definition opt_join (f : Z -> Z -> Z) (a b : option Z) : option Z :=
  match a, b with
  | None, m | m, None => m
  | Some x, Some y => Some (f x y)
  end.

Definition span_meet (a b : AxSpan) : AxSpan :=
  {| s_min := opt_join Z.max (s_min a) (s_min b); s_max := opt_join Z.min (s_max a) (s_max b) |}.

Definition set_intersect (a b : SpanSet) : SpanSet :=
  from_spans (List.filter span_is_satisfiable (a ≫= fun x => (fun y => span_meet x y) <$> b)).

(** The gaps from [cursor] up, over the rest of a set's spans. *)
Fixpoint complement_from (cursor : option Z) (t : SpanSet) : list AxSpan :=
  match t with
  | [] => [{| s_min := cursor; s_max := None |}]
  | s :: t =>
      match s_min s with
      | Some lo => if 0 <? lo then [{| s_min := cursor; s_max := Some (lo - 1) |}] else []
      | None => []
      end ++
      match s_max s with
      | Some hi => if hi <? u128_max then complement_from (Some (hi + 1)) t else []
      | None => []
      end
  end.

Definition set_complement (t : SpanSet) : SpanSet := from_spans (complement_from None t).

Definition not_range (min max : option Z) : AxisPredicate :=
  into_predicate (set_complement (set_one {| s_min := min; s_max := max |})).

(** ** Set semantics *)

Definition set_mem (t : SpanSet) (v : Z) : bool := existsb (fun s => span_contains s v) t.

(** A value of the axis domain, and a span whose bounds are of the domain. *)
Definition in_domain (v : Z) : Prop := 0 <= v <= u128_max.

Definition span_wf (s : AxSpan) : Prop :=
  match s_min s with Some a => in_domain a | None => True end /\
  match s_max s with Some b => in_domain b | None => True end.

Definition span_hi (s : AxSpan) : Z := unwrap_or (s_max s) u128_max.

(** A well-formed span that holds some value. *)
Definition span_ok (s : AxSpan) : Prop := span_wf s /\ span_lo s <= span_hi s.

(** Disjoint, ascending and not touching. *)
Definition canonical (t : SpanSet) : Prop :=
  Forall span_ok t /\ StronglySorted (fun a b => span_hi a + 1 < span_lo b) t.

#[global] Arguments u128_max : simpl never.

Lemma u128_max_pos : 0 < u128_max.
Proof. done. Qed.
