(* ===== verification/AxisFacts.v ===== *)
(** * AxisFacts: the span algebra computes sets, canonically

    Membership of every operation of [Axis]'s span algebra over the axis domain
    [0 .. 2^128-1], the canonicity of its results, and what two canonical sets with the
    same members can still differ in. *)

From S2P Require Export Axis.

Lemma span_wf_bounds s : span_wf s -> 0 <= span_lo s <= u128_max /\ 0 <= span_hi s <= u128_max.
Proof.
  pose proof u128_max_pos. unfold span_wf, in_domain, span_lo, span_hi.
  destruct (s_min s), (s_max s); simpl; intros [? ?]; lia.
Qed.

Lemma span_contains_iff s v :
  span_wf s -> in_domain v -> span_contains s v = true <-> span_lo s <= v <= span_hi s.
Proof.
  unfold span_wf, in_domain, span_contains, span_lo, span_hi.
  destruct (s_min s), (s_max s); simpl; intros [? ?] ?;
    rewrite ?andb_true_iff, ?Z.leb_le; intuition lia.
Qed.

Lemma span_is_satisfiable_iff s :
  span_wf s -> span_is_satisfiable s = true <-> span_lo s <= span_hi s.
Proof.
  pose proof u128_max_pos. unfold span_wf, in_domain, span_is_satisfiable, span_lo, span_hi.
  destruct (s_min s), (s_max s); simpl; intros [? ?]; rewrite ?Z.leb_le; intuition lia.
Qed.

Lemma touches_iff a b : span_wf a -> span_wf b -> touches a b = true <-> span_lo b <= span_hi a + 1.
Proof.
  intros Ha Hb. pose proof (span_wf_bounds a Ha). pose proof (span_wf_bounds b Hb).
  unfold touches, span_hi in *. destruct (s_max a) as [h|]; simpl in *.
  - unfold sat_add. rewrite Z.leb_le. lia.
  - intuition lia.
Qed.

Lemma span_le_lo a b : span_le a b = true -> span_lo a <= span_lo b.
Proof. unfold span_le. intros [H|H]%orb_true_iff; bool_to_prop; lia. Qed.

Lemma hi_le_total a b : hi_le a b = true \/ hi_le b a = true.
Proof. destruct a, b; simpl; auto. lia. Qed.

Lemma hi_le_trans a b c : hi_le a b = true -> hi_le b c = true -> hi_le a c = true.
Proof. destruct a, b, c; simpl; try done. lia. Qed.

Lemma span_le_total a b : span_le a b = true \/ span_le b a = true.
Proof.
  unfold span_le. destruct (Z.lt_total (span_lo a) (span_lo b)) as [H|[H|H]].
  - left. apply orb_true_iff. left. by apply Z.ltb_lt.
  - rewrite H, Z.ltb_irrefl, Z.eqb_refl. apply hi_le_total.
  - right. apply orb_true_iff. left. by apply Z.ltb_lt.
Qed.

Lemma span_le_trans a b c : span_le a b = true -> span_le b c = true -> span_le a c = true.
Proof.
  unfold span_le. rewrite !orb_true_iff, !andb_true_iff, !Z.ltb_lt, !Z.eqb_eq.
  intros [?|[? H1]] [?|[? H2]]; try (left; lia).
  destruct (Z.eq_dec (span_lo a) (span_lo c)); [right|left; lia].
  split; [lia|]. by eapply hi_le_trans.
Qed.

Lemma set_mem_perm t t' v : t ≡ₚ t' -> set_mem t v = set_mem t' v.
Proof.
  unfold set_mem. induction 1; simpl; try congruence.
  by rewrite !orb_assoc, (orb_comm (span_contains y v)).
Qed.

Lemma set_mem_app t t' v : set_mem (t ++ t') v = set_mem t v || set_mem t' v.
Proof. apply existsb_app. Qed.

Lemma set_mem_iff t v : set_mem t v = true <-> exists s, s ∈ t /\ span_contains s v = true.
Proof.
  unfold set_mem. rewrite existsb_exists. by setoid_rewrite list_elem_of_In.
Qed.

Lemma set_mem_filter_sat t v :
  Forall span_wf t -> in_domain v ->
  set_mem (List.filter span_is_satisfiable t) v = set_mem t v.
Proof.
  intros Hwf Hv. induction Hwf as [|s t Hs Ht IH]; simpl; [done|].
  destruct (span_is_satisfiable s) eqn:E; simpl; rewrite IH; [done|].
  destruct (span_contains s v) eqn:C; [|done].
  apply span_contains_iff in C; try done. apply not_true_iff_false in E.
  rewrite span_is_satisfiable_iff in E by done. lia.
Qed.

Lemma Forall_filter_sat t :
  Forall span_wf t -> Forall span_ok (List.filter span_is_satisfiable t).
Proof.
  intros Hwf. induction Hwf as [|s t Hs Ht IH]; simpl; [constructor|].
  destruct (span_is_satisfiable s) eqn:E; [|done]. constructor; [|done].
  split; [done|]. by apply span_is_satisfiable_iff.
Qed.

(** ** Merging *)

(** The output so far, newest first: canonical when reversed. *)
Definition canonical_rev (out : list AxSpan) : Prop :=
  Forall span_ok out /\ StronglySorted (fun b a => span_hi a + 1 < span_lo b) out.

Lemma merge_step_spec out s :
  canonical_rev out -> span_ok s -> (forall p, head out = Some p -> span_lo p <= span_lo s) ->
  canonical_rev (merge_step out s) /\
  (exists p, head (merge_step out s) = Some p /\ span_lo p <= span_lo s) /\
  (forall v, in_domain v -> set_mem (merge_step out s) v = set_mem out v || span_contains s v).
Proof.
  intros [Hok Hs] Hsok Hlo. destruct out as [|prev rest]; simpl.
  { split; [|split]; [|by exists s|intros; by rewrite orb_false_r].
    split; [by constructor|]. constructor; constructor. }
  specialize (Hlo prev eq_refl). apply Forall_cons in Hok as [Hp Hrest].
  inversion Hs as [|? ? Hs' HF]; subst. destruct Hp as [Hpw Hp], Hsok as [Hsw Hss].
  destruct (touches prev s) eqn:T.
  - rewrite touches_iff in T by done.
    match goal with |- canonical_rev (?x :: _) /\ _ => set (q := x) end.
    assert (Hq : span_wf q /\ span_lo q = span_lo prev /\ span_hi q = Z.max (span_hi prev) (span_hi s)).
    { pose proof (span_wf_bounds _ Hpw). pose proof (span_wf_bounds _ Hsw).
      unfold q, span_wf, span_lo, span_hi in *. destruct (s_max prev) as [hp|] eqn:E1; simpl.
      - destruct (hi_le (s_max s) (Some hp)) eqn:E2; simpl.
        + destruct (s_max s) as [h|] eqn:E3; simpl in E2; [|done]. rewrite E1. simpl. split_and!; try tauto. lia.
        + split_and!; try tauto. destruct (s_max s); simpl in *; lia.
      - rewrite E1. simpl in *. split_and!; try tauto. lia. }
    destruct Hq as (Hqw & Hql & Hqh).
    split; [|split].
    + split; [constructor; [split; [done|lia]|done]|]. constructor; [done|].
      eapply Forall_impl; [exact HF|]. simpl. intros. lia.
    + exists q. split; [done|lia].
    + intros v Hv. unfold set_mem at 1. simpl. fold (set_mem rest v).
      replace (span_contains q v) with (span_contains prev v || span_contains s v).
      { unfold set_mem. simpl. by rewrite <- !orb_assoc, (orb_comm (span_contains s v)). }
      apply eq_bool_prop_intro. rewrite !Is_true_true, orb_true_iff, !span_contains_iff by done. lia.
  - apply not_true_iff_false in T. rewrite touches_iff in T by done.
    split; [|split].
    + split; [constructor; [done|by constructor]|]. constructor; [done|].
      constructor; [lia|]. eapply Forall_impl; [exact HF|]. simpl. intros. lia.
    + by exists s.
    + intros v Hv. unfold set_mem. simpl. apply orb_comm.
Qed.

Lemma merge_fold_spec l out :
  canonical_rev out -> Forall span_ok l ->
  StronglySorted (fun a b => span_lo a <= span_lo b) l ->
  (forall p s, head out = Some p -> s ∈ l -> span_lo p <= span_lo s) ->
  canonical_rev (foldl merge_step out l) /\
  (forall v, in_domain v -> set_mem (foldl merge_step out l) v = set_mem out v || set_mem l v).
Proof.
  revert out. induction l as [|s l IH]; intros out Ho Hl Hs Hlo; simpl.
  { split; [done|]. intros. by rewrite orb_false_r. }
  apply Forall_cons in Hl as [Hsok Hl]. inversion Hs as [|? ? Hs' HF]; subst.
  destruct (merge_step_spec out s Ho Hsok) as (Hc & (p & Hp & Hps) & Hm).
  { intros p Hp. eapply Hlo; [done|left]. }
  destruct (IH (merge_step out s) Hc Hl Hs') as (Hc' & Hm').
  { intros p' s' Hp' Hin. rewrite Hp in Hp'. injection Hp' as <-.
    rewrite Forall_forall in HF. specialize (HF s' Hin). lia. }
  split; [done|]. intros v Hv. rewrite Hm', Hm by done.
  unfold set_mem. simpl. by rewrite orb_assoc.
Qed.

Lemma StronglySorted_app_r {A} (R : A -> A -> Prop) l x :
  StronglySorted R l -> Forall (fun y => R y x) l -> StronglySorted R (l ++ [x]).
Proof.
  induction 1 as [|y l Hl IH HF]; simpl; intros H; [repeat constructor|].
  apply Forall_cons in H as [? ?]. constructor; [by apply IH|].
  apply Forall_app. split; [done|by constructor].
Qed.

Lemma canonical_rev_rev out : canonical_rev out -> canonical (rev out).
Proof.
  intros [Hok Hs]. split; [by apply Forall_rev|]. clear Hok.
  induction Hs as [|s out Hs IH HF]; simpl; [constructor|].
  apply StronglySorted_app_r; [done|]. by apply Forall_rev.
Qed.

Lemma from_spans_spec l :
  Forall span_wf l ->
  canonical (from_spans l) /\ (forall v, in_domain v -> set_mem (from_spans l) v = set_mem l v).
Proof.
  intros Hwf. unfold from_spans. set (l' := sort_by span_le (List.filter span_is_satisfiable l)).
  assert (Hperm : l' ≡ₚ List.filter span_is_satisfiable l) by apply sort_by_perm.
  destruct (merge_fold_spec l' []) as (Hc & Hm).
  - split; constructor.
  - rewrite Hperm. by apply Forall_filter_sat.
  - eapply StronglySorted_impl; [|apply (sort_by_sorted span_le span_le_total span_le_trans)].
    intros a b. apply span_le_lo.
  - done.
  - split; [by apply canonical_rev_rev|]. intros v Hv.
    rewrite (set_mem_perm _ (foldl merge_step [] l') v) by (by rewrite <- Permutation_rev).
    rewrite Hm by done. simpl. rewrite (set_mem_perm _ _ v Hperm). by apply set_mem_filter_sat.
Qed.

Lemma canonical_wf t : canonical t -> Forall span_wf t.
Proof. intros [H _]. eapply Forall_impl; [exact H|]. by intros ? []. Qed.

(** ** Union and intersection *)

Lemma set_union_spec a b :
  canonical a -> canonical b ->
  canonical (set_union a b) /\
  (forall v, in_domain v -> set_mem (set_union a b) v = set_mem a v || set_mem b v).
Proof.
  intros Ha Hb. destruct (from_spans_spec (a ++ b)) as [Hc Hm].
  { apply Forall_app. split; by apply canonical_wf. }
  split; [done|]. intros v Hv. unfold set_union. rewrite Hm by done. apply set_mem_app.
Qed.

Lemma span_meet_wf a b : span_wf a -> span_wf b -> span_wf (span_meet a b).
Proof.
  unfold span_wf, in_domain, span_meet. simpl.
  destruct (s_min a), (s_max a), (s_min b), (s_max b); simpl; lia.
Qed.

Lemma span_meet_contains a b v :
  span_contains (span_meet a b) v = span_contains a v && span_contains b v.
Proof.
  unfold span_contains, span_meet. simpl.
  destruct (s_min a), (s_max a), (s_min b), (s_max b); simpl; lia.
Qed.

Lemma set_mem_bind_meet a b v :
  set_mem (a ≫= fun x => (fun y => span_meet x y) <$> b) v = set_mem a v && set_mem b v.
Proof.
  apply eq_bool_prop_intro. rewrite !Is_true_true, andb_true_iff, !set_mem_iff. split.
  - intros (s & Hs & Hc). apply list_elem_of_bind in Hs as (x & Hs & Hx).
    apply list_elem_of_fmap in Hs as (y & -> & Hy).
    rewrite span_meet_contains in Hc. apply andb_true_iff in Hc as [? ?].
    split; [by exists x|by exists y].
  - intros [(x & Hx & Cx) (y & Hy & Cy)]. exists (span_meet x y). split.
    + apply list_elem_of_bind. exists x. split; [|done]. apply list_elem_of_fmap. by exists y.
    + by rewrite span_meet_contains, Cx, Cy.
Qed.

Lemma set_intersect_spec a b :
  canonical a -> canonical b ->
  canonical (set_intersect a b) /\
  (forall v, in_domain v -> set_mem (set_intersect a b) v = set_mem a v && set_mem b v).
Proof.
  intros Ha Hb. set (l := a ≫= fun x => (fun y => span_meet x y) <$> b).
  assert (Hl : Forall span_wf l).
  { apply Forall_forall. intros s (x & Hs & Hx)%list_elem_of_bind.
    apply list_elem_of_fmap in Hs as (y & -> & Hy).
    apply canonical_wf in Ha, Hb. rewrite Forall_forall in Ha, Hb. apply span_meet_wf; auto. }
  destruct (from_spans_spec (List.filter span_is_satisfiable l)) as [Hc Hm].
  { eapply Forall_impl; [by apply Forall_filter_sat|]. by intros ? []. }
  split; [done|]. intros v Hv. unfold set_intersect. fold l. rewrite Hm by done.
  rewrite set_mem_filter_sat by done. apply set_mem_bind_meet.
Qed.

(** ** Complement *)

Lemma complement_from_wf cursor t :
  match cursor with Some c => in_domain c | None => True end -> canonical t ->
  Forall span_wf (complement_from cursor t).
Proof.
  revert cursor. induction t as [|s t IH]; intros cursor Hc Ht; simpl.
  { constructor; [|constructor]. by split. }
  destruct Ht as [Hok Hs]. apply Forall_cons in Hok as [[Hw _] Hok]. inversion Hs; subst.
  unfold span_wf, in_domain in Hw. destruct Hw as [Hmin Hmax]. apply Forall_app. split.
  - destruct (s_min s) as [lo|]; [|constructor]. destruct (0 <? lo) eqn:E; [|constructor].
    bool_to_prop. constructor; [|constructor]. split; simpl; [done|]. unfold in_domain in *. lia.
  - destruct (s_max s) as [hi|]; [|constructor]. destruct (hi <? u128_max) eqn:E; [|constructor].
    bool_to_prop. apply IH; [unfold in_domain; lia|]. by split.
Qed.

Lemma complement_from_mem cursor t v :
  match cursor with Some c => in_domain c | None => True end -> canonical t ->
  Forall (fun s => match cursor with Some c => c < span_lo s | None => True end) t -> in_domain v ->
  set_mem (complement_from cursor t) v =
    is_none_or cursor (fun c => c <=? v) && negb (set_mem t v).
Proof.
  revert cursor. induction t as [|s t IH]; intros cursor Hc Ht Hcur Hv; simpl.
  { unfold set_mem, span_contains. destruct cursor as [c|]; simpl; [|done].
    by destruct (c <=? v). }
  destruct Ht as [Hok Hs]. apply Forall_cons in Hok as [[Hw Hlh] Hok]. inversion Hs as [|? ? Hs' HF]; subst.
  apply Forall_cons in Hcur as [Hcs Hcur].
  pose proof (span_wf_bounds s Hw) as Hb.
  assert (Hgap : set_mem (match s_min s with
      | Some lo => if 0 <? lo then [{| s_min := cursor; s_max := Some (lo - 1) |}] else []
      | None => [] end) v = is_none_or cursor (fun c => c <=? v) && (v <? span_lo s)).
  { unfold span_lo in *. destruct (s_min s) as [lo|]; simpl in *.
    - destruct (0 <? lo) eqn:E; bool_to_prop; unfold set_mem, span_contains; simpl.
      + destruct cursor; simpl; lia.
      + unfold in_domain in Hv. destruct cursor; simpl; lia.
    - unfold in_domain in Hv. destruct cursor; simpl; lia. }
  assert (Hrest : set_mem (match s_max s with
      | Some hi => if hi <? u128_max then complement_from (Some (hi + 1)) t else []
      | None => [] end) v = (span_hi s <? v) && negb (set_mem t v)).
  { unfold span_hi in *. destruct (s_max s) as [hi|]; simpl in *.
    - destruct (hi <? u128_max) eqn:E; bool_to_prop.
      + rewrite IH; [simpl; destruct (set_mem t v); simpl; lia|unfold in_domain; lia|by split| |done].
        eapply Forall_impl; [exact HF|]. simpl. intros. lia.
      + unfold in_domain in Hv. simpl. destruct (set_mem t v); simpl; lia.
    - unfold in_domain in Hv. simpl. destruct (set_mem t v); simpl; lia. }
  rewrite set_mem_app, Hgap, Hrest. unfold set_mem at 2. simpl. fold (set_mem t v).
  assert (Ht : v <= span_hi s -> set_mem t v = false).
  { intros Hle. apply not_true_iff_false. rewrite set_mem_iff. intros (x & Hx & Cx).
    rewrite Forall_forall in HF, Hok. specialize (HF x Hx). destruct (Hok x Hx) as [Hxw _].
    apply span_contains_iff in Cx; try done. lia. }
  assert (Hcon : span_contains s v = (span_lo s <=? v) && (v <=? span_hi s)).
  { apply eq_bool_prop_intro. rewrite !Is_true_true, span_contains_iff by done. lia. }
  rewrite Hcon. destruct (Z.le_gt_cases v (span_hi s)) as [Hle|Hgt].
  - rewrite Ht by done. destruct cursor as [c|]; simpl in *; lia.
  - destruct (set_mem t v); destruct cursor as [c|]; simpl in *; lia.
Qed.

Lemma set_complement_spec t :
  canonical t ->
  canonical (set_complement t) /\
  (forall v, in_domain v -> set_mem (set_complement t) v = negb (set_mem t v)).
Proof.
  intros Ht. destruct (from_spans_spec (complement_from None t)) as [Hc Hm].
  { by apply complement_from_wf. }
  split; [done|]. intros v Hv. unfold set_complement. rewrite Hm by done.
  rewrite complement_from_mem; [done|done|done| |done]. apply Forall_true. done.
Qed.

(** ** Stored predicates *)

Lemma take_while_mem t v :
  StronglySorted (fun a b => span_lo a <= span_lo b) t -> Forall span_wf t -> in_domain v ->
  existsb (fun s => span_contains s v) (take_while (fun s => span_lo s <=? v) t) = set_mem t v.
Proof.
  intros Hs Hw Hv. induction Hs as [|s t Hs IH HF]; cbn [take_while]; [done|].
  apply Forall_cons in Hw as [Hsw Hw]. destruct (span_lo s <=? v) eqn:E.
  { unfold set_mem in *. simpl. by rewrite IH. }
  symmetry. apply not_true_iff_false. rewrite set_mem_iff. intros (x & Hx & Cx). bool_to_prop.
  rewrite Forall_forall in HF, Hw.
  apply elem_of_cons in Hx as [->|Hx]; apply span_contains_iff in Cx; auto; try lia.
  specialize (HF x Hx). lia.
Qed.

Lemma canonical_ascending t : canonical t -> StronglySorted (fun a b => span_lo a <= span_lo b) t.
Proof.
  intros [Hok Hs]. induction Hs as [|s t Hs IH HF]; [constructor|].
  apply Forall_cons in Hok as [[_ Hsok] Hok]. constructor; [by apply IH|].
  eapply Forall_impl; [exact HF|]. simpl. intros. lia.
Qed.

Lemma matches_num_into_predicate t v :
  canonical t -> in_domain v -> matches_num (into_predicate t) v = set_mem t v.
Proof.
  intros Hc Hv. pose proof (canonical_ascending t Hc). pose proof (canonical_wf t Hc).
  destruct t as [|s [|s' t]]; simpl into_predicate; cbn [matches_num].
  - done.
  - unfold set_mem, span_contains. simpl. by rewrite orb_false_r.
  - by apply take_while_mem.
Qed.

Lemma not_range_spec min max v :
  span_wf {| s_min := min; s_max := max |} -> in_domain v ->
  matches_num (not_range min max) v = negb (span_contains {| s_min := min; s_max := max |} v).
Proof.
  intros Hw Hv. unfold not_range, set_one.
  destruct (from_spans_spec [{| s_min := min; s_max := max |}]) as [Hc Hm]; [by apply Forall_singleton|].
  destruct (set_complement_spec _ Hc) as [Hc' Hm'].
  rewrite matches_num_into_predicate, Hm', Hm by done. unfold set_mem. simpl. by rewrite orb_false_r.
Qed.

(** A canonical list is a fixed point of [from_spans]. *)
Lemma insert_le_last {A} (le : A -> A -> bool) x l :
  Forall (fun y => le y x = true) l -> insert_le le x l = l ++ [x].
Proof. induction 1 as [|y l Hy Hl IH]; simpl; [done|]. by rewrite Hy, IH. Qed.

Lemma sort_by_id {A} (le : A -> A -> bool) l :
  StronglySorted (fun a b => le a b = true) l -> sort_by le l = l.
Proof.
  intros Hs. unfold sort_by.
  cut (forall acc, (forall x, x ∈ l -> Forall (fun y => le y x = true) acc) ->
    foldl (fun acc x => insert_le le x acc) acc l = acc ++ l).
  { intros H. apply (H []). constructor. }
  induction Hs as [|x l Hs IH HF]; intros acc Hacc; simpl; [by rewrite app_nil_r|].
  rewrite insert_le_last by (apply Hacc; left). rewrite IH.
  - by rewrite <- app_assoc.
  - intros y Hy. apply Forall_app. split; [apply Hacc; by right|]. constructor; [|constructor].
    rewrite Forall_forall in HF. by apply HF.
Qed.

Lemma from_spans_canonical_id t : canonical t -> from_spans t = t.
Proof.
  intros Hc. pose proof (canonical_ascending t Hc) as Hasc. destruct Hc as [Hok Hs]. unfold from_spans.
  replace (List.filter span_is_satisfiable t) with t.
  2: { symmetry. clear Hs Hasc. induction Hok as [|s t [Hw Hsat] Hok IH]; simpl; [done|].
       apply span_is_satisfiable_iff in Hsat; [|done]. by rewrite Hsat, IH. }
  rewrite sort_by_id.
  2: { clear Hasc. induction Hs as [|s t Hs IH HF]; [constructor|].
       apply Forall_cons in Hok as [[_ ?] Hok]. constructor; [by apply IH|].
       eapply Forall_impl; [exact HF|]. intros b Hb. simpl in Hb. unfold span_le.
       apply orb_true_iff. left. lia. }
  cut (forall acc, (forall p s, head acc = Some p -> s ∈ t -> touches p s = false) ->
    foldl merge_step acc t = rev t ++ acc).
  { intros H. rewrite H, app_nil_r, rev_involutive; done. }
  clear Hasc. induction Hs as [|s t Hs IH HF]; intros acc Hacc; simpl; [done|].
  apply Forall_cons in Hok as [[Hsw _] Hok]. rewrite IH; [|done|].
  - destruct acc as [|p acc]; simpl; [by rewrite <- app_assoc|].
    rewrite (Hacc p s eq_refl) by left. by rewrite <- app_assoc.
  - intros p s' Hp Hs'. assert (p = s).
    { destruct acc as [|q acc]; simpl in Hp; [congruence|].
      rewrite (Hacc q s eq_refl) in Hp by left. simpl in Hp. congruence. }
    subst. rewrite Forall_forall in HF, Hok. apply not_true_iff_false.
    destruct (Hok s' Hs') as [? _]. rewrite touches_iff by done. specialize (HF s' Hs'). simpl in HF. lia.
Qed.

Lemma from_into_predicate t : canonical t -> from_predicate (into_predicate t) = t.
Proof.
  intros Hc. unfold from_predicate. rewrite <- (from_spans_canonical_id t Hc) at 2.
  by destruct t as [|[] [|]].
Qed.

(** *** Two canonical lists of one set have the same edges *)

Definition span_edges (s : AxSpan) : Z * Z := (span_lo s, span_hi s).

Lemma canonical_cons_iff s t v :
  canonical (s :: t) -> in_domain v ->
  set_mem (s :: t) v = true <->
    span_lo s <= v <= span_hi s \/ (span_hi s + 1 < v /\ set_mem t v = true).
Proof.
  intros [Hok Hs] Hv. apply Forall_cons in Hok as [[Hw _] Hok]. inversion Hs as [|? ? _ HF]; subst.
  unfold set_mem. simpl. fold (set_mem t v). rewrite orb_true_iff, span_contains_iff by done.
  split; [|tauto]. intros [H|H]; [by left|]. right. split; [|done].
  apply set_mem_iff in H as (x & Hx & Cx). rewrite Forall_forall in HF, Hok.
  destruct (Hok x Hx) as [? _]. apply span_contains_iff in Cx; try done. specialize (HF x Hx). simpl in HF. lia.
Qed.

Lemma canonical_head_mem s t :
  canonical (s :: t) -> in_domain (span_lo s) /\ set_mem (s :: t) (span_lo s) = true.
Proof.
  intros Hc. assert (Hd : in_domain (span_lo s)).
  { apply canonical_wf, Forall_cons in Hc as [Hw _]. by apply span_wf_bounds in Hw as []. }
  split; [done|]. apply canonical_cons_iff; try done.
  destruct Hc as [Hok _]. apply Forall_cons in Hok as [[_ ?] _]. lia.
Qed.

Lemma canonical_tail s t : canonical (s :: t) -> canonical t.
Proof. intros [Hok Hs]. apply Forall_cons in Hok as [_ ?]. by inversion Hs. Qed.

(** The low edges and the high edges of the first spans compare one way. *)
Lemma canonical_head_le s1 t1 s2 t2 :
  canonical (s1 :: t1) -> canonical (s2 :: t2) ->
  (forall v, in_domain v -> set_mem (s1 :: t1) v = set_mem (s2 :: t2) v) ->
  span_lo s2 <= span_lo s1 /\ (span_lo s1 = span_lo s2 -> span_hi s2 <= span_hi s1).
Proof.
  intros H1 H2 Hm. destruct (canonical_head_mem s1 t1 H1) as [Hd Hin].
  assert (Hok2 : span_ok s2) by (destruct H2 as [H2 _]; by apply Forall_cons in H2 as []).
  destruct Hok2 as [Hw2 Hlh2]. pose proof (span_wf_bounds s2 Hw2) as Hb2.
  assert (Hok1 : span_ok s1) by (destruct H1 as [H1 _]; by apply Forall_cons in H1 as []).
  destruct Hok1 as [Hw1 Hlh1]. pose proof (span_wf_bounds s1 Hw1) as Hb1. split.
  - rewrite Hm in Hin by done. apply canonical_cons_iff in Hin; try done. lia.
  - intros Heq. destruct (Z.le_gt_cases (span_hi s2) (span_hi s1)) as [|Hgt]; [done|exfalso].
    assert (Hd' : in_domain (span_hi s1 + 1)) by (unfold in_domain; lia).
    assert (Hin2 : set_mem (s2 :: t2) (span_hi s1 + 1) = true).
    { apply canonical_cons_iff; try done. lia. }
    rewrite <- Hm in Hin2 by done. apply canonical_cons_iff in Hin2; try done. lia.
Qed.

Lemma canonical_unique t1 t2 :
  canonical t1 -> canonical t2 ->
  (forall v, in_domain v -> set_mem t1 v = set_mem t2 v) ->
  span_edges <$> t1 = span_edges <$> t2.
Proof.
  revert t2. induction t1 as [|s1 t1 IH]; intros [|s2 t2] H1 H2 Hm; [done| | |].
  - destruct (canonical_head_mem s2 t2 H2) as [Hd Hin]. rewrite <- Hm in Hin; done.
  - destruct (canonical_head_mem s1 t1 H1) as [Hd Hin]. rewrite Hm in Hin; done.
  - destruct (canonical_head_le _ _ _ _ H1 H2 Hm) as [L1 U1].
    destruct (canonical_head_le _ _ _ _ H2 H1) as [L2 U2]. { intros. symmetry. by apply Hm. }
    assert (Hlo : span_lo s1 = span_lo s2) by lia.
    assert (Hhi : span_hi s1 = span_hi s2) by (specialize (U1 Hlo); specialize (U2 (eq_sym Hlo)); lia).
    simpl. f_equal; [unfold span_edges; by rewrite Hlo, Hhi|].
    apply IH; [by eapply canonical_tail|by eapply canonical_tail|].
    intros v Hv. specialize (Hm v Hv). apply eq_bool_prop_intro. rewrite !Is_true_true.
    assert (Hm' : set_mem (s1 :: t1) v = true <-> set_mem (s2 :: t2) v = true) by by rewrite Hm.
    rewrite !canonical_cons_iff in Hm' by done.
    assert (Hgt : forall s t, canonical (s :: t) -> set_mem t v = true -> span_hi s + 1 < v).
    { intros s t Hc Hin. assert (Hin' : set_mem (s :: t) v = true).
      { unfold set_mem in *. simpl. rewrite Hin. apply orb_true_r. }
      destruct Hc as [Hok Hs]. apply Forall_cons in Hok as [_ Hok]. inversion Hs as [|? ? _ HF]; subst.
      apply set_mem_iff in Hin as (x & Hx & Cx). rewrite Forall_forall in HF, Hok.
      destruct (Hok x Hx) as [? _]. apply span_contains_iff in Cx; try done.
      specialize (HF x Hx). simpl in HF. lia. }
    split; intros Hin.
    + pose proof (Hgt _ _ H1 Hin). destruct Hm' as [Hm' _]. destruct Hm' as [|[_ ?]]; try done; [by right|lia].
    + pose proof (Hgt _ _ H2 Hin). destruct Hm' as [_ Hm']. destruct Hm' as [|[_ ?]]; try done; [by right|lia].
Qed.

(** A predicate the write edge accepts stores a canonical list. *)
Lemma shape_ok_canonical spans :
  Forall span_wf spans -> pred_is_satisfiable (Spans spans) = true ->
  shape_problem (Spans spans) = None -> canonical spans.
Proof.
  intros Hw Hsat Hshape. simpl in *. destruct spans as [|s0 l0] eqn:El; [done|]. rewrite <- El in *.
  destruct (_ <? 2)%nat; [done|]. destruct (any_window2 _ _) eqn:E; [done|]. clear Hshape El s0 l0.
  assert (Hok : Forall span_ok spans).
  { clear E. rewrite forallb_forall in Hsat. rewrite Forall_forall in *. intros s Hs. split; [by apply Hw|].
    apply span_is_satisfiable_iff; [by apply Hw|]. apply Hsat. by apply list_elem_of_In. }
  split; [done|]. clear Hsat Hw. induction spans as [|a l IH]; [constructor|].
  apply Forall_cons in Hok as [[Haw Ha] Hok]. destruct l as [|b l]; [repeat constructor|].
  simpl in E. apply orb_false_iff in E as [Eab E]. apply orb_false_iff in Eab as [_ Et].
  specialize (IH E Hok). constructor; [done|].
  apply Forall_cons in Hok as [[Hbw Hb] Hok]. apply not_true_iff_false in Et.
  rewrite touches_iff in Et by done. constructor; [lia|].
  inversion IH as [|? ? _ HF]; subst. eapply Forall_impl; [exact HF|]. simpl. intros. lia.
Qed.
