(* ===== verification/TradeKeys.v ===== *)
(** * TradeKeys: what identifies a trade's build

    [metrics/trade_keys.rs]: the build recipe, the build core and its packed extras, the
    structural markers, every label key at once.  Strings are byte strings; white space
    is the ASCII white space. *)

From S2P Require Export Prelude Hash Vocab.

(** ** The build-template spelling of a transaction's instruction labels

    [metrics/template_grain.rs] and [identity.rs]'s hash of normalised text. *)

Definition starts_with (pfx s : string) : bool := String.prefix pfx s.

Definition is_boilerplate (label : string) : bool :=
  starts_with "Compute Budget:" label || starts_with "Associated Token:" label ||
  starts_with "Token Program:" label || starts_with "Token 2022:" label ||
  starts_with "Memo Program:" label ||
  contains ["System Program: Transfer"; "System Program: AdvanceNonceAccount";
            "System Program: CreateAccountWithSeed"; "System Program: CreateAccount"] label.

Definition has_prefix (labels : list string) (pfx : string) : bool := existsb (starts_with pfx) labels.

Definition has_label (labels : list string) (exact : string) : bool :=
  existsb (fun l => bool_decide (l = exact)) labels.

(** [split(':').next()]: the text before the first colon, or all of it. *)
Fixpoint before_colon (s : string) : string :=
  match s with
  | EmptyString => EmptyString
  | String c s' => if Ascii.eqb c (Ascii.ascii_of_nat 58) then EmptyString else String c (before_colon s')
  end.

Definition program_owned (labels : list string) : string :=
  let head := unwrap_or (find_first (fun x => negb (is_boilerplate x)) labels) "(direct)" in
  if bool_decide (head = "(direct)") then "(direct)"
  else if starts_with "Pump.Fun: Create" head then "launch"
  else if starts_with "Pump.Fun:" head then "Pump.Fun"
  else before_colon head.

Definition push_if (b : bool) (flag s : string) : string := if b then String.append s flag else s.

Definition grain (labels : list string) : string :=
  push_if (has_label labels "System Program: Transfer") "|F"
    (push_if (has_label labels "System Program: CreateAccountWithSeed") "|S"
      (push_if (has_label labels "System Program: AdvanceNonceAccount") "|N"
        (push_if (has_prefix labels "Associated Token:") "|ATA"
          (push_if (has_prefix labels "Compute Budget:") "|CU" (program_owned labels))))).

Definition grain_hash (labels : list string) : option Z :=
  match labels with [] => None | _ => Some (fnv1a_str FNV_OFFSET (grain labels)) end.

Definition grain_id_hash (id : string) : Z := fnv1a_str FNV_OFFSET id.

Definition program_hash (labels : list string) : option Z :=
  match labels with [] => None | _ => Some (fnv1a_str FNV_OFFSET (program_owned labels)) end.

Definition program_id_hash (id : string) : Z := fnv1a_str FNV_OFFSET id.

Definition is_launch (labels : list string) : bool := existsb (starts_with "Pump.Fun: Create") labels.

Definition create_ata_present (labels : list string) : option Z :=
  match labels with
  | [] => None
  | _ => Some (if has_prefix labels "Associated Token:" then 1 else 0)
  end.

(** [token_identity_hash] on the two halves after [normalize], whose Unicode case folding
    and white-space classes are the standard library's tables: the argument [normalize]. *)
Definition IDENTITY_MASK : Z := i64_max.

Definition token_identity_hash (normalize : string -> string) (name symbol : string) : option Z :=
  let name := normalize name in
  let symbol := normalize symbol in
  match name, symbol with
  | EmptyString, _ | _, EmptyString => None
  | _, _ => Some (Z.land (fnv1a_str (fnv1a_byte (fnv1a_str FNV_OFFSET name) 0x1f) symbol) IDENTITY_MASK)
  end.

(** ** Facts *)

Lemma create_ata_unknown_iff labels : create_ata_present labels = None <-> labels = [].
Proof. by destruct labels. Qed.

(** An identity hash always fits an [i64] unchanged. *)
Lemma token_identity_hash_range normalize name symbol h :
  token_identity_hash normalize name symbol = Some h -> 0 <= h <= i64_max.
Proof.
  unfold token_identity_hash. destruct (normalize name) as [|c n]; [done|].
  destruct (normalize symbol) as [|d s]; [done|]. intros [= <-].
  unfold IDENTITY_MASK. match goal with |- 0 <= Z.land ?x _ <= _ => generalize x end.
  intros x. change i64_max with (Z.ones 63). rewrite Z.land_ones by done.
  change (2 ^ 63) with 9223372036854775808. change (Z.ones 63) with 9223372036854775807.
  pose proof (Z.mod_pos_bound x 9223372036854775808 eq_refl). lia.
Qed.

(** ** Text *)

Definition ends_with (sfx s : string) : bool :=
  (String.length sfx <=? String.length s)%nat &&
  bool_decide (String.substring (String.length s - String.length sfx) (String.length sfx) s = sfx).

Definition str_contains (s pat : string) : bool := is_someb (String.index 0 pat s).

Fixpoint str_strip_prefix (pfx s : string) : option string :=
  match pfx, s with
  | EmptyString, _ => Some s
  | String a pfx, String b s => if Ascii.eqb a b then str_strip_prefix pfx s else None
  | String _ _, EmptyString => None
  end.

Definition is_space (c : Ascii.ascii) : bool :=
  let n := byte_of c in ((9 <=? n) && (n <=? 13)) || (n =? 32).

Fixpoint trim_start (s : string) : string :=
  match s with
  | EmptyString => EmptyString
  | String c s' => if is_space c then trim_start s' else s
  end.

Fixpoint trim_back (s : string) : string :=
  match s with
  | EmptyString => EmptyString
  | String c s' =>
      match trim_back s' with
      | EmptyString => if is_space c then EmptyString else String c EmptyString
      | t => String c t
      end
  end.

Definition trim (s : string) : string := trim_back (trim_start s).

(** [split_whitespace]: [word] is the token read so far. *)
Fixpoint split_ws (word s : string) : list string :=
  let flush := match word with EmptyString => [] | _ => [word] end in
  match s with
  | EmptyString => flush
  | String c s => if is_space c then flush ++ split_ws EmptyString s else split_ws (String.append word (String c EmptyString)) s
  end.

Definition split_whitespace (s : string) : list string := split_ws EmptyString s.

Definition digit_of (c : Ascii.ascii) : option Z :=
  let n := byte_of c in if (48 <=? n) && (n <=? 57) then Some (n - 48) else None.

Fixpoint parse_digits (top acc : Z) (s : string) : option Z :=
  match s with
  | EmptyString => Some acc
  | String c s =>
      match digit_of c with
      | Some d => if 10 * acc + d <=? top then parse_digits top (10 * acc + d) s else None
      | None => None
      end
  end.

(** [str::parse] of an unsigned integer: an optional plus sign, digits, no overflow. *)
Definition parse_uint (top : Z) (s : string) : option Z :=
  match s with
  | EmptyString => None
  | String c EmptyString => digit_of c
  | String c s' => if byte_of c =? 43 then parse_digits top 0 s' else parse_digits top 0 s
  end.

(** ** The build recipe *)

Definition is_build_noise (label : string) : bool :=
  starts_with "Associated Token: Create" label || ends_with ": CloseAccount" label || starts_with "Memo Program" label.

Definition build_hash (labels : list string) : option Z :=
  match labels with
  | [] => None
  | _ => Some (ix_hash_go FNV_OFFSET true (List.filter (fun l => negb (is_build_noise l)) labels))
  end.

(** ** The build core *)

Definition is_core_extra (label : string) : bool :=
  is_boilerplate label || starts_with "System Program:" label || starts_with "Lighthouse" label.

Definition core_verb (label : string) : string :=
  match str_strip_prefix "Pump.Fun: " label with
  | Some rest =>
      if starts_with "Buy" rest || String.eqb rest "BUY" then "Pump.Fun: BUY"
      else if starts_with "Sell" rest || String.eqb rest "SELL" then "Pump.Fun: SELL"
      else if starts_with "Create" rest || String.eqb rest "CREATE" then "Pump.Fun: CREATE"
      else label
  | None => label
  end.

Definition core_labels (labels : list string) : list string :=
  core_verb <$> List.filter (fun l => negb (is_core_extra l)) labels.

Fixpoint core_hash_go (h : Z) (first : bool) (labels : list string) : Z :=
  match labels with
  | [] => h
  | l :: labels =>
      if is_core_extra l then core_hash_go h first labels
      else
        let h := if first then h else fnv1a_byte h 0x1f in
        core_hash_go (fnv1a_str h (core_verb l)) false labels
  end.

Definition core_hash (labels : list string) : option Z :=
  match labels with [] => None | _ => Some (core_hash_go FNV_OFFSET true labels) end.

Definition CORE_MARK_FLAGS : list (string * (string -> bool)) :=
  [("CL", fun l => String.eqb l "Compute Budget: SetComputeUnitLimit");
   ("CP", fun l => String.eqb l "Compute Budget: SetComputeUnitPrice");
   ("N", fun l => String.eqb l "System Program: AdvanceNonceAccount");
   ("L", fun l => starts_with "Lighthouse" l);
   ("M", fun l => starts_with "Memo Program" l);
   ("S", fun l => starts_with "System Program: CreateAccount" l);
   ("C", fun l => ends_with ": CloseAccount" l);
   ("W", fun l => ends_with ": SyncNative" l)].

(** The flags numbered from bit [bit]. *)
Fixpoint mark_flags (bit : Z) (tests : list (string * (string -> bool))) (label : string) : Z :=
  match tests with
  | [] => 0
  | (_, test) :: tests =>
      Z.lor (if test label then Z.shiftl 1 bit else 0) (mark_flags (bit + 1) tests label)
  end.

Definition count_labels (f : string -> bool) (labels : list string) : Z :=
  wrap_u 32 (Z.of_nat (length (List.filter f labels))).

Definition core_marks (labels : list string) : Z :=
  let flags := foldl (fun m l => Z.lor m (mark_flags 0 CORE_MARK_FLAGS l)) 0 labels in
  let transfers := count_labels (fun l => String.eqb l "System Program: Transfer") labels in
  let opens := count_labels (starts_with "Associated Token: Create") labels in
  Z.lor flags (Z.lor (Z.shiftl (Z.min transfers 255) 8) (Z.shiftl (Z.min opens 255) 16)).

Fixpoint mark_names (bit : Z) (tests : list (string * (string -> bool))) (marks : Z) : list string :=
  match tests with
  | [] => []
  | (name, _) :: tests =>
      (if Z.land marks (Z.shiftl 1 bit) =? 0 then [] else [name]) ++ mark_names (bit + 1) tests marks
  end.

Definition core_mark_tokens (marks : Z) : list string :=
  mark_names 0 CORE_MARK_FLAGS marks ++
  [String.append "T" (pretty (Z.land (Z.shiftr marks 8) 0xff));
   String.append "A" (pretty (Z.land (Z.shiftr marks 16) 0xff))].

Definition core_marks_text (marks : Z) : string := String.concat " " (core_mark_tokens marks).

Inductive MarkError := UnknownMark (tok : string) | MarkNeedsCount (tok : string) | MarkTooBig (tok : string).

Definition core_mark_token (marks : Z) (tok : string) : MarkError + Z :=
  match position_of (fun e => String.eqb e.1 tok) CORE_MARK_FLAGS with
  | Some bit => inr (Z.lor marks (Z.shiftl 1 (Z.of_nat bit)))
  | None =>
      match (match str_strip_prefix "T" tok, str_strip_prefix "A" tok with
             | Some n, _ => Some (8, n)
             | _, Some n => Some (16, n)
             | _, _ => None
             end) with
      | None => inl (UnknownMark tok)
      | Some (shift, n) =>
          match parse_uint u32_max n with
          | None => inl (MarkNeedsCount tok)
          | Some n =>
              if 255 <? n then inl (MarkTooBig tok)
              else inr (Z.lor (Z.ldiff marks (Z.shiftl 0xff shift)) (Z.shiftl n shift))
          end
      end
  end.

Fixpoint core_mark_fold (marks : Z) (toks : list string) : MarkError + Z :=
  match toks with
  | [] => inr marks
  | tok :: toks => match core_mark_token marks tok with inl e => inl e | inr marks => core_mark_fold marks toks end
  end.

Definition core_marks_from_text (text : string) : MarkError + Z := core_mark_fold 0 (split_whitespace text).

(** ** Structural markers *)

Definition MARKERS : list (string * Z) :=
  [("AdvanceNonceAccount", 1); ("CreateAccountWithSeed", 2); ("System Program: Transfer", 4);
   ("Pump.Fun: Create", 8); ("Memo Program", 16); ("Axiom Trade", 32); ("Photon", 64);
   ("Bloom Router", 128); ("Trojan Trade", 256); ("Terminal", 512)].

Definition ROUTER_MARKERS : Z := 32 + 64 + 128 + 256 + 512.

Definition marker_bits (labels : list string) : Z :=
  foldl (fun bits s =>
    foldl (fun bits m => if (Z.land bits m.2 =? 0) && str_contains s m.1 then Z.lor bits m.2 else bits) bits MARKERS)
    0 labels.

Fixpoint marker_mask (mask : Z) (names : list string) : string + Z :=
  match names with
  | [] => inr mask
  | n :: names =>
      match find_first (fun m => String.eqb m.1 n) MARKERS with
      | Some m => marker_mask (Z.lor mask m.2) names
      | None => inl n
      end
  end.

(** ** Every label key at once *)

Record LabelKeys := {
  lk_ix_hash : option Z; lk_marker_bits : Z; lk_template_hash : option Z; lk_program_hash : option Z;
  lk_build_hash : option Z; lk_core_hash : option Z; lk_core_marks : Z; lk_is_launch : bool }.

Definition label_keys_of (labels : list string) : LabelKeys :=
  {| lk_ix_hash := ix_hash_opt labels; lk_marker_bits := marker_bits labels;
     lk_template_hash := grain_hash labels; lk_program_hash := program_hash labels;
     lk_build_hash := build_hash labels; lk_core_hash := core_hash labels;
     lk_core_marks := core_marks labels; lk_is_launch := is_launch labels |}.

Definition APP_INFRA : list string := ["Compute Budget"; "System Program"; "Token Program"; "Associated Token"; "Memo Program"].

(** [split(": ").next()]: the text before the first colon followed by a blank. *)
Fixpoint before_colon_blank (s : string) : string :=
  match s with
  | EmptyString => EmptyString
  | String c s' => if starts_with ": " s then EmptyString else String c (before_colon_blank s')
  end.

Definition recipe_app (labels : list string) : option string :=
  match find_first (fun p => negb (existsb (fun i => starts_with i p) APP_INFRA)) (before_colon_blank <$> labels) with
  | Some app => if String.eqb app "Pump.Fun" then None else Some app
  | None => None
  end.

(** ** Facts *)

(** The streamed core hash is the hash of the core's labels. *)
Lemma core_hash_go_labels labels : forall h first,
  core_hash_go h first labels = ix_hash_go h first (core_labels labels).
Proof.
  unfold core_labels. induction labels as [|l labels IH]; intros h first; [done|]. simpl.
  destruct (is_core_extra l); simpl; apply IH.
Qed.

Lemma core_hash_labels labels :
  labels <> [] -> core_hash labels = Some (ix_hash (core_labels labels)).
Proof. intros Hl. unfold core_hash, ix_hash. destruct labels; [done|]. by rewrite core_hash_go_labels. Qed.

Lemma core_verb_cases l :
  core_verb l = l \/ core_verb l ∈ ["Pump.Fun: BUY"; "Pump.Fun: SELL"; "Pump.Fun: CREATE"].
Proof. unfold core_verb. repeat case_match; set_solver. Qed.

Lemma core_verb_idem l : core_verb (core_verb l) = core_verb l.
Proof.
  destruct (core_verb_cases l) as [H|H]; [by rewrite !H|]. generalize dependent (core_verb l). clear l.
  intros l Hl. repeat (apply elem_of_cons in Hl as [->|Hl]; [done|]). by apply elem_of_nil in Hl.
Qed.

Lemma core_verb_kept l : is_core_extra l = false -> is_core_extra (core_verb l) = false.
Proof.
  destruct (core_verb_cases l) as [H|H]; [by rewrite H|]. intros _. generalize dependent (core_verb l). clear l.
  intros l Hl. repeat (apply elem_of_cons in Hl as [->|Hl]; [done|]). by apply elem_of_nil in Hl.
Qed.

Lemma core_labels_idem labels : core_labels (core_labels labels) = core_labels labels.
Proof.
  unfold core_labels. induction labels as [|l labels IH]; [done|]. simpl.
  destruct (is_core_extra l) eqn:He; simpl; [done|]. rewrite core_verb_kept by done. simpl. f_equal; [apply core_verb_idem|exact IH].
Qed.

(** A word without white space is one token. *)
Fixpoint no_space (s : string) : bool :=
  match s with EmptyString => true | String c s => negb (is_space c) && no_space s end.

Definition is_word (s : string) : bool := negb (String.eqb s EmptyString) && no_space s.

Lemma string_app_assoc a b c : String.append (String.append a b) c = String.append a (String.append b c).
Proof. induction a as [|x a IH]; [done|]. exact (f_equal (String x) IH). Qed.

Lemma string_app_nil a : String.append a EmptyString = a.
Proof. induction a as [|x a IH]; [done|]. exact (f_equal (String x) IH). Qed.

Lemma split_ws_word a : forall word rest, no_space a = true ->
  split_ws word (String.append a rest) = split_ws (String.append word a) rest.
Proof.
  induction a as [|c a IH]; intros word rest Ha; [by rewrite string_app_nil|]. simpl in Ha.
  change (split_ws word (String.append (String c a) rest)) with (split_ws word (String c (String.append a rest))). simpl.
  destruct (is_space c); [done|]. simpl in Ha. rewrite IH by done. by rewrite string_app_assoc.
Qed.

Lemma split_concat toks : forallb is_word toks = true -> split_whitespace (String.concat " " toks) = toks.
Proof.
  unfold split_whitespace. induction toks as [|a toks IH]; intros Hw; [done|]. simpl in Hw.
  apply andb_true_iff in Hw as [Ha Hw]. apply andb_true_iff in Ha as [Hne Hs].
  assert (Hflush : match a with EmptyString => [] | _ => [a] end = [a]) by (by destruct a). destruct toks as [|b toks].
  - simpl. rewrite <- (string_app_nil a) at 1. rewrite split_ws_word by done. simpl. exact Hflush.
  - change (String.concat " " (a :: b :: toks)) with (String.append a (String (Ascii.ascii_of_nat 32) (String.concat " " (b :: toks)))).
    rewrite split_ws_word by done. change (String.append EmptyString a) with a.
    change (split_ws a (String (Ascii.ascii_of_nat 32) ?s)) with ((match a with EmptyString => [] | _ => [a] end) ++ split_ws EmptyString s).
    rewrite Hflush. simpl app. f_equal. by apply IH.
Qed.

(** The numbers below 256. *)
Definition bytes256 : list Z := Z.of_nat <$> seq 0 256.

Lemma bytes256_elem n : 0 <= n < 256 -> n ∈ bytes256.
Proof.
  intros Hn. apply list_elem_of_fmap. exists (Z.to_nat n). split; [lia|]. apply elem_of_seq. lia.
Qed.

Lemma bytes256_forall (f : Z -> bool) : forallb f bytes256 = true -> forall n, 0 <= n < 256 -> f n = true.
Proof.
  intros Hf n Hn. rewrite forallb_forall in Hf. apply Hf, list_elem_of_In. by apply bytes256_elem.
Qed.

Definition flags_ok (f : Z) : bool :=
  let toks := mark_names 0 CORE_MARK_FLAGS f in
  forallb is_word toks && match core_mark_fold 0 toks with inr g => g =? f | inl _ => false end.

Definition count_ok (letter : string) (shift n : Z) : bool :=
  let tok := String.append letter (pretty n) in
  is_word tok && is_noneb (position_of (fun e => String.eqb e.1 tok) CORE_MARK_FLAGS) &&
  match str_strip_prefix "T" tok, str_strip_prefix "A" tok with
  | Some k, _ => (shift =? 8) && bool_decide (parse_uint u32_max k = Some n)
  | None, Some k => (shift =? 16) && bool_decide (parse_uint u32_max k = Some n)
  | None, None => false
  end.

Lemma flags_ok_all f : 0 <= f < 256 -> flags_ok f = true.
Proof. apply bytes256_forall. vm_compute. reflexivity. Qed.

Lemma count_ok_t n : 0 <= n < 256 -> count_ok "T" 8 n = true.
Proof. apply bytes256_forall. vm_compute. reflexivity. Qed.

Lemma count_ok_a n : 0 <= n < 256 -> count_ok "A" 16 n = true.
Proof. apply bytes256_forall. vm_compute. reflexivity. Qed.

Lemma count_ok_token letter shift n marks :
  n < 256 -> count_ok letter shift n = true ->
  is_word (String.append letter (pretty n)) = true /\
  core_mark_token marks (String.append letter (pretty n)) = inr (Z.lor (Z.ldiff marks (Z.shiftl 0xff shift)) (Z.shiftl n shift)).
Proof.
  intros Hn Hc. unfold count_ok in Hc. cbv zeta in Hc.
  apply andb_true_iff in Hc as [Hc Hp]. apply andb_true_iff in Hc as [Hw Hpos]. split; [done|]. unfold core_mark_token.
  destruct (position_of _ _); [done|]. destruct (str_strip_prefix "T" _) as [k|]; [|destruct (str_strip_prefix "A" _) as [k|]; [|done]];
    apply andb_true_iff in Hp as [Hs%Z.eqb_eq Hk%bool_decide_eq_true]; subst shift; rewrite Hk;
    by replace (255 <? n) with false by lia.
Qed.

Lemma core_mark_fold_app a : forall marks b,
  core_mark_fold marks (a ++ b) =
    match core_mark_fold marks a with inl e => inl e | inr m => core_mark_fold m b end.
Proof. induction a as [|t a IH]; intros marks b; simpl; [done|]. case_match; [done|apply IH]. Qed.

Lemma mark_names_byte m : mark_names 0 CORE_MARK_FLAGS m = mark_names 0 CORE_MARK_FLAGS (Z.land m 255).
Proof. cbn [mark_names CORE_MARK_FLAGS]. rewrite <- !Z.land_assoc. done. Qed.

Lemma land_byte m : 0 <= Z.land m 255 < 256.
Proof.
  change 255 with (Z.ones 8). rewrite Z.land_ones by done. change 256 with (2 ^ 8). apply Z.mod_pos_bound. done.
Qed.

Lemma marks_bits m : 0 <= m < 2 ^ 24 ->
  Z.lor (Z.ldiff (Z.lor (Z.ldiff (Z.land m 255) (Z.shiftl 255 8)) (Z.shiftl (Z.land (Z.shiftr m 8) 255) 8))
    (Z.shiftl 255 16)) (Z.shiftl (Z.land (Z.shiftr m 16) 255) 16) = m.
Proof.
  intros Hm. apply Z.bits_inj'. intros n Hn. change 255 with (Z.ones 8).
  assert (Hhi : 24 <= n -> Z.testbit m n = false).
  { intros H. rewrite <- (Z.mod_small m (2 ^ 24)) by done. by apply Z.mod_pow2_bits_high. }
  repeat first [rewrite Z.lor_spec | rewrite Z.ldiff_spec | rewrite Z.land_spec | rewrite Z.shiftl_spec by done].
  destruct (Z.ltb_spec n 8) as [H8|H8].
  - rewrite !(Z.testbit_neg_r _ (n - 8)), !(Z.testbit_neg_r _ (n - 16)) by lia.
    rewrite Z.ones_spec_low by lia. by destruct (Z.testbit m n).
  - rewrite (Z.ones_spec_high 8 n) by lia. rewrite !Z.shiftr_spec by lia. replace (n - 8 + 8) with n by lia.
    destruct (Z.ltb_spec n 16) as [H16|H16].
    + rewrite !(Z.testbit_neg_r _ (n - 16)) by lia. rewrite Z.ones_spec_low by lia. by destruct (Z.testbit m n).
    + rewrite !Z.shiftr_spec by lia. replace (n - 16 + 16) with n by lia. rewrite (Z.ones_spec_high 8 (n - 8)) by lia.
      destruct (Z.ltb_spec n 24) as [H24|H24].
      * rewrite Z.ones_spec_low by lia. by destruct (Z.testbit m n).
      * rewrite Hhi by lia. by rewrite (Z.ones_spec_high 8 (n - 16)) by lia.
Qed.

Lemma core_marks_roundtrip m : 0 <= m < 2 ^ 24 -> core_marks_from_text (core_marks_text m) = inr m.
Proof.
  intros Hm. unfold core_marks_from_text, core_marks_text, core_mark_tokens.
  pose proof (flags_ok_all _ (land_byte m)) as Hf. unfold flags_ok in Hf. cbv zeta in Hf.
  apply andb_true_iff in Hf as [Hfw Hff].
  pose proof (land_byte (Z.shiftr m 8)) as Ht. pose proof (land_byte (Z.shiftr m 16)) as Ha.
  destruct (count_ok_token _ _ _ (Z.land m 255) (proj2 Ht) (count_ok_t _ Ht)) as [Htw Htt].
  rewrite split_concat.
  - rewrite core_mark_fold_app, mark_names_byte. destruct (core_mark_fold 0 _) as [|g]; [done|]. apply Z.eqb_eq in Hff as ->.
    cbn [core_mark_fold]. rewrite Htt.
    destruct (count_ok_token _ _ _ (Z.lor (Z.ldiff (Z.land m 255) (Z.shiftl 255 8)) (Z.shiftl (Z.land (Z.shiftr m 8) 255) 8)) (proj2 Ha) (count_ok_a _ Ha)) as [_ ->].
    f_equal. by apply marks_bits.
  - rewrite forallb_app, mark_names_byte, Hfw. simpl. rewrite Htw.
    by destruct (count_ok_token _ _ _ 0 (proj2 Ha) (count_ok_a _ Ha)) as [-> _].
Qed.
