(* ===== verification/Fingerprint.v ===== *)
(** * Fingerprint: which creation shapes a token belongs to

    [fingerprint/token.rs] (the observed axes), the criteria map and the axis readers of
    [fingerprint/axis.rs], and [fingerprint/mod.rs] (the matcher, the two match phases,
    canonical order).  The tag document is a parameter: the matcher never reads it. *)

From S2P Require Export Axis TradeKeys Float64 AxisFacts.

Record TokenFingerprint := {
  token_program_id : option string;
  is_cashback_enabled : bool;
  cu_limit : option Z;
  cu_price : option Z;
  init_buy_lamports : option Z;
  max_cost_lamports : option Z;
  spendable_lamports_in : option Z;
  first_slot_buy_lamports : option Z;
  first_slot_sell_lamports : option Z;
  ix_labels : list string;
  prior_launches : option Z;
  build_prev_day_launches : option Z;
  build_prev_day_runner_bps : option Z;
  name_reuse_count : option Z;
}.

Definition TokenFingerprint_default : TokenFingerprint := {|
  token_program_id := None; is_cashback_enabled := false; cu_limit := None; cu_price := None;
  init_buy_lamports := None; max_cost_lamports := None; spendable_lamports_in := None;
  first_slot_buy_lamports := None; first_slot_sell_lamports := None; ix_labels := [];
  prior_launches := None; build_prev_day_launches := None; build_prev_day_runner_bps := None;
  name_reuse_count := None |}.

(** The two writes the fold makes to a token's axes. *)
Definition set_first_slot (t : TokenFingerprint) (buy sell : option Z) : TokenFingerprint := {|
  token_program_id := token_program_id t; is_cashback_enabled := is_cashback_enabled t;
  cu_limit := cu_limit t; cu_price := cu_price t; init_buy_lamports := init_buy_lamports t;
  max_cost_lamports := max_cost_lamports t; spendable_lamports_in := spendable_lamports_in t;
  first_slot_buy_lamports := buy; first_slot_sell_lamports := sell; ix_labels := ix_labels t;
  prior_launches := prior_launches t; build_prev_day_launches := build_prev_day_launches t;
  build_prev_day_runner_bps := build_prev_day_runner_bps t; name_reuse_count := name_reuse_count t |}.

Definition stamp_tallies (t : TokenFingerprint) (prior launches bps reuse : option Z) : TokenFingerprint := {|
  token_program_id := token_program_id t; is_cashback_enabled := is_cashback_enabled t;
  cu_limit := cu_limit t; cu_price := cu_price t; init_buy_lamports := init_buy_lamports t;
  max_cost_lamports := max_cost_lamports t; spendable_lamports_in := spendable_lamports_in t;
  first_slot_buy_lamports := first_slot_buy_lamports t;
  first_slot_sell_lamports := first_slot_sell_lamports t; ix_labels := ix_labels t;
  prior_launches := prior; build_prev_day_launches := launches;
  build_prev_day_runner_bps := bps; name_reuse_count := reuse |}.

Definition sol_to_lamports (sol : f64) : Z :=
  if negb (is_finite sol) || (sol <=. f_zero) then 0
  else
    let v := fround (sol ⊗ f_of_Z 1000000000) in
    if v >=. f_of_Z u64_max then 0 else f_as_u64 v.

Definition lamports_to_sol (lamports : Z) : f64 := f_of_Z lamports ⊘ f_of_Z 1000000000.

(** ** The axis readers *)

Definition read_num (a : AxisId) (tf : TokenFingerprint) : option Z :=
  match a with
  | CuLimit => cu_limit tf
  | CuPrice => cu_price tf
  | InitBuyLamports => init_buy_lamports tf
  | MaxCostLamports => max_cost_lamports tf
  | SpendableLamportsIn => spendable_lamports_in tf
  | FirstSlotBuyLamports => first_slot_buy_lamports tf
  | FirstSlotSellLamports => first_slot_sell_lamports tf
  | IxCount => Some (Z.of_nat (length (ix_labels tf)))
  | PriorLaunches => prior_launches tf
  | CreateAta => create_ata_present (ix_labels tf)
  | BuildPrevDayLaunches => build_prev_day_launches tf
  | BuildPrevDayRunnerBps => build_prev_day_runner_bps tf
  | NameReuseCount => name_reuse_count tf
  | IxLabels => None
  end.

Definition read_seq (a : AxisId) (tf : TokenFingerprint) : option (list string) :=
  match a with IxLabels => Some (ix_labels tf) | _ => None end.

(** ** Criteria: a map from axes to predicates, as its entries in registry order *)

Abbreviation Criteria := (list (AxisId * AxisPredicate)) (only parsing).

Definition criteria_get (c : Criteria) (a : AxisId) : option AxisPredicate :=
  snd <$> find_first (fun e => bool_decide (e.1 = a)) c.

Definition criteria_contains (c : Criteria) (a : AxisId) : bool := is_someb (criteria_get c a).

(** [insert]: the entry of the axis is replaced, or added at its place in the order. *)
Fixpoint criteria_insert (c : Criteria) (a : AxisId) (p : AxisPredicate) : Criteria :=
  match c with
  | [] => [(a, p)]
  | e :: c' =>
      if axis_index a <? axis_index e.1 then (a, p) :: c
      else if axis_index a =? axis_index e.1 then (a, p) :: c'
      else e :: criteria_insert c' a p
  end.

Definition has_deferred (c : Criteria) : bool := existsb (fun e => is_deferred e.1) c.
Definition has_instant (c : Criteria) : bool := existsb (fun e => negb (is_deferred e.1)) c.

Inductive CriteriaProblem :=
  | WrongKind (a : AxisId) (axis pred : AxisKind)
  | NoValue (a : AxisId) (p : AxisPredicate)
  | BadShape (a : AxisId) (why : ShapeProblem)
  | NameReuseNeedsLabels
  | IxCountExcludesLength (n : Z).

Definition axis_problem (e : AxisId * AxisPredicate) : option CriteriaProblem :=
  let kind := ad_kind (axis_def e.1) in
  if negb (bool_decide (pred_kind e.2 = kind)) then Some (WrongKind e.1 kind (pred_kind e.2))
  else if negb (pred_is_satisfiable e.2) then Some (NoValue e.1 e.2)
  else BadShape e.1 <$> shape_problem e.2.

Definition criteria_problems (c : Criteria) : list CriteriaProblem :=
  omap axis_problem c ++
  (if criteria_contains c NameReuseCount &&
      negb (match criteria_get c IxLabels with Some (Sequence _) => true | _ => false end)
   then [NameReuseNeedsLabels] else []) ++
  match criteria_get c IxLabels, criteria_get c IxCount with
  | Some (Sequence labels), Some count =>
      if negb (matches_num count (Z.of_nat (length labels)))
      then [IxCountExcludesLength (Z.of_nat (length labels))] else []
  | _, _ => []
  end.

(** ** Fingerprints *)

Inductive MatchPhase := MpInstant | MpFull.

#[export] Instance MatchPhase_eq_dec : EqDecision MatchPhase.
Proof. solve_decision. Defined.

Abbreviation FingerprintId := Z (only parsing).

Record Fingerprint {TagDoc : Type} := {
  f_id : FingerprintId;
  wildcard : bool;
  criteria : Criteria;
  alt_criteria : list Criteria;
  exclude_criteria : list Criteria;
  f_tags : TagDoc;
}.
Arguments Fingerprint : clear implicits.

Definition criteria_is_empty (c : Criteria) : bool := match c with [] => true | _ => false end.

Section matcher.
Context {TagDoc : Type}.
Implicit Types (fp : Fingerprint TagDoc) (tf : TokenFingerprint).

Definition fp_empty (id : FingerprintId) (default_tags : TagDoc) : Fingerprint TagDoc :=
  {| f_id := id; wildcard := false; criteria := []; alt_criteria := []; exclude_criteria := [];
     f_tags := default_tags |}.

Definition include_shapes fp : list Criteria :=
  List.filter (fun c => negb (criteria_is_empty c)) [criteria fp] ++ alt_criteria fp.

Definition all_shapes fp : list Criteria := include_shapes fp ++ exclude_criteria fp.

Definition name_reuse_builds fp : list (list string) :=
  omap (fun c => match criteria_get c IxLabels with Some (Sequence labels) => Some labels | _ => None end)
    (List.filter (fun c => criteria_contains c NameReuseCount) (all_shapes fp)).

Definition is_multi_shape fp : bool :=
  negb (match alt_criteria fp with [] => true | _ => false end) ||
  negb (match exclude_criteria fp with [] => true | _ => false end).

Definition has_any_criterion fp : bool := wildcard fp || negb (criteria_is_empty (criteria fp)).

Definition has_instant_criterion fp : bool := wildcard fp || existsb has_instant (include_shapes fp).

Definition has_first_slot_criteria fp : bool :=
  (negb (wildcard fp) && existsb has_deferred (include_shapes fp)) ||
  existsb has_deferred (exclude_criteria fp).

Definition axis_matches (e : AxisId * AxisPredicate) tf : bool :=
  match pred_kind e.2 with
  | Numeric => is_some_and (read_num e.1 tf) (fun v => matches_num e.2 v)
  | Sequence_ => is_some_and (read_seq e.1 tf) (fun s => matches_seq e.2 s)
  end.

Definition shape_matches (shape : Criteria) tf (phase : MatchPhase) : bool :=
  forallb (fun e =>
    if bool_decide (phase = MpInstant) && is_deferred e.1 then true else axis_matches e tf) shape.

Definition shape_excludes (shape : Criteria) tf (phase : MatchPhase) : bool :=
  (bool_decide (phase = MpFull) || negb (has_deferred shape)) && shape_matches shape tf MpFull.

Definition matches_phase fp tf (phase : MatchPhase) : bool :=
  if negb (has_any_criterion fp) then false
  else
    (wildcard fp || existsb (fun c => shape_matches c tf phase) (include_shapes fp)) &&
    negb (existsb (fun c => shape_excludes c tf phase) (exclude_criteria fp)).

Definition fp_matches fp tf : bool := matches_phase fp tf MpFull.

Definition match_all (fps : list (Fingerprint TagDoc)) tf (phase : MatchPhase) : list FingerprintId :=
  f_id <$> List.filter (fun fp => matches_phase fp tf phase) fps.

(** *** Canonical order; [shape_key] is the shape's JSON text *)

Context (shape_key : Criteria -> string).

Definition canonical_shapes (shapes : list Criteria) : list Criteria :=
  dedup (sort_by (fun a b => String.leb (shape_key a) (shape_key b)) shapes).

Definition canonicalize fp : Fingerprint TagDoc :=
  let ex := canonical_shapes (exclude_criteria fp) in
  if negb (match alt_criteria fp with [] => true | _ => false end) && negb (criteria_is_empty (criteria fp))
  then
    let all := canonical_shapes (alt_criteria fp ++ [criteria fp]) in
    {| f_id := f_id fp; wildcard := wildcard fp; criteria := unwrap_or (head all) [];
       alt_criteria := tail all; exclude_criteria := ex; f_tags := f_tags fp |}
  else
    {| f_id := f_id fp; wildcard := wildcard fp; criteria := criteria fp;
       alt_criteria := alt_criteria fp; exclude_criteria := ex; f_tags := f_tags fp |}.

Inductive FingerprintProblem :=
  | NoCriterion
  | WildcardWithAxes
  | FirstShapeEmpty
  | InFirst (p : CriteriaProblem)
  | AltEmpty (i : nat)
  | InAlt (i : nat) (p : CriteriaProblem)
  | ExcludeEmpty (i : nat)
  | InExclude (i : nat) (p : CriteriaProblem)
  | NotCanonicalOrder.

Definition problems fp : list FingerprintProblem :=
  (if negb (has_any_criterion fp) then [NoCriterion] else []) ++
  (if wildcard fp && (negb (criteria_is_empty (criteria fp)) ||
      negb (match alt_criteria fp with [] => true | _ => false end))
   then [WildcardWithAxes] else []) ++
  (if negb (wildcard fp) && criteria_is_empty (criteria fp) &&
      negb (match alt_criteria fp with [] => true | _ => false end)
   then [FirstShapeEmpty] else []) ++
  (InFirst <$> criteria_problems (criteria fp)) ++
  concat (imap (fun i shape =>
    (if criteria_is_empty shape then [AltEmpty (S i)] else []) ++
    (InAlt (S i) <$> criteria_problems shape)) (alt_criteria fp)) ++
  concat (imap (fun i shape =>
    (if criteria_is_empty shape then [ExcludeEmpty (S i)] else []) ++
    (InExclude (S i) <$> criteria_problems shape)) (exclude_criteria fp)) ++
  (let c := canonicalize fp in
   if bool_decide (criteria c = criteria fp) && bool_decide (alt_criteria c = alt_criteria fp) &&
      bool_decide (exclude_criteria c = exclude_criteria fp)
   then [] else [NotCanonicalOrder]).
End matcher.

(** ** The two match phases agree, and canonical order changes nothing

    An instant rejection is final, a fingerprint without deferred axes is decided at the
    instant phase, an unknown value never passes, and [canonicalize] keeps the accepted
    tokens and is idempotent. *)

Section facts.
Context {TagDoc : Type}.
Implicit Types (fp : Fingerprint TagDoc) (tf : TokenFingerprint).

Lemma forallb_impl {A} (f g : A -> bool) l :
  (forall x, x ∈ l -> f x = true -> g x = true) -> forallb f l = true -> forallb g l = true.
Proof.
  rewrite !forallb_forall. intros H Hf x Hx. apply H; [by apply list_elem_of_In|by apply Hf].
Qed.

Lemma existsb_impl {A} (f g : A -> bool) l :
  (forall x, x ∈ l -> f x = true -> g x = true) -> existsb f l = true -> existsb g l = true.
Proof.
  rewrite !existsb_exists. intros H (x & Hx & Hf). exists x. split; [done|].
  apply H; [by apply list_elem_of_In|done].
Qed.

Lemma existsb_false_elem {A} (f : A -> bool) l : existsb f l = false <-> forall x, x ∈ l -> f x = false.
Proof.
  induction l as [|y l IH]; simpl.
  - split; [intros _ x H; inversion H|done].
  - rewrite orb_false_iff, IH. split.
    + intros [? H] x [->|?]%elem_of_cons; auto.
    + intros H. split; [apply H; left|]. intros x Hx. apply H. by right.
Qed.

(** The first-slot sums are read by the deferred axes only. *)
Lemma axis_matches_settle e tf buy sell :
  is_deferred e.1 = false -> axis_matches e (set_first_slot tf buy sell) = axis_matches e tf.
Proof. destruct e as [a p]. unfold axis_matches. by destruct (pred_kind p), a. Qed.

Lemma shape_matches_settle c tf buy sell :
  has_deferred c = false ->
  shape_matches c (set_first_slot tf buy sell) MpFull = shape_matches c tf MpFull.
Proof.
  unfold has_deferred, shape_matches. simpl. induction c as [|e c IH]; simpl; [done|].
  intros [He Hc]%orb_false_iff. by rewrite axis_matches_settle, IH.
Qed.

Lemma shape_full_instant c tf buy sell :
  shape_matches c (set_first_slot tf buy sell) MpFull = true -> shape_matches c tf MpInstant = true.
Proof.
  unfold shape_matches. simpl. apply forallb_impl. intros e _ He.
  destruct (is_deferred e.1) eqn:D; [done|]. by rewrite axis_matches_settle in He.
Qed.

Lemma shape_instant_not_deferred c tf :
  has_deferred c = false -> shape_matches c tf MpInstant = shape_matches c tf MpFull.
Proof.
  unfold has_deferred, shape_matches. simpl. induction c as [|e c IH]; simpl; [done|].
  intros [He Hc]%orb_false_iff. by rewrite He, IH.
Qed.

(** What the settled slot accepts, the instant phase accepted: a rejection at creation
    is final, so only instant matches need to stay pending. *)
Lemma matches_full_instant fp tf buy sell :
  matches_phase fp (set_first_slot tf buy sell) MpFull = true -> matches_phase fp tf MpInstant = true.
Proof.
  unfold matches_phase. destruct (has_any_criterion fp); simpl; [|done].
  intros [Hin Hex]%andb_true_iff. apply andb_true_iff. split.
  - apply orb_true_iff in Hin as [->|Hin]; [done|]. apply orb_true_iff. right.
    eapply existsb_impl; [|exact Hin]. intros c _. apply shape_full_instant.
  - apply negb_true_iff in Hex. apply negb_true_iff.
    rewrite existsb_false_elem in *. intros c Hc. specialize (Hex c Hc).
    unfold shape_excludes in *. simpl in *. destruct (has_deferred c) eqn:D; simpl; [done|].
    by rewrite shape_matches_settle in Hex.
Qed.

(** Without deferred criteria the instant verdict is the settled one. *)
Lemma matches_instant_decides fp tf buy sell :
  has_first_slot_criteria fp = false ->
  matches_phase fp (set_first_slot tf buy sell) MpFull = matches_phase fp tf MpInstant.
Proof.
  unfold has_first_slot_criteria, matches_phase. intros [Hin Hex]%orb_false_iff.
  destruct (has_any_criterion fp); simpl; [|done]. f_equal.
  - destruct (wildcard fp); simpl in *; [done|].
    induction (include_shapes fp) as [|c l IH]; simpl in *; [done|].
    apply orb_false_iff in Hin as [Hc Hl].
    by rewrite IH, shape_matches_settle, shape_instant_not_deferred.
  - f_equal. induction (exclude_criteria fp) as [|c l IH]; simpl in *; [done|].
    apply orb_false_iff in Hex as [Hc Hl]. rewrite IH by done. unfold shape_excludes.
    by rewrite Hc, shape_matches_settle.
Qed.

Lemma no_criterion_matches_nothing fp tf phase :
  has_any_criterion fp = false -> matches_phase fp tf phase = false.
Proof. unfold matches_phase. by intros ->. Qed.

(** A configured numeric axis without an observed value fails the shape. *)
Lemma unknown_axis_fails c tf a p :
  (a, p) ∈ c -> pred_kind p = Numeric -> read_num a tf = None -> shape_matches c tf MpFull = false.
Proof.
  intros Hin Hk Hr. apply not_true_iff_false. unfold shape_matches. rewrite forallb_forall.
  intros H. apply list_elem_of_In in Hin. specialize (H _ Hin). simpl in H.
  unfold axis_matches in H. simpl in H. by rewrite Hk, Hr in H.
Qed.

(** ** Canonical order *)

Context (shape_key : Criteria -> string).
Context (shape_key_inj : forall a b, shape_key a = shape_key b -> a = b).

Let shape_leb (a b : Criteria) : bool := String.leb (shape_key a) (shape_key b).

Lemma shape_leb_total a b : shape_leb a b = true \/ shape_leb b a = true.
Proof. exact (key_leb_total (shape_key a) (shape_key b)). Qed.

Lemma shape_leb_trans a b c : shape_leb a b = true -> shape_leb b c = true -> shape_leb a c = true.
Proof. exact (key_leb_trans (shape_key a) (shape_key b) (shape_key c)). Qed.

Lemma shape_leb_antisym a b : shape_leb a b = true -> shape_leb b a = true -> a = b.
Proof. intros. apply shape_key_inj. by apply (key_leb_antisym (shape_key a) (shape_key b)). Qed.

Lemma elem_of_canonical_shapes l c : c ∈ canonical_shapes shape_key l <-> c ∈ l.
Proof. unfold canonical_shapes. by rewrite elem_of_dedup, sort_by_perm. Qed.

Definition strictly (l : list Criteria) : Prop := StronglySorted (fun a b => shape_leb a b = true /\ a <> b) l.

Lemma dedup_strict l :
  StronglySorted (fun a b => shape_leb a b = true) l -> strictly (dedup l).
Proof.
  induction 1 as [|x l Hl IH HF]; simpl; [constructor|].
  assert (HF' : Forall (fun y => shape_leb x y = true) (dedup l)).
  { rewrite Forall_forall in *. intros y Hy. apply HF. by apply elem_of_dedup. }
  destruct (dedup l) as [|y l'] eqn:E; [repeat constructor|].
  case_bool_decide as Exy; [done|]. constructor; [done|].
  apply Forall_cons in HF' as [Hxy HF']. constructor; [done|].
  inversion IH as [|? ? _ HF'']; subst. rewrite Forall_forall in *. intros z Hz.
  destruct (HF'' z Hz) as [Hyz Hne]. split; [by eapply shape_leb_trans|].
  intros ->. apply Exy. by apply shape_leb_antisym.
Qed.

Lemma canonical_shapes_strict l : strictly (canonical_shapes shape_key l).
Proof.
  apply dedup_strict, (sort_by_sorted shape_leb); [apply shape_leb_total|apply shape_leb_trans].
Qed.

Lemma canonical_shapes_fixed l : strictly l -> canonical_shapes shape_key l = l.
Proof.
  intros Hs. unfold canonical_shapes. rewrite sort_by_id.
  - induction Hs as [|x l Hl IH HF]; simpl; [done|]. rewrite IH.
    destruct l as [|y l]; [done|]. apply Forall_cons in HF as [[_ Hne] _].
    by rewrite bool_decide_false.
  - eapply StronglySorted_impl; [|exact Hs]. by intros ? ? [].
Qed.

Lemma existsb_canonical f l : existsb f (canonical_shapes shape_key l) = existsb f l.
Proof.
  apply eq_bool_prop_intro. rewrite !Is_true_true, !existsb_exists.
  setoid_rewrite <- list_elem_of_In. by setoid_rewrite elem_of_canonical_shapes.
Qed.

(** The include shapes of a canonicalised fingerprint hold the same shapes. *)
Lemma existsb_include_canonicalize f fp :
  Forall (fun c => c <> []) (alt_criteria fp) ->
  existsb f (include_shapes (canonicalize shape_key fp)) = existsb f (include_shapes fp).
Proof.
  clear shape_key_inj.
  intros Hne. unfold canonicalize. destruct (alt_criteria fp) as [|a l] eqn:Ea; simpl.
  { unfold include_shapes. simpl. by rewrite Ea. }
  destruct (criteria fp) as [|e c] eqn:Ec; simpl.
  { unfold include_shapes. simpl. by rewrite Ea, Ec. }
  set (all := canonical_shapes shape_key (a :: l ++ [e :: c])).
  assert (Hall : forall x, x ∈ all <-> x ∈ (e :: c) :: a :: l).
  { intros x. unfold all. rewrite elem_of_canonical_shapes. set_solver. }
  transitivity (existsb f all).
  - unfold include_shapes. simpl. destruct all as [|x all'].
    + assert (Habs : e :: c ∈ @nil Criteria) by (apply Hall; left). inversion Habs.
    + simpl. destruct x as [|ex cx]; simpl; [|done]. exfalso.
      assert (Hin : @nil (AxisId * AxisPredicate) ∈ (e :: c) :: a :: l) by (apply Hall; left).
      apply elem_of_cons in Hin as [|Hin]; [done|].
      rewrite Forall_forall in Hne. by apply (Hne [] Hin).
  - unfold include_shapes. rewrite Ea, Ec. simpl.
    apply eq_bool_prop_intro. rewrite !Is_true_true.
    change (f (e :: c) || (f a || existsb f l)) with (existsb f ((e :: c) :: a :: l)).
    rewrite !existsb_exists. setoid_rewrite <- list_elem_of_In. by setoid_rewrite Hall.
Qed.

Lemma has_any_canonicalize fp :
  Forall (fun c => c <> []) (alt_criteria fp) ->
  has_any_criterion (canonicalize shape_key fp) = has_any_criterion fp.
Proof.
  clear shape_key_inj.
  intros Hne. unfold has_any_criterion, canonicalize.
  destruct (alt_criteria fp) as [|a l] eqn:Ea; simpl; [done|].
  destruct (criteria fp) as [|e c] eqn:Ec; simpl; [done|]. f_equal.
  set (all := canonical_shapes shape_key (a :: l ++ [e :: c])).
  destruct all as [|x all'] eqn:E.
  - assert (Hin : e :: c ∈ all) by (unfold all; apply elem_of_canonical_shapes; set_solver).
    rewrite E in Hin. inversion Hin.
  - simpl. assert (Hin : x ∈ all) by (rewrite E; left).
    unfold all in Hin. rewrite elem_of_canonical_shapes in Hin.
    destruct x; [|done]. exfalso. rewrite Forall_forall in Hne.
    apply (elem_of_app (a :: l)) in Hin as [Hin|Hin]; [by apply (Hne [] Hin)|].
    apply elem_of_cons in Hin as [|Hin]; [done|]. inversion Hin.
Qed.

Lemma wildcard_canonicalize fp : wildcard (canonicalize shape_key fp) = wildcard fp.
Proof.
  clear shape_key_inj. unfold canonicalize. by case_match. Qed.

Lemma exclude_canonicalize fp :
  exclude_criteria (canonicalize shape_key fp) = canonical_shapes shape_key (exclude_criteria fp).
Proof.
  clear shape_key_inj. unfold canonicalize. by case_match. Qed.

Lemma canonicalize_matches fp tf phase :
  Forall (fun c => c <> []) (alt_criteria fp) ->
  matches_phase (canonicalize shape_key fp) tf phase = matches_phase fp tf phase.
Proof.
  clear shape_key_inj.
  intros Hne. unfold matches_phase.
  by rewrite has_any_canonicalize, wildcard_canonicalize, existsb_include_canonicalize,
    exclude_canonicalize, existsb_canonical.
Qed.

Lemma canonicalize_idempotent fp :
  Forall (fun c => c <> []) (alt_criteria fp) ->
  canonicalize shape_key (canonicalize shape_key fp) = canonicalize shape_key fp.
Proof.
  intros Hne. assert (Hex : canonical_shapes shape_key (canonical_shapes shape_key (exclude_criteria fp)) =
    canonical_shapes shape_key (exclude_criteria fp)) by apply canonical_shapes_fixed, canonical_shapes_strict.
  unfold canonicalize at 2 3. destruct (alt_criteria fp) as [|a l] eqn:Ea; simpl.
  { unfold canonicalize. simpl. by rewrite Hex. }
  destruct (criteria fp) as [|e c] eqn:Ec; simpl.
  { unfold canonicalize. simpl. by rewrite Hex. }
  set (all := canonical_shapes shape_key (a :: l ++ [e :: c])).
  assert (Hs : strictly all) by apply canonical_shapes_strict.
  unfold canonicalize. simpl. rewrite Hex. destruct all as [|x [|y rest]] eqn:E; try done.
  simpl. destruct x as [|ex cx] eqn:Ex; simpl; [done|]. rewrite <- Ex in *.
  replace (canonical_shapes shape_key (y :: rest ++ [x])) with (x :: y :: rest); [done|].
  rewrite <- (canonical_shapes_fixed _ Hs). unfold canonical_shapes. f_equal.
  symmetry. apply (StronglySorted_unique_strong (fun a b => shape_leb a b = true)).
  - intros ? ? _ _. apply shape_leb_antisym.
  - apply (sort_by_sorted shape_leb); [apply shape_leb_total|apply shape_leb_trans].
  - apply (sort_by_sorted shape_leb); [apply shape_leb_total|apply shape_leb_trans].
  - rewrite !sort_by_perm. first [apply (Permutation_cons_append (y :: rest) x) | symmetry; apply (Permutation_cons_append (y :: rest) x)].
Qed.
End facts.
