(* ===== verification/RuleParams.v ===== *)
(** * RuleParams: when a rule buys and how it sells

    [rule_params.rs]: the typed form of a rule document, the reads and lines it names,
    the copy shortcut's expansion, and the two whole-document checks that stop a rule
    from acting forever ([part_sell_stops], [check_deadline_loops]).  The JSON walk that
    parses and prints the document is not modelled. *)

From S2P Require Export Evaluator.

Definition MAX_SIZE_PCT_OF_POOL : f64 := f_of_Z 10.
Definition MAX_ENTRY_SLIPPAGE_PCT : f64 := f_of_Z 90.
Definition MAX_SELL_BPS : Z := 9900.
Definition MAX_SELL_PCT : f64 := f_of_Z MAX_SELL_BPS ⊘ f_of_Z 100.

Inductive EntryLock := LockSlot | LockToken.

Inductive Cond :=
  | CondMetric (r : MetricRef) (expr : ConditionExpr) (off : bool)
  | CondSignal (name : string) (negated off : bool).

Definition is_off (c : Cond) : bool :=
  match c with CondMetric _ _ off | CondSignal _ _ off => off end.

(** [Sell]: what a line sells. *)
Record SellSpec := { se_label : option string; se_pct : option f64; se_of_bag : bool }.

Record CopySpec := { min_buy_sol : f64 }.

Inductive CopyForm := CopyShortcut (c : CopySpec) | CopyDocument.

Inductive CopyFollow := FollowAll | FollowBought.

#[export] Instance CopyFollow_eq_dec : EqDecision CopyFollow.
Proof. solve_decision. Defined.

Definition COPY_MAX_PER_COIN : Z := 100.

Record Line := { l_when : list Cond; l_sell : option SellSpec; l_go : option string; l_off : bool }.

Inductive DeadlineBasis := BasisAge | BasisHeld | BasisStage.

#[export] Instance DeadlineBasis_eq_dec : EqDecision DeadlineBasis.
Proof. solve_decision. Defined.

Record Deadline := { dl_basis : DeadlineBasis; dl_secs : f64 }.

Record Stage := {
  st_name : string;
  st_ends : option Deadline;
  st_on : list Line;
  st_at_end : list Line;
  st_then : option string;
}.

Record Phase := { ph_name : string; ph_until : list Cond }.
Record Situation := { si_name : string; si_when : list Cond }.
Record Cell := { cl_phase : option string; cl_situation : option string; cl_on : list Line }.
Record Tree := { tr_phases : list Phase; tr_situations : list Situation; tr_cells : list Cell }.

Abbreviation CellRef := (option string * option string)%type (only parsing).

Record Enter := {
  en_event : list Cond;
  en_filters : list Cond;
  en_final_filters : list Cond;
  en_lock : option EntryLock;
  en_size_pct_of_pool : option f64;
  en_slippage_pct : option f64;
  en_cells : list CellRef;
}.

Definition Enter_default : Enter :=
  {| en_event := []; en_filters := []; en_final_filters := []; en_lock := None;
     en_size_pct_of_pool := None; en_slippage_pct := None; en_cells := [] |}.

Record ReEntry := { re_cooldown_sec : f64; re_max_per_coin : Z }.

Record RuleParams := {
  rp_enter : Enter;
  rp_take_profit : option f64;
  rp_stop_loss : option f64;
  (** Sorted by name. *)
  rp_signals : list (string * list (list Cond));
  rp_always : list Line;
  rp_stages : list Stage;
  rp_tree : option Tree;
  rp_reentry : option ReEntry;
  rp_exclusive : bool;
  rp_priority : Z;
  rp_copy : option CopyForm;
  rp_follow : CopyFollow;
}.

Definition RuleParams_default : RuleParams :=
  {| rp_enter := Enter_default; rp_take_profit := None; rp_stop_loss := None; rp_signals := [];
     rp_always := []; rp_stages := []; rp_tree := None; rp_reentry := None; rp_exclusive := false;
     rp_priority := 0; rp_copy := None; rp_follow := FollowAll |}.

(** ** The copy shortcut *)

Definition targets_tag : TagRef := tag_ref "targets" false.

Definition one_print : Span := span_window {| w_size := f_of_Z 1; w_lag := f_zero; w_unit := UnitPrint |}.

Definition tagged_life (m : Metric) : MetricRef :=
  {| mr_metric := m; mr_tag := Some targets_tag; mr_span := SPAN_LIFE |}.

Definition one_cond (r : MetricRef) (op : Operator) (value : f64) : Cond :=
  CondMetric r [[{| c_operator := op; c_value := value |}]] false.

Definition mirror_line (go : string) : Line :=
  {| l_when := [one_cond (tagged_life SoldBagPct) OpGt f_zero];
     l_sell := Some {| se_label := Some "his sell"%string; se_pct := None; se_of_bag := true |};
     l_go := Some go; l_off := false |}.

Definition mirror_stage (name go : string) : Stage :=
  {| st_name := name; st_ends := None; st_on := [mirror_line go]; st_at_end := []; st_then := None |}.

Definition copy_expand (c : CopySpec) : RuleParams :=
  {| rp_enter :=
       {| en_event :=
            [one_cond {| mr_metric := BuySol; mr_tag := Some targets_tag; mr_span := one_print |}
               OpGte (min_buy_sol c);
             one_cond (tagged_life FlatBefore) OpEq (f_of_Z 1)];
          en_filters := []; en_final_filters := []; en_lock := None; en_size_pct_of_pool := None;
          en_slippage_pct := None; en_cells := [] |};
     rp_take_profit := None; rp_stop_loss := None; rp_signals := []; rp_always := [];
     rp_stages := [mirror_stage "a" "b"; mirror_stage "b" "a"]; rp_tree := None;
     rp_reentry := Some {| re_cooldown_sec := f_zero; re_max_per_coin := COPY_MAX_PER_COIN |};
     rp_exclusive := false; rp_priority := 0; rp_copy := None; rp_follow := FollowAll |}.

Definition clear_copy (p : RuleParams) : RuleParams :=
  {| rp_enter := rp_enter p; rp_take_profit := rp_take_profit p; rp_stop_loss := rp_stop_loss p;
     rp_signals := rp_signals p; rp_always := rp_always p; rp_stages := rp_stages p;
     rp_tree := rp_tree p; rp_reentry := rp_reentry p; rp_exclusive := rp_exclusive p;
     rp_priority := rp_priority p; rp_copy := None; rp_follow := rp_follow p |}.

Definition expand_copy (p : RuleParams) : RuleParams :=
  match rp_copy p with
  | Some (CopyShortcut spec) => copy_expand spec
  | Some CopyDocument => clear_copy p
  | None => p
  end.

(** ** What a rule reads and does *)

Definition live_cond (cs : list Cond) : bool := existsb (fun c => negb (is_off c)) cs.

Definition rp_enter_on_arm (p : RuleParams) : bool :=
  match rp_copy p with
  | Some (CopyShortcut _) => false
  | _ => negb (live_cond (en_event (rp_enter p))) && negb (live_cond (en_filters (rp_enter p))) &&
         negb (live_cond (en_final_filters (rp_enter p)))
  end.

Definition tree_lines (p : RuleParams) : list Line :=
  match rp_tree p with Some t => tr_cells t ≫= cl_on | None => [] end.

Definition all_lines (p : RuleParams) : list Line :=
  rp_always p ++ (rp_stages p ≫= fun s => st_on s ++ st_at_end s) ++ tree_lines p.

Definition live_refs (cs : list Cond) : list MetricRef :=
  omap (fun c => match c with CondMetric r _ false => Some r | _ => None end) cs.

Definition own_metric_refs (p : RuleParams) : list MetricRef :=
  live_refs (en_event (rp_enter p)) ++ live_refs (en_filters (rp_enter p)) ++
  live_refs (en_final_filters (rp_enter p)) ++
  (rp_signals p ≫= fun s => s.2 ≫= live_refs) ++
  match rp_tree p with
  | Some t => (tr_phases t ≫= fun ph => live_refs (ph_until ph)) ++
              (tr_situations t ≫= fun si => live_refs (si_when si))
  | None => []
  end ++
  (all_lines p ≫= fun l => if l_off l then [] else live_refs (l_when l)).

Definition metric_refs (p : RuleParams) : list MetricRef :=
  own_metric_refs (if is_someb (rp_copy p) then expand_copy p else p).

(** ** A part sell in a cell stops itself *)

Record SoldRange := { sr_lo : f64; sr_lo_strict : bool; sr_hi : f64; sr_hi_strict : bool }.

Definition sold_range_step (b : SoldRange) (x : Condition) : SoldRange :=
  let v := c_value x in
  match c_operator x with
  | OpGt | OpGte =>
      let strict := bool_decide (c_operator x = OpGt) in
      if (v >. sr_lo b) || ((v =. sr_lo b) && strict)
      then {| sr_lo := v; sr_lo_strict := strict; sr_hi := sr_hi b; sr_hi_strict := sr_hi_strict b |} else b
  | OpLt | OpLte =>
      let strict := bool_decide (c_operator x = OpLt) in
      if (v <. sr_hi b) || ((v =. sr_hi b) && strict)
      then {| sr_lo := sr_lo b; sr_lo_strict := sr_lo_strict b; sr_hi := v; sr_hi_strict := strict |} else b
  | _ => b
  end.

Definition sold_range_cond (b : SoldRange) (c : Cond) : SoldRange :=
  match c with
  | CondMetric r [arm] false =>
      if bool_decide (mr_metric r = SoldPct) then foldl sold_range_step b arm else b
  | _ => b
  end.

Definition part_sell_stops (l : Line) (pct : f64) : bool :=
  let b := foldl sold_range_cond
    {| sr_lo := f_zero; sr_lo_strict := false; sr_hi := f_inf; sr_hi_strict := true |} (l_when l) in
  let width := sr_hi b ⊖ sr_lo b in
  (width <. pct) || ((width =. pct) && (sr_lo_strict b || sr_hi_strict b)).

(** ** No loop of deadline moves without a wait *)

Definition stage_index_of (p : RuleParams) (name : string) : option nat :=
  position_of (fun s => bool_decide (st_name s = name)) (rp_stages p).

(** The stage a deadline leads to. *)
Definition deadline_next (p : RuleParams) (i : nat) : option nat :=
  match rp_stages p !! i with
  | None => None
  | Some s =>
      match st_ends s with
      | None => None
      | Some _ =>
          match st_then s with
          | Some t => stage_index_of p t
          | None => if (S i <? length (rp_stages p))%nat then Some (S i) else None
          end
      end
  end.

Definition deadline_waits (p : RuleParams) (i : nat) : bool :=
  match rp_stages p !! i with
  | Some s =>
      match st_ends s with
      | Some d => bool_decide (dl_basis d = BasisStage) && (dl_secs d >. f_zero)
      | None => false
      end
  | None => false
  end.

(** The walk from [start]; the path only ever gains distinct stages, so the number of
    stages is fuel enough.  [Some path] is a loop back to [start] that nowhere waits. *)
Fixpoint loop_walk (p : RuleParams) (fuel : nat) (start at_ : nat) (path : list nat) : option (list nat) :=
  match fuel with
  | O => None
  | S fuel =>
      match deadline_next p at_ with
      | None => None
      | Some n =>
          if (n =? start)%nat then
            if existsb (deadline_waits p) path then None else Some path
          else if contains path n then None
          else loop_walk p fuel start n (path ++ [n])
      end
  end.

Definition check_deadline_loops (p : RuleParams) : option (list nat) :=
  find_map (fun start => loop_walk p (length (rp_stages p)) start start [start])
    (seq 0 (length (rp_stages p))).
