(* ===== verification/Guards.v ===== *)
(** * Guards: the governance cap, the dead verdict and the duplicate-identity guard

    Module [Cap]: [cap.rs].  Module [Deadness]: [deadness.rs].  Module [DupeGuard]:
    [dupe_guard.rs], with the trade modes of [event.rs] that split its memory. *)

From S2P Require Export Float64.

Abbreviation Mint := string (only parsing).
Abbreviation IdentityHash := Z (only parsing).

Inductive TradeMode := Paper | Real.

#[export] Instance TradeMode_eq_dec : EqDecision TradeMode.
Proof. solve_decision. Defined.

Module Cap.
(** A decoded cap is a [u32]; unlimited is [u32::MAX]. *)
Definition UNLIMITED : Z := u32_max.

Definition zero_unlimited (stored : Z) : Z := if stored =? 0 then UNLIMITED else stored.

Definition allows (cap count : Z) : bool := count <? cap.

Definition is_unlimited (cap : Z) : bool := cap =? u32_max.

Definition bounded (cap : Z) : option Z := if is_unlimited cap then None else Some cap.

(** Decoding keeps the stored bound, reads zero as "no bound" (every count short of
    the counter's own maximum is allowed), and [bounded] inverts it. *)
Lemma zero_unlimited_spec stored :
  0 <= stored < u32_max ->
  (forall count, allows (zero_unlimited stored) count = (if stored =? 0 then count <? u32_max else count <? stored)) /\
  unwrap_or (bounded (zero_unlimited stored)) 0 = stored.
Proof.
  intros H. unfold zero_unlimited, bounded, is_unlimited, UNLIMITED, allows.
  destruct (stored =? 0) eqn:E; bool_to_prop.
  - rewrite Z.eqb_refl. simpl. split; [done|lia].
  - destruct (stored =? u32_max) eqn:E'; bool_to_prop; [lia|]. by split.
Qed.
End Cap.

Module Deadness.
Definition DEAD_MAX_LIQUIDITY_SOL : f64 := f_of_Z 30.
Definition DEAD_QUIET_SECS : Z := 300.
Definition TAIL_MARGIN_SECS : Z := 60.
Definition DEAD_MEANINGFUL_TRADE_SOL : f64 := f_dec 1 1.

Definition is_dead_verdict (reserves : option f64) (last_meaningful now : Ts) : bool :=
  let reserves_depleted := match reserves with Some sol => sol <. DEAD_MAX_LIQUIDITY_SOL | None => false end in
  if negb reserves_depleted then false
  else DEAD_QUIET_SECS <=? num_seconds (now - last_meaningful).

(** While the reserves and the quiet clock stand, a dead coin stays dead. *)
Lemma is_dead_verdict_stays reserves lm now now' :
  now <= now' -> is_dead_verdict reserves lm now = true -> is_dead_verdict reserves lm now' = true.
Proof.
  unfold is_dead_verdict. intros Hle.
  destruct reserves as [sol|]; [destruct (sol <. DEAD_MAX_LIQUIDITY_SOL)|]; cbn [negb]; try done.
  rewrite !Z.leb_le. unfold num_seconds, ns_per_sec. intros H.
  assert (Z.quot (now - lm) (10 ^ 9) <= Z.quot (now' - lm) (10 ^ 9)); [|lia].
  apply Z.quot_le_mono; lia.
Qed.

(** Dead iff the newest reserves are known and below the floor, and a full quiet
    period has passed. *)
Lemma is_dead_verdict_iff reserves lm now :
  is_dead_verdict reserves lm now = true <->
  (exists sol, reserves = Some sol /\ (sol <. DEAD_MAX_LIQUIDITY_SOL) = true) /\
  lm + dur_seconds DEAD_QUIET_SECS <= now.
Proof.
  unfold is_dead_verdict. assert (Hq : (DEAD_QUIET_SECS <=? num_seconds (now - lm)) = true <->
    lm + dur_seconds DEAD_QUIET_SECS <= now).
  { rewrite Z.leb_le. unfold num_seconds, dur_seconds, DEAD_QUIET_SECS.
    assert (Hp : 0 < ns_per_sec) by done. destruct (Z.le_gt_cases 0 (now - lm)) as [Hd|Hd].
    - rewrite Z.quot_div_nonneg by lia. split; intros H.
      + pose proof (Z.mul_div_le (now - lm) ns_per_sec Hp). nia.
      + apply Z.div_le_lower_bound; lia.
    - split; [|nia]. intros H. pose proof (Z.quot_le_mono (now - lm) 0 ns_per_sec Hp).
      rewrite Z.quot_0_l in H0 by lia. lia. }
  destruct reserves as [sol|]; simpl.
  - destruct (sol <. DEAD_MAX_LIQUIDITY_SOL) eqn:E; simpl.
    + rewrite Hq. split; [intros H; split; [by exists sol|done]|by intros [_ H]].
    + split; [done|]. intros [(s & [= <-] & H) _]. congruence.
  - split; [done|]. by intros [(s & ? & _) _].
Qed.
End Deadness.

Module DupeGuard.
Definition DEFAULT_WINDOW_HOURS : Z := 4.
Definition PRUNE_INTERVAL_SECS : Z := 60.
Definition MAX_MINTS_PER_IDENTITY : nat := 8.

(** One mode's memory: identity -> the mints traded under it, newest last. *)
Abbreviation Memory := (gmap IdentityHash (list (Mint * Ts))) (only parsing).

Record t := {
  enabled : bool;
  window : Duration;
  paper : Memory;
  real : Memory;
  next_prune_at : option Ts;
}.

Definition default : t := {|
  enabled := false; window := dur_hours DEFAULT_WINDOW_HOURS; paper := ∅; real := ∅;
  next_prune_at := None |}.

Definition set_policy (g : t) (on : bool) (window_hours : Z) : t :=
  let hours := if window_hours =? 0 then DEFAULT_WINDOW_HOURS else window_hours in
  {| enabled := on; window := dur_hours hours; paper := paper g; real := real g;
     next_prune_at := next_prune_at g |}.

Definition memory (g : t) (mode : TradeMode) : Memory :=
  match mode with Paper => paper g | Real => real g end.

Definition set_memory (g : t) (mode : TradeMode) (m : Memory) : t :=
  match mode with
  | Paper => {| enabled := enabled g; window := window g; paper := m; real := real g;
                next_prune_at := next_prune_at g |}
  | Real => {| enabled := enabled g; window := window g; paper := paper g; real := m;
               next_prune_at := next_prune_at g |}
  end.

Definition blocks (g : t) (mode : TradeMode) (identity : option IdentityHash) (mint : Mint) (now : Ts) : bool :=
  if negb (enabled g) then false
  else match identity with
  | None => false
  | Some id =>
      match memory g mode !! id with
      | None => false
      | Some entries =>
          let cutoff := now - window g in
          existsb (fun e => negb (bool_decide (e.1 = mint)) && (cutoff <? e.2)) entries
      end
  end.

(** The first entry of [mint] moved to [at_] when that is newer. *)
Fixpoint warm (entries : list (Mint * Ts)) (mint : Mint) (at_ : Ts) : option (list (Mint * Ts)) :=
  match entries with
  | [] => None
  | (m, t) :: rest =>
      if bool_decide (m = mint) then Some ((m, if t <? at_ then at_ else t) :: rest)
      else cons (m, t) <$> warm rest mint at_
  end.

Definition remember (entries : list (Mint * Ts)) (mint : Mint) (at_ : Ts) : list (Mint * Ts) :=
  match warm entries mint at_ with
  | Some entries' => entries'
  | None =>
      (if (MAX_MINTS_PER_IDENTITY <=? length entries)%nat then tail entries else entries) ++ [(mint, at_)]
  end.

Definition record (g : t) (mode : TradeMode) (identity : option IdentityHash) (mint : Mint) (at_ : Ts) : t :=
  if negb (enabled g) then g
  else match identity with
  | None => g
  | Some id =>
      let entries := unwrap_or (memory g mode !! id) [] in
      set_memory g mode (<[id := remember entries mint at_]> (memory g mode))
  end.

Definition prune_memory (cutoff : Ts) (m : Memory) : Memory :=
  omap (fun mints =>
    match List.filter (fun e => cutoff <? e.2) mints with [] => None | l => Some l end) m.

Definition prune (g : t) (now : Ts) : t :=
  if is_some_and (next_prune_at g) (fun t => now <? t) then g
  else
    let cutoff := now - window g in
    {| enabled := enabled g; window := window g; paper := prune_memory cutoff (paper g);
       real := prune_memory cutoff (real g);
       next_prune_at := Some (now + dur_seconds PRUNE_INTERVAL_SECS) |}.

(** ** Facts *)

(** What a memory holds against [mint] under [id] after [cutoff]. *)
Definition held_against (g : t) (mode : TradeMode) (id : IdentityHash) (mint : Mint) (cutoff : Ts) : Prop :=
  exists l m at_, memory g mode !! id = Some l /\ (m, at_) ∈ l /\ m <> mint /\ cutoff < at_.

Lemma blocks_iff g mode identity mint now :
  blocks g mode identity mint now = true <->
  enabled g = true /\ exists id, identity = Some id /\ held_against g mode id mint (now - window g).
Proof.
  unfold blocks, held_against. destruct (enabled g); simpl.
  2: { split; [done|]. by intros [? _]. }
  destruct identity as [id|]; [|split; [done|by intros (_ & ? & ? & _)]].
  destruct (memory g mode !! id) as [l|] eqn:E.
  - rewrite existsb_exists. split.
    + intros ([m t] & Hin & H). simpl in H. bool_to_prop. split; [done|].
      exists id. split; [done|]. exists l, m, t. split_and!; try done. by apply list_elem_of_In.
    + intros (_ & id' & [= <-] & l' & m & t & Hl & Hin & Hne & Hlt).
      rewrite E in Hl. injection Hl as <-.
      exists (m, t). split; [by apply list_elem_of_In|]. simpl.
      rewrite bool_decide_false by done. simpl. lia.
  - split; [done|]. intros (_ & id' & [= <-] & l' & m & t & Hl & _). congruence.
Qed.

Lemma memory_set_memory g mode m mode' :
  memory (set_memory g mode m) mode' = if bool_decide (mode = mode') then m else memory g mode'.
Proof. by destruct mode, mode'. Qed.

Lemma enabled_set_memory g mode m : enabled (set_memory g mode m) = enabled g.
Proof. by destruct mode. Qed.

Lemma window_set_memory g mode m : window (set_memory g mode m) = window g.
Proof. by destruct mode. Qed.

Lemma warm_elem entries mint at_ entries' m t :
  warm entries mint at_ = Some entries' -> m <> mint -> (m, t) ∈ entries' <-> (m, t) ∈ entries.
Proof.
  revert entries'. induction entries as [|[m0 t0] entries IH]; intros entries'; simpl; [done|].
  case_bool_decide as E.
  - intros [= <-] Hne. subst. rewrite !elem_of_cons. split; (intros [[= ? ?]|?]; [congruence|by right]).
  - destruct (warm entries mint at_) as [l|]; [|done]. intros [= <-] Hne.
    rewrite !elem_of_cons. by rewrite (IH l eq_refl Hne).
Qed.

Lemma warm_None entries mint at_ :
  warm entries mint at_ = None -> forall t, (mint, t) ∉ entries.
Proof.
  induction entries as [|[m0 t0] entries IH]; simpl; [intros _ t H; inversion H|].
  case_bool_decide; [done|]. destruct (warm entries mint at_); [done|]. intros _ t [[= ? ?]|Hin]%elem_of_cons.
  - congruence.
  - by apply (IH eq_refl t).
Qed.

Lemma warm_Some entries mint at_ entries' :
  warm entries mint at_ = Some entries' ->
  length entries' = length entries /\ exists t, (mint, t) ∈ entries' /\ at_ <= t.
Proof.
  revert entries'. induction entries as [|[m0 t0] entries IH]; intros entries'; simpl; [done|].
  case_bool_decide as E.
  - intros [= <-]. subst. split; [done|]. eexists. split; [left|]. destruct (t0 <? at_) eqn:L; bool_to_prop; lia.
  - destruct (warm entries mint at_) as [l|]; [|done]. intros [= <-].
    destruct (IH l eq_refl) as [Hlen (t & Hin & Ht)]. simpl. split; [by f_equal|].
    exists t. split; [by right|done].
Qed.

Lemma remember_length entries mint at_ :
  (length entries <= MAX_MINTS_PER_IDENTITY)%nat ->
  (length (remember entries mint at_) <= MAX_MINTS_PER_IDENTITY)%nat.
Proof.
  unfold remember. intros H. destruct (warm entries mint at_) as [l|] eqn:E.
  - apply warm_Some in E as [-> _]. done.
  - rewrite length_app. unfold MAX_MINTS_PER_IDENTITY in *.
    destruct (8 <=? length entries)%nat eqn:L.
    + apply Nat.leb_le in L. destruct entries; cbn [tail length] in *; lia.
    + apply Nat.leb_gt in L. cbn [length]. lia.
Qed.

(** The attempt is remembered: [mint] is in the list at [at_] or later. *)
Lemma remember_self entries mint at_ :
  exists t, (mint, t) ∈ remember entries mint at_ /\ at_ <= t.
Proof.
  unfold remember. destruct (warm entries mint at_) as [l|] eqn:E.
  - by apply warm_Some in E as [_ ?].
  - exists at_. split; [|lia]. apply elem_of_app. right. left.
Qed.

(** Below the retention limit nothing else is forgotten, and nothing is invented. *)
Lemma remember_others entries mint at_ m t :
  m <> mint -> (length entries < MAX_MINTS_PER_IDENTITY)%nat ->
  (m, t) ∈ remember entries mint at_ <-> (m, t) ∈ entries.
Proof.
  intros Hne Hlen. unfold remember. destruct (warm entries mint at_) as [l|] eqn:E.
  - by eapply warm_elem.
  - replace (MAX_MINTS_PER_IDENTITY <=? length entries)%nat with false by (symmetry; by apply Nat.leb_gt).
    rewrite elem_of_app. split; [|by left]. intros [?|H]; [done|].
    apply elem_of_cons in H as [[= ? ?]|H]; [congruence|inversion H].
Qed.

Lemma prune_memory_lookup cutoff (m : Memory) id :
  prune_memory cutoff m !! id =
    (m !! id ≫= fun l => match List.filter (fun e => cutoff <? e.2) l with [] => None | l => Some l end).
Proof. unfold prune_memory. by rewrite lookup_omap. Qed.

Lemma held_against_prune_memory g g' mode id mint cutoff cut0 :
  cut0 <= cutoff -> memory g' mode = prune_memory cut0 (memory g mode) ->
  held_against g' mode id mint cutoff <-> held_against g mode id mint cutoff.
Proof.
  intros Hle Hg. unfold held_against. rewrite Hg, prune_memory_lookup.
  destruct (memory g mode !! id) as [l|]; simpl.
  2: { split; intros (? & ? & ? & ? & _); done. }
  assert (Hin : forall m t, (m, t) ∈ List.filter (fun e : Mint * Ts => cut0 <? e.2) l <-> (m, t) ∈ l /\ cut0 < t).
  { intros m t. rewrite !list_elem_of_In, filter_In. simpl. by rewrite Z.ltb_lt. }
  split.
  - intros (l' & m & t & Hl & Hm & Hne & Hlt). exists l, m, t. split_and!; try done.
    destruct (List.filter _ l) as [|e l0] eqn:E; [done|]. injection Hl as <-. by apply Hin.
  - intros (l' & m & t & [= <-] & Hm & Hne & Hlt).
    assert (Hf : (m, t) ∈ List.filter (fun e : Mint * Ts => cut0 <? e.2) l) by (apply Hin; split; [done|lia]).
    destruct (List.filter _ l) as [|e l0] eqn:E; [inversion Hf|].
    exists (e :: l0), m, t. done.
Qed.

(** Pruning changes no later verdict: what it drops was already outside every window
    from [now] on. *)
Lemma prune_neutral g now mode identity mint now' :
  now <= now' -> blocks (prune g now) mode identity mint now' = blocks g mode identity mint now'.
Proof.
  intros Hle. apply eq_bool_prop_intro. rewrite !Is_true_true, !blocks_iff.
  unfold prune. destruct (is_some_and _ _); [done|].
  match goal with |- context [enabled ?x] => set (g' := x) end.
  change (enabled g') with (enabled g). change (window g') with (window g).
  assert (H : forall id, held_against g' mode id mint (now' - window g) <->
                         held_against g mode id mint (now' - window g)).
  { intros id. apply (held_against_prune_memory _ _ _ _ _ _ (now - window g)); [lia|]. by destruct mode. }
  split; intros (He & id & Hid & Hh); (split; [done|]); exists id; (split; [done|]); by apply H.
Qed.

(** The memory never holds more than eight mints under one identity. *)
Definition bounded_memory (g : t) : Prop :=
  forall mode id l, memory g mode !! id = Some l -> (length l <= MAX_MINTS_PER_IDENTITY)%nat.

Lemma bounded_default : bounded_memory default.
Proof. intros [] id l; simpl; by rewrite lookup_empty. Qed.

Lemma bounded_record g mode identity mint at_ :
  bounded_memory g -> bounded_memory (record g mode identity mint at_).
Proof.
  intros Hb mode' id l. unfold record. destruct (enabled g); simpl; [|apply Hb].
  destruct identity as [i|]; [|apply Hb]. rewrite memory_set_memory.
  case_bool_decide as E; [subst mode'|apply Hb]. rewrite lookup_insert. case_decide as Ei; [|apply Hb].
  subst i. intros [= <-]. apply remember_length.
  destruct (memory g mode !! id) as [l0|] eqn:El; simpl; [by eapply Hb|unfold MAX_MINTS_PER_IDENTITY; lia].
Qed.

Lemma filter_length_le {A} (f : A -> bool) l : (length (List.filter f l) <= length l)%nat.
Proof. induction l as [|x l IH]; simpl; [done|]. destruct (f x); simpl; lia. Qed.

Lemma bounded_prune g now : bounded_memory g -> bounded_memory (prune g now).
Proof.
  intros Hb mode id l. unfold prune. destruct (is_some_and _ _); [apply Hb|].
  assert (Hm : forall m : Memory, (forall l', m !! id = Some l' -> (length l' <= MAX_MINTS_PER_IDENTITY)%nat) ->
    prune_memory (now - window g) m !! id = Some l -> (length l <= MAX_MINTS_PER_IDENTITY)%nat).
  { intros m Hl. rewrite prune_memory_lookup. destruct (m !! id) as [l'|]; simpl; [|done].
    destruct (List.filter _ l') as [|e l0] eqn:E; [done|]. intros [= <-]. rewrite <- E.
    pose proof (filter_length_le (fun e : Mint * Ts => now - window g <? e.2) l'). specialize (Hl l' eq_refl). lia. }
  destruct mode; simpl; apply Hm; intros l'; [apply (Hb Paper)|apply (Hb Real)].
Qed.

(** An attempt on [mint] blocks, from then until the window has passed, every other
    mint of the identity in that mode. *)
Lemma record_blocks g mode id mint at_ mint' now :
  enabled g = true -> mint' <> mint -> now < at_ + window g ->
  blocks (record g mode (Some id) mint at_) mode (Some id) mint' now = true.
Proof.
  intros He Hne Hlt. apply blocks_iff. unfold record. rewrite He. simpl.
  rewrite enabled_set_memory, window_set_memory. split; [done|]. exists id. split; [done|].
  destruct (remember_self (unwrap_or (memory g mode !! id) []) mint at_) as (t & Hin & Ht).
  exists (remember (unwrap_or (memory g mode !! id) []) mint at_), mint, t.
  rewrite memory_set_memory, bool_decide_true, lookup_insert_eq by done.
  split_and!; [done|done|congruence|lia].
Qed.

(** An attempt never changes what the other mode, another identity or its own mint is
    told. *)
Lemma record_other g mode id mint at_ mode' id' mint' now :
  mode' <> mode \/ id' <> id ->
  blocks (record g mode (Some id) mint at_) mode' (Some id') mint' now =
  blocks g mode' (Some id') mint' now.
Proof.
  intros Hne. unfold record. destruct (enabled g) eqn:He; simpl; [|done].
  unfold blocks. rewrite enabled_set_memory, window_set_memory, memory_set_memory, He. simpl.
  case_bool_decide as E; [|done]. subst. destruct Hne as [|Hne]; [done|].
  by rewrite lookup_insert_ne by congruence.
Qed.
End DupeGuard.
