(* ===== verification/Events.v ===== *)
(** * Events: the fold's input and output vocabulary

    [event.rs], with the two records of [arm.rs] an effect carries ([MonoBound],
    [EntryBlockers]).  Ids are the numbers the source wraps; a mint is its address. *)

From S2P Require Export Guards RuleParams Fingerprint.

Abbreviation RuleId := Z (only parsing).
Abbreviation PositionId := Z (only parsing).

Record IntentId := { i_rule : RuleId; i_mint : Mint; i_seq : Z }.

#[export] Instance IntentId_eq_dec : EqDecision IntentId.
Proof. solve_decision. Defined.

Inductive ExitReason :=
  | TakeProfit | StopLoss | ExitLine (label : string) | ExitDead | ExitManual | ExitMigrated.

#[export] Instance ExitReason_eq_dec : EqDecision ExitReason.
Proof. solve_decision. Defined.

Definition exit_label (r : ExitReason) : string :=
  match r with
  | TakeProfit => "TakeProfit"
  | StopLoss => "StopLoss"
  | ExitDead => "Dead"
  | ExitManual => "Manual"
  | ExitMigrated => "Migrated"
  | ExitLine label => label
  end.

Definition is_line (r : ExitReason) : bool := match r with ExitLine _ => true | _ => false end.

Inductive FillFailReason := Reverted | Timeout | Unconfirmed | Fatal.

#[export] Instance FillFailReason_eq_dec : EqDecision FillFailReason.
Proof. solve_decision. Defined.

Record Fill := { fl_price : f64; fl_sol : f64; fl_token_amount : Z; fl_at : Ts }.

Record LaunchBuildStat := { lb_ix_hash : Z; lb_launches : Z; lb_runners : Z }.

Record BuildBreadth := { bb_build_hash : Z; bb_app_buyers : Z; bb_app_buys : Z }.

Definition runner_bps (s : LaunchBuildStat) : Z :=
  if lb_launches s =? 0 then 0 else wrap_u 32 (lb_runners s * 10000 / lb_launches s).

Record LoadedRule := {
  lr_id : RuleId;
  lr_fingerprint_id : FingerprintId;
  lr_trade_mode : TradeMode;
  lr_buy_amount_lamports : Z;
  lr_max_concurrent_tokens : Z;
  lr_max_total_tokens : Z;
  lr_params : RuleParams;
  lr_entry_enabled : bool;
}.

Definition concurrent_cap_of (r : LoadedRule) : Z := Cap.zero_unlimited (lr_max_concurrent_tokens r).
Definition total_cap_of (r : LoadedRule) : Z := Cap.zero_unlimited (lr_max_total_tokens r).

Record ManualExit := { me_tp_pct : option f64; me_sl_pct : option f64 }.

Definition manual_exit_is_some (e : ManualExit) : bool := is_someb (me_tp_pct e) || is_someb (me_sl_pct e).

Inductive Portion := PAll | BpsOfInitial (bps : Z) | BpsOfRemaining (bps : Z).

#[export] Instance Portion_eq_dec : EqDecision Portion.
Proof. solve_decision. Defined.

Definition is_partial (p : Portion) : bool := match p with PAll => false | _ => true end.

Definition token_amount (p : Portion) (initial sold : Z) : Z :=
  let remaining := sat_sub initial sold in
  match p with
  | PAll => remaining
  | BpsOfInitial bps => Z.min (wrap_u 64 (initial * bps / 10000)) remaining
  | BpsOfRemaining bps =>
      let want := wrap_u 64 (remaining * bps / 10000) in
      let want := if (want =? 0) && (0 <? remaining) && (0 <? bps) then 1 else want in
      Z.min want remaining
  end.

(** ** The input stream *)

Inductive Event {TagDoc : Type} :=
  | TokenCreated (mint : Mint) (fp : TokenFingerprint) (at_ : Ts) (creator_wallet_hash : option Z)
      (identity : option IdentityHash) (creation_slot : option Z)
  | FirstSlotSettled (mint : Mint) (buy_lamports sell_lamports : Z) (at_ : Ts)
      (creator_stand_in_wallet_hash : option Z)
  | Trade (mint : Mint) (trade : TradeLite)
  | Tick (now : Ts)
  | FillConfirmed (intent : IntentId) (fill : Fill)
  | FillFailed (intent : IntentId) (reason : FillFailReason) (at_ : option Ts)
  | Migrated (mint : Mint) (at_ : Ts)
  | RulesReloaded (rules : list LoadedRule) (fps : list (Fingerprint TagDoc)) (own_wallets : gset Z)
  | LaunchBuildStatsReloaded (stats : list LaunchBuildStat)
  | BuildBreadthReloaded (breadth : list BuildBreadth)
  | ManualBuy (mint : Mint) (rule : RuleId) (lamports : Z) (at_ : Ts) (exit : option ManualExit)
  | SetManualExit (position : PositionId) (exit : option ManualExit)
  | ManualClose (position : PositionId) (portion : Portion)
  | ExternallyCleared (position : PositionId) (fill : Fill).
Arguments Event : clear implicits.

(** ** The output stream *)

Inductive PositionStatus :=
  | StBuySubmitted | StHolding | StExitPending | StEnd | StEntryFailed | StExitStuck | StExitUnconfirmed.

#[export] Instance PositionStatus_eq_dec : EqDecision PositionStatus.
Proof. solve_decision. Defined.

Record PositionDelta := {
  pd_position : PositionId;
  pd_rule : RuleId;
  pd_mint : Mint;
  pd_status : PositionStatus;
  pd_fill : option Fill;
  pd_reason : option ExitReason;
  pd_intent : option IntentId;
  pd_stage : option Z;
  pd_stage_since : option Ts;
}.

Inductive DisarmReason := DisDead | DisMigrated | DisUnsatisfiable | DisPaused | DisDuplicateIdentity.

#[export] Instance DisarmReason_eq_dec : EqDecision DisarmReason.
Proof. solve_decision. Defined.

(** A monotonic upper bound of an entry condition, and what an entry was short of. *)
Record MonoBound := { mb_r : MetricRef; mb_threshold : f64; mb_cross_at_ge : bool }.

Record BlockedReq := { br_r : MetricRef; br_value : f64; br_conds : ConditionExpr }.

Record EntryBlockers := { eb_killed_by : MonoBound; eb_unmet : list BlockedReq }.

Inductive ArmedStateTag := TagArmed | TagDisarmed (reason : DisarmReason).

Record ArmedDelta := {
  ar_mint : Mint; ar_rule : RuleId; ar_state : ArmedStateTag; ar_detail : option EntryBlockers;
}.

Record StageMove := { sm_position : PositionId; sm_rule : RuleId; sm_mint : Mint; sm_stage : Z; sm_since : Ts }.

Inductive Effect :=
  | SubmitBuy (intent : IntentId) (rule : RuleId) (mint : Mint) (lamports : Z)
  | SubmitSell (intent : IntentId) (position : PositionId) (reason : ExitReason) (portion : Portion)
  | PositionUpdate (delta : PositionDelta)
  | ArmedChanged (delta : ArmedDelta)
  | StageMoved (move : StageMove).

Abbreviation Effects := (list Effect) (only parsing).

(** ** Facts *)

(** A sell never asks for more than is held, and asks for something whenever it is of a
    bag that holds something. *)
Lemma token_amount_bounds p initial sold :
  0 <= token_amount p initial sold <= sat_sub initial sold.
Proof.
  unfold token_amount, sat_sub. pose proof (wrap_u_bound 64 (initial * 0)).
  destruct p as [|bps|bps]; [lia| |].
  - pose proof (wrap_u_bound 64 (initial * bps / 10000)). lia.
  - pose proof (wrap_u_bound 64 (Z.max 0 (initial - sold) * bps / 10000)).
    destruct (_ && _); lia.
Qed.

Lemma token_amount_progress p initial sold :
  0 < sat_sub initial sold <= u64_max ->
  match p with PAll => True | BpsOfInitial _ => False | BpsOfRemaining bps => 0 < bps <= 10000 end ->
  0 < token_amount p initial sold.
Proof.
  unfold token_amount. intros Hr Hp. destruct p as [|bps|bps]; [lia|done|].
  set (r := sat_sub initial sold) in *. cbv zeta.
  destruct (wrap_u 64 (r * bps / 10000) =? 0) eqn:E; bool_to_prop.
  - replace (0 <? r) with true by lia. replace (0 <? bps) with true by lia. simpl. lia.
  - simpl. pose proof (wrap_u_bound 64 (r * bps / 10000)). lia.
Qed.

(** A whole sequence of sells, each sized off what the earlier ones left. *)
Fixpoint sell_all (initial sold : Z) (ps : list Portion) : Z :=
  match ps with
  | [] => sold
  | p :: ps => sell_all initial (sold + token_amount p initial sold) ps
  end.

Lemma sell_all_bounds initial sold ps :
  0 <= sold <= initial -> sold <= sell_all initial sold ps <= initial.
Proof.
  revert sold. induction ps as [|p ps IH]; intros sold H; simpl; [lia|].
  pose proof (token_amount_bounds p initial sold). unfold sat_sub in *.
  specialize (IH (sold + token_amount p initial sold)). lia.
Qed.

Lemma sell_all_closes initial sold ps :
  0 <= sold <= initial -> sell_all initial sold (ps ++ [PAll]) = initial.
Proof.
  revert sold. induction ps as [|p ps IH]; intros sold H; simpl.
  - unfold sat_sub. lia.
  - pose proof (token_amount_bounds p initial sold). unfold sat_sub in *. apply IH. lia.
Qed.

(** A day's runners never outnumber its launches, so the share is at most 100 %, and no
    cast loses a bit. *)
Lemma runner_bps_bounds s :
  0 <= lb_runners s <= lb_launches s -> 0 <= runner_bps s <= 10000 /\
  (lb_launches s <> 0 -> runner_bps s = lb_runners s * 10000 / lb_launches s).
Proof.
  intros H. unfold runner_bps. destruct (lb_launches s =? 0) eqn:E; bool_to_prop; [split; [lia|done]|].
  assert (Hd : 0 <= lb_runners s * 10000 / lb_launches s <= 10000).
  { split; [apply Z.div_pos; lia|]. apply Z.div_le_upper_bound; lia. }
  rewrite wrap_u_small by lia. split; [done|done].
Qed.
