(* ===== verification/Ledger.v ===== *)
(** * Ledger: the contract of the fold with the executor

    What the strategy engine promises about positions, without any of its strategy: a book
    of positions, each buying, held or selling, and the two id generators.  A step says
    what one transition may do to the book and which effects report it.  [LedgerRefine]
    shows that every event of [reduce] is a sequence of these steps; the theorems here are
    about every sequence of steps. *)

From S2P Require Export Events.

Inductive Phase := Buying (i : IntentId) (attempts : Z) | Held | Selling (i : IntentId) (attempts : Z).

Record Pos := { po_mint : Mint; po_rule : RuleId; po_phase : Phase }.

Record Ledger := { lg_book : gmap PositionId Pos; lg_intents : Z; lg_positions : Z }.

Definition empty_ledger : Ledger := {| lg_book := ∅; lg_intents := 0; lg_positions := 0 |}.

(** The effects a ledger sees. *)
Inductive Report :=
  | VBuy (i : IntentId)
  | VSell (i : IntentId) (p : PositionId)
  | VStatus (p : PositionId) (m : Mint) (r : RuleId) (s : PositionStatus).

Definition report (e : Effect) : option Report :=
  match e with
  | SubmitBuy i _ _ _ => Some (VBuy i)
  | SubmitSell i p _ _ => Some (VSell i p)
  | PositionUpdate d => Some (VStatus (pd_position d) (pd_mint d) (pd_rule d) (pd_status d))
  | ArmedChanged _ | StageMoved _ => None
  end.

Definition reports (fx : list Effect) : list Report := omap report fx.

Definition open_count (b : gmap PositionId Pos) (r : RuleId) : Z :=
  Z.of_nat (size (filter (fun kv => po_rule kv.2 = r) b)).

Definition holds_pair (b : gmap PositionId Pos) (m : Mint) (r : RuleId) : Prop :=
  exists p pos, b !! p = Some pos /\ po_mint pos = m /\ po_rule pos = r.

Definition set_phase (pos : Pos) (ph : Phase) : Pos :=
  {| po_mint := po_mint pos; po_rule := po_rule pos; po_phase := ph |}.

Definition fresh_intent (L : Ledger) (pos : Pos) : IntentId :=
  {| i_rule := po_rule pos; i_mint := po_mint pos; i_seq := lg_intents L + 1 |}.

Definition rephase (L : Ledger) (p : PositionId) (pos : Pos) (ph : Phase) (issued : Z) : Ledger :=
  {| lg_book := <[p := set_phase pos ph]> (lg_book L); lg_intents := lg_intents L + issued;
     lg_positions := lg_positions L |}.

Definition close (L : Ledger) (p : PositionId) : Ledger :=
  {| lg_book := delete p (lg_book L); lg_intents := lg_intents L; lg_positions := lg_positions L |}.

Definition status (p : PositionId) (pos : Pos) (s : PositionStatus) : Report :=
  VStatus p (po_mint pos) (po_rule pos) s.

Section steps.
(** Whether a rule that holds so many positions may open one more. *)
Variable allow : RuleId -> Z -> Prop.

Inductive lstep (L : Ledger) : list Report -> Ledger -> Prop :=
  | LsOpen m r :
      let pos := {| po_mint := m; po_rule := r; po_phase := Held |} in
      let i := fresh_intent L pos in
      let p := lg_positions L + 1 in
      ~ holds_pair (lg_book L) m r -> allow r (open_count (lg_book L) r) ->
      lstep L [VBuy i; status p pos StBuySubmitted]
        {| lg_book := <[p := set_phase pos (Buying i 1)]> (lg_book L);
           lg_intents := lg_intents L + 1; lg_positions := p |}
  | LsRetryBuy p pos i n :
      lg_book L !! p = Some pos -> po_phase pos = Buying i n -> n < 3 ->
      lstep L [VBuy (fresh_intent L pos)] (rephase L p pos (Buying (fresh_intent L pos) (n + 1)) 1)
  | LsFilled p pos i n :
      lg_book L !! p = Some pos -> po_phase pos = Buying i n ->
      lstep L [status p pos StHolding] (rephase L p pos Held 0)
  | LsFilledAndSold p pos i n :
      lg_book L !! p = Some pos -> po_phase pos = Buying i n ->
      lstep L [status p pos StHolding; status p pos StExitPending; VSell (fresh_intent L pos) p]
        (rephase L p pos (Selling (fresh_intent L pos) 1) 1)
  | LsSell p pos :
      lg_book L !! p = Some pos -> po_phase pos = Held ->
      lstep L [VSell (fresh_intent L pos) p; status p pos StExitPending]
        (rephase L p pos (Selling (fresh_intent L pos) 1) 1)
  | LsPartSold p pos i n :
      lg_book L !! p = Some pos -> po_phase pos = Selling i n ->
      lstep L [status p pos StHolding] (rephase L p pos Held 0)
  | LsRetrySell p pos i n :
      lg_book L !! p = Some pos -> po_phase pos = Selling i n -> n < 5 ->
      lstep L [VSell (fresh_intent L pos) p] (rephase L p pos (Selling (fresh_intent L pos) (n + 1)) 1)
  | LsSold p pos i n :
      lg_book L !! p = Some pos -> po_phase pos = Selling i n ->
      lstep L [status p pos StEnd] (close L p)
  | LsCleared p pos :
      lg_book L !! p = Some pos -> po_phase pos = Held ->
      lstep L [status p pos StEnd] (close L p)
  | LsEntryFailed p pos i n :
      lg_book L !! p = Some pos -> po_phase pos = Buying i n ->
      lstep L [status p pos StEntryFailed] (close L p)
  | LsGivenUp p pos i n s :
      lg_book L !! p = Some pos -> po_phase pos = Selling i n -> s = StExitStuck \/ s = StExitUnconfirmed ->
      lstep L [status p pos s] (close L p).

Inductive lsteps : Ledger -> list Report -> Ledger -> Prop :=
  | lsteps_nil L : lsteps L [] L
  | lsteps_cons L v1 L1 v2 L2 : lstep L v1 L1 -> lsteps L1 v2 L2 -> lsteps L (v1 ++ v2) L2.

Lemma lsteps_one L v L' : lstep L v L' -> lsteps L v L'.
Proof. intros Hs. rewrite <- (app_nil_r v). econstructor; [done | constructor]. Qed.

Lemma lsteps_app L v1 L1 v2 L2 : lsteps L v1 L1 -> lsteps L1 v2 L2 -> lsteps L (v1 ++ v2) L2.
Proof. induction 1; intros ?; [done|]. rewrite <- app_assoc. econstructor; eauto. Qed.

(** An invariant of single steps, relating the reports made so far to the ledger. *)
Lemma lsteps_ind_inv (P : list Report -> Ledger -> Prop) L0 v0 v L :
  (forall w L1 v1 L2, P w L1 -> lstep L1 v1 L2 -> P (w ++ v1) L2) ->
  P v0 L0 -> lsteps L0 v L -> P (v0 ++ v) L.
Proof.
  intros Hp H0 Hs. revert v0 H0.
  induction Hs as [|L1 v1 L2 v2 L3 H1 H2 IH]; intros v0 H0; [by rewrite app_nil_r|].
  rewrite app_assoc. by apply IH, (Hp _ L1).
Qed.
End steps.

Lemma lsteps_allow (P Q : RuleId -> Z -> Prop) L v L' :
  (forall r n, P r n -> Q r n) -> lsteps P L v L' -> lsteps Q L v L'.
Proof.
  intros Hpq. induction 1 as [|L1 v1 L2 v2 L3 H1 H2 IH]; [constructor|].
  apply lsteps_cons with L2; [|done].
  destruct H1; solve [econstructor; eauto].
Qed.

(** ** Counting positions *)

Lemma open_count_delete b p pos r :
  b !! p = Some pos -> open_count (delete p b) r = open_count b r - (if po_rule pos =? r then 1 else 0).
Proof.
  intros Hb. unfold open_count. rewrite map_filter_delete. destruct (Z.eqb_spec (po_rule pos) r) as [Hr|Hr].
  - assert (Hf : filter (fun kv : PositionId * Pos => po_rule kv.2 = r) b !! p = Some pos)
      by by apply map_lookup_filter_Some.
    rewrite map_size_delete, Hf. enough (size (filter (fun kv : PositionId * Pos => po_rule kv.2 = r) b) <> 0)%nat by lia.
    apply map_size_non_empty_iff. intros He. by rewrite He, lookup_empty in Hf.
  - rewrite delete_id; [lia|]. apply map_lookup_filter_None. right. naive_solver.
Qed.

Lemma open_count_insert b p pos r :
  b !! p = None -> open_count (<[p := pos]> b) r = open_count b r + (if po_rule pos =? r then 1 else 0).
Proof.
  intros Hb. pose proof (open_count_delete (<[p := pos]> b) p pos r (lookup_insert_eq _ _ _)) as Hd.
  rewrite delete_insert_id in Hd by done. lia.
Qed.

Lemma open_count_rephase b p pos ph r :
  b !! p = Some pos -> open_count (<[p := set_phase pos ph]> b) r = open_count b r.
Proof.
  intros Hb. pose proof (open_count_delete b p pos r Hb) as H1.
  pose proof (open_count_delete (<[p := set_phase pos ph]> b) p _ r (lookup_insert_eq _ _ _)) as H2.
  rewrite delete_insert_eq in H2. simpl in H2. lia.
Qed.

Lemma open_count_pos b r : 0 <= open_count b r.
Proof. unfold open_count. lia. Qed.

(** ** Well-formed ledgers *)

Definition pending_ok (L : Ledger) (pos : Pos) (i : IntentId) : Prop :=
  i_rule i = po_rule pos /\ i_mint i = po_mint pos /\ 1 <= i_seq i <= lg_intents L.

Definition phase_ok (L : Ledger) (pos : Pos) : Prop :=
  match po_phase pos with
  | Buying i n => pending_ok L pos i /\ 1 <= n <= 3
  | Held => True
  | Selling i n => pending_ok L pos i /\ 1 <= n <= 5
  end.

Record ledger_ok (L : Ledger) : Prop := {
  ok_seqs : 0 <= lg_intents L /\ 0 <= lg_positions L;
  ok_ids : forall p pos, lg_book L !! p = Some pos -> 1 <= p <= lg_positions L;
  ok_phases : forall p pos, lg_book L !! p = Some pos -> phase_ok L pos;
  ok_pairs : forall p q pos pos', lg_book L !! p = Some pos -> lg_book L !! q = Some pos' ->
    po_mint pos = po_mint pos' -> po_rule pos = po_rule pos' -> p = q;
}.

Lemma empty_ledger_ok : ledger_ok empty_ledger.
Proof. split; [done | intros p; intros; by destruct (lookup_empty_Some p pos) ..]. Qed.

Lemma phase_ok_later L L' pos : lg_intents L <= lg_intents L' -> phase_ok L pos -> phase_ok L' pos.
Proof.
  unfold phase_ok, pending_ok. intros ?. destruct (po_phase pos); [|done|]; intros [(? & ? & ?) ?]; split_and!; lia || done.
Qed.

(** A position that changes phase keeps the ledger well formed. *)
Lemma rephase_ok L p pos ph k :
  ledger_ok L -> lg_book L !! p = Some pos -> 0 <= k ->
  phase_ok (rephase L p pos ph k) (set_phase pos ph) -> ledger_ok (rephase L p pos ph k).
Proof.
  intros HL Hp Hk Hph. split; simpl.
  - destruct (ok_seqs _ HL). lia.
  - intros q pos' Hq. apply lookup_insert_Some in Hq as [[<- _]|[_ Hq]]; [eapply ok_ids; eauto | by eapply ok_ids].
  - intros q pos' Hq. apply lookup_insert_Some in Hq as [[<- <-]|[_ Hq]]; [done|].
    eapply phase_ok_later; [|by eapply ok_phases]. simpl. lia.
  - intros q1 q2 pos1 pos2 H1 H2.
    apply lookup_insert_Some in H1 as [[<- <-]|[? H1]]; apply lookup_insert_Some in H2 as [[<- <-]|[? H2]]; simpl;
      [done | by intros; eapply ok_pairs; eauto ..].
Qed.

Lemma close_ok L p : ledger_ok L -> ledger_ok (close L p).
Proof.
  intros HL. split; simpl.
  - apply (ok_seqs _ HL).
  - intros q pos [_ Hq]%lookup_delete_Some. by eapply ok_ids.
  - intros q pos [_ Hq]%lookup_delete_Some. exact (ok_phases _ HL _ _ Hq).
  - intros q1 q2 pos1 pos2 [_ H1]%lookup_delete_Some [_ H2]%lookup_delete_Some. by eapply ok_pairs.
Qed.

Lemma fresh_pending L pos ph p k :
  0 <= lg_intents L -> k = 1 -> pending_ok (rephase L p pos ph k) (set_phase pos ph) (fresh_intent L pos).
Proof. intros ? ->. unfold pending_ok; simpl. split_and!; lia || done. Qed.

Lemma lstep_ok allow L v L' : lstep allow L v L' -> ledger_ok L -> ledger_ok L'.
Proof.
  intros Hs HL. pose proof (ok_seqs _ HL) as [Hi Hp].
  destruct Hs as [m r pos i p Hnew _|p pos i n Hb Hph ?|p pos i n Hb Hph|p pos i n Hb Hph|p pos Hb Hph
    |p pos i n Hb Hph|p pos i n Hb Hph ?|p pos i n Hb Hph|p pos Hb Hph|p pos i n Hb Hph|p pos i n s Hb Hph ?].
  2-7: pose proof (ok_phases _ HL _ _ Hb) as Hok; unfold phase_ok in Hok; rewrite Hph in Hok;
    apply rephase_ok; [done|done|lia|]; unfold phase_ok; simpl;
    first [exact I | destruct_and?; split; [by apply fresh_pending | lia]].
  2-5: by apply close_ok.
  split; simpl; [lia|..].
  - intros q pos' Hq. apply lookup_insert_Some in Hq as [[<- _]|[_ Hq]]; [lia|].
    pose proof (ok_ids _ HL _ _ Hq). lia.
  - intros q pos' Hq. apply lookup_insert_Some in Hq as [[<- <-]|[_ Hq]].
    + unfold phase_ok, pending_ok; simpl. split_and!; lia || done.
    + eapply phase_ok_later; [|by eapply ok_phases]. simpl. lia.
  - intros q1 q2 pos1 pos2 H1 H2.
    apply lookup_insert_Some in H1 as [[<- <-]|[? H1]]; apply lookup_insert_Some in H2 as [[<- <-]|[? H2]]; simpl;
      [done | intros; exfalso; apply Hnew; unfold holds_pair; eauto ..
      | by intros; eapply ok_pairs; eauto].
Qed.

(** ** The intents of a trace *)

Definition intents (v : list Report) : list IntentId :=
  omap (fun e => match e with VBuy i | VSell i _ => Some i | VStatus _ _ _ _ => None end) v.

Lemma intents_app v w : intents (v ++ w) = intents v ++ intents w.
Proof. apply omap_app. Qed.

(** One step issues the next number, or none. *)
Lemma lstep_intents allow L v L' :
  lstep allow L v L' ->
  (intents v = [] /\ lg_intents L' = lg_intents L) \/
  (exists i, intents v = [i] /\ i_seq i = lg_intents L + 1 /\ lg_intents L' = lg_intents L + 1).
Proof.
  destruct 1; simpl; rewrite ?Z.add_0_r; first [left; done | right; eexists; split_and!; done].
Qed.

(** The intents of a trace are numbered consecutively from the ledger's counter. *)
Lemma lsteps_intents allow L v L' :
  lsteps allow L v L' ->
  i_seq <$> intents v = seqZ (lg_intents L + 1) (lg_intents L' - lg_intents L) /\
  lg_intents L' = lg_intents L + Z.of_nat (length (intents v)).
Proof.
  induction 1 as [L|L v1 L1 v2 L2 H1 H2 [IH1 IH2]]; [by rewrite Z.sub_diag; split; [|simpl; lia]|].
  rewrite intents_app, fmap_app, length_app, IH1.
  destruct (lstep_intents _ _ _ _ H1) as [[-> HL]|(i & -> & Hi & HL)]; rewrite HL in *; simpl.
  - split; [done|lia].
  - split; [|lia]. rewrite (seqZ_cons (lg_intents L + 1)) by lia. rewrite Hi. do 2 f_equal; lia.
Qed.

Lemma seqZ_seq_inj (l : list IntentId) m n : i_seq <$> l = seqZ m n -> NoDup l.
Proof. intros Hl. apply (NoDup_fmap_1 i_seq). rewrite Hl. apply NoDup_seqZ. Qed.

(** ** The life of a position *)

Inductive Life := LNew | LBuying | LHeld | LSelling | LOver.

Inductive Mark := MSell | MStatus (s : PositionStatus).

(** What may be reported of a position next. *)
Definition advance (k : Mark) (l : Life) : option Life :=
  match l, k with
  | LNew, MStatus StBuySubmitted => Some LBuying
  | LBuying, MStatus StHolding => Some LHeld
  | LBuying, MStatus StEntryFailed => Some LOver
  | LHeld, MSell => Some LHeld
  | LHeld, MStatus StExitPending => Some LSelling
  | LHeld, MStatus StEnd => Some LOver
  | LSelling, MSell => Some LSelling
  | LSelling, MStatus StHolding => Some LHeld
  | LSelling, MStatus StEnd | LSelling, MStatus StExitStuck | LSelling, MStatus StExitUnconfirmed => Some LOver
  | _, _ => None
  end.

Definition mark_of (p : PositionId) (e : Report) : option Mark :=
  match e with
  | VBuy _ => None
  | VSell _ q => if q =? p then Some MSell else None
  | VStatus q _ _ s => if q =? p then Some (MStatus s) else None
  end.

Definition marks (p : PositionId) (v : list Report) : list Mark := omap (mark_of p) v.

Definition live (ks : list Mark) (l : option Life) : option Life := foldl (fun o k => o ≫= advance k) l ks.

Definition phase_life (ph : Phase) : Life :=
  match ph with Buying _ _ => LBuying | Held => LHeld | Selling _ _ => LSelling end.

Definition life_of (L : Ledger) (p : PositionId) : Life :=
  match lg_book L !! p with
  | Some pos => phase_life (po_phase pos)
  | None => if (1 <=? p) && (p <=? lg_positions L) then LOver else LNew
  end.

Lemma live_app ks ks' l : live (ks ++ ks') l = live ks' (live ks l).
Proof. apply foldl_app. Qed.

Lemma life_rephase L p pos ph k q :
  life_of (rephase L p pos ph k) q = if p =? q then phase_life ph else life_of L q.
Proof.
  unfold life_of; simpl. destruct (Z.eqb_spec p q) as [->|?]; [by rewrite lookup_insert_eq | by rewrite lookup_insert_ne].
Qed.

Lemma life_close L p pos q :
  ledger_ok L -> lg_book L !! p = Some pos ->
  life_of (close L p) q = if p =? q then LOver else life_of L q.
Proof.
  intros HL Hb. pose proof (ok_ids _ HL _ _ Hb). unfold life_of; simpl.
  destruct (Z.eqb_spec p q) as [->|?]; [rewrite lookup_delete_eq | by rewrite lookup_delete_ne].
  by replace ((1 <=? q) && (q <=? lg_positions L)) with true by lia.
Qed.

Lemma life_phase L p pos ph : lg_book L !! p = Some pos -> po_phase pos = ph -> life_of L p = phase_life ph.
Proof. unfold life_of. by intros -> ->. Qed.

(** Each step reports of a position exactly what its life allows. *)
Lemma lstep_life allow L v L' p :
  ledger_ok L -> lstep allow L v L' -> live (marks p v) (Some (life_of L p)) = Some (life_of L' p).
Proof.
  intros HL Hs. unfold marks.
  destruct Hs as [m r pos i q Hnew _|q pos i n Hb Hph ?|q pos i n Hb Hph|q pos i n Hb Hph|q pos Hb Hph
    |q pos i n Hb Hph|q pos i n Hb Hph ?|q pos i n Hb Hph|q pos Hb Hph|q pos i n Hb Hph|q pos i n s Hb Hph Hst];
    cbn [omap list_omap mark_of status].
  2-7: rewrite life_rephase; destruct (Z.eqb_spec q p) as [->|?]; [|done]; by rewrite (life_phase _ _ _ _ Hb Hph).
  2-5: rewrite (life_close _ _ _ _ HL Hb); destruct (Z.eqb_spec q p) as [->|?]; [|done];
    rewrite (life_phase _ _ _ _ Hb Hph); try destruct Hst as [-> | ->]; done.
  subst q. unfold life_of; simpl. destruct (Z.eqb_spec (lg_positions L + 1) p) as [Hq|Hne]; simpl.
  - rewrite Hq, lookup_insert_eq. destruct (lg_book L !! p) as [pos'|] eqn:Hp.
    + pose proof (ok_ids _ HL _ _ Hp). lia.
    + by replace ((1 <=? p) && (p <=? lg_positions L)) with false by lia.
  - rewrite lookup_insert_ne by done. destruct (lg_book L !! p); [done|].
    by replace (p <=? lg_positions L + 1) with (p <=? lg_positions L) by lia.
Qed.

Lemma lsteps_ok allow L v L' : lsteps allow L v L' -> ledger_ok L -> ledger_ok L'.
Proof. induction 1; eauto using lstep_ok. Qed.

Lemma lsteps_life allow L v L' p :
  lsteps allow L v L' -> ledger_ok L -> live (marks p v) (Some (life_of L p)) = Some (life_of L' p).
Proof.
  induction 1 as [|L1 v1 L2 v2 L3 H1 H2 IH]; intros HL; [done|].
  unfold marks. rewrite omap_app, live_app. fold (marks p v1) (marks p v2).
  rewrite (lstep_life _ _ _ _ p HL H1). eauto using lstep_ok.
Qed.

(** ** Retry budgets *)

Definition count (f : Report -> bool) (v : list Report) : Z := Z.of_nat (length (List.filter f v)).

Definition is_buy_of (m : Mint) (r : RuleId) (e : Report) : bool :=
  match e with VBuy i => bool_decide (i_mint i = m /\ i_rule i = r) | _ => false end.

Definition is_open_of (m : Mint) (r : RuleId) (e : Report) : bool :=
  match e with VStatus _ m' r' StBuySubmitted => bool_decide (m' = m /\ r' = r) | _ => false end.

Definition is_sell_of (p : PositionId) (e : Report) : bool := match e with VSell _ q => q =? p | _ => false end.

Definition is_exit_of (p : PositionId) (e : Report) : bool :=
  match e with VStatus q _ _ StExitPending => q =? p | _ => false end.

Lemma count_app f v w : count f (v ++ w) = count f v + count f w.
Proof. unfold count. rewrite List.filter_app, length_app. lia. Qed.

Lemma count_pos f v : 0 <= count f v.
Proof. unfold count. lia. Qed.

Lemma count_cons f e v : count f (e :: v) = (if f e then 1 else 0) + count f v.
Proof. unfold count. simpl. destruct (f e); simpl; lia. Qed.

Lemma count_nil f : count f [] = 0.
Proof. done. Qed.

(** The buys sent for a (coin, rule), with the retries its open buy has left, stay
    within three per position opened. *)
Definition buy_budget (m : Mint) (r : RuleId) (v : list Report) (L : Ledger) : Prop :=
  count (is_buy_of m r) v <= 3 * count (is_open_of m r) v /\
  forall p pos i n, lg_book L !! p = Some pos -> po_mint pos = m -> po_rule pos = r -> po_phase pos = Buying i n ->
    count (is_buy_of m r) v + (3 - n) <= 3 * count (is_open_of m r) v.

Definition sell_budget (p : PositionId) (v : list Report) (L : Ledger) : Prop :=
  count (is_sell_of p) v <= 5 * count (is_exit_of p) v /\
  forall pos i n, lg_book L !! p = Some pos -> po_phase pos = Selling i n ->
    count (is_sell_of p) v + (5 - n) <= 5 * count (is_exit_of p) v.

(** A step that sends no buy and opens none, and makes no position buying. *)
Lemma quiet_buy_budget m r w v L L' :
  count (is_buy_of m r) v = 0 -> count (is_open_of m r) v = 0 ->
  (forall p pos i n, lg_book L' !! p = Some pos -> po_phase pos = Buying i n -> lg_book L !! p = Some pos) ->
  buy_budget m r w L -> buy_budget m r (w ++ v) L'.
Proof.
  intros H1 H2 Hsub [Hb Hs]. unfold buy_budget. rewrite !count_app, H1, H2. split; [lia|].
  intros p pos i n Hp Hm Hr Hph. pose proof (Hs _ _ _ _ (Hsub _ _ _ _ Hp Hph) Hm Hr Hph). lia.
Qed.

Lemma rephase_sub L p pos ph k (Q : Phase -> Prop) :
  ~ Q ph -> forall q pos', lg_book (rephase L p pos ph k) !! q = Some pos' -> Q (po_phase pos') -> lg_book L !! q = Some pos'.
Proof. intros Hn q pos' Hq HQ. simpl in Hq. by apply lookup_insert_Some in Hq as [[<- <-]|[_ Hq]]. Qed.

Lemma close_sub L p q pos' : lg_book (close L p) !! q = Some pos' -> lg_book L !! q = Some pos'.
Proof. simpl. by intros [_ ?]%lookup_delete_Some. Qed.

Lemma lstep_buy_budget allow m r w L v L' :
  ledger_ok L -> buy_budget m r w L -> lstep allow L v L' -> buy_budget m r (w ++ v) L'.
Proof.
  intros HL HB Hs.
  destruct Hs as [m' r' pos i q Hnew _|q pos i n Hq Hph ?|q pos i n Hq Hph|q pos i n Hq Hph|q pos Hq Hph
    |q pos i n Hq Hph|q pos i n Hq Hph ?|q pos i n Hq Hph|q pos Hq Hph|q pos i n Hq Hph|q pos i n s Hq Hph Hst].
  3-7: apply (quiet_buy_budget _ _ _ _ L); [done|done| |done]; intros q' pos' i' n' H1 H2;
    (eapply (rephase_sub _ _ _ _ _ (fun ph => ph = Buying i' n')); [|exact H1|exact H2]; discriminate).
  3-6: apply (quiet_buy_budget _ _ _ _ L); [done|try destruct Hst as [-> | ->]; done| |done];
    intros q' pos' i' n' H1 _; by apply close_sub in H1.
  all: destruct HB as [Hb Hs]; unfold buy_budget; rewrite !count_app, !count_cons, !count_nil;
    cbn [is_buy_of is_open_of status fresh_intent i_mint i_rule]; case_bool_decide as Hd.
  - destruct Hd as [<- <-]. split; [simpl in *; rewrite bool_decide_true by done; lia|].
    simpl. rewrite bool_decide_true by done. intros p2 pos2 i2 n2 H2 Hm Hr Hph.
    apply lookup_insert_Some in H2 as [[_ <-]|[_ H2]]; [simplify_eq/=; lia|].
    exfalso. apply Hnew. unfold holds_pair. eauto.
  - simpl. rewrite bool_decide_false by done. split; [lia|]. intros p2 pos2 i2 n2 H2 Hm Hr Hph.
    apply lookup_insert_Some in H2 as [[_ <-]|[_ H2]]; [naive_solver|].
    pose proof (Hs _ _ _ _ H2 Hm Hr Hph). lia.
  - destruct Hd as [<- <-]. pose proof (Hs _ _ _ _ Hq eq_refl eq_refl Hph). split; [lia|].
    simpl. intros p2 pos2 i2 n2 H2 Hm Hr Hph2.
    apply lookup_insert_Some in H2 as [[_ <-]|[Hne H2]]; [simplify_eq/=; lia|].
    destruct Hne. by eapply ok_pairs.
  - split; [lia|]. simpl. intros p2 pos2 i2 n2 H2 Hm Hr Hph2.
    apply lookup_insert_Some in H2 as [[_ <-]|[Hne H2]]; [naive_solver|].
    pose proof (Hs _ _ _ _ H2 Hm Hr Hph2). lia.
Qed.

Lemma quiet_sell_budget p w v L L' :
  count (is_sell_of p) v = 0 -> count (is_exit_of p) v = 0 ->
  (forall pos i n, lg_book L' !! p = Some pos -> po_phase pos = Selling i n -> lg_book L !! p = Some pos) ->
  sell_budget p w L -> sell_budget p (w ++ v) L'.
Proof.
  intros H1 H2 Hsub [Hb Hs]. unfold sell_budget. rewrite !count_app, H1, H2. split; [lia|].
  intros pos i n Hp Hph. pose proof (Hs _ _ _ (Hsub _ _ _ Hp Hph) Hph). lia.
Qed.

(** A step that starts or repeats the sell of [q]. *)
Lemma selling_budget p w v L q pos i n :
  sell_budget p w L -> lg_book L !! q = Some pos ->
  count (is_sell_of p) v = (if q =? p then 1 else 0) ->
  count (is_exit_of p) v = (if n =? 1 then if q =? p then 1 else 0 else 0) ->
  (n = 1 \/ exists i', po_phase pos = Selling i' (n - 1)) -> n <= 5 ->
  sell_budget p (w ++ v) (rephase L q pos (Selling i n) 1).
Proof.
  intros [Hb Hs] Hq H1 H2 Hn Hn5. unfold sell_budget. rewrite !count_app, H1, H2. simpl.
  destruct (Z.eqb_spec q p) as [->|Hne].
  - assert (count (is_sell_of p) w + 1 + (5 - n) <= 5 * (count (is_exit_of p) w + (if n =? 1 then 1 else 0))).
    { destruct Hn as [-> | (i' & Hph)]; [simpl; lia|]. pose proof (Hs _ _ _ Hq Hph). destruct (Z.eqb_spec n 1); lia. }
    split; [lia|]. intros pos' i' n' H' Hph'. rewrite lookup_insert_eq in H'. simplify_eq/=. lia.
  - destruct (n =? 1); (split; [lia|]); intros pos' i' n' H' Hph'; rewrite lookup_insert_ne in H' by done;
      pose proof (Hs _ _ _ H' Hph'); lia.
Qed.

Lemma lstep_sell_budget allow p w L v L' :
  ledger_ok L -> sell_budget p w L -> lstep allow L v L' -> sell_budget p (w ++ v) L'.
Proof.
  intros HL HB Hs.
  destruct Hs as [m' r' pos i q Hnew _|q pos i n Hq Hph ?|q pos i n Hq Hph|q pos i n Hq Hph|q pos Hq Hph
    |q pos i n Hq Hph|q pos i n Hq Hph ?|q pos i n Hq Hph|q pos Hq Hph|q pos i n Hq Hph|q pos i n s Hq Hph Hst].
  8-11: apply (quiet_sell_budget _ _ _ L); [done|try destruct Hst as [-> | ->]; done| |done];
    intros pos' i' n' H1 _; by apply close_sub in H1.
  2,3,6: apply (quiet_sell_budget _ _ _ L); [done|done| |done]; intros pos' i' n' H1 H2;
    (eapply (rephase_sub _ _ _ _ _ (fun ph => ph = Selling i' n')); [|exact H1|exact H2]; discriminate).
  2,3: apply (selling_budget _ _ _ _ _ _ _ 1); rewrite ?count_cons, ?count_nil; simpl;
    [done|done|destruct (q =? p); done|destruct (q =? p); done|by left|lia].
  2: pose proof (ok_phases _ HL _ _ Hq) as Hok; unfold phase_ok in Hok; rewrite Hph in Hok;
    apply (selling_budget _ _ _ _ _ _ _ (n + 1)); rewrite ?count_cons, ?count_nil; simpl;
    [done|done|destruct (q =? p); done|by destruct (Z.eqb_spec (n + 1) 1); [lia|]
    |right; replace (n + 1 - 1) with n by lia; eauto|lia].
  apply (quiet_sell_budget _ _ _ L); [done|done| |done]. simpl. intros pos' i' n' H1 H2.
  by apply lookup_insert_Some in H1 as [[_ <-]|[_ H1]].
Qed.

Lemma lsteps_budgets allow v L :
  lsteps allow empty_ledger v L ->
  ledger_ok L /\ (forall m r, buy_budget m r v L) /\ (forall p, sell_budget p v L).
Proof.
  apply (lsteps_ind_inv allow
    (fun w L => ledger_ok L /\ (forall m r, buy_budget m r w L) /\ (forall p, sell_budget p w L)) _ []).
  - intros w L1 v1 L2 (H1 & H2 & H3) Hs.
    split_and!; intros; eauto using lstep_ok, lstep_buy_budget, lstep_sell_budget.
  - split_and!; [apply empty_ledger_ok|..]; intros; (split; [done|]); intros;
      by match goal with H : lg_book empty_ledger !! ?q = Some ?x |- _ => destruct (lookup_empty_Some q x H) end.
Qed.
