(* ===== verification/WindowFacts.v ===== *)
(** * WindowFacts: the window buffers against the whole history

    The sorted buffer keeps exactly the history from its last cutoff on; the counts a
    flow window and a distinct window read are those of the history inside the bounds. *)

From S2P Require Export Windows.

(** ** The position-sorted buffer *)

Section buffer_facts.
Context {A : Type}.
Implicit Types (buf h : list (Z * A)).

Definition by_pos (a b : Z * A) : Prop := a.1 <= b.1.

Definition pos_sorted (buf : list (Z * A)) : Prop := StronglySorted by_pos buf.

Lemma rposition_Some f buf i :
  rposition f buf = Some i -> exists e, buf !! i = Some e /\ f e = true /\
    forall j e', (i < j)%nat -> buf !! j = Some e' -> f e' = false.
Proof.
  revert i. induction buf as [|x buf IH]; intros i Hr; [done|]. simpl in Hr.
  destruct (rposition f buf) as [k|] eqn:Hk.
  - injection Hr as <-. destruct (IH k eq_refl) as (e & He & Hf & Hlast). exists e. split_and!; [done..|].
    intros [|j] e' Hj He'; [lia|]. apply (Hlast j); [lia|done].
  - destruct (f x) eqn:Hx; [injection Hr as <-|done]. exists x. split_and!; [done..|].
    intros [|j] e' Hj He'; [lia|]. simpl in He'. clear -Hk He'. revert j He'.
    induction buf as [|y buf IH]; intros j He'; [done|]. simpl in Hk.
    destruct (rposition f buf); [done|]. destruct (f y) eqn:Hy; [done|].
    destruct j as [|j]; [by injection He' as <-|]. by apply (IH eq_refl j).
Qed.

Lemma rposition_None f buf : rposition f buf = None -> forall e, e ∈ buf -> f e = false.
Proof.
  induction buf as [|x buf IH]; intros Hr e He; [by apply elem_of_nil in He|]. simpl in Hr.
  destruct (rposition f buf); [done|]. destruct (f x) eqn:Hx; [done|].
  apply elem_of_cons in He as [->|He]; [done|]. by apply IH.
Qed.

Lemma push_sorted_perm buf pos x : push_sorted buf pos x ≡ₚ (pos, x) :: buf.
Proof.
  unfold push_sorted. destruct (last buf) as [e|]; [|by rewrite Permutation_app_comm].
  case_match; [|by rewrite Permutation_app_comm]. cbv zeta.
  set (idx := match rposition _ _ with Some i => S i | None => 0%nat end).
  rewrite <- Permutation_middle. by rewrite take_drop.
Qed.

Lemma sorted_app buf1 buf2 :
  pos_sorted buf1 -> pos_sorted buf2 -> (forall a b, a ∈ buf1 -> b ∈ buf2 -> a.1 <= b.1) -> pos_sorted (buf1 ++ buf2).
Proof.
  intros H1 H2 H12. induction H1 as [|a buf1 H1 IH HF]; [done|]. simpl. constructor.
  - apply IH. intros; apply H12; [by right|done].
  - apply Forall_app. split; [done|]. apply Forall_forall. intros b Hb. apply H12; [by left|done].
Qed.

Lemma sorted_app_inv buf1 buf2 :
  pos_sorted (buf1 ++ buf2) ->
  pos_sorted buf1 /\ pos_sorted buf2 /\ forall a b, a ∈ buf1 -> b ∈ buf2 -> a.1 <= b.1.
Proof.
  induction buf1 as [|a buf1 IH]; simpl; intros Hs.
  - split_and!; [constructor|done|]. intros a b Ha. by apply elem_of_nil in Ha.
  - apply StronglySorted_inv in Hs as [Hs HF]. destruct (IH Hs) as (H1 & H2 & H12).
    apply Forall_app in HF as [HF1 HF2]. split_and!; [by constructor|done|].
    intros x b [->|Hx]%elem_of_cons Hb; [|by apply H12]. rewrite Forall_forall in HF2. by apply HF2.
Qed.

Lemma sorted_single (e : Z * A) : pos_sorted [e].
Proof. by repeat constructor. Qed.

Lemma sorted_last buf e a : pos_sorted buf -> last buf = Some e -> a ∈ buf -> a.1 <= e.1.
Proof.
  intros Hs Hl Ha. apply last_Some in Hl as [buf' ->]. apply sorted_app_inv in Hs as (_ & _ & H12).
  apply elem_of_app in Ha as [Ha|Ha]; [apply H12; [done|by left]|].
  apply list_elem_of_singleton in Ha. by subst.
Qed.

Lemma push_sorted_sorted buf pos x : pos_sorted buf -> pos_sorted (push_sorted buf pos x).
Proof.
  intros Hs. unfold push_sorted. destruct (last buf) as [e|] eqn:Hl.
  2: { apply last_None in Hl as ->. apply sorted_single. }
  destruct (Z.ltb_spec pos e.1) as [Hlt|Hge].
  - cbv zeta. destruct (rposition _ buf) as [i|] eqn:Hr.
    + apply rposition_Some in Hr as (e' & He' & Hf & Hlast). apply Z.leb_le in Hf.
      rewrite <- (take_drop (S i) buf) in Hs. apply sorted_app_inv in Hs as (H1 & H2 & _).
      apply sorted_app; [done| |].
      * constructor; [done|]. apply Forall_forall. intros b Hb. apply list_elem_of_lookup in Hb as [j Hj].
        rewrite lookup_drop in Hj. apply Hlast in Hj; [|lia]. unfold by_pos. simpl. lia.
      * intros a b Ha [->|Hb]%elem_of_cons; simpl.
        -- rewrite (take_S_r _ _ _ He') in H1, Ha. apply sorted_app_inv in H1 as (_ & _ & H12).
           apply elem_of_app in Ha as [Ha|Ha]; [|by apply list_elem_of_singleton in Ha as ->].
           specialize (H12 a e' Ha ltac:(left)). lia.
        -- apply list_elem_of_lookup in Hb as [j Hj]. rewrite lookup_drop in Hj. apply Hlast in Hj; [|lia].
           rewrite (take_S_r _ _ _ He') in H1, Ha. apply sorted_app_inv in H1 as (_ & _ & H12).
           apply elem_of_app in Ha as [Ha|Ha]; [|apply list_elem_of_singleton in Ha as ->; lia].
           specialize (H12 a e' Ha ltac:(left)). lia.
    + rewrite take_0, drop_0. simpl. constructor; [done|]. apply Forall_forall. intros b Hb.
      pose proof (rposition_None _ _ Hr b Hb) as Hn. unfold by_pos; simpl in *. lia.
  - apply sorted_app; [done|apply sorted_single|]. intros a b Ha Hb. apply list_elem_of_singleton in Hb as ->. simpl.
    pose proof (sorted_last _ _ _ Hs Hl Ha). lia.
Qed.

(** ** Cutting a sorted buffer *)

Lemma sorted_split lo buf :
  pos_sorted buf ->
  buf = take_while (fun e => e.1 <? lo) buf ++ drop_while (fun e => e.1 <? lo) buf /\
  List.filter (fun e => lo <=? e.1) buf = drop_while (fun e => e.1 <? lo) buf /\
  List.filter (fun e => e.1 <? lo) buf = take_while (fun e => e.1 <? lo) buf.
Proof.
  induction 1 as [|e buf Hs IH HF]; simpl; [done|]. destruct (Z.ltb_spec e.1 lo) as [Hlt|Hge].
  - destruct IH as (IH1 & IH2 & IH3). replace (lo <=? e.1) with false by lia. simpl. by rewrite <- IH1, IH3.
  - replace (lo <=? e.1) with true by lia. split_and!; [done| |].
    + f_equal. rewrite Forall_forall in HF. assert (Hall : forall b, b ∈ buf -> lo <= b.1)
        by (intros b Hb; specialize (HF b Hb); unfold by_pos in HF; lia).
      clear -Hall. induction buf as [|b buf IH]; simpl; [done|].
      replace (lo <=? b.1) with true by (specialize (Hall b ltac:(left)); lia). f_equal. apply IH.
      intros c Hc. apply Hall. by right.
    + rewrite Forall_forall in HF. clear -HF Hge. unfold by_pos in HF. induction buf as [|b buf IH]; simpl; [done|].
      pose proof (HF b ltac:(left)). replace (b.1 <? lo) with false by lia. apply IH.
      intros c Hc. apply HF. by right.
Qed.

Lemma drop_while_fold_snd {S : Type} gone (out : S -> A -> S) s buf :
  (drop_while_fold gone out s buf).2 = drop_while (fun e => gone e.1) buf.
Proof. revert s. induction buf as [|e buf IH]; intros s; simpl; [done|]. case_match; [apply IH|done]. Qed.

Lemma drop_while_fold_fst {S : Type} gone (out : S -> A -> S) s buf :
  (drop_while_fold gone out s buf).1 = foldl (fun s e => out s e.2) s (take_while (fun e => gone e.1) buf).
Proof. revert s. induction buf as [|e buf IH]; intros s; simpl; [done|]. case_match; [apply IH|done]. Qed.

(** ** A buffer as the tail of a history *)

(** [buf] holds exactly the entries of [h] from position [c] on. *)
Record trail (buf h : list (Z * A)) (c : Z) : Prop := {
  trail_sorted : pos_sorted buf;
  trail_perm : buf ≡ₚ List.filter (fun e => c <=? e.1) h;
}.

Lemma trail_nil c : trail [] [] c.
Proof. split; constructor. Qed.

Lemma filter_perm (f : Z * A -> bool) buf h : buf ≡ₚ h -> List.filter f buf ≡ₚ List.filter f h.
Proof.
  induction 1 as [|x a b Hp IH|x y a|a b c Hp1 IH1 Hp2 IH2]; simpl.
  - done.
  - case_match; by rewrite IH.
  - do 2 case_match; try done. apply Permutation_swap.
  - by rewrite IH1.
Qed.

Lemma filter_filter_and (f g : Z * A -> bool) h :
  List.filter f (List.filter g h) = List.filter (fun e => g e && f e) h.
Proof. induction h as [|x h IH]; simpl; [done|]. destruct (g x); simpl; [destruct (f x)|]; by rewrite ?IH. Qed.

Lemma filter_eq (f g : Z * A -> bool) h : (forall e, f e = g e) -> List.filter f h = List.filter g h.
Proof. intros He. induction h as [|x h IH]; simpl; [done|]. by rewrite He, IH. Qed.

Lemma filter_perm_eq (f g : Z * A -> bool) h : (forall e, f e = g e) -> List.filter f h ≡ₚ List.filter g h.
Proof. intros He. by rewrite (filter_eq f g). Qed.

Lemma trail_cut buf h c c' : trail buf h c -> c <= c' -> trail (drop_while (fun e => e.1 <? c') buf) h c'.
Proof.
  intros [Hs Hp] Hc. destruct (sorted_split c' _ Hs) as (H1 & H2 & _). split.
  - rewrite H1 in Hs. by apply sorted_app_inv in Hs as (_ & Hd & _).
  - rewrite <- H2, (filter_perm _ _ _ Hp), filter_filter_and. apply filter_perm_eq. intros e. lia.
Qed.

Lemma trail_push buf h c c' pos x :
  trail buf h c -> c <= c' -> trail (drop_while (fun e => e.1 <? c') (push_sorted buf pos x)) ((pos, x) :: h) c'.
Proof.
  intros [Hs Hp] Hc. pose proof (push_sorted_sorted _ pos x Hs) as Hs'.
  destruct (sorted_split c' _ Hs') as (H1 & H2 & _). split.
  - rewrite H1 in Hs'. by apply sorted_app_inv in Hs' as (_ & Hd & _).
  - rewrite <- H2, (filter_perm _ _ _ (push_sorted_perm buf pos x)). simpl.
    assert (He : List.filter (fun e => c' <=? e.1) buf ≡ₚ List.filter (fun e => c' <=? e.1) h).
    { rewrite (filter_perm _ _ _ Hp), filter_filter_and. apply filter_perm_eq. intros e. lia. }
    case_match; by rewrite He.
Qed.

(** The entries of a history inside the bounds. *)
Definition inside (lo hi : Z) (h : list (Z * A)) : list (Z * A) :=
  List.filter (fun e => (lo <=? e.1) && (e.1 <=? hi)) h.

Lemma trail_inside buf h c lo hi : trail buf h c -> c <= lo -> inside lo hi buf ≡ₚ inside lo hi h.
Proof.
  intros [_ Hp] Hc. unfold inside. rewrite (filter_perm _ _ _ Hp), filter_filter_and. 
  apply filter_perm_eq. intros e. lia.
Qed.

Lemma front_out_filter lo buf : pos_sorted buf -> front_out lo buf = length (List.filter (fun e => e.1 <? lo) buf).
Proof. intros Hs. unfold front_out. by destruct (sorted_split lo _ Hs) as (_ & _ & ->). Qed.

Lemma take_back_filter hi buf :
  pos_sorted buf -> take_while (fun e => hi <? e.1) (rev buf) = rev (List.filter (fun e => hi <? e.1) buf).
Proof.
  induction buf as [|e buf IH] using rev_ind; intros Hs; [done|].
  apply sorted_app_inv in Hs as (Hs & _ & H12). rewrite rev_app_distr, List.filter_app. simpl.
  destruct (Z.ltb_spec hi e.1) as [Hlt|Hge].
  - rewrite IH by done. by rewrite rev_app_distr.
  - rewrite app_nil_r. assert (Hall : forall a, a ∈ buf -> a.1 <= hi) by (intros a Ha; specialize (H12 a e Ha ltac:(left)); lia).
    clear -Hall. induction buf as [|a buf IH]; [done|]. simpl.
    replace (hi <? a.1) with false by (specialize (Hall a ltac:(left)); lia). apply IH. intros b Hb. apply Hall. by right.
Qed.

Lemma back_out_filter hi buf : pos_sorted buf -> back_out hi buf = length (List.filter (fun e => hi <? e.1) buf).
Proof. intros Hs. unfold back_out. by rewrite take_back_filter, length_rev. Qed.

(** The two ends and the inside make up the buffer. *)
Lemma ends_and_inside lo hi buf :
  pos_sorted buf -> lo <= hi -> (front_out lo buf + back_out hi buf + length (inside lo hi buf))%nat = length buf.
Proof.
  intros Hs Hle. rewrite front_out_filter, back_out_filter by done. clear Hs. unfold inside.
  induction buf as [|e buf IH]; simpl; [done|].
  destruct (Z.ltb_spec e.1 lo), (Z.ltb_spec hi e.1), (Z.leb_spec lo e.1), (Z.leb_spec e.1 hi); simpl; lia.
Qed.
End buffer_facts.

(** The bounds move with the window's clock. *)
Lemma w_bounds_shift w now : w_bounds w now = ((w_bounds w 0).1 + now, (w_bounds w 0).2 + now).
Proof. unfold w_bounds. destruct (w_unit w); simpl; f_equal; lia. Qed.

(** A window whose inclusive bounds are in order: its size is not negative. *)
Definition w_ordered (w : WindowSpec) : Prop := (w_bounds w 0).1 <= (w_bounds w 0).2.

(** ** The flow window's counts *)

(** What happens to a window: a trade at [pos] folded at [now], or the clock at [now]. *)
Inductive FlowOp := FTrade (side : Side) (sol : f64) (pos now : Z) | FTick (now : Z).

Definition op_now (op : FlowOp) : Z := match op with FTrade _ _ _ now | FTick now => now end.

Definition flow_step (w : WindowState) (op : FlowOp) : WindowState :=
  match op with
  | FTrade side sol pos now => fw_on_trade w side sol pos now
  | FTick now => fw_evict w now
  end.

(** The admitted trades, newest first, a sell's amount negated. *)
Definition flow_entry (op : FlowOp) : list (Z * f64) :=
  match op with
  | FTrade side sol pos _ =>
      if is_foldable sol then [(pos, match side with Buy => sol | Sell => fneg sol end)] else []
  | FTick _ => []
  end.

Definition flow_history (ops : list FlowOp) : list (Z * f64) := foldl (fun h op => flow_entry op ++ h) [] ops.

(** The clock never goes back. *)
Fixpoint clocked (now : Z) (ops : list FlowOp) : Prop :=
  match ops with [] => True | op :: ops => now <= op_now op /\ clocked (op_now op) ops end.

Fixpoint end_now (now : Z) (ops : list FlowOp) : Z :=
  match ops with [] => now | op :: ops => end_now (op_now op) ops end.

Definition w_lo (w : WindowSpec) (now : Z) : Z := (w_bounds w now).1.
Definition w_hi (w : WindowSpec) (now : Z) : Z := (w_bounds w now).2.

Lemma w_lo_mono w a b : a <= b -> w_lo w a <= w_lo w b.
Proof. unfold w_lo. rewrite (w_bounds_shift w a), (w_bounds_shift w b). simpl. lia. Qed.

Lemma w_ordered_at w now : w_ordered w -> w_lo w now <= w_hi w now.
Proof. unfold w_ordered, w_lo, w_hi. rewrite (w_bounds_shift w now). simpl. lia. Qed.

(** Buys among the entries: the amounts without a sign. *)
Definition buys_of (buf : list (Z * f64)) : list (Z * f64) := List.filter (fun e => negb (is_sign_negative e.2)) buf.

Record flow_inv (spec : WindowSpec) (w : WindowState) (h : list (Z * f64)) (now : Z) : Prop := {
  fi_spec : fw_spec w = spec;
  fi_trail : exists c, c <= w_lo spec now /\ trail (fw_buf w) h c;
  fi_buys : fs_buy_n (fw_sums w) = Z.of_nat (length (buys_of (fw_buf w)));
}.

Lemma drop_entry_n s x :
  fs_buy_n (drop_entry s x) = if is_sign_negative x then fs_buy_n s else sat_sub (fs_buy_n s) 1.
Proof. unfold drop_entry. by destruct (is_sign_negative x). Qed.

Lemma drop_entries_n l : forall s,
  Z.of_nat (length (buys_of l)) <= fs_buy_n s ->
  fs_buy_n (foldl (fun s e => drop_entry s e.2) s l) = fs_buy_n s - Z.of_nat (length (buys_of l)).
Proof.
  induction l as [|e l IH]; intros s Hs; [simpl; lia|]. unfold buys_of in *. simpl in *.
  rewrite IH; rewrite drop_entry_n; destruct (is_sign_negative e.2); simpl in *; unfold sat_sub; lia.
Qed.

Lemma buys_of_app a b : buys_of (a ++ b) = buys_of a ++ buys_of b.
Proof. apply List.filter_app. Qed.

Lemma buys_of_perm a b : a ≡ₚ b -> length (buys_of a) = length (buys_of b).
Proof. intros Hp. unfold buys_of. by rewrite (filter_perm _ _ _ Hp). Qed.

Lemma buys_of_length l : (length (buys_of l) <= length l)%nat.
Proof. apply List.filter_length_le. Qed.

(** Evicting cuts the buffer at the cutoff and keeps the buy count exact. *)
Lemma fw_evict_counts w now :
  pos_sorted (fw_buf w) -> fs_buy_n (fw_sums w) = Z.of_nat (length (buys_of (fw_buf w))) ->
  fw_spec (fw_evict w now) = fw_spec w /\
  fw_buf (fw_evict w now) = drop_while (fun e => e.1 <? w_lo (fw_spec w) now) (fw_buf w) /\
  fs_buy_n (fw_sums (fw_evict w now)) = Z.of_nat (length (buys_of (fw_buf (fw_evict w now)))).
Proof.
  intros Hs Hb. unfold fw_evict, w_lo. destruct (w_bounds (fw_spec w) now) as [lo hi]. simpl fst.
  pose proof (drop_while_fold_snd (fun p => p <? lo) drop_entry (fw_sums w) (fw_buf w)) as H1.
  pose proof (drop_while_fold_fst (fun p => p <? lo) drop_entry (fw_sums w) (fw_buf w)) as H2.
  destruct (drop_while_fold _ _ _ _) as [sums buf]. simpl in H1, H2. subst.
  destruct (sorted_split lo _ Hs) as (Hsplit & _). simpl. split_and!; [done..|].
  assert (Hbuys := f_equal (fun b => length (buys_of b)) Hsplit). simpl in Hbuys. rewrite buys_of_app, length_app in Hbuys.
  rewrite drop_entries_n, Hb; lia.
Qed.

Lemma fw_evict_inv spec w h now now' :
  flow_inv spec w h now -> now <= now' -> flow_inv spec (fw_evict w now') h now'.
Proof.
  intros [Hspec (c & Hc & Ht) Hb] Hn. pose proof (w_lo_mono spec _ _ Hn).
  destruct (fw_evict_counts w now' (trail_sorted _ _ _ Ht) Hb) as (H1 & H2 & H3).
  split; [congruence| |done]. exists (w_lo spec now'). split; [lia|]. rewrite H2, Hspec.
  eapply trail_cut; [done|lia].
Qed.

Lemma fw_push_counts w side sol pos :
  is_sign_negative sol = false -> sol <> f_nan -> fs_buy_n (fw_sums w) = Z.of_nat (length (buys_of (fw_buf w))) ->
  Z.of_nat (length (fw_buf w)) + 1 < 2 ^ 32 ->
  fw_spec (fw_push w side sol pos) = fw_spec w /\
  fw_buf (fw_push w side sol pos) = push_sorted (fw_buf w) pos (match side with Buy => sol | Sell => fneg sol end) /\
  fs_buy_n (fw_sums (fw_push w side sol pos)) = Z.of_nat (length (buys_of (fw_buf (fw_push w side sol pos)))).
Proof.
  intros Hsol Hnan Hb Hlen. pose proof (buys_of_length (fw_buf w)) as Hle.
  assert (Hp : forall x, length (buys_of (push_sorted (fw_buf w) pos x)) =
    ((if is_sign_negative x then 0 else 1) + length (buys_of (fw_buf w)))%nat).
  { intros x. rewrite (buys_of_perm _ _ (push_sorted_perm _ _ _)). unfold buys_of. simpl. by destruct (is_sign_negative x). }
  destruct side; simpl; (split_and!; [done..|]); rewrite Hp.
  - rewrite Hsol, Hb. unfold wrap_u. rewrite Z.mod_small; lia.
  - destruct sol as [[]|[]| |[] m e]; simpl in *; try done; lia.
Qed.

(** An admitted amount has no sign. *)
Definition unsigned (op : FlowOp) : Prop :=
  match op with FTrade _ sol _ _ => is_sign_negative sol = false | FTick _ => True end.

Lemma flow_step_inv spec w h now op :
  flow_inv spec w h now -> now <= op_now op -> unsigned op -> Z.of_nat (length h) + 1 < 2 ^ 32 ->
  flow_inv spec (flow_step w op) (flow_entry op ++ h) (op_now op).
Proof.
  intros Hi Hn Hu Hlen. destruct op as [side sol pos now'|now']; simpl in *; [|by eapply fw_evict_inv].
  unfold fw_on_trade. destruct (is_foldable sol) eqn:Hf; simpl.
  2: { destruct Hi as [Hspec (c & Hc & Ht) Hb]. split; [done| |done]. exists c. split; [|done].
       pose proof (w_lo_mono spec _ _ Hn). lia. }
  destruct Hi as [Hspec (c & Hc & Ht) Hb]. pose proof (w_lo_mono spec _ _ Hn).
  assert (Hlb : Z.of_nat (length (fw_buf w)) + 1 < 2 ^ 32).
  { rewrite (Permutation_length (trail_perm _ _ _ Ht)). pose proof (List.filter_length_le (fun e => c <=? e.1) h). lia. }
  destruct (fw_push_counts w side sol pos) as (H1 & H2 & H3); [done| |done|done|].
  { intros ->. done. }
  destruct (fw_evict_counts (fw_push w side sol pos) now') as (E1 & E2 & E3); [|done|].
  { rewrite H2. by apply push_sorted_sorted, (trail_sorted _ _ _ Ht). }
  split; [congruence| |done]. exists (w_lo spec now'). split; [lia|]. rewrite E2, H1, H2, Hspec.
  apply (trail_push _ _ c); [done|lia].
Qed.

Lemma flow_inv_new spec now : flow_inv spec (WindowState_new spec) [] now.
Proof. split; [done| |done]. exists (w_lo spec now). split; [lia|apply trail_nil]. Qed.

Lemma flow_history_length ops : forall h, (length (foldl (fun h op => flow_entry op ++ h) h ops) <= length ops + length h)%nat.
Proof.
  induction ops as [|op ops IH]; intros h; simpl; [lia|]. specialize (IH (flow_entry op ++ h)).
  rewrite length_app in IH. assert ((length (flow_entry op) <= 1)%nat) by (destruct op; simpl; [case_match; simpl|]; lia). lia.
Qed.

Lemma flow_run_inv spec ops : forall w h now,
  flow_inv spec w h now -> clocked now ops -> Forall unsigned ops ->
  Z.of_nat (length ops + length h) < 2 ^ 32 ->
  flow_inv spec (foldl flow_step w ops) (foldl (fun h op => flow_entry op ++ h) h ops) (end_now now ops).
Proof.
  induction ops as [|op ops IH]; intros w h now Hi Hc Hu Hlen; simpl in *; [done|].
  destruct Hc as [Hn Hc]. apply Forall_cons in Hu as [Hu1 Hu].
  assert ((length (flow_entry op) <= 1)%nat) by (destruct op; simpl; [case_match; simpl|]; lia).
  apply IH; [apply (flow_step_inv _ _ _ now); [done..|lia]|done..|rewrite length_app; lia].
Qed.

(** What a consistent window reads. *)
Lemma flow_inv_trades spec w h now t :
  flow_inv spec w h now -> now <= t -> w_ordered spec ->
  fw_trade_count w t = f_of_Z (Z.of_nat (length (inside (w_lo spec t) (w_hi spec t) h))).
Proof.
  intros [Hspec (c & Hc & Ht) Hb] Hn Ho. pose proof (w_lo_mono spec _ _ Hn). pose proof (w_ordered_at spec t Ho) as Hlh.
  unfold fw_trade_count. rewrite Hspec. unfold w_lo, w_hi in *. destruct (w_bounds spec t) as [lo hi]. simpl in *.
  rewrite <- (Permutation_length (trail_inside _ _ _ lo hi Ht ltac:(lia))).
  pose proof (ends_and_inside lo hi _ (trail_sorted _ _ _ Ht) Hlh). f_equal. lia.
Qed.

Lemma undo_ends_buys lo hi s buf :
  pos_sorted buf -> lo <= hi -> fs_buy_n s = Z.of_nat (length (buys_of buf)) ->
  fs_buy_n (undo_ends drop_entry lo hi s buf) = Z.of_nat (length (buys_of (inside lo hi buf))).
Proof.
  intros Hs Hle Hn. unfold undo_ends. rewrite !drop_while_fold_fst.
  destruct (sorted_split lo _ Hs) as (_ & _ & Hf). rewrite <- Hf, take_back_filter by done. clear Hf.
  assert (Hsplit : length (buys_of buf) = (length (buys_of (List.filter (fun e => Z.ltb e.1 lo) buf)) +
    length (buys_of (rev (List.filter (fun e => Z.ltb hi e.1) buf))) + length (buys_of (inside lo hi buf)))%nat).
  { rewrite (buys_of_perm (rev _) (List.filter (fun e => Z.ltb hi e.1) buf)) by (symmetry; apply Permutation_rev).
    unfold inside. clear -Hle. induction buf as [|e buf IH]; [done|]. simpl. unfold buys_of in *. simpl.
    destruct (Z.ltb_spec e.1 lo), (Z.ltb_spec hi e.1), (Z.leb_spec lo e.1), (Z.leb_spec e.1 hi); simpl;
      destruct (negb (is_sign_negative e.2)); simpl; lia. }
  rewrite !drop_entries_n; rewrite ?drop_entries_n; lia.
Qed.

Lemma flow_inv_buys spec w h now t :
  flow_inv spec w h now -> now <= t -> w_ordered spec ->
  fw_value w BuyCount t = f_of_Z (Z.of_nat (length (buys_of (inside (w_lo spec t) (w_hi spec t) h)))).
Proof.
  intros [Hspec (c & Hc & Ht) Hb] Hn Ho. pose proof (w_lo_mono spec _ _ Hn). pose proof (w_ordered_at spec t Ho) as Hlh.
  unfold fw_value. rewrite Hspec. unfold w_lo, w_hi in *. destruct (w_bounds spec t) as [lo hi]. simpl in *.
  rewrite undo_ends_buys; [|by apply (trail_sorted _ _ _ Ht)|done..].
  by rewrite (buys_of_perm _ _ (trail_inside _ _ _ lo hi Ht ltac:(lia))).
Qed.

(** ** The distinct window's count *)

(** How often a key occurs. *)
Definition occ (k : Z) (keys : list Z) : Z := Z.of_nat (length (List.filter (Z.eqb k) keys)).

Lemma occ_app k a b : occ k (a ++ b) = occ k a + occ k b.
Proof. unfold occ. rewrite List.filter_app, length_app. lia. Qed.

Lemma occ_cons k x l : occ k (x :: l) = (if k =? x then 1 else 0) + occ k l.
Proof. unfold occ. simpl. case_match; simpl length; lia. Qed.

Lemma occ_perm k a b : a ≡ₚ b -> occ k a = occ k b.
Proof. induction 1; rewrite ?occ_cons in *; lia. Qed.

Lemma occ_nonneg k l : 0 <= occ k l.
Proof. unfold occ. lia. Qed.

Lemma occ_le k l : occ k l <= Z.of_nat (length l).
Proof. unfold occ. pose proof (List.filter_length_le (Z.eqb k) l). lia. Qed.

Lemma occ_pos k l : 0 < occ k l <-> k ∈ l.
Proof.
  induction l as [|x l IH]; [unfold occ; simpl; rewrite elem_of_nil; lia|].
  rewrite occ_cons, elem_of_cons, <- IH. pose proof (occ_nonneg k l). destruct (Z.eqb_spec k x); lia.
Qed.

(** The counter map counts the keys of the buffer. *)
Definition counts_ok (counts : gmap Z Z) (keys : list Z) : Prop :=
  forall k, counts !! k = if occ k keys =? 0 then None else Some (occ k keys).

Lemma counts_ok_perm counts a b : a ≡ₚ b -> counts_ok counts a -> counts_ok counts b.
Proof. intros Hp Hc k. by rewrite <- (occ_perm k _ _ Hp). Qed.

Lemma uncount_ok counts x keys : counts_ok counts (x :: keys) -> counts_ok (uncount counts x) keys.
Proof.
  intros Hc k. unfold uncount. pose proof (Hc x) as Hx. pose proof (Hc k) as Hk. rewrite !occ_cons in *.
  rewrite Z.eqb_refl in Hx. pose proof (occ_nonneg x keys). pose proof (occ_nonneg k keys).
  replace (1 + occ x keys =? 0) with false in Hx by lia. rewrite Hx. destruct (Z.eqb_spec k x) as [->|Hn].
  - destruct (Z.eqb_spec (1 + occ x keys - 1) 0) as [He|He].
    + replace (occ x keys =? 0) with true by lia. apply lookup_delete_eq.
    + replace (occ x keys =? 0) with false by lia. rewrite lookup_insert_eq. f_equal. lia.
  - rewrite Z.add_0_l in Hk. destruct (1 + occ x keys - 1 =? 0);
      [rewrite lookup_delete_ne by done|rewrite lookup_insert_ne by done]; exact Hk.
Qed.

Lemma uncounts_ok l : forall counts keys,
  counts_ok counts (l ++ keys) -> counts_ok (foldl uncount counts l) keys.
Proof. induction l as [|x l IH]; intros counts keys Hc; [done|]. apply IH. by apply uncount_ok. Qed.

Lemma count_ok counts keys k :
  counts_ok counts keys -> Z.of_nat (length keys) + 1 < 2 ^ 32 ->
  counts_ok (<[k := wrap_u 32 (unwrap_or (counts !! k) 0 + 1)]> counts) (k :: keys).
Proof.
  intros Hc Hl x. rewrite occ_cons. pose proof (occ_nonneg x keys). pose proof (occ_le x keys).
  destruct (Z.eqb_spec x k) as [->|Hn].
  - rewrite lookup_insert_eq, (Hc k). replace (1 + occ k keys =? 0) with false by lia. f_equal. unfold wrap_u.
    destruct (Z.eqb_spec (occ k keys) 0) as [He|He]; simpl; rewrite Z.mod_small; lia.
  - rewrite lookup_insert_ne by done. by rewrite Z.add_0_l.
Qed.

(** The tally of the keys off the ends. *)
Lemma tally_spec l : forall k n,
  NoDup l.*1 ->
  (k, n) ∈ tally l k <-> (if existsb (fun e => e.1 =? k) l then (k, n - 1) ∈ l else n = 1).
Proof.
  induction l as [|[y m] l IH]; intros k n Hd; simpl in *.
  - rewrite list_elem_of_singleton. split; [by intros [= ->]|by intros ->].
  - apply NoDup_cons in Hd as [Hy Hd]. destruct (Z.eqb_spec y k) as [->|Hne]; simpl; rewrite elem_of_cons.
    + rewrite elem_of_cons. split.
      * intros [[= ->]|Hin]; [left; f_equal; lia|]. exfalso. apply Hy. rewrite list_elem_of_fmap. by exists (k, n).
      * intros [[= <-]|Hin]; [left; f_equal; lia|]. exfalso. apply Hy. rewrite list_elem_of_fmap. by exists (k, n - 1).
    + rewrite IH by done. case_match; [rewrite elem_of_cons|]; split;
        first [intros [Heq|?]; [congruence|]|intros ?]; first [done|by right].
Qed.

Lemma tally_other l k x n : x <> k -> (x, n) ∈ tally l k <-> (x, n) ∈ l.
Proof.
  intros Hx. induction l as [|[y m] l IH]; simpl.
  - rewrite list_elem_of_singleton, elem_of_nil. split; [intros [= ]; congruence|done].
  - destruct (Z.eqb_spec y k) as [->|Hne]; rewrite !elem_of_cons; [|by rewrite IH].
    split; (intros [Heq|?]; [congruence|by right]).
Qed.

Lemma tally_keys l k : NoDup l.*1 -> NoDup (tally l k).*1.
Proof.
  induction l as [|[y m] l IH]; simpl; intros Hd; [apply NoDup_singleton|].
  apply NoDup_cons in Hd as [Hy Hd]. destruct (Z.eqb_spec y k) as [->|Hne]; simpl; [by apply NoDup_cons|].
  apply NoDup_cons. split; [|by apply IH]. intros Hin. apply Hy. rewrite list_elem_of_fmap in *.
  destruct Hin as ([z n] & -> & Hin). exists (z, n). split; [done|]. simpl in *. by apply tally_other in Hin.
Qed.

Lemma tally_seen (l : list (Z * Z)) k : existsb (fun e => e.1 =? k) l = true -> exists n, (k, n) ∈ l.
Proof.
  intros He. apply existsb_exists in He as ([x n] & Hin & Hx). simpl in Hx. apply Z.eqb_eq in Hx as ->.
  exists n. by apply list_elem_of_In.
Qed.

(** The tally lists each key once, with how often it occurs. *)
Definition tallied (out : list (Z * Z)) (keys : list Z) : Prop :=
  NoDup out.*1 /\ forall k n, (k, n) ∈ out <-> 0 < n /\ n = occ k keys.

Lemma tally_ok out keys k : tallied out keys -> tallied (tally out k) (keys ++ [k]).
Proof.
  intros [Hd Ht]. split; [by apply tally_keys|]. intros x n. rewrite occ_app, occ_cons.
  change (occ x []) with 0. destruct (Z.eqb_spec x k) as [->|Hn].
  - rewrite tally_spec by done. destruct (existsb _ out) eqn:He.
    + apply tally_seen in He as [m Hm]. apply Ht in Hm as [Hm ->]. rewrite Ht. lia.
    + assert (Hz : occ k keys = 0); [|lia]. pose proof (occ_nonneg k keys). destruct (Z.eq_dec (occ k keys) 0) as [|Hne]; [done|].
      exfalso. assert (Hin : (k, occ k keys) ∈ out) by (apply Ht; lia). apply list_elem_of_In in Hin.
      assert (existsb (fun e => e.1 =? k) out = true); [|congruence]. apply existsb_exists. eexists; split; [done|apply Z.eqb_refl].
  - rewrite tally_other by done. rewrite Ht. lia.
Qed.

Lemma tallies_ok l : forall out keys, tallied out keys -> tallied (foldl tally out l) (keys ++ l).
Proof.
  induction l as [|k l IH]; intros out keys Ht; simpl; [by rewrite app_nil_r|].
  replace (keys ++ k :: l) with ((keys ++ [k]) ++ l) by (by rewrite <- app_assoc). by apply IH, tally_ok.
Qed.

Lemma take_take_while {B} (f : B -> bool) l : take (length (take_while f l)) l = take_while f l.
Proof. induction l as [|x l IH]; simpl; [done|]. case_match; simpl; [by rewrite IH|done]. Qed.

(** Live keys less those wholly outside are the keys inside. *)
Lemma distinct_count counts outk inn gone :
  counts_ok counts (outk ++ inn) ->
  NoDup gone.*1 -> (forall k n, (k, n) ∈ gone <-> (0 < n /\ n = occ k outk) /\ counts !! k = Some n) ->
  Z.of_nat (size counts) - Z.of_nat (length gone) = Z.of_nat (size (list_to_set inn : gset Z)).
Proof.
  intros Hc Hd Hg.
  assert (Hgone : length gone = size (list_to_set gone.*1 : gset Z)) by (by rewrite size_list_to_set, length_fmap).
  rewrite <- size_dom, Hgone.
  assert (Hsub : (list_to_set gone.*1 : gset Z) ⊆ dom counts).
  { intros k. rewrite elem_of_list_to_set, list_elem_of_fmap. intros ([x n] & -> & Hin). apply Hg in Hin as [_ Hin].
    simpl. apply elem_of_dom. by eexists. }
  assert (Heq : (list_to_set inn : gset Z) = dom counts ∖ list_to_set gone.*1).
  { apply set_eq. intros k. rewrite elem_of_difference, !elem_of_list_to_set, elem_of_dom, list_elem_of_fmap, (Hc k), occ_app.
    rewrite <- occ_pos. pose proof (occ_nonneg k inn). pose proof (occ_nonneg k outk). split.
    - intros Hin. replace (occ k outk + occ k inn =? 0) with false by lia. split; [by eexists|].
      intros ([x n] & Hx & Hg'). simpl in Hx. subst x. apply Hg in Hg' as [[Hp Ho] Hg']. rewrite (Hc k), occ_app in Hg'.
      replace (occ k outk + occ k inn =? 0) with false in Hg' by lia. injection Hg'. lia.
    - intros [Hs Hn]. destruct (Z.eqb_spec (occ k outk + occ k inn) 0) as [|Hz]; [by destruct Hs|].
      destruct (Z.eq_dec (occ k inn) 0) as [Hi|]; [|lia]. exfalso. apply Hn. exists (k, occ k outk). split; [done|].
      apply Hg. split; [lia|]. rewrite (Hc k), occ_app. replace (occ k outk + occ k inn =? 0) with false by lia. f_equal. lia. }
  rewrite Heq, size_difference by done. pose proof (subseteq_size _ _ Hsub). lia.
Qed.

(** What happens to a distinct window: a key at a position folded at [now], or the clock. *)
Inductive KeyOp := KPush (key pos now : Z) | KTick (now : Z).

Definition key_now (op : KeyOp) : Z := match op with KPush _ _ now | KTick now => now end.

Definition key_step (w : DistinctWindow) (op : KeyOp) : DistinctWindow :=
  match op with KPush key pos now => dw_push w key pos now | KTick now => dw_evict w now end.

Definition key_entry (op : KeyOp) : list (Z * Z) := match op with KPush key pos _ => [(pos, key)] | KTick _ => [] end.

Definition key_history (ops : list KeyOp) : list (Z * Z) := foldl (fun h op => key_entry op ++ h) [] ops.

Fixpoint key_clocked (now : Z) (ops : list KeyOp) : Prop :=
  match ops with [] => True | op :: ops => now <= key_now op /\ key_clocked (key_now op) ops end.

Fixpoint key_end (now : Z) (ops : list KeyOp) : Z :=
  match ops with [] => now | op :: ops => key_end (key_now op) ops end.

Record key_inv (spec : WindowSpec) (w : DistinctWindow) (h : list (Z * Z)) (now : Z) : Prop := {
  ki_spec : dw_spec w = spec;
  ki_trail : exists c, c <= w_lo spec now /\ trail (dw_buf w) h c;
  ki_counts : counts_ok (dw_counts w) (dw_buf w).*2;
}.

Lemma dw_evict_counts w now :
  pos_sorted (dw_buf w) -> counts_ok (dw_counts w) (dw_buf w).*2 ->
  dw_spec (dw_evict w now) = dw_spec w /\
  dw_buf (dw_evict w now) = drop_while (fun e => e.1 <? w_lo (dw_spec w) now) (dw_buf w) /\
  counts_ok (dw_counts (dw_evict w now)) (dw_buf (dw_evict w now)).*2.
Proof.
  intros Hs Hb. unfold dw_evict, w_lo. destruct (w_bounds (dw_spec w) now) as [lo hi]. simpl fst.
  pose proof (drop_while_fold_snd (fun p => p <? lo) uncount (dw_counts w) (dw_buf w)) as H1.
  pose proof (drop_while_fold_fst (fun p => p <? lo) uncount (dw_counts w) (dw_buf w)) as H2.
  destruct (drop_while_fold _ _ _ _) as [counts buf]. simpl in H1, H2. subst.
  destruct (sorted_split lo _ Hs) as (Hsplit & _). simpl. split_and!; [done..|].
  assert (Hf : forall l, foldl (fun s (e : Z * Z) => uncount s e.2) (dw_counts w) l = foldl uncount (dw_counts w) l.*2)
    by (intros l; generalize (dw_counts w); induction l as [|e l IH]; intros c; simpl; [done|apply IH]).
  rewrite Hf. apply uncounts_ok. rewrite <- fmap_app, <- Hsplit. done.
Qed.

Lemma key_step_inv spec w h now op :
  key_inv spec w h now -> now <= key_now op -> Z.of_nat (length h) + 1 < 2 ^ 32 ->
  key_inv spec (key_step w op) (key_entry op ++ h) (key_now op).
Proof.
  intros [Hspec (c & Hc & Ht) Hb] Hn Hlen. pose proof (w_lo_mono spec _ _ Hn).
  destruct op as [key pos now'|now']; simpl in *.
  - assert (Hlb : Z.of_nat (length (dw_buf w)) + 1 < 2 ^ 32).
    { rewrite (Permutation_length (trail_perm _ _ _ Ht)). pose proof (List.filter_length_le (fun e => c <=? e.1) h). lia. }
    unfold dw_push. match goal with |- context [dw_evict ?x] => set (w' := x) end.
    destruct (dw_evict_counts w' now') as (E1 & E2 & E3).
    { simpl. by apply push_sorted_sorted, (trail_sorted _ _ _ Ht). }
    { simpl. apply (counts_ok_perm _ (key :: (dw_buf w).*2)).
      - by rewrite (push_sorted_perm (dw_buf w) pos key).
      - apply count_ok; [done|]. by rewrite length_fmap. }
    split; [by rewrite E1| |done]. exists (w_lo spec now'). split; [lia|]. rewrite E2. simpl. rewrite Hspec.
    apply (trail_push _ _ c); [done|lia].
  - destruct (dw_evict_counts w now' (trail_sorted _ _ _ Ht) Hb) as (E1 & E2 & E3).
    split; [congruence| |done]. exists (w_lo spec now'). split; [lia|]. rewrite E2, Hspec.
    eapply trail_cut; [done|lia].
Qed.

Lemma key_inv_new spec now : key_inv spec (DistinctWindow_new spec) [] now.
Proof.
  split; [done| |]; [|intros k; exact (lookup_empty k)].
  exists (w_lo spec now). split; [lia|apply trail_nil].
Qed.

Lemma key_run_inv spec ops : forall w h now,
  key_inv spec w h now -> key_clocked now ops -> Z.of_nat (length ops + length h) < 2 ^ 32 ->
  key_inv spec (foldl key_step w ops) (foldl (fun h op => key_entry op ++ h) h ops) (key_end now ops).
Proof.
  induction ops as [|op ops IH]; intros w h now Hi Hc Hlen; simpl in *; [done|]. destruct Hc as [Hn Hc].
  assert ((length (key_entry op) <= 1)%nat) by (destruct op; simpl; lia).
  apply IH; [apply (key_step_inv _ _ _ now); [done..|lia]|done|rewrite length_app; lia].
Qed.

(** The distinct keys of a list. *)
Definition distinct_keys (keys : list Z) : Z := Z.of_nat (size (list_to_set keys : gset Z)).

Lemma distinct_keys_perm a b : a ≡ₚ b -> distinct_keys a = distinct_keys b.
Proof.
  intros Hp. unfold distinct_keys. do 2 f_equal. apply set_eq. intros k. rewrite !elem_of_list_to_set. by rewrite Hp.
Qed.

Lemma ends_perm lo hi (buf : list (Z * Z)) :
  pos_sorted buf -> lo <= hi ->
  buf ≡ₚ (take (front_out lo buf) buf ++ take (back_out hi buf) (rev buf)) ++ inside lo hi buf.
Proof.
  intros Hs Hle. unfold front_out, back_out. rewrite !take_take_while. destruct (sorted_split lo _ Hs) as (_ & _ & <-).
  rewrite take_back_filter by done.
  rewrite <- (Permutation_rev (List.filter (fun e => Z.ltb hi e.1) buf)).
  unfold inside. clear Hs. induction buf as [|e buf IH]; simpl; [done|].
  destruct (Z.ltb_spec e.1 lo), (Z.ltb_spec hi e.1), (Z.leb_spec lo e.1), (Z.leb_spec e.1 hi); simpl; try lia.
  all: rewrite <- ?Permutation_middle; simpl; rewrite <- ?Permutation_middle; simpl; by rewrite <- IH.
Qed.

Lemma key_inv_distinct spec w h now t :
  key_inv spec w h now -> now <= t -> w_ordered spec ->
  dw_distinct_n w t = distinct_keys (inside (w_lo spec t) (w_hi spec t) h).*2.
Proof.
  intros [Hspec (c & Hc & Ht) Hb] Hn Ho. pose proof (w_lo_mono spec _ _ Hn). pose proof (w_ordered_at spec t Ho) as Hlh.
  unfold dw_distinct_n, dw_ends. rewrite Hspec. unfold w_lo, w_hi in *. destruct (w_bounds spec t) as [lo hi]. simpl in *.
  rewrite <- (distinct_keys_perm (inside lo hi (dw_buf w)).*2) by (by rewrite (trail_inside _ _ _ lo hi Ht ltac:(lia))).
  pose proof (trail_sorted _ _ _ Ht) as Hs. pose proof (ends_and_inside lo hi _ Hs Hlh) as Hlen.
  pose proof (ends_perm lo hi _ Hs Hlh) as Hp.
  set (outk := (take (front_out lo (dw_buf w)) (dw_buf w)).*2 ++ (take (back_out hi (dw_buf w)) (rev (dw_buf w))).*2).
  assert (Hck : counts_ok (dw_counts w) (outk ++ (inside lo hi (dw_buf w)).*2)).
  { unfold outk. rewrite <- !fmap_app. apply (counts_ok_perm _ (dw_buf w).*2); [by rewrite Hp at 1|done]. }
  destruct (tallies_ok outk [] []) as [Hd Hout].
  { split; [constructor|]. intros k n. rewrite elem_of_nil. unfold occ. simpl. lia. }
  simpl in Hout. destruct (_ && _) eqn:He.
  - apply andb_true_iff in He as [Hf Hbk]. apply Nat.eqb_eq in Hf, Hbk. unfold distinct_keys.
    rewrite <- (distinct_count (dw_counts w) outk _ []); [simpl; lia|done|constructor|].
    intros k n. rewrite elem_of_nil. unfold outk. rewrite Hf, Hbk. simpl. unfold occ. simpl. lia.
  - destruct (Nat.leb_spec (length (dw_buf w)) (front_out lo (dw_buf w) + back_out hi (dw_buf w))).
    + replace (inside lo hi (dw_buf w)) with (@nil (Z * Z)); [done|]. symmetry. apply length_zero_iff_nil. lia.
    + apply (distinct_count _ outk); [done| |].
      * clear -Hd. induction (foldl tally [] outk) as [|e l IH]; simpl in *; [done|]. apply NoDup_cons in Hd as [He Hd].
        destruct (bool_decide _); simpl; [|by apply IH]. apply NoDup_cons. split; [|by apply IH].
        intros Hin. apply He. apply list_elem_of_fmap in Hin as (x & Hx & Hin). apply list_elem_of_fmap. exists x.
        split; [done|]. apply list_elem_of_In, filter_In in Hin as [Hin _]. by apply list_elem_of_In.
      * intros k n. rewrite list_elem_of_In, filter_In, <- list_elem_of_In, Hout, bool_decide_eq_true. done.
Qed.
