(* ===== verification/PriceFacts.v ===== *)
(** * PriceFacts: an unlagged price window reads the true extremes

    A monotonic deque keeps, of every price still inside the window, a later one that is
    at least as extreme; so the extremes and the newest price it reads are those of the
    whole history. *)

From S2P Require Export Windows WindowFacts.

(** ** A dropped suffix *)

Lemma drop_while_split {A} (f : A -> bool) l :
  exists d, l = d ++ drop_while f l /\ Forall (fun x => f x = true) d.
Proof.
  induction l as [|x l (d & He & Hd)]; simpl; [by exists []|]. destruct (f x) eqn:Hx.
  - exists (x :: d). split; [simpl; by f_equal|by constructor].
  - by exists [].
Qed.

Lemma pop_back_split (f : f64 * Z -> bool) l :
  exists d, l = pop_back_while f l ++ d /\ Forall (fun x => f x = true) d.
Proof.
  unfold pop_back_while. destruct (drop_while_split f (rev l)) as (d & He & Hd). exists (rev d). split.
  - rewrite <- rev_app_distr, <- He. by rewrite rev_involutive.
  - rewrite Forall_forall in *. intros x Hx. apply Hd. rewrite list_elem_of_In in *. by apply in_rev.
Qed.

(** ** One deque *)

Section deque.
(** [dom p q]: the price [q] is at least as extreme as [p]. *)
Context (dom : f64 -> f64 -> bool).
Context (dom_refl : forall p, is_nan p = false -> dom p p = true).
Context (dom_trans : forall p q r, dom p q = true -> dom q r = true -> dom p r = true).

Definition rising (l : list (f64 * Z)) : Prop := StronglySorted (fun a b => a.2 <= b.2) l.

(** The deque [dq] stands for the prices [h] (newest first) from position [c] on. *)
Record deque_ok (dq h : list (f64 * Z)) (c : Z) : Prop := {
  dk_rising : rising dq;
  dk_sub : forall e, e ∈ dq -> e ∈ h;
  dk_dom : forall e, e ∈ h -> c <= e.2 -> exists e', e' ∈ dq /\ e.2 <= e'.2 /\ dom e.1 e'.1 = true;
  dk_last : forall e, head h = Some e -> c <= e.2 -> last dq = Some e;
}.

Lemma rising_app a b : rising a -> rising b -> (forall x y, x ∈ a -> y ∈ b -> x.2 <= y.2) -> rising (a ++ b).
Proof.
  intros Ha Hb Hab. induction Ha as [|x a Ha IH HF]; [done|]. simpl. constructor.
  - apply IH. intros y z Hy. apply Hab. by right.
  - apply Forall_app. split; [done|]. apply Forall_forall. intros y Hy. apply Hab; [left|done].
Qed.

Lemma rising_app_l a b : rising (a ++ b) -> rising a.
Proof.
  induction a as [|x a IH]; [intros; constructor|]. simpl. intros Hs. apply StronglySorted_inv in Hs as [Hs HF].
  constructor; [by apply IH|]. by apply Forall_app in HF as [? _].
Qed.

Lemma rising_app_r a b : rising (a ++ b) -> rising b.
Proof. induction a as [|x a IH]; [done|]. simpl. intros Hs. apply StronglySorted_inv in Hs as [Hs _]. by apply IH. Qed.

Lemma drop_old_rising c dq e : rising dq -> e ∈ drop_while (fun e => e.2 <? c) dq <-> e ∈ dq /\ c <= e.2.
Proof.
  induction dq as [|x dq IH]; intros Hs; simpl.
  - split; [intros H; by apply elem_of_nil in H|by intros [H _]].
  - apply StronglySorted_inv in Hs as [Hs HF]. destruct (Z.ltb_spec x.2 c) as [Hx|Hx].
    + rewrite IH by done. rewrite elem_of_cons. split; [by intros [? ?]; split; [right|]|].
      intros [[->|?] ?]; [lia|done].
    + rewrite elem_of_cons. split; [|by intros [? _]]. intros He. split; [done|]. destruct He as [->|He]; [done|].
      rewrite Forall_forall in HF. specialize (HF e He). simpl in HF. lia.
Qed.

Lemma drop_old_last c dq e : rising dq -> last dq = Some e -> c <= e.2 -> last (drop_while (fun e => e.2 <? c) dq) = Some e.
Proof.
  intros Hs Hl Hc. destruct (drop_while_split (fun e : f64 * Z => e.2 <? c) dq) as (d & He & Hd).
  rewrite He, last_app in Hl. destruct (last (drop_while _ dq)) as [x|]; [done|].
  apply last_Some_elem_of in Hl. rewrite Forall_forall in Hd. specialize (Hd e Hl). simpl in Hd. lia.
Qed.

(** Eviction keeps the deque standing for the newer part. *)
Lemma deque_evict dq h c c' : deque_ok dq h c -> c <= c' -> deque_ok (drop_while (fun e => e.2 <? c') dq) h c'.
Proof.
  intros [Hr Hs Hd Hl] Hc. split.
  - destruct (drop_while_split (fun e : f64 * Z => e.2 <? c') dq) as (d & He & _).
    rewrite He in Hr. by apply rising_app_r in Hr.
  - intros e He. apply drop_old_rising in He as [He _]; [by apply Hs|done].
  - intros e He Hce. destruct (Hd e He ltac:(lia)) as (e' & H1 & H2 & H3). exists e'. split_and!; try done.
    apply drop_old_rising; [done|]. split; [done|lia].
  - intros e He Hce. apply drop_old_last; [done|by apply Hl; [|lia]|done].
Qed.

(** A new price at the newest position pops what it dominates and becomes the back. *)
Lemma deque_push dq h c price pos :
  deque_ok dq h c -> is_nan price = false -> (forall e, e ∈ h -> e.2 <= pos) ->
  deque_ok (pop_back_while (fun e => dom e.1 price) dq ++ [(price, pos)]) ((price, pos) :: h) c.
Proof.
  intros [Hr Hs Hd Hl] Hn Hpos. destruct (pop_back_split (fun e => dom e.1 price) dq) as (d & He & Hpop).
  set (kept := pop_back_while (fun e => dom e.1 price) dq) in *.
  assert (Hkept : forall e, e ∈ kept -> e ∈ dq) by (intros e Hin; rewrite He; apply elem_of_app; by left). split.
  - apply rising_app; [rewrite He in Hr; by apply rising_app_l in Hr|repeat constructor|].
    intros x y Hx Hy. apply list_elem_of_singleton in Hy as ->. simpl. by apply Hpos, Hs, Hkept.
  - intros e [Hin|Hin]%elem_of_app; [right; by apply Hs, Hkept|]. apply list_elem_of_singleton in Hin as ->. left.
  - assert (Hself : (price, pos) ∈ kept ++ [(price, pos)]) by (apply elem_of_app; right; left).
    intros e [->|Hin]%elem_of_cons Hc; [exists (price, pos); split_and!; [done|simpl; lia|by apply dom_refl]|].
    destruct (Hd e Hin Hc) as (e' & H1 & H2 & H3). rewrite He in H1. apply elem_of_app in H1 as [H1|H1].
    + exists e'. split_and!; [apply elem_of_app; by left|done..].
    + exists (price, pos). split_and!; [done|by apply Hpos|]. rewrite Forall_forall in Hpop.
      by apply (dom_trans _ e'.1); [|apply Hpop].
  - intros e Hh _. injection Hh as <-. by rewrite last_app.
Qed.

Lemma deque_new c : deque_ok [] [] c.
Proof. split; [constructor|done|intros e H; by apply elem_of_nil in H|done]. Qed.
End deque.

(** ** The window *)

Definition below (p q : f64) : bool := p <=. q.
Definition above (p q : f64) : bool := p >=. q.

(** What happens to a price window: a trade at the clock's position, or the clock. *)
Inductive PriceOp := PTrade (price : f64) (now : Z) | PTick (now : Z).

Definition price_now (op : PriceOp) : Z := match op with PTrade _ now | PTick now => now end.

Definition price_step (w : PriceWindow) (op : PriceOp) : PriceWindow :=
  match op with PTrade price now => pw_on_trade w price now now | PTick now => pw_evict w now end.

Definition price_entry (op : PriceOp) : list (f64 * Z) :=
  match op with PTrade price now => if is_finite price then [(price, now)] else [] | PTick _ => [] end.

Definition price_history (ops : list PriceOp) : list (f64 * Z) := foldl (fun h op => price_entry op ++ h) [] ops.

Fixpoint price_clocked (now : Z) (ops : list PriceOp) : Prop :=
  match ops with [] => True | op :: ops => now <= price_now op /\ price_clocked (price_now op) ops end.

Fixpoint price_end (now : Z) (ops : list PriceOp) : Z :=
  match ops with [] => now | op :: ops => price_end (price_now op) ops end.

Record price_inv (spec : WindowSpec) (w : PriceWindow) (h : list (f64 * Z)) (now : Z) : Prop := {
  pi_spec : pw_spec w = spec;
  pi_max : exists c, c <= w_lo spec now /\ deque_ok below (pw_max w) h c;
  pi_min : exists c, c <= w_lo spec now /\ deque_ok above (pw_min w) h c;
  pi_old : forall e, e ∈ h -> e.2 <= now /\ is_finite e.1 = true;
  pi_desc : StronglySorted (fun a b => b.2 <= a.2) h;
}.

Lemma below_refl p : is_nan p = false -> below p p = true.
Proof. apply fle_refl. Qed.
Lemma above_refl p : is_nan p = false -> above p p = true.
Proof. apply fle_refl. Qed.
Lemma below_trans p q r : below p q = true -> below q r = true -> below p r = true.
Proof. apply fle_trans. Qed.
Lemma above_trans p q r : above p q = true -> above q r = true -> above p r = true.
Proof. unfold above, fge. intros H1 H2. by eapply fle_trans. Qed.

Lemma pw_evict_spec w now :
  pw_spec (pw_evict w now) = pw_spec w /\
  pw_max (pw_evict w now) = drop_while (fun e => e.2 <? w_lo (pw_spec w) now) (pw_max w) /\
  pw_min (pw_evict w now) = drop_while (fun e => e.2 <? w_lo (pw_spec w) now) (pw_min w).
Proof. unfold pw_evict, w_lo. by destruct (w_bounds (pw_spec w) now) as [lo hi]. Qed.

Lemma price_evict_inv spec w h now now' :
  price_inv spec w h now -> now <= now' -> price_inv spec (pw_evict w now') h now'.
Proof.
  intros [Hspec (c & Hc & Hmax) (c2 & Hc2 & Hmin) Hold Hd] Hn. pose proof (w_lo_mono spec _ _ Hn).
  destruct (pw_evict_spec w now') as (E1 & E2 & E3). rewrite Hspec in *. split; [done| | | |done].
  - exists (w_lo spec now'). split; [lia|]. rewrite E2. apply (deque_evict _ _ _ c); [done|lia].
  - exists (w_lo spec now'). split; [lia|]. rewrite E3. apply (deque_evict _ _ _ c2); [done|lia].
  - intros e He. destruct (Hold e He). split; [lia|done].
Qed.

Lemma price_step_inv spec w h now op :
  price_inv spec w h now -> now <= price_now op -> price_inv spec (price_step w op) (price_entry op ++ h) (price_now op).
Proof.
  intros Hi Hn. destruct op as [price now'|now']; simpl in *; [|by eapply price_evict_inv].
  unfold pw_on_trade. destruct (is_finite price) eqn:Hf; simpl.
  2: { destruct Hi as [Hspec (c & Hc & Hmax) (c2 & Hc2 & Hmin) Hold Hd]. pose proof (w_lo_mono spec _ _ Hn).
       split; [done|exists c; split; [lia|done]|exists c2; split; [lia|done]| |done].
       intros e He. destruct (Hold e He). split; [lia|done]. }
  match goal with |- price_inv _ (pw_evict ?x _) _ _ => set (w' := x) end.
  assert (Hnan : is_nan price = false) by auto with engine. apply (price_evict_inv _ w' _ now'); [|lia].
  destruct Hi as [Hspec (c & Hc & Hmax) (c2 & Hc2 & Hmin) Hold Hd]. pose proof (w_lo_mono spec _ _ Hn).
  assert (Hpos : forall e, e ∈ h -> e.2 <= now') by (intros e He; destruct (Hold e He); lia).
  split; [done| | | |].
  - exists c. split; [lia|]. apply deque_push; [apply below_refl|apply below_trans|done..].
  - exists c2. split; [lia|]. apply (deque_push above); [apply above_refl|apply above_trans|done..].
  - intros e [->|He]%elem_of_cons; [by split|]. destruct (Hold e He). split; [lia|done].
  - constructor; [done|]. by apply Forall_forall.
Qed.

Lemma price_run_inv spec ops : forall w h now,
  price_inv spec w h now -> price_clocked now ops ->
  price_inv spec (foldl price_step w ops) (foldl (fun h op => price_entry op ++ h) h ops) (price_end now ops).
Proof.
  induction ops as [|op ops IH]; intros w h now Hi Hc; simpl in *; [done|]. destruct Hc as [Hn Hc].
  by apply IH; [apply (price_step_inv _ _ _ now)|].
Qed.

Lemma price_inv_new spec now : price_inv spec (PriceWindow_new spec) [] now.
Proof.
  split; [done|exists (w_lo spec now); split; [lia|apply deque_new]..|intros e H; by apply elem_of_nil in H|constructor].
Qed.

(** ** Extremes of a list *)

Lemma reduce_best {A} (pick : A -> A -> A) (le : A -> A -> Prop) (good : A -> Prop) l r :
  (forall a b, pick a b = a \/ pick a b = b) ->
  (forall a, good a -> le a a) -> (forall a b c, le a b -> le b c -> le a c) ->
  (forall a b, good a -> good b -> le a (pick a b) /\ le b (pick a b)) ->
  Forall good l -> reduce_list pick l = Some r -> r ∈ l /\ forall x, x ∈ l -> le x r.
Proof.
  intros Hpick Hrefl Htrans Hle Hg Hr. destruct l as [|x l]; [done|]. injection Hr as <-.
  apply Forall_cons in Hg as [Hx Hg]. revert x Hx. induction Hg as [|y l Hy Hg IH]; intros x Hx; simpl.
  - split; [left|]. intros z ->%list_elem_of_singleton. by apply Hrefl.
  - destruct (Hle x y Hx Hy) as [H1 H2].
    assert (Hxy : good (pick x y)) by (by destruct (Hpick x y) as [E|E]; rewrite E).
    destruct (IH _ Hxy) as [Hin Hall]. split.
    + apply elem_of_cons in Hin as [->|Hin]; [destruct (Hpick x y) as [E|E]; rewrite E; set_solver|set_solver].
    + intros z Hz. apply elem_of_cons in Hz as [->|Hz]; [|apply elem_of_cons in Hz as [->|Hz]].
      * apply (Htrans _ (pick x y)); [done|]. apply Hall. left.
      * apply (Htrans _ (pick x y)); [done|]. apply Hall. left.
      * apply Hall. by right.
Qed.

Lemma reduce_none {A} (pick : A -> A -> A) l : reduce_list pick l = None <-> l = [].
Proof. by destruct l. Qed.

Definition good (p : f64) : Prop := is_finite p = true.

Lemma max_price_spec l r : Forall good l.*1 -> max_price l = Some r ->
  r ∈ l.*1 /\ forall p, p ∈ l.*1 -> (p <=. r) = true.
Proof.
  intros Hg. unfold max_price. apply (reduce_best _ (fun a b => (a <=. b) = true) good); [| | | |done].
  - intros a b. case_match; auto.
  - intros a Ha. auto with engine.
  - intros a b c. apply fle_trans.
  - unfold good, fgt. intros a b Ha Hb. destruct (b <. a) eqn:E; split; auto with engine.
    apply flt_total; auto with engine.
Qed.

Lemma min_price_spec l r : Forall good l.*1 -> min_price l = Some r ->
  r ∈ l.*1 /\ forall p, p ∈ l.*1 -> (r <=. p) = true.
Proof.
  intros Hg. unfold min_price. apply (reduce_best _ (fun a b => (b <=. a) = true) good); [| | | |done].
  - intros a b. case_match; auto.
  - intros a Ha. auto with engine.
  - intros a b c H1 H2. by eapply fle_trans.
  - unfold good, fgt. intros a b Ha Hb. destruct (b <. a) eqn:E; split; auto with engine.
    apply flt_total; auto with engine.
Qed.

Lemma newest_rising l : rising l -> newest l = fst <$> last l.
Proof.
  unfold newest. destruct l as [|x l]; [done|]. intros Hs. cbn [reduce_list]. f_equal.
  revert x Hs. induction l as [|y l IH]; intros x Hs; [done|].
  apply StronglySorted_inv in Hs as [Hs HF]. apply Forall_cons in HF as [Hxy _]. cbn [foldl].
  replace (y.2 <? x.2) with false by lia. rewrite (IH y Hs). done.
Qed.

Lemma last_filter {A} (f : A -> bool) l x : last l = Some x -> f x = true -> last (List.filter f l) = Some x.
Proof.
  intros Hl Hx. apply last_Some in Hl as (l' & ->). rewrite List.filter_app. simpl. rewrite Hx. apply last_snoc.
Qed.

Lemma rising_filter f l : rising l -> rising (List.filter f l).
Proof.
  induction 1 as [|x l Hs IH HF]; simpl; [constructor|]. destruct (f x); [|done]. constructor; [done|].
  rewrite Forall_forall in *. intros y Hy. apply HF. rewrite list_elem_of_In in *. by apply filter_In in Hy as [? _].
Qed.

(** ** What the window reads *)

(** A window with no lag: it ends at the clock. *)
Definition unlagged (spec : WindowSpec) : Prop := forall now, w_hi spec now = now.

(** The prices of the history inside the window at [t], newest first. *)
Definition prices_inside (spec : WindowSpec) (h : list (f64 * Z)) (t : Z) : list f64 :=
  (List.filter (fun e => in_window spec e.2 t) h).*1.

Section reads.
Context (spec : WindowSpec) (w : PriceWindow) (h : list (f64 * Z)) (now t : Z).
Context (Hinv : price_inv spec w h now) (Hle : now <= t) (Hun : unlagged spec).

Lemma in_window_old e : e ∈ h -> in_window spec e.2 t = (w_lo spec t <=? e.2).
Proof.
  intros He. destruct (pi_old _ _ _ _ Hinv e He) as [Ho _]. pose proof (Hun t) as Hu. unfold in_window, w_lo, w_hi in *.
  destruct (w_bounds spec t) as [lo hi]. simpl in *. subst. replace (e.2 <=? t) with true by lia. apply andb_true_r.
Qed.

Lemma elem_inside dq e : (forall e, e ∈ dq -> e ∈ h) ->
  e ∈ pw_inside w t dq <-> e ∈ dq /\ w_lo spec t <= e.2.
Proof.
  intros Hs. unfold pw_inside. rewrite (pi_spec _ _ _ _ Hinv), list_elem_of_In, filter_In, <- list_elem_of_In.
  split; intros [Hd Hc]; (split; [done|]); rewrite in_window_old in * by auto; lia.
Qed.

Lemma elem_prices p : p ∈ prices_inside spec h t <-> exists e, e ∈ h /\ w_lo spec t <= e.2 /\ p = e.1.
Proof.
  unfold prices_inside. rewrite list_elem_of_fmap. setoid_rewrite list_elem_of_In. setoid_rewrite filter_In.
  setoid_rewrite <- list_elem_of_In. split.
  - intros (e & -> & He & Hc). exists e. rewrite in_window_old in Hc by done. split_and!; [done|lia|done].
  - intros (e & He & Hc & ->). exists e. rewrite in_window_old by done. split_and!; [done|done|lia].
Qed.

Lemma inside_good dq : (forall e, e ∈ dq -> e ∈ h) -> Forall good (pw_inside w t dq).*1.
Proof.
  intros Hs. apply Forall_forall. intros p Hp. apply list_elem_of_fmap in Hp as (e & -> & He).
  apply elem_inside in He as [He _]; [|done]. by apply (pi_old _ _ _ _ Hinv e), Hs.
Qed.

(** The extreme of a deque that stands for the history is the history's. *)
Lemma deque_extreme dom dq c (pick : list (f64 * Z) -> option f64) (le : f64 -> f64 -> Prop) :
  deque_ok dom dq h c -> c <= w_lo spec t ->
  (forall l, pick l = None <-> l = []) ->
  (forall l r, Forall good l.*1 -> pick l = Some r -> r ∈ l.*1 /\ forall p, p ∈ l.*1 -> le p r) ->
  (forall p q r, dom p q = true -> le q r -> le p r) ->
  match pick (pw_inside w t dq) with
  | Some r => r ∈ prices_inside spec h t /\ forall p, p ∈ prices_inside spec h t -> le p r
  | None => prices_inside spec h t = []
  end.
Proof.
  intros [Hr Hs Hd _] Hc Hnone Hpick Htr. destruct (pick _) as [r|] eqn:Hp.
  - apply Hpick in Hp as [Hin Hall]; [|by apply inside_good]. split.
    + apply list_elem_of_fmap in Hin as (e & -> & He). apply elem_inside in He as [He Hlo]; [|done].
      apply elem_prices. exists e. split_and!; [by apply Hs|done..].
    + intros p Hp. apply elem_prices in Hp as (e & He & Hlo & ->). destruct (Hd e He ltac:(lia)) as (e' & H1 & H2 & H3).
      apply (Htr _ e'.1); [done|]. apply Hall, list_elem_of_fmap. exists e'. split; [done|]. apply elem_inside; [done|]. split; [done|lia].
  - apply Hnone in Hp. destruct (prices_inside spec h t) as [|p l] eqn:He; [done|].
    assert (Hp' : p ∈ prices_inside spec h t) by (rewrite He; left). apply elem_prices in Hp' as (e & Hin & Hlo & ->).
    destruct (Hd e Hin ltac:(lia)) as (e' & H1 & H2 & _).
    assert (H' : e' ∈ pw_inside w t dq) by (apply elem_inside; [done|split; [done|lia]]). rewrite Hp in H'. by apply elem_of_nil in H'.
Qed.

Lemma w_lo_le : w_lo spec now <= w_lo spec t.
Proof. by apply w_lo_mono. Qed.

Lemma reads_high :
  match win_high w t with
  | Some r => r ∈ prices_inside spec h t /\ forall p, p ∈ prices_inside spec h t -> (p <=. r) = true
  | None => prices_inside spec h t = []
  end.
Proof.
  destruct (pi_max _ _ _ _ Hinv) as (c & Hc & Hdq). pose proof w_lo_le.
  apply (deque_extreme below _ c max_price (fun p r => (p <=. r) = true)); [done|lia| |apply max_price_spec|].
  - intros l. unfold max_price. rewrite reduce_none. by destruct l.
  - intros p q r. apply fle_trans.
Qed.

Lemma reads_low :
  match win_low w t with
  | Some r => r ∈ prices_inside spec h t /\ forall p, p ∈ prices_inside spec h t -> (r <=. p) = true
  | None => prices_inside spec h t = []
  end.
Proof.
  destruct (pi_min _ _ _ _ Hinv) as (c & Hc & Hdq). pose proof w_lo_le.
  apply (deque_extreme above _ c min_price (fun p r => (r <=. p) = true)); [done|lia| |apply min_price_spec|].
  - intros l. unfold min_price. rewrite reduce_none. by destruct l.
  - unfold above, fge. intros p q r H1 H2. by eapply fle_trans.
Qed.

Lemma reads_current : pw_current_price w t = head (prices_inside spec h t).
Proof.
  destruct (pi_max _ _ _ _ Hinv) as (c & Hc & [Hr Hs Hd Hl]). pose proof w_lo_le.
  unfold pw_current_price. rewrite newest_rising by (by apply rising_filter).
  pose proof (pi_desc _ _ _ _ Hinv) as Hdesc.
  assert (Hnil : (forall e, e ∈ h -> e.2 < w_lo spec t) ->
    fst <$> last (pw_inside w t (pw_max w)) = head (prices_inside spec h t)).
  { intros Hall. destruct (pw_inside w t (pw_max w)) as [|e l] eqn:E.
    - destruct (prices_inside spec h t) as [|p l] eqn:E2; [done|].
      assert (Hp : p ∈ prices_inside spec h t) by (rewrite E2; left). apply elem_prices in Hp as (e & He & Hlo & _).
      specialize (Hall e He). lia.
    - assert (Hin : e ∈ pw_inside w t (pw_max w)) by (rewrite E; left).
      apply elem_inside in Hin as [Hin Hlo]; [|done]. specialize (Hall e (Hs e Hin)). lia. }
  assert (Hcase : h = [] \/ exists e0 h0, h = e0 :: h0) by (destruct h; eauto).
  destruct Hcase as [Hh|(e0 & h0 & Hh)]; [apply Hnil; rewrite Hh; intros e He; by apply elem_of_nil in He|].
  destruct (Z.leb_spec (w_lo spec t) e0.2) as [Hlo|Hlo].
  - assert (Hw : in_window spec e0.2 t = true) by (rewrite in_window_old; [lia|rewrite Hh; left]).
    unfold pw_inside, prices_inside. rewrite (last_filter _ _ e0).
    + rewrite Hh. simpl List.filter. by rewrite Hw.
    + apply Hl; [by rewrite Hh|lia].
    + by rewrite (pi_spec _ _ _ _ Hinv).
  - apply Hnil. intros e He. rewrite Hh in Hdesc, He. apply StronglySorted_inv in Hdesc as [_ HF].
    rewrite Forall_forall in HF. apply elem_of_cons in He as [->|He]; [lia|]. specialize (HF e He). simpl in HF. lia.
Qed.
End reads.
