(* ===== verification/TrackIface.v ===== *)
(** * TrackIface: what the fold asks of a coin's metric track

    [TrackOps] is the interface of [metrics/track.rs TokenTrack] and
    [metrics/tags/config.rs compile_tags] the arms, the state and the fold are written
    against; [Buffers] is [metrics/buffers.rs], the registration walk, and the public-app
    stamp is [metrics/holder_book.rs]'s.  [CoinReads] is the trait of [arm.rs] a decision
    reads a coin through. *)

From S2P Require Export Events Vocab.

Record CompiledTag {P : Type} := { ct_key : Z; ct_name : string; ct_patterns : P }.
Arguments CompiledTag : clear implicits.

Class TrackOps := {
  Track : Type;
  TagDoc : Type;
  TagPatterns : Type;
  track_new : Ts -> Track;
  ensure_window : Track -> WindowSpec -> Track;
  ensure_price_window : Track -> WindowSpec -> Track;
  ensure_crowd_window : Track -> WindowSpec -> Track;
  ensure_build_window : Track -> WindowSpec -> Track;
  ensure_crowd_after_age : Track -> AgeAnchor -> Z -> Track;
  ensure_print_wallet : Track -> Track;
  ensure_holder_book : Track -> Track;
  ensure_tag : Track -> FingerprintId -> Z -> TagPatterns -> list WindowSpec -> Track;
  seed_creator : Track -> Z -> Track;
  track_on_trade : Track -> TradeLite -> Track;
  track_on_tick : Track -> Ts -> Track;
  track_value : Track -> MetricRef -> option FingerprintId -> Ts -> f64;
  current_price : Track -> f64;
  current_reserves : Track -> f64;
  current_priced_reserves : Track -> f64;
  track_cur_slot : Track -> Z;
  track_print_wallet : Track -> option Z;
  track_created_at : Track -> Ts;
  compile_tags : TagDoc -> gset Z -> list (CompiledTag TagPatterns);
}.

(** ** Buffers *)

Record TagRead := { tg_key : Z; tg_name : string; tg_trade : bool; tg_windows : list WindowSpec }.

Record Buffers := {
  flow_windows : list WindowSpec;
  price_windows : list WindowSpec;
  crowd_windows : list WindowSpec;
  build_windows : list WindowSpec;
  crowd_anchors : list (AgeAnchor * Z);
  bf_tags : list TagRead;
  bf_print_wallet : bool;
  bf_holder_book : bool;
  bf_needs_slot : bool;
}.

Definition Buffers_default : Buffers :=
  {| flow_windows := []; price_windows := []; crowd_windows := []; build_windows := [];
     crowd_anchors := []; bf_tags := []; bf_print_wallet := false; bf_holder_book := false;
     bf_needs_slot := false |}.

Definition has_window (v : list WindowSpec) (w : WindowSpec) : bool := existsb (fun x => wspec_eqb x w) v.

Definition push_window (v : list WindowSpec) (w : WindowSpec) : list WindowSpec :=
  if has_window v w then v else v ++ [w].

(** The entry of a tag, made when absent, changed by [f]. *)
Fixpoint with_tag_entry (tags : list TagRead) (key : Z) (name : string) (f : TagRead -> TagRead) : list TagRead :=
  match tags with
  | [] => [f {| tg_key := key; tg_name := name; tg_trade := false; tg_windows := [] |}]
  | t :: tags' => if tg_key t =? key then f t :: tags' else t :: with_tag_entry tags' key name f
  end.

Definition set_trade (t : TagRead) : TagRead :=
  {| tg_key := tg_key t; tg_name := tg_name t; tg_trade := true; tg_windows := tg_windows t |}.

Definition add_windows (ws : list WindowSpec) (t : TagRead) : TagRead :=
  {| tg_key := tg_key t; tg_name := tg_name t; tg_trade := tg_trade t;
     tg_windows := foldl push_window (tg_windows t) ws |}.

Fixpoint push_anchor (v : list (AgeAnchor * Z)) (a : AgeAnchor) (cap : Z) : list (AgeAnchor * Z) :=
  match v with
  | [] => [(a, cap)]
  | (x, c) :: v' => if bool_decide (x = a) then (x, Z.max c cap) :: v' else (x, c) :: push_anchor v' a cap
  end.

Definition opt_list {A} (o : option A) : list A := match o with Some x => [x] | None => [] end.

Definition set_flow (b : Buffers) (v : list WindowSpec) : Buffers :=
  {| flow_windows := v; price_windows := price_windows b; crowd_windows := crowd_windows b;
     build_windows := build_windows b; crowd_anchors := crowd_anchors b; bf_tags := bf_tags b;
     bf_print_wallet := bf_print_wallet b; bf_holder_book := bf_holder_book b; bf_needs_slot := bf_needs_slot b |}.
Definition set_price (b : Buffers) (v : list WindowSpec) : Buffers :=
  {| flow_windows := flow_windows b; price_windows := v; crowd_windows := crowd_windows b;
     build_windows := build_windows b; crowd_anchors := crowd_anchors b; bf_tags := bf_tags b;
     bf_print_wallet := bf_print_wallet b; bf_holder_book := bf_holder_book b; bf_needs_slot := bf_needs_slot b |}.
Definition set_crowd (b : Buffers) (v : list WindowSpec) : Buffers :=
  {| flow_windows := flow_windows b; price_windows := price_windows b; crowd_windows := v;
     build_windows := build_windows b; crowd_anchors := crowd_anchors b; bf_tags := bf_tags b;
     bf_print_wallet := bf_print_wallet b; bf_holder_book := bf_holder_book b; bf_needs_slot := bf_needs_slot b |}.
Definition set_build (b : Buffers) (v : list WindowSpec) : Buffers :=
  {| flow_windows := flow_windows b; price_windows := price_windows b; crowd_windows := crowd_windows b;
     build_windows := v; crowd_anchors := crowd_anchors b; bf_tags := bf_tags b;
     bf_print_wallet := bf_print_wallet b; bf_holder_book := bf_holder_book b; bf_needs_slot := bf_needs_slot b |}.
Definition set_anchors (b : Buffers) (v : list (AgeAnchor * Z)) : Buffers :=
  {| flow_windows := flow_windows b; price_windows := price_windows b; crowd_windows := crowd_windows b;
     build_windows := build_windows b; crowd_anchors := v; bf_tags := bf_tags b;
     bf_print_wallet := bf_print_wallet b; bf_holder_book := bf_holder_book b; bf_needs_slot := bf_needs_slot b |}.
Definition set_tags (b : Buffers) (v : list TagRead) : Buffers :=
  {| flow_windows := flow_windows b; price_windows := price_windows b; crowd_windows := crowd_windows b;
     build_windows := build_windows b; crowd_anchors := crowd_anchors b; bf_tags := v;
     bf_print_wallet := bf_print_wallet b; bf_holder_book := bf_holder_book b; bf_needs_slot := bf_needs_slot b |}.
Definition set_flags (b : Buffers) (print_wallet holder_book needs_slot : bool) : Buffers :=
  {| flow_windows := flow_windows b; price_windows := price_windows b; crowd_windows := crowd_windows b;
     build_windows := build_windows b; crowd_anchors := crowd_anchors b; bf_tags := bf_tags b;
     bf_print_wallet := print_wallet; bf_holder_book := holder_book; bf_needs_slot := needs_slot |}.

Definition absorb (b0 : Buffers) (r : MetricRef) (anchor_cap : Z) : Buffers :=
  let b := set_flags b0 (bf_print_wallet b0) (bf_holder_book b0) (bf_needs_slot b0 || span_needs_slot (mr_span r)) in
  let window := opt_list (sp_window (mr_span r)) in
  let scoped :=
    match mr_tag r with
    | Some t => set_tags b (with_tag_entry (bf_tags b) (tag_key t) (tag_name t)
                  (fun e => add_windows window (set_trade e)))
    | None => b
    end in
  match family (mr_metric r) with
  | FamFlow =>
      if is_fingerprint_scoped r then scoped
      else set_flow b (foldl push_window (flow_windows b) (span_axes (mr_span r)))
  | FamHoldings =>
      if is_fingerprint_scoped r then scoped
      else set_flags b (bf_print_wallet b) true (bf_needs_slot b)
  | FamPrice => set_price b (foldl push_window (price_windows b) window)
  | FamCrowd =>
      match mr_metric r with
      | UniqueWallets | TradesPerWallet => set_crowd b (foldl push_window (crowd_windows b) window)
      | UniqueIxShapes => set_build b (foldl push_window (build_windows b) window)
      | BuyerCount | BuyerIsNew =>
          match sp_since_age (mr_span r) with
          | Some a => set_anchors b (push_anchor (crowd_anchors b) a anchor_cap)
          | None => b
          end
      | _ => b
      end
  | FamPrint =>
      match mr_metric r with
      | SoldBagPct | FlatBefore =>
          match mr_tag r with
          | Some t => set_tags b (with_tag_entry (bf_tags b) (tag_key t) (tag_name t) set_trade)
          | None => b
          end
      | _ => set_flags b true (bf_holder_book b) (bf_needs_slot b)
      end
  | FamState | FamPosition => b
  end.

Definition buffers_union (b o : Buffers) : Buffers :=
  {| flow_windows := foldl push_window (flow_windows b) (flow_windows o);
     price_windows := foldl push_window (price_windows b) (price_windows o);
     crowd_windows := foldl push_window (crowd_windows b) (crowd_windows o);
     build_windows := foldl push_window (build_windows b) (build_windows o);
     crowd_anchors := foldl (fun v e => push_anchor v e.1 e.2) (crowd_anchors b) (crowd_anchors o);
     bf_tags := foldl (fun v t => with_tag_entry v (tg_key t) (tg_name t)
       (fun e => add_windows (tg_windows t) (if tg_trade t then set_trade e else e))) (bf_tags b) (bf_tags o);
     bf_print_wallet := bf_print_wallet b || bf_print_wallet o;
     bf_holder_book := bf_holder_book b || bf_holder_book o;
     bf_needs_slot := bf_needs_slot b || bf_needs_slot o |}.

Section ops.
Context `{TrackOps}.

Definition ensure_on (b : Buffers) (track : Track) : Track :=
  let track := foldl ensure_window track (flow_windows b) in
  let track := foldl ensure_price_window track (price_windows b) in
  let track := foldl ensure_crowd_window track (crowd_windows b) in
  let track := foldl ensure_build_window track (build_windows b) in
  let track := foldl (fun t e => ensure_crowd_after_age t e.1 e.2) track (crowd_anchors b) in
  let track := if bf_print_wallet b then ensure_print_wallet track else track in
  if bf_holder_book b then ensure_holder_book track else track.
End ops.

(** ** The public-app stamp *)

Definition PUBLIC_MIN_BUYERS : Z := 100.
Definition PUBLIC_MIN_REPEAT : Z := 2.

Definition is_public_app (b : BuildBreadth) : bool :=
  (PUBLIC_MIN_BUYERS <? bb_app_buyers b) && (PUBLIC_MIN_REPEAT * bb_app_buyers b <=? bb_app_buys b).

Definition public_recipes (breadth : list BuildBreadth) : gset Z :=
  list_to_set (bb_build_hash <$> List.filter is_public_app breadth).

Definition stamp_public (t : TradeLite) (public : option (gset Z)) : TradeLite :=
  if bool_decide (t_side t = Buy) then
    with_build_day_public t
      ((fun s => is_some_and (t_build_hash t) (fun h => bool_decide (h ∈ s))) <$> public)
  else t.

(** ** Reading a coin *)

Record MetricReq := {
  mq_r : MetricRef;
  mq_fingerprint : option FingerprintId;
  mq_tolerance : f64;
  mq_conds : ConditionExpr;
  mq_read_id : Z;
}.

Definition POSITION_READ : Z := u16_max.

Class CoinReads (R : Type) := {
  coin_value : R -> MetricReq -> Ts -> f64;
  coin_price : R -> f64;
  coin_age_sec : R -> Ts -> f64;
  coin_cur_slot : R -> Z;
  coin_print_wallet : R -> option Z;
}.

#[export] Instance track_reads `{TrackOps} : CoinReads Track := {|
  coin_value := fun t req now => track_value t (mq_r req) (mq_fingerprint req) now;
  coin_price := current_price;
  coin_age_sec := fun t now => secs_between (track_created_at t) now;
  coin_cur_slot := track_cur_slot;
  coin_print_wallet := track_print_wallet;
|}.

(** ** Facts *)

Lemma stamp_public_at t p : t_at (stamp_public t p) = t_at t.
Proof. unfold stamp_public. by case_bool_decide. Qed.

Lemma elem_public_recipes breadth h :
  h ∈ public_recipes breadth <-> exists b, b ∈ breadth /\ is_public_app b = true /\ bb_build_hash b = h.
Proof.
  unfold public_recipes. rewrite elem_of_list_to_set, list_elem_of_fmap. split.
  - intros (b & -> & Hb). apply list_elem_of_In, filter_In in Hb as [? ?].
    exists b. split_and!; try done. by apply list_elem_of_In.
  - intros (b & Hin & Hp & <-). exists b. split; [done|].
    apply list_elem_of_In, filter_In. split; [by apply list_elem_of_In|done].
Qed.

(** A buy is stamped as public exactly when the loaded table holds a public-app row of
    its recipe; a sell is never stamped. *)
Lemma stamp_public_spec t breadth :
  t_side t = Buy ->
  t_build_day_public (stamp_public t (Some (public_recipes breadth))) = Some true <->
  exists b, b ∈ breadth /\ t_build_hash t = Some (bb_build_hash b) /\
    100 < bb_app_buyers b /\ 2 * bb_app_buyers b <= bb_app_buys b.
Proof.
  intros Hs. unfold stamp_public. rewrite bool_decide_true by done. simpl.
  destruct (t_build_hash t) as [h|]; simpl.
  2: { split; [done|]. by intros (b & _ & ? & _). }
  split.
  - intros [= Hh%bool_decide_eq_true]. apply elem_public_recipes in Hh as (b & Hin & Hp & <-).
    exists b. unfold is_public_app, PUBLIC_MIN_BUYERS, PUBLIC_MIN_REPEAT in Hp. bool_to_prop. done.
  - intros (b & Hin & [= ->] & H1 & H2). f_equal. apply bool_decide_eq_true, elem_public_recipes.
    exists b. split_and!; try done. unfold is_public_app, PUBLIC_MIN_BUYERS, PUBLIC_MIN_REPEAT. lia.
Qed.
