(* ===== verification/Fee.v ===== *)
(** * Fee: declared fees and the rows of a build list

    [metrics/fee.rs]: three optional fee fields behind a presence mask, the pins of a
    row, and a list of exact and core rows: how a row parses, what the list keeps and
    which trades it matches. *)

From S2P Require Export Prelude Float64 TradeKeys.

(** ** The document values the configuration parsers read

    The values of [serde_json] as data: a number is an unsigned integer, a negative
    integer or a float, an object is its entries in iteration order, each key once.  The
    accessors are the ones the parsers call. *)

Inductive Value :=
  | VNull
  | VBool (b : bool)
  | VUint (n : Z)
  | VNeg (n : Z)
  | VFloat (x : f64)
  | VString (s : string)
  | VArray (l : list Value)
  | VObject (l : list (string * Value)).

Definition as_bool (v : Value) : option bool := match v with VBool b => Some b | _ => None end.
Definition as_u64 (v : Value) : option Z := match v with VUint n => Some n | _ => None end.
Definition as_str (v : Value) : option string := match v with VString s => Some s | _ => None end.
Definition as_array (v : Value) : option (list Value) := match v with VArray l => Some l | _ => None end.
Definition as_object (v : Value) : option (list (string * Value)) := match v with VObject l => Some l | _ => None end.

Definition is_null (v : Value) : bool := match v with VNull => true | _ => false end.

Definition get (obj : list (string * Value)) (key : string) : option Value :=
  snd <$> find_first (fun e => String.eqb e.1 key) obj.

(** An error or a value, as the parsers thread it. *)
Definition rbind {E A B} (r : E + A) (f : A -> E + B) : E + B :=
  match r with inl e => inl e | inr a => f a end.

Notation "'let?' x ':=' r 'in' k" := (rbind r (fun x => k)) (at level 200, x pattern, r at level 100, k at level 200) : engine_scope.

Definition ok_or {E A} (o : option A) (e : E) : E + A := match o with Some a => inr a | None => inl e end.

Fixpoint rfold {E A B} (f : A -> B -> E + A) (acc : A) (l : list B) : E + A :=
  match l with [] => inr acc | x :: l => let? acc := f acc x in rfold f acc l end.

(** ** Facts *)

Lemma rbind_inr {E A B} (r : E + A) (f : A -> E + B) b : rbind r f = inr b -> exists a, r = inr a /\ f a = inr b.
Proof. destruct r as [e|a]; [done|]. by exists a. Qed.

Lemma rfold_app {E A B} (f : A -> B -> E + A) l1 : forall acc l2,
  rfold f acc (l1 ++ l2) = let? acc := rfold f acc l1 in rfold f acc l2.
Proof. induction l1 as [|x l1 IH]; intros acc l2; simpl; [done|]. destruct (f acc x); simpl; [done|apply IH]. Qed.

(** ** Fee keys *)

Definition HAS_CU_LIMIT : Z := 1.
Definition HAS_CU_PRICE : Z := 2.
Definition HAS_TIP : Z := 4.

Definition FeeKeys_new (cu_limit cu_price tip_lamports : option Z) : FeeKeys :=
  {| fk_cu_price := unwrap_or cu_price 0; fk_tip_lamports := unwrap_or tip_lamports 0;
     fk_cu_limit := unwrap_or cu_limit 0;
     fk_present := Z.lor (if is_someb cu_limit then HAS_CU_LIMIT else 0)
       (Z.lor (if is_someb cu_price then HAS_CU_PRICE else 0) (if is_someb tip_lamports then HAS_TIP else 0)) |}.

Definition fee_cu_limit (f : FeeKeys) : option Z :=
  if Z.land (fk_present f) HAS_CU_LIMIT =? 0 then None else Some (fk_cu_limit f).
Definition fee_cu_price (f : FeeKeys) : option Z :=
  if Z.land (fk_present f) HAS_CU_PRICE =? 0 then None else Some (fk_cu_price f).
Definition fee_tip_lamports (f : FeeKeys) : option Z :=
  if Z.land (fk_present f) HAS_TIP =? 0 then None else Some (fk_tip_lamports f).
Definition fee_is_empty (f : FeeKeys) : bool := fk_present f =? 0.

(** [u128::div_ceil]. *)
Definition div_ceil (a b : Z) : Z := (a + b - 1) / b.

Definition priority_lamports (f : FeeKeys) : option Z :=
  let compute :=
    match fee_cu_limit f, fee_cu_price f with
    | Some l, Some p => Some (Z.min (div_ceil (l * p) 1000000) u64_max)
    | _, _ => None
    end in
  match compute, fee_tip_lamports f with
  | None, None => None
  | c, t => Some (sat_add u64_max (unwrap_or c 0) (unwrap_or t 0))
  end.

(** ** Pins *)

Definition MAX_TX_COMPUTE_UNITS : Z := 1400000.

Record FeeSpec := { fs_cu_limit : option Z; fs_cu_price : option Z; fs_tip_lamports : option Z }.

#[export] Instance FeeSpec_eq_dec : EqDecision FeeSpec.
Proof. solve_decision. Defined.

Definition pinned (want got : option Z) : bool :=
  match want with None => true | Some w => bool_decide (got = Some w) end.

Definition FeeSpec_wildcard : FeeSpec := {| fs_cu_limit := None; fs_cu_price := None; fs_tip_lamports := None |}.

Definition is_wildcard (s : FeeSpec) : bool := bool_decide (s = FeeSpec_wildcard).

Definition fee_matches (s : FeeSpec) (fee : FeeKeys) : bool :=
  pinned (fs_cu_limit s) (fee_cu_limit fee) && pinned (fs_cu_price s) (fee_cu_price fee) &&
  pinned (fs_tip_lamports s) (fee_tip_lamports fee).

Record CoreSpec := { cs_side : option Side; cs_marks : option Z; cs_fee : FeeSpec }.

#[export] Instance CoreSpec_eq_dec : EqDecision CoreSpec.
Proof. solve_decision. Defined.

Definition core_matches (r : CoreSpec) (side : Side) (marks : Z) (fee : FeeKeys) : bool :=
  is_none_or (cs_side r) (fun s => bool_decide (s = side)) && is_none_or (cs_marks r) (fun m => m =? marks) &&
  fee_matches (cs_fee r) fee.

(** ** Rows *)

Inductive RowError :=
  | RowNoLabels | RowLabelsNotArray | RowLevel | RowNeedsCore (field : string) | RowSide
  | RowMarks (e : MarkError) | RowMarksNotText | RowNotInteger (field : string) | RowCuLimitTooBig (n : Z)
  | RowLabelNotString | RowShape.

Inductive ShapeRow :=
  | RowSkip
  | RowExact (labels : list string) (fee : FeeSpec)
  | RowCore (labels : list string) (side : option Side) (marks : option Z) (fee : FeeSpec).

(** [obj.get(k)] with an absent key and [null] alike. *)
Definition get_some (obj : list (string * Value)) (key : string) : option Value :=
  match get obj key with Some VNull | None => None | Some v => Some v end.

Definition row_level (obj : list (string * Value)) : option bool :=
  match get_some obj "level" with
  | None => Some false
  | Some (VString s) => if String.eqb s "exact" then Some false else if String.eqb s "core" then Some true else None
  | Some _ => None
  end.

Definition row_side (obj : list (string * Value)) : option (option Side) :=
  match get_some obj "side" with
  | None => Some None
  | Some (VString s) =>
      if String.eqb s "buy" then Some (Some Buy) else if String.eqb s "sell" then Some (Some Sell) else None
  | Some _ => None
  end.

Fixpoint label_strs (labels : list Value) : RowError + list string :=
  match labels with
  | [] => inr []
  | VString s :: labels => let? rest := label_strs labels in inr (s :: rest)
  | _ :: _ => inl RowLabelNotString
  end.

Definition fee_field (obj : list (string * Value)) (key : string) : RowError + option Z :=
  match get_some obj key with
  | None => inr None
  | Some v => match as_u64 v with Some n => inr (Some n) | None => inl (RowNotInteger key) end
  end.

Definition shape_row (row : Value) : RowError + ShapeRow :=
  match row with
  | VArray labels =>
      let? seq := label_strs labels in
      match seq with [] => inr RowSkip | _ => inr (RowExact seq FeeSpec_wildcard) end
  | VObject obj =>
      let? labels := match get obj "labels" with
                     | None => inl RowNoLabels
                     | Some (VArray l) => inr l
                     | Some _ => inl RowLabelsNotArray
                     end in
      let? core := ok_or (row_level obj) RowLevel in
      let? _ := if negb core && is_someb (get_some obj "side") then inl (RowNeedsCore "side") else inr tt in
      let? _ := if negb core && is_someb (get_some obj "marks") then inl (RowNeedsCore "marks") else inr tt in
      let? side := ok_or (row_side obj) RowSide in
      let? marks := match get_some obj "marks" with
                    | None => inr None
                    | Some (VString m) =>
                        match core_marks_from_text m with inl e => inl (RowMarks e) | inr n => inr (Some n) end
                    | Some _ => inl RowMarksNotText
                    end in
      let? cu_limit := fee_field obj "cu_limit" in
      let? cu_price := fee_field obj "cu_price" in
      let? tip := fee_field obj "tip_lamports" in
      let? _ := match cu_limit with
                | Some v => if MAX_TX_COMPUTE_UNITS <? v then inl (RowCuLimitTooBig v) else inr tt
                | None => inr tt
                end in
      let fee := {| fs_cu_limit := cu_limit; fs_cu_price := cu_price; fs_tip_lamports := tip |} in
      let? seq := label_strs labels in
      match seq with
      | [] => inr RowSkip
      | _ => if core then inr (RowCore seq side marks fee) else inr (RowExact seq fee)
      end
  | _ => inl RowShape
  end.

(** ** The list *)

Record IxShapeRows := { by_shape : gmap Z (list FeeSpec); by_core : gmap Z (list CoreSpec) }.

Definition IxShapeRows_default : IxShapeRows := {| by_shape := ∅; by_core := ∅ |}.

Definition insert_spec (specs : list FeeSpec) (spec : FeeSpec) : list FeeSpec :=
  if is_wildcard spec then [spec]
  else if existsb (fun s => is_wildcard s || bool_decide (s = spec)) specs then specs
  else specs ++ [spec].

Definition rows_insert (rows : IxShapeRows) (hash : Z) (spec : FeeSpec) : IxShapeRows :=
  {| by_shape := <[hash := insert_spec (unwrap_or (by_shape rows !! hash) []) spec]> (by_shape rows);
     by_core := by_core rows |}.

Definition rows_insert_core (rows : IxShapeRows) (hash : Z) (row : CoreSpec) : IxShapeRows :=
  let specs := unwrap_or (by_core rows !! hash) [] in
  {| by_shape := by_shape rows;
     by_core := <[hash := if contains specs row then specs else specs ++ [row]]> (by_core rows) |}.

Definition rows_add (out : IxShapeRows) (row : Value) : option IxShapeRows :=
  match shape_row row with
  | inl _ => None
  | inr RowSkip => Some out
  | inr (RowExact labels fee) => Some (rows_insert out (ix_hash labels) fee)
  | inr (RowCore labels side marks fee) =>
      h ← core_hash labels;
      Some (rows_insert_core out h {| cs_side := side; cs_marks := marks; cs_fee := fee |})
  end.

Fixpoint rows_parse (out : IxShapeRows) (rows : list Value) : option IxShapeRows :=
  match rows with [] => Some out | row :: rows => out ← rows_add out row; rows_parse out rows end.

Fixpoint rows_validate (i : Z) (rows : list Value) : (Z * RowError) + unit :=
  match rows with
  | [] => inr tt
  | row :: rows => match shape_row row with inl e => inl (i, e) | inr _ => rows_validate (i + 1) rows end
  end.

Definition rows_match (rows : IxShapeRows) (h : option Z) (fee : FeeKeys) : bool :=
  match h with
  | None => false
  | Some h => is_some_and (by_shape rows !! h) (existsb (fun s => fee_matches s fee))
  end.

Definition rows_match_core (rows : IxShapeRows) (h : option Z) (side : Side) (marks : Z) (fee : FeeKeys) : bool :=
  match h with
  | None => false
  | Some h => is_some_and (by_core rows !! h) (existsb (fun r => core_matches r side marks fee))
  end.

Definition pins_fee (rows : IxShapeRows) : bool :=
  existsb (fun e => existsb (fun s => negb (is_wildcard s)) e.2) (map_to_list (by_shape rows)) ||
  existsb (fun e => existsb (fun r => negb (is_wildcard (cs_fee r))) e.2) (map_to_list (by_core rows)).

Definition has_core (rows : IxShapeRows) : bool := negb (bool_decide (by_core rows = ∅)).

(** ** Facts *)

(** Each field reads back what it was made with: a real zero is not an absent reading. *)
Lemma fee_fields_roundtrip l p t :
  fee_cu_limit (FeeKeys_new l p t) = l /\ fee_cu_price (FeeKeys_new l p t) = p /\
  fee_tip_lamports (FeeKeys_new l p t) = t /\
  (fee_is_empty (FeeKeys_new l p t) = true <-> l = None /\ p = None /\ t = None).
Proof.
  destruct l, p, t; (split_and!; [done..|]); (split; [by intros|by intros (? & ? & ?)]).
Qed.

Lemma fee_matches_wildcard fee : fee_matches FeeSpec_wildcard fee = true.
Proof. done. Qed.

(** Subsumption never changes what a shape matches: the kept specs match a fee exactly
    when one of the inserted ones does. *)
Lemma insert_spec_matches specs spec fee :
  existsb (fun s => fee_matches s fee) (insert_spec specs spec) =
    existsb (fun s => fee_matches s fee) specs || fee_matches spec fee.
Proof.
  unfold insert_spec. destruct (is_wildcard spec) eqn:Hw.
  - apply bool_decide_eq_true in Hw as ->. simpl. by rewrite orb_true_r.
  - destruct (existsb _ specs) eqn:He; [|by rewrite existsb_app; simpl; rewrite orb_false_r].
    destruct (fee_matches spec fee) eqn:Hm; [|by rewrite orb_false_r]. rewrite orb_true_r.
    apply existsb_exists in He as (s & Hin & Hs). apply existsb_exists. exists s. split; [done|].
    apply orb_true_iff in Hs as [Hs|Hs]; apply bool_decide_eq_true in Hs; by subst.
Qed.

Lemma rows_insert_match rows hash spec h fee :
  rows_match (rows_insert rows hash spec) (Some h) fee =
    rows_match rows (Some h) fee || (bool_decide (h = hash) && fee_matches spec fee).
Proof.
  unfold rows_match, rows_insert. simpl. case_bool_decide as Hh.
  - subst. rewrite lookup_insert_eq. simpl. rewrite insert_spec_matches. by destruct (by_shape rows !! hash).
  - rewrite lookup_insert_ne by done. by rewrite orb_false_r.
Qed.

(** Whether one row of a document matches a trade's exact key. *)
Definition row_hits (h : Z) (fee : FeeKeys) (row : Value) : bool :=
  match shape_row row with inr (RowExact labels spec) => bool_decide (h = ix_hash labels) && fee_matches spec fee | _ => false end.

Lemma rows_parse_match rows : forall out parsed h fee,
  rows_parse out rows = Some parsed ->
  rows_match parsed (Some h) fee = rows_match out (Some h) fee || existsb (row_hits h fee) rows.
Proof.
  induction rows as [|row rows IH]; intros out parsed h fee Hp; cbn [rows_parse existsb] in *.
  - injection Hp as <-. by rewrite orb_false_r.
  - apply bind_Some in Hp as (out' & Ha & Hp). rewrite (IH _ _ h fee Hp). unfold rows_add in Ha. unfold row_hits at 2.
    destruct (shape_row row) as [|[|labels spec|labels side marks spec]]; [done| | |].
    + by injection Ha as <-.
    + injection Ha as <-. rewrite rows_insert_match. by rewrite orb_assoc.
    + apply bind_Some in Ha as (k & _ & [= <-]). done.
Qed.

(** A core row carries labels, so it has a core hash. *)
Lemma shape_row_core_labels row labels side marks fee :
  shape_row row = inr (RowCore labels side marks fee) -> labels <> [].
Proof.
  destruct row; cbn [shape_row]; try done; intros H; repeat (apply rbind_inr in H as (? & _ & H)); cbv zeta in *;
    repeat case_match; try done; injection H; intros; by subst.
Qed.

(** A list parses exactly when every row of it validates. *)
Lemma rows_parse_validate rows : forall out i, is_Some (rows_parse out rows) <-> rows_validate i rows = inr tt.
Proof.
  induction rows as [|row rows IH]; intros out i; cbn [rows_parse rows_validate]; [split; [done|by eexists]|].
  unfold rows_add. destruct (shape_row row) as [e|[|labels spec|labels side marks spec]] eqn:Hr; cbn [mbind option_bind].
  - split; [by intros []|done].
  - apply IH.
  - apply IH.
  - destruct (core_hash labels) as [h|] eqn:Hh; [apply IH|]. apply shape_row_core_labels in Hr. by destruct labels.
Qed.
