(* ===== verification/Tags.v ===== *)
(** * TagConfig: the tags document of a fingerprint

    [metrics/tags/config.rs] and the name rules of [metrics/tags/mod.rs]: one tag
    definition parsed with its errors, the whole document validated on save, and
    compiled once per reload with our own wallets stamped into every tag. *)

From S2P Require Export Fee TrackIface Text Windows.

(** ** Names *)

Definition MAX_NAME_LEN : nat := 24.

Inductive NameError := NameLength (name : string) | NameChars (name : string).

Definition name_char (c : Ascii.ascii) : bool :=
  let n := byte_of c in ((97 <=? n) && (n <=? 122)) || ((48 <=? n) && (n <=? 57)) || (n =? 95).

Fixpoint str_all (f : Ascii.ascii -> bool) (s : string) : bool :=
  match s with EmptyString => true | String c s => f c && str_all f s end.

Definition check_name (name : string) : NameError + unit :=
  if String.eqb name EmptyString || (MAX_NAME_LEN <? String.length name)%nat then inl (NameLength name)
  else if negb (str_all name_char name) then inl (NameChars name)
  else inr tt.

(** [TagRef::parse]: [volume] or [!volume]. *)
Definition tag_ref_parse (s : string) : NameError + TagRef :=
  let s := trim s in
  let '(negated, name) := match str_strip_prefix "!" s with Some rest => (true, trim rest) | None => (false, s) end in
  let? _ := check_name name in inr (tag_ref name negated).

(** ** One definition *)

Record TagPatterns := {
  tp_shapes : IxShapeRows; tp_programs : gset Z; tp_templates : gset Z; tp_contains : Z; tp_lacks : Z;
  tp_wallets : gset Z; tp_creator : bool; tp_side : option Side; tp_sticky : bool; tp_own_wallets : gset Z }.

Definition TagPatterns_default : TagPatterns :=
  {| tp_shapes := IxShapeRows_default; tp_programs := ∅; tp_templates := ∅; tp_contains := 0; tp_lacks := 0;
     tp_wallets := ∅; tp_creator := false; tp_side := None; tp_sticky := false; tp_own_wallets := ∅ |}.

Definition tp_marks (p : TagPatterns) (bits : Z) : bool :=
  (negb (tp_contains p =? 0) && negb (Z.land bits (tp_contains p) =? 0)) ||
  (negb (tp_lacks p =? 0) && (Z.land bits (tp_lacks p) =? 0)).

Inductive TagError :=
  | TagNotObject | TagSideValue | TagNotBool (key : string) | TagUnknownKey (key : string) | TagNoMatch
  | TagEmptyMatch | TagNotStrings (key : string) | TagBlank (key : string) (i : Z) | TagRow (i : Z) (e : RowError)
  | TagRowsMalformed | TagNotTemplate (s : string) | TagUnknownMarker (s : string) | TagUnknownMatcher (key : string).

Fixpoint strings_at (key : string) (i : Z) (arr : list Value) : TagError + list string :=
  match arr with
  | [] => inr []
  | v :: arr =>
      match as_str v with
      | None => inl (TagNotStrings key)
      | Some s =>
          if String.eqb (trim s) EmptyString then inl (TagBlank key i)
          else let? rest := strings_at key (i + 1) arr in inr (s :: rest)
      end
  end.

Definition strings (key : string) (v : Value) : TagError + list string :=
  let? arr := ok_or (as_array v) (TagNotStrings key) in strings_at key 0 arr.

Definition parse_bool (key : string) (v : Value) : TagError + bool := ok_or (as_bool v) (TagNotBool key).

Definition set_side (p : TagPatterns) (s : option Side) : TagPatterns :=
  {| tp_shapes := tp_shapes p; tp_programs := tp_programs p; tp_templates := tp_templates p;
     tp_contains := tp_contains p; tp_lacks := tp_lacks p; tp_wallets := tp_wallets p; tp_creator := tp_creator p;
     tp_side := s; tp_sticky := tp_sticky p; tp_own_wallets := tp_own_wallets p |}.
Definition set_sticky (p : TagPatterns) (b : bool) : TagPatterns :=
  {| tp_shapes := tp_shapes p; tp_programs := tp_programs p; tp_templates := tp_templates p;
     tp_contains := tp_contains p; tp_lacks := tp_lacks p; tp_wallets := tp_wallets p; tp_creator := tp_creator p;
     tp_side := tp_side p; tp_sticky := b; tp_own_wallets := tp_own_wallets p |}.
Definition set_match (p : TagPatterns) (shapes : IxShapeRows) (programs templates : gset Z) (contains lacks : Z)
    (wallets : gset Z) (creator : bool) : TagPatterns :=
  {| tp_shapes := shapes; tp_programs := programs; tp_templates := templates; tp_contains := contains;
     tp_lacks := lacks; tp_wallets := wallets; tp_creator := creator; tp_side := tp_side p; tp_sticky := tp_sticky p;
     tp_own_wallets := tp_own_wallets p |}.
Definition set_own_wallets (p : TagPatterns) (own : gset Z) : TagPatterns :=
  {| tp_shapes := tp_shapes p; tp_programs := tp_programs p; tp_templates := tp_templates p;
     tp_contains := tp_contains p; tp_lacks := tp_lacks p; tp_wallets := tp_wallets p; tp_creator := tp_creator p;
     tp_side := tp_side p; tp_sticky := tp_sticky p; tp_own_wallets := own |}.

(** One key of the definition besides [match]. *)
Definition parse_option (p : TagPatterns) (e : string * Value) : TagError + TagPatterns :=
  let '(k, v) := e in
  if String.eqb k "match" then inr p
  else if String.eqb k "side" then
    match as_str v with
    | Some s =>
        if String.eqb s "buy" then inr (set_side p (Some Buy))
        else if String.eqb s "sell" then inr (set_side p (Some Sell)) else inl TagSideValue
    | None => inl TagSideValue
    end
  else if String.eqb k "sticky" then let? b := parse_bool k v in inr (set_sticky p b)
  else inl (TagUnknownKey k).

Definition hash_all (h : string -> Z) (set : gset Z) (l : list string) : gset Z :=
  foldl (fun s x => {[ h x ]} ∪ s) set l.

Fixpoint template_set (set : gset Z) (l : list string) : TagError + gset Z :=
  match l with
  | [] => inr set
  | s :: l => if negb (str_contains s "|") then inl (TagNotTemplate s) else template_set ({[ grain_id_hash s ]} ∪ set) l
  end.

Definition mask_of (l : list string) : TagError + Z :=
  match marker_mask 0 l with inl n => inl (TagUnknownMarker n) | inr m => inr m end.

(** One key of the [match] object. *)
Definition parse_matcher (p : TagPatterns) (e : string * Value) : TagError + TagPatterns :=
  let '(k, v) := e in
  if String.eqb k "program" then
    let? l := strings k v in
    inr (set_match p (tp_shapes p) (hash_all program_id_hash (tp_programs p) l) (tp_templates p) (tp_contains p)
           (tp_lacks p) (tp_wallets p) (tp_creator p))
  else if String.eqb k "ix_shape" then
    let? rows := ok_or (as_array v) (TagNotStrings k) in
    let? _ := match rows_validate 0 rows with inl (i, e) => inl (TagRow i e) | inr _ => inr tt end in
    let? shapes := ok_or (rows_parse IxShapeRows_default rows) TagRowsMalformed in
    inr (set_match p shapes (tp_programs p) (tp_templates p) (tp_contains p) (tp_lacks p) (tp_wallets p) (tp_creator p))
  else if String.eqb k "ix_template" then
    let? l := strings k v in
    let? templates := template_set (tp_templates p) l in
    inr (set_match p (tp_shapes p) (tp_programs p) templates (tp_contains p) (tp_lacks p) (tp_wallets p) (tp_creator p))
  else if String.eqb k "ix_contains" then
    let? l := strings k v in
    let? m := mask_of l in
    inr (set_match p (tp_shapes p) (tp_programs p) (tp_templates p) m (tp_lacks p) (tp_wallets p) (tp_creator p))
  else if String.eqb k "ix_lacks" then
    let? l := strings k v in
    let? m := mask_of l in
    inr (set_match p (tp_shapes p) (tp_programs p) (tp_templates p) (tp_contains p) m (tp_wallets p) (tp_creator p))
  else if String.eqb k "wallet" then
    let? l := strings k v in
    inr (set_match p (tp_shapes p) (tp_programs p) (tp_templates p) (tp_contains p) (tp_lacks p)
           (hash_all (fun s => wallet_hash (trim s)) (tp_wallets p) l) (tp_creator p))
  else if String.eqb k "creator" then
    let? b := parse_bool k v in
    inr (set_match p (tp_shapes p) (tp_programs p) (tp_templates p) (tp_contains p) (tp_lacks p) (tp_wallets p) b)
  else inl (TagUnknownMatcher k).

Definition parse_tag (def : Value) : TagError + TagPatterns :=
  let? obj := ok_or (as_object def) TagNotObject in
  let? p := rfold parse_option TagPatterns_default obj in
  let? m := ok_or (v ← get obj "match"; as_object v) TagNoMatch in
  match m with [] => inl TagEmptyMatch | _ => rfold parse_matcher p m end.

(** ** The document *)

Inductive DocError := DocNotObject | DocName (e : NameError) | DocBuiltin (name : string) | DocTag (name : string) (e : TagError).

Definition tag_map (doc : Value) : DocError + option (list (string * Value)) :=
  match doc with VNull => inr None | VObject m => inr (Some m) | _ => inl DocNotObject end.

Definition validate_entry (u : unit) (e : string * Value) : DocError + unit :=
  let '(name, def) := e in
  let? _ := match check_name name with inl x => inl (DocName x) | inr _ => inr tt end in
  if contains BUILTIN name then inl (DocBuiltin name)
  else match parse_tag def with inl x => inl (DocTag name x) | inr _ => inr tt end.

Definition validate_tags (doc : Value) : DocError + unit :=
  let? m := tag_map doc in
  match m with None => inr tt | Some m => rfold validate_entry tt m end.

Definition own_wallet_set (pubkeys : list string) : gset Z := hash_all (fun k => wallet_hash (trim k)) ∅ pubkeys.

Definition compile_entry (own : gset Z) (e : string * Value) : option (CompiledTag TagPatterns) :=
  let '(name, def) := e in
  match check_name name with
  | inl _ => None
  | inr _ =>
      if contains BUILTIN name then None
      else match parse_tag def with
           | inl _ => None
           | inr p => Some {| ct_key := tag_key_of name; ct_name := name; ct_patterns := set_own_wallets p own |}
           end
  end.

Definition compile_doc (doc : Value) (own : gset Z) : list (CompiledTag TagPatterns) :=
  match tag_map doc with inr (Some m) => omap (compile_entry own) m | _ => [] end.

Definition tag_names (doc : Value) : list string := match doc with VObject m => m.*1 | _ => [] end.

(** ** Facts *)

Lemma hash_all_elem h l : forall set x, x ∈ hash_all h set l <-> x ∈ set \/ exists s, s ∈ l /\ x = h s.
Proof.
  induction l as [|s l IH]; intros set x; simpl.
  - split; [by left|]. intros [Hx|(s & Hs & _)]; [done|]. by apply elem_of_nil in Hs.
  - change (foldl _ _ l) with (hash_all h ({[h s]} ∪ set) l). rewrite IH, elem_of_union, elem_of_singleton. split.
    + intros [[->|Hx]|(t & Ht & ->)]; [right; exists s; by split; [left|]|by left|right; exists t; by split; [right|]].
    + intros [Hx|(t & [->|Ht]%elem_of_cons & ->)]; [by left; right|by left; left|right; by exists t].
Qed.

(** A saved document compiles to every tag it names, in its order. *)
Lemma validated_compiles doc own :
  validate_tags doc = inr tt -> ct_name <$> compile_doc doc own = tag_names doc.
Proof.
  unfold validate_tags, compile_doc, tag_names, tag_map. destruct doc; cbn [rbind]; try done.
  induction l as [|[name def] l IH]; [done|]. cbn [rfold omap list_omap]. intros H.
  apply rbind_inr in H as ([] & He & H). unfold validate_entry in He. cbn [compile_entry].
  destruct (check_name name) as [|[]]; [done|]. cbn [rbind] in He. destruct (contains BUILTIN name); [done|].
  destruct (parse_tag def) as [|p]; [done|]. cbn. f_equal. by apply IH.
Qed.

(** Every compiled tag carries our own wallets, a well-formed name that is not a built-in
    class, and that name's key. *)
Lemma compiled_tag_ok doc own t :
  t ∈ compile_doc doc own ->
  tp_own_wallets (ct_patterns t) = own /\ ct_key t = tag_key_of (ct_name t) /\
  check_name (ct_name t) = inr tt /\ contains BUILTIN (ct_name t) = false.
Proof.
  unfold compile_doc. destruct (tag_map doc) as [|[m|]]; try (intros H; by apply elem_of_nil in H).
  rewrite list_elem_of_omap. intros ([name def] & _ & Hc). unfold compile_entry in Hc.
  destruct (check_name name) as [|[]] eqn:Hn; [done|]. destruct (contains BUILTIN name) eqn:Hb; [done|].
  destruct (parse_tag def); [done|]. injection Hc as <-. by split_and!.
Qed.

(** ** One tag on one coin

    [metrics/tags/state.rs]: which trades carry the tag, the totals of both halves over
    the coin's life and over trailing windows, the bags behind the print readings, and
    the profit of a half.  Every sum is the source's [f64] running sum. *)

(** ** Totals of one half *)

Record SideTotals := {
  st_buy_sol : f64; st_sell_sol : f64; st_buy_n : Z; st_sell_n : Z; st_buy_tx : Z; st_sell_tx : Z }.

Definition SideTotals_default : SideTotals :=
  {| st_buy_sol := f_zero; st_sell_sol := f_zero; st_buy_n := 0; st_sell_n := 0; st_buy_tx := 0; st_sell_tx := 0 |}.

Definition b2z (b : bool) : Z := if b then 1 else 0.

Definition side_add (s : SideTotals) (side : Side) (sol : f64) (first_leg : bool) : SideTotals :=
  match side with
  | Buy => {| st_buy_sol := st_buy_sol s ⊕ sol; st_sell_sol := st_sell_sol s; st_buy_n := wrap_u 32 (st_buy_n s + 1);
              st_sell_n := st_sell_n s; st_buy_tx := wrap_u 32 (st_buy_tx s + b2z first_leg); st_sell_tx := st_sell_tx s |}
  | Sell => {| st_buy_sol := st_buy_sol s; st_sell_sol := st_sell_sol s ⊕ sol; st_buy_n := st_buy_n s;
               st_sell_n := wrap_u 32 (st_sell_n s + 1); st_buy_tx := st_buy_tx s;
               st_sell_tx := wrap_u 32 (st_sell_tx s + b2z first_leg) |}
  end.

Definition side_sub_signed (s : SideTotals) (signed : f64) (first_leg : bool) : SideTotals :=
  if negb (is_sign_negative signed)
  then {| st_buy_sol := st_buy_sol s ⊖ signed; st_sell_sol := st_sell_sol s; st_buy_n := sat_sub (st_buy_n s) 1;
          st_sell_n := st_sell_n s; st_buy_tx := sat_sub (st_buy_tx s) (b2z first_leg); st_sell_tx := st_sell_tx s |}
  else {| st_buy_sol := st_buy_sol s; st_sell_sol := st_sell_sol s ⊕ signed; st_buy_n := st_buy_n s;
          st_sell_n := sat_sub (st_sell_n s) 1; st_buy_tx := st_buy_tx s;
          st_sell_tx := sat_sub (st_sell_tx s) (b2z first_leg) |}.

(** ** Both halves *)

Record SplitTotals := { sp_tagged : SideTotals; sp_rest : SideTotals }.

Definition SplitTotals_default : SplitTotals := {| sp_tagged := SideTotals_default; sp_rest := SideTotals_default |}.

Definition on_half (s : SplitTotals) (tagged : bool) (f : SideTotals -> SideTotals) : SplitTotals :=
  if tagged then {| sp_tagged := f (sp_tagged s); sp_rest := sp_rest s |}
  else {| sp_tagged := sp_tagged s; sp_rest := f (sp_rest s) |}.

Definition split_value (t : SplitTotals) (m : Metric) (negated : bool) : f64 :=
  let s := if negated then sp_rest t else sp_tagged t in
  match m with
  | BuySol => st_buy_sol s
  | SellSol => st_sell_sol s
  | NetSol => st_buy_sol s ⊖ st_sell_sol s
  | GrossSol => st_buy_sol s ⊕ st_sell_sol s
  | BuyCount => f_of_Z (st_buy_n s)
  | SellCount => f_of_Z (st_sell_n s)
  | TradeCount => f_of_Z (wrap_u 32 (st_buy_n s + st_sell_n s))
  | BuyTxCount => f_of_Z (st_buy_tx s)
  | SellTxCount => f_of_Z (st_sell_tx s)
  | TagSharePct =>
      let vg := st_buy_sol (sp_tagged t) ⊕ st_sell_sol (sp_tagged t) in
      let ng := st_buy_sol (sp_rest t) ⊕ st_sell_sol (sp_rest t) in
      let total := vg ⊕ ng in
      if total >. f_zero then f_of_Z 100 ⊗ (if negated then ng else vg) ⊘ total else f_nan
  | _ => f_nan
  end.

(** ** Tokens of a window *)

Record TokSide := { tk_buy : f64; tk_sell : f64 }.

Definition tok_add_signed (s : TokSide) (tokens : f64) : TokSide :=
  if negb (is_sign_negative tokens) then {| tk_buy := tk_buy s ⊕ tokens; tk_sell := tk_sell s |}
  else {| tk_buy := tk_buy s; tk_sell := tk_sell s ⊖ tokens |}.

Definition tok_sub_signed (s : TokSide) (tokens : f64) : TokSide :=
  if negb (is_sign_negative tokens) then {| tk_buy := tk_buy s ⊖ tokens; tk_sell := tk_sell s |}
  else {| tk_buy := tk_buy s; tk_sell := tk_sell s ⊕ tokens |}.

Record TokSplit := { tok_tagged : TokSide; tok_rest : TokSide }.

Definition TokSplit_default : TokSplit :=
  {| tok_tagged := {| tk_buy := f_zero; tk_sell := f_zero |}; tok_rest := {| tk_buy := f_zero; tk_sell := f_zero |} |}.

Definition on_tok_half (s : TokSplit) (tagged : bool) (f : TokSide -> TokSide) : TokSplit :=
  if tagged then {| tok_tagged := f (tok_tagged s); tok_rest := tok_rest s |}
  else {| tok_tagged := tok_tagged s; tok_rest := f (tok_rest s) |}.

(** ** One trailing window *)

Record Entry := { en_signed : f64; en_tokens : f64; en_tagged : bool; en_first_leg : bool }.

Record TagWindow := { tw_spec : WindowSpec; tw_buf : list (Z * Entry); tw_totals : SplitTotals; tw_tok : TokSplit }.

Definition TagWindow_new (spec : WindowSpec) : TagWindow :=
  {| tw_spec := spec; tw_buf := []; tw_totals := SplitTotals_default; tw_tok := TokSplit_default |}.

Definition undo_totals (s : SplitTotals) (e : Entry) : SplitTotals :=
  on_half s (en_tagged e) (fun h => side_sub_signed h (en_signed e) (en_first_leg e)).

Definition undo_tokens (s : TokSplit) (e : Entry) : TokSplit :=
  on_tok_half s (en_tagged e) (fun h => tok_sub_signed h (en_tokens e)).

Definition tw_evict (w : TagWindow) (now_pos : Z) : TagWindow :=
  let '(lo, _) := w_bounds (tw_spec w) now_pos in
  let '(sums, buf) := drop_while_fold (fun p => p <? lo)
    (fun s e => (undo_totals s.1 e, undo_tokens s.2 e)) (tw_totals w, tw_tok w) (tw_buf w) in
  {| tw_spec := tw_spec w; tw_buf := buf; tw_totals := sums.1; tw_tok := sums.2 |}.

Definition first_leg_of (t : TradeLite) : bool := t_leg_index t =? 0.

Definition signed_of (t : TradeLite) (x : f64) : f64 := match t_side t with Buy => x | Sell => fneg x end.

Definition tw_push (w : TagWindow) (t : TradeLite) (tagged : bool) (pos now_pos : Z) : TagWindow :=
  let first_leg := first_leg_of t in
  let e := {| en_signed := signed_of t (t_sol t); en_tokens := signed_of t (t_token_amount t); en_tagged := tagged;
              en_first_leg := first_leg |} in
  tw_evict
    {| tw_spec := tw_spec w; tw_buf := push_sorted (tw_buf w) pos e;
       tw_totals := on_half (tw_totals w) tagged (fun h => side_add h (t_side t) (t_sol t) first_leg);
       tw_tok := on_tok_half (tw_tok w) tagged (fun h => tok_add_signed h (en_tokens e)) |} now_pos.

Definition totals_at (w : TagWindow) (now_pos : Z) : SplitTotals :=
  let '(lo, hi) := w_bounds (tw_spec w) now_pos in undo_ends undo_totals lo hi (tw_totals w) (tw_buf w).

Definition tokens_at (w : TagWindow) (now_pos : Z) : TokSplit :=
  let '(lo, hi) := w_bounds (tw_spec w) now_pos in undo_ends undo_tokens lo hi (tw_tok w) (tw_buf w).

(** ** The state *)

#[export] Instance WindowUnit_countable : Countable WindowUnit.
Proof.
  apply (inj_countable' (fun u => match u with UnitSec => 0 | UnitSlot => 1 | UnitPrint => 2 end)
    (fun n => if n =? 0 then UnitSec else if n =? 1 then UnitSlot else UnitPrint)). by intros [].
Defined.

#[export] Instance WindowKey_countable : Countable WindowKey.
Proof.
  apply (inj_countable' (fun k => (wk_unit k, wk_size k, wk_lag k))
    (fun t => {| wk_unit := t.1.1; wk_size := t.1.2; wk_lag := t.2 |})). by intros [].
Defined.

Record TagState := {
  ts_patterns : TagPatterns;
  ts_sticky_wallets : gset Z;
  ts_creator : option Z;
  ts_lifetime : SplitTotals;
  ts_windows : gmap WindowKey TagWindow;
  ts_tagged_tokens : f64;
  ts_rest_tokens : f64;
  ts_last_vsol : f64;
  ts_last_vtok : f64;
  ts_bags : gmap Z f64;
  ts_on_print : bool;
  ts_sold_bag_pct : f64;
  ts_flat_before : f64;
}.

Definition TagState_new (patterns : TagPatterns) : TagState :=
  {| ts_patterns := patterns; ts_sticky_wallets := ∅; ts_creator := None; ts_lifetime := SplitTotals_default;
     ts_windows := ∅; ts_tagged_tokens := f_zero; ts_rest_tokens := f_zero; ts_last_vsol := f_nan;
     ts_last_vtok := f_nan; ts_bags := ∅; ts_on_print := false; ts_sold_bag_pct := f_nan; ts_flat_before := f_nan |}.

Definition ts_with (s : TagState) (patterns : TagPatterns) (sticky : gset Z) (creator : option Z)
    (windows : gmap WindowKey TagWindow) (on_print : bool) : TagState :=
  {| ts_patterns := patterns; ts_sticky_wallets := sticky; ts_creator := creator; ts_lifetime := ts_lifetime s;
     ts_windows := windows; ts_tagged_tokens := ts_tagged_tokens s; ts_rest_tokens := ts_rest_tokens s;
     ts_last_vsol := ts_last_vsol s; ts_last_vtok := ts_last_vtok s; ts_bags := ts_bags s; ts_on_print := on_print;
     ts_sold_bag_pct := ts_sold_bag_pct s; ts_flat_before := ts_flat_before s |}.

Definition set_creator (s : TagState) (hash : Z) : TagState :=
  ts_with s (ts_patterns s)
    (if tp_creator (ts_patterns s) && tp_sticky (ts_patterns s) then {[ hash ]} ∪ ts_sticky_wallets s
     else ts_sticky_wallets s) (Some hash) (ts_windows s) (ts_on_print s).

Definition set_patterns (s : TagState) (patterns : TagPatterns) : TagState :=
  ts_with s patterns (ts_sticky_wallets s) (ts_creator s) (ts_windows s) (ts_on_print s).

Definition ts_ensure_window (s : TagState) (spec : WindowSpec) : TagState :=
  ts_with s (ts_patterns s) (ts_sticky_wallets s) (ts_creator s)
    (match ts_windows s !! w_key spec with
     | Some _ => ts_windows s
     | None => <[w_key spec := TagWindow_new spec]> (ts_windows s)
     end) (ts_on_print s).

(** [matches]: our own wallets never qualify. *)
Definition tag_matches (s : TagState) (t : TradeLite) : bool :=
  let p := ts_patterns s in
  if negb (t_wallet_hash t =? 0) && bool_decide (t_wallet_hash t ∈ tp_own_wallets p) then false
  else tp_marks p (t_marker_bits t)
    || (tp_creator p && bool_decide (ts_creator s = Some (t_wallet_hash t)))
    || (tp_sticky p && bool_decide (t_wallet_hash t ∈ ts_sticky_wallets s))
    || rows_match (tp_shapes p) (t_ix_hash t) (t_fee t)
    || rows_match_core (tp_shapes p) (t_core_hash t) (t_side t) (t_core_marks t) (t_fee t)
    || is_some_and (t_program_hash t) (fun h => bool_decide (h ∈ tp_programs p))
    || is_some_and (t_template_hash t) (fun h => bool_decide (h ∈ tp_templates p))
    || (negb (t_wallet_hash t =? 0) && bool_decide (t_wallet_hash t ∈ tp_wallets p)).

(** Whether a trade carries the tag. *)
Definition carries (s : TagState) (t : TradeLite) : bool :=
  is_none_or (tp_side (ts_patterns s)) (fun sd => bool_decide (sd = t_side t)) && tag_matches s t.

(** A wallet's bag before a print: finite and not below zero. *)
Definition bag_before (s : TagState) (wallet : Z) : f64 :=
  let before := unwrap_or (ts_bags s !! wallet) f_zero in
  if is_finite before then fmax before f_zero else f_zero.

Definition amount_ok (t : TradeLite) : bool := is_finite (t_token_amount t) && (t_token_amount t >=. f_zero).

Definition note_bag (s : TagState) (t : TradeLite) : TagState :=
  let before := bag_before s (t_wallet_hash t) in
  {| ts_patterns := ts_patterns s; ts_sticky_wallets := ts_sticky_wallets s; ts_creator := ts_creator s;
     ts_lifetime := ts_lifetime s; ts_windows := ts_windows s; ts_tagged_tokens := ts_tagged_tokens s;
     ts_rest_tokens := ts_rest_tokens s; ts_last_vsol := ts_last_vsol s; ts_last_vtok := ts_last_vtok s;
     ts_bags := if amount_ok t
                then <[t_wallet_hash t := fmax (before ⊕ signed_of t (t_token_amount t)) f_zero]> (ts_bags s)
                else ts_bags s;
     ts_on_print := ts_on_print s;
     ts_sold_bag_pct :=
       match t_side t with
       | Sell => if amount_ok t && (before >. f_zero)
                 then f_of_Z 100 ⊗ fmin (t_token_amount t) before ⊘ before else f_nan
       | Buy => ts_sold_bag_pct s
       end;
     ts_flat_before := if before =. f_zero then f_of_Z 1 else f_zero |}.

Definition has_reserves (t : TradeLite) : bool :=
  is_finite (t_priced_reserve_sol t) && (t_priced_reserve_sol t >. f_zero) &&
  is_finite (t_price t) && (t_price t >. f_zero).

(** A print clears the last reading, whether or not it folds. *)
Definition on_print (s : TagState) : TagState :=
  {| ts_patterns := ts_patterns s; ts_sticky_wallets := ts_sticky_wallets s; ts_creator := ts_creator s;
     ts_lifetime := ts_lifetime s; ts_windows := ts_windows s; ts_tagged_tokens := ts_tagged_tokens s;
     ts_rest_tokens := ts_rest_tokens s; ts_last_vsol := ts_last_vsol s; ts_last_vtok := ts_last_vtok s;
     ts_bags := ts_bags s; ts_on_print := true; ts_sold_bag_pct := f_zero; ts_flat_before := f_zero |}.

(** The fold of a readable print on the half [tagged]. *)
Definition fold_half (s : TagState) (t : TradeLite) (cur : Cursor) (tagged : bool) : TagState :=
  let delta := signed_of t (t_token_amount t) in
  {| ts_patterns := ts_patterns s; ts_sticky_wallets := ts_sticky_wallets s; ts_creator := ts_creator s;
     ts_lifetime := on_half (ts_lifetime s) tagged (fun h => side_add h (t_side t) (t_sol t) (first_leg_of t));
     ts_windows := (fun w => tw_push w t tagged (w_pos (tw_spec w) (t_at t) (at_trade cur t))
                               (w_now_pos (tw_spec w) (t_at t) cur)) <$> ts_windows s;
     ts_tagged_tokens := if tagged then ts_tagged_tokens s ⊕ delta else ts_tagged_tokens s;
     ts_rest_tokens := if tagged then ts_rest_tokens s else ts_rest_tokens s ⊕ delta;
     ts_last_vsol := if has_reserves t then t_priced_reserve_sol t else ts_last_vsol s;
     ts_last_vtok := if has_reserves t then t_priced_reserve_sol t ⊘ t_price t else ts_last_vtok s;
     ts_bags := ts_bags s; ts_on_print := ts_on_print s; ts_sold_bag_pct := ts_sold_bag_pct s;
     ts_flat_before := ts_flat_before s |}.

Definition ts_on_trade (s : TagState) (t : TradeLite) (cur : Cursor) : TagState * bool :=
  let s := on_print s in
  if negb (is_finite (t_sol t)) || (t_sol t <. f_zero) then (s, false)
  else
    let tagged := carries s t in
    let s := if tagged && tp_sticky (ts_patterns s) && negb (t_wallet_hash t =? 0)
             then ts_with s (ts_patterns s) ({[ t_wallet_hash t ]} ∪ ts_sticky_wallets s) (ts_creator s) (ts_windows s)
                    (ts_on_print s)
             else s in
    let s := if tagged then note_bag s t else s in
    (fold_half s t cur tagged, tagged).

Definition ts_on_tick (s : TagState) (now : Ts) (cur : Cursor) : TagState :=
  ts_with s (ts_patterns s) (ts_sticky_wallets s) (ts_creator s)
    ((fun w => tw_evict w (w_now_pos (tw_spec w) now cur)) <$> ts_windows s) false.

(** ** Reads *)

Definition print_bag (s : TagState) (m : Metric) (negated : bool) : f64 :=
  if negb (ts_on_print s) then f_nan
  else if negated then f_zero
  else match m with SoldBagPct => ts_sold_bag_pct s | FlatBefore => ts_flat_before s | _ => f_nan end.

Definition profit_sol (s : TagState) (negated : bool) : f64 :=
  let '(bag, half) := if negated then (ts_rest_tokens s, sp_rest (ts_lifetime s))
                      else (ts_tagged_tokens s, sp_tagged (ts_lifetime s)) in
  let v := ts_last_vsol s in
  let vt := ts_last_vtok s in
  if negb (is_finite v) || negb (is_finite vt) || (vt <=. f_zero) || negb (is_finite bag) then f_nan
  else
    let bag := fmax bag f_zero in
    let liquidation := v ⊖ v ⊗ vt ⊘ (vt ⊕ bag) in
    liquidation ⊖ (st_buy_sol half ⊖ st_sell_sol half).

Definition bag_sold_pct (s : TagState) (negated : bool) (spec : WindowSpec) (now : Ts) (cur : Cursor) : f64 :=
  match ts_windows s !! w_key spec with
  | None => f_nan
  | Some w =>
      let tok := tokens_at w (w_now_pos spec now cur) in
      let half := if negated then tok_rest tok else tok_tagged tok in
      let bag_now := if negated then ts_rest_tokens s else ts_tagged_tokens s in
      let start := bag_now ⊖ tk_buy half ⊕ tk_sell half in
      if (start >. f_zero) && is_finite (tk_sell half) then f_of_Z 100 ⊗ tk_sell half ⊘ start else f_nan
  end.

Definition ts_value (s : TagState) (m : Metric) (negated : bool) (window : option WindowSpec) (now : Ts) (cur : Cursor) : f64 :=
  match window with
  | None => if bool_decide (m = ProfitSol) then profit_sol s negated else split_value (ts_lifetime s) m negated
  | Some spec =>
      if bool_decide (m = BagSoldPct) then bag_sold_pct s negated spec now cur
      else match ts_windows s !! w_key spec with
           | Some w => split_value (totals_at w (w_now_pos spec now cur)) m negated
           | None => f_nan
           end
  end.
