(* ===== verification/Track.v ===== *)
(** * Track: all the metric state of one coin

    [metrics/track.rs]: the coin-level states, the windows deduplicated by span, the tag
    states, the two folds and the router every read goes through; and the instance of
    [TrackOps] the fold runs on. *)

From S2P Require Export Coin Windows Tags.

#[export] Instance AgeAnchor_countable : Countable AgeAnchor.
Proof.
  apply (inj_countable' after_age_ms (fun n => {| after_age_ms := n |})). by intros [].
Defined.

Record TokenTrack := {
  tt_created_at : Ts;
  tt_cur_slot : Z;
  tt_n_prints : Z;
  tt_state : State_metrics.t;
  tt_price_lifetime : Price_lifetime.t;
  tt_price_amm : option Price_lifetime.t;
  tt_flow_lifetime : Flow_lifetime.t;
  tt_windows : gmap WindowKey WindowState;
  tt_price_windows : gmap WindowKey PriceWindow;
  tt_crowd_windows : gmap WindowKey DistinctWindow;
  tt_crowd_after_age : gmap AgeAnchor Crowd_after_age.t;
  tt_build_windows : gmap WindowKey DistinctWindow;
  tt_print_wallet : option Print_wallet.t;
  tt_holder_book : option HolderBook;
  tt_tags : gmap (Z * Z) TagState;
  tt_creator : option Z;
  tt_priced_reserves : f64;
  tt_last_print_wallet : option Z;
}.

Definition TokenTrack_new (created_at : Ts) : TokenTrack :=
  {| tt_created_at := created_at; tt_cur_slot := 0; tt_n_prints := 0; tt_state := State_metrics.default;
     tt_price_lifetime := Price_lifetime.new created_at; tt_price_amm := None; tt_flow_lifetime := Flow_lifetime.default;
     tt_windows := ∅; tt_price_windows := ∅; tt_crowd_windows := ∅; tt_crowd_after_age := ∅; tt_build_windows := ∅;
     tt_print_wallet := None; tt_holder_book := None; tt_tags := ∅; tt_creator := None; tt_priced_reserves := f_nan;
     tt_last_print_wallet := None |}.

(** ** Registration *)

(** What a registration changes. *)
Definition tt_with (t : TokenTrack) (windows : gmap WindowKey WindowState) (price_windows : gmap WindowKey PriceWindow)
    (crowd_windows : gmap WindowKey DistinctWindow) (crowd_after_age : gmap AgeAnchor Crowd_after_age.t)
    (build_windows : gmap WindowKey DistinctWindow) (print_wallet : option Print_wallet.t) (holder_book : option HolderBook)
    (tags : gmap (Z * Z) TagState) (creator : option Z) : TokenTrack :=
  {| tt_created_at := tt_created_at t; tt_cur_slot := tt_cur_slot t; tt_n_prints := tt_n_prints t; tt_state := tt_state t;
     tt_price_lifetime := tt_price_lifetime t; tt_price_amm := tt_price_amm t; tt_flow_lifetime := tt_flow_lifetime t;
     tt_windows := windows; tt_price_windows := price_windows; tt_crowd_windows := crowd_windows;
     tt_crowd_after_age := crowd_after_age; tt_build_windows := build_windows; tt_print_wallet := print_wallet;
     tt_holder_book := holder_book; tt_tags := tags; tt_creator := creator; tt_priced_reserves := tt_priced_reserves t;
     tt_last_print_wallet := tt_last_print_wallet t |}.

(** [entry(k).or_insert(v)]. *)
Definition or_insert `{Countable K} {V} (m : gmap K V) (k : K) (v : V) : gmap K V :=
  match m !! k with Some _ => m | None => <[k := v]> m end.

Definition tt_ensure_window (t : TokenTrack) (spec : WindowSpec) : TokenTrack :=
  tt_with t (or_insert (tt_windows t) (w_key spec) (WindowState_new spec)) (tt_price_windows t) (tt_crowd_windows t)
    (tt_crowd_after_age t) (tt_build_windows t) (tt_print_wallet t) (tt_holder_book t) (tt_tags t) (tt_creator t).

Definition tt_ensure_price_window (t : TokenTrack) (spec : WindowSpec) : TokenTrack :=
  tt_with t (tt_windows t) (or_insert (tt_price_windows t) (w_key spec) (PriceWindow_new spec)) (tt_crowd_windows t)
    (tt_crowd_after_age t) (tt_build_windows t) (tt_print_wallet t) (tt_holder_book t) (tt_tags t) (tt_creator t).

Definition tt_ensure_crowd_window (t : TokenTrack) (spec : WindowSpec) : TokenTrack :=
  tt_with t (tt_windows t) (tt_price_windows t) (or_insert (tt_crowd_windows t) (w_key spec) (DistinctWindow_new spec))
    (tt_crowd_after_age t) (tt_build_windows t) (tt_print_wallet t) (tt_holder_book t) (tt_tags t) (tt_creator t).

Definition tt_ensure_build_window (t : TokenTrack) (spec : WindowSpec) : TokenTrack :=
  tt_with t (tt_windows t) (tt_price_windows t) (tt_crowd_windows t) (tt_crowd_after_age t)
    (or_insert (tt_build_windows t) (w_key spec) (DistinctWindow_new spec)) (tt_print_wallet t) (tt_holder_book t)
    (tt_tags t) (tt_creator t).

Definition tt_ensure_crowd_after_age (t : TokenTrack) (a : AgeAnchor) (cap : Z) : TokenTrack :=
  let s := match tt_crowd_after_age t !! a with
           | Some s => Crowd_after_age.raise_cap s cap
           | None => Crowd_after_age.new a cap
           end in
  tt_with t (tt_windows t) (tt_price_windows t) (tt_crowd_windows t) (<[a := s]> (tt_crowd_after_age t))
    (tt_build_windows t) (tt_print_wallet t) (tt_holder_book t) (tt_tags t) (tt_creator t).

Definition tt_ensure_print_wallet (t : TokenTrack) : TokenTrack :=
  tt_with t (tt_windows t) (tt_price_windows t) (tt_crowd_windows t) (tt_crowd_after_age t) (tt_build_windows t)
    (Some (unwrap_or (tt_print_wallet t) Print_wallet.default)) (tt_holder_book t) (tt_tags t) (tt_creator t).

Definition tt_ensure_holder_book (t : TokenTrack) : TokenTrack :=
  tt_with t (tt_windows t) (tt_price_windows t) (tt_crowd_windows t) (tt_crowd_after_age t) (tt_build_windows t)
    (tt_print_wallet t) (Some (unwrap_or (tt_holder_book t) HolderBook_default)) (tt_tags t) (tt_creator t).

Definition new_tag (creator : option Z) (patterns : TagPatterns) : TagState :=
  let s := TagState_new patterns in match creator with Some h => set_creator s h | None => s end.

Definition tt_ensure_tag (t : TokenTrack) (fp key : Z) (patterns : TagPatterns) (windows : list WindowSpec) : TokenTrack :=
  let s := unwrap_or (tt_tags t !! (fp, key)) (new_tag (tt_creator t) patterns) in
  let s := foldl ts_ensure_window (set_patterns s patterns) windows in
  tt_with t (tt_windows t) (tt_price_windows t) (tt_crowd_windows t) (tt_crowd_after_age t) (tt_build_windows t)
    (tt_print_wallet t) (tt_holder_book t) (<[(fp, key) := s]> (tt_tags t)) (tt_creator t).

Definition tt_seed_creator (t : TokenTrack) (hash : Z) : TokenTrack :=
  tt_with t (tt_windows t) (tt_price_windows t) (tt_crowd_windows t) (tt_crowd_after_age t) (tt_build_windows t)
    (tt_print_wallet t) (tt_holder_book t) ((fun s => set_creator s hash) <$> tt_tags t) (Some hash).

(** ** Folds *)

Definition tt_cursor (t : TokenTrack) : Cursor := {| cur_slot_of := tt_cur_slot t; cur_print_of := tt_n_prints t |}.

Definition tt_on_trade (t : TokenTrack) (tr : TradeLite) : TokenTrack :=
  let cur_slot := Z.max (tt_cur_slot t) (t_slot tr) in
  let n_prints := wrap_u 64 (tt_n_prints t + 1) in
  let cur := {| cur_slot_of := cur_slot; cur_print_of := n_prints |} in
  let pos spec := w_pos spec (t_at tr) (at_trade cur tr) in
  let now_pos spec := w_now_pos spec (t_at tr) cur in
  {| tt_created_at := tt_created_at t; tt_cur_slot := cur_slot; tt_n_prints := n_prints;
     tt_state := State_metrics.on_trade (tt_state t) (t_reserve_sol tr) (t_on_curve tr);
     tt_price_lifetime := Price_lifetime.on_trade (tt_price_lifetime t) (t_price tr) (t_at tr);
     tt_price_amm :=
       if t_on_curve tr then tt_price_amm t
       else Some (Price_lifetime.on_trade (unwrap_or (tt_price_amm t) (Price_lifetime.new (t_at tr))) (t_price tr) (t_at tr));
     tt_flow_lifetime := Flow_lifetime.on_trade (tt_flow_lifetime t) (t_side tr) (t_sol tr);
     tt_windows := (fun w => fw_on_trade w (t_side tr) (t_sol tr) (pos (fw_spec w)) (now_pos (fw_spec w))) <$> tt_windows t;
     tt_price_windows := (fun w => pw_on_trade w (t_price tr) (pos (pw_spec w)) (now_pos (pw_spec w))) <$> tt_price_windows t;
     tt_crowd_windows :=
       (fun w => Crowd_window.on_trade w (t_sol tr) (t_wallet_hash tr) (pos (dw_spec w)) (now_pos (dw_spec w))) <$> tt_crowd_windows t;
     tt_crowd_after_age := (fun s => Crowd_after_age.on_trade s tr (tt_created_at t) (tt_creator t)) <$> tt_crowd_after_age t;
     tt_build_windows :=
       (fun w => Build_window.on_trade w (t_sol tr) (t_build_hash tr) (pos (dw_spec w)) (now_pos (dw_spec w))) <$> tt_build_windows t;
     tt_print_wallet := (fun s => Print_wallet.on_trade s tr) <$> tt_print_wallet t;
     tt_holder_book := (fun b => hb_on_trade b tr) <$> tt_holder_book t;
     tt_tags := (fun s => (ts_on_trade s tr cur).1) <$> tt_tags t;
     tt_creator := tt_creator t; tt_priced_reserves := t_priced_reserve_sol tr;
     tt_last_print_wallet := Some (t_wallet_hash tr) |}.

Definition tt_on_tick (t : TokenTrack) (now : Ts) (slot : option Z) : TokenTrack :=
  let cur_slot := map_or slot (tt_cur_slot t) (Z.max (tt_cur_slot t)) in
  let cur := {| cur_slot_of := cur_slot; cur_print_of := tt_n_prints t |} in
  let now_pos spec := w_now_pos spec now cur in
  {| tt_created_at := tt_created_at t; tt_cur_slot := cur_slot; tt_n_prints := tt_n_prints t; tt_state := tt_state t;
     tt_price_lifetime := tt_price_lifetime t; tt_price_amm := tt_price_amm t; tt_flow_lifetime := tt_flow_lifetime t;
     tt_windows := (fun w => fw_evict w (now_pos (fw_spec w))) <$> tt_windows t;
     tt_price_windows := (fun w => pw_evict w (now_pos (pw_spec w))) <$> tt_price_windows t;
     tt_crowd_windows := (fun w => dw_evict w (now_pos (dw_spec w))) <$> tt_crowd_windows t;
     tt_crowd_after_age := Crowd_after_age.on_tick <$> tt_crowd_after_age t;
     tt_build_windows := (fun w => dw_evict w (now_pos (dw_spec w))) <$> tt_build_windows t;
     tt_print_wallet := Print_wallet.on_tick <$> tt_print_wallet t;
     tt_holder_book := tt_holder_book t;
     tt_tags := (fun s => ts_on_tick s now cur) <$> tt_tags t;
     tt_creator := tt_creator t; tt_priced_reserves := tt_priced_reserves t; tt_last_print_wallet := None |}.

(** ** The read *)

Definition tag_state (t : TokenTrack) (fp : option Z) (tag : TagRef) : option TagState :=
  fp ← fp; tt_tags t !! (fp, tag_key tag).

Definition tt_slice (t : TokenTrack) (m : Metric) (span : Span) (now : Ts) : f64 :=
  match sp_window span, sp_slice span with
  | Some rs, Some bs =>
      match tt_windows t !! w_key bs, tt_windows t !! w_key rs with
      | Some b, Some r =>
          let bn := w_now_pos bs now (tt_cursor t) in
          let rn := w_now_pos rs now (tt_cursor t) in
          if bool_decide (m = SliceTradeSharePct) then trade_share b r bn rn else sol_share b r bn rn
      | _, _ => f_nan
      end
  | _, _ => f_nan
  end.

Definition tt_tag_print (t : TokenTrack) (r : MetricRef) (fp : option Z) : f64 :=
  match mr_tag r with
  | None => f_nan
  | Some tag => map_or (tag_state t fp tag) f_nan (fun s => print_bag s (mr_metric r) (tag_negated tag))
  end.

Definition tt_value (t : TokenTrack) (r : MetricRef) (fp : option Z) (now : Ts) : f64 :=
  let cur := tt_cursor t in
  let m := mr_metric r in
  let window := sp_window (mr_span r) in
  let read {S} (windows : gmap WindowKey S) (value : S -> Metric -> Z -> f64) (s : WindowSpec) : f64 :=
    map_or (windows !! w_key s) f_nan (fun w => value w m (w_now_pos s now cur)) in
  match family m with
  | FamState => State_metrics.value (tt_state t) m (tt_created_at t) now
  | FamPrice =>
      if sp_since_amm (mr_span r) then map_or (tt_price_amm t) f_nan (fun p => Price_lifetime.value p m now)
      else match window with
           | None => Price_lifetime.value (tt_price_lifetime t) m now
           | Some s => read (tt_price_windows t) pw_value s
           end
  | FamFlow =>
      match mr_tag r with
      | Some tag => map_or (tag_state t fp tag) f_nan (fun st => ts_value st m (tag_negated tag) window now cur)
      | None =>
          match m with
          | SliceTradeSharePct | SliceSolSharePct => tt_slice t m (mr_span r) now
          | _ =>
              match window with
              | None => Flow_lifetime.value (tt_flow_lifetime t) m
              | Some s => read (tt_windows t) fw_value s
              end
          end
      end
  | FamHoldings =>
      match m, mr_tag r with
      | ProfitSol, Some tag => map_or (tag_state t fp tag) f_nan (fun st => profit_sol st (tag_negated tag))
      | BagSharePct, Some tag => map_or (tt_holder_book t) f_nan (fun b => bag_share_pct b (tag_name tag))
      | BagSoldPct, Some tag => map_or (tag_state t fp tag) f_nan (fun st => ts_value st m (tag_negated tag) window now cur)
      | _, _ => f_nan
      end
  | FamCrowd =>
      match m with
      | UniqueWallets | TradesPerWallet => map_or window f_nan (read (tt_crowd_windows t) Crowd_window.value)
      | UniqueIxShapes => map_or window f_nan (read (tt_build_windows t) Build_window.value)
      | BuyerCount | BuyerIsNew =>
          map_or (a ← sp_since_age (mr_span r); tt_crowd_after_age t !! a) f_nan (fun s => Crowd_after_age.value s m)
      | _ => f_nan
      end
  | FamPrint =>
      match m with
      | SoldBagPct | FlatBefore => tt_tag_print t r fp
      | _ => map_or (tt_print_wallet t) f_nan (fun p => Print_wallet.value p m)
      end
  | FamPosition => f_nan
  end.

#[export] Instance token_track : TrackOps := {|
  Track := TokenTrack;
  TagDoc := Value;
  TrackIface.TagPatterns := TagPatterns;
  track_new := TokenTrack_new;
  ensure_window := tt_ensure_window;
  ensure_price_window := tt_ensure_price_window;
  ensure_crowd_window := tt_ensure_crowd_window;
  ensure_build_window := tt_ensure_build_window;
  ensure_crowd_after_age := tt_ensure_crowd_after_age;
  ensure_print_wallet := tt_ensure_print_wallet;
  ensure_holder_book := tt_ensure_holder_book;
  ensure_tag := tt_ensure_tag;
  seed_creator := tt_seed_creator;
  track_on_trade := tt_on_trade;
  track_on_tick := fun t now => tt_on_tick t now None;
  track_value := tt_value;
  current_price := fun t => Price_lifetime.last_price_or_nan (tt_price_lifetime t);
  current_reserves := fun t => State_metrics.liquidity (tt_state t);
  current_priced_reserves := tt_priced_reserves;
  track_cur_slot := tt_cur_slot;
  track_print_wallet := tt_last_print_wallet;
  track_created_at := tt_created_at;
  compile_tags := compile_doc;
|}.
