(* ===== verification/Arm.v ===== *)
(** * Arm: the compiled rule's decisions and the arming lifecycle

    [arm.rs]: what a compiled rule reads, the entry gate with its locks, the derived
    monotonic kills, one held-side step, and the per-(coin, rule) [ArmState].  Every
    decision reads the coin through [CoinReads].  An index the compiler keeps in range
    (a signal, a cell, a stage) is looked up; where the source would panic on a bad one
    the model reads "does not hold" or "no line". *)

From S2P Require Export TrackIface Position.

Definition req_read {R} `{CoinReads R} (q : MetricReq) (reads : R) (pos : option PositionCtx) (now : Ts) : f64 :=
  if mq_read_id q =? POSITION_READ
  then map_or pos f_nan (fun p => position_value (mr_metric (mq_r q)) p (coin_price reads) now)
  else coin_value reads q now.

Definition req_holds {R} `{CoinReads R} (q : MetricReq) (reads : R) (pos : option PositionCtx) (now : Ts) : bool :=
  eval (mq_conds q) (req_read q reads pos now) (mq_tolerance q).

Inductive CondReq :=
  | ReqMetric (q : MetricReq)
  | ReqSignal (index : nat) (negated : bool).

Record CompiledSignal := { sg_name : string; sg_groups : list (list MetricReq) }.

Definition signal_holds {R} `{CoinReads R} (s : CompiledSignal) (reads : R) (pos : option PositionCtx) (now : Ts) : bool :=
  existsb (fun g => forallb (fun q => req_holds q reads pos now) g) (sg_groups s).

Record CompiledSell := { cs_reason : ExitReason; cs_bps : option Z; cs_of_bag : bool }.

Record CompiledLine := {
  ln_index : Z;
  ln_conds : list CondReq;
  ln_sell : option CompiledSell;
  ln_go : option Z;
  ln_reads_print : bool;
}.

Definition sells_whole (l : CompiledLine) : bool :=
  is_some_and (ln_sell l) (fun s => is_noneb (cs_bps s) && negb (cs_of_bag s)).

Definition idle_in (l : CompiledLine) (stage : Z) : bool :=
  bool_decide (ln_go l = Some stage) && negb (sells_whole l).

Record CompiledTree := {
  ct_phase_names : list string;
  ct_situation_names : list string;
  ct_untils : list (list CondReq);
  ct_whens : list (list CondReq);
  ct_entries : list (list CompiledLine);
  ct_cell_entry : list (option nat);
  ct_entry_ok : list bool;
}.

Definition tree_cell_lines (t : CompiledTree) (cell : nat) : list CompiledLine :=
  match ct_cell_entry t !! cell with
  | Some (Some e) => unwrap_or (ct_entries t !! e) []
  | _ => []
  end.

Record CompiledStage := {
  sg_stage_name : string;
  sg_ends : option (DeadlineBasis * f64);
  sg_on : list CompiledLine;
  sg_at_end : list CompiledLine;
  sg_then : option Z;
}.

Inductive HeldStep := StepNone | StepLine (l : CompiledLine) | StepMove (stage : Z).

Inductive HeldAction :=
  | ActNone
  | ActSell (reason : ExitReason) (bps : option Z) (of_bag : bool) (then_stage : option Z)
  | ActMove (stage : Z).

(** ** Monotonic kills *)

Definition crossed (b : MonoBound) (value : f64) : bool :=
  if negb (is_finite value) then false
  else if mb_cross_at_ge b then value >=. mb_threshold b else value >. mb_threshold b.

Record MonoMetricKill := { mk_req : MetricReq; mk_arms : list (option MonoBound) }.

Definition permanently_false (k : MonoMetricKill) (value : f64) : bool :=
  negb (is_empty (mk_arms k)) && forallb (fun a => is_some_and a (fun b => crossed b value)) (mk_arms k).

(** The bound that crosses last, of two. *)
Definition later_bound (a b : MonoBound) : MonoBound :=
  if (mb_threshold b >. mb_threshold a) ||
     ((mb_threshold b =. mb_threshold a) && mb_cross_at_ge a && negb (mb_cross_at_ge b))
  then b else a.

Definition binding_bound (k : MonoMetricKill) (value : f64) : option MonoBound :=
  if negb (permanently_false k value) then None
  else reduce_list later_bound (omap id (mk_arms k)).

(** The tighter of a bound and the best so far. *)
Definition tighter (best : option (f64 * bool)) (b : f64 * bool) : option (f64 * bool) :=
  match best with
  | None => Some b
  | Some (bth, bge) =>
      if (b.1 <. bth) || ((b.1 =. bth) && b.2 && negb bge) then Some b else Some (bth, bge)
  end.

Definition cond_upper (half_tol : f64) (c : Condition) : option (f64 * bool) :=
  match c_operator c with
  | OpLt => Some (c_value c, true)
  | OpLte => Some (c_value c, false)
  | OpEq => Some (c_value c ⊕ half_tol, false)
  | OpGt | OpGte | OpNe => None
  end.

Definition arm_mono_upper (arm : list Condition) (half_tol : f64) (r : MetricRef) : option MonoBound :=
  (fun b => {| mb_r := r; mb_threshold := b.1; mb_cross_at_ge := b.2 |}) <$>
    foldl tighter None (omap (cond_upper half_tol) arm).

(** ** The compiled rule *)

Record ClockHorizons := {
  ch_max_window_secs : f64;
  ch_time_secs : f64;
  ch_stall_secs : f64;
  ch_held_secs : f64;
  ch_stage_secs : f64;
}.

Definition ClockHorizons_default : ClockHorizons :=
  Build_ClockHorizons f_zero f_zero f_zero f_zero f_zero.

Definition widen (a b : ClockHorizons) : ClockHorizons := {|
  ch_max_window_secs := fmax (ch_max_window_secs a) (ch_max_window_secs b);
  ch_time_secs := fmax (ch_time_secs a) (ch_time_secs b);
  ch_stall_secs := fmax (ch_stall_secs a) (ch_stall_secs b);
  ch_held_secs := fmax (ch_held_secs a) (ch_held_secs b);
  ch_stage_secs := fmax (ch_stage_secs a) (ch_stage_secs b) |}.

Record CompiledRule := {
  cr_id : RuleId;
  cr_fingerprint_id : FingerprintId;
  cr_trade_mode : TradeMode;
  cr_buy_amount_lamports : Z;
  cr_copy : bool;
  cr_size_pct_of_pool : option f64;
  cr_slippage_pct : option f64;
  cr_concurrent_cap : Z;
  cr_max_total : Z;
  cr_take_profit : option f64;
  cr_stop_loss : option f64;
  cr_event : list CondReq;
  cr_filters : list CondReq;
  cr_final_filters : list CondReq;
  cr_entry_lock : option EntryLock;
  cr_signals : list CompiledSignal;
  cr_always : list CompiledLine;
  cr_stages : list CompiledStage;
  cr_tree : option CompiledTree;
  cr_buffers : Buffers;
  cr_coin_reads : list (MetricRef * option FingerprintId);
  cr_mono_kills : list MonoMetricKill;
  cr_clock_horizons : ClockHorizons;
  cr_reentry : option ReEntry;
  cr_exclusive : bool;
  cr_priority : Z;
  cr_entry_enabled : bool;
  cr_follow_bought : bool;
  cr_print_exit : bool;
}.

Inductive EntryVerdict := VNo | VEnter | VSpendSlot | VExhaust.

Record EnteredCtx := {
  ec_position : PositionId;
  ec_entry_price : f64;
  ec_entered_at : Ts;
  ec_peak_price : f64;
  ec_trough_price : f64;
  ec_stage : Z;
  ec_stage_since : Ts;
  ec_sold_bps : Z;
  ec_entry_priced_reserve : f64;
  ec_followed : option Z;
}.

Record OwedSell := { ow_reason : ExitReason; ow_bps : option Z }.

Definition entered_at_fill (position : PositionId) (fill_price : f64) (at_ : Ts) (reserve : f64) : EnteredCtx := {|
  ec_position := position; ec_entry_price := fill_price; ec_entered_at := at_;
  ec_peak_price := fill_price; ec_trough_price := fill_price; ec_stage := 0; ec_stage_since := at_;
  ec_sold_bps := 0; ec_entry_priced_reserve := reserve; ec_followed := None |}.

Definition move_to (c : EnteredCtx) (stage : Z) (at_ : Ts) : EnteredCtx := {|
  ec_position := ec_position c; ec_entry_price := ec_entry_price c; ec_entered_at := ec_entered_at c;
  ec_peak_price := ec_peak_price c; ec_trough_price := ec_trough_price c; ec_stage := stage;
  ec_stage_since := at_; ec_sold_bps := ec_sold_bps c;
  ec_entry_priced_reserve := ec_entry_priced_reserve c; ec_followed := ec_followed c |}.

Definition set_followed (c : EnteredCtx) (w : option Z) : EnteredCtx := {|
  ec_position := ec_position c; ec_entry_price := ec_entry_price c; ec_entered_at := ec_entered_at c;
  ec_peak_price := ec_peak_price c; ec_trough_price := ec_trough_price c; ec_stage := ec_stage c;
  ec_stage_since := ec_stage_since c; ec_sold_bps := ec_sold_bps c;
  ec_entry_priced_reserve := ec_entry_priced_reserve c; ec_followed := w |}.

Definition set_sold_bps (c : EnteredCtx) (bps : Z) : EnteredCtx := {|
  ec_position := ec_position c; ec_entry_price := ec_entry_price c; ec_entered_at := ec_entered_at c;
  ec_peak_price := ec_peak_price c; ec_trough_price := ec_trough_price c; ec_stage := ec_stage c;
  ec_stage_since := ec_stage_since c; ec_sold_bps := bps;
  ec_entry_priced_reserve := ec_entry_priced_reserve c; ec_followed := ec_followed c |}.

Definition set_ctx_extremes (c : EnteredCtx) (peak trough : f64) : EnteredCtx := {|
  ec_position := ec_position c; ec_entry_price := ec_entry_price c; ec_entered_at := ec_entered_at c;
  ec_peak_price := peak; ec_trough_price := trough; ec_stage := ec_stage c;
  ec_stage_since := ec_stage_since c; ec_sold_bps := ec_sold_bps c;
  ec_entry_priced_reserve := ec_entry_priced_reserve c; ec_followed := ec_followed c |}.

Definition position_ctx (c : EnteredCtx) : PositionCtx := {|
  px_entry_price := ec_entry_price c; px_peak_price := ec_peak_price c;
  px_trough_price := ec_trough_price c; px_entered_at := ec_entered_at c;
  px_stage_since := ec_stage_since c; px_entry_priced_reserve := ec_entry_priced_reserve c;
  px_sold_pct := f_of_Z (ec_sold_bps c) ⊘ f_of_Z 100 |}.

Inductive ArmState :=
  | PendingFirstSlot
  | Armed
  | EntryPending (intent : IntentId) (position : PositionId) (attempts lamports : Z)
      (followed : option Z) (stage : Z) (owed : option OwedSell)
  | Entered (held : EnteredCtx)
  | ExitPending (intent : IntentId) (reason : ExitReason) (attempts : Z) (portion : Portion)
      (held : EnteredCtx) (then_stage : option Z)
  | Cooldown (until : Ts)
  | Done
  | Disarmed (reason : DisarmReason).

Definition arm_is_active (a : ArmState) : bool :=
  match a with Done | Disarmed _ => false | _ => true end.

Definition arm_position (a : ArmState) : option PositionId :=
  match a with
  | EntryPending _ position _ _ _ _ _ => Some position
  | Entered ctx | ExitPending _ _ _ _ ctx _ => Some (ec_position ctx)
  | _ => None
  end.

Definition followed_wallet (a : ArmState) : option Z :=
  match a with
  | EntryPending _ _ _ _ followed _ _ => followed
  | Entered ctx | ExitPending _ _ _ _ ctx _ => ec_followed ctx
  | _ => None
  end.

Definition arm_held (a : ArmState) : option EnteredCtx :=
  match a with Entered ctx | ExitPending _ _ _ _ ctx _ => Some ctx | _ => None end.

Definition arm_tag (a : ArmState) : string :=
  match a with
  | PendingFirstSlot => "PendingFirstSlot" | Armed => "Armed" | EntryPending _ _ _ _ _ _ _ => "EntryPending"
  | Entered _ => "Entered" | ExitPending _ _ _ _ _ _ => "ExitPending" | Cooldown _ => "Cooldown"
  | Disarmed _ => "Disarmed" | Done => "Done"
  end.

(** ** Decisions *)

Section decisions.
Context {R : Type} `{CoinReads R}.
Implicit Types (c : CompiledRule) (reads : R) (pos : option PositionCtx) (now : Ts).

Definition cond_holds c (q : CondReq) reads pos now : bool :=
  match q with
  | ReqMetric m => req_holds m reads pos now
  | ReqSignal index negated =>
      match cr_signals c !! index with
      | Some s => negb (Bool.eqb (signal_holds s reads pos now) negated)
      | None => false
      end
  end.

Definition all_hold c (conds : list CondReq) reads pos now : bool :=
  forallb (fun q => cond_holds c q reads pos now) conds.

Definition line_holds c (l : CompiledLine) reads pos now : bool := all_hold c (ln_conds l) reads pos now.

Definition enter_on_arm c : bool :=
  is_empty (cr_event c) && is_empty (cr_filters c) && is_empty (cr_final_filters c).

Definition event_satisfied c reads now : bool := all_hold c (cr_event c) reads None now.
Definition filters_satisfied c reads now : bool := all_hold c (cr_filters c) reads None now.
Definition final_filters_satisfied c reads now : bool := all_hold c (cr_final_filters c) reads None now.

Definition tree_cell c reads pos now : option nat :=
  match cr_tree c with
  | None => None
  | Some t =>
      let phase := length (take_while (fun u => all_hold c u reads None now) (ct_untils t)) in
      let situation := unwrap_or (position_of (fun w => all_hold c w reads pos now) (ct_whens t))
                         (length (ct_whens t)) in
      Some (phase * length (ct_situation_names t) + situation)%nat
  end.

Definition entry_cell_ok c reads now : bool :=
  match cr_tree c, tree_cell c reads None now with
  | Some t, Some cell => unwrap_or (ct_entry_ok t !! cell) false
  | _, _ => true
  end.

Definition first_lines c reads now : list CompiledLine :=
  match cr_tree c, tree_cell c reads None now with
  | Some t, Some cell => tree_cell_lines t cell
  | _, _ => map_or (head (cr_stages c)) [] sg_on
  end.

Definition sell_line_holding_before_entry c reads now : option ExitReason :=
  find_map (fun l =>
    if negb (idle_in l 0) then
      match ln_sell l with
      | Some s => if line_holds c l reads None now then Some (cs_reason s) else None
      | None => None
      end
    else None) (cr_always c ++ first_lines c reads now).

Definition can_enter c reads now : bool :=
  event_satisfied c reads now && final_filters_satisfied c reads now &&
  filters_satisfied c reads now && entry_cell_ok c reads now &&
  is_noneb (sell_line_holding_before_entry c reads now).

Definition try_enter c reads now (locked_slot : option Z) (on_print : bool) : EntryVerdict :=
  let final_ok := final_filters_satisfied c reads now in
  let rest_ok := filters_satisfied c reads now && entry_cell_ok c reads now in
  let veto := is_someb (sell_line_holding_before_entry c reads now) in
  let would_enter := final_ok && rest_ok && negb veto in
  let final_blocks := negb final_ok && rest_ok && negb veto in
  match cr_entry_lock c with
  | None =>
      if negb (event_satisfied c reads now) then VNo
      else if would_enter then VEnter
      else if final_blocks then VExhaust
      else VNo
  | Some LockToken =>
      if negb on_print || negb (event_satisfied c reads now) then VNo
      else if would_enter then VEnter
      else VExhaust
  | Some LockSlot =>
      let slot := coin_cur_slot reads in
      if bool_decide (locked_slot = Some slot) && negb (slot =? 0) then VNo
      else if negb (event_satisfied c reads now) then VNo
      else if would_enter then VEnter
      else if final_blocks then VExhaust
      else VSpendSlot
  end.

Definition entry_unsatisfiable c reads now : option MonoBound :=
  find_map (fun k => binding_bound k (req_read (mk_req k) reads None now)) (cr_mono_kills c).

Definition entry_blockers c reads now (killed_by : MonoBound) : EntryBlockers :=
  {| eb_killed_by := killed_by;
     eb_unmet := omap (fun q =>
       match q with
       | ReqMetric m =>
           if mref_eqb (mq_r m) (mb_r killed_by) then None
           else
             let value := req_read m reads None now in
             if eval (mq_conds m) value (mq_tolerance m) then None
             else Some {| br_r := mq_r m; br_value := value; br_conds := mq_conds m |}
       | ReqSignal _ _ => None
       end) (cr_event c ++ cr_final_filters c ++ cr_filters c) |}.

Definition deadline_reached (stage : CompiledStage) reads (p : PositionCtx) now : bool :=
  match sg_ends stage with
  | None => false
  | Some (basis, secs) =>
      let elapsed := match basis with
        | BasisAge => coin_age_sec reads now
        | BasisHeld => held p now
        | BasisStage => stage_sec p now
        end in
      elapsed >=. secs
  end.

Definition bag_sell (l : CompiledLine) (reason : ExitReason) (go : option Z) reads pos now : HeldAction :=
  let pct := find_map (fun q => match q with
    | ReqMetric m => if bool_decide (mr_metric (mq_r m) = SoldBagPct) then Some (req_read m reads pos now) else None
    | _ => None
    end) (ln_conds l) in
  match pct with
  | None => ActNone
  | Some pct =>
      if negb (is_finite pct) || (pct <=. f_zero) then ActNone
      else
        let bps := fround (pct ⊗ f_of_Z 100) in
        if bps >=. f_of_Z 10000 then ActSell reason None false go
        else ActSell reason (Some (f_as_u16 (fclamp bps (f_of_Z 1) (f_of_Z 9999)))) true go
  end.

Definition act (l : CompiledLine) reads pos now : HeldAction :=
  match ln_sell l, ln_go l with
  | Some s, go =>
      if cs_of_bag s then bag_sell l (cs_reason s) go reads pos now
      else ActSell (cs_reason s) (cs_bps s) false go
  | None, Some stage => ActMove stage
  | None, None => ActNone
  end.

Definition stage_at c (stage : Z) : option CompiledStage := cr_stages c !! Z.to_nat stage.

(** Whether a line may act in [stage] for a position following [bound]. *)
Definition line_acts c reads (p : PositionCtx) (stage : Z) now (bound : option (option Z)) (l : CompiledLine) : bool :=
  if is_some_and bound (fun want => ln_reads_print l && negb (bool_decide (coin_print_wallet reads = want)))
  then false
  else negb (idle_in l stage) && line_holds c l reads (Some p) now.

Definition step_of (o : option CompiledLine) : HeldStep := map_or o StepNone StepLine.

Definition held_line_bound c reads (p : PositionCtx) (stage : Z) now (bound : option (option Z)) : HeldStep :=
  let acts := line_acts c reads p stage now bound in
  match find_first acts (cr_always c) with
  | Some l => StepLine l
  | None =>
      match cr_tree c, tree_cell c reads (Some p) now with
      | Some t, Some cell => step_of (find_first acts (tree_cell_lines t cell))
      | _, _ =>
          match stage_at c stage with
          | None => StepNone
          | Some current =>
              if deadline_reached current reads p now then
                match find_first acts (sg_at_end current) with
                | Some l => StepLine l
                | None => map_or (sg_then current) StepNone StepMove
                end
              else step_of (find_first acts (sg_on current))
          end
      end
  end.

Definition held_line c reads (p : PositionCtx) (stage : Z) now : HeldStep :=
  held_line_bound c reads p stage now None.

Definition held_step c reads (h : EnteredCtx) now : HeldAction :=
  let bound := if cr_follow_bought c then Some (ec_followed h) else None in
  match held_line_bound c reads (position_ctx h) (ec_stage h) now bound with
  | StepNone => ActNone
  | StepLine l => act l reads (Some (position_ctx h)) now
  | StepMove stage => ActMove stage
  end.

Definition inflight_acts c reads (stage : Z) now (bound : option (option Z)) (l : CompiledLine) : bool :=
  if negb (ln_reads_print l) then false
  else if is_some_and bound (fun want => negb (bool_decide (coin_print_wallet reads = want))) then false
  else negb (idle_in l stage) && line_holds c l reads None now.

Definition inflight_sell c reads (stage : Z) (followed : option Z) now : option HeldAction :=
  let bound := if cr_follow_bought c then Some followed else None in
  let staged :=
    match cr_tree c, tree_cell c reads None now with
    | Some t, Some cell => tree_cell_lines t cell
    | _, _ => map_or (stage_at c stage) [] sg_on
    end in
  match find_first (inflight_acts c reads stage now bound) (cr_always c ++ staged) with
  | None => None
  | Some line =>
      match act line reads None now with
      | ActSell _ _ _ _ as sell => Some sell
      | _ => None
      end
  end.

Definition held_lines c : list CompiledLine :=
  cr_always c ++ (cr_stages c ≫= fun s => sg_on s ++ sg_at_end s) ++
  match cr_tree c with Some t => concat (ct_entries t) | None => [] end.

Definition conds_reqs (qs : list CondReq) : list MetricReq :=
  omap (fun q => match q with ReqMetric m => Some m | ReqSignal _ _ => None end) qs.

Definition metric_reqs c : list MetricReq :=
  conds_reqs (cr_event c ++ cr_final_filters c ++ cr_filters c ++
    (held_lines c ≫= ln_conds) ++
    match cr_tree c with Some t => concat (ct_untils t ++ ct_whens t) | None => [] end) ++
  (cr_signals c ≫= fun s => concat (sg_groups s)).
End decisions.
