(* ===== verification/Labels.v ===== *)
(** * Labels: the one spelling of a threshold, a window, a span and a read

    [event.rs format_metric_threshold], [metrics/mod.rs WindowSpec::label],
    [metrics/span.rs] and [metrics/metric_ref.rs]'s texts: what an unlabelled line names
    itself with in a persisted exit reason. *)

From S2P Require Export Vocab Evaluator.

Definition cat (a b : string) : string := String.append a b.

(** The decimal text of an integer. *)
Definition text_of_Z (z : Z) : string := pretty z.

(** [n] rounded to [n / d], half to even. *)
Definition div_half_even (n d : Z) : Z :=
  let q := n / d in
  let r := n mod d in
  if (2 * r <? d) || ((2 * r =? d) && Z.even q) then q else q + 1.

(** A number below [10^6] in exactly six digits. *)
Definition digit (z : Z) : string := pretty (z mod 10).
Definition six_digits (z : Z) : string :=
  cat (digit (z / 100000)) (cat (digit (z / 10000)) (cat (digit (z / 1000))
    (cat (digit (z / 100)) (cat (digit (z / 10)) (digit z))))).

(** [format!("{v:.6}")] of a finite float. *)
Definition fixed6 (v : f64) : string :=
  match v with
  | S754_finite s m e =>
      let micro := if 0 <=? e then Z.pos m * 2 ^ e * 10 ^ 6
                   else div_half_even (Z.pos m * 10 ^ 6) (2 ^ (- e)) in
      cat (if s then "-" else "")
        (cat (text_of_Z (micro / 10 ^ 6)) (cat "." (six_digits (micro mod 10 ^ 6))))
  | S754_zero s => if s then "-0.000000" else "0.000000"
  | _ => ""
  end.

(** [trim_end_matches] of one character. *)
Fixpoint trim_end (c : Ascii.ascii) (s : string) : string :=
  match s with
  | EmptyString => EmptyString
  | String d s' =>
      match trim_end c s' with
      | EmptyString => if Ascii.eqb d c then EmptyString else String d EmptyString
      | s'' => String d s''
      end
  end.

Definition char_zero : Ascii.ascii := Ascii.ascii_of_nat 48.
Definition char_dot : Ascii.ascii := Ascii.ascii_of_nat 46.

Definition format_metric_threshold (v : f64) : string :=
  match v with
  | S754_nan => "NaN"
  | S754_infinity s => if s then "-inf" else "inf"
  | S754_zero _ => "0"
  | S754_finite _ _ _ =>
      if f_integral v && (fabs v <. f_of_Z (10 ^ 15)) then text_of_Z (f_as_i64 v)
      else trim_end char_dot (trim_end char_zero (fixed6 v))
  end.

Definition window_label (w : WindowSpec) : string :=
  let lag := if w_lag w >. f_zero then cat "@" (format_metric_threshold (w_lag w)) else ""%string in
  cat (format_metric_threshold (w_size w)) (cat (unit_suffix (w_unit w)) lag).

Definition span_text (s : Span) : option string :=
  match sp_window s with
  | Some w => Some (window_label w)
  | None =>
      if sp_since_amm s then Some "amm"%string
      else (fun a => cat "age" (cat (format_metric_threshold (anchor_secs_f64 a)) "s")) <$> sp_since_age s
  end.

Definition slice_text (s : Span) : option string :=
  (fun w => window_label {| w_size := w_size w; w_lag := f_zero; w_unit := w_unit w |}) <$> sp_slice s.

Definition span_bracket (s : Span) : string :=
  match span_text s, slice_text s with
  | None, _ => ""
  | Some t, None => cat "[" (cat t "]")
  | Some t, Some sl => cat "[" (cat t (cat ", slice " (cat sl "]")))
  end.

Definition mref_label (r : MetricRef) : string :=
  let s := metric_path (metric_spec (mr_metric r)) in
  let s := match mr_tag r with Some t => cat s (cat " " (tag_at t)) | None => s end in
  match span_bracket (mr_span r) with
  | EmptyString => s
  | b => cat s (cat " " b)
  end.

(** ** Which tag and span a metric accepts *)

Inductive SpanProblem := NoAmmSpan | NoAgeSpan | NeedsAgeSpan | NeedsWindow | NoWindow | NeedsSlice | NoSlice.

Definition span_check_allowed (s : Span) (spec : MetricSpec) : SpanProblem + unit :=
  let u := ms_spans spec in
  if sp_since_amm s then (if su_since_amm u then inr tt else inl NoAmmSpan)
  else if is_someb (sp_since_age s) then (if su_since_age u then inr tt else inl NoAgeSpan)
  else match sp_window s with
  | None => if su_life u then inr tt else if su_since_age u then inl NeedsAgeSpan else inl NeedsWindow
  | Some _ =>
      if negb (su_window u) then inl NoWindow
      else if su_slice u && is_noneb (sp_slice s) then inl NeedsSlice
      else if negb (su_slice u) && is_someb (sp_slice s) then inl NoSlice
      else inr tt
  end.

Inductive RefProblem :=
  | TakesNoTag | NeedsTag | ReadsWalletClass | TagIsWalletClass | ClassNotNegated | BadSpan (p : SpanProblem).

Definition mref_check (r : MetricRef) : RefProblem + unit :=
  let spec := metric_spec (mr_metric r) in
  match ms_tags spec, mr_tag r with
  | TagNone, Some _ => inl TakesNoTag
  | TagRequired, None => inl NeedsTag
  | _, tag =>
      let level :=
        match tag, ms_tag_level spec with
        | Some t, LevelWalletClass =>
            if negb (is_builtin t) then Some ReadsWalletClass
            else if tag_negated t then Some ClassNotNegated else None
        | Some t, LevelTrade => if is_builtin t then Some TagIsWalletClass else None
        | None, _ => None
        end in
      match level with
      | Some p => inl p
      | None => match span_check_allowed (mr_span r) spec with inl p => inl (BadSpan p) | inr _ => inr tt end
      end
  end.

Example threshold_texts :
  format_metric_threshold (f_dec 5 1) = "0.5"%string /\ format_metric_threshold (f_of_Z (-30)) = "-30"%string /\
  format_metric_threshold (f_dec 1234567891 9) = "1.234568"%string.
Proof. vm_compute. done. Qed.

Example label_text :
  mref_label {| mr_metric := BuySol; mr_tag := Some (tag_ref "volume" true);
                mr_span := span_window {| w_size := f_of_Z 10; w_lag := f_zero; w_unit := UnitSec |} |}
  = "m_flow.buy_sol @!volume [10s]"%string.
Proof. vm_compute. done. Qed.
