(* ===== verification/Compile.v ===== *)
(** * Compile: a loaded rule pre-chewed for the hot path

    [arm.rs CompiledRule::compile] with its [Compiler] (the read ids and the line
    indices), the clock horizons and the monotonic kills it derives, and
    [state.rs compile_manual_exit_rule].  The walk is over validated params: a name a
    validated rule always resolves is looked up with index 0 as the unreachable default. *)

From S2P Require Export Arm Labels.

Definition MAX_HORIZON_SECS : f64 := f_of_Z (7 * 24 * 3600).

Definition clamp_secs (s : f64) : f64 :=
  if negb (is_finite s) || (s <=. f_zero) then f_zero else fmin s MAX_HORIZON_SECS.

(** The one accumulator a clock metric widens. *)
Definition horizon_slot (m : Metric) (f : f64 -> f64) (h : ClockHorizons) : ClockHorizons :=
  match m with
  | AgeSec => Build_ClockHorizons (ch_max_window_secs h) (f (ch_time_secs h)) (ch_stall_secs h) (ch_held_secs h) (ch_stage_secs h)
  | StallSec => Build_ClockHorizons (ch_max_window_secs h) (ch_time_secs h) (f (ch_stall_secs h)) (ch_held_secs h) (ch_stage_secs h)
  | HeldSec => Build_ClockHorizons (ch_max_window_secs h) (ch_time_secs h) (ch_stall_secs h) (f (ch_held_secs h)) (ch_stage_secs h)
  | StageSec => Build_ClockHorizons (ch_max_window_secs h) (ch_time_secs h) (ch_stall_secs h) (ch_held_secs h) (f (ch_stage_secs h))
  | _ => h
  end.

Definition window_horizon (w : WindowSpec) : f64 :=
  match w_unit w with
  | UnitSec => w_size w ⊕ w_lag w
  | UnitSlot => (w_size w ⊕ w_lag w) ⊗ NOMINAL_SLOT_SECS
  | UnitPrint => f_zero
  end.

Definition absorb_window (h : ClockHorizons) (w : WindowSpec) : ClockHorizons :=
  Build_ClockHorizons (fmax (ch_max_window_secs h) (clamp_secs (window_horizon w)))
    (ch_time_secs h) (ch_stall_secs h) (ch_held_secs h) (ch_stage_secs h).

Definition absorb_req (h : ClockHorizons) (q : MetricReq) : ClockHorizons :=
  let h := foldl absorb_window h (span_axes (mr_span (mq_r q))) in
  foldl (fun h c => horizon_slot (mr_metric (mq_r q))
           (fun slot => fmax slot (clamp_secs (fabs (c_value c) ⊕ mq_tolerance q))) h)
    h (concat (mq_conds q)).

Definition absorb_deadline (h : ClockHorizons) (basis : DeadlineBasis) (secs : f64) : ClockHorizons :=
  let m := match basis with BasisAge => AgeSec | BasisHeld => HeldSec | BasisStage => StageSec end in
  horizon_slot m (fun slot => fmax slot (clamp_secs (secs ⊕ f_dec 5 1))) h.

Definition anchor_cap (q : MetricReq) : Z :=
  let cap :=
    if bool_decide (mr_metric (mq_r q) = BuyerCount) then
      foldl (fun cap c => if is_finite (c_value c) then fmax cap (fceil (c_value c) ⊕ f_of_Z 1) else cap)
        (f_of_Z 1) (concat (mq_conds q))
    else f_of_Z 1 in
  f_as_u32 (fclamp cap (f_of_Z 1) (f_of_Z u32_max)).

Definition auto_label (line : Line) : string :=
  unwrap_or (find_map (fun c =>
    match c with
    | CondMetric r expr false =>
        Some (match expr with
          | (c0 :: _) :: _ =>
              cat (mref_label r) (cat " " (cat (symbol (c_operator c0)) (cat " " (format_metric_threshold (c_value c0)))))
          | _ => mref_label r
          end)
    | CondSignal name negated false => Some (if negated then cat "not " name else name)
    | _ => None
    end) (l_when line)) "rule"%string.

Definition watches_this_print (r : MetricRef) : bool :=
  bool_decide (family (mr_metric r) = FamPrint) ||
  is_some_and (sp_window (mr_span r)) (fun w => bool_decide (w_unit w = UnitPrint) && (w_size w =. f_of_Z 1)).

Abbreviation Signals := (list (string * list (list Cond))) (only parsing).

Definition signal_groups (signals : Signals) (name : string) : option (list (list Cond)) :=
  snd <$> find_first (fun s => bool_decide (s.1 = name)) signals.

Definition live_metric_watches (c : Cond) : bool :=
  match c with CondMetric r _ false => watches_this_print r | _ => false end.

Definition line_reads_print (line : Line) (signals : Signals) : bool :=
  existsb (fun c =>
    match c with
    | CondMetric r _ false => watches_this_print r
    | CondSignal name _ false =>
        is_some_and (signal_groups signals name) (fun groups => existsb live_metric_watches (concat groups))
    | _ => false
    end) (l_when line).

(** ** The compiler's state: the distinct coin-side reads, and the next line's index *)

Record Compiler := {
  cx_fp : FingerprintId;
  cx_signal_index : list string;
  cx_stage_index : list string;
  cx_coin_reads : list (MetricRef * option FingerprintId);
  cx_next_line : Z;
}.

Definition set_reads (cx : Compiler) (reads : list (MetricRef * option FingerprintId)) : Compiler :=
  {| cx_fp := cx_fp cx; cx_signal_index := cx_signal_index cx; cx_stage_index := cx_stage_index cx;
     cx_coin_reads := reads; cx_next_line := cx_next_line cx |}.

Definition set_next_line (cx : Compiler) (n : Z) : Compiler :=
  {| cx_fp := cx_fp cx; cx_signal_index := cx_signal_index cx; cx_stage_index := cx_stage_index cx;
     cx_coin_reads := cx_coin_reads cx; cx_next_line := n |}.

Definition column_eqb (a b : MetricRef * option FingerprintId) : bool :=
  mref_eqb a.1 b.1 && bool_decide (a.2 = b.2).

Definition compile_req (cx : Compiler) (r : MetricRef) (conds : ConditionExpr) : MetricReq * Compiler :=
  let fingerprint := if is_fingerprint_scoped r then Some (cx_fp cx) else None in
  let col := (r, fingerprint) in
  let mk read_id := {| mq_r := r; mq_fingerprint := fingerprint;
    mq_tolerance := ms_eq_tolerance (metric_spec (mr_metric r)); mq_conds := conds; mq_read_id := read_id |} in
  if is_position r then (mk POSITION_READ, cx)
  else match position_of (fun c => column_eqb c col) (cx_coin_reads cx) with
  | Some i => (mk (Z.of_nat i), cx)
  | None => (mk (Z.of_nat (length (cx_coin_reads cx))), set_reads cx (cx_coin_reads cx ++ [col]))
  end.

(** A stateful map over a list, left to right. *)
Fixpoint smap {A B S} (f : S -> A -> B * S) (s : S) (l : list A) : list B * S :=
  match l with
  | [] => ([], s)
  | x :: l => let '(y, s) := f s x in let '(ys, s) := smap f s l in (y :: ys, s)
  end.

Definition index_of (names : list string) (name : string) : option nat :=
  position_of (fun s => bool_decide (s = name)) names.

(** The source panics on a name it does not find.  The model goes on with an index that no
    table has: one past the signals, or 256, which is no [u8] and past every list of stages.
    A compiled rule without such an index is one whose compilation did not panic. *)
Definition signal_slot (names : list string) (name : string) : nat := unwrap_or (index_of names name) (length names).

Definition NO_STAGE : Z := 256.

Definition compile_cond (cx : Compiler) (c : Cond) : CondReq * Compiler :=
  match c with
  | CondMetric r expr _ => let '(q, cx) := compile_req cx r expr in (ReqMetric q, cx)
  | CondSignal name negated _ => (ReqSignal (signal_slot (cx_signal_index cx) name) negated, cx)
  end.

Definition compile_conds (cx : Compiler) (conds : list Cond) : list CondReq * Compiler :=
  smap compile_cond cx (List.filter (fun c => negb (is_off c)) conds).

Definition compile_stage_index (cx : Compiler) (name : string) : Z :=
  match index_of (cx_stage_index cx) name with Some i => wrap_u 8 (Z.of_nat i) | None => NO_STAGE end.

Definition sell_bps (pct : f64) : Z :=
  f_as_u16 (fclamp (fround (pct ⊗ f_of_Z 100)) (f_of_Z 1) (f_of_Z MAX_SELL_BPS)).

Definition compile_line (signals : Signals) (cx : Compiler) (l : Line) : CompiledLine * Compiler :=
  let index := cx_next_line cx in
  let '(conds, cx) := compile_conds (set_next_line cx (index + 1)) (l_when l) in
  ({| ln_index := index; ln_conds := conds;
      ln_sell := (fun s => {| cs_reason := ExitLine (unwrap_or (se_label s) (auto_label l));
                              cs_bps := sell_bps <$> se_pct s; cs_of_bag := se_of_bag s |}) <$> l_sell l;
      ln_go := compile_stage_index cx <$> l_go l;
      ln_reads_print := line_reads_print l signals |}, cx).

Definition compile_lines (signals : Signals) (cx : Compiler) (ls : list Line) : list CompiledLine * Compiler :=
  smap (compile_line signals) cx (List.filter (fun l => negb (l_off l)) ls).

Definition pnl_line (cx : Compiler) (op : Operator) (value : f64) (reason : ExitReason) : CompiledLine * Compiler :=
  let index := cx_next_line cx in
  let '(q, cx) := compile_req (set_next_line cx (index + 1)) (mref_life PnlPct)
                    [[{| c_operator := op; c_value := value |}]] in
  ({| ln_index := index; ln_conds := [ReqMetric q];
      ln_sell := Some {| cs_reason := reason; cs_bps := None; cs_of_bag := false |};
      ln_go := None; ln_reads_print := false |}, cx).

Definition compile_signal (cx : Compiler) (s : string * list (list Cond)) : CompiledSignal * Compiler :=
  let '(groups, cx) := smap (fun cx g => let '(qs, cx) := compile_conds cx g in (conds_reqs qs, cx)) cx s.2 in
  ({| sg_name := s.1; sg_groups := List.filter (fun g => negb (is_empty g)) groups |}, cx).

Definition compile_stage (signals : Signals) (st : nat * Compiler) (s : Stage) : CompiledStage * (nat * Compiler) :=
  let '(i, cx) := st in
  let '(on, cx) := compile_lines signals cx (st_on s) in
  let '(at_end, cx) := compile_lines signals cx (st_at_end s) in
  ({| sg_stage_name := st_name s;
      sg_ends := (fun d => (dl_basis d, dl_secs d)) <$> st_ends s;
      sg_on := on; sg_at_end := at_end;
      sg_then := match st_ends s, st_then s with
        | None, _ => None
        | Some _, Some t => Some (compile_stage_index cx t)
        | Some _, None => Some (wrap_u 8 (Z.of_nat (S i)))
        end |}, (S i, cx)).

Definition main_stage : CompiledStage :=
  {| sg_stage_name := "main"; sg_ends := None; sg_on := []; sg_at_end := []; sg_then := None |}.

Definition find_cell (t : Tree) (ph si : option string) : option nat :=
  position_of (fun c => bool_decide (cl_phase c = ph) && bool_decide (cl_situation c = si)) (tr_cells t).

(** The most specific entry covering a cell. *)
Definition cell_entry (t : Tree) (ph si : string) : option nat :=
  or_else (find_cell t (Some ph) (Some si))
    (or_else (find_cell t (Some ph) None)
      (or_else (find_cell t None (Some si)) (find_cell t None None))).

Definition cell_entry_ok (cells : list CellRef) (ph si : string) : bool :=
  is_empty cells ||
  existsb (fun c => is_none_or c.1 (fun n => bool_decide (n = ph)) && is_none_or c.2 (fun n => bool_decide (n = si))) cells.

Definition compile_tree (p : RuleParams) (cx : Compiler) (t : Tree) : CompiledTree * Compiler :=
  let drop_last {A} (l : list A) := take (length l - 1) l in
  let '(untils, cx) := smap (fun cx ph => compile_conds cx (ph_until ph)) cx (drop_last (tr_phases t)) in
  let '(whens, cx) := smap (fun cx si => compile_conds cx (si_when si)) cx (drop_last (tr_situations t)) in
  let '(entries, cx) := smap (fun cx c => compile_lines (rp_signals p) cx (cl_on c)) cx (tr_cells t) in
  let grid {A} (f : string -> string -> A) : list A :=
    tr_phases t ≫= fun ph => (fun si => f (ph_name ph) (si_name si)) <$> tr_situations t in
  ({| ct_phase_names := ph_name <$> tr_phases t;
      ct_situation_names := si_name <$> tr_situations t;
      ct_untils := untils; ct_whens := whens; ct_entries := entries;
      ct_cell_entry := grid (cell_entry t);
      ct_entry_ok := grid (cell_entry_ok (en_cells (rp_enter p))) |}, cx).

(** ** What the compiled conditions derive *)

Definition line_conds (always : list CompiledLine) (stages : list CompiledStage) (tree : option CompiledTree) : list CondReq :=
  ((always ++ (stages ≫= fun s => sg_on s ++ sg_at_end s) ++
    match tree with Some t => concat (ct_entries t) | None => [] end) ≫= ln_conds) ++
  match tree with Some t => concat (ct_untils t ++ ct_whens t) | None => [] end.

Definition mono_kill (c : CondReq) : option MonoMetricKill :=
  match c with
  | ReqSignal _ _ => None
  | ReqMetric m =>
      if negb (is_monotonic (mq_r m)) then None
      else
        let half := mq_tolerance m ⊘ f_two in
        let arms := (fun arm => arm_mono_upper arm half (mq_r m)) <$> mq_conds m in
        if existsb is_someb arms then Some {| mk_req := m; mk_arms := arms |} else None
  end.

Definition is_print_exit (always : list CompiledLine) (stages : list CompiledStage) (tree : option CompiledTree) : bool :=
  existsb (fun l => ln_reads_print l && is_someb (ln_sell l))
    (always ++ (stages ≫= sg_on) ++ match tree with Some t => concat (ct_entries t) | None => [] end).

(** The TP/SL shortcuts, then the authored [always] lines. *)
Definition compile_always (p : RuleParams) (cx : Compiler) : list CompiledLine * Compiler :=
  let '(sl, cx) := match rp_stop_loss p with
    | Some sl => let '(l, cx) := pnl_line cx OpLte (fneg sl) StopLoss in ([l], cx)
    | None => ([], cx) end in
  let '(tp, cx) := match rp_take_profit p with
    | Some tp => let '(l, cx) := pnl_line cx OpGte tp TakeProfit in ([l], cx)
    | None => ([], cx) end in
  let '(ls, cx) := compile_lines (rp_signals p) cx (rp_always p) in
  (sl ++ tp ++ ls, cx).

Definition compile (rule : LoadedRule) : CompiledRule :=
  let p := if is_someb (rp_copy (lr_params rule)) then expand_copy (lr_params rule) else lr_params rule in
  let cx := {| cx_fp := lr_fingerprint_id rule; cx_signal_index := (rp_signals p).*1;
               cx_stage_index := st_name <$> rp_stages p; cx_coin_reads := []; cx_next_line := 0 |} in
  let '(event, cx) := compile_conds cx (en_event (rp_enter p)) in
  let '(filters, cx) := compile_conds cx (en_filters (rp_enter p)) in
  let '(final_filters, cx) := compile_conds cx (en_final_filters (rp_enter p)) in
  let '(signals, cx) := smap compile_signal cx (rp_signals p) in
  let '(always, cx) := compile_always p cx in
  let '(stages, (_, cx)) := smap (compile_stage (rp_signals p)) (O, cx) (rp_stages p) in
  let stages := match stages with [] => [main_stage] | _ => stages end in
  let '(tree, cx) := match rp_tree p with
    | Some t => let '(t, cx) := compile_tree p cx t in (Some t, cx)
    | None => (None, cx) end in
  let all_metric := conds_reqs (event ++ filters ++ final_filters ++ line_conds always stages tree) ++
                    (signals ≫= fun s => concat (sg_groups s)) in
  let horizons := foldl absorb_req ClockHorizons_default all_metric in
  let horizons := foldl (fun h s => match sg_ends s with Some e => absorb_deadline h e.1 e.2 | None => h end)
                    horizons stages in
  {| cr_id := lr_id rule; cr_fingerprint_id := lr_fingerprint_id rule;
     cr_trade_mode := lr_trade_mode rule; cr_buy_amount_lamports := lr_buy_amount_lamports rule;
     cr_copy := is_someb (rp_copy (lr_params rule));
     cr_size_pct_of_pool := en_size_pct_of_pool (rp_enter p); cr_slippage_pct := en_slippage_pct (rp_enter p);
     cr_concurrent_cap := concurrent_cap_of rule; cr_max_total := total_cap_of rule;
     cr_take_profit := rp_take_profit p; cr_stop_loss := rp_stop_loss p;
     cr_event := event; cr_filters := filters; cr_final_filters := final_filters;
     cr_entry_lock := en_lock (rp_enter p); cr_signals := signals; cr_always := always;
     cr_stages := stages; cr_tree := tree;
     cr_buffers := foldl (fun b m => absorb b (mq_r m) (anchor_cap m)) Buffers_default all_metric;
     cr_coin_reads := cx_coin_reads cx;
     cr_mono_kills := omap mono_kill (event ++ filters ++ final_filters);
     cr_clock_horizons := horizons; cr_reentry := rp_reentry p; cr_exclusive := rp_exclusive p;
     cr_priority := rp_priority p; cr_entry_enabled := lr_entry_enabled rule;
     cr_follow_bought := bool_decide (rp_follow p = FollowBought);
     cr_print_exit := is_print_exit always stages tree |}.

(** A manual position's one-off exit rule. *)
Definition positive_pct (v : option f64) : option f64 :=
  match v with Some x => if is_finite x && (x >. f_zero) then Some x else None | None => None end.

Definition compile_manual_exit_rule (rule : RuleId) (exit : ManualExit) : CompiledRule :=
  compile {| lr_id := rule; lr_fingerprint_id := 0; lr_trade_mode := Real; lr_buy_amount_lamports := 0;
             lr_max_concurrent_tokens := 1; lr_max_total_tokens := 0;
             lr_params := {| rp_enter := Enter_default; rp_take_profit := positive_pct (me_tp_pct exit);
               rp_stop_loss := positive_pct (me_sl_pct exit); rp_signals := []; rp_always := [];
               rp_stages := []; rp_tree := None; rp_reentry := None; rp_exclusive := false;
               rp_priority := 0; rp_copy := None; rp_follow := FollowAll |};
             lr_entry_enabled := true |}.
