(* ===== verification/State.v ===== *)
(** * State: everything the fold carries between events

    [state.rs]: the per-coin [TokenState], the [EngineState], the counters, the two id
    generators, the tallies, the reload and the registration of what rules read.  The
    setters write one field and keep the rest.  The two id sequences are counted without
    their 64-bit width; [cross_epoch] wraps as the source's does. *)

From S2P Require Export Compile.

Record RuleCounters := { rc_open : Z; rc_total : Z }.

Definition RuleCounters_default : RuleCounters := {| rc_open := 0; rc_total := 0 |}.

Record PositionRef := { pr_mint : Mint; pr_rule : RuleId }.

Record Settled := { se_until : Ts; se_epoch : Z }.

Section state.
Context `{TrackOps}.

Record TokenState := {
  tk_created_at : Ts;
  tk_tf : TokenFingerprint;
  tk_identity : option IdentityHash;
  tk_track : Track;
  tk_last_meaningful_at : option Ts;
  tk_last_trade_at : option Ts;
  tk_settled : option Settled;
  tk_first_slot_settled : bool;
  tk_arms : gmap RuleId ArmState;
  tk_episodes : gmap RuleId Z;
  tk_entry_locks : gmap RuleId Z;
  tk_facts_pending : bool;
}.

(** What one fingerprint tag needs of a track, and the union over the loaded rules. *)
Record TagNeed := { tn_patterns : TagPatterns; tn_trade : bool; tn_windows : list WindowSpec }.

Record TrackRequirements := {
  rq_buffers : Buffers;
  rq_tags : list ((FingerprintId * Z) * TagNeed);
}.

Definition TrackRequirements_default : TrackRequirements :=
  {| rq_buffers := Buffers_default; rq_tags := [] |}.

Record EngineState := {
  es_rules : gmap RuleId CompiledRule;
  es_manual_rules : gmap PositionId CompiledRule;
  es_fps : list (Fingerprint TagDoc);
  es_fp_tags : gmap FingerprintId (list (CompiledTag TagPatterns));
  es_requirements : TrackRequirements;
  es_tick_horizons : ClockHorizons;
  es_any_priority : bool;
  es_cross_epoch : Z;
  es_all_settled_at : option nat;
  es_dense_ticks : bool;
  es_counters : gmap RuleId RuleCounters;
  es_tokens : gmap Mint TokenState;
  es_positions : gmap PositionId PositionRef;
  es_launch_build_stats : gmap Z LaunchBuildStat;
  es_public_recipes : option (gset Z);
  es_creator_launches : gmap Z Z;
  es_identity_launches : IdentityLaunches;
  es_identity_builds : gset Z;
  es_identity_primed : gset Z;
  es_dupe_guard : DupeGuard.t;
  es_intent_seq : Z;
  es_position_seq : Z;
  es_observing : bool;
}.

(** *** One-field updates *)

Definition set_tk_tf (t : TokenState) (x : TokenFingerprint) : TokenState := {|
  tk_created_at := tk_created_at t; tk_tf := x; tk_identity := tk_identity t; tk_track := tk_track t;
  tk_last_meaningful_at := tk_last_meaningful_at t; tk_last_trade_at := tk_last_trade_at t;
  tk_settled := tk_settled t; tk_first_slot_settled := tk_first_slot_settled t; tk_arms := tk_arms t;
  tk_episodes := tk_episodes t; tk_entry_locks := tk_entry_locks t;
  tk_facts_pending := tk_facts_pending t |}.
Definition set_tk_track (t : TokenState) (x : Track) : TokenState := {|
  tk_created_at := tk_created_at t; tk_tf := tk_tf t; tk_identity := tk_identity t; tk_track := x;
  tk_last_meaningful_at := tk_last_meaningful_at t; tk_last_trade_at := tk_last_trade_at t;
  tk_settled := tk_settled t; tk_first_slot_settled := tk_first_slot_settled t; tk_arms := tk_arms t;
  tk_episodes := tk_episodes t; tk_entry_locks := tk_entry_locks t;
  tk_facts_pending := tk_facts_pending t |}.
Definition set_tk_last_meaningful_at (t : TokenState) (x : option Ts) : TokenState := {|
  tk_created_at := tk_created_at t; tk_tf := tk_tf t; tk_identity := tk_identity t;
  tk_track := tk_track t; tk_last_meaningful_at := x; tk_last_trade_at := tk_last_trade_at t;
  tk_settled := tk_settled t; tk_first_slot_settled := tk_first_slot_settled t; tk_arms := tk_arms t;
  tk_episodes := tk_episodes t; tk_entry_locks := tk_entry_locks t;
  tk_facts_pending := tk_facts_pending t |}.
Definition set_tk_last_trade_at (t : TokenState) (x : option Ts) : TokenState := {|
  tk_created_at := tk_created_at t; tk_tf := tk_tf t; tk_identity := tk_identity t;
  tk_track := tk_track t; tk_last_meaningful_at := tk_last_meaningful_at t; tk_last_trade_at := x;
  tk_settled := tk_settled t; tk_first_slot_settled := tk_first_slot_settled t; tk_arms := tk_arms t;
  tk_episodes := tk_episodes t; tk_entry_locks := tk_entry_locks t;
  tk_facts_pending := tk_facts_pending t |}.
Definition set_tk_settled (t : TokenState) (x : option Settled) : TokenState := {|
  tk_created_at := tk_created_at t; tk_tf := tk_tf t; tk_identity := tk_identity t;
  tk_track := tk_track t; tk_last_meaningful_at := tk_last_meaningful_at t;
  tk_last_trade_at := tk_last_trade_at t; tk_settled := x;
  tk_first_slot_settled := tk_first_slot_settled t; tk_arms := tk_arms t;
  tk_episodes := tk_episodes t; tk_entry_locks := tk_entry_locks t;
  tk_facts_pending := tk_facts_pending t |}.
Definition set_tk_arms (t : TokenState) (x : gmap RuleId ArmState) : TokenState := {|
  tk_created_at := tk_created_at t; tk_tf := tk_tf t; tk_identity := tk_identity t;
  tk_track := tk_track t; tk_last_meaningful_at := tk_last_meaningful_at t;
  tk_last_trade_at := tk_last_trade_at t; tk_settled := tk_settled t;
  tk_first_slot_settled := tk_first_slot_settled t; tk_arms := x; tk_episodes := tk_episodes t;
  tk_entry_locks := tk_entry_locks t; tk_facts_pending := tk_facts_pending t |}.
Definition set_tk_episodes (t : TokenState) (x : gmap RuleId Z) : TokenState := {|
  tk_created_at := tk_created_at t; tk_tf := tk_tf t; tk_identity := tk_identity t;
  tk_track := tk_track t; tk_last_meaningful_at := tk_last_meaningful_at t;
  tk_last_trade_at := tk_last_trade_at t; tk_settled := tk_settled t;
  tk_first_slot_settled := tk_first_slot_settled t; tk_arms := tk_arms t; tk_episodes := x;
  tk_entry_locks := tk_entry_locks t; tk_facts_pending := tk_facts_pending t |}.
Definition set_tk_entry_locks (t : TokenState) (x : gmap RuleId Z) : TokenState := {|
  tk_created_at := tk_created_at t; tk_tf := tk_tf t; tk_identity := tk_identity t;
  tk_track := tk_track t; tk_last_meaningful_at := tk_last_meaningful_at t;
  tk_last_trade_at := tk_last_trade_at t; tk_settled := tk_settled t;
  tk_first_slot_settled := tk_first_slot_settled t; tk_arms := tk_arms t;
  tk_episodes := tk_episodes t; tk_entry_locks := x; tk_facts_pending := tk_facts_pending t |}.
Definition set_tk_first_slot_settled (t : TokenState) (x : bool) : TokenState := {|
  tk_created_at := tk_created_at t; tk_tf := tk_tf t; tk_identity := tk_identity t;
  tk_track := tk_track t; tk_last_meaningful_at := tk_last_meaningful_at t;
  tk_last_trade_at := tk_last_trade_at t; tk_settled := tk_settled t; tk_first_slot_settled := x;
  tk_arms := tk_arms t; tk_episodes := tk_episodes t; tk_entry_locks := tk_entry_locks t;
  tk_facts_pending := tk_facts_pending t |}.

Definition set_es_rules (st : EngineState) (x : gmap RuleId CompiledRule) : EngineState := {|
  es_rules := x; es_manual_rules := es_manual_rules st; es_fps := es_fps st;
  es_fp_tags := es_fp_tags st; es_requirements := es_requirements st;
  es_tick_horizons := es_tick_horizons st; es_any_priority := es_any_priority st;
  es_cross_epoch := es_cross_epoch st; es_all_settled_at := es_all_settled_at st;
  es_dense_ticks := es_dense_ticks st; es_counters := es_counters st; es_tokens := es_tokens st;
  es_positions := es_positions st; es_launch_build_stats := es_launch_build_stats st;
  es_public_recipes := es_public_recipes st; es_creator_launches := es_creator_launches st;
  es_identity_launches := es_identity_launches st; es_identity_builds := es_identity_builds st;
  es_identity_primed := es_identity_primed st; es_dupe_guard := es_dupe_guard st;
  es_intent_seq := es_intent_seq st; es_position_seq := es_position_seq st;
  es_observing := es_observing st |}.
Definition set_es_manual_rules (st : EngineState) (x : gmap PositionId CompiledRule) : EngineState := {|
  es_rules := es_rules st; es_manual_rules := x; es_fps := es_fps st; es_fp_tags := es_fp_tags st;
  es_requirements := es_requirements st; es_tick_horizons := es_tick_horizons st;
  es_any_priority := es_any_priority st; es_cross_epoch := es_cross_epoch st;
  es_all_settled_at := es_all_settled_at st; es_dense_ticks := es_dense_ticks st;
  es_counters := es_counters st; es_tokens := es_tokens st; es_positions := es_positions st;
  es_launch_build_stats := es_launch_build_stats st; es_public_recipes := es_public_recipes st;
  es_creator_launches := es_creator_launches st; es_identity_launches := es_identity_launches st;
  es_identity_builds := es_identity_builds st; es_identity_primed := es_identity_primed st;
  es_dupe_guard := es_dupe_guard st; es_intent_seq := es_intent_seq st;
  es_position_seq := es_position_seq st; es_observing := es_observing st |}.
Definition set_es_cross_epoch (st : EngineState) (x : Z) : EngineState := {|
  es_rules := es_rules st; es_manual_rules := es_manual_rules st; es_fps := es_fps st;
  es_fp_tags := es_fp_tags st; es_requirements := es_requirements st;
  es_tick_horizons := es_tick_horizons st; es_any_priority := es_any_priority st;
  es_cross_epoch := x; es_all_settled_at := es_all_settled_at st;
  es_dense_ticks := es_dense_ticks st; es_counters := es_counters st; es_tokens := es_tokens st;
  es_positions := es_positions st; es_launch_build_stats := es_launch_build_stats st;
  es_public_recipes := es_public_recipes st; es_creator_launches := es_creator_launches st;
  es_identity_launches := es_identity_launches st; es_identity_builds := es_identity_builds st;
  es_identity_primed := es_identity_primed st; es_dupe_guard := es_dupe_guard st;
  es_intent_seq := es_intent_seq st; es_position_seq := es_position_seq st;
  es_observing := es_observing st |}.
Definition set_es_all_settled_at (st : EngineState) (x : option nat) : EngineState := {|
  es_rules := es_rules st; es_manual_rules := es_manual_rules st; es_fps := es_fps st;
  es_fp_tags := es_fp_tags st; es_requirements := es_requirements st;
  es_tick_horizons := es_tick_horizons st; es_any_priority := es_any_priority st;
  es_cross_epoch := es_cross_epoch st; es_all_settled_at := x; es_dense_ticks := es_dense_ticks st;
  es_counters := es_counters st; es_tokens := es_tokens st; es_positions := es_positions st;
  es_launch_build_stats := es_launch_build_stats st; es_public_recipes := es_public_recipes st;
  es_creator_launches := es_creator_launches st; es_identity_launches := es_identity_launches st;
  es_identity_builds := es_identity_builds st; es_identity_primed := es_identity_primed st;
  es_dupe_guard := es_dupe_guard st; es_intent_seq := es_intent_seq st;
  es_position_seq := es_position_seq st; es_observing := es_observing st |}.
Definition set_es_counters (st : EngineState) (x : gmap RuleId RuleCounters) : EngineState := {|
  es_rules := es_rules st; es_manual_rules := es_manual_rules st; es_fps := es_fps st;
  es_fp_tags := es_fp_tags st; es_requirements := es_requirements st;
  es_tick_horizons := es_tick_horizons st; es_any_priority := es_any_priority st;
  es_cross_epoch := es_cross_epoch st; es_all_settled_at := es_all_settled_at st;
  es_dense_ticks := es_dense_ticks st; es_counters := x; es_tokens := es_tokens st;
  es_positions := es_positions st; es_launch_build_stats := es_launch_build_stats st;
  es_public_recipes := es_public_recipes st; es_creator_launches := es_creator_launches st;
  es_identity_launches := es_identity_launches st; es_identity_builds := es_identity_builds st;
  es_identity_primed := es_identity_primed st; es_dupe_guard := es_dupe_guard st;
  es_intent_seq := es_intent_seq st; es_position_seq := es_position_seq st;
  es_observing := es_observing st |}.
Definition set_es_tokens (st : EngineState) (x : gmap Mint TokenState) : EngineState := {|
  es_rules := es_rules st; es_manual_rules := es_manual_rules st; es_fps := es_fps st;
  es_fp_tags := es_fp_tags st; es_requirements := es_requirements st;
  es_tick_horizons := es_tick_horizons st; es_any_priority := es_any_priority st;
  es_cross_epoch := es_cross_epoch st; es_all_settled_at := es_all_settled_at st;
  es_dense_ticks := es_dense_ticks st; es_counters := es_counters st; es_tokens := x;
  es_positions := es_positions st; es_launch_build_stats := es_launch_build_stats st;
  es_public_recipes := es_public_recipes st; es_creator_launches := es_creator_launches st;
  es_identity_launches := es_identity_launches st; es_identity_builds := es_identity_builds st;
  es_identity_primed := es_identity_primed st; es_dupe_guard := es_dupe_guard st;
  es_intent_seq := es_intent_seq st; es_position_seq := es_position_seq st;
  es_observing := es_observing st |}.
Definition set_es_positions (st : EngineState) (x : gmap PositionId PositionRef) : EngineState := {|
  es_rules := es_rules st; es_manual_rules := es_manual_rules st; es_fps := es_fps st;
  es_fp_tags := es_fp_tags st; es_requirements := es_requirements st;
  es_tick_horizons := es_tick_horizons st; es_any_priority := es_any_priority st;
  es_cross_epoch := es_cross_epoch st; es_all_settled_at := es_all_settled_at st;
  es_dense_ticks := es_dense_ticks st; es_counters := es_counters st; es_tokens := es_tokens st;
  es_positions := x; es_launch_build_stats := es_launch_build_stats st;
  es_public_recipes := es_public_recipes st; es_creator_launches := es_creator_launches st;
  es_identity_launches := es_identity_launches st; es_identity_builds := es_identity_builds st;
  es_identity_primed := es_identity_primed st; es_dupe_guard := es_dupe_guard st;
  es_intent_seq := es_intent_seq st; es_position_seq := es_position_seq st;
  es_observing := es_observing st |}.
Definition set_es_launch_build_stats (st : EngineState) (x : gmap Z LaunchBuildStat) : EngineState := {|
  es_rules := es_rules st; es_manual_rules := es_manual_rules st; es_fps := es_fps st;
  es_fp_tags := es_fp_tags st; es_requirements := es_requirements st;
  es_tick_horizons := es_tick_horizons st; es_any_priority := es_any_priority st;
  es_cross_epoch := es_cross_epoch st; es_all_settled_at := es_all_settled_at st;
  es_dense_ticks := es_dense_ticks st; es_counters := es_counters st; es_tokens := es_tokens st;
  es_positions := es_positions st; es_launch_build_stats := x;
  es_public_recipes := es_public_recipes st; es_creator_launches := es_creator_launches st;
  es_identity_launches := es_identity_launches st; es_identity_builds := es_identity_builds st;
  es_identity_primed := es_identity_primed st; es_dupe_guard := es_dupe_guard st;
  es_intent_seq := es_intent_seq st; es_position_seq := es_position_seq st;
  es_observing := es_observing st |}.
Definition set_es_public_recipes (st : EngineState) (x : option (gset Z)) : EngineState := {|
  es_rules := es_rules st; es_manual_rules := es_manual_rules st; es_fps := es_fps st;
  es_fp_tags := es_fp_tags st; es_requirements := es_requirements st;
  es_tick_horizons := es_tick_horizons st; es_any_priority := es_any_priority st;
  es_cross_epoch := es_cross_epoch st; es_all_settled_at := es_all_settled_at st;
  es_dense_ticks := es_dense_ticks st; es_counters := es_counters st; es_tokens := es_tokens st;
  es_positions := es_positions st; es_launch_build_stats := es_launch_build_stats st;
  es_public_recipes := x; es_creator_launches := es_creator_launches st;
  es_identity_launches := es_identity_launches st; es_identity_builds := es_identity_builds st;
  es_identity_primed := es_identity_primed st; es_dupe_guard := es_dupe_guard st;
  es_intent_seq := es_intent_seq st; es_position_seq := es_position_seq st;
  es_observing := es_observing st |}.
Definition set_es_creator_launches (st : EngineState) (x : gmap Z Z) : EngineState := {|
  es_rules := es_rules st; es_manual_rules := es_manual_rules st; es_fps := es_fps st;
  es_fp_tags := es_fp_tags st; es_requirements := es_requirements st;
  es_tick_horizons := es_tick_horizons st; es_any_priority := es_any_priority st;
  es_cross_epoch := es_cross_epoch st; es_all_settled_at := es_all_settled_at st;
  es_dense_ticks := es_dense_ticks st; es_counters := es_counters st; es_tokens := es_tokens st;
  es_positions := es_positions st; es_launch_build_stats := es_launch_build_stats st;
  es_public_recipes := es_public_recipes st; es_creator_launches := x;
  es_identity_launches := es_identity_launches st; es_identity_builds := es_identity_builds st;
  es_identity_primed := es_identity_primed st; es_dupe_guard := es_dupe_guard st;
  es_intent_seq := es_intent_seq st; es_position_seq := es_position_seq st;
  es_observing := es_observing st |}.
Definition set_es_identity_launches (st : EngineState) (x : IdentityLaunches) : EngineState := {|
  es_rules := es_rules st; es_manual_rules := es_manual_rules st; es_fps := es_fps st;
  es_fp_tags := es_fp_tags st; es_requirements := es_requirements st;
  es_tick_horizons := es_tick_horizons st; es_any_priority := es_any_priority st;
  es_cross_epoch := es_cross_epoch st; es_all_settled_at := es_all_settled_at st;
  es_dense_ticks := es_dense_ticks st; es_counters := es_counters st; es_tokens := es_tokens st;
  es_positions := es_positions st; es_launch_build_stats := es_launch_build_stats st;
  es_public_recipes := es_public_recipes st; es_creator_launches := es_creator_launches st;
  es_identity_launches := x; es_identity_builds := es_identity_builds st;
  es_identity_primed := es_identity_primed st; es_dupe_guard := es_dupe_guard st;
  es_intent_seq := es_intent_seq st; es_position_seq := es_position_seq st;
  es_observing := es_observing st |}.
Definition set_es_identity_primed (st : EngineState) (x : gset Z) : EngineState := {|
  es_rules := es_rules st; es_manual_rules := es_manual_rules st; es_fps := es_fps st;
  es_fp_tags := es_fp_tags st; es_requirements := es_requirements st;
  es_tick_horizons := es_tick_horizons st; es_any_priority := es_any_priority st;
  es_cross_epoch := es_cross_epoch st; es_all_settled_at := es_all_settled_at st;
  es_dense_ticks := es_dense_ticks st; es_counters := es_counters st; es_tokens := es_tokens st;
  es_positions := es_positions st; es_launch_build_stats := es_launch_build_stats st;
  es_public_recipes := es_public_recipes st; es_creator_launches := es_creator_launches st;
  es_identity_launches := es_identity_launches st; es_identity_builds := es_identity_builds st;
  es_identity_primed := x; es_dupe_guard := es_dupe_guard st; es_intent_seq := es_intent_seq st;
  es_position_seq := es_position_seq st; es_observing := es_observing st |}.
Definition set_es_dupe_guard (st : EngineState) (x : DupeGuard.t) : EngineState := {|
  es_rules := es_rules st; es_manual_rules := es_manual_rules st; es_fps := es_fps st;
  es_fp_tags := es_fp_tags st; es_requirements := es_requirements st;
  es_tick_horizons := es_tick_horizons st; es_any_priority := es_any_priority st;
  es_cross_epoch := es_cross_epoch st; es_all_settled_at := es_all_settled_at st;
  es_dense_ticks := es_dense_ticks st; es_counters := es_counters st; es_tokens := es_tokens st;
  es_positions := es_positions st; es_launch_build_stats := es_launch_build_stats st;
  es_public_recipes := es_public_recipes st; es_creator_launches := es_creator_launches st;
  es_identity_launches := es_identity_launches st; es_identity_builds := es_identity_builds st;
  es_identity_primed := es_identity_primed st; es_dupe_guard := x; es_intent_seq := es_intent_seq st;
  es_position_seq := es_position_seq st; es_observing := es_observing st |}.
Definition set_es_intent_seq (st : EngineState) (x : Z) : EngineState := {|
  es_rules := es_rules st; es_manual_rules := es_manual_rules st; es_fps := es_fps st;
  es_fp_tags := es_fp_tags st; es_requirements := es_requirements st;
  es_tick_horizons := es_tick_horizons st; es_any_priority := es_any_priority st;
  es_cross_epoch := es_cross_epoch st; es_all_settled_at := es_all_settled_at st;
  es_dense_ticks := es_dense_ticks st; es_counters := es_counters st; es_tokens := es_tokens st;
  es_positions := es_positions st; es_launch_build_stats := es_launch_build_stats st;
  es_public_recipes := es_public_recipes st; es_creator_launches := es_creator_launches st;
  es_identity_launches := es_identity_launches st; es_identity_builds := es_identity_builds st;
  es_identity_primed := es_identity_primed st; es_dupe_guard := es_dupe_guard st; es_intent_seq := x;
  es_position_seq := es_position_seq st; es_observing := es_observing st |}.
Definition set_es_position_seq (st : EngineState) (x : Z) : EngineState := {|
  es_rules := es_rules st; es_manual_rules := es_manual_rules st; es_fps := es_fps st;
  es_fp_tags := es_fp_tags st; es_requirements := es_requirements st;
  es_tick_horizons := es_tick_horizons st; es_any_priority := es_any_priority st;
  es_cross_epoch := es_cross_epoch st; es_all_settled_at := es_all_settled_at st;
  es_dense_ticks := es_dense_ticks st; es_counters := es_counters st; es_tokens := es_tokens st;
  es_positions := es_positions st; es_launch_build_stats := es_launch_build_stats st;
  es_public_recipes := es_public_recipes st; es_creator_launches := es_creator_launches st;
  es_identity_launches := es_identity_launches st; es_identity_builds := es_identity_builds st;
  es_identity_primed := es_identity_primed st; es_dupe_guard := es_dupe_guard st;
  es_intent_seq := es_intent_seq st; es_position_seq := x; es_observing := es_observing st |}.
Definition set_es_observing (st : EngineState) (x : bool) : EngineState := {|
  es_rules := es_rules st; es_manual_rules := es_manual_rules st; es_fps := es_fps st;
  es_fp_tags := es_fp_tags st; es_requirements := es_requirements st;
  es_tick_horizons := es_tick_horizons st; es_any_priority := es_any_priority st;
  es_cross_epoch := es_cross_epoch st; es_all_settled_at := es_all_settled_at st;
  es_dense_ticks := es_dense_ticks st; es_counters := es_counters st; es_tokens := es_tokens st;
  es_positions := es_positions st; es_launch_build_stats := es_launch_build_stats st;
  es_public_recipes := es_public_recipes st; es_creator_launches := es_creator_launches st;
  es_identity_launches := es_identity_launches st; es_identity_builds := es_identity_builds st;
  es_identity_primed := es_identity_primed st; es_dupe_guard := es_dupe_guard st;
  es_intent_seq := es_intent_seq st; es_position_seq := es_position_seq st; es_observing := x |}.

(** *** Tokens *)

Definition tk_is_active (t : TokenState) : bool := existsb arm_is_active (values (tk_arms t)).

Definition tick_is_noop (t : TokenState) (epoch : Z) : bool :=
  is_some_and (tk_settled t) (fun s => se_epoch s =? epoch).

Definition unsettle (t : TokenState) : TokenState := set_tk_settled t None.

(** *** Requirements *)

Definition pair_leb (a b : Z * Z) : bool := (a.1 <? b.1) || ((a.1 =? b.1) && (a.2 <=? b.2)).

(** The entry of a tag, made at its place in key order when absent, changed by [f]. *)
Fixpoint with_need (tags : list ((FingerprintId * Z) * TagNeed)) (k : FingerprintId * Z) (mk : TagNeed)
    (f : TagNeed -> TagNeed) : list ((FingerprintId * Z) * TagNeed) :=
  match tags with
  | [] => [(k, f mk)]
  | e :: tags' =>
      if bool_decide (e.1 = k) then (k, f e.2) :: tags'
      else if pair_leb k e.1 then (k, f mk) :: tags
      else e :: with_need tags' k mk f
  end.

Definition add_read (read : TagRead) (n : TagNeed) : TagNeed :=
  {| tn_patterns := tn_patterns n; tn_trade := tn_trade n || tg_trade read;
     tn_windows := foldl push_window (tn_windows n) (tg_windows read) |}.

Definition fp_tag (fp_tags : gmap FingerprintId (list (CompiledTag TagPatterns))) (fp : FingerprintId)
    (key : Z) : option (CompiledTag TagPatterns) :=
  match fp_tags !! fp with
  | Some l => find_first (fun t => ct_key t =? key) l
  | None => None
  end.

Definition require_read (fp_tags : gmap FingerprintId (list (CompiledTag TagPatterns))) (fp : FingerprintId)
    (out : list ((FingerprintId * Z) * TagNeed)) (read : TagRead) : list ((FingerprintId * Z) * TagNeed) :=
  match fp_tag fp_tags fp (tg_key read) with
  | None => out
  | Some tag =>
      with_need out (fp, tg_key read)
        {| tn_patterns := ct_patterns tag; tn_trade := false; tn_windows := [] |} (add_read read)
  end.

Definition requirements_build (rules : list CompiledRule)
    (fp_tags : gmap FingerprintId (list (CompiledTag TagPatterns))) : TrackRequirements :=
  let buffers := foldl (fun b r => buffers_union b (cr_buffers r)) Buffers_default rules in
  {| rq_buffers := set_tags buffers [];
     rq_tags := foldl (fun out r =>
       foldl (require_read fp_tags (cr_fingerprint_id r)) out (bf_tags (cr_buffers r))) [] rules |}.

Definition requirements_ensure (q : TrackRequirements) (track : Track) : Track :=
  foldl (fun track e =>
    if tn_trade e.2 then ensure_tag track e.1.1 e.1.2 (tn_patterns e.2) (tn_windows e.2) else track)
    (ensure_on (rq_buffers q) track) (rq_tags q).

(** *** The engine *)

Definition EngineState_new : EngineState := {|
  es_rules := ∅; es_manual_rules := ∅; es_fps := []; es_fp_tags := ∅;
  es_requirements := TrackRequirements_default; es_tick_horizons := ClockHorizons_default;
  es_any_priority := false; es_cross_epoch := 0; es_all_settled_at := None; es_dense_ticks := false;
  es_counters := ∅; es_tokens := ∅; es_positions := ∅; es_launch_build_stats := ∅;
  es_public_recipes := None; es_creator_launches := ∅; es_identity_launches := ∅;
  es_identity_builds := ∅; es_identity_primed := ∅; es_dupe_guard := DupeGuard.default;
  es_intent_seq := 0; es_position_seq := 0; es_observing := false |}.

Definition next_intent (st : EngineState) (rule : RuleId) (mint : Mint) : IntentId * EngineState :=
  let seq := es_intent_seq st + 1 in
  ({| i_rule := rule; i_mint := mint; i_seq := seq |}, set_es_intent_seq st seq).

Definition next_position (st : EngineState) : PositionId * EngineState :=
  let seq := es_position_seq st + 1 in (seq, set_es_position_seq st seq).

Definition bump_cross_epoch (st : EngineState) : EngineState :=
  set_es_all_settled_at (set_es_cross_epoch st (wrap_u 64 (es_cross_epoch st + 1))) None.

Definition all_tokens_settled (st : EngineState) : bool :=
  bool_decide (es_all_settled_at st = Some (size (es_tokens st))).

Definition touch_token (st : EngineState) (mint : Mint) : EngineState :=
  set_es_all_settled_at (set_es_tokens st (alter unsettle mint (es_tokens st))) None.

Definition counters_of (st : EngineState) (rule : RuleId) : RuleCounters :=
  unwrap_or (es_counters st !! rule) RuleCounters_default.

Definition with_counters (st : EngineState) (rule : RuleId) (f : RuleCounters -> RuleCounters) : EngineState :=
  bump_cross_epoch (set_es_counters st (<[rule := f (counters_of st rule)]> (es_counters st))).

Definition seed_run_entries (st : EngineState) (rule : RuleId) (entries : Z) : EngineState :=
  with_counters st rule (fun c => {| rc_open := rc_open c; rc_total := Z.max (rc_total c) entries |}).

Definition prime_creator_launches (st : EngineState) (seen : list (Z * Z)) : EngineState :=
  set_es_creator_launches st
    (foldl (fun m e => <[e.1 := Z.max (unwrap_or (m !! e.1) 0) e.2]> m) (es_creator_launches st) seen).

Definition prime_identity_launches (st : EngineState) (seen : list (Z * IdentityHash * Ts * Z)) : EngineState :=
  set_es_identity_launches st
    (foldl (fun t e => let '(build, identity, at_, mint) := e in il_record t build identity at_ mint)
      (es_identity_launches st) seen).

Definition claim_identity_priming (st : EngineState) (build : Z) : bool * EngineState :=
  if bool_decide (build ∈ es_identity_builds st) then
    (negb (bool_decide (build ∈ es_identity_primed st)),
     set_es_identity_primed st ({[ build ]} ∪ es_identity_primed st))
  else (false, st).

Definition take_name_reuse_count (st : EngineState) (build : Z) (identity : IdentityHash) (at_ : Ts) (mint : Z)
    : option Z * EngineState :=
  if negb (bool_decide (build ∈ es_identity_builds st)) then (None, st)
  else (Some (il_prior (es_identity_launches st) build identity at_ mint),
        set_es_identity_launches st (il_record (es_identity_launches st) build identity at_ mint)).

Definition take_prior_launches (st : EngineState) (creator : Z) : Z * EngineState :=
  let prior := unwrap_or (es_creator_launches st !! creator) 0 in
  (prior, set_es_creator_launches st (<[creator := sat_add u32_max prior 1]> (es_creator_launches st))).

Definition remove_position (st : EngineState) (position : PositionId) : EngineState :=
  set_es_manual_rules (set_es_positions st (delete position (es_positions st)))
    (delete position (es_manual_rules st)).

Definition set_manual_exit (st : EngineState) (position : PositionId) (rule : RuleId)
    (exit : option ManualExit) : EngineState :=
  match exit with
  | Some e =>
      if manual_exit_is_some e
      then set_es_manual_rules st (<[position := compile_manual_exit_rule rule e]> (es_manual_rules st))
      else set_es_manual_rules st (delete position (es_manual_rules st))
  | None => set_es_manual_rules st (delete position (es_manual_rules st))
  end.

Definition set_dupe_guard_policy (st : EngineState) (on : bool) (window_hours : Z) : EngineState :=
  set_es_dupe_guard st (DupeGuard.set_policy (es_dupe_guard st) on window_hours).

Definition record_identity (st : EngineState) (mode : TradeMode) (identity : option IdentityHash)
    (mint : Mint) (at_ : Ts) : EngineState :=
  bump_cross_epoch (set_es_dupe_guard st (DupeGuard.record (es_dupe_guard st) mode identity mint at_)).

Definition record_entry_identity (st : EngineState) (mode : TradeMode) (mint : Mint) (at_ : Ts) : EngineState :=
  record_identity st mode (es_tokens st !! mint ≫= tk_identity) mint at_.

Definition seed_traded_identity (st : EngineState) (mode : TradeMode) (identity : option IdentityHash)
    (mint : Mint) (at_ : Ts) : EngineState :=
  set_es_dupe_guard st (DupeGuard.record (es_dupe_guard st) mode identity mint at_).

Definition fp_has_first_slot (st : EngineState) (id : FingerprintId) : bool :=
  is_some_and (find_first (fun f => f_id f =? id) (es_fps st)) has_first_slot_criteria.

(** A rule starts a new run when it is switched on, or moved to the other mode. *)
Definition is_new_run (before : gmap RuleId CompiledRule) (id : RuleId) (c : CompiledRule) : bool :=
  cr_entry_enabled c &&
  is_none_or (before !! id) (fun b =>
    negb (cr_entry_enabled b) || negb (bool_decide (cr_trade_mode b = cr_trade_mode c))).

Definition restart_counters (before rules : gmap RuleId CompiledRule) (counters : gmap RuleId RuleCounters)
    : gmap RuleId RuleCounters :=
  map_imap (fun id k =>
    Some (if is_some_and (rules !! id) (is_new_run before id)
          then {| rc_open := rc_open k; rc_total := 0 |} else k)) counters.

Definition reload (st : EngineState) (rules : list LoadedRule) (fps : list (Fingerprint TagDoc)) (own : gset Z)
    : EngineState :=
  let rules' : gmap RuleId CompiledRule := foldl (fun m r => <[lr_id r := compile r]> m) ∅ rules in
  let named : gset FingerprintId := list_to_set (cr_fingerprint_id <$> values rules') in
  let fps' := List.filter (fun f => bool_decide (f_id f ∈ named)) fps in
  let fp_tags : gmap FingerprintId (list (CompiledTag TagPatterns)) :=
    foldl (fun m f => match compile_tags (f_tags f) own with [] => m | t => <[f_id f := t]> m end) ∅ fps' in
  let builds : gset Z := list_to_set (omap ix_hash_opt (fps' ≫= name_reuse_builds)) in
  let requirements := requirements_build (values rules') fp_tags in
  let st := bump_cross_epoch {|
    es_rules := rules'; es_manual_rules := es_manual_rules st; es_fps := fps'; es_fp_tags := fp_tags;
    es_requirements := requirements;
    es_tick_horizons := foldl widen ClockHorizons_default (cr_clock_horizons <$> values rules');
    es_any_priority := existsb (fun r => negb (cr_priority r =? 0)) (values rules');
    es_cross_epoch := es_cross_epoch st; es_all_settled_at := es_all_settled_at st;
    es_dense_ticks := es_dense_ticks st;
    es_counters := restart_counters (es_rules st) rules' (es_counters st);
    es_tokens := es_tokens st; es_positions := es_positions st;
    es_launch_build_stats := es_launch_build_stats st; es_public_recipes := es_public_recipes st;
    es_creator_launches := es_creator_launches st; es_identity_launches := es_identity_launches st;
    es_identity_builds := builds; es_identity_primed := es_identity_primed st;
    es_dupe_guard := es_dupe_guard st; es_intent_seq := es_intent_seq st;
    es_position_seq := es_position_seq st; es_observing := es_observing st |} in
  set_es_tokens st
    ((fun t => set_tk_track t (requirements_ensure requirements (tk_track t))) <$> es_tokens st).

Definition stamp_build_breadth (st : EngineState) (t : TradeLite) : TradeLite :=
  if bf_holder_book (rq_buffers (es_requirements st)) then stamp_public t (es_public_recipes st) else t.

Definition new_track (st : EngineState) (at_ : Ts) : Track :=
  requirements_ensure (es_requirements st) (track_new at_).

Definition rule_for (st : EngineState) (rule : RuleId) (position : option PositionId) : option CompiledRule :=
  or_else (es_rules st !! rule) (position ≫= fun p => es_manual_rules st !! p).
End state.

