(* ===== verification/Reduce.v ===== *)
(** * Reduce: the one fold that is the strategy engine

    [reduce.rs].  Every handler of the source's [match event] is one definition from a
    state to a state and the effects it emits, in order; [reduce] dispatches them.  A
    sweep decides one arm at a time ([decide_arm], pure) and applies it
    ([apply_decision]).  During a trade or tick sweep the token map is lent out of the
    state, as the source does; elsewhere the one token is taken out of it and put back
    while it is active. *)

From S2P Require Export State.

Definition MAX_ENTRY_ATTEMPTS : Z := 3.
Definition MAX_EXIT_ATTEMPTS : Z := 5.
Definition LAMPORTS_PER_SOL_F64 : f64 := f_of_Z (10 ^ 9).

(** ** Effects *)

Definition armed (mint : Mint) (rule : RuleId) (state : ArmedStateTag) : Effect :=
  ArmedChanged {| ar_mint := mint; ar_rule := rule; ar_state := state; ar_detail := None |}.

Definition disarmed (mint : Mint) (rule : RuleId) (reason : DisarmReason) (detail : option EntryBlockers) : Effect :=
  ArmedChanged {| ar_mint := mint; ar_rule := rule; ar_state := TagDisarmed reason; ar_detail := detail |}.

Definition position_update (position : PositionId) (rule : RuleId) (mint : Mint) (status : PositionStatus)
    (fill : option Fill) (reason : option ExitReason) (intent : option IntentId) (stage : option Z)
    (stage_since : option Ts) : Effect :=
  PositionUpdate {| pd_position := position; pd_rule := rule; pd_mint := mint; pd_status := status;
    pd_fill := fill; pd_reason := reason; pd_intent := intent; pd_stage := stage;
    pd_stage_since := stage_since |}.

(** ** Small decisions *)

Inductive ArmDecision :=
  | DNone
  | DDisarm (reason : DisarmReason) (detail : option EntryBlockers)
  | DEnter (followed : option Z)
  | DSpendSlot
  | DExhaust
  | DExit (reason : ExitReason)
  | DNoteInflight (action : HeldAction)
  | DPartialExit (reason : ExitReason) (sell_bps : Z) (of_remaining : bool) (then_stage : option Z)
  | DMove (stage : Z).

Definition arm_holds_position (a : ArmState) : bool :=
  match a with Entered _ | EntryPending _ _ _ _ _ _ _ | ExitPending _ _ _ _ _ _ => true | _ => false end.

Definition reason_allows_reentry (r : ExitReason) : bool :=
  match r with TakeProfit | StopLoss | ExitLine _ => true | _ => false end.

Definition portion_sold_bps (portion : Portion) (already : Z) : Z :=
  match portion with
  | BpsOfInitial b => b
  | BpsOfRemaining b => wrap_u 16 (sat_sub 10000 already * b / 10000)
  | PAll => 0
  end.

(** The owed share and the latched stage after one in-flight print sell. *)
Definition note_inflight (owed : option OwedSell) (stage : Z) (action : HeldAction) : option OwedSell * Z :=
  match action with
  | ActSell reason bps of_bag then_stage =>
      match bps with
      | None => (Some {| ow_reason := reason; ow_bps := None |}, stage)
      | Some add =>
          match ow_bps <$> owed with
          | Some None => (owed, stage)
          | prev =>
              let prev := match prev with Some (Some b) => b | _ => 0 end in
              let next := if of_bag then prev + (10000 - prev) * add / 10000
                          else sat_add u32_max prev add in
              if next =? 0 then (owed, stage)
              else if 10000 <=? next then (Some {| ow_reason := reason; ow_bps := None |}, stage)
              else (Some {| ow_reason := reason; ow_bps := Some (wrap_u 16 next) |}, unwrap_or then_stage stage)
          end
      end
  | _ => (owed, stage)
  end.

Definition resolve_buy_lamports (c : CompiledRule) (reserve_sol : f64) : Z :=
  match cr_size_pct_of_pool c with
  | None => cr_buy_amount_lamports c
  | Some pct =>
      if negb (is_finite reserve_sol) || (reserve_sol <=. f_zero) then cr_buy_amount_lamports c
      else
        let sol := reserve_sol ⊗ pct ⊘ f_hundred in
        let lamports := fround (sol ⊗ LAMPORTS_PER_SOL_F64) in
        if lamports <. f_one then 1 else f_as_u64 lamports
  end.

Definition horizon_secs (s : f64) : Duration :=
  let ms := fceil (clamp_secs s ⊗ f_of_Z 1000) in
  dur_milliseconds (if is_finite ms then f_as_i64 (fmax ms f_zero) else 0).

Section reduce.
Context `{TrackOps}.
Implicit Types (st : EngineState) (token : TokenState) (mint : Mint) (now : Ts).

Definition set_arm token (rule : RuleId) (a : ArmState) : TokenState :=
  set_tk_arms token (<[rule := a]> (tk_arms token)).

(** [if token.is_active() { insert }] after the token was taken out. *)
Definition put_back st mint token : EngineState :=
  if tk_is_active token then set_es_tokens st (<[mint := token]> (es_tokens st)) else st.

Definition take_out st mint : EngineState := set_es_tokens st (delete mint (es_tokens st)).

Definition decrement_open st (rule : RuleId) : EngineState :=
  with_counters st rule (fun c => {| rc_open := sat_sub (rc_open c) 1; rc_total := rc_total c |}).

Definition rollback_entry st (rule : RuleId) : EngineState :=
  with_counters st rule (fun c => {| rc_open := sat_sub (rc_open c) 1; rc_total := sat_sub (rc_total c) 1 |}).

(** The arm after a close, and the episode counts. *)
Definition rearm_after_close st (episodes : gmap RuleId Z) (rule : RuleId) (reason : ExitReason) (closed_at : Ts)
    : ArmState * gmap RuleId Z :=
  match es_rules st !! rule ≫= cr_reentry with
  | None => (Done, episodes)
  | Some re =>
      if negb (reason_allows_reentry reason) then (Done, episodes)
      else
        let n := unwrap_or (episodes !! rule) 0 + 1 in
        let episodes := <[rule := n]> episodes in
        if re_max_per_coin re <=? n then (Done, episodes)
        else (Cooldown (closed_at + dur_milliseconds (f_as_i64 (re_cooldown_sec re ⊗ f_of_Z 1000))), episodes)
  end.

(** ** Folding a trade *)

Definition fold_trade token (trade : TradeLite) : TokenState :=
  let token := set_tk_track token (track_on_trade (tk_track token) trade) in
  let token :=
    if (t_sol trade >=. Deadness.DEAD_MEANINGFUL_TRADE_SOL) &&
       is_none_or (tk_last_meaningful_at token) (fun t => t <=? t_at trade)
    then set_tk_last_meaningful_at token (Some (t_at trade)) else token in
  let token :=
    if is_none_or (tk_last_trade_at token) (fun t => t <? t_at trade)
    then set_tk_last_trade_at token (Some (t_at trade)) else token in
  unsettle token.

Definition fold_arm_extremes (price : f64) (at_ : Ts) (a : ArmState) : ArmState :=
  match a with
  | Entered ctx =>
      if at_ <? ec_entered_at ctx then a
      else
        let p := fold_price (position_ctx ctx) price in
        Entered (set_ctx_extremes ctx (px_peak_price p) (px_trough_price p))
  | _ => a
  end.

Definition fold_entered_extremes token (at_ : Ts) : TokenState :=
  let price := current_price (tk_track token) in
  if negb (is_finite price) then token
  else set_tk_arms token (fold_arm_extremes price at_ <$> tk_arms token).

(** ** The settle horizon *)

Definition settle_arm st (h : ClockHorizons) (acc : option Ts) (e : RuleId * ArmState) : option Ts :=
  match acc with
  | None => None
  | Some until =>
      if negb (arm_is_active e.2) then Some until
      else if is_noneb (es_rules st !! e.1) then None
      else match e.2 with
      | Cooldown re => Some (Z.max until re)
      | Entered ctx =>
          Some (Z.max (Z.max until (ec_entered_at ctx + horizon_secs (ch_held_secs h)))
                      (ec_stage_since ctx + horizon_secs (ch_stage_secs h)))
      | _ => Some until
      end
  end.

Definition settle_until st token (h : ClockHorizons) : option Ts :=
  let anchor := unwrap_or (tk_last_trade_at token) (tk_created_at token) in
  let until := Z.max (Z.max (Z.max (Z.max anchor (anchor + horizon_secs (ch_max_window_secs h)))
      (tk_created_at token + horizon_secs (ch_time_secs h)))
      (anchor + horizon_secs (ch_stall_secs h)))
      (unwrap_or (tk_last_meaningful_at token) (tk_created_at token) + dur_seconds Deadness.DEAD_QUIET_SECS) in
  foldl (settle_arm st h) (Some until) (entries (tk_arms token)).

(** ** Deciding one arm *)

(** Another arm holds the token. *)
Definition held_by_another token (rule : RuleId) : bool :=
  existsb (fun e => negb (e.1 =? rule) && is_someb (arm_position e.2)) (entries (tk_arms token)).

Definition decide_armed (c : CompiledRule) (rule_id : RuleId) token (dead dupe_blocked : bool) now (on_print : bool)
    : ArmDecision :=
  let track := tk_track token in
  if negb (cr_entry_enabled c) then DNone
  else if dead then DDisarm DisDead None
  else match entry_unsatisfiable c track now with
  | Some killed_by => DDisarm DisUnsatisfiable (Some (entry_blockers c track now killed_by))
  | None =>
      if dupe_blocked then DDisarm DisDuplicateIdentity None
      else if cr_exclusive c && held_by_another token rule_id then DNone
      else match try_enter c track now (tk_entry_locks token !! rule_id) on_print with
      | VEnter =>
          if cr_follow_bought c then
            match track_print_wallet track with
            | None => DNone
            | Some w => DEnter (Some w)
            end
          else DEnter None
      | VSpendSlot => DSpendSlot
      | VExhaust => DExhaust
      | VNo => DNone
      end
  end.

Definition decide_entered (c : CompiledRule) (h : EnteredCtx) token (dead : bool) now : ArmDecision :=
  if dead then DExit ExitDead
  else match held_step c (tk_track token) h now with
  | ActNone => DNone
  | ActMove stage => DMove stage
  | ActSell reason None _ _ => DExit reason
  | ActSell reason (Some b) of_bag then_stage =>
      if negb of_bag && (10000 <=? ec_sold_bps h + b) then DExit reason
      else DPartialExit reason b of_bag then_stage
  end.

Definition decide_arm (c : CompiledRule) (rule_id : RuleId) (arm : ArmState) token (dead dupe_blocked : bool) now
    (on_print : bool) : ArmDecision :=
  match arm with
  | Armed => decide_armed c rule_id token dead dupe_blocked now on_print
  | Entered h => decide_entered c h token dead now
  | EntryPending _ _ _ _ followed stage owed =>
      if negb on_print || negb (cr_print_exit c) || is_some_and owed (fun o => is_noneb (ow_bps o)) then DNone
      else match inflight_sell c (tk_track token) stage followed now with
      | Some action => DNoteInflight action
      | None => DNone
      end
  | _ => DNone
  end.

(** ** Applying a decision *)

Definition lock_slot token (rule : RuleId) : TokenState :=
  let slot := track_cur_slot (tk_track token) in
  if negb (slot =? 0) then set_tk_entry_locks token (<[rule := slot]> (tk_entry_locks token)) else token.

Definition apply_enter st token mint (rule : RuleId) (followed : option Z) (buy_lamports cap max_total : Z)
    (trade_mode : TradeMode) now : EngineState * TokenState * Effects :=
  let token := lock_slot token rule in
  let counters := counters_of st rule in
  let st := set_es_counters st (<[rule := counters]> (es_counters st)) in
  if negb (Cap.allows cap (rc_open counters)) || negb (Cap.allows max_total (rc_total counters))
  then (st, token, [])
  else
    let st := with_counters st rule (fun c => {| rc_open := rc_open c + 1; rc_total := rc_total c + 1 |}) in
    let '(position, st) := next_position st in
    let '(intent, st) := next_intent st rule mint in
    let st := set_es_positions st (<[position := {| pr_mint := mint; pr_rule := rule |}]> (es_positions st)) in
    let st := record_identity st trade_mode (tk_identity token) mint now in
    (st, set_arm token rule (EntryPending intent position 1 buy_lamports followed 0 None),
     [SubmitBuy intent rule mint buy_lamports;
      position_update position rule mint StBuySubmitted None None (Some intent) None None]).

(** A sell of a held position put in flight. *)
Definition apply_sell st token mint (rule : RuleId) (h : EnteredCtx) (reason : ExitReason) (portion : Portion)
    (then_stage reported_stage : option Z) : EngineState * TokenState * Effects :=
  let position := ec_position h in
  let '(intent, st) := next_intent st rule mint in
  (st, set_arm token rule (ExitPending intent reason 1 portion h then_stage),
   [SubmitSell intent position reason portion;
    position_update position rule mint StExitPending None (Some reason) (Some intent) reported_stage None]).

Definition is_acting (d : ArmDecision) : bool :=
  match d with DEnter _ | DExit _ | DPartialExit _ _ _ _ | DMove _ => true | _ => false end.

Definition apply_decision st token mint (rule : RuleId) (d : ArmDecision) (buy_lamports cap max_total : Z)
    (trade_mode : TradeMode) now : EngineState * TokenState * Effects :=
  if es_observing st && is_acting d then (st, token, [])
  else match d with
  | DNone => (st, token, [])
  | DSpendSlot => (st, lock_slot token rule, [])
  | DExhaust => (st, set_arm (lock_slot token rule) rule Done, [])
  | DDisarm reason detail => (st, set_arm token rule (Disarmed reason), [disarmed mint rule reason detail])
  | DEnter followed => apply_enter st token mint rule followed buy_lamports cap max_total trade_mode now
  | DNoteInflight action =>
      match tk_arms token !! rule with
      | Some (EntryPending intent position attempts lamports followed stage owed) =>
          let '(owed, stage) := note_inflight owed stage action in
          (st, set_arm token rule (EntryPending intent position attempts lamports followed stage owed), [])
      | _ => (st, token, [])
      end
  | DExit reason =>
      match tk_arms token !! rule with
      | Some (Entered h) => apply_sell st token mint rule h reason PAll None None
      | _ => (st, token, [])
      end
  | DMove stage =>
      match tk_arms token !! rule with
      | Some (Entered h) =>
          (st, set_arm token rule (Entered (move_to h stage now)),
           [StageMoved {| sm_position := ec_position h; sm_rule := rule; sm_mint := mint;
                          sm_stage := stage; sm_since := now |}])
      | _ => (st, token, [])
      end
  | DPartialExit reason sell_bps of_remaining then_stage =>
      match tk_arms token !! rule with
      | Some (Entered h) =>
          let portion := if of_remaining then BpsOfRemaining sell_bps else BpsOfInitial sell_bps in
          apply_sell st token mint rule h reason portion then_stage (Some (ec_stage h))
      | _ => (st, token, [])
      end
  end.

(** ** The sweep over one token *)

Definition token_dead token now : bool :=
  let r := current_reserves (tk_track token) in
  Deadness.is_dead_verdict (if is_finite r then Some r else None)
    (unwrap_or (tk_last_meaningful_at token) (tk_created_at token)) now.

Definition cooldown_over st now (e : RuleId * ArmState) : bool :=
  match e.2 with
  | Cooldown until => (until <=? now) && is_some_and (es_rules st !! e.1) cr_entry_enabled
  | _ => false
  end.

Definition promote_cooldowns st token mint now : TokenState * Effects :=
  let due := List.filter (cooldown_over st now) (entries (tk_arms token)) in
  (foldl (fun t e => set_arm t e.1 Armed) token due, (fun e => armed mint e.1 TagArmed) <$> due).

Definition rule_priority st (id : RuleId) : Z := map_or (es_rules st !! id) 0 cr_priority.

Definition visit_before st (a b : RuleId) : bool :=
  (rule_priority st b <? rule_priority st a) || ((rule_priority st a =? rule_priority st b) && (a <=? b)).

Definition visit_order st token : list RuleId :=
  let ids := keys (tk_arms token) in
  if es_any_priority st then sort_by (visit_before st) ids else ids.

(** Decide and apply one arm. *)
Definition sweep_arm mint (dead : bool) now (on_print : bool) (acc : EngineState * TokenState * Effects)
    (rule_id : RuleId) : EngineState * TokenState * Effects :=
  let '(st, token, fx) := acc in
  match tk_arms token !! rule_id with
  | None => acc
  | Some arm =>
      match rule_for st rule_id (arm_position arm) with
      | None => acc
      | Some c =>
          let dupe_blocked :=
            match arm with
            | Armed => DupeGuard.blocks (es_dupe_guard st) (cr_trade_mode c) (tk_identity token) mint now
            | _ => false
            end in
          let d := decide_arm c rule_id arm token dead dupe_blocked now on_print in
          let '(st, token, fx') := apply_decision st token mint rule_id d
            (resolve_buy_lamports c (current_priced_reserves (tk_track token)))
            (cr_concurrent_cap c) (cr_max_total c) (cr_trade_mode c) now in
          (st, token, fx ++ fx')
      end
  end.

Definition stamp_settled st token now : TokenState :=
  set_tk_settled token
    match settle_until st token (es_tick_horizons st) with
    | Some until =>
        if (until <=? now) && negb (es_observing st)
        then Some {| se_until := until; se_epoch := es_cross_epoch st |} else None
    | None => None
    end.

Definition evaluate_token st token mint now (on_print : bool) : EngineState * TokenState * Effects :=
  let dead := token_dead token now in
  let token := fold_entered_extremes token now in
  let '(token, fx) := promote_cooldowns st token mint now in
  let '(st, token, fx) := foldl (sweep_arm mint dead now on_print) (st, token, fx) (visit_order st token) in
  (st, stamp_settled st token now, fx).

(** ** The handlers *)

Definition stale_arm (incoming : gmap RuleId bool) (e : RuleId * ArmState) : bool :=
  if arm_holds_position e.2 then false
  else match incoming !! e.1 with None => true | Some entry_enabled => negb entry_enabled end.

Definition pause_token (incoming : gmap RuleId bool) mint token : TokenState * Effects :=
  let stale := List.filter (stale_arm incoming) (entries (tk_arms token)) in
  (foldl (fun t e => set_arm t e.1 (Disarmed DisPaused)) (unsettle token) stale,
   (fun e => armed mint e.1 (TagDisarmed DisPaused)) <$> stale).

Definition on_rules_reloaded st (rules : list LoadedRule) (fps : list (Fingerprint TagDoc)) (own : gset Z)
    : EngineState * Effects :=
  let incoming : gmap RuleId bool := foldl (fun m r => <[lr_id r := lr_entry_enabled r]> m) ∅ rules in
  let paused := (fun e => (e.1, pause_token incoming e.1 e.2)) <$> entries (es_tokens st) in
  let tokens : gmap Mint TokenState := list_to_map ((fun e => (e.1, e.2.1)) <$> paused) in
  (reload (set_es_tokens st tokens) rules fps own, paused ≫= fun e => e.2.2).

Definition fresh_token (created_at : Ts) (tf : TokenFingerprint) (identity : option IdentityHash) (track : Track)
    (first_slot_settled : bool) : TokenState := {|
  tk_created_at := created_at; tk_tf := tf; tk_identity := identity; tk_track := track;
  tk_last_meaningful_at := None; tk_last_trade_at := None; tk_settled := None;
  tk_first_slot_settled := first_slot_settled; tk_arms := ∅; tk_episodes := ∅; tk_entry_locks := ∅;
  tk_facts_pending := false |}.

(** The door axes of a build, when the day's stats list it. *)
Definition door_stat st (labels : list string) : option LaunchBuildStat :=
  ix_hash_opt labels ≫= fun h => es_launch_build_stats st !! h.

(** The engine tallies stamped onto the observed axes at birth, in the source's order. *)
Definition stamp_creation st (fp : TokenFingerprint) mint (at_ : Ts) (creator : option Z)
    (identity : option IdentityHash) : TokenFingerprint * EngineState :=
  let '(prior, st) := match creator with
    | Some h => let '(n, st) := take_prior_launches st h in (Some n, st)
    | None => (prior_launches fp, st)
    end in
  let '(reuse, st) := match ix_hash_opt (ix_labels fp), identity with
    | Some build, Some id => take_name_reuse_count st build id at_ (wallet_hash mint)
    | _, _ => (name_reuse_count fp, st)
    end in
  let '(launches, bps) := match door_stat st (ix_labels fp) with
    | Some stat => (Some (lb_launches stat), Some (runner_bps stat))
    | None => (build_prev_day_launches fp, build_prev_day_runner_bps fp)
    end in
  (stamp_tallies fp prior launches bps reuse, st).

(** Arm every entry-enabled rule whose fingerprint hits; a first-slot one stays pending. *)
Definition arms_at_birth st (hits : list FingerprintId) : gmap RuleId ArmState :=
  foldl (fun arms e =>
    if negb (cr_entry_enabled e.2) then arms
    else if contains hits (cr_fingerprint_id e.2) then
      <[e.1 := if fp_has_first_slot st (cr_fingerprint_id e.2) then PendingFirstSlot else Armed]> arms
    else arms) ∅ (entries (es_rules st)).

Definition is_armed (a : ArmState) : bool := match a with Armed => true | _ => false end.
Definition is_pending (a : ArmState) : bool := match a with PendingFirstSlot => true | _ => false end.

Definition on_token_created st mint (fp : TokenFingerprint) (at_ : Ts) (creator : option Z)
    (identity : option IdentityHash) : EngineState * Effects :=
  match es_tokens st !! mint with
  | Some _ => (st, [])
  | None =>
      let track := new_track st at_ in
      let track := match creator with Some h => seed_creator track h | None => track end in
      let '(tf, st) := stamp_creation st fp mint at_ creator identity in
      let hits := match_all (es_fps st) tf MpInstant in
      let token := set_tk_arms (fresh_token at_ tf identity track false) (arms_at_birth st hits) in
      let fx := (fun e => armed mint e.1 TagArmed) <$> List.filter (fun e => is_armed e.2) (entries (tk_arms token)) in
      let '(st, token, fx') := evaluate_token st token mint at_ false in
      (put_back st mint token, fx ++ fx')
  end.

Definition on_launch_build_stats_reloaded st (stats : list LaunchBuildStat) : EngineState :=
  set_es_launch_build_stats st (foldl (fun m s => <[lb_ix_hash s := s]> m) ∅ stats).

Definition on_build_breadth_reloaded st (breadth : list BuildBreadth) : EngineState :=
  set_es_public_recipes st (Some (public_recipes breadth)).

Definition settle_pending st mint (hits : list FingerprintId) (acc : TokenState * Effects) (rule_id : RuleId)
    : TokenState * Effects :=
  let '(token, fx) := acc in
  match es_rules st !! rule_id with
  | None => acc
  | Some c =>
      if negb (cr_entry_enabled c) then acc
      else if contains hits (cr_fingerprint_id c)
      then (set_arm token rule_id Armed, fx ++ [armed mint rule_id TagArmed])
      else (set_tk_arms token (delete rule_id (tk_arms token)), fx)
  end.

Definition on_first_slot_settled st mint (buy sell : Z) (at_ : Ts) (stand_in : option Z) : EngineState * Effects :=
  match es_tokens st !! mint with
  | None => (st, [])
  | Some token =>
      let st := take_out st mint in
      if tk_first_slot_settled token then (put_back st mint token, [])
      else
        let token := set_tk_first_slot_settled token true in
        let token := match stand_in with
          | Some h => set_tk_track token (seed_creator (tk_track token) h) | None => token end in
        let token := set_tk_tf token (set_first_slot (tk_tf token) (Some buy) (Some sell)) in
        let hits := match_all (es_fps st) (tk_tf token) MpFull in
        let pending := fst <$> List.filter (fun e => is_pending e.2) (entries (tk_arms token)) in
        let '(token, fx) := foldl (settle_pending st mint hits) (token, []) pending in
        let '(st, token, fx') := evaluate_token st token mint at_ false in
        (put_back st mint token, fx ++ fx')
  end.

Definition on_trade_event st mint (trade : TradeLite) : EngineState * Effects :=
  let trade := stamp_build_breadth st trade in
  let tokens := es_tokens st in
  let st := set_es_tokens st ∅ in
  match tokens !! mint with
  | None => (set_es_tokens st tokens, [])
  | Some token =>
      let token := fold_trade token trade in
      let '(st, token, fx) := evaluate_token st token mint (t_at trade) true in
      let tokens := if tk_is_active token then <[mint := token]> tokens else delete mint tokens in
      (set_es_tokens st tokens, fx)
  end.

(** One step of the tick's in-place [retain]: the state, the kept tokens, whether every
    swept token settled, and the effects. *)
Definition tick_token (dense : bool) (epoch : Z) now
    (acc : EngineState * gmap Mint TokenState * bool * Effects) (e : Mint * TokenState)
    : EngineState * gmap Mint TokenState * bool * Effects :=
  let '(st, kept, all_settled, fx) := acc in
  let '(mint, token) := e in
  if negb dense && tick_is_noop token epoch then (st, <[mint := token]> kept, all_settled, fx)
  else
    let token := set_tk_track token (track_on_tick (tk_track token) now) in
    let '(st, token, fx') := evaluate_token st token mint now false in
    (st, if tk_is_active token then <[mint := token]> kept else kept,
     all_settled && is_someb (tk_settled token), fx ++ fx').

Definition on_tick st now : EngineState * Effects :=
  let st := set_es_dupe_guard st (DupeGuard.prune (es_dupe_guard st) now) in
  let dense := es_dense_ticks st in
  if negb dense && all_tokens_settled st then (st, [])
  else
    let epoch := es_cross_epoch st in
    let tokens := es_tokens st in
    let '(st, tokens, all_settled, fx) :=
      foldl (tick_token dense epoch now) (set_es_tokens st ∅, ∅, true, []) (entries tokens) in
    let memo := if all_settled && negb dense && (es_cross_epoch st =? epoch) then Some (size tokens) else None in
    (set_es_tokens (set_es_all_settled_at st memo) tokens, fx).

(** *** Fills *)

(** The bag a confirmed buy opens, and the sell latched while it was in flight. *)
Definition fill_entry st token mint (rule : RuleId) (intent : IntentId) (position : PositionId)
    (followed : option Z) (owed_stage : Z) (owed : option OwedSell) (fill : Fill)
    : EngineState * TokenState * Effects :=
  let entered := set_followed (entered_at_fill position (fl_price fill) (fl_at fill)
                   (current_priced_reserves (tk_track token))) followed in
  let holding := position_update position rule mint StHolding (Some fill) None (Some intent) (Some 0) None in
  match owed with
  | None => (st, set_arm token rule (Entered entered), [holding])
  | Some o =>
      let '(portion, then_stage, reported_stage) :=
        match ow_bps o with
        | None => (PAll, None, None)
        | Some bps => (BpsOfRemaining bps, if negb (owed_stage =? 0) then Some owed_stage else None,
                       Some (ec_stage entered))
        end in
      let '(sell, st) := next_intent st rule mint in
      (st, set_arm token rule (ExitPending sell (ow_reason o) 1 portion entered then_stage),
       [holding;
        position_update position rule mint StExitPending None (Some (ow_reason o)) (Some sell) reported_stage None;
        SubmitSell sell position (ow_reason o) portion])
  end.

(** A confirmed sell: a part of the bag, or all of it. *)
Definition fill_exit st token mint (rule : RuleId) (intent : IntentId) (reason : ExitReason) (portion : Portion)
    (h : EnteredCtx) (then_stage : option Z) (fill : Fill) : EngineState * TokenState * Effects :=
  if is_partial portion then
    let add := portion_sold_bps portion (ec_sold_bps h) in
    let next := match then_stage with Some t => move_to h t (fl_at fill) | None => h end in
    let next := set_sold_bps next (sat_add u16_max (ec_sold_bps next) add) in
    (st, set_arm token rule (Entered next),
     [position_update (ec_position next) rule mint StHolding (Some fill) (Some reason) (Some intent)
        (Some (ec_stage next)) ((fun _ => fl_at fill) <$> then_stage)])
  else
    let position := ec_position h in
    let st := remove_position (decrement_open st rule) position in
    let '(next, episodes) := rearm_after_close st (tk_episodes token) rule reason (fl_at fill) in
    (st, set_arm (set_tk_episodes token episodes) rule next,
     [position_update position rule mint StEnd (Some fill) (Some reason) (Some intent) None None]).

Definition on_fill_confirmed st (intent : IntentId) (fill : Fill) : EngineState * Effects :=
  let mint := i_mint intent in
  let rule := i_rule intent in
  match es_tokens st !! mint with
  | None => (st, [])
  | Some token =>
      let st := take_out st mint in
      let token := unsettle token in
      let '(st, token, fx) :=
        match tk_arms token !! rule with
        | Some (EntryPending pend position _ _ followed owed_stage owed) =>
            if bool_decide (pend = intent)
            then fill_entry st token mint rule intent position followed owed_stage owed fill
            else (st, token, [])
        | Some (ExitPending pend reason _ portion h then_stage) =>
            if bool_decide (pend = intent)
            then fill_exit st token mint rule intent reason portion h then_stage fill
            else (st, token, [])
        | _ => (st, token, [])
        end in
      (put_back st mint token, fx)
  end.

(** A failed buy: retry it, re-arm, or give the coin up. *)
Definition fail_entry st token mint (rule : RuleId) (intent : IntentId) (position : PositionId)
    (attempts lamports : Z) (followed : option Z) (stage : Z) (owed : option OwedSell)
    (reason : FillFailReason) (at_ : option Ts) : EngineState * TokenState * Effects :=
  let retry_lamports := if 0 <? lamports then lamports
                        else map_or (es_rules st !! rule) 0 cr_buy_amount_lamports in
  let requalifies := match at_ with
    | Some now => is_none_or (es_rules st !! rule) (fun c => cr_entry_enabled c && can_enter c (tk_track token) now)
    | None => true
    end in
  let attempts_left := negb (bool_decide (reason = Fatal)) && (attempts <? MAX_ENTRY_ATTEMPTS) && (0 <? retry_lamports) in
  let dumped := is_some_and owed (fun o => is_noneb (ow_bps o)) in
  if attempts_left && requalifies && negb dumped then
    let '(next, st) := next_intent st rule mint in
    (st, set_arm token rule (EntryPending next position (attempts + 1) retry_lamports followed stage owed),
     [SubmitBuy next rule mint retry_lamports])
  else
    let st := remove_position (rollback_entry st rule) position in
    let failed := position_update position rule mint StEntryFailed None None (Some intent) None None in
    if attempts_left && is_someb (es_rules st !! rule)
    then (st, set_arm token rule Armed, [armed mint rule TagArmed; failed])
    else (st, set_arm token rule Done, [failed]).

(** A failed sell: alarm it, give it up with the bag held, or retry it. *)
Definition fail_exit st token mint (rule : RuleId) (intent : IntentId) (exit_reason : ExitReason) (attempts : Z)
    (portion : Portion) (h : EnteredCtx) (then_stage : option Z) (reason : FillFailReason)
    : EngineState * TokenState * Effects :=
  let position := ec_position h in
  let abandon status :=
    (remove_position (decrement_open st rule) position, set_arm token rule Done,
     [position_update position rule mint status None (Some exit_reason) (Some intent) None None]) in
  if bool_decide (reason = Unconfirmed) then abandon StExitUnconfirmed
  else if bool_decide (reason = Fatal) || (MAX_EXIT_ATTEMPTS <=? attempts) then abandon StExitStuck
  else
    let '(next, st) := next_intent st rule mint in
    (st, set_arm token rule (ExitPending next exit_reason (attempts + 1) portion h then_stage),
     [SubmitSell next position exit_reason portion]).

Definition on_fill_failed st (intent : IntentId) (reason : FillFailReason) (at_ : option Ts) : EngineState * Effects :=
  let mint := i_mint intent in
  let rule := i_rule intent in
  match es_tokens st !! mint with
  | None => (st, [])
  | Some token =>
      let st := take_out st mint in
      let token := unsettle token in
      let '(st, token, fx) :=
        match tk_arms token !! rule with
        | Some (EntryPending pend position attempts lamports followed stage owed) =>
            if bool_decide (pend = intent)
            then fail_entry st token mint rule intent position attempts lamports followed stage owed reason at_
            else (st, token, [])
        | Some (ExitPending pend exit_reason attempts portion h then_stage) =>
            if bool_decide (pend = intent)
            then fail_exit st token mint rule intent exit_reason attempts portion h then_stage reason
            else (st, token, [])
        | _ => (st, token, [])
        end in
      (put_back st mint token, fx)
  end.

(** *** The operator's events *)

Definition on_manual_buy st mint (rule : RuleId) (lamports : Z) (at_ : Ts) (exit : option ManualExit)
    : EngineState * Effects :=
  if lamports =? 0 then (st, [])
  else
    let st := match es_tokens st !! mint with
      | Some _ => st
      | None => set_es_tokens st (<[mint := fresh_token at_ TokenFingerprint_default None (new_track st at_) true]>
                                   (es_tokens st))
      end in
    match es_tokens st !! mint with
    | None => (st, [])
    | Some token =>
        if is_someb (tk_arms token !! rule) then (st, [])
        else
          let '(position, st) := next_position st in
          let '(intent, st) := next_intent st rule mint in
          let st := set_es_positions st (<[position := {| pr_mint := mint; pr_rule := rule |}]> (es_positions st)) in
          let st := set_manual_exit st position rule exit in
          let token := set_arm (unsettle token) rule (EntryPending intent position 1 lamports None 0 None) in
          let st := set_es_tokens st (<[mint := token]> (es_tokens st)) in
          let st := record_entry_identity st Real mint at_ in
          (st, [SubmitBuy intent rule mint lamports;
                position_update position rule mint StBuySubmitted None None (Some intent) None None])
    end.

Definition on_set_manual_exit st (position : PositionId) (exit : option ManualExit) : EngineState :=
  match es_positions st !! position with
  | None => st
  | Some pref => set_manual_exit st position (pr_rule pref) exit
  end.

Definition on_manual_close st (position : PositionId) (portion : Portion) : EngineState * Effects :=
  match es_positions st !! position with
  | None => (st, [])
  | Some pref =>
      let mint := pr_mint pref in
      let rule := pr_rule pref in
      match es_tokens st !! mint with
      | None => (st, [])
      | Some token =>
          let st := take_out st mint in
          let token := unsettle token in
          let '(st, token, fx) :=
            match tk_arms token !! rule with
            | Some (EntryPending _ pos _ _ _ _ _) =>
                if pos =? position then
                  (remove_position (rollback_entry st rule) position, set_arm token rule Done,
                   [position_update position rule mint StEntryFailed None (Some ExitManual) None None None])
                else (st, token, [])
            | Some (Entered h) =>
                if ec_position h =? position
                then apply_sell st token mint rule h ExitManual portion None None
                else (st, token, [])
            | _ => (st, token, [])
            end in
          (put_back st mint token, fx)
      end
  end.

Definition on_externally_cleared st (position : PositionId) (fill : Fill) : EngineState * Effects :=
  match es_positions st !! position with
  | None => (st, [])
  | Some pref =>
      let mint := pr_mint pref in
      let rule := pr_rule pref in
      match es_tokens st !! mint with
      | None => (st, [])
      | Some token =>
          let st := take_out st mint in
          let token := unsettle token in
          let '(st, token, fx) :=
            match tk_arms token !! rule with
            | Some (Entered h) =>
                if ec_position h =? position then
                  (remove_position (decrement_open st rule) position, set_arm token rule Done,
                   [position_update position rule mint StEnd (Some fill) (Some ExitManual) None None None])
                else (st, token, [])
            | _ => (st, token, [])
            end in
          (put_back st mint token, fx)
      end
  end.

Definition migration_disarms (a : ArmState) : bool :=
  match a with Armed | PendingFirstSlot | Cooldown _ => true | _ => false end.

Definition on_migrated st mint : EngineState * Effects :=
  match es_tokens st !! mint with
  | None => (st, [])
  | Some token =>
      let st := take_out st mint in
      let token := unsettle token in
      let hit := List.filter (fun e => migration_disarms e.2) (entries (tk_arms token)) in
      let token := foldl (fun t e => set_arm t e.1 (Disarmed DisMigrated)) token hit in
      (put_back st mint token, (fun e => armed mint e.1 (TagDisarmed DisMigrated)) <$> hit)
  end.

(** ** The fold *)

Definition is_tick (e : Event TagDoc) : bool := match e with Tick _ => true | _ => false end.

Definition reduce st (e : Event TagDoc) : EngineState * Effects :=
  let st := if is_tick e then st else set_es_all_settled_at st None in
  match e with
  | RulesReloaded rules fps own => on_rules_reloaded st rules fps own
  | TokenCreated mint fp at_ creator identity _ => on_token_created st mint fp at_ creator identity
  | LaunchBuildStatsReloaded stats => (on_launch_build_stats_reloaded st stats, [])
  | BuildBreadthReloaded breadth => (on_build_breadth_reloaded st breadth, [])
  | FirstSlotSettled mint buy sell at_ stand_in => on_first_slot_settled st mint buy sell at_ stand_in
  | Trade mint trade => on_trade_event st mint trade
  | Tick now => on_tick st now
  | FillConfirmed intent fill => on_fill_confirmed st intent fill
  | FillFailed intent reason at_ => on_fill_failed st intent reason at_
  | ManualBuy mint rule lamports at_ exit => on_manual_buy st mint rule lamports at_ exit
  | SetManualExit position exit => (on_set_manual_exit st position exit, [])
  | ManualClose position portion => on_manual_close st position portion
  | ExternallyCleared position fill => on_externally_cleared st position fill
  | Migrated mint _ => on_migrated st mint
  end.

(** A whole event stream, effects in order. *)
Fixpoint reduce_all st (es : list (Event TagDoc)) : EngineState * Effects :=
  match es with
  | [] => (st, [])
  | e :: es =>
      let '(st, fx) := reduce st e in
      let '(st, fx') := reduce_all st es in
      (st, fx ++ fx')
  end.

Definition observe st (e : Event TagDoc) : EngineState :=
  set_es_observing (reduce (set_es_observing st true) e).1 false.

(** ** The boot paths *)

Definition prime_trade st mint (trade : TradeLite) : EngineState :=
  let trade := stamp_build_breadth st trade in
  match es_tokens st !! mint with
  | None => st
  | Some token =>
      let token := fold_entered_extremes (fold_trade token trade) (t_at trade) in
      set_es_all_settled_at (set_es_tokens st (<[mint := token]> (es_tokens st))) None
  end.

Record FirstSlotFacts := { ff_buy_lamports : Z; ff_sell_lamports : Z; ff_creator_stand_in : option Z }.

Record HydrateFacts := {
  hf_fp : TokenFingerprint;
  hf_created_at : Ts;
  hf_creator_wallet_hash : option Z;
  hf_identity : option IdentityHash;
  hf_creation_slot : option Z;
  hf_first_slot : option FirstSlotFacts;
}.

Definition facts_tf st (facts : HydrateFacts) now : TokenFingerprint :=
  let fp := hf_fp facts in
  let '(launches, bps) :=
    if utc_day (hf_created_at facts) =? utc_day now then
      match door_stat st (ix_labels fp) with
      | Some stat => (Some (lb_launches stat), Some (runner_bps stat))
      | None => (None, None)
      end
    else (None, None) in
  let tf := stamp_tallies fp None launches bps (name_reuse_count fp) in
  match hf_first_slot facts with
  | Some fs => set_first_slot tf (Some (ff_buy_lamports fs)) (Some (ff_sell_lamports fs))
  | None => tf
  end.

(** One trade of the history: the stand-in creator is seeded before the first print
    past the creation slot. *)
Definition rebuild_step st (creation_slot table_day : Z) (acc : TokenState * option Z) (trade : TradeLite)
    : TokenState * option Z :=
  let '(token, stand_in) := acc in
  let '(token, stand_in) :=
    if creation_slot <? t_slot trade then
      match stand_in with
      | Some h => (set_tk_track token (seed_creator (tk_track token) h), None)
      | None => (token, None)
      end
    else (token, stand_in) in
  let trade := if utc_day (t_at trade) =? table_day then stamp_build_breadth st trade else trade in
  (fold_entered_extremes (fold_trade token trade) (t_at trade), stand_in).

Definition rebuild_track st token (facts : HydrateFacts) (history : list TradeLite) now : TokenState :=
  let track := new_track st (tk_created_at token) in
  let track := match hf_creator_wallet_hash facts with Some h => seed_creator track h | None => track end in
  let token := set_tk_last_trade_at (set_tk_last_meaningful_at (set_tk_track token track) None) None in
  let stand_in := hf_first_slot facts ≫= ff_creator_stand_in in
  let '(token, stand_in) :=
    foldl (rebuild_step st (unwrap_or (hf_creation_slot facts) 0) (utc_day now)) (token, stand_in) history in
  match stand_in with
  | Some h => set_tk_track token (seed_creator (tk_track token) h)
  | None => token
  end.

Definition rearmable (a : option ArmState) : bool :=
  match a with None | Some (Disarmed DisPaused) => true | _ => false end.

Definition hydrate_arm st mint (may_arm : RuleId -> bool) (instant : list FingerprintId)
    (full : option (list FingerprintId)) (acc : TokenState * Effects) (e : RuleId * CompiledRule)
    : TokenState * Effects :=
  let '(token, fx) := acc in
  let '(rule_id, c) := e in
  if negb (cr_entry_enabled c) || negb (may_arm rule_id) then acc
  else if negb (rearmable (tk_arms token !! rule_id)) then acc
  else
    let matched :=
      if fp_has_first_slot st (cr_fingerprint_id c)
      then is_some_and full (fun hits => contains hits (cr_fingerprint_id c))
      else contains instant (cr_fingerprint_id c) in
    if matched then (set_arm token rule_id Armed, fx ++ [armed mint rule_id TagArmed]) else acc.

Definition hydrate_token st mint (facts : HydrateFacts) (history : option (list TradeLite)) now
    (may_arm : RuleId -> bool) : EngineState * Effects :=
  let st := set_es_all_settled_at st None in
  let taken := es_tokens st !! mint in
  let st := take_out st mint in
  let start := match taken, history with
    | Some t, _ => Some t
    | None, None => None
    | None, Some _ => Some (fresh_token (hf_created_at facts) (facts_tf st facts now) (hf_identity facts)
                              (new_track st (hf_created_at facts)) (is_someb (hf_first_slot facts)))
    end in
  match start with
  | None => (st, [])
  | Some token =>
      let token := match history with Some h => rebuild_track st token facts h now | None => token end in
      let token := unsettle token in
      let instant := match_all (es_fps st) (tk_tf token) MpInstant in
      let full := if tk_first_slot_settled token then Some (match_all (es_fps st) (tk_tf token) MpFull) else None in
      let '(token, fx) := foldl (hydrate_arm st mint may_arm instant full) (token, []) (entries (es_rules st)) in
      (put_back st mint token, fx)
  end.

Definition adopt_facts token (facts : HydrateFacts) (tf : TokenFingerprint) : TokenState := {|
  tk_created_at := hf_created_at facts; tk_tf := tf; tk_identity := hf_identity facts; tk_track := tk_track token;
  tk_last_meaningful_at := tk_last_meaningful_at token; tk_last_trade_at := tk_last_trade_at token;
  tk_settled := tk_settled token; tk_first_slot_settled := tk_first_slot_settled token;
  tk_arms := tk_arms token; tk_episodes := tk_episodes token; tk_entry_locks := tk_entry_locks token;
  tk_facts_pending := false |}.

Definition restore_adopted st mint (facts : HydrateFacts) (history : list TradeLite) now : EngineState :=
  match es_tokens st !! mint with
  | None => st
  | Some token =>
      let st := take_out st mint in
      if tk_facts_pending token then
        let token := adopt_facts token facts (facts_tf st facts now) in
        let token := unsettle (rebuild_track st token facts history now) in
        let st := set_es_all_settled_at st None in
        set_es_tokens st (<[mint := token]> (es_tokens st))
      else set_es_tokens st (<[mint := token]> (es_tokens st))
  end.
End reduce.
