(* ===== verification/Scenario.v ===== *)
(** * Scenario: one rule, one coin, run end to end

    A small concrete engine, on the concrete coin track: a rule that buys on a print of
    at least one SOL, takes profit at 50 % and stops at 20 %.  The theorems that have
    hypotheses are applied to its states. *)

From S2P Require Export Reduce Track.

Definition demo_params : RuleParams := {|
  rp_enter := {| en_event := [one_cond {| mr_metric := BuySol; mr_tag := None; mr_span := one_print |} OpGte (f_of_Z 1)];
    en_filters := []; en_final_filters := []; en_lock := None; en_size_pct_of_pool := None;
    en_slippage_pct := None; en_cells := [] |};
  rp_take_profit := Some (f_of_Z 50); rp_stop_loss := Some (f_of_Z 20); rp_signals := []; rp_always := [];
  rp_stages := []; rp_tree := None; rp_reentry := Some {| re_cooldown_sec := f_of_Z 5; re_max_per_coin := 3 |};
  rp_exclusive := false; rp_priority := 0; rp_copy := None; rp_follow := FollowAll |}.

Definition demo_rule : LoadedRule := {|
  lr_id := 1; lr_fingerprint_id := 7; lr_trade_mode := Real; lr_buy_amount_lamports := 10 ^ 8;
  lr_max_concurrent_tokens := 1; lr_max_total_tokens := 0; lr_params := demo_params; lr_entry_enabled := true |}.

Definition demo_fp : Fingerprint Value :=
  {| f_id := 7; wildcard := true; criteria := []; alt_criteria := []; exclude_criteria := []; f_tags := VNull |}.

Definition demo_mint : Mint := "MintA"%string.

Definition sec (n : Z) : Ts := n * ns_per_sec.

(** A print of [sol] SOL at a price in billionths, [s] seconds in. *)
Definition demo_trade (side : Side) (sol price s : Z) : TradeLite := {|
  t_side := side; t_sol := f_of_Z sol; t_price := f_dec price 9; t_reserve_sol := f_of_Z 40;
  t_priced_reserve_sol := f_of_Z 40; t_at := sec s; t_ix_hash := None; t_wallet_hash := 11; t_slot := 100 + s;
  t_marker_bits := 0; t_leg_index := 0; t_tx_index := None; t_template_hash := None; t_program_hash := None;
  t_build_hash := None; t_core_hash := None; t_core_marks := 0; t_on_curve := true; t_is_launch := false;
  t_fee := FeeKeys_default; t_token_amount := f_of_Z 1000; t_build_day_public := None |}.

Definition demo_load : Event Value := RulesReloaded [demo_rule] [demo_fp] ∅.
Definition demo_create : Event Value := TokenCreated demo_mint TokenFingerprint_default (sec 0) None None None.
Definition demo_print : Event Value := Trade demo_mint (demo_trade Buy 2 100 10).
Definition demo_intent (n : Z) : IntentId := {| i_rule := 1; i_mint := demo_mint; i_seq := n |}.
Definition demo_fill (price s : Z) : Fill :=
  {| fl_price := f_dec price 9; fl_sol := f_dec 1 1; fl_token_amount := 1000000; fl_at := sec s |}.
Definition demo_filled : Event Value := FillConfirmed (demo_intent 1) (demo_fill 100 11).
Definition demo_rise : Event Value := Trade demo_mint (demo_trade Buy 2 160 20).
Definition demo_sold : Event Value := FillConfirmed (demo_intent 2) (demo_fill 160 21).

Definition demo_run (es : list (Event Value)) : EngineState * list Effect := reduce_all EngineState_new es.

Definition demo_armed : EngineState := (demo_run [demo_load; demo_create]).1.
Definition demo_buying : EngineState := (demo_run [demo_load; demo_create; demo_print]).1.
Definition demo_holding : EngineState := (demo_run [demo_load; demo_create; demo_print; demo_filled]).1.
Definition demo_selling : EngineState := (demo_run [demo_load; demo_create; demo_print; demo_filled; demo_rise]).1.
Definition demo_closed : EngineState := (demo_run [demo_load; demo_create; demo_print; demo_filled; demo_rise; demo_sold]).1.
Definition demo_arm (st : EngineState) : option ArmState := es_tokens st !! demo_mint ≫= fun t => tk_arms t !! 1.

(** The coin and the bag of a state of the run. *)
Definition demo_token (st : EngineState) : TokenState :=
  unwrap_or (es_tokens st !! demo_mint) (fresh_token 0 TokenFingerprint_default None (TokenTrack_new 0) false).

Definition demo_bag (st : EngineState) : EnteredCtx :=
  unwrap_or (demo_arm st ≫= arm_held) (entered_at_fill 0 f_zero 0 f_zero).

Lemma demo_token_spec st :
  is_someb (es_tokens st !! demo_mint) = true -> es_tokens st !! demo_mint = Some (demo_token st).
Proof. unfold demo_token. by destruct (es_tokens st !! demo_mint). Qed.
