(* ===== verification/LedgerRefine.v ===== *)
(** * LedgerRefine: the fold implements the ledger

    The refinement between the engine's state and [Ledger]: an arm's stake is a position
    of the book, the reverse index, the manual exits and the open counters agree with it.
    Every event of [reduce] moves the state along ledger steps whose reports are the
    effects it emits.  [manual] marks the rule ids the adapter mints for manual buys,
    which no cap counts. *)

From S2P Require Export Reduce Ledger.

(** What an arm has at stake. *)
Definition arm_stake (a : ArmState) : option (PositionId * Phase) :=
  match a with
  | EntryPending i p n _ _ _ _ => Some (p, Buying i n)
  | Entered h => Some (ec_position h, Held)
  | ExitPending i _ n _ h _ => Some (ec_position h, Selling i n)
  | _ => None
  end.

Lemma arm_stake_position a : fst <$> arm_stake a = arm_position a.
Proof. by destruct a. Qed.

Lemma inactive_no_stake a : arm_is_active a = false -> arm_stake a = None.
Proof. by destruct a. Qed.

Section refine.
Context `{TrackOps} (manual : RuleId -> bool).
Implicit Types (st : EngineState) (token : TokenState) (T : gmap Mint TokenState).

Definition token_stake token (r : RuleId) : option (PositionId * Phase) := tk_arms token !! r ≫= arm_stake.

Definition stake_in T (m : Mint) (r : RuleId) : option (PositionId * Phase) :=
  T !! m ≫= fun token => token_stake token r.

Definition same_stakes token token' : Prop := forall r, token_stake token' r = token_stake token r.

Lemma same_stakes_trans t1 t2 t3 : same_stakes t1 t2 -> same_stakes t2 t3 -> same_stakes t1 t3.
Proof. intros H1 H2 r. by rewrite H2. Qed.

Lemma stake_in_insert T mint token m r :
  stake_in (<[mint := token]> T) m r = if decide (m = mint) then token_stake token r else stake_in T m r.
Proof.
  unfold stake_in. destruct (decide (m = mint)) as [->|]; [by rewrite lookup_insert_eq | by rewrite lookup_insert_ne].
Qed.

Lemma token_stake_set_arm token r a r' :
  token_stake (set_arm token r a) r' = if decide (r' = r) then arm_stake a else token_stake token r'.
Proof.
  unfold token_stake; simpl. destruct (decide (r' = r)) as [->|]; [by rewrite lookup_insert_eq | by rewrite lookup_insert_ne].
Qed.

(** An arm replaced by one with the same stake. *)
Lemma same_stakes_set_arm token r a :
  token_stake token r = arm_stake a -> same_stakes token (set_arm token r a).
Proof. intros Ha r'. rewrite token_stake_set_arm. by case_decide; subst. Qed.

Lemma same_stakes_arms token token' : tk_arms token' = tk_arms token -> same_stakes token token'.
Proof. intros He r. unfold token_stake. by rewrite He. Qed.

Lemma inactive_no_stakes token r : tk_is_active token = false -> token_stake token r = None.
Proof.
  unfold tk_is_active, token_stake. intros Ha. destruct (tk_arms token !! r) as [a|] eqn:Hr; [|done]. simpl.
  apply inactive_no_stake. destruct (arm_is_active a) eqn:E; [|done].
  assert (existsb arm_is_active (values (tk_arms token)) = true); [|congruence].
  apply existsb_exists. exists a. split; [|done]. apply list_elem_of_In, elem_of_values. eauto.
Qed.

(** ** The refinement relation *)

Record refines st T (L : Ledger) : Prop := {
  rf_stakes : forall m r p ph,
    stake_in T m r = Some (p, ph) <-> lg_book L !! p = Some {| po_mint := m; po_rule := r; po_phase := ph |};
  rf_positions : es_positions st = (fun pos => {| pr_mint := po_mint pos; pr_rule := po_rule pos |}) <$> lg_book L;
  rf_intents : es_intent_seq st = lg_intents L;
  rf_seq : es_position_seq st = lg_positions L;
  rf_manual : forall p, is_Some (es_manual_rules st !! p) -> is_Some (lg_book L !! p);
  rf_open : forall r, manual r = false -> rc_open (counters_of st r) = open_count (lg_book L) r;
  rf_ok : ledger_ok L;
}.

Record same_core st st' : Prop := {
  sc_rules : es_rules st' = es_rules st;
  sc_tokens : es_tokens st' = es_tokens st;
  sc_positions : es_positions st' = es_positions st;
  sc_manual : es_manual_rules st' = es_manual_rules st;
  sc_intents : es_intent_seq st' = es_intent_seq st;
  sc_seq : es_position_seq st' = es_position_seq st;
  sc_counters : es_counters st' = es_counters st;
}.

Lemma refines_ext st st' T T' L :
  es_positions st' = es_positions st -> es_manual_rules st' = es_manual_rules st ->
  es_intent_seq st' = es_intent_seq st -> es_position_seq st' = es_position_seq st ->
  (forall r, rc_open (counters_of st' r) = rc_open (counters_of st r)) ->
  (forall m r, stake_in T' m r = stake_in T m r) ->
  refines st T L -> refines st' T' L.
Proof.
  intros E1 E2 E3 E4 E5 HT HR. destruct HR. split; try congruence.
  - intros. rewrite HT. auto.
  - intros p. rewrite E2. auto.
  - intros r Hr. rewrite E5. auto.
Qed.

Definition allow_of (rules : gmap RuleId CompiledRule) (r : RuleId) (n : Z) : Prop :=
  manual r = true \/
  exists c, rules !! r = Some c /\ cr_entry_enabled c = true /\ n < cr_concurrent_cap c.

(** [st] with the tokens [T] moves to [st'] with [T'], reporting [v]. *)
Definition moves st T (v : list Report) st' T' : Prop :=
  es_rules st' = es_rules st /\ es_tokens st' = es_tokens st /\
  forall L, refines st T L -> exists L', lsteps (allow_of (es_rules st)) L v L' /\ refines st' T' L'.

Lemma moves_trans st T v st1 T1 w st2 T2 :
  moves st T v st1 T1 -> moves st1 T1 w st2 T2 -> moves st T (v ++ w) st2 T2.
Proof.
  intros (E1 & F1 & H1) (E2 & F2 & H2). split_and!; [congruence..|]. intros L HL.
  destruct (H1 L HL) as (L1 & Hs1 & HL1). destruct (H2 L1 HL1) as (L2 & Hs2 & HL2).
  rewrite E1 in Hs2. exists L2. split; [by eapply lsteps_app | done].
Qed.

(** Nothing about positions changes. *)
Lemma moves_quiet st st' T T' :
  same_core st st' -> (forall m r, stake_in T' m r = stake_in T m r) -> moves st T [] st' T'.
Proof.
  intros [] HT. split_and!; [done..|]. intros L HL. exists L. split; [constructor|].
  eapply refines_ext; eauto. intros r. unfold counters_of. congruence.
Qed.

Lemma same_core_refl st : same_core st st.
Proof. by split. Qed.

Lemma same_core_trans st1 st2 st3 : same_core st1 st2 -> same_core st2 st3 -> same_core st1 st3.
Proof. intros [] []. split; congruence. Qed.

Lemma moves_stakes st T mint token token' :
  same_stakes token token' -> moves st (<[mint := token]> T) [] st (<[mint := token']> T).
Proof.
  intros Ht. apply moves_quiet; [apply same_core_refl|]. intros m r. rewrite !stake_in_insert. by case_decide.
Qed.

(** The stake of one token's rule, as a position of the book. *)
Lemma refines_stake st T mint token r p ph L :
  refines st (<[mint := token]> T) L -> token_stake token r = Some (p, ph) ->
  lg_book L !! p = Some {| po_mint := mint; po_rule := r; po_phase := ph |}.
Proof. intros HR Hs. apply (rf_stakes _ _ _ HR). rewrite stake_in_insert. by rewrite decide_True. Qed.

Lemma refines_no_stake st T mint token r L :
  refines st (<[mint := token]> T) L -> token_stake token r = None -> ~ holds_pair (lg_book L) mint r.
Proof.
  intros HR Hs (p & [m' r' ph] & Hb & <- & <-). simpl in *. apply (rf_stakes _ _ _ HR) in Hb.
  rewrite stake_in_insert, decide_True in Hb by done. congruence.
Qed.

(** ** One position moves *)

(** The core of a state after one position changed phase. *)
Lemma refines_rephase st st' T mint token token' r p ph ph' k L :
  refines st (<[mint := token]> T) L -> token_stake token r = Some (p, ph) ->
  (forall r', token_stake token' r' = if decide (r' = r) then Some (p, ph') else token_stake token r') ->
  es_positions st' = es_positions st -> es_manual_rules st' = es_manual_rules st ->
  es_intent_seq st' = es_intent_seq st + k -> es_position_seq st' = es_position_seq st ->
  es_counters st' = es_counters st ->
  let pos := {| po_mint := mint; po_rule := r; po_phase := ph |} in
  ledger_ok (rephase L p pos ph' k) -> refines st' (<[mint := token']> T) (rephase L p pos ph' k).
Proof.
  intros HR Hs Hs' E1 E2 E3 E4 E5 pos Hok.
  pose proof (refines_stake _ _ _ _ _ _ _ _ HR Hs) as Hb.
  split; simpl; [| | rewrite E3, (rf_intents _ _ _ HR); done | rewrite E4; apply (rf_seq _ _ _ HR) | | |done].
  - intros m r' q ph2. rewrite stake_in_insert.
    destruct (decide (q = p)) as [->|Hq].
    + rewrite lookup_insert_eq. unfold set_phase; simpl. split.
      * case_decide as Hm; subst.
        -- rewrite Hs'. case_decide; subst; [by intros [= ->]|].
           intros Hx. exfalso. pose proof (refines_stake _ _ _ _ _ _ _ _ HR Hx). congruence.
        -- intros Hx. exfalso. assert (Hx' : stake_in (<[mint := token]> T) m r' = Some (p, ph2))
             by (rewrite stake_in_insert; by rewrite decide_False).
           apply (rf_stakes _ _ _ HR) in Hx'. congruence.
      * intros [= <- <- <-]. rewrite decide_True by done. rewrite Hs'. by rewrite decide_True.
    + rewrite lookup_insert_ne by done. rewrite <- (rf_stakes _ _ _ HR), stake_in_insert.
      case_decide; [|done]. rewrite Hs'. case_decide; [|done]. subst. rewrite Hs. split; congruence.
  - rewrite E1, (rf_positions _ _ _ HR), fmap_insert. symmetry. apply insert_id.
    rewrite lookup_fmap, Hb. done.
  - intros q. rewrite E2. intros Hq. apply (rf_manual _ _ _ HR) in Hq. rewrite lookup_insert_is_Some'. by right.
  - intros r' Hr. rewrite (open_count_rephase _ _ _ _ _ Hb). rewrite <- (rf_open _ _ _ HR) by done.
    unfold counters_of. by rewrite E5.
Qed.

Lemma refines_close st st' T mint token token' r p ph L :
  refines st (<[mint := token]> T) L -> token_stake token r = Some (p, ph) ->
  (forall r', token_stake token' r' = if decide (r' = r) then None else token_stake token r') ->
  es_positions st' = delete p (es_positions st) -> es_manual_rules st' = delete p (es_manual_rules st) ->
  es_intent_seq st' = es_intent_seq st -> es_position_seq st' = es_position_seq st ->
  (forall r', rc_open (counters_of st' r') =
     if r' =? r then sat_sub (rc_open (counters_of st r)) 1 else rc_open (counters_of st r')) ->
  refines st' (<[mint := token']> T) (close L p).
Proof.
  intros HR Hs Hs' E1 E2 E3 E4 E5.
  pose proof (refines_stake _ _ _ _ _ _ _ _ HR Hs) as Hb.
  split; simpl; [| | rewrite E3; apply (rf_intents _ _ _ HR) | rewrite E4; apply (rf_seq _ _ _ HR) | |
                 |by apply close_ok, (rf_ok _ _ _ HR)].
  - intros m r' q ph2. rewrite lookup_delete_Some, <- (rf_stakes _ _ _ HR), !stake_in_insert.
    case_decide; subst.
    + rewrite Hs'. case_decide; subst; [rewrite Hs; naive_solver|].
      split; [|tauto]. intros Hx. split; [|done]. intros <-.
      pose proof (refines_stake _ _ _ _ _ _ _ _ HR Hx). congruence.
    + split; [|tauto]. intros Hx. split; [|done]. intros <-.
      assert (Hx' : stake_in (<[mint := token]> T) m r' = Some (p, ph2))
        by (rewrite stake_in_insert; by rewrite decide_False).
      apply (rf_stakes _ _ _ HR) in Hx'. congruence.
  - by rewrite E1, (rf_positions _ _ _ HR), fmap_delete.
  - intros q. rewrite E2, !lookup_delete_is_Some. intros [? Hq]. split; [done|]. by apply (rf_manual _ _ _ HR).
  - intros r' Hr. rewrite (open_count_delete _ _ _ _ Hb), E5; simpl.
    rewrite (Z.eqb_sym r r'). destruct (Z.eqb_spec r' r) as [->|?]; [|rewrite (rf_open _ _ _ HR) by done; lia].
    rewrite (rf_open _ _ _ HR) by done. pose proof (open_count_delete _ _ _ r Hb) as Hd. simpl in Hd.
    rewrite Z.eqb_refl in Hd. pose proof (open_count_pos (delete p (lg_book L)) r). unfold sat_sub. lia.
Qed.

Lemma refines_open st st' T mint token token' r L :
  refines st (<[mint := token]> T) L -> token_stake token r = None ->
  let p := es_position_seq st + 1 in
  let i := {| i_rule := r; i_mint := mint; i_seq := es_intent_seq st + 1 |} in
  (forall r', token_stake token' r' = if decide (r' = r) then Some (p, Buying i 1) else token_stake token r') ->
  es_positions st' = <[p := {| pr_mint := mint; pr_rule := r |}]> (es_positions st) ->
  (forall q, is_Some (es_manual_rules st' !! q) -> q = p \/ is_Some (es_manual_rules st !! q)) ->
  es_intent_seq st' = es_intent_seq st + 1 -> es_position_seq st' = p ->
  (forall r', manual r' = false -> rc_open (counters_of st' r') =
     rc_open (counters_of st r') + (if r =? r' then 1 else 0)) ->
  allow_of (es_rules st) r (open_count (lg_book L) r) ->
  exists L', lstep (allow_of (es_rules st)) L [VBuy i; VStatus p mint r StBuySubmitted] L' /\
    refines st' (<[mint := token']> T) L'.
Proof.
  intros HR Hs p i Hs' E1 E2 E3 E4 E5 Hallow.
  pose proof (rf_ok _ _ _ HR) as HL.
  pose proof (refines_no_stake _ _ _ _ _ _ HR Hs) as Hnew.
  assert (Hstep := LsOpen (allow_of (es_rules st)) L mint r Hnew Hallow).
  unfold fresh_intent in Hstep. simpl in Hstep. rewrite <- (rf_intents _ _ _ HR), <- (rf_seq _ _ _ HR) in Hstep.
  fold p i in Hstep. eexists. split; [exact Hstep|].
  assert (Hfree : lg_book L !! p = None).
  { destruct (lg_book L !! p) as [pos|] eqn:Hp; [|done]. pose proof (ok_ids _ HL _ _ Hp).
    subst p. rewrite (rf_seq _ _ _ HR) in *. lia. }
  split; simpl; [| |done|done| | |by eapply lstep_ok].
  - intros m r' q ph. rewrite stake_in_insert. unfold set_phase; simpl.
    destruct (decide (q = p)) as [->|Hq].
    + rewrite lookup_insert_eq. split.
      * case_decide; subst.
        -- rewrite Hs'. case_decide; subst; [by intros [= ->]|].
           intros Hx. pose proof (refines_stake _ _ _ _ _ _ _ _ HR Hx). congruence.
        -- intros Hx. exfalso. assert (Hx' : stake_in (<[mint := token]> T) m r' = Some (p, ph))
             by (rewrite stake_in_insert; by rewrite decide_False).
           apply (rf_stakes _ _ _ HR) in Hx'. congruence.
      * intros [= <- <- <-]. rewrite decide_True by done. rewrite Hs'. by rewrite decide_True.
    + rewrite lookup_insert_ne by done. rewrite <- (rf_stakes _ _ _ HR), stake_in_insert.
      case_decide; [|done]. rewrite Hs'. case_decide; [|done]. subst. rewrite Hs. split; congruence.
  - by rewrite E1, (rf_positions _ _ _ HR), fmap_insert.
  - intros q Hq. rewrite lookup_insert_is_Some'. destruct (E2 q Hq) as [->|Hm]; [by left|].
    right. by apply (rf_manual _ _ _ HR).
  - intros r' Hr. rewrite (open_count_insert _ _ _ _ Hfree), E5, (rf_open _ _ _ HR) by done. done.
Qed.
End refine.

(** ** A sweep moves along ledger steps

    [evaluate_token] and what it is made of, against the refinement of [LedgerRefine]. *)

Section sweep.
Context `{TrackOps} (manual : RuleId -> bool).
Implicit Types (st : EngineState) (token : TokenState) (T : gmap Mint TokenState).

Notation moves := (moves manual).
Notation refines := (refines manual).

Lemma stake_of_arm token r a : tk_arms token !! r = Some a -> token_stake token r = arm_stake a.
Proof. unfold token_stake. by intros ->. Qed.

(** A sell of a held position put in flight. *)
Lemma apply_sell_moves st T mint token rule h reason portion go shown st' token' fx :
  tk_arms token !! rule = Some (Entered h) ->
  apply_sell st token mint rule h reason portion go shown = (st', token', fx) ->
  moves st (<[mint := token]> T) (reports fx) st' (<[mint := token']> T).
Proof.
  intros Harm Hs. unfold apply_sell in Hs. cbn in Hs. injection Hs as <- <- <-.
  split_and!; [done..|]. intros L HL.
  assert (Hst : token_stake token rule = Some (ec_position h, Held)) by by rewrite (stake_of_arm _ _ _ Harm).
  pose proof (refines_stake _ _ _ _ _ _ _ _ _ HL Hst) as Hb.
  set (pos := {| po_mint := mint; po_rule := rule; po_phase := Held |}) in *.
  assert (Hstep := LsSell (allow_of manual (es_rules st)) L (ec_position h) pos Hb eq_refl).
  unfold fresh_intent in Hstep. simpl in Hstep. rewrite <- (rf_intents _ _ _ _ HL) in Hstep.
  eexists. split; [apply lsteps_one, Hstep|].
  eapply refines_rephase; [done|done| |done..|by eapply lstep_ok, (rf_ok _ _ _ _ HL)].
  intros r'. rewrite token_stake_set_arm. by case_decide.
Qed.

Lemma lock_slot_arms token rule : tk_arms (lock_slot token rule) = tk_arms token.
Proof. unfold lock_slot. by case_match. Qed.

Lemma counters_of_insert st r c r' :
  counters_of (set_es_counters st (<[r := c]> (es_counters st))) r' = if r =? r' then c else counters_of st r'.
Proof.
  unfold counters_of; simpl. destruct (Z.eqb_spec r r') as [->|]; [by rewrite lookup_insert_eq | by rewrite lookup_insert_ne].
Qed.

Lemma with_counters_of st r f r' :
  counters_of (with_counters st r f) r' = if r =? r' then f (counters_of st r) else counters_of st r'.
Proof. apply (counters_of_insert st r (f (counters_of st r))). Qed.

(** An entry within the caps opens a position; over a cap nothing happens to the book. *)
Lemma apply_enter_moves st T mint token rule followed lamports cap max_total mode now c st' token' fx :
  token_stake token rule = None ->
  es_rules st !! rule = Some c -> cr_entry_enabled c = true -> cap = cr_concurrent_cap c ->
  apply_enter st token mint rule followed lamports cap max_total mode now = (st', token', fx) ->
  moves st (<[mint := token]> T) (reports fx) st' (<[mint := token']> T).
Proof.
  intros Hst Hrule Hon -> He. unfold apply_enter in He.
  set (st1 := set_es_counters st _) in He. case_match eqn:Hcap.
  - injection He as <- <- <-. split_and!; [done..|]. intros L HL. exists L. split; [constructor|].
    apply (refines_ext manual st st1 (<[mint := token]> T)); try done.
    + intros r. unfold st1. rewrite counters_of_insert. by destruct (Z.eqb_spec rule r) as [->|].
    + intros m r. rewrite !stake_in_insert. case_decide; [|done]. unfold token_stake. by rewrite lock_slot_arms.
  - cbn in He. injection He as <- <- <-. split_and!; [done..|]. intros L HL.
    assert (Hopen : forall r, counters_of st1 r = counters_of st r).
    { intros r. unfold st1. rewrite counters_of_insert. by destruct (Z.eqb_spec rule r) as [->|]. }
    edestruct (refines_open manual st) as (L' & Hstep & HL'); [exact HL|exact Hst| | | | | | | |
      exists L'; split; [apply lsteps_one, Hstep | exact HL']]; try done.
    + intros r'. rewrite token_stake_set_arm. case_decide; [done|]. unfold token_stake. by rewrite lock_slot_arms.
    + intros q Hq. by right.
    + intros r' _.
      transitivity (rc_open (counters_of (with_counters st1 rule
        (fun c => {| rc_open := rc_open c + 1; rc_total := rc_total c + 1 |})) r')); [done|].
      rewrite with_counters_of, !Hopen.
      destruct (Z.eqb_spec rule r') as [->|]; simpl; lia.
    + destruct (manual rule) eqn:Hm; [by left|]. right. exists c. split_and!; [done..|].
      rewrite <- (rf_open _ _ _ _ HL) by done. apply orb_false_iff in Hcap as [Hcap _].
      apply negb_false_iff in Hcap. unfold Cap.allows in Hcap. lia.
Qed.

(** What a decision says of the arm it was made for. *)
Definition decision_fits (c : CompiledRule) (arm : ArmState) (d : ArmDecision) : Prop :=
  match d with
  | DEnter _ => arm = Armed /\ cr_entry_enabled c = true
  | DDisarm _ _ | DSpendSlot | DExhaust => arm = Armed
  | _ => True
  end.

Lemma decide_arm_fits c rule arm token dead dupe now on_print :
  decision_fits c arm (decide_arm c rule arm token dead dupe now on_print).
Proof.
  destruct arm; simpl; try done.
  - unfold decide_armed. destruct (cr_entry_enabled c) eqn:Hon; simpl; [|done].
    repeat (case_match; simpl; try done).
  - by repeat (case_match; simpl; try done).
  - unfold decide_entered. by repeat (case_match; simpl; try done).
Qed.

Lemma unlocked_stakes token rule a :
  token_stake token rule = arm_stake a -> same_stakes token (set_arm (lock_slot token rule) rule a).
Proof.
  intros Ha. eapply same_stakes_trans; [apply same_stakes_arms, (lock_slot_arms _ rule)|].
  apply same_stakes_set_arm. unfold token_stake in *. by rewrite lock_slot_arms.
Qed.

Lemma apply_decision_moves st T mint token rule arm c d lamports max_total mode now st' token' fx :
  tk_arms token !! rule = Some arm -> rule_for st rule (arm_position arm) = Some c -> decision_fits c arm d ->
  apply_decision st token mint rule d lamports (cr_concurrent_cap c) max_total mode now = (st', token', fx) ->
  moves st (<[mint := token]> T) (reports fx) st' (<[mint := token']> T).
Proof.
  intros Harm Hc Hfit Hd. unfold apply_decision in Hd. pose proof (stake_of_arm _ _ _ Harm) as Hst.
  case_match; [injection Hd as <- <- <-; by apply moves_stakes|].
  destruct d as [|why detail|followed| | |reason|action|reason bps of_bag go|stage]; simpl in Hfit.
  - injection Hd as <- <- <-. by apply moves_stakes.
  - injection Hd as <- <- <-. subst arm. by apply moves_stakes, same_stakes_set_arm.
  - destruct Hfit as [-> Hon]. simpl in Hc.
    eapply apply_enter_moves; [exact Hst | | exact Hon | reflexivity | exact Hd].
    unfold rule_for in Hc. simpl in Hc. by destruct (es_rules st !! rule).
  - injection Hd as <- <- <-. by apply moves_stakes, same_stakes_arms, lock_slot_arms.
  - injection Hd as <- <- <-. subst arm. by apply moves_stakes, unlocked_stakes.
  - case_match; try (injection Hd as <- <- <-; by apply moves_stakes). case_match;
      try (injection Hd as <- <- <-; by apply moves_stakes).
    subst. by eapply apply_sell_moves.
  - rewrite Harm in Hd. destruct arm; try (injection Hd as <- <- <-; by apply moves_stakes).
    destruct (note_inflight _ _ _) as [owed' stage']. injection Hd as <- <- <-.
    by apply moves_stakes, same_stakes_set_arm.
  - rewrite Harm in Hd. destruct arm; try (injection Hd as <- <- <-; by apply moves_stakes).
    by eapply apply_sell_moves.
  - rewrite Harm in Hd. destruct arm; try (injection Hd as <- <- <-; by apply moves_stakes).
    injection Hd as <- <- <-. by apply moves_stakes, same_stakes_set_arm.
Qed.

Lemma sweep_arm_moves mint dead now on_print T st token fx rule st' token' fx' :
  sweep_arm mint dead now on_print (st, token, fx) rule = (st', token', fx') ->
  exists more, fx' = fx ++ more /\ moves st (<[mint := token]> T) (reports more) st' (<[mint := token']> T).
Proof.
  intros Hs. unfold sweep_arm in Hs.
  assert (Hid : forall s t f, (s, t, f) = (st', token', fx') -> s = st -> t = token -> f = fx ->
    exists more, fx' = fx ++ more /\ moves st (<[mint := token]> T) (reports more) st' (<[mint := token']> T)).
  { intros s t f [= -> -> ->] -> -> ->. exists []. rewrite app_nil_r. split; [done|]. by apply moves_stakes. }
  destruct (tk_arms token !! rule) as [arm|] eqn:Harm; [|by eapply Hid].
  destruct (rule_for st rule (arm_position arm)) as [c|] eqn:Hc; [|by eapply Hid].
  cbv zeta in Hs.
  destruct (apply_decision _ _ _ _ _ _ _ _ _ _) as [[st1 token1] fx1] eqn:Hd in Hs.
  injection Hs as <- <- <-. exists fx1. split; [done|].
  eapply apply_decision_moves; [done|done| |exact Hd]. apply decide_arm_fits.
Qed.

Lemma reports_app fx fx' : reports (fx ++ fx') = reports fx ++ reports fx'.
Proof. apply omap_app. Qed.

Lemma sweep_moves mint dead now on_print T ids : forall st token fx st' token' fx',
  foldl (sweep_arm mint dead now on_print) (st, token, fx) ids = (st', token', fx') ->
  exists more, fx' = fx ++ more /\ moves st (<[mint := token]> T) (reports more) st' (<[mint := token']> T).
Proof.
  induction ids as [|r ids IH]; intros st token fx st' token' fx' Hf; cbn [foldl] in Hf.
  - injection Hf as <- <- <-. exists []. rewrite app_nil_r. split; [done|]. by apply moves_stakes.
  - destruct (sweep_arm _ _ _ _ _ _) as [[st1 token1] fx1] eqn:Hs in Hf.
    apply (sweep_arm_moves _ _ _ _ T) in Hs as (m1 & -> & H1).
    apply IH in Hf as (m2 & -> & H2). exists (m1 ++ m2). rewrite <- app_assoc, reports_app.
    split; [done|]. by eapply moves_trans.
Qed.

(** Arms without a stake, all replaced by an arm without one. *)
Lemma set_arms_stakes (l : list (RuleId * ArmState)) a : forall token,
  arm_stake a = None -> (forall e, e ∈ l -> token_stake token e.1 = None) ->
  same_stakes token (foldl (fun t e => set_arm t e.1 a) token l).
Proof.
  induction l as [|e l IH]; intros token Ha Hl; [done|]. cbn [foldl].
  eapply same_stakes_trans; [apply same_stakes_set_arm; rewrite Ha; apply Hl; left|].
  apply IH; [done|]. intros e' He'. rewrite token_stake_set_arm. case_decide; [done|]. apply Hl. by right.
Qed.

Lemma filtered_stakes token (f : RuleId * ArmState -> bool) a :
  arm_stake a = None -> (forall e, f e = true -> arm_stake e.2 = None) ->
  same_stakes token (foldl (fun t e => set_arm t e.1 a) token (List.filter f (entries (tk_arms token)))).
Proof.
  intros Ha Hf. apply set_arms_stakes; [done|]. intros [r b] [Hin Hb]%list_elem_of_In%filter_In.
  apply list_elem_of_In, elem_of_entries in Hin. simpl. rewrite (stake_of_arm _ _ _ Hin). by apply (Hf (r, b)).
Qed.

Lemma reports_armed mint tag (l : list (RuleId * ArmState)) :
  reports ((fun e => armed mint e.1 tag) <$> l) = [].
Proof. by induction l. Qed.

Lemma fold_entered_stakes token now : same_stakes token (fold_entered_extremes token now).
Proof.
  unfold fold_entered_extremes. case_match; [done|]. intros r. unfold token_stake; simpl.
  rewrite lookup_fmap. destruct (tk_arms token !! r) as [a|]; [simpl | done].
  destruct a; simpl; try done. by case_match.
Qed.

Lemma promote_stakes st token mint now token' fx :
  promote_cooldowns st token mint now = (token', fx) -> same_stakes token token' /\ reports fx = [].
Proof.
  intros [= <- <-]. split; [|apply reports_armed]. apply filtered_stakes; [done|].
  intros [r a]. unfold cooldown_over; simpl. by destruct a.
Qed.

Lemma stamp_settled_stakes st token now : same_stakes token (stamp_settled st token now).
Proof. by apply same_stakes_arms. Qed.

Lemma evaluate_token_moves st token mint now on_print T st' token' fx :
  evaluate_token st token mint now on_print = (st', token', fx) ->
  moves st (<[mint := token]> T) (reports fx) st' (<[mint := token']> T).
Proof.
  unfold evaluate_token. intros He.
  destruct (promote_cooldowns _ _ _ _) as [token1 fx1] eqn:Hp in He.
  apply promote_stakes in Hp as [Hp Hr].
  destruct (foldl _ _ _) as [[st2 token2] fx2] eqn:Hf in He. injection He as <- <- <-.
  apply (sweep_moves _ _ _ _ T) in Hf as (more & -> & Hm).
  rewrite reports_app, Hr. eapply (moves_trans _ _ _ []); [|rewrite <- (app_nil_r (reports more))].
  - eapply moves_stakes, same_stakes_trans; [apply fold_entered_stakes | exact Hp].
  - eapply moves_trans; [exact Hm|]. apply moves_stakes, stamp_settled_stakes.
Qed.
End sweep.
