(* ===== verification/LedgerFold.v ===== *)
(** * LedgerFold: every event moves along ledger steps

    The handlers of [reduce], each against the refinement of [LedgerRefine], and the
    simulation theorem for one event and for a stream of them. *)

From S2P Require Export LedgerRefine.

(** Name the triple a handler's body computes. *)
Ltac step_triple Hf st1 token1 fx1 Hb :=
  match type of Hf with
  | (match ?x with _ => _ end) = _ => destruct x as [[st1 token1] fx1] eqn:Hb
  end.

Section fold.
Context `{TrackOps} (manual : RuleId -> bool).
Implicit Types (st : EngineState) (token : TokenState) (T : gmap Mint TokenState).

Notation moves := (moves manual).
Notation refines := (refines manual).
Notation allow_of := (allow_of manual).

(** ** Position transitions of the handlers *)

(** A position that changes phase, with [k] intents issued. *)
Lemma moves_rephase st T mint token rule p ph ph' k v a :
  token_stake token rule = Some (p, ph) -> arm_stake a = Some (p, ph') ->
  (forall L, let pos := {| po_mint := mint; po_rule := rule; po_phase := ph |} in
     lg_book L !! p = Some pos -> lg_intents L = es_intent_seq st ->
     lstep (allow_of (es_rules st)) L v (rephase L p pos ph' k)) ->
  moves st (<[mint := token]> T) v (set_es_intent_seq st (es_intent_seq st + k)) (<[mint := set_arm token rule a]> T).
Proof.
  intros Hs Ha Hstep. split_and!; [done..|]. intros L HL.
  pose proof (refines_stake _ _ _ _ _ _ _ _ _ HL Hs) as Hb.
  assert (Hl := Hstep L Hb (eq_sym (rf_intents _ _ _ _ HL))).
  eexists. split; [apply lsteps_one, Hl|].
  eapply refines_rephase; [exact HL|exact Hs| |done..|by eapply lstep_ok, (rf_ok _ _ _ _ HL)].
  intros r'. rewrite token_stake_set_arm. by case_decide.
Qed.

Lemma moves_rephase_quiet st T mint token rule p ph ph' v a :
  token_stake token rule = Some (p, ph) -> arm_stake a = Some (p, ph') ->
  (forall L, let pos := {| po_mint := mint; po_rule := rule; po_phase := ph |} in
     lg_book L !! p = Some pos -> lstep (allow_of (es_rules st)) L v (rephase L p pos ph' 0)) ->
  moves st (<[mint := token]> T) v st (<[mint := set_arm token rule a]> T).
Proof.
  intros Hs Ha Hstep. pose proof (moves_rephase st T mint token rule p ph ph' 0 v a Hs Ha) as Hm.
  rewrite Z.add_0_r in Hm. destruct st. apply Hm. auto.
Qed.

Definition closing (ph : Phase) (s : PositionStatus) : Prop :=
  match ph with
  | Buying _ _ => s = StEntryFailed
  | Held => s = StEnd
  | Selling _ _ => s = StEnd \/ s = StExitStuck \/ s = StExitUnconfirmed
  end.

Lemma closing_step allow L p m r ph s :
  let pos := {| po_mint := m; po_rule := r; po_phase := ph |} in
  lg_book L !! p = Some pos -> closing ph s -> lstep allow L [VStatus p m r s] (close L p).
Proof.
  intros pos Hb Hc. destruct ph as [i n| |i n]; simpl in Hc.
  - subst. by apply (LsEntryFailed _ _ _ pos i n).
  - subst. by apply (LsCleared _ _ _ pos).
  - destruct Hc as [-> |Hc]; [by apply (LsSold _ _ _ pos i n) | by apply (LsGivenUp _ _ _ pos i n)].
Qed.

Lemma moves_close st T mint token token1 rule p ph s f a :
  token_stake token rule = Some (p, ph) -> arm_stake a = None -> tk_arms token1 = tk_arms token ->
  (forall c, rc_open (f c) = sat_sub (rc_open c) 1) -> closing ph s ->
  moves st (<[mint := token]> T) [VStatus p mint rule s]
    (remove_position (with_counters st rule f) p) (<[mint := set_arm token1 rule a]> T).
Proof.
  intros Hs Ha H1 Hf Hc. split_and!; [done..|]. intros L HL.
  pose proof (refines_stake _ _ _ _ _ _ _ _ _ HL Hs) as Hb.
  exists (close L p). split; [by eapply lsteps_one, closing_step|].
  eapply refines_close; [exact HL|exact Hs| |done..|].
  - intros r'. rewrite token_stake_set_arm. case_decide; [done|]. unfold token_stake. by rewrite H1.
  - intros r'. change (counters_of (remove_position (with_counters st rule f) p) r')
      with (counters_of (with_counters st rule f) r').
    rewrite with_counters_of, Z.eqb_sym. by case_match.
Qed.

(** ** Fills *)

Lemma fill_entry_moves st T mint token rule pend intent position attempts lamports followed stage owed fill st' token' fx :
  tk_arms token !! rule = Some (EntryPending pend position attempts lamports followed stage owed) ->
  fill_entry st token mint rule intent position followed stage owed fill = (st', token', fx) ->
  moves st (<[mint := token]> T) (reports fx) st' (<[mint := token']> T).
Proof.
  intros Harm Hf. pose proof (stake_of_arm _ _ _ Harm) as Hst. unfold fill_entry in Hf. cbv zeta in Hf.
  set (entered := set_followed _ followed) in Hf.
  destruct owed as [o|].
  - assert (Hx : exists portion go shown, (let '(sell, st0) := next_intent st rule mint in
      (st0, set_arm token rule (ExitPending sell (ow_reason o) 1 portion entered go),
       [position_update position rule mint StHolding (Some fill) None (Some intent) (Some 0) None;
        position_update position rule mint StExitPending None (Some (ow_reason o)) (Some sell) shown None;
        SubmitSell sell position (ow_reason o) portion])) = (st', token', fx)).
    { destruct (ow_bps o); eauto. }
    clear Hf. destruct Hx as (portion & go & shown & Hx). cbn in Hx. injection Hx as <- <- <-.
    eapply moves_rephase; [exact Hst|done|]. intros L pos Hb Hi.
    assert (Hl := LsFilledAndSold (allow_of (es_rules st)) L _ pos _ _ Hb eq_refl).
    unfold fresh_intent in Hl. by rewrite Hi in Hl.
  - injection Hf as <- <- <-.
    eapply moves_rephase_quiet; [exact Hst|done|]. intros L pos Hb.
    exact (LsFilled _ L _ pos _ _ Hb eq_refl).
Qed.

Lemma fill_exit_moves st T mint token rule intent pend reason attempts portion h go fill st' token' fx :
  tk_arms token !! rule = Some (ExitPending pend reason attempts portion h go) ->
  fill_exit st token mint rule intent reason portion h go fill = (st', token', fx) ->
  moves st (<[mint := token]> T) (reports fx) st' (<[mint := token']> T).
Proof.
  intros Harm Hf. pose proof (stake_of_arm _ _ _ Harm) as Hst. unfold fill_exit in Hf. cbv zeta in Hf.
  destruct (is_partial portion).
  - match type of Hf with (_, set_arm _ _ (Entered ?x), _) = _ => set (next := x) in Hf end.
    assert (Hp : ec_position next = ec_position h) by by destruct go.
    clearbody next.
    injection Hf as <- <- <-. cbn. rewrite Hp.
    eapply moves_rephase_quiet; [exact Hst|simpl; by rewrite Hp|]. intros L pos Hb.
    exact (LsPartSold _ L _ pos _ _ Hb eq_refl).
  - destruct (rearm_after_close _ _ _ _ _) as [next episodes] eqn:Hn in Hf. injection Hf as <- <- <-.
    apply (moves_close st T mint token (set_tk_episodes token episodes) rule (ec_position h)
      (Selling pend attempts) StEnd); try done.
    + unfold rearm_after_close in Hn. by repeat (case_match; try by simplify_eq/=).
    + by left.
Qed.

Lemma fail_entry_moves st T mint token rule pend intent position attempts lamports followed stage owed reason at_ st' token' fx :
  tk_arms token !! rule = Some (EntryPending pend position attempts lamports followed stage owed) ->
  fail_entry st token mint rule intent position attempts lamports followed stage owed reason at_ = (st', token', fx) ->
  moves st (<[mint := token]> T) (reports fx) st' (<[mint := token']> T).
Proof.
  intros Harm Hf. pose proof (stake_of_arm _ _ _ Harm) as Hst. unfold fail_entry in Hf. cbv zeta in Hf.
  set (left_ := negb (bool_decide (reason = Fatal)) && _ && _) in Hf.
  set (retry := if 0 <? lamports then _ else _) in *.
  destruct (left_ && _ && _) eqn:Hretry in Hf.
  - cbn in Hf. injection Hf as <- <- <-. eapply moves_rephase; [exact Hst|done|]. intros L pos Hb Hi.
    assert (Hn : attempts < 3).
    { subst left_. unfold MAX_ENTRY_ATTEMPTS in Hretry. repeat (apply andb_true_iff in Hretry as [Hretry ?]). lia. }
    assert (Hl := LsRetryBuy (allow_of (es_rules st)) L _ pos _ _ Hb eq_refl Hn).
    unfold fresh_intent in Hl. by rewrite Hi in Hl.
  - assert (Hclose : forall a, arm_stake a = None ->
      moves st (<[mint := token]> T) [VStatus position mint rule StEntryFailed]
        (remove_position (rollback_entry st rule) position) (<[mint := set_arm token rule a]> T)).
    { intros a Ha. by eapply moves_close. }
    destruct (left_ && _) in Hf; injection Hf as <- <- <-; by apply Hclose.
Qed.

Lemma fail_exit_moves st T mint token rule pend intent exit_reason attempts portion h go reason st' token' fx :
  tk_arms token !! rule = Some (ExitPending pend exit_reason attempts portion h go) ->
  fail_exit st token mint rule intent exit_reason attempts portion h go reason = (st', token', fx) ->
  moves st (<[mint := token]> T) (reports fx) st' (<[mint := token']> T).
Proof.
  intros Harm Hf. pose proof (stake_of_arm _ _ _ Harm) as Hst. unfold fail_exit in Hf. cbv zeta beta in Hf.
  assert (Hclose : forall s, s = StExitStuck \/ s = StExitUnconfirmed ->
    moves st (<[mint := token]> T) [VStatus (ec_position h) mint rule s]
      (remove_position (decrement_open st rule) (ec_position h)) (<[mint := set_arm token rule Done]> T)).
  { intros s Hs. eapply moves_close; try done. simpl. auto. }
  case_match; [injection Hf as <- <- <-; apply Hclose; auto|].
  case_match eqn:Hgive; [injection Hf as <- <- <-; apply Hclose; auto|].
  cbn in Hf. injection Hf as <- <- <-. eapply moves_rephase; [exact Hst|done|]. intros L pos Hb Hi.
  assert (Hn : attempts < 5) by (unfold MAX_EXIT_ATTEMPTS in Hgive; apply orb_false_iff in Hgive as [_ ?]; lia).
  assert (Hl := LsRetrySell (allow_of (es_rules st)) L _ pos _ _ Hb eq_refl Hn).
  unfold fresh_intent in Hl. by rewrite Hi in Hl.
Qed.

(** ** A token taken out of the map and put back *)

Definition event_moves st (v : list Report) st' : Prop :=
  forall L, refines st (es_tokens st) L ->
    exists L', lsteps (allow_of (es_rules st)) L v L' /\ refines st' (es_tokens st') L'.

Lemma event_quiet st st' : same_core st st' -> event_moves st [] st'.
Proof.
  intros Hc L HL. exists L. split; [constructor|].
  destruct Hc. apply (refines_ext manual st st' (es_tokens st)); try done; [|congruence].
  intros r. unfold counters_of. congruence.
Qed.

Lemma put_back_tokens st mint token :
  es_tokens st !! mint = None ->
  forall m r, stake_in (es_tokens (put_back st mint token)) m r = stake_in (<[mint := token]> (es_tokens st)) m r.
Proof.
  intros Hn m r. unfold put_back. destruct (tk_is_active token) eqn:Ha; [done|].
  rewrite stake_in_insert. unfold stake_in. case_decide; [subst; rewrite Hn; simpl|done].
  by rewrite inactive_no_stakes.
Qed.

Lemma refines_put_back st mint token L :
  es_tokens st !! mint = None -> refines st (<[mint := token]> (es_tokens st)) L ->
  refines (put_back st mint token) (es_tokens (put_back st mint token)) L.
Proof.
  intros Hn HR. apply (refines_ext manual st _ (<[mint := token]> (es_tokens st)));
    [unfold put_back; by case_match ..| |exact HR]. by apply put_back_tokens.
Qed.

(** A handler that takes [token] out, works on it and puts it back. *)
Lemma taken_out_moves st mint token token0 v st' token' :
  es_tokens st !! mint = Some token -> same_stakes token token0 ->
  moves (take_out st mint) (<[mint := token0]> (delete mint (es_tokens st))) v st'
    (<[mint := token']> (delete mint (es_tokens st))) ->
  event_moves st v (put_back st' mint token').
Proof.
  intros Hm Hs (Hr & Ht & Hmv) L HL.
  assert (H0 : refines (take_out st mint) (<[mint := token0]> (delete mint (es_tokens st))) L).
  { apply (refines_ext manual st _ (es_tokens st)); try done. intros m r. rewrite stake_in_insert. unfold stake_in.
    case_decide; [subst; rewrite Hm; simpl; apply Hs | by rewrite lookup_delete_ne]. }
  destruct (Hmv L H0) as (L' & Hl & HL'). exists L'. split; [exact Hl|].
  apply refines_put_back; rewrite Ht; [apply lookup_delete_eq|exact HL'].
Qed.

Lemma unsettle_stakes token : same_stakes token (unsettle token).
Proof. by apply same_stakes_arms. Qed.

(** ** The handlers *)

Lemma on_fill_confirmed_moves st intent fill st' fx :
  on_fill_confirmed st intent fill = (st', fx) -> event_moves st (reports fx) st'.
Proof.
  unfold on_fill_confirmed. intros Hf. destruct (es_tokens st !! i_mint intent) as [token|] eqn:Hm;
    [|injection Hf as <- <-; by apply event_quiet, same_core_refl].
  step_triple Hf st1 token1 fx1 Hb.
  injection Hf as <- <-. eapply taken_out_moves; [exact Hm | apply unsettle_stakes |].
  destruct (tk_arms (unsettle token) !! i_rule intent) as [a|] eqn:Harm;
    [destruct a|]; try (injection Hb as <- <- <-; by apply moves_stakes);
    (case_match; [|injection Hb as <- <- <-; by apply moves_stakes]).
  - by eapply fill_entry_moves.
  - by eapply fill_exit_moves.
Qed.

Lemma on_fill_failed_moves st intent reason at_ st' fx :
  on_fill_failed st intent reason at_ = (st', fx) -> event_moves st (reports fx) st'.
Proof.
  unfold on_fill_failed. intros Hf. destruct (es_tokens st !! i_mint intent) as [token|] eqn:Hm;
    [|injection Hf as <- <-; by apply event_quiet, same_core_refl].
  step_triple Hf st1 token1 fx1 Hb.
  injection Hf as <- <-. eapply taken_out_moves; [exact Hm | apply unsettle_stakes |].
  destruct (tk_arms (unsettle token) !! i_rule intent) as [a|] eqn:Harm;
    [destruct a|]; try (injection Hb as <- <- <-; by apply moves_stakes);
    (case_match; [|injection Hb as <- <- <-; by apply moves_stakes]).
  - by eapply fail_entry_moves.
  - by eapply fail_exit_moves.
Qed.

Lemma on_manual_close_moves st position portion st' fx :
  on_manual_close st position portion = (st', fx) -> event_moves st (reports fx) st'.
Proof.
  unfold on_manual_close. intros Hf.
  destruct (es_positions st !! position) as [[mint rule]|];
    [|injection Hf as <- <-; by apply event_quiet, same_core_refl].
  simpl in Hf. destruct (es_tokens st !! mint) as [token|] eqn:Hm;
    [|injection Hf as <- <-; by apply event_quiet, same_core_refl].
  step_triple Hf st1 token1 fx1 Hb.
  injection Hf as <- <-. eapply taken_out_moves; [exact Hm | apply unsettle_stakes |].
  destruct (tk_arms token !! rule) as [a|] eqn:Harm;
    [destruct a|]; try (injection Hb as <- <- <-; by apply moves_stakes);
    (case_match eqn:Hp; [apply Z.eqb_eq in Hp|injection Hb as <- <- <-; by apply moves_stakes]).
  - injection Hb as <- <- <-. subst.
    eapply (moves_close _ _ _ _ _ _ _ (Buying intent attempts)); try done. by apply stake_of_arm in Harm.
  - by eapply apply_sell_moves.
Qed.

Lemma on_externally_cleared_moves st position fill st' fx :
  on_externally_cleared st position fill = (st', fx) -> event_moves st (reports fx) st'.
Proof.
  unfold on_externally_cleared. intros Hf.
  destruct (es_positions st !! position) as [[mint rule]|];
    [|injection Hf as <- <-; by apply event_quiet, same_core_refl].
  simpl in Hf. destruct (es_tokens st !! mint) as [token|] eqn:Hm;
    [|injection Hf as <- <-; by apply event_quiet, same_core_refl].
  step_triple Hf st1 token1 fx1 Hb.
  injection Hf as <- <-. eapply taken_out_moves; [exact Hm | apply unsettle_stakes |].
  destruct (tk_arms token !! rule) as [a|] eqn:Harm;
    [destruct a|]; try (injection Hb as <- <- <-; by apply moves_stakes);
    (case_match eqn:Hp; [apply Z.eqb_eq in Hp|injection Hb as <- <- <-; by apply moves_stakes]).
  injection Hb as <- <- <-. subst.
  eapply (moves_close _ _ _ _ _ _ _ Held); try done. by apply stake_of_arm in Harm.
Qed.

Lemma on_migrated_moves st mint st' fx :
  on_migrated st mint = (st', fx) -> event_moves st (reports fx) st'.
Proof.
  unfold on_migrated. intros Hf. destruct (es_tokens st !! mint) as [token|] eqn:Hm;
    [|injection Hf as <- <-; by apply event_quiet, same_core_refl].
  injection Hf as <- <-. rewrite reports_armed.
  eapply taken_out_moves; [exact Hm | apply unsettle_stakes |]. apply moves_stakes.
  apply (filtered_stakes (unsettle token)); [done|]. intros [r a]; simpl. by destruct a.
Qed.

(** *** Creation, the first slot, a trade *)

Lemma stake_in_arms mint token T :
  tk_arms token = ∅ -> T !! mint = None -> forall m r, stake_in (<[mint := token]> T) m r = stake_in T m r.
Proof.
  intros Ha Hn m r. rewrite stake_in_insert. case_decide; [subst|done].
  unfold stake_in. rewrite Hn. unfold token_stake. by rewrite Ha, lookup_empty.
Qed.

Lemma stake_in_no_stakes mint token T :
  (forall r, token_stake token r = None) -> T !! mint = None ->
  forall m r, stake_in (<[mint := token]> T) m r = stake_in T m r.
Proof.
  intros Ha Hn m r. rewrite stake_in_insert. case_decide; [subst|done]. unfold stake_in. by rewrite Hn, Ha.
Qed.

Lemma set_arm_births st hits (l : list (RuleId * CompiledRule)) : forall (arms : gmap RuleId ArmState),
  (forall r, arms !! r ≫= arm_stake = None) ->
  forall r, foldl (fun arms e =>
    if negb (cr_entry_enabled e.2) then arms
    else if contains hits (cr_fingerprint_id e.2) then
      <[e.1 := if fp_has_first_slot st (cr_fingerprint_id e.2) then PendingFirstSlot else Armed]> arms
    else arms) arms l !! r ≫= arm_stake = None.
Proof.
  induction l as [|e l IH]; intros arms Ha r; [apply Ha|]. cbn [foldl]. apply IH. intros r'.
  case_match; [apply Ha|]. case_match; [|apply Ha].
  destruct (decide (r' = e.1)) as [->|]; [rewrite lookup_insert_eq | rewrite lookup_insert_ne by done; apply Ha].
  by case_match.
Qed.

Lemma births_no_stakes st hits r : arms_at_birth st hits !! r ≫= arm_stake = None.
Proof. apply set_arm_births. intros r'. by rewrite lookup_empty. Qed.

Lemma stamp_creation_core st fp mint at_ creator identity tf st' :
  stamp_creation st fp mint at_ creator identity = (tf, st') -> same_core st st'.
Proof.
  unfold stamp_creation, take_prior_launches, take_name_reuse_count. intros Hs.
  repeat (case_match; simplify_eq/=); by split.
Qed.

Lemma same_core_moves st st1 T v st' T' : same_core st st1 -> moves st1 T v st' T' -> moves st T v st' T'.
Proof.
  intros Hc Hm. change v with ([] ++ v). eapply moves_trans; [by apply moves_quiet|exact Hm].
Qed.

Lemma on_token_created_moves st mint fp at_ creator identity st' fx :
  on_token_created st mint fp at_ creator identity = (st', fx) -> event_moves st (reports fx) st'.
Proof.
  unfold on_token_created. intros Hf. destruct (es_tokens st !! mint) as [t|] eqn:Hm;
    [injection Hf as <- <-; by apply event_quiet, same_core_refl|].
  destruct (stamp_creation _ _ _ _ _ _) as [tf st1] eqn:Hc in Hf. apply stamp_creation_core in Hc.
  cbv zeta in Hf. set (token := set_tk_arms _ _) in Hf.
  destruct (evaluate_token st1 token mint at_ false) as [[st2 token2] fx2] eqn:He in Hf. injection Hf as <- <-.
  rewrite reports_app, reports_armed. simpl.
  apply (evaluate_token_moves manual _ _ _ _ _ (es_tokens st)) in He.
  apply (same_core_moves _ _ _ _ _ _ Hc) in He as (Hr & Ht & Hmv). intros L HL.
  destruct (Hmv L) as (L' & Hl & HL').
  { apply (refines_ext manual st _ (es_tokens st)); try done. apply stake_in_no_stakes; [|done].
    intros r. apply births_no_stakes. }
  exists L'. split; [exact Hl|]. apply refines_put_back; by rewrite Ht.
Qed.

Lemma settle_pending_stakes st mint hits l : forall token fx token' fx',
  foldl (settle_pending st mint hits) (token, fx) l = (token', fx') -> reports fx = [] ->
  (forall r, r ∈ l -> token_stake token r = None) ->
  same_stakes token token' /\ reports fx' = [].
Proof.
  induction l as [|r l IH]; intros token fx token' fx' Hf Hfx Hl; [by injection Hf as <- <-|].
  cbn [foldl] in Hf. destruct (settle_pending _ _ _ _ r) as [token1 fx1] eqn:Hs in Hf.
  assert (Hr := Hl r (list_elem_of_here _ _)).
  assert (H1 : same_stakes token token1 /\ reports fx1 = []).
  { unfold settle_pending in Hs. case_match; [|by injection Hs as <- <-]. case_match; [by injection Hs as <- <-|].
    case_match; injection Hs as <- <-.
    - split; [by apply same_stakes_set_arm|]. rewrite reports_app, Hfx. done.
    - split; [|done]. intros r'. unfold token_stake in *; simpl. destruct (decide (r' = r)) as [->|];
        [by rewrite lookup_delete_eq | by rewrite lookup_delete_ne]. }
  destruct H1 as [H1 Hfx1]. apply IH in Hf as [H2 Hfx2]; [|done|].
  - split; [by eapply same_stakes_trans|done].
  - intros r' Hr'. rewrite H1. apply Hl. by right.
Qed.

Lemma on_first_slot_settled_moves st mint buy sell at_ stand_in st' fx :
  on_first_slot_settled st mint buy sell at_ stand_in = (st', fx) -> event_moves st (reports fx) st'.
Proof.
  unfold on_first_slot_settled. intros Hf. destruct (es_tokens st !! mint) as [token|] eqn:Hm;
    [|injection Hf as <- <-; by apply event_quiet, same_core_refl].
  destruct (tk_first_slot_settled token).
  { injection Hf as <- <-. eapply taken_out_moves; [exact Hm|done|]. by apply moves_stakes. }
  cbv zeta in Hf. set (token0 := set_tk_tf _ _) in Hf.
  assert (H0 : tk_arms token0 = tk_arms token) by (subst token0; by destruct stand_in).
  destruct (foldl _ _ _) as [token1 fx1] eqn:Hs in Hf.
  destruct (evaluate_token _ token1 mint at_ false) as [[st2 token2] fx2] eqn:He in Hf. injection Hf as <- <-.
  apply settle_pending_stakes in Hs as [Hs Hfx]; [|done|].
  - rewrite reports_app, Hfx. simpl. eapply taken_out_moves; [exact Hm| |].
    + eapply same_stakes_trans; [by apply same_stakes_arms | exact Hs].
    + by eapply evaluate_token_moves.
  - intros r Hr. apply list_elem_of_fmap in Hr as ([r' a] & -> & Hin).
    apply list_elem_of_In, filter_In in Hin as [Hin Ha]. apply list_elem_of_In, elem_of_entries in Hin.
    cbn [fst]. rewrite (stake_of_arm _ _ _ Hin). simpl in *. by destruct a.
Qed.

Lemma fold_trade_arms token trade : tk_arms (fold_trade token trade) = tk_arms token.
Proof. unfold fold_trade. cbv zeta. by repeat case_match. Qed.

(** What is kept of a token after a sweep has its stakes. *)
Lemma kept_stakes mint token T T0 :
  (forall m r, m <> mint -> stake_in T0 m r = stake_in T m r) -> (forall r, stake_in T0 mint r = None) ->
  forall m r, stake_in (if tk_is_active token then <[mint := token]> T0 else T0) m r =
    stake_in (<[mint := token]> T) m r.
Proof.
  intros Hne Hn m r. rewrite stake_in_insert. destruct (tk_is_active token) eqn:Ha.
  - rewrite stake_in_insert. case_decide; auto.
  - case_decide; [subst; rewrite Hn; by rewrite inactive_no_stakes | auto].
Qed.

Lemma stake_in_same mint token token' T :
  T !! mint = Some token -> same_stakes token token' ->
  forall m r, stake_in (<[mint := token']> T) m r = stake_in T m r.
Proof.
  intros Hm Hs m r. rewrite stake_in_insert. case_decide; [subst|done]. unfold stake_in. rewrite Hm. apply Hs.
Qed.

Lemma refines_set_tokens st X T T' L :
  (forall m r, stake_in T' m r = stake_in T m r) -> refines st T L -> refines (set_es_tokens st X) T' L.
Proof. intros HT. by apply (refines_ext manual st _ T). Qed.

Lemma on_trade_event_moves st mint trade st' fx :
  on_trade_event st mint trade = (st', fx) -> event_moves st (reports fx) st'.
Proof.
  unfold on_trade_event. cbv zeta. intros Hf. destruct (es_tokens st !! mint) as [token|] eqn:Hm.
  2: { injection Hf as <- <-. apply event_quiet. by split. }
  step_triple Hf st1 token1 fx1 He. injection Hf as <- <-.
  apply (evaluate_token_moves manual _ _ _ _ _ (es_tokens st)) in He as (Hr & Ht & Hmv). intros L HL.
  destruct (Hmv L) as (L' & Hl & HL').
  { apply (refines_ext manual st _ (es_tokens st)); try done. eapply stake_in_same; [done|].
    apply same_stakes_arms, fold_trade_arms. }
  exists L'. split; [exact Hl|]. eapply refines_set_tokens; [|exact HL']. simpl.
  intros m r. transitivity (stake_in (if tk_is_active token1 then <[mint := token1]> (delete mint (es_tokens st))
    else delete mint (es_tokens st)) m r); [case_match; [by rewrite insert_delete_eq|done]|].
  apply kept_stakes.
  - intros m' r' Hne. unfold stake_in. by rewrite lookup_delete_ne.
  - intros r'. unfold stake_in. by rewrite lookup_delete_eq.
Qed.

(** *** A tick *)

Lemma tick_fold_moves dense epoch now (l : list (Mint * TokenState)) : forall st kept flag fx T st' kept' flag' fx',
  foldl (tick_token dense epoch now) (st, kept, flag, fx) l = (st', kept', flag', fx') ->
  NoDup l.*1 -> (forall m t, (m, t) ∈ l -> T !! m = Some t /\ kept !! m = None) ->
  (forall m r, m ∉ l.*1 -> stake_in kept m r = stake_in T m r) ->
  exists more T', fx' = fx ++ more /\ moves st T (reports more) st' T' /\
    (forall m r, stake_in kept' m r = stake_in T' m r).
Proof.
  induction l as [|[mint token] l IH]; intros st kept flag fx T st' kept' flag' fx' Hf Hnd Hl Hk.
  { injection Hf as <- <- <- <-. exists [], T. rewrite app_nil_r. split_and!; [done| |].
    - by apply moves_quiet.
    - intros m r. apply Hk. set_solver. }
  cbn [foldl] in Hf. destruct (tick_token _ _ _ _ _) as [[[st1 kept1] flag1] fx1] eqn:Ht in Hf.
  apply NoDup_cons in Hnd as [Hnew Hnd].
  destruct (Hl mint token) as [HT Hfree]; [left|].
  assert (Hrest : forall m t, (m, t) ∈ l -> m <> mint /\ T !! m = Some t /\ kept !! m = None).
  { intros m t Hin. split; [|apply Hl; by right]. intros ->. apply Hnew, list_elem_of_fmap. by exists (mint, t). }
  unfold tick_token in Ht. case_match eqn:Hskip.
  - injection Ht as <- <- <- <-. eapply IH in Hf as (more & T' & -> & Hm & Hk'); [|done| |].
    + exists more, T'. done.
    + intros m t Hin. destruct (Hrest m t Hin) as (? & ? & ?). by rewrite lookup_insert_ne.
    + intros m r Hn. rewrite stake_in_insert. case_decide; [subst; unfold stake_in; by rewrite HT|].
      apply Hk. cbn. by intros [?|?]%elem_of_cons.
  - cbv zeta in Ht. step_triple Ht st2 token2 fx2 He. injection Ht as <- <- <- <-.
    apply (evaluate_token_moves manual _ _ _ _ _ T) in He.
    assert (H1 : moves st T (reports fx2) st2 (<[mint := token2]> T)).
    { change (reports fx2) with ([] ++ reports fx2). eapply moves_trans; [|exact He].
      apply moves_quiet; [apply same_core_refl|]. eapply stake_in_same; [done|]. by apply same_stakes_arms. }
    eapply (IH _ _ _ _ (<[mint := token2]> T)) in Hf as (more & T' & -> & Hm & Hk'); [|done| |].
    + exists (fx2 ++ more), T'. rewrite <- app_assoc, reports_app. split_and!; [done| |done].
      by eapply moves_trans.
    + intros m t Hin. destruct (Hrest m t Hin) as (? & ? & ?). rewrite lookup_insert_ne by done.
      split; [done|]. case_match; [by rewrite lookup_insert_ne|done].
    + intros m r Hn. destruct (decide (m = mint)) as [->|Hne].
      * rewrite stake_in_insert, decide_True by done. destruct (tk_is_active token2) eqn:Ha.
        -- by rewrite stake_in_insert, decide_True.
        -- unfold stake_in. rewrite Hfree. by rewrite inactive_no_stakes.
      * rewrite stake_in_insert, decide_False by done.
        transitivity (stake_in kept m r); [case_match; [by rewrite stake_in_insert, decide_False|done]|].
        apply Hk. cbn. by intros [?|?]%elem_of_cons.
Qed.

Lemma on_tick_moves st now st' fx : on_tick st now = (st', fx) -> event_moves st (reports fx) st'.
Proof.
  unfold on_tick. cbv zeta. intros Hf. set (st0 := set_es_dupe_guard st _) in Hf.
  case_match; [injection Hf as <- <-; apply event_quiet; by split|].
  destruct (foldl _ _ _) as [[[st1 kept] flag] fx1] eqn:Ht in Hf. injection Hf as <- <-.
  eapply (tick_fold_moves _ _ _ _ _ _ _ _ (es_tokens st)) in Ht as (more & T' & -> & (Hr & _ & Hm) & Hk).
  - intros L HL. destruct (Hm L) as (L' & Hl & HL'); [by apply (refines_ext manual st _ (es_tokens st))|].
    exists L'. split; [exact Hl|]. eapply refines_set_tokens; [exact Hk|].
    by apply (refines_ext manual st1 _ T').
  - apply keys_NoDup.
  - intros m t Hin. apply elem_of_entries in Hin. split; [done|]. apply lookup_empty.
  - intros m r Hn. unfold stake_in. rewrite lookup_empty. simpl.
    destruct (es_tokens st !! m) as [t|] eqn:Hm; [|done]. destruct Hn.
    apply list_elem_of_fmap. exists (m, t). split; [done|]. by apply elem_of_entries.
Qed.

(** *** The operator's events and the reloads *)

Lemma refines_position_book st T L q :
  refines st T L -> is_Some (es_positions st !! q) <-> is_Some (lg_book L !! q).
Proof. intros HR. by rewrite (rf_positions _ _ _ _ HR), lookup_fmap, fmap_is_Some. Qed.

Lemma set_manual_exit_dom st p r e q :
  is_Some (es_manual_rules (set_manual_exit st p r e) !! q) -> q = p \/ is_Some (es_manual_rules st !! q).
Proof.
  unfold set_manual_exit. repeat case_match; simpl;
    rewrite ?lookup_insert_is_Some', ?lookup_delete_is_Some; naive_solver.
Qed.

Lemma on_set_manual_exit_moves st position exit : event_moves st [] (on_set_manual_exit st position exit).
Proof.
  intros L HL. exists L. split; [constructor|]. unfold on_set_manual_exit.
  destruct (es_positions st !! position) as [pref|] eqn:Hp; [|done].
  assert (Hc : forall x, es_positions (set_manual_exit st position x exit) = es_positions st /\
    es_tokens (set_manual_exit st position x exit) = es_tokens st /\
    es_intent_seq (set_manual_exit st position x exit) = es_intent_seq st /\
    es_position_seq (set_manual_exit st position x exit) = es_position_seq st /\
    es_counters (set_manual_exit st position x exit) = es_counters st)
    by (intros x; unfold set_manual_exit; by repeat case_match).
  destruct (Hc (pr_rule pref)) as (E1 & E2 & E3 & E4 & E5).
  split; [|rewrite E1; apply (rf_positions _ _ _ _ HL)|rewrite E3; apply (rf_intents _ _ _ _ HL)
          |rewrite E4; apply (rf_seq _ _ _ _ HL)| | |apply (rf_ok _ _ _ _ HL)].
  - intros m r p ph. rewrite E2. apply (rf_stakes _ _ _ _ HL).
  - intros q [-> |Hq]%set_manual_exit_dom; [|by apply (rf_manual _ _ _ _ HL)].
    apply (refines_position_book _ _ _ _ HL). by rewrite Hp.
  - intros r Hr. unfold counters_of. rewrite E5. by apply (rf_open _ _ _ _ HL).
Qed.

Lemma on_manual_buy_moves st mint rule lamports at_ exit st' fx :
  manual rule = true ->
  on_manual_buy st mint rule lamports at_ exit = (st', fx) -> event_moves st (reports fx) st'.
Proof.
  unfold on_manual_buy. cbv zeta. intros Hman Hf.
  case_match; [injection Hf as <- <-; by apply event_quiet, same_core_refl|].
  set (st0 := match es_tokens st !! mint with Some _ => _ | None => _ end) in Hf.
  assert (Hfresh : forall L, refines st (es_tokens st) L -> refines st0 (es_tokens st0) L).
  { intros L HL. subst st0. destruct (es_tokens st !! mint) eqn:Hm; [done|].
    eapply refines_set_tokens; [|exact HL]. simpl. by apply stake_in_arms. }
  assert (Hrules : es_rules st0 = es_rules st) by (subst st0; by case_match).
  intros L HL. apply Hfresh in HL. rewrite <- Hrules. clearbody st0. clear st Hfresh Hrules.
  destruct (es_tokens st0 !! mint) as [token|] eqn:Hm; [|injection Hf as <- <-; exists L; split; [constructor|done]].
  case_match eqn:Harm; [injection Hf as <- <-; exists L; split; [constructor|done]|].
  cbn in Hf. injection Hf as <- <-. simpl.
  assert (Hst : token_stake token rule = None).
  { unfold token_stake. by destruct (tk_arms token !! rule). }
  assert (Hset : forall s p x, es_positions (set_manual_exit s p x exit) = es_positions s /\
    es_tokens (set_manual_exit s p x exit) = es_tokens s /\
    es_intent_seq (set_manual_exit s p x exit) = es_intent_seq s /\
    es_position_seq (set_manual_exit s p x exit) = es_position_seq s /\
    es_counters (set_manual_exit s p x exit) = es_counters s)
    by (intros s p x; unfold set_manual_exit; by repeat case_match).
  match goal with |- context [set_manual_exit ?s ?p ?x exit] =>
    pose proof (set_manual_exit_dom s p x exit) as Hdom;
    destruct (Hset s p x) as (E1 & E2 & E3 & E4 & E5); set (st1 := set_manual_exit s p x exit) in *; clearbody st1 end.
  cbn in E1, E2, E3, E4, E5, Hdom.
  edestruct (refines_open manual st0 (set_es_tokens st1 ∅) (es_tokens st0) mint token
    (set_arm (unsettle token) rule (EntryPending {| i_rule := rule; i_mint := mint; i_seq := es_intent_seq st0 + 1 |}
      (es_position_seq st0 + 1) 1 lamports None 0 None)) rule) as (L' & Hstep & HL');
    [| exact Hst | | | | | | | |exists L'; split; [apply lsteps_one, Hstep|]].
  - apply (refines_ext manual st0 _ (es_tokens st0)); try done. by apply (stake_in_same mint token token).
  - intros r'. rewrite token_stake_set_arm. case_decide; [reflexivity|]. apply (unsettle_stakes token).
  - exact E1.
  - exact Hdom.
  - exact E3.
  - exact E4.
  - intros r' Hr'. unfold counters_of; simpl. rewrite E5.
    destruct (Z.eqb_spec rule r') as [->|]; [congruence|]. lia.
  - by left.
  - eapply (refines_ext manual (set_es_tokens st1 ∅)); [done..| |exact HL'].
    intros m r. simpl. by rewrite E2.
Qed.

Lemma pause_token_stakes incoming mint token :
  same_stakes token (pause_token incoming mint token).1 /\ reports (pause_token incoming mint token).2 = [].
Proof.
  unfold pause_token. cbv zeta. cbn [fst snd]. split; [|apply reports_armed].
  eapply same_stakes_trans; [apply unsettle_stakes|]. apply (filtered_stakes (unsettle token)); [done|].
  intros [r a]. unfold stale_arm; simpl. by destruct a.
Qed.

Lemma restart_open before rules counters r :
  rc_open (unwrap_or (restart_counters before rules counters !! r) RuleCounters_default) =
  rc_open (unwrap_or (counters !! r) RuleCounters_default).
Proof.
  unfold restart_counters. rewrite map_lookup_imap. destruct (counters !! r); simpl; [|done]. by case_match.
Qed.

Lemma on_rules_reloaded_moves st rules fps own st' fx :
  on_rules_reloaded st rules fps own = (st', fx) -> event_moves st (reports fx) st'.
Proof.
  unfold on_rules_reloaded. cbv zeta. set (incoming := foldl _ _ _). set (tokens := list_to_map _).
  assert (Ht : forall m, tokens !! m = (fun t => (pause_token incoming m t).1) <$> es_tokens st !! m).
  { intros m. unfold tokens. rewrite <- list_fmap_compose.
    apply (lookup_map_entries (fun m t => (pause_token incoming m t).1)). }
  clearbody tokens. intros Hf. injection Hf as <- <-. intros L HL. exists L. split.
  - replace (reports _) with (@nil Report); [constructor|]. symmetry.
    induction (entries (es_tokens st)) as [|e l IH]; [done|]. cbn. rewrite reports_app, IH, app_nil_r.
    apply pause_token_stakes.
  - eapply (refines_ext manual st _ (es_tokens st)); [done..| | |exact HL].
    + intros r. unfold counters_of. apply restart_open.
    + intros m r. unfold reload, stake_in. cbn. rewrite lookup_fmap.
      cbn. rewrite Ht. destruct (es_tokens st !! m) as [t|]; [|done]. apply pause_token_stakes.
Qed.

(** ** One event, and a stream *)

(** A manual buy carries an id [manual] marks. *)
Definition manual_event (e : Event TagDoc) : Prop :=
  match e with ManualBuy _ rule _ _ _ => manual rule = true | _ => True end.

Lemma event_moves_core st st0 v st' : same_core st st0 -> event_moves st0 v st' -> event_moves st v st'.
Proof.
  intros Hc Hm L HL. destruct (event_quiet st st0 Hc L HL) as (L' & Hl & HL').
  assert (HL0 : refines st0 (es_tokens st0) L).
  { destruct Hc. apply (refines_ext manual st st0 (es_tokens st)); try done; [|congruence].
    intros r. unfold counters_of. congruence. }
  destruct (Hm L HL0) as (L2 & Hl2 & HL2). rewrite (sc_rules _ _ Hc) in Hl2. eauto.
Qed.

Lemma reduce_moves st e st' fx :
  manual_event e -> reduce st e = (st', fx) -> event_moves st (reports fx) st'.
Proof.
  intros He Hr. unfold reduce in Hr. set (st0 := if is_tick e then st else _) in Hr.
  apply (event_moves_core _ st0); [subst st0; by case_match|]. clearbody st0.
  destruct e; simpl in He.
  - by apply on_token_created_moves in Hr.
  - by apply on_first_slot_settled_moves in Hr.
  - by apply on_trade_event_moves in Hr.
  - by apply on_tick_moves in Hr.
  - by apply on_fill_confirmed_moves in Hr.
  - by apply on_fill_failed_moves in Hr.
  - by apply on_migrated_moves in Hr.
  - by apply on_rules_reloaded_moves in Hr.
  - injection Hr as <- <-. apply event_quiet. by split.
  - injection Hr as <- <-. apply event_quiet. by split.
  - by apply on_manual_buy_moves in Hr.
  - injection Hr as <- <-. apply on_set_manual_exit_moves.
  - by apply on_manual_close_moves in Hr.
  - by apply on_externally_cleared_moves in Hr.
Qed.

Lemma reduce_all_moves es : forall st L,
  Forall manual_event es -> refines st (es_tokens st) L ->
  exists L', lsteps (fun _ _ => True) L (reports (reduce_all st es).2) L' /\
    refines (reduce_all st es).1 (es_tokens (reduce_all st es).1) L'.
Proof.
  induction es as [|e es IH]; intros st L Hm HL; [exists L; split; [constructor|done]|].
  apply Forall_cons in Hm as [He Hm]. cbn [reduce_all].
  destruct (reduce st e) as [st1 fx1] eqn:Hr. destruct (reduce_moves _ _ _ _ He Hr L HL) as (L1 & Hl & HL1).
  specialize (IH st1 L1 Hm HL1). destruct (reduce_all st1 es) as [st2 fx2]. destruct IH as (L2 & Hl2 & HL2).
  exists L2. split; [|done]. cbn [fst snd]. rewrite reports_app. eapply lsteps_app; [|done].
  by eapply lsteps_allow, Hl.
Qed.

Lemma new_refines : refines EngineState_new ∅ empty_ledger.
Proof.
  split; simpl; [|done|done|done|by intros p []|done|apply empty_ledger_ok].
  intros m r p ph. unfold stake_in. rewrite !lookup_empty. split; [done|].
  done.
Qed.
End fold.
