(* ===== verification/FoldProps.v ===== *)
(** * FoldProps: what the fold guarantees about positions and orders

    The theorems about [reduce] that follow from its refinement of the ledger. *)

From S2P Require Export LedgerFold Scenario.

(** ** The concurrent cap over a stream of events

    Only a reload changes the loaded rules, and every rule a reload loads carries the cap
    its row names; so a rule's open positions stay within the largest cap it was ever
    loaded with. *)

(** ** One rule's positions over ledger steps *)

Lemma lstep_cap allow L v L' r n :
  lstep allow L v L' -> ledger_ok L -> (forall k, allow r k -> k < n) ->
  open_count (lg_book L) r <= n -> open_count (lg_book L') r <= n.
Proof.
  intros Hs HL Ha Hn.
  destruct Hs as [m r' pos i p Hnew Hal|p pos i k Hb Hph ?|p pos i k Hb Hph|p pos i k Hb Hph|p pos Hb Hph
    |p pos i k Hb Hph|p pos i k Hb Hph ?|p pos i k Hb Hph|p pos Hb Hph|p pos i k Hb Hph|p pos i k s Hb Hph ?].
  2-7: simpl; by rewrite open_count_rephase.
  2-5: simpl; rewrite (open_count_delete _ _ pos) by done; case_match; lia.
  simpl. rewrite open_count_insert.
  - simpl. destruct (Z.eqb_spec r' r) as [->|]; [specialize (Ha _ Hal); lia|lia].
  - destruct (lg_book L !! p) as [q|] eqn:Hq; [|done]. apply (ok_ids _ HL) in Hq. lia.
Qed.

Lemma lsteps_cap allow L v L' r n :
  lsteps allow L v L' -> ledger_ok L -> (forall k, allow r k -> k < n) ->
  open_count (lg_book L) r <= n -> open_count (lg_book L') r <= n.
Proof.
  induction 1 as [|L1 v1 L2 v2 L3 H1 H2 IH]; intros HL Ha Hn; [done|].
  apply IH; [by eapply lstep_ok|done|by eapply lstep_cap].
Qed.

Section caps.
Context `{TrackOps}.
Implicit Types (st : EngineState) (token : TokenState).

(** ** The loaded rules *)

Lemma evaluate_rules st token mint now b st' token' fx :
  evaluate_token st token mint now b = (st', token', fx) -> es_rules st' = es_rules st.
Proof. intros He. by destruct (evaluate_token_moves (fun _ => true) _ _ _ _ _ ∅ _ _ _ He) as (Hr & _ & _). Qed.

Lemma put_back_rules st mint token : es_rules (put_back st mint token) = es_rules st.
Proof. unfold put_back. by case_match. Qed.

Lemma fill_entry_rules st token mint rule intent position followed stage owed fill st' token' fx :
  fill_entry st token mint rule intent position followed stage owed fill = (st', token', fx) -> es_rules st' = es_rules st.
Proof.
  unfold fill_entry. destruct owed as [o|]; [destruct (ow_bps o)|]; intros Hf; by injection Hf as <- <- <-.
Qed.

Lemma fill_exit_rules st token mint rule intent reason portion h go fill st' token' fx :
  fill_exit st token mint rule intent reason portion h go fill = (st', token', fx) -> es_rules st' = es_rules st.
Proof.
  unfold fill_exit. destruct (is_partial portion); intros Hf; [by injection Hf as <- <- <-|]. cbv zeta in Hf.
  destruct (rearm_after_close _ _ _ _ _). by injection Hf as <- <- <-.
Qed.

Lemma fail_entry_rules st token mint rule intent position attempts lamports followed stage owed reason at_ st' token' fx :
  fail_entry st token mint rule intent position attempts lamports followed stage owed reason at_ = (st', token', fx) ->
  es_rules st' = es_rules st.
Proof.
  unfold fail_entry. cbv zeta. intros Hf. case_match; [by injection Hf as <- <- <-|].
  case_match; by injection Hf as <- <- <-.
Qed.

Lemma fail_exit_rules st token mint rule intent er attempts portion h go reason st' token' fx :
  fail_exit st token mint rule intent er attempts portion h go reason = (st', token', fx) -> es_rules st' = es_rules st.
Proof.
  unfold fail_exit. cbv zeta. intros Hf. repeat (case_match; [by injection Hf as <- <- <-|]). by injection Hf as <- <- <-.
Qed.

Lemma set_manual_exit_rules st p r e : es_rules (set_manual_exit st p r e) = es_rules st.
Proof. unfold set_manual_exit. destruct e as [x|]; [|done]. by case_match. Qed.

Lemma tick_fold_rules dense epoch now l : forall st kept b fx st' kept' b' fx',
  foldl (tick_token dense epoch now) (st, kept, b, fx) l = (st', kept', b', fx') -> es_rules st' = es_rules st.
Proof.
  induction l as [|[mint token] l IH]; intros st kept b fx st' kept' b' fx' Hf; [by injection Hf as <- <- <- <-|].
  cbn [foldl] in Hf. unfold tick_token at 2 in Hf. case_match; [by eapply IH|]. cbv zeta in Hf.
  destruct (evaluate_token _ _ _ _ _) as [[st1 token1] fx1] eqn:He. apply evaluate_rules in He.
  apply IH in Hf. congruence.
Qed.

(** Only a reload changes the loaded rules. *)
Lemma reduce_rules st e :
  match e with RulesReloaded _ _ _ => True | _ => es_rules (reduce st e).1 = es_rules st end.
Proof.
  unfold reduce. set (st0 := if is_tick e then st else _).
  assert (H0 : es_rules st0 = es_rules st) by (subst st0; by case_match). rewrite <- H0. clearbody st0. clear H0 st.
  destruct e; try done.
  - unfold on_token_created. case_match; [done|]. cbv zeta. destruct (stamp_creation _ _ _ _ _ _) as [tf st1] eqn:Hs.
    apply stamp_creation_core, sc_rules in Hs.
    destruct (evaluate_token _ _ _ _ _) as [[st2 token] fx] eqn:He. apply evaluate_rules in He. simpl.
    rewrite put_back_rules. congruence.
  - unfold on_first_slot_settled. case_match; [|done]. cbv zeta. case_match; [simpl; by rewrite put_back_rules|].
    destruct (foldl _ _ _) as [token fx]. destruct (evaluate_token _ _ _ _ _) as [[st2 token'] fx'] eqn:He.
    apply evaluate_rules in He. simpl. by rewrite put_back_rules.
  - unfold on_trade_event. cbv zeta. case_match; [|done].
    destruct (evaluate_token _ _ _ _ _) as [[st2 token'] fx'] eqn:He. by apply evaluate_rules in He.
  - unfold on_tick. cbv zeta. case_match; [done|].
    destruct (foldl _ _ _) as [[[st1 kept] b] fx] eqn:Hf. by apply tick_fold_rules in Hf.
  - unfold on_fill_confirmed. cbv zeta. case_match; [|done].
    match goal with |- context [let '(_, _) := ?x in _] => destruct x as [[st1 token] fx] eqn:Hx end. simpl.
    rewrite put_back_rules. repeat case_match; try (by injection Hx as <- <- <-);
      [apply fill_entry_rules in Hx|apply fill_exit_rules in Hx]; done.
  - unfold on_fill_failed. cbv zeta. case_match; [|done].
    match goal with |- context [let '(_, _) := ?x in _] => destruct x as [[st1 token] fx] eqn:Hx end. simpl.
    rewrite put_back_rules. repeat case_match; try (by injection Hx as <- <- <-);
      [apply fail_entry_rules in Hx|apply fail_exit_rules in Hx]; done.
  - unfold on_migrated. cbv zeta. case_match; [|done]. simpl. by rewrite put_back_rules.
  - unfold on_manual_buy. destruct (lamports =? 0); [done|]. cbv zeta.
    destruct (es_tokens st0 !! mint) as [t0|] eqn:Hm.
    + rewrite Hm. case_match; [done|]. simpl. by rewrite set_manual_exit_rules.
    + case_match; [|done]. case_match; [done|]. simpl. by rewrite set_manual_exit_rules.
  - simpl. unfold on_set_manual_exit. case_match; [|done]. apply set_manual_exit_rules.
  - unfold on_manual_close. cbv zeta. do 2 (case_match; [|done]).
    match goal with |- context [let '(_, _) := ?x in _] => destruct x as [[st1 token] fx] eqn:Hx end. simpl.
    rewrite put_back_rules. repeat case_match; by injection Hx as <- <- <-.
  - unfold on_externally_cleared. cbv zeta. do 2 (case_match; [|done]).
    match goal with |- context [let '(_, _) := ?x in _] => destruct x as [[st1 token] fx] eqn:Hx end. simpl.
    rewrite put_back_rules. repeat case_match; by injection Hx as <- <- <-.
Qed.

(** What a reload loads: some row of its list, compiled. *)
Lemma reload_rules st rules fps own r c :
  es_rules (on_rules_reloaded st rules fps own).1 !! r = Some c ->
  exists lr, lr ∈ rules /\ lr_id lr = r /\ c = compile lr.
Proof.
  unfold on_rules_reloaded. cbv zeta. simpl. unfold reload. cbn.
  cut (forall m : gmap RuleId CompiledRule, foldl (fun m r => <[lr_id r := compile r]> m) m rules !! r = Some c ->
    m !! r = Some c \/ exists lr, lr ∈ rules /\ lr_id lr = r /\ c = compile lr).
  { intros Hc Hr. apply Hc in Hr as [Hr|Hr]; [by rewrite lookup_empty in Hr|done]. }
  induction rules as [|lr rules IH]; intros m Hr; [by left|]. cbn [foldl] in Hr. apply IH in Hr as [Hr|(l & Hl & Hid & ->)].
  - apply lookup_insert_Some in Hr as [[<- <-]|[_ Hr]]; [|by left]. right. exists lr. by split; [left|].
  - right. exists l. by split; [right|].
Qed.

Lemma compile_cap lr : cr_concurrent_cap (compile lr) = concurrent_cap_of lr.
Proof. unfold compile. cbv zeta. by repeat match goal with |- context [let '(_, _) := ?x in _] => destruct x end. Qed.

(** An event that never lets rule [r] past [n]: it loads [r] with no larger cap, and it
    is no manual buy of [r]. *)
Definition cap_event (r : RuleId) (n : Z) (e : Event TagDoc) : Prop :=
  match e with
  | RulesReloaded rules _ _ => Forall (fun lr => lr_id lr = r -> concurrent_cap_of lr <= n) rules
  | ManualBuy _ rule _ _ _ => rule <> r
  | _ => True
  end.

Definition capped st (r : RuleId) (n : Z) : Prop := forall c, es_rules st !! r = Some c -> cr_concurrent_cap c <= n.

Lemma reduce_capped st e r n : cap_event r n e -> capped st r n -> capped (reduce st e).1 r n.
Proof.
  intros He Hc c Hr. pose proof (reduce_rules st e) as Hk.
  destruct e; try (rewrite Hk in Hr; by apply Hc). clear Hk. simpl in He.
  change (reduce st _) with (on_rules_reloaded (set_es_all_settled_at st None) rules fps own_wallets) in Hr.
  apply reload_rules in Hr as (lr & Hin & Hid & ->). rewrite compile_cap. rewrite Forall_forall in He. by apply He.
Qed.

Lemma reduce_all_caps es r n : forall st L,
  let manual := fun x => negb (x =? r) in
  Forall (cap_event r n) es -> capped st r n -> refines manual st (es_tokens st) L -> open_count (lg_book L) r <= n ->
  exists L', refines manual (reduce_all st es).1 (es_tokens (reduce_all st es).1) L' /\ open_count (lg_book L') r <= n.
Proof.
  intros st L manual. revert st L. induction es as [|e es IH]; intros st L Hes Hc HL Hn; [by exists L|].
  apply Forall_cons in Hes as [He Hes]. cbn [reduce_all]. destruct (reduce st e) as [st1 fx1] eqn:Hr.
  assert (Hm : manual_event manual e) by (destruct e; try done; simpl in *; unfold manual; lia).
  destruct (reduce_moves _ _ _ _ _ Hm Hr L HL) as (L1 & Hs & HL1).
  assert (Hn1 : open_count (lg_book L1) r <= n).
  { eapply lsteps_cap; [exact Hs|apply (rf_ok _ _ _ _ HL)| |done]. intros k [Hk|(c & Hk & _ & Hlt)].
    - unfold manual in Hk. lia.
    - specialize (Hc _ Hk). lia. }
  assert (Hc1 : capped st1 r n) by (pose proof (reduce_capped st e r n He Hc) as H1; by rewrite Hr in H1).
  specialize (IH st1 L1 Hes Hc1 HL1 Hn1). by destruct (reduce_all st1 es).
Qed.
End caps.

(** The ids of a rule's open positions, counted. *)
Definition positions_of (positions : gmap PositionId PositionRef) (r : RuleId) : Z :=
  Z.of_nat (size (filter (fun e : PositionId * PositionRef => pr_rule e.2 = r) positions)).

Lemma positions_of_book (b : gmap PositionId Pos) r :
  positions_of ((fun pos => {| pr_mint := po_mint pos; pr_rule := po_rule pos |}) <$> b) r = open_count b r.
Proof. unfold positions_of, open_count. by rewrite map_filter_fmap, map_size_fmap. Qed.

Section props.
Context `{TrackOps}.

(** A run of the engine shadowed by a ledger: each event is ledger steps that report its
    effects, and the states agree after it. *)
Inductive follows (manual : RuleId -> bool) : EngineState -> Ledger -> list (Event TagDoc) -> EngineState -> Ledger -> Prop :=
  | follows_nil st L : follows manual st L [] st L
  | follows_cons st L e L1 es st' L' :
      lsteps (allow_of manual (es_rules st)) L (reports (reduce st e).2) L1 ->
      refines manual (reduce st e).1 (es_tokens (reduce st e).1) L1 ->
      follows manual (reduce st e).1 L1 es st' L' ->
      follows manual st L (e :: es) st' L'.

Implicit Types (st : EngineState) (es : list (Event TagDoc)).

Lemma stream_refines es :
  exists L, lsteps (fun _ _ => True) empty_ledger (reports (reduce_all EngineState_new es).2) L /\
    refines (fun _ => true) (reduce_all EngineState_new es).1 (es_tokens (reduce_all EngineState_new es).1) L.
Proof.
  apply reduce_all_moves; [|apply new_refines]. apply Forall_forall. by intros [] _.
Qed.

(** C1: the fold implements the ledger over any stream of events from a new engine, where
    [manual] marks the rules an operator buys by hand in it.  The new engine agrees with the
    empty ledger, and event by event the engine's state agrees with the ledger reached (each
    stake of an arm is a position of its book, and the reverse index, the one-off exits, the
    open counters and the generators match), through ledger steps whose reports are exactly
    the effects the event emits.  A rule opens a position only while it is loaded,
    entry-enabled and below its concurrent cap, or by an operator's manual buy. *)
Theorem reduce_refines_ledger manual es : Forall (manual_event manual) es ->
  refines manual EngineState_new (es_tokens EngineState_new) empty_ledger /\
  exists L, follows manual EngineState_new empty_ledger es (reduce_all EngineState_new es).1 L.
Proof.
  intros He. split; [apply new_refines|]. pose proof (new_refines manual) as HL.
  change ∅ with (es_tokens EngineState_new) in HL. revert HL. generalize EngineState_new, empty_ledger.
  induction He as [|e es He Hes IH]; intros st L HL; [exists L; constructor|]. cbn [reduce_all].
  destruct (reduce_moves manual st e _ _ He (surjective_pairing _) L HL) as (L1 & Hs & HL1).
  destruct (IH _ _ HL1) as [L' HF]. exists L'. pose proof (follows_cons manual st L e L1 es _ _ Hs HL1 HF) as HC.
  destruct (reduce st e) as [st1 fx1]. cbn [fst] in *. by destruct (reduce_all st1 es).
Qed.

(** C2: over any stream of events from a new engine, a rule that is only ever loaded with
    a concurrent cap of at most [n] and never bought by hand holds at most [n] positions
    at once, across all coins, reloads, failures and retries. *)
Theorem open_positions_within_cap es r n :
  0 <= n -> Forall (cap_event r n) es -> positions_of (es_positions (reduce_all EngineState_new es).1) r <= n.
Proof.
  intros Hn Hes. destruct (reduce_all_caps es r n EngineState_new empty_ledger) as (L & HL & Hc); [done| |apply new_refines|done|].
  - intros c Hc. simpl in Hc. by rewrite lookup_empty in Hc.
  - rewrite (rf_positions _ _ _ _ HL), positions_of_book. exact Hc.
Qed.

(** C3: over any stream of events from a new engine, the arms that hold a position and
    the open positions are one and the same set: an arm of rule [r] on coin [m] owns
    position [p] exactly when [p] is indexed under [(m, r)].  In particular no two arms
    own one position, no position is orphaned, and a manual exit is only kept for an
    open position. *)
Theorem arms_own_positions es :
  let st := (reduce_all EngineState_new es).1 in
  (forall m r p,
    (exists token arm, es_tokens st !! m = Some token /\ tk_arms token !! r = Some arm /\ arm_position arm = Some p)
    <-> es_positions st !! p = Some {| pr_mint := m; pr_rule := r |}) /\
  (forall p, is_Some (es_manual_rules st !! p) -> is_Some (es_positions st !! p)).
Proof.
  destruct (stream_refines es) as (L & _ & HR). cbv zeta. split.
  - intros m r p. rewrite (rf_positions _ _ _ _ HR), lookup_fmap. split.
    + intros (token & arm & Ht & Ha & Hp). rewrite <- arm_stake_position in Hp.
      destruct (arm_stake arm) as [[q ph]|] eqn:Hs; [|done]. injection Hp as ->.
      assert (Hst : stake_in (es_tokens (reduce_all EngineState_new es).1) m r = Some (p, ph))
        by (unfold stake_in, token_stake; rewrite Ht; simpl; by rewrite Ha).
      by rewrite (proj1 (rf_stakes _ _ _ _ HR _ _ _ _) Hst).
    + intros Hp. destruct (lg_book L !! p) as [[m' r' ph]|] eqn:Hb; [|done]. injection Hp as -> ->.
      apply (rf_stakes _ _ _ _ HR) in Hb. unfold stake_in, token_stake in Hb.
      destruct (es_tokens _ !! m) as [token|]; [simpl in Hb|done].
      destruct (tk_arms token !! r) as [arm|] eqn:Ha; [simpl in Hb|done].
      exists token, arm. split_and!; [done..|]. by rewrite <- arm_stake_position, Hb.
  - intros p Hp. apply (refines_position_book _ _ _ _ _ HR). by apply (rf_manual _ _ _ _ HR).
Qed.

(** Over any stream of events from a new engine, the orders submitted are numbered
    1, 2, 3, ... in the order they are emitted: no intent id is skipped, reused or
    emitted twice, and the counter is the number of orders sent. *)
Theorem intents_are_consecutive es :
  let '(st, fx) := reduce_all EngineState_new es in
  i_seq <$> intents (reports fx) = seqZ 1 (es_intent_seq st) /\
  NoDup (intents (reports fx)) /\
  es_intent_seq st = Z.of_nat (length (intents (reports fx))).
Proof.
  destruct (stream_refines es) as (L & Hs & HR). destruct (reduce_all _ _) as [st fx]. simpl in *.
  pose proof (rf_intents _ _ _ _ HR) as Hi. apply lsteps_intents in Hs as [H1 H2]. simpl in *.
  rewrite Z.sub_0_r in H1. rewrite Hi. split_and!; [done|by eapply seqZ_seq_inj|lia].
Qed.

(** C4: over any stream of events from a new engine, what is reported of each position
    is a legal life: bought once, then a failed entry or a holding; sells are sent only
    while the bag is held or being sold, never before the buy is confirmed and never
    after the end; and a partial sell returns it to holding. *)
Theorem positions_live_legally es p :
  let '(st, fx) := reduce_all EngineState_new es in
  exists l, live (marks p (reports fx)) (Some LNew) = Some l /\
    (es_positions st !! p = None -> l = LOver \/ (l = LNew /\ ~ 1 <= p <= es_position_seq st)) /\
    (is_Some (es_positions st !! p) -> l = LBuying \/ l = LHeld \/ l = LSelling).
Proof.
  destruct (stream_refines es) as (L & Hs & HR). destruct (reduce_all _ _) as [st fx]. simpl in *.
  exists (life_of L p). pose proof (lsteps_life _ _ _ _ p Hs empty_ledger_ok) as Hl.
  assert (H0 : life_of empty_ledger p = LNew) by (unfold life_of; simpl; rewrite lookup_empty;
    by destruct (Z.leb_spec 1 p), (Z.leb_spec p 0); simpl; try done; lia).
  rewrite H0 in Hl. split; [exact Hl|]. rewrite (rf_positions _ _ _ _ HR), lookup_fmap, (rf_seq _ _ _ _ HR).
  unfold life_of. destruct (lg_book L !! p) as [pos|]; simpl.
  - split; [done|]. intros _. destruct (po_phase pos); simpl; auto.
  - split; [|by intros []]. intros _. destruct (Z.leb_spec 1 p), (Z.leb_spec p (lg_positions L)); simpl;
      auto; right; split; done || lia.
Qed.

(** C5: over any stream of events from a new engine, a (coin, rule) sends at most
    three buys per position it opened, and a position sends at most five sells per
    exit it was put into: the retry ladders are bounded. *)
Theorem retries_are_bounded es m r p :
  let fx := (reduce_all EngineState_new es).2 in
  count (is_buy_of m r) (reports fx) <= 3 * count (is_open_of m r) (reports fx) /\
  count (is_sell_of p) (reports fx) <= 5 * count (is_exit_of p) (reports fx).
Proof.
  destruct (stream_refines es) as (L & Hs & _). cbv zeta.
  destruct (lsteps_budgets _ _ _ Hs) as (_ & Hb & Hse). split; [apply Hb | apply Hse].
Qed.
End props.

(** A rule's buy and an operator's, as ledger steps. *)
Definition demo_bought : list (Event Value) := [demo_load; demo_create; demo_print; ManualBuy "MintB" 9 1000 (sec 13) None].

Lemma reduce_refines_ledger_witness :
  length (reports (demo_run demo_bought).2) = 4%nat /\
  refines (H := token_track) (fun r => r =? 9) EngineState_new (es_tokens EngineState_new) empty_ledger /\
  exists L, follows (H := token_track) (fun r => r =? 9) EngineState_new empty_ledger demo_bought (demo_run demo_bought).1 L.
Proof.
  split; [vm_compute; reflexivity|]. apply (reduce_refines_ledger (H := token_track) (fun r => r =? 9) demo_bought).
  repeat constructor.
Defined.

(** Two coins under a cap of one: the second print buys nothing. *)
Definition demo_two_coins : list (Event Value) :=
  [demo_load; demo_create; TokenCreated "MintB" TokenFingerprint_default (sec 0) None None None; demo_print;
   Trade "MintB" (demo_trade Buy 2 100 12)].

Lemma open_positions_within_cap_witness :
  length (reports (demo_run demo_two_coins).2) = 2%nat /\ positions_of (es_positions (demo_run demo_two_coins).1) 1 <= 1.
Proof.
  split; [vm_compute; reflexivity|]. apply (open_positions_within_cap (H := token_track) demo_two_coins 1 1); [done|].
  repeat constructor; vm_compute; done.
Defined.
