(* ===== verification/FillProps.v ===== *)
(** * FillProps: what the executor's reports do

    The theorems about [FillConfirmed] and [FillFailed]: a report nobody waits for changes
    nothing, a confirmation is consumed once, a closing fill closes and re-arms, and each
    way a sell can fail. *)

From S2P Require Export FoldProps Scenario.

(** The intent an arm waits for. *)
Definition pending_of (a : ArmState) : option IntentId :=
  match a with EntryPending i _ _ _ _ _ _ | ExitPending i _ _ _ _ _ => Some i | _ => None end.

Section fills.
Context `{TrackOps}.
Implicit Types (st : EngineState) (token : TokenState).

(** [reduce] on an event that is no tick. *)
Definition opened st : EngineState := set_es_all_settled_at st None.

(** The state after a report nobody acted on: the coin's settle memo is cleared, and a coin
    without active arms is let go. *)
Definition untouched st (mint : Mint) : EngineState :=
  match es_tokens st !! mint with
  | None => opened st
  | Some token => put_back (take_out (opened st) mint) mint (unsettle token)
  end.

Definition waits_for st (i : IntentId) : bool :=
  is_some_and (es_tokens st !! i_mint i)
    (fun token => is_some_and (tk_arms token !! i_rule i) (fun a => bool_decide (pending_of a = Some i))).

(** A confirmation or a failure of an order no arm waits for (a duplicate report, a
    report of a superseded retry, a coin the engine let go) emits nothing and leaves every
    arm, position, counter and generator as it was. *)
Theorem unexpected_report_is_ignored st i fill reason at_ :
  waits_for st i = false ->
  reduce st (FillConfirmed i fill) = (untouched st (i_mint i), []) /\
  reduce st (FillFailed i reason at_) = (untouched st (i_mint i), []).
Proof.
  unfold waits_for, untouched. intros Hw. split; simpl.
  - unfold on_fill_confirmed. cbv zeta. change (es_tokens (set_es_all_settled_at st None)) with (es_tokens st).
    destruct (es_tokens st !! i_mint i) as [token|]; [|done]. simpl in Hw.
    change (tk_arms (unsettle token)) with (tk_arms token).
    destruct (tk_arms token !! i_rule i) as [a|]; [|done]. simpl in Hw.
    apply bool_decide_eq_false in Hw. destruct a; try done; rewrite bool_decide_false; naive_solver.
  - unfold on_fill_failed. cbv zeta. change (es_tokens (set_es_all_settled_at st None)) with (es_tokens st).
    destruct (es_tokens st !! i_mint i) as [token|]; [|done]. simpl in Hw.
    change (tk_arms (unsettle token)) with (tk_arms token).
    destruct (tk_arms token !! i_rule i) as [a|]; [|done]. simpl in Hw.
    apply bool_decide_eq_false in Hw. destruct a; try done; rewrite bool_decide_false; naive_solver.
Qed.

(** ** A confirmation is consumed *)

Lemma not_waiting st token i :
  es_tokens st !! i_mint i = None -> (forall a, tk_arms token !! i_rule i = Some a -> pending_of a <> Some i) ->
  waits_for (put_back st (i_mint i) token) i = false.
Proof.
  intros Ht Ha. unfold waits_for, put_back. case_match; simpl; [rewrite lookup_insert_eq; simpl|by rewrite Ht].
  destruct (tk_arms token !! i_rule i) as [a|]; [|done]. simpl. apply bool_decide_eq_false. by apply Ha.
Qed.

Lemma set_arm_other token r a i : pending_of a <> Some i ->
  forall a', tk_arms (set_arm token r a) !! r = Some a' -> pending_of a' <> Some i.
Proof. intros Ha a'. simpl. rewrite lookup_insert_eq. by intros [= <-]. Qed.

Lemma fill_entry_consumes st token mint rule i position followed stage owed fill st' token' fx :
  i_seq i <= es_intent_seq st ->
  fill_entry st token mint rule i position followed stage owed fill = (st', token', fx) ->
  es_tokens st' = es_tokens st /\ forall a, tk_arms token' !! rule = Some a -> pending_of a <> Some i.
Proof.
  intros Hs. unfold fill_entry. destruct owed as [o|]; [destruct (ow_bps o)|]; intros Hf; injection Hf as <- <- <-;
    (split; [done|]); apply set_arm_other; simpl; try done; intros Heq; injection Heq; intros He; apply (f_equal i_seq) in He;
    simpl in He; lia.
Qed.

Lemma fill_exit_consumes st token mint rule i reason portion h go fill st' token' fx :
  fill_exit st token mint rule i reason portion h go fill = (st', token', fx) ->
  es_tokens st' = es_tokens st /\ forall a, tk_arms token' !! rule = Some a -> pending_of a <> Some i.
Proof.
  unfold fill_exit. destruct (is_partial portion); cbv zeta; intros Hf;
    [injection Hf as <- <- <-; split; [done|]; by apply set_arm_other|].
  destruct (rearm_after_close _ _ _ _ _) as [next episodes] eqn:Hn. injection Hf as <- <- <-. split; [done|].
  apply set_arm_other. unfold rearm_after_close in Hn. repeat case_match; by injection Hn as <- <-.
Qed.

Lemma fail_entry_consumes st token mint rule i position attempts lamports followed stage owed reason at_ st' token' fx :
  i_seq i <= es_intent_seq st ->
  fail_entry st token mint rule i position attempts lamports followed stage owed reason at_ = (st', token', fx) ->
  es_tokens st' = es_tokens st /\ forall a, tk_arms token' !! rule = Some a -> pending_of a <> Some i.
Proof.
  intros Hs. unfold fail_entry. cbv zeta. intros Hf. case_match; [|case_match]; injection Hf as <- <- <-;
    (split; [done|]); apply set_arm_other; simpl; try done. intros Heq; injection Heq; intros He.
  apply (f_equal i_seq) in He. simpl in He. lia.
Qed.

Lemma fail_exit_consumes st token mint rule i er attempts portion h go reason st' token' fx :
  i_seq i <= es_intent_seq st ->
  fail_exit st token mint rule i er attempts portion h go reason = (st', token', fx) ->
  es_tokens st' = es_tokens st /\ forall a, tk_arms token' !! rule = Some a -> pending_of a <> Some i.
Proof.
  intros Hs. unfold fail_exit. cbv zeta. intros Hf.
  repeat (case_match; [injection Hf as <- <- <-; split; [done|]; by apply set_arm_other|]).
  injection Hf as <- <- <-. split; [done|]. apply set_arm_other. simpl. intros Heq; injection Heq; intros He.
  apply (f_equal i_seq) in He. simpl in He. lia.
Qed.

(** An order in flight was issued by the engine's own generator. *)
Lemma in_flight_seq es m r i token a :
  let st := (reduce_all EngineState_new es).1 in
  es_tokens st !! m = Some token -> tk_arms token !! r = Some a -> pending_of a = Some i -> i_seq i <= es_intent_seq st.
Proof.
  cbv zeta. intros Ht Ha Hp. destruct (stream_refines es) as (L & _ & HR). rewrite (rf_intents _ _ _ _ HR).
  assert (Hs : exists p ph, arm_stake a = Some (p, ph) /\ (exists n, ph = Buying i n \/ ph = Selling i n)).
  { destruct a; try done; injection Hp as ->; do 2 eexists; (split; [done|]); eexists; [by left|by right]. }
  destruct Hs as (p & ph & Hs & n & Hph).
  assert (Hst : stake_in (es_tokens (reduce_all EngineState_new es).1) m r = Some (p, ph)) by (unfold stake_in, token_stake; rewrite Ht; simpl; by rewrite Ha).
  apply (rf_stakes _ _ _ _ HR) in Hst. pose proof (ok_phases _ (rf_ok _ _ _ _ HR) _ _ Hst) as Hok.
  unfold phase_ok, pending_ok in Hok. simpl in Hok. destruct Hph; subst; lia.
Qed.

(** What is left of a report's handler: the arm in front of it, and the two that wait. *)
Ltac consume Hx i :=
  match type of Hx with
  | match tk_arms ?t !! _ with _ => _ end = _ =>
      destruct (tk_arms t !! i_rule i) as [a|] eqn:Ha; [|by injection Hx as <- <- <-; rewrite Ha];
      destruct a; try (injection Hx as <- <- <-; rewrite Ha; split; [done|]; intros a' Ha'; by injection Ha' as <-);
      case_bool_decide as Hi;
      try (injection Hx as <- <- <-; rewrite Ha; split; [done|]; intros a' Ha'; injection Ha' as <-; simpl; congruence)
  end.

(** Over any stream of events from a new engine, once an order's confirmation or
    failure has been folded no arm waits for that order any more: a report is consumed at
    most once, whatever it was. *)
Theorem report_is_consumed_once es i fill reason at_ :
  let st := (reduce_all EngineState_new es).1 in
  waits_for (reduce st (FillConfirmed i fill)).1 i = false /\
  waits_for (reduce st (FillFailed i reason at_)).1 i = false.
Proof.
  intros st. simpl. unfold on_fill_confirmed, on_fill_failed. cbv zeta.
  change (es_tokens (set_es_all_settled_at st None)) with (es_tokens st).
  destruct (es_tokens st !! i_mint i) as [token|] eqn:Ht; [|unfold waits_for; simpl; by rewrite Ht]. split;
    match goal with |- context [let '(_, _) := ?x in _] => destruct x as [[st1 token1] fx] eqn:Hx end; simpl;
    (assert (Hc : es_tokens st1 = delete (i_mint i) (es_tokens st) /\
      forall a, tk_arms token1 !! i_rule i = Some a -> pending_of a <> Some i);
    [consume Hx i|destruct Hc as [Ht1 Hc]; apply not_waiting; [rewrite Ht1; apply lookup_delete_eq|exact Hc]]).
  - eapply fill_entry_consumes in Hx; [exact Hx|]. simpl. subst. by eapply in_flight_seq.
  - by eapply fill_exit_consumes in Hx.
  - eapply fail_entry_consumes in Hx; [exact Hx|]. simpl. subst. by eapply in_flight_seq.
  - eapply fail_exit_consumes in Hx; [exact Hx|]. simpl. subst. by eapply in_flight_seq.
Qed.

(** ** A closing fill *)

(** The coin's arm for a rule. *)
Definition arm_at st (mint : Mint) (rule : RuleId) : option ArmState := es_tokens st !! mint ≫= fun t => tk_arms t !! rule.

Lemma arm_at_put_back st token mint rule a :
  es_tokens st !! mint = None -> tk_arms token !! rule = Some a ->
  arm_at (put_back st mint token) mint rule = if tk_is_active token then Some a else None.
Proof.
  intros Ht Ha. unfold arm_at, put_back. case_match; simpl; [by rewrite lookup_insert_eq; simpl|by rewrite Ht].
Qed.

Lemma put_back_positions st mint token : es_positions (put_back st mint token) = es_positions st.
Proof. unfold put_back. by case_match. Qed.

Lemma put_back_seq st mint token : es_intent_seq (put_back st mint token) = es_intent_seq st.
Proof. unfold put_back. by case_match. Qed.

Lemma arm_at_active st token mint rule a :
  es_tokens st !! mint = None -> tk_arms token !! rule = Some a -> arm_is_active a = true ->
  arm_at (put_back st mint token) mint rule = Some a.
Proof.
  intros Ht Ha Hact. rewrite (arm_at_put_back _ _ _ _ a) by done. assert (Hk : tk_is_active token = true); [|by rewrite Hk].
  unfold tk_is_active. apply existsb_exists. exists a. split; [|done]. apply list_elem_of_In, elem_of_values. by exists rule.
Qed.

(** Whether a rule may buy the coin again after a close for [reason] that is its [n]th. *)
Definition may_reenter st (rule : RuleId) (reason : ExitReason) (n : Z) : option ReEntry :=
  match es_rules st !! rule ≫= cr_reentry with
  | Some re => if reason_allows_reentry reason && (n <? re_max_per_coin re) then Some re else None
  | None => None
  end.

Definition arm_after_close st (rule : RuleId) (reason : ExitReason) (n : Z) (at_ : Ts) : ArmState :=
  match may_reenter st rule reason n with
  | Some re => Cooldown (at_ + dur_milliseconds (f_as_i64 (re_cooldown_sec re ⊗ f_of_Z 1000)))
  | None => Done
  end.

Lemma rearm_spec st episodes rule reason at_ :
  (rearm_after_close st episodes rule reason at_).1 =
    arm_after_close st rule reason (unwrap_or (episodes !! rule) 0 + 1) at_.
Proof.
  unfold rearm_after_close, arm_after_close, may_reenter. destruct (es_rules st !! rule ≫= cr_reentry) as [re|]; [|done].
  destruct (reason_allows_reentry reason); [|done]. cbv zeta. simpl.
  destruct (Z.leb_spec (re_max_per_coin re) (unwrap_or (episodes !! rule) 0 + 1)), (Z.ltb_spec (unwrap_or (episodes !! rule) 0 + 1) (re_max_per_coin re)); done || lia.
Qed.

(** The confirmation of a sell of the whole bag ends the position: one report, the
    position and its one-off exit are forgotten, the rule's open count goes down by one,
    and the arm is done, or cools down when the rule re-enters, the exit was the rule's
    own (not dead, manual or migrated) and the coin has episodes left. *)
Theorem closing_fill_ends_the_position st i fill token reason n h go :
  es_tokens st !! i_mint i = Some token ->
  tk_arms token !! i_rule i = Some (ExitPending i reason n PAll h go) ->
  let '(st', fx) := reduce st (FillConfirmed i fill) in
  let next := arm_after_close st (i_rule i) reason (unwrap_or (tk_episodes token !! i_rule i) 0 + 1) (fl_at fill) in
  fx = [position_update (ec_position h) (i_rule i) (i_mint i) StEnd (Some fill) (Some reason) (Some i) None None] /\
  es_positions st' = delete (ec_position h) (es_positions st) /\
  es_manual_rules st' = delete (ec_position h) (es_manual_rules st) /\
  rc_open (counters_of st' (i_rule i)) = sat_sub (rc_open (counters_of st (i_rule i))) 1 /\
  (arm_is_active next = true -> arm_at st' (i_mint i) (i_rule i) = Some next) /\
  (arm_at st' (i_mint i) (i_rule i) = Some next \/ es_tokens st' !! i_mint i = None).
Proof.
  intros Ht Ha. simpl. unfold on_fill_confirmed. cbv zeta.
  change (es_tokens (set_es_all_settled_at st None)) with (es_tokens st). rewrite Ht.
  change (tk_arms (unsettle token)) with (tk_arms token). rewrite Ha, bool_decide_true by done.
  unfold fill_exit. simpl is_partial. cbv iota zeta.
  pose proof (rearm_spec (remove_position (decrement_open (take_out (set_es_all_settled_at st None) (i_mint i)) (i_rule i)) (ec_position h))
    (tk_episodes (unsettle token)) (i_rule i) reason (fl_at fill)) as Hr.
  destruct (rearm_after_close _ _ _ _ _) as [next episodes]. simpl in Hr.
  change (arm_after_close _ _ _ _ _) with
    (arm_after_close st (i_rule i) reason (unwrap_or (tk_episodes token !! i_rule i) 0 + 1) (fl_at fill)) in Hr.
  rewrite <- Hr. clear Hr. set (token' := set_arm _ _ next).
  assert (Ha' : tk_arms token' !! i_rule i = Some next) by apply lookup_insert_eq.
  set (st1 := remove_position _ _).
  assert (Hn : es_tokens st1 !! i_mint i = None) by apply lookup_delete_eq.
  pose proof (arm_at_put_back st1 token' _ _ _ Hn Ha') as Hat.
  split_and!; [done|unfold put_back; by case_match..| | |].
  - unfold put_back. case_match; unfold counters_of; simpl; rewrite lookup_insert_eq; done.
  - intros Hact. by apply arm_at_active.
  - rewrite Hat. case_match; [by left|right]. unfold put_back. replace (tk_is_active token') with false. exact Hn.
Qed.
(** ** A failed sell *)

(** The position [p] is over with [status], its bag abandoned to the operator: no order
    goes out. *)
Definition given_up st st' (fx : list Effect) (i : IntentId) (p : PositionId) (er : ExitReason) (status : PositionStatus) : Prop :=
  fx = [position_update p (i_rule i) (i_mint i) status None (Some er) (Some i) None None] /\
  es_positions st' = delete p (es_positions st) /\
  es_intent_seq st' = es_intent_seq st /\
  (arm_at st' (i_mint i) (i_rule i) = Some Done \/ es_tokens st' !! i_mint i = None).

(** What each failure of a sell leads to.  A sell that may have landed
    ([Unconfirmed]) is never sent again: the position is reported [ExitUnconfirmed] and
    given up.  A fatal failure, or the fifth, gives it up as [ExitStuck].  Any other is
    sent again: one new order for the same portion and reason, under the next intent, the
    attempt counted, everything else as it was. *)
Theorem failed_sell_outcome st i token er n portion h go reason at_ :
  es_tokens st !! i_mint i = Some token ->
  tk_arms token !! i_rule i = Some (ExitPending i er n portion h go) ->
  let '(st', fx) := reduce st (FillFailed i reason at_) in
  match reason with
  | Unconfirmed => given_up st st' fx i (ec_position h) er StExitUnconfirmed
  | Fatal => given_up st st' fx i (ec_position h) er StExitStuck
  | Reverted | Timeout =>
      if 5 <=? n then given_up st st' fx i (ec_position h) er StExitStuck
      else
        let next := {| i_rule := i_rule i; i_mint := i_mint i; i_seq := es_intent_seq st + 1 |} in
        fx = [SubmitSell next (ec_position h) er portion] /\
        arm_at st' (i_mint i) (i_rule i) = Some (ExitPending next er (n + 1) portion h go) /\
        es_positions st' = es_positions st /\ es_intent_seq st' = es_intent_seq st + 1
  end.
Proof.
  intros Ht Ha. simpl. unfold on_fill_failed. cbv zeta.
  change (es_tokens (set_es_all_settled_at st None)) with (es_tokens st). rewrite Ht.
  change (tk_arms (unsettle token)) with (tk_arms token). rewrite Ha, bool_decide_true by done.
  set (st0 := take_out _ _). set (token0 := unsettle token).
  assert (Hgive : forall status, given_up st
    (put_back (remove_position (decrement_open st0 (i_rule i)) (ec_position h)) (i_mint i) (set_arm token0 (i_rule i) Done))
    [position_update (ec_position h) (i_rule i) (i_mint i) status None (Some er) (Some i) None None] i (ec_position h) er status).
  { intros status. set (st1 := remove_position _ _). set (token1 := set_arm _ _ Done).
    assert (Hn : es_tokens st1 !! i_mint i = None) by apply lookup_delete_eq.
    pose proof (arm_at_put_back st1 token1 _ _ _ Hn (lookup_insert_eq _ _ _)) as Hat.
    split_and!; [done|unfold put_back; by case_match..|]. rewrite Hat.
    case_match; [by left|right]. unfold put_back. replace (tk_is_active token1) with false. exact Hn. }
  unfold fail_exit, MAX_EXIT_ATTEMPTS. cbv zeta. destruct reason; simpl; try exact (Hgive _);
    (destruct (5 <=? n); [exact (Hgive _)|]).
  all: split_and!; [done| |by rewrite put_back_positions|by rewrite put_back_seq].
  all: apply arm_at_active; [apply lookup_delete_eq|apply lookup_insert_eq|done].
Qed.
End fills.

(** ** Concrete runs *)

Lemma unexpected_report_is_ignored_witness :
  reduce demo_holding (FillConfirmed (demo_intent 1) (demo_fill 100 12)) = (untouched demo_holding (i_mint (demo_intent 1)), []).
Proof.
  destruct (unexpected_report_is_ignored (H := token_track) demo_holding (demo_intent 1) (demo_fill 100 12) Fatal None) as [Hc _];
    [vm_compute; reflexivity|exact Hc].
Defined.

Lemma closing_fill_ends_the_position_witness :
  (reduce demo_selling demo_sold).2 =
    [position_update 1 1 demo_mint StEnd (Some (demo_fill 160 21)) (Some TakeProfit) (Some (demo_intent 2)) None None] /\
  arm_at (reduce demo_selling demo_sold).1 demo_mint 1 = Some (Cooldown (sec 26)).
Proof.
  assert (Ht : es_tokens demo_selling !! i_mint (demo_intent 2) = Some (demo_token demo_selling))
    by (apply demo_token_spec; vm_compute; reflexivity).
  assert (Ha : tk_arms (demo_token demo_selling) !! i_rule (demo_intent 2) = Some (ExitPending (demo_intent 2) TakeProfit 1 PAll (demo_bag demo_selling) None))
    by (vm_compute; reflexivity).
  pose proof (closing_fill_ends_the_position (H := token_track) demo_selling (demo_intent 2) (demo_fill 160 21)
    (demo_token demo_selling) TakeProfit 1 (demo_bag demo_selling) None Ht Ha) as Hc.
  change (FillConfirmed (demo_intent 2) (demo_fill 160 21)) with demo_sold in Hc.
  destruct (reduce demo_selling demo_sold) as [st' fx]. destruct Hc as (Hfx & _ & _ & _ & Hact & _).
  split; [rewrite Hfx; vm_compute; reflexivity|].
  etransitivity; [apply Hact; vm_compute; reflexivity|vm_compute; reflexivity].
Defined.

Lemma failed_sell_outcome_witness :
  (reduce demo_selling (FillFailed (demo_intent 2) Unconfirmed None)).2 =
    [position_update 1 1 demo_mint StExitUnconfirmed None (Some TakeProfit) (Some (demo_intent 2)) None None] /\
  (reduce demo_selling (FillFailed (demo_intent 2) Reverted None)).2 = [SubmitSell (demo_intent 3) 1 TakeProfit PAll].
Proof.
  assert (Ht : es_tokens demo_selling !! i_mint (demo_intent 2) = Some (demo_token demo_selling))
    by (apply demo_token_spec; vm_compute; reflexivity).
  assert (Ha : tk_arms (demo_token demo_selling) !! i_rule (demo_intent 2) = Some (ExitPending (demo_intent 2) TakeProfit 1 PAll (demo_bag demo_selling) None))
    by (vm_compute; reflexivity).
  pose proof (fun r => failed_sell_outcome (H := token_track) demo_selling (demo_intent 2) (demo_token demo_selling) TakeProfit 1 PAll
    (demo_bag demo_selling) None r None Ht Ha) as Hc. split.
  - specialize (Hc Unconfirmed). destruct (reduce demo_selling _) as [st' fx]. destruct Hc as [Hfx _]. rewrite Hfx.
    vm_compute. reflexivity.
  - specialize (Hc Reverted). destruct (reduce demo_selling _) as [st' fx]. destruct Hc as [Hfx _]. rewrite Hfx.
    vm_compute. reflexivity.
Defined.
