(* ===== verification/SweepProps.v ===== *)
(** * SweepProps: what a decision pass may and must do

    The theorems about [evaluate_token] and the handlers around it: every buy is
    justified, a dead coin is sold, an observing engine sends nothing, a reload pauses
    exactly the arms it must. *)

From S2P Require Export FillProps.

(** ** One pass over a coin's arms

    What a sweep leaves alone, what each of its steps emits, and a step singled out of the
    pass it is part of. *)

Section sweep_facts.
Context `{TrackOps}.
Implicit Types (st : EngineState) (token : TokenState).

(** What no decision of a sweep changes. *)
Record sweep_frame st token (rule : RuleId) st' token' : Prop := {
  sf_rules : es_rules st' = es_rules st;
  sf_manual : es_manual_rules st' = es_manual_rules st;
  sf_observing : es_observing st' = es_observing st;
  sf_track : tk_track token' = tk_track token;
  sf_arms : forall r, r <> rule -> tk_arms token' !! r = tk_arms token !! r;
  sf_counters : forall r, r <> rule -> counters_of st' r = counters_of st r;
}.

Lemma sweep_frame_refl st token rule : sweep_frame st token rule st token.
Proof. by split. Qed.

Lemma set_arm_frame st token rule a st' token' :
  sweep_frame st token rule st' token' -> sweep_frame st token rule st' (set_arm token' rule a).
Proof. intros []. split; try done. intros r Hr. simpl. rewrite lookup_insert_ne by done. auto. Qed.

Lemma record_identity_counters st mode id m now : es_counters (record_identity st mode id m now) = es_counters st.
Proof. unfold record_identity. by repeat case_match. Qed.

Lemma lock_slot_frame st token rule : sweep_frame st token rule st (lock_slot token rule).
Proof. unfold lock_slot. cbv zeta. case_match; by split. Qed.

Lemma apply_sell_frame st token mint rule h reason portion go shown st' token' fx :
  apply_sell st token mint rule h reason portion go shown = (st', token', fx) -> sweep_frame st token rule st' token'.
Proof. intros Ha. injection Ha as <- <- <-. apply set_arm_frame. by split. Qed.

Lemma apply_enter_frame st token mint rule followed lamports cap max_total mode now st' token' fx :
  apply_enter st token mint rule followed lamports cap max_total mode now = (st', token', fx) ->
  sweep_frame st token rule st' token'.
Proof.
  unfold apply_enter. cbv zeta. intros Ha. case_match.
  - injection Ha as <- <- <-. destruct (lock_slot_frame st token rule). split; try done. intros r Hr.
    unfold counters_of. cbn. by rewrite lookup_insert_ne.
  - unfold next_position, next_intent in Ha. cbv beta iota zeta in Ha. injection Ha as <- <- <-. apply set_arm_frame.
    destruct (lock_slot_frame st token rule). split; try done. intros r Hr.
    unfold counters_of. rewrite record_identity_counters. cbn. by rewrite !lookup_insert_ne.
Qed.

Lemma apply_decision_frame st token mint rule d lamports cap max_total mode now st' token' fx :
  apply_decision st token mint rule d lamports cap max_total mode now = (st', token', fx) ->
  sweep_frame st token rule st' token'.
Proof.
  unfold apply_decision. intros Hd. case_match; [injection Hd as <- <- <-; apply sweep_frame_refl|].
  destruct d; try (repeat case_match; injection Hd as <- <- <-;
    first [apply sweep_frame_refl | apply set_arm_frame; first [apply sweep_frame_refl|apply lock_slot_frame] | apply lock_slot_frame]; fail).
  - by eapply apply_enter_frame.
  - repeat case_match; try (injection Hd as <- <- <-; apply sweep_frame_refl). by eapply apply_sell_frame.
  - repeat case_match; try (injection Hd as <- <- <-; apply sweep_frame_refl); by eapply apply_sell_frame.
Qed.

Lemma sweep_arm_frame mint dead now b st token fx rule st' token' fx' :
  sweep_arm mint dead now b (st, token, fx) rule = (st', token', fx') -> sweep_frame st token rule st' token'.
Proof.
  unfold sweep_arm. cbv zeta. intros Hs. repeat (case_match; [|injection Hs as <- <- <-; apply sweep_frame_refl]).
  destruct (apply_decision _ _ _ _ _ _ _ _ _ _) as [[st1 token1] fx1] eqn:Hd. injection Hs as <- <- <-.
  by eapply apply_decision_frame.
Qed.

(** The frame of a pass over the arms [ids]. *)
Record pass_frame st token (ids : list RuleId) st' token' : Prop := {
  pf_rules : es_rules st' = es_rules st;
  pf_manual : es_manual_rules st' = es_manual_rules st;
  pf_observing : es_observing st' = es_observing st;
  pf_track : tk_track token' = tk_track token;
  pf_arms : forall r, r ∉ ids -> tk_arms token' !! r = tk_arms token !! r;
  pf_counters : forall r, r ∉ ids -> counters_of st' r = counters_of st r;
}.

Lemma sweep_frame_pass mint dead now b ids : forall st token fx st' token' fx',
  foldl (sweep_arm mint dead now b) (st, token, fx) ids = (st', token', fx') -> pass_frame st token ids st' token'.
Proof.
  induction ids as [|r ids IH]; intros st token fx st' token' fx' Hf; cbn [foldl] in Hf; [injection Hf as <- <- <-; by split|].
  destruct (sweep_arm _ _ _ _ _ _) as [[st1 token1] fx1] eqn:Hs in Hf. apply sweep_arm_frame in Hs as [].
  apply IH in Hf as []. split; try congruence; [intros r' [Hr Hn]%not_elem_of_cons; rewrite pf_arms0 by done; auto|].
  intros r' [Hr Hn]%not_elem_of_cons. rewrite pf_counters0 by done. auto.
Qed.

(** What a step in the middle of a pass finds as it was before the pass. *)
Record step_from st token (r : RuleId) st1 token1 : Prop := {
  fr_rules : es_rules st1 = es_rules st;
  fr_manual : es_manual_rules st1 = es_manual_rules st;
  fr_observing : es_observing st1 = es_observing st;
  fr_track : tk_track token1 = tk_track token;
  fr_arm : tk_arms token1 !! r = tk_arms token !! r;
  fr_counters : counters_of st1 r = counters_of st r;
}.

(** A step of a pass over distinct arms, from the arm as it was before the pass. *)
Lemma sweep_step mint dead now b ids st token fx st' token' fx' r :
  foldl (sweep_arm mint dead now b) (st, token, fx) ids = (st', token', fx') -> NoDup ids -> r ∈ ids ->
  exists st1 token1 fx1 st2 token2 more rest,
    sweep_arm mint dead now b (st1, token1, fx1) r = (st2, token2, fx1 ++ more) /\ fx' = (fx1 ++ more) ++ rest /\
    step_from st token r st1 token1 /\ tk_arms token' !! r = tk_arms token2 !! r.
Proof.
  intros Hf Hnd Hr. apply list_elem_of_split in Hr as (l1 & l2 & ->). rewrite foldl_app in Hf.
  destruct (foldl _ (st, token, fx) l1) as [[st1 token1] fx1] eqn:H1. cbn [foldl] in Hf.
  destruct (sweep_arm _ _ _ _ (st1, token1, fx1) r) as [[st2 token2] fx2] eqn:H2.
  apply NoDup_app in Hnd as (_ & Hd & Hnd). apply NoDup_cons in Hnd as [Hr2 _].
  assert (Hr1 : r ∉ l1) by (intros Hin; apply (Hd r Hin); left).
  pose proof (sweep_frame_pass _ _ _ _ _ _ _ _ _ _ _ H1) as [E1 E2 E3 E4 E5 E7].
  pose proof (sweep_frame_pass _ _ _ _ _ _ _ _ _ _ _ Hf) as [_ _ _ _ E6 _].
  apply (sweep_arm_moves (fun _ => true) _ _ _ _ ∅) in H2 as Hm. destruct Hm as (more & -> & _).
  apply (sweep_moves (fun _ => true) _ _ _ _ ∅) in Hf as (rest & -> & _).
  exists st1, token1, fx1, st2, token2, more, rest. split_and!; [done|done| |by apply E6]. split; auto.
Qed.

(** Every effect of a pass comes from one of its steps. *)
Lemma sweep_effect mint dead now b e ids : forall st token fx st' token' fx',
  foldl (sweep_arm mint dead now b) (st, token, fx) ids = (st', token', fx') -> NoDup ids -> e ∈ fx' ->
  e ∈ fx \/ exists r st1 token1 fx1 st2 token2 more,
    r ∈ ids /\ sweep_arm mint dead now b (st1, token1, fx1) r = (st2, token2, fx1 ++ more) /\ e ∈ more /\
    step_from st token r st1 token1.
Proof.
  induction ids as [|r ids IH]; intros st token fx st' token' fx' Hf Hnd He; cbn [foldl] in Hf; [injection Hf as <- <- <-; by left|].
  apply NoDup_cons in Hnd as [Hr Hnd]. destruct (sweep_arm _ _ _ _ _ _) as [[st1 token1] fx1] eqn:Hs in Hf.
  pose proof (sweep_arm_frame _ _ _ _ _ _ _ _ _ _ _ Hs) as [E1 E2 E3 E4 E5 E6].
  apply (sweep_arm_moves (fun _ => true) _ _ _ _ ∅) in Hs as Hm. destruct Hm as (more & -> & _).
  apply IH in Hf as [He1|(r' & st2 & token2 & fx2 & st3 & token3 & more' & Hin & Hs' & He' & [F1 F2 F3 F4 F5 F6])]; [| |done|done].
  - apply elem_of_app in He1 as [He1|He1]; [by left|right].
    exists r, st, token, fx, st1, token1, more. split_and!; [left|done|done|by split].
  - right. exists r', st2, token2, fx2, st3, token3, more'. split_and!; [by right|done|done|]. split; try congruence.
    + rewrite F5. apply E5. intros ->. done.
    + rewrite F6. apply E6. intros ->. done.
Qed.

(** ** The visit order *)

Lemma visit_order_perm st token : visit_order st token ≡ₚ keys (tk_arms token).
Proof. unfold visit_order. cbv zeta. case_match; [apply sort_by_perm|done]. Qed.

Lemma visit_order_nodup st token : NoDup (visit_order st token).
Proof. rewrite visit_order_perm. apply keys_NoDup. Qed.

Lemma elem_visit_order st token r : r ∈ visit_order st token <-> is_Some (tk_arms token !! r).
Proof. rewrite visit_order_perm. apply elem_of_keys. Qed.

(** ** What a step may buy *)

Lemma try_enter_can c (t : Track) now lock b : try_enter c t now lock b = VEnter -> can_enter c t now = true.
Proof.
  unfold try_enter, can_enter, is_noneb. cbv zeta.
  destruct (event_satisfied c t now), b; simpl; try by repeat case_match.
  all: destruct (final_filters_satisfied c t now), (filters_satisfied c t now), (entry_cell_ok c t now),
    (is_someb (sell_line_holding_before_entry c t now)); simpl; by repeat case_match.
Qed.

Lemma decide_armed_enter c r token dead dupe now b w :
  decide_armed c r token dead dupe now b = DEnter w ->
  cr_entry_enabled c = true /\ dead = false /\ dupe = false /\ entry_unsatisfiable c (tk_track token) now = None /\
  can_enter c (tk_track token) now = true.
Proof.
  unfold decide_armed. cbv zeta. destruct (cr_entry_enabled c); [|done]. simpl. destruct dead; [done|].
  destruct (entry_unsatisfiable _ _ _); [done|]. destruct dupe; [done|]. destruct (_ && _); [done|].
  destruct (try_enter _ _ _ _ _) eqn:Ht; try done. intros _. by apply try_enter_can in Ht.
Qed.

(** A buy of a step is an entry, of the armed rule's own size. *)
Lemma sweep_arm_buy mint dead now b st token fx rule st' token' more i r m l :
  sweep_arm mint dead now b (st, token, fx) rule = (st', token', fx ++ more) -> SubmitBuy i r m l ∈ more ->
  r = rule /\ m = mint /\ i_rule i = rule /\ i_mint i = mint /\ es_observing st = false /\
  tk_arms token !! rule = Some Armed /\
  exists c, es_rules st !! rule = Some c /\ l = resolve_buy_lamports c (current_priced_reserves (tk_track token)) /\
    cr_entry_enabled c = true /\ dead = false /\ entry_unsatisfiable c (tk_track token) now = None /\
    can_enter c (tk_track token) now = true /\
    Cap.allows (cr_concurrent_cap c) (rc_open (counters_of st rule)) = true /\
    Cap.allows (cr_max_total c) (rc_total (counters_of st rule)) = true.
Proof.
  unfold sweep_arm. cbv zeta. intros Hs Hin.
  assert (Hnil : forall s t, (s, t, fx) = (st', token', fx ++ more) -> False).
  { intros s t Heq. injection Heq as _ _ Hfx. rewrite <- (app_nil_r fx) in Hfx at 1. apply app_inv_head in Hfx.
    subst more. by apply elem_of_nil in Hin. }
  destruct (tk_arms token !! rule) as [arm|] eqn:Harm; [|by apply Hnil in Hs].
  destruct (rule_for st rule (arm_position arm)) as [c|] eqn:Hc; [|by apply Hnil in Hs].
  set (dupe := match arm with Armed => _ | _ => false end) in Hs.
  pose proof (decide_arm_fits c rule arm token dead dupe now b) as Hfit.
  destruct (apply_decision _ _ _ _ _ _ _ _ _ _) as [[st1 token1] fx1] eqn:Hd. injection Hs as -> -> Hfx.
  apply app_inv_head in Hfx. subst fx1. unfold apply_decision in Hd.
  destruct (es_observing st) eqn:Ho; simpl in Hd.
  - repeat case_match; try (injection Hd as <- <- <-; set_solver); try done.
  - destruct (decide_arm c rule arm token dead dupe now b) as [|? ?|w| | |?|?|? ? ? ?|?] eqn:Hdec;
      try (repeat case_match; injection Hd as <- <- <-; set_solver).
    destruct Hfit as [-> Hon]. simpl in Hdec. apply decide_armed_enter in Hdec as (H1 & H2 & H3 & H4 & H5).
    unfold apply_enter in Hd. cbv zeta in Hd. destruct (negb _ || negb _) eqn:Hcap; [injection Hd as <- <- <-; set_solver|].
    apply orb_false_iff in Hcap as [K1%negb_false_iff K2%negb_false_iff].
    destruct (next_position _) as [p st2] eqn:Hp. destruct (next_intent _ _ _) as [i' st3] eqn:Hi.
    injection Hd as <- <- <-. injection Hi as <- <-.
    apply elem_of_cons in Hin as [Heq|Hin]; [|apply list_elem_of_singleton in Hin; done].
    injection Heq as -> -> -> ->. split_and!; try done. exists c. split_and!; try done.
    unfold rule_for in Hc. simpl in Hc. by destruct (es_rules st !! rule).
Qed.
End sweep_facts.

Section sweep_props.
Context `{TrackOps}.
Implicit Types (st : EngineState) (token : TokenState).

(** The arms a filter picks, all replaced by one arm. *)
Lemma set_arms_lookup token (f : RuleId * ArmState -> bool) a0 r :
  let token' := foldl (fun t e => set_arm t e.1 a0) token (List.filter f (entries (tk_arms token))) in
  tk_track token' = tk_track token /\
  tk_arms token' !! r = (fun a => if f (r, a) then a0 else a) <$> tk_arms token !! r.
Proof.
  cbv zeta. set (l := List.filter _ _).
  assert (Hl : forall e, e ∈ l <-> tk_arms token !! e.1 = Some e.2 /\ f e = true).
  { intros [x a]. unfold l. rewrite list_elem_of_In, filter_In, <- list_elem_of_In, elem_of_entries. done. }
  assert (Hfold : forall l0 t, tk_track (foldl (fun t e => set_arm t e.1 a0) t l0) = tk_track t /\
    tk_arms (foldl (fun t (e : RuleId * ArmState) => set_arm t e.1 a0) t l0) !! r =
      if bool_decide (r ∈ l0.*1) then Some a0 else tk_arms t !! r).
  { induction l0 as [|e l0 IH]; intros t; [done|]. cbn [foldl]. destruct (IH (set_arm t e.1 a0)) as [IH1 IH2]. split; [done|].
    rewrite IH2. cbn. case_bool_decide as H1; [by rewrite bool_decide_true by set_solver|].
    destruct (decide (r = e.1)) as [->|Hne]; [rewrite lookup_insert_eq, bool_decide_true; [done|set_solver]|].
    rewrite lookup_insert_ne, bool_decide_false by set_solver. done. }
  destruct (Hfold l token) as [H1 H2]. split; [done|]. rewrite H2. case_bool_decide as Hr.
  - apply list_elem_of_fmap in Hr as ([x a] & -> & Hx). apply Hl in Hx as [Ha Hx]. simpl in *. by rewrite Ha; simpl; rewrite Hx.
  - destruct (tk_arms token !! r) as [a|] eqn:Ha; [|done]. simpl. destruct (f (r, a)) eqn:Hc; [|done].
    exfalso. apply Hr. apply list_elem_of_fmap. exists (r, a). split; [done|]. by apply Hl.
Qed.

Lemma promote_lookup st token mint now token' fx r :
  promote_cooldowns st token mint now = (token', fx) ->
  tk_track token' = tk_track token /\
  tk_arms token' !! r = (fun a => if cooldown_over st now (r, a) then Armed else a) <$> tk_arms token !! r.
Proof. intros [= <- _]. apply (set_arms_lookup token (cooldown_over st now) Armed r). Qed.

Lemma fold_entered_lookup token at_ r :
  tk_track (fold_entered_extremes token at_) = tk_track token /\
  (forall a, tk_arms (fold_entered_extremes token at_) !! r = Some a -> (forall h, a <> Entered h) -> tk_arms token !! r = Some a) /\
  (forall h, tk_arms token !! r = Some (Entered h) ->
    exists h', tk_arms (fold_entered_extremes token at_) !! r = Some (Entered h') /\ ec_position h' = ec_position h).
Proof.
  unfold fold_entered_extremes. cbv zeta. case_match; [split_and!; [done|by intros|by eauto]|]. split; [done|]. cbn.
  rewrite lookup_fmap. split.
  - intros a Ha Hn. destruct (tk_arms token !! r) as [b|]; [|done]. injection Ha as <-. f_equal.
    destruct b; try done. exfalso. simpl in Hn. case_match; [by eapply Hn|]. by eapply Hn.
  - intros h ->. simpl. case_match; by eexists.
Qed.

(** C27: every buy a decision pass sends is justified.  The engine is not observing, the
    coin is not dead, and the rule is loaded and entry-enabled, was waiting on the coin
    (armed, or its cooldown over), is not ruled out by a bound it can no longer meet, and
    its event, filters, final filters and cell hold with no sell line of its own already
    holding; it is below both of its caps, open positions and entries of the run, as counted
    when the pass began; the order is of the rule's size for the pool. *)
Theorem buys_are_justified st token mint now b st' token' fx i r m l :
  evaluate_token st token mint now b = (st', token', fx) -> SubmitBuy i r m l ∈ fx ->
  m = mint /\ i_rule i = r /\ i_mint i = mint /\ es_observing st = false /\ token_dead token now = false /\
  (tk_arms token !! r = Some Armed \/ exists until, tk_arms token !! r = Some (Cooldown until) /\ until <= now) /\
  exists c, es_rules st !! r = Some c /\ cr_entry_enabled c = true /\
    entry_unsatisfiable c (tk_track token) now = None /\ can_enter c (tk_track token) now = true /\
    Cap.allows (cr_concurrent_cap c) (rc_open (counters_of st r)) = true /\
    Cap.allows (cr_max_total c) (rc_total (counters_of st r)) = true /\
    l = resolve_buy_lamports c (current_priced_reserves (tk_track token)).
Proof.
  unfold evaluate_token. cbv zeta. intros He Hin.
  destruct (promote_cooldowns _ _ _ _) as [token1 fx1] eqn:Hp in He.
  destruct (foldl _ _ _) as [[st2 token2] fx2] eqn:Hf in He. injection He as <- <- <-.
  destruct (sweep_effect _ _ _ _ _ _ _ _ _ _ _ _ Hf (visit_order_nodup _ _) Hin)
    as [Hin1|(r1 & st1 & t1 & f1 & st3 & t3 & more & Hr1 & Hs & Hm & [F1 F2 F3 F4 F5 F6])].
  - exfalso. injection Hp as _ <-. apply list_elem_of_fmap in Hin1 as (e & He & _). done.
  - destruct (sweep_arm_buy _ _ _ _ _ _ _ _ _ _ _ _ _ _ _ Hs Hm) as (-> & -> & Hi1 & Hi2 & Ho & Ha & c & Hc & -> & H1 & H2 & H3 & H4 & K1 & K2).
    pose proof (promote_lookup _ _ _ _ _ _ r1 Hp) as [Ht1 Harm1].
    destruct (fold_entered_lookup token now r1) as (Ht0 & Hback & _).
    assert (Ht : tk_track t1 = tk_track token) by congruence. rewrite Ht in *.
    split_and!; try done; [congruence| |].
    + rewrite F5, Harm1 in Ha. destruct (tk_arms (fold_entered_extremes token now) !! r1) as [a|] eqn:Ea; [|done].
      injection Ha as Ha. unfold cooldown_over in Ha. simpl in Ha.
      destruct a as [| | | | |until| |]; simpl in Ha; try done; [left; by apply Hback|right; exists until].
      split; [by apply Hback|]. destruct (Z.leb_spec until now); [done|by simpl in Ha].
    + exists c. rewrite <- F1, <- F6. by split_and!.
Qed.

(** C28: a dead coin is bought by no rule, and every position held on it is sold whole,
    at once, whatever its rule says: its arm becomes a first attempt to sell everything. *)
Theorem dead_coin_is_sold st token mint now b st' token' fx :
  evaluate_token st token mint now b = (st', token', fx) -> token_dead token now = true -> es_observing st = false ->
  (forall i r m l, SubmitBuy i r m l ∉ fx) /\
  forall r h c, tk_arms token !! r = Some (Entered h) -> rule_for st r (Some (ec_position h)) = Some c ->
    exists i h', tk_arms token' !! r = Some (ExitPending i ExitDead 1 PAll h' None) /\ ec_position h' = ec_position h /\
      SubmitSell i (ec_position h) ExitDead PAll ∈ fx.
Proof.
  unfold evaluate_token. cbv zeta. intros He Hdead Hobs.
  destruct (promote_cooldowns _ _ _ _) as [token1 fx1] eqn:Hp in He.
  destruct (foldl _ _ _) as [[st2 token2] fx2] eqn:Hf in He. injection He as <- <- <-. rewrite Hdead in Hf. split.
  - intros i r m l Hin.
    destruct (sweep_effect _ _ _ _ _ _ _ _ _ _ _ _ Hf (visit_order_nodup _ _) Hin)
      as [Hin1|(r1 & st1 & t1 & f1 & st3 & t3 & more & _ & Hs & Hm & _)].
    + injection Hp as _ <-. apply list_elem_of_fmap in Hin1 as (e & He & _). done.
    + destruct (sweep_arm_buy _ _ _ _ _ _ _ _ _ _ _ _ _ _ _ Hs Hm) as (_ & _ & _ & _ & _ & _ & c & _ & _ & _ & Hd & _). done.
  - intros r h c Ha Hc.
    destruct (fold_entered_lookup token now r) as (_ & _ & Hfold). destruct (Hfold h Ha) as (h1 & Ha1 & Hpos1).
    pose proof (promote_lookup _ _ _ _ _ _ r Hp) as [_ Harm1]. rewrite Ha1 in Harm1. simpl in Harm1.
    assert (Hr : r ∈ visit_order st token1) by (apply elem_visit_order; by eexists).
    destruct (sweep_step _ _ _ _ _ _ _ _ _ _ _ _ Hf (visit_order_nodup _ _) Hr)
      as (st1 & t1 & f1 & st3 & t3 & more & rest & Hs & -> & [F1 F2 F3 F4 F5 F6] & Hlast).
    unfold sweep_arm in Hs. cbv zeta in Hs. rewrite F5, Harm1 in Hs. cbn [arm_position] in Hs.
    assert (Hrf : rule_for st1 r (Some (ec_position h1)) = Some c) by (unfold rule_for in *; by rewrite F1, F2, Hpos1).
    rewrite Hrf in Hs. cbn [decide_arm decide_entered] in Hs. unfold apply_decision in Hs.
    rewrite F3, Hobs in Hs. cbn [andb] in Hs. rewrite F5, Harm1 in Hs. unfold apply_sell in Hs. cbv zeta in Hs.
    destruct (next_intent st1 r mint) as [i st4]. injection Hs as <- <- Hmore. apply app_inv_head in Hmore. subst more.
    exists i, h1. split_and!; [|done|rewrite Hpos1; set_solver].
    change (tk_arms (stamp_settled st2 token2 now)) with (tk_arms token2). rewrite Hlast. apply lookup_insert_eq.
Qed.

(** ** Observing *)

(** Events of the market: what the feed and the clock deliver. *)
Definition market_event (e : Event TagDoc) : bool :=
  match e with Trade _ _ | Tick _ | TokenCreated _ _ _ _ _ _ | FirstSlotSettled _ _ _ _ _ | Migrated _ _ => true | _ => false end.

Lemma observing_decision st token mint rule d lamports cap max_total mode now st' token' fx :
  es_observing st = true ->
  apply_decision st token mint rule d lamports cap max_total mode now = (st', token', fx) -> st' = st /\ reports fx = [].
Proof.
  unfold apply_decision. intros -> Hd. cbn [andb] in Hd. repeat case_match; try (by injection Hd as <- <- <-); done.
Qed.

Lemma observing_arm mint dead now b st token fx rule st' token' fx' :
  es_observing st = true -> sweep_arm mint dead now b (st, token, fx) rule = (st', token', fx') ->
  st' = st /\ reports fx' = reports fx.
Proof.
  intros Ho. unfold sweep_arm. cbv zeta. intros Hs. do 2 (case_match; [|by injection Hs as <- <- <-]).
  destruct (apply_decision _ _ _ _ _ _ _ _ _ _) as [[st1 token1] fx1] eqn:Hd. injection Hs as <- <- <-.
  apply observing_decision in Hd as [-> Hr]; [|done]. by rewrite reports_app, Hr, app_nil_r.
Qed.

Lemma observing_evaluate st token mint now b st' token' fx :
  es_observing st = true -> evaluate_token st token mint now b = (st', token', fx) -> st' = st /\ reports fx = [].
Proof.
  intros Ho. unfold evaluate_token. cbv zeta. intros He.
  destruct (promote_cooldowns _ _ _ _) as [token1 fx1] eqn:Hp in He. apply promote_stakes in Hp as [_ Hp].
  destruct (foldl _ _ _) as [[st2 token2] fx2] eqn:Hf in He. injection He as <- <- <-. rewrite <- Hp.
  clear Hp. revert token1 fx1 st2 token2 fx2 Hf. generalize (visit_order st (fold_entered_extremes token now)). intros _.
  intros token1 fx1. generalize (visit_order st token1). intros ids. revert token1 fx1.
  induction ids as [|r ids IH]; intros token1 fx1 st2 token2 fx2 Hf; cbn [foldl] in Hf; [by injection Hf as <- <- <-|].
  destruct (sweep_arm _ _ _ _ _ _) as [[st3 token3] fx3] eqn:Hs in Hf. apply observing_arm in Hs as [-> Hs]; [|done].
  apply IH in Hf as [-> ->]. by rewrite Hs.
Qed.

Lemma observing_tick dense epoch now l : forall st kept flag fx st' kept' flag' fx',
  es_observing st = true ->
  foldl (tick_token dense epoch now) (st, kept, flag, fx) l = (st', kept', flag', fx') ->
  st' = st /\ reports fx' = reports fx.
Proof.
  induction l as [|[mint token] l IH]; intros st kept flag fx st' kept' flag' fx' Ho Hf; cbn [foldl] in Hf;
    [by injection Hf as <- <- <- <-|].
  unfold tick_token at 2 in Hf. case_match; [by eapply IH|]. cbv zeta in Hf.
  destruct (evaluate_token _ _ _ _ _) as [[st1 token1] fx1] eqn:He. apply observing_evaluate in He as [-> He]; [|done].
  apply IH in Hf as [-> ->]; [|done]. by rewrite reports_app, He, app_nil_r.
Qed.

Lemma stamp_creation_observing st fp mint at_ creator identity tf st' :
  stamp_creation st fp mint at_ creator identity = (tf, st') -> es_observing st' = es_observing st.
Proof.
  unfold stamp_creation, take_prior_launches, take_name_reuse_count. intros Hs. repeat case_match; simplify_eq; done.
Qed.

Lemma settle_pending_reports st mint hits l : forall token fx token' fx',
  foldl (settle_pending st mint hits) (token, fx) l = (token', fx') -> reports fx' = reports fx.
Proof.
  induction l as [|r l IH]; intros token fx token' fx' Hf; [by injection Hf as <- <-|].
  cbn [foldl] in Hf. destruct (settle_pending _ _ _ _ r) as [token1 fx1] eqn:Hs in Hf. apply IH in Hf as ->.
  unfold settle_pending in Hs. repeat case_match; injection Hs as <- <-; try done. by rewrite reports_app, app_nil_r.
Qed.

(** An observing engine folds the market without acting on it: no order and no
    position report comes out, and the positions, their one-off exits, the counters and
    the generators stay as they were. *)
Theorem observing_sends_nothing st e :
  market_event e = true -> es_observing st = true ->
  reports (reduce st e).2 = [] /\
  es_positions (reduce st e).1 = es_positions st /\ es_manual_rules (reduce st e).1 = es_manual_rules st /\
  es_intent_seq (reduce st e).1 = es_intent_seq st /\ es_position_seq (reduce st e).1 = es_position_seq st /\
  es_counters (reduce st e).1 = es_counters st.
Proof.
  intros He Ho. destruct e; try done; clear He; unfold reduce; cbn [is_tick].
  - unfold on_token_created. case_match; [done|]. cbv zeta. destruct (stamp_creation _ _ _ _ _ _) as [tf st1] eqn:Hs.
    assert (Ho1 : es_observing st1 = true).
    { apply stamp_creation_observing in Hs. by rewrite Hs. }
    apply stamp_creation_core in Hs as []. destruct (evaluate_token _ _ _ _ _) as [[st2 token] fx] eqn:Hev.
    apply observing_evaluate in Hev as [-> Hev]; [|done]. cbn [fst snd]. rewrite reports_app, Hev, app_nil_r.
    split; [apply reports_armed|].
    unfold put_back. case_match; split_and!; simpl in *; congruence.
  - unfold on_first_slot_settled. case_match; [|done]. cbv zeta. case_match.
    { unfold put_back. by case_match. }
    destruct (foldl _ _ _) as [token1 fx1] eqn:Hf. apply settle_pending_reports in Hf.
    destruct (evaluate_token _ _ _ _ _) as [[st2 token2] fx2] eqn:Hev.
    apply observing_evaluate in Hev as [-> Hev]; [|done]. cbn [fst snd]. rewrite reports_app, Hev, Hf.
    split; [done|unfold put_back; by case_match].
  - unfold on_trade_event. cbv zeta. case_match; [|done].
    destruct (evaluate_token _ _ _ _ _) as [[st2 token2] fx2] eqn:Hev.
    by apply observing_evaluate in Hev as [-> Hev].
  - unfold on_tick. cbv zeta. case_match; [done|].
    destruct (foldl _ _ _) as [[[st1 kept] flag] fx] eqn:Hf. by apply observing_tick in Hf as [-> Hf].
  - unfold on_migrated. case_match; [|done]. cbv zeta. split; [apply reports_armed|]. unfold put_back. by case_match.
Qed.

(** ** A reload *)

(** The entry switch of the last row loaded for a rule. *)
Definition loaded_switch (rules : list LoadedRule) : gmap RuleId bool :=
  foldl (fun m r => <[lr_id r := lr_entry_enabled r]> m) ∅ rules.

(** A reload disarms as paused every arm of a rule that is no longer loaded or no
    longer entry-enabled, unless the arm holds a position; every other arm stays as it
    was, no position moves, and what it emits is one pause notice per paused arm. *)
Theorem reload_pauses_idle_arms st rules fps own :
  let st' := (reduce st (RulesReloaded rules fps own)).1 in
  (forall m r, arm_at st' m r =
    (fun a => if arm_holds_position a || bool_decide (loaded_switch rules !! r = Some true) then a else Disarmed DisPaused)
      <$> arm_at st m r) /\
  es_positions st' = es_positions st /\ es_manual_rules st' = es_manual_rules st /\
  (forall e, e ∈ (reduce st (RulesReloaded rules fps own)).2 ->
    exists m r a, e = armed m r (TagDisarmed DisPaused) /\ arm_at st m r = Some a /\ arm_holds_position a = false /\
      loaded_switch rules !! r <> Some true).
Proof.
  cbv zeta. unfold reduce. cbn [is_tick]. unfold on_rules_reloaded. cbv zeta. cbn [fst snd].
  change (es_tokens (set_es_all_settled_at st None)) with (es_tokens st). fold (loaded_switch rules).
  assert (Hstale : forall e, stale_arm (loaded_switch rules) e =
    negb (arm_holds_position e.2 || bool_decide (loaded_switch rules !! e.1 = Some true))).
  { intros [r a]. unfold stale_arm. simpl. destruct (arm_holds_position a); [done|]. simpl.
    destruct (loaded_switch rules !! r) as [[]|]; done. }
  set (tokens := list_to_map _).
  assert (Ht : forall m, tokens !! m = (fun t => (pause_token (loaded_switch rules) m t).1) <$> es_tokens st !! m).
  { intros m. unfold tokens. rewrite <- list_fmap_compose.
    apply (lookup_map_entries (fun m t => (pause_token (loaded_switch rules) m t).1)). }
  clearbody tokens. split_and!; [|done|done|].
  - intros m r. unfold arm_at, reload. cbn. rewrite lookup_fmap. cbn. rewrite Ht.
    destruct (es_tokens st !! m) as [token|]; [|done]. simpl.
    pose proof (proj2 (set_arms_lookup (unsettle token) (stale_arm (loaded_switch rules)) (Disarmed DisPaused) r)) as Hl.
    change (tk_arms (unsettle token)) with (tk_arms token) in Hl. rewrite Hl. clear Hl.
    destruct (tk_arms token !! r) as [a|]; [|done]. simpl. rewrite Hstale. simpl. by destruct (_ || _).
  - intros e He. apply list_elem_of_bind in He as ([m [t fx]] & He & Hin).
    apply list_elem_of_fmap in Hin as ([m' token] & Heq & Hin). injection Heq as -> -> ->. simpl in He.
    apply elem_of_entries in Hin. apply list_elem_of_fmap in He as ([r a] & -> & He).
    apply list_elem_of_In, filter_In in He as [He Hs]. apply list_elem_of_In, elem_of_entries in He.
    exists m', r, a. unfold arm_at. simpl in Hin. rewrite Hin. simpl. rewrite Hstale in Hs. simpl in *.
    apply negb_true_iff, orb_false_iff in Hs as [H1 H2]. apply bool_decide_eq_false in H2. done.
Qed.
End sweep_props.

(** ** Concrete runs *)

(** The demo coin right after its print, not yet decided on. *)
Definition demo_printed : TokenState := fold_trade (demo_token demo_armed) (demo_trade Buy 2 100 10).

Lemma buys_are_justified_witness :
  (evaluate_token demo_armed demo_printed demo_mint (sec 10) true).2 =
    [SubmitBuy (demo_intent 1) 1 demo_mint (10 ^ 8);
     position_update 1 1 demo_mint StBuySubmitted None None (Some (demo_intent 1)) None None] /\
  token_dead demo_printed (sec 10) = false.
Proof.
  assert (Hfx : (evaluate_token demo_armed demo_printed demo_mint (sec 10) true).2 =
    [SubmitBuy (demo_intent 1) 1 demo_mint (10 ^ 8);
     position_update 1 1 demo_mint StBuySubmitted None None (Some (demo_intent 1)) None None]) by (vm_compute; reflexivity).
  split; [exact Hfx|]. destruct (evaluate_token demo_armed demo_printed demo_mint (sec 10) true) as [[st' token'] fx] eqn:He.
  simpl in Hfx. subst fx.
  eapply (buys_are_justified (H := token_track) _ _ _ _ _ _ _ _ (demo_intent 1) 1 demo_mint (10 ^ 8) He). left.
Defined.

(** Ten days later the coin, drained to 1 SOL, is dead. *)
Definition demo_drain : TradeLite := {|
  t_side := Sell; t_sol := f_dec 1 3; t_price := f_dec 100 9; t_reserve_sol := f_dec 1 1;
  t_priced_reserve_sol := f_of_Z 1; t_at := sec 864000; t_ix_hash := None; t_wallet_hash := 11; t_slot := 900;
  t_marker_bits := 0; t_leg_index := 0; t_tx_index := None; t_template_hash := None; t_program_hash := None;
  t_build_hash := None; t_core_hash := None; t_core_marks := 0; t_on_curve := true; t_is_launch := false;
  t_fee := FeeKeys_default; t_token_amount := f_of_Z 1000; t_build_day_public := None |}.

Definition demo_drained : TokenState := fold_trade (demo_token demo_holding) demo_drain.

Lemma dead_coin_is_sold_witness :
  exists i, SubmitSell i 1 ExitDead PAll ∈ (evaluate_token demo_holding demo_drained demo_mint (sec 864000) true).2.
Proof.
  destruct (evaluate_token demo_holding demo_drained demo_mint (sec 864000) true) as [[st' token'] fx] eqn:He.
  destruct (dead_coin_is_sold (H := token_track) _ _ _ _ _ _ _ _ He) as [_ Hs]; [vm_compute; reflexivity..|].
  destruct (Hs 1 (demo_bag demo_holding) (compile demo_rule)) as (i & h' & _ & _ & Hin); [vm_compute; reflexivity..|].
  exists i. exact Hin.
Defined.

Lemma observing_sends_nothing_witness :
  es_positions (reduce (set_es_observing demo_armed true) demo_print).1 = ∅ /\
  reports (reduce (set_es_observing demo_armed true) demo_print).2 = [].
Proof.
  pose proof (observing_sends_nothing (H := token_track) (set_es_observing demo_armed true) demo_print) as Hc.
  destruct Hc as (H1 & H2 & _); [reflexivity..|]. split; [rewrite H2; vm_compute; reflexivity|exact H1].
Defined.
