(* ===== verification/RuleProps.v ===== *)
(** * RuleProps: what a compiled rule's conditions and stages promise

    The entry kills, the evaluator, the satisfiability check, deadline loops, the sizes
    of sells, the extremes a position remembers and the small guards of the fold. *)

From S2P Require Export Compile Fingerprint Position Coin Hash TrackIface.

(** ** Monotonic kills and deadline loops

    The lemmas about a compiled rule's upper bounds and about the walk over stage
    deadlines. *)

(** ** Upper bounds *)

Lemma tighter_elem l : forall best r,
  foldl tighter best l = Some r -> r ∈ l \/ best = Some r.
Proof.
  induction l as [|b l IH]; intros best r Hr; [by right|]. cbn [foldl] in Hr. apply IH in Hr as [Hr|Hr]; [left; by right|].
  unfold tighter in Hr. destruct best as [[bth bge]|]; [case_match|]; injection Hr as <-; [left; left|by right|left; left].
Qed.

(** A crossed bound of an arm without equalities: some condition of the arm fails at
    every value from there on. *)
Lemma crossed_arm_fails arm half r b v v' tol :
  Forall (fun c => c_operator c <> OpEq) arm ->
  arm_mono_upper arm half r = Some b -> crossed b v = true -> (v <=. v') = true ->
  ~ Forall (fun c => eval_one c v' tol = true) arm.
Proof.
  unfold arm_mono_upper. intros Hne Hb Hc Hv Hall.
  destruct (foldl tighter None _) as [[th ge]|] eqn:Hf; [|done]. injection Hb as <-.
  apply tighter_elem in Hf as [Hf|Hf]; [|done]. apply list_elem_of_omap in Hf as (c & Hin & Hu).
  rewrite Forall_forall in Hne, Hall. specialize (Hne c Hin). specialize (Hall c Hin).
  unfold crossed in Hc. simpl in Hc. destruct (is_finite v); [|done]. simpl in Hc.
  unfold eval_one in Hall. destruct (is_finite v'); [|done]. cbn [negb] in Hall.
  unfold cond_upper in Hu. destruct (c_operator c); try done; injection Hu as <- <-; unfold fgt, fge in *.
  - assert (H1 : (c_value c <=. v') = true) by (by eapply fle_trans). by apply fle_not_flt in H1; rewrite H1 in Hall.
  - assert (H1 : (c_value c <. v') = true) by (by eapply flt_fle_trans). by apply flt_not_fle in H1; rewrite H1 in Hall.
Qed.

Lemma permanently_false_sound m k v v' :
  Forall (Forall (fun c => c_operator c <> OpEq)) (mq_conds m) ->
  mono_kill (ReqMetric m) = Some k -> permanently_false k v = true -> (v <=. v') = true ->
  eval (mq_conds m) v' (mq_tolerance m) = false.
Proof.
  unfold mono_kill, permanently_false. cbv zeta. intros Hne Hk Hp Hv. case_match; [done|]. case_match; [|done].
  injection Hk as <-. simpl in Hp. apply andb_true_iff in Hp as [He Hp]. apply not_true_is_false. intros Heval.
  apply eval_spec in Heval as [Hnil|(_ & arm & Hin & _ & Hall)]; [by rewrite Hnil in He|].
  rewrite forallb_forall in Hp. specialize (Hp (arm_mono_upper arm (mq_tolerance m ⊘ f_two) (mq_r m))).
  assert (Hc := Hp ltac:(apply list_elem_of_In, list_elem_of_fmap; by exists arm)).
  destruct (arm_mono_upper _ _ _) as [b|] eqn:Hb; [|done]. simpl in Hc. rewrite Forall_forall in Hne.
  exact (crossed_arm_fails arm _ _ _ _ _ _ (Hne arm Hin) Hb Hc Hv Hall).
Qed.

(** ** Deadline loops *)

(** [at_ -> rest -> start]: every stage's deadline leads to the next one, the last one's
    back to [start]. *)
Fixpoint leads_back (p : RuleParams) (start at_ : nat) (rest : list nat) : Prop :=
  match rest with
  | [] => deadline_next p at_ = Some start
  | n :: rest => deadline_next p at_ = Some n /\ leads_back p start n rest
  end.

Lemma loop_walk_finds p start rest : forall fuel at_ seen,
  leads_back p start at_ rest -> start ∈ seen -> NoDup (seen ++ rest) -> (length rest < fuel)%nat ->
  loop_walk p fuel start at_ seen = if existsb (deadline_waits p) (seen ++ rest) then None else Some (seen ++ rest).
Proof.
  induction rest as [|n rest IH]; intros fuel at_ seen Hl Hs Hnd Hf; (destruct fuel as [|fuel]; [simpl in Hf; lia|]); cbn [loop_walk].
  - simpl in Hl. rewrite Hl, Nat.eqb_refl, app_nil_r. done.
  - destruct Hl as [Hn Hl]. rewrite Hn. apply NoDup_app in Hnd as Hnd'. destruct Hnd' as (_ & Hd & Hr).
    assert (Hns : n ∉ seen) by (intros Hin; apply (Hd n Hin); left).
    destruct (Nat.eqb_spec n start) as [->|_]; [done|].
    destruct (contains seen n) eqn:Hc; [by apply contains_spec in Hc|].
    rewrite IH; [by rewrite <- app_assoc|done|set_solver|by rewrite <- app_assoc|simpl in Hf; lia].
Qed.

Lemma deadline_next_bound p i n : deadline_next p i = Some n -> (i < length (rp_stages p))%nat.
Proof. unfold deadline_next. destruct (rp_stages p !! i) eqn:Hi; [|done]. intros _. by eapply lookup_lt_Some. Qed.

Lemma leads_back_bound p start rest : forall at_, leads_back p start at_ rest -> Forall (fun i => (i < length (rp_stages p))%nat) (at_ :: rest).
Proof.
  induction rest as [|n rest IH]; intros at_ Hl.
  - constructor; [by eapply deadline_next_bound|done].
  - destruct Hl as [Hn Hl]. constructor; [by eapply deadline_next_bound|by apply IH].
Qed.

Lemma find_map_none_at {A B} (f : A -> option B) l x : find_map f l = None -> x ∈ l -> f x = None.
Proof.
  induction l as [|y l IH]; intros Hf Hx; [by apply elem_of_nil in Hx|]. simpl in Hf. destruct (f y) eqn:Hy; [done|].
  apply elem_of_cons in Hx as [->|Hx]; [done|by apply IH].
Qed.

(** What the walk returns is a loop that nowhere waits. *)
Lemma loop_walk_sound p start fuel : forall at_ seen path,
  loop_walk p fuel start at_ seen = Some path -> start ∈ seen -> NoDup seen ->
  exists rest, path = seen ++ rest /\ leads_back p start at_ rest /\ NoDup path /\
    existsb (deadline_waits p) path = false.
Proof.
  induction fuel as [|fuel IH]; intros at_ seen path Hw Hs Hnd; cbn [loop_walk] in Hw; [done|].
  destruct (deadline_next p at_) as [n|] eqn:Hn; [|done]. destruct (Nat.eqb_spec n start) as [->|Hne].
  - destruct (existsb _ seen) eqn:He; [done|]. injection Hw as <-. exists []. rewrite app_nil_r. by split_and!.
  - destruct (contains seen n) eqn:Hc; [done|].
    assert (Hns : n ∉ seen) by (rewrite <- contains_spec; by rewrite Hc).
    apply IH in Hw as (rest & -> & Hl & Hd & He); [|set_solver|].
    + exists (n :: rest). split_and!; [by rewrite <- app_assoc|done..].
    + apply NoDup_app. split_and!; [done| |apply NoDup_singleton]. set_solver.
Qed.

Lemma find_map_some {A B} (f : A -> option B) l y : find_map f l = Some y -> exists x, x ∈ l /\ f x = Some y.
Proof.
  induction l as [|x l IH]; [done|]. simpl. destruct (f x) eqn:Hx.
  - intros [= <-]. exists x. split; [left|done].
  - intros H. destruct (IH H) as (z & ? & ?). exists z. split; [by right|done].
Qed.

(** A loop visits each stage once, so the number of stages is fuel enough for the walk. *)
Lemma loop_fits p start rest : leads_back p start start rest -> NoDup (start :: rest) ->
  (length rest < length (rp_stages p))%nat.
Proof.
  intros Hl Hd. apply leads_back_bound in Hl. rewrite Forall_forall in Hl.
  assert (Hsub : (start :: rest) ⊆+ seq 0 (length (rp_stages p))).
  { apply NoDup_submseteq; [done|]. intros i Hi. apply elem_of_seq. specialize (Hl i Hi). lia. }
  apply submseteq_length in Hsub. rewrite length_seq in Hsub. simpl in Hsub. lia.
Qed.

(** ** Expressions the satisfiability check refuses *)

Lemma check_arms_all arms tol e : forall last,
  check_arms arms tol last = inl e -> forall arm, arm ∈ arms -> exists x, check_arm_satisfiable arm tol = inl x.
Proof.
  induction arms as [|a arms IH]; intros last Hc arm Hin; [by apply elem_of_nil in Hin|]. simpl in Hc.
  destruct (check_arm_satisfiable a tol) eqn:Ha; [|done].
  apply elem_of_cons in Hin as [->|Hin]; [by eexists|by eapply IH].
Qed.

(** ** The name-reuse tally *)

Lemma il_prior_small t b i at_ m n :
  Z.of_nat (map_or (t !! identity_key b i) O
     (fun l => length (List.filter (fun e => (e.1 <? at_) && (at_ - dur_days NAME_REUSE_WINDOW_DAYS <=? e.1) && negb (e.2 =? m)) l))) = n ->
  n <= u32_max -> il_prior t b i at_ m = n.
Proof. unfold il_prior. cbv zeta. intros -> Hn. by replace (n <=? u32_max) with true by lia. Qed.

(** ** Conditions *)

(** An entry condition on a metric that only grows, once the engine calls it
    permanently false at some value, is false at that value and at every larger one, so
    killing the arm loses no entry. *)
Theorem killed_entries_stay_false (m : MetricReq) (k : MonoMetricKill) (v v' : f64) :
  Forall (Forall (fun c => c_operator c <> OpEq)) (mq_conds m) ->
  mono_kill (ReqMetric m) = Some k -> permanently_false k v = true -> (v <=. v') = true ->
  eval (mq_conds m) v' (mq_tolerance m) = false.
Proof. apply permanently_false_sound. Qed.

Definition demo_young : MetricReq := {|
  mq_r := {| mr_metric := AgeSec; mr_tag := None; mr_span := SPAN_LIFE |}; mq_fingerprint := None;
  mq_tolerance := f_dec 5 1; mq_conds := [[{| c_operator := OpLt; c_value := f_of_Z 30 |}]]; mq_read_id := 0 |}.

Lemma killed_entries_stay_false_witness :
  eval (mq_conds demo_young) (f_of_Z 40) (mq_tolerance demo_young) = false /\
  eval (mq_conds demo_young) (f_of_Z 20) (mq_tolerance demo_young) = true.
Proof.
  split; [|by vm_compute].
  destruct (mono_kill (ReqMetric demo_young)) as [k|] eqn:Hk; [|vm_compute in Hk; discriminate].
  apply (killed_entries_stay_false demo_young k (f_of_Z 30)); [by repeat constructor|done| |by vm_compute].
  vm_compute in Hk. injection Hk as <-. by vm_compute.
Defined.

(** An expression holds at a value exactly when it is empty, or the value is finite
    and some non-empty group of it holds in full. *)
Theorem expression_is_any_of_all (arms : ConditionExpr) (v tol : f64) :
  eval arms v tol = true <->
  arms = [] \/
  (is_finite v = true /\
   exists arm, arm ∈ arms /\ arm <> [] /\ Forall (fun c => eval_one c v tol = true) arm).
Proof. apply eval_spec. Qed.

(** An expression of range conditions that the save check refuses holds at no value
    of its metric. *)
Theorem refused_expression_never_holds (arms : ConditionExpr) (tol : f64) (e : Unsatisfiable) (v : f64) :
  Forall (Forall (fun c => is_range c = true)) arms ->
  check_expr_satisfiable arms tol = inl e -> eval arms v tol = false.
Proof.
  intros Hr Hc. apply not_true_is_false. rewrite eval_spec. intros [->|(_ & arm & Hin & Hne & Hall)]; [done|].
  assert (Ha : exists x, check_arm_satisfiable arm tol = inl x).
  { destruct arms; [done|]. by eapply check_arms_all. }
  destruct Ha as [x Hx]. rewrite Forall_forall in Hr. by apply (check_arm_sound arm tol x v (Hr arm Hin) Hx).
Qed.

Lemma refused_expression_never_holds_witness :
  let arm := [{| c_operator := OpGt; c_value := f_of_Z 5 |}; {| c_operator := OpLt; c_value := f_of_Z 5 |}] in
  eval [arm] (f_of_Z 5) (f_of_Z 1) = false.
Proof.
  intros arm. destruct (check_expr_satisfiable [arm] (f_of_Z 1)) as [e|u] eqn:He; [|vm_compute in He; discriminate].
  apply (refused_expression_never_holds [arm] (f_of_Z 1) e); [by repeat constructor|done].
Defined.

(** ** Stages *)

(** The save check accepts a rule's stages exactly when every loop of deadline moves
    passes a stage that waits, so no bag moves between stages forever at one instant. *)
Theorem deadline_loops_wait (p : RuleParams) :
  check_deadline_loops p = None <->
  forall start rest, leads_back p start start rest -> NoDup (start :: rest) ->
    exists i, i ∈ start :: rest /\ deadline_waits p i = true.
Proof.
  unfold check_deadline_loops. split.
  - intros Hn start rest Hl Hd. pose proof (loop_fits p start rest Hl Hd) as Hf.
    pose proof (leads_back_bound p start rest start Hl) as Hb. apply Forall_cons in Hb as [Hb _].
    apply (find_map_none_at _ _ start) in Hn; [|apply elem_of_seq; lia].
    cbv beta in Hn. rewrite (loop_walk_finds p start rest _ start [start] Hl) in Hn; [|by left|done|done].
    destruct (existsb _ _) eqn:He; [|done]. apply existsb_exists in He as (i & Hi & Hw).
    exists i. split; [by apply list_elem_of_In|done].
  - intros Hall. destruct (find_map _ _) as [path|] eqn:Hf; [|done].
    apply find_map_some in Hf as (start & _ & Hw).
    apply loop_walk_sound in Hw as (rest & -> & Hl & Hd & He); [|by left|apply NoDup_singleton].
    destruct (Hall start rest Hl Hd) as (i & Hi & Hi'). rewrite existsb_false_elem in He. by rewrite (He i Hi) in Hi'.
Qed.

(** ** Sizes *)

(** Any sequence of sells, each sized off what the ones before left, sells no more
    than the bag; closed by a full sell it sells exactly the bag. *)
Theorem sells_add_up (initial sold : Z) (ps : list Portion) :
  0 <= sold <= initial ->
  sold <= sell_all initial sold ps <= initial /\ sell_all initial sold (ps ++ [PAll]) = initial.
Proof. intros Hs. split; [by apply sell_all_bounds|by apply sell_all_closes]. Qed.

Lemma sells_add_up_witness :
  sell_all 1000 0 [BpsOfInitial 5000; BpsOfRemaining 5000] = 750 /\
  sell_all 1000 0 ([BpsOfInitial 5000; BpsOfRemaining 5000] ++ [PAll]) = 1000.
Proof.
  split; [by vm_compute|]. apply (sells_add_up 1000 0 [BpsOfInitial 5000; BpsOfRemaining 5000]). lia.
Defined.

(** A sell of a positive share of a non-empty bag sells at least one token. *)
Theorem sells_make_progress (initial sold bps : Z) :
  0 < sat_sub initial sold <= u64_max -> 0 < bps <= 10000 ->
  0 < token_amount (BpsOfRemaining bps) initial sold <= sat_sub initial sold.
Proof.
  intros Hr Hb. pose proof (token_amount_bounds (BpsOfRemaining bps) initial sold).
  pose proof (token_amount_progress (BpsOfRemaining bps) initial sold Hr Hb). lia.
Qed.

Lemma sells_make_progress_witness : 0 < token_amount (BpsOfRemaining 1) 7 4 <= 3.
Proof. apply (sells_make_progress 7 4 1); [by vm_compute|lia]. Defined.

(** ** Prices *)

(** From a fill on, whatever prices are folded, the remembered peak and trough
    enclose the entry price and every finite price seen, and each is one of them. *)
Theorem extremes_enclose_the_path (p : f64) (t : Ts) (ps : list f64) :
  is_nan p = false ->
  let c := foldl fold_price (at_fill p t) ps in
  Forall (fun q => is_finite q = true -> (px_trough_price c <=. q) = true /\ (q <=. px_peak_price c) = true) ps /\
  (px_trough_price c <=. p) = true /\ (p <=. px_peak_price c) = true /\
  px_peak_price c ∈ p :: ps /\ px_trough_price c ∈ p :: ps /\ px_entry_price c = p.
Proof.
  intros Hp. destruct (fold_prices_enclose (at_fill p t) ps (at_fill_ok p t Hp)) as ((Ht & Hk) & _ & _ & Hall).
  destruct (fold_prices_witnessed (at_fill p t) ps) as [Hw1 Hw2].
  rewrite fold_prices_keep_entry in Ht, Hk. pose proof (fold_prices_keep_entry (at_fill p t) ps). by split_and!.
Qed.

Lemma extremes_enclose_the_path_witness :
  let c := foldl fold_price (at_fill (f_of_Z 10) 0) [f_of_Z 12; f_nan; f_of_Z 9] in
  px_peak_price c = f_of_Z 12 /\ px_trough_price c = f_of_Z 9 /\ px_entry_price c = f_of_Z 10.
Proof.
  intros c. split_and!; [by vm_compute|by vm_compute|].
  apply (extremes_enclose_the_path (f_of_Z 10) 0 [f_of_Z 12; f_nan; f_of_Z 9]). by vm_compute.
Defined.

(** Over any prints, the coin's trough, last and peak price are all known or all
    unknown, finite, and in this order. *)
Theorem coin_prices_stay_ordered (created : Ts) (prints : list (f64 * Ts)) :
  Coin_facts.path_ok (foldl (fun s e => Price_lifetime.on_trade s e.1 e.2) (Price_lifetime.new created) prints).
Proof.
  assert (H : forall s, Coin_facts.path_ok s ->
    Coin_facts.path_ok (foldl (fun s e => Price_lifetime.on_trade s e.1 e.2) s prints)).
  { induction prints as [|[p t] prints IH]; intros s Hs; [done|]. apply IH. by apply Coin_facts.on_trade_ok. }
  apply H, Coin_facts.new_ok.
Qed.

(** ** Guards *)

(** An attempt on one coin blocks, until the window has passed, every other coin of
    the same identity in the same trade mode. *)
Theorem copycat_is_blocked (g : DupeGuard.t) (mode : TradeMode) (id : Z) (mint : Mint) (at_ : Ts) (mint' : Mint) (now : Ts) :
  DupeGuard.enabled g = true -> mint' <> mint -> now < at_ + DupeGuard.window g ->
  DupeGuard.blocks (DupeGuard.record g mode (Some id) mint at_) mode (Some id) mint' now = true.
Proof. apply DupeGuard.record_blocks. Qed.

Lemma copycat_is_blocked_witness :
  DupeGuard.blocks (DupeGuard.record (DupeGuard.set_policy DupeGuard.default true 4) Real (Some 77) "A" 0)
    Real (Some 77) "B" (dur_hours 3) = true.
Proof. apply copycat_is_blocked; [done|done|by vm_compute]. Defined.

(** What happens to the guard's memory. *)
Inductive GuardOp :=
  | GRecord (mode : TradeMode) (identity : option Z) (mint : Mint) (at_ : Ts)
  | GPrune (now : Ts)
  | GPolicy (on : bool) (hours : Z).

Definition guard_step (g : DupeGuard.t) (op : GuardOp) : DupeGuard.t :=
  match op with
  | GRecord mode identity mint at_ => DupeGuard.record g mode identity mint at_
  | GPrune now => DupeGuard.prune g now
  | GPolicy on hours => DupeGuard.set_policy g on hours
  end.

(** Over any attempts, prunings and policy changes the guard keeps at most eight
    coins per identity and mode. *)
Theorem guard_memory_is_bounded (ops : list GuardOp) :
  DupeGuard.bounded_memory (foldl guard_step DupeGuard.default ops).
Proof.
  assert (H : forall g, DupeGuard.bounded_memory g -> DupeGuard.bounded_memory (foldl guard_step g ops)).
  { induction ops as [|op ops IH]; intros g Hg; [done|]. apply IH.
    destruct op; simpl; [by apply DupeGuard.bounded_record|by apply DupeGuard.bounded_prune|].
    intros mode id l Hl. apply (Hg mode id l). by destruct mode. }
  apply H, DupeGuard.bounded_default.
Qed.

(** Pruning the guard's memory changes no verdict from then on. *)
Theorem guard_pruning_is_invisible (g : DupeGuard.t) (now : Ts) (mode : TradeMode) (identity : option Z) (mint : Mint) (now' : Ts) :
  now <= now' -> DupeGuard.blocks (DupeGuard.prune g now) mode identity mint now' = DupeGuard.blocks g mode identity mint now'.
Proof. apply DupeGuard.prune_neutral. Qed.

Lemma guard_pruning_is_invisible_witness :
  let g := DupeGuard.record (DupeGuard.set_policy DupeGuard.default true 4) Paper (Some 5) "A" 0 in
  DupeGuard.blocks (DupeGuard.prune g (dur_hours 2)) Paper (Some 5) "B" (dur_hours 3) = true /\
  DupeGuard.blocks (DupeGuard.prune g (dur_hours 5)) Paper (Some 5) "B" (dur_hours 5) = false.
Proof. intros g. rewrite !guard_pruning_is_invisible by (vm_compute; congruence). by vm_compute. Defined.

(** A coin is called dead exactly when its newest reserves are known and under the
    floor and no meaningful trade came for the whole quiet period. *)
Theorem dead_verdict_means_drained_and_quiet (reserves : option f64) (last_meaningful now : Ts) :
  Deadness.is_dead_verdict reserves last_meaningful now = true <->
  (exists sol, reserves = Some sol /\ (sol <. Deadness.DEAD_MAX_LIQUIDITY_SOL) = true) /\
  last_meaningful + dur_seconds Deadness.DEAD_QUIET_SECS <= now.
Proof. apply Deadness.is_dead_verdict_iff. Qed.

(** A buy is stamped as made through a public app exactly when yesterday's table has
    a row of its recipe with more than a hundred buyers who bought twice on average. *)
Theorem public_stamp_is_the_table (t : TradeLite) (breadth : list BuildBreadth) :
  t_side t = Buy ->
  t_build_day_public (stamp_public t (Some (public_recipes breadth))) = Some true <->
  exists b, b ∈ breadth /\ t_build_hash t = Some (bb_build_hash b) /\
    100 < bb_app_buyers b /\ 2 * bb_app_buyers b <= bb_app_buys b.
Proof. apply stamp_public_spec. Qed.

Definition demo_public_buy (hash : Z) : TradeLite := {|
  t_side := Buy; t_sol := f_of_Z 1; t_price := f_of_Z 1; t_reserve_sol := f_of_Z 40;
  t_priced_reserve_sol := f_of_Z 40; t_at := 0; t_ix_hash := None; t_wallet_hash := 11; t_slot := 100;
  t_marker_bits := 0; t_leg_index := 0; t_tx_index := None; t_template_hash := None; t_program_hash := None;
  t_build_hash := Some hash; t_core_hash := None; t_core_marks := 0; t_on_curve := true; t_is_launch := false;
  t_fee := FeeKeys_default; t_token_amount := f_of_Z 1000; t_build_day_public := None |}.

Lemma public_stamp_is_the_table_witness :
  t_build_day_public (stamp_public (demo_public_buy 9)
    (Some (public_recipes [{| bb_build_hash := 9; bb_app_buyers := 101; bb_app_buys := 202 |}]))) = Some true.
Proof.
  apply public_stamp_is_the_table; [done|]. eexists. split; [left|]. split_and!; [done|by vm_compute|by vm_compute].
Defined.

(** The name-reuse tally counts each other coin of the identity launched in the
    thirty days before, and never the coin that asks. *)
Theorem name_reuse_counts_the_others (t : IdentityLaunches) (b i : Z) (at' : Ts) (m' : Z) (at_ : Ts) (m : Z) :
  m' <> m -> at' < at_ -> at_ - dur_days NAME_REUSE_WINDOW_DAYS <= at' ->
  existsb (fun e => e.2 =? m') (unwrap_or (t !! identity_key b i) []) = false ->
  il_prior t b i at_ m < u32_max ->
  il_prior (il_record t b i at' m') b i at_ m = il_prior t b i at_ m + 1 /\
  (forall at0, il_prior (il_record t b i at0 m) b i at_ m = il_prior t b i at_ m).
Proof.
  intros Hne Hlt Hfrom Hnew Hcap.
  set (f := fun e : Ts * Z => (e.1 <? at_) && (at_ - dur_days NAME_REUSE_WINDOW_DAYS <=? e.1) && negb (e.2 =? m)).
  set (l := unwrap_or (t !! identity_key b i) []) in *.
  assert (Hn : il_prior t b i at_ m = Z.of_nat (length (List.filter f l))).
  { unfold il_prior in *. cbv zeta in *. fold f in Hcap |- *. unfold l. destruct (t !! identity_key b i) as [k|]; simpl in *; [|done].
    destruct (Z.of_nat (length (List.filter f k)) <=? u32_max); [done|lia]. }
  rewrite Hn in Hcap |- *. split.
  - apply il_prior_small; [|lia]. unfold il_record. cbv zeta. fold l. rewrite Hnew, lookup_insert_eq. cbn [map_or].
    rewrite List.filter_app, length_app. fold f. cbn [List.filter]. unfold f at 2. cbn [fst snd].
    replace (at' <? at_) with true by lia. replace (_ <=? at') with true by lia.
    replace (m' =? m) with false by lia. simpl. lia.
  - intros at0. apply il_prior_small; [|lia]. unfold il_record. cbv zeta. fold l. rewrite lookup_insert_eq. cbn [map_or]. fold f.
    destruct (existsb (fun e => e.2 =? m) l); [done|]. rewrite List.filter_app, length_app. cbn [List.filter]. unfold f at 2. cbn [fst snd].
    rewrite Z.eqb_refl, !andb_false_r. simpl. lia.
Qed.

Lemma name_reuse_counts_the_others_witness : il_prior (il_record ∅ 1 2 10 3) 1 2 20 4 = 1.
Proof. rewrite (proj1 (name_reuse_counts_the_others ∅ 1 2 10 3 20 4 ltac:(done) ltac:(done) ltac:(by vm_compute) ltac:(by vm_compute) ltac:(by vm_compute))). by vm_compute. Defined.
