(* ===== verification/MatchProps.v ===== *)
(** * MatchProps: what the creation matcher promises

    The span algebra of the numeric predicates, the two match phases and the canonical
    form of a fingerprint. *)

From S2P Require Export Fingerprint TradeKeys Fee Tags.

(** ** Numeric predicates *)

(** The span algebra computes with sets of [u128] values: union, intersection and
    complement hold exactly the values they should, and stay canonical. *)
Theorem span_algebra_is_boolean (a b : SpanSet) :
  canonical a -> canonical b ->
  canonical (set_union a b) /\ canonical (set_intersect a b) /\ canonical (set_complement a) /\
  forall v, in_domain v ->
    set_mem (set_union a b) v = set_mem a v || set_mem b v /\
    set_mem (set_intersect a b) v = set_mem a v && set_mem b v /\
    set_mem (set_complement a) v = negb (set_mem a v).
Proof.
  intros Ha Hb. destruct (set_union_spec a b Ha Hb) as [Hu Mu]. destruct (set_intersect_spec a b Ha Hb) as [Hi Mi].
  destruct (set_complement_spec a Ha) as [Hc Mc]. split_and!; [done..|]. intros v Hv. by rewrite Mu, Mi, Mc.
Qed.

Lemma span_wf_bounded lo hi : 0 <= lo <= hi -> hi <= u128_max -> span_ok {| s_min := Some lo; s_max := Some hi |}.
Proof. intros. split; [split; cbn; unfold in_domain; lia|cbn; lia]. Qed.

Definition demo_low : SpanSet := [{| s_min := Some 0; s_max := Some 5 |}].
Definition demo_mid : SpanSet := [{| s_min := Some 4; s_max := Some 9 |}].

Lemma demo_spans_canonical : canonical demo_low /\ canonical demo_mid.
Proof.
  assert (9 <= u128_max) by (by vm_compute).
  split; (split; [constructor; [apply span_wf_bounded; lia|constructor]|repeat constructor]).
Qed.

Lemma span_algebra_is_boolean_witness :
  set_mem (set_union demo_low demo_mid) 7 = true /\ set_mem (set_intersect demo_low demo_mid) 7 = false /\
  set_mem (set_complement demo_low) 7 = true.
Proof.
  destruct demo_spans_canonical as [Ha Hb].
  destruct (span_algebra_is_boolean demo_low demo_mid Ha Hb) as (_ & _ & _ & Hm).
  destruct (Hm 7) as (H1 & H2 & H3); [split; by vm_compute|]. rewrite H1, H2, H3. by vm_compute.
Defined.

(** A numeric predicate accepted for storing matches exactly the values its spans
    list, so the matcher's early stop loses none; and rebuilding it from its set matches
    the same values. *)
Theorem stored_predicate_matches_its_spans (p : AxisPredicate) (v : Z) :
  pred_kind p = Numeric -> Forall span_wf (pred_spans p) -> pred_is_satisfiable p = true -> shape_problem p = None ->
  in_domain v ->
  matches_num p v = existsb (fun s => span_contains s v) (pred_spans p) /\
  matches_num (into_predicate (from_predicate p)) v = matches_num p v.
Proof.
  intros Hk Hw Hs Hp Hv.
  assert (Hm : matches_num p v = existsb (fun s => span_contains s v) (pred_spans p)).
  { destruct p as [min max|spans|labels]; [|simpl pred_spans in *|done].
    - simpl. by rewrite orb_false_r.
    - pose proof (shape_ok_canonical spans Hw Hs Hp) as Hc. simpl.
      by apply take_while_mem; [apply canonical_ascending|apply canonical_wf|]. }
  split; [done|]. destruct (from_spans_spec (pred_spans p) Hw) as [Hc Hf].
  unfold from_predicate. by rewrite matches_num_into_predicate, Hf, Hm by done.
Qed.

Lemma stored_predicate_matches_its_spans_witness :
  let p := Spans [{| s_min := Some 1; s_max := Some 2 |}; {| s_min := Some 7; s_max := None |}] in
  matches_num p 9 = true.
Proof.
  intros p. rewrite (proj1 (stored_predicate_matches_its_spans p 9 ltac:(done)
    ltac:(repeat constructor; vm_compute; congruence) ltac:(done) ltac:(by vm_compute) ltac:(split; by vm_compute))).
  by vm_compute.
Defined.

(** Two canonical sets of the same values have the same edges, span by span. *)
Theorem canonical_set_is_unique (a b : SpanSet) :
  canonical a -> canonical b -> (forall v, in_domain v -> set_mem a v = set_mem b v) ->
  span_edges <$> a = span_edges <$> b.
Proof. apply canonical_unique. Qed.

Lemma canonical_set_is_unique_witness : span_edges <$> set_complement (set_complement demo_low) = span_edges <$> demo_low.
Proof.
  destruct demo_spans_canonical as [Ha _]. destruct (set_complement_spec _ Ha) as [Hc Mc].
  destruct (set_complement_spec _ Hc) as [Hd Md].
  apply (canonical_set_is_unique _ _ Hd Ha). intros v Hv. by rewrite Md, Mc, negb_involutive.
Defined.

(** A negated range matches exactly the values outside the range. *)
Theorem negated_range_is_outside (min max : option Z) (v : Z) :
  span_wf {| s_min := min; s_max := max |} -> in_domain v ->
  matches_num (not_range min max) v = negb (span_contains {| s_min := min; s_max := max |} v).
Proof. apply not_range_spec. Qed.

Lemma negated_range_is_outside_witness : matches_num (not_range (Some 3) (Some 5)) 6 = true.
Proof.
  rewrite negated_range_is_outside; [by vm_compute| |split; by vm_compute].
  split; split; vm_compute; congruence.
Defined.

(** ** Phases *)

(** A fingerprint rejected at creation is still rejected when the first slot's sums
    are known, and one without first-slot axes is decided at creation. *)
Theorem creation_verdict_stands {TagDoc : Type} (fp : Fingerprint TagDoc) (tf : TokenFingerprint) (buy sell : option Z) :
  (matches_phase fp tf MpInstant = false -> matches_phase fp (set_first_slot tf buy sell) MpFull = false) /\
  (has_first_slot_criteria fp = false ->
   matches_phase fp (set_first_slot tf buy sell) MpFull = matches_phase fp tf MpInstant).
Proof.
  split; [|apply matches_instant_decides]. intros Hi. apply not_true_is_false. intros Hm.
  apply matches_full_instant in Hm. congruence.
Qed.

(** Putting a fingerprint into canonical order changes no verdict of either phase. *)
Theorem canonical_order_keeps_verdicts {TagDoc : Type} (shape_key : Criteria -> string) (fp : Fingerprint TagDoc)
    (tf : TokenFingerprint) (phase : MatchPhase) :
  Forall (fun c => c <> []) (alt_criteria fp) ->
  matches_phase (canonicalize shape_key fp) tf phase = matches_phase fp tf phase.
Proof. apply canonicalize_matches. Qed.

Definition demo_two_shapes : Fingerprint unit := {|
  f_id := 1; wildcard := false; criteria := [(CuPrice, pred_exact 5)]; alt_criteria := [[(CuLimit, pred_exact 3)]];
  exclude_criteria := []; f_tags := tt |}.

Definition demo_key (c : Criteria) : string := String.concat "," ((fun e => axis_key e.1) <$> c).

Lemma canonical_order_keeps_verdicts_witness :
  criteria (canonicalize demo_key demo_two_shapes) = [(CuLimit, pred_exact 3)] /\
  matches_phase (canonicalize demo_key demo_two_shapes) TokenFingerprint_default MpFull = false.
Proof.
  split; [by vm_compute|]. rewrite canonical_order_keeps_verdicts; [by vm_compute|by repeat constructor].
Defined.

(** An axis a shape asks about that the token has no value for fails the shape. *)
Theorem unknown_axis_never_matches (c : Criteria) (tf : TokenFingerprint) (a : AxisId) (p : AxisPredicate) :
  (a, p) ∈ c -> pred_kind p = Numeric -> read_num a tf = None -> shape_matches c tf MpFull = false.
Proof. apply unknown_axis_fails. Qed.

Lemma unknown_axis_never_matches_witness : shape_matches [(CuPrice, Range None None)] TokenFingerprint_default MpFull = false.
Proof. apply (unknown_axis_never_matches _ _ CuPrice (Range None None)); [left|done|done]. Defined.

(** ** What the build keys and tag documents promise

    The build core of a transaction, its packed marks, the fee rows of a tag and the
    compiled tags of a fingerprint's document. *)

(** The marks of a build core print to text and parse back to the same marks. *)
Theorem core_marks_print_and_parse (m : Z) :
  0 <= m < 2 ^ 24 -> core_marks_from_text (core_marks_text m) = inr m.
Proof. apply core_marks_roundtrip. Qed.

Lemma core_marks_print_and_parse_witness : core_marks_from_text (core_marks_text 66305) = inr 66305.
Proof. apply (core_marks_print_and_parse 66305). lia. Defined.

(** Two transactions with the same core labels have the same core key, and taking the
    core twice is taking it once, so the extras never show in the key. *)
Theorem core_key_sees_only_the_core (a b : list string) :
  a <> [] -> b <> [] -> core_labels a = core_labels b ->
  core_hash a = core_hash b /\ core_labels (core_labels a) = core_labels a.
Proof.
  intros Ha Hb He. split; [|apply core_labels_idem]. unfold core_hash.
  destruct a; [done|]. destruct b; [done|]. by rewrite !core_hash_go_labels, He.
Qed.

Lemma core_key_sees_only_the_core_witness :
  core_hash ["Compute Budget: SetComputeUnitLimit"; "Pump.Fun: BuyExactIn"] = core_hash ["Pump.Fun: Buy"; "Lighthouse: Assert"].
Proof. apply core_key_sees_only_the_core; [done|done|by vm_compute]. Defined.

(** A list of shape rows parses exactly when every row validates, and the parsed
    table matches a trade's exact key and fee exactly when one of the rows does, although
    rows subsumed by a wildcard are dropped. *)
Theorem shape_rows_match_one_by_one (rows : list Value) :
  (is_Some (rows_parse IxShapeRows_default rows) <-> rows_validate 0 rows = inr tt) /\
  forall parsed h fee, rows_parse IxShapeRows_default rows = Some parsed ->
    rows_match parsed (Some h) fee = existsb (row_hits h fee) rows.
Proof.
  split; [apply rows_parse_validate|]. intros parsed h fee Hp. rewrite (rows_parse_match rows _ _ h fee Hp).
  unfold rows_match. simpl. by rewrite lookup_empty.
Qed.

(** A tag document the save check accepts compiles to every tag it names, in its
    order, each under its name's key and carrying our own wallets. *)
Theorem saved_tags_compile (doc : Value) (own : gset Z) :
  validate_tags doc = inr tt ->
  ct_name <$> compile_doc doc own = tag_names doc /\
  forall t, t ∈ compile_doc doc own -> tp_own_wallets (ct_patterns t) = own /\ ct_key t = tag_key_of (ct_name t).
Proof.
  intros Hv. split; [by apply validated_compiles|]. intros t Ht. by apply compiled_tag_ok in Ht as (? & ? & _).
Qed.

Definition demo_doc : Value :=
  VObject [("bots"%string, VObject [("match"%string, VObject [("wallet"%string, VArray [VString "W1"])])])].

Lemma saved_tags_compile_witness : ct_name <$> compile_doc demo_doc ∅ = ["bots"%string].
Proof. rewrite (proj1 (saved_tags_compile demo_doc ∅ ltac:(by vm_compute))). by vm_compute. Defined.

(** A trade of one of our own wallets never carries a tag compiled from a document,
    unless it is the unknown wallet. *)
Theorem own_trades_carry_no_tag (doc : Value) (own : gset Z) (c : CompiledTag TagPatterns) (s : TagState) (t : TradeLite) :
  c ∈ compile_doc doc own -> ts_patterns s = ct_patterns c ->
  t_wallet_hash t ∈ own -> t_wallet_hash t <> 0 -> tag_matches s t = false.
Proof.
  intros Hc Hp Ho Hn. apply compiled_tag_ok in Hc as (He & _). unfold tag_matches. rewrite Hp, He.
  rewrite bool_decide_true by done. by replace (t_wallet_hash t =? 0) with false by lia.
Qed.

Lemma own_trades_carry_no_tag_witness :
  match compile_doc demo_doc {[ wallet_hash "W1" ]} with
  | c :: _ => forall t, t_wallet_hash t = wallet_hash "W1" -> tag_matches (TagState_new (ct_patterns c)) t = false
  | [] => False
  end.
Proof.
  destruct (compile_doc demo_doc {[ wallet_hash "W1" ]}) as [|c l] eqn:E.
  - assert (Hn : length (compile_doc demo_doc {[ wallet_hash "W1" ]}) = 1%nat) by (vm_compute; reflexivity).
    rewrite E in Hn. discriminate.
  - intros t Ht. apply (own_trades_carry_no_tag demo_doc {[ wallet_hash "W1" ]} c); [rewrite E; left|done| |].
    + rewrite Ht. by apply elem_of_singleton.
    + rewrite Ht. vm_compute. congruence.
Defined.
