(* ===== verification/TrackProps.v ===== *)
(** * TrackProps: what a coin's metrics and build keys promise

    The windowed reads a rule's conditions get are the readings of the whole history of
    trades; the keys and tag documents the metrics are matched with round-trip. *)

From S2P Require Export Track WindowFacts PriceFacts Scenario.

(** ** A coin's track drives each of its windows

    A run of trades and clock ticks, seen by one registered window: the operations the
    track passes on to it, in order, on a clock that never goes back. *)

(** ** A run of the track *)

Inductive TrackEv := EvTrade (tr : TradeLite) | EvTick (now : Ts) (slot : option Z).

Definition track_step (t : TokenTrack) (ev : TrackEv) : TokenTrack :=
  match ev with EvTrade tr => tt_on_trade t tr | EvTick now slot => tt_on_tick t now slot end.

Definition track_run (t : TokenTrack) (evs : list TrackEv) : TokenTrack := foldl track_step t evs.

Definition ev_at (ev : TrackEv) : Ts := match ev with EvTrade tr => t_at tr | EvTick now _ => now end.

(** The events' times never go back. *)
Fixpoint timed (now : Ts) (evs : list TrackEv) : Prop :=
  match evs with [] => True | ev :: evs => now <= ev_at ev /\ timed (ev_at ev) evs end.

Fixpoint last_at (now : Ts) (evs : list TrackEv) : Ts :=
  match evs with [] => now | ev :: evs => last_at (ev_at ev) evs end.

(** The slots fit the signed cursor. *)
Definition slot_ok (ev : TrackEv) : Prop :=
  match ev with
  | EvTrade tr => 0 <= t_slot tr <= i64_max
  | EvTick _ (Some s) => 0 <= s <= i64_max
  | EvTick _ None => True
  end.

(** ** What one window is passed *)

(** The window's position of [ev] and its clock after it. *)
Definition ev_now (spec : WindowSpec) (t : TokenTrack) (ev : TrackEv) : Z :=
  w_now_pos spec (ev_at ev) (tt_cursor (track_step t ev)).

Definition flow_op (spec : WindowSpec) (t : TokenTrack) (ev : TrackEv) : FlowOp :=
  match ev with
  | EvTrade tr => FTrade (t_side tr) (t_sol tr) (w_pos spec (t_at tr) (at_trade (tt_cursor (tt_on_trade t tr)) tr)) (ev_now spec t ev)
  | EvTick _ _ => FTick (ev_now spec t ev)
  end.

Fixpoint flow_ops (spec : WindowSpec) (t : TokenTrack) (evs : list TrackEv) : list FlowOp :=
  match evs with [] => [] | ev :: evs => flow_op spec t ev :: flow_ops spec (track_step t ev) evs end.

Definition price_op (spec : WindowSpec) (t : TokenTrack) (ev : TrackEv) : PriceOp :=
  match ev with EvTrade tr => PTrade (t_price tr) (ev_now spec t ev) | EvTick _ _ => PTick (ev_now spec t ev) end.

Fixpoint price_ops (spec : WindowSpec) (t : TokenTrack) (evs : list TrackEv) : list PriceOp :=
  match evs with [] => [] | ev :: evs => price_op spec t ev :: price_ops spec (track_step t ev) evs end.

Lemma fw_evict_spec w now : fw_spec (fw_evict w now) = fw_spec w.
Proof. unfold fw_evict. destruct (w_bounds _ _). by destruct (drop_while_fold _ _ _ _). Qed.

Lemma flow_step_spec w op : fw_spec (flow_step w op) = fw_spec w.
Proof.
  destruct op as [side sol pos now|now]; simpl; [|apply fw_evict_spec]. unfold fw_on_trade.
  destruct (negb _); [done|]. rewrite fw_evict_spec. by destruct side.
Qed.

Lemma price_step_spec w op : pw_spec (price_step w op) = pw_spec w.
Proof.
  assert (He : forall w now, pw_spec (pw_evict w now) = pw_spec w) by (intros w' now; unfold pw_evict; by destruct (w_bounds _ _)).
  destruct op as [price now|now]; simpl; [|apply He]. unfold pw_on_trade. destruct (negb _); [done|]. by rewrite He.
Qed.

(** A registered flow window runs exactly the operations of the track's events. *)
Lemma track_window_run key spec evs : forall t w,
  tt_windows t !! key = Some w -> fw_spec w = spec ->
  tt_windows (track_run t evs) !! key = Some (foldl flow_step w (flow_ops spec t evs)).
Proof.
  induction evs as [|ev evs IH]; intros t w Hw Hs; [done|]. cbn [flow_ops foldl].
  apply (IH (track_step t ev)); [|by rewrite flow_step_spec]. subst spec.
  destruct ev as [tr|now slot]; cbn [track_step tt_on_trade tt_on_tick tt_windows]; rewrite lookup_fmap, Hw; done.
Qed.

(** A time-unit price window likewise: its trades come at the clock's position. *)
Lemma track_price_run key spec evs : forall t w,
  w_unit spec = UnitSec -> tt_price_windows t !! key = Some w -> pw_spec w = spec ->
  tt_price_windows (track_run t evs) !! key = Some (foldl price_step w (price_ops spec t evs)).
Proof.
  induction evs as [|ev evs IH]; intros t w Hu Hw Hs; [done|]. cbn [price_ops foldl].
  apply (IH (track_step t ev)); [done| |by rewrite price_step_spec].
  destruct ev as [tr|now slot]; cbn [track_step tt_on_trade tt_on_tick tt_price_windows]; rewrite lookup_fmap, Hw;
    cbn; rewrite Hs; do 2 f_equal; unfold ev_now, w_now_pos, w_pos; by rewrite Hu.
Qed.

(** ** The clock of a window *)

(** The cursor's counters fit the signed positions for the next [n] events. *)
Definition cursor_ok (t : TokenTrack) (n : nat) : Prop :=
  0 <= tt_cur_slot t <= i64_max /\ 0 <= tt_n_prints t /\ tt_n_prints t + Z.of_nat n <= i64_max.

Lemma u64_small x : 0 <= x <= i64_max -> u64_as_i64 x = x.
Proof. unfold u64_as_i64. intros H. by replace (x <=? i64_max) with true by lia. Qed.

Lemma millis_mono a b : a <= b -> timestamp_millis a <= timestamp_millis b.
Proof. intros. unfold timestamp_millis. apply Z.div_le_mono; [done|lia]. Qed.

Lemma track_step_cursor t ev n :
  cursor_ok t (S n) -> slot_ok ev ->
  cursor_ok (track_step t ev) n /\ tt_cur_slot t <= tt_cur_slot (track_step t ev) /\
  tt_n_prints t <= tt_n_prints (track_step t ev).
Proof.
  unfold cursor_ok. intros (Hs & Hp & Hn) Hev.
  assert (Hmax : i64_max < 2 ^ 64) by (by vm_compute).
  destruct ev as [tr|now [s|]]; cbn [track_step tt_on_trade tt_on_tick tt_cur_slot tt_n_prints map_or] in *;
    cbn [slot_ok] in Hev; try (unfold wrap_u; rewrite Z.mod_small by lia); lia.
Qed.

Lemma w_now_mono spec a b t t' n :
  a <= b -> cursor_ok t n -> cursor_ok t' n -> tt_cur_slot t <= tt_cur_slot t' -> tt_n_prints t <= tt_n_prints t' ->
  w_now_pos spec a (tt_cursor t) <= w_now_pos spec b (tt_cursor t').
Proof.
  unfold cursor_ok, w_now_pos, w_pos, tt_cursor. cbn [cur_slot_of cur_print_of]. intros Hab Ht Ht' Hs Hn.
  destruct (w_unit spec); [by apply millis_mono| |]; rewrite !u64_small by lia; done.
Qed.

Lemma cursor_ok_le t n m : cursor_ok t n -> (m <= n)%nat -> cursor_ok t m.
Proof. unfold cursor_ok. lia. Qed.

(** Ordered times make the window's clock ordered, up to any later read. *)
Lemma track_clocked spec evs : forall t now,
  timed now evs -> Forall slot_ok evs -> cursor_ok t (length evs) ->
  clocked (w_now_pos spec now (tt_cursor t)) (flow_ops spec t evs) /\
  price_clocked (w_now_pos spec now (tt_cursor t)) (price_ops spec t evs) /\
  end_now (w_now_pos spec now (tt_cursor t)) (flow_ops spec t evs) =
    w_now_pos spec (last_at now evs) (tt_cursor (track_run t evs)) /\
  price_end (w_now_pos spec now (tt_cursor t)) (price_ops spec t evs) =
    w_now_pos spec (last_at now evs) (tt_cursor (track_run t evs)).
Proof.
  induction evs as [|ev evs IH]; intros t now Ht Hs Hc; [done|]. destruct Ht as [Hn Ht].
  apply Forall_cons in Hs as [Hs1 Hs]. destruct (track_step_cursor t ev (length evs) Hc Hs1) as (Hc' & Hm1 & Hm2).
  assert (Hmono : w_now_pos spec now (tt_cursor t) <= ev_now spec t ev).
  { apply (w_now_mono _ _ _ _ _ (length evs)); [done|apply (cursor_ok_le _ (S (length evs))); [exact Hc|lia]|done..]. }
  assert (H1 : op_now (flow_op spec t ev) = ev_now spec t ev) by (by destruct ev).
  assert (H2 : price_now (price_op spec t ev) = ev_now spec t ev) by (by destruct ev).
  cbn [flow_ops price_ops clocked price_clocked end_now price_end last_at]. rewrite H1, H2.
  destruct (IH (track_step t ev) (ev_at ev) Ht Hs Hc') as (I1 & I2 & I3 & I4). by split_and!.
Qed.

Lemma flow_ops_length spec evs : forall t, length (flow_ops spec t evs) = length evs.
Proof. induction evs as [|ev evs IH]; intros t; [done|]. cbn [flow_ops length]. by rewrite IH. Qed.

(** Trades whose amounts carry no sign. *)
Definition ev_unsigned (ev : TrackEv) : Prop :=
  match ev with EvTrade tr => is_sign_negative (t_sol tr) = false | EvTick _ _ => True end.

Lemma flow_ops_unsigned spec evs : forall t, Forall ev_unsigned evs -> Forall unsigned (flow_ops spec t evs).
Proof.
  induction evs as [|ev evs IH]; intros t Hu; [constructor|]. apply Forall_cons in Hu as [H1 Hu].
  cbn [flow_ops]. constructor; [by destruct ev|by apply IH].
Qed.

(** ** The crowd window *)

(** A trade whose amount is not admitted passes nothing on. *)
Definition key_op (spec : WindowSpec) (t : TokenTrack) (ev : TrackEv) : list KeyOp :=
  match ev with
  | EvTrade tr =>
      if is_foldable (t_sol tr)
      then [KPush (t_wallet_hash tr) (w_pos spec (t_at tr) (at_trade (tt_cursor (tt_on_trade t tr)) tr)) (ev_now spec t ev)]
      else []
  | EvTick _ _ => [KTick (ev_now spec t ev)]
  end.

Fixpoint key_ops (spec : WindowSpec) (t : TokenTrack) (evs : list TrackEv) : list KeyOp :=
  match evs with [] => [] | ev :: evs => key_op spec t ev ++ key_ops spec (track_step t ev) evs end.

Lemma dw_evict_spec w now : dw_spec (dw_evict w now) = dw_spec w.
Proof. unfold dw_evict. destruct (w_bounds _ _). by destruct (drop_while_fold _ _ _ _). Qed.

Lemma key_step_spec w op : dw_spec (key_step w op) = dw_spec w.
Proof. destruct op; simpl; [|apply dw_evict_spec]. unfold dw_push. by rewrite dw_evict_spec. Qed.

Lemma key_steps_spec ops : forall w, dw_spec (foldl key_step w ops) = dw_spec w.
Proof. induction ops as [|op ops IH]; intros w; [done|]. simpl. by rewrite IH, key_step_spec. Qed.

Lemma track_crowd_run key spec evs : forall t w,
  tt_crowd_windows t !! key = Some w -> dw_spec w = spec ->
  tt_crowd_windows (track_run t evs) !! key = Some (foldl key_step w (key_ops spec t evs)).
Proof.
  induction evs as [|ev evs IH]; intros t w Hw Hs; [done|]. cbn [key_ops]. rewrite foldl_app.
  apply (IH (track_step t ev)); [|by rewrite key_steps_spec]. subst spec.
  destruct ev as [tr|now slot]; cbn [track_step tt_on_trade tt_on_tick tt_crowd_windows key_op]; rewrite lookup_fmap, Hw; [|done].
  cbn. unfold Crowd_window.on_trade. by destruct (is_foldable (t_sol tr)).
Qed.

Lemma key_clocked_weaken a b ops : a <= b -> key_clocked b ops -> key_clocked a ops.
Proof. destruct ops; [done|]. cbn. intros ? [? ?]. split; [lia|done]. Qed.

Lemma key_end_mono ops : forall a b, a <= b -> key_end a ops <= key_end b ops.
Proof. induction ops as [|op ops IH]; intros a b Hab; simpl; [done|]. done. Qed.

Lemma track_key_clocked spec evs : forall t now,
  timed now evs -> Forall slot_ok evs -> cursor_ok t (length evs) ->
  key_clocked (w_now_pos spec now (tt_cursor t)) (key_ops spec t evs) /\
  key_end (w_now_pos spec now (tt_cursor t)) (key_ops spec t evs) <=
    w_now_pos spec (last_at now evs) (tt_cursor (track_run t evs)) /\
  (length (key_ops spec t evs) <= length evs)%nat.
Proof.
  induction evs as [|ev evs IH]; intros t now Ht Hs Hc; [by split_and!|]. destruct Ht as [Hn Ht].
  apply Forall_cons in Hs as [Hs1 Hs]. destruct (track_step_cursor t ev (length evs) Hc Hs1) as (Hc' & Hm1 & Hm2).
  assert (Hmono : w_now_pos spec now (tt_cursor t) <= ev_now spec t ev).
  { apply (w_now_mono _ _ _ _ _ (length evs)); [done|apply (cursor_ok_le _ (S (length evs))); [exact Hc|lia]|done..]. }
  destruct (IH (track_step t ev) (ev_at ev) Ht Hs Hc') as (I1 & I2 & I3).
  change (w_now_pos spec (ev_at ev) (tt_cursor (track_step t ev))) with (ev_now spec t ev) in *.
  cbn [key_ops last_at track_run foldl].
  assert (Hop : key_op spec t ev = [] \/ exists op, key_op spec t ev = [op] /\ key_now op = ev_now spec t ev).
  { destruct ev as [tr|nw slot]; cbn [key_op]; [destruct (is_foldable (t_sol tr)); [right|by left]|right]; by eexists. }
  destruct Hop as [->|(op & -> & Ho)]; cbn [app key_clocked key_end length].
  - split_and!; [by eapply key_clocked_weaken|etrans; [by apply key_end_mono|done]|lia].
  - rewrite Ho. split_and!; [done|done|done|lia].
Qed.

(** ** Windowed reads *)

Definition read_of (m : Metric) (spec : WindowSpec) : MetricRef :=
  {| mr_metric := m; mr_tag := None; mr_span := span_window spec |}.

Lemma tt_value_flow t m spec now w :
  family m = FamFlow -> m <> SliceTradeSharePct -> m <> SliceSolSharePct -> tt_windows t !! w_key spec = Some w ->
  tt_value t (read_of m spec) None now = fw_value w m (w_now_pos spec now (tt_cursor t)).
Proof.
  intros Hf H1 H2 Hw. unfold tt_value. cbn [mr_metric mr_tag mr_span read_of sp_window span_window]. rewrite Hf, Hw.
  by destruct m.
Qed.

Lemma tt_value_price t m spec now w :
  family m = FamPrice -> tt_price_windows t !! w_key spec = Some w ->
  tt_value t (read_of m spec) None now = pw_value w m (w_now_pos spec now (tt_cursor t)).
Proof.
  intros Hf Hw. unfold tt_value. cbn [mr_metric mr_tag mr_span read_of sp_window sp_since_amm span_window]. by rewrite Hf, Hw.
Qed.

Lemma tt_value_crowd t spec w now :
  tt_crowd_windows t !! w_key spec = Some w ->
  tt_value t (read_of UniqueWallets spec) None now = dw_distinct w (w_now_pos spec now (tt_cursor t)).
Proof.
  intros Hw. unfold tt_value. cbn [mr_metric mr_tag mr_span read_of sp_window span_window].
  change (family UniqueWallets) with FamCrowd. cbv iota. cbn [map_or]. by rewrite Hw.
Qed.

Lemma w_now_later spec a b t : a <= b -> w_now_pos spec a (tt_cursor t) <= w_now_pos spec b (tt_cursor t).
Proof. intros. unfold w_now_pos, w_pos. destruct (w_unit spec); [by apply millis_mono|done|done]. Qed.

Lemma fw_value_trades w pos : fw_value w TradeCount pos = fw_trade_count w pos.
Proof. unfold fw_value, fw_trade_count. by destruct (w_bounds _ _). Qed.

(** C25: over any run of a coin's trades and ticks in time order, a registered window's
    trade count and buy count, read at any later moment, are those of the whole history's
    admitted trades inside the window, whatever was evicted on the way. *)
Theorem windowed_counts_are_exact (spec : WindowSpec) (t : TokenTrack) (evs : list TrackEv) (now read_at : Ts) :
  tt_windows t !! w_key spec = Some (WindowState_new spec) -> w_ordered spec ->
  timed now evs -> Forall slot_ok evs -> Forall ev_unsigned evs -> cursor_ok t (length evs) ->
  Z.of_nat (length evs) < 2 ^ 32 -> last_at now evs <= read_at ->
  let t' := track_run t evs in
  let pos := w_now_pos spec read_at (tt_cursor t') in
  let h := inside (w_lo spec pos) (w_hi spec pos) (flow_history (flow_ops spec t evs)) in
  tt_value t' (read_of TradeCount spec) None read_at = f_of_Z (Z.of_nat (length h)) /\
  tt_value t' (read_of BuyCount spec) None read_at = f_of_Z (Z.of_nat (length (buys_of h))).
Proof.
  intros Hw Ho Ht Hs Hu Hc Hlen Hr. cbv zeta.
  destruct (track_clocked spec evs t now Ht Hs Hc) as (Hck & _ & He & _).
  pose proof (flow_run_inv spec (flow_ops spec t evs) (WindowState_new spec) [] (w_now_pos spec now (tt_cursor t))
    (flow_inv_new spec _) Hck (flow_ops_unsigned spec evs t Hu)) as Hi.
  rewrite flow_ops_length, Nat.add_0_r, He in Hi. specialize (Hi Hlen).
  pose proof (w_now_later spec (last_at now evs) read_at (track_run t evs) Hr) as Hle.
  rewrite !(tt_value_flow _ _ _ _ (foldl flow_step (WindowState_new spec) (flow_ops spec t evs))); try done;
    try (by apply (track_window_run _ spec)). split.
  - rewrite fw_value_trades. exact (flow_inv_trades spec _ _ _ _ Hi Hle Ho).
  - exact (flow_inv_buys spec _ _ _ _ Hi Hle Ho).
Qed.

Definition ten_secs : WindowSpec := {| w_size := f_of_Z 10; w_lag := f_zero; w_unit := UnitSec |}.
Definition demo_evs : list TrackEv :=
  [EvTrade (demo_trade Buy 2 100 1); EvTrade (demo_trade Sell 1 90 4); EvTrade (demo_trade Buy 3 95 9); EvTick (sec 12) None].
Definition demo_windowed : TokenTrack :=
  tt_ensure_crowd_window (tt_ensure_price_window (tt_ensure_window (TokenTrack_new 0) ten_secs) ten_secs) ten_secs.

Lemma demo_windowed_ok :
  timed 0 demo_evs /\ Forall slot_ok demo_evs /\ Forall ev_unsigned demo_evs /\ cursor_ok demo_windowed (length demo_evs).
Proof.
  split_and!; [cbn; unfold sec, ns_per_sec; lia| | |].
  - repeat constructor; vm_compute; congruence.
  - repeat constructor.
  - repeat split; vm_compute; congruence.
Qed.

Lemma windowed_counts_are_exact_witness :
  tt_value (track_run demo_windowed demo_evs) (read_of TradeCount ten_secs) None (sec 13) = f_of_Z 2 /\
  tt_value (track_run demo_windowed demo_evs) (read_of BuyCount ten_secs) None (sec 13) = f_of_Z 1.
Proof.
  destruct demo_windowed_ok as (H1 & H2 & H3 & H4).
  assert (Hreg : tt_windows demo_windowed !! w_key ten_secs = Some (WindowState_new ten_secs)) by (vm_compute; reflexivity).
  assert (Ho : w_ordered ten_secs) by (vm_compute; congruence).
  assert (Hl : Z.of_nat (length demo_evs) < 2 ^ 32) by (vm_compute; congruence).
  assert (Hr : last_at 0 demo_evs <= sec 13) by (vm_compute; congruence).
  destruct (windowed_counts_are_exact ten_secs demo_windowed demo_evs 0 (sec 13) Hreg Ho H1 H2 H3 H4 Hl Hr) as [Ha Hb].
  rewrite Ha, Hb. split; vm_compute; reflexivity.
Defined.

(** Over any such run, the distinct wallets a registered window reads are exactly
    the distinct wallets of the admitted trades inside it. *)
Theorem windowed_wallets_are_exact (spec : WindowSpec) (t : TokenTrack) (evs : list TrackEv) (now read_at : Ts) :
  tt_crowd_windows t !! w_key spec = Some (DistinctWindow_new spec) -> w_ordered spec ->
  timed now evs -> Forall slot_ok evs -> cursor_ok t (length evs) ->
  Z.of_nat (length evs) < 2 ^ 32 -> last_at now evs <= read_at ->
  let t' := track_run t evs in
  let pos := w_now_pos spec read_at (tt_cursor t') in
  tt_value t' (read_of UniqueWallets spec) None read_at =
    f_of_Z (distinct_keys (inside (w_lo spec pos) (w_hi spec pos) (key_history (key_ops spec t evs))).*2).
Proof.
  intros Hw Ho Ht Hs Hc Hlen Hr. cbv zeta.
  destruct (track_key_clocked spec evs t now Ht Hs Hc) as (Hck & He & Hl).
  pose proof (key_run_inv spec (key_ops spec t evs) (DistinctWindow_new spec) [] (w_now_pos spec now (tt_cursor t))
    (key_inv_new spec _) Hck ltac:(simpl length; lia)) as Hi.
  pose proof (w_now_later spec (last_at now evs) read_at (track_run t evs) Hr) as Hle.
  rewrite (tt_value_crowd _ _ (foldl key_step (DistinctWindow_new spec) (key_ops spec t evs))) by
    (by apply (track_crowd_run _ spec)).
  unfold dw_distinct. f_equal. apply (key_inv_distinct spec _ _ _ _ Hi); [lia|done].
Qed.

Lemma windowed_wallets_are_exact_witness :
  tt_value (track_run demo_windowed demo_evs) (read_of UniqueWallets ten_secs) None (sec 13) = f_of_Z 1.
Proof.
  destruct demo_windowed_ok as (H1 & H2 & H3 & H4).
  assert (Hreg : tt_crowd_windows demo_windowed !! w_key ten_secs = Some (DistinctWindow_new ten_secs)) by (vm_compute; reflexivity).
  assert (Ho : w_ordered ten_secs) by (vm_compute; congruence).
  assert (Hl : Z.of_nat (length demo_evs) < 2 ^ 32) by (vm_compute; congruence).
  assert (Hr : last_at 0 demo_evs <= sec 13) by (vm_compute; congruence).
  rewrite (windowed_wallets_are_exact ten_secs demo_windowed demo_evs 0 (sec 13) Hreg Ho H1 H2 H4 Hl Hr). vm_compute; reflexivity.
Defined.

(** Over any such run, an unlagged time window's dip below its high and rise above
    its low are those of the true high, low and newest price of the window; with no price
    inside both are not numbers. *)
Theorem windowed_prices_are_exact (spec : WindowSpec) (t : TokenTrack) (evs : list TrackEv) (now read_at : Ts) :
  tt_price_windows t !! w_key spec = Some (PriceWindow_new spec) -> w_unit spec = UnitSec -> unlagged spec ->
  timed now evs -> Forall slot_ok evs -> cursor_ok t (length evs) -> last_at now evs <= read_at ->
  let t' := track_run t evs in
  let ps := prices_inside spec (price_history (price_ops spec t evs)) (w_now_pos spec read_at (tt_cursor t')) in
  let dip := tt_value t' (read_of TrailPct spec) None read_at in
  let rise := tt_value t' (read_of RisePct spec) None read_at in
  match ps with
  | [] => dip = f_nan /\ rise = f_nan
  | cur :: _ => exists high low,
      high ∈ ps /\ (forall p, p ∈ ps -> (p <=. high) = true) /\ low ∈ ps /\ (forall p, p ∈ ps -> (low <=. p) = true) /\
      dip = (if high >. f_zero then (high ⊖ cur) ⊘ high ⊗ f_of_Z 100 else f_nan) /\
      rise = (if low >. f_zero then (cur ⊖ low) ⊘ low ⊗ f_of_Z 100 else f_nan)
  end.
Proof.
  intros Hw Hu Hun Ht Hs Hc Hr. cbv zeta.
  destruct (track_clocked spec evs t now Ht Hs Hc) as (_ & Hck & _ & He).
  pose proof (price_run_inv spec (price_ops spec t evs) (PriceWindow_new spec) [] _ (price_inv_new spec _) Hck) as Hi.
  rewrite He in Hi. pose proof (w_now_later spec (last_at now evs) read_at (track_run t evs) Hr) as Hle.
  pose proof (track_price_run (w_key spec) spec evs t _ Hu Hw eq_refl) as Hrun.
  rewrite (tt_value_price _ TrailPct spec _ _ eq_refl Hrun), (tt_value_price _ RisePct spec _ _ eq_refl Hrun).
  pose proof (reads_high spec _ _ _ _ Hi Hle Hun) as Hh. pose proof (reads_low spec _ _ _ _ Hi Hle Hun) as Hlo.
  pose proof (reads_current spec _ _ _ _ Hi Hle Hun) as Hcur. unfold pw_value, pw_trail, pw_rise.
  fold (price_history (price_ops spec t evs)) in *. rewrite Hcur.
  destruct (prices_inside _ _ _) as [|cur ps]; simpl head.
  - split; [by destruct (win_high _ _)|by destruct (win_low _ _)].
  - destruct (win_high _ _) as [high|]; [|done]. destruct (win_low _ _) as [low|]; [|done].
    destruct Hh, Hlo. exists high, low. by split_and!.
Qed.

Lemma ten_secs_unlagged : unlagged ten_secs.
Proof.
  intros n. unfold w_hi. rewrite w_bounds_shift. assert (E : (w_bounds ten_secs 0).2 = 0) by (vm_compute; reflexivity). rewrite E.
  simpl. lia.
Qed.

Lemma windowed_prices_are_exact_witness :
  exists high, high ∈ [f_dec 95 9; f_dec 90 9] /\ (f_dec 95 9 <=. high) = true /\
    tt_value (track_run demo_windowed demo_evs) (read_of TrailPct ten_secs) None (sec 13) =
      (if high >. f_zero then (high ⊖ f_dec 95 9) ⊘ high ⊗ f_of_Z 100 else f_nan).
Proof.
  destruct demo_windowed_ok as (H1 & H2 & H3 & H4).
  assert (Hreg : tt_price_windows demo_windowed !! w_key ten_secs = Some (PriceWindow_new ten_secs)) by (vm_compute; reflexivity).
  assert (Hr : last_at 0 demo_evs <= sec 13) by (vm_compute; congruence).
  assert (Hps : prices_inside ten_secs (price_history (price_ops ten_secs demo_windowed demo_evs))
    (w_now_pos ten_secs (sec 13) (tt_cursor (track_run demo_windowed demo_evs))) = [f_dec 95 9; f_dec 90 9]) by (vm_compute; reflexivity).
  pose proof (windowed_prices_are_exact ten_secs demo_windowed demo_evs 0 (sec 13) Hreg eq_refl ten_secs_unlagged H1 H2 H4 Hr) as H.
  cbv zeta in H. rewrite Hps in H. destruct H as (high & low & Hin & Hall & _ & _ & Hd & _).
  exists high. split_and!; [exact Hin|apply Hall; left|exact Hd].
Defined.

(** ** A lagged price window *)

Definition lagged : WindowSpec := {| w_size := f_of_Z 10; w_lag := f_of_Z 2; w_unit := UnitSec |}.

(** A price of 1 at 0 s and a price of 2 at 9 s. *)
Definition lag_ops : list PriceOp := [PTrade (f_of_Z 1) 0; PTrade (f_of_Z 2) 9000].

(** A lagged price window can miss a price that is inside it: the newer, higher price
    that popped it is still outside, so at 10 s the window [-2 s, 8 s] that holds the
    price of 0 s reads as empty. *)
Theorem lagged_price_window_misreads :
  price_clocked 0 lag_ops /\
  prices_inside lagged (price_history lag_ops) 10000 = [f_of_Z 1] /\
  win_high (foldl price_step (PriceWindow_new lagged) lag_ops) 10000 = None /\
  is_nan (pw_value (foldl price_step (PriceWindow_new lagged) lag_ops) TrailPct 10000) = true.
Proof. split_and!; [cbn; lia|by vm_compute..]. Qed.
