(* ===== verification/Quotes.v ===== *)
(** * Quotes: the swap arithmetic of the PumpFun executor

    [shared/executor/pumpfun/src/price.rs] (bonding-curve floors, the simulated curve of
    a launch, the PumpSwap fee tiers), the sizing of a PumpSwap swap in
    [trader/amm.rs] and the reserve cache of [trader/reserves.rs].

    A [u128] saturates where the source saturates; [as u64] wraps.  Accounts are byte
    lists, [Instant] is a nanosecond count, the [DashMap]s are [gmap]s whose operations
    are atomic.  What the RPC node answers is an argument. *)

From S2P Require Export Float64.

Definition sat_mul (top x y : Z) : Z := Z.min top (x * y).

Definition u128_sub : Z -> Z -> Z := sat_sub.
Definition u128_add : Z -> Z -> Z := sat_add u128_max.
Definition u128_mul : Z -> Z -> Z := sat_mul u128_max.
Definition as_u64 : Z -> Z := wrap_u 64.

Definition BPS_DENOM : Z := 10000.

(** ** The bonding curve *)

Definition curve_buy_min_out (buy_lamports : Z) (slippage_bps : option Z) (reserves : option (Z * Z))
    (curve_fee_buffer_bps : Z) : Z :=
  match slippage_bps, reserves with
  | Some slip, Some (vt, vq) =>
      let net := u128_mul buy_lamports (u128_sub 10000 curve_fee_buffer_bps) / 10000 in
      let denom := u128_add vq net in
      if denom =? 0 then 1
      else
        let expected := u128_mul vt net / denom in
        Z.max 1 (as_u64 (u128_mul expected (u128_sub 10000 slip) / 10000))
  | _, _ => 1
  end.

Definition curve_sell_min_out (token_amount : Z) (slippage_bps : option Z) (reserves : option (Z * Z))
    (curve_fee_buffer_bps : Z) : Z :=
  match slippage_bps, reserves with
  | Some slip, Some (vt, vq) =>
      let denom := u128_add vt token_amount in
      if denom =? 0 then 1
      else
        let gross := u128_mul vq token_amount / denom in
        let net := u128_mul gross (u128_sub 10000 curve_fee_buffer_bps) / 10000 in
        Z.max 1 (as_u64 (u128_mul net (u128_sub 10000 slip) / 10000))
  | _, _ => 1
  end.

Definition INITIAL_VIRTUAL_TOKEN_RESERVES : Z := 1073000000000000.
Definition INITIAL_VIRTUAL_SOL_RESERVES : Z := 30000000000.

Definition fresh_curve_reserves : Z * Z := (INITIAL_VIRTUAL_TOKEN_RESERVES, INITIAL_VIRTUAL_SOL_RESERVES).

Definition apply_curve_buy (reserves : Z * Z) (buy_lamports curve_fee_buffer_bps : Z) : Z * Z :=
  let '(vt, vq) := reserves in
  let net := u128_mul buy_lamports (u128_sub 10000 curve_fee_buffer_bps) / 10000 in
  let denom := u128_add vq net in
  if denom =? 0 then reserves
  else
    let tokens_out := u128_mul vt net / denom in
    (u128_sub vt tokens_out, u128_add vq net).

(** The loop of [simulate_launch_leg_reserves]: push, then advance. *)
Fixpoint leg_reserves (reserves : Z * Z) (cobuy_lamports : list Z) (fee : Z) : list (Z * Z) :=
  match cobuy_lamports with
  | [] => []
  | lamports :: rest => reserves :: leg_reserves (apply_curve_buy reserves lamports fee) rest fee
  end.

Definition simulate_launch_leg_reserves (fee dev_buy_lamports : Z) (cobuy_lamports : list Z) : list (Z * Z) :=
  let reserves := fresh_curve_reserves in
  let reserves := if 0 <? dev_buy_lamports then apply_curve_buy reserves dev_buy_lamports fee else reserves in
  leg_reserves reserves cobuy_lamports fee.

(** ** PumpSwap fee tiers *)

Record AmmFeeTier := mkTier {
  market_cap_threshold_lamports : Z;
  lp_fee_bps : Z;
  protocol_fee_bps : Z;
  creator_fee_bps : Z
}.

#[export] Instance AmmFeeTier_eq_dec : EqDecision AmmFeeTier.
Proof. solve_decision. Defined.

Definition tier_at (tiers : list AmmFeeTier) (market_cap : Z) (first : AmmFeeTier) : AmmFeeTier :=
  unwrap_or (find_first (fun t => market_cap_threshold_lamports t <=? market_cap) (rev tiers)) first.

Definition amm_tier_fee_bps (tiers : list AmmFeeTier) (base_res quote_res base_supply : Z)
    (has_coin_creator : bool) : option Z :=
  match tiers with
  | [] => None
  | first :: _ =>
      if base_res =? 0 then None
      else
        let market_cap := u128_mul quote_res base_supply / base_res in
        let tier := tier_at tiers market_cap first in
        let creator := if has_coin_creator then creator_fee_bps tier else 0 in
        Some (sat_add u64_max (sat_add u64_max (lp_fee_bps tier) (protocol_fee_bps tier)) creator)
  end.

(** [read_u64] fails on a short account. *)
Definition u64_from_le_bytes (bs : list Z) : Z := foldr (fun b acc => b + 256 * acc) 0 bs.

Definition read_u64 (data : list Z) (off : nat) : option Z :=
  if (length data <? off + 8)%nat then None
  else Some (u64_from_le_bytes (take 8 (drop off data))).

Definition AMM_POOL_VIRTUAL_QUOTE_OFFSET : nat := 245.

Definition pool_virtual_quote (data : list Z) : Z :=
  unwrap_or (read_u64 data AMM_POOL_VIRTUAL_QUOTE_OFFSET) 0.

Definition FEE_CONFIG_FEE_TIERS_OFFSET : nat := 65.
Definition FEE_CONFIG_TIER_LEN : nat := 40.

Definition decode_tier (data : list Z) (at_ : nat) : option AmmFeeTier :=
  lo ← read_u64 data at_;
  hi ← read_u64 data (at_ + 8)%nat;
  lp ← read_u64 data (at_ + 16)%nat;
  protocol ← read_u64 data (at_ + 24)%nat;
  creator ← read_u64 data (at_ + 32)%nat;
  Some (mkTier (Z.lor lo (Z.shiftl hi 64)) lp protocol creator).

(** The [for i in 0..n] loop, [?] leaving it at the first short read. *)
Fixpoint decode_tiers_from (data : list Z) (i n : nat) : option (list AmmFeeTier) :=
  match n with
  | O => Some []
  | S n =>
      tier ← decode_tier data (FEE_CONFIG_FEE_TIERS_OFFSET + 4 + i * FEE_CONFIG_TIER_LEN)%nat;
      rest ← decode_tiers_from data (S i) n;
      Some (tier :: rest)
  end.

Definition decode_fee_tiers (data : list Z) : option (list AmmFeeTier) :=
  let off := FEE_CONFIG_FEE_TIERS_OFFSET in
  if (length data <? off + 4)%nat then None
  else
    let n := Z.to_nat (u64_from_le_bytes (take 4 (drop off data))) in
    decode_tiers_from data 0 n.

(** ** Sizing a PumpSwap swap *)

Definition cp_amount_out (amount_in reserve_in reserve_out : Z) : Z :=
  if (amount_in =? 0) || (reserve_in =? 0) then 0
  else u128_mul reserve_out amount_in / u128_add reserve_in amount_in.

Definition AMM_BUY_FEE_ROUNDING_LAMPORTS : Z := 3.

Definition amm_buy_quote_net (spendable fee_bps : Z) : Z :=
  u128_mul (u128_sub spendable AMM_BUY_FEE_ROUNDING_LAMPORTS) BPS_DENOM / (BPS_DENOM + fee_bps).

Definition amm_buy_base_amount_out (base_out : Z) (slippage_bps : option Z) : Z :=
  let keep := u128_sub BPS_DENOM (unwrap_or slippage_bps 0) in
  let out := u128_mul base_out keep / BPS_DENOM in
  Z.max 1 (Z.min u64_max out).

(** The sizing block of the buy builder: [None] where it bails. *)
Definition amm_buy_size (spendable fee_bps base_res quote_res : Z) (slippage_bps : option Z) : option Z :=
  if BPS_DENOM <=? fee_bps then None
  else
    let quote_net := amm_buy_quote_net spendable fee_bps in
    let base_out := cp_amount_out quote_net quote_res base_res in
    Some (amm_buy_base_amount_out base_out slippage_bps).

(** The floor block of the sell builder. *)
Definition amm_sell_min_quote_out (token_amount fee_bps base_res quote_res : Z) (slippage_bps : option Z) : option Z :=
  if BPS_DENOM <=? fee_bps then None
  else
    let gross := cp_amount_out token_amount base_res quote_res in
    let net := u128_mul gross (u128_sub BPS_DENOM fee_bps) / BPS_DENOM in
    Some (match slippage_bps with
          | None => 1
          | Some s => as_u64 (Z.max 1 (u128_mul net (u128_sub BPS_DENOM s) / BPS_DENOM))
          end).

(** ** The reserve cache *)

Module ReserveCache.
Record ReserveEntry := mkEntry { token : Z; quote_lamports : Z; is_amm : bool; at_ : Ts }.

Record t := mk { inner : gmap string ReserveEntry; amm_fee_bps : gmap string Z }.

Definition empty : t := mk ∅ ∅.

Definition LAMPORTS_PER_SOL : Z := 1000000000.

Definition f_as_u128 : f64 -> Z := f_as_int 0 u128_max.

Definition update_amm_fee (c : t) (mint : string) (fee_bps : f64) : t :=
  if is_finite fee_bps && ((f_zero <=. fee_bps) && (fee_bps <. f_of_Z 10000)) then
    mk (inner c) (<[mint := f_as_u64 (fround fee_bps)]> (amm_fee_bps c))
  else c.

Definition fee (c : t) (mint : string) : option Z := amm_fee_bps c !! mint.

Definition update (c : t) (mint : string) (token_reserves sol_reserves : f64) (is_amm : bool) (now : Ts) : t :=
  if negb (is_finite token_reserves) || (token_reserves <=. f_zero)
     || negb (is_finite sol_reserves) || (sol_reserves <=. f_zero)
  then c
  else
    let token := f_as_u128 token_reserves in
    let quote_lamports := f_as_u128 (sol_reserves ⊗ f_of_Z LAMPORTS_PER_SOL) in
    if (token =? 0) || (quote_lamports =? 0) then c
    else mk (<[mint := mkEntry token quote_lamports is_amm now]> (inner c)) (amm_fee_bps c).

Definition get_fresh (c : t) (mint : string) (max_age : Duration) (want_amm : bool) (now : Ts) : option (Z * Z) :=
  match inner c !! mint with
  | Some e =>
      if bool_decide (is_amm e = want_amm) && (now - at_ e <=? max_age)
      then Some (token e, quote_lamports e) else None
  | None => None
  end.

(** [PumpFunTrader::update_live_reserves]. *)
Definition update_live_reserves (c : t) (mint : string) (token_reserves sol_reserves : f64) (is_amm : bool)
    (amm_fee : option f64) (now : Ts) : t :=
  let c := update c mint token_reserves sol_reserves is_amm now in
  match is_amm, amm_fee with
  | true, Some fee => update_amm_fee c mint fee
  | _, _ => c
  end.
End ReserveCache.

(** The executor's fee for a swap: the observed fee, else the tier at the pool's market
    cap, else the flat fee.  [base_supply] is what the supply read answers ([None]: it
    failed). *)
Record AmmGlobalConfig := mkCfg {
  cfg_lp_fee_bps : Z;
  cfg_protocol_fee_bps : Z;
  cfg_coin_creator_fee_bps : Z;
  cfg_fee_tiers : list AmmFeeTier
}.

Definition amm_fee_bps (c : ReserveCache.t) (mint : string) (cfg : AmmGlobalConfig) (has_coin_creator : bool)
    (base_supply : option Z) (base_res quote_res : Z) : Z :=
  match ReserveCache.fee c mint with
  | Some observed => observed
  | None =>
      let flat := wrap_u 64 (cfg_lp_fee_bps cfg + cfg_protocol_fee_bps cfg + cfg_coin_creator_fee_bps cfg) in
      match cfg_fee_tiers cfg with
      | [] => flat
      | tiers =>
          match base_supply with
          | None => flat
          | Some supply =>
              unwrap_or (amm_tier_fee_bps tiers base_res quote_res supply has_coin_creator) flat
          end
      end
  end.

(** [amm_reserves_cached]/[curve_reserves]: the cache first, else the account read. *)
Definition reserves_cached (c : ReserveCache.t) (mint : string) (max_age : Duration) (want_amm : bool) (now : Ts)
    (on_chain : option (Z * Z)) : option (Z * Z) :=
  match ReserveCache.get_fresh c mint max_age want_amm now with
  | Some r => Some r
  | None => on_chain
  end.

(** [curve_virtual_reserves] on the account's bytes. *)
Definition curve_virtual_reserves (data : list Z) : option (Z * Z) :=
  if (length data <? 24)%nat then None
  else
    let vt := u64_from_le_bytes (take 8 (drop 8 data)) in
    let vq := u64_from_le_bytes (take 8 (drop 16 data)) in
    if (vt =? 0) || (vq =? 0) then None else Some (vt, vq).

(** [amm_reserves] on the three accounts' bytes. *)
Definition amm_reserves (pool base quote : list Z) : option (Z * Z) :=
  base_res ← read_u64 base 64;
  quote_vault ← read_u64 quote 64;
  if (base_res =? 0) || (quote_vault =? 0) then None
  else Some (base_res, quote_vault + pool_virtual_quote pool).

(** ** What the executor's quotes promise

    A PumpSwap buy never costs more than its budget; the legs of a launch fill at their
    floors, which only fall; a curve round trip returns no more than it cost; the fee
    tier is the highest one reached; the tier table decodes to what was encoded. *)

Definition in_u64 (x : Z) : Prop := 0 <= x <= u64_max.

Lemma u64_square x y : in_u64 x -> in_u64 y -> 0 <= x * y <= u128_max.
Proof. unfold in_u64, u64_max, u128_max. intros [] []. split; nia. Qed.

Lemma u128_mul_exact x y : in_u64 x -> in_u64 y -> u128_mul x y = x * y.
Proof. intros Hx Hy. pose proof (u64_square x y Hx Hy). unfold u128_mul, sat_mul. lia. Qed.

Lemma u128_sub_bps_in x : 0 <= x -> 0 <= u128_sub 10000 x <= 10000.
Proof. unfold u128_sub, sat_sub. lia. Qed.

Lemma in_u64_bps x : 0 <= x <= 10000 -> in_u64 x.
Proof. unfold in_u64, u64_max. lia. Qed.

#[local] Hint Resolve u128_sub_bps_in in_u64_bps : core.

(** A haircut in basis points keeps at most the amount. *)
Lemma haircut x bps : 0 <= bps -> in_u64 x ->
  u128_mul x (u128_sub 10000 bps) / 10000 = x * (u128_sub 10000 bps) / 10000 /\
  0 <= x * u128_sub 10000 bps / 10000 <= x.
Proof.
  intros Hb Hx. pose proof (u128_sub_bps_in bps Hb) as Hs.
  rewrite u128_mul_exact; [|done|auto]. split; [done|].
  destruct Hx as [Hx _]. split; [apply Z.div_pos; nia|].
  apply Z.div_le_upper_bound; nia.
Qed.

(** ** The bonding curve *)

(** What a buy of [lamports] takes into the curve and hands out. *)
Definition curve_net (lamports fee : Z) : Z := u128_mul lamports (u128_sub 10000 fee) / 10000.
Definition curve_tokens_out (r : Z * Z) (lamports fee : Z) : Z :=
  u128_mul r.1 (curve_net lamports fee) / u128_add r.2 (curve_net lamports fee).

Definition curve_ok (r : Z * Z) : Prop := in_u64 r.1 /\ 0 < r.2 <= u128_max.

Lemma curve_net_in lamports fee : in_u64 lamports -> 0 <= fee -> 0 <= curve_net lamports fee <= lamports.
Proof. intros H Hf. unfold curve_net. destruct (haircut lamports fee Hf H) as [-> ?]. done. Qed.

Lemma curve_net_u64 lamports fee : in_u64 lamports -> 0 <= fee -> in_u64 (curve_net lamports fee).
Proof. intros H Hf. pose proof (curve_net_in lamports fee H Hf). destruct H. split; lia. Qed.

Lemma u128_add_pos x y : 0 < x <= u128_max -> 0 <= y -> 0 < u128_add x y /\ x <= u128_add x y <= u128_max.
Proof. unfold u128_add, sat_add. lia. Qed.

Lemma u128_add_ge_r x y : 0 < x -> in_u64 y -> y <= u128_add x y.
Proof. unfold u128_add, sat_add, in_u64, u64_max, u128_max. lia. Qed.

(** A fraction [vt * n / d] with [n <= d] stays below [vt] and moves with its parts. *)
Lemma share_le vt n d : 0 <= vt -> 0 <= n <= d -> 0 < d -> 0 <= vt * n / d <= vt.
Proof. intros. split; [apply Z.div_pos; nia|]. apply Z.div_le_upper_bound; nia. Qed.

Lemma share_mono vt vt' n d d' : 0 <= vt' <= vt -> 0 <= n -> 0 < d <= d' -> vt' * n / d' <= vt * n / d.
Proof.
  intros. etrans; [apply (Z.div_le_mono _ (vt * n)); nia|].
  apply Z.div_le_compat_l; nia.
Qed.

Section curve_buy.
Context (lamports fee : Z) (Hl : in_u64 lamports) (Hf : 0 <= fee).

Notation net := (curve_net lamports fee).

Lemma curve_tokens_exact r : curve_ok r ->
  curve_tokens_out r lamports fee = r.1 * net / u128_add r.2 net.
Proof using Hl Hf.
  intros [Ht _]. unfold curve_tokens_out. by rewrite (u128_mul_exact _ net Ht (curve_net_u64 _ _ Hl Hf)).
Qed.

Lemma curve_tokens_bound r : curve_ok r -> 0 <= curve_tokens_out r lamports fee <= r.1.
Proof using Hl Hf.
  intros Hr. pose proof (curve_net_u64 _ _ Hl Hf) as Hn. rewrite (curve_tokens_exact r Hr).
  destruct Hr as [Ht Hq]. apply share_le; [apply Ht| |].
  - split; [apply Hn|]. apply u128_add_ge_r; [lia|done].
  - apply (u128_add_pos r.2 net Hq). apply Hn.
Qed.

Lemma apply_curve_buy_spec r : curve_ok r ->
  apply_curve_buy r lamports fee = (r.1 - curve_tokens_out r lamports fee, u128_add r.2 net).
Proof using Hl Hf.
  intros Hr. pose proof (curve_tokens_bound r Hr) as Ht. destruct r as [vt vq], Hr as [Hvt Hvq].
  cbn [fst snd] in *. pose proof (curve_net_u64 _ _ Hl Hf) as Hn.
  destruct (u128_add_pos vq net Hvq (proj1 Hn)) as [Hpos _].
  unfold apply_curve_buy. fold net. destruct (u128_add vq net =? 0) eqn:E; bool_to_prop; [lia|].
  change (u128_mul vt net / u128_add vq net) with (curve_tokens_out (vt, vq) lamports fee).
  unfold u128_sub, sat_sub. f_equal. lia.
Qed.

Lemma apply_curve_buy_ok r : curve_ok r -> curve_ok (apply_curve_buy r lamports fee).
Proof using Hl Hf.
  intros Hr. rewrite (apply_curve_buy_spec r Hr). pose proof (curve_tokens_bound r Hr).
  destruct Hr as [[] Hq]. pose proof (curve_net_u64 _ _ Hl Hf) as [Hn _].
  destruct (u128_add_pos r.2 net Hq Hn). split; cbn [fst snd]; [split; lia|lia].
Qed.

(** The floor, off the saturation and the wrap. *)
Lemma curve_buy_min_out_spec r slip : curve_ok r -> 0 <= slip ->
  curve_buy_min_out lamports (Some slip) (Some r) fee =
  Z.max 1 (curve_tokens_out r lamports fee * u128_sub 10000 slip / 10000).
Proof using Hl Hf.
  intros Hr Hs. pose proof (curve_tokens_bound r Hr) as Ht. destruct r as [vt vq], Hr as [Hvt Hvq].
  cbn [fst snd] in *. pose proof (curve_net_u64 _ _ Hl Hf) as Hn.
  destruct (u128_add_pos vq net Hvq (proj1 Hn)) as [Hpos _].
  unfold curve_buy_min_out. fold net. destruct (u128_add vq net =? 0) eqn:E; bool_to_prop; [lia|].
  change (u128_mul vt net / u128_add vq net) with (curve_tokens_out (vt, vq) lamports fee).
  assert (in_u64 (curve_tokens_out (vt, vq) lamports fee)) as Hx by (destruct Hvt; split; lia).
  destruct (haircut _ slip Hs Hx) as [-> Hb]. unfold as_u64. rewrite wrap_u_small; [done|].
  destruct Hx. unfold u64_max in *. lia.
Qed.

Lemma curve_buy_floor_bound r slip : curve_ok r -> 0 <= slip ->
  curve_buy_min_out lamports (Some slip) (Some r) fee <= Z.max 1 (curve_tokens_out r lamports fee).
Proof using Hl Hf.
  intros Hr Hs. rewrite (curve_buy_min_out_spec r slip Hr Hs). pose proof (curve_tokens_bound r Hr) as [].
  assert (in_u64 (curve_tokens_out r lamports fee)) as Hx by (destruct Hr as [[] _]; split; lia).
  destruct (haircut _ slip Hs Hx). lia.
Qed.

Lemma curve_tokens_mono r r' : curve_ok r -> curve_ok r' -> r'.1 <= r.1 -> r.2 <= r'.2 ->
  curve_tokens_out r' lamports fee <= curve_tokens_out r lamports fee.
Proof using Hl Hf.
  intros Hr Hr' H1 H2. rewrite !curve_tokens_exact by done.
  pose proof (curve_net_u64 _ _ Hl Hf) as [Hn _]. destruct Hr as [? Hq], Hr' as [[] ?].
  apply share_mono; [lia|lia|]. destruct (u128_add_pos r.2 net Hq Hn). unfold u128_add, sat_add in *. lia.
Qed.

Lemma curve_floor_mono r r' slip : curve_ok r -> curve_ok r' -> 0 <= slip -> r'.1 <= r.1 -> r.2 <= r'.2 ->
  curve_buy_min_out lamports (Some slip) (Some r') fee <= curve_buy_min_out lamports (Some slip) (Some r) fee.
Proof using Hl Hf.
  intros Hr Hr' Hs H1 H2. rewrite !curve_buy_min_out_spec by done.
  pose proof (curve_tokens_mono r r' Hr Hr' H1 H2). pose proof (u128_sub_bps_in slip Hs).
  apply Z.max_le_compat_l, Z.div_le_mono; nia.
Qed.
End curve_buy.

Lemma fresh_curve_ok : curve_ok fresh_curve_reserves.
Proof. repeat split; vm_compute; congruence. Qed.

(** Later in a run of buys: fewer tokens, more quote. *)
Definition further (r r' : Z * Z) : Prop := r'.1 <= r.1 /\ r.2 <= r'.2.

Lemma apply_curve_buy_further r lamports fee : curve_ok r -> in_u64 lamports -> 0 <= fee ->
  further r (apply_curve_buy r lamports fee).
Proof.
  intros Hr Hl Hf. rewrite apply_curve_buy_spec by done.
  pose proof (curve_tokens_bound lamports fee Hl Hf r Hr). destruct Hr as [_ Hq].
  destruct (u128_add_pos r.2 (curve_net lamports fee) Hq); [by apply curve_net_u64|].
  split; cbn [fst snd]; lia.
Qed.

Lemma leg_reserves_ok fee legs : 0 <= fee -> Forall in_u64 legs -> forall r, curve_ok r ->
  Forall (fun r' => curve_ok r' /\ further r r') (leg_reserves r legs fee).
Proof.
  intros Hf. induction 1 as [|l legs Hl Hlegs IH]; intros r Hr; cbn; constructor.
  - split; [done|]. unfold further. lia.
  - pose proof (apply_curve_buy_further r l fee Hr Hl Hf) as [].
    eapply Forall_impl; [apply IH, apply_curve_buy_ok; done|]. intros r' [? []]. split; [done|]. unfold further in *. lia.
Qed.

Lemma leg_reserves_ordered fee legs i j r ri rj : 0 <= fee -> Forall in_u64 legs -> curve_ok r ->
  (i <= j)%nat -> leg_reserves r legs fee !! i = Some ri -> leg_reserves r legs fee !! j = Some rj ->
  curve_ok ri /\ curve_ok rj /\ further ri rj.
Proof.
  intros Hf Hl. revert i j r. induction Hl as [|l legs Hl Hlegs IH]; intros i j r Hr Hij Hi Hj; [done|].
  destruct i as [|i], j as [|j]; [| |lia|].
  - cbn in Hi, Hj. simplify_eq. split; [done|split; [done|unfold further; lia]].
  - cbn in Hi. injection Hi as <-. apply list_elem_of_lookup_2 in Hj.
    pose proof (leg_reserves_ok fee (l :: legs) Hf (Forall_cons_2 _ _ _ Hl Hlegs) r Hr) as Hall.
    rewrite Forall_forall in Hall.
    by destruct (Hall rj Hj).
  - cbn in Hi, Hj. eapply (IH i j); [|lia|exact Hi|exact Hj]. by apply apply_curve_buy_ok.
Qed.

Lemma dev_buy_ok fee dev : 0 <= fee -> in_u64 dev ->
  curve_ok (if 0 <? dev then apply_curve_buy fresh_curve_reserves dev fee else fresh_curve_reserves).
Proof.
  intros. destruct (0 <? dev); [apply apply_curve_buy_ok|]; auto using fresh_curve_ok.
Qed.

(** In the simulated launch every buy leg, at the reserves it faces, receives at least the
    floor its transaction carries (or that floor is the bare minimum of one unit), and a
    later leg's floor for the same spend is never above an earlier one's. *)
Theorem launch_legs_fill_at_their_floors fee dev legs i j ri rj spend slip :
  0 <= fee -> in_u64 dev -> Forall in_u64 legs -> in_u64 spend -> 0 <= slip -> (i <= j)%nat ->
  simulate_launch_leg_reserves fee dev legs !! i = Some ri ->
  simulate_launch_leg_reserves fee dev legs !! j = Some rj ->
  curve_buy_min_out spend (Some slip) (Some ri) fee <= Z.max 1 (ri.1 - (apply_curve_buy ri spend fee).1) /\
  curve_buy_min_out spend (Some slip) (Some rj) fee <= curve_buy_min_out spend (Some slip) (Some ri) fee.
Proof.
  intros Hf Hd Hl Hs Hslip Hij Hi Hj. unfold simulate_launch_leg_reserves in *.
  destruct (leg_reserves_ordered fee legs i j _ ri rj Hf Hl (dev_buy_ok fee dev Hf Hd) Hij Hi Hj) as (Hri & Hrj & []).
  split; [|by apply curve_floor_mono].
  pose proof (curve_buy_floor_bound spend fee Hs Hf ri slip Hri Hslip).
  rewrite apply_curve_buy_spec by done. cbn [fst]. lia.
Qed.

Lemma launch_legs_fill_at_their_floors_witness :
  exists ri rj, 
    (curve_buy_min_out 10000000 (Some 500) (Some ri) 200 <= Z.max 1 (ri.1 - (apply_curve_buy ri 10000000 200).1) /\
     curve_buy_min_out 10000000 (Some 500) (Some rj) 200 <= curve_buy_min_out 10000000 (Some 500) (Some ri) 200)
    /\ 1 < curve_buy_min_out 10000000 (Some 500) (Some rj) 200 < curve_buy_min_out 10000000 (Some 500) (Some ri) 200.
Proof.
  eexists _, _. split.
  - apply (launch_legs_fill_at_their_floors 200 500000000 [10000000; 20000000; 30000000] 0 2);
      try reflexivity; unfold in_u64, u64_max; repeat constructor; cbn; lia.
  - vm_compute. split; reflexivity.
Defined.

(** ** A curve round trip *)

Lemma curve_sell_floor_bound t slip vt vq fee :
  0 <= slip -> 0 <= fee -> in_u64 t -> in_u64 vt -> 0 < vt + t <= u64_max -> 0 <= vq <= u64_max ->
  1 <= curve_sell_min_out t (Some slip) (Some (vt, vq)) fee <= Z.max 1 (vq * t / (vt + t)).
Proof.
  intros Hs Hf Ht Hvt Hd Hq. assert (in_u64 vq) as Hq' by done. unfold curve_sell_min_out.
  assert (u128_add vt t = vt + t) as -> by (unfold u128_add, sat_add, u128_max, u64_max in *; lia).
  destruct (vt + t =? 0) eqn:E; bool_to_prop; [lia|]. rewrite (u128_mul_exact vq t Hq' Ht).
  destruct Ht as [Ht0 ?], Hvt as [? ?].
  assert (in_u64 (vq * t / (vt + t))) as Hg.
  { split; [apply Z.div_pos; nia|]. apply Z.div_le_upper_bound; nia. }
  destruct (haircut _ fee Hf Hg) as [-> Hb].
  assert (in_u64 (vq * t / (vt + t) * u128_sub 10000 fee / 10000)) as Hn by (destruct Hg; split; lia).
  destruct (haircut _ slip Hs Hn) as [-> Hb']. unfold as_u64. rewrite wrap_u_small; [lia|].
  destruct Hg. unfold u64_max in *. lia.
Qed.

(** C30: While the curve's reserve and the spend fit 64 bits, for any slippage and fee setting:
    the least the executor asks for when it sells straight back what a curve buy gave (its
    [min_out]) is at most the buy's lamports net of the fee buffer, or the bare minimum of one
    lamport.  The floor never demands more than the curve can return. *)
Theorem sell_floor_within_the_buy r lamports fee slip :
  curve_ok r -> r.2 + lamports <= u64_max -> in_u64 lamports -> 0 <= fee -> 0 <= slip ->
  let r' := apply_curve_buy r lamports fee in
  curve_sell_min_out (r.1 - r'.1) (Some slip) (Some r') fee <= Z.max 1 (curve_net lamports fee).
Proof.
  intros Hr Hsum Hl Hf Hs. cbv zeta. rewrite apply_curve_buy_spec by done. cbn [fst snd].
  pose proof (curve_tokens_bound lamports fee Hl Hf r Hr) as Ht.
  pose proof (curve_tokens_exact lamports fee Hl Hf r Hr) as He.
  pose proof (curve_net_in lamports fee Hl Hf) as Hn. destruct Hr as [[Hvt Hvt'] Hq].
  assert (u128_add r.2 (curve_net lamports fee) = r.2 + curve_net lamports fee) as Ha
    by (unfold u128_add, sat_add, u128_max, u64_max in *; lia).
  rewrite Ha in *. set (n := curve_net lamports fee) in *. set (t := curve_tokens_out r lamports fee) in *.
  replace (r.1 - (r.1 - t)) with t by lia.
  destruct (Z.eq_dec r.1 0) as [H0|H0].
  { assert (t = 0) as -> by lia. rewrite H0. change (curve_sell_min_out _ _ _ _) with 1. lia. }
  destruct (curve_sell_floor_bound t slip (r.1 - t) (r.2 + n) fee Hs Hf) as [_ Hb];
    [split; lia|split; lia|lia|lia|].
  etrans; [exact Hb|]. replace (r.1 - t + t) with r.1 by lia.
  assert ((r.2 + n) * t / r.1 <= n); [|lia].
  apply Z.div_le_upper_bound; [lia|].
  assert (t * (r.2 + n) <= r.1 * n); [|nia].
  rewrite He, Z.mul_comm. apply Z.mul_div_le. lia.
Qed.

Lemma sell_floor_within_the_buy_witness :
  curve_sell_min_out (fresh_curve_reserves.1 - (apply_curve_buy fresh_curve_reserves 1000000000 0).1)
    (Some 0) (Some (apply_curve_buy fresh_curve_reserves 1000000000 0)) 0 = 999999999 /\
  curve_sell_min_out (fresh_curve_reserves.1 - (apply_curve_buy fresh_curve_reserves 1000000000 0).1)
    (Some 0) (Some (apply_curve_buy fresh_curve_reserves 1000000000 0)) 0 <= Z.max 1 (curve_net 1000000000 0).
Proof.
  split; [vm_compute; reflexivity|].
  assert (fresh_curve_reserves.2 + 1000000000 <= u64_max) as Hsum by (vm_compute; congruence).
  assert (in_u64 1000000000) as Hl by (split; vm_compute; congruence).
  exact (sell_floor_within_the_buy fresh_curve_reserves 1000000000 0 0 fresh_curve_ok Hsum Hl
           (Z.le_refl 0) (Z.le_refl 0)).
Defined.

(** ** PumpSwap *)

Definition div_ceil (n d : Z) : Z := (n + d - 1) / d.

(** What the PumpSwap program charges for [base_out] at the fee shares: the
    constant-product quote rounded up, and each share rounded up on it (the formula the
    executor's own tests check the sizing against). *)
Definition on_chain_buy_cost (base_out base_res quote_res lp protocol creator : Z) : Z :=
  let quote_in := div_ceil (quote_res * base_out) (base_res - base_out) in
  quote_in + div_ceil (quote_in * lp) BPS_DENOM + div_ceil (quote_in * protocol) BPS_DENOM
  + div_ceil (quote_in * creator) BPS_DENOM.

Lemma div_ceil_le n d k : 0 < d -> n <= k * d -> div_ceil n d <= k.
Proof. intros. unfold div_ceil. apply Z.lt_succ_r, Z.div_lt_upper_bound; nia. Qed.

(** Three rounded-up shares of a quote cost at most three lamports more than the sum. *)
Lemma fee_shares_le q q' lp protocol creator : 0 <= q <= q' -> 0 <= lp -> 0 <= protocol -> 0 <= creator ->
  BPS_DENOM * (div_ceil (q * lp) BPS_DENOM + div_ceil (q * protocol) BPS_DENOM + div_ceil (q * creator) BPS_DENOM)
  <= q' * (lp + protocol + creator) + 3 * (BPS_DENOM - 1).
Proof.
  intros. assert (forall x, BPS_DENOM * div_ceil x BPS_DENOM <= x + (BPS_DENOM - 1)) as Hc.
  { intros x. unfold div_ceil. etrans; [apply Z.mul_div_le; unfold BPS_DENOM; lia|]. lia. }
  pose proof (Hc (q * lp)). pose proof (Hc (q * protocol)). pose proof (Hc (q * creator)). nia.
Qed.

Lemma cp_amount_out_spec a rin rout : in_u64 a -> in_u64 rin -> in_u64 rout -> 0 < rin ->
  cp_amount_out a rin rout = rout * a / (rin + a).
Proof.
  intros Ha Hi Ho Hp. unfold cp_amount_out. rewrite (u128_mul_exact rout a Ho Ha).
  assert (u128_add rin a = rin + a) as ->
    by (unfold u128_add, sat_add, in_u64, u64_max, u128_max in *; lia).
  destruct (a =? 0) eqn:E; bool_to_prop; [subst; by rewrite Z.mul_0_r|].
  destruct (rin =? 0) eqn:E'; bool_to_prop; [lia|done].
Qed.

(** The quote leg of the cost: what the requested base costs is within the sized quote. *)
Lemma sized_quote_covers b q base_res quote_res : 0 < base_res -> 0 < quote_res -> 0 <= q ->
  1 <= b <= base_res * q / (quote_res + q) ->
  0 <= div_ceil (quote_res * b) (base_res - b) <= q.
Proof.
  intros Hb Hq Hn [H1 H2].
  assert (b * (quote_res + q) <= base_res * q) as Hk.
  { etrans; [apply Z.mul_le_mono_nonneg_r; [lia|exact H2]|]. rewrite Z.mul_comm. apply Z.mul_div_le. lia. }
  assert (b < base_res) by nia. split; [unfold div_ceil; apply Z.div_pos; nia|]. apply div_ceil_le; nia.
Qed.

(** A sized PumpSwap buy fits its budget: for any pool, fee split and slippage, whenever the
    pool sells at least one unit for the budget, the program's charge for the requested
    amount, every fee share rounded up, is at most the lamports wrapped for it. *)
Theorem amm_buy_fits_its_budget spendable lp protocol creator base_res quote_res slip out :
  in_u64 spendable -> in_u64 base_res -> in_u64 quote_res -> 0 < base_res -> 0 < quote_res ->
  0 <= lp -> 0 <= protocol -> 0 <= creator ->
  is_none_or slip (fun s => 0 <=? s) = true ->
  amm_buy_size spendable (lp + protocol + creator) base_res quote_res slip = Some out ->
  1 <= cp_amount_out (amm_buy_quote_net spendable (lp + protocol + creator)) quote_res base_res ->
  on_chain_buy_cost out base_res quote_res lp protocol creator <= spendable.
Proof.
  intros Hs Hb Hq Hb0 Hq0 Hlp Hpr Hcr Hslip. unfold amm_buy_size. set (F := lp + protocol + creator).
  destruct (BPS_DENOM <=? F) eqn:EF; [done|]. bool_to_prop. intros [= <-].
  set (q := amm_buy_quote_net spendable F).
  assert (0 <= q /\ in_u64 q /\ q * (BPS_DENOM + F) <= (Z.max 0 (spendable - 3)) * BPS_DENOM) as (Hq1 & Hq2 & Hq3).
  { unfold q, amm_buy_quote_net, u128_sub, sat_sub, AMM_BUY_FEE_ROUNDING_LAMPORTS.
    assert (in_u64 (Z.max 0 (spendable - 3))) as Hm by (unfold in_u64 in *; lia).
    rewrite (u128_mul_exact _ BPS_DENOM Hm); [|apply in_u64_bps; unfold BPS_DENOM; lia].
    assert (0 < BPS_DENOM + F) as HF by (unfold BPS_DENOM; lia). destruct Hm.
    split; [apply Z.div_pos; unfold BPS_DENOM in *; nia|]. split.
    - split; [apply Z.div_pos; unfold BPS_DENOM in *; nia|]. etrans; [apply Z.div_le_upper_bound|eassumption]; nia.
    - rewrite Z.mul_comm. by apply Z.mul_div_le. }
  rewrite (cp_amount_out_spec q quote_res base_res Hq2 Hq Hb Hq0). set (x := base_res * q / (quote_res + q)). intros Hx.
  assert (in_u64 x) as Hx64 by (pose proof (share_le base_res q (quote_res + q)); unfold x, in_u64 in *; lia).
  assert (1 <= amm_buy_base_amount_out x slip <= x) as Hout.
  { unfold amm_buy_base_amount_out. assert (0 <= unwrap_or slip 0) as Hs0.
    { destruct slip as [s|]; cbn in *; [by apply Z.leb_le|lia]. }
    change BPS_DENOM with 10000. destruct (haircut x _ Hs0 Hx64) as [-> Hh].
    assert (1 <= u64_max) by (vm_compute; congruence). lia. }
  pose proof (sized_quote_covers _ q base_res quote_res Hb0 Hq0 Hq1 Hout) as Hin.
  unfold on_chain_buy_cost. set (qi := div_ceil _ (base_res - _)) in *.
  pose proof (fee_shares_le qi q lp protocol creator Hin Hlp Hpr Hcr) as Hfees. fold F in Hfees.
  assert (q <> 0) as Hq0' by (intros E; unfold x in Hx; rewrite E, Z.mul_0_r, Z.div_0_l in Hx; lia).
  unfold BPS_DENOM in *.
  nia.
Qed.

Lemma amm_buy_fits_its_budget_witness :
  amm_buy_size 10000000 125 250000000000000 20000000000 None = Some 123395813815 /\
  on_chain_buy_cost 123395813815 250000000000000 20000000000 20 5 100 <= 10000000.
Proof.
  assert (amm_buy_size 10000000 (20 + 5 + 100) 250000000000000 20000000000 None = Some 123395813815) as E
    by (vm_compute; reflexivity).
  split; [exact E|].
  assert (in_u64 10000000) as H1 by (split; vm_compute; congruence).
  assert (in_u64 250000000000000) as H2 by (split; vm_compute; congruence).
  assert (in_u64 20000000000) as H3 by (split; vm_compute; congruence).
  refine (amm_buy_fits_its_budget 10000000 20 5 100 250000000000000 20000000000 None 123395813815
    H1 H2 H3 _ _ _ _ _ eq_refl E _); try lia; vm_compute; congruence.
Defined.

(** ** Fee tiers *)

Lemma find_first_rev_last {A} (f : A -> bool) (l : list A) x :
  find_first f (rev l) = Some x ->
  exists i, l !! i = Some x /\ f x = true /\ forall j y, (i < j)%nat -> l !! j = Some y -> f y = false.
Proof.
  induction l as [|a l IH] using rev_ind; [done|]. rewrite rev_app_distr. cbn [rev app find_first].
  destruct (f a) eqn:E.
  - intros [= <-]. exists (length l). rewrite list_lookup_middle by done. split; [done|]. split; [done|].
    intros j y Hj Hy. apply lookup_lt_Some in Hy. rewrite length_app in Hy. cbn in Hy. lia.
  - intros H. destruct (IH H) as (i & Hi & Hx & Hlast). exists i. split; [by apply lookup_app_l_Some|].
    split; [done|]. intros j y Hj Hy. apply lookup_app_Some in Hy as [Hy|[_ Hy]]; [by eapply Hlast|].
    apply list_lookup_singleton_Some in Hy as [_ <-]. done.
Qed.

Lemma find_first_rev_none {A} (f : A -> bool) (l : list A) x :
  find_first f (rev l) = None -> x ∈ l -> f x = false.
Proof.
  intros H Hx. pose proof (proj1 (find_first_None f (rev l)) H) as Hall. apply Hall.
  by rewrite list_elem_of_In, <- in_rev, <- list_elem_of_In.
Qed.

(** The fee of a pool is that of the last tier whose threshold its market cap reaches (the
    first tier when it reaches none), the creator's share dropped for a pool without a coin
    creator; there is no fee only without tiers or without a base reserve. *)
Theorem tier_fee_is_the_highest_reached tiers base_res quote_res supply cc :
  let cap := u128_mul quote_res supply / base_res in
  match amm_tier_fee_bps tiers base_res quote_res supply cc with
  | None => tiers = [] \/ base_res = 0
  | Some fee => base_res <> 0 /\ exists i tier,
      tiers !! i = Some tier /\
      (i = 0%nat \/ market_cap_threshold_lamports tier <= cap) /\
      (forall j t, (i < j)%nat -> tiers !! j = Some t -> cap < market_cap_threshold_lamports t) /\
      fee = Z.min u64_max (Z.min u64_max (lp_fee_bps tier + protocol_fee_bps tier)
                           + (if cc then creator_fee_bps tier else 0))
  end.
Proof.
  cbv zeta. unfold amm_tier_fee_bps. destruct tiers as [|first rest]; [by left|].
  destruct (base_res =? 0) eqn:E; bool_to_prop; [by right|]. split; [done|].
  unfold tier_at. set (cap := u128_mul quote_res supply / base_res).
  destruct (find_first _ (rev (first :: rest))) as [t|] eqn:F; cbn [unwrap_or].
  - destruct (find_first_rev_last _ _ _ F) as (i & Hi & Ht & Hlast). exists i, t. split; [done|].
    split; [right; by apply Z.leb_le|]. split; [|by destruct cc].
    intros j y Hj Hy. specialize (Hlast j y Hj Hy). cbn beta in Hlast. by apply Z.leb_gt in Hlast.
  - exists 0%nat, first. split; [done|]. split; [by left|]. split; [|by destruct cc].
    intros j y Hj Hy. apply list_elem_of_lookup_2 in Hy. pose proof (find_first_rev_none _ _ _ F Hy) as H.
    cbn beta in H. by apply Z.leb_gt in H.
Qed.

(** *** The tier table as bytes *)

Fixpoint to_le_bytes (n : nat) (x : Z) : list Z :=
  match n with O => [] | S n => x mod 256 :: to_le_bytes n (x / 256) end.

Lemma to_le_bytes_length n x : length (to_le_bytes n x) = n.
Proof. revert x. induction n as [|n IH]; intros x; cbn; [done|]. by rewrite IH. Qed.

Lemma from_to_le_bytes n x : 0 <= x < 2 ^ (8 * Z.of_nat n) -> u64_from_le_bytes (to_le_bytes n x) = x.
Proof.
  unfold u64_from_le_bytes. revert x. induction n as [|n IH]; intros x Hx; cbn [to_le_bytes foldr].
  - change (2 ^ (8 * Z.of_nat 0)) with 1 in Hx. lia.
  - rewrite IH; [pose proof (Z.div_mod x 256); lia|].
    replace (8 * Z.of_nat (S n)) with (8 + 8 * Z.of_nat n) in Hx by lia.
    rewrite Z.pow_add_r in Hx by lia. split; [apply Z.div_pos; lia|]. apply Z.div_lt_upper_bound; lia.
Qed.

Definition encode_tier (t : AmmFeeTier) : list Z :=
  to_le_bytes 8 (market_cap_threshold_lamports t mod 2 ^ 64) ++
  to_le_bytes 8 (market_cap_threshold_lamports t / 2 ^ 64) ++
  to_le_bytes 8 (lp_fee_bps t) ++ to_le_bytes 8 (protocol_fee_bps t) ++ to_le_bytes 8 (creator_fee_bps t).

Definition tier_ok (t : AmmFeeTier) : Prop :=
  0 <= market_cap_threshold_lamports t <= u128_max /\ in_u64 (lp_fee_bps t) /\ in_u64 (protocol_fee_bps t)
  /\ in_u64 (creator_fee_bps t).

(** An account: [header] up to the table, the count, the tiers, and what follows. *)
Definition encode_fee_config (header : list Z) (tiers : list AmmFeeTier) (rest : list Z) : list Z :=
  header ++ to_le_bytes 4 (Z.of_nat (length tiers)) ++ concat (encode_tier <$> tiers) ++ rest.

Lemma encode_tier_length t : length (encode_tier t) = 40%nat.
Proof. unfold encode_tier. by rewrite !length_app, !to_le_bytes_length. Qed.

(** A read inside [pre ++ to_le_bytes 8 x ++ post]. *)
Lemma read_u64_at pre x post off : off = length pre -> in_u64 x ->
  read_u64 (pre ++ to_le_bytes 8 x ++ post) off = Some x.
Proof.
  intros -> Hx. unfold read_u64. rewrite !length_app, to_le_bytes_length.
  destruct (_ <? _)%nat eqn:E; [apply Nat.ltb_lt in E; lia|].
  rewrite drop_app_length, take_app_length' by (symmetry; apply to_le_bytes_length).
  rewrite from_to_le_bytes; [done|]. unfold in_u64, u64_max in Hx. cbn. lia.
Qed.

Lemma lor_halves x : 0 <= x -> Z.lor (x mod 2 ^ 64) (Z.shiftl (x / 2 ^ 64) 64) = x.
Proof.
  intros Hx. rewrite <- Z.shiftr_div_pow2, <- Z.land_ones by lia. apply Z.bits_inj'. intros n Hn.
  rewrite Z.lor_spec, Z.land_spec, Z.shiftl_spec by done. rewrite Z.testbit_ones_nonneg by lia.
  destruct (n <? 64) eqn:E; bool_to_prop.
  - rewrite andb_true_r, (Z.testbit_neg_r _ (n - 64)) by lia. apply orb_false_r.
  - rewrite andb_false_r, orb_false_l, Z.shiftr_spec by lia. f_equal. lia.
Qed.

Lemma decode_tier_at pre t post off : off = length pre -> tier_ok t ->
  decode_tier (pre ++ encode_tier t ++ post) off = Some t.
Proof.
  intros -> (Hm & Hl & Hp & Hc). unfold decode_tier, encode_tier.
  set (lo := market_cap_threshold_lamports t mod 2 ^ 64). set (hi := market_cap_threshold_lamports t / 2 ^ 64).
  assert (in_u64 lo) as Hlo.
  { unfold lo, in_u64, u64_max. pose proof (Z.mod_pos_bound (market_cap_threshold_lamports t) (2 ^ 64)). lia. }
  assert (in_u64 hi) as Hhi.
  { unfold hi, in_u64, u64_max, u128_max in *. split; [apply Z.div_pos; lia|].
    apply Z.lt_succ_r, Z.div_lt_upper_bound; lia. }
  assert (forall k pre' x post', (length pre' = k)%nat -> in_u64 x ->
    read_u64 (pre ++ (pre' ++ to_le_bytes 8 x ++ post')) (length pre + k) = Some x) as Hrd.
  { intros k pre' x post' <- Hx. rewrite app_assoc. apply read_u64_at; [by rewrite length_app|done]. }
  rewrite <- !app_assoc. rewrite (read_u64_at pre lo _ (length pre)) by done. cbn [mbind option_bind].
  pose proof (Hrd 8%nat (to_le_bytes 8 lo) hi) as H8. pose proof (Hrd 16%nat (to_le_bytes 8 lo ++ to_le_bytes 8 hi)) as H16.
  pose proof (Hrd 24%nat (to_le_bytes 8 lo ++ to_le_bytes 8 hi ++ to_le_bytes 8 (lp_fee_bps t))) as H24.
  pose proof (Hrd 32%nat (to_le_bytes 8 lo ++ to_le_bytes 8 hi ++ to_le_bytes 8 (lp_fee_bps t)
    ++ to_le_bytes 8 (protocol_fee_bps t))) as H32.
  repeat setoid_rewrite <- app_assoc in H16. repeat setoid_rewrite <- app_assoc in H24. repeat setoid_rewrite <- app_assoc in H32.
  rewrite H8; [|by rewrite to_le_bytes_length|done]. cbn [mbind option_bind].
  rewrite H16; [|by rewrite length_app, !to_le_bytes_length|done]. cbn [mbind option_bind].
  rewrite H24; [|by rewrite !length_app, !to_le_bytes_length|done]. cbn [mbind option_bind].
  rewrite H32; [|by rewrite !length_app, !to_le_bytes_length|done]. cbn [mbind option_bind].
  unfold lo, hi. rewrite lor_halves by lia. by destruct t.
Qed.

Notation tiers_start := (FEE_CONFIG_FEE_TIERS_OFFSET + 4)%nat (only parsing).

Lemma decode_tiers_from_encoded tiers : Forall tier_ok tiers -> forall pre rest i,
  (length pre = FEE_CONFIG_FEE_TIERS_OFFSET + 4 + i * FEE_CONFIG_TIER_LEN)%nat ->
  decode_tiers_from (pre ++ concat (encode_tier <$> tiers) ++ rest) i (length tiers) = Some tiers.
Proof.
  induction 1 as [|t tiers Ht Htiers IH]; intros pre rest i Hpre; [done|].
  cbn [decode_tiers_from length fmap list_fmap concat]. rewrite <- app_assoc, decode_tier_at by done.
  cbn [mbind option_bind]. rewrite app_assoc, IH; [done|].
  rewrite length_app, encode_tier_length, Hpre. unfold FEE_CONFIG_TIER_LEN. lia.
Qed.

Lemma read_u64_len data off x : read_u64 data off = Some x -> (off + 8 <= length data)%nat.
Proof. unfold read_u64. destruct (_ <? _)%nat eqn:E; [done|]. apply Nat.ltb_ge in E. done. Qed.

Lemma decode_tiers_from_len data n : forall i tiers, decode_tiers_from data i n = Some tiers ->
  n = O \/ (FEE_CONFIG_FEE_TIERS_OFFSET + 4 + (i + n) * FEE_CONFIG_TIER_LEN <= length data)%nat.
Proof.
  induction n as [|n IH]; intros i tiers; [by left|]. cbn [decode_tiers_from].
  destruct (decode_tier data _) as [t|] eqn:E; [|done]. cbn [mbind option_bind].
  destruct (decode_tiers_from data (S i) n) as [rest|] eqn:E'; [|done]. intros _. right.
  destruct (IH _ _ E') as [->|H]; [|unfold FEE_CONFIG_TIER_LEN in *; lia].
  unfold decode_tier in E.
  repeat match type of E with (_ ≫= _) = Some _ => apply bind_Some in E as (? & ? & E) end.
  repeat match goal with H : read_u64 _ _ = Some _ |- _ => apply read_u64_len in H end.
  unfold FEE_CONFIG_TIER_LEN in *. lia.
Qed.

Lemma count_read (data : list Z) header n post : data = header ++ to_le_bytes 4 (Z.of_nat n) ++ post ->
  length header = FEE_CONFIG_FEE_TIERS_OFFSET -> Z.of_nat n < 2 ^ 32 ->
  decode_fee_tiers data = decode_tiers_from data 0 n.
Proof.
  intros Hd Hh Hn. unfold decode_fee_tiers.
  assert ((length data <? FEE_CONFIG_FEE_TIERS_OFFSET + 4)%nat = false) as ->.
  { apply Nat.ltb_ge. subst. rewrite !length_app, to_le_bytes_length. lia. }
  replace (take 4 (drop FEE_CONFIG_FEE_TIERS_OFFSET data)) with (to_le_bytes 4 (Z.of_nat n)).
  - rewrite from_to_le_bytes by (cbn; lia). by rewrite Nat2Z.id.
  - subst. rewrite <- Hh, drop_app_length, take_app_length'; [done|]. by rewrite to_le_bytes_length.
Qed.

(** An encoded fee-tier account decodes to exactly its tiers whatever surrounds the table, and
    an account cut anywhere before the end of the table is refused. *)
Theorem fee_tiers_decode_what_was_encoded header tiers rest :
  length header = FEE_CONFIG_FEE_TIERS_OFFSET -> Forall tier_ok tiers -> Z.of_nat (length tiers) < 2 ^ 32 ->
  decode_fee_tiers (encode_fee_config header tiers rest) = Some tiers /\
  forall k, (k < length (encode_fee_config header tiers []))%nat ->
    decode_fee_tiers (take k (encode_fee_config header tiers rest)) = None.
Proof.
  intros Hh Hok Hn. unfold encode_fee_config. split.
  - erewrite count_read; [|reflexivity|done|done]. rewrite app_assoc.
    apply decode_tiers_from_encoded; [done|]. rewrite length_app, to_le_bytes_length, Hh. lia.
  - intros k Hk. rewrite app_nil_r, !length_app, to_le_bytes_length, Hh in Hk.
    assert (length (concat (encode_tier <$> tiers)) = length tiers * FEE_CONFIG_TIER_LEN)%nat as Hlen.
    { clear. induction tiers as [|t l IH]; [done|]. cbn [fmap list_fmap concat].
      rewrite length_app, encode_tier_length. cbn in *. lia. }
    destruct (decide (k < FEE_CONFIG_FEE_TIERS_OFFSET + 4)%nat) as [Hs|Hs].
    { unfold decode_fee_tiers. rewrite length_take. destruct (_ <? _)%nat eqn:E; [done|].
      apply Nat.ltb_ge in E. lia. }
    erewrite (count_read _ header (length tiers)); [| |done|done].
    2: { rewrite app_assoc, take_app_ge by (rewrite length_app, to_le_bytes_length, Hh; lia).
         rewrite <- app_assoc. reflexivity. }
    destruct (decode_tiers_from _ 0 (length tiers)) as [l|] eqn:E; [|done]. exfalso.
    apply decode_tiers_from_len in E as [E|E].
    + rewrite E in Hlen. cbn in Hlen. lia.
    + rewrite length_take in E. unfold FEE_CONFIG_TIER_LEN in *. lia.
Qed.

Lemma fee_tiers_decode_what_was_encoded_witness :
  let tiers := [mkTier 0 20 5 100; mkTier (420 * 10 ^ 9) 20 5 95; mkTier (2 ^ 64 + 7) 2 3 25] in
  decode_fee_tiers (encode_fee_config (replicate 65 7%Z) tiers [1; 2; 3]) = Some tiers /\
  forall k, (k < length (encode_fee_config (replicate 65 7%Z) tiers []))%nat ->
    decode_fee_tiers (take k (encode_fee_config (replicate 65 7%Z) tiers [1; 2; 3])) = None.
Proof.
  cbv zeta. apply fee_tiers_decode_what_was_encoded; [reflexivity| |reflexivity].
  repeat constructor; unfold in_u64; vm_compute; congruence.
Defined.

(** ** The reserve cache *)

Module CacheFacts.
Import ReserveCache.

(** One feed of a run: the arguments of [update_live_reserves] and its instant. *)
Record Feed := mkFeed {
  f_mint : string; f_token : f64; f_sol : f64; f_amm : bool; f_fee : option f64; f_now : Ts
}.

Definition run (feeds : list Feed) : t :=
  foldl (fun c f => update_live_reserves c (f_mint f) (f_token f) (f_sol f) (f_amm f) (f_fee f) (f_now f)) empty feeds.

(** A feed with both reserves finite, positive and at least one unit. *)
Definition sane (f : Feed) : bool :=
  (is_finite (f_token f) && (f_zero <. f_token f)) && (is_finite (f_sol f) && (f_zero <. f_sol f))
  && (0 <? f_as_u128 (f_token f)) && (0 <? f_as_u128 (f_sol f ⊗ f_of_Z LAMPORTS_PER_SOL)).

Definition entry_of (f : Feed) : ReserveEntry :=
  mkEntry (f_as_u128 (f_token f)) (f_as_u128 (f_sol f ⊗ f_of_Z LAMPORTS_PER_SOL)) (f_amm f) (f_now f).

Lemma f_as_u128_nonneg x : 0 <= f_as_u128 x <= u128_max.
Proof. unfold f_as_u128, f_as_int. pose proof (eq_refl : (0 <=? u128_max) = true). bool_to_prop. destruct x as [| [] | |]; lia. Qed.

Lemma positive_or_not x : is_finite x = true -> (x <=. f_zero) = negb (f_zero <. x).
Proof.
  intros H. assert (is_nan f_zero = false) as Hz by reflexivity. apply is_finite_not_nan in H.
  destruct (f_zero <. x) eqn:E; cbn.
  - by apply flt_not_fle.
  - by apply flt_total.
Qed.

Lemma update_spec c f :
  update c (f_mint f) (f_token f) (f_sol f) (f_amm f) (f_now f) =
  if sane f then mk (<[f_mint f := entry_of f]> (inner c)) (amm_fee_bps c) else c.
Proof.
  unfold update, sane, entry_of. pose proof (f_as_u128_nonneg (f_token f)) as [Ht _].
  pose proof (f_as_u128_nonneg (f_sol f ⊗ f_of_Z LAMPORTS_PER_SOL)) as [Hq _].
  set (t := f_as_u128 (f_token f)) in *. set (q := f_as_u128 (f_sol f ⊗ f_of_Z LAMPORTS_PER_SOL)) in *.
  assert ((0 <? t) = negb (t =? 0)) as -> by (destruct (t =? 0) eqn:?, (0 <? t) eqn:?; bool_to_prop; try done; lia).
  assert ((0 <? q) = negb (q =? 0)) as -> by (destruct (q =? 0) eqn:?, (0 <? q) eqn:?; bool_to_prop; try done; lia).
  destruct (is_finite (f_token f)) eqn:E1; [|done]. rewrite (positive_or_not _ E1).
  destruct (f_zero <. f_token f); [|done].
  destruct (is_finite (f_sol f)) eqn:E2; [|done]. rewrite (positive_or_not _ E2).
  destruct (f_zero <. f_sol f); [|done]. cbn [negb orb andb].
  by destruct (t =? 0), (q =? 0).
Qed.

Lemma live_inner c mint tok sol amm fee now :
  inner (update_live_reserves c mint tok sol amm fee now) = inner (update c mint tok sol amm now).
Proof.
  unfold update_live_reserves, update_amm_fee. destruct amm, fee as [fee|]; try done. by destruct (_ && _).
Qed.

(** The last sane feed of a coin. *)
Definition last_sane (mint : string) (feeds : list Feed) : option Feed :=
  find_first (fun f => bool_decide (f_mint f = mint) && sane f) (rev feeds).

Lemma run_inner feeds mint : inner (run feeds) !! mint = entry_of <$> last_sane mint feeds.
Proof.
  unfold run, last_sane. induction feeds as [|f feeds IH] using rev_ind; [done|].
  rewrite foldl_app, rev_app_distr. cbn [foldl rev app find_first].
  rewrite live_inner, update_spec. set (c := foldl _ empty feeds) in *.
  destruct (sane f); cbn [inner]; [|by rewrite andb_false_r].
  rewrite andb_true_r. case_bool_decide as E; [subst; by rewrite lookup_insert_eq|by rewrite lookup_insert_ne].
Qed.

(** After any feeds, the reserves the cache serves are those of the coin's last sane feed,
    only for the venue it was tagged with and only within the age bound, and are never
    zero on either side. *)
Theorem cache_serves_the_last_sane_feed feeds mint max_age want now :
  match get_fresh (run feeds) mint max_age want now with
  | Some (tok, quote) =>
      exists f, last_sane mint feeds = Some f /\ f ∈ feeds /\ f_mint f = mint /\ f_amm f = want /\
        now - f_now f <= max_age /\ tok = f_as_u128 (f_token f) /\ 0 < tok <= u128_max /\
        quote = f_as_u128 (f_sol f ⊗ f_of_Z LAMPORTS_PER_SOL) /\ 0 < quote <= u128_max
  | None =>
      last_sane mint feeds = None \/
      exists f, last_sane mint feeds = Some f /\ (f_amm f <> want \/ max_age < now - f_now f)
  end.
Proof.
  unfold get_fresh. rewrite run_inner. destruct (last_sane mint feeds) as [f|] eqn:E; cbn [fmap option_fmap option_map]; [|by left].
  cbn [is_amm at_ entry_of token quote_lamports].
  case_bool_decide as Ha; cbn [andb]; [|right; exists f; by auto].
  destruct (now - f_now f <=? max_age) eqn:El; bool_to_prop; [|right; exists f; auto].
  unfold last_sane in E. apply find_first_Some in E as HE. destruct HE as [Hin Hf].
  rewrite <- in_rev, <- list_elem_of_In in Hin || rewrite list_elem_of_In, <- in_rev, <- list_elem_of_In in Hin.
  apply andb_prop in Hf as [Hm Hs]. apply bool_decide_eq_true in Hm.
  unfold sane in Hs. bool_to_prop. pose proof (f_as_u128_nonneg (f_token f)).
  pose proof (f_as_u128_nonneg (f_sol f ⊗ f_of_Z LAMPORTS_PER_SOL)).
  exists f. split_and!; try done; try lia.
Qed.
End CacheFacts.
