(* ===== verification/Dedupe.v ===== *)
(** * Dedupe: the lock-free signature ring of the ingest

    [shared/ingest/core/src/dedupe.rs].  The ring is a list of 64-bit words; a call of
    [insert_new] is a thread whose atomic steps are the compare-exchange of one slot and
    the closing store, so the calls of two transports interleave as sequences of such
    steps.  [insert_new] is also given as the function one call computes alone. *)

From S2P Require Export Prelude.

Module Dedupe.
Definition ASSUMED_PEAK_TPS : Z := 4000.
Definition PROBE : nat := 4.

Record t := mk { slots : list Z; mask : Z }.

(** [next_power_of_two]: the least power of two that is at least [n] (1 for 0). *)
Definition next_power_of_two (n : Z) : Z := 2 ^ Z.log2_up n.

Definition with_capacity (capacity : Z) : t :=
  let capacity := next_power_of_two (Z.max capacity (Z.of_nat PROBE)) in
  mk (replicate (Z.to_nat capacity) 0) (capacity - 1).

Definition window_capacity (secs : Z) : Z :=
  let want := Z.min u64_max (Z.max secs 1 * ASSUMED_PEAK_TPS) in
  next_power_of_two (Z.max 4096 (Z.min (2 ^ 20) want)).

Definition for_window (secs : Z) : t := with_capacity (window_capacity secs).

(** The first 8 bytes, little endian; zero, the vacant marker, is folded to one. *)
Definition fingerprint_of (signature : list Z) : option Z :=
  if (length signature <? 8)%nat then None
  else
    let v := foldr (fun b acc => b + 256 * acc) 0 (take 8 signature) in
    Some (if v =? 0 then 1 else v).

Definition slot_at (mask home : Z) (i : nat) : nat := Z.to_nat (Z.land (home + Z.of_nat i) mask).
Definition home_of (mask fingerprint : Z) : Z := Z.land fingerprint mask.

(** [compare_exchange(0, new)] on one slot: the new ring and what was read. *)
Definition compare_exchange (slots : list Z) (k : nat) (new : Z) : list Z * Z :=
  let existing := default 0 (slots !! k) in
  if existing =? 0 then (<[k := new]> slots, existing) else (slots, existing).

(** ** One call as a thread of atomic steps *)

Inductive Pc := Probing (i : nat) | Evicting | Returned (new : bool).

#[export] Instance Pc_eq_dec : EqDecision Pc.
Proof. solve_decision. Defined.

Record Thread := mkThread { fp : Z; pc : Pc }.

Definition step_thread (mask : Z) (slots : list Z) (th : Thread) : list Z * Thread :=
  let home := home_of mask (fp th) in
  match pc th with
  | Probing i =>
      let '(slots, existing) := compare_exchange slots (slot_at mask home i) (fp th) in
      if existing =? 0 then (slots, mkThread (fp th) (Returned true))
      else if existing =? fp th then (slots, mkThread (fp th) (Returned false))
      else (slots, mkThread (fp th) (if (S i <? PROBE)%nat then Probing (S i) else Evicting))
  | Evicting => (<[Z.to_nat home := fp th]> slots, mkThread (fp th) (Returned true))
  | Returned _ => (slots, th)
  end.

(** The probe loop from offset [i], [n] probes left, and the eviction after it. *)
Fixpoint probe (mask : Z) (slots : list Z) (home fingerprint : Z) (i n : nat) : list Z * bool :=
  match n with
  | O => (<[Z.to_nat home := fingerprint]> slots, true)
  | S n =>
      let '(slots, existing) := compare_exchange slots (slot_at mask home i) fingerprint in
      if existing =? 0 then (slots, true)
      else if existing =? fingerprint then (slots, false)
      else probe mask slots home fingerprint (S i) n
  end.

Definition insert_new (d : t) (signature : list Z) : t * bool :=
  match fingerprint_of signature with
  | None => (d, true)
  | Some fingerprint =>
      let home := home_of (mask d) fingerprint in
      let '(slots, new) := probe (mask d) (slots d) home fingerprint 0 PROBE in
      (mk slots (mask d), new)
  end.

(** ** Interleaved calls

    A configuration is the ring, the calls in progress or done, and, for the statements
    only, the words that evictions overwrote so far, the newest first. *)
Record Config := mkConfig { ring : list Z; threads : list Thread; evicted : list Z }.

Inductive step (mask : Z) : Config -> Config -> Prop :=
  | Call c signature f :
      fingerprint_of signature = Some f ->
      step mask c (mkConfig (ring c) (threads c ++ [mkThread f (Probing 0)]) (evicted c))
  | Progress c k th slots th' :
      threads c !! k = Some th ->
      step_thread mask (ring c) th = (slots, th') ->
      step mask c (mkConfig slots (<[k := th']> (threads c))
        (match pc th with
         | Evicting => default 0 (ring c !! Z.to_nat (home_of mask (fp th))) :: evicted c
         | _ => evicted c
         end)).

(** How many calls admitted [f], and how often an eviction overwrote it. *)
Definition admissions (f : Z) (c : Config) : nat := length (filter (fun th => fp th = f /\ pc th = Returned true) (threads c)).
Definition evictions (f : Z) (c : Config) : nat := length (filter (fun x => x = f) (evicted c)).

Definition initial (d : t) : Config := mkConfig (slots d) [] [].

Definition reachable (d : t) (c : Config) : Prop := rtc (step (mask d)) (initial d) c.

(** A batch of signatures, one after the other. *)
Fixpoint insert_all (d : t) (signatures : list (list Z)) : t * list bool :=
  match signatures with
  | [] => (d, [])
  | s :: rest =>
      let '(d, new) := insert_new d s in
      let '(d, news) := insert_all d rest in
      (d, new :: news)
  end.
End Dedupe.

(** ** The signature ring under interleaved calls

    However the calls of several transports interleave, a transaction is dropped only if
    another call admitted the same fingerprint, and its admissions number at most one more
    than the times an eviction overwrote it.  Alone, a call computes what the
    atomic steps compute, and a repeat is caught while its window stands. *)

Import Dedupe.

Implicit Types (d : t) (c : Config) (f : Z).

(** ** The ring *)

(** A ring of [2 ^ p] slots, at least [PROBE] of them. *)
Definition ring_ok (m : Z) (r : list Z) : Prop :=
  exists p, 2 <= p /\ m = 2 ^ p - 1 /\ length r = Z.to_nat (2 ^ p).

Lemma next_power_of_two_ge n : 1 <= n -> n <= next_power_of_two n.
Proof.
  intros. unfold next_power_of_two. destruct (Z.eq_dec n 1) as [->|]; [done|].
  apply Z.log2_log2_up_spec. lia.
Qed.

Lemma with_capacity_ok n : ring_ok (mask (with_capacity n)) (slots (with_capacity n)).
Proof.
  unfold with_capacity. cbn [mask slots]. unfold next_power_of_two.
  exists (Z.log2_up (Z.max n (Z.of_nat PROBE))). split; [|by rewrite length_replicate].
  change 2 with (Z.log2_up 4). apply Z.log2_up_le_mono. unfold PROBE. lia.
Qed.

Lemma land_mask p x : 0 <= p -> Z.land x (2 ^ p - 1) = x mod 2 ^ p.
Proof. intros. rewrite <- Z.land_ones by done. f_equal. rewrite Z.ones_equiv. lia. Qed.

Lemma home_mod p x i : 0 <= p -> (x mod 2 ^ p + i) mod 2 ^ p = (x + i) mod 2 ^ p.
Proof. intros. by rewrite Z.add_mod_idemp_l by (apply Z.pow_nonzero; lia). Qed.

(** The probed slots are in range and pairwise distinct; the first is the home slot. *)
Lemma slot_at_lt m r f i : ring_ok m r -> (slot_at m (home_of m f) i < length r)%nat.
Proof.
  intros (p & Hp & -> & ->). unfold slot_at, home_of. rewrite !land_mask by lia.
  pose proof (Z.mod_pos_bound (f mod 2 ^ p + Z.of_nat i) (2 ^ p)). lia.
Qed.

Lemma slot_at_inj m r f i j : ring_ok m r -> (i < PROBE)%nat -> (j < PROBE)%nat ->
  slot_at m (home_of m f) i = slot_at m (home_of m f) j -> i = j.
Proof.
  intros (p & Hp & -> & _) Hi Hj. unfold slot_at, home_of, PROBE in *. rewrite !land_mask by lia.
  assert (0 < 2 ^ p) as Hpos by (apply Z.pow_pos_nonneg; lia).
  assert (4 <= 2 ^ p) as H4 by (change 4 with (2 ^ 2); apply Z.pow_le_mono_r; lia).
  set (h := f mod 2 ^ p). pose proof (Z.mod_pos_bound (h + Z.of_nat i) (2 ^ p) Hpos).
  pose proof (Z.mod_pos_bound (h + Z.of_nat j) (2 ^ p) Hpos). intros E.
  assert ((h + Z.of_nat i) mod 2 ^ p = (h + Z.of_nat j) mod 2 ^ p) as E' by lia.
  pose proof (Z.div_mod (h + Z.of_nat i) (2 ^ p)). pose proof (Z.div_mod (h + Z.of_nat j) (2 ^ p)).
  set (a := (h + Z.of_nat i) / 2 ^ p) in *. set (b := (h + Z.of_nat j) / 2 ^ p) in *.
  assert (2 ^ p * (a - b) = Z.of_nat i - Z.of_nat j) by lia. assert (a = b) by nia. lia.
Qed.

Lemma slot_at_home m r f : ring_ok m r -> slot_at m (home_of m f) 0 = Z.to_nat (home_of m f).
Proof.
  intros (p & Hp & -> & _). unfold slot_at, home_of. rewrite !land_mask by lia.
  by rewrite Z.add_0_r, Zmod_mod.
Qed.

Lemma ring_ok_insert m r k x : ring_ok m r -> ring_ok m (<[k := x]> r).
Proof. intros (p & ? & ? & ?). exists p. by rewrite length_insert. Qed.

(** What a slot reads. *)
Definition reads (r : list Z) (k : nat) : Z := default 0 (r !! k).

Lemma reads_insert_eq r k x : (k < length r)%nat -> reads (<[k := x]> r) k = x.
Proof. intros. unfold reads. by rewrite list_lookup_insert_eq. Qed.

Lemma reads_insert_ne r k k' x : k <> k' -> reads (<[k := x]> r) k' = reads r k'.
Proof. intros. unfold reads. by rewrite list_lookup_insert_ne. Qed.

Lemma compare_exchange_spec r k f :
  compare_exchange r k f = (if reads r k =? 0 then <[k := f]> r else r, reads r k).
Proof. unfold compare_exchange. fold (reads r k). by destruct (reads r k =? 0). Qed.

Notation window_slot m f j := (slot_at m (home_of m f) j).

Lemma fingerprint_nonzero s f : fingerprint_of s = Some f -> f <> 0.
Proof.
  unfold fingerprint_of. destruct (_ <? _)%nat; [done|]. intros [= <-].
  destruct (_ =? 0) eqn:E; bool_to_prop; lia.
Qed.

(** ** The invariant of interleaved calls *)

(** How far a call got: the slots it passed. *)
Definition passed (p : Pc) : nat := match p with Probing i => i | Evicting => PROBE | Returned _ => O end.

(** A fingerprint in the ring is in its window, behind occupied slots. *)
Definition placed (m : Z) (r : list Z) (f : Z) (s : nat) : Prop :=
  exists i, (i < PROBE)%nat /\ s = window_slot m f i /\ forall j, (j < i)%nat -> reads r (window_slot m f j) <> 0.

(** What a call for [f] knows of a slot it passed: it is occupied, and by [f] only when [f]
    was since evicted into its home, which takes a full window. *)
Definition behind (m : Z) (r : list Z) (f : Z) (j : nat) : Prop :=
  reads r (window_slot m f j) <> 0 /\
  (reads r (window_slot m f j) = f -> j = O /\ forall i, (i < PROBE)%nat -> reads r (window_slot m f i) <> 0).

Definition copies (f : Z) (r : list Z) : nat := length (filter (fun x => x = f) r).

Record Inv (m : Z) (c : Config) : Prop := {
  inv_ring : ring_ok m (ring c);
  inv_fp : forall k th, threads c !! k = Some th -> fp th <> 0;
  (** every stored fingerprint was admitted by some call *)
  inv_stored : forall s, reads (ring c) s <> 0 ->
    exists k th, threads c !! k = Some th /\ fp th = reads (ring c) s /\ pc th = Returned true;
  inv_false : forall k th, threads c !! k = Some th -> pc th = Returned false ->
    exists k' th', threads c !! k' = Some th' /\ fp th' = fp th /\ pc th' = Returned true;
  inv_pc : forall k th, threads c !! k = Some th -> (passed (pc th) <= PROBE)%nat /\
    (forall i, pc th = Probing i -> (i < PROBE)%nat);
  inv_passed : forall k th j, threads c !! k = Some th -> (j < passed (pc th))%nat -> behind m (ring c) (fp th) j;
  inv_placed : forall s, reads (ring c) s <> 0 -> placed m (ring c) (reads (ring c) s) s;
  inv_single : forall s s', reads (ring c) s <> 0 -> reads (ring c) s = reads (ring c) s' -> s = s';
  (** every admission is still in the ring or was overwritten *)
  inv_count : forall f, f <> 0 -> admissions f c = (copies f (ring c) + evictions f c)%nat
}.

Lemma inv_initial n : Inv (mask (with_capacity n)) (initial (with_capacity n)).
Proof.
  assert (forall s, reads (slots (with_capacity n)) s = 0) as Hz.
  { intros s. unfold reads, with_capacity. cbn [slots].
    destruct (replicate _ 0 !! s) as [x|] eqn:E; [|done]. by apply lookup_replicate in E as [-> _]. }
  split; cbn [ring threads evicted initial]; try done; try apply with_capacity_ok.
  - intros s Hs. by rewrite Hz in Hs.
  - intros s Hs. by rewrite Hz in Hs.
  - intros s s' Hs. by rewrite Hz in Hs.
  - intros f Hf. unfold admissions, evictions, copies. cbn. unfold with_capacity. cbn [slots].
    induction (Z.to_nat _) as [|l IH]; [done|]. cbn [replicate]. by rewrite filter_cons_False by congruence.
Qed.

(** ** Every step preserves it *)

Lemma threads_insert (l : list Thread) k th' k0 th0 : <[k := th']> l !! k0 = Some th0 ->
  (k0 = k /\ th0 = th') \/ (k0 <> k /\ l !! k0 = Some th0).
Proof. intros H. apply list_lookup_insert_Some in H as [(-> & -> & _)|[? ?]]; [by left|right; split; congruence]. Qed.

(** Counting after one entry changed. *)
Lemma count_insert {A} (P : A -> Prop) `{forall x, Decision (P x)} (l : list A) k x y : l !! k = Some x ->
  (length (filter P (<[k := y]> l)) + (if decide (P x) then 1 else 0) =
   length (filter P l) + (if decide (P y) then 1 else 0))%nat.
Proof.
  revert k. induction l as [|z l IH]; intros [|k] Hk; try done; cbn in Hk.
  - injection Hk as ->. cbn [insert list_insert]. rewrite !filter_cons. repeat case_decide; cbn; lia.
  - specialize (IH k Hk). change (<[S k := y]> (z :: l)) with (z :: <[k := y]> l). rewrite !filter_cons.
    destruct (decide (P z)); cbn [length]; lia.
Qed.

Section one_step.
Context (m : Z) (c : Config) (HI : Inv m c) (k : nat) (th th' : Thread)
  (Hk : threads c !! k = Some th) (Hfp : fp th' = fp th)
  (Hrun : forall b, pc th <> Returned b).

Notation threads' := (<[k := th']> (threads c)).

Lemma still_admitted f : (exists k0 th0, threads c !! k0 = Some th0 /\ fp th0 = f /\ pc th0 = Returned true) ->
  exists k0 th0, threads' !! k0 = Some th0 /\ fp th0 = f /\ pc th0 = Returned true.
Proof using Hk Hrun.
  intros (k0 & th0 & H0 & Hf & Hr). exists k0, th0. split; [|done].
  rewrite list_lookup_insert_ne; [done|]. intros <-. simplify_eq. by eapply Hrun.
Qed.

Lemma threads_k : threads' !! k = Some th'.
Proof using Hk. apply list_lookup_insert_eq. by eapply lookup_lt_Some. Qed.

Lemma admissions_after f r ev : admissions f (mkConfig r threads' ev) =
  (admissions f c + (if decide (fp th = f /\ pc th' = Returned true) then 1 else 0))%nat.
Proof using Hk Hfp Hrun.
  unfold admissions. cbn [threads]. pose proof (count_insert (fun th => fp th = f /\ pc th = Returned true) _ _ _ th' Hk) as E.
  cbv beta in E. rewrite Hfp in E. rewrite (decide_False (P := _ /\ pc th = _)) in E by (intros [_ H]; by eapply Hrun). lia.
Qed.

(** A step that only reads: the call moves on, or meets its own fingerprint. *)
Lemma inv_read :
  pc th' <> Returned true ->
  (passed (pc th') <= PROBE)%nat -> (forall i, pc th' = Probing i -> (i < PROBE)%nat) ->
  (forall j, (j < passed (pc th'))%nat -> behind m (ring c) (fp th) j) ->
  (pc th' = Returned false -> exists s, reads (ring c) s = fp th) ->
  Inv m (mkConfig (ring c) threads' (evicted c)).
Proof using HI Hk Hfp Hrun.
  intros Hnt Hp Hpi Hpass Hfalse. split; cbn [ring threads evicted].
  - apply HI.
  - intros k0 th0 [[-> ->]|[_ H]]%threads_insert; [rewrite Hfp; by eapply inv_fp|by eapply inv_fp].
  - intros s Hs. by apply still_admitted, (inv_stored m c HI).
  - intros k0 th0 [[-> ->]|[_ H]]%threads_insert Hr.
    + destruct (Hfalse Hr) as [s Hs]. rewrite Hfp. rewrite <- Hs. apply still_admitted, (inv_stored m c HI).
      rewrite Hs. by eapply inv_fp.
    + by apply still_admitted, (inv_false m c HI k0).
  - intros k0 th0 [[-> ->]|[_ H]]%threads_insert; [done|by eapply inv_pc].
  - intros k0 th0 j [[-> ->]|[_ H]]%threads_insert; [rewrite Hfp; by apply Hpass|by eapply inv_passed].
  - apply HI.
  - apply HI.
  - intros f Hf. rewrite admissions_after, decide_False by by intros [_ ?]. rewrite Nat.add_0_r. by apply (inv_count m c HI).
Qed.

(** A step that stores the fingerprint in a slot and returns [true]: the slot was vacant and
    is the one the call probes, or it is the home of a call that passed the whole window. *)
Lemma inv_store i ev :
  pc th' = Returned true -> (i < PROBE)%nat ->
  (ev = evicted c /\ reads (ring c) (window_slot m (fp th) i) = 0 /\ pc th = Probing i) \/
  (ev = reads (ring c) (window_slot m (fp th) i) :: evicted c /\ pc th = Evicting /\ i = O) ->
  Inv m (mkConfig (<[window_slot m (fp th) i := fp th]> (ring c)) threads' ev).
Proof using HI Hk Hfp Hrun.
  intros Ht Hi Hcase. set (s := window_slot m (fp th) i) in *.
  pose proof (inv_fp m c HI k th Hk) as Hnz. pose proof (inv_ring m c HI) as Hring.
  pose proof (slot_at_lt m (ring c) (fp th) i Hring) as Hlt. fold s in Hlt.
  (* an occupied slot stays occupied *)
  assert (forall x, reads (ring c) x <> 0 -> reads (<[s := fp th]> (ring c)) x <> 0) as Hocc.
  { intros x Hx. destruct (decide (s = x)) as [<-|]; [by rewrite reads_insert_eq|by rewrite reads_insert_ne]. }
  (* the slots before are occupied, and in an eviction the whole window *)
  assert (forall j, (j < i)%nat -> behind m (ring c) (fp th) j) as Hbefore.
  { intros j Hj. apply (inv_passed m c HI k th j Hk). destruct Hcase as [(_ & _ & ->)|(_ & -> & ->)]; cbn; [done|lia]. }
  (* no other slot holds the fingerprint *)
  assert (forall x, reads (ring c) x = fp th -> x = s) as Hone.
  { intros x Hx. destruct (inv_placed m c HI x) as (i' & Hi' & E & Hpre); [by rewrite Hx|]. rewrite Hx in *.
    destruct Hcase as [(_ & Hz & Hpc)|(_ & Hpc & ->)].
    - destruct (decide (i' = i)) as [->|]; [done|]. destruct (decide (i' < i)%nat) as [Hl|].
      + destruct (Hbefore i' Hl) as [_ Hb]. rewrite <- E in Hb. destruct (Hb Hx) as [_ Hall]. by destruct (Hall i Hi).
      + destruct (Hpre i); [lia|done].
    - destruct (inv_passed m c HI k th i' Hk) as [_ Hb]; [by rewrite Hpc|]. rewrite <- E in Hb. destruct (Hb Hx) as [-> _]. done. }
  split; cbn [ring threads evicted].
  - by apply ring_ok_insert.
  - intros k0 th0 [[-> ->]|[_ H]]%threads_insert; [by rewrite Hfp|by eapply inv_fp].
  - intros x Hx. destruct (decide (s = x)) as [<-|Hne].
    + rewrite reads_insert_eq by done. exists k, th'. by split; [apply threads_k|].
    + rewrite reads_insert_ne in * by done. by apply still_admitted, (inv_stored m c HI).
  - intros k0 th0 [[-> ->]|[_ H]]%threads_insert Hr; [congruence|].
    by apply still_admitted, (inv_false m c HI k0).
  - intros k0 th0 [[-> ->]|[_ H]]%threads_insert; [|by eapply inv_pc]. rewrite Ht. cbn. split; [lia|done].
  - intros k0 th0 j [[-> ->]|[_ H]]%threads_insert; [rewrite Ht; cbn; lia|]. intros Hj.
    destruct (inv_passed m c HI k0 th0 j H Hj) as [B1 B2]. split; [by apply Hocc|].
    destruct (decide (s = window_slot m (fp th0) j)) as [E|Hne].
    + rewrite <- E, reads_insert_eq by done. intros Ef. unfold s in E. rewrite Ef in E.
      destruct (inv_pc m c HI k0 th0 H) as [Hp _].
      assert (i = j) as -> by (eapply slot_at_inj; [done|done|lia|done]).
      destruct Hcase as [(_ & Hz & _)|(_ & Hpc & ->)]; [by unfold s in Hz; rewrite Ef in Hz|].
      split; [done|]. intros i' Hi'. apply Hocc. rewrite <- Ef.
      destruct (inv_passed m c HI k th i' Hk) as [B _]; [by rewrite Hpc|done].
    + rewrite reads_insert_ne by done. intros Ef. destruct (B2 Ef) as [-> Hall]. split; [done|].
      intros i' Hi'. by apply Hocc, Hall.
  - intros x Hx. destruct (decide (s = x)) as [<-|Hne].
    + rewrite reads_insert_eq by done. exists i. split_and!; [done|done|]. intros j Hj. apply Hocc, Hbefore, Hj.
    + rewrite (reads_insert_ne _ s x) in * by done. destruct (inv_placed m c HI x Hx) as (i' & Hi' & E & Hpre).
      exists i'. split_and!; [done|done|]. intros j Hj. by apply Hocc, Hpre.
  - intros x y Hx Hxy. destruct (decide (s = x)) as [<-|Hnx], (decide (s = y)) as [<-|Hny]; [done| | |].
    + rewrite reads_insert_eq, reads_insert_ne in Hxy by done. symmetry. by apply Hone.
    + rewrite reads_insert_ne, reads_insert_eq in Hxy by done. by apply Hone.
    + rewrite !reads_insert_ne in * by done. by apply (inv_single m c HI).
  - intros f Hf. rewrite admissions_after. pose proof (inv_count m c HI f Hf) as Hc.
    destruct (lookup_lt_is_Some_2 (ring c) s Hlt) as [v Hv].
    assert (Ev : reads (ring c) s = v) by (unfold reads; by rewrite Hv).
    pose proof (count_insert (fun x => x = f) (ring c) s v (fp th) Hv) as Hcopy. unfold copies, evictions in *. cbn [evicted].
    rewrite (decide_ext (fp th = f /\ pc th' = Returned true) (fp th = f)) by tauto.
    destruct Hcase as [(-> & Hz & _)|(-> & _ & _)].
    + rewrite (decide_False (P := v = f)) in Hcopy by congruence. lia.
    + rewrite Ev, filter_cons. destruct (decide (v = f)); cbn [length]; lia.
Qed.
End one_step.

Lemma inv_call m c f : f <> 0 -> Inv m c -> Inv m (mkConfig (ring c) (threads c ++ [mkThread f (Probing 0)]) (evicted c)).
Proof.
  intros Hf HI.
  assert (forall k0 th0, (threads c ++ [mkThread f (Probing 0)]) !! k0 = Some th0 ->
    threads c !! k0 = Some th0 \/ th0 = mkThread f (Probing 0)) as Hlk.
  { intros k0 th0 [H|[_ H]]%lookup_app_Some; [by left|right]. by apply list_lookup_singleton_Some in H as [_ <-]. }
  assert (forall g, (exists k0 th0, threads c !! k0 = Some th0 /\ fp th0 = g /\ pc th0 = Returned true) ->
    exists k0 th0, (threads c ++ [mkThread f (Probing 0)]) !! k0 = Some th0 /\ fp th0 = g /\ pc th0 = Returned true) as Hst.
  { intros g (k0 & th0 & H & ?). exists k0, th0. split; [by apply lookup_app_l_Some|done]. }
  split; cbn [ring threads evicted]; try apply HI.
  - intros k0 th0 [H| ->]%Hlk; [by eapply inv_fp|done].
  - intros s Hs. by apply Hst, (inv_stored m c HI).
  - intros k0 th0 [H| ->]%Hlk; [|done]. intros. by apply Hst, (inv_false m c HI k0).
  - intros k0 th0 [H| ->]%Hlk; [by eapply inv_pc|]. cbn. split; [lia|]. intros i [= <-]. unfold PROBE. lia.
  - intros k0 th0 j [H| ->]%Hlk; [by eapply inv_passed|]. cbn. lia.
  - intros g Hg. pose proof (inv_count m c HI g Hg) as Hc. unfold admissions, evictions in *. cbn [threads evicted].
    rewrite filter_app, filter_cons_False, filter_nil, app_nil_r by by intros [_ ?]. exact Hc.
Qed.

Lemma inv_progress m c k th slots th' : Inv m c -> threads c !! k = Some th ->
  step_thread m (ring c) th = (slots, th') ->
  Inv m (mkConfig slots (<[k := th']> (threads c))
    (match pc th with Evicting => default 0 (ring c !! Z.to_nat (home_of m (fp th))) :: evicted c | _ => evicted c end)).
Proof.
  intros HI Hk. pose proof (inv_ring m c HI) as Hring. pose proof (inv_pc m c HI k th Hk) as [_ Hpi].
  unfold step_thread. destruct (pc th) as [i| |b] eqn:Hpc.
  - specialize (Hpi i eq_refl). rewrite compare_exchange_spec. set (s := slot_at m (home_of m (fp th)) i).
    destruct (reads (ring c) s =? 0) eqn:E0; bool_to_prop.
    + intros [= <- <-]. apply (inv_store m c HI k th (mkThread (fp th) _) Hk eq_refl); [by rewrite Hpc|done|done|].
      left. by rewrite Hpc.
    + assert (forall j, (j < i)%nat -> behind m (ring c) (fp th) j) as Hold.
      { intros j Hj. eapply (inv_passed m c HI); [done|]. by rewrite Hpc. }
      destruct (reads (ring c) s =? fp th) eqn:E1; bool_to_prop; intros [= <- <-].
      * apply (inv_read m c HI k th (mkThread (fp th) _) Hk eq_refl); cbn [pc]; [by rewrite Hpc|done|cbn; lia|done|cbn; lia|by exists s].
      * assert (forall j, (j < S i)%nat -> behind m (ring c) (fp th) j) as Hnew.
        { intros j Hj. destruct (decide (j = i)) as [->|]; [by split; [|intros ?]|]. apply Hold. lia. }
        destruct (S i <? PROBE)%nat eqn:El; [apply Nat.ltb_lt in El|apply Nat.ltb_ge in El].
        -- apply (inv_read m c HI k th (mkThread (fp th) _) Hk eq_refl); cbn [pc passed];
             [by rewrite Hpc|done|lia|by intros ? [= <-]|done|done].
        -- apply (inv_read m c HI k th (mkThread (fp th) _) Hk eq_refl); cbn [pc passed];
             [by rewrite Hpc|done|lia|done| |done]. intros j Hj. apply Hnew. lia.
  - intros [= <- <-]. rewrite <- (slot_at_home m (ring c)) by done.
    apply (inv_store m c HI k th (mkThread (fp th) _) Hk eq_refl); [by rewrite Hpc|done|unfold PROBE; lia|].
    by right.
  - intros [= <- <-]. rewrite list_insert_id by done. by destruct c.
Qed.

Lemma reachable_inv n c : reachable (with_capacity n) c -> Inv (mask (with_capacity n)) c.
Proof.
  intros H. remember (initial (with_capacity n)) as c0 eqn:E. unfold reachable in H. rewrite <- E in H.
  assert (Inv (mask (with_capacity n)) c0) as HI by (subst; apply inv_initial). clear E.
  induction H as [c|c1 c2 c3 Hs _ IH]; [done|]. apply IH. destruct Hs.
  - apply inv_call; [by eapply fingerprint_nonzero|done].
  - by eapply inv_progress.
Qed.

(** The ring holds at most one copy of a fingerprint. *)
Lemma copies_le_one m c f : Inv m c -> f <> 0 -> (copies f (ring c) <= 1)%nat.
Proof.
  intros HI Hf. pose proof (inv_single m c HI) as Hs. unfold copies, reads in *. generalize dependent (ring c). intros r Hs.
  induction r as [|x r IH]; [cbn; lia|]. rewrite filter_cons. destruct (decide (x = f)) as [->|Hx].
  - cbn [length]. enough (filter (fun x => x = f) r = []) as -> by (cbn; lia). apply elem_of_nil_inv. intros y [-> Hy]%list_elem_of_filter.
    apply list_elem_of_lookup in Hy as [i Hy]. assert (O = S i) as E; [|done].
    apply Hs; [done|]. change (f = default 0 (r !! i)). by rewrite Hy.
  - apply IH. intros s s' H1 H2. specialize (Hs (S s) (S s') H1 H2). congruence.
Qed.

(** C22: However calls of several transports interleave, a call drops its transaction only if
    another call admitted the same fingerprint, and at every moment the calls that admitted
    a fingerprint number at most one more than the evictions that overwrote it: between two
    admissions its entry was evicted, at the latest by the second one, when both calls found
    the window full before either stored. *)
Theorem interleaved_calls_admit_once n c : reachable (with_capacity n) c ->
  (forall k th, threads c !! k = Some th -> pc th = Returned false ->
     exists k' th', k' <> k /\ threads c !! k' = Some th' /\ fp th' = fp th /\ pc th' = Returned true) /\
  (forall f, f <> 0 -> (admissions f c <= 1 + evictions f c)%nat).
Proof.
  intros HI%reachable_inv. split.
  - intros k th Hk Hr. destruct (inv_false _ c HI k th Hk Hr) as (k' & th' & H' & Hf & Hr').
    exists k', th'. split; [|done]. intros ->. simplify_eq. congruence.
  - intros f Hf. rewrite (inv_count _ c HI f Hf). pose proof (copies_le_one _ c f HI Hf). lia.
Qed.

(** Two transports deliver one transaction at once: both calls start before either
    claims a slot. *)
Lemma interleaved_calls_admit_once_witness :
  let sig := [5; 0; 0; 0; 0; 0; 0; 0] in
  let c := mkConfig [0; 5; 0; 0] [mkThread 5 (Returned true); mkThread 5 (Returned false)] [] in
  reachable (with_capacity 4) c /\
  (exists k' th', k' <> 1%nat /\ threads c !! k' = Some th' /\ fp th' = 5 /\ pc th' = Returned true) /\
  (admissions 5 c <= 1 + evictions 5 c)%nat.
Proof.
  cbv zeta. set (c := mkConfig _ _ _).
  assert (reachable (with_capacity 4) c) as Hr.
  { unfold reachable. eapply rtc_l; [apply (Call _ _ [5; 0; 0; 0; 0; 0; 0; 0] 5); reflexivity|].
    eapply rtc_l; [apply (Call _ _ [5; 0; 0; 0; 0; 0; 0; 0] 5); reflexivity|].
    eapply rtc_l; [eapply (Progress _ _ 0%nat); reflexivity|].
    eapply rtc_l; [eapply (Progress _ _ 1%nat); reflexivity|].
    apply rtc_refl. }
  split; [exact Hr|]. destruct (interleaved_calls_admit_once 4 c Hr) as [H1 H2].
  split; [exact (H1 1%nat (mkThread 5 (Returned false)) eq_refl eq_refl)|exact (H2 5 ltac:(done))].
Defined.

(** A schedule: a new call for a signature, or one atomic step of a call. *)
Definition act (m : Z) (c : Config) (a : list Z + nat) : Config :=
  match a with
  | inl signature =>
      match fingerprint_of signature with
      | Some f => mkConfig (ring c) (threads c ++ [mkThread f (Probing 0)]) (evicted c)
      | None => c
      end
  | inr k =>
      match threads c !! k with
      | Some th =>
          let '(slots, th') := step_thread m (ring c) th in
          mkConfig slots (<[k := th']> (threads c))
            (match pc th with
             | Evicting => default 0 (ring c !! Z.to_nat (home_of m (fp th))) :: evicted c
             | _ => evicted c
             end)
      | None => c
      end
  end.

Lemma schedule_reachable d l : reachable d (foldl (act (mask d)) (initial d) l).
Proof.
  unfold reachable. generalize (initial d). induction l as [|a l IH]; intros c; [apply rtc_refl|]. cbn [foldl].
  etransitivity; [|apply IH]. clear IH. destruct a as [s|k]; cbn [act].
  - destruct (fingerprint_of s) eqn:E; [|apply rtc_refl]. apply rtc_once. by econstructor.
  - destruct (threads c !! k) as [th|] eqn:E; [|apply rtc_refl]. destruct (step_thread _ _ th) as [slots th'] eqn:Es.
    apply rtc_once. by econstructor.
Qed.

Definition signature_byte (b : Z) : list Z := [b; 0; 0; 0; 0; 0; 0; 0].

(** Once the window is full, two calls for one signature that both probe before either stores
    both admit it, though their signature had never been seen: the eviction is a plain store
    and not a compare-exchange. *)
Theorem a_full_window_admits_both : exists c, reachable (with_capacity 4) c /\
  threads c !! 4%nat = Some (mkThread 20 (Returned true)) /\ threads c !! 5%nat = Some (mkThread 20 (Returned true)) /\
  evicted c = [20; 4].
Proof.
  set (l := (inl ∘ signature_byte <$> [4; 8; 12; 16; 20; 20]) ++
    (inr <$> [0; 1; 1; 2; 2; 2; 3; 3; 3; 3; 4; 5; 4; 5; 4; 5; 4; 5; 4; 5]%nat)).
  exists (foldl (act (mask (with_capacity 4))) (initial (with_capacity 4)) l).
  split; [apply schedule_reachable|]. by vm_compute.
Qed.

(** ** One call alone *)

Fixpoint run_alone (m : Z) (n : nat) (s : list Z * Thread) : list Z * Thread :=
  match n with O => s | S n => run_alone m n (step_thread m s.1 s.2) end.

Lemma run_returned m n r f b : run_alone m n (r, mkThread f (Returned b)) = (r, mkThread f (Returned b)).
Proof. by induction n. Qed.

Lemma probe_runs m f k : forall i r n, (i + k = PROBE)%nat -> (1 <= k)%nat -> (k < n)%nat ->
  run_alone m n (r, mkThread f (Probing i)) =
  (let '(r', b) := probe m r (home_of m f) f i k in (r', mkThread f (Returned b))).
Proof.
  induction k as [|k IH]; intros i r n Hik Hk Hn; [lia|]. destruct n as [|n]; [lia|].
  cbn [run_alone probe fst snd]. unfold step_thread. cbn [pc fp].
  destruct (compare_exchange r _ f) as [r' existing].
  destruct (existing =? 0); [by rewrite run_returned|]. destruct (existing =? f); [by rewrite run_returned|].
  destruct k as [|k].
  - assert ((S i <? PROBE)%nat = false) as -> by (apply Nat.ltb_ge; lia).
    destruct n as [|n]; [lia|]. cbn [run_alone probe fst snd step_thread pc fp]. by rewrite run_returned.
  - assert ((S i <? PROBE)%nat = true) as -> by (apply Nat.ltb_lt; lia). apply IH; lia.
Qed.

(** A call that runs alone finishes within five atomic steps, with the ring and the answer
    [insert_new] computes. *)
Theorem insert_new_is_five_atomic_steps d s f : fingerprint_of s = Some f ->
  run_alone (mask d) 5 (slots d, mkThread f (Probing 0)) =
  (slots (insert_new d s).1, mkThread f (Returned (insert_new d s).2)).
Proof.
  intros Hf. unfold insert_new. rewrite Hf.
  rewrite (probe_runs (mask d) f PROBE 0 (slots d) 5) by (unfold PROBE; lia).
  by destruct (probe _ _ _ _ _ _).
Qed.

(** A fingerprint is found behind occupied slots. *)
Definition found (m : Z) (r : list Z) (f : Z) (j : nat) : Prop :=
  (j < PROBE)%nat /\ reads r (window_slot m f j) = f /\
  forall i, (i < j)%nat -> reads r (window_slot m f i) <> 0.

Lemma probe_spec m f k : forall i r, (i + k = PROBE)%nat -> f <> 0 -> ring_ok m r ->
  let '(r', b) := probe m r (home_of m f) f i k in
  ring_ok m r' /\
  ((exists j, (j < PROBE)%nat /\ (r' = r \/ r' = <[window_slot m f j := f]> r) /\
     (reads r (window_slot m f j) = 0 \/ reads r (window_slot m f j) = f) /\
     (r' = r -> reads r (window_slot m f j) = f) /\
     (forall i', (i <= i' < j)%nat -> reads r (window_slot m f i') <> 0))
   \/ (r' = <[window_slot m f 0 := f]> r)).
Proof.
  induction k as [|k IH]; intros i r Hik Hf Hr; cbn [probe].
  - rewrite <- (slot_at_home m r) by done. split; [by apply ring_ok_insert|by right].
  - rewrite compare_exchange_spec. set (s := slot_at m (home_of m f) i).
    destruct (reads r s =? 0) eqn:E0; bool_to_prop.
    { split; [by apply ring_ok_insert|]. left. exists i. split; [lia|]. split; [by right|].
      split; [by left|]. split; [|lia]. intros E. rewrite <- E. apply reads_insert_eq. by apply slot_at_lt. }
    destruct (reads r s =? f) eqn:E1; bool_to_prop.
    { split; [done|]. left. exists i. split; [lia|]. split; [by left|]. split; [by right|]. split; [done|lia]. }
    specialize (IH (S i) r ltac:(lia) Hf Hr). destruct (probe m r (home_of m f) f (S i) k) as [r' b].
    destruct IH as [Hr' [(j & Hj & H1 & H2 & H3 & H4)|H]]; (split; [done|]); [left|by right].
    exists j. split_and!; try done. intros i' Hi'. destruct (decide (i' = i)) as [->|]; [done|]. apply H4. lia.
Qed.

Lemma found_answers m f k : forall i r j, (i + k = PROBE)%nat -> (i <= j)%nat -> f <> 0 -> found m r f j ->
  (probe m r (home_of m f) f i k).2 = false.
Proof.
  induction k as [|k IH]; intros i r j Hik Hij Hf (Hj & Hr & Hocc); [lia|]. cbn [probe].
  rewrite compare_exchange_spec. destruct (decide (i = j)) as [->|Hne].
  - rewrite Hr. rewrite Z.eqb_refl. by destruct (f =? 0) eqn:E; bool_to_prop.
  - destruct (reads r (window_slot m f i) =? 0) eqn:E; bool_to_prop; [exfalso; apply (Hocc i); [lia|done]|].
    destruct (reads r (window_slot m f i) =? f); [done|]. eapply (IH (S i) r j); [lia|lia|done|done].
Qed.

Lemma insert_new_ok d s : ring_ok (mask d) (slots d) ->
  ring_ok (mask d) (slots (insert_new d s).1) /\ mask (insert_new d s).1 = mask d.
Proof.
  intros H. unfold insert_new. destruct (fingerprint_of s) as [f|] eqn:E; [|done].
  pose proof (probe_spec (mask d) f PROBE 0 (slots d) eq_refl (fingerprint_nonzero s f E) H) as Hp.
  destruct (probe _ _ _ _ _ _) as [r' b]. cbn. split; [apply Hp|done].
Qed.

Lemma insert_new_found d s f : ring_ok (mask d) (slots d) -> fingerprint_of s = Some f ->
  exists j, found (mask d) (slots (insert_new d s).1) f j.
Proof.
  intros H Hf. unfold insert_new. rewrite Hf. pose proof (fingerprint_nonzero s f Hf) as Hnz.
  pose proof (probe_spec (mask d) f PROBE 0 (slots d) eq_refl Hnz H) as Hp.
  destruct (probe _ _ _ _ _ _) as [r' b]. cbn [fst slots]. destruct Hp as [_ [(j & Hj & [->| ->] & H1 & H2 & H3)| ->]].
  - exists j. split; [done|]. split; [by apply H2|]. intros i Hi. apply H3. lia.
  - exists j. split; [done|]. rewrite reads_insert_eq by (by apply slot_at_lt). split; [done|].
    intros i Hi. rewrite reads_insert_ne; [apply H3; lia|]. intros E.
    eapply slot_at_inj in E; [lia|done|done|lia].
  - exists O. split; [unfold PROBE; lia|]. rewrite reads_insert_eq by (by apply slot_at_lt). split; [done|lia].
Qed.

(** Another signature leaves the fingerprint found, unless its home slot is in the window. *)
Lemma insert_new_keeps d s f j : ring_ok (mask d) (slots d) -> found (mask d) (slots d) f j -> f <> 0 ->
  (forall g i, fingerprint_of s = Some g -> (i < PROBE)%nat ->
     slot_at (mask d) (home_of (mask d) f) i <> slot_at (mask d) (home_of (mask d) g) 0) ->
  found (mask d) (slots (insert_new d s).1) f j.
Proof.
  intros H (Hj & Hr & Hocc) Hnz Hout. unfold insert_new. destruct (fingerprint_of s) as [g|] eqn:E; [|done].
  specialize (Hout g). pose proof (fingerprint_nonzero s g E) as Hg.
  pose proof (probe_spec (mask d) g PROBE 0 (slots d) eq_refl Hg H) as Hp.
  destruct (probe _ _ _ _ _ _) as [r' b]. cbn [fst slots].
  destruct Hp as [_ [(j' & Hj' & [->| ->] & [H1|H1] & _)| ->]]; [done|done| | |].
  - assert (forall i, reads (slots d) (window_slot (mask d) f i) <> 0 ->
      reads (<[window_slot (mask d) g j' := g]> (slots d)) (window_slot (mask d) f i) = reads (slots d) (window_slot (mask d) f i)) as Hk.
    { intros i Hi. apply reads_insert_ne. congruence. }
    split; [done|]. split; [by rewrite Hk; [|congruence]|]. intros i Hi. rewrite Hk; auto.
  - (* the slot already holds [g] *)
    assert (<[window_slot (mask d) g j' := g]> (slots d) = slots d) as ->; [|done].
    apply list_insert_id. unfold reads in H1. destruct (slots d !! _) eqn:El; cbn in H1; congruence.
  - assert (forall i, (i < PROBE)%nat ->
      reads (<[window_slot (mask d) g 0 := g]> (slots d)) (window_slot (mask d) f i) = reads (slots d) (window_slot (mask d) f i)) as Hk.
    { intros i Hi. apply reads_insert_ne. intros Eq. by apply (Hout i eq_refl Hi). }
    split; [done|]. split; [by rewrite Hk|]. intros i Hi. rewrite Hk; [auto|lia].
Qed.

(** A repeated signature is dropped as long as no signature in between has its home slot in
    the four slots probed for it, whatever was in the ring before. *)
Theorem repeat_is_caught d s f others :
  ring_ok (mask d) (slots d) -> fingerprint_of s = Some f ->
  Forall (fun o => forall g i, fingerprint_of o = Some g -> (i < PROBE)%nat ->
    slot_at (mask d) (home_of (mask d) f) i <> slot_at (mask d) (home_of (mask d) g) 0) others ->
  (insert_new (insert_all (insert_new d s).1 others).1 s).2 = false.
Proof.
  intros H Hf Hout. destruct (insert_new_found d s f H Hf) as [j Hj].
  destruct (insert_new_ok d s H) as [H' Hm]. set (d1 := (insert_new d s).1) in *. clearbody d1.
  rewrite <- Hm in *. clear Hm H. pose proof (fingerprint_nonzero s f Hf) as Hnz. revert d1 H' Hj Hout.
  induction others as [|o others IH]; intros d1 H Hj Hout; cbn [insert_all fst].
  - unfold insert_new. rewrite Hf. pose proof (found_answers (mask d1) f PROBE 0 (slots d1) j eq_refl ltac:(lia) Hnz Hj) as Ha.
    destruct (probe _ _ _ _ _ _). exact Ha.
  - apply Forall_cons_1 in Hout as [Ho Hout].
    pose proof (insert_new_keeps d1 o f j H Hj Hnz Ho) as Hj'. destruct (insert_new_ok d1 o H) as [H' Hm].
    destruct (insert_new d1 o) as [d2 b2]. cbn [fst] in *. specialize (IH d2). rewrite Hm in IH.
    specialize (IH H' Hj' Hout). by destruct (insert_all d2 others).
Qed.

(** A signature whose first eight bytes are [n], little endian. *)
Definition signature_of (n : Z) : list Z :=
  [n mod 256; n / 256 mod 256; n / 256 ^ 2 mod 256; n / 256 ^ 3 mod 256; 0; 0; 0; 0].

Lemma repeat_is_caught_witness :
  (insert_new (insert_all (insert_new (with_capacity 4096) (signature_of 7)).1 [signature_of 6; signature_of 11]).1
     (signature_of 7)).2 = false.
Proof.
  apply (repeat_is_caught (with_capacity 4096) (signature_of 7) 7); [apply with_capacity_ok|reflexivity|].
  repeat constructor; intros g i [= <-] Hi;
    (destruct i as [|[|[|[|i]]]]; [vm_compute; congruence..|unfold PROBE in Hi; lia]).
Defined.

(** Five signatures with one home slot are enough to lose a fingerprint: the first is admitted
    a second time while a ring of 4,096 slots holds four fingerprints, long before the ring
    has wrapped. *)
Theorem five_colliding_signatures_reopen_the_window :
  let d := for_window 1 in
  let '(d', news) := insert_all d (signature_of <$> [1; 4097; 8193; 12289; 16385; 1]) in
  length (slots d) = 4096%nat /\ news = [true; true; true; true; true; true] /\
  length (filter (fun x => x <> 0) (slots d')) = 4%nat.
Proof. vm_compute. repeat split. Qed.

(** The ring for a window has a power-of-two size between 4,096 and 2^20 slots, at least the
    assumed peak rate times the window unless the upper bound cuts it. *)
Theorem window_capacity_is_sized secs : 0 <= secs <= u64_max ->
  exists p, window_capacity secs = 2 ^ p /\ 12 <= p <= 20 /\
    Z.min (2 ^ 20) (Z.max secs 1 * ASSUMED_PEAK_TPS) <= window_capacity secs /\
    length (slots (for_window secs)) = Z.to_nat (window_capacity secs).
Proof.
  intros Hs. unfold for_window, with_capacity. cbn [slots]. rewrite length_replicate.
  assert (ASSUMED_PEAK_TPS = 4000) as HT by done. set (want := Z.min u64_max (Z.max secs 1 * ASSUMED_PEAK_TPS)).
  set (x := Z.max 4096 (Z.min (2 ^ 20) want)).
  assert (window_capacity secs = next_power_of_two x) as -> by done.
  assert (2 ^ 12 <= x <= 2 ^ 20) as Hx by lia. exists (Z.log2_up x). split; [done|].
  assert (12 <= Z.log2_up x <= 20) as Hl.
  { split; [rewrite <- (Z.log2_up_pow2 12) by lia|rewrite <- (Z.log2_up_pow2 20) by lia];
      apply Z.log2_up_le_mono; lia. }
  split; [done|]. pose proof (next_power_of_two_ge x ltac:(lia)). split.
  - assert (2 ^ 20 < u64_max) by (vm_compute; reflexivity). lia.
  - f_equal. unfold next_power_of_two at 1. rewrite Z.max_l by (unfold PROBE; lia).
    unfold next_power_of_two. by rewrite Z.log2_up_pow2 by lia.
Qed.
