(* ===== verification/Kernel.v ===== *)
(** * Kernel: run metrics and the cost model of the analysis core

    [hunter/core/src/strategies/kernel.rs] with the fee knobs of
    [hunter/core/src/config/fee_tuning.rs].  An [f32] is kept as the float it is, widened
    exactly where the source widens it.  [ln] and [exp] are parameters, the process-wide
    [FeeTuning] is an argument, [u64] counts of outcomes are integers. *)

From S2P Require Export Float64.

(** [x as f64] of an [f32], exact. *)
Definition f64_of_f32 (x : spec_float) : f64 :=
  match x with
  | S754_finite s m e => binary_normalize 53 1024 (if s then Z.neg m else Z.pos m) e s
  | _ => x
  end.

(** [iter().sum()] of floats starts at negative zero. *)
Definition fsum (l : list f64) : f64 := foldl fadd (S754_zero true) l.

Definition fsqrt : f64 -> f64 := SFsqrt 53 1024.

(** [floor] of a float. *)
Definition ffloor (x : f64) : f64 := fneg (fceil (fneg x)).

(** ** Exit codes *)

Inductive ExitCode :=
  | NoEntry | Open | TakeProfit | StopLoss | TrailingStop | Stall | TimeStop | LiquidityExit | Dead
  | Metrics | Manual | Migrated.

#[export] Instance ExitCode_eq_dec : EqDecision ExitCode.
Proof. solve_decision. Defined.

Definition from_reason (reason : string) : ExitCode :=
  if bool_decide (reason = "TakeProfit") then TakeProfit
  else if bool_decide (reason = "StopLoss") then StopLoss
  else if bool_decide (reason = "TrailingStop") then TrailingStop
  else if bool_decide (reason = "Stall") then Stall
  else if bool_decide (reason = "TimeStop") then TimeStop
  else if bool_decide (reason = "LiquidityExit") then LiquidityExit
  else if bool_decide (reason = "Dead") then Dead
  else if bool_decide (reason = "Manual") then Manual
  else if bool_decide (reason = "Migrated") then Migrated
  else if bool_decide (reason = "Open") then Open
  else if bool_decide (reason = "NoEntry") then NoEntry
  else if bool_decide (reason = "") then Open
  else Metrics.

Definition from_closed_reason (reason : option string) : ExitCode :=
  match from_reason <$> reason with
  | None | Some Open | Some NoEntry => Manual
  | Some code => code
  end.

Record TokenOutcome := mkOutcome {
  fired : bool;
  holding_secs : Z;
  pnl_percent : spec_float;
  pnl_sol : spec_float;
  exit : ExitCode
}.

Definition no_entry : TokenOutcome := mkOutcome false 0 f_zero f_zero NoEntry.

(** ** Fees and costs *)

Record FeeTuning := mkTuning { jito_min_tip_sol : f64; cu_price_micro_lamports : Z }.

Definition BASE_SIGNATURE_FEE_LAMPORTS : Z := 5000.
Definition COMPUTE_UNIT_LIMIT_CURVE_BUY : Z := 110000.
Definition COMPUTE_UNIT_LIMIT_CURVE_SELL : Z := 100000.
Definition LAMPORTS_PER_SOL : Z := 1000000000.

Definition lamports_to_sol (lamports : Z) : f64 := f_of_Z lamports ⊘ f_of_Z LAMPORTS_PER_SOL.

Definition priority_fee_lamports (cu_price_micro_lamports cu_limit : Z) : Z :=
  wrap_u 64 ((cu_price_micro_lamports * cu_limit + 999999) / 1000000).

Definition network_fee_lamports (tuning : FeeTuning) (cu_limit : Z) : Z :=
  BASE_SIGNATURE_FEE_LAMPORTS + priority_fee_lamports (cu_price_micro_lamports tuning) cu_limit.

Definition fixed_leg_sol (tuning : FeeTuning) (cu_limit : Z) : f64 :=
  f_of_Z (network_fee_lamports tuning cu_limit) ⊘ f_of_Z LAMPORTS_PER_SOL ⊕ jito_min_tip_sol tuning.

Definition close_account_fee_sol : f64 := f_of_Z BASE_SIGNATURE_FEE_LAMPORTS ⊘ f_of_Z LAMPORTS_PER_SOL.

Definition FEE_BPS_PER_LEG : f64 := f_of_Z 125.

Record CostModel := mkCosts {
  fee_bps_per_leg : f64;
  fixed_buy_sol : f64;
  fixed_sell_sol : f64;
  close_fee_sol : f64;
  price_impact : bool
}.

Definition pumpfun_with_impact (tuning : FeeTuning) : CostModel :=
  mkCosts FEE_BPS_PER_LEG (fixed_leg_sol tuning COMPUTE_UNIT_LIMIT_CURVE_BUY)
    (fixed_leg_sol tuning COMPUTE_UNIT_LIMIT_CURVE_SELL) close_account_fee_sol true.

Definition pumpfun_fee_only (tuning : FeeTuning) : CostModel :=
  let c := pumpfun_with_impact tuning in
  mkCosts (fee_bps_per_leg c) (fixed_buy_sol c) (fixed_sell_sol c) (close_fee_sol c) false.

Definition venue_only (tuning : FeeTuning) : CostModel :=
  let c := pumpfun_with_impact tuning in mkCosts (fee_bps_per_leg c) f_zero f_zero f_zero (price_impact c).

Definition frictionless : CostModel := mkCosts f_zero f_zero f_zero f_zero false.

Definition capital_sol (c : CostModel) (notional_sol : f64) : f64 := notional_sol ⊕ fixed_buy_sol c.

Definition at_venue_fee (c : CostModel) (venue_fee_bps : option f64) : CostModel :=
  match venue_fee_bps with
  | Some f => if is_finite f && (f_zero <=. f)
              then mkCosts f (fixed_buy_sol c) (fixed_sell_sol c) (close_fee_sol c) (price_impact c) else c
  | None => c
  end.

Definition impact_depth (costs : CostModel) (reserve_sol : option f64) : option f64 :=
  if negb (price_impact costs) then None
  else match reserve_sol with
       | Some r => if is_finite r && (f_zero <. r) then Some r else None
       | None => None
       end.

Definition f_one : f64 := f_of_Z 1.

Definition buy_fill (notional_sol price : f64) (reserve_sol : option f64) (costs : CostModel) : f64 * f64 :=
  if negb (f_zero <. notional_sol) || negb (f_zero <. price) || negb (is_finite price) then (f_zero, f_zero)
  else
    let fee := fee_bps_per_leg costs ⊘ f_of_Z 10000 in
    let curve_sol := notional_sol ⊘ (f_one ⊕ fee) in
    let tokens := match impact_depth costs reserve_sol with
                  | Some v => curve_sol ⊘ (price ⊗ (f_one ⊕ curve_sol ⊘ v))
                  | None => curve_sol ⊘ price
                  end in
    (tokens, capital_sol costs notional_sol).

Definition sell_value_proceeds (value_sol : f64) (reserve_sol : option f64) (costs : CostModel) (empties_bag : bool) : f64 :=
  let fee := fee_bps_per_leg costs ⊘ f_of_Z 10000 in
  let value := if is_finite value_sol then fmax value_sol f_zero else f_zero in
  let out := match impact_depth costs reserve_sol with
             | Some v => value ⊘ (f_one ⊕ value ⊘ v)
             | None => value
             end in
  let close := if empties_bag then close_fee_sol costs else f_zero in
  out ⊗ (f_one ⊖ fee) ⊖ fixed_sell_sol costs ⊖ close.

Definition sell_proceeds (tokens price : f64) (reserve_sol : option f64) (costs : CostModel) (empties_bag : bool) : f64 :=
  sell_value_proceeds (tokens ⊗ price) reserve_sol costs empties_bag.

Record ExitLeg := mkLeg { sell_bps : Z; price : f64; reserve_sol : option f64; venue_fee_bps : option f64 }.

(** [rposition]: the last leg that sells. *)
Definition last_selling (exits : list ExitLeg) : option nat :=
  match position_of (fun l => 0 <? sell_bps l) (rev exits) with
  | Some i => Some (length exits - 1 - i)%nat
  | None => None
  end.

Definition round_trip_multi_leg (entry_price notional_sol : f64) (entry_reserve_sol : option f64)
    (exits : list ExitLeg) (costs : CostModel) : f64 * f64 :=
  if (entry_price <=. f_zero) || (notional_sol <=. f_zero) then (f_zero, f_zero)
  else
    match last_selling exits with
    | None => (f_zero, f_zero)
    | Some last =>
        let '(tokens, paid) := buy_fill notional_sol entry_price entry_reserve_sol costs in
        let got := fsum (omap (fun '(i, l) =>
          if 0 <? sell_bps l then
            let leg_tokens := tokens ⊗ f_of_Z (sell_bps l) ⊘ f_of_Z 10000 in
            Some (sell_proceeds leg_tokens (price l) (reserve_sol l) (at_venue_fee costs (venue_fee_bps l)) (i =? last)%nat)
          else None) (imap pair exits)) in
        let pnl_sol := got ⊖ paid in
        (pnl_sol, pnl_sol ⊘ paid ⊗ f_of_Z 100)
    end.

Definition round_trip_with_costs (entry_price exit_price notional_sol : f64) (entry_reserve exit_reserve : option f64)
    (costs : CostModel) : f64 * f64 :=
  round_trip_multi_leg entry_price notional_sol entry_reserve [mkLeg 10000 exit_price exit_reserve None] costs.

Definition mark_open_bag (cost_basis_sol mark_price held_amount : f64) (reserve : option f64) (costs : CostModel) : f64 :=
  if negb (is_finite cost_basis_sol) || negb (is_finite held_amount) || (held_amount <=. f_zero)
     || negb (is_finite mark_price) || (mark_price <. f_zero) then f_zero
  else sell_proceeds held_amount mark_price reserve costs true ⊖ cost_basis_sol.

Definition modeled_cost_basis (entry_price held_amount : f64) (costs : CostModel) : f64 :=
  if negb (f_zero <. entry_price) || negb (f_zero <. held_amount) then f_zero
  else
    let fee := fee_bps_per_leg costs ⊘ f_of_Z 10000 in
    entry_price ⊗ held_amount ⊗ (f_one ⊕ fee) ⊕ fixed_buy_sol costs.

Definition weighted_return_pct (sum_pnl_sol sum_capital_sol : f64) : f64 :=
  if f_zero <. sum_capital_sol then sum_pnl_sol ⊘ sum_capital_sol ⊗ f_of_Z 100 else f_zero.

(** ** Rank *)

Definition SCORE_WIN_RATE_FLOOR : f64 := f_dec 1 2.
Definition SCORE_OPEN_DRAG : f64 := f_dec 5 1.

Definition checklist_score (n_fired n_open matched : Z) (mtm_pnl_pct win_rate : f64) : option f64 :=
  if (n_fired =? 0) || (matched =? 0) then None
  else
    let fire_rate := fmin (f_of_Z n_fired ⊘ f_of_Z matched) f_one in
    let open_drag := fmin (f_of_Z n_open ⊘ f_of_Z n_fired) f_one in
    let wr := fmax win_rate SCORE_WIN_RATE_FLOOR in
    let quality := fire_rate ⊗ (f_one ⊖ SCORE_OPEN_DRAG ⊗ open_drag) ⊗ wr in
    Some (if f_zero <=. mtm_pnl_pct then mtm_pnl_pct ⊗ quality else mtm_pnl_pct ⊘ quality).

Definition sample_std_pct (n_closed : Z) (sum sum_sq : f64) : f64 :=
  if n_closed <? 2 then f_zero
  else
    let n := f_of_Z n_closed in
    let mean := sum ⊘ n in
    let var := fmax ((sum_sq ⊖ n ⊗ mean ⊗ mean) ⊘ (n ⊖ f_one)) f_zero in
    fsqrt var.

(** ** Exit histogram *)

Definition N_EXIT_BUCKETS : nat := 11.

Definition exit_index (e : ExitCode) : nat :=
  match e with
  | TakeProfit => 0 | StopLoss => 1 | TrailingStop => 2 | Stall => 3 | TimeStop => 4 | LiquidityExit => 5
  | Open | NoEntry => 6 | Dead => 7 | Metrics => 8 | Manual => 9 | Migrated => 10
  end%nat.

(** [counts[i] += 1] on [u32] counters. *)
Definition bump (counts : list Z) (i : nat) : list Z := alter (fun n => n + 1) i counts.

(** ** The quantile sketch *)

Definition SKETCH_N : nat := 64.
Definition SKETCH_BIAS : f64 := f_dec 2265 2.
Definition SKETCH_INV_LN_GAMMA : f64 := f_dec 327885 5.

Record QuantileSketch := mkSketch { neg : list Z; pos : list Z; zero : Z }.

Definition empty_sketch : QuantileSketch := mkSketch (replicate SKETCH_N 0) (replicate SKETCH_N 0) 0.

Definition sat_bump (counts : list Z) (i : nat) : list Z := alter (sat_add u32_max 1) i counts.

Section sketch.
  Context (ln exp : f64 -> f64).

Definition sketch_bucket (mag : f64) : nat :=
  let idx := ffloor (ln mag ⊗ SKETCH_INV_LN_GAMMA ⊕ SKETCH_BIAS) in
  Z.to_nat (f_as_u64 (fclamp idx f_zero (f_of_Z (Z.of_nat SKETCH_N - 1)))).

Definition sketch_value_at (i : nat) : f64 :=
  exp ((f_of_Z (Z.of_nat i) ⊖ SKETCH_BIAS ⊕ f_dec 5 1) ⊘ SKETCH_INV_LN_GAMMA).

Definition sketch_record (s : QuantileSketch) (v : f64) : QuantileSketch :=
  if f_zero <. v then mkSketch (neg s) (sat_bump (pos s) (sketch_bucket v)) (zero s)
  else if v <. f_zero then mkSketch (sat_bump (neg s) (sketch_bucket (fneg v))) (pos s) (zero s)
  else mkSketch (neg s) (pos s) (sat_add u32_max 1 (zero s)).

Definition sum_Z (l : list Z) : Z := foldr Z.add 0 l.

Definition sketch_count (s : QuantileSketch) : Z := sum_Z (neg s) + sum_Z (pos s) + zero s.

(** A cumulative walk over [(count, value)] pairs: the first whose running total passes
    [target], else the running total. *)
Fixpoint walk (l : list (Z * f64)) (cum target : Z) : f64 + Z :=
  match l with
  | [] => inr cum
  | (n, v) :: l => if target <? cum + n then inl v else walk l (cum + n) target
  end.

Definition quantile (s : QuantileSketch) (q : f64) : f64 :=
  let total := sketch_count s in
  if total =? 0 then f_zero
  else
    let target := Z.min (f_as_u64 (q ⊗ f_of_Z total)) (total - 1) in
    match walk (rev (imap (fun i n => (n, fneg (sketch_value_at i))) (neg s))) 0 target with
    | inl v => v
    | inr cum =>
        if target <? cum + zero s then f_zero
        else match walk (imap (fun i n => (n, sketch_value_at i)) (pos s)) (cum + zero s) target with
             | inl v => v
             | inr _ => sketch_value_at (SKETCH_N - 1)
             end
    end.

(** ** The streaming accumulator *)

Record RunAgg := mkAgg {
  a_fired : Z;
  a_open : Z;
  wins : Z;
  pnl_sol_sum : f64;
  open_pnl_sol_sum : f64;
  gross_win_sol : f64;
  gross_loss_sol : f64;
  pnl_min : spec_float;
  pnl_max : spec_float;
  pnl_sketch : QuantileSketch;
  closed_pct_sum : f64;
  closed_pct_sum_sq : f64;
  fired_pct_sum : f64;
  holding_sum : Z;
  holding_sketch : QuantileSketch;
  exit_counts : list Z;
  metrics_win : Z;
  metrics_loss : Z
}.

Definition empty_agg : RunAgg :=
  mkAgg 0 0 0 f_zero f_zero f_zero f_zero f_inf f_neg_inf empty_sketch f_zero f_zero f_zero 0 empty_sketch
    (replicate N_EXIT_BUCKETS 0) 0 0.

Definition record (a : RunAgg) (o : TokenOutcome) : RunAgg :=
  if negb (fired o) then a
  else
    let p := f64_of_f32 (pnl_percent o) in
    let sol := f64_of_f32 (pnl_sol o) in
    let is_open := bool_decide (exit o = Open) in
    let win := f_zero <. pnl_sol o in
    let is_metrics := bool_decide (exit o = Metrics) in
    mkAgg (a_fired a + 1)
      (if is_open then a_open a + 1 else a_open a)
      (if negb is_open && win then wins a + 1 else wins a)
      (if is_open then pnl_sol_sum a else pnl_sol_sum a ⊕ sol)
      (if is_open then open_pnl_sol_sum a ⊕ sol else open_pnl_sol_sum a)
      (if negb is_open && win then gross_win_sol a ⊕ sol else gross_win_sol a)
      (if negb is_open && negb win && (pnl_sol o <. f_zero) then gross_loss_sol a ⊕ fneg sol else gross_loss_sol a)
      (if is_open then pnl_min a else fmin (pnl_min a) (pnl_percent o))
      (if is_open then pnl_max a else fmax (pnl_max a) (pnl_percent o))
      (if is_open then pnl_sketch a else sketch_record (pnl_sketch a) p)
      (if is_open then closed_pct_sum a else closed_pct_sum a ⊕ p)
      (if is_open then closed_pct_sum_sq a else closed_pct_sum_sq a ⊕ p ⊗ p)
      (fired_pct_sum a ⊕ p)
      (if is_open then holding_sum a else holding_sum a + holding_secs o)
      (if is_open then holding_sketch a else sketch_record (holding_sketch a) (f_of_Z (holding_secs o)))
      (bump (exit_counts a) (exit_index (exit o)))
      (if is_metrics && win then metrics_win a + 1 else metrics_win a)
      (if is_metrics && negb win then metrics_loss a + 1 else metrics_loss a).

Record RunMetrics := mkMetrics {
  n_fired : Z;
  n_open : Z;
  n_closed : Z;
  win_rate : f64;
  total_pnl_sol : f64;
  open_pnl_sol : f64;
  expectancy_sol : f64;
  mean_pnl_pct : f64;
  median_pnl_pct : f64;
  p90_pnl_pct : f64;
  best_pnl_pct : f64;
  worst_pnl_pct : f64;
  std_pnl_pct : f64;
  profit_factor : option f64;
  mtm_pnl_pct : f64;
  score : option f64;
  avg_holding_secs : f64;
  median_holding_secs : f64;
  n_exits : list Z;
  n_exit_metrics_win : Z;
  n_exit_metrics_loss : Z
}.

Definition finalize (a : RunAgg) : RunMetrics :=
  let n_closed := a_fired a - a_open a in
  let n := f_of_Z n_closed in
  let none := n_closed =? 0 in
  let mtm := if a_fired a =? 0 then f_zero else fired_pct_sum a ⊘ f_of_Z (a_fired a) in
  let wr := if none then f_zero else f_of_Z (wins a) ⊘ n in
  mkMetrics (a_fired a) (a_open a) n_closed wr (pnl_sol_sum a) (open_pnl_sol_sum a)
    (if none then f_zero else pnl_sol_sum a ⊘ n)
    (if none then f_zero else closed_pct_sum a ⊘ n)
    (if none then f_zero else quantile (pnl_sketch a) (f_dec 5 1))
    (if none then f_zero else quantile (pnl_sketch a) (f_dec 9 1))
    (if none then f_zero else f64_of_f32 (pnl_max a))
    (if none then f_zero else f64_of_f32 (pnl_min a))
    (sample_std_pct n_closed (closed_pct_sum a) (closed_pct_sum_sq a))
    (if f_zero <. gross_loss_sol a then Some (gross_win_sol a ⊘ gross_loss_sol a) else None)
    mtm
    (checklist_score (a_fired a) (a_open a) (a_fired a) mtm wr)
    (if none then f_zero else f_of_Z (holding_sum a) ⊘ n)
    (if none then f_zero else quantile (holding_sketch a) (f_dec 5 1))
    (exit_counts a) (metrics_win a) (metrics_loss a).
End sketch.

(** ** The exact rollup *)

(** The accumulators of the loop of [exact_run_metrics]. *)
Record ExactAcc := mkExact {
  e_fired : Z;
  e_open : Z;
  e_wins : Z;
  e_pnl_sol_sum : f64;
  e_open_pnl_sol_sum : f64;
  e_gross_win_sol : f64;
  e_gross_loss_sol : f64;
  closed_pct : list f64;
  closed_holding : list Z;
  e_fired_pct_sum : f64;
  e_exit_counts : list Z;
  e_metrics_win : Z;
  e_metrics_loss : Z
}.

Definition empty_exact : ExactAcc :=
  mkExact 0 0 0 f_zero f_zero f_zero f_zero [] [] f_zero (replicate N_EXIT_BUCKETS 0) 0 0.

Definition exact_step (a : ExactAcc) (o : TokenOutcome) : ExactAcc :=
  if negb (fired o) then a
  else
    let pnl_pct := f64_of_f32 (pnl_percent o) in
    let sol := f64_of_f32 (pnl_sol o) in
    let is_open := bool_decide (exit o = Open) in
    let is_metrics := bool_decide (exit o = Metrics) in
    let win := f_zero <. pnl_sol o in
    mkExact (e_fired a + 1)
      (if is_open then e_open a + 1 else e_open a)
      (if negb is_open && (f_zero <. sol) then e_wins a + 1 else e_wins a)
      (if is_open then e_pnl_sol_sum a else e_pnl_sol_sum a ⊕ sol)
      (if is_open then e_open_pnl_sol_sum a ⊕ sol else e_open_pnl_sol_sum a)
      (if negb is_open && (f_zero <. sol) then e_gross_win_sol a ⊕ sol else e_gross_win_sol a)
      (if negb is_open && negb (f_zero <. sol) && (sol <. f_zero)
       then e_gross_loss_sol a ⊕ fneg sol else e_gross_loss_sol a)
      (if is_open then closed_pct a else closed_pct a ++ [pnl_pct])
      (if is_open then closed_holding a else closed_holding a ++ [holding_secs o])
      (e_fired_pct_sum a ⊕ pnl_pct)
      (bump (e_exit_counts a) (exit_index (exit o)))
      (if is_metrics && win then e_metrics_win a + 1 else e_metrics_win a)
      (if is_metrics && negb win then e_metrics_loss a + 1 else e_metrics_loss a).

(** Nearest rank on an ascending, non-empty list. *)
Definition rank_index (len : nat) (q : f64) : nat :=
  let idx := Z.to_nat (f_as_u64 (fround (f_of_Z (Z.of_nat len - 1) ⊗ q))) in
  Nat.min idx (len - 1).

Definition exact_quantile_f64 (sorted : list f64) (q : f64) : f64 :=
  default f_zero (sorted !! rank_index (length sorted) q).

Definition exact_quantile_i64 (sorted : list Z) (q : f64) : f64 :=
  f_of_Z (default 0 (sorted !! rank_index (length sorted) q)).

(** [sort_by(partial_cmp or Equal)]: stable, an element never moves before one it is not
    below. *)
Definition sort_f64 (l : list f64) : list f64 := sort_by (fun a b => negb (b <. a)) l.

Definition exact_finish (a : ExactAcc) : RunMetrics :=
  let n_closed := Z.of_nat (length (closed_pct a)) in
  let n := f_of_Z n_closed in
  let none := n_closed =? 0 in
  let pct := sort_f64 (closed_pct a) in
  let holding := sort_by Z.leb (closed_holding a) in
  let sum := fsum pct in
  let sum_sq := fsum (map (fun p => p ⊗ p) pct) in
  let mtm := if e_fired a =? 0 then f_zero else e_fired_pct_sum a ⊘ f_of_Z (e_fired a) in
  let wr := if none then f_zero else f_of_Z (e_wins a) ⊘ n in
  mkMetrics (e_fired a) (e_open a) n_closed wr (e_pnl_sol_sum a) (e_open_pnl_sol_sum a)
    (if none then f_zero else e_pnl_sol_sum a ⊘ n)
    (if none then f_zero else sum ⊘ n)
    (if none then f_zero else exact_quantile_f64 pct (f_dec 5 1))
    (if none then f_zero else exact_quantile_f64 pct (f_dec 9 1))
    (if none then f_zero else default f_zero (last pct))
    (if none then f_zero else default f_zero (head pct))
    (sample_std_pct n_closed sum sum_sq)
    (if f_zero <. e_gross_loss_sol a then Some (e_gross_win_sol a ⊘ e_gross_loss_sol a) else None)
    mtm
    (checklist_score (e_fired a) (e_open a) (e_fired a) mtm wr)
    (if none then f_zero else f_of_Z (sum_Z holding) ⊘ n)
    (if none then f_zero else exact_quantile_i64 holding (f_dec 5 1))
    (e_exit_counts a) (e_metrics_win a) (e_metrics_loss a).

Definition exact_run_metrics (outcomes : list TokenOutcome) : RunMetrics :=
  exact_finish (foldl exact_step empty_exact outcomes).

(** ** The two-band summary *)

Record RunSummary := mkSummary { realized : RunMetrics; mtm : RunMetrics }.

Definition mark_closed (o : TokenOutcome) : TokenOutcome :=
  mkOutcome (fired o) (holding_secs o) (pnl_percent o) (pnl_sol o)
    (if bool_decide (exit o = Open) then TakeProfit else exit o).

Definition run_summary (all : list TokenOutcome) : RunSummary :=
  let realized := exact_run_metrics all in
  let m := exact_run_metrics (map mark_closed all) in
  mkSummary realized
    (mkMetrics (n_fired m) (n_open realized) (n_closed m) (win_rate m) (total_pnl_sol m) (open_pnl_sol realized)
       (expectancy_sol m) (mean_pnl_pct m) (median_pnl_pct m) (p90_pnl_pct m) (best_pnl_pct m) (worst_pnl_pct m)
       (std_pnl_pct m) (profit_factor m) (mtm_pnl_pct m) (score m) (avg_holding_secs m) (median_holding_secs m)
       (replicate N_EXIT_BUCKETS 0) 0 0).
