(* ===== verification/KernelProps.v ===== *)
(** * KernelProps: the two rollups of a run agree

    The streaming accumulator and the exact rollup report the same counts, sums, rates and
    histogram over any outcomes; every fired outcome is counted once; a closed row never
    lands in the open bucket. *)

From S2P Require Export Kernel.

(** ** Widening an [f32] is exact *)

Lemma digits2_shift d m : Z.pos (digits2_pos (Pos.iter xO m d)) = Z.pos (digits2_pos m) + Z.pos d.
Proof.
  induction d as [|d IH] using Pos.peano_ind.
  - cbn [Pos.iter digits2_pos]. lia.
  - rewrite Pos.iter_succ. cbn [digits2_pos]. lia.
Qed.

Lemma round_aux_exact (s : bool) (m : positive) (e : Z) : fexp 53 1024 (Z.pos (digits2_pos m) + e) = e -> e <= 971 ->
  binary_round_aux 53 1024 s (Z.pos m) e loc_Exact = S754_finite s m e.
Proof.
  intros He Hmax. unfold binary_round_aux, shr_fexp. cbn [Zdigits2].
  rewrite He, Z.sub_diag. cbn [shr shr_record_of_loc shr_m loc_of_shr_record round_nearest_even].
  cbn [Zdigits2]. rewrite He, Z.sub_diag. cbn [shr shr_record_of_loc shr_m].
  destruct (Z.leb_spec e (1024 - 53)); [done|lia].
Qed.

(** A float of at most 53 digits within the exponent range widens to the same sign. *)
Lemma normalize_keeps (s : bool) (m : positive) (e : Z) :
  Z.pos (digits2_pos m) <= 53 -> -1074 <= e -> Z.pos (digits2_pos m) + e <= 1024 ->
  exists (m' : positive) (e' : Z), binary_normalize 53 1024 (if s then Z.neg m else Z.pos m) e s = S754_finite s m' e'.
Proof.
  intros Hd He Hmax.
  assert (binary_normalize 53 1024 (if s then Z.neg m else Z.pos m) e s = binary_round 53 1024 s m e) as ->
    by (by destruct s).
  unfold binary_round, shl_align.
  assert (fexp 53 1024 (Z.pos (digits2_pos m) + e) = Z.max (Z.pos (digits2_pos m) + e - 53) (-1074)) as Hf by done.
  destruct (fexp 53 1024 (Z.pos (digits2_pos m) + e) - e) as [|p|p] eqn:E; [| lia |].
  - exists m, e. apply round_aux_exact; lia.
  - exists (Pos.iter xO m p), (fexp 53 1024 (Z.pos (digits2_pos m) + e)).
    apply round_aux_exact; [|lia]. rewrite digits2_shift. f_equal. lia.
Qed.

Lemma widen_keeps_sign x : valid_binary 24 128 x = true ->
  (f_zero <. f64_of_f32 x) = (f_zero <. x) /\ (f64_of_f32 x <. f_zero) = (x <. f_zero).
Proof.
  destruct x as [s|s| |s m e]; try done. cbn [valid_binary f64_of_f32]. unfold bounded, canonical_mantissa.
  intros [Hc%Zeq_bool_eq Hm%Zle_bool_imp_le]%andb_prop.
  assert (fexp 24 128 (Z.pos (digits2_pos m) + e) = Z.max (Z.pos (digits2_pos m) + e - 24) (-149)) as Hf by done.
  destruct (normalize_keeps s m e) as (m' & e' & ->); [lia..|]. by destruct s.
Qed.

(** ** The two rollups *)

(** The outcomes carry [f32]s. *)
Definition outcome_ok (o : TokenOutcome) : Prop := valid_binary 24 128 (pnl_sol o) = true.

Record Agree (a : RunAgg) (e : ExactAcc) : Prop := {
  ag_fired : a_fired a = e_fired e;
  ag_open : a_open a = e_open e;
  ag_wins : wins a = e_wins e;
  ag_pnl : pnl_sol_sum a = e_pnl_sol_sum e;
  ag_open_pnl : open_pnl_sol_sum a = e_open_pnl_sol_sum e;
  ag_win : gross_win_sol a = e_gross_win_sol e;
  ag_loss : gross_loss_sol a = e_gross_loss_sol e;
  ag_fired_pct : fired_pct_sum a = e_fired_pct_sum e;
  ag_holding : holding_sum a = sum_Z (closed_holding e);
  ag_exits : exit_counts a = e_exit_counts e;
  ag_mwin : metrics_win a = e_metrics_win e;
  ag_mloss : metrics_loss a = e_metrics_loss e;
  ag_closed : Z.of_nat (length (closed_pct e)) = e_fired e - e_open e
}.

Lemma sum_Z_app l k : sum_Z (l ++ k) = sum_Z l + sum_Z k.
Proof. unfold sum_Z. induction l as [|x l IH]; cbn; [done|]. rewrite IH. lia. Qed.

Lemma sum_Z_perm l k : l ≡ₚ k -> sum_Z l = sum_Z k.
Proof. unfold sum_Z. induction 1; cbn in *; lia. Qed.

Lemma agree_step ln a e o : outcome_ok o -> Agree a e -> Agree (record ln a o) (exact_step e o).
Proof.
  intros Ho [? ? ? ? ? ? ? ? ? ? ? ? ?]. unfold record, exact_step. destruct (fired o); cbn [negb]; [|by constructor].
  destruct (widen_keeps_sign _ Ho) as [-> ->].
  destruct (bool_decide (exit o = Open)), (f_zero <. pnl_sol o), (pnl_sol o <. f_zero),
    (bool_decide (exit o = Metrics)); cbn [negb andb];
    constructor; cbn [a_fired a_open wins pnl_sol_sum open_pnl_sol_sum gross_win_sol gross_loss_sol fired_pct_sum
    holding_sum exit_counts metrics_win metrics_loss e_fired e_open e_wins e_pnl_sol_sum e_open_pnl_sol_sum
    e_gross_win_sol e_gross_loss_sol closed_pct closed_holding e_fired_pct_sum e_exit_counts e_metrics_win e_metrics_loss];
    try congruence; rewrite ?sum_Z_app, ?length_app; cbn; lia.
Qed.

Lemma agree_run ln outcomes : Forall outcome_ok outcomes ->
  Agree (foldl (record ln) empty_agg outcomes) (foldl exact_step empty_exact outcomes).
Proof.
  assert (Agree empty_agg empty_exact) as H by by constructor. revert H. generalize empty_agg empty_exact.
  induction outcomes as [|o outcomes IH]; intros a e H Hall; [done|]. apply Forall_cons_1 in Hall as [Ho Hall].
  cbn [foldl]. by apply IH; [apply agree_step|].
Qed.

(** C29: Over any outcomes the streaming rollup and the exact one report the same counts,
    realized and open PnL, expectancy, win rate, profit factor, mark-to-market return,
    score, mean holding time and exit histogram, to the last bit. *)
Theorem rollups_agree ln exp outcomes : Forall outcome_ok outcomes ->
  let s := finalize exp (foldl (record ln) empty_agg outcomes) in
  let e := exact_run_metrics outcomes in
  (n_fired s, n_open s, n_closed s, n_exits s, n_exit_metrics_win s, n_exit_metrics_loss s) =
  (n_fired e, n_open e, n_closed e, n_exits e, n_exit_metrics_win e, n_exit_metrics_loss e) /\
  (win_rate s, total_pnl_sol s, open_pnl_sol s, expectancy_sol s, profit_factor s, mtm_pnl_pct s, score s, avg_holding_secs s) =
  (win_rate e, total_pnl_sol e, open_pnl_sol e, expectancy_sol e, profit_factor e, mtm_pnl_pct e, score e, avg_holding_secs e).
Proof.
  intros Hall. cbv zeta. pose proof (agree_run ln outcomes Hall) as HA. unfold exact_run_metrics.
  set (a := foldl (record ln) empty_agg outcomes) in *. set (e := foldl exact_step empty_exact outcomes) in *.
  clearbody a e. destruct HA. unfold finalize, exact_finish. cbv zeta.
  assert (sum_Z (sort_by Z.leb (closed_holding e)) = sum_Z (closed_holding e)) as Hs by apply sum_Z_perm, sort_by_perm.
  cbn [n_fired n_open n_closed n_exits n_exit_metrics_win n_exit_metrics_loss win_rate total_pnl_sol open_pnl_sol
    expectancy_sol profit_factor mtm_pnl_pct score avg_holding_secs].
  rewrite Hs, ag_closed0, ag_fired0, ag_open0, ag_wins0, ag_pnl0, ag_open_pnl0, ag_win0, ag_loss0, ag_fired_pct0, ag_holding0,
    ag_exits0, ag_mwin0, ag_mloss0. done.
Qed.

Definition small_f32 (z : Z) : spec_float := binary_normalize 24 128 z 0 false.

Lemma rollups_agree_witness :
  let outcomes := [mkOutcome true 30 (small_f32 25) (small_f32 2) Metrics; mkOutcome false 0 f_zero f_zero NoEntry;
    mkOutcome true 60 (small_f32 (-50)) (small_f32 (-3)) Dead; mkOutcome true 0 (small_f32 10) (small_f32 1) Open] in
  let s := finalize (fun x => x) (foldl (record (fun x => x)) empty_agg outcomes) in
  let e := exact_run_metrics outcomes in
  (n_fired s, n_open s, n_closed s) = (3, 1, 2) /\ total_pnl_sol s = f_of_Z (-1) /\
  ((n_fired s, n_open s, n_closed s, n_exits s, n_exit_metrics_win s, n_exit_metrics_loss s) =
   (n_fired e, n_open e, n_closed e, n_exits e, n_exit_metrics_win e, n_exit_metrics_loss e) /\
   (win_rate s, total_pnl_sol s, open_pnl_sol s, expectancy_sol s, profit_factor s, mtm_pnl_pct s, score s, avg_holding_secs s) =
   (win_rate e, total_pnl_sol e, open_pnl_sol e, expectancy_sol e, profit_factor e, mtm_pnl_pct e, score e, avg_holding_secs e)).
Proof.
  cbv zeta. split; [vm_compute; reflexivity|]. split; [vm_compute; reflexivity|].
  apply (rollups_agree (fun x => x) (fun x => x)). repeat constructor.
Defined.

(** ** Every fired outcome is counted once *)

Lemma sum_bump l i : (i < length l)%nat -> sum_Z (bump l i) = sum_Z l + 1.
Proof.
  unfold sum_Z, bump. revert i. induction l as [|x l IH]; intros [|i] Hi; cbn in *; [lia..|].
  specialize (IH i ltac:(lia)). unfold alter in *. lia.
Qed.

Lemma length_bump l i : length (bump l i) = length l.
Proof. apply length_alter. Qed.

(** In any run the exit histogram adds up to the fired outcomes, its open bucket is the open
    count, the metric bucket splits into wins and losses, and wins stay within the closed. *)
Theorem exits_add_up ln outcomes :
  Forall (fun o => fired o = true -> exit o <> NoEntry) outcomes ->
  let a := foldl (record ln) empty_agg outcomes in
  sum_Z (exit_counts a) = a_fired a /\
  a_fired a = Z.of_nat (length (filter (fun o => fired o = true) outcomes)) /\
  exit_counts a !! exit_index Open = Some (a_open a) /\
  exit_counts a !! exit_index Metrics = Some (metrics_win a + metrics_loss a) /\
  0 <= wins a <= a_fired a - a_open a.
Proof.
  cbv zeta. induction outcomes as [|o outcomes IH] using rev_ind; [cbn; intros _; repeat split; done || lia|].
  intros [Hall Ho]%Forall_app. rewrite foldl_app. cbn [foldl]. apply Forall_cons_1 in Ho as [Ho _].
  destruct (IH Hall) as (H1 & H2 & H3 & H4 & H5). clear IH.
  assert (length (exit_counts (foldl (record ln) empty_agg outcomes)) = N_EXIT_BUCKETS) as Hl.
  { clear. induction outcomes as [|o outcomes IH] using rev_ind; [done|]. rewrite foldl_app. cbn [foldl].
    unfold record at 1. destruct (fired o); [|done]. cbn [negb exit_counts]. by rewrite length_bump. }
  set (a := foldl (record ln) empty_agg outcomes) in *. clearbody a. rewrite filter_app, length_app.
  unfold record. destruct (fired o) eqn:Ef; cbn [negb]; [|by rewrite filter_cons_False by congruence; cbn; rewrite Nat.add_0_r].
  rewrite filter_cons_True by done. specialize (Ho eq_refl).
  cbn [a_fired exit_counts a_open metrics_win metrics_loss wins filter list_filter length].
  assert (exit_index (exit o) < length (exit_counts a))%nat as Hi
    by (rewrite Hl; unfold N_EXIT_BUCKETS; destruct (exit o); cbn; lia).
  rewrite sum_bump by done. split; [lia|]. split; [lia|].
  assert (forall j n, exit_counts a !! j = Some n ->
    bump (exit_counts a) (exit_index (exit o)) !! j = Some (if decide (j = exit_index (exit o)) then n + 1 else n)) as Hb.
  { intros j n Hj. unfold bump. case_decide as E.
    - subst. rewrite list_lookup_alter_eq, Hj. done.
    - by rewrite list_lookup_alter_ne. }
  rewrite (Hb _ _ H3), (Hb _ _ H4). destruct (exit o) eqn:Ee; try congruence; cbn;
    repeat case_bool_decide; repeat case_decide; try congruence; destruct (f_zero <. pnl_sol o); cbn;
    (split; [f_equal; lia|]); (split; [f_equal; lia|lia]).
Qed.

Lemma exits_add_up_witness :
  let a := foldl (record (fun x => x)) empty_agg
    [mkOutcome true 30 (small_f32 25) (small_f32 2) Metrics; mkOutcome true 0 (small_f32 10) (small_f32 1) Open] in
  sum_Z (exit_counts a) = a_fired a /\ a_fired a = 2 /\
  exit_counts a !! exit_index Open = Some (a_open a) /\
  exit_counts a !! exit_index Metrics = Some (metrics_win a + metrics_loss a) /\
  0 <= wins a <= a_fired a - a_open a.
Proof.
  cbv zeta. apply (exits_add_up (fun x => x)). repeat constructor; done.
Defined.

(** A row known to be closed is never counted as open or as not entered, whatever its label,
    and a label of the exit ladder keeps its own bucket. *)
Theorem closed_rows_stay_closed reason :
  from_closed_reason reason <> Open /\ from_closed_reason reason <> NoEntry /\
  exit_index (from_closed_reason reason) <> exit_index Open /\
  (forall s, reason = Some s -> from_reason s <> Open -> from_reason s <> NoEntry -> from_closed_reason reason = from_reason s).
Proof.
  destruct reason as [s|]; unfold from_closed_reason; cbn [fmap option_fmap option_map]; [|repeat split; done].
  destruct (from_reason s) eqn:E; (split; [done|]); (split; [done|]); (split; [done|]);
    intros s' [= <-]; rewrite E; done.
Qed.

(** ** What the quantile sketch reads

    Every value lands in a bucket of the sketch, and a quantile read is the value of the
    bucket that holds the element of the asked rank, in any order of recording. *)

(** ** The bucket index stays in range *)

Lemma digits2_bound m : Z.pos m < 2 ^ Z.pos (digits2_pos m).
Proof.
  induction m as [m IH|m IH|]; cbn [digits2_pos]; [| |done]; rewrite Pos2Z.inj_succ, Z.pow_succ_r by lia; lia.
Qed.

(** What the floor of a float can be: short, or without a fraction. *)
Definition floored (x : f64) : Prop :=
  match x with S754_finite _ m e => 0 <= e \/ Z.pos m < 2 ^ 53 | _ => True end.

Lemma shr_fexp_ge m e l mrs e' : shr_fexp 53 1024 m e l = (mrs, e') -> e <= e'.
Proof. unfold shr_fexp, shr. destruct (_ - e) as [|p|p]; intros [= _ <-]; lia. Qed.

Lemma round_int_floored s m : floored (binary_round 53 1024 s m 0).
Proof.
  unfold binary_round, shl_align.
  assert (fexp 53 1024 (Z.pos (digits2_pos m) + 0) = Z.max (Z.pos (digits2_pos m) - 53) (-1074)) as Hf
    by (rewrite Z.add_0_r; done).
  rewrite Z.sub_0_r. destruct (fexp 53 1024 (Z.pos (digits2_pos m) + 0)) as [|p|p] eqn:E.
  - rewrite round_aux_exact; [|by rewrite E|lia]. cbn. by left.
  - unfold binary_round_aux. destruct (shr_fexp 53 1024 (Z.pos m) 0 loc_Exact) as [m1 e1] eqn:E1.
    destruct (shr_fexp 53 1024 _ e1 loc_Exact) as [m2 e2] eqn:E2.
    apply shr_fexp_ge in E1, E2. destruct (shr_m m2); try done. destruct (e2 <=? _); [cbn; left; lia|done].
  - rewrite round_aux_exact; [| |lia].
    + cbn. right. pose proof (digits2_bound (Pos.iter xO m p)) as Hb. rewrite digits2_shift in Hb.
      assert (Z.pos (digits2_pos m) + Z.pos p <= 53) by lia.
      pose proof (Z.pow_le_mono_r 2 (Z.pos (digits2_pos m) + Z.pos p) 53). lia.
    + rewrite digits2_shift, <- E. f_equal. lia.
Qed.

Lemma f_signed_floored s z : floored (f_signed s z).
Proof.
  unfold f_signed. destruct (z =? 0); [done|]. unfold binary_normalize.
  destruct s, z; try done; apply round_int_floored.
Qed.

Lemma fneg_floored x : floored x -> floored (fneg x).
Proof. by destruct x. Qed.

Lemma ffloor_floored x : floored (ffloor x).
Proof.
  unfold ffloor. apply fneg_floored. destruct x as [| | |s m e]; try done. cbn [fneg SFopp fceil].
  destruct (0 <=? e) eqn:E; [cbn; left; lia|apply f_signed_floored].
Qed.

Lemma sketch_bucket_lt ln x : (sketch_bucket ln x < SKETCH_N)%nat.
Proof.
  unfold sketch_bucket. set (y := ffloor _). assert (floored y) as Hy by apply ffloor_floored. clearbody y.
  assert (f_of_Z (Z.of_nat SKETCH_N - 1) = S754_finite false (63 * 2 ^ 47) (-47)) as -> by (vm_compute; reflexivity).
  unfold fclamp. assert (forall z, 0 <= z <= 63 -> (Z.to_nat z < SKETCH_N)%nat) as Hfin by (unfold SKETCH_N; lia).
  apply Hfin. destruct (y <. f_zero) eqn:E1; [vm_compute; split; congruence|].
  destruct (S754_finite false (63 * 2 ^ 47) (-47) <. y) eqn:E2; [vm_compute; split; congruence|].
  destruct y as [s|s| |s m e]; [vm_compute; split; congruence| |vm_compute; split; congruence|].
  { destruct s; [by cbn in E1|by cbn in E2]. }
  destruct s; [by cbn in E1|]. unfold f_as_u64, f_as_int. cbn [f_trunc].
  assert (e <= -47 /\ (e = -47 -> Z.pos m <= 63 * 2 ^ 47)) as [He Hm].
  { unfold flt, SFltb, SFcompare in E2. destruct (Z.compare_spec (-47) e) as [<-|H|H]; [split; [lia|]|done|lia].
    intros _. fold (Pos.compare (63 * 2 ^ 47) m) in E2. destruct (Pos.compare_spec (63 * 2 ^ 47) m); [lia|done|lia]. }
  destruct (0 <=? e) eqn:E0; bool_to_prop; [lia|]. destruct Hy as [?|Hy]; [lia|].
  assert (Z.pos m / 2 ^ (- e) <= 63); [|pose proof (Z.div_pos (Z.pos m) (2 ^ (- e)));
    pose proof (Z.pow_pos_nonneg 2 (- e)); unfold u64_max; lia].
  destruct (decide (e = -47)) as [->|Hne].
  - apply Z.div_le_upper_bound; [lia|]. specialize (Hm eq_refl). lia.
  - assert (2 ^ 48 <= 2 ^ (- e)) by (apply Z.pow_le_mono_r; lia). apply Z.lt_succ_r, Z.div_lt_upper_bound; lia.
Qed.

(** ** A cumulative walk is an indexed read *)

Definition expand {A} (l : list (Z * A)) : list A := concat (map (fun p => replicate (Z.to_nat p.1) p.2) l).

Lemma walk_expand l : forall cum target, Forall (fun p : Z * f64 => 0 <= p.1) l -> cum <= target ->
  walk l cum target =
  match expand l !! Z.to_nat (target - cum) with Some v => inl v | None => inr (cum + sum_Z l.*1) end.
Proof.
  induction l as [|[n v] l IH]; intros cum target Hl Hc; cbn [walk expand map concat fmap list_fmap].
  - cbn. by rewrite Z.add_0_r.
  - apply Forall_cons_1 in Hl as [Hn Hl]. cbn [fst snd] in *. fold (expand l). destruct (target <? cum + n) eqn:E; bool_to_prop.
    + rewrite lookup_app_l by (rewrite length_replicate; lia).
      by rewrite lookup_replicate_2 by lia.
    + rewrite IH by (done || lia). rewrite lookup_app_r by (rewrite length_replicate; lia).
      rewrite length_replicate. replace (Z.to_nat (target - cum) - Z.to_nat n)%nat with (Z.to_nat (target - (cum + n))) by lia.
      destruct (expand l !! _); [done|]. unfold sum_Z. cbn. by rewrite Z.add_assoc.
Qed.

Lemma length_expand {A} (l : list (Z * A)) : Forall (fun p => 0 <= p.1) l ->
  Z.of_nat (length (expand l)) = sum_Z l.*1.
Proof.
  unfold expand, sum_Z. induction 1 as [|[n v] l Hn Hl IH]; [done|]. cbn in *. rewrite length_app, length_replicate. lia.
Qed.

Lemma expand_app {A} (l k : list (Z * A)) : expand (l ++ k) = expand l ++ expand k.
Proof. unfold expand. by rewrite map_app, concat_app. Qed.

(** ** The buckets of the values recorded *)

Section buckets.
Context (ln exp : f64 -> f64).

(** The bucket of a value, negatives below zero, and the value it reads as. *)
Definition bucket_key (v : f64) : Z :=
  if f_zero <. v then Z.of_nat (sketch_bucket ln v) + 1
  else if v <. f_zero then - (Z.of_nat (sketch_bucket ln (fneg v)) + 1) else 0.

Definition bucket_value (k : Z) : f64 :=
  if 0 <? k then sketch_value_at exp (Z.to_nat (k - 1))
  else if k <? 0 then fneg (sketch_value_at exp (Z.to_nat (- k - 1))) else f_zero.

Definition cnt (ks : list Z) (k : Z) : Z := Z.of_nat (length (filter (fun x => x = k) ks)).

Definition negs (ks : list Z) : list Z := map (fun i => cnt ks (- (Z.of_nat i + 1))) (seq 0 SKETCH_N).
Definition poss (ks : list Z) : list Z := map (fun i => cnt ks (Z.of_nat i + 1)) (seq 0 SKETCH_N).

Lemma cnt_snoc ks k k' : cnt (ks ++ [k']) k = cnt ks k + (if decide (k' = k) then 1 else 0).
Proof using.
  unfold cnt. rewrite filter_app, length_app. case_decide.
  - rewrite filter_cons_True by done. cbn. lia.
  - rewrite filter_cons_False by done. cbn. lia.
Qed.

Lemma cnt_le ks k : 0 <= cnt ks k <= Z.of_nat (length ks).
Proof using. unfold cnt. pose proof (length_filter (fun x => x = k) ks). lia. Qed.

(** One more key in a row of counters. *)
Lemma row_snoc (f : nat -> Z) ks k' : Z.of_nat (length ks) < u32_max ->
  (forall i j, f i = f j -> i = j) ->
  map (fun i => cnt (ks ++ [k']) (f i)) (seq 0 SKETCH_N) =
  match find (fun i => bool_decide (k' = f i)) (seq 0 SKETCH_N) with
  | Some j => sat_bump (map (fun i => cnt ks (f i)) (seq 0 SKETCH_N)) j
  | None => map (fun i => cnt ks (f i)) (seq 0 SKETCH_N)
  end.
Proof using.
  intros Hlen Hinj.
  assert (forall i, (i < SKETCH_N)%nat -> cnt (ks ++ [k']) (f i) =
    (if decide (k' = f i) then sat_add u32_max 1 (cnt ks (f i)) else cnt ks (f i))) as Hc.
  { intros i _. rewrite cnt_snoc. pose proof (cnt_le ks (f i)). unfold sat_add. case_decide; lia. }
  apply list_eq. intros i.
  assert (forall g : nat -> Z, map g (seq 0 SKETCH_N) !! i = if decide (i < SKETCH_N)%nat then Some (g i) else None) as Hlk.
  { intros g. change (map g) with (fmap (M := list) g). rewrite list_lookup_fmap. case_decide.
    - by rewrite lookup_seq_lt.
    - by rewrite lookup_seq_ge by lia. }
  destruct (find _ _) as [j|] eqn:F.
  - apply find_some in F as [Hj Ej]. apply bool_decide_eq_true in Ej. apply in_seq in Hj. unfold sat_bump.
    destruct (decide (i = j)) as [->|Hne].
    + rewrite list_lookup_alter_eq, !Hlk, !decide_True by lia. rewrite Hc by lia. by rewrite (decide_True _ _ Ej).
    + rewrite list_lookup_alter_ne, !Hlk by done. case_decide; [|done]. rewrite Hc by done.
      rewrite decide_False; [done|]. intros E. apply Hne, Hinj. congruence.
  - rewrite !Hlk. case_decide; [|done]. rewrite Hc by done. rewrite decide_False; [done|]. intros E.
    pose proof (find_none _ _ F i) as Hn. cbn beta in Hn. rewrite bool_decide_true in Hn by done.
    discriminate Hn. apply in_seq. lia.
Qed.

Lemma find_key (f : nat -> Z) j : (forall i j, f i = f j -> i = j) -> (j < SKETCH_N)%nat ->
  find (fun i => bool_decide (f j = f i)) (seq 0 SKETCH_N) = Some j.
Proof using.
  intros Hinj Hj. destruct (find _ _) as [i|] eqn:F.
  - apply find_some in F as [_ E]. apply bool_decide_eq_true in E. f_equal. symmetry. by apply Hinj.
  - pose proof (find_none _ _ F j) as Hn. cbn beta in Hn. rewrite bool_decide_true in Hn by done.
    discriminate Hn. apply in_seq. lia.
Qed.

Lemma find_no_key (f : nat -> Z) k : (forall i, f i <> k) ->
  find (fun i => bool_decide (k = f i)) (seq 0 SKETCH_N) = None.
Proof using.
  intros Hk. destruct (find _ _) as [i|] eqn:F; [|done]. apply find_some in F as [_ E].
  apply bool_decide_eq_true in E. exfalso. by apply (Hk i).
Qed.

(** The sketch is the counters of the recorded keys. *)
Lemma sketch_counts vs : Z.of_nat (length vs) <= u32_max ->
  foldl (sketch_record ln) empty_sketch vs =
  mkSketch (negs (map bucket_key vs)) (poss (map bucket_key vs)) (cnt (map bucket_key vs) 0).
Proof using.
  induction vs as [|v vs IH] using rev_ind; [intros _; by vm_compute|].
  rewrite length_app. cbn [length]. intros Hlen. rewrite foldl_app, map_app. cbn [foldl map].
  rewrite IH by lia. set (ks := map bucket_key vs).
  assert (Z.of_nat (length ks) < u32_max) as Hks by (unfold ks; rewrite length_map; lia).
  unfold sketch_record, negs, poss. cbn [neg pos zero].
  rewrite !row_snoc by (done || (intros; lia)). rewrite cnt_snoc.
  pose proof (cnt_le ks 0). unfold bucket_key. fold ks.
  destruct (f_zero <. v) eqn:Ep; [|destruct (v <. f_zero) eqn:En].
  - rewrite (find_key (fun i => Z.of_nat i + 1)) by (try lia; apply sketch_bucket_lt).
    rewrite (find_no_key (fun i => - (Z.of_nat i + 1))) by lia.
    rewrite decide_False by lia. f_equal. lia.
  - rewrite (find_key (fun i => - (Z.of_nat i + 1))) by (try lia; apply sketch_bucket_lt).
    rewrite (find_no_key (fun i => Z.of_nat i + 1)) by lia.
    rewrite decide_False by lia. f_equal. lia.
  - rewrite (find_no_key (fun i => - (Z.of_nat i + 1))), (find_no_key (fun i => Z.of_nat i + 1)) by lia.
    rewrite decide_True by done. f_equal. unfold sat_add. lia.
Qed.
End buckets.

(** ** The sorted keys *)

Definition all_keys : list Z :=
  rev (map (fun i => - (Z.of_nat i + 1)) (seq 0 SKETCH_N)) ++ [0] ++ map (fun i => Z.of_nat i + 1) (seq 0 SKETCH_N).

Lemma all_keys_sorted : StronglySorted Z.le all_keys /\ NoDup all_keys.
Proof.
  assert (all_keys = map (fun i => Z.of_nat i - 64) (seq 0 129)) as -> by (vm_compute; reflexivity). split.
  - generalize 0%nat, 129%nat. intros k n. revert k. induction n as [|n IH]; intros k; cbn [seq map]; constructor; [done|].
    apply Forall_forall. intros x Hx. apply list_elem_of_In, in_map_iff in Hx as (i & <- & Hi).
    apply in_seq in Hi. lia.
  - change (NoDup ((fun i => Z.of_nat i - 64) <$> seq 0 129)). apply NoDup_fmap_2; [intros ? ? ?; lia|apply NoDup_seq].
Qed.

Lemma bucket_key_in ln v : bucket_key ln v ∈ all_keys.
Proof.
  unfold all_keys, bucket_key. rewrite !elem_of_app. pose proof (sketch_bucket_lt ln).
  destruct (f_zero <. v); [right; right|destruct (v <. f_zero); [left|right; left]].
  - apply list_elem_of_In, in_map_iff. eexists. split; [reflexivity|]. apply in_seq. split; [lia|by apply H].
  - rewrite list_elem_of_In, <- in_rev. apply in_map_iff. eexists. split; [reflexivity|]. apply in_seq. split; [lia|by apply H].
  - by apply list_elem_of_singleton.
Qed.

Lemma expand_perm keys : NoDup keys -> forall ks, Forall (fun k => k ∈ keys) ks ->
  expand (map (fun k => (cnt ks k, k)) keys) ≡ₚ ks.
Proof.
  induction 1 as [|k keys Hk Hnd IH]; intros ks Hks.
  - destruct ks as [|x ks]; [done|]. apply Forall_cons_1 in Hks as [Hx _]. by apply not_elem_of_nil in Hx.
  - cbn [map]. unfold expand. cbn [map concat fst snd].
    set (ks' := filter (fun x => x <> k) ks).
    assert (map (fun p => replicate (Z.to_nat p.1) p.2) (map (fun k => (cnt ks k, k)) keys) =
            map (fun p => replicate (Z.to_nat p.1) p.2) (map (fun k => (cnt ks' k, k)) keys)) as ->.
    { f_equal. apply map_ext_in. intros j Hj. apply list_elem_of_In in Hj. f_equal. unfold cnt, ks'.
      rewrite list_filter_filter. do 2 f_equal. apply list_filter_iff. intros x. split; [|tauto].
      intros ->. split; [done|]. intros ->. done. }
    fold (expand (map (fun k => (cnt ks' k, k)) keys)). rewrite IH.
    + etrans; [|apply (filter_app_complement (fun x => x = k) ks)]. apply Permutation_app; [|done].
      unfold cnt. rewrite Nat2Z.id. replace (replicate (length (filter (fun x => x = k) ks)) k) with (filter (fun x => x = k) ks); [done|].
      symmetry. apply replicate_as_elem_of. split; [done|]. intros x Hx. by apply list_elem_of_filter in Hx as [-> _].
    + apply Forall_forall. intros x [Hne Hx]%list_elem_of_filter. rewrite Forall_forall in Hks.
      apply Hks in Hx. apply elem_of_cons in Hx as [?|?]; done.
Qed.

Lemma expand_sorted_keys (f : Z -> Z) keys : StronglySorted Z.le keys ->
  StronglySorted Z.le (expand (map (fun k => (f k, k)) keys)).
Proof.
  unfold expand. induction 1 as [|k keys Hs IH Hk]; cbn [map concat fst snd]; [constructor|].
  assert (Forall (Z.le k) (concat (map (fun p => replicate (Z.to_nat p.1) p.2) (map (fun k => (f k, k)) keys)))) as Hall.
  { apply Forall_forall. intros x Hx. apply list_elem_of_In, in_concat in Hx as (l & Hl & Hx).
    apply in_map_iff in Hl as ([n j] & <- & Hj). apply in_map_iff in Hj as (j' & [= <- <-] & Hj).
    apply list_elem_of_In, elem_of_replicate in Hx as [-> _]. rewrite Forall_forall in Hk.
    apply Hk. by apply list_elem_of_In. }
  induction (Z.to_nat (f k)) as [|n IHn]; cbn [replicate app]; [done|]. constructor; [done|].
  apply Forall_app. split; [|done]. by apply Forall_replicate.
Qed.

Lemma expand_is_sort ks : Forall (fun k => k ∈ all_keys) ks ->
  expand (map (fun k => (cnt ks k, k)) all_keys) = sort_by Z.leb ks.
Proof.
  intros Hks. destruct all_keys_sorted as [Hs Hnd].
  apply (StronglySorted_unique Z.le).
  - by apply expand_sorted_keys.
  - eapply StronglySorted_impl; [|apply (sort_by_sorted Z.leb)]; cbn; intros; lia.
  - rewrite expand_perm by done. symmetry. apply sort_by_perm.
Qed.

(** ** The read as one walk *)

Lemma walk_app l k : forall cum target,
  walk (l ++ k) cum target = match walk l cum target with inl v => inl v | inr cum => walk k cum target end.
Proof. induction l as [|[n v] l IH]; intros cum target; cbn [walk app]; [done|]. by destruct (target <? cum + n). Qed.

Definition sketch_pairs (exp : f64 -> f64) (s : QuantileSketch) : list (Z * f64) :=
  rev (imap (fun i n => (n, fneg (sketch_value_at exp i))) (neg s)) ++ [(zero s, f_zero)]
  ++ imap (fun i n => (n, sketch_value_at exp i)) (pos s).

Lemma quantile_walk exp s q : quantile exp s q =
  if sketch_count s =? 0 then f_zero
  else match walk (sketch_pairs exp s) 0 (Z.min (f_as_u64 (q ⊗ f_of_Z (sketch_count s))) (sketch_count s - 1)) with
       | inl v => v
       | inr _ => sketch_value_at exp (SKETCH_N - 1)
       end.
Proof.
  unfold quantile, sketch_pairs. destruct (sketch_count s =? 0); [done|]. set (target := Z.min _ _). cbv zeta.
  rewrite walk_app. destruct (walk (rev _) 0 target) as [v|cum]; [done|]. cbn [app walk].
  by destruct (target <? cum + zero s).
Qed.

Lemma sum_Z_rev l : sum_Z (rev l) = sum_Z l.
Proof. apply sum_Z_perm. symmetry. apply Permutation_rev. Qed.

Lemma fst_imap {A} (f : nat -> A) (l : list Z) : (imap (fun i n => (n, f i)) l).*1 = l.
Proof.
  revert f. induction l as [|n l IH]; intros f; [done|]. rewrite imap_cons. cbn. f_equal. apply (IH (fun i => f (S i))).
Qed.

Lemma sketch_pairs_sum exp s : sum_Z (sketch_pairs exp s).*1 = sketch_count s.
Proof.
  unfold sketch_pairs, sketch_count. rewrite !fmap_app, !sum_Z_app, fst_imap.
  assert ((rev (imap (fun i n => (n, fneg (sketch_value_at exp i))) (neg s))).*1 = rev (neg s)) as ->.
  { rewrite <- (fst_imap (fun i => fneg (sketch_value_at exp i)) (neg s)) at 2. apply (map_rev fst). }
  rewrite sum_Z_rev. cbn. lia.
Qed.

Lemma imap_counts {A} (g : nat -> Z) (f : nat -> A) n :
  imap (fun i x => (x, f i)) (map g (seq 0 n)) = map (fun i => (g i, f i)) (seq 0 n).
Proof.
  apply list_eq. intros i. rewrite list_lookup_imap.
  change (map g (seq 0 n)) with (g <$> seq 0 n). change (map (fun i => (g i, f i)) (seq 0 n)) with ((fun i => (g i, f i)) <$> seq 0 n).
  rewrite !list_lookup_fmap. destruct (decide (i < n)%nat).
  - by rewrite lookup_seq_lt.
  - by rewrite lookup_seq_ge by lia.
Qed.

Lemma sketch_pairs_counts exp ks :
  sketch_pairs exp (mkSketch (negs ks) (poss ks) (cnt ks 0)) = map (fun k => (cnt ks k, bucket_value exp k)) all_keys.
Proof.
  unfold sketch_pairs, negs, poss, all_keys. cbn [neg pos zero]. rewrite !imap_counts, !map_app, map_rev, !map_map.
  apply (f_equal2 app); [apply (f_equal (@rev _)), map_ext; intros i|apply (f_equal2 app); [done|apply map_ext; intros i]];
    apply (f_equal (pair _)); unfold bucket_value.
  - destruct (0 <? - _) eqn:E; bool_to_prop; [lia|]. destruct (- _ <? 0) eqn:E'; bool_to_prop; [|lia]. do 2 f_equal. lia.
  - destruct (0 <? _ + 1) eqn:E; bool_to_prop; [|lia]. f_equal. lia.
Qed.

Lemma expand_map {A B} (f : A -> B) (l : list (Z * A)) :
  expand (map (fun p => (p.1, f p.2)) l) = map f (expand l).
Proof.
  unfold expand. induction l as [|[n x] l IH]; cbn; [done|]. rewrite map_app, IH. f_equal.
  change (map f) with (fmap (M := list) f). by rewrite fmap_replicate.
Qed.

(** The quantile the sketch reads is the value of the bucket of the element of the asked rank:
    with the recorded values put in bucket order, it is the bucket of the element at
    [min (q * n) (n - 1)], whatever order they were recorded in. *)
Theorem sketch_reads_the_ranked_bucket ln exp vs q :
  vs <> [] -> Z.of_nat (length vs) <= u32_max ->
  let n := Z.of_nat (length vs) in
  let target := Z.min (f_as_u64 (q ⊗ f_of_Z n)) (n - 1) in
  exists k, sort_by Z.leb (map (bucket_key ln) vs) !! Z.to_nat target = Some k /\
    quantile exp (foldl (sketch_record ln) empty_sketch vs) q = bucket_value exp k.
Proof.
  intros Hne Hlen. cbv zeta. rewrite sketch_counts by done. set (ks := map (bucket_key ln) vs).
  assert (Forall (fun k => k ∈ all_keys) ks) as Hks.
  { apply Forall_forall. intros k Hk. apply list_elem_of_In, in_map_iff in Hk as (v & <- & _). apply bucket_key_in. }
  assert (forall l, Forall (fun p : Z * f64 => 0 <= p.1) (map (fun k => (cnt ks k, bucket_value exp k)) l)) as Hpos.
  { intros l. apply Forall_forall. intros p Hp. apply list_elem_of_In, in_map_iff in Hp as (k & <- & _). apply cnt_le. }
  assert (expand (map (fun k => (cnt ks k, bucket_value exp k)) all_keys) = map (bucket_value exp) (sort_by Z.leb ks)) as Hexp.
  { rewrite <- expand_is_sort by done. rewrite <- expand_map, map_map. done. }
  assert (length (sort_by Z.leb ks) = length vs) as Hl.
  { rewrite (Permutation_length (sort_by_perm Z.leb ks)). apply length_map. }
  rewrite quantile_walk. set (s := mkSketch _ _ _).
  assert (sketch_count s = Z.of_nat (length vs)) as ->.
  { rewrite <- (sketch_pairs_sum exp). unfold s. rewrite sketch_pairs_counts, <- length_expand by apply Hpos.
    by rewrite Hexp, length_map, Hl. }
  assert (0 < length vs)%nat by (destruct vs; [done|cbn; lia]).
  destruct (Z.of_nat (length vs) =? 0) eqn:E; bool_to_prop; [lia|].
  set (target := Z.min (f_as_u64 _) _).
  assert (0 <= target < Z.of_nat (length vs)) as Ht.
  { unfold target. assert (0 <= f_as_u64 (q ⊗ f_of_Z (Z.of_nat (length vs)))); [|lia].
    unfold f_as_u64, f_as_int. assert (0 <= u64_max) by (vm_compute; congruence). destruct (_ ⊗ _) as [|[]| |]; lia. }
  unfold s. rewrite sketch_pairs_counts, walk_expand by (apply Hpos || lia). rewrite Hexp, Z.sub_0_r.
  destruct (lookup_lt_is_Some_2 (sort_by Z.leb ks) (Z.to_nat target)) as [k Hk]; [lia|]. exists k. split; [done|].
  change (map (bucket_value exp)) with (fmap (M := list) (bucket_value exp)). by rewrite list_lookup_fmap, Hk.
Qed.

(** With an identity for the logarithm, magnitudes are their own bucket scale. *)
Lemma sketch_reads_the_ranked_bucket_witness :
  let vs := [f_of_Z 5; f_of_Z (-3); f_of_Z 1; f_zero; f_of_Z 9] in
  exists k, sort_by Z.leb (map (bucket_key (fun x => x)) vs) !! 2%nat = Some k /\
    quantile (fun x => x) (foldl (sketch_record (fun x => x)) empty_sketch vs) (f_dec 5 1) = bucket_value (fun x => x) k.
Proof.
  cbv zeta. refine (sketch_reads_the_ranked_bucket (fun x => x) (fun x => x)
    [f_of_Z 5; f_of_Z (-3); f_of_Z 1; f_zero; f_of_Z 9] (f_dec 5 1) _ _); [discriminate|vm_compute; discriminate].
Defined.
