(* ===== verification/Episodes.v ===== *)
(** * Episodes: the round trips of one wallet on one coin

    [hunter/core/src/strategies/wallet_ledger.rs].  The open episode and the finished ones
    are the loop's state; token and lamport totals are integers (EpisodeProps bounds them
    by what moved, which keeps them inside an [i64]). *)

From S2P Require Export Kernel KernelProps.

Definition DUST_DIVISOR : Z := 1000.

Record WalletTx := mkTx {
  slot : Z;
  tx_index : Z;
  time_ms : Z;
  token_delta : Z;
  flow_lamports : option Z
}.

Inductive EpisodeStatus := EClosed | EOpen | EIncomplete.

#[export] Instance EpisodeStatus_eq_dec : EqDecision EpisodeStatus.
Proof. solve_decision. Defined.

Record WalletEpisode := mkEpisode {
  status : EpisodeStatus;
  w_missing_flow : bool;
  w_unseen_buy : bool;
  entry_slot : Z;
  entry_tx_index : Z;
  entry_ms : Z;
  exit_slot : option Z;
  exit_tx_index : option Z;
  exit_ms : option Z;
  w_buy_count : Z;
  w_sell_count : Z;
  bought_tokens : Z;
  sold_tokens : Z;
  held_tokens : Z;
  sol_in : option f64;
  sol_out : option f64;
  net_sol : option f64;
  pnl_pct : option f64;
  mark_sol : option f64;
  open_pnl_sol : option f64
}.

Record Pos := mkPos { p_slot : Z; p_tx_index : Z; p_time_ms : Z }.

Definition pos_of (tx : WalletTx) : Pos := mkPos (slot tx) (tx_index tx) (time_ms tx).

Record Acc := mkAcc {
  carried_in : Z;
  entry : Pos;
  exit_at : option Pos;
  buy_count : Z;
  sell_count : Z;
  bought : Z;
  sold : Z;
  held : Z;
  in_lamports : Z;
  out_lamports : Z;
  missing_flow : bool;
  unseen_buy : bool
}.

Definition open_acc (tx : WalletTx) (carried_in : Z) : Acc :=
  mkAcc carried_in (pos_of tx) None 0 0 0 0 carried_in 0 0 false false.

Definition add (a : Acc) (tx : WalletTx) : Acc :=
  let buying := 0 <? token_delta tx in
  mkAcc (carried_in a) (entry a) (exit_at a)
    (if buying then buy_count a + 1 else buy_count a)
    (if buying then sell_count a else sell_count a + 1)
    (if buying then bought a + token_delta tx else bought a)
    (if buying then sold a else sold a - token_delta tx)
    (held a)
    (match flow_lamports tx with Some f => if buying then in_lamports a - f else in_lamports a | None => in_lamports a end)
    (match flow_lamports tx with Some f => if buying then out_lamports a else out_lamports a + f | None => out_lamports a end)
    (match flow_lamports tx with Some _ => missing_flow a | None => true end)
    (unseen_buy a).

Definition with_exit (a : Acc) (p : Pos) : Acc :=
  mkAcc (carried_in a) (entry a) (Some p) (buy_count a) (sell_count a) (bought a) (sold a) (held a)
    (in_lamports a) (out_lamports a) (missing_flow a) (unseen_buy a).

Definition with_held (a : Acc) (h : Z) : Acc :=
  mkAcc (carried_in a) (entry a) (exit_at a) (buy_count a) (sell_count a) (bought a) (sold a) h
    (in_lamports a) (out_lamports a) (missing_flow a) (unseen_buy a).

Definition with_unseen (a : Acc) : Acc :=
  mkAcc (carried_in a) (entry a) (exit_at a) (buy_count a) (sell_count a) (bought a) (sold a) (held a)
    (in_lamports a) (out_lamports a) (missing_flow a) true.

(** The state of the loop of [wallet_episodes]: the finished episodes, the open one, the
    tokens held. *)
Record Fold := mkFold { done_ : list Acc; cur : option Acc; held_now : Z }.

(** The last finished episode a sell with no open one belongs to. *)
Definition joins_last (l : Acc) (tx : WalletTx) (held : Z) : bool := unseen_buy l || (- token_delta tx <=? held).

Definition fold_tx (f : Fold) (tx : WalletTx) : Fold :=
  let late :=
    if is_noneb (cur f) && (token_delta tx <=? 0) then
      match last (done_ f) with
      | Some l => if joins_last l tx (held_now f) then Some l else None
      | None => None
      end
    else None in
  match late with
  | Some l =>
      let l := add l tx in
      let l := if unseen_buy l then with_exit l (pos_of tx) else l in
      let held := Z.max 0 (held_now f + token_delta tx) in
      mkFold (removelast (done_ f) ++ [with_held l held]) (cur f) held
  | None =>
      let ep := match cur f with Some ep => ep | None => open_acc tx (held_now f) end in
      let ep := add ep tx in
      let h := held_now f + token_delta tx in
      let ep := if h <? 0 then with_unseen ep else ep in
      let held := if h <? 0 then 0 else h in
      let ep := with_held ep held in
      if (token_delta tx <=? 0) && (held <=? carried_in ep + Z.quot (bought ep) DUST_DIVISOR)
      then mkFold (done_ f ++ [with_exit ep (pos_of tx)]) None held
      else mkFold (done_ f) (Some ep) held
  end.

Definition fold_txs (txs : list WalletTx) : Fold := foldl fold_tx (mkFold [] None 0) txs.

(** [done.extend(cur)]. *)
Definition episodes_of (f : Fold) : list Acc := done_ f ++ option_list (cur f).

Record MarkQuote := mkQuote { q_price : f64; q_reserve_sol : option f64; q_venue_fee_bps : option f64 }.

Definition open_mark_sol (tuning : FeeTuning) (held : Z) (mark : MarkQuote) (exact : bool) : f64 :=
  let value := f_of_Z held ⊗ q_price mark in
  if negb exact then value
  else
    let costs := at_venue_fee (venue_only tuning) (q_venue_fee_bps mark) in
    sell_value_proceeds value (q_reserve_sol mark) costs false.

Definition finish (tuning : FeeTuning) (a : Acc) (mark : option MarkQuote) : WalletEpisode :=
  let status :=
    match exit_at a with
    | None => EOpen
    | Some _ => if missing_flow a || unseen_buy a then EIncomplete else EClosed
    end in
  let exact l := if missing_flow a then None else Some (lamports_to_sol l) in
  let sol_in := exact (in_lamports a) in
  let sol_out := exact (out_lamports a) in
  let moved := exact (out_lamports a - in_lamports a) in
  let closed := bool_decide (status = EClosed) in
  let net_sol := if closed then moved else None in
  let pnl_pct :=
    match net_sol, sol_in with
    | Some net, Some cost => if f_zero <. cost then Some (weighted_return_pct net cost) else None
    | _, _ => None
    end in
  let is_open := bool_decide (status = EOpen) in
  let mark_sol := if is_open then (fun q => open_mark_sol tuning (held a) q (negb (missing_flow a))) <$> mark else None in
  let open_pnl_sol := match moved, mark_sol with Some m, Some k => Some (m ⊕ k) | _, _ => None end in
  mkEpisode status (missing_flow a) (unseen_buy a) (p_slot (entry a)) (p_tx_index (entry a)) (p_time_ms (entry a))
    (p_slot <$> exit_at a) (p_tx_index <$> exit_at a) (p_time_ms <$> exit_at a) (buy_count a) (sell_count a)
    (bought a) (sold a) (held a) sol_in sol_out net_sol pnl_pct mark_sol open_pnl_sol.

Definition wallet_episodes (tuning : FeeTuning) (txs : list WalletTx) (mark : option MarkQuote) : list WalletEpisode :=
  map (fun a => finish tuning a mark) (episodes_of (fold_txs txs)).

(** ** The episode ledger keeps the books

    Every transaction is booked in exactly one episode, token and lamport totals are those
    of the transactions, and an episode that counts as closed balances to the dust it
    left. *)

(** ** Totals over the episodes *)

Lemma sum_Z_one x : sum_Z [x] = x.
Proof. unfold sum_Z. cbn. lia. Qed.

Definition total (g : Acc -> Z) (f : Fold) : Z := sum_Z (map g (episodes_of f)).

(** A quantity of an episode to which a transaction adds [d], and nothing else does. *)
Record Booked (g : Acc -> Z) (d : WalletTx -> Z) : Prop := {
  bk_open : forall tx c, g (open_acc tx c) = 0;
  bk_add : forall a tx, g (add a tx) = g a + d tx;
  bk_exit : forall a p, g (with_exit a p) = g a;
  bk_held : forall a h, g (with_held a h) = g a;
  bk_unseen : forall a, g (with_unseen a) = g a
}.

Lemma total_eq g f : total g f = sum_Z (map g (done_ f)) + match cur f with Some a => g a | None => 0 end.
Proof.
  unfold total, episodes_of. rewrite map_app, sum_Z_app. by destruct (cur f); cbn; rewrite ?Z.add_0_r.
Qed.

(** The two branches of a transaction. *)
Definition late_of (f : Fold) (tx : WalletTx) : option Acc :=
  if is_noneb (cur f) && (token_delta tx <=? 0) then
    match last (done_ f) with
    | Some l => if joins_last l tx (held_now f) then Some l else None
    | None => None
    end
  else None.

Lemma late_of_Some f tx l : late_of f tx = Some l ->
  cur f = None /\ token_delta tx <= 0 /\ joins_last l tx (held_now f) = true /\ exists d, done_ f = d ++ [l].
Proof.
  unfold late_of. destruct (cur f); [done|]. cbn [is_noneb is_someb negb andb].
  destruct (token_delta tx <=? 0) eqn:E; [|done]. bool_to_prop. destruct (last (done_ f)) as [l'|] eqn:El; [|done].
  destruct (joins_last l' tx (held_now f)) eqn:Ej; [|done]. intros [= ->].
  apply last_Some in El. eauto.
Qed.

Lemma booked_step g d f tx : Booked g d -> total g (fold_tx f tx) = total g f + d tx.
Proof.
  intros H. unfold fold_tx. fold (late_of f tx). destruct (late_of f tx) as [l|] eqn:El.
  - apply late_of_Some in El as (Hc & _ & _ & d' & Hd). rewrite !total_eq. cbn [done_ cur]. rewrite Hc, Hd.
    rewrite removelast_last, !map_app, !sum_Z_app. cbn [map]. rewrite !sum_Z_one, (bk_held g d H).
    destruct (unseen_buy (add l tx)); rewrite ?(bk_exit g d H), (bk_add g d H); lia.
  - set (ep := match cur f with Some ep => ep | None => _ end). set (h := held_now f + token_delta tx).
    set (ep' := with_held _ _).
    assert (g ep' = g ep + d tx) as Hg.
    { unfold ep'. rewrite (bk_held g d H). destruct (h <? 0); rewrite ?(bk_unseen g d H); apply (bk_add g d H). }
    assert (match cur f with Some a => g a | None => 0 end = g ep) as Hcur.
    { unfold ep. destruct (cur f); [done|]. by rewrite (bk_open g d H). }
    rewrite (total_eq g f), Hcur. destruct (_ && _).
    + rewrite total_eq. cbn [done_ cur]. rewrite map_app, sum_Z_app. cbn [map]. rewrite sum_Z_one, (bk_exit g d H), Hg. lia.
    + rewrite total_eq. cbn [done_ cur]. rewrite Hg. lia.
Qed.

Lemma booked_total g d txs : Booked g d -> total g (fold_txs txs) = sum_Z (map d txs).
Proof.
  intros H. unfold fold_txs. induction txs as [|tx txs IH] using rev_ind; [done|].
  rewrite foldl_app, map_app, sum_Z_app. cbn [foldl]. rewrite (booked_step g d) by done. rewrite IH. cbn [map]. by rewrite sum_Z_one.
Qed.

(** What one transaction adds to each book. *)
Definition bought_by (tx : WalletTx) : Z := Z.max 0 (token_delta tx).
Definition sold_by (tx : WalletTx) : Z := Z.max 0 (- token_delta tx).
Definition flow (tx : WalletTx) : Z := default 0 (flow_lamports tx).
Definition is_buy (tx : WalletTx) : bool := 0 <? token_delta tx.

Ltac booked :=
  split; [done|intros a tx; unfold add, bought_by, sold_by, flow, is_buy;
    cbn [buy_count sell_count bought sold in_lamports out_lamports];
    destruct (0 <? token_delta tx) eqn:?, (flow_lamports tx); bool_to_prop; cbn [default from_option id]; lia|done..].

Lemma booked_counts : Booked (fun a => buy_count a + sell_count a) (fun _ => 1).
Proof. booked. Qed.
Lemma booked_buys : Booked buy_count (fun tx => if is_buy tx then 1 else 0).
Proof. booked. Qed.
Lemma booked_bought : Booked bought bought_by.
Proof. booked. Qed.
Lemma booked_sold : Booked sold sold_by.
Proof. booked. Qed.
Lemma booked_in : Booked in_lamports (fun tx => if is_buy tx then - flow tx else 0).
Proof. booked. Qed.
Lemma booked_net : Booked (fun a => out_lamports a - in_lamports a) flow.
Proof. booked. Qed.

Lemma sum_const_1 (txs : list WalletTx) : sum_Z (map (fun _ => 1) txs) = Z.of_nat (length txs).
Proof. unfold sum_Z. induction txs as [|tx txs IH]; cbn in *; lia. Qed.

(** ** The books of one episode *)

(** Nothing sold beyond what was held: the token book balances. *)
Definition balanced (a : Acc) : Prop :=
  0 <= carried_in a /\ 0 <= held a /\ 0 <= bought a /\ 0 <= sold a /\ 0 <= buy_count a /\ 0 <= sell_count a /\
  (unseen_buy a = false -> held a = carried_in a + bought a - sold a).

Definition at_dust (a : Acc) : Prop := held a <= carried_in a + bought a / DUST_DIVISOR.

Record FoldInv (f : Fold) : Prop := {
  fi_held : 0 <= held_now f;
  fi_done : Forall (fun a => balanced a /\ at_dust a /\ exit_at a <> None) (done_ f);
  fi_cur : forall a, cur f = Some a -> balanced a /\ exit_at a = None /\ held a = held_now f;
  fi_last : forall a, cur f = None -> last (done_ f) = Some a -> held a = held_now f
}.

Lemma quot_dust b : 0 <= b -> Z.quot b DUST_DIVISOR = b / DUST_DIVISOR.
Proof. intros. by apply Z.quot_div_nonneg. Qed.

Lemma add_balanced a tx h : balanced a -> h = held a + token_delta tx -> 0 <= h -> balanced (with_held (add a tx) h).
Proof.
  unfold balanced, add, with_held. cbn [carried_in held bought sold buy_count sell_count unseen_buy].
  intros (? & ? & ? & ? & ? & ? & Hb) -> Hh. destruct (0 <? token_delta tx) eqn:E; bool_to_prop; repeat split; try lia;
    intros Hu; specialize (Hb Hu); lia.
Qed.

Lemma add_unseen_balanced a tx : balanced a -> balanced (with_held (with_unseen (add a tx)) 0).
Proof.
  unfold balanced, add, with_held, with_unseen. cbn [carried_in held bought sold buy_count sell_count unseen_buy].
  intros (? & ? & ? & ? & ? & ? & Hb). destruct (0 <? token_delta tx) eqn:E; bool_to_prop; repeat split; try lia; done.
Qed.

Lemma inv_late f tx l : FoldInv f -> late_of f tx = Some l -> FoldInv (fold_tx f tx).
Proof.
  intros HI El. unfold fold_tx. fold (late_of f tx). rewrite El.
  apply late_of_Some in El as (Hc & Hd & Hj & d & Hdone). pose proof (fi_held f HI) as Hh.
  pose proof (fi_last f HI l Hc) as Hl. rewrite Hdone, last_snoc in Hl. specialize (Hl eq_refl).
  pose proof (fi_done f HI) as Hall. rewrite Hdone in Hall. apply Forall_app in Hall as [Hall Hlast].
  apply Forall_cons_1 in Hlast as [(Hb & Hdust & Hex) _]. rewrite Hdone, removelast_last, Hc.
  set (h := Z.max 0 (held_now f + token_delta tx)).
  set (l' := if unseen_buy (add l tx) then with_exit (add l tx) (pos_of tx) else add l tx).
  assert (balanced (with_held l' h) /\ at_dust (with_held l' h) /\ exit_at (with_held l' h) <> None) as Hl'.
  { assert (at_dust (with_held (add l tx) h)) as Hdust'.
    { unfold at_dust, add, with_held in *. cbn [carried_in held bought] in *.
      destruct (0 <? token_delta tx) eqn:E; bool_to_prop; [lia|]. unfold h. lia. }
    unfold l'. cbn [unseen_buy add]. destruct (unseen_buy l) eqn:Eu.
    - split; [|split; [exact Hdust'|done]]. destruct Hb as (? & ? & ? & ? & ? & ? & _).
      unfold balanced, with_held, with_exit, add. cbn [carried_in held bought sold buy_count sell_count unseen_buy].
      rewrite Eu. destruct (0 <? token_delta tx) eqn:E; bool_to_prop; repeat split; try lia; done.
    - unfold joins_last in Hj. rewrite Eu in Hj. cbn in Hj. bool_to_prop. split; [|split; [exact Hdust'|done]].
      apply add_balanced; [done|unfold h; lia|lia]. }
  split; cbn [held_now done_ cur]; [unfold h; lia|by apply Forall_app_2; [|constructor]|done|].
  intros a _. rewrite last_snoc. by intros [= <-].
Qed.

Lemma inv_book f tx : FoldInv f -> late_of f tx = None -> FoldInv (fold_tx f tx).
Proof.
  intros HI El. unfold fold_tx. fold (late_of f tx). rewrite El. pose proof (fi_held f HI) as Hh.
  set (ep := match cur f with Some ep => ep | None => open_acc tx (held_now f) end).
  assert (balanced ep /\ exit_at ep = None /\ held ep = held_now f) as (Hb & Hex & Hheld).
  { unfold ep. destruct (cur f) as [a|] eqn:Ec; [by apply (fi_cur f HI)|].
    unfold balanced, open_acc. cbn. repeat split; lia. }
  set (h := held_now f + token_delta tx). set (held' := if h <? 0 then 0 else h).
  set (ep' := with_held (if h <? 0 then with_unseen (add ep tx) else add ep tx) held').
  assert (balanced ep' /\ exit_at ep' = None /\ held ep' = held' /\ 0 <= held') as (Hb' & Hex' & Hh' & Hnn).
  { unfold ep', held'. destruct (h <? 0) eqn:E; bool_to_prop.
    - split; [by apply add_unseen_balanced|]. done.
    - split; [apply add_balanced; [done|unfold h; lia|done]|]. done. }
  destruct ((token_delta tx <=? 0) && _) eqn:Ec; split; cbn [held_now done_ cur]; try done.
  - apply Forall_app_2; [apply HI|]. constructor; [|done]. bool_to_prop. split; [exact Hb'|]. split; [|done].
    unfold at_dust, with_exit. cbn [held carried_in bought]. rewrite Hh'. destruct Hb' as (_ & _ & ? & _).
    rewrite <- quot_dust by done. lia.
  - intros a _. rewrite last_snoc. by intros [= <-].
  - apply HI.
  - by intros a [= <-].
Qed.

Lemma fold_inv txs : FoldInv (fold_txs txs).
Proof.
  unfold fold_txs. induction txs as [|tx txs IH] using rev_ind; [by split|]. rewrite foldl_app. cbn [foldl].
  destruct (late_of (foldl fold_tx (mkFold [] None 0) txs) tx) as [l|] eqn:E; [by eapply inv_late|by apply inv_book].
Qed.

(** Whatever a wallet did on a coin, each of its transactions is booked in exactly one episode,
    the tokens bought and sold over the episodes are those of the transactions, and what the
    episodes returned less what they took is the wallet's net flow. *)
Theorem every_transaction_is_booked_once txs :
  let eps := episodes_of (fold_txs txs) in
  sum_Z (map (fun a => buy_count a + sell_count a) eps) = Z.of_nat (length txs) /\
  sum_Z (map buy_count eps) = sum_Z (map (fun tx => if is_buy tx then 1 else 0) txs) /\
  sum_Z (map bought eps) = sum_Z (map bought_by txs) /\
  sum_Z (map sold eps) = sum_Z (map sold_by txs) /\
  sum_Z (map in_lamports eps) = sum_Z (map (fun tx => if is_buy tx then - flow tx else 0) txs) /\
  sum_Z (map (fun a => out_lamports a - in_lamports a) eps) = sum_Z (map flow txs).
Proof.
  cbv zeta. split_and!.
  - rewrite <- sum_const_1. apply (booked_total _ _ txs booked_counts).
  - apply (booked_total _ _ txs booked_buys).
  - apply (booked_total _ _ txs booked_bought).
  - apply (booked_total _ _ txs booked_sold).
  - apply (booked_total _ _ txs booked_in).
  - apply (booked_total _ _ txs booked_net).
Qed.

(** The episodes of a ledger: the finished ones closed by a sell, then at most one open. *)
Lemma episodes_shape txs : exists d o,
  episodes_of (fold_txs txs) = d ++ option_list o /\
  Forall (fun a => balanced a /\ at_dust a /\ exit_at a <> None) d /\
  (forall a, o = Some a -> balanced a /\ exit_at a = None).
Proof.
  pose proof (fold_inv txs) as HI. exists (done_ (fold_txs txs)), (cur (fold_txs txs)). split; [done|].
  split; [apply HI|]. intros a Ha. destruct (fi_cur _ HI a Ha) as (? & ? & _). done.
Qed.

Definition dust_left (e : WalletEpisode) (carried : Z) : Prop :=
  held_tokens e <= carried + bought_tokens e / DUST_DIVISOR.

(** An episode is open only if it is the last one; a closed episode has its exit, every flow
    exact, its bag balanced to the dust allowed above what it came in with, and reports both
    its SOL legs; an incomplete one reports no net. *)
Theorem closed_episodes_balance tuning txs mark i e :
  wallet_episodes tuning txs mark !! i = Some e ->
  match status e with
  | EClosed => exit_slot e <> None /\ w_missing_flow e = false /\ w_unseen_buy e = false /\
      (exists carried, 0 <= carried /\ held_tokens e = carried + bought_tokens e - sold_tokens e /\
         0 <= held_tokens e /\ dust_left e carried) /\
      (exists i o, sol_in e = Some (lamports_to_sol i) /\ sol_out e = Some (lamports_to_sol o) /\
         net_sol e = Some (lamports_to_sol (o - i)))
  | EOpen => S i = length (wallet_episodes tuning txs mark) /\ exit_slot e = None /\ net_sol e = None /\ pnl_pct e = None
  | EIncomplete => exit_slot e <> None /\ (w_missing_flow e = true \/ w_unseen_buy e = true) /\ net_sol e = None /\
      pnl_pct e = None /\ mark_sol e = None
  end.
Proof.
  destruct (episodes_shape txs) as (d & o & Hsh & Hd & Ho). unfold wallet_episodes. rewrite Hsh.
  change (map ?f ?l) with (f <$> l). rewrite length_fmap. intros (a & -> & Ha)%list_lookup_fmap_Some.
  assert (balanced a /\ (exit_at a = None -> S i = length (d ++ option_list o)) /\ (exit_at a <> None -> at_dust a)) as (Hb & Hopen & Hdust).
  { apply lookup_app_Some in Ha as [Ha|[Hi Ha]].
    - rewrite Forall_forall in Hd. apply list_elem_of_lookup_2, Hd in Ha as (? & ? & ?). done.
    - destruct o as [a'|]; [|done]. apply list_lookup_singleton_Some in Ha as [Hi' <-].
      destruct (Ho a' eq_refl) as [? Hex]. split; [done|]. split; [|by rewrite Hex]. intros _.
      rewrite length_app. cbn. lia. }
  destruct Hb as (Hc & Hh & _ & _ & _ & _ & Hbal). unfold finish. cbv zeta. cbn [status].
  destruct (exit_at a) as [p|]; cbn [fmap option_fmap option_map exit_slot w_missing_flow w_unseen_buy bought_tokens
    sold_tokens held_tokens sol_in sol_out net_sol pnl_pct mark_sol].
  - destruct (missing_flow a) eqn:Em, (unseen_buy a) eqn:Eu; cbn [orb]; (split; [done|]);
      try (repeat split; (done || (by left) || (by right))).
    split; [done|]. split; [done|]. split; [|by exists (in_lamports a), (out_lamports a)].
    exists (carried_in a). unfold dust_left. cbn [held_tokens bought_tokens].
    split; [done|]. split; [by apply Hbal|]. split; [done|]. by apply Hdust.
  - split; [by apply Hopen|done].
Qed.

Lemma closed_episodes_balance_witness :
  let txs := [mkTx 1 0 1000 1000 (Some (-1000000000)); mkTx 2 0 2000 (-1000) (Some 1250000000); mkTx 3 0 3000 5 None] in
  let tuning := mkTuning f_zero 0 in
  exists e, wallet_episodes tuning txs None !! 0%nat = Some e /\ status e = EClosed /\
    (exists i o, sol_in e = Some (lamports_to_sol i) /\ sol_out e = Some (lamports_to_sol o) /\
       net_sol e = Some (lamports_to_sol (o - i))).
Proof.
  cbv zeta. eexists. split; [vm_compute; reflexivity|]. split; [reflexivity|].
  exact (proj2 (proj2 (proj2 (proj2 (closed_episodes_balance (mkTuning f_zero 0)
    [mkTx 1 0 1000 1000 (Some (-1000000000)); mkTx 2 0 2000 (-1000) (Some 1250000000); mkTx 3 0 3000 5 None] None 0%nat _ eq_refl))))).
Defined.

(** ** Bounds *)

Lemma held_bound txs : held_now (fold_txs txs) <= sum_Z (map bought_by txs).
Proof.
  unfold fold_txs. induction txs as [|tx txs IH] using rev_ind; [done|].
  rewrite foldl_app, map_app, sum_Z_app. cbn [foldl map]. rewrite sum_Z_one. set (f := foldl fold_tx _ txs) in *.
  pose proof (fi_held f (fold_inv txs)) as Hh.
  assert (held_now (fold_tx f tx) <= held_now f + bought_by tx); [|lia].
  unfold fold_tx. fold (late_of f tx). unfold bought_by. destruct (late_of f tx); cbn [held_now].
  - lia.
  - destruct (_ && _); cbn [held_now]; destruct (held_now f + token_delta tx <? 0) eqn:E; bool_to_prop; lia.
Qed.

Lemma sum_nonneg {A} (g : A -> Z) l : Forall (fun a => 0 <= g a) l -> 0 <= sum_Z (map g l).
Proof. unfold sum_Z. induction 1; cbn in *; lia. Qed.

Lemma sum_bounds_each {A} (g : A -> Z) l top : Forall (fun a => 0 <= g a) l -> sum_Z (map g l) <= top ->
  Forall (fun a => 0 <= g a <= top) l.
Proof.
  induction 1 as [|a l Ha Hl IH]; intros Ht; constructor; pose proof (sum_nonneg g l Hl); unfold sum_Z in *; cbn in Ht; [lia|].
  apply IH. lia.
Qed.

(** No total leaves the range of what moved: with the transactions' purchases and sales within
    an [i64], every episode's bought and sold totals and the held amount are too. *)
Theorem episode_totals_fit txs top :
  sum_Z (map bought_by txs) <= top -> sum_Z (map sold_by txs) <= top ->
  0 <= held_now (fold_txs txs) <= top /\
  Forall (fun a => 0 <= bought a <= top /\ 0 <= sold a <= top) (episodes_of (fold_txs txs)).
Proof.
  intros Hb Hs. pose proof (fold_inv txs) as HI. split; [pose proof (held_bound txs); pose proof (fi_held _ HI); lia|].
  rewrite <- (booked_total _ _ txs booked_bought) in Hb. rewrite <- (booked_total _ _ txs booked_sold) in Hs.
  unfold total in Hb, Hs.
  assert (Forall balanced (episodes_of (fold_txs txs))) as Hbal.
  { destruct (episodes_shape txs) as (d & o & -> & Hd & Ho). apply Forall_app. split.
    - eapply Forall_impl; [exact Hd|]. by intros a (? & _).
    - destruct o as [a|]; constructor; [by apply Ho|done]. }
  revert Hbal Hb Hs. generalize (episodes_of (fold_txs txs)). intros eps Hbal Hb Hs.
  apply Forall_and. split; apply sum_bounds_each; try done; (eapply Forall_impl; [exact Hbal|]); intros a Ha;
    unfold balanced in Ha; lia.
Qed.

Lemma episode_totals_fit_witness :
  let txs := [mkTx 1 0 1000 1000 None; mkTx 2 0 2000 (-1500) None] in
  0 <= held_now (fold_txs txs) <= i64_max /\
  Forall (fun a => 0 <= bought a <= i64_max /\ 0 <= sold a <= i64_max) (episodes_of (fold_txs txs)).
Proof. cbv zeta. apply episode_totals_fit; vm_compute; congruence. Defined.
