(* ===== verification/Executor.v ===== *)
(** * Executor: the shared state of the send engine

    [shared/executor/core/src]: the durable-nonce pool and the index of sent nonce
    transactions ([nonce.rs], Module [Nonce]), the SOL exposure ledger ([engine.rs],
    Module [Exposure]), the recent-blockhash cache ([blockhash.rs], Module [Blockhash]) and
    the revert classification ([retry.rs], Module [Retry]).

    Every critical section is one atomic operation on the state; what happens between two
    of them (an await, a sleep, another task) is other operations interleaved.  Keys and
    hashes are integers; what the RPC node answers is an argument. *)

From S2P Require Export Float64.

Abbreviation Pubkey := Z (only parsing).
Abbreviation BlockHash := Z (only parsing).

(** ** The nonce pool *)

Module Nonce.
Record NonceSlot := mkSlot {
  cached_hash : option BlockHash;
  in_use : bool;
  use_epoch : Z;
  last_push_slot : Z
}.

#[export] Instance NonceSlot_eq_dec : EqDecision NonceSlot.
Proof. solve_decision. Defined.

Record Pool := mkPool {
  nonce_pubkeys : list Pubkey;
  nonce_cursor : Z;
  nonce_slots : gmap Pubkey NonceSlot;
  nonce_tx_index : gmap string (Pubkey * BlockHash);
  nonce_tx_order : list string
}.

Definition set_slot (p : Pool) (pk : Pubkey) (s : NonceSlot) : Pool :=
  mkPool (nonce_pubkeys p) (nonce_cursor p) (<[pk := s]> (nonce_slots p)) (nonce_tx_index p) (nonce_tx_order p).

(** [initialize]: the prefetched hash of each account. *)
Definition initial (fetched : list (Pubkey * BlockHash)) : Pool :=
  mkPool fetched.*1 0 (list_to_map (map (fun '(pk, h) => (pk, mkSlot (Some h) false 0 0)) fetched)) ∅ [].

Definition collect_nonce_pubkeys (configured : list Pubkey) : option (list Pubkey) :=
  match configured with
  | [] => None
  | _ => Some (foldl (fun acc pk => if contains acc pk then acc else acc ++ [pk]) [] configured)
  end.

(** A slot that can be handed out. *)
Definition ready (p : Pool) (pk : Pubkey) : option BlockHash :=
  match nonce_slots p !! pk with
  | Some s => if in_use s then None else cached_hash s
  | None => None
  end.

Definition take (s : NonceSlot) : NonceSlot :=
  mkSlot (cached_hash s) true (wrap_u 64 (use_epoch s + 1)) (last_push_slot s).

(** The [for offset] loop of one scan, [n] offsets from [offset]. *)
Fixpoint scan_from (p : Pool) (start offset n : nat) : option (Pubkey * BlockHash) :=
  match n with
  | O => None
  | S n =>
      match nonce_pubkeys p !! ((start + offset) mod length (nonce_pubkeys p))%nat with
      | Some pk => match ready p pk with Some h => Some (pk, h) | None => scan_from p start (S offset) n end
      | None => scan_from p start (S offset) n
      end
  end.

(** One scan of [acquire_nonce_bounded], under the lock. *)
Definition acquire_scan (p : Pool) : Pool * option (Pubkey * BlockHash) :=
  let len := length (nonce_pubkeys p) in
  let start := (Z.to_nat (nonce_cursor p mod Z.of_nat len))%nat in
  let p := mkPool (nonce_pubkeys p) (wrap_u 64 (nonce_cursor p + 1)) (nonce_slots p) (nonce_tx_index p) (nonce_tx_order p) in
  match scan_from p start 0 len with
  | Some (pk, h) =>
      match nonce_slots p !! pk with
      | Some s => (set_slot p pk (take s), Some (pk, h))
      | None => (p, None)
      end
  | None => (p, None)
  end.

(** The whole call: [waits] is what the other tasks do to the pool during each wait. *)
Fixpoint acquire_nonce_bounded (max_wait_iters : nat) (waits : nat -> Pool -> Pool) (waited : nat) (p : Pool) :
    Pool * option (Pubkey * BlockHash) :=
  match nonce_pubkeys p with
  | [] => (p, None)
  | _ =>
      match max_wait_iters with
      | O => (p, None)
      | S n =>
          match acquire_scan p with
          | (p, Some got) => (p, Some got)
          | (p, None) => acquire_nonce_bounded n waits (S waited) (waits waited p)
          end
      end
  end.

(** The refresh task [schedule_nonce_refresh] spawns, at its await points. *)
Inductive Task :=
  | Spawned (pk : Pubkey)
  | Polling (pk : Pubkey) (used_hash : option BlockHash) (epoch : Z) (todo : nat) (last_ok : option BlockHash)
  | Reading (pk : Pubkey) (used_hash : option BlockHash) (epoch : Z) (todo : nat) (last_ok : option BlockHash)
  | Finalizing (pk : Pubkey) (epoch : Z) (hash : option BlockHash)
  | Finished.

Definition poll_or_finalize (pk : Pubkey) (used_hash : option BlockHash) (epoch : Z) (todo : nat)
    (last_ok : option BlockHash) : Task :=
  match todo with O => Finalizing pk epoch last_ok | S todo => Polling pk used_hash epoch todo last_ok end.

Definition finalize_slot (s : NonceSlot) (hash : option BlockHash) : NonceSlot :=
  mkSlot hash false (use_epoch s) (last_push_slot s).

(** One atomic step of a task; [read] is what the account read answers ([None]: error). *)
Definition step_task (refresh_max_attempts : nat) (p : Pool) (t : Task) (read : option BlockHash) : Pool * Task :=
  match t with
  | Spawned pk =>
      match nonce_slots p !! pk with
      | Some s => (p, poll_or_finalize pk (cached_hash s) (use_epoch s) refresh_max_attempts None)
      | None => (p, Finished)
      end
  | Polling pk used_hash epoch todo last_ok =>
      match nonce_slots p !! pk with
      | Some s => if (use_epoch s =? epoch) && in_use s then (p, Reading pk used_hash epoch todo last_ok) else (p, Finished)
      | None => (p, Finished)
      end
  | Reading pk used_hash epoch todo last_ok =>
      match read with
      | Some hash =>
          if bool_decide (used_hash = Some hash)
          then (p, poll_or_finalize pk used_hash epoch todo (Some hash))
          else (p, Finalizing pk epoch (Some hash))
      | None => (p, poll_or_finalize pk used_hash epoch todo last_ok)
      end
  | Finalizing pk epoch hash =>
      match nonce_slots p !! pk with
      | Some s =>
          if negb (use_epoch s =? epoch) || negb (in_use s) then (p, Finished)
          else (set_slot p pk (finalize_slot s hash), Finished)
      | None => (p, Finished)
      end
  | Finished => (p, Finished)
  end.

Definition on_nonce_account_update (p : Pool) (pk : Pubkey) (decoded : option BlockHash) (slot : Z) : Pool :=
  if negb (contains (nonce_pubkeys p) pk) then p
  else
    match decoded with
    | None => p
    | Some hash =>
        match nonce_slots p !! pk with
        | None => p
        | Some s =>
            if slot <=? last_push_slot s then p
            else if bool_decide (cached_hash s = Some hash) then
              set_slot p pk (mkSlot (cached_hash s) (in_use s) (use_epoch s) slot)
            else set_slot p pk (mkSlot (Some hash) false (use_epoch s) slot)
        end
    end.

(** *** The index of sent nonce transactions *)

Definition NONCE_TX_INDEX_CAP : nat := 4096.

(** [while order.len() > CAP { pop_front }], [fuel] pops at most. *)
Fixpoint trim (fuel : nat) (index : gmap string (Pubkey * BlockHash)) (order : list string) :
    gmap string (Pubkey * BlockHash) * list string :=
  match fuel with
  | O => (index, order)
  | S fuel =>
      if (NONCE_TX_INDEX_CAP <? length order)%nat then
        match order with
        | old :: order => trim fuel (delete old index) order
        | [] => (index, order)
        end
      else (index, order)
  end.

Definition note_nonce_tx (p : Pool) (signature : string) (pk : Pubkey) (hash : BlockHash) : Pool :=
  let index := <[signature := (pk, hash)]> (nonce_tx_index p) in
  if is_someb (nonce_tx_index p !! signature) then
    mkPool (nonce_pubkeys p) (nonce_cursor p) (nonce_slots p) index (nonce_tx_order p)
  else
    let order := nonce_tx_order p ++ [signature] in
    let '(index, order) := trim (length order) index order in
    mkPool (nonce_pubkeys p) (nonce_cursor p) (nonce_slots p) index order.

Inductive NonceTxState := Unknown | Dead | Live.

#[export] Instance NonceTxState_eq_dec : EqDecision NonceTxState.
Proof. solve_decision. Defined.

(** [read] is the account's hash now, by account. *)
Definition nonce_tx_state (p : Pool) (signature : string) (read : Pubkey -> option BlockHash) : NonceTxState :=
  match nonce_tx_index p !! signature with
  | None => Unknown
  | Some (pk, used_hash) =>
      match read pk with
      | Some current => if current =? used_hash then Live else Dead
      | None => Unknown
      end
  end.

Definition invalidate_hash (p : Pool) (pk : Pubkey) : Pool :=
  match nonce_slots p !! pk with
  | Some s => set_slot p pk (mkSlot None (in_use s) (use_epoch s) (last_push_slot s))
  | None => p
  end.

(** [burn_nonce_tx]: [sent] tells whether the advance was built and sent; [before] and
    [after] are the account reads around it. *)
Definition burn_nonce_tx (p : Pool) (signature : string) (before after : Pubkey -> option BlockHash) (sent : bool) :
    Pool * NonceTxState :=
  match nonce_tx_state p signature before with
  | Dead => (p, Dead)
  | Unknown => (p, Unknown)
  | Live =>
      match nonce_tx_index p !! signature with
      | None => (p, Unknown)
      | Some (pk, _) =>
          if negb sent then (p, Unknown)
          else
            let p := invalidate_hash p pk in
            (p, nonce_tx_state p signature after)
      end
  end.

(** *** Interleaved tasks

    What a step did: a scan's answer, a push of an account, the scheduling of a refresh
    by the use of an epoch (the use is for the statements only), anything else. *)
Inductive Event :=
  | Got (got : option (Pubkey * BlockHash))
  | Pushed (pk : Pubkey)
  | Scheduled (pk : Pubkey) (use : Z)
  | Other.

Record World := mkWorld { pool : Pool; tasks : list Task }.

Inductive step (max_attempts : nat) : World -> Event -> World -> Prop :=
  | Acquire w p got :
      acquire_scan (pool w) = (p, got) -> step max_attempts w (Got got) (mkWorld p (tasks w))
  | Schedule w pk use : step max_attempts w (Scheduled pk use) (mkWorld (pool w) (tasks w ++ [Spawned pk]))
  | Run w k t read p t' :
      tasks w !! k = Some t -> step_task max_attempts (pool w) t read = (p, t') ->
      step max_attempts w Other (mkWorld p (<[k := t']> (tasks w)))
  | Push w pk decoded slot :
      step max_attempts w (Pushed pk) (mkWorld (on_nonce_account_update (pool w) pk decoded slot) (tasks w))
  | Note w signature pk hash : step max_attempts w Other (mkWorld (note_nonce_tx (pool w) signature pk hash) (tasks w))
  | Burn w signature before after sent :
      step max_attempts w Other (mkWorld (burn_nonce_tx (pool w) signature before after sent).1 (tasks w)).

Inductive run (max_attempts : nat) : World -> list Event -> World -> Prop :=
  | run_nil w : run max_attempts w [] w
  | run_cons w ev w' evs w'' :
      step max_attempts w ev w' -> run max_attempts w' evs w'' -> run max_attempts w (ev :: evs) w''.
End Nonce.

(** ** The recent-blockhash cache *)

Module Blockhash.
Record t := mk { inner : option (BlockHash * Ts); pushed_slot : Z }.

Definition store (c : t) (hash : BlockHash) (now : Ts) : t := mk (Some (hash, now)) (pushed_slot c).

Definition store_pushed (c : t) (hash : BlockHash) (slot : Z) (now : Ts) : t :=
  let prev := pushed_slot c in
  let c := mk (inner c) (Z.max prev slot) in
  if prev <? slot then store c hash now else c.

Definition get_fresh (c : t) (max_age : Duration) (now : Ts) : option BlockHash :=
  match inner c with
  | Some (hash, at_) => if now - at_ <=? max_age then Some hash else None
  | None => None
  end.
End Blockhash.

(** ** The SOL exposure ledger *)

Module Exposure.
Definition RESERVE_FLOOR_LAMPORTS : Z := 20000000.
Definition POLL_COVER_LAG : Duration := dur_seconds 5.

Record BalanceReading := mkReading { b_lamports : Z; b_at : Ts; b_slot : option Z }.
Record Settled := mkSettled { s_slot : option Z; s_at : Ts }.
Record SolReservation := mkReservation { r_lamports : Z; settled : option Settled }.

Definition holds (r : SolReservation) (balance : option BalanceReading) : bool :=
  match settled r with
  | None => true
  | Some settled =>
      match balance with
      | None => true
      | Some reading =>
          match s_slot settled, b_slot reading with
          | Some landed, Some read => read <? landed
          | _, _ => b_at reading <? s_at settled + POLL_COVER_LAG
          end
      end
  end.

Record Ledger := mkLedger {
  commitments : gmap string SolReservation;
  balance_push_slot : Z;
  balance_cache : option BalanceReading
}.

Definition empty : Ledger := mkLedger ∅ 0 None.

Definition with_commitments (l : Ledger) (c : gmap string SolReservation) : Ledger :=
  mkLedger c (balance_push_slot l) (balance_cache l).

(** [committed_lamports]: the sum of the earmarks kept, and the map without the others. *)
Definition held_by (l : Ledger) : gmap string SolReservation :=
  filter (fun kv => holds kv.2 (balance_cache l) = true) (commitments l).

Definition committed_lamports (l : Ledger) : Ledger * Z :=
  (with_commitments l (held_by l),
   map_fold (fun _ r held => sat_add u64_max held (r_lamports r)) 0 (held_by l)).

Definition free_lamports (l : Ledger) : Ledger * option Z :=
  match balance_cache l with
  | None => (l, None)
  | Some reading =>
      let '(l, committed) := committed_lamports l in
      (l, Some (sat_sub (sat_sub (b_lamports reading) RESERVE_FLOOR_LAMPORTS) committed))
  end.

Definition commit_sol_for_position (l : Ledger) (id : string) (buy_lamports : Z) : Ledger :=
  match commitments l !! id with
  | Some _ => l
  | None => with_commitments l (<[id := mkReservation buy_lamports None]> (commitments l))
  end.

Definition restore_reservation (l : Ledger) (id : string) (r : SolReservation) : Ledger :=
  match commitments l !! id with
  | Some _ => l
  | None => with_commitments l (<[id := r]> (commitments l))
  end.

Definition try_reserve_buy (l : Ledger) (id : string) (buy_lamports : Z) : Ledger * bool :=
  match commitments l !! id with
  | Some _ => (l, true)
  | None =>
      let '(l, free) := free_lamports l in
      if is_some_and free (fun free => free <? buy_lamports) then (l, false)
      else (with_commitments l (<[id := mkReservation buy_lamports None]> (commitments l)), true)
  end.

Definition settle_reservation (l : Ledger) (id : string) (slot : option Z) (now : Ts) : Ledger :=
  match commitments l !! id with
  | Some r =>
      match settled r with
      | None => with_commitments l (<[id := mkReservation (r_lamports r) (Some (mkSettled slot now))]> (commitments l))
      | Some _ => l
      end
  | None => l
  end.

Definition release_sol_for_position (l : Ledger) (id : string) : Ledger :=
  with_commitments l (delete id (commitments l)).

Definition can_commit_buy (l : Ledger) (buy_lamports : Z) : Ledger * bool :=
  let '(l, free) := free_lamports l in (l, is_none_or free (fun free => buy_lamports <=? free)).

Definition update_balance_lamports_cache (l : Ledger) (lamports : Z) (now : Ts) : Ledger :=
  mkLedger (commitments l) (balance_push_slot l) (Some (mkReading lamports now None)).

Definition update_balance_lamports_at_slot (l : Ledger) (lamports slot : Z) (now : Ts) : Ledger :=
  let prev := balance_push_slot l in
  if slot <? prev then l
  else mkLedger (commitments l) (Z.max prev slot) (Some (mkReading lamports now (Some slot))).

Definition LAMPORTS_PER_SOL : Z := 1000000000.

Definition sol_to_lamports (sol : f64) : Z :=
  if negb (is_finite sol) || (sol <=. f_zero) then 0 else f_as_u64 (fround (sol ⊗ f_of_Z LAMPORTS_PER_SOL)).

Definition buy_lamports_checked (sol_amount max_buy_sol : f64) : option Z :=
  if negb (is_finite sol_amount) || (sol_amount <=. f_zero) then None
  else if max_buy_sol <. sol_amount then None
  else
    let lamports := sol_to_lamports sol_amount in
    if lamports =? 0 then None else Some lamports.
End Exposure.

(** ** Revert classification *)

Module Retry.
Inductive SwapRoute := Curve | Amm.
Inductive SwapDirection := Buy | Sell.
Inductive SwapRetryDecision := RetrySwap | StopFeeBurn | RefreshCreator | RefreshCoinCreator | RefreshCashback | RerouteMigrated.

Definition CURVE_TOO_LITTLE_SOL_RECEIVED : Z := 6003.
Definition CURVE_TOO_MUCH_SOL_REQUIRED : Z := 6002.
Definition CURVE_BUY_SLIPPAGE_BELOW_MIN_TOKENS_OUT : Z := 6042.
Definition AMM_EXCEEDED_SLIPPAGE : Z := 6004.
Definition AMM_BUY_SLIPPAGE_BELOW_MIN_BASE : Z := 6040.
Definition BONDING_CURVE_COMPLETE : Z := 6005.
Definition ANCHOR_CONSTRAINT_SEEDS : Z := 2006.
Definition CURVE_OVERFLOW : Z := 6024.

Definition classify_swap_revert (custom : option Z) (route : SwapRoute) (direction : SwapDirection) : SwapRetryDecision :=
  match custom with
  | None => StopFeeBurn
  | Some c =>
      match route, direction with
      | Curve, Sell =>
          if c =? CURVE_TOO_LITTLE_SOL_RECEIVED then RetrySwap
          else if c =? ANCHOR_CONSTRAINT_SEEDS then RefreshCreator
          else if c =? CURVE_OVERFLOW then RefreshCashback
          else if c =? BONDING_CURVE_COMPLETE then RerouteMigrated else StopFeeBurn
      | Amm, Sell =>
          if c =? AMM_EXCEEDED_SLIPPAGE then RetrySwap
          else if c =? ANCHOR_CONSTRAINT_SEEDS then RefreshCoinCreator else StopFeeBurn
      | Curve, Buy =>
          if (c =? CURVE_TOO_MUCH_SOL_REQUIRED) || (c =? CURVE_BUY_SLIPPAGE_BELOW_MIN_TOKENS_OUT) then RetrySwap
          else if c =? ANCHOR_CONSTRAINT_SEEDS then RefreshCreator else StopFeeBurn
      | Amm, Buy =>
          if (c =? AMM_EXCEEDED_SLIPPAGE) || (c =? AMM_BUY_SLIPPAGE_BELOW_MIN_BASE) then RetrySwap
          else if c =? ANCHOR_CONSTRAINT_SEEDS then RefreshCoinCreator else StopFeeBurn
      end
  end.
End Retry.
