(* ===== verification/ExecutorProps.v ===== *)
(** * ExecutorProps: the nonce pool and the exposure ledger

    A scan hands out a free slot whenever there is one; a slot in use is freed only by a
    newer account update or by the refresh of that very use; a slot without a hash is
    stranded until its account is pushed, and a refresh that starts late frees another
    use; a transaction is reported dead only against its latest anchor; reservations stay
    within the balance and last until the balance covers them. *)

From S2P Require Export Executor.

Module NonceFacts.
Import Nonce.

Implicit Types (p : Pool) (pk : Pubkey) (s : NonceSlot).

(** ** A scan *)

Lemma scan_from_Some p start pk h : forall n offset, scan_from p start offset n = Some (pk, h) ->
  pk ∈ nonce_pubkeys p /\ ready p pk = Some h.
Proof.
  induction n as [|n IH]; intros offset; cbn [scan_from]; [done|].
  destruct (nonce_pubkeys p !! _) as [pk'|] eqn:E; [|apply IH].
  destruct (ready p pk') as [h'|] eqn:Er; [|apply IH]. intros [= <- <-]. split; [|done].
  by eapply list_elem_of_lookup_2.
Qed.

Lemma scan_from_None p start : forall n offset, scan_from p start offset n = None ->
  forall i, (offset <= i < offset + n)%nat ->
  forall pk, nonce_pubkeys p !! ((start + i) mod length (nonce_pubkeys p))%nat = Some pk -> ready p pk = None.
Proof.
  induction n as [|n IH]; intros offset; cbn [scan_from]; [lia|]. intros H i Hi pk Hpk.
  destruct (decide (i = offset)) as [->|Hne].
  - rewrite Hpk in H. by destruct (ready p pk).
  - destruct (nonce_pubkeys p !! ((start + offset) mod _)%nat) as [pk'|]; [destruct (ready p pk'); [done|]|];
      apply (IH (S offset) H i); (lia || done).
Qed.

(** The offsets cover the whole ring. *)
Lemma ring_covers (start n i : nat) : (i < n)%nat -> exists offset, (offset < n)%nat /\ ((start + offset) mod n = i)%nat.
Proof.
  intros Hi. exists ((i + (n - start mod n)) mod n)%nat. split; [apply Nat.mod_upper_bound; lia|].
  rewrite Nat.Div0.add_mod_idemp_r. rewrite <- Nat.Div0.add_mod_idemp_l.
  pose proof (Nat.mod_upper_bound start n ltac:(lia)).
  replace (start mod n + (i + (n - start mod n)))%nat with (i + 1 * n)%nat by lia.
  rewrite Nat.Div0.mod_add. by apply Nat.mod_small.
Qed.

(** A scan of the nonce pool answers nothing only when no configured slot is free with a hash;
    otherwise it hands out the cached hash of such a slot, marks that slot in use under the
    next epoch and leaves every other slot as it was. *)
Theorem scan_hands_out_a_ready_slot p :
  match acquire_scan p with
  | (p', Some (pk, h)) =>
      pk ∈ nonce_pubkeys p /\
      exists s, nonce_slots p !! pk = Some s /\ in_use s = false /\ cached_hash s = Some h /\
        nonce_slots p' = <[pk := take s]> (nonce_slots p) /\ ready p' pk = None
  | (p', None) => nonce_slots p' = nonce_slots p /\ forall pk, pk ∈ nonce_pubkeys p -> ready p pk = None
  end.
Proof.
  unfold acquire_scan. set (start := Z.to_nat _). set (p1 := mkPool _ _ _ _ _).
  assert (forall pk, ready p1 pk = ready p pk) as Hr by done.
  destruct (scan_from p1 start 0 (length (nonce_pubkeys p))) as [[pk h]|] eqn:E.
  - apply scan_from_Some in E as [Hin Hready]. rewrite Hr in Hready. unfold ready in Hready.
    change (nonce_slots p1) with (nonce_slots p). destruct (nonce_slots p !! pk) as [s|] eqn:Es; [|done].
    destruct (in_use s) eqn:Eu; [done|]. split; [done|]. exists s. split_and!; try done.
    unfold ready, set_slot. cbn [nonce_slots]. by rewrite lookup_insert_eq.
  - split; [done|]. intros pk Hpk. apply list_elem_of_lookup_1 in Hpk as [i Hi].
    destruct (ring_covers start (length (nonce_pubkeys p)) i) as (offset & Ho & Hm); [by eapply lookup_lt_Some|].
    rewrite <- Hr. eapply (scan_from_None p1 start _ _ E offset); [lia|]. cbn [nonce_pubkeys p1]. by rewrite Hm.
Qed.

(** ** What frees a slot *)

Lemma note_slots p sig pk h : nonce_slots (note_nonce_tx p sig pk h) = nonce_slots p.
Proof. unfold note_nonce_tx. destruct (is_someb _); [done|]. by destruct (trim _ _ _). Qed.

Lemma burn_slots p sig before after sent : 
  nonce_slots (burn_nonce_tx p sig before after sent).1 = nonce_slots p \/
  exists pk, (burn_nonce_tx p sig before after sent).1 = invalidate_hash p pk.
Proof.
  unfold burn_nonce_tx. destruct (nonce_tx_state p sig before); [by left..|].
  destruct (nonce_tx_index p !! sig) as [[pk h]|]; [|by left]. destruct sent; [right; by exists pk|by left].
Qed.

(** The account a refresh task was scheduled for and the epoch it captured; none before its
    first step. *)
Definition captured (t : Task) : option (Pubkey * Z) :=
  match t with
  | Polling q _ e _ _ | Reading q _ e _ _ | Finalizing q e _ => Some (q, e)
  | Spawned _ | Finished => None
  end.

Lemma task_frees n p t read p' t' pk s s' : step_task n p t read = (p', t') ->
  nonce_slots p !! pk = Some s -> nonce_slots p' !! pk = Some s' -> s' <> s ->
  in_use s = true /\ captured t = Some (pk, use_epoch s) /\ exists h, s' = finalize_slot s h.
Proof.
  intros Hs H H' Hne.
  destruct t as [q|q uh e m lo|q uh e m lo|q e h|]; cbn [step_task] in Hs.
  1: destruct (nonce_slots p !! q); simplify_eq; congruence.
  1: destruct (nonce_slots p !! q) as [s0|]; [destruct (_ && _)|]; simplify_eq; congruence.
  1: destruct read as [hash|]; [case_bool_decide|]; simplify_eq; congruence.
  2: simplify_eq; congruence.
  destruct (nonce_slots p !! q) as [s0|] eqn:E; [|simplify_eq; congruence].
  destruct (use_epoch s0 =? e) eqn:Ee; cbn [negb orb] in Hs; [|simplify_eq; congruence].
  destruct (in_use s0) eqn:Eu; cbn [negb] in Hs; [|simplify_eq; congruence].
  injection Hs as <- <-. cbn [set_slot nonce_slots] in H'. bool_to_prop.
  destruct (decide (q = pk)) as [->|Hq]; [|rewrite lookup_insert_ne in H' by done; congruence].
  rewrite lookup_insert_eq in H'. simplify_eq. cbn [captured]. split; [done|]. split; [done|]. by exists h.
Qed.

(** C23: In any step of the pool's tasks, a slot in use becomes free only by an account update newer
    than every one seen for it and carrying another hash than the cached one, or by the
    refresh scheduled for this very account that captured the epoch of this very use; its epoch
    stands in either case. *)
Theorem slot_in_use_is_freed_for_cause n w ev w' pk s s' :
  step n w ev w' -> nonce_slots (pool w) !! pk = Some s -> nonce_slots (pool w') !! pk = Some s' ->
  in_use s = true -> in_use s' = false ->
  use_epoch s' = use_epoch s /\
  ((ev = Pushed pk /\ last_push_slot s < last_push_slot s' /\ cached_hash s' <> cached_hash s) \/
   (ev = Other /\ exists k t, tasks w !! k = Some t /\ captured t = Some (pk, use_epoch s))).
Proof.
  intros Hst H H' Hu Hu'. assert (s' <> s) as Hne by congruence. destruct Hst as
    [w p got Ha|w q u|w k t read p t' Hk Ht|w q d sl|w sig q h|w sig bf af se]; cbn [pool tasks] in *.
  - exfalso. pose proof (scan_hands_out_a_ready_slot (pool w)) as Hs. rewrite Ha in Hs. destruct got as [[q h]|].
    + destruct Hs as (_ & s0 & Hs0 & Hf & _ & Hsl & _). rewrite Hsl in H'.
      destruct (decide (q = pk)) as [->|]; [congruence|rewrite lookup_insert_ne in H' by done; congruence].
    + destruct Hs as [Hs _]. congruence.
  - congruence.
  - destruct (task_frees _ _ _ _ _ _ _ _ _ Ht H H' Hne) as (_ & Hc & h & ->). split; [done|]. right. split; [done|].
    by exists k, t.
  - unfold on_nonce_account_update in H'. destruct (contains _ q); [|cbn in H'; congruence]. cbn [negb] in H'.
    destruct d as [hash|]; [|congruence]. destruct (nonce_slots (pool w) !! q) as [s0|] eqn:E; [|congruence].
    destruct (sl <=? last_push_slot s0) eqn:El; [congruence|]. bool_to_prop.
    destruct (decide (q = pk)) as [->|Hq]; [|case_bool_decide; cbn [set_slot nonce_slots] in H';
      rewrite lookup_insert_ne in H' by done; congruence].
    assert (s0 = s) as -> by congruence.
    case_bool_decide as Ec; cbn [set_slot nonce_slots] in H'; rewrite lookup_insert_eq in H'; simplify_eq;
      cbn [in_use] in Hu'; [congruence|].
    split; [done|]. left. cbn [last_push_slot cached_hash]. split; [done|]. split; [lia|]. congruence.
  - rewrite note_slots in H'. congruence.
  - exfalso. destruct (burn_slots (pool w) sig bf af se) as [E|[q E]]; [rewrite E in H'; congruence|].
    rewrite E in H'. unfold invalidate_hash in H'. destruct (nonce_slots (pool w) !! q) as [s0|] eqn:E'; [|congruence].
    cbn [set_slot nonce_slots] in H'. destruct (decide (q = pk)) as [->|]; [|rewrite lookup_insert_ne in H' by done; congruence].
    rewrite lookup_insert_eq in H'. simplify_eq. cbn [in_use] in Hu'. congruence.
Qed.

Lemma slot_in_use_is_freed_for_cause_witness :
  let p := (acquire_scan (initial [(1, 100); (2, 200)])).1 in
  let p' := on_nonce_account_update p 1 (Some 101) 5 in
  nonce_slots p !! 1 = Some (mkSlot (Some 100) true 1 0) /\ nonce_slots p' !! 1 = Some (mkSlot (Some 101) false 1 5) /\
  (1 = 1 /\ ((Pushed 1 = Pushed 1 /\ 0 < 5 /\ Some 101 <> Some 100) \/
             (Pushed 1 = Other /\ exists k t, @nil Task !! k = Some t /\ captured t = Some (1, 1)))).
Proof.
  cbv zeta. set (p := (acquire_scan _).1). set (p' := on_nonce_account_update _ _ _ _).
  assert (nonce_slots p !! 1 = Some (mkSlot (Some 100) true 1 0)) as H by (vm_compute; reflexivity).
  assert (nonce_slots p' !! 1 = Some (mkSlot (Some 101) false 1 5)) as H' by (vm_compute; reflexivity).
  split; [exact H|]. split; [exact H'|].
  exact (slot_in_use_is_freed_for_cause 3 (mkWorld p []) (Pushed 1) (mkWorld p' []) 1 _ _
    (Push 3 (mkWorld p []) 1 (Some 101) 5) H H' eq_refl eq_refl).
Defined.

(** ** A slot without a hash *)

(** Free, and with nothing cached to hand out. *)
Definition stranded (w : World) pk : Prop :=
  exists s, nonce_slots (pool w) !! pk = Some s /\ in_use s = false /\ cached_hash s = None.

Lemma stranded_step n w ev w' pk : step n w ev w' -> ev <> Pushed pk -> stranded w pk ->
  stranded w' pk /\ forall h, ev <> Got (Some (pk, h)).
Proof.
  intros Hst Hev (s & Hs & Hu & Hc).
  enough (nonce_slots (pool w') !! pk = Some s \/ stranded w' pk) as Hkeep.
  { split.
    - destruct Hkeep as [H|H]; [by exists s|done].
    - intros h ->. inversion Hst as [? ? ? Ha| | | | |]; subst. pose proof (scan_hands_out_a_ready_slot (pool w)) as H.
      rewrite Ha in H. destruct H as (_ & s0 & Hs0 & _ & Hh & _). congruence. }
  destruct Hst as [w p got Ha|w q u|w k t read p t' Hk Ht|w q d sl|w sig q h|w sig bf af se]; cbn [pool] in *.
  - left. pose proof (scan_hands_out_a_ready_slot (pool w)) as H. rewrite Ha in H. destruct got as [[q h]|].
    + destruct H as (_ & s0 & Hs0 & _ & Hh & -> & _). rewrite lookup_insert_ne; [done|]. intros ->. congruence.
    + destruct H as [-> _]. done.
  - by left.
  - destruct (nonce_slots p !! pk) as [s'|] eqn:E.
    + destruct (decide (s' = s)) as [->|Hne]; [by left|].
      destruct (task_frees _ _ _ _ _ _ _ _ _ Ht Hs E Hne) as (Hu' & _). congruence.
    + exfalso. destruct t; cbn [step_task] in Ht; repeat case_match; simplify_eq; try congruence.
      cbn [set_slot nonce_slots] in E. apply lookup_insert_None in E as [? _]. congruence.
  - left. unfold on_nonce_account_update. destruct (contains _ q); [|done]. cbn [negb]. destruct d as [hash|]; [|done].
    destruct (nonce_slots (pool w) !! q) as [s0|]; [|done]. destruct (sl <=? _); [done|].
    case_bool_decide; cbn [set_slot nonce_slots]; (rewrite lookup_insert_ne; [done|congruence]).
  - left. by rewrite note_slots.
  - destruct (burn_slots (pool w) sig bf af se) as [E|[q E]]; [left; by rewrite E|]. rewrite E. unfold invalidate_hash.
    destruct (nonce_slots (pool w) !! q) as [s0|] eqn:E'; [|by left].
    destruct (decide (q = pk)) as [->|]; [|left; cbn; by rewrite lookup_insert_ne].
    right. unfold stranded. cbn. rewrite lookup_insert_eq. eexists. split; [done|]. simplify_eq. done.
Qed.

(** Once a slot is free without a hash (a burn, or a refresh whose reads all failed), it is never
    handed out again, whatever the tasks do, until its account is pushed with an update. *)
Theorem slot_without_hash_is_stranded n w evs w' pk :
  run n w evs w' -> stranded w pk -> Pushed pk ∉ evs ->
  stranded w' pk /\ Forall (fun ev => forall h, ev <> Got (Some (pk, h))) evs.
Proof.
  induction 1 as [w|w ev w1 evs w2 Hst _ IH]; intros Hs Hp; [done|].
  apply not_elem_of_cons in Hp as [Hne Hp]. destruct (stranded_step _ _ _ _ _ Hst (not_eq_sym Hne) Hs) as [Hs1 Hg].
  destruct (IH Hs1 Hp) as [Hs2 Hall]. split; [done|]. by constructor.
Qed.

(** A stuck sell's nonce is burned while its slot is free: the next scans of the one-slot pool
    find nothing. *)
Lemma slot_without_hash_is_stranded_witness :
  let p := note_nonce_tx (initial [(1, 100)]) "sig" 1 100 in
  let '(p', st) := burn_nonce_tx p "sig" (fun _ => Some 100) (fun _ => Some 101) true in
  st = Dead /\ stranded (mkWorld p' []) 1 /\
  exists w', run 3 (mkWorld p' []) [Got None] w' /\ stranded w' 1.
Proof.
  cbv zeta. set (b := burn_nonce_tx _ _ _ _ _). assert (b.2 = Dead) as Hd by (vm_compute; reflexivity).
  assert (stranded (mkWorld b.1 []) 1) as Hs by (eexists; split; [vm_compute; reflexivity|split; reflexivity]).
  assert ((acquire_scan b.1).2 = None) as Hg by (vm_compute; reflexivity).
  destruct b as [p' st]. cbn [fst snd] in *. split; [exact Hd|]. split; [exact Hs|].
  exists (mkWorld (acquire_scan p').1 []). 
  assert (run 3 (mkWorld p' []) [Got None] (mkWorld (acquire_scan p').1 [])) as Hr.
  { eapply run_cons; [|apply run_nil]. rewrite <- Hg. apply (Acquire 3 (mkWorld p' [])). cbn. by destruct (acquire_scan p'). }
  split; [exact Hr|].
  exact (proj1 (slot_without_hash_is_stranded 3 _ _ _ 1 Hr Hs ltac:(intros [[=]|[]%elem_of_nil]%elem_of_cons))).
Defined.

(** ** A refresh that starts late *)

(** There is a run in which one nonce hash is handed out twice while its first holder is in
    flight: the refresh scheduled by the first use starts after an update re-armed the slot
    and a second use took it, so it captures the second use's epoch and frees that use. *)
Theorem late_refresh_frees_another_use :
  exists w1 w2 evs,
    run 1 (mkWorld (initial [(1, 100)]) []) [Got (Some (1, 100)); Pushed 1; Got (Some (1, 101))] w1 /\
    nonce_slots (pool w1) !! 1 = Some (mkSlot (Some 101) true 2 7) /\
    run 1 w1 (Scheduled 1 1 :: evs ++ [Got (Some (1, 101))]) w2 /\
    Forall (fun ev => ev = Other) evs.
Proof.
  set (p0 := initial [(1, 100)]). set (p1 := (acquire_scan p0).1). set (p2 := on_nonce_account_update p1 1 (Some 101) 7).
  set (p3 := (acquire_scan p2).1).
  exists (mkWorld p3 []). eexists _, [Other; Other; Other; Other]. split_and!.
  - eapply run_cons; [eapply (Acquire 1 (mkWorld p0 [])); vm_compute; reflexivity|].
    eapply run_cons; [apply (Push 1 _ 1 (Some 101) 7)|].
    eapply run_cons; [|apply run_nil]. eapply (Acquire 1 (mkWorld p2 [])). vm_compute. reflexivity.
  - vm_compute. reflexivity.
  - eapply run_cons; [apply (Schedule 1 _ 1 1)|].
    eapply run_cons; [eapply (Run 1 _ 0%nat _ (Some 101)); [reflexivity|vm_compute; reflexivity]|].
    eapply run_cons; [eapply (Run 1 _ 0%nat _ (Some 101)); [reflexivity|vm_compute; reflexivity]|].
    eapply run_cons; [eapply (Run 1 _ 0%nat _ (Some 101)); [reflexivity|vm_compute; reflexivity]|].
    eapply run_cons; [eapply (Run 1 _ 0%nat _ (Some 101)); [reflexivity|vm_compute; reflexivity]|].
    eapply run_cons; [|apply run_nil]. eapply (Acquire 1). vm_compute. reflexivity.
  - repeat constructor.
Qed.

(** ** The index of sent transactions *)

Definition note (p : Pool) (n : string * (Pubkey * BlockHash)) : Pool := note_nonce_tx p n.1 n.2.1 n.2.2.

Definition noted (p : Pool) (notes : list (string * (Pubkey * BlockHash))) : Pool := foldl note p notes.

(** The anchor a signature was last noted with. *)
Definition last_anchor (notes : list (string * (Pubkey * BlockHash))) (signature : string) : option (Pubkey * BlockHash) :=
  snd <$> find_first (fun n => bool_decide (n.1 = signature)) (rev notes).

Lemma trim_spec fuel : forall index order index' order', trim fuel index order = (index', order') ->
  (length order <= fuel)%nat ->
  exists dropped, order = dropped ++ order' /\ length order' = Nat.min (length order) NONCE_TX_INDEX_CAP /\
    index' = foldl (fun m k => delete k m) index dropped.
Proof.
  induction fuel as [|fuel IH]; intros index order index' order'; cbn [trim].
  - intros [= <- <-] Hl. exists []. split_and!; [done| |done]. lia.
  - destruct (_ <? _)%nat eqn:E; [apply Nat.ltb_lt in E|apply Nat.ltb_ge in E].
    + destruct order as [|old order]; [cbn in E; lia|]. intros H Hl. cbn [length] in *.
      destruct (IH _ _ _ _ H ltac:(lia)) as (dropped & -> & Hlen & ->). exists (old :: dropped). split_and!; [done| |done].
      lia.
    + intros [= <- <-] _. exists []. split_and!; [done|lia|done].
Qed.

Lemma foldl_delete_lookup (m : gmap string (Pubkey * BlockHash)) dropped k :
  foldl (fun m k => delete k m) m dropped !! k = (if decide (k ∈ dropped) then None else m !! k).
Proof.
  revert m. induction dropped as [|d dropped IH]; intros m; cbn [foldl].
  - case_decide as E; [by apply elem_of_nil in E|done].
  - rewrite IH. repeat case_decide; try done.
    + exfalso. set_solver.
    + assert (k = d) as -> by set_solver. by rewrite lookup_delete_eq.
    + rewrite lookup_delete_ne; [done|]. intros ->. set_solver.
Qed.

Record IndexInv (notes : list (string * (Pubkey * BlockHash))) p : Prop := {
  ii_nodup : NoDup (nonce_tx_order p);
  ii_cap : (length (nonce_tx_order p) <= NONCE_TX_INDEX_CAP)%nat;
  ii_dom : forall (s : string), s ∈ nonce_tx_order p <-> is_Some (nonce_tx_index p !! s);
  ii_last : forall (s : string) a, nonce_tx_index p !! s = Some a -> last_anchor notes s = Some a
}.

Lemma last_anchor_snoc notes n (s : string) :
  last_anchor (notes ++ [n]) s = if decide (n.1 = s) then Some n.2 else last_anchor notes s.
Proof.
  unfold last_anchor. rewrite rev_app_distr. cbn [rev app find_first].
  case_bool_decide as E; [by rewrite decide_True|by rewrite decide_False].
Qed.

Lemma index_step notes p n : IndexInv notes p -> IndexInv (notes ++ [n]) (note p n) /\ is_Some (nonce_tx_index (note p n) !! n.1).
Proof.
  intros [Hnd Hcap Hdom Hlast]. destruct n as [s [pk h]]. unfold note, note_nonce_tx. cbn [fst snd].
  destruct (nonce_tx_index p !! s) as [a|] eqn:Es; cbn [is_someb].
  - split; [|cbn; by rewrite lookup_insert_eq]. split; cbn [nonce_tx_order nonce_tx_index]; try done.
    + intros s'. rewrite Hdom. destruct (decide (s = s')) as [<-|Hne].
      * rewrite lookup_insert_eq, Es. split; eauto.
      * by rewrite lookup_insert_ne.
    + intros s' a'. rewrite last_anchor_snoc. cbn [fst snd]. case_decide as E.
      * subst. rewrite lookup_insert_eq. congruence.
      * rewrite lookup_insert_ne by done. apply Hlast.
  - destruct (trim _ _ _) as [index order] eqn:Et. apply trim_spec in Et as (dropped & Ho & Hc & ->); [|done].
    assert (s ∉ nonce_tx_order p) as Hs by (rewrite Hdom, Es; by intros []).
    assert (NoDup (dropped ++ order)) as Hnd'.
    { rewrite <- Ho. apply NoDup_app. split; [done|]. split; [|apply NoDup_singleton].
      intros x Hx ->%list_elem_of_singleton. done. }
    apply NoDup_app in Hnd' as (_ & Hdis & Hno). rewrite length_app in Hc. cbn [length] in Hc.
    assert (s ∈ order) as Hso.
    { destruct (exists_last (l := order)) as (o & y & ->); [intros ->; cbn in Hc; unfold NONCE_TX_INDEX_CAP in Hc; lia|].
      rewrite app_assoc in Ho. apply app_inj_tail in Ho as [_ ->]. apply elem_of_app. right. by apply list_elem_of_singleton. }
    assert (forall x, x ∈ dropped ++ order <-> x ∈ nonce_tx_order p \/ x = s) as Hmem
      by (intros x; rewrite <- Ho, elem_of_app, list_elem_of_singleton; done).
    assert (forall x, x ∈ order -> x ∉ dropped) as Hdis' by (intros x Hx Hd; by apply (Hdis x)).
    split; [|cbn [nonce_tx_index]; rewrite foldl_delete_lookup, decide_False by auto; by rewrite lookup_insert_eq].
    split; cbn [nonce_tx_order nonce_tx_index]; [done|lia| |].
    + intros x. rewrite foldl_delete_lookup. case_decide as Ed.
      * split; [intros Hx; by apply Hdis' in Hx|by intros []].
      * destruct (decide (s = x)) as [<-|Hne]; [rewrite lookup_insert_eq; split; eauto|].
        rewrite lookup_insert_ne by done. rewrite <- Hdom. specialize (Hmem x). rewrite elem_of_app in Hmem.
        naive_solver.
    + intros x a. rewrite foldl_delete_lookup, last_anchor_snoc. cbn [fst snd]. case_decide; [done|].
      destruct (decide (s = x)) as [<-|Hne]; [by rewrite lookup_insert_eq|rewrite lookup_insert_ne by done; apply Hlast].
Qed.

Lemma index_inv notes : forall p, nonce_tx_index p = ∅ -> nonce_tx_order p = [] -> IndexInv notes (noted p notes).
Proof.
  intros p Hi Ho. unfold noted. induction notes as [|n notes IH] using rev_ind.
  - cbn [foldl]. split; rewrite ?Hi, ?Ho; [constructor|cbn; lia| |].
    + intros s. rewrite lookup_empty. split; [by intros ?%elem_of_nil|by intros []].
    + intros s a. by rewrite lookup_empty.
  - rewrite foldl_app. cbn [foldl]. by apply index_step.
Qed.

(** After any sends, at most 4,096 transactions are tracked, the newest always is; a transaction is
    reported dead only if the account it was last anchored to now holds another hash, live
    only if it still holds that one, and never on a failed read. *)
Theorem dead_is_a_proof fetched notes n (s : string) read :
  let p := noted (initial fetched) (notes ++ [n]) in
  (size (nonce_tx_index p) <= NONCE_TX_INDEX_CAP)%nat /\
  nonce_tx_index p !! n.1 = Some n.2 /\
  match nonce_tx_state p s read with
  | Dead => exists pk h c, last_anchor (notes ++ [n]) s = Some (pk, h) /\ read pk = Some c /\ c <> h
  | Live => exists pk h, last_anchor (notes ++ [n]) s = Some (pk, h) /\ read pk = Some h
  | Unknown => nonce_tx_index p !! s = None \/ exists pk h, last_anchor (notes ++ [n]) s = Some (pk, h) /\ read pk = None
  end.
Proof.
  cbv zeta. pose proof (index_inv (notes ++ [n]) (initial fetched) eq_refl eq_refl) as HI.
  assert (is_Some (nonce_tx_index (noted (initial fetched) (notes ++ [n])) !! n.1)) as Hn.
  { unfold noted. rewrite foldl_app. cbn [foldl]. apply (index_step notes), index_inv; done. }
  set (p := noted _ _) in *. destruct HI as [Hnd Hcap Hdom Hlast]. split_and!.
  - assert (size (nonce_tx_index p) = length (nonce_tx_order p)) as ->; [|done].
    rewrite <- size_dom. rewrite <- (size_list_to_set (C := gset string) (nonce_tx_order p)) by done. f_equal.
    apply set_eq. intros x. by rewrite elem_of_dom, elem_of_list_to_set, Hdom.
  - destruct Hn as [a Ha]. rewrite Ha. apply Hlast in Ha. rewrite last_anchor_snoc, decide_True in Ha by done. congruence.
  - unfold nonce_tx_state. destruct (nonce_tx_index p !! s) as [[pk h]|] eqn:E; [|by left]. apply Hlast in E.
    destruct (read pk) as [c|] eqn:Er; [|right; by exists pk, h].
    destruct (c =? h) eqn:Ec; bool_to_prop; [subst; by exists pk, h|by exists pk, h, c].
Qed.
End NonceFacts.

Module ExposureFacts.
Import Exposure.

Implicit Types (l : Ledger) (r : SolReservation).

(** What the earmarks hold back, exactly. *)
Definition earmarked (m : gmap string SolReservation) : Z := map_fold (fun _ r acc => r_lamports r + acc) 0 m.

Definition committed l : Z := earmarked (held_by l).

Lemma earmarked_insert m id r : m !! id = None -> earmarked (<[id := r]> m) = r_lamports r + earmarked m.
Proof.
  intros. unfold earmarked. apply (map_fold_insert_L (fun _ r acc => r_lamports r + acc)); [intros; lia|done].
Qed.

Lemma earmarked_nonneg m : map_Forall (fun _ r => 0 <= r_lamports r) m -> 0 <= earmarked m.
Proof.
  induction m as [|id r m Hm IH] using map_ind; [done|]. intros [H1 H2]%map_Forall_insert; [|done].
  rewrite earmarked_insert by done. specialize (IH H2). lia.
Qed.

Lemma earmarked_delete m id r : m !! id = Some r -> earmarked m = r_lamports r + earmarked (delete id m).
Proof.
  intros H. rewrite <- (insert_delete_id m id r) at 1 by done. apply earmarked_insert. apply lookup_delete_eq.
Qed.

(** The saturating sum is the exact one, capped. *)
Lemma committed_sat l : map_Forall (fun _ r => 0 <= r_lamports r) (commitments l) ->
  (committed_lamports l).2 = Z.min u64_max (committed l).
Proof.
  intros Hall. unfold committed_lamports, committed. cbn [snd].
  assert (map_Forall (fun _ r => 0 <= r_lamports r) (held_by l)) as Hh.
  { intros id r [H _]%map_lookup_filter_Some. by apply (Hall id). }
  revert Hh. generalize (held_by l). intros m.
  induction m as [|id r m Hm IH] using map_ind; intros Hall'; [done|].
  pose proof Hall' as Hpos. apply map_Forall_insert in Hall' as [H1 H2]; [|done]. rewrite earmarked_insert by done.
  rewrite (map_fold_insert_L (fun _ r held => sat_add u64_max held (r_lamports r))); [| |done].
  2: { intros j1 j2 z1 z2 y _ Hj1%Hpos Hj2%Hpos. unfold sat_add. lia. }
  rewrite IH by done. pose proof (earmarked_nonneg m H2). unfold sat_add. lia.
Qed.

(** ** Operations on the ledger *)

Inductive Op :=
  | Reserve (id : string) (lamports : Z)
  | Settle (id : string) (slot : option Z) (now : Ts)
  | Release (id : string)
  | Commit (id : string) (lamports : Z)
  | Measure
  | Polled (lamports : Z) (now : Ts)
  | PushedBalance (lamports slot : Z) (now : Ts).

Definition apply l (op : Op) : Ledger :=
  match op with
  | Reserve id n => (try_reserve_buy l id n).1
  | Settle id slot now => settle_reservation l id slot now
  | Release id => release_sol_for_position l id
  | Commit id n => commit_sol_for_position l id n
  | Measure => (committed_lamports l).1
  | Polled n now => update_balance_lamports_cache l n now
  | PushedBalance n slot now => update_balance_lamports_at_slot l n slot now
  end.

(** Reservations, settlements and releases: nothing that bypasses the check or reads a
    balance. *)
Definition checked (op : Op) : Prop :=
  match op with
  | Reserve _ n => 0 <= n
  | Settle _ _ _ | Release _ | Measure => True
  | _ => False
  end.

Definition amounts_ok l : Prop := map_Forall (fun _ r => 0 <= r_lamports r) (commitments l).

(** The earmarks held against reading [b] fit under it. *)
Definition fits (b : BalanceReading) l : Prop :=
  balance_cache l = Some b /\ b_lamports b <= u64_max /\ amounts_ok l /\
  committed l <= sat_sub (b_lamports b) RESERVE_FLOOR_LAMPORTS.

Lemma held_filter l : held_by (with_commitments l (held_by l)) = held_by l.
Proof.
  unfold held_by. cbn [commitments with_commitments balance_cache]. apply map_eq. intros id.
  rewrite map_filter_filter_l; [done|]. by intros ? ? ? ?.
Qed.

Lemma held_insert_new l m id n :
  held_by (with_commitments l (<[id := mkReservation n None]> m)) = <[id := mkReservation n None]> (held_by (with_commitments l m)).
Proof. unfold held_by. cbn [commitments with_commitments balance_cache]. by rewrite map_filter_insert_True. Qed.

Lemma earmarked_sub m m' : m ⊆ m' -> map_Forall (fun _ r => 0 <= r_lamports r) m' -> earmarked m <= earmarked m'.
Proof.
  revert m'. induction m as [|id r m Hm IH] using map_ind; intros m' Hsub Hall; [by apply earmarked_nonneg|].
  rewrite earmarked_insert by done. rewrite (earmarked_delete m' id r) by (eapply lookup_weaken; [apply lookup_insert_eq|done]).
  apply Z.add_le_mono_l, IH.
  - apply map_subseteq_spec. intros j x Hj. assert (j <> id) by congruence. rewrite lookup_delete_ne by done.
    eapply lookup_weaken; [|exact Hsub]. by rewrite lookup_insert_ne.
  - intros j x [_ Hj]%lookup_delete_Some. by apply (Hall j).
Qed.

Lemma amounts_sub l m : amounts_ok l -> m ⊆ commitments l -> map_Forall (fun _ r => 0 <= r_lamports r) m.
Proof. intros H Hs id r Hr. apply (H id). by eapply lookup_weaken. Qed.

Lemma held_sub l : held_by l ⊆ commitments l.
Proof. apply map_filter_subseteq. Qed.

Lemma fits_reserve b l id n : fits b l -> 0 <= n -> fits b (try_reserve_buy l id n).1.
Proof.
  intros (Hb & Hmax & Ha & Hc) Hn. unfold try_reserve_buy. destruct (commitments l !! id) as [r|] eqn:E; [done|].
  unfold free_lamports. rewrite Hb. destruct (committed_lamports l) as [l' c] eqn:El.
  assert (c = Z.min u64_max (committed l)) as Hcs by (rewrite <- committed_sat by done; by rewrite El).
  assert (l' = with_commitments l (held_by l)) as -> by (unfold committed_lamports in El; congruence).
  assert (amounts_ok (with_commitments l (held_by l))) as Ha' by exact (amounts_sub l _ Ha (held_sub l)).
  set (free := sat_sub (sat_sub _ _) c). cbn [is_some_and]. destruct (free <? n) eqn:Ef; cbn [fst].
  - split_and!; try done. unfold committed. by rewrite held_filter.
  - bool_to_prop.
    assert (held_by l !! id = None) as Hn' by (apply map_lookup_filter_None; by left).
    split; [done|]. split; [done|]. split.
    + unfold amounts_ok. cbn [commitments with_commitments]. by apply map_Forall_insert_2.
    + unfold committed. cbn [commitments with_commitments]. change (with_commitments (with_commitments l ?m) ?m') with (with_commitments l m').
      rewrite held_insert_new, held_filter, earmarked_insert by done. cbn [r_lamports].
      assert (committed l <= u64_max \/ u64_max < committed l) as [?|?] by lia.
      * unfold free, sat_sub in *. unfold committed in *. lia.
      * unfold committed in *. assert (0 <= RESERVE_FLOOR_LAMPORTS) by (vm_compute; congruence).
        assert (0 <= u64_max) by (vm_compute; congruence). unfold free, sat_sub in *. lia.
Qed.

Lemma fits_shrink b l m : fits b l -> m ⊆ commitments l -> held_by (with_commitments l m) ⊆ held_by l ->
  fits b (with_commitments l m).
Proof.
  intros (Hb & Hmax & Ha & Hc) Hm Hh. split_and!; [done|done|exact (amounts_sub l m Ha Hm)|].
  etrans; [|exact Hc]. apply earmarked_sub; [done|]. exact (amounts_sub l _ Ha (held_sub l)).
Qed.

Lemma fits_settle b l id slot now : fits b l -> fits b (settle_reservation l id slot now).
Proof.
  intros H. unfold settle_reservation. destruct (commitments l !! id) as [r|] eqn:E; [|done].
  destruct (settled r) eqn:Es; [done|]. destruct H as (Hb & Hmax & Ha & Hc).
  set (r' := mkReservation (r_lamports r) (Some (mkSettled slot now))).
  assert (0 <= r_lamports r) as Hr by exact (Ha id r E).
  assert (held_by l !! id = Some r) as Hheld
    by (apply map_lookup_filter_Some; split; [done|]; cbn; unfold holds; by rewrite Es).
  split_and!; [done|done|by apply map_Forall_insert_2|]. etrans; [|exact Hc]. unfold committed.
  rewrite (earmarked_delete (held_by l) id r Hheld).
  assert (map_Forall (fun _ r => 0 <= r_lamports r) (delete id (held_by l))) as Hdel.
  { intros j x [_ Hj]%lookup_delete_Some. by apply (amounts_sub l _ Ha (held_sub l) j). }
  assert (delete id (held_by (with_commitments l (<[id := r']> (commitments l)))) = delete id (held_by l)) as Hd.
  { unfold held_by. cbn [commitments with_commitments balance_cache]. rewrite <- !map_filter_delete. by rewrite delete_insert_eq. }
  destruct (held_by (with_commitments l (<[id := r']> (commitments l))) !! id) as [x|] eqn:Ex.
  - rewrite (earmarked_delete _ id x Ex), Hd. apply map_lookup_filter_Some in Ex as [Ex _].
    cbn [commitments with_commitments] in Ex. rewrite lookup_insert_eq in Ex. injection Ex as <-. cbn [r_lamports r']. lia.
  - rewrite <- (delete_id _ id Ex), Hd. lia.
Qed.

Lemma fits_step b l op : fits b l -> checked op -> fits b (apply l op).
Proof.
  intros H Hop. destruct op as [id n|id slot now|id|id n| |n now|n slot now]; cbn [checked apply] in *; try done.
  - by apply fits_reserve.
  - by apply fits_settle.
  - apply fits_shrink; [done|apply delete_subseteq|]. unfold held_by. cbn [commitments with_commitments balance_cache].
    rewrite map_filter_delete. apply delete_subseteq.
  - unfold committed_lamports. cbn [fst]. apply fits_shrink; [done|apply held_sub|]. by rewrite held_filter.
Qed.

(** C24: Against one balance reading, whatever buys ask to reserve, land or are released, the SOL the
    earmarks hold back never exceeds the balance less the reserve floor, and a buy is only
    granted a new earmark when the free SOL covers it. *)
Theorem reservations_fit_the_balance b ops l :
  b_lamports b <= u64_max -> balance_cache l = Some b -> commitments l = ∅ -> Forall checked ops ->
  let l' := foldl apply l ops in
  committed l' <= sat_sub (b_lamports b) RESERVE_FLOOR_LAMPORTS /\
  forall id n, 0 <= n -> commitments l' !! id = None ->
    (try_reserve_buy l' id n).2 = true ->
    committed l' + n <= sat_sub (b_lamports b) RESERVE_FLOOR_LAMPORTS.
Proof.
  intros Hmax Hb Hc Hops. cbv zeta.
  assert (fits b l) as Hf.
  { split_and!; [done|done| |].
    - unfold amounts_ok. rewrite Hc. apply map_Forall_empty.
    - unfold committed, held_by. rewrite Hc, map_filter_empty. change (earmarked ∅) with 0. unfold sat_sub. lia. }
  assert (fits b (foldl apply l ops)) as Hf'.
  { clear Hb Hc. revert l Hf. induction Hops as [|op ops Hop _ IH]; intros l Hf; [done|]. cbn [foldl].
    by apply IH, fits_step. }
  split; [apply Hf'|]. intros id n Hn Hid Hok. pose proof (fits_reserve b _ id n Hf' Hn) as (_ & _ & _ & Hfit).
  set (l' := foldl apply l ops) in *. etrans; [|exact Hfit]. unfold try_reserve_buy in *. rewrite Hid in *.
  unfold free_lamports in *. destruct Hf' as (Hb' & _). rewrite Hb' in *.
  destruct (committed_lamports l') as [l2 c] eqn:El.
  assert (l2 = with_commitments l' (held_by l')) as -> by (unfold committed_lamports in El; congruence).
  destruct (is_some_and _ _); [done|]. cbn [fst]. unfold committed. cbn [commitments with_commitments].
  change (with_commitments (with_commitments l' ?m) ?m') with (with_commitments l' m').
  assert (held_by l' !! id = None) by (apply map_lookup_filter_None; by left).
  rewrite held_insert_new, held_filter, earmarked_insert by done. cbn [r_lamports]. lia.
Qed.

Lemma reservations_fit_the_balance_witness :
  let b := mkReading 1000000000 0 None in
  let l := mkLedger ∅ 0 (Some b) in
  let l' := foldl apply l [Reserve "a" 500000000; Reserve "b" 400000000; Reserve "c" 200000000; Settle "a" None 5] in
  (commitments l' !! "b", commitments l' !! "c") = (Some (mkReservation 400000000 None), None) /\
  committed l' <= sat_sub (b_lamports b) RESERVE_FLOOR_LAMPORTS.
Proof.
  cbv zeta. split; [vm_compute; reflexivity|].
  refine (proj1 (reservations_fit_the_balance (mkReading 1000000000 0 None)
    [Reserve "a" 500000000; Reserve "b" 400000000; Reserve "c" 200000000; Settle "a" None 5]
    (mkLedger ∅ 0 (Some (mkReading 1000000000 0 None))) _ eq_refl eq_refl _)).
  - vm_compute. congruence.
  - repeat constructor; vm_compute; congruence.
Defined.

(** An earmark is never lost before the balance shows its buy: only a release removes it while
    it is in flight, and once settled it is dropped only against a reading that covers it,
    of the landing slot or later, or polled five seconds after. *)
Theorem earmark_lasts_until_covered l op id r :
  commitments l !! id = Some r -> op <> Release id ->
  (exists r', commitments (apply l op) !! id = Some r' /\ r_lamports r' = r_lamports r /\
     (settled r = settled r' \/ settled r = None)) \/
  (exists st reading, settled r = Some st /\ balance_cache l = Some reading /\
     match s_slot st, b_slot reading with
     | Some landed, Some read => landed <= read
     | _, _ => s_at st + POLL_COVER_LAG <= b_at reading
     end).
Proof.
  intros Hr Hop.
  assert (forall m, m = held_by l -> m !! id = Some r \/ (exists st reading, settled r = Some st /\ balance_cache l = Some reading /\
     match s_slot st, b_slot reading with
     | Some landed, Some read => landed <= read
     | _, _ => s_at st + POLL_COVER_LAG <= b_at reading
     end)) as Hheld.
  { intros m ->. destruct (holds r (balance_cache l)) eqn:Eh.
    - left. by apply map_lookup_filter_Some.
    - right. unfold holds in Eh. destruct (settled r) as [st|]; [|done]. destruct (balance_cache l) as [reading|]; [|done].
      exists st, reading. split; [done|]. split; [done|].
      destruct (s_slot st), (b_slot reading); bool_to_prop; lia. }
  destruct op as [id' n|id' slot now|id'|id' n| |n now|n slot now]; cbn [apply].
  - unfold try_reserve_buy. destruct (commitments l !! id') as [r0|] eqn:E; [left; exists r; by auto|].
    assert (id' <> id) by congruence. unfold free_lamports. destruct (balance_cache l) as [reading|] eqn:Eb.
    + destruct (committed_lamports l) as [l' c] eqn:El.
      assert (l' = with_commitments l (held_by l)) as -> by (unfold committed_lamports in El; congruence).
      destruct (Hheld _ eq_refl) as [Hk|Hk]; [left|by right]. exists r. destruct (is_some_and _ _); cbn [fst commitments with_commitments].
      * by auto.
      * rewrite lookup_insert_ne by done. by auto.
    + left. exists r. cbn. rewrite lookup_insert_ne by done. by auto.
  - left. unfold settle_reservation. destruct (commitments l !! id') as [r0|] eqn:E; [|exists r; by auto].
    destruct (settled r0) eqn:Es; [exists r; by auto|]. cbn [commitments with_commitments].
    destruct (decide (id' = id)) as [->|Hne].
    + rewrite lookup_insert_eq. simplify_eq. eexists. split; [done|]. cbn. auto.
    + rewrite lookup_insert_ne by done. exists r. by auto.
  - left. exists r. unfold release_sol_for_position. cbn. rewrite lookup_delete_ne by congruence. by auto.
  - left. exists r. unfold commit_sol_for_position. destruct (commitments l !! id') eqn:E; [by auto|].
    cbn. rewrite lookup_insert_ne by congruence. by auto.
  - destruct (Hheld _ eq_refl) as [Hk|Hk]; [left|by right]. exists r. by auto.
  - left. exists r. by auto.
  - left. exists r. unfold update_balance_lamports_at_slot. destruct (_ <? _); by auto.
Qed.

Lemma earmark_lasts_until_covered_witness :
  let l := mkLedger (<["a" := mkReservation 5 None]> ∅) 0 None in
  exists r', commitments (apply l (PushedBalance 100 7 1)) !! "a" = Some r' /\ r_lamports r' = 5.
Proof.
  cbv zeta. set (l := mkLedger _ _ _).
  assert (commitments l !! "a" = Some (mkReservation 5 None)) as H0 by (vm_compute; reflexivity).
  destruct (earmark_lasts_until_covered l (PushedBalance 100 7 1) "a" (mkReservation 5 None) H0 ltac:(discriminate))
    as [(r' & H & Hl & _)|(st & rd & H & _)].
  - exists r'. split; [exact H|exact Hl].
  - discriminate H.
Defined.
End ExposureFacts.
