(* ===== verification/PaperFill.v ===== *)
(** * PaperFill: the paper and simulation fill model

    [hunter/core/src/strategies/paper_fill.rs] over the trade-row interface of
    [hunter/core/src/models/trade.rs].  The interface is the class [TradeRow], its prices
    the default methods of the trait; a tape is a list in chronological order. *)

From S2P Require Export Float64 Text.

(** [SpecFloat]'s comparison made total: [total_cmp]. *)
Definition total_cmp (x y : f64) : comparison :=
  match SFcompare x y with
  | Some Eq =>
      match x, y with
      | S754_zero true, S754_zero false => Lt
      | S754_zero false, S754_zero true => Gt
      | _, _ => Eq
      end
  | Some c => c
  | None => match x, y with S754_nan, S754_nan => Eq | S754_nan, _ => Gt | _, _ => Lt end
  end.

Definition MIN_TRADE_LAMPORTS : Z := 10000.
Definition MIN_TRADE_SOL : f64 := f_of_Z MIN_TRADE_LAMPORTS ⊘ f_of_Z 1000000000.
Definition MAX_FILL_WAIT_SLOTS : Z := 3.

Class TradeRow (T : Type) := {
  is_buy : T -> bool;
  amount_sol : T -> f64;
  token_amount : T -> f64;
  price_per_token : T -> f64;
  slot : T -> Z;
  block_time : T -> Ts;
  reserve_sol : T -> option f64;
  reserve_token : T -> option f64;
  real_reserve_sol : T -> option f64;
  real_token_reserves : T -> option f64;
  tx_signature : T -> string
}.

Definition is_dust (amount_sol : f64) : bool := amount_sol <. MIN_TRADE_SOL.

Inductive FillModel :=
  | WorstCase | FirstInWindow | NextSlotFirst | NextSlotMedian | SignalPrice | SlotEnd | LagMs (ms : Z).

#[export] Instance FillModel_eq_dec : EqDecision FillModel.
Proof. solve_decision. Defined.

(** ** The codec *)

Definition FILL_MODEL_NAMES : list (FillModel * string * string) :=
  [(WorstCase, "worst_case", "worst"); (FirstInWindow, "first_in_window", "first");
   (NextSlotFirst, "next_slot_first", "next_first"); (NextSlotMedian, "next_slot_median", "next_median");
   (SignalPrice, "signal_price", "signal"); (SlotEnd, "slot_end", "slot_end")].

Definition LAG_PREFIX : string := "lag_".

Definition as_str (m : FillModel) : string :=
  match m with
  | LagMs ms => LAG_PREFIX +:+ pretty ms
  | other =>
      match find_first (fun e => bool_decide (e.1.1 = other)) FILL_MODEL_NAMES with
      | Some e => e.1.2
      | None => "worst_case"
      end
  end.

Definition parse (s : string) : option FillModel :=
  let s := trim s in
  match strip_prefix LAG_PREFIX s with
  | Some ms => LagMs <$> parse_uint u32_max ms
  | None =>
      (fun e => e.1.1) <$>
      find_first (fun e => bool_decide (e.1.2 = s) || bool_decide (e.2 = s)) FILL_MODEL_NAMES
  end.

Definition lag_ms (m : FillModel) : option Z := match m with LagMs ms => Some ms | _ => None end.

Section tape.
Context {T : Type} `{TradeRow T}.

(** ** Prices of a row *)

Definition execution_price (t : T) : f64 :=
  let tok := token_amount t in
  if f_zero <. tok then amount_sol t ⊘ tok else price_per_token t.

Definition spot_price (t : T) : option f64 :=
  match reserve_sol t, reserve_token t with
  | Some sol, Some tok => if f_zero <. tok then Some (sol ⊘ tok) else None
  | _, _ => None
  end.

Definition pool_spot_price (t : T) : option f64 :=
  match real_reserve_sol t, real_token_reserves t with
  | Some sol, Some tok => if f_zero <. tok then Some (sol ⊘ tok) else None
  | _, _ => None
  end.

Definition usable (p : f64) : bool := is_finite p && (f_zero <. p).

Definition chart_spot_price (t : T) : option f64 :=
  let spot := or_else (spot_price t) (pool_spot_price t) in
  let spot := match spot with Some p => if usable p then Some p else None | None => None end in
  or_else spot (let exec := execution_price t in if usable exec then Some exec else None).

Definition fill_basis (t : T) : f64 := unwrap_or (chart_spot_price t) f_zero.

Record PaperFill := mkFill {
  trade_idx : nat;
  f_price : f64;
  f_token_amount : f64;
  f_slot : Z;
  f_block_time : Ts;
  f_tx_signature : string;
  f_reserve_sol : option f64
}.

Definition paper_fill_of (idx : nat) (t : T) : PaperFill :=
  mkFill idx (fill_basis t) (token_amount t) (slot t) (block_time t) (tx_signature t)
    (match reserve_sol t with Some r => if usable r then Some r else None | None => None end).

(** [&trades[idx]]: every index used is one of the tape. *)
Definition paper_fill_from (trades : list T) (idx : nat) : option PaperFill := paper_fill_of idx <$> trades !! idx.

(** ** The window *)

(** The offset of the next slot's run and the run. *)
Definition next_slot_run (post : list T) (signal_slot : Z) (next_slot : option Z) : nat * list T :=
  match next_slot with
  | Some ns =>
      if ns <=? signal_slot + MAX_FILL_WAIT_SLOTS then
        match position_of (fun t => slot t =? ns) post with
        | Some start => (start, take_while (fun t => slot t =? ns) (drop start post))
        | None => (O, [])
        end
      else (O, [])
  | None => (O, [])
  end.

Definition before (run : list T) (j i : nat) : bool :=
  match run !! j, run !! i with
  | Some tj, Some ti =>
      match total_cmp (fill_basis tj) (fill_basis ti) with Lt => true | Eq => (j <? i)%nat | Gt => false end
  | _, _ => false
  end.

Definition qualifies_at (run : list T) (qualifies : T -> bool) (i : nat) : bool := is_some_and (run !! i) qualifies.

(** How many qualifying rows of the run come before row [i] in price order. *)
Definition rank (run : list T) (qualifies : T -> bool) (i : nat) : nat :=
  length (List.filter (fun j => qualifies_at run qualifies j && before run j i) (seq 0 (length run))).

Definition adverse_median_in (run : list T) (qualifies : T -> bool) (adverse_high : bool) : option nat :=
  let n := length (List.filter qualifies run) in
  if (n =? 0)%nat then None
  else
    let k := if adverse_high then (n / 2)%nat else ((n - 1) / 2)%nat in
    find_first (fun i => qualifies_at run qualifies i && (rank run qualifies i =? k)%nat) (seq 0 (length run)).

(** The last offset that satisfies a predicate. *)
Definition rposition (f : T -> bool) (l : list T) : option nat :=
  match position_of f (rev l) with Some i => Some (length l - 1 - i)%nat | None => None end.

(** [max_by] keeps the last of equals, [min_by] the first; both over the offsets of the
    rows that satisfy [f]. *)
Definition better (keep : comparison -> bool) (acc : option (nat * T)) (cand : nat * T) : option (nat * T) :=
  match acc with
  | None => Some cand
  | Some cur => if keep (total_cmp (fill_basis cand.2) (fill_basis cur.2)) then Some cand else Some cur
  end.

Definition pick_by (keep : comparison -> bool) (f : T -> bool) (l : list T) : option nat :=
  fst <$> foldl (better keep) None (List.filter (fun p => f p.2) (imap pair l)).

Definition max_by : (T -> bool) -> list T -> option nat :=
  pick_by (fun c => match c with Lt => false | _ => true end).
Definition min_by : (T -> bool) -> list T -> option nat :=
  pick_by (fun c => match c with Lt => true | _ => false end).

(** The first later slot of a tape. *)
Definition first_slot_after (s : Z) (l : list T) : option Z := find_first (fun x => s <? x) (map slot l).

Definition in_window (signal_slot : Z) (next_slot : option Z) (s : Z) : bool :=
  match next_slot with
  | Some ns => if ns <=? signal_slot + MAX_FILL_WAIT_SLOTS then (s =? signal_slot) || (s =? ns) else s =? signal_slot
  | None => s =? signal_slot
  end.

Definition priced_in (signal_slot : Z) (next_slot : option Z) (t : T) : bool :=
  in_window signal_slot next_slot (slot t) && (f_zero <. fill_basis t).

Definition lag_fill_idx (trades : list T) (signal_idx : nat) (ms : Z) : option nat :=
  signal ← trades !! signal_idx;
  let signal_slot := slot signal in
  let post := drop (S signal_idx) trades in
  let next_slot := first_slot_after signal_slot post in
  let priced := priced_in signal_slot next_slot in
  if negb (existsb priced post) then None
  else
    let deadline := block_time signal + dur_milliseconds ms in
    Some (match rposition (fun t => priced t && (block_time t <=? deadline)) post with
          | Some rel => (signal_idx + 1 + rel)%nat
          | None => signal_idx
          end).

Definition is_entry_buy (t : T) : bool := is_buy t && (f_zero <. fill_basis t) && negb (is_dust (amount_sol t)).

(** The closures of [find_paper_entry_at]: the next slot that holds an entry buy, and
    the rows that qualify. *)
Definition entry_next_slot (trigger_slot : Z) (post : list T) : option Z :=
  slot <$> find_first (fun t => (trigger_slot <? slot t) && is_entry_buy t) post.

Definition entry_qualifies (trigger_slot : Z) (next_slot : option Z) (t : T) : bool :=
  ((slot t =? trigger_slot)
   || is_some_and next_slot (fun ns => (slot t =? ns) && (ns <=? trigger_slot + MAX_FILL_WAIT_SLOTS)))
  && is_entry_buy t.

Definition find_paper_entry_at (trades : list T) (target_idx : nat) (market_fill_on_empty_window : bool)
    (model : FillModel) : option PaperFill :=
  trigger ← trades !! target_idx;
  let trigger_slot := slot trigger in
  let post := drop (S target_idx) trades in
  let next_slot := entry_next_slot trigger_slot post in
  let qualifies := entry_qualifies trigger_slot next_slot in
  let at_trigger := if f_zero <. fill_basis trigger then paper_fill_from trades target_idx else None in
  match model with
  | SlotEnd =>
      match rposition (fun t => (slot t =? trigger_slot) && (f_zero <. fill_basis t)) post with
      | Some rel => paper_fill_from trades (target_idx + 1 + rel)%nat
      | None => at_trigger
      end
  | LagMs ms =>
      match lag_fill_idx trades target_idx ms with
      | Some idx => paper_fill_from trades idx
      | None => if market_fill_on_empty_window then at_trigger else None
      end
  | _ =>
      if negb (existsb qualifies post) then (if market_fill_on_empty_window then at_trigger else None)
      else
        let worst := max_by qualifies post in
        let '(run_base, run) := next_slot_run post trigger_slot next_slot in
        let in_run o := match o with Some rel => Some (run_base + rel)%nat | None => worst end in
        match model with
        | SignalPrice => paper_fill_from trades target_idx
        | _ =>
            let rel :=
              match model with
              | FirstInWindow => position_of qualifies post
              | NextSlotFirst => in_run (position_of qualifies run)
              | NextSlotMedian => in_run (adverse_median_in run qualifies true)
              | _ => worst
              end in
            rel ← rel; paper_fill_from trades (target_idx + 1 + rel)%nat
        end
  end.

Definition find_paper_exit_at (trades : list T) (fire_idx : nat) (market_fill_on_empty_window : bool)
    (model : FillModel) : option PaperFill :=
  fire ← trades !! fire_idx;
  let fire_slot := slot fire in
  let post := drop (S fire_idx) trades in
  let next_slot := first_slot_after fire_slot post in
  let priced := priced_in fire_slot next_slot in
  let worst := min_by priced post in
  let '(run_base, run) := next_slot_run post fire_slot next_slot in
  let in_run o := match o with Some rel => Some (run_base + rel)%nat | None => worst end in
  let after o := (fun rel => (fire_idx + 1 + rel)%nat) <$> o in
  let fill_idx :=
    if existsb priced post then
      match model with
      | SignalPrice | SlotEnd => if f_zero <. fill_basis fire then Some fire_idx else None
      | FirstInWindow => after (position_of priced post)
      | NextSlotFirst => after (in_run (position_of priced run))
      | NextSlotMedian => after (in_run (adverse_median_in run priced false))
      | LagMs ms => lag_fill_idx trades fire_idx ms
      | WorstCase => after worst
      end
    else None in
  match fill_idx with
  | Some idx => paper_fill_from trades idx
  | None =>
      if market_fill_on_empty_window && (f_zero <. fill_basis fire) then paper_fill_from trades fire_idx else None
  end.

Definition find_worst_case_paper_entry_at trades target_idx market_fill : option PaperFill :=
  find_paper_entry_at trades target_idx market_fill WorstCase.
Definition find_worst_case_paper_exit_at trades fire_idx market_fill : option PaperFill :=
  find_paper_exit_at trades fire_idx market_fill WorstCase.
End tape.

Definition exit_fill_window_closed (fire_slot max_slot_seen : Z) : bool := fire_slot + MAX_FILL_WAIT_SLOTS <? max_slot_seen.

(** ** What the paper fill model guarantees

    The wire codec round trip, the taken-position set shared by every fill model, the
    adverse bound of the worst case, the lag deadline and the adverse median. *)

(** ** Positions in a list *)

Section positions.
Context {A : Type}.
Implicit Types (f : A -> bool) (l : list A).

Lemma position_of_Some f l i :
  position_of f l = Some i ->
  exists x, l !! i = Some x /\ f x = true /\ forall j y, (j < i)%nat -> l !! j = Some y -> f y = false.
Proof.
  revert i. induction l as [|a l IH]; intros i; simpl; [done|]. destruct (f a) eqn:E.
  - intros [= <-]. exists a. split_and!; [done|done|lia].
  - destruct (position_of f l) as [k|]; [|done]. intros [= <-].
    destruct (IH _ eq_refl) as (x & Hx & Hf & Hj). exists x. split_and!; [done|done|].
    intros [|j] y Hlt; simpl; [by intros [= <-]|]. apply Hj. lia.
Qed.

Lemma position_of_None f l : position_of f l = None -> forall j y, l !! j = Some y -> f y = false.
Proof.
  induction l as [|a l IH]; simpl; [done|]. destruct (f a) eqn:E; [done|].
  destruct (position_of f l); [done|]. intros _ [|j] y; simpl; [by intros [= <-]|]. by apply IH.
Qed.

Lemma existsb_lookup f l : existsb f l = true <-> exists j x, l !! j = Some x /\ f x = true.
Proof.
  rewrite existsb_exists. split.
  - intros (x & Hin & Hf). apply list_elem_of_In, list_elem_of_lookup in Hin as [j Hj]. eauto.
  - intros (j & x & Hj & Hf). exists x. split; [|done]. by eapply list_elem_of_In, list_elem_of_lookup_2.
Qed.

Lemma existsb_none f l : existsb f l = false -> forall j y, l !! j = Some y -> f y = false.
Proof.
  intros H j y Hj. apply not_true_is_false. intros Hf.
  assert (existsb f l = true) by (apply existsb_lookup; eauto). congruence.
Qed.

Lemma position_of_exists f l : existsb f l = true -> is_Some (position_of f l).
Proof.
  intros (j & x & Hj & Hf)%existsb_lookup. destruct (position_of f l) eqn:E; [done|].
  pose proof (position_of_None _ _ E _ _ Hj). congruence.
Qed.

Lemma rev_reverse (B : Type) (l : list B) : rev l = reverse l.
Proof. apply List.rev_alt. Qed.

Lemma last_position_Some f l i :
  rposition f l = Some i ->
  exists x, l !! i = Some x /\ f x = true /\ forall j y, (i < j)%nat -> l !! j = Some y -> f y = false.
Proof.
  unfold rposition. destruct (position_of f (rev l)) as [k|] eqn:E; [|done]. intros [= <-].
  apply position_of_Some in E as (x & Hx & Hf & Hj).
  rewrite (rev_reverse A) in Hx, Hj.
  pose proof (lookup_lt_Some _ _ _ Hx) as Hk. rewrite length_reverse in Hk.
  rewrite reverse_lookup in Hx by lia. exists x. split_and!; [rewrite <- Hx; f_equal; lia|done|].
  intros j y Hlt Hy. pose proof (lookup_lt_Some _ _ _ Hy).
  apply (Hj (length l - 1 - j)%nat); [lia|]. rewrite reverse_lookup by lia. rewrite <- Hy. f_equal. lia.
Qed.

Lemma last_position_None f l : rposition f l = None -> forall j y, l !! j = Some y -> f y = false.
Proof.
  unfold rposition. destruct (position_of f (rev l)) eqn:E; [done|]. intros _ j y Hy.
  pose proof (lookup_lt_Some _ _ _ Hy).
  eapply (position_of_None _ _ E (length l - 1 - j)%nat). rewrite (rev_reverse A), reverse_lookup by lia.
  rewrite <- Hy. f_equal. lia.
Qed.

Lemma take_while_lookup f l j x : take_while f l !! j = Some x -> l !! j = Some x /\ f x = true.
Proof.
  revert j. induction l as [|a l IH]; intros j; simpl; [done|].
  destruct (f a) eqn:E; [|done]. destruct j as [|j]; simpl; [by intros [= <-]|]. apply IH.
Qed.
End positions.

(** ** Ranks in a strict total order *)

Section ranks.
Context {A : Type} (R : A -> A -> bool) (P : A -> Prop).
Context (R_irrefl : forall a, P a -> R a a = false).
Context (R_trans : forall a b c, P a -> P b -> P c -> R a b = true -> R b c = true -> R a c = true).
Context (R_total : forall a b, P a -> P b -> a <> b -> R a b = true \/ R b a = true).

Definition below (l : list A) (i : A) : nat := length (List.filter (fun j => R j i) l).

Lemma below_perm l l' i : l ≡ₚ l' -> below l i = below l' i.
Proof.
  unfold below. induction 1 as [|a l l' _ IH|a b l|l l' l'' _ IH1 _ IH2]; simpl; [done| | |congruence].
  - destruct (R a i); simpl; congruence.
  - by destruct (R a i), (R b i).
Qed.

Lemma below_all l i : (forall j, j ∈ l -> R j i = true) -> below l i = length l.
Proof.
  unfold below. induction l as [|a l IH]; intros Hl; simpl; [done|].
  rewrite (Hl a) by constructor. simpl. rewrite IH; [done|]. intros j Hj. apply Hl. by constructor.
Qed.

Lemma has_max l : l <> [] -> Forall P l -> NoDup l ->
  exists m l', l ≡ₚ m :: l' /\ forall j, j ∈ l' -> R j m = true.
Proof.
  induction l as [|a l IH]; [done|]. intros _ [Ha Hl]%Forall_cons [Hnin Hnd]%NoDup_cons.
  destruct l as [|b l]; [exists a, []; split; [done|by intros j ?%not_elem_of_nil]|].
  destruct IH as (m & l' & Hp & Hm); [done..|].
  assert (Hin : m ∈ b :: l) by (rewrite Hp; constructor).
  assert (HPm : P m) by (rewrite Forall_forall in Hl; auto).
  destruct (R_total a m Ha HPm) as [E|E]; [congruence| |].
  - exists m, (a :: l'). split; [rewrite Hp; constructor|]. intros j [->|?]%elem_of_cons; auto.
  - exists a, (m :: l'). split; [by rewrite Hp|]. intros j [->|Hj]%elem_of_cons; [done|].
    assert (j ∈ b :: l) by (rewrite Hp; by constructor).
    apply (R_trans _ m); try done; [|auto]. rewrite Forall_forall in Hl; auto.
Qed.

Lemma rank_exists l k : Forall P l -> NoDup l -> (k < length l)%nat -> exists i, i ∈ l /\ below l i = k.
Proof.
  remember (length l) as n eqn:Hn. revert l Hn. induction n as [|n IH]; intros l Hn Hl Hnd Hk; [lia|].
  destruct (has_max l) as (m & l' & Hp & Hm); [by destruct l|done|done|].
  assert (Hl' : Forall P (m :: l')) by by rewrite <- Hp. apply Forall_cons in Hl' as [HPm Hl'].
  assert (Hnd' : NoDup (m :: l')) by by rewrite <- Hp. apply NoDup_cons in Hnd' as [_ Hnd'].
  assert (Hlen : n = length l') by (apply Permutation_length in Hp; simpl in Hp; lia).
  destruct (decide (k = n)) as [->|Hne].
  - exists m. split; [rewrite Hp; constructor|]. rewrite (below_perm _ _ _ Hp). unfold below. simpl.
    rewrite R_irrefl by done. rewrite Hlen. by apply below_all.
  - destruct (IH l' Hlen Hl' Hnd' ltac:(lia)) as (i & Hi & Hb). exists i.
    split; [rewrite Hp; by constructor|]. rewrite (below_perm _ _ _ Hp). unfold below in *. simpl.
    destruct (R m i) eqn:E; [|done]. assert (P i) by (rewrite Forall_forall in Hl'; auto).
    pose proof (R_trans m i m HPm ltac:(done) HPm E (Hm i Hi)) as C. by rewrite R_irrefl in C.
Qed.
End ranks.

(** ** The wire codec *)

(** Every fill model survives the wire: the name [as_str] writes, a lag in
    milliseconds included, is parsed back to the same model, for every value the
    32-bit lag can take. *)
Theorem fill_models_round_trip m :
  (forall ms, lag_ms m = Some ms -> 0 <= ms <= u32_max) -> parse (as_str m) = Some m.
Proof.
  destruct m as [| | | | | |ms]; try (intros _; vm_compute; reflexivity).
  intros H. specialize (H ms eq_refl). unfold parse, as_str.
  rewrite trim_tight; [by rewrite strip_prefix_app, parse_uint_pretty|].
  apply plain_tight; [done|]. rewrite chars_app. apply Forall_app. split; [repeat constructor|].
  eapply Forall_impl; [apply pretty_digits; lia|]. apply digit_plain.
Qed.

Lemma fill_models_round_trip_witness :
  parse (as_str (LagMs 4294967295)) = Some (LagMs 4294967295).
Proof. apply fill_models_round_trip. intros ms [= <-]. vm_compute. split; congruence. Defined.

(** ** Picks by price *)

Section tape.
Context {T : Type} `{TradeRow T}.
Implicit Types (t : T) (l post run trades : list T).

Definition priced t : Prop := (f_zero <. fill_basis t) = true.

Lemma priced_nan t : priced t -> is_nan (fill_basis t) = false.
Proof. unfold priced. intros Hp. by apply flt_key in Hp as (_ & ? & _). Qed.

(** On prices above zero [total_cmp] is the comparison of the floats. *)
Lemma total_cmp_priced t u : priced t -> priced u ->
  match total_cmp (fill_basis t) (fill_basis u) with
  | Lt => klt (fkey (fill_basis t)) (fkey (fill_basis u))
  | Eq => keq (fkey (fill_basis t)) (fkey (fill_basis u))
  | Gt => klt (fkey (fill_basis u)) (fkey (fill_basis t))
  end.
Proof.
  intros Ht Hu. pose proof (SFcompare_spec _ _ (priced_nan _ Ht) (priced_nan _ Hu)) as E.
  unfold total_cmp. unfold priced in Ht, Hu. revert Ht Hu E.
  generalize (fill_basis t) as x, (fill_basis u) as y. intros x y Ht Hu E.
  destruct (SFcompare x y) as [[]|]; try done. destruct x as [[]|[]| |], y as [[]|[]| |]; try exact E; try discriminate Ht; try discriminate Hu.
Qed.

Section pick.
Context (keep : comparison -> bool) (R : f64 -> f64 -> Prop) (f : T -> bool).
Context (R_refl : forall t, priced t -> R (fill_basis t) (fill_basis t)).
Context (R_trans : forall x y z, R x y -> R y z -> R x z).
Context (keep_R : forall t u, priced t -> priced u ->
  if keep (total_cmp (fill_basis t) (fill_basis u)) then R (fill_basis u) (fill_basis t)
  else R (fill_basis t) (fill_basis u)).
Context (f_priced : forall t, f t = true -> priced t).

Lemma fold_better ps acc :
  Forall (fun p : nat * T => priced p.2) ps -> (forall a, acc = Some a -> priced a.2) ->
  match foldl (better keep) acc ps with
  | Some r => (acc = Some r \/ r ∈ ps) /\ priced r.2 /\
      (forall a, acc = Some a -> R (fill_basis a.2) (fill_basis r.2)) /\
      (forall p, p ∈ ps -> R (fill_basis p.2) (fill_basis r.2))
  | None => acc = None /\ ps = []
  end.
Proof.
  revert acc. induction ps as [|p ps IH]; intros acc Hps Hacc; simpl.
  { destruct acc as [a|]; [|done]. specialize (Hacc a eq_refl).
    split_and!; [auto|done|intros ? [= <-]; auto|intros ? ?%not_elem_of_nil; done]. }
  apply Forall_cons in Hps as [Hp Hps]. unfold better at 2. destruct acc as [a|].
  - specialize (Hacc a eq_refl). pose proof (keep_R p.2 a.2 Hp Hacc) as Hk.
    destruct (keep _); [specialize (IH (Some p))|specialize (IH (Some a))];
      destruct (foldl (better keep) _ ps) as [r|];
      (destruct IH as (Hin & Hr & Ha & Hall) || destruct IH as [? _]); try done; try (by intros ? [= <-]).
    + specialize (Ha p eq_refl). split_and!; [|done|intros ? [= <-]; eauto|].
      * right. apply elem_of_cons. destruct Hin as [[= ->]|?]; auto.
      * intros q [->|?]%elem_of_cons; auto.
    + specialize (Ha a eq_refl). split_and!; [|done|intros ? [= <-]; eauto|].
      * destruct Hin as [?|?]; [auto|right; by apply elem_of_cons; right].
      * intros q [->|?]%elem_of_cons; eauto.
  - specialize (IH (Some p)). destruct (foldl (better keep) _ ps) as [r|];
      (destruct IH as (Hin & Hr & Ha & Hall) || destruct IH as [? _]); try done; try (by intros ? [= <-]).
    split_and!; [|done|done|].
    + right. apply elem_of_cons. destruct Hin as [[= ->]|?]; auto.
    + intros q [->|?]%elem_of_cons; auto.
Qed.

Lemma elem_of_imap_pair l (p : nat * T) : p ∈ imap pair l <-> l !! p.1 = Some p.2.
Proof.
  destruct p as [i x]. rewrite list_elem_of_lookup. setoid_rewrite list_lookup_imap. simpl. split.
  - intros (j & Hj). destruct (l !! j) eqn:E; simplify_eq/=. done.
  - intros Hi. exists i. by rewrite Hi.
Qed.

Lemma elem_of_candidates l (p : nat * T) :
  p ∈ List.filter (fun p => f p.2) (imap pair l) <-> l !! p.1 = Some p.2 /\ f p.2 = true.
Proof. by rewrite list_elem_of_In, filter_In, <- list_elem_of_In, elem_of_imap_pair. Qed.

(** The pick satisfies the predicate and dominates every row that does. *)
Lemma pick_by_Some l i : pick_by keep f l = Some i ->
  exists x, l !! i = Some x /\ f x = true /\
    forall j y, l !! j = Some y -> f y = true -> R (fill_basis y) (fill_basis x).
Proof.
  unfold pick_by. intros ([k r] & Hr & ->)%fmap_Some. set (ps := List.filter _ _) in Hr.
  assert (Hps : Forall (fun p : nat * T => priced p.2) ps).
  { apply Forall_forall. intros p [_ Hf]%elem_of_candidates. auto. }
  pose proof (fold_better ps None Hps ltac:(done)) as HF. rewrite Hr in HF.
  destruct HF as ([?|Hin] & _ & _ & Hall); [done|].
  apply elem_of_candidates in Hin as [Hk Hf]. exists r. split_and!; [done|done|].
  intros j y Hj Hy. apply (Hall (j, y)). by apply elem_of_candidates.
Qed.

Lemma pick_by_exists l : existsb f l = true -> is_Some (pick_by keep f l).
Proof.
  intros (j & x & Hj & Hf)%existsb_lookup. unfold pick_by. rewrite fmap_is_Some.
  set (ps := List.filter _ _). assert (Hps : Forall (fun p : nat * T => priced p.2) ps).
  { apply Forall_forall. intros p [_ Hfp]%elem_of_candidates. auto. }
  pose proof (fold_better ps None Hps ltac:(done)) as HF. destruct (foldl _ _ _); [done|].
  destruct HF as [_ Hnil]. assert (Hin : (j, x) ∈ ps) by by apply elem_of_candidates.
  rewrite Hnil in Hin. by apply not_elem_of_nil in Hin.
Qed.
End pick.

Definition keep_last (c : comparison) : bool := match c with Lt => false | _ => true end.
Definition keep_first (c : comparison) : bool := match c with Lt => true | _ => false end.

Lemma keep_last_le t u : priced t -> priced u ->
  if keep_last (total_cmp (fill_basis t) (fill_basis u)) then (fill_basis u <=. fill_basis t) = true
  else (fill_basis t <=. fill_basis u) = true.
Proof.
  intros Ht Hu. pose proof (total_cmp_priced t u Ht Hu) as Hc.
  pose proof (priced_nan _ Ht). pose proof (priced_nan _ Hu). destruct (total_cmp _ _); simpl; forder.
Qed.

Lemma keep_first_le t u : priced t -> priced u ->
  if keep_first (total_cmp (fill_basis t) (fill_basis u)) then (fill_basis t <=. fill_basis u) = true
  else (fill_basis u <=. fill_basis t) = true.
Proof.
  intros Ht Hu. pose proof (total_cmp_priced t u Ht Hu) as Hc.
  pose proof (priced_nan _ Ht). pose proof (priced_nan _ Hu). destruct (total_cmp _ _); simpl; forder.
Qed.

Lemma fle_priced t : priced t -> (fill_basis t <=. fill_basis t) = true.
Proof. intros. by apply fle_refl, priced_nan. Qed.

Lemma max_by_Some f l i : (forall t, f t = true -> priced t) -> max_by f l = Some i ->
  exists x, l !! i = Some x /\ f x = true /\
    forall j y, l !! j = Some y -> f y = true -> (fill_basis y <=. fill_basis x) = true.
Proof.
  intros Hf. apply (pick_by_Some keep_last (fun x y => (x <=. y) = true) f);
    first [exact keep_last_le | eauto using fle_priced, fle_trans].
Qed.

Lemma min_by_Some f l i : (forall t, f t = true -> priced t) -> min_by f l = Some i ->
  exists x, l !! i = Some x /\ f x = true /\
    forall j y, l !! j = Some y -> f y = true -> (fill_basis x <=. fill_basis y) = true.
Proof.
  intros Hf. apply (pick_by_Some keep_first (fun x y => (y <=. x) = true) f); first [exact keep_first_le | eauto using fle_priced, fle_trans].
Qed.

Lemma max_by_exists f l : (forall t, f t = true -> priced t) -> existsb f l = true -> is_Some (max_by f l).
Proof.
  intros Hf. apply (pick_by_exists keep_last (fun x y => (x <=. y) = true) f);
    first [exact keep_last_le | eauto using fle_priced, fle_trans].
Qed.

Lemma min_by_exists f l : (forall t, f t = true -> priced t) -> existsb f l = true -> is_Some (min_by f l).
Proof.
  intros Hf. apply (pick_by_exists keep_first (fun x y => (y <=. x) = true) f); first [exact keep_first_le | eauto using fle_priced, fle_trans].
Qed.

(** ** Picks in the window *)

(** A pick is the offset of a row that qualifies. *)
Definition Pick (q : T -> bool) post (o : option nat) : Prop :=
  exists rel x, o = Some rel /\ post !! rel = Some x /\ q x = true.

Lemma pick_first q post : existsb q post = true -> Pick q post (position_of q post).
Proof.
  intros [rel Hrel]%position_of_exists. pose proof (position_of_Some _ _ _ Hrel) as (x & Hx & Hq & _).
  by exists rel, x.
Qed.

Lemma pick_max q post : (forall t, q t = true -> priced t) -> existsb q post = true -> Pick q post (max_by q post).
Proof.
  intros Hq [rel Hrel]%max_by_exists; [|done].
  pose proof (max_by_Some _ _ _ Hq Hrel) as (x & Hx & Hqx & _). by exists rel, x.
Qed.

Lemma pick_min q post : (forall t, q t = true -> priced t) -> existsb q post = true -> Pick q post (min_by q post).
Proof.
  intros Hq [rel Hrel]%min_by_exists; [|done].
  pose proof (min_by_Some _ _ _ Hq Hrel) as (x & Hx & Hqx & _). by exists rel, x.
Qed.

Lemma next_slot_run_lookup post s ns b run j x :
  next_slot_run post s ns = (b, run) -> run !! j = Some x -> post !! (b + j)%nat = Some x /\ ns = Some (slot x).
Proof.
  unfold next_slot_run. destruct ns as [n|]; [|by intros [= <- <-]].
  destruct (n <=? _); [|by intros [= <- <-]]. destruct (position_of _ _) as [st|]; [|by intros [= <- <-]].
  intros [= <- <-] Hj. apply take_while_lookup in Hj as [Hj Hn]. rewrite lookup_drop in Hj.
  apply Z.eqb_eq in Hn. by subst.
Qed.

Lemma adverse_median_Some q run high i :
  adverse_median_in run q high = Some i -> exists x, run !! i = Some x /\ q x = true.
Proof.
  unfold adverse_median_in. destruct (_ =? 0)%nat; [done|].
  intros [_ Hq]%find_first_Some. apply andb_prop in Hq as [Hq _].
  unfold qualifies_at, is_some_and in Hq. destruct (run !! i) as [x|]; [eauto|done].
Qed.

(** A pick of the next slot's run, the worst pick of the window when there is none. *)
Lemma pick_run q post s ns b run o worst :
  next_slot_run post s ns = (b, run) -> Pick q post worst ->
  (forall rel, o = Some rel -> exists x, run !! rel = Some x /\ q x = true) ->
  Pick q post (match o with Some rel => Some (b + rel)%nat | None => worst end).
Proof.
  intros Hrun Hw Ho. destruct o as [rel|]; [|done]. destruct (Ho rel eq_refl) as (x & Hx & Hq).
  exists (b + rel)%nat, x. split_and!; [done|by eapply next_slot_run_lookup|done].
Qed.

Lemma position_run q run rel : position_of q run = Some rel -> exists x, run !! rel = Some x /\ q x = true.
Proof. intros (x & Hx & Hq & _)%position_of_Some. eauto. Qed.

Hint Resolve pick_first pick_max pick_min pick_run adverse_median_Some position_run : core.

Lemma entry_qualifies_spec s post t :
  entry_qualifies s (entry_next_slot s post) t = true ->
  priced t /\ s <= slot t <= s + MAX_FILL_WAIT_SLOTS.
Proof.
  unfold entry_qualifies, is_entry_buy, entry_next_slot, MAX_FILL_WAIT_SLOTS.
  rewrite !andb_true_iff, orb_true_iff. intros [Hs ((_ & Hp) & _)]. split; [exact Hp|].
  destruct Hs as [Hs|Hs]; [lia|]. destruct (find_first _ _) as [u|] eqn:Hu; [|done].
  apply find_first_Some in Hu as [_ Hu]. simpl in Hs. lia.
Qed.

Lemma priced_in_spec s post t :
  priced_in s (first_slot_after s post) t = true -> priced t /\ s <= slot t <= s + MAX_FILL_WAIT_SLOTS.
Proof.
  unfold priced_in, in_window, first_slot_after, MAX_FILL_WAIT_SLOTS. intros [Hs Hp]%andb_prop.
  split; [exact Hp|]. destruct (find_first _ _) as [n|] eqn:Hn; [|lia].
  apply find_first_Some in Hn as [_ Hn]. destruct (n <=? _) eqn:?; lia.
Qed.
(** ** The two legs *)

(** A fill of [find_paper_*_at]: a priced row of the window, no earlier than the signal. *)
Definition fills_in_window trades i t (o : option PaperFill) : Prop :=
  exists f u, o = Some f /\ trades !! trade_idx f = Some u /\ f = paper_fill_of (trade_idx f) u /\
    (i <= trade_idx f)%nat /\ priced u /\ slot t <= slot u <= slot t + MAX_FILL_WAIT_SLOTS.

Lemma signal_fills trades i t : trades !! i = Some t -> priced t ->
  fills_in_window trades i t (paper_fill_from trades i).
Proof.
  intros Hi Hp. exists (paper_fill_of i t), t. unfold paper_fill_from, MAX_FILL_WAIT_SLOTS. rewrite Hi.
  split_and!; simpl; (done || lia).
Qed.

Lemma post_fills trades i t rel x :
  drop (S i) trades !! rel = Some x -> priced x -> slot t <= slot x <= slot t + MAX_FILL_WAIT_SLOTS ->
  fills_in_window trades i t (paper_fill_from trades (i + 1 + rel)%nat).
Proof.
  rewrite lookup_drop. intros Hx Hp Hs. exists (paper_fill_of (i + 1 + rel)%nat x), x.
  unfold paper_fill_from. replace (i + 1 + rel)%nat with (S i + rel)%nat by lia. rewrite Hx.
  split_and!; simpl; (done || lia).
Qed.

Lemma pick_fills trades i t q o :
  (forall x, q x = true -> priced x /\ slot t <= slot x <= slot t + MAX_FILL_WAIT_SLOTS) ->
  Pick q (drop (S i) trades) o ->
  fills_in_window trades i t (rel ← o; paper_fill_from trades (i + 1 + rel)%nat).
Proof.
  intros Hq (rel & x & -> & Hx & Hqx). destruct (Hq x Hqx) as [Hp Hs]. by apply (post_fills _ _ _ rel x).
Qed.

Lemma lag_fills trades i t ms : trades !! i = Some t -> priced t ->
  forall idx, lag_fill_idx trades i ms = Some idx -> fills_in_window trades i t (paper_fill_from trades idx).
Proof.
  intros Hi Hp idx. unfold lag_fill_idx. rewrite Hi. simpl. destruct (negb _); [done|].
  destruct (rposition _ _) as [rel|] eqn:Hr; intros [= <-]; [|by apply signal_fills].
  apply last_position_Some in Hr as (x & Hx & Hq & _). apply andb_prop in Hq as [Hq _].
  apply priced_in_spec in Hq as [? ?]. by apply (post_fills _ _ _ rel x).
Qed.

Hint Resolve signal_fills : core.

(** With the analysis fallback on, a signal at a priced print is always filled, on
    both legs and under every fill model: at a priced print at or after the signal, in
    the signal's slot or at most three slots later.  So the set of positions taken is
    the same under every model. *)
Theorem priced_signals_always_fill trades i t model :
  trades !! i = Some t -> priced t ->
  fills_in_window trades i t (find_paper_entry_at trades i true model) /\
  fills_in_window trades i t (find_paper_exit_at trades i true model).
Proof.
  intros Hi Hp. unfold find_paper_entry_at, find_paper_exit_at. rewrite Hi. simpl.
  rewrite Hp. set (post := drop (S i) trades). set (ns := first_slot_after _ _).
  set (q := entry_qualifies _ _). pose proof (entry_qualifies_spec (slot t) post) as Hq.
  pose proof (priced_in_spec (slot t) post) as Hq'. fold ns q in Hq, Hq'.
  set (q' := priced_in (slot t) ns) in *.
  split.
  - destruct model as [| | | | | |ms]; try (destruct (existsb q post) eqn:Hex; simpl; [|by auto]);
      try (destruct (next_slot_run _ _ _) as [b run] eqn:Hrun; simpl).
    5: by auto.
    5: { destruct (rposition _ post) as [rel|] eqn:Hr; [|by auto].
         apply last_position_Some in Hr as (x & Hx & Hs & _). apply andb_prop in Hs as [Hs Hpx].
         apply (post_fills _ _ _ rel x); [done|exact Hpx|]. unfold MAX_FILL_WAIT_SLOTS. lia. }
    5: { destruct (lag_fill_idx _ _ _) eqn:Hl; [|by auto]. by eapply lag_fills. }
    all: apply (pick_fills _ _ _ q); [exact Hq|].
    all: assert (Pick q post (max_by q post)) by (apply pick_max; [apply Hq|done]).
    all: first [done | by apply pick_first | eapply pick_run; eauto].
  - destruct (next_slot_run _ _ _) as [b run] eqn:Hrun.
    destruct (existsb q' post) eqn:Hex; [|by auto].
    assert (Pick q' post (min_by q' post)) as Hmin by (apply pick_min; [apply Hq'|done]).
    assert (forall o, Pick q' post o ->
      fills_in_window trades i t
        match (fun rel => (i + 1 + rel)%nat) <$> o with
        | Some idx => paper_fill_from trades idx
        | None => paper_fill_from trades i
        end) as Hpick.
    { intros o (rel & x & -> & Hx & Hqx). simpl. destruct (Hq' x Hqx). by eapply post_fills. }
    destruct model as [| | | | | |ms]; simpl; auto; try (apply Hpick; eapply pick_run; eauto).
    destruct (lag_fill_idx _ _ _) eqn:Hl; [|by auto]. by eapply lag_fills.
Qed.
(** The models that reprice the window of a leg. *)
Definition reprices (m : FillModel) : bool :=
  match m with WorstCase | FirstInWindow | NextSlotFirst | NextSlotMedian => true | _ => false end.

(** [o] and [w] are both absent, or both fills and related by [R]. *)
Definition fills_related (R : f64 -> f64 -> Prop) (o w : option PaperFill) : Prop :=
  match o, w with Some f, Some g => R (f_price f) (f_price g) | None, None => True | _, _ => False end.

Lemma related_refl (R : f64 -> f64 -> Prop) trades i t :
  trades !! i = Some t -> R (fill_basis t) (fill_basis t) ->
  fills_related R (paper_fill_from trades i) (paper_fill_from trades i).
Proof. intros Hi HR. unfold paper_fill_from. by rewrite Hi. Qed.

Lemma picks_related R trades i q o k :
  Pick q (drop (S i) trades) o -> Pick q (drop (S i) trades) (Some k) ->
  (forall w j y, drop (S i) trades !! k = Some w -> drop (S i) trades !! j = Some y -> q y = true ->
     R (fill_basis y) (fill_basis w)) ->
  fills_related R (rel ← o; paper_fill_from trades (i + 1 + rel)%nat) (paper_fill_from trades (i + 1 + k)%nat).
Proof.
  intros (rel & x & -> & Hx & Hq) (? & w & [= <-] & Hw & _) HR. specialize (HR w rel x Hw Hx Hq).
  rewrite lookup_drop in Hx, Hw. unfold paper_fill_from. simpl.
  replace (i + 1 + rel)%nat with (S i + rel)%nat by lia. replace (i + 1 + k)%nat with (S i + k)%nat by lia.
  by rewrite Hx, Hw.
Qed.

Lemma entry_worst trades i b model : reprices model = true ->
  fills_related (fun x w => (x <=. w) = true)
    (find_paper_entry_at trades i b model) (find_paper_entry_at trades i b WorstCase).
Proof.
  intros Hm. unfold find_paper_entry_at. destruct (trades !! i) as [t|] eqn:Hi; simpl; [|done].
  set (post := drop (S i) trades). set (q := entry_qualifies _ _).
  assert (Hq : forall x, q x = true -> priced x) by (intros x Hx; eapply entry_qualifies_spec, Hx).
  destruct (existsb q post) eqn:Hex; simpl.
  - destruct (next_slot_run _ _ _) as [o run] eqn:Hrun.
    assert (Pick q post (max_by q post)) as Hmax by (apply pick_max; done).
    destruct (max_by q post) as [k|] eqn:Hk; [|destruct Hmax as (? & ? & ? & _); done].
    assert (forall r, Pick q post r ->
      fills_related (fun x w => (x <=. w) = true) (rel ← r; paper_fill_from trades (i + 1 + rel)%nat)
        (paper_fill_from trades (i + 1 + k)%nat)) as HP.
    { intros r Hr. eapply (picks_related _ _ _ q); [exact Hr|exact Hmax|]. intros w j y Hw Hj Hy.
      apply max_by_Some in Hk as (w' & Hw' & _ & Hall); [|done]. fold post in Hw, Hj. simplify_eq. eauto. }
    destruct model; try done; simpl; first [exact (HP (Some k) Hmax) | apply HP; eauto; eapply pick_run; eauto].
  - assert (fills_related (fun x w => (x <=. w) = true)
      (if b then if f_zero <. fill_basis t then paper_fill_from trades i else None else None)
      (if b then if f_zero <. fill_basis t then paper_fill_from trades i else None else None)) as HF.
    { destruct b; [|done]. destruct (f_zero <. fill_basis t) eqn:Hp; [|done].
      eapply related_refl; [done|]. by apply fle_priced. }
    by destruct model.
Qed.

Lemma exit_worst trades i b model : reprices model = true ->
  fills_related (fun x w => (w <=. x) = true)
    (find_paper_exit_at trades i b model) (find_paper_exit_at trades i b WorstCase).
Proof.
  intros Hm. unfold find_paper_exit_at. destruct (trades !! i) as [t|] eqn:Hi; simpl; [|done].
  set (post := drop (S i) trades). set (ns := first_slot_after _ _). set (q := priced_in _ _).
  assert (Hq : forall x, q x = true -> priced x) by (intros x Hx; eapply priced_in_spec, Hx).
  destruct (next_slot_run _ _ _) as [o run] eqn:Hrun. destruct (existsb q post) eqn:Hex.
  - assert (Pick q post (min_by q post)) as Hmin by (apply pick_min; done).
    destruct (min_by q post) as [k|] eqn:Hk; [|destruct Hmin as (? & ? & ? & _); done].
    assert (forall r, Pick q post r ->
      fills_related (fun x w => (w <=. x) = true)
        match (fun rel => (i + 1 + rel)%nat) <$> r with
        | Some idx => paper_fill_from trades idx
        | None => if b && (f_zero <. fill_basis t) then paper_fill_from trades i else None
        end (paper_fill_from trades (i + 1 + k)%nat)) as HP.
    { intros r Hr. pose proof Hr as (rel & x & -> & _). simpl.
      eapply (picks_related _ _ _ q (Some rel)); [exact Hr|exact Hmin|]. intros w j y Hw Hj Hy.
      apply min_by_Some in Hk as (w' & Hw' & _ & Hall); [|done]. fold post in Hw, Hj. simplify_eq. eauto. }
    destruct model; try done; first [exact (HP (Some k) Hmin) | apply HP; eauto; eapply pick_run; eauto].
  - destruct (b && _) eqn:Hp; [|done]. apply andb_prop in Hp as [_ Hp].
    eapply related_refl; [done|]. by apply fle_priced.
Qed.

(** The worst case really is the adverse bound of the window: whatever the tape and
    the signal, each model that reprices the window fills when the worst case does, at
    an entry price no higher and an exit price no lower than the worst case's. *)
Theorem worst_case_is_adverse trades i b model :
  reprices model = true ->
  fills_related (fun x w => (x <=. w) = true)
    (find_paper_entry_at trades i b model) (find_worst_case_paper_entry_at trades i b) /\
  fills_related (fun x w => (w <=. x) = true)
    (find_paper_exit_at trades i b model) (find_worst_case_paper_exit_at trades i b).
Proof. intros Hm. split; [by apply entry_worst|by apply exit_worst]. Qed.

(** The lagged fill never reaches past its deadline.  When the window holds a priced
    print, the pick is the last priced print of the window stamped at or before the
    signal plus the lag, or the signal itself when there is none; both legs use it. *)
Theorem lag_fill_is_the_state_at_the_deadline trades i t ms :
  trades !! i = Some t ->
  let q := priced_in (slot t) (first_slot_after (slot t) (drop (S i) trades)) in
  let deadline := block_time t + dur_milliseconds ms in
  match lag_fill_idx trades i ms with
  | None => forall j u, (i < j)%nat -> trades !! j = Some u -> q u = false
  | Some k =>
      (k = i \/ (i < k)%nat /\ exists u, trades !! k = Some u /\ q u = true /\ block_time u <= deadline) /\
      (forall j u, (k < j)%nat -> trades !! j = Some u -> q u = true -> deadline < block_time u) /\
      find_paper_exit_at trades i true (LagMs ms) = paper_fill_from trades k /\
      find_paper_entry_at trades i true (LagMs ms) = paper_fill_from trades k
  end.
Proof.
  intros Hi q deadline. unfold find_paper_exit_at, find_paper_entry_at. rewrite Hi.
  destruct (lag_fill_idx trades i ms) as [k|] eqn:Hl; unfold lag_fill_idx in Hl; rewrite Hi in Hl;
    simpl in Hl |- *; fold q in Hl |- *;
    (destruct (existsb q (drop (S i) trades)) eqn:Hex; simpl in Hl; [|try done]); try done.
  - destruct (next_slot_run _ _ _) as [b run]. injection Hl as Hl. split_and!; try done.
    + destruct (rposition _ _) as [rel|] eqn:Hr; [|by left]. right.
      apply last_position_Some in Hr as (u & Hu & Hs & _). rewrite lookup_drop in Hu.
      apply andb_prop in Hs as [Hs Hd]. split; [lia|]. exists u. subst k.
      replace (i + 1 + rel)%nat with (S i + rel)%nat by lia. split_and!; [done|done|unfold deadline; lia].
    + intros j u Hj Hu Hqu. apply Z.nle_gt. intros Hle.
      assert (i <= k)%nat by (destruct (rposition _ _); lia).
      assert (Hu' : drop (S i) trades !! (j - S i)%nat = Some u).
      { rewrite lookup_drop. rewrite <- Hu. f_equal. lia. }
      assert (Hsat : q u && (block_time u <=? block_time t + dur_milliseconds ms) = true).
      { rewrite Hqu. unfold deadline in Hle. simpl. lia. }
      destruct (rposition _ _) as [rel|] eqn:Hr.
      * apply last_position_Some in Hr as (? & _ & _ & Hall). specialize (Hall (j - S i)%nat u ltac:(lia) Hu').
        simpl in Hall. congruence.
      * pose proof (last_position_None _ _ Hr _ _ Hu') as Hn. simpl in Hn. congruence.
  - intros j u Hj Hu. apply (existsb_none _ _ Hex (j - S i)%nat). rewrite lookup_drop, <- Hu. f_equal. lia.
Qed.
(** ** The adverse median *)

Lemma before_cases run j i x y : run !! j = Some x -> run !! i = Some y -> priced x -> priced y ->
  before run j i = true <->
  klt (fkey (fill_basis x)) (fkey (fill_basis y)) \/
  keq (fkey (fill_basis x)) (fkey (fill_basis y)) /\ (j < i)%nat.
Proof.
  intros Hj Hi Hx Hy. unfold before. rewrite Hj, Hi. pose proof (total_cmp_priced x y Hx Hy) as Hc.
  destruct (total_cmp _ _); unfold klt, keq in *; [rewrite Nat.ltb_lt; lia|split; [lia|done]|split; [done|lia]].
Qed.

(** Counting the offsets of a list is counting its rows. *)
Lemma count_offsets (g : T -> bool) run :
  length (List.filter (fun j => is_some_and (run !! j) g) (seq 0 (length run))) = length (List.filter g run).
Proof.
  induction run as [|x run IH]; [done|]. cbn [length seq List.filter].
  assert (E : length (List.filter (fun j => is_some_and ((x :: run) !! j) g) (seq 1 (length run)))
              = length (List.filter g run)).
  { rewrite <- IH, <- seq_shift. generalize (seq 0 (length run)) as js. intros js.
    induction js as [|j js IHj]; [done|]. simpl. unfold is_some_and in *.
    change ((x :: run) !! S j) with (run !! j). case_match; [case_match|]; simpl; congruence. }
  simpl. destruct (g x); simpl; congruence.
Qed.

Lemma filter_length_mono {A} (g h : A -> bool) (l : list A) :
  (forall a, a ∈ l -> g a = true -> h a = true) -> (length (List.filter g l) <= length (List.filter h l))%nat.
Proof.
  induction l as [|a l IH]; intros Hgh; simpl; [lia|].
  assert (Hl : (length (List.filter g l) <= length (List.filter h l))%nat).
  { apply IH. intros b Hb. apply Hgh. by constructor. }
  specialize (Hgh a ltac:(constructor)). destruct (g a); [rewrite Hgh by done; simpl; lia|].
  destruct (h a); simpl; lia.
Qed.

Lemma filter_length_lt {A} (g h : A -> bool) (l : list A) a :
  (forall b, b ∈ l -> g b = true -> h b = true) -> a ∈ l -> g a = false -> h a = true ->
  (length (List.filter g l) < length (List.filter h l))%nat.
Proof.
  intros Hgh Hin Hg Hh. induction l as [|b l IH]; [by apply not_elem_of_nil in Hin|]. simpl.
  pose proof (filter_length_mono g h l ltac:(intros c Hc; apply Hgh; by constructor)) as Hle.
  apply elem_of_cons in Hin as [<-|Hin]; [rewrite Hg, Hh; simpl; lia|].
  specialize (IH ltac:(intros c Hc; apply Hgh; by constructor) Hin).
  specialize (Hgh b ltac:(constructor)). destruct (g b); [rewrite Hgh by done|destruct (h b)]; simpl; lia.
Qed.

Lemma filter_both {A} (g h : A -> bool) (l : list A) :
  List.filter g (List.filter h l) = List.filter (fun a => h a && g a) l.
Proof. induction l as [|a l IH]; simpl; [done|]. destruct (h a); simpl; [destruct (g a)|]; congruence. Qed.

Section median.
Context (run : list T) (q : T -> bool).
Context (q_priced : forall t, q t = true -> priced t).

Definition offsets : list nat := List.filter (qualifies_at run q) (seq 0 (length run)).
Definition qualifying (j : nat) : Prop := exists x, run !! j = Some x /\ q x = true.

Lemma qualifies_at_spec j : qualifies_at run q j = true <-> qualifying j.
Proof.
  unfold qualifies_at, qualifying, is_some_and. split.
  - destruct (run !! j); [eauto|done].
  - by intros (x & -> & Hq).
Qed.

Lemma rank_below i : rank run q i = below (before run) offsets i.
Proof. unfold rank, below, offsets. by rewrite filter_both. Qed.

Lemma offsets_length : length offsets = length (List.filter q run).
Proof. apply count_offsets. Qed.

Lemma elem_of_offsets j : j ∈ offsets <-> qualifying j.
Proof.
  unfold offsets. rewrite list_elem_of_In, filter_In, qualifies_at_spec, in_seq. split; [tauto|].
  intros (x & Hx & Hq). split; [|by exists x]. apply lookup_lt_Some in Hx. lia.
Qed.

Lemma before_irrefl j : qualifying j -> before run j j = false.
Proof.
  intros (x & Hx & Hq). apply not_true_is_false. rewrite (before_cases _ _ _ x x) by auto.
  unfold klt, keq. lia.
Qed.

Lemma before_trans a b c : qualifying a -> qualifying b -> qualifying c ->
  before run a b = true -> before run b c = true -> before run a c = true.
Proof.
  intros (x & Hx & ?) (y & Hy & ?) (z & Hz & ?).
  rewrite (before_cases _ _ _ x y), (before_cases _ _ _ y z), (before_cases _ _ _ x z) by auto.
  unfold klt, keq. lia.
Qed.

Lemma before_total a b : qualifying a -> qualifying b -> a <> b -> before run a b = true \/ before run b a = true.
Proof.
  intros (x & Hx & ?) (y & Hy & ?) Hne.
  rewrite (before_cases _ _ _ x y), (before_cases _ _ _ y x) by auto. unfold klt, keq. lia.
Qed.

Lemma rank_reached k : (k < length (List.filter q run))%nat ->
  exists i, qualifies_at run q i && (rank run q i =? k)%nat = true /\ (i < length run)%nat.
Proof.
  intros Hk. rewrite <- offsets_length in Hk.
  destruct (rank_exists (before run) qualifying before_irrefl before_trans before_total offsets k)
    as (i & Hi & Hb).
  - apply Forall_forall. intros j. apply elem_of_offsets.
  - apply NoDup_ListNoDup, List.NoDup_filter, seq_NoDup.
  - done.
  - apply elem_of_offsets in Hi. exists i. split.
    + apply andb_true_intro. split; [by apply qualifies_at_spec|]. rewrite rank_below, Hb. apply Nat.eqb_refl.
    + destruct Hi as (x & Hx & _). by apply lookup_lt_Some in Hx.
Qed.

Lemma rank_counts i x : run !! i = Some x -> q x = true ->
  (length (List.filter (fun t => q t && (fill_basis t <. fill_basis x)) run) <= rank run q i)%nat /\
  (rank run q i < length (List.filter (fun t => q t && (fill_basis t <=. fill_basis x)) run))%nat.
Proof.
  intros Hi Hx. unfold rank. rewrite <- !count_offsets. split.
  - apply filter_length_mono. intros j _. unfold qualifies_at, is_some_and.
    destruct (run !! j) as [y|] eqn:Hj; [|done]. intros [Hy Hlt]%andb_prop. rewrite Hy. simpl.
    apply (before_cases _ _ _ y x); auto. left. by apply flt_key in Hlt as (_ & _ & ?).
  - apply (filter_length_lt _ _ _ i).
    + intros j _ [Hq Hb]%andb_prop. apply qualifies_at_spec in Hq as (y & Hj & Hy). rewrite Hj. simpl.
      rewrite Hy. simpl. apply (before_cases _ _ _ y x) in Hb; auto.
      apply fle_key. split_and!; [by apply priced_nan; auto..|tauto].
    + apply list_elem_of_In, in_seq. apply lookup_lt_Some in Hi. lia.
    + rewrite before_irrefl by by exists x. apply andb_false_r.
    + rewrite Hi. simpl. rewrite Hx. simpl. apply fle_priced. auto.
Qed.
End median.

(** The adverse median is a real middle print: when any row of the run qualifies, a
    qualifying row is picked with at most [k] qualifying prices below its own and more
    than [k] at or below it, where [k] is the upper middle for an entry and the lower
    middle for an exit. *)
Theorem adverse_median_is_the_middle run q high :
  (forall t, q t = true -> priced t) ->
  let n := length (List.filter q run) in
  let k := if high : bool then (n / 2)%nat else ((n - 1) / 2)%nat in
  (adverse_median_in run q high = None <-> n = 0%nat) /\
  forall i, adverse_median_in run q high = Some i ->
    exists x, run !! i = Some x /\ q x = true /\
      (length (List.filter (fun t => q t && (fill_basis t <. fill_basis x)) run) <= k)%nat /\
      (k < length (List.filter (fun t => q t && (fill_basis t <=. fill_basis x)) run))%nat.
Proof.
  intros Hq n k. unfold adverse_median_in. fold n. fold k. destruct (Nat.eqb_spec n 0) as [E|E].
  { rewrite E. done. }
  split.
  - split; [|done]. intros Hnone.
    assert (Hk : (k < n)%nat).
    { unfold k. destruct high; [apply Nat.div_lt; lia|apply Nat.Div0.div_lt_upper_bound; lia]. }
    destruct (rank_reached run q Hq k Hk) as (i & Hi & Hlt).
    rewrite find_first_None in Hnone. specialize (Hnone i).
    rewrite list_elem_of_In, in_seq in Hnone. rewrite Hnone in Hi by lia. done.
  - intros i [_ Hi]%find_first_Some. apply andb_prop in Hi as [Hqi Hr].
    apply qualifies_at_spec in Hqi as (x & Hx & Hqx). apply Nat.eqb_eq in Hr. exists x.
    pose proof (rank_counts run q Hq i x Hx Hqx). rewrite Hr in *. tauto.
Qed.
End tape.

(** ** A tape *)

Record Print := mkPrint { p_buy : bool; p_sol : Z; p_tokens : Z; p_slot : Z; p_ms : Z }.

#[export] Instance print_row : TradeRow Print := {
  is_buy := p_buy;
  amount_sol t := f_of_Z (p_sol t);
  token_amount t := f_of_Z (p_tokens t);
  price_per_token _ := f_zero;
  slot := p_slot;
  block_time t := dur_milliseconds (p_ms t);
  reserve_sol _ := None;
  reserve_token _ := None;
  real_reserve_sol _ := None;
  real_token_reserves _ := None;
  tx_signature _ := ""
}.

Definition a_tape : list Print :=
  [mkPrint true 10 10 100 0; mkPrint true 12 10 100 90; mkPrint false 8 10 101 110;
   mkPrint true 18 10 101 130; mkPrint true 15 10 101 140; mkPrint true 30 10 109 900].

Example a_tape_fills :
  (fun m => (trade_idx <$> find_paper_entry_at a_tape 0 true m, trade_idx <$> find_paper_exit_at a_tape 0 true m))
    <$> [WorstCase; FirstInWindow; NextSlotFirst; NextSlotMedian; SignalPrice; SlotEnd; LagMs 115]
  = [(Some 3, Some 2); (Some 1, Some 1); (Some 3, Some 2); (Some 3, Some 4); (Some 0, Some 0);
     (Some 1, Some 0); (Some 2, Some 2)]%nat.
Proof. vm_compute. reflexivity. Qed.

Lemma priced_signals_always_fill_witness :
  fills_in_window a_tape 0 (mkPrint true 10 10 100 0) (find_paper_entry_at a_tape 0 true NextSlotMedian).
Proof.
  refine (proj1 (priced_signals_always_fill a_tape 0 _ NextSlotMedian _ _)).
  - reflexivity.
  - vm_compute. reflexivity.
Defined.

Lemma worst_case_is_adverse_witness :
  fills_related (fun x w => (x <=. w) = true)
    (find_paper_entry_at a_tape 0 false NextSlotFirst) (find_worst_case_paper_entry_at a_tape 0 false).
Proof. refine (proj1 (worst_case_is_adverse a_tape 0 false NextSlotFirst _)). reflexivity. Defined.

Lemma lag_fill_is_the_state_at_the_deadline_witness :
  find_paper_entry_at a_tape 0 true (LagMs 115) = paper_fill_from a_tape 2.
Proof.
  assert (E : lag_fill_idx a_tape 0 115 = Some 2%nat) by (vm_compute; reflexivity).
  pose proof (lag_fill_is_the_state_at_the_deadline a_tape 0 (mkPrint true 10 10 100 0) 115 eq_refl) as L.
  cbv zeta in L. rewrite E in L. apply L.
Defined.

Lemma adverse_median_is_the_middle_witness :
  (length (List.filter (fun t => (f_zero <. fill_basis t) && (fill_basis t <. fill_basis (mkPrint true 15 10 101 140)))
     a_tape) <= 3)%nat.
Proof.
  assert (E : adverse_median_in a_tape (fun t => f_zero <. fill_basis t) true = Some 4%nat)
    by (vm_compute; reflexivity).
  destruct (adverse_median_is_the_middle a_tape (fun t => f_zero <. fill_basis t) true (fun t H => H)) as [_ M].
  destruct (M 4%nat E) as (x & Hx & _ & Hle & _). injection Hx as <-.
  vm_compute in Hle |- *. exact Hle.
Defined.
