(* ===== verification/Grammar.v ===== *)
(** * Grammar: the text of a fingerprint condition

    [fingerprint/grammar.rs]: the parser of a condition in its axis's display unit and
    the printer of a stored predicate, with [sol_label] of [grouping.rs].  Amounts are
    integers of 128 bits; [checked_*] is [None] past their ends. *)

From S2P Require Import AxisFacts.
From S2P Require Export Axis Text.

Definition LAMPORTS_PER_SOL : Z := 1000000000.

Definition checked (v : Z) : option Z := if (0 <=? v) && (v <=? u128_max) then Some v else None.

(** ** Amounts *)

Definition string_take (n : nat) (s : string) : string := String.substring 0 n s.

Fixpoint pad_zeros (n : nat) (s : string) : string :=
  match n with
  | O => s
  | S n => match s with
           | EmptyString => String "0" (pad_zeros n EmptyString)
           | String c s => String c (pad_zeros n s)
           end
  end.

Definition sol_text_to_lamports (s : string) : option Z :=
  let t := trim s in
  let '(whole, frac) := unwrap_or (split_once "." t) (t, EmptyString) in
  if bool_decide (whole = "") || negb (all_digits whole) then None
  else if negb (all_digits frac) then None
  else
    let padded := pad_zeros 9 (string_take 9 frac) in
    let round := match String.get 9 frac with Some b => if 53 <=? byte_at b then 1 else 0 | None => 0 end in
    whole ← parse_uint u128_max whole;
    frac ← parse_uint u128_max padded;
    lamports ← checked (whole * LAMPORTS_PER_SOL);
    lamports ← checked (lamports + frac);
    checked (lamports + round).

(** [format!("{frac:09}")]. *)
Definition nine_digits (v : Z) : string :=
  let s := pretty v in String.string_of_list_ascii (replicate (9 - String.length s) "0"%char) +:+ s.

Definition sol_label (lamports : Z) : string :=
  let whole := lamports / 1000000000 in
  let frac := lamports mod 1000000000 in
  if frac =? 0 then pretty whole
  else trim_end_byte "0" (pretty whole +:+ "." +:+ nine_digits frac).

Definition parse_amount (s : string) (unit : AxisUnit) : option Z :=
  let t := trim s in
  match unit with
  | AxLamports => sol_text_to_lamports t
  | AxCount | AxComputeUnits | AxBps =>
      if bool_decide (t = "") || negb (all_digits t) then None else parse_uint u128_max t
  | AxLabels => None
  end.

Definition render_amount (v : Z) (unit : AxisUnit) : string :=
  match unit with AxLamports => sol_label v | _ => pretty v end.

(** ** The parser *)

Definition en_dash : string := of_bytes [226; 128; 147]%nat.

Definition span (lo hi : option Z) : AxSpan := {| s_min := lo; s_max := hi |}.

(** One separator of the half-open form: [inr] decides, [inl tt] goes on to the next. *)
Definition half_open_at (sep text : string) (unit : AxisUnit) : Datatypes.unit + option SpanSet :=
  match split_once sep text with
  | None => inl tt
  | Some (lo, hi) =>
      let lo := trim lo in
      let hi := trim hi in
      if bool_decide (lo = "") || bool_decide (hi = "") then inl tt
      else inr
        (lo ← parse_amount lo unit;
         hi ← parse_amount hi unit;
         if hi <=? lo then None else Some (set_one (span (Some lo) (Some (hi - 1)))))
  end.

Definition parse_operand (text : string) (unit : AxisUnit) : option SpanSet :=
  match split_once ".." text with
  | Some (lo, hi) =>
      lo ← parse_amount lo unit;
      hi ← parse_amount hi unit;
      Some (set_one (span (Some lo) (Some hi)))
  | None =>
      match half_open_at en_dash text unit with
      | inr r => r
      | inl _ =>
          match half_open_at "-" text unit with
          | inr r => r
          | inl _ => (fun v => set_one (span_exact v)) <$> parse_amount text unit
          end
      end
  end.

Definition OPERATORS : list string := [">="; "<="; "=="; "!="; ">"; "<"; "="].

Definition apply_op (op rest : string) (unit : AxisUnit) : option SpanSet :=
  if bool_decide (op = ">=") then (fun v => set_one (span (Some v) None)) <$> parse_amount rest unit
  else if bool_decide (op = "<=") then (fun v => set_one (span None (Some v))) <$> parse_amount rest unit
  else if bool_decide (op = ">") then
    v ← parse_amount rest unit; v ← checked (v + 1); Some (set_one (span (Some v) None))
  else if bool_decide (op = "<") then
    v ← parse_amount rest unit; v ← checked (v - 1); Some (set_one (span None (Some v)))
  else if bool_decide (op = "!=") then set_complement <$> parse_operand rest unit
  else parse_operand rest unit.

Definition parse_atom (text : string) (unit : AxisUnit) : option SpanSet :=
  if bool_decide (text = "") then None
  else
    match find_map (fun op => (fun rest => (op, rest)) <$> strip_prefix op text) OPERATORS with
    | Some (op, rest) => apply_op op (trim rest) unit
    | None => parse_operand text unit
    end.

(** The two loops: an arm intersects its atoms, the expression unites its arms. *)
Definition parse_arm (arm : string) (unit : AxisUnit) : option SpanSet :=
  foldl (fun acc raw_atom =>
    acc ← acc; atom ← parse_atom (trim raw_atom) unit; Some (set_intersect acc atom))
    (Some set_all) (split_on "," arm).

Definition parse_span_set (text : string) (unit : AxisUnit) : option SpanSet :=
  let t := trim text in
  if bool_decide (t = "") then None
  else
    foldl (fun acc raw_arm =>
      acc ← acc;
      let arm := trim raw_arm in
      if bool_decide (arm = "") then None
      else arm ← parse_arm arm unit; Some (set_union acc arm))
      (Some set_none) (split_on "|" t).

Definition parse_predicate (text : string) (unit : AxisUnit) : option AxisPredicate :=
  set ← parse_span_set text unit;
  if bool_decide (set = []) || is_all set then None else Some (into_predicate set).

(** ** The printer *)

Definition format_span_body (s : AxSpan) (unit : AxisUnit) : string :=
  match s_min s, s_max s with
  | Some a, Some b => if a =? b then render_amount a unit else render_amount a unit +:+ ".." +:+ render_amount b unit
  | Some a, None => ">=" +:+ render_amount a unit
  | None, Some b => "<=" +:+ render_amount b unit
  | None, None => "any"
  end.

Definition format_span (s : AxSpan) (unit : AxisUnit) : string :=
  match s_min s, s_max s with
  | Some a, None => ">=" +:+ render_amount a unit
  | None, Some b => "<=" +:+ render_amount b unit
  | _, _ => format_span_body s unit
  end.

Definition the_hole (spans : list AxSpan) : option AxSpan :=
  if (1 <? length spans)%nat then
    match set_complement (from_spans spans) with
    | [hole] => if is_someb (s_min hole) || is_someb (s_max hole) then Some hole else None
    | _ => None
    end
  else None.

Definition format_predicate (pred : AxisPredicate) (unit : AxisUnit) : string :=
  match pred with
  | Sequence labels => join " | " labels
  | _ =>
      let spans := pred_spans pred in
      match the_hole spans with
      | Some hole => "!=" +:+ format_span_body hole unit
      | None => join " | " (map (fun s => format_span s unit) spans)
      end
  end.

(** ** What a condition's text means

    Amounts print and parse back exactly; the canonical text of a stored predicate parses
    to a predicate with the same matches, and to the very same one when no bound is an
    end of the domain; what the operators of the grammar denote; two spellings of one set
    that are stored differently. *)

(** ** Texts of amounts *)

Fixpoint amount_chars (s : string) : bool :=
  match s with
  | EmptyString => true
  | String c r =>
      (is_digit c || (Ascii.eqb c "." && match r with String d _ => is_digit d | EmptyString => false end))
      && amount_chars r
  end.

(** Digits with dots that digits follow, beginning with a digit. *)
Definition amount (s : string) : bool :=
  match s with String c _ => is_digit c | EmptyString => false end && amount_chars s.

Lemma amount_cons c s : amount_chars (String c s) = true -> (is_digit c = true \/ c = "."%char /\ amount s = true) /\ amount_chars s = true.
Proof.
  cbn [amount_chars]. intros [[Hc|[->%Ascii.eqb_eq Hd]%andb_prop]%orb_prop Hs]%andb_prop; [by auto|].
  split; [|done]. right. split; [done|]. unfold amount. rewrite Hs. by destruct s; rewrite ?Hd.
Qed.

Lemma amount_forall (P : ascii -> Prop) s : (forall c, is_digit c = true -> P c) -> P "."%char ->
  amount_chars s = true -> Forall P (chars s).
Proof.
  intros Hd Hp. induction s as [|c s IH]; intros Hs; [constructor|].
  apply amount_cons in Hs as [[Hc|[-> _]] Hs]; constructor; auto.
Qed.

Lemma amount_some s : amount s = true -> amount_chars s = true /\ exists c r, s = String c r /\ is_digit c = true.
Proof. unfold amount. intros [Hc Hs]%andb_prop. split; [done|]. destruct s; [done|]. eauto. Qed.

Lemma amount_tight s : amount s = true -> tight s.
Proof.
  intros (Hs & c & r & -> & Hc)%amount_some. apply plain_tight; [done|].
  apply amount_forall; [apply digit_plain|done|done].
Qed.

Lemma digit_byte c : is_digit c = true -> 48 <= byte_at c <= 57.
Proof. unfold is_digit, digit_of. destruct (_ && _) eqn:E; [lia|done]. Qed.

Lemma not_digit_neq c d : is_digit c = true -> is_digit d = false -> c <> d.
Proof. congruence. Qed.

(** *** Splitting around amounts *)

Lemma split_once_none a sep s : Forall (fun c => c <> a) (chars s) -> split_once (String a sep) s = None.
Proof.
  induction s as [|c s IH]; intros Hs; [done|]. apply Forall_cons in Hs as [Hc Hs].
  cbn [split_once]. rewrite strip_other by (apply Ascii.eqb_neq; congruence). by rewrite IH.
Qed.

Lemma split_on_none a s : Forall (fun c => c <> a) (chars s) -> split_on a s = [s].
Proof.
  induction s as [|c s IH]; intros Hs; [done|]. apply Forall_cons in Hs as [Hc Hs].
  cbn [split_on]. rewrite (proj2 (Ascii.eqb_neq c a)) by done. by rewrite IH.
Qed.

Lemma split_on_app a s t : Forall (fun c => c <> a) (chars s) -> split_on a (s +:+ String a t) = s :: split_on a t.
Proof.
  induction s as [|c s IH]; intros Hs.
  - change ("" +:+ String a t) with (String a t). cbn [split_on]. by rewrite Ascii.eqb_refl.
  - change (String c s +:+ String a t) with (String c (s +:+ String a t)). cbn [split_on]. apply Forall_cons in Hs as [Hc Hs]. rewrite (proj2 (Ascii.eqb_neq c a)) by done. by rewrite IH.
Qed.

Lemma amount_without a s : is_digit a = false -> a <> "."%char -> amount s = true ->
  Forall (fun c => c <> a) (chars s).
Proof.
  intros Ha Hp (Hs & _)%amount_some. apply amount_forall; [intros c Hc; by apply not_digit_neq|congruence|done].
Qed.

Lemma strip_dots c s : is_digit c = true -> strip_prefix ".." (String c s) = None.
Proof. intros Hc. apply strip_other, Ascii.eqb_neq. intros <-. done. Qed.

Lemma strip_dot_digit d s : is_digit d = true -> strip_prefix ".." (String "." (String d s)) = None.
Proof.
  intros Hd. cbn [strip_prefix]. rewrite Ascii.eqb_refl.
  rewrite (proj2 (Ascii.eqb_neq "." d)); [done|by intros <-].
Qed.

Lemma split_dots_none s : amount_chars s = true -> split_once ".." s = None.
Proof.
  induction s as [|c s IH]; intros Hs; [done|]. apply amount_cons in Hs as [Hc Hs]. cbn [split_once].
  rewrite IH by done. destruct Hc as [Hc|[-> Hn]]; [by rewrite strip_dots|].
  apply amount_some in Hn as (_ & d & r & -> & Hd). by rewrite strip_dot_digit.
Qed.

Lemma split_dots_app s t : amount_chars s = true -> split_once ".." (s +:+ ".." +:+ t) = Some (s, t).
Proof.
  induction s as [|c s IH]; intros Hs; [done|]. apply amount_cons in Hs as [Hc Hs].
  change (String c s +:+ ".." +:+ t) with (String c (s +:+ ".." +:+ t)). cbn [split_once].
  rewrite IH by done. destruct Hc as [Hc|[-> Hn]]; [by rewrite strip_dots|].
  apply amount_some in Hn as (_ & d & r & -> & Hd).
  change (String d r +:+ ".." +:+ t) with (String d (r +:+ ".." +:+ t)). by rewrite strip_dot_digit.
Qed.

(** *** Decimal amounts *)

Lemma digits_amount s : s <> "" -> Forall (fun c => is_digit c = true) (chars s) -> amount s = true.
Proof.
  intros Hne H. unfold amount. destruct s as [|c s]; [done|]. apply andb_true_intro. split.
  - by apply Forall_cons in H as [H _].
  - clear Hne. revert H. generalize (String c s) as t. clear c s.
    induction t as [|c t IH]; simpl; [done|]. intros [Hc Ht]%Forall_cons. by rewrite Hc, IH.
Qed.

Lemma pretty_amount v : 0 <= v -> amount (pretty v) = true.
Proof. intros Hv. apply digits_amount; [by apply pretty_nonempty|by apply pretty_digits]. Qed.

Lemma parse_pretty_amount v unit : in_domain v -> unit <> AxLamports -> unit <> AxLabels ->
  parse_amount (pretty v) unit = Some v.
Proof.
  intros Hv H1 H2. unfold parse_amount. unfold in_domain in Hv.
  rewrite trim_tight by (apply amount_tight, pretty_amount; lia).
  pose proof (pretty_nonempty v ltac:(lia)). rewrite bool_decide_eq_false_2 by done.
  rewrite (proj2 (all_digits_spec (pretty v))) by (apply pretty_digits; lia). simpl.
  rewrite parse_uint_pretty by lia. by destruct unit.
Qed.

Lemma pretty_go_length x n s : (x < 10 ^ N.of_nat n)%N -> (String.length (pretty_N_go x s) <= n + String.length s)%nat.
Proof.
  revert n s. induction (N.lt_wf_0 x) as [x _ IH]. intros n s Hx.
  destruct (decide (0 < x)%N) as [Hp|Hp].
  - rewrite pretty_N_go_step by done. destruct n as [|n]; [simpl in Hx; lia|].
    assert (x `div` 10 < x)%N by (apply N.div_lt; lia).
    assert (x `div` 10 < 10 ^ N.of_nat n)%N.
    { apply N.Div0.div_lt_upper_bound. rewrite <- N.pow_succ_r'. by replace (N.succ (N.of_nat n)) with (N.of_nat (S n)) by lia. }
    etransitivity; [by apply (IH _ H n)|]. simpl. lia.
  - replace x with 0%N by lia. rewrite pretty_N_go_0. lia.
Qed.

Lemma pretty_length v : 0 <= v < 10 ^ 9 -> (String.length (pretty v) <= 9)%nat.
Proof.
  intros Hv. destruct v as [|p|p]; [simpl; lia| |lia]. rewrite pretty_pos.
  pose proof (pretty_go_length (N.pos p) 9 "" ltac:(simpl in *; lia)). simpl in *. lia.
Qed.

Lemma trim_end_app c p s : trim_end_byte c s <> "" -> trim_end_byte c (p +:+ s) = p +:+ trim_end_byte c s.
Proof.
  intros Hs. induction p as [|a p IH]; [done|].
  change (String a p +:+ s) with (String a (p +:+ s)). cbn [trim_end_byte]. rewrite IH.
  destruct p; [|done]. change ("" +:+ trim_end_byte c s) with (trim_end_byte c s).
  by destruct (trim_end_byte c s).
Qed.

Lemma pad_trimmed s : pad_zeros (String.length s) (trim_end_byte "0" s) = s.
Proof.
  induction s as [|c s IH]; [done|]. cbn. destruct (trim_end_byte "0" s) as [|d t] eqn:E.
  - destruct (Ascii.eqb_spec c "0"); subst; by rewrite IH.
  - by rewrite IH.
Qed.

Lemma trim_end_length c s : (String.length (trim_end_byte c s) <= String.length s)%nat.
Proof.
  induction s as [|a s IH]; cbn; [lia|]. destruct (trim_end_byte c s); [case_match|]; simpl in *; lia.
Qed.

Lemma trim_end_digits s : Forall (fun c => is_digit c = true) (chars s) ->
  Forall (fun c => is_digit c = true) (chars (trim_end_byte "0" s)).
Proof.
  induction s as [|a s IH]; cbn; [done|]. intros [Ha Hs]%Forall_cons. specialize (IH Hs).
  destruct (trim_end_byte "0" s); [case_match; [constructor|by repeat constructor]|by constructor].
Qed.

Lemma substring_all s n : (String.length s <= n)%nat -> String.substring 0 n s = s.
Proof.
  revert n. induction s as [|c s IH]; intros [|n] H; simpl in *; try done; [lia|]. rewrite IH; [done|lia].
Qed.

Lemma get_past s n : (String.length s <= n)%nat -> String.get n s = None.
Proof. revert n. induction s as [|c s IH]; intros [|n] H; simpl in *; try done; [lia|]. apply IH. lia. Qed.

Definition zeros (n : nat) : string := String.string_of_list_ascii (replicate n "0"%char).

Lemma chars_zeros n : chars (zeros n) = replicate n "0"%char.
Proof. apply String.list_ascii_of_string_of_list_ascii. Qed.

Lemma parse_zeros top n s : 0 <= top -> parse_digits top 0 (zeros n +:+ s) = parse_digits top 0 s.
Proof.
  intros Ht. induction n as [|n IH]; [done|]. rewrite <- IH.
  change (zeros (S n) +:+ s) with (String "0" (zeros n +:+ s)). cbn [parse_digits].
  change (digit_of "0") with (Some 0). cbv zeta beta iota. change (10 * 0 + 0) with 0.
  destruct (Z.ltb_spec top 0); [lia|done].
Qed.

Section nine.
Context (v : Z) (Hv : 0 <= v < 10 ^ 9).

Lemma nine_length : String.length (nine_digits v) = 9%nat.
Proof.
  unfold nine_digits. fold (zeros (9 - String.length (pretty v))).
  rewrite length_chars, chars_app, length_app, chars_zeros, length_replicate, <- length_chars.
  pose proof (pretty_length v Hv). lia.
Qed.

Lemma nine_all_digits : Forall (fun c => is_digit c = true) (chars (nine_digits v)).
Proof.
  unfold nine_digits. fold (zeros (9 - String.length (pretty v))). rewrite chars_app, chars_zeros.
  apply Forall_app. split; [by apply Forall_replicate|apply pretty_digits; lia].
Qed.

Lemma nine_parse : parse_digits u128_max 0 (nine_digits v) = Some v.
Proof.
  pose proof u128_max_pos. unfold nine_digits. fold (zeros (9 - String.length (pretty v))).
  rewrite parse_zeros by lia. apply parse_pretty. split; [lia|]. change (v <= 2 ^ 128 - 1).
  assert (10 ^ 9 < 2 ^ 128) by (vm_compute; done). lia.
Qed.
End nine.

(** A trimmed fraction is not empty unless it is zero. *)
Lemma trimmed_zero s n : trim_end_byte "0" s = "" -> String.length s = n -> s = zeros n.
Proof.
  revert n. induction s as [|c s IH]; intros n E Hn; [by subst|]. destruct n as [|n]; [done|].
  cbn [trim_end_byte] in E. destruct (trim_end_byte "0" s); [|done].
  destruct (Ascii.eqb_spec c "0"); [|done]. subst c. rewrite (IH n); [done|done|]. simpl in Hn. lia.
Qed.

Lemma sol_label_cases v : 0 <= v ->
  sol_label v = pretty (v / 10 ^ 9) /\ v mod 10 ^ 9 = 0 \/
  exists frac, sol_label v = pretty (v / 10 ^ 9) +:+ "." +:+ frac /\ frac <> "" /\
    Forall (fun c => is_digit c = true) (chars frac) /\ (String.length frac <= 9)%nat /\
    parse_digits u128_max 0 (pad_zeros 9 frac) = Some (v mod 10 ^ 9).
Proof.
  intros Hv. unfold sol_label. change (10 ^ 9) with 1000000000.
  pose proof (Z.mod_pos_bound v 1000000000 ltac:(lia)) as Hm.
  destruct (Z.eqb_spec (v mod 1000000000) 0) as [E|E]; [by left|right].
  set (d := nine_digits (v mod 1000000000)). assert (Hd : 0 <= v mod 1000000000 < 10 ^ 9) by (simpl; lia).
  pose proof (nine_length _ Hd) as Hlen. fold d in Hlen.
  assert (Hne : trim_end_byte "0" d <> "").
  { intros E0. apply (trimmed_zero _ 9) in E0; [|done]. pose proof (nine_parse _ Hd) as Hp. fold d in Hp.
    rewrite E0, <- (append_nil (zeros 9)), parse_zeros in Hp by (pose proof u128_max_pos; lia).
    cbn in Hp. congruence. }
  exists (trim_end_byte "0" d). split_and!.
  - rewrite trim_end_app; [f_equal|].
    + change ("." +:+ d) with (String "." d). change ("." +:+ trim_end_byte "0" d) with (String "." (trim_end_byte "0" d)).
      cbn [trim_end_byte]. by destruct (trim_end_byte "0" d).
    + change ("." +:+ d) with (String "." d). cbn [trim_end_byte]. by destruct (trim_end_byte "0" d).
  - done.
  - apply trim_end_digits, nine_all_digits, Hd.
  - rewrite <- Hlen. apply trim_end_length.
  - rewrite <- Hlen at 1. rewrite pad_trimmed. by apply nine_parse.
Qed.

Lemma amount_chars_app a s : Forall (fun c => is_digit c = true) (chars a) -> amount_chars s = true ->
  amount_chars (a +:+ s) = true.
Proof.
  intros Ha Hs. induction a as [|c a IH]; [done|]. apply Forall_cons in Ha as [Hc Ha].
  change (String c a +:+ s) with (String c (a +:+ s)). cbn [amount_chars]. rewrite Hc. by apply IH.
Qed.

Lemma sol_amount v : 0 <= v -> amount (sol_label v) = true.
Proof.
  intros Hv. pose proof (Z.div_pos v (10 ^ 9) Hv ltac:(lia)) as Hq.
  destruct (sol_label_cases v Hv) as [[-> _]|(frac & -> & Hne & Hd & _)]; [by apply pretty_amount|].
  pose proof (pretty_digits _ Hq) as Hp. pose proof (pretty_nonempty _ Hq) as Hpne.
  destruct (pretty (v / 10 ^ 9)) as [|c r]; [done|]. unfold amount. apply andb_true_intro. split.
  - by apply Forall_cons in Hp as [Hc _].
  - apply amount_chars_app; [done|]. apply (digits_amount frac) in Hd; [|done].
    apply amount_some in Hd as (Hf & d & s & -> & Hdd).
    change ("." +:+ String d s) with (String "." (String d s)). cbn [amount_chars] in *.
    rewrite Hdd in *. done.
Qed.

Lemma parse_uint_digits top s : s <> "" -> Forall (fun c => is_digit c = true) (chars s) ->
  parse_uint top s = parse_digits top 0 s.
Proof.
  intros Hne Hs. unfold parse_uint. destruct s as [|c s]; [done|]. apply Forall_cons in Hs as [Hc _].
  destruct (Ascii.eqb_spec c "+"); [by subst|done].
Qed.

Lemma checked_in v : in_domain v -> checked v = Some v.
Proof. unfold in_domain, checked. intros H. destruct (_ && _) eqn:E; [done|lia]. Qed.

Lemma split_dot a b : Forall (fun c => is_digit c = true) (chars a) -> split_once "." (a +:+ "." +:+ b) = Some (a, b).
Proof.
  induction a as [|c a IH]; intros Ha; [done|]. apply Forall_cons in Ha as [Hc Ha].
  change (String c a +:+ "." +:+ b) with (String c (a +:+ "." +:+ b)). cbn [split_once].
  rewrite strip_other by (apply Ascii.eqb_neq; intros <-; done). by rewrite IH.
Qed.

Lemma pad_digits n s : (String.length s <= n)%nat -> (0 < n)%nat -> Forall (fun c => is_digit c = true) (chars s) ->
  pad_zeros n s <> "" /\ Forall (fun c => is_digit c = true) (chars (pad_zeros n s)).
Proof.
  intros Hl Hn. split; [by destruct n, s; try lia|]. clear Hn. revert s Hl H. induction n as [|n IH]; intros s Hl H.
  - by destruct s.
  - destruct s as [|c s]; [constructor; [done|]; apply IH; [simpl; lia|constructor]|].
    apply Forall_cons in H as [Hc H]. constructor; [done|]. apply IH; [simpl in Hl; lia|done].
Qed.

Lemma parse_sol v : in_domain v -> sol_text_to_lamports (sol_label v) = Some v.
Proof.
  intros Hv. assert (0 <= v) as Hv0 by (unfold in_domain in Hv; lia).
  pose proof (Z.div_pos v (10 ^ 9) Hv0 ltac:(lia)) as Hq.
  pose proof (Z.mod_pos_bound v (10 ^ 9) ltac:(lia)) as Hm.
  pose proof (Z.div_mod v (10 ^ 9) ltac:(lia)) as Hdm.
  assert (Hqd : in_domain (v / 10 ^ 9)) by (unfold in_domain in *; lia).
  unfold sol_text_to_lamports. rewrite trim_tight by by apply amount_tight, sol_amount.
  pose proof (pretty_digits _ Hq) as Hp. pose proof (pretty_nonempty _ Hq) as Hne.
  destruct (sol_label_cases v Hv0) as [[-> Hz]|(frac & -> & Hfne & Hfd & Hfl & Hfp)].
  - rewrite split_once_none by (eapply Forall_impl; [exact Hp|]; intros c Hc ->; done). cbn [unwrap_or].
    rewrite bool_decide_eq_false_2 by done. rewrite (proj2 (all_digits_spec _)) by done. cbn [negb orb].
    rewrite parse_uint_pretty by apply Hqd.
    replace (parse_uint u128_max (pad_zeros 9 (string_take 9 ""))) with (Some 0) by (vm_compute; reflexivity).
    cbn [mbind option_bind String.get]. change LAMPORTS_PER_SOL with (10 ^ 9).
    replace (v / 10 ^ 9 * 10 ^ 9) with v by lia. rewrite checked_in by done. cbn [mbind option_bind].
    rewrite Z.add_0_r, checked_in by done. cbn [mbind option_bind]. rewrite Z.add_0_r. by apply checked_in.
  - rewrite split_dot by done. cbn [unwrap_or].
    rewrite bool_decide_eq_false_2 by done. rewrite !(proj2 (all_digits_spec _)) by done. cbn [negb orb].
    unfold string_take. rewrite substring_all, get_past by done.
    destruct (pad_digits 9 frac Hfl ltac:(lia) Hfd) as [Hpne Hpd].
    rewrite parse_uint_pretty by apply Hqd. rewrite (parse_uint_digits _ (pad_zeros 9 frac)), Hfp by done.
    cbn [mbind option_bind]. change LAMPORTS_PER_SOL with (10 ^ 9).
    rewrite checked_in by (unfold in_domain in *; lia). cbn [mbind option_bind].
    replace (v / 10 ^ 9 * 10 ^ 9 + v mod 10 ^ 9) with v by lia. rewrite checked_in by done.
    cbn [mbind option_bind]. rewrite Z.add_0_r. by apply checked_in.
Qed.

(** ** Amounts in their unit *)

Lemma render_is_amount v unit : in_domain v -> amount (render_amount v unit) = true.
Proof. intros [Hv _]. destruct unit; [by apply sol_amount|by apply pretty_amount..]. Qed.

(** The amount an axis prints is the amount it parses, whatever the unit. *)
Lemma parse_render v unit : in_domain v -> unit <> AxLabels -> parse_amount (render_amount v unit) unit = Some v.
Proof.
  intros Hv Hu. destruct unit; try done; try by apply parse_pretty_amount.
  unfold parse_amount, render_amount. rewrite trim_tight; [by apply parse_sol|].
  apply amount_tight, sol_amount. by destruct Hv.
Qed.

(** ** Atoms *)

Lemma op_none a : amount a = true ->
  find_map (fun op => (fun rest => (op, rest)) <$> strip_prefix op a) OPERATORS = None.
Proof.
  intros (_ & c & r & -> & Hc)%amount_some. unfold OPERATORS. cbn [find_map].
  rewrite !strip_other; [done|..]; apply Ascii.eqb_neq; intros <-; done.
Qed.

Lemma op_none_app a s : amount a = true ->
  find_map (fun op => (fun rest => (op, rest)) <$> strip_prefix op (a +:+ s)) OPERATORS = None.
Proof.
  intros (_ & c & r & -> & Hc)%amount_some. change (String c r +:+ s) with (String c (r +:+ s)).
  unfold OPERATORS. cbn [find_map].
  rewrite !strip_other; [done|..]; apply Ascii.eqb_neq; intros <-; done.
Qed.

Lemma op_found op s : op ∈ [">="; "<="; "!="] ->
  find_map (fun o => (fun rest => (o, rest)) <$> strip_prefix o (op +:+ s)) OPERATORS = Some (op, s).
Proof. rewrite !elem_of_cons. intros [->|[->|[->|[]%not_elem_of_nil]]]; reflexivity. Qed.

(** A span that is bounded on some side prints and parses back. *)
Section atoms.
Context (unit : AxisUnit) (Hunit : unit <> AxLabels).

Lemma parse_range_text a b : in_domain a -> in_domain b ->
  parse_operand (render_amount a unit +:+ ".." +:+ render_amount b unit) unit
  = Some (set_one (span (Some a) (Some b))).
Proof.
  intros Ha Hb. unfold parse_operand. pose proof (render_is_amount a unit Ha) as Hta.
  rewrite split_dots_app by (by apply amount_some in Hta as []). by rewrite !parse_render.
Qed.

Lemma parse_exact_text a : in_domain a ->
  parse_operand (render_amount a unit) unit = Some (set_one (span (Some a) (Some a))).
Proof.
  intros Ha. unfold parse_operand. pose proof (render_is_amount a unit Ha) as Hta.
  rewrite split_dots_none by (by apply amount_some in Hta as []). unfold half_open_at.
  change en_dash with (String (ascii_of_nat 226) (of_bytes [128; 147]%nat)).
  rewrite !split_once_none by (apply amount_without; done). by rewrite parse_render.
Qed.

Lemma parse_body a b : in_domain a -> in_domain b ->
  parse_operand (format_span_body (span (Some a) (Some b)) unit) unit = Some (set_one (span (Some a) (Some b))).
Proof.
  intros Ha Hb. unfold format_span_body. cbn [s_min s_max span].
  destruct (Z.eqb_spec a b) as [<-|]; [by apply parse_exact_text|by apply parse_range_text].
Qed.

Lemma body_amount_first a b : in_domain a -> in_domain b ->
  exists s, format_span_body (span (Some a) (Some b)) unit = render_amount a unit +:+ s.
Proof.
  intros Ha Hb. unfold format_span_body. cbn [s_min s_max span].
  destruct (a =? b); [exists ""; by rewrite append_nil|by eexists].
Qed.

Lemma body_nonempty a b : in_domain a -> in_domain b -> format_span_body (span (Some a) (Some b)) unit <> "".
Proof.
  intros Ha Hb. destruct (body_amount_first a b Ha Hb) as [s ->].
  pose proof (render_is_amount a unit Ha) as Hta. by apply amount_some in Hta as (_ & c & r & -> & _).
Qed.

Lemma parse_atom_body a b : in_domain a -> in_domain b ->
  parse_atom (format_span_body (span (Some a) (Some b)) unit) unit = Some (set_one (span (Some a) (Some b))).
Proof.
  intros Ha Hb. pose proof (render_is_amount a unit Ha) as Hta. unfold parse_atom.
  pose proof (parse_body a b Ha Hb) as Hp. destruct (body_amount_first a b Ha Hb) as [s E]. rewrite E in *.
  rewrite op_none_app by done. rewrite bool_decide_eq_false_2; [done|].
  apply amount_some in Hta as (_ & c & r & -> & _). done.
Qed.

Definition bounded (s : AxSpan) : Prop := s_min s <> None \/ s_max s <> None.

Lemma parse_format_span s : span_wf s -> bounded s -> parse_atom (format_span s unit) unit = Some (set_one s).
Proof.
  intros [Hmin Hmax] Hb. destruct s as [[a|] [b|]]; cbn [s_min s_max] in *.
  - change (format_span _ unit) with (format_span_body (span (Some a) (Some b)) unit). by apply parse_atom_body.
  - change (format_span _ unit) with (">=" +:+ render_amount a unit). unfold parse_atom.
    rewrite op_found, bool_decide_eq_false_2 by (done || set_solver).
    rewrite trim_tight by by apply amount_tight, render_is_amount. unfold apply_op.
    rewrite bool_decide_eq_true_2 by done. by rewrite parse_render.
  - change (format_span _ unit) with ("<=" +:+ render_amount b unit). unfold parse_atom.
    rewrite op_found, bool_decide_eq_false_2 by (done || set_solver).
    rewrite trim_tight by by apply amount_tight, render_is_amount. unfold apply_op.
    rewrite bool_decide_eq_false_2, bool_decide_eq_true_2 by done. by rewrite parse_render.
  - by destruct Hb.
Qed.

(** The text of a span, or of a hole, is one atom of one arm. *)
Definition arm_char (c : ascii) : Prop := plain c = true /\ c <> ","%char /\ c <> "|"%char.

Lemma amount_arm_chars s : amount s = true -> Forall arm_char (chars s).
Proof.
  intros (Hs & _)%amount_some. apply amount_forall; [|by split_and!|done].
  intros c Hc. split_and!; [by apply digit_plain|by intros ->|by intros ->].
Qed.

Lemma body_arm_chars a b : in_domain a -> in_domain b ->
  Forall arm_char (chars (format_span_body (span (Some a) (Some b)) unit)).
Proof.
  intros Ha Hb. pose proof (amount_arm_chars _ (render_is_amount a unit Ha)).
  pose proof (amount_arm_chars _ (render_is_amount b unit Hb)).
  unfold format_span_body. cbn [s_min s_max span]. destruct (a =? b); [done|].
  rewrite !chars_app. repeat (apply Forall_app; split); [done| |done]. repeat (constructor; [by split_and!|]). constructor.
Qed.

Lemma span_arm_chars s : span_wf s -> bounded s -> Forall arm_char (chars (format_span s unit)).
Proof.
  intros [Hmin Hmax] Hb. destruct s as [[a|] [b|]]; cbn [s_min s_max] in *; [by apply body_arm_chars| | |by destruct Hb].
  all: change (format_span _ unit) with (">=" +:+ render_amount a unit) || change (format_span _ unit) with ("<=" +:+ render_amount b unit).
  all: rewrite chars_app; apply Forall_app; split; [repeat (constructor; [by split_and!|]); constructor|].
  all: by apply amount_arm_chars, render_is_amount.
Qed.

Lemma format_span_nonempty s : span_wf s -> bounded s -> format_span s unit <> "".
Proof. intros Hw Hb E. pose proof (parse_format_span s Hw Hb) as Hp. by rewrite E in Hp. Qed.
End atoms.

(** ** Arms *)

Lemma arm_tight s : s <> "" -> Forall arm_char (chars s) -> tight s.
Proof. intros Hne Hs. apply plain_tight; [done|]. eapply Forall_impl; [exact Hs|]. by intros c (? & _). Qed.

Lemma arm_no_comma s : Forall arm_char (chars s) -> Forall (fun c => c <> ","%char) (chars s).
Proof. intros Hs. eapply Forall_impl; [exact Hs|]. by intros c (_ & ? & _). Qed.

Lemma arm_no_bar s : Forall arm_char (chars s) -> Forall (fun c => c <> "|"%char) (chars s).
Proof. intros Hs. eapply Forall_impl; [exact Hs|]. by intros c (_ & _ & ?). Qed.

Lemma meet_all s : span_meet span_all s = s.
Proof. by destruct s as [[] []]. Qed.

Lemma canonical_one s : span_ok s -> canonical [s].
Proof. intros Hs. split; [by constructor|]. repeat constructor. Qed.

Lemma set_one_ok s : span_ok s -> set_one s = [s].
Proof. intros Hs. by apply from_spans_canonical_id, canonical_one. Qed.

Lemma sat_ok s : span_ok s -> span_is_satisfiable s = true.
Proof. intros [Hw Hs]. by apply span_is_satisfiable_iff. Qed.

Lemma intersect_all t : canonical t -> set_intersect set_all t = t.
Proof.
  intros Ht. unfold set_intersect. transitivity (from_spans t); [|by apply from_spans_canonical_id]. f_equal.
  replace (set_all ≫= _) with t.
  - destruct Ht as [Hok _]. induction Hok as [|s t Hs _ IH]; [done|]. cbn. by rewrite sat_ok, IH.
  - clear Ht. cbn. rewrite app_nil_r. induction t as [|s t IH]; [done|]. cbn. rewrite meet_all. by f_equal.
Qed.

Lemma parse_one_atom text unit set : text <> "" -> Forall arm_char (chars text) -> canonical set ->
  parse_atom text unit = Some set -> parse_arm text unit = Some set.
Proof.
  intros Hne Hs Hc Hp. unfold parse_arm. rewrite split_on_none by by apply arm_no_comma.
  cbn [foldl mbind option_bind]. rewrite trim_tight by by apply arm_tight. rewrite Hp. cbn [mbind option_bind].
  by rewrite intersect_all.
Qed.

(** ** Expressions *)

(** One arm of the loop of [parse_span_set], its text trimmed. *)
Definition add_arm (unit : AxisUnit) (acc : option SpanSet) (arm : string) : option SpanSet :=
  acc ← acc;
  if bool_decide (arm = "") then None else arm ← parse_arm arm unit; Some (set_union acc arm).

Lemma join_cons s t rest : join " | " (s :: t :: rest) = s +:+ " " +:+ String "|" (" " +:+ join " | " (t :: rest)).
Proof. done. Qed.

(** The pieces of a joined text, trimmed, are the texts joined. *)
Lemma split_joined p l : p = "" \/ p = " " -> l <> [] ->
  Forall (fun s => s <> "" /\ Forall arm_char (chars s)) l ->
  map trim (split_on "|" (p +:+ join " | " l)) = l.
Proof.
  revert p. induction l as [|s l IH]; intros p Hp Hne Hl; [done|]. apply Forall_cons in Hl as [[Hs Hc] Hl].
  pose proof (arm_tight s Hs Hc) as Ht. pose proof (arm_no_bar s Hc) as Hb.
  assert (Hpb : Forall (fun c => c <> "|"%char) (chars p)) by by destruct Hp as [->| ->]; repeat constructor.
  destruct l as [|t l].
  - cbn [join]. rewrite split_on_none by (rewrite chars_app; by apply Forall_app). cbn [map].
    destruct Hp as [->| ->]; [by rewrite trim_tight|by rewrite trim_before].
  - rewrite join_cons, <- !append_assoc. rewrite split_on_app.
    2: { rewrite !chars_app. repeat (apply Forall_app; split); try done. repeat constructor. done. }
    cbn [map]. rewrite (IH " ") by auto. f_equal.
    destruct Hp as [->| ->]; [by rewrite trim_after|rewrite append_assoc; by rewrite trim_around].
Qed.

Lemma joined_tight l : l <> [] -> Forall (fun s => s <> "" /\ Forall arm_char (chars s)) l -> tight (join " | " l).
Proof.
  intros Hne Hl. assert (Hj : first_plain (join " | " l) = true /\ join " | " l <> "").
  { destruct l as [|s l]; [done|]. apply Forall_cons in Hl as [[Hs Hc] _].
    assert (E : exists t, join " | " (s :: l) = s +:+ t).
    { destruct l; [exists ""; by rewrite append_nil|by eexists]. }
    destruct E as [t ->]. destruct s as [|c s]; [done|]. apply Forall_cons in Hc as [[Hc _] _]. done. }
  destruct Hj as [Hj Hjn]. split_and!; [done|done|]. clear Hj Hjn.
  induction l as [|s l IH]; [done|]. apply Forall_cons in Hl as [[Hs Hc] Hl]. destruct l as [|t l].
  - by apply arm_tight.
  - rewrite join_cons. rewrite <- append_assoc, string_rev_app.
    change (String "|" (" " +:+ join " | " (t :: l))) with ("| " +:+ join " | " (t :: l)).
    rewrite string_rev_app. specialize (IH ltac:(done) Hl).
    assert (Hn : string_rev (join " | " (t :: l)) <> "").
    { intros E. apply (f_equal string_rev) in E. rewrite string_rev_involutive in E.
      apply Forall_cons in Hl as [[Ht _] _]. destruct t as [|c t]; [done|]. by destruct l. }
    by rewrite append_assoc, first_plain_app.
Qed.

Lemma parse_joined unit l : l <> [] -> Forall (fun s => s <> "" /\ Forall arm_char (chars s)) l ->
  parse_span_set (join " | " l) unit = foldl (add_arm unit) (Some set_none) l.
Proof.
  intros Hne Hl. pose proof (joined_tight l Hne Hl) as Ht. unfold parse_span_set. rewrite trim_tight by done.
  rewrite bool_decide_eq_false_2 by apply Ht.
  pose proof (split_joined "" l (or_introl eq_refl) Hne Hl) as Hs.
  change ("" +:+ join " | " l) with (join " | " l) in Hs. rewrite <- Hs at 2. generalize (split_on "|" (join " | " l)) as ps.
  intros ps. generalize (Some set_none : option SpanSet) as acc. induction ps as [|p ps IH]; intros acc; [done|].
  cbn [foldl map]. by rewrite <- IH.
Qed.

(** The printed spans of a canonical set fold back into it. *)
Lemma fold_spans unit t1 t2 : unit <> AxLabels -> canonical (t1 ++ t2) -> Forall bounded t2 ->
  foldl (add_arm unit) (Some t1) (map (fun s => format_span s unit) t2) = Some (t1 ++ t2).
Proof.
  intros Hu. revert t1. induction t2 as [|s t2 IH]; intros t1 Hc Hb; [by rewrite app_nil_r|].
  apply Forall_cons in Hb as [Hb Hb2].
  assert (Hcs : canonical (t1 ++ [s])).
  { replace (t1 ++ s :: t2) with ((t1 ++ [s]) ++ t2) in Hc by by rewrite <- app_assoc.
    destruct Hc as [Hok Hs]. apply Forall_app in Hok as [Hok _]. split; [done|].
    revert Hs. generalize (t1 ++ [s]) as l. induction l as [|a l IHl]; intros Hs; [constructor|].
    cbn in Hs. inversion Hs as [|? ? Hs' HF]; subst. apply Forall_app in HF as [HF _]. constructor; auto. }
  assert (Hok : span_ok s) by (destruct Hcs as [Hok _]; by apply Forall_app in Hok as [_ [Hok _]%Forall_cons]).
  destruct Hok as [Hw Hle]. cbn [map foldl]. unfold add_arm at 2. cbn [mbind option_bind].
  rewrite bool_decide_eq_false_2 by by apply format_span_nonempty.
  rewrite (parse_one_atom _ _ [s]); [|by apply format_span_nonempty|by apply span_arm_chars|by apply canonical_one|].
  - cbn [mbind option_bind]. unfold set_union. rewrite from_spans_canonical_id by done.
    rewrite IH; [by rewrite <- app_assoc|by rewrite <- app_assoc|done].
  - rewrite parse_format_span by done. by rewrite set_one_ok.
Qed.

(** ** Holes *)

(** No bound is written as an end of the domain. *)
Definition normal (s : AxSpan) : Prop := s_min s <> Some 0 /\ s_max s <> Some u128_max.

Lemma normal_edges s t : normal s -> normal t -> span_edges s = span_edges t -> s = t.
Proof.
  intros [H1 H2] [H3 H4] [= E1 E2]. destruct s as [[a|] [b|]], t as [[a'|] [b'|]];
    unfold span_lo, span_hi in *; cbn in *; subst; congruence.
Qed.

Lemma normal_unique t1 t2 : Forall normal t1 -> Forall normal t2 -> span_edges <$> t1 = span_edges <$> t2 -> t1 = t2.
Proof.
  intros H1. revert t2. induction H1 as [|s t1 Hs H1 IH]; intros [|s' t2] H2 E; try done.
  apply Forall_cons in H2 as [Hs' H2]. injection E as E1 E2 E3. f_equal; [|by apply IH].
  apply normal_edges; try done. unfold span_edges. congruence.
Qed.

(** Two spans of a canonical list hold values with a gap between them. *)
Lemma two_spans_gap s1 s2 t : canonical (s1 :: s2 :: t) ->
  exists lo gap hi, in_domain lo /\ in_domain gap /\ in_domain hi /\ lo < gap < hi /\
    set_mem (s1 :: s2 :: t) lo = true /\ set_mem (s1 :: s2 :: t) gap = false /\ set_mem (s1 :: s2 :: t) hi = true.
Proof.
  intros Hc. destruct (canonical_head_mem _ _ (canonical_tail _ _ Hc)) as [Hd Hin].
  destruct (canonical_head_mem _ _ Hc) as [Hd1 Hin1].
  pose proof Hc as [Hok Hs]. apply Forall_cons in Hok as [[Hw1 Hle1] Hok].
  inversion Hs as [|? ? _ HF]; subst. apply Forall_cons in HF as [Hg _]. cbn in Hg.
  pose proof (span_wf_bounds _ Hw1) as Hb.
  assert (Hg' : in_domain (span_hi s1 + 1)) by (unfold in_domain in *; lia).
  exists (span_lo s1), (span_hi s1 + 1), (span_lo s2).
  split_and!; try done; try lia.
  - apply not_true_is_false. intros Hm. apply canonical_cons_iff in Hm; try done. lia.
  - apply canonical_cons_iff; try done. right. split; [lia|done].
Qed.

(** A set of two spans or more with one hole: the hole is bounded on both sides, and the
    set is its complement. *)
Lemma hole_spec t hole : canonical t -> the_hole t = Some hole ->
  exists a b, hole = span (Some a) (Some b) /\ 0 < a <= b /\ b < u128_max /\
    (forall v, in_domain v -> set_mem t v = negb (span_contains hole v)).
Proof.
  intros Hc. unfold the_hole. rewrite from_spans_canonical_id by done.
  destruct t as [|s1 [|s2 t]]; [done|done|]. cbn [length Nat.ltb Nat.leb].
  destruct (set_complement_spec _ Hc) as [Hcc Hcm].
  destruct (set_complement (s1 :: s2 :: t)) as [|h [|]]; [done| |done].
  destruct (is_someb (s_min h) || is_someb (s_max h)); [|done]. intros [= <-].
  assert (Hm : forall v, in_domain v -> set_mem (s1 :: s2 :: t) v = negb (span_contains h v)).
  { intros v Hv. specialize (Hcm v Hv). unfold set_mem at 1 in Hcm. cbn in Hcm. rewrite orb_false_r in Hcm.
    rewrite Hcm. by rewrite negb_involutive. }
  destruct (two_spans_gap _ _ _ Hc) as (lo & gap & hi & Hlo & Hgap & Hhi & Hord & M1 & M2 & M3).
  rewrite Hm in M1, M2, M3 by done. rewrite negb_true_iff in M1, M3. rewrite negb_false_iff in M2.
  destruct Hcc as [[[Hw Hle] _]%Forall_cons _].
  assert (Hcont : forall v, in_domain v -> span_contains h v = true <-> span_lo h <= v <= span_hi h)
    by (intros; by apply span_contains_iff).
  rewrite <- not_true_iff_false, Hcont in M1, M3 by done. rewrite Hcont in M2 by done.
  pose proof (span_wf_bounds _ Hw). unfold in_domain, span_lo, span_hi in *.
  destruct h as [[a|] [b|]]; cbn in *; try lia. exists a, b. split_and!; try done; lia.
Qed.

Lemma complement_of_hole a b : 0 < a <= b -> b < u128_max ->
  set_complement (set_one (span (Some a) (Some b)))
  = [span None (Some (a - 1)); span (Some (b + 1)) None].
Proof.
  intros Ha Hb. pose proof u128_max_pos. rewrite set_one_ok.
  - unfold set_complement. cbn [complement_from s_min s_max span].
    rewrite (proj2 (Z.ltb_lt 0 a)), (proj2 (Z.ltb_lt b u128_max)) by lia. cbn [complement_from app].
    apply from_spans_canonical_id. split; [|repeat constructor; cbn; lia].
    unfold span_ok, span_wf, in_domain, span_lo, span_hi. cbn.
    repeat (constructor; cbn; [lia|]). constructor.
  - unfold span_ok, span_wf, in_domain, span_lo, span_hi. cbn. lia.
Qed.

Lemma spans_of_into t : pred_spans (into_predicate t) = t.
Proof. by destruct t as [|[] [|]]. Qed.

Lemma format_into t unit :
  format_predicate (into_predicate t) unit =
  match the_hole t with
  | Some hole => "!=" +:+ format_span_body hole unit
  | None => join " | " (map (fun s => format_span s unit) t)
  end.
Proof. unfold format_predicate. rewrite spans_of_into. by destruct t as [|s [|s' t]]. Qed.

Lemma open_span_alone t : canonical t -> is_all t = false -> Forall bounded t.
Proof.
  intros Hc Ha. apply Forall_forall. intros s Hs. unfold bounded.
  destruct s as [[a|] [b|]]; cbn; try (left; done); try (right; done). exfalso.
  destruct t as [|s1 [|s2 t]]; [by apply not_elem_of_nil in Hs|by apply list_elem_of_singleton in Hs as <-|].
  destruct (two_spans_gap _ _ _ Hc) as (lo & gap & hi & _ & Hgap & _ & _ & _ & M & _).
  assert (set_mem (s1 :: s2 :: t) gap = true) by (apply set_mem_iff; by eexists). congruence.
Qed.

(** ** The round trip *)

(** C31: what a form shows is what it would parse: the canonical text of a stored numeric
    predicate, in its axis's unit, parses to a predicate that matches the same values,
    and to the very same one when no bound is written as an end of the domain. *)
Theorem canonical_text_round_trips t unit :
  canonical t -> t <> [] -> is_all t = false -> unit <> AxLabels ->
  exists p, parse_predicate (format_predicate (into_predicate t) unit) unit = Some p /\
    (forall v, in_domain v -> matches_num p v = matches_num (into_predicate t) v) /\
    (Forall normal t -> p = into_predicate t).
Proof.
  intros Hc Hne Ha Hu. rewrite format_into. unfold parse_predicate.
  destruct (the_hole t) as [hole|] eqn:Hh.
  - destruct (hole_spec t hole Hc Hh) as (a & b & -> & Hab & Hb & Hm).
    set (t' := [span None (Some (a - 1)); span (Some (b + 1)) None]).
    assert (Hda : in_domain a /\ in_domain b) by (unfold in_domain; lia). destruct Hda as [Hda Hdb].
    assert (Hc' : canonical t').
    { unfold t'. rewrite <- complement_of_hole by lia.
      apply set_complement_spec. rewrite set_one_ok; [apply canonical_one|];
        unfold span_ok, span_wf, in_domain, span_lo, span_hi; cbn; lia. }
    assert (Hm' : forall v, in_domain v -> set_mem t' v = set_mem t v).
    { intros v Hv. rewrite Hm by done. unfold t', set_mem, span_contains, in_domain in *. cbn. lia. }
    assert (Hp : parse_span_set ("!=" +:+ format_span_body (span (Some a) (Some b)) unit) unit = Some t').
    { pose proof (body_arm_chars unit a b Hda Hdb) as Hbc.
      pose proof (parse_body unit Hu a b Hda Hdb) as Hpb.
      assert (Hbt : tight (format_span_body (span (Some a) (Some b)) unit)).
      { apply arm_tight; [by apply body_nonempty|done]. }
      assert (Hac : Forall arm_char (chars ("!=" +:+ format_span_body (span (Some a) (Some b)) unit))).
      { rewrite chars_app. apply Forall_app. split; [repeat (constructor; [by split_and!|]); constructor|done]. }
      pose proof (parse_joined unit ["!=" +:+ format_span_body (span (Some a) (Some b)) unit]) as Hj.
      cbn [join] in Hj. rewrite Hj by (try done; by repeat constructor). cbn [foldl].
      unfold add_arm. cbn [mbind option_bind]. rewrite bool_decide_eq_false_2 by done.
      rewrite (parse_one_atom _ _ t'); try done.
      - cbn [mbind option_bind]. unfold set_union, set_none. cbn [app]. by rewrite from_spans_canonical_id.
      - unfold parse_atom. rewrite op_found, bool_decide_eq_false_2 by (done || set_solver).
        rewrite trim_tight by done. unfold apply_op. repeat (rewrite bool_decide_eq_false_2 by done).
        rewrite bool_decide_eq_true_2 by done. rewrite Hpb. cbn [fmap option_fmap option_map].
        by rewrite complement_of_hole by lia. }
    rewrite Hp. cbn [mbind option_bind]. exists (into_predicate t'). split_and!; [done| |].
    + intros v Hv. rewrite !matches_num_into_predicate by done. by apply Hm'.
    + intros Hn. f_equal. apply normal_unique; [|done|by apply canonical_unique].
      unfold t', normal. repeat (constructor; [cbn; split; congruence || (intros [= E]; lia)|]). constructor.
  - pose proof (open_span_alone t Hc Ha) as Hb.
    rewrite parse_joined.
    + pose proof (fold_spans unit [] t Hu Hc Hb) as Hf. cbn [app] in Hf. unfold set_none. rewrite Hf. cbn [mbind option_bind].
      rewrite bool_decide_eq_false_2, Ha by done. cbn [orb]. by exists (into_predicate t).
    + by destruct t.
    + apply Forall_map. pose proof (canonical_wf t Hc) as Hw. apply Forall_forall. intros s Hs.
      rewrite Forall_forall in Hb, Hw. split; [by apply format_span_nonempty; auto|by apply span_arm_chars; auto].
Qed.

Lemma canonical_text_round_trips_witness :
  parse_predicate (format_predicate (into_predicate [span None (Some 2); span (Some 7) (Some 9)]) AxLamports) AxLamports
  = Some (into_predicate [span None (Some 2); span (Some 7) (Some 9)]).
Proof.
  destruct (canonical_text_round_trips [span None (Some 2); span (Some 7) (Some 9)] AxLamports) as (p & Hp & _ & E).
  - split; [|repeat constructor; cbn; lia]. pose proof u128_max_pos.
    assert (10 < u128_max) by (vm_compute; reflexivity).
    unfold span_ok, span_wf, in_domain, span_lo, span_hi. repeat (constructor; cbn; [lia|]). constructor.
  - done.
  - done.
  - done.
  - rewrite Hp. f_equal. apply E. repeat (constructor; [split; vm_compute; congruence|]). constructor.
Defined.

Lemma around_three_ok a : a = None \/ a = Some 0 -> canonical [span a (Some 2); span (Some 4) None].
Proof.
  intros Ha. assert (10 < u128_max) by (vm_compute; reflexivity).
  split; [|repeat constructor; cbn; lia]. unfold span_ok, span_wf, in_domain, span_lo, span_hi.
  destruct Ha as [->| ->]; repeat (constructor; cbn; [lia|]); constructor.
Qed.

(** One set of values can still be stored in two ways: [<=5] and [0..5] match the
    same values and parse to different predicates, and so do [!=3] and [0..2 | >=4],
    although the second prints as the first. *)
Theorem two_spellings_of_one_set :
  let le5 := parse_predicate "<=5" AxCount in
  let upto5 := parse_predicate "0..5" AxCount in
  let ne3 := parse_predicate "!=3" AxCount in
  let around3 := parse_predicate "0..2 | >=4" AxCount in
  le5 <> upto5 /\ ne3 <> around3 /\
  (forall p q v, in_domain v -> le5 = Some p -> upto5 = Some q -> matches_num p v = matches_num q v) /\
  (forall p q v, in_domain v -> ne3 = Some p -> around3 = Some q -> matches_num p v = matches_num q v) /\
  (fun p => format_predicate p AxCount) <$> around3 = Some "!=3".
Proof.
  replace (parse_predicate "<=5" AxCount) with (Some (Range None (Some 5))) by (vm_compute; reflexivity).
  replace (parse_predicate "0..5" AxCount) with (Some (Range (Some 0) (Some 5))) by (vm_compute; reflexivity).
  replace (parse_predicate "!=3" AxCount) with (Some (Spans [span None (Some 2); span (Some 4) None]))
    by (vm_compute; reflexivity).
  replace (parse_predicate "0..2 | >=4" AxCount) with (Some (Spans [span (Some 0) (Some 2); span (Some 4) None]))
    by (vm_compute; reflexivity).
  cbv zeta. split_and!; [congruence|unfold span; congruence| | |vm_compute; reflexivity].
  - intros p q v Hv [= <-] [= <-]. unfold in_domain in Hv. cbn. lia.
  - intros p q v Hv [= <-] [= <-]. unfold in_domain in Hv.
    rewrite (matches_num_into_predicate [span None (Some 2); span (Some 4) None]),
      (matches_num_into_predicate [span (Some 0) (Some 2); span (Some 4) None]) by (auto using around_three_ok).
    unfold set_mem, span_contains. cbn. lia.
Qed.

(** ** What an expression denotes *)

Lemma digit_of_range c d : digit_of c = Some d -> 0 <= d <= 9.
Proof. unfold digit_of. destruct (_ && _) eqn:E; [|done]. intros [= <-]. lia. Qed.

Lemma parse_digits_range top acc s v : parse_digits top acc s = Some v -> 0 <= acc <= top -> 0 <= v <= top.
Proof.
  revert acc. induction s as [|c s IH]; intros acc; cbn [parse_digits]; [by intros [= <-]|].
  destruct (digit_of c) as [d|] eqn:Ed; [|done]. apply digit_of_range in Ed.
  destruct (Z.ltb_spec top (10 * acc + d)); [done|]. intros Hp Hacc. apply (IH _ Hp). lia.
Qed.

Lemma parse_uint_range s v : parse_uint u128_max s = Some v -> in_domain v.
Proof.
  unfold parse_uint, in_domain. pose proof u128_max_pos. destruct (match s with String _ _ => _ | _ => _ end); [done|].
  intros Hp. by apply (parse_digits_range _ _ _ _ Hp).
Qed.

Lemma checked_range a v : checked a = Some v -> in_domain v.
Proof. unfold checked, in_domain. destruct (_ && _) eqn:E; [|done]. intros [= <-]. lia. Qed.

Lemma parse_amount_range s unit v : parse_amount s unit = Some v -> in_domain v.
Proof.
  unfold parse_amount. destruct unit; try done; try (destruct (_ || _); [done|apply parse_uint_range]).
  unfold sol_text_to_lamports. destruct (unwrap_or _ _) as [w f]. destruct (_ || _); [done|].
  destruct (negb _); [done|]. intros (x & _ & (y & _ & (z & _ & (u & _ & Hu)%bind_Some)%bind_Some)%bind_Some)%bind_Some.
  by apply checked_range in Hu.
Qed.

Lemma set_one_canonical lo hi : span_wf (span lo hi) -> canonical (set_one (span lo hi)).
Proof. intros Hw. apply from_spans_spec. by apply Forall_singleton. Qed.

Lemma half_open_canonical sep text unit r set :
  half_open_at sep text unit = inr r -> r = Some set -> canonical set.
Proof.
  unfold half_open_at. destruct (split_once _ _) as [[lo hi]|]; [|done]. destruct (_ || _); [done|].
  intros [= <-] (a & Ha & (b & Hb & Hs)%bind_Some)%bind_Some.
  apply parse_amount_range in Ha, Hb. destruct (Z.leb_spec b a); [done|]. injection Hs as <-.
  apply set_one_canonical. unfold span_wf, in_domain in *. cbn. lia.
Qed.

Lemma operand_canonical text unit set : parse_operand text unit = Some set -> canonical set.
Proof.
  unfold parse_operand. destruct (split_once ".." text) as [[lo hi]|].
  { intros (a & Ha & (b & Hb & [= <-])%bind_Some)%bind_Some. apply parse_amount_range in Ha, Hb.
    by apply set_one_canonical. }
  destruct (half_open_at en_dash text unit) as [|r] eqn:E1; [|intros E; by eapply half_open_canonical].
  destruct (half_open_at "-" text unit) as [|r] eqn:E2; [|intros E; by eapply half_open_canonical].
  intros (v & Hv & ->)%fmap_Some. apply parse_amount_range in Hv. by apply set_one_canonical.
Qed.

Lemma atom_canonical text unit set : parse_atom text unit = Some set -> canonical set.
Proof.
  unfold parse_atom. case_bool_decide; [done|].
  destruct (find_map _ _) as [[op rest]|]; [|apply operand_canonical]. unfold apply_op.
  repeat case_bool_decide.
  - intros (v & Hv & ->)%fmap_Some. apply parse_amount_range in Hv. by apply set_one_canonical.
  - intros (v & Hv & ->)%fmap_Some. apply parse_amount_range in Hv. by apply set_one_canonical.
  - intros (v & _ & (w & Hw & [= <-])%bind_Some)%bind_Some. apply checked_range in Hw. by apply set_one_canonical.
  - intros (v & _ & (w & Hw & [= <-])%bind_Some)%bind_Some. apply checked_range in Hw. by apply set_one_canonical.
  - intros (t & Ht & ->)%fmap_Some. apply operand_canonical in Ht. by apply set_complement_spec.
  - apply operand_canonical.
Qed.

(** [v] is of the set a text parses to. *)
Definition denotes (parse : string -> AxisUnit -> option SpanSet) (text : string) (unit : AxisUnit) (v : Z) : Prop :=
  exists set, parse text unit = Some set /\ set_mem set v = true.

Section folds.
Context (step : option SpanSet -> string -> option SpanSet).
Context (step_none : forall s, step None s = None).

Lemma fold_none l : foldl step None l = None.
Proof. induction l as [|s l IH]; [done|]. cbn [foldl]. by rewrite step_none. Qed.
End folds.

Lemma arm_denotes arm unit set : parse_arm arm unit = Some set ->
  canonical set /\
  forall v, in_domain v ->
    set_mem set v = true <-> forall a, a ∈ split_on "," arm -> denotes parse_atom (trim a) unit v.
Proof.
  unfold parse_arm. set (step := fun acc raw_atom => _). generalize (split_on "," arm) as l. intros l.
  assert (Hall : canonical set_all).
  { apply canonical_one. pose proof u128_max_pos. unfold span_ok, span_wf, span_lo, span_hi. cbn. lia. }
  cut (forall l acc, foldl step (Some acc) l = Some set -> canonical acc ->
    canonical set /\ forall v, in_domain v -> set_mem set v = true <->
      set_mem acc v = true /\ forall a, a ∈ l -> denotes parse_atom (trim a) unit v).
  { intros H Hl. destruct (H l set_all Hl Hall) as [Hc Hm]. split; [done|]. intros v Hv. rewrite Hm by done.
    unfold in_domain in Hv. intuition. }
  clear l Hall. induction l as [|a l IH]; intros acc.
  { intros [= <-] Hc. split; [done|]. intros v _. split; [|by intros []]. intros Hm. split; [done|]. by intros a ?%not_elem_of_nil. }
  cbn [foldl]. unfold step at 2. cbn [mbind option_bind].
  destruct (parse_atom (trim a) unit) as [s|] eqn:Ea; cbn [option_bind]; [|by rewrite fold_none].
  intros Hf Hc. pose proof (atom_canonical _ _ _ Ea) as Hs. destruct (set_intersect_spec acc s Hc Hs) as [Hci Hmi].
  destruct (IH _ Hf Hci) as [Hcs Hm]. split; [done|]. intros v Hv.
  rewrite Hm, Hmi, andb_true_iff by done. split.
  - intros [[Hacc Hsv] Hl]. split; [done|]. intros b [->|Hb]%elem_of_cons; [by exists s|by apply Hl].
  - intros [Hacc Hl]. split; [split; [done|]|].
    + destruct (Hl a ltac:(by apply elem_of_cons; left)) as (s' & Ha' & Hv'). congruence.
    + intros b Hb. apply Hl. apply elem_of_cons. by right.
Qed.

(** An expression denotes the boolean combination it spells: a parse that succeeds
    gives a canonical set, and a value is in it exactly when some arm between the bars
    has every one of its atoms denote the value. *)
Theorem expressions_are_unions_of_intersections text unit set :
  parse_span_set text unit = Some set ->
  canonical set /\
  forall v, in_domain v ->
    set_mem set v = true <->
    exists arm, arm ∈ split_on "|" (trim text) /\
      forall atom, atom ∈ split_on "," (trim arm) -> denotes parse_atom (trim atom) unit v.
Proof.
  unfold parse_span_set. case_bool_decide; [done|]. generalize (split_on "|" (trim text)) as l. intros l.
  set (step := fun acc raw_arm => _).
  cut (forall l acc, foldl step (Some acc) l = Some set -> canonical acc ->
    canonical set /\ forall v, in_domain v -> set_mem set v = true <->
      set_mem acc v = true \/ exists arm, arm ∈ l /\
        forall atom, atom ∈ split_on "," (trim arm) -> denotes parse_atom (trim atom) unit v).
  { intros Hg Hl. destruct (Hg l set_none Hl) as [Hc Hm]; [by split; constructor|]. split; [done|].
    intros v Hv. rewrite Hm by done. cbn. intuition congruence. }
  clear l. induction l as [|a l IH]; intros acc.
  { intros [= <-] Hc. split; [done|]. intros v _. split; [by left|]. intros [?|(arm & []%not_elem_of_nil & _)]. done. }
  cbn [foldl]. unfold step at 2. cbn [mbind option_bind].
  case_bool_decide; [by rewrite fold_none|].
  destruct (parse_arm (trim a) unit) as [s|] eqn:Ea; cbn [option_bind]; [|by rewrite fold_none].
  intros Hf Hc. apply arm_denotes in Ea as [Hs Hms]. destruct (set_union_spec acc s Hc Hs) as [Hcu Hmu].
  destruct (IH _ Hf Hcu) as [Hcs Hm]. split; [done|]. intros v Hv.
  rewrite Hm, Hmu, orb_true_iff, Hms by done. split.
  - intros [[?|Hat]|(arm & Hin & Hat)]; [by left|right; exists a; by rewrite elem_of_cons; auto|].
    right. exists arm. rewrite elem_of_cons. auto.
  - intros [?|(arm & [->|Hin]%elem_of_cons & Hat)]; [by left; left|by left; right|]. right. eauto.
Qed.

Lemma expressions_are_unions_of_intersections_witness :
  set_mem [span (Some 1) (Some 4); span (Some 7) None] 5 = true <->
  exists arm, arm ∈ split_on "|" (trim "1-5 | >=7") /\
    forall atom, atom ∈ split_on "," (trim arm) -> denotes parse_atom (trim atom) AxCount 5.
Proof.
  refine (proj2 (expressions_are_unions_of_intersections "1-5 | >=7" AxCount _ _) 5 _).
  - vm_compute. reflexivity.
  - vm_compute. split; congruence.
Defined.
