(* ===== verification/Grouping.v ===== *)
(** * Grouping: partitioning a corpus by creation axes

    [grouping.rs]: the selectable fields, the partition of a numeric field into explicit
    windows, the group key of a token, the predicate a group promotes to and the text of
    its chip.  The stored JSON of a key is not modelled.  The counts of windows and the
    128-bit values are integers; [partition_point] is given by its contract, on edges in
    ascending order. *)

From S2P Require Import AxisFacts Grammar.
From S2P Require Export Fingerprint Grammar.

Module Groups.
Definition MISSING : string := of_bytes [226; 136; 133]%nat.

Inductive GroupField :=
  | TokenProgramId | IsCashbackEnabled | CuLimit | CuPrice | InitBuyLamports | MaxCostLamports
  | SpendableLamportsIn | FirstSlotBuyLamports | FirstSlotSellLamports | IxLabels | IxCount | PriorLaunches
  | CreateAta | BuildPrevDayLaunches | BuildPrevDayRunnerBps | NameReuseCount.

#[export] Instance GroupField_eq_dec : EqDecision GroupField.
Proof. solve_decision. Defined.

Definition ALL : list GroupField :=
  [TokenProgramId; IsCashbackEnabled; CuLimit; CuPrice; InitBuyLamports; MaxCostLamports;
   SpendableLamportsIn; FirstSlotBuyLamports; FirstSlotSellLamports; IxLabels; IxCount; PriorLaunches;
   CreateAta; BuildPrevDayLaunches; BuildPrevDayRunnerBps; NameReuseCount].

Definition axis (f : GroupField) : option AxisId :=
  match f with
  | TokenProgramId | IsCashbackEnabled => None
  | CuLimit => Some Axis.CuLimit
  | CuPrice => Some Axis.CuPrice
  | InitBuyLamports => Some Axis.InitBuyLamports
  | MaxCostLamports => Some Axis.MaxCostLamports
  | SpendableLamportsIn => Some Axis.SpendableLamportsIn
  | FirstSlotBuyLamports => Some Axis.FirstSlotBuyLamports
  | FirstSlotSellLamports => Some Axis.FirstSlotSellLamports
  | IxLabels => Some Axis.IxLabels
  | IxCount => Some Axis.IxCount
  | PriorLaunches => Some Axis.PriorLaunches
  | CreateAta => Some Axis.CreateAta
  | BuildPrevDayLaunches => Some Axis.BuildPrevDayLaunches
  | BuildPrevDayRunnerBps => Some Axis.BuildPrevDayRunnerBps
  | NameReuseCount => Some Axis.NameReuseCount
  end.

(** The [expect] never fires: [from_axis_total] in GroupingProps. *)
Definition from_axis (a : AxisId) : option GroupField :=
  find_first (fun f => bool_decide (axis f = Some a)) ALL.

Definition as_str (f : GroupField) : string :=
  match f with
  | TokenProgramId => "token_program_id"
  | IsCashbackEnabled => "is_cashback_enabled"
  | IxLabels => "ix_labels"
  | other => match axis other with Some a => axis_key a | None => "" end
  end.

Definition from_tag (tag : string) : option GroupField :=
  let t := trim tag in
  if bool_decide (t = "token_program_id") then Some TokenProgramId
  else if bool_decide (t = "is_cashback_enabled") then Some IsCashbackEnabled
  else if bool_decide (t = "initial_buy_sol") then Some InitBuyLamports
  else if bool_decide (t = "first_slot_buy_sol") then Some FirstSlotBuyLamports
  else if bool_decide (t = "first_slot_sell_sol") then Some FirstSlotSellLamports
  else find_first (fun f => bool_decide (as_str f = t)) ALL.

Definition unit_of (f : GroupField) : option AxisUnit :=
  a ← axis f;
  match ad_kind (axis_def a) with Numeric => Some (ad_unit (axis_def a)) | Sequence_ => None end.

Definition is_numeric (f : GroupField) : bool := is_someb (unit_of f).

(** ** Partitions *)

Inductive PartitionSpec := Distinct | Ranges (edges : list Z).

#[export] Instance PartitionSpec_eq_dec : EqDecision PartitionSpec.
Proof. solve_decision. Defined.

(** The loop over the [n - 1] quantile positions. *)
Definition push_edge (sorted : list Z) (n : nat) (edges : list Z) (i : nat) : list Z :=
  let at_ := (i * length sorted / n)%nat in
  let edge := nth (Nat.min at_ (length sorted - 1)) sorted 0 in
  let floor := nth 0 sorted 0 in
  if (floor <? edge) && negb (bool_decide (last edges = Some edge)) then edges ++ [edge] else edges.

Definition quantiles (values : list Z) (n : nat) : PartitionSpec :=
  if (n <? 2)%nat || (length values <? n)%nat then Distinct
  else
    let sorted := sort_by Z.leb values in
    match foldl (push_edge sorted n) [] (seq 1 (n - 1)) with
    | [] => Distinct
    | edges => Ranges edges
    end.

Definition partition_point (edges : list Z) (v : Z) : nat := length (take_while (fun e => e <=? v) edges).

Definition window_for (spec : PartitionSpec) (v : Z) : AxSpan :=
  match spec with
  | Distinct => span_exact v
  | Ranges edges =>
      let i := partition_point edges v in
      let min := if (i =? 0)%nat then None else edges !! (i - 1)%nat in
      let max := (fun e => e - 1) <$> edges !! i in
      span min max
  end.

(** ** Keys *)

Definition GroupPlan : Type := list (GroupField * PartitionSpec).

Definition plan_distinct (fields : list GroupField) : GroupPlan := map (fun f => (f, Distinct)) fields.

Definition plan_uniform (fields : list GroupField) (spec : PartitionSpec) : GroupPlan :=
  map (fun f => (f, if is_numeric f then spec else Distinct)) fields.

Inductive GroupValue :=
  | Missing
  | Text (value : string)
  | Flag (value : bool)
  | Labels (labels : list string)
  | Windows (spans : list AxSpan)
  | Window (min max : option Z).

#[export] Instance GroupValue_eq_dec : EqDecision GroupValue.
Proof. solve_decision. Defined.

Definition to_predicate (g : GroupValue) : option AxisPredicate :=
  match g with
  | Window min max => Some (Range min max)
  | Windows spans => Some (into_predicate (from_spans spans))
  | Labels labels => Some (Sequence labels)
  | Missing | Text _ | Flag _ => None
  end.

(** The dash and the signs of a chip are the characters U+2013, U+2265 and U+2264. *)
Definition render_window (min max : option Z) (n : Z -> string) : string :=
  match min, max with
  | Some a, Some b => if a =? b then n a else n a +:+ en_dash +:+ n b
  | Some a, None => of_bytes [226; 137; 165]%nat +:+ n a
  | None, Some b => of_bytes [226; 137; 164]%nat +:+ n b
  | None, None => "any"
  end.

Definition render (g : GroupValue) (unit : option AxisUnit) : string :=
  let n v := match unit with Some AxLamports => sol_label v | _ => pretty v end in
  match g with
  | Missing => MISSING
  | Text value => value
  | Flag value => if value then "true" else "false"
  | Labels labels => join " | " labels
  | Window min max => render_window min max n
  | Windows spans => join " | " (map (fun s => render_window (s_min s) (s_max s) n) spans)
  end.

Definition configured_labels (labels : option (list string)) : option (list string) :=
  match labels with Some [] => None | _ => labels end.

Definition field_value (tf : TokenFingerprint) (f : GroupField) (spec : PartitionSpec) : GroupValue :=
  match f with
  | TokenProgramId => match token_program_id tf with Some v => Text v | None => Missing end
  | IsCashbackEnabled => Flag (is_cashback_enabled tf)
  | IxLabels => match configured_labels (Some (ix_labels tf)) with Some l => Labels l | None => Missing end
  | other =>
      match a ← axis other; read_num a tf with
      | None => Missing
      | Some v => let w := window_for spec v in Window (s_min w) (s_max w)
      end
  end.

Definition GroupKey : Type := list (GroupField * GroupValue).

Definition group_key (tf : TokenFingerprint) (plan : GroupPlan) : GroupKey :=
  map (fun '(f, spec) => (f, field_value tf f spec)) plan.

Definition parse_filter (text : string) (unit : AxisUnit) : option AxisPredicate := parse_predicate text unit.
End Groups.

(** ** Partitions, group keys and chips

    The windows of a partition tile the domain, quantile windows are never empty, the
    predicate a group promotes to matches exactly the group's tokens, and the text of a
    bounded chip parses to a window that has lost its top value. *)

Import Groups.

(** ** Windows *)

Definition ascending (edges : list Z) : Prop := StronglySorted Z.lt edges.

Lemma partition_point_cons e edges v :
  partition_point (e :: edges) v = if e <=? v then S (partition_point edges v) else O.
Proof. unfold partition_point. cbn. by destruct (e <=? v). Qed.

Lemma below_partition edges v i e :
  ascending edges -> edges !! i = Some e -> (i < partition_point edges v)%nat <-> e <= v.
Proof.
  intros Hs. revert i. induction Hs as [|a edges Hs IH HF]; intros i Hi; [done|].
  rewrite partition_point_cons. destruct (Z.leb_spec a v) as [Ha|Ha].
  - destruct i as [|i]; cbn in Hi; [injection Hi as <-; split; [done|lia]|].
    rewrite <- (IH i Hi). lia.
  - split; [lia|]. intros He. destruct i as [|i]; cbn in Hi; [injection Hi as <-; lia|].
    rewrite Forall_forall in HF. specialize (HF e (list_elem_of_lookup_2 _ _ _ Hi)). lia.
Qed.

Lemma partition_point_le edges v : (partition_point edges v <= length edges)%nat.
Proof. induction edges as [|e edges IH]; [done|]. rewrite partition_point_cons. cbn. destruct (_ <=? _); lia. Qed.

Lemma window_contains edges v v' : ascending edges -> in_domain v' ->
  span_contains (window_for (Ranges edges) v) v' = true <-> partition_point edges v' = partition_point edges v.
Proof.
  intros Hs Hv'. unfold window_for. set (i := partition_point edges v).
  pose proof (partition_point_le edges v) as Hle. pose proof (partition_point_le edges v') as Hle'. fold i in Hle.
  unfold span_contains, span. cbn [s_min s_max]. rewrite andb_true_iff.
  assert (Hlo : is_none_or (if (i =? 0)%nat then None else edges !! (i - 1)%nat) (fun lo => lo <=? v') = true
                <-> (i <= partition_point edges v')%nat).
  { destruct (Nat.eqb_spec i 0) as [E|E]; [cbn; split; [lia|done]|].
    destruct (edges !! (i - 1)%nat) as [e|] eqn:He; [|apply lookup_ge_None in He; lia].
    cbn. rewrite Z.leb_le, <- (below_partition edges v' (i - 1) e Hs He). lia. }
  assert (Hhi : is_none_or ((fun e => e - 1) <$> edges !! i) (fun hi => v' <=? hi) = true
                <-> (partition_point edges v' <= i)%nat).
  { destruct (edges !! i) as [e|] eqn:He; cbn.
    - rewrite Z.leb_le. pose proof (below_partition edges v' i e Hs He). lia.
    - apply lookup_ge_None in He. split; [lia|done]. }
  rewrite Hlo, Hhi. lia.
Qed.

(** The windows of a partition tile the domain: every value lies in its own window,
    and a value lies in the window of another exactly when both have the same window. *)
Theorem windows_tile_the_domain spec v v' :
  match spec with Ranges edges => ascending edges | Distinct => True end ->
  in_domain v -> in_domain v' ->
  span_contains (window_for spec v) v = true /\
  (span_contains (window_for spec v) v' = true <-> window_for spec v' = window_for spec v).
Proof.
  destruct spec as [|edges]; intros Hs Hv Hv'.
  - unfold window_for, span_contains, span_exact. cbn. split; [lia|]. split; [intros; f_equal; f_equal; lia|].
    intros [= ->]. lia.
  - split; [by apply window_contains|]. rewrite window_contains by done. split.
    + intros E. unfold window_for. by rewrite E.
    + intros E. apply (window_contains edges v v'); [done..|]. rewrite <- E. by apply window_contains.
Qed.

Lemma windows_tile_the_domain_witness :
  span_contains (window_for (Ranges [10; 20; 30]) 9) 9 = true.
Proof.
  refine (proj1 (windows_tile_the_domain (Ranges [10; 20; 30]) 9 9 _ _ _)).
  - repeat constructor.
  - vm_compute. split; congruence.
  - vm_compute. split; congruence.
Defined.

(** ** Quantiles *)

Lemma nth_In_sorted (sorted : list Z) k : (k < length sorted)%nat -> nth k sorted 0 ∈ sorted.
Proof. intros Hk. apply list_elem_of_In, nth_In, Hk. Qed.

Lemma sorted_nth_mono (sorted : list Z) i j : StronglySorted (fun a b => (a <=? b) = true) sorted ->
  (i <= j < length sorted)%nat -> nth i sorted 0 <= nth j sorted 0.
Proof.
  intros Hs. revert i j. induction Hs as [|a l Hs IH HF]; intros i j Hij; cbn in *; [lia|].
  destruct i as [|i], j as [|j]; try lia.
  - rewrite Forall_forall in HF. specialize (HF (nth j l 0) (nth_In_sorted l j ltac:(lia))). lia.
  - apply IH. lia.
Qed.

Section quantiles.
Context (values : list Z) (n : nat) (Hn : (2 <= n)%nat) (Hlen : (n <= length values)%nat).
Definition sorted_values : list Z := sort_by Z.leb values.
Definition at_index (i : nat) : nat := Nat.min (i * length sorted_values / n) (length sorted_values - 1).

Lemma sorted_length : length sorted_values = length values.
Proof. unfold sorted_values. by rewrite (sort_by_perm Z.leb values). Qed.

Lemma sorted_ok : StronglySorted (fun a b => (a <=? b) = true) sorted_values.
Proof. apply sort_by_sorted; intros; lia. Qed.

Lemma at_index_lt i : (at_index i < length sorted_values)%nat.
Proof. unfold at_index. rewrite sorted_length. lia. Qed.

Lemma at_index_mono i j : (i <= j)%nat -> (at_index i <= at_index j)%nat.
Proof.
  intros Hij. unfold at_index. assert (i * length sorted_values / n <= j * length sorted_values / n)%nat; [|lia].
  apply Nat.Div0.div_le_mono. nia.
Qed.

Lemma floor_seen : nth 0 sorted_values 0 ∈ values.
Proof.
  unfold sorted_values. rewrite <- (sort_by_perm Z.leb values) at 2.
  apply nth_In_sorted. rewrite (sort_by_perm Z.leb values). lia.
Qed.

(** The edges pushed so far: ascending, above the floor, observed, up to the last position. *)
Definition edges_ok (k : nat) (edges : list Z) : Prop :=
  ascending edges /\ Forall (fun e => nth 0 sorted_values 0 < e /\ e ∈ values) edges /\
  Forall (fun e => e <= nth (at_index k) sorted_values 0) edges.

Lemma ascending_app edges e : ascending edges -> Forall (fun x => x < e) edges -> ascending (edges ++ [e]).
Proof.
  intros Hs HF. induction Hs as [|a l Hs IH HFa]; cbn; [repeat constructor|].
  apply Forall_cons in HF as [Ha HF]. constructor; [by apply IH|].
  apply Forall_app. split; [done|]. by constructor.
Qed.

Lemma ascending_last edges x e : ascending edges -> x ∈ edges -> last edges = Some e -> x <= e.
Proof.
  intros Hs. induction Hs as [|a l Hs IH HF]; intros Hx He; [by apply not_elem_of_nil in Hx|].
  destruct l as [|b l].
  - apply list_elem_of_singleton in Hx as ->. cbn in He. injection He as ->. lia.
  - assert (He' : last (b :: l) = Some e) by done. apply elem_of_cons in Hx as [->|Hx]; [|by apply IH].
    rewrite Forall_forall in HF. assert (Hin : e ∈ b :: l) by by apply last_Some_elem_of.
    specialize (HF e Hin). lia.
Qed.

Lemma push_edge_ok k edges : edges_ok k edges -> edges_ok (S k) (push_edge sorted_values n edges (S k)).
Proof.
  intros (Hs & Hf & Hb). unfold push_edge. fold (at_index (S k)).
  assert (Hmono : nth (at_index k) sorted_values 0 <= nth (at_index (S k)) sorted_values 0).
  { apply sorted_nth_mono; [apply sorted_ok|]. pose proof (at_index_mono k (S k)). pose proof (at_index_lt (S k)). lia. }
  assert (Hb' : Forall (fun e => e <= nth (at_index (S k)) sorted_values 0) edges).
  { eapply Forall_impl; [exact Hb|]. cbn. intros. lia. }
  destruct (_ && _) eqn:E; [|by split_and!]. apply andb_prop in E as [Efl Elast].
  apply Z.ltb_lt in Efl. rewrite negb_true_iff, bool_decide_eq_false in Elast.
  split_and!.
  - apply ascending_app; [done|]. apply Forall_forall. intros x Hx.
    rewrite Forall_forall in Hb'. specialize (Hb' x Hx).
    destruct (decide (x = nth (at_index (S k)) sorted_values 0)) as [->|]; [|lia]. exfalso. apply Elast.
    destruct (last edges) as [e|] eqn:He; [|by apply last_None in He as ->; apply not_elem_of_nil in Hx].
    f_equal. pose proof (ascending_last _ _ _ Hs Hx He).
    rewrite Forall_forall in Hb. specialize (Hb e ltac:(by apply last_Some_elem_of)). lia.
  - apply Forall_app. split; [done|]. constructor; [|constructor]. split; [done|].
    rewrite <- (sort_by_perm Z.leb values). apply nth_In_sorted, at_index_lt.
  - apply Forall_app. split; [done|]. by constructor.
Qed.

Lemma quantile_edges_ok m k edges : edges_ok k edges ->
  edges_ok (k + m) (foldl (push_edge sorted_values n) edges (seq (S k) m)).
Proof.
  revert k edges. induction m as [|m IH]; intros k edges Hok; cbn; [by rewrite Nat.add_0_r|].
  replace (k + S m)%nat with (S k + m)%nat by lia. by apply IH, push_edge_ok.
Qed.
End quantiles.

(** Quantile edges make a partition that means what it says: the edges are strictly
    ascending and every window of the partition holds an observed value. *)
Theorem quantile_windows_are_not_empty values n edges :
  Forall in_domain values -> quantiles values n = Ranges edges ->
  ascending edges /\ edges <> [] /\
  forall v, in_domain v -> exists x, x ∈ values /\ window_for (Ranges edges) x = window_for (Ranges edges) v.
Proof.
  intros Hd. unfold quantiles. destruct (_ || _) eqn:E; [done|]. apply orb_false_iff in E as [En El].
  apply Nat.ltb_ge in En, El. fold (sorted_values values).
  pose proof (quantile_edges_ok values n En El (n - 1) 0 []) as Hok. cbn [Nat.add] in Hok.
  destruct (foldl _ _ _) as [|e0 l] eqn:Ef; [done|]. intros [= <-].
  destruct Hok as (Hs & Hf & _); [by split_and!; constructor|]. split_and!; [done|done|]. intros v Hv.
  assert (Hx : exists x, x ∈ values /\ partition_point (e0 :: l) x = partition_point (e0 :: l) v).
  2: { destruct Hx as (x & Hx & Ep). exists x. split; [done|]. unfold window_for. by rewrite Ep. }
  destruct (partition_point (e0 :: l) v) as [|i] eqn:Ei.
  - exists (nth 0 (sorted_values values) 0). split; [by apply (floor_seen values n)|].
    apply Forall_cons in Hf as [[Hf _] _]. rewrite partition_point_cons.
    destruct (Z.leb_spec e0 (nth 0 (sorted_values values) 0)); [lia|done].
  - pose proof (partition_point_le (e0 :: l) v) as Hle.
    destruct ((e0 :: l) !! i) as [e|] eqn:He; [|apply lookup_ge_None in He; lia].
    exists e. rewrite Forall_forall in Hf. split; [apply Hf; by eapply list_elem_of_lookup_2|].
    pose proof (proj2 (below_partition _ e i e Hs He) ltac:(lia)) as H1.
    pose proof (partition_point_le (e0 :: l) e) as Hle'.
    destruct ((e0 :: l) !! (S i)) as [e'|] eqn:He'; [|apply lookup_ge_None in He'; lia].
    assert (H2 : ~ (S i < partition_point (e0 :: l) e)%nat).
    { rewrite (below_partition _ e (S i) e' Hs He').
      assert (Hlt : (i < partition_point (e0 :: l) v)%nat) by lia.
      assert (Hv' : ~ (S i < partition_point (e0 :: l) v)%nat) by lia.
      rewrite (below_partition _ v (S i) e' Hs He') in Hv'. rewrite (below_partition _ v i e Hs He) in Hlt. lia. }
    lia.
Qed.

Lemma quantile_windows_are_not_empty_witness :
  exists x, x ∈ [1; 2; 3; 4; 5; 6; 7; 8] /\
    window_for (Ranges [3; 5; 7]) x = window_for (Ranges [3; 5; 7]) 6.
Proof.
  refine (proj2 (proj2 (quantile_windows_are_not_empty [1; 2; 3; 4; 5; 6; 7; 8] 4 [3; 5; 7] _ _)) 6 _).
  - repeat (constructor; [vm_compute; split; congruence|]). constructor.
  - vm_compute. reflexivity.
  - vm_compute. split; congruence.
Defined.

(** ** Groups and fingerprints *)

Definition spec_ok (spec : PartitionSpec) : Prop :=
  match spec with Ranges edges => ascending edges | Distinct => True end.

Definition axes_in_domain (tf : TokenFingerprint) : Prop :=
  forall a v, read_num a tf = Some v -> in_domain v.

Lemma numeric_field f a : axis f = Some a -> f <> IxLabels -> ad_kind (axis_def a) = Numeric.
Proof. by destruct f; intros [= <-]. Qed.

Lemma field_value_numeric tf f a spec : axis f = Some a -> f <> IxLabels ->
  field_value tf f spec =
  match read_num a tf with
  | None => Missing
  | Some v => Window (s_min (window_for spec v)) (s_max (window_for spec v))
  end.
Proof. by destruct f; intros [= <-]. Qed.

Lemma span_eta s t : s_min s = s_min t -> s_max s = s_max t -> s = t.
Proof. destruct s, t. cbn. congruence. Qed.

Definition labels_value (labels : list string) : GroupValue :=
  match configured_labels (Some labels) with Some l => Labels l | None => Missing end.

Lemma matches_seq_exact labels obs : matches_seq (Sequence labels) obs = true <-> obs = labels.
Proof.
  unfold matches_seq. rewrite andb_true_iff, bool_decide_eq_true, Nat.eqb_eq.
  split; [by intros [_ ->]|by intros ->].
Qed.

(** Promoting a group to a fingerprint is exact: the predicate of a token's group on
    an axis matches precisely the tokens that fall in the same group. *)
Theorem promoted_group_matches_its_tokens f a spec tf tf' p :
  axis f = Some a -> spec_ok spec -> axes_in_domain tf -> axes_in_domain tf' ->
  to_predicate (field_value tf f spec) = Some p ->
  axis_matches (a, p) tf' = true <-> field_value tf' f spec = field_value tf f spec.
Proof.
  intros Ha Hs Hd Hd' Hp. destruct (decide (f = IxLabels)) as [->|Hf].
  - injection Ha as <-. change (field_value tf IxLabels spec) with (labels_value (ix_labels tf)) in *.
    change (field_value tf' IxLabels spec) with (labels_value (ix_labels tf')).
    destruct (ix_labels tf) as [|l ls] eqn:El; cbn in Hp; [done|]. injection Hp as <-.
    change (axis_matches (Axis.IxLabels, Sequence (l :: ls)) tf')
      with (matches_seq (Sequence (l :: ls)) (ix_labels tf')).
    rewrite matches_seq_exact. destruct (ix_labels tf') as [|l' ls']; cbn; split; intros E; congruence.
  - rewrite !(field_value_numeric _ f a) in * by done. unfold axis_matches.
    destruct (read_num a tf) as [v|] eqn:Ev; [|done]. injection Hp as <-. cbn [pred_kind fst snd matches_num].
    specialize (Hd a v Ev). destruct (read_num a tf') as [v'|] eqn:Ev'; cbn; [|by split].
    specialize (Hd' a v' Ev').
    destruct (windows_tile_the_domain spec v v' Hs Hd Hd') as [_ Htile].
    change (span_contains (window_for spec v) v' = true <->
      Window (s_min (window_for spec v')) (s_max (window_for spec v'))
      = Window (s_min (window_for spec v)) (s_max (window_for spec v))).
    rewrite Htile. split; [by intros ->|]. intros [= E1 E2]. by apply span_eta.
Qed.

Definition with_cu_limit (v : Z) : TokenFingerprint := {|
  token_program_id := None; is_cashback_enabled := false; cu_limit := Some v; cu_price := None;
  init_buy_lamports := None; max_cost_lamports := None; spendable_lamports_in := None;
  first_slot_buy_lamports := None; first_slot_sell_lamports := None; ix_labels := [];
  prior_launches := None; build_prev_day_launches := None; build_prev_day_runner_bps := None;
  name_reuse_count := None |}.

Lemma with_cu_limit_in v : in_domain v -> axes_in_domain (with_cu_limit v).
Proof.
  intros Hv a x. pose proof u128_max_pos. destruct a; cbn; intros [= <-]; try done; unfold in_domain; lia.
Qed.

Lemma promoted_group_matches_its_tokens_witness :
  axis_matches (Axis.CuLimit, Range (Some 10) (Some 19)) (with_cu_limit 19) = true <->
  field_value (with_cu_limit 19) CuLimit (Ranges [10; 20]) = field_value (with_cu_limit 12) CuLimit (Ranges [10; 20]).
Proof.
  refine (promoted_group_matches_its_tokens CuLimit Axis.CuLimit (Ranges [10; 20]) (with_cu_limit 12) (with_cu_limit 19)
    (Range (Some 10) (Some 19)) _ _ _ _ _).
  - reflexivity.
  - repeat constructor.
  - apply with_cu_limit_in. vm_compute. split; congruence.
  - apply with_cu_limit_in. vm_compute. split; congruence.
  - vm_compute. reflexivity.
Defined.

(** ** Chips *)

Lemma split_once_app sep_head sep_tail s t : Forall (fun c => c <> sep_head) (chars s) ->
  split_once (String sep_head sep_tail) (s +:+ String sep_head sep_tail +:+ t) = Some (s, t).
Proof.
  induction s as [|c s IH]; intros Hs.
  - change ("" +:+ String sep_head sep_tail +:+ t) with (String sep_head (sep_tail +:+ t)). cbn [split_once].
    pose proof (strip_prefix_app (String sep_head sep_tail) t) as E.
    change (String sep_head sep_tail +:+ t) with (String sep_head (sep_tail +:+ t)) in E. by rewrite E.
  - apply Forall_cons in Hs as [Hc Hs].
    change (String c s +:+ String sep_head sep_tail +:+ t) with (String c (s +:+ String sep_head sep_tail +:+ t)).
    cbn [split_once]. rewrite strip_other by (apply Ascii.eqb_neq; congruence). by rewrite IH.
Qed.

Lemma no_dots_dash a b : amount a = true -> amount b = true ->
  split_once ".." (a +:+ en_dash +:+ b) = None.
Proof.
  intros (Ha & _)%amount_some (Hb & _)%amount_some.
  assert (Hd : split_once ".." (en_dash +:+ b) = None).
  { change (en_dash +:+ b) with (String (ascii_of_nat 226) (String (ascii_of_nat 128) (String (ascii_of_nat 147) b))).
    cbn [split_once]. rewrite !strip_other by done. by rewrite split_dots_none. }
  induction a as [|c a IH]; [done|]. apply amount_cons in Ha as [Hc Ha].
  change (String c a +:+ en_dash +:+ b) with (String c (a +:+ en_dash +:+ b)). cbn [split_once]. rewrite IH by done.
  destruct Hc as [Hc|[-> Hn]]; [by rewrite strip_dots|].
  apply amount_some in Hn as (_ & d & r & -> & Hd').
  change (String d r +:+ en_dash +:+ b) with (String d (r +:+ en_dash +:+ b)). by rewrite strip_dot_digit.
Qed.

(** A chip pasted into a filter loses its top value: the text of a window from [a]
    up to and including [b] parses to the window from [a] to [b - 1], so the tokens at
    [b] are of the group and not of the filter. *)
Theorem chip_text_drops_its_top_value a b unit :
  in_domain a -> in_domain b -> a < b -> unit <> AxLabels ->
  let chip := Window (Some a) (Some b) in
  parse_filter (render chip (Some unit)) unit = Some (Range (Some a) (Some (b - 1))) /\
  (exists p, to_predicate chip = Some p /\ matches_num p b = true) /\
  matches_num (Range (Some a) (Some (b - 1))) b = false.
Proof.
  intros Ha Hb Hab Hu chip. split_and!.
  2: { exists (Range (Some a) (Some b)). split; [done|]. cbn. lia. }
  2: { cbn. lia. }
  pose proof (render_is_amount a unit Ha) as Hta. pose proof (render_is_amount b unit Hb) as Htb.
  assert (Hr : render chip (Some unit) = render_amount a unit +:+ en_dash +:+ render_amount b unit).
  { unfold chip, render, render_window. rewrite (proj2 (Z.eqb_neq a b)) by lia. by destruct unit. }
  rewrite Hr. set (text := render_amount a unit +:+ en_dash +:+ render_amount b unit).
  assert (Hok : span_ok (span (Some a) (Some (b - 1)))).
  { unfold span_ok, span_wf, in_domain, span_lo, span_hi in *. cbn. lia. }
  assert (Hp : parse_operand text unit = Some [span (Some a) (Some (b - 1))]).
  { unfold parse_operand, text. rewrite no_dots_dash by done. unfold half_open_at.
    change en_dash with (String (ascii_of_nat 226) (of_bytes [128; 147]%nat)).
    rewrite split_once_app by (by apply amount_without).
    rewrite !trim_tight by by apply amount_tight.
    rewrite !bool_decide_eq_false_2 by (intros E; first [by rewrite E in Hta|by rewrite E in Htb]).
    cbn [orb]. rewrite !parse_render by done. cbn [mbind option_bind].
    rewrite (proj2 (Z.leb_gt b a)) by lia. by rewrite set_one_ok. }
  assert (Hne : text <> "").
  { unfold text. apply amount_some in Hta as (_ & c & r & -> & _). done. }
  assert (Hatom : parse_atom text unit = Some [span (Some a) (Some (b - 1))]).
  { unfold parse_atom. rewrite bool_decide_eq_false_2 by done. unfold text in *. by rewrite op_none_app. }
  assert (Hno : forall x, is_digit x = false -> x <> "."%char -> x <> ascii_of_nat 226 -> x <> ascii_of_nat 128 ->
    x <> ascii_of_nat 147 -> Forall (fun c => c <> x) (chars text)).
  { intros x H1 H2 H3 H4 H5. unfold text. rewrite !chars_app. repeat (apply Forall_app; split).
    - by apply amount_without.
    - repeat constructor; by apply not_eq_sym.
    - by apply amount_without. }
  assert (Htight : tight text).
  { split_and!; [done| |].
    - unfold text. apply amount_some in Hta as (_ & c & r & -> & Hc). by apply digit_plain.
    - unfold text. rewrite <- append_assoc, string_rev_app.
      pose proof (amount_tight _ Htb) as (Hbn & _ & Hbl). rewrite first_plain_app; [done|].
      intros E. apply (f_equal string_rev) in E. by rewrite string_rev_involutive in E. }
  unfold parse_filter, parse_predicate, parse_span_set. rewrite trim_tight by done.
  rewrite bool_decide_eq_false_2 by done. rewrite split_on_none by (by apply Hno).
  cbn [foldl mbind option_bind]. rewrite trim_tight, bool_decide_eq_false_2 by done.
  unfold parse_arm. rewrite split_on_none by (by apply Hno). cbn [foldl mbind option_bind].
  rewrite trim_tight by done. rewrite Hatom. cbn [mbind option_bind].
  rewrite intersect_all by by apply canonical_one.
  unfold set_union, set_none. cbn [app]. rewrite from_spans_canonical_id by by apply canonical_one. done.
Qed.

Lemma chip_text_drops_its_top_value_witness :
  parse_filter (render (Window (Some 1000000000) (Some 1999999999)) (Some AxLamports)) AxLamports
  = Some (Range (Some 1000000000) (Some 1999999998)).
Proof.
  refine (proj1 (chip_text_drops_its_top_value 1000000000 1999999999 AxLamports _ _ _ _)).
  - vm_compute. split; congruence.
  - vm_compute. split; congruence.
  - reflexivity.
  - discriminate.
Defined.

(** ** Tags *)

(** Every field's tag reads back to it, and every axis has a field. *)
Lemma field_tags_round_trip : Forall (fun f => from_tag (as_str f) = Some f) ALL.
Proof. repeat (constructor; [vm_compute; reflexivity|]). constructor. Qed.

Lemma from_axis_total : Forall (fun a => (f ← from_axis a; axis f) = Some a) Axis.ALL.
Proof. repeat (constructor; [vm_compute; reflexivity|]). constructor. Qed.
