(* ===== verification/Rounding.v ===== *)
(** * Rounding: the arithmetic of binary64 is monotone

    [SpecFloat] rounds through a mantissa, an exponent and the location of the exact
    value between two mantissas.  Exact values are integers here: a value is counted in
    units of [2^-6000] divided by [d], the mantissa of a divisor, so that one comparison of
    integers orders exact quotients, products and differences alike.  The rounded result
    depends on that integer alone and rises with it; so subtracting, dividing by and
    multiplying by a fixed positive float are monotone, infinities included. *)

From S2P Require Export Float64.

Abbreviation fexp64 := (fexp 53 1024).
Abbreviation round64 := (binary_round_aux 53 1024).

(** The size of one step at exponent [e]. *)
Definition ulp (d e : Z) : Z := d * 2 ^ (e + 6000).

Lemma ulp_add d e n : -6000 <= e -> 0 <= n -> ulp d (e + n) = 2 ^ n * ulp d e.
Proof.
  intros He Hn. unfold ulp. replace (e + n + 6000) with (n + (e + 6000)) by lia.
  rewrite Z.pow_add_r by lia. lia.
Qed.

Lemma ulp_pos d e : 0 < d -> -6000 <= e -> 0 < ulp d e.
Proof. intros. unfold ulp. pose proof (Z.pow_pos_nonneg 2 (e + 6000)). nia. Qed.

(** The exact value [n] lies at [m] steps of [e], at the location [l] above it. *)
Definition located (d m e : Z) (l : location) (n : Z) : Prop :=
  match l with
  | loc_Exact => n = m * ulp d e
  | loc_Inexact c => m * ulp d e < n < (m + 1) * ulp d e /\ (2 * n ?= (2 * m + 1) * ulp d e) = c
  end.

Lemma located_between d m e l n : 0 < ulp d e -> located d m e l n -> m * ulp d e <= n < (m + 1) * ulp d e.
Proof. destruct l; cbn; lia. Qed.

Lemma loc_of_record_of m l : loc_of_shr_record (shr_record_of_loc m l) = l.
Proof. by destruct l as [|[]]. Qed.

Lemma shr_m_record_of m l : shr_m (shr_record_of_loc m l) = m.
Proof. by destruct l as [|[]]. Qed.

Lemma half_xI p : Z.pos p~1 / 2 = Z.pos p.
Proof. rewrite Pos2Z.inj_xI. symmetry. apply (Z.div_unique _ _ _ 1); lia. Qed.

Lemma half_xO p : Z.pos p~0 / 2 = Z.pos p.
Proof. rewrite Pos2Z.inj_xO. symmetry. apply (Z.div_unique _ _ _ 0); lia. Qed.

Lemma half_1 : 1 / 2 = 0.
Proof. done. Qed.

Lemma half_0 : 0 / 2 = 0.
Proof. done. Qed.

Lemma shr_1_located d e n r :
  0 < d -> -6000 <= e -> 0 <= shr_m r -> located d (shr_m r) e (loc_of_shr_record r) n ->
  shr_m (shr_1 r) = shr_m r / 2 /\ located d (shr_m r / 2) (e + 1) (loc_of_shr_record (shr_1 r)) n.
Proof.
  intros Hd He Hm Hl. pose proof (ulp_pos d e Hd He) as Hu.
  pose proof (ulp_add d e 1 He ltac:(lia)) as Hs. change (2 ^ 1) with 2 in Hs.
  unfold located in *. rewrite Hs. clear Hs. revert Hl Hu. generalize (ulp d e). intros u Hl Hu.
  destruct r as [m b s]. cbn [shr_m] in *.
  destruct m as [|[p|p|]|p]; try lia.
  all: destruct b, s; cbn [shr_1 shr_m loc_of_shr_record orb] in Hl |- *.
  all: rewrite ?half_xI, ?half_xO, ?half_1, ?half_0.
  all: try rewrite Pos2Z.inj_xI in Hl; try rewrite Pos2Z.inj_xO in Hl.
  all: split; [done|].
  all: rewrite ?Z.compare_lt_iff, ?Z.compare_gt_iff, ?Z.compare_eq_iff in *.
  all: try lia.
Qed.

Lemma iter_pos_add {A} (f : A -> A) p x : SpecFloat.iter_pos f p x = Nat.iter (Pos.to_nat p) f x.
Proof.
  revert x. induction p as [p IH|p IH|]; intros x; cbn [SpecFloat.iter_pos]; [| |done].
  - rewrite !IH, Pos2Nat.inj_xI, Nat.mul_comm, Nat.iter_succ_r. cbn [Nat.mul].
    rewrite <- Nat.iter_add. f_equal. lia.
  - rewrite !IH, Pos2Nat.inj_xO, <- Nat.iter_add. f_equal. lia.
Qed.

Lemma iter_shr_located d e n r k :
  0 < d -> -6000 <= e -> 0 <= shr_m r -> located d (shr_m r) e (loc_of_shr_record r) n ->
  let r' := Nat.iter k shr_1 r in
  shr_m r' = shr_m r / 2 ^ Z.of_nat k /\ located d (shr_m r') (e + Z.of_nat k) (loc_of_shr_record r') n.
Proof.
  intros Hd He Hm Hl. induction k as [|k [IH1 IH2]]; cbn [Nat.iter nat_rect].
  { rewrite Z.add_0_r. change (2 ^ Z.of_nat 0) with 1. by rewrite Z.div_1_r. }
  change (nat_rect (fun _ => shr_record) r (fun _ => shr_1) k) with (Nat.iter k shr_1 r) in *.
  pose proof (Z.div_pos (shr_m r) (2 ^ Z.of_nat k) Hm ltac:(lia)) as Hp. rewrite <- IH1 in Hp.
  destruct (shr_1_located d (e + Z.of_nat k) n (Nat.iter k shr_1 r)) as [H1 H2]; [lia..|done|].
  rewrite Nat2Z.inj_succ, Z.pow_succ_r by lia. rewrite H1. split.
  - rewrite IH1, Z.div_div by lia. f_equal. lia.
  - replace (e + Z.succ (Z.of_nat k)) with (e + Z.of_nat k + 1) by lia. done.
Qed.

Lemma digits2_bounds p : let k := Z.pos (digits2_pos p) in 2 ^ (k - 1) <= Z.pos p < 2 ^ k.
Proof.
  induction p as [p IH|p IH|]; cbn [digits2_pos]; [| |done]; cbn zeta in *.
  all: rewrite Pos2Z.inj_succ; set (k := Z.pos (digits2_pos p)) in *; assert (0 < k) by (unfold k; lia).
  all: replace (Z.succ k - 1) with (Z.succ (k - 1)) by lia; rewrite !Z.pow_succ_r by lia; lia.
Qed.

Lemma Zdigits2_bounds m : 0 <= m -> 0 <= Zdigits2 m /\ m < 2 ^ Zdigits2 m /\ (0 < m -> 2 ^ (Zdigits2 m - 1) <= m).
Proof. destruct m as [|p|p]; cbn [Zdigits2]; [done| |lia]. intros _. pose proof (digits2_bounds p). cbn in *. lia. Qed.

(** ** Normal form

    At most 53 bits, and all 53 of them unless the exponent is the least one. *)

Definition normal (m e : Z) : Prop := -1074 <= e /\ 0 <= m < 2 ^ 53 /\ (e = -1074 \/ 2 ^ 52 <= m).

Lemma fexp64_eq e : fexp64 e = Z.max (e - 53) (-1074).
Proof. done. Qed.

Lemma shr_as_iter r e k : 0 <= k -> shr r e k = (Nat.iter (Z.to_nat k) shr_1 r, e + k).
Proof.
  intros Hk. destruct k as [|p|p]; cbn [shr]; [by rewrite Z.add_0_r| |lia].
  by rewrite iter_pos_add, Z2Nat.inj_pos.
Qed.

Lemma normal_shift m e : 0 <= m -> e <= fexp64 (Zdigits2 m + e) ->
  normal (m / 2 ^ (fexp64 (Zdigits2 m + e) - e)) (fexp64 (Zdigits2 m + e)).
Proof.
  intros Hm. destruct (Zdigits2_bounds m Hm) as (Hd0 & Hd1 & Hd2).
  set (D := Zdigits2 m) in *. rewrite fexp64_eq. intros He.
  set (E := Z.max (D + e - 53) (-1074)) in *. assert (HE : E = D + e - 53 \/ E = -1074) by lia.
  assert (Hk : D <= 53 + (E - e)) by lia.
  pose proof (Z.pow_pos_nonneg 2 (E - e) ltac:(lia) ltac:(lia)) as Hp.
  split_and!; [lia|by apply Z.div_pos| |].
  - apply Z.div_lt_upper_bound; [done|]. rewrite <- Z.pow_add_r by lia.
    eapply Z.lt_le_trans; [apply Hd1|]. apply Z.pow_le_mono_r; lia.
  - destruct (decide (E = -1074)) as [->|Hne]; [by left|right].
    apply Z.div_le_lower_bound; [done|]. rewrite <- Z.pow_add_r by lia.
    replace (E - e + 52) with (D - 1) by lia. apply Hd2.
    destruct (decide (m = 0)) as [->| ]; [|lia]. unfold D in *. cbn in *. lia.
Qed.

Lemma shr_fexp_normal d m e l n :
  0 < d -> -6000 <= e -> 0 <= m -> located d m e l n -> e <= fexp64 (Zdigits2 m + e) ->
  let r := shr_fexp 53 1024 m e l in
  normal (shr_m r.1) r.2 /\ located d (shr_m r.1) r.2 (loc_of_shr_record r.1) n.
Proof.
  intros Hd He Hm Hl Hf. unfold shr_fexp. rewrite shr_as_iter by lia. cbn [fst snd].
  set (k := fexp64 (Zdigits2 m + e) - e) in *.
  destruct (iter_shr_located d e n (shr_record_of_loc m l) (Z.to_nat k)) as [H1 H2];
    rewrite ?shr_m_record_of, ?loc_of_record_of in *; try done.
  rewrite Z2Nat.id in * by lia. split; [|done]. rewrite H1.
  replace (e + k) with (fexp64 (Zdigits2 m + e)) by lia. by apply normal_shift.
Qed.

(** A rounded mantissa and its exponent as a float; a carry out of 53 bits is a shift. *)
Definition packed (s : bool) (m e : Z) : f64 :=
  if m =? 0 then S754_zero s
  else
    let '(m, e) := if m =? 2 ^ 53 then (2 ^ 52, e + 1) else (m, e) in
    if e <=? 971 then S754_finite s (Z.to_pos m) e else S754_infinity s.

Lemma normal_digits m e : normal m e -> fexp64 (Zdigits2 m + e) = e.
Proof.
  intros (He & Hm & Hn). destruct (Zdigits2_bounds m) as (Hd0 & Hd1 & Hd2); [lia|].
  set (D := Zdigits2 m) in *. rewrite fexp64_eq.
  assert (D <= 53).
  { apply Z.lt_succ_r. destruct (decide (0 < m)) as [Hp|]; [|unfold D; replace m with 0 by lia; done].
    apply Z.nle_gt. intros Hle. specialize (Hd2 Hp).
    pose proof (Z.pow_le_mono_r 2 53 (D - 1) ltac:(lia) ltac:(lia)). lia. }
  destruct Hn as [->|Hn]; [lia|].
  assert (53 <= D); [|lia]. apply Z.nlt_ge. intros Hlt.
  pose proof (Z.pow_le_mono_r 2 D 52 ltac:(lia) ltac:(lia)). lia.
Qed.

Lemma round_nearest_bounds m l : m <= round_nearest_even m l <= m + 1.
Proof. destruct l as [|[]]; cbn; [lia| |lia..]. destruct (Z.even m); lia. Qed.

Lemma round64_normal d s m e l n :
  0 < d -> -6000 <= e -> 0 <= m -> located d m e l n -> e <= fexp64 (Zdigits2 m + e) ->
  exists m' e' l', normal m' e' /\ located d m' e' l' n /\
    round64 s m e l = packed s (round_nearest_even m' l') e'.
Proof.
  intros Hd He Hm Hl Hf. pose proof (shr_fexp_normal d m e l n Hd He Hm Hl Hf) as [Hn Hl'].
  unfold binary_round_aux. destruct (shr_fexp 53 1024 m e l) as [r e'] eqn:Er. cbn [fst snd] in *.
  exists (shr_m r), e', (loc_of_shr_record r). split_and!; [done..|].
  pose proof (round_nearest_bounds (shr_m r) (loc_of_shr_record r)) as Hb.
  set (M := round_nearest_even (shr_m r) (loc_of_shr_record r)) in *. clearbody M. clear Er Hl' Hl.
  destruct Hn as (He' & Hm' & Hn). unfold packed.
  destruct (decide (M = 2 ^ 53)) as [->|HM].
  - assert (Hs : shr_fexp 53 1024 (2 ^ 53) e' loc_Exact = (Build_shr_record (2 ^ 52) false false, e' + 1)).
    { unfold shr_fexp. change (Zdigits2 (2 ^ 53)) with 54. rewrite fexp64_eq.
      replace (Z.max (54 + e' - 53) (-1074) - e') with 1 by lia. reflexivity. }
    rewrite Hs. reflexivity.
  - assert (Hnorm : normal M e') by (unfold normal; lia).
    assert (Hs : shr_fexp 53 1024 M e' loc_Exact = (shr_record_of_loc M loc_Exact, e')).
    { unfold shr_fexp. rewrite normal_digits by done. rewrite Z.sub_diag. reflexivity. }
    rewrite Hs. cbn [shr_record_of_loc shr_m]. rewrite (proj2 (Z.eqb_neq M (2 ^ 53))) by done.
    destruct M as [|p|p]; [done..|lia].
Qed.

(** ** Order *)

Lemma ulp_jump d e1 e2 : 0 < d -> -6000 <= e1 -> e1 < e2 -> 2 * ulp d e1 <= ulp d e2.
Proof.
  intros Hd He Hlt. replace e2 with (e1 + (e2 - e1)) by lia. rewrite ulp_add by lia.
  pose proof (ulp_pos d e1 Hd He). pose proof (Z.pow_le_mono_r 2 1 (e2 - e1) ltac:(lia) ltac:(lia)). nia.
Qed.

Lemma round_nearest_mono d m e l1 l2 n1 n2 :
  located d m e l1 n1 -> located d m e l2 n2 -> n1 <= n2 -> 0 < ulp d e ->
  round_nearest_even m l1 <= round_nearest_even m l2.
Proof.
  unfold located. generalize (ulp d e). intros u H1 H2 Hle Hu.
  destruct l1 as [|[]], l2 as [|[]]; cbn [round_nearest_even]; try lia; try (case_match; lia).
  all: rewrite ?Z.compare_lt_iff, ?Z.compare_gt_iff, ?Z.compare_eq_iff in *; exfalso; lia.
Qed.

Lemma rounding_mono d m1 e1 l1 n1 m2 e2 l2 n2 : 0 < d ->
  normal m1 e1 -> normal m2 e2 -> located d m1 e1 l1 n1 -> located d m2 e2 l2 n2 -> n1 <= n2 ->
  round_nearest_even m1 l1 * ulp d e1 <= round_nearest_even m2 l2 * ulp d e2.
Proof.
  intros Hd (He1 & Hm1 & Hn1) (He2 & Hm2 & Hn2) Hl1 Hl2 Hle.
  pose proof (ulp_pos d e1 Hd ltac:(lia)) as Hu1. pose proof (ulp_pos d e2 Hd ltac:(lia)) as Hu2.
  pose proof (located_between _ _ _ _ _ Hu1 Hl1). pose proof (located_between _ _ _ _ _ Hu2 Hl2).
  pose proof (round_nearest_bounds m1 l1). pose proof (round_nearest_bounds m2 l2).
  destruct (Z.lt_trichotomy e1 e2) as [Hlt|[->|Hlt]].
  - pose proof (ulp_jump d e1 e2 Hd ltac:(lia) Hlt). nia.
  - destruct (Z.lt_trichotomy m1 m2) as [?|[->|?]]; [nia| |nia].
    apply Z.mul_le_mono_nonneg_r; [lia|]. eauto using round_nearest_mono.
  - pose proof (ulp_jump d e2 e1 Hd ltac:(lia) Hlt). exfalso. nia.
Qed.

Lemma normal_order d m1 e1 m2 e2 : 0 < d -> normal m1 e1 -> normal m2 e2 ->
  m1 * ulp d e1 <= m2 * ulp d e2 -> 0 < m1 -> e1 < e2 \/ (e1 = e2 /\ m1 <= m2).
Proof.
  intros Hd (He1 & Hm1 & Hn1) (He2 & Hm2 & Hn2) Hle Hp.
  pose proof (ulp_pos d e1 Hd ltac:(lia)). pose proof (ulp_pos d e2 Hd ltac:(lia)).
  destruct (Z.lt_trichotomy e1 e2) as [?|[->|Hlt]]; [by left|right; nia|].
  pose proof (ulp_jump d e2 e1 Hd ltac:(lia) Hlt). exfalso. nia.
Qed.

Lemma packed_cases d s m e :
  0 < d -> -1074 <= e -> 0 <= m <= 2 ^ 53 -> (e = -1074 \/ 2 ^ 52 <= m) ->
  (m = 0 /\ packed s m e = S754_zero s) \/
  exists p e', normal (Z.pos p) e' /\ Z.pos p * ulp d e' = m * ulp d e /\
    packed s m e = if e' <=? 971 then S754_finite s p e' else S754_infinity s.
Proof.
  intros Hd He Hm Hn. unfold packed. destruct (Z.eqb_spec m 0) as [->|H0]; [by left|right].
  destruct (Z.eqb_spec m (2 ^ 53)) as [->|H53].
  - exists (Z.to_pos (2 ^ 52)), (e + 1). split_and!; [unfold normal; cbn; lia| |done].
    rewrite ulp_add by lia. rewrite Z2Pos.id by done. lia.
  - exists (Z.to_pos m), e. rewrite Z2Pos.id by lia. unfold normal. split_and!; [lia..|done].
Qed.

Lemma packed_mono d m1 e1 m2 e2 : 0 < d ->
  -1074 <= e1 -> 0 <= m1 <= 2 ^ 53 -> (e1 = -1074 \/ 2 ^ 52 <= m1) ->
  -1074 <= e2 -> 0 <= m2 <= 2 ^ 53 -> (e2 = -1074 \/ 2 ^ 52 <= m2) ->
  m1 * ulp d e1 <= m2 * ulp d e2 -> (packed false m1 e1 <=. packed false m2 e2) = true.
Proof.
  intros Hd He1 Hm1 Hn1 He2 Hm2 Hn2 Hle. pose proof (ulp_pos d e1 Hd ltac:(lia)) as Hu1.
  pose proof (ulp_pos d e2 Hd ltac:(lia)) as Hu2.
  destruct (packed_cases d false m1 e1) as [[-> ->]|(p1 & x1 & N1 & V1 & ->)]; [done..| |].
  - destruct (packed_cases d false m2 e2) as [[-> ->]|(p2 & x2 & N2 & V2 & ->)]; [done..|].
    by destruct (x2 <=? 971).
  - destruct (packed_cases d false m2 e2) as [[-> ->]|(p2 & x2 & N2 & V2 & ->)]; [done..| |].
    { exfalso. destruct N1 as (? & ? & _). pose proof (ulp_pos d x1 Hd ltac:(lia)). nia. }
    pose proof (normal_order d _ x1 _ x2 Hd N1 N2 ltac:(lia) ltac:(lia)).
    destruct (Z.leb_spec x1 971), (Z.leb_spec x2 971); try done; try lia.
    apply fle_key. unfold klt, keq. cbn. split_and!; [done..|]. lia.
Qed.

Lemma packed_opp m e : packed true m e = SFopp (packed false m e).
Proof. unfold packed. destruct (m =? 0); [done|]. destruct (m =? 2 ^ 53); by case_match. Qed.

Lemma packed_nonneg m e : (f_zero <=. packed false m e) = true.
Proof. unfold packed. destruct (m =? 0); [done|]. destruct (m =? 2 ^ 53); by case_match. Qed.

Lemma fle_opp x y : (SFopp x <=. SFopp y) = (y <=. x).
Proof.
  unfold fle, SFleb. destruct x as [[]|[]| |[] m1 e1], y as [[]|[]| |[] m2 e2]; try done; cbn.
  all: rewrite (Z.compare_antisym e1 e2); destruct (e1 ?= e2); try done; cbn.
  all: change (Pos.compare_cont Eq m1 m2) with (Pos.compare m1 m2);
    change (Pos.compare_cont Eq m2 m1) with (Pos.compare m2 m1); rewrite (Pos.compare_antisym m1 m2);
    by destruct (Pos.compare m1 m2).
Qed.

(** The float [r] is the exact value [n] rounded. *)
Definition rounded (d n : Z) (r : f64) : Prop :=
  exists s m e l, normal m e /\ located d m e l (Z.abs n) /\
    r = packed s (round_nearest_even m l) e /\ (n = 0 \/ s = (n <? 0)).

Lemma rounded_pos d n r : 0 < d -> 0 < n -> rounded d n r ->
  exists m e l, normal m e /\ located d m e l n /\ r = packed false (round_nearest_even m l) e.
Proof.
  intros Hd Hn (s & m & e & l & H1 & H2 & -> & [->| ->]); [lia|].
  rewrite Z.abs_eq in H2 by lia. rewrite (proj2 (Z.ltb_ge n 0)) by lia. eauto 6.
Qed.

Lemma rounded_zero d r : 0 < d -> rounded d 0 r -> exists s, r = S754_zero s.
Proof.
  intros Hd (s & m & e & l & (He & Hm & _) & Hl & -> & _).
  pose proof (ulp_pos d e Hd ltac:(lia)) as Hu. exists s. change (Z.abs 0) with 0 in Hl.
  destruct l; cbn in Hl; [|nia]. cbn. replace m with 0 by nia. done.
Qed.

Lemma rounded_opp d n r : 0 < d -> n <> 0 -> rounded d n r -> rounded d (- n) (SFopp r).
Proof.
  intros Hd Hn (s & m & e & l & H1 & H2 & -> & [->| ->]); [done|].
  exists (- n <? 0), m, e, l. rewrite Z.abs_opp. split_and!; [done..| |by right].
  destruct (Z.ltb_spec n 0), (Z.ltb_spec (- n) 0); try lia; rewrite packed_opp; [|done].
  by destruct (packed false _ _) as [[]|[]| |[]].
Qed.

Lemma rounded_mono_pos d n1 n2 r1 r2 : 0 < d -> 0 < n1 ->
  rounded d n1 r1 -> rounded d n2 r2 -> n1 <= n2 -> (r1 <=. r2) = true.
Proof.
  intros Hd Hn H1 H2 Hle.
  apply rounded_pos in H1 as (m1 & e1 & l1 & N1 & L1 & ->); [|lia..].
  apply rounded_pos in H2 as (m2 & e2 & l2 & N2 & L2 & ->); [|lia..].
  pose proof (rounding_mono d _ _ _ _ _ _ _ _ Hd N1 N2 L1 L2 Hle).
  pose proof (round_nearest_bounds m1 l1). pose proof (round_nearest_bounds m2 l2).
  destruct N1 as (? & ? & ?), N2 as (? & ? & ?). apply (packed_mono d); try lia; done.
Qed.

Lemma rounded_sign d n r : 0 < d -> rounded d n r ->
  (0 < n -> (f_zero <=. r) = true) /\ (n < 0 -> (r <=. f_zero) = true).
Proof.
  intros Hd H. split; intros Hn.
  - apply rounded_pos in H as (m & e & l & _ & _ & ->); [|done..]. apply packed_nonneg.
  - apply rounded_opp in H; [|lia..]. apply rounded_pos in H as (m & e & l & _ & _ & E); [|lia..].
    rewrite <- fle_opp, E. change (SFopp f_zero) with (S754_zero true).
    pose proof (packed_nonneg (round_nearest_even m l) e). by destruct (packed false _ _) as [[]|[]| |[]].
Qed.

Theorem rounded_mono d n1 n2 r1 r2 : 0 < d ->
  rounded d n1 r1 -> rounded d n2 r2 -> n1 <= n2 -> (r1 <=. r2) = true.
Proof.
  intros Hd H1 H2 Hle. destruct (rounded_sign d n1 r1 Hd H1) as [P1 M1], (rounded_sign d n2 r2 Hd H2) as [P2 M2].
  destruct (Z.lt_trichotomy n1 0) as [Hn1|[->|Hn1]].
  - destruct (Z.lt_trichotomy n2 0) as [Hn2|[->|Hn2]].
    + rewrite <- fle_opp. apply rounded_opp in H1, H2; [|lia..].
      eapply (rounded_mono_pos d (- n2) (- n1)); eauto; lia.
    + apply rounded_zero in H2 as [s ->]; [|done]. specialize (M1 Hn1). by destruct r1 as [[]|[]| |[]], s.
    + eauto using fle_trans.
  - apply rounded_zero in H1 as [s ->]; [|done]. destruct (Z.eq_dec n2 0) as [->| ].
    + apply rounded_zero in H2 as [s' ->]; [|done]. by destruct s, s'.
    + specialize (P2 ltac:(lia)). by destruct r2 as [[]|[]| |[]], s.
  - eauto using rounded_mono_pos.
Qed.

(** ** Every operation rounds its exact value *)

Definition valid (x : f64) : bool := valid_binary 53 1024 x.

Definition signed (s : bool) (z : Z) : Z := if s then - z else z.

(** The exact value of a finite float. *)
Definition units (d : Z) (x : f64) : Z :=
  match x with S754_finite s m e => signed s (Z.pos m * ulp d e) | _ => 0 end.

Lemma valid_normal s m e : valid (S754_finite s m e) = true -> normal (Z.pos m) e /\ e <= 971.
Proof.
  cbn. unfold bounded, canonical_mantissa. rewrite andb_true_iff, Z.eqb_eq, Z.leb_le. intros [He Hle].
  split; [|lia]. change (Z.pos (digits2_pos m)) with (Zdigits2 (Z.pos m)) in He.
  pose proof (normal_shift (Z.pos m) e ltac:(lia) ltac:(lia)) as H. rewrite He, Z.sub_diag, Z.div_1_r in H. done.
Qed.

Lemma normal_valid s m e : normal (Z.pos m) e -> e <= 971 -> valid (S754_finite s m e) = true.
Proof.
  intros Hn He. cbn. unfold bounded, canonical_mantissa. rewrite andb_true_iff, Z.eqb_eq, Z.leb_le.
  split; [|lia]. by apply (normal_digits (Z.pos m)).
Qed.

Lemma rounded_valid d n r : 0 < d -> rounded d n r -> valid r = true.
Proof.
  intros Hd (s & m & e & l & (He & Hm & Hn) & _ & -> & _). pose proof (round_nearest_bounds m l).
  destruct (packed_cases d s (round_nearest_even m l) e) as [[_ ->]|(p & x & N & _ & ->)]; try lia; [done|].
  destruct (Z.leb_spec x 971); [by apply normal_valid|done].
Qed.

Lemma rounded_signed d s n m e l r : 0 <= n ->
  normal m e -> located d m e l n -> r = packed s (round_nearest_even m l) e -> rounded d (signed s n) r.
Proof.
  intros Hn Hm Hl ->. exists s, m, e, l. replace (Z.abs (signed s n)) with n by (unfold signed; destruct s; lia).
  split_and!; [done..|]. unfold signed. destruct s; lia.
Qed.

Lemma round64_rounded d s m e l n :
  0 < d -> -6000 <= e -> 0 <= m -> 0 <= n -> located d m e l n -> e <= fexp64 (Zdigits2 m + e) ->
  rounded d (signed s n) (round64 s m e l).
Proof.
  intros Hd He Hm Hn Hl Hf. destruct (round64_normal d s m e l n) as (m' & e' & l' & ? & ? & ?); [done..|].
  by eapply rounded_signed.
Qed.

Lemma units_rounded d x : 0 < d -> is_finite x = true -> valid x = true -> rounded d (units d x) x.
Proof.
  intros Hd Hf Hv. destruct x as [s|s| |s m e]; try done; cbn [units].
  - exists s, 0, (-1074), loc_Exact. split_and!; [unfold normal; lia|done|done|by left].
  - apply valid_normal in Hv as [Hn He]. pose proof Hn as (He' & Hm & _).
    pose proof (ulp_pos d e Hd ltac:(lia)).
    apply (rounded_signed d s (Z.pos m * ulp d e) (Z.pos m) e loc_Exact); [lia|done|done|]. cbn [round_nearest_even].
    unfold packed. rewrite (proj2 (Z.eqb_neq (Z.pos m) 0)), (proj2 (Z.eqb_neq (Z.pos m) (2 ^ 53))) by lia.
    by rewrite (proj2 (Z.leb_le e 971)).
Qed.

Lemma units_order d x y : 0 < d -> is_finite x = true -> is_finite y = true ->
  valid x = true -> valid y = true -> (x <=. y) = true -> units d x <= units d y.
Proof.
  intros Hd Hx Hy Vx Vy Hle. apply Z.nlt_ge. intros Hlt.
  pose proof (rounded_mono d _ _ y x Hd (units_rounded d y Hd Hy Vy) (units_rounded d x Hd Hx Vx) ltac:(lia)) as Hge.
  apply fle_key in Hle as (_ & _ & Hle), Hge as (_ & _ & Hge).
  assert (Hk : keq (fkey x) (fkey y)) by (unfold klt, keq in *; lia).
  destruct x as [s1|s1| |s1 m1 e1], y as [s2|s2| |s2 m2 e2]; try done; unfold keq in Hk.
  - destruct s2, Hk as (Hk & _); discriminate Hk.
  - destruct s1, Hk as (Hk & _); discriminate Hk.
  - destruct s1, s2, Hk as (Hc & He & Hm); try discriminate Hc; cbn [fkey fst snd] in He, Hm.
    all: assert (e1 = e2) as -> by lia; assert (m1 = m2) as -> by lia; lia.
Qed.

Lemma iter_xO m p : Z.pos (Pos.iter xO m p) = Z.pos m * 2 ^ Z.pos p.
Proof.
  induction p as [|p IH] using Pos.peano_ind; [cbn; lia|].
  rewrite Pos.iter_succ, Pos2Z.inj_xO, IH, Pos2Z.inj_succ, Z.pow_succ_r by lia. lia.
Qed.

Lemma shl_align_exact m e e' : e' <= e ->
  (shl_align m e e').2 = e' /\ Z.pos (shl_align m e e').1 = Z.pos m * 2 ^ (e - e').
Proof.
  intros He. unfold shl_align. destruct (e' - e) as [|p|p] eqn:E; [|lia|]; cbn [fst snd].
  - replace (e - e') with 0 by lia. change (2 ^ 0) with 1. lia.
  - split; [done|]. rewrite iter_xO. do 2 f_equal. lia.
Qed.

Lemma units_align d s m e e' : -6000 <= e' -> e' <= e ->
  signed s (Z.pos (shl_align m e e').1) * ulp d e' = units d (S754_finite s m e).
Proof.
  intros H1 H2. destruct (shl_align_exact m e e' H2) as [_ ->]. cbn [units].
  replace e with (e' + (e - e')) at 2 by lia. rewrite ulp_add by lia. unfold signed. destruct s; lia.
Qed.

Lemma binary_round_rounded s m e : -6000 <= e ->
  rounded 1 (signed s (Z.pos m * ulp 1 e)) (binary_round 53 1024 s m e).
Proof.
  intros He. unfold binary_round.
  set (E := fexp64 (Z.pos (digits2_pos m) + e)).
  assert (HE : -1074 <= E) by (unfold E; rewrite fexp64_eq; lia).
  destruct (Z.le_gt_cases E e) as [Hle|Hgt].
  - pose proof (shl_align_exact m e E Hle) as [H1 H2]. pose proof (units_align 1 s m e E ltac:(lia) Hle) as H3.
    destruct (shl_align m e E) as [mz ez]. cbn [fst snd] in *. subst ez. cbn [units] in H3.
    replace (Z.pos m * ulp 1 e) with (Z.pos mz * ulp 1 E) by (unfold signed in H3; destruct s; lia).
    pose proof (ulp_pos 1 E ltac:(lia) ltac:(lia)). apply round64_rounded; [lia..|done|].
    enough (Zdigits2 (Z.pos mz) + E = Zdigits2 (Z.pos m) + e) as Hd by (rewrite Hd; done).
    destruct (Zdigits2_bounds (Z.pos m)) as (_ & A1 & A2); [lia|].
    destruct (Zdigits2_bounds (Z.pos mz)) as (_ & B1 & B2); [lia|].
    specialize (A2 ltac:(lia)). specialize (B2 ltac:(lia)).
    set (D := Zdigits2 (Z.pos m)) in *. set (D' := Zdigits2 (Z.pos mz)) in *. rewrite H2 in B1, B2.
    assert (0 < D /\ 0 < D') as [HD HD'] by (unfold D, D'; cbn; lia).
    pose proof (Z.pow_pos_nonneg 2 (e - E) ltac:(lia) ltac:(lia)).
    assert (2 ^ (D' - 1) < 2 ^ (D + (e - E))).
    { rewrite Z.pow_add_r by lia. eapply Z.le_lt_trans; [apply B2|]. by apply Z.mul_lt_mono_pos_r. }
    assert (2 ^ (D - 1 + (e - E)) < 2 ^ D').
    { rewrite Z.pow_add_r by lia. eapply Z.le_lt_trans; [|apply B1]. by apply Z.mul_le_mono_pos_r. }
    pose proof (proj2 (Z.pow_lt_mono_r_iff 2 (D' - 1) (D + (e - E)) ltac:(lia) ltac:(lia)) ltac:(done)).
    pose proof (proj2 (Z.pow_lt_mono_r_iff 2 (D - 1 + (e - E)) D' ltac:(lia) ltac:(lia)) ltac:(done)). lia.
  - assert (Hs : shl_align m e E = (m, e)).
    { unfold shl_align. destruct (E - e) eqn:Ed; [done..|lia]. }
    rewrite Hs. pose proof (ulp_pos 1 e ltac:(lia) He). apply round64_rounded; [lia..|done|].
    change (Zdigits2 (Z.pos m)) with (Z.pos (digits2_pos m)). fold E. lia.
Qed.

Lemma binary_normalize_rounded z e s : -6000 <= e -> rounded 1 (z * ulp 1 e) (binary_normalize 53 1024 z e s).
Proof.
  intros He. destruct z as [|p|p]; cbn [binary_normalize].
  - exists s, 0, (-1074), loc_Exact. split_and!; [unfold normal; lia|done|done|by left].
  - apply (binary_round_rounded false p e He).
  - change (Z.neg p * ulp 1 e) with (signed true (Z.pos p) * ulp 1 e).
    pose proof (binary_round_rounded true p e He) as H. cbn in *.
    by replace (- (Z.pos p * ulp 1 e)) with (Z.neg p * ulp 1 e) in H by lia.
Qed.

Lemma valid_exponent s m e : valid (S754_finite s m e) = true -> -1074 <= e <= 971.
Proof. intros H. apply valid_normal in H as [(? & _) ?]. lia. Qed.

Lemma cond_Zopp_signed s z : cond_Zopp s z = signed s z.
Proof. by destruct s. Qed.

Lemma fsub_rounded x y : is_finite x = true -> is_finite y = true -> valid x = true -> valid y = true ->
  rounded 1 (units 1 x - units 1 y) (x ⊖ y).
Proof.
  intros Hx Hy Vx Vy. destruct x as [s1|s1| |s1 m1 e1], y as [s2|s2| |s2 m2 e2]; try done.
  - assert (exists s, S754_zero s1 ⊖ S754_zero s2 = S754_zero s) as [s ->] by (destruct s1, s2; by eexists).
    by apply (units_rounded 1 (S754_zero s)).
  - change (S754_zero s1 ⊖ S754_finite s2 m2 e2) with (SFopp (S754_finite s2 m2 e2)).
    replace (units 1 (S754_zero s1) - units 1 (S754_finite s2 m2 e2)) with (- units 1 (S754_finite s2 m2 e2)) by (cbn; lia).
    pose proof (valid_exponent _ _ _ Vy). pose proof (ulp_pos 1 e2 ltac:(lia) ltac:(lia)).
    apply rounded_opp; [lia| |by apply units_rounded]. cbn [units]. unfold signed. destruct s2; nia.
  - change (S754_finite s1 m1 e1 ⊖ S754_zero s2) with (S754_finite s1 m1 e1).
    replace (units 1 (S754_finite s1 m1 e1) - units 1 (S754_zero s2)) with (units 1 (S754_finite s1 m1 e1)) by (cbn; lia).
    by apply units_rounded.
  - pose proof (valid_exponent _ _ _ Vx). pose proof (valid_exponent _ _ _ Vy).
    unfold fsub, SFsub. rewrite !cond_Zopp_signed.
    rewrite <- (units_align 1 s1 m1 e1 (Z.min e1 e2)), <- (units_align 1 s2 m2 e2 (Z.min e1 e2)) by lia.
    rewrite <- Z.mul_sub_distr_r. apply binary_normalize_rounded. lia.
Qed.

(** The exact product of two finite floats. *)
Definition product (x y : f64) : Z :=
  match x, y with
  | S754_finite s1 m1 e1, S754_finite s2 m2 e2 => signed (xorb s1 s2) (Z.pos m1 * Z.pos m2 * ulp 1 (e1 + e2))
  | _, _ => 0
  end.

Lemma normal_size m e : normal m e -> 0 < m -> e = -1074 \/ 53 <= Zdigits2 m.
Proof.
  intros Hn Hm. pose proof (normal_digits m e Hn) as H. rewrite fexp64_eq in H. lia.
Qed.

Lemma Zdigits2_mono a b : 0 <= a -> a <= b -> Zdigits2 a <= Zdigits2 b.
Proof.
  intros Ha Hab. destruct (Zdigits2_bounds a Ha) as (A0 & A1 & A2), (Zdigits2_bounds b ltac:(lia)) as (B0 & B1 & B2).
  apply Z.nlt_ge. intros Hlt. destruct (decide (a = 0)) as [->|]; [cbn in *; lia|].
  pose proof (Z.pow_le_mono_r 2 (Zdigits2 b) (Zdigits2 a - 1) ltac:(lia) ltac:(lia)). lia.
Qed.

Lemma fmul_rounded x y : is_finite x = true -> is_finite y = true -> valid x = true -> valid y = true ->
  rounded 1 (product x y) (x ⊗ y).
Proof.
  intros Hx Hy Vx Vy. destruct x as [s1|s1| |s1 m1 e1], y as [s2|s2| |s2 m2 e2]; try done.
  1-3: match goal with |- rounded _ _ ?r => by apply (units_rounded 1 r) end.
  pose proof (valid_exponent _ _ _ Vx). pose proof (valid_exponent _ _ _ Vy).
  apply valid_normal in Vx as [Nx _], Vy as [Ny _].
  change (S754_finite s1 m1 e1 ⊗ S754_finite s2 m2 e2)
    with (round64 (xorb s1 s2) (Z.pos (m1 * m2)) (e1 + e2) loc_Exact).
  pose proof (ulp_pos 1 (e1 + e2) ltac:(lia) ltac:(lia)).
  apply round64_rounded; [lia..|cbn; lia|]. rewrite fexp64_eq, Pos2Z.inj_mul.
  pose proof (Zdigits2_mono (Z.pos m1) (Z.pos m1 * Z.pos m2) ltac:(lia) ltac:(nia)).
  pose proof (Zdigits2_mono (Z.pos m2) (Z.pos m1 * Z.pos m2) ltac:(lia) ltac:(nia)).
  destruct (normal_size _ _ Nx ltac:(lia)), (normal_size _ _ Ny ltac:(lia)); lia.
Qed.

(** The exact quotient by a positive divisor, in units of its mantissa. *)
Definition quotient (x : f64) (e2 : Z) : Z :=
  match x with S754_finite s m e => signed s (Z.pos m * 2 ^ (e - e2 + 6000)) | _ => 0 end.

Lemma new_location_spec m2 r u n q : 0 < u -> 0 <= r < m2 -> n = (m2 * q + r) * u ->
  match new_location m2 r with
  | loc_Exact => n = q * (m2 * u)
  | loc_Inexact c => q * (m2 * u) < n < (q + 1) * (m2 * u) /\ (2 * n ?= (2 * q + 1) * (m2 * u)) = c
  end.
Proof.
  intros Hu Hr ->. unfold new_location, new_location_even, new_location_odd.
  assert (Hc : (2 * ((m2 * q + r) * u) ?= (2 * q + 1) * (m2 * u)) = (2 * r ?= m2)).
  { destruct (Z.compare_spec (2 * r) m2).
    - apply Z.compare_eq_iff. nia.
    - apply Z.compare_lt_iff. nia.
    - apply Z.compare_gt_iff. nia. }
  destruct (Z.eqb_spec r 0) as [->|Hr0].
  { destruct (Z.even m2); rewrite Z.eqb_refl; ring. }
  destruct (Z.even m2) eqn:Ev; rewrite (proj2 (Z.eqb_neq r 0)) by done; (split; [nia|]); rewrite Hc; [done|].
  assert (2 * r <> m2).
  { intros <-. rewrite Z.even_mul in Ev. done. }
  destruct (Z.compare_spec (2 * r + 1) m2), (Z.compare_spec (2 * r) m2); try lia; done.
Qed.

Lemma fdiv_rounded x m2 e2 : is_finite x = true -> valid x = true ->
  valid (S754_finite false m2 e2) = true ->
  rounded (Z.pos m2) (quotient x e2) (x ⊘ S754_finite false m2 e2).
Proof.
  intros Hx Vx Vy. destruct x as [s|s| |s m e]; try done.
  { replace (S754_zero s ⊘ S754_finite false m2 e2) with (S754_zero s) by (by destruct s).
    by apply (units_rounded (Z.pos m2) (S754_zero s)). }
  pose proof (valid_exponent _ _ _ Vx). pose proof (valid_exponent _ _ _ Vy).
  unfold fdiv, SFdiv, SFdiv_core_binary.
  change (SpecFloat.Zdigits2 ?z) with (Zdigits2 z).
  destruct (Zdigits2_bounds (Z.pos m)) as (D0 & D1 & D2); [lia|]. specialize (D2 ltac:(lia)).
  destruct (Zdigits2_bounds (Z.pos m2)) as (F0 & F1 & F2); [lia|].
  set (D := Zdigits2 (Z.pos m)) in *. set (F := Zdigits2 (Z.pos m2)) in *.
  assert (HD : 0 < D /\ 0 < F) by (unfold D, F; cbn; lia).
  set (E := Z.min (fexp64 (D + e - (F + e2))) (e - e2)) in *.
  assert (HE : -6000 <= E <= e - e2) by (unfold E; rewrite fexp64_eq; lia).
  set (k := e - e2 - E). assert (Hk : 0 <= k) by (unfold k; lia).
  replace (match k with 0 => Z.pos m | Z.pos _ => Z.shiftl (Z.pos m) k | Z.neg _ => 0 end) with (Z.pos m * 2 ^ k)
    by (destruct k as [|p|p]; [lia|by rewrite Z.shiftl_mul_pow2|lia]).
  pose proof (Z.pow_pos_nonneg 2 k ltac:(lia) Hk) as Hp.
  pose proof (Z_div_mod (Z.pos m * 2 ^ k) (Z.pos m2) ltac:(lia)) as Hdm.
  destruct (Z.div_eucl (Z.pos m * 2 ^ k) (Z.pos m2)) as [q r]. destruct Hdm as [Hq Hr].
  assert (Hq0 : 0 <= q) by nia. rewrite xorb_false_r.
  pose proof (Z.pow_pos_nonneg 2 (E + 6000) ltac:(lia) ltac:(lia)) as HpE.
  apply round64_rounded; [lia..| | |].
  - cbn [quotient]. pose proof (Z.pow_pos_nonneg 2 (e - e2 + 6000) ltac:(lia) ltac:(lia)). lia.
  - unfold located, ulp. apply new_location_spec; [done|done|].
    replace (e - e2 + 6000) with (k + (E + 6000)) by (unfold k; lia).
    rewrite Z.pow_add_r by lia. rewrite <- Hq. lia.
  - destruct (Zdigits2_bounds q Hq0) as (G0 & G1 & _). set (G := Zdigits2 q) in *.
    assert (D + k - F <= G).
    { apply Z.nlt_ge. intros Hlt. assert (Hm : Z.pos m * 2 ^ k < 2 ^ (F + G)).
      { rewrite Z.pow_add_r by lia. nia. }
      assert (Hm' : 2 ^ (D - 1 + k) <= Z.pos m * 2 ^ k) by (rewrite Z.pow_add_r by lia; by apply Z.mul_le_mono_pos_r).
      pose proof (Z.pow_le_mono_r 2 (F + G) (D - 1 + k) ltac:(lia) ltac:(lia)). lia. }
    unfold E at 1. rewrite !fexp64_eq. unfold k in *. lia.
Qed.

(** ** Monotone operations *)

Definition number (x : f64) : Prop := is_nan x = false /\ valid x = true.

Lemma number_finite x : is_finite x = true -> valid x = true -> number x.
Proof. intros. split; [by apply is_finite_not_nan|done]. Qed.

Lemma rounded_number d n r : 0 < d -> rounded d n r -> number r.
Proof.
  intros Hd H. split; [|by eapply rounded_valid].
  destruct (Z.lt_trichotomy n 0) as [Hn|[->|Hn]].
  - apply (rounded_sign d n r Hd H) in Hn. by apply fle_key in Hn as (? & _).
  - by apply rounded_zero in H as [s ->].
  - apply (rounded_sign d n r Hd H) in Hn. by apply fle_key in Hn as (_ & ? & _).
Qed.

Lemma positive_shape c : is_finite c = true -> (f_zero <. c) = true -> exists m e, c = S754_finite false m e.
Proof. destruct c as [[]|[]| |[] m e]; try done. eauto. Qed.

(** Lifting a monotone operation on finite floats that keeps the infinities. *)
Lemma monotone_extended (f : f64 -> f64) :
  (forall s, f (S754_infinity s) = S754_infinity s) ->
  (forall x, is_finite x = true -> valid x = true -> number (f x)) ->
  (forall x y, is_finite x = true -> is_finite y = true -> valid x = true -> valid y = true ->
    (x <=. y) = true -> (f x <=. f y) = true) ->
  forall x y, number x -> number y -> (x <=. y) = true -> number (f x) /\ (f x <=. f y) = true.
Proof.
  intros Hinf Hnum Hmono x y [Nx Vx] [Ny Vy] Hle.
  assert (Hn : forall z, is_nan z = false -> valid z = true -> number (f z)).
  { intros z Hz Vz. destruct (is_finite z) eqn:Hf; [by apply Hnum|].
    destruct z as [| s| |]; try done. by rewrite Hinf. }
  split; [by apply Hn|]. destruct (Hn x Nx Vx) as [Fx _], (Hn y Ny Vy) as [Fy _].
  destruct (is_finite x) eqn:Ex, (is_finite y) eqn:Ey; [by apply Hmono|..].
  all: destruct x as [|sx| |[]], y as [|sy| |[]]; try done; rewrite ?Hinf in *; try destruct sx; try destruct sy; try done.
  all: match goal with |- (?a <=. ?b) = true => by destruct a as [[]|[]| |[]], b as [[]|[]| |[]] end.
Qed.

Lemma fsub_mono x y c : is_finite x = true -> is_finite y = true -> is_finite c = true ->
  valid x = true -> valid y = true -> valid c = true ->
  (x <=. y) = true -> number (x ⊖ c) /\ (x ⊖ c <=. y ⊖ c) = true.
Proof.
  intros Fx Fy Fc Vx Vy Vc Hle. pose proof (fsub_rounded x c Fx Fc Vx Vc) as Hx.
  split; [exact (rounded_number 1 _ _ ltac:(lia) Hx)|].
  eapply rounded_mono; [| exact Hx | by apply fsub_rounded |]; [lia|].
  pose proof (units_order 1 x y ltac:(lia) Fx Fy Vx Vy Hle). lia.
Qed.

Lemma quotient_order x y e2 : is_finite x = true -> is_finite y = true -> valid x = true -> valid y = true ->
  -1074 <= e2 <= 971 -> (x <=. y) = true -> quotient x e2 <= quotient y e2.
Proof.
  intros Fx Fy Vx Vy He Hle. pose proof (units_order 1 x y ltac:(lia) Fx Fy Vx Vy Hle) as Hu.
  assert (Hq : forall z, is_finite z = true -> valid z = true ->
    quotient z e2 * 2 ^ (1074 + e2) = units 1 z * 2 ^ 1074).
  { intros z Fz Vz. destruct z as [| | |s m e]; try done. apply valid_exponent in Vz. cbn [quotient units].
    unfold ulp. assert (E : 2 ^ (e - e2 + 6000) * 2 ^ (1074 + e2) = 2 ^ (e + 6000) * 2 ^ 1074).
    { rewrite <- !Z.pow_add_r by lia. f_equal. lia. }
    unfold signed. revert E. generalize (2 ^ (e - e2 + 6000)) (2 ^ (1074 + e2)) (2 ^ (e + 6000)) (2 ^ 1074).
    intros a b p q E. transitivity ((if s then -1 else 1) * Z.pos m * (a * b)).
    - destruct s; ring.
    - rewrite E. destruct s; ring. }
  assert (P1 : 0 < 2 ^ (1074 + e2)) by (apply Z.pow_pos_nonneg; lia).
  assert (P2 : 0 < 2 ^ 1074) by done. pose proof (Hq x Fx Vx) as Qx. pose proof (Hq y Fy Vy) as Qy. clear Hq.
  revert P1 P2 Qx Qy. generalize (2 ^ (1074 + e2)) (2 ^ 1074). intros a b P1 P2 Qx Qy. nia.
Qed.

Lemma product_order x y c : is_finite x = true -> is_finite y = true -> is_finite c = true ->
  valid x = true -> valid y = true -> valid c = true -> (f_zero <. c) = true ->
  (x <=. y) = true -> product x c <= product y c.
Proof.
  intros Fx Fy Fc Vx Vy Vc Hc Hle. pose proof (units_order 1 x y ltac:(lia) Fx Fy Vx Vy Hle) as Hu.
  destruct (positive_shape c Fc Hc) as (mc & ec & ->). apply valid_exponent in Vc.
  assert (Hq : forall z, is_finite z = true -> valid z = true ->
    product z (S754_finite false mc ec) * 2 ^ 1074 = units 1 z * (Z.pos mc * 2 ^ (1074 + ec))).
  { intros z Fz Vz. destruct z as [| | |s m e]; try done. apply valid_exponent in Vz. cbn [product units].
    unfold ulp. assert (E : 2 ^ (e + ec + 6000) * 2 ^ 1074 = 2 ^ (e + 6000) * 2 ^ (1074 + ec)).
    { rewrite <- !Z.pow_add_r by lia. f_equal. lia. }
    unfold signed. revert E. generalize (2 ^ (e + ec + 6000)) (2 ^ 1074) (2 ^ (e + 6000)) (2 ^ (1074 + ec)).
    intros a b p q E. transitivity ((if s then -1 else 1) * Z.pos m * Z.pos mc * (a * b)).
    - destruct s; cbn [xorb]; ring.
    - rewrite E. destruct s; ring. }
  assert (P1 : 0 < 2 ^ (1074 + ec)) by (apply Z.pow_pos_nonneg; lia).
  assert (P2 : 0 < 2 ^ 1074) by done. pose proof (Hq x Fx Vx) as Qx. pose proof (Hq y Fy Vy) as Qy. clear Hq.
  revert P1 P2 Qx Qy. generalize (2 ^ (1074 + ec)) (2 ^ 1074). intros a b P1 P2 Qx Qy.
  apply (Z.mul_le_mono_pos_r _ _ _ P2). rewrite Qx, Qy. apply Z.mul_le_mono_nonneg_r; [lia|done].
Qed.

Lemma fdiv_mono x y c : number x -> number y -> is_finite c = true -> valid c = true -> (f_zero <. c) = true ->
  (x <=. y) = true -> number (x ⊘ c) /\ (x ⊘ c <=. y ⊘ c) = true.
Proof.
  intros Nx Ny Fc Vc Hc. destruct (positive_shape c Fc Hc) as (mc & ec & ->).
  apply (monotone_extended (fun x => x ⊘ S754_finite false mc ec)); [by intros []| | |done|done].
  - intros z Fz Vz. eapply (rounded_number (Z.pos mc)); [lia|by apply fdiv_rounded].
  - intros u v Fu Fv Vu Vv Hle. eapply (rounded_mono (Z.pos mc)); [lia|by apply fdiv_rounded..|].
    apply quotient_order; try done. by apply valid_exponent in Vc.
Qed.

Lemma fmul_mono x y c : number x -> number y -> is_finite c = true -> valid c = true -> (f_zero <. c) = true ->
  (x <=. y) = true -> number (x ⊗ c) /\ (x ⊗ c <=. y ⊗ c) = true.
Proof.
  intros Nx Ny Fc Vc Hc. apply (monotone_extended (fun x => x ⊗ c)); [| | |done|done].
  - destruct (positive_shape c Fc Hc) as (mc & ec & ->). by intros [].
  - intros z Fz Vz. eapply (rounded_number 1); [lia|by apply fmul_rounded].
  - intros u v Fu Fv Vu Vv Hle. eapply (rounded_mono 1); [lia|by apply fmul_rounded..|].
    by apply product_order.
Qed.

Lemma f_of_Z_mono a b : a <= b -> number (f_of_Z a) /\ (f_of_Z a <=. f_of_Z b) = true.
Proof.
  intros Hle. pose proof (binary_normalize_rounded a 0 false ltac:(lia)) as Ha.
  split; [exact (rounded_number 1 _ _ ltac:(lia) Ha)|].
  eapply (rounded_mono 1); [lia|exact Ha|by apply binary_normalize_rounded; lia|].
  pose proof (ulp_pos 1 0 ltac:(lia) ltac:(lia)). nia.
Qed.
