(* ===== verification/Series.v ===== *)
(** * Series: one coin's history as rows of metric values

    [metrics/series.rs].  A series folds trades and ticks through the coin track and
    records, after each, the value of every column and the rule-independent facts a scan
    needs.  The columns of the struct are lists of one entry per row; the metric values are
    one flat row-major list.  The theorems: the lists stay in step, and a recorded value is
    what the track reads right after that event. *)

From S2P Require Export Guards TrackIface.
From S2P Require Import Float64.

Abbreviation SeriesColumn := (MetricRef * option FingerprintId)%type (only parsing).

Definition SERIES_ANCHOR_CAP : Z := 64.

(** [Buffers::of]. *)
Definition buffers_of (reads : list MetricRef) (cap : Z) : Buffers :=
  foldl (fun b r => absorb b r cap) Buffers_default reads.

Section series.
Context `{TrackOps}.

Record MetricSeries := {
  ms_track : Track;
  ms_columns : list SeriesColumn;
  ms_last_meaningful_at : Ts;
  ms_n_cols : nat;
  ms_values : list f64;
  ms_at : list Ts;
  ms_slot : list (option Z);
  ms_price : list f64;
  ms_reserve_sol : list f64;
  ms_priced_reserve_sol : list f64;
  ms_dead : list bool;
  ms_record_from : option Ts;
}.

Definition series_new (created_at : Ts) (columns : list SeriesColumn) : MetricSeries := {|
  ms_track := ensure_on (buffers_of columns.*1 SERIES_ANCHOR_CAP) (track_new created_at);
  ms_columns := columns; ms_last_meaningful_at := created_at; ms_n_cols := length columns;
  ms_values := []; ms_at := []; ms_slot := []; ms_price := []; ms_reserve_sol := [];
  ms_priced_reserve_sol := []; ms_dead := []; ms_record_from := None |}.

Definition set_series_track (s : MetricSeries) (t : Track) (last_meaningful_at : Ts) : MetricSeries := {|
  ms_track := t; ms_columns := ms_columns s; ms_last_meaningful_at := last_meaningful_at;
  ms_n_cols := ms_n_cols s; ms_values := ms_values s; ms_at := ms_at s; ms_slot := ms_slot s;
  ms_price := ms_price s; ms_reserve_sol := ms_reserve_sol s;
  ms_priced_reserve_sol := ms_priced_reserve_sol s; ms_dead := ms_dead s; ms_record_from := ms_record_from s |}.

Definition set_record_from (s : MetricSeries) (from : Ts) : MetricSeries := {|
  ms_track := ms_track s; ms_columns := ms_columns s; ms_last_meaningful_at := ms_last_meaningful_at s;
  ms_n_cols := ms_n_cols s; ms_values := ms_values s; ms_at := ms_at s; ms_slot := ms_slot s;
  ms_price := ms_price s; ms_reserve_sol := ms_reserve_sol s;
  ms_priced_reserve_sol := ms_priced_reserve_sol s; ms_dead := ms_dead s; ms_record_from := Some from |}.

Definition series_ensure_buffers (s : MetricSeries) (b : Buffers) : MetricSeries :=
  set_series_track s (ensure_on b (ms_track s)) (ms_last_meaningful_at s).

Definition series_ensure_tag (s : MetricSeries) (fp : FingerprintId) (key : Z) (patterns : TagPatterns)
    (windows : list WindowSpec) : MetricSeries :=
  set_series_track s (ensure_tag (ms_track s) fp key patterns windows) (ms_last_meaningful_at s).

Definition series_seed_creator (s : MetricSeries) (hash : Z) : MetricSeries :=
  set_series_track s (seed_creator (ms_track s) hash) (ms_last_meaningful_at s).

Definition eval_column (t : Track) (now : Ts) (c : SeriesColumn) : f64 := track_value t c.1 c.2 now.

Definition dead_now (t : Track) (last_meaningful_at now : Ts) : bool :=
  let reserves := current_reserves t in
  Deadness.is_dead_verdict (if is_finite reserves then Some reserves else None) last_meaningful_at now.

Definition series_record (s : MetricSeries) (now : Ts) (slot : option Z) : MetricSeries :=
  if is_some_and (ms_record_from s) (fun from => now <? from) then s
  else
    let t := ms_track s in {|
    ms_track := t; ms_columns := ms_columns s; ms_last_meaningful_at := ms_last_meaningful_at s;
    ms_n_cols := ms_n_cols s;
    ms_values := ms_values s ++ map (eval_column t now) (ms_columns s);
    ms_at := ms_at s ++ [now]; ms_slot := ms_slot s ++ [slot];
    ms_price := ms_price s ++ [current_price t];
    ms_reserve_sol := ms_reserve_sol s ++ [current_reserves t];
    ms_priced_reserve_sol := ms_priced_reserve_sol s ++ [current_priced_reserves t];
    ms_dead := ms_dead s ++ [dead_now t (ms_last_meaningful_at s) now];
    ms_record_from := ms_record_from s |}.

Definition push_trade_at (s : MetricSeries) (t : TradeLite) (slot : option Z) : MetricSeries :=
  let at_ := t_at t in
  let meaningful :=
    if (t_sol t >=. Deadness.DEAD_MEANINGFUL_TRADE_SOL) && (ms_last_meaningful_at s <=? at_) then at_
    else ms_last_meaningful_at s in
  series_record (set_series_track s (track_on_trade (ms_track s) t) meaningful) at_ slot.

Definition push_trade (s : MetricSeries) (t : TradeLite) : MetricSeries := push_trade_at s t None.

Definition push_tick (s : MetricSeries) (now : Ts) : MetricSeries :=
  series_record (set_series_track s (track_on_tick (ms_track s) now) (ms_last_meaningful_at s)) now None.

Definition n_rows (s : MetricSeries) : nat := length (ms_at s).

(** An index past the rows is a panic of the source; every use here is in range. *)
Definition value_at (s : MetricSeries) (row col_idx : nat) : f64 :=
  nth (row * ms_n_cols s + col_idx) (ms_values s) f_nan.

Definition col_index (s : MetricSeries) (same : SeriesColumn -> SeriesColumn -> bool) (c : SeriesColumn) : option nat :=
  position_of (fun x => same x c) (ms_columns s).

(** ** Rows stay in step *)

Record series_wf (s : MetricSeries) : Prop := {
  wf_cols : ms_n_cols s = length (ms_columns s);
  wf_values : length (ms_values s) = (n_rows s * ms_n_cols s)%nat;
  wf_slot : length (ms_slot s) = n_rows s;
  wf_price : length (ms_price s) = n_rows s;
  wf_reserve : length (ms_reserve_sol s) = n_rows s;
  wf_priced : length (ms_priced_reserve_sol s) = n_rows s;
  wf_dead : length (ms_dead s) = n_rows s;
}.

Lemma series_new_wf created_at columns : series_wf (series_new created_at columns).
Proof. by constructor. Qed.

Lemma series_record_wf s now slot : series_wf s -> series_wf (series_record s now slot).
Proof.
  intros []. unfold series_record. destruct (is_some_and _ _); [by constructor|].
  constructor; unfold n_rows in *; cbn; rewrite ?length_app, ?length_map; cbn; try lia.
Qed.

Lemma set_series_track_wf s t m : series_wf s -> series_wf (set_series_track s t m).
Proof. intros []. by constructor. Qed.

(** An event of a series. *)
Inductive SeriesEvent := EvTrade (t : TradeLite) (slot : option Z) | EvTick (now : Ts).

Definition push_event (s : MetricSeries) (e : SeriesEvent) : MetricSeries :=
  match e with EvTrade t slot => push_trade_at s t slot | EvTick now => push_tick s now end.

Definition fold_event (t : Track) (e : SeriesEvent) : Track :=
  match e with EvTrade x _ => track_on_trade t x | EvTick now => track_on_tick t now end.

Definition event_at (e : SeriesEvent) : Ts := match e with EvTrade t _ => t_at t | EvTick now => now end.

Lemma push_event_wf s e : series_wf s -> series_wf (push_event s e).
Proof. intros Hs. destruct e; by apply series_record_wf, set_series_track_wf. Qed.

Lemma push_events_wf s es : series_wf s -> series_wf (foldl push_event s es).
Proof. revert s. induction es as [|e es IH]; intros s Hs; [done|]. by apply IH, push_event_wf. Qed.

Lemma push_event_keeps s e :
  ms_record_from (push_event s e) = ms_record_from s /\ ms_columns (push_event s e) = ms_columns s /\
  ms_track (push_event s e) = fold_event (ms_track s) e.
Proof. destruct e; unfold push_event, push_trade_at, push_tick, series_record; cbn; by destruct (is_some_and _ _). Qed.

Lemma push_events_keep s es :
  ms_record_from (foldl push_event s es) = ms_record_from s /\ ms_columns (foldl push_event s es) = ms_columns s /\
  ms_track (foldl push_event s es) = foldl fold_event (ms_track s) es.
Proof.
  revert s. induction es as [|e es IH]; intros s; [done|]. cbn.
  destruct (IH (push_event s e)) as (-> & -> & ->). by destruct (push_event_keeps s e) as (-> & -> & ->).
Qed.

Lemma push_event_row s e : ms_record_from s = None ->
  ms_values (push_event s e) = ms_values s ++ map (eval_column (fold_event (ms_track s) e) (event_at e)) (ms_columns s) /\
  ms_at (push_event s e) = ms_at s ++ [event_at e] /\
  ms_price (push_event s e) = ms_price s ++ [current_price (fold_event (ms_track s) e)].
Proof. intros Hr. destruct e; unfold push_event, push_trade_at, push_tick, series_record; cbn; rewrite Hr; done. Qed.

Lemma n_rows_push s es : ms_record_from s = None -> n_rows (foldl push_event s es) = (n_rows s + length es)%nat.
Proof.
  revert s. induction es as [|e es IH]; intros s Hr; cbn; [lia|].
  rewrite IH by (by destruct (push_event_keeps s e) as (-> & _)).
  unfold n_rows. destruct (push_event_row s e Hr) as (_ & -> & _). rewrite length_app. cbn. lia.
Qed.

(** The row of the last event reads the track right after it. *)
Lemma last_row_value s e i c : series_wf s -> ms_record_from s = None -> ms_columns s !! i = Some c ->
  value_at (push_event s e) (n_rows s) i = track_value (fold_event (ms_track s) e) c.1 c.2 (event_at e).
Proof.
  intros Hs Hr Hc. unfold value_at. assert (Hn : ms_n_cols (push_event s e) = ms_n_cols s).
  { destruct e; unfold push_event, push_trade_at, push_tick, series_record; cbn; by rewrite Hr. }
  rewrite Hn. destruct (push_event_row s e Hr) as (-> & _).
  rewrite app_nth2 by (rewrite (wf_values s Hs); lia). rewrite (wf_values s Hs).
  replace (n_rows s * ms_n_cols s + i - n_rows s * ms_n_cols s)%nat with i by lia.
  apply nth_lookup_Some. match goal with |- map ?f ?l !! _ = _ => change (map f l) with (f <$> l) end.
  by rewrite list_lookup_fmap, Hc.
Qed.

(** A later event leaves the earlier rows alone. *)
Lemma earlier_row_value s e row i : series_wf s -> ms_record_from s = None ->
  (row < n_rows s)%nat -> (i < ms_n_cols s)%nat -> value_at (push_event s e) row i = value_at s row i.
Proof.
  intros Hs Hr Hrow Hi. unfold value_at. assert (Hn : ms_n_cols (push_event s e) = ms_n_cols s).
  { destruct e; unfold push_event, push_trade_at, push_tick, series_record; cbn; by rewrite Hr. }
  rewrite Hn. destruct (push_event_row s e Hr) as (-> & _).
  rewrite app_nth1; [done|]. rewrite (wf_values s Hs). nia.
Qed.

Lemma earlier_rows_value s es row i : series_wf s -> ms_record_from s = None ->
  (row < n_rows s)%nat -> (i < ms_n_cols s)%nat -> value_at (foldl push_event s es) row i = value_at s row i.
Proof.
  revert s. induction es as [|e es IH]; intros s Hs Hr Hrow Hi; [done|]. cbn.
  destruct (push_event_keeps s e) as (Hr' & Hc' & _).
  rewrite IH; [by apply earlier_row_value|by apply push_event_wf|congruence| |].
  - pose proof (n_rows_push s [e] Hr). cbn in *. lia.
  - pose proof (wf_cols _ (push_event_wf s e Hs)). pose proof (wf_cols _ Hs). congruence.
Qed.

(** Precomputing agrees with replaying: the value recorded at a row and column is
    what the coin track itself reads after folding the same events up to that row. *)
Theorem series_samples_the_track s es k e i c :
  series_wf s -> ms_record_from s = None -> ms_columns s !! i = Some c -> es !! k = Some e ->
  value_at (foldl push_event s es) (n_rows s + k) i
  = track_value (foldl fold_event (ms_track s) (take (S k) es)) c.1 c.2 (event_at e).
Proof.
  intros Hs Hr Hc He. rewrite <- (take_drop_middle es k e He), foldl_app. cbn [foldl].
  pose proof (lookup_lt_Some _ _ _ He) as Hk. pose proof (lookup_lt_Some _ _ _ Hc) as Hi.
  set (s' := foldl push_event s (take k es)).
  destruct (push_events_keep s (take k es)) as (Hr' & Hc' & Ht'). fold s' in Hr', Hc', Ht'.
  assert (Hs' : series_wf s') by by apply push_events_wf.
  assert (Hn : (n_rows s + k)%nat = n_rows s').
  { unfold s'. rewrite n_rows_push by done. rewrite length_take. lia. }
  rewrite Hn, earlier_rows_value; [|by apply push_event_wf|by rewrite (proj1 (push_event_keeps s' e)), Hr'| |].
  - rewrite (last_row_value s' e i c) by (done || congruence).
    rewrite Ht', (take_drop_middle es k e He), (take_S_r es k e He), foldl_app. done.
  - pose proof (n_rows_push s' [e] ltac:(congruence)). cbn in *. lia.
  - destruct (push_event_keeps s' e) as (_ & Hc'' & _).
    rewrite (wf_cols _ (push_event_wf s' e Hs')), Hc'', Hc'. done.
Qed.
End series.
