(* ===== verification/Scan.v ===== *)
(** * Scan: one rule over one coin's recorded rows

    [lab/src/sweep/generic/scan.rs] with the frozen tail of [generic/frozen_tail.rs] and
    [Pricing] of [generic/strategy.rs]: the reads of a row, the entry walk and its shared
    two-stage form, the held walk and the money of an exit.  Decisions are the compiled
    rule's ([Arm]), fills [PaperFill]'s, money [Kernel]'s.  A row index is a [nat]; an
    index past the rows, a panic of the source, reads a default that no caller reaches.
    Out of fuel is a value of its own ([TailOut]), which ScanProps proves is never
    produced. *)

From S2P Require Export Series Arm Compile PaperFill Kernel.
From S2P Require Import Float64 Events.

Module Scan.

(** ** Rows *)

Section rows.
Context `{TrackOps}.

Definition row_at (s : MetricSeries) (i : nat) : Ts := nth i (ms_at s) 0.
Definition row_price (s : MetricSeries) (i : nat) : f64 := nth i (ms_price s) f_nan.
Definition row_dead (s : MetricSeries) (i : nat) : bool := nth i (ms_dead s) false.
Definition row_slot (s : MetricSeries) (i : nat) : option Z := nth i (ms_slot s) None.

(** A column the run did not record is [None]. *)
Definition value_at_col (s : MetricSeries) (col : option nat) (row : nat) : f64 :=
  match col with None => f_nan | Some c => value_at s row c end.

Record RowReads := { rr_series : MetricSeries; rr_cols : list (option nat); rr_row : nat; rr_slot : Z }.

#[export] Instance row_reads : CoinReads RowReads := {|
  coin_value := fun r req _ =>
    match rr_cols r !! Z.to_nat (mq_read_id req) with
    | Some col => value_at_col (rr_series r) col (rr_row r)
    | None => f_nan
    end;
  coin_price := fun r => row_price (rr_series r) (rr_row r);
  coin_age_sec := fun r now => secs_between (track_created_at (ms_track (rr_series r))) now;
  coin_cur_slot := rr_slot;
  coin_print_wallet := fun _ => None;
|}.

(** [find_map] over the reversed prefix. *)
Definition last_some (l : list (option Z)) : option Z := find_map id (rev l).

Definition slot_at (s : MetricSeries) (row : nat) : Z :=
  unwrap_or (last_some (take (S (Nat.min row (n_rows s - 1))) (ms_slot s))) 0.
End rows.

(** ** Bound combos *)

Record ExitTag := { et_code : Kernel.ExitCode; et_label : option string; et_slot : option Z }.

Definition DEAD : ExitTag := {| et_code := Kernel.Dead; et_label := None; et_slot := None |}.

Definition N_EXIT_METRIC_SLOTS : Z := 8.

Definition exit_code_of (reason : ExitReason) : Kernel.ExitCode :=
  match reason with
  | Events.TakeProfit => Kernel.TakeProfit
  | Events.StopLoss => Kernel.StopLoss
  | ExitDead => Kernel.Dead
  | ExitLine _ => Kernel.Metrics
  | ExitManual => Kernel.Manual
  | ExitMigrated => Kernel.Migrated
  end.

(** One turn of the numbering loop: the tags so far and the next slot. *)
Definition tag_line (acc : list ExitTag * Z) (l : CompiledLine) : list ExitTag * Z :=
  let '(tags, next) := acc in
  let reason := map_or (ln_sell l) ExitDead cs_reason in
  let '(label, slot, next) :=
    match reason with
    | ExitLine label => (Some label, Some (Z.min next (N_EXIT_METRIC_SLOTS - 1)), sat_add u8_max next 1)
    | _ => (None, None, next)
    end in
  (<[Z.to_nat (ln_index l) := {| et_code := exit_code_of reason; et_label := label; et_slot := slot |}]> tags, next).

Definition line_tags (rule : CompiledRule) : list ExitTag :=
  (foldl tag_line (replicate (length (held_lines rule)) DEAD, 0) (held_lines rule)).1.

Inductive ExitClass := PnlBound (up : bool) | HeldBound | Trailing | Bounce.

Record FastLine := { fl_index : Z; fl_class : ExitClass; fl_req : MetricReq }.

Definition lone_cond (q : MetricReq) : option Condition :=
  match mq_conds q with [[c]] => Some c | _ => None end.

Definition classify (q : MetricReq) : option ExitClass :=
  if negb (mq_read_id q =? POSITION_READ) then None
  else match mr_metric (mq_r q) with
  | RetracePct => Some Trailing
  | BouncePct => Some Bounce
  | PnlPct =>
      match c_operator <$> lone_cond q with
      | Some (OpGt | OpGte) => Some (PnlBound true)
      | Some (OpLt | OpLte) => Some (PnlBound false)
      | _ => None
      end
  | HeldSec =>
      match c_operator <$> lone_cond q with
      | Some (OpGt | OpGte) => Some HeldBound
      | _ => None
      end
  | _ => None
  end.

Definition fast_line (l : CompiledLine) : option FastLine :=
  sell ← ln_sell l;
  if is_someb (cs_bps sell) || is_someb (ln_go l) then None
  else match ln_conds l with
  | [ReqMetric m] => c ← classify m; Some {| fl_index := ln_index l; fl_class := c; fl_req := m |}
  | _ => None
  end.

(** [FastPlan::of]: the lines of a flat held side, or [None]. *)
Definition fast_plan (rule : CompiledRule) : option (list FastLine) :=
  match cr_stages rule with
  | [s] => if is_noneb (sg_ends s) && is_empty (sg_at_end s) then mapM fast_line (held_lines rule) else None
  | _ => None
  end.

Record BoundCombo := {
  bc_rule : CompiledRule;
  bc_cols : list (option nat);
  bc_line_tags : list ExitTag;
  bc_fast : option (list FastLine);
  bc_entry_veto_possible : bool;
}.

(** A condition that may hold before entry. *)
Definition cond_may_hold (c : CondReq) : bool :=
  match c with
  | ReqMetric m => negb (mq_read_id m =? POSITION_READ) || eval (mq_conds m) f_nan (mq_tolerance m)
  | ReqSignal _ _ => true
  end.

(** [rule.stages[0]]: a compiled rule has a stage, or the source panics. *)
Definition veto_lines (rule : CompiledRule) : list CompiledLine :=
  cr_always rule ++ map_or (head (cr_stages rule)) [] sg_on.

Definition bind (columns : list SeriesColumn) (rule : CompiledRule) : BoundCombo := {|
  bc_rule := rule;
  bc_cols := map (fun c => position_of (fun x => column_eqb x c) columns) (cr_coin_reads rule);
  bc_line_tags := line_tags rule;
  bc_fast := fast_plan rule;
  bc_entry_veto_possible :=
    existsb (fun l => forallb cond_may_hold (ln_conds l)) (List.filter (fun l => is_someb (ln_sell l)) (veto_lines rule)) |}.

(** [line_tags[index]]: every line's index is below their number. *)
Definition line_tag (b : BoundCombo) (index : Z) : ExitTag := nth (Z.to_nat index) (bc_line_tags b) DEAD.

(** ** Trade rows of a series *)

Section trades.
Context `{TrackOps} {T : Type} `{TradeRow T}.

Class VenueRow := { row_venue_fee_bps : T -> option f64 }.

Definition prints (l : list (option Z)) : nat := length (List.filter is_someb l).

Definition trade_idx_at_row (s : MetricSeries) (row : nat) : option nat :=
  match row_slot s row with
  | Some _ => Some (prints (take (S row) (ms_slot s)) - 1)%nat
  | None => None
  end.

Definition first_trade_idx_after_row (s : MetricSeries) (row : nat) : option nat :=
  let n := n_rows s in
  if (n =? 0)%nat then None
  else
    let before := if (n <=? row)%nat then prints (ms_slot s) else prints (take (S row) (ms_slot s)) in
    let from := Nat.min (S row) n in
    if (0 <? prints (drop from (ms_slot s)))%nat then Some before else None.

Definition entry_trigger_trade_idx (s : MetricSeries) (row : nat) : option nat :=
  if is_someb (row_slot s row) then trade_idx_at_row s row else first_trade_idx_after_row s row.

(** The row of the [k]-th print, from row [row]. *)
Fixpoint row_of_print (slots : list (option Z)) (row k : nat) : option nat :=
  match slots with
  | [] => None
  | None :: rest => row_of_print rest (S row) k
  | Some _ :: rest => match k with O => Some row | S k => row_of_print rest (S row) k end
  end.

Definition series_row_for_trade_idx (s : MetricSeries) (trade_idx : nat) : option nat :=
  row_of_print (ms_slot s) 0 trade_idx.

Definition depth_at (s : MetricSeries) (row : nat) : option f64 :=
  match ms_priced_reserve_sol s !! row with
  | Some r => if is_finite r && (r >. f_zero) then Some r else None
  | None => None
  end.

Definition fill_trade_slot (s : MetricSeries) (row : nat) : option Z :=
  find_map (row_slot s) (seq row (n_rows s - row)).

Definition exit_fill (trades : list T) (s : MetricSeries) (fire_row : nat) (fill_model : FillModel) : option PaperFill :=
  fire_idx ← or_else (trade_idx_at_row s fire_row) (find_map (trade_idx_at_row s) (rev (seq 0 (S fire_row))));
  find_paper_exit_at trades fire_idx true fill_model.

Definition exit_fill_or_spot (trades : list T) (s : MetricSeries) (fire_row : nat) (fill_model : FillModel) : PaperFill * nat :=
  let fill := unwrap_or (exit_fill trades s fire_row fill_model)
    (mkFill 0 (row_price s fire_row) f_zero (unwrap_or (row_slot s fire_row) 0) (row_at s fire_row) ""
       (depth_at s fire_row)) in
  (fill, unwrap_or (series_row_for_trade_idx s (trade_idx fill)) fire_row).

(** ** Pricing *)

Record Pricing := { pr_buy_amount_sol : f64; pr_fill_model : FillModel; pr_cost : CostModel }.

Context `{VenueRow}.

Definition venue_fee_of (trades : list T) (idx : nat) : option f64 := t ← trades !! idx; row_venue_fee_bps t.

Definition mark_venue_fee (trades : list T) : option f64 := t ← last trades; row_venue_fee_bps t.

Definition venue_fee_at_row (trades : list T) (s : MetricSeries) (row : nat) : option f64 :=
  _ ← mark_venue_fee trades;
  trade_row ← find_first (fun r => is_someb (row_slot s r)) (seq row (n_rows s - row));
  venue_fee_of trades (prints (take trade_row (ms_slot s))).

Definition at_entry (p : Pricing) (trades : list T) (s : MetricSeries) (fill_row : nat) : Pricing :=
  {| pr_buy_amount_sol := pr_buy_amount_sol p; pr_fill_model := pr_fill_model p;
     pr_cost := at_venue_fee (pr_cost p) (venue_fee_at_row trades s fill_row) |}.

(** ** Entry *)

Inductive EntryResolution := NoEntry | Entered (fill_row : nat) (price : f64) (at_ : Ts).

Definition entry_fill_at (trades : list T) (s : MetricSeries) (row : nat) (p : Pricing) : EntryResolution :=
  match entry_trigger_trade_idx s row with
  | None => NoEntry
  | Some trigger_idx =>
      match find_paper_entry_at trades trigger_idx true (pr_fill_model p) with
      | None => NoEntry
      | Some fill =>
          match series_row_for_trade_idx s (trade_idx fill) with
          | None => NoEntry
          | Some fill_row => Entered fill_row (f_price fill) (f_block_time fill)
          end
      end
  end.

Definition reads (b : BoundCombo) (s : MetricSeries) (row : nat) (slot : Z) : RowReads :=
  {| rr_series := s; rr_cols := bc_cols b; rr_row := row; rr_slot := slot |}.

Definition slot_after (s : MetricSeries) (row : nat) (slot : Z) : Z := unwrap_or (row_slot s row) slot.

(** The reference walk over the given rows. *)
Fixpoint resolve_entry_rows (trades : list T) (s : MetricSeries) (b : BoundCombo) (p : Pricing)
    (rows : list nat) (locked : option Z) (slot : Z) : EntryResolution :=
  match rows with
  | [] => NoEntry
  | i :: rest =>
      let slot := slot_after s i slot in
      if row_dead s i then NoEntry
      else
        let r := reads b s i slot in
        let now := row_at s i in
        if is_someb (entry_unsatisfiable (bc_rule b) r now) then NoEntry
        else match try_enter (bc_rule b) r now locked (is_someb (row_slot s i)) with
        | VEnter => entry_fill_at trades s i p
        | VExhaust => NoEntry
        | VSpendSlot => resolve_entry_rows trades s b p rest (if slot =? 0 then locked else Some slot) slot
        | VNo => resolve_entry_rows trades s b p rest locked slot
        end
  end.

Definition resolve_entry (trades : list T) (s : MetricSeries) (b : BoundCombo) (p : Pricing) : EntryResolution :=
  resolve_entry_rows trades s b p (seq 0 (n_rows s)) None 0.

(** ** The shared entry walk *)

Inductive AfterVeto := VetoContinue | VetoEnd.

Inductive Candidate := CandEnter (vetoed : AfterVeto) | CandExhaust (vetoed : AfterVeto).

Inductive RowStep := RowNone | RowCandidate (c : Candidate) | RowEnd.

(** The step of one row, and whether it spends its slot. *)
Definition entry_step (rule : CompiledRule) (r : RowReads) (now : Ts) (on_print : bool) (locked : option Z) : RowStep * bool :=
  let event := event_satisfied rule r now in
  let final_ok := final_filters_satisfied rule r now in
  let rest_ok := filters_satisfied rule r now in
  let candidate :=
    match final_ok, rest_ok with
    | true, true => RowCandidate (CandEnter VetoContinue)
    | false, true => RowCandidate (CandExhaust VetoContinue)
    | _, _ => RowNone
    end in
  match cr_entry_lock rule with
  | None => (if event then candidate else RowNone, false)
  | Some LockToken =>
      (if negb on_print || negb event then RowNone
       else if final_ok && rest_ok then RowCandidate (CandEnter VetoEnd) else RowEnd, false)
  | Some LockSlot =>
      let slot := rr_slot r in
      if bool_decide (locked = Some slot) && negb (slot =? 0) then (RowNone, false)
      else if negb event then (RowNone, false)
      else (candidate, true)
  end.

Record EntryCandidates := {
  ec_all_rows : bool;
  ec_next_row : nat;
  ec_rows : list (nat * Candidate);
  ec_stopped_at : option nat;
  ec_locked_slot : option Z;
  ec_slot : Z;
  ec_fills : list (nat * EntryResolution);
}.

Definition FILL_MEMO_CAP : nat := 32.

(** [EntryCandidates::default], and [open] on it. *)
Definition candidates_open (all_rows : bool) : EntryCandidates :=
  {| ec_all_rows := all_rows; ec_next_row := 0; ec_rows := []; ec_stopped_at := None; ec_locked_slot := None;
     ec_slot := 0; ec_fills := [] |}.

Definition candidates_default : EntryCandidates := candidates_open false.

Definition candidates_stop (c : EntryCandidates) (slot : Z) : EntryCandidates :=
  {| ec_all_rows := ec_all_rows c; ec_next_row := ec_next_row c; ec_rows := ec_rows c;
     ec_stopped_at := Some (ec_next_row c); ec_locked_slot := ec_locked_slot c; ec_slot := slot;
     ec_fills := ec_fills c |}.

Definition candidates_go (c : EntryCandidates) (slot : Z) (found : list (nat * Candidate)) (spend : bool) : EntryCandidates :=
  {| ec_all_rows := ec_all_rows c; ec_next_row := S (ec_next_row c); ec_rows := ec_rows c ++ found;
     ec_stopped_at := ec_stopped_at c;
     ec_locked_slot := if spend && negb (slot =? 0) then Some slot else ec_locked_slot c; ec_slot := slot;
     ec_fills := ec_fills c |}.

Definition candidates_step (s : MetricSeries) (b : BoundCombo) (c : EntryCandidates) : EntryCandidates :=
  let i := ec_next_row c in
  if (n_rows s <=? i)%nat then candidates_stop c (ec_slot c)
  else
    let slot := slot_after s i (ec_slot c) in
    let r := reads b s i slot in
    let now := row_at s i in
    if row_dead s i || is_someb (entry_unsatisfiable (bc_rule b) r now) then candidates_stop c slot
    else if ec_all_rows c then candidates_go c slot [] false
    else match entry_step (bc_rule b) r now (is_someb (row_slot s i)) (ec_locked_slot c) with
    | (RowNone, spend) => candidates_go c slot [] spend
    | (RowCandidate x, spend) => candidates_go c slot [(i, x)] spend
    | (RowEnd, _) => candidates_stop c slot
    end.

(** The [while] of [nth]: step until the walk has stopped or has enough. *)
Fixpoint candidates_until (fuel : nat) (enough : EntryCandidates -> bool) (s : MetricSeries) (b : BoundCombo)
    (c : EntryCandidates) : EntryCandidates :=
  match fuel with
  | O => c
  | S fuel =>
      if is_someb (ec_stopped_at c) || enough c then c
      else candidates_until fuel enough s b (candidates_step s b c)
  end.

(** The walk stops after the last row: one step more than the rows left. *)
Definition candidates_fuel (s : MetricSeries) (c : EntryCandidates) : nat := S (n_rows s - ec_next_row c).

Definition candidates_nth (k : nat) (s : MetricSeries) (b : BoundCombo) (c : EntryCandidates)
    : option (nat * Candidate) * EntryCandidates :=
  if ec_all_rows c then
    let c := candidates_until (candidates_fuel s c) (fun c => (k <? ec_next_row c)%nat) s b c in
    (match ec_stopped_at c with
     | Some stop => if (stop <=? k)%nat then None else Some (k, CandEnter VetoContinue)
     | None => Some (k, CandEnter VetoContinue)
     end, c)
  else
    let c := candidates_until (candidates_fuel s c) (fun c => (k <? length (ec_rows c))%nat) s b c in
    (ec_rows c !! k, c).

Definition fill_at (c : EntryCandidates) (row : nat) (compute : EntryResolution) : EntryResolution * EntryCandidates :=
  match find_first (fun e => (e.1 =? row)%nat) (ec_fills c) with
  | Some (_, hit) => (hit, c)
  | None =>
      (compute,
       {| ec_all_rows := ec_all_rows c; ec_next_row := ec_next_row c; ec_rows := ec_rows c;
          ec_stopped_at := ec_stopped_at c; ec_locked_slot := ec_locked_slot c; ec_slot := ec_slot c;
          ec_fills := if (length (ec_fills c) <? FILL_MEMO_CAP)%nat then ec_fills c ++ [(row, compute)] else ec_fills c |})
  end.

Definition entry_candidates (b : BoundCombo) : EntryCandidates :=
  candidates_open (enter_on_arm (bc_rule b) && is_noneb (cr_entry_lock (bc_rule b))).

Definition vetoed_at (b : BoundCombo) (s : MetricSeries) (row : nat) : bool :=
  bc_entry_veto_possible b &&
  is_someb (sell_line_holding_before_entry (bc_rule b) (reads b s row (slot_at s row)) (row_at s row)).

(** The [loop] over the candidates; at most one turn per row, and one to find none left. *)
Fixpoint resolve_from (fuel : nat) (trades : list T) (s : MetricSeries) (b : BoundCombo) (p : Pricing) (k : nat)
    (c : EntryCandidates) : EntryResolution * EntryCandidates :=
  match fuel with
  | O => (NoEntry, c)
  | S fuel =>
      match candidates_nth k s b c with
      | (None, c) => (NoEntry, c)
      | (Some (row, cand), c) =>
          match cand, vetoed_at b s row with
          | CandEnter _, false => fill_at c row (entry_fill_at trades s row p)
          | CandExhaust _, false => (NoEntry, c)
          | CandEnter VetoContinue, true | CandExhaust VetoContinue, true => resolve_from fuel trades s b p (S k) c
          | CandEnter VetoEnd, true | CandExhaust VetoEnd, true => (NoEntry, c)
          end
      end
  end.

Definition resolve_entry_from (trades : list T) (s : MetricSeries) (b : BoundCombo) (c : EntryCandidates) (p : Pricing)
    : EntryResolution * EntryCandidates :=
  resolve_from (S (n_rows s)) trades s b p 0 c.

(** ** The held side *)

Record Fill := { fl_row : nat; fl_price : f64; fl_at : Ts; fl_slot : option Z; fl_reserve : option f64 }.

Definition fill_of (s : MetricSeries) (entry : EntryResolution) : option Fill :=
  match entry with
  | NoEntry => None
  | Entered fill_row price at_ =>
      Some {| fl_row := fill_row; fl_price := price; fl_at := at_; fl_slot := fill_trade_slot s fill_row;
              fl_reserve := depth_at s fill_row |}
  end.

Definition fill_position (f : Fill) : PositionCtx :=
  with_entry_priced_reserve (at_fill (fl_price f) (fl_at f)) (unwrap_or (fl_reserve f) f_nan).

Record Held := { hd_pos : PositionCtx; hd_stage : Z; hd_sold_bps : Z; hd_legs : list ExitLeg }.

Definition held_new (f : Fill) : Held := {| hd_pos := fill_position f; hd_stage := 0; hd_sold_bps := 0; hd_legs := [] |}.

Definition fold_held (h : Held) (price : f64) : Held :=
  {| hd_pos := fold_price (hd_pos h) price; hd_stage := hd_stage h; hd_sold_bps := hd_sold_bps h; hd_legs := hd_legs h |}.

Definition set_stage_since (p : PositionCtx) (at_ : Ts) : PositionCtx :=
  {| px_entry_price := px_entry_price p; px_peak_price := px_peak_price p; px_trough_price := px_trough_price p;
     px_entered_at := px_entered_at p; px_stage_since := at_; px_entry_priced_reserve := px_entry_priced_reserve p;
     px_sold_pct := px_sold_pct p |}.

Definition set_sold_pct (p : PositionCtx) (pct : f64) : PositionCtx :=
  {| px_entry_price := px_entry_price p; px_peak_price := px_peak_price p; px_trough_price := px_trough_price p;
     px_entered_at := px_entered_at p; px_stage_since := px_stage_since p;
     px_entry_priced_reserve := px_entry_priced_reserve p; px_sold_pct := pct |}.

Definition move_held (h : Held) (go : option Z) (at_ : Ts) : Held :=
  match go with
  | None => h
  | Some s => {| hd_pos := set_stage_since (hd_pos h) at_; hd_stage := s; hd_sold_bps := hd_sold_bps h; hd_legs := hd_legs h |}
  end.

Definition with_bps (l : ExitLeg) (bps : Z) : ExitLeg := mkLeg bps (Kernel.price l) (Kernel.reserve_sol l) (venue_fee_bps l).

(** The step applied, and the tag of a sell of everything left. *)
Definition apply_step (b : BoundCombo) (h : Held) (step : HeldStep) (now : Ts) (leg : ExitLeg * Ts) : Held * option ExitTag :=
  match step with
  | StepNone => (h, None)
  | StepMove s => (move_held h (Some s) now, None)
  | StepLine l =>
      match ln_sell l with
      | None => (move_held h (ln_go l) now, None)
      | Some sell =>
          match cs_bps sell with
          | Some bps =>
              if hd_sold_bps h + bps <? 10000 then
                let sold := hd_sold_bps h + bps in
                let h := {| hd_pos := set_sold_pct (hd_pos h) (f_of_Z sold ⊘ f_of_Z 100); hd_stage := hd_stage h;
                            hd_sold_bps := sold; hd_legs := hd_legs h ++ [with_bps leg.1 bps] |} in
                (move_held h (ln_go l) leg.2, None)
              else (h, Some (line_tag b (ln_index l)))
          | None => (h, Some (line_tag b (ln_index l)))
          end
      end
  end.

(** ** The money of an exit *)

Record TokenOutcome := {
  to_fired : bool;
  to_holding_secs : Z;
  to_pnl_percent : spec_float;
  to_pnl_sol : spec_float;
  to_exit : Kernel.ExitCode;
  to_exit_label : option string;
  to_exit_metric_slot : option Z;
  to_entry_time : option Ts;
  to_entry_price : option f64;
  to_entry_slot : option Z;
  to_exit_time : option Ts;
  to_exit_price : option f64;
  to_exit_slot : option Z;
}.

Definition no_entry : TokenOutcome :=
  Build_TokenOutcome false 0 f_zero f_zero Kernel.NoEntry None None None None None None None None.

(** [x as f32]. *)
Definition f32_of_f64 (x : f64) : spec_float :=
  match x with
  | S754_finite s m e => binary_normalize 24 128 (if s then Z.neg m else Z.pos m) e s
  | _ => x
  end.

Definition partial_leg (trades : list T) (s : MetricSeries) (fire_row : nat) (p : Pricing) (entry_reserve : option f64)
    : ExitLeg * Ts :=
  let '(fill, exit_row) := exit_fill_or_spot trades s fire_row (pr_fill_model p) in
  (mkLeg 0 (f_price fill) (or_else (depth_at s exit_row) entry_reserve) (venue_fee_of trades (trade_idx fill)),
   Z.max (f_block_time fill) (row_at s fire_row)).

Definition close (trades : list T) (s : MetricSeries) (tag : ExitTag) (entry : Fill) (h : Held) (fire_row : nat)
    (fire_at : Ts) (p : Pricing) : TokenOutcome :=
  let '(fill, exit_row) := exit_fill_or_spot trades s fire_row (pr_fill_model p) in
  let rem := sat_sub 10000 (hd_sold_bps h) in
  let legs := hd_legs h ++
    (if 0 <? rem
     then [mkLeg rem (f_price fill) (or_else (depth_at s exit_row) (fl_reserve entry)) (venue_fee_of trades (trade_idx fill))]
     else []) in
  let exit_at := Z.max (f_block_time fill) fire_at in
  let '(pnl_sol, pnl_pct) :=
    if is_empty legs
    then round_trip_with_costs (fl_price entry) (f_price fill) (pr_buy_amount_sol p) (fl_reserve entry) (fl_reserve entry) (pr_cost p)
    else round_trip_multi_leg (fl_price entry) (pr_buy_amount_sol p) (fl_reserve entry) legs (pr_cost p) in
  {| to_fired := true; to_holding_secs := num_seconds (exit_at - fl_at entry);
     to_pnl_percent := f32_of_f64 pnl_pct; to_pnl_sol := f32_of_f64 pnl_sol; to_exit := et_code tag;
     to_exit_label := et_label tag; to_exit_metric_slot := et_slot tag; to_entry_time := Some (fl_at entry);
     to_entry_price := Some (fl_price entry); to_entry_slot := fl_slot entry; to_exit_time := Some exit_at;
     to_exit_price := Some (f_price fill); to_exit_slot := fill_trade_slot s exit_row |}.

Definition open (trades : list T) (s : MetricSeries) (entry : Fill) (h : Held) (mark : f64 * option f64) (p : Pricing) : TokenOutcome :=
  let rem := sat_sub 10000 (hd_sold_bps h) in
  let reserve := if is_empty (hd_legs h) then mark.2 else or_else mark.2 (fl_reserve entry) in
  let legs := hd_legs h ++ (if 0 <? rem then [mkLeg rem mark.1 reserve (mark_venue_fee trades)] else []) in
  let '(pnl_sol, pnl_pct) :=
    round_trip_multi_leg (fl_price entry) (pr_buy_amount_sol p) (depth_at s (fl_row entry)) legs (pr_cost p) in
  {| to_fired := true; to_holding_secs := 0; to_pnl_percent := f32_of_f64 pnl_pct; to_pnl_sol := f32_of_f64 pnl_sol;
     to_exit := Kernel.Open; to_exit_label := None; to_exit_metric_slot := None; to_entry_time := Some (fl_at entry);
     to_entry_price := Some (fl_price entry); to_entry_slot := fl_slot entry; to_exit_time := None;
     to_exit_price := None; to_exit_slot := None |}.

Definition last_finite (s : MetricSeries) : option nat :=
  find_first (fun k => is_finite (row_price s k)) (rev (seq 0 (n_rows s))).

Definition mark_at (s : MetricSeries) (entry_price : f64) (row : option nat) : f64 * option f64 :=
  map_or row (entry_price, None) (fun k => (row_price s k, depth_at s k)).

Definition last_mark (s : MetricSeries) (entry_price : f64) : f64 * option f64 := mark_at s entry_price (last_finite s).
End trades.

Arguments VenueRow T : clear implicits.
End Scan.
