(* ===== verification/ExitScan.v ===== *)
(** * ExitScan: how a held position of the sweep ends

    [lab/src/sweep/generic/frozen_tail.rs] (Module [FrozenTail]), the reference walk
    [resolve_exit_walk] of [generic/scan.rs], [generic/exit_index.rs] (Module
    [ExitIndex]) and the fast paths of [generic/fast_exit.rs] (Module [FastExit]) on a host
    without AVX-512, whose kernels the source states equal to the scalar scans here.
    [partition_point] is given by its contract; FastExitProps proves that every list it is
    applied to is partitioned. *)

From S2P Require Export Scan.
From S2P Require Import Float64 Events Arm.

Module FrozenTail.
Import Scan.

Definition TICK_MS : Z := 200.
Definition TICK_SECS : f64 := f_of_Z TICK_MS ⊘ f_of_Z 1000.

(** [frozen_tail_horizon] of the corpus's newest trade. *)
Definition frozen_tail_horizon (as_of : Ts) (last_trade_at : option Ts) : option Ts :=
  (fun last => Z.min as_of (last + dur_seconds (Deadness.DEAD_QUIET_SECS + Deadness.TAIL_MARGIN_SECS))) <$> last_trade_at.

Definition held_reqs (rule : CompiledRule) : list MetricReq :=
  conds_reqs (held_lines rule ≫= ln_conds) ++ (cr_signals rule ≫= fun s => concat (sg_groups s)).

Definition reads_a_window (rule : CompiledRule) : bool :=
  existsb (fun q => span_is_windowed (mr_span (mq_r q))) (held_reqs rule).

Definition is_clock (q : MetricReq) : bool :=
  match mr_metric (mq_r q) with AgeSec | StallSec | HeldSec | StageSec => true | _ => false end.

(** One candidate tick [k], and the bracket around a threshold.  The source adds the
    saturated cast in an [i64]; a sum past its end wraps below [m], a sum past [m_max] is
    skipped, and either way the tick is not considered. *)
Definition consider_tick (m m_max : Z) (best : option Z) (k : Z) : option Z :=
  if (m <? k) && (k <=? m_max) && is_none_or best (fun b => k <? b) then Some k else best.

Definition consider (m m_max : Z) (best : option Z) (base theta : f64) : option Z :=
  if negb (is_finite base) || negb (is_finite theta) then best
  else
    let m0 := m + f_as_i64 (ffloor ((theta ⊖ base) ⊘ TICK_SECS)) in
    foldl (consider_tick m m_max) best [m0 - 1; m0; m0 + 1; m0 + 2].

Section tail.
Context `{TrackOps} {T : Type} `{TradeRow T} `{!VenueRow T}.

Definition next_tick (rule : CompiledRule) (track : Track) (h : Held) (s : MetricSeries) (now : Ts) (m m_max : Z)
    (force_next : bool) : option Z :=
  let best := if force_next && (m <? m_max) then Some (m + 1) else None in
  let best := foldl (fun best q =>
    let base := req_read q track (Some (hd_pos h)) now in
    let half := mq_tolerance q ⊘ f_of_Z 2 in
    foldl (fun best c =>
      foldl (fun best theta => consider m m_max best base theta) best
        [c_value c; c_value c ⊖ half; c_value c ⊕ half])
      best (concat (mq_conds q)))
    best (List.filter is_clock (held_reqs rule)) in
  match st ← stage_at rule (hd_stage h); sg_ends st with
  | None => best
  | Some (basis, secs) =>
      let elapsed := match basis with
        | BasisAge => secs_between (track_created_at (ms_track s)) now
        | BasisHeld => held (hd_pos h) now
        | BasisStage => stage_sec (hd_pos h) now
        end in
      consider m m_max best elapsed secs
  end.

(** Closed, still open with the legs and moves made, or out of fuel. *)
Inductive TailResult := TailClosed (o : TokenOutcome) | TailOpen (h : Held) | TailOut.

Definition is_step_none (s : HeldStep) : bool := match s with StepNone => true | _ => false end.

Fixpoint tail_loop (fuel : nat) (trades : list T) (s : MetricSeries) (b : BoundCombo) (fill : Fill) (p : Pricing)
    (last : nat) (m_max : Z) (h : Held) (m : Z) (force_next : bool) : TailResult :=
  match fuel with
  | O => TailOut
  | S fuel =>
      let at_ k := row_at s last + dur_milliseconds (k * TICK_MS) in
      match next_tick (bc_rule b) (ms_track s) h s (at_ m) m m_max force_next with
      | None => TailOpen h
      | Some next =>
          let now := at_ next in
          let step := held_line (bc_rule b) (ms_track s) (hd_pos h) (hd_stage h) now in
          let leg := ((partial_leg trades s last p (fl_reserve fill)).1, now) in
          match apply_step b h step now leg with
          | (h, Some tag) => TailClosed (close trades s tag fill h last now p)
          | (h, None) => tail_loop fuel trades s b fill p last m_max h next (negb (is_step_none step))
          end
      end
  end.

(** A tick is at least one past the one before, so [m_max] ticks are enough. *)
Definition resolve (trades : list T) (s : MetricSeries) (b : BoundCombo) (fill : Fill) (h : Held) (p : Pricing)
    (tail_horizon : option Ts) : TailResult :=
  match tail_horizon with
  | None => TailOpen h
  | Some horizon =>
      if (n_rows s =? 0)%nat then TailOpen h
      else
        let last := (n_rows s - 1)%nat in
        if is_someb (row_slot s last) || reads_a_window (bc_rule b) then TailOpen h
        else
          let horizon_ms := num_milliseconds (horizon - row_at s last) in
          if horizon_ms <? TICK_MS then TailOpen h
          else
            let m_max := Z.quot (horizon_ms - 1) TICK_MS in
            tail_loop (S (Z.to_nat m_max)) trades s b fill p last m_max h 0 true
  end.
End tail.
End FrozenTail.

(** ** The reference walk *)

Module Walk.
Import Scan.

Section walk.
Context `{TrackOps} {T : Type} `{TradeRow T} `{!VenueRow T}.

Fixpoint walk_rows (trades : list T) (s : MetricSeries) (b : BoundCombo) (fill : Fill) (p : Pricing) (rows : list nat)
    (h : Held) (slot : Z) : TokenOutcome + Held :=
  match rows with
  | [] => inr h
  | j :: rest =>
      let slot := slot_after s j slot in
      if row_dead s j then inl (close trades s DEAD fill h j (row_at s j) p)
      else
        let h := fold_held h (row_price s j) in
        let now := row_at s j in
        let step := held_line (bc_rule b) (reads b s j slot) (hd_pos h) (hd_stage h) now in
        match apply_step b h step now (partial_leg trades s j p (fl_reserve fill)) with
        | (h, Some tag) => inl (close trades s tag fill h j now p)
        | (h, None) => walk_rows trades s b fill p rest h slot
        end
  end.

(** What is left at the series' end: the frozen tail, else the mark. *)
Definition end_open (trades : list T) (s : MetricSeries) (b : BoundCombo) (fill : Fill) (p : Pricing)
    (tail_horizon : option Ts) (h : Held) (mark : f64 * option f64) : option TokenOutcome :=
  match FrozenTail.resolve trades s b fill h p tail_horizon with
  | FrozenTail.TailClosed o => Some o
  | FrozenTail.TailOpen h => Some (open trades s fill h mark p)
  | FrozenTail.TailOut => None
  end.

Definition rows_after (s : MetricSeries) (row : nat) : list nat := seq (S row) (n_rows s - S row).

(** [None] is out of fuel. *)
Definition resolve_exit_walk (trades : list T) (s : MetricSeries) (b : BoundCombo) (entry : EntryResolution) (p : Pricing)
    (tail_horizon : option Ts) : option TokenOutcome :=
  match fill_of s entry with
  | None => Some no_entry
  | Some fill =>
      let p := at_entry p trades s (fl_row fill) in
      match walk_rows trades s b fill p (rows_after s (fl_row fill)) (held_new fill) (slot_at s (fl_row fill)) with
      | inl o => Some o
      | inr h => end_open trades s b fill p tail_horizon h (last_mark s (fl_price fill))
      end
  end.
End walk.
End Walk.

(** ** The exit index *)

Module ExitIndex.
Import Scan.

Record t := {
  hull_max : list f64;
  hull_min : list f64;
  dead_row : option nat;
  last_finite_row : option nat;
  start : nat;
  at_nondecreasing : bool;
  ready : bool;
}.

(** [Default] and [clear]. *)
Definition clear : t :=
  {| hull_max := []; hull_min := []; dead_row := None; last_finite_row := None; start := 0;
     at_nondecreasing := false; ready := false |}.

Definition raise (m p : f64) : f64 := if is_finite p && (p >. m) then p else m.
Definition lower (m p : f64) : f64 := if is_finite p && (p <. m) then p else m.

(** The running extreme after each price. *)
Fixpoint hull (f : f64 -> f64 -> f64) (m : f64) (prices : list f64) : list f64 :=
  match prices with [] => [] | p :: rest => let m := f m p in m :: hull f m rest end.

Section index.
Context `{TrackOps}.

Definition rebuild (s : MetricSeries) (fill_row : nat) : t :=
  let rows := Walk.rows_after s fill_row in
  let prices := map (row_price s) rows in
  {| hull_max := hull raise f_neg_inf prices;
     hull_min := hull lower f_inf prices;
     dead_row := find_first (row_dead s) rows;
     last_finite_row := last_finite s;
     start := S fill_row;
     at_nondecreasing := forallb (fun j => (j <=? S fill_row)%nat || (row_at s (j - 1) <=? row_at s j)) rows;
     ready := true |}.
End index.

Definition partition_point {A} (f : A -> bool) (l : list A) : nat := length (take_while f l).

Definition first_of (x : t) (hull : list f64) (pred : f64 -> bool) : option nat :=
  if negb (ready x) || is_empty hull then None
  else
    let i := partition_point (fun m => negb (pred m)) hull in
    if (i <? length hull)%nat then Some (start x + i)%nat else None.

Definition first_max_row (x : t) (pred : f64 -> bool) : option nat := first_of x (hull_max x) pred.
Definition first_min_row (x : t) (pred : f64 -> bool) : option nat := first_of x (hull_min x) pred.
End ExitIndex.

(** ** The fast exits *)

Module FastExit.
Import Scan.

Definition usable_entry_price (p : f64) : bool := is_finite p && (p >. f_zero).

Definition is_ordering_op (op : Operator) : bool :=
  match op with OpGt | OpGte | OpLt | OpLte => true | _ => false end.

Definition cmp_ordering (op : Operator) (value threshold : f64) : bool :=
  if negb (is_finite value) then false
  else match op with
  | OpGt => value >. threshold
  | OpGte => value >=. threshold
  | OpLt => value <. threshold
  | OpLte => value <=. threshold
  | _ => false
  end.

(** [Err(())] is [inl tt]. *)
Definition first_pnl_row (x : ExitIndex.t) (q : MetricReq) (entry_price : f64) (up : bool) : unit + option nat :=
  if negb (usable_entry_price entry_price) then inr None
  else
    let ctx := at_fill entry_price 0 in
    let extreme := if up then last (ExitIndex.hull_max x) else last (ExitIndex.hull_min x) in
    if is_some_and extreme (fun v => is_finite v && negb (is_finite (pnl ctx v))) then inl tt
    else
      let pred price := eval (mq_conds q) (pnl ctx price) (mq_tolerance q) in
      inr (if up then ExitIndex.first_max_row x pred else ExitIndex.first_min_row x pred).

Section fast.
Context `{TrackOps} {T : Type} `{TradeRow T} `{!VenueRow T}.

Definition first_held_row (s : MetricSeries) (x : ExitIndex.t) (fill_row : nat) (entry_at : Ts) (q : MetricReq) : unit + option nat :=
  if negb (ExitIndex.at_nondecreasing x) then inl tt
  else
    let n := n_rows s in
    if (n <=? S fill_row)%nat then inr None
    else
      let ctx := at_fill f_one entry_at in
      let at_ := map (row_at s) (Walk.rows_after s fill_row) in
      let i := ExitIndex.partition_point (fun now => negb (eval (mq_conds q) (held ctx now) (mq_tolerance q))) at_ in
      inr (if (i <? length at_)%nat then Some (S fill_row + i)%nat else None).

(** The running-extreme scans: the first row whose read, after folding its price, fires. *)
Fixpoint first_folded_row (s : MetricSeries) (fires : PositionCtx -> f64 -> bool) (rows : list nat) (ctx : PositionCtx) : option nat :=
  match rows with
  | [] => None
  | j :: rest =>
      let p := row_price s j in
      let ctx := fold_price ctx p in
      if fires ctx p then Some j else first_folded_row s fires rest ctx
  end.

Definition first_trailing_row (s : MetricSeries) (fill_row : nat) (entry_price : f64) (q : MetricReq) : option nat :=
  let rows := Walk.rows_after s fill_row in
  match lone_cond q with
  | Some c =>
      if is_ordering_op (c_operator c)
      then first_folded_row s (fun ctx p => cmp_ordering (c_operator c) (retrace ctx p) (c_value c)) rows (at_fill entry_price 0)
      else first_folded_row s (fun ctx p => eval (mq_conds q) (retrace ctx p) (mq_tolerance q)) rows (at_fill entry_price 0)
  | None => first_folded_row s (fun ctx p => eval (mq_conds q) (retrace ctx p) (mq_tolerance q)) rows (at_fill entry_price 0)
  end.

Definition first_bounce_row (s : MetricSeries) (fill_row : nat) (entry_price : f64) (q : MetricReq) : option nat :=
  first_folded_row s (fun ctx p => eval (mq_conds q) (bounce ctx p) (mq_tolerance q))
    (Walk.rows_after s fill_row) (at_fill entry_price 0).

Definition first_row (s : MetricSeries) (x : ExitIndex.t) (fill : Fill) (l : FastLine) : unit + option nat :=
  match fl_class l with
  | PnlBound up => first_pnl_row x (fl_req l) (fl_price fill) up
  | HeldBound => first_held_row s x (fl_row fill) (fl_at fill) (fl_req l)
  | Trailing => inr (first_trailing_row s (fl_row fill) (fl_price fill) (fl_req l))
  | Bounce => inr (first_bounce_row s (fl_row fill) (fl_price fill) (fl_req l))
  end.

(** The loop over the lines: the earliest row so far with its line, or a line that only
    the walk can resolve. *)
Fixpoint best_line (s : MetricSeries) (x : ExitIndex.t) (fill : Fill) (lines : list FastLine) (best : option (nat * FastLine))
    : unit + option (nat * FastLine) :=
  match lines with
  | [] => inr best
  | l :: rest =>
      match first_row s x fill l with
      | inl _ => inl tt
      | inr (Some row) => best_line s x fill rest (if is_none_or best (fun b => (row <? b.1)%nat) then Some (row, l) else best)
      | inr None => best_line s x fill rest best
      end
  end.

Definition close_flat (trades : list T) (s : MetricSeries) (fill : Fill) (tag : ExitTag) (row : nat) (p : Pricing) : TokenOutcome :=
  close trades s tag fill (held_new fill) row (row_at s row) p.

Definition open_tail (trades : list T) (s : MetricSeries) (b : BoundCombo) (fill : Fill) (p : Pricing)
    (tail_horizon : option Ts) (last_finite_row : option nat) : option TokenOutcome :=
  let h := foldl (fun h j => fold_held h (row_price s j)) (held_new fill) (Walk.rows_after s (fl_row fill)) in
  let row := match last_finite_row with Some k => if is_finite (row_price s k) then Some k else None | None => None end in
  Walk.end_open trades s b fill p tail_horizon h (mark_at s (fl_price fill) row).

Definition resolve_exit_indexed (trades : list T) (s : MetricSeries) (b : BoundCombo) (entry : EntryResolution) (p : Pricing)
    (x : ExitIndex.t) (tail_horizon : option Ts) : option TokenOutcome :=
  let walk := Walk.resolve_exit_walk trades s b entry p tail_horizon in
  match fill_of s entry with
  | None => Some no_entry
  | Some fill =>
      match bc_fast b with
      | Some plan =>
          if negb (ExitIndex.ready x) then walk
          else match best_line s x fill plan None with
          | inl _ => walk
          | inr best =>
              let p := at_entry p trades s (fl_row fill) in
              let winner :=
                match ExitIndex.dead_row x, best with
                | Some dead, Some (row, l) => if (dead <=? row)%nat then Some (dead, DEAD) else Some (row, line_tag b (fl_index l))
                | Some dead, None => Some (dead, DEAD)
                | None, Some (row, l) => Some (row, line_tag b (fl_index l))
                | None, None => None
                end in
              match winner with
              | Some (row, tag) => Some (close_flat trades s fill tag row p)
              | None => open_tail trades s b fill p tail_horizon (ExitIndex.last_finite_row x)
              end
          end
      | None => walk
      end
  end.

(** [exit_ctx_key] and [build_exit_ctx] of [generic/strategy.rs]. *)
Definition wants_exit_index (b : BoundCombo) (entry : EntryResolution) : bool :=
  is_someb (bc_fast b) && match entry with Entered _ _ _ => true | NoEntry => false end.

Definition exit_ctx_key (b : BoundCombo) (entry : EntryResolution) : option nat :=
  match entry with
  | Entered fill_row _ _ => if wants_exit_index b entry then Some fill_row else None
  | NoEntry => None
  end.

Definition build_exit_ctx (s : MetricSeries) (b : BoundCombo) (entry : EntryResolution) : ExitIndex.t :=
  match entry with
  | Entered fill_row _ _ => if wants_exit_index b entry then ExitIndex.rebuild s fill_row else ExitIndex.clear
  | NoEntry => ExitIndex.clear
  end.
End fast.
End FastExit.
