(* ===== verification/ScanProps.v ===== *)
(** * ScanProps: the shared entry walk is the reference walk

    However many combos of an entry class have pulled on the shared candidates before, a
    combo resolves the entry the row-by-row walk resolves for it alone. *)

From S2P Require Export ExitScan.
From S2P Require Import Float64 Events Arm Scan.
Import Scan.

Section shared.
Context `{TrackOps} {T : Type} `{TradeRow T} `{!VenueRow T}.
Implicit Types (s : MetricSeries) (b : BoundCombo).

(** ** What the walk still has to find *)

Definition row_step (s : MetricSeries) (b : BoundCombo) (i : nat) (locked : option Z) (slot : Z) : RowStep * bool :=
  entry_step (bc_rule b) (reads b s i slot) (row_at s i) (is_someb (row_slot s i)) locked.

Definition row_over (s : MetricSeries) (b : BoundCombo) (i : nat) (slot : Z) : bool :=
  row_dead s i || is_someb (entry_unsatisfiable (bc_rule b) (reads b s i slot) (row_at s i)).

Definition spent (locked : option Z) (slot : Z) (spend : bool) : option Z :=
  if spend && negb (slot =? 0) then Some slot else locked.

Fixpoint remaining (s : MetricSeries) (b : BoundCombo) (all_rows : bool) (rows : list nat) (locked : option Z) (slot : Z)
    : list (nat * Candidate) :=
  match rows with
  | [] => []
  | i :: rest =>
      let slot := slot_after s i slot in
      if row_over s b i slot then []
      else if all_rows then (i, CandEnter VetoContinue) :: remaining s b all_rows rest locked slot
      else match row_step s b i locked slot with
      | (RowNone, spend) => remaining s b all_rows rest (spent locked slot spend) slot
      | (RowCandidate x, spend) => (i, x) :: remaining s b all_rows rest (spent locked slot spend) slot
      | (RowEnd, _) => []
      end
  end.

Definition rows_from (s : MetricSeries) (i : nat) : list nat := seq i (n_rows s - i).

Definition found (c : EntryCandidates) : list (nat * Candidate) :=
  if ec_all_rows c then map (fun k => (k, CandEnter VetoContinue)) (seq 0 (ec_next_row c)) else ec_rows c.

Definition pending (s : MetricSeries) (b : BoundCombo) (c : EntryCandidates) : list (nat * Candidate) :=
  match ec_stopped_at c with
  | Some _ => []
  | None => remaining s b (ec_all_rows c) (rows_from s (ec_next_row c)) (ec_locked_slot c) (ec_slot c)
  end.

Definition all_found (s : MetricSeries) (b : BoundCombo) (c : EntryCandidates) : list (nat * Candidate) :=
  found c ++ pending s b c.

Definition stops_here (c : EntryCandidates) : Prop := forall i, ec_stopped_at c = Some i -> i = ec_next_row c.

Lemma rows_from_cons s i : (i < n_rows s)%nat -> rows_from s i = i :: rows_from s (S i).
Proof. intros Hi. unfold rows_from. replace (n_rows s - i)%nat with (S (n_rows s - S i)) by lia. done. Qed.

Lemma rows_from_nil s i : (n_rows s <= i)%nat -> rows_from s i = [].
Proof. intros Hi. unfold rows_from. by replace (n_rows s - i)%nat with O by lia. Qed.

Lemma found_go (c : EntryCandidates) slot l spend : ec_all_rows c = false -> found (candidates_go c slot l spend) = found c ++ l.
Proof. intros Ha. unfold found, candidates_go. cbn. by rewrite Ha. Qed.

Lemma found_go_all c slot spend : ec_all_rows c = true ->
  found (candidates_go c slot [] spend) = found c ++ [(ec_next_row c, CandEnter VetoContinue)].
Proof.
  intros Ha. unfold found. change (ec_all_rows (candidates_go c slot [] spend)) with (ec_all_rows c). rewrite Ha.
  change (ec_next_row (candidates_go c slot [] spend)) with (S (ec_next_row c)). by rewrite seq_S, map_app.
Qed.

Lemma step_keeps s b c : ec_stopped_at c = None ->
  let c' := candidates_step s b c in
  all_found s b c' = all_found s b c /\ ec_all_rows c' = ec_all_rows c /\ ec_fills c' = ec_fills c /\ stops_here c' /\
  (ec_stopped_at c' = None -> ec_next_row c' = S (ec_next_row c) /\ (ec_next_row c < n_rows s)%nat).
Proof.
  intros Hs. unfold candidates_step. set (slot := slot_after s (ec_next_row c) (ec_slot c)).
  assert (Hstop : forall slot', pending s b c = [] ->
    let c' := candidates_stop c slot' in
    all_found s b c' = all_found s b c /\ ec_all_rows c' = ec_all_rows c /\ ec_fills c' = ec_fills c /\ stops_here c' /\
    (ec_stopped_at c' = None -> ec_next_row c' = S (ec_next_row c) /\ (ec_next_row c < n_rows s)%nat)).
  { intros slot' Hp c'. unfold all_found. rewrite Hp. split_and!; [done..| |done]. intros i [= <-]. done. }
  destruct (Nat.leb_spec (n_rows s) (ec_next_row c)) as [Hn|Hn].
  { apply Hstop. unfold pending. by rewrite Hs, rows_from_nil. }
  assert (Hp : pending s b c = remaining s b (ec_all_rows c) (ec_next_row c :: rows_from s (S (ec_next_row c)))
    (ec_locked_slot c) (ec_slot c)) by (unfold pending; by rewrite Hs, rows_from_cons).
  cbn [remaining] in Hp. fold slot in Hp.
  change (row_dead s (ec_next_row c) || is_someb _) with (row_over s b (ec_next_row c) slot).
  destruct (row_over s b (ec_next_row c) slot); [by apply Hstop|].
  assert (Hgo : forall l spend,
    found (candidates_go c slot l spend) ++
      remaining s b (ec_all_rows c) (rows_from s (S (ec_next_row c))) (spent (ec_locked_slot c) slot spend) slot = all_found s b c ->
    let c' := candidates_go c slot l spend in
    all_found s b c' = all_found s b c /\ ec_all_rows c' = ec_all_rows c /\ ec_fills c' = ec_fills c /\ stops_here c' /\
    (ec_stopped_at c' = None -> ec_next_row c' = S (ec_next_row c) /\ (ec_next_row c < n_rows s)%nat)).
  { intros l spend Hl c'. split_and!; [|done|done| |done].
    - rewrite <- Hl. unfold all_found, pending. cbn. by rewrite Hs.
    - intros i Hi. cbn in Hi. congruence. }
  destruct (ec_all_rows c) eqn:Ha.
  - apply Hgo. unfold all_found. rewrite Hp, found_go_all by done. by rewrite <- app_assoc.
  - change (entry_step _ _ _ _ _) with (row_step s b (ec_next_row c) (ec_locked_slot c) slot).
    destruct (row_step s b (ec_next_row c) (ec_locked_slot c) slot) as [[|x|] spend]; [apply Hgo|apply Hgo|by apply Hstop].
    all: unfold all_found; rewrite Hp, found_go by done; by rewrite <- app_assoc.
Qed.

Lemma until_stopped fuel enough s b c : is_someb (ec_stopped_at c) = true -> candidates_until fuel enough s b c = c.
Proof. intros E. destruct fuel; cbn [candidates_until]; by rewrite ?E. Qed.

Lemma until_keeps fuel enough s b c :
  stops_here c -> (n_rows s - ec_next_row c < fuel)%nat ->
  let c' := candidates_until fuel enough s b c in
  all_found s b c' = all_found s b c /\ ec_all_rows c' = ec_all_rows c /\ ec_fills c' = ec_fills c /\ stops_here c' /\
  (is_someb (ec_stopped_at c') || enough c' = true).
Proof.
  revert c. induction fuel as [|fuel IH]; intros c Hs Hf; [lia|]. cbn [candidates_until].
  destruct (is_someb (ec_stopped_at c) || enough c) eqn:E; [done|].
  apply orb_false_iff in E as [E _]. destruct (ec_stopped_at c) eqn:Ec; [done|].
  destruct (step_keeps s b c Ec) as (H1 & H2 & H3 & H4 & H5). set (c' := candidates_step s b c) in *.
  destruct (ec_stopped_at c') eqn:Ec'.
  - rewrite until_stopped by (by rewrite Ec'). cbv zeta. rewrite Ec'. done.
  - destruct (H5 eq_refl) as [Hn Hlt]. destruct (IH c' H4 ltac:(lia)) as (-> & -> & -> & ? & ?). done.
Qed.

Lemma nth_keeps k s b c : stops_here c ->
  let x := candidates_nth k s b c in
  x.1 = all_found s b c !! k /\ all_found s b x.2 = all_found s b c /\ ec_fills x.2 = ec_fills c /\ stops_here x.2.
Proof.
  intros Hs. unfold candidates_nth, candidates_fuel. destruct (ec_all_rows c) eqn:Ha; cbn [fst snd].
  - destruct (until_keeps (S (n_rows s - ec_next_row c)) (fun c => (k <? ec_next_row c)%nat) s b c Hs ltac:(lia))
      as (H1 & H2 & H3 & H4 & H5).
    set (c' := candidates_until _ _ s b c) in *. split_and!; [|done..]. rewrite <- H1. unfold all_found, found.
    rewrite H2, Ha. destruct (ec_stopped_at c') as [i|] eqn:Ei.
    + specialize (H4 i Ei). subst i. unfold pending. rewrite Ei, app_nil_r.
      destruct (Nat.leb_spec (ec_next_row c') k).
      * symmetry. apply lookup_ge_None. by rewrite length_map, length_seq.
      * symmetry. apply list_lookup_fmap_Some. exists k. by rewrite lookup_seq_lt.
    + cbn in H5. apply Nat.ltb_lt in H5. rewrite lookup_app_l by (by rewrite length_map, length_seq).
      symmetry. apply list_lookup_fmap_Some. exists k. by rewrite lookup_seq_lt.
  - destruct (until_keeps (S (n_rows s - ec_next_row c)) (fun c => (k <? length (ec_rows c))%nat) s b c Hs ltac:(lia))
      as (H1 & H2 & H3 & H4 & H5).
    set (c' := candidates_until _ _ s b c) in *. split_and!; [|done..]. rewrite <- H1. unfold all_found, found.
    rewrite H2, Ha. destruct (ec_stopped_at c') as [i|] eqn:Ei.
    + unfold pending. by rewrite Ei, app_nil_r.
    + cbn in H5. apply Nat.ltb_lt in H5. by rewrite lookup_app_l.
Qed.

(** ** One combo's entry out of the candidates *)

Fixpoint pick (trades : list T) (s : MetricSeries) (b : BoundCombo) (p : Pricing) (l : list (nat * Candidate)) : EntryResolution :=
  match l with
  | [] => NoEntry
  | (row, cand) :: rest =>
      match cand, vetoed_at b s row with
      | CandEnter _, false => entry_fill_at trades s row p
      | CandExhaust _, false => NoEntry
      | CandEnter VetoContinue, true | CandExhaust VetoContinue, true => pick trades s b p rest
      | CandEnter VetoEnd, true | CandExhaust VetoEnd, true => NoEntry
      end
  end.

Definition fills_ok (trades : list T) (s : MetricSeries) (p : Pricing) (c : EntryCandidates) : Prop :=
  Forall (fun e => e.2 = entry_fill_at trades s e.1 p) (ec_fills c).

Lemma fill_at_keeps trades s b p c row : fills_ok trades s p c -> stops_here c ->
  let x := fill_at c row (entry_fill_at trades s row p) in
  x.1 = entry_fill_at trades s row p /\ all_found s b x.2 = all_found s b c /\ fills_ok trades s p x.2 /\ stops_here x.2.
Proof.
  intros Hf Hs. unfold fill_at. destruct (find_first _ (ec_fills c)) as [[r hit]|] eqn:E; cbn [fst snd].
  - apply find_first_Some in E as [Hin Hr]. cbn in Hr. apply Nat.eqb_eq in Hr as ->.
    split_and!; try done. unfold fills_ok in Hf. rewrite Forall_forall in Hf. by apply (Hf (row, hit)).
  - split_and!; try done. unfold fills_ok. cbn [ec_fills]. destruct (length (ec_fills c) <? FILL_MEMO_CAP)%nat; [|done]. apply Forall_app. split; [done|].
    by repeat constructor.
Qed.

Lemma resolve_from_pick fuel trades s b p k c :
  stops_here c -> fills_ok trades s p c -> (length (all_found s b c) < k + fuel)%nat ->
  let x := resolve_from fuel trades s b p k c in
  x.1 = pick trades s b p (drop k (all_found s b c)) /\ all_found s b x.2 = all_found s b c /\
  fills_ok trades s p x.2 /\ stops_here x.2.
Proof.
  revert k c. induction fuel as [|fuel IH]; intros k c Hs Hf Hl.
  { cbn. rewrite drop_ge by lia. done. }
  cbn [resolve_from]. destruct (nth_keeps k s b c Hs) as (H1 & H2 & H3 & H4).
  destruct (candidates_nth k s b c) as [o c']. cbn [fst snd] in H1, H2, H3, H4. subst o.
  assert (Hf' : fills_ok trades s p c') by (unfold fills_ok; by rewrite H3).
  destruct (all_found s b c !! k) as [[row cand]|] eqn:Ek.
  2: { apply lookup_ge_None in Ek. rewrite drop_ge by lia. done. }
  rewrite (drop_S _ _ _ Ek). cbn [pick]. rewrite <- H2 in Hl |- *.
  destruct cand as [[]|[]], (vetoed_at b s row); try done; try (by apply fill_at_keeps); (apply IH; [done|done|lia]).
Qed.

(** ** The reference walk, row by row *)

Definition slot_before (s : MetricSeries) (i : nat) : Z := unwrap_or (last_some (take i (ms_slot s))) 0.

Lemma slot_after_before s i : series_wf s -> (i < n_rows s)%nat -> slot_after s i (slot_before s i) = slot_before s (S i).
Proof.
  intros Hs Hi. unfold slot_before, slot_after, row_slot, last_some.
  destruct (ms_slot s !! i) as [o|] eqn:E; [|apply lookup_ge_None in E; rewrite (wf_slot s Hs) in E; lia].
  rewrite (take_S_r _ _ _ E), rev_app_distr. rewrite (nth_lookup_Some _ _ _ _ E). cbn. by destruct o.
Qed.

Lemma slot_at_before s i : (i < n_rows s)%nat -> slot_at s i = slot_before s (S i).
Proof. intros Hi. unfold slot_at, slot_before. by rewrite Nat.min_l by lia. Qed.

Lemma nan_holds_nothing q s b i slot now : cond_may_hold (ReqMetric q) = false -> req_holds q (reads b s i slot) None now = false.
Proof.
  unfold cond_may_hold, req_holds, req_read. intros [Hp%negb_false_iff He]%orb_false_iff. by rewrite Hp.
Qed.

(** A combo that no line can veto is never vetoed. *)
Lemma no_veto columns rule s i slot now : cr_tree rule = None ->
  bc_entry_veto_possible (bind columns rule) = false ->
  sell_line_holding_before_entry rule (reads (bind columns rule) s i slot) now = None.
Proof.
  intros Ht Hv. cbn in Hv. unfold sell_line_holding_before_entry, first_lines. rewrite Ht.
  change (cr_always rule ++ map_or (head (cr_stages rule)) [] sg_on) with (veto_lines rule).
  assert (Hl : Forall (fun l => is_someb (ln_sell l) = true -> exists q, q ∈ ln_conds l /\ cond_may_hold q = false) (veto_lines rule)).
  { apply Forall_forall. intros l Hl Hsell. apply not_true_iff_false in Hv.
    assert (Hn : forallb cond_may_hold (ln_conds l) = false).
    { apply not_true_is_false. intros Ha. apply Hv. apply existsb_exists. exists l. split; [|done].
      apply filter_In. split; [by apply list_elem_of_In|done]. }
    clear - Hn. induction (ln_conds l) as [|c cs IH]; [done|]. cbn in Hn. apply andb_false_iff in Hn as [Hc|Hc].
    - exists c. split; [left|done].
    - destruct (IH Hc) as (c' & ? & ?). exists c'. split; [by right|done]. }
  clear Hv. induction Hl as [|l ls Hl _ IH]; [done|]. cbn [find_map].
  destruct (idle_in l 0); cbn [negb]; [done|]. destruct (ln_sell l) as [sell|]; [|done].
  destruct (Hl eq_refl) as (c & Hin & Hc).
  assert (Hf : line_holds rule l (reads (bind columns rule) s i slot) None now = false).
  { apply not_true_is_false. intros Ha. unfold line_holds, all_hold in Ha. rewrite forallb_forall in Ha.
    specialize (Ha c ltac:(by apply list_elem_of_In)). destruct c as [q|]; [|done]. cbn in Ha.
    by rewrite (nan_holds_nothing q s) in Ha. }
  by rewrite Hf.
Qed.

(** A combo as the sweep binds one: a rule without a decision tree. *)
Record bound (b : BoundCombo) : Prop := {
  bound_flat : cr_tree (bc_rule b) = None;
  bound_veto : bc_entry_veto_possible b = false ->
    forall s i slot now, sell_line_holding_before_entry (bc_rule b) (reads b s i slot) now = None;
}.

Lemma bind_bound columns rule : cr_tree rule = None -> bound (bind columns rule).
Proof. intros Ht. split; [done|]. intros Hv s i slot now. by apply no_veto. Qed.

Lemma vetoed_running b s i slot : bound b -> slot = slot_before s (S i) -> (i < n_rows s)%nat ->
  vetoed_at b s i = is_someb (sell_line_holding_before_entry (bc_rule b) (reads b s i slot) (row_at s i)).
Proof.
  intros Hb -> Hi. unfold vetoed_at. rewrite slot_at_before by done.
  destruct (bc_entry_veto_possible b) eqn:E; [done|]. by rewrite (bound_veto b Hb E).
Qed.

Definition takes_all (b : BoundCombo) : bool := enter_on_arm (bc_rule b) && is_noneb (cr_entry_lock (bc_rule b)).

Lemma takes_all_holds b (r : RowReads) now : takes_all b = true ->
  cr_entry_lock (bc_rule b) = None /\ event_satisfied (bc_rule b) r now = true /\
  final_filters_satisfied (bc_rule b) r now = true /\ filters_satisfied (bc_rule b) r now = true.
Proof.
  unfold takes_all, enter_on_arm, event_satisfied, final_filters_satisfied, filters_satisfied.
  intros [[[He Hf]%andb_true_iff Hl]%andb_true_iff Hk]%andb_true_iff.
  destruct (cr_event _), (cr_filters _), (cr_final_filters _), (cr_entry_lock _); try done.
Qed.

Lemma reference_picks trades s b p n i locked : series_wf s -> bound b -> n = (n_rows s - i)%nat ->
  resolve_entry_rows trades s b p (rows_from s i) locked (slot_before s i)
  = pick trades s b p (remaining s b (takes_all b) (rows_from s i) locked (slot_before s i)).
Proof.
  intros Hs Hb. revert i locked. induction n as [|n IH]; intros i locked Hn; [by rewrite rows_from_nil by lia|].
  rewrite rows_from_cons by lia. cbn [resolve_entry_rows remaining]. rewrite slot_after_before by (done || lia).
  set (slot := slot_before s (S i)). set (r := reads b s i slot). set (now := row_at s i).
  unfold row_over. fold r now. destruct (row_dead s i); [done|]. cbn [orb].
  destruct (is_someb (entry_unsatisfiable (bc_rule b) r now)); [done|].
  pose proof (vetoed_running b s i slot Hb eq_refl ltac:(lia)) as Hv. fold r now in Hv.
  assert (Hrest : forall l, resolve_entry_rows trades s b p (rows_from s (S i)) l slot
    = pick trades s b p (remaining s b (takes_all b) (rows_from s (S i)) l slot)) by (intros l; apply IH; lia).
  unfold try_enter, entry_cell_ok. rewrite (bound_flat b Hb), <- Hv. unfold row_step, entry_step. fold r now.
  change (coin_cur_slot r) with (rr_slot r). change (rr_slot r) with slot. rewrite andb_true_r.
  destruct (takes_all b) eqn:Ha.
  - destruct (takes_all_holds b r now Ha) as (-> & -> & -> & ->). cbn [pick negb andb].
    destruct (vetoed_at b s i); [apply Hrest|done].
  - destruct (cr_entry_lock (bc_rule b)) as [[]|].
    + destruct (bool_decide (locked = Some slot) && negb (slot =? 0)); [apply Hrest|].
      destruct (event_satisfied (bc_rule b) r now); cbn [negb]; [|apply Hrest].
      destruct (final_filters_satisfied (bc_rule b) r now), (filters_satisfied (bc_rule b) r now), (vetoed_at b s i) eqn:Ev;
        cbn [andb negb pick]; rewrite ?Ev; try done; unfold spent; cbn [andb]; destruct (slot =? 0); cbn [negb]; apply Hrest.
    + destruct (is_someb (row_slot s i)), (event_satisfied (bc_rule b) r now); cbn [negb orb]; try apply Hrest.
      destruct (final_filters_satisfied (bc_rule b) r now), (filters_satisfied (bc_rule b) r now), (vetoed_at b s i) eqn:Ev;
        cbn [andb negb pick]; rewrite ?Ev; done.
    + destruct (event_satisfied (bc_rule b) r now); cbn [negb]; [|apply Hrest].
      destruct (final_filters_satisfied (bc_rule b) r now), (filters_satisfied (bc_rule b) r now), (vetoed_at b s i) eqn:Ev;
        cbn [andb negb pick]; rewrite ?Ev; try done; apply Hrest.
Qed.

(** ** Entry classes *)

(** Two combos whose rules agree on the entry side, on this coin. *)
Record same_entry (s : MetricSeries) (b0 b : BoundCombo) : Prop := {
  se_lock : cr_entry_lock (bc_rule b0) = cr_entry_lock (bc_rule b);
  se_on_arm : enter_on_arm (bc_rule b0) = enter_on_arm (bc_rule b);
  se_event i slot : event_satisfied (bc_rule b0) (reads b0 s i slot) (row_at s i)
    = event_satisfied (bc_rule b) (reads b s i slot) (row_at s i);
  se_final i slot : final_filters_satisfied (bc_rule b0) (reads b0 s i slot) (row_at s i)
    = final_filters_satisfied (bc_rule b) (reads b s i slot) (row_at s i);
  se_filters i slot : filters_satisfied (bc_rule b0) (reads b0 s i slot) (row_at s i)
    = filters_satisfied (bc_rule b) (reads b s i slot) (row_at s i);
  se_kill i slot : is_someb (entry_unsatisfiable (bc_rule b0) (reads b0 s i slot) (row_at s i))
    = is_someb (entry_unsatisfiable (bc_rule b) (reads b s i slot) (row_at s i));
}.

Lemma same_entry_refl s b : same_entry s b b.
Proof. by constructor. Qed.

Lemma same_entry_sym s b0 b : same_entry s b0 b -> same_entry s b b0.
Proof. intros []. by constructor. Qed.

Lemma same_takes_all s b0 b : same_entry s b0 b -> takes_all b0 = takes_all b.
Proof. intros Hs. unfold takes_all. by rewrite (se_lock _ _ _ Hs), (se_on_arm _ _ _ Hs). Qed.

Lemma same_remaining s b0 b all rows locked slot : same_entry s b0 b ->
  remaining s b0 all rows locked slot = remaining s b all rows locked slot.
Proof.
  intros Hs. revert locked slot. induction rows as [|i rows IH]; intros locked slot; [done|]. cbn [remaining].
  set (slot' := slot_after s i slot). unfold row_over. rewrite (se_kill _ _ _ Hs i slot').
  destruct (row_dead s i || _); [done|]. destruct all; [by rewrite IH|].
  assert (Hr : row_step s b0 i locked slot' = row_step s b i locked slot').
  { unfold row_step, entry_step. change (rr_slot (reads b0 s i slot')) with (rr_slot (reads b s i slot')).
    by rewrite (se_lock _ _ _ Hs), (se_event _ _ _ Hs i slot'), (se_final _ _ _ Hs i slot'), (se_filters _ _ _ Hs i slot'). }
  rewrite Hr. destruct (row_step s b i locked slot') as [[|x|] spend]; [apply IH|by rewrite IH|done].
Qed.

Lemma same_all_found s b0 b c : same_entry s b0 b -> all_found s b0 c = all_found s b c.
Proof.
  intros Hs. unfold all_found, pending. f_equal. destruct (ec_stopped_at c); [done|]. by apply same_remaining.
Qed.

Definition entry_list (s : MetricSeries) (b : BoundCombo) : list (nat * Candidate) :=
  remaining s b (takes_all b) (rows_from s 0) None 0.

Lemma remaining_length s b all rows locked slot : (length (remaining s b all rows locked slot) <= length rows)%nat.
Proof.
  revert locked slot. induction rows as [|i rows IH]; intros locked slot; [done|]. cbn [remaining].
  destruct (row_over _ _ _ _); cbn; [lia|]. destruct all; cbn; [specialize (IH locked (slot_after s i slot)); lia|].
  destruct (row_step _ _ _ _ _) as [[|x|] spend]; cbn; [| |lia].
  all: specialize (IH (spent locked (slot_after s i slot) spend) (slot_after s i slot)); lia.
Qed.

(** The state of a class's candidates, whatever its combos have pulled so far. *)
Inductive shared (trades : list T) (s : MetricSeries) (p : Pricing) (b0 : BoundCombo) : EntryCandidates -> Prop :=
  | shared_open : shared trades s p b0 (entry_candidates b0)
  | shared_pull b c : bound b -> same_entry s b0 b -> shared trades s p b0 c ->
      shared trades s p b0 (resolve_entry_from trades s b c p).2.

Lemma resolve_entry_keeps trades s b p c :
  stops_here c -> fills_ok trades s p c -> all_found s b c = entry_list s b ->
  let x := resolve_entry_from trades s b c p in
  x.1 = pick trades s b p (entry_list s b) /\ all_found s b x.2 = entry_list s b /\ fills_ok trades s p x.2 /\ stops_here x.2.
Proof.
  intros Hs Hf He.
  destruct (resolve_from_pick (S (n_rows s)) trades s b p 0 c Hs Hf) as (H1 & H2 & H3 & H4).
  { rewrite He. pose proof (remaining_length s b (takes_all b) (rows_from s 0) None 0) as Hl.
    unfold entry_list. unfold rows_from at 2 in Hl. rewrite length_seq in Hl. lia. }
  unfold resolve_entry_from. rewrite He, drop_0 in H1. rewrite He in H2. done.
Qed.

Lemma same_entry_list s b0 b : same_entry s b0 b -> entry_list s b0 = entry_list s b.
Proof. intros Hs. unfold entry_list. rewrite (same_takes_all _ _ _ Hs). by apply same_remaining. Qed.

Lemma shared_keeps trades s p b0 c : shared trades s p b0 c ->
  stops_here c /\ fills_ok trades s p c /\ all_found s b0 c = entry_list s b0.
Proof.
  induction 1 as [|b c Hb Hs _ (IH1 & IH2 & IH3)].
  - split_and!; [done|by apply List.Forall_nil|]. unfold all_found, found, pending, entry_candidates, entry_list.
    fold (takes_all b0). cbn [ec_all_rows ec_next_row ec_rows ec_stopped_at ec_locked_slot ec_slot candidates_open].
    by destruct (takes_all b0).
  - destruct (resolve_entry_keeps trades s b p c IH1 IH2) as (_ & H2 & H3 & H4).
    { rewrite <- (same_all_found _ _ _ _ Hs), IH3. by apply same_entry_list. }
    split_and!; [done..|]. by rewrite (same_all_found _ _ _ _ Hs), (same_entry_list _ _ _ Hs).
Qed.

Lemma reference_entry trades s b p : series_wf s -> bound b ->
  resolve_entry trades s b p = pick trades s b p (entry_list s b).
Proof.
  intros Hs Hb. unfold resolve_entry, entry_list.
  pose proof (reference_picks trades s b p (n_rows s) 0 None Hs Hb ltac:(lia)) as E.
  unfold rows_from, slot_before in *. rewrite Nat.sub_0_r in *. done.
Qed.

(** C26: the shared two-stage entry walk resolves for every combo exactly the entry the
    row-by-row reference resolves for it alone, whatever combos of its class pulled on the
    shared candidates before. *)
Theorem shared_walk_is_the_reference trades s p b0 b c :
  series_wf s -> bound b -> same_entry s b0 b -> shared trades s p b0 c ->
  (resolve_entry_from trades s b c p).1 = resolve_entry trades s b p.
Proof.
  intros Hw Hb Hs Hc. apply shared_keeps in Hc as (H1 & H2 & H3).
  rewrite reference_entry by done. destruct (resolve_entry_keeps trades s b p c H1 H2) as (E & _); [|done].
  rewrite <- (same_all_found _ _ _ _ Hs), H3. by apply same_entry_list.
Qed.
End shared.
