(* ===== verification/FastExitProps.v ===== *)
(** * FastExitProps: the indexed exit is the walk's exit

    On a flat held side the indexed queries find the row the walk stops at.  The queries
    rest on the monotonicity of rounding ([Rounding]): a running extreme of prices carries
    the first crossing of a [pnl_pct] bound, row time the first crossing of a [held_sec]
    bound.  The frozen tail always ends. *)

From S2P Require Export ExitScan Rounding.
From S2P Require Import Float64 Events Arm Scan.
Import Scan.

(** ** First rows *)

Fixpoint first_at {A} (f : A -> bool) (l : list A) (i : nat) : option nat :=
  match l with [] => None | x :: l => if f x then Some i else first_at f l (S i) end.

Lemma partition_first {A} (f : A -> bool) l i :
  (let k := ExitIndex.partition_point (fun x => negb (f x)) l in
   if (k <? length l)%nat then Some (i + k)%nat else None) = first_at f l i.
Proof.
  cbv zeta. revert i. induction l as [|x l IH]; intros i; [done|]. cbn [first_at]. rewrite <- (IH (S i)). clear IH.
  unfold ExitIndex.partition_point. cbn [take_while]. destruct (f x); cbn [negb length].
  - by rewrite Nat.add_0_r.
  - change (S ?a <? S ?b)%nat with (a <? b)%nat. destruct (_ <? _)%nat; [|done]. f_equal. lia.
Qed.

Lemma first_at_ge {A} (f : A -> bool) l i r : first_at f l i = Some r -> (i <= r < i + length l)%nat.
Proof.
  revert i. induction l as [|x l IH]; intros i; [done|]. cbn. destruct (f x); [intros [= <-]; lia|].
  intros H%IH. lia.
Qed.

(** ** Monotone reads *)

Lemma pnl_number ctx x : is_finite (px_entry_price ctx) = true -> valid (px_entry_price ctx) = true ->
  (f_zero <. px_entry_price ctx) = true -> is_finite x = true -> valid x = true ->
  forall y, is_finite y = true -> valid y = true -> (x <=. y) = true ->
  number (pnl ctx x) /\ (pnl ctx x <=. pnl ctx y) = true.
Proof.
  intros Fe Ve He Fx Vx y Fy Vy Hle. unfold pnl, fgt. rewrite He, Fx, Fy. cbn [andb].
  set (e := px_entry_price ctx) in *.
  destruct (fsub_mono x y e Fx Fy Fe Vx Vy Ve Hle) as [N1 L1].
  destruct (fsub_mono y y e Fy Fy Fe Vy Vy Ve) as [N1' _]; [by apply fle_refl, is_finite_not_nan|].
  destruct (fdiv_mono _ _ e N1 N1' Fe Ve He L1) as [N2 L2].
  destruct (fdiv_mono _ _ e N1' N1' Fe Ve He) as [N2' _]; [apply fle_refl, N1'|].
  exact (fmul_mono _ _ f_hundred N2 N2' eq_refl eq_refl eq_refl L2).
Qed.

Lemma fmax_zero_mono x y : number x -> number y -> (x <=. y) = true ->
  number (fmax x f_zero) /\ (fmax x f_zero <=. fmax y f_zero) = true.
Proof.
  intros [Nx Vx] [Ny Vy] Hle. unfold fmax. rewrite Nx, Ny. change (is_nan f_zero) with false. cbv iota.
  destruct (x <. f_zero) eqn:Ex, (y <. f_zero) eqn:Ey; split; try done.
  - by apply flt_total.
  - by rewrite (fle_flt_trans _ _ _ Hle Ey) in Ex.
Qed.

Lemma secs_mono t0 a b : a <= b -> number (secs_between t0 a) /\ (secs_between t0 a <=. secs_between t0 b) = true.
Proof.
  intros Hab. unfold secs_between.
  assert (Hms : num_milliseconds (a - t0) <= num_milliseconds (b - t0)) by (apply Z.quot_le_mono; [done|lia]).
  destruct (f_of_Z_mono _ _ Hms) as [N1 L1], (f_of_Z_mono _ _ (Z.le_refl (num_milliseconds (b - t0)))) as [N1' _].
  exact (fdiv_mono _ _ (f_of_Z 1000) N1 N1' eq_refl eq_refl eq_refl L1).
Qed.

Lemma held_mono ctx a b : a <= b -> number (held ctx a) /\ (held ctx a <=. held ctx b) = true.
Proof.
  intros Hab. destruct (secs_mono (px_entered_at ctx) a b Hab) as [N L].
  destruct (secs_mono (px_entered_at ctx) b b (Z.le_refl b)) as [N' _]. by apply fmax_zero_mono.
Qed.

(** ** Lone ordering conditions *)

Definition rising (op : Operator) : bool := match op with OpGt | OpGte => true | _ => false end.
Definition falling (op : Operator) : bool := match op with OpLt | OpLte => true | _ => false end.

Lemma eval_lone c v tol : eval [[c]] v tol = eval_one c v tol.
Proof.
  unfold eval, first_satisfied_cond, eval_one. cbn [is_empty orb find_map forallb]. destruct (is_finite v); cbn [negb]; [|done].
  unfold eval_one. destruct (is_finite v); cbn [negb]; by destruct (match c_operator c with OpGt => _ | _ => _ end).
Qed.

Lemma eval_finite conds v tol : conds <> [] -> is_finite v = false -> eval conds v tol = false.
Proof. intros Hc Hv. unfold eval, first_satisfied_cond. rewrite Hv, orb_true_r. by destruct conds. Qed.

Lemma rising_holds c tol x y : rising (c_operator c) = true -> (x <=. y) = true -> is_finite y = true ->
  eval_one c x tol = true -> eval_one c y tol = true.
Proof.
  intros Hop Hle Hy. unfold eval_one. rewrite Hy. destruct (is_finite x); [|done]. cbn [negb].
  destruct (c_operator c); try done; unfold fgt, fge; intros H; eauto using flt_fle_trans, fle_trans.
Qed.

Lemma falling_holds c tol x y : falling (c_operator c) = true -> (y <=. x) = true -> is_finite y = true ->
  eval_one c x tol = true -> eval_one c y tol = true.
Proof.
  intros Hop Hle Hy. unfold eval_one. rewrite Hy. destruct (is_finite x); [|done]. cbn [negb].
  destruct (c_operator c); try done; intros H; eauto using fle_flt_trans, fle_trans.
Qed.

(** ** Running extremes *)

Definition partitioned {A} (f : A -> bool) (l : list A) : Prop :=
  forallb (fun x => negb (f x)) (drop (ExitIndex.partition_point f l) l) = true.

Lemma partitioned_once {A} (f : A -> bool) l : (forall k x y, l !! k = Some x -> l !! S k = Some y -> f y = true -> f x = true) ->
  partitioned f l.
Proof.
  unfold partitioned, ExitIndex.partition_point. induction l as [|x l IH]; intros H; [done|]. cbn [take_while].
  destruct (f x) eqn:Ex; [apply IH; intros k; apply (H (S k))|]. cbn [length drop]. clear IH.
  revert x Ex H. induction l as [|y l IH]; intros x Ex H; cbn; rewrite Ex; [done|]. cbn [negb andb].
  apply (IH y); [|intros k; apply (H (S k))]. apply not_true_is_false. intros Ey.
  by rewrite (H O x y eq_refl eq_refl Ey) in Ex.
Qed.

Section hull.
Context (better le : f64 -> f64 -> bool) (init : f64).
Context (le_refl : forall x, is_nan x = false -> le x x = true).
Context (le_trans : forall x y z, le x y = true -> le y z = true -> le x z = true).
Context (better_le : forall p m, better p m = true -> le m p = true).
Context (not_better : forall p m, is_nan p = false -> is_nan m = false -> better p m = false -> le p m = true).
Context (init_inf : is_finite init = false).
Context (better_init : forall p, is_finite p = true -> better p init = true).

Let step (m p : f64) : f64 := if is_finite p && better p m then p else m.

Lemma step_cases m p : step m p = m \/ (step m p = p /\ is_finite p = true /\ better p m = true).
Proof. unfold step. destruct (is_finite p), (better p m); auto. Qed.

Lemma hull_length m prices : length (ExitIndex.hull step m prices) = length prices.
Proof. revert m. induction prices as [|p prices IH]; intros m; cbn; [done|]. by rewrite IH. Qed.

Lemma hull_end m prices x : is_nan m = false -> last (ExitIndex.hull step m prices) = Some x ->
  le m x = true /\ Forall (fun p => is_finite p = true -> le p x = true) prices /\
  (x = m \/ (x ∈ prices /\ is_finite x = true)).
Proof.
  revert m. induction prices as [|p prices IH]; intros m Hm H; [done|].
  cbn [ExitIndex.hull] in H.
  assert (Hm' : is_nan (step m p) = false) by (destruct (step_cases m p) as [->|(-> & Hp & _)]; auto with engine).
  assert (Hle : le m (step m p) = true) by (destruct (step_cases m p) as [->|(-> & _ & Hb)]; auto).
  assert (Hp : is_finite p = true -> le p (step m p) = true).
  { intros Hp. unfold step. rewrite Hp. cbn [andb]. destruct (better p m) eqn:E; auto with engine. }
  destruct prices as [|p' prices].
  { cbn in H. injection H as <-. split_and!; [done|by repeat constructor|].
    destruct (step_cases m p) as [->|(-> & ? & _)]; [by left|right; split; [left|done]]. }
  change (last (ExitIndex.hull step (step m p) (p' :: prices)) = Some x) in H.
  destruct (IH _ Hm' H) as (H1 & H2 & H3). split_and!; [by eapply le_trans| |].
  - constructor; [|done]. intros Fp. by eapply le_trans; [apply Hp|].
  - destruct H3 as [->|[Hin Hf]]; [|right; split; [by right|done]].
    destruct (step_cases m p) as [->|(-> & ? & _)]; [by left|right; split; [left|done]].
Qed.

Context (ok : f64 -> Prop) (pred : f64 -> bool).
Context (pred_finite : forall p, pred p = true -> is_finite p = true).
Context (pred_mono : forall x y, is_finite x = true -> is_finite y = true -> ok x -> ok y ->
  le x y = true -> pred x = true -> pred y = true).

Definition carried (m : f64) : Prop := m = init \/ (is_finite m = true /\ ok m).

Lemma carried_step m p : carried m -> (is_finite p = true -> ok p) -> carried (step m p).
Proof. intros Hm Hp. destruct (step_cases m p) as [->|(-> & ? & _)]; [done|right; auto]. Qed.

Lemma hull_first m prices i : carried m -> Forall (fun p => is_finite p = true -> ok p) prices -> pred m = false ->
  first_at pred (ExitIndex.hull step m prices) i = first_at pred prices i.
Proof.
  revert m i. induction prices as [|p prices IH]; intros m i Hm Hok Hpm; [done|]. inversion_clear Hok as [|? ? Hp Hrest].
  cbn [ExitIndex.hull first_at]. destruct (pred p) eqn:Ep.
  - pose proof (pred_finite p Ep) as Fp. replace (step m p) with p; [by rewrite Ep|].
    unfold step. rewrite Fp. cbn [andb]. destruct (better p m) eqn:Eb; [done|]. exfalso.
    destruct Hm as [->|[Fm Om]]; [by rewrite better_init in Eb|].
    by rewrite (pred_mono p m Fp Fm (Hp Fp) Om (not_better p m (is_finite_not_nan _ Fp) (is_finite_not_nan _ Fm) Eb) Ep) in Hpm.
  - assert (Hs : pred (step m p) = false) by (destruct (step_cases m p) as [->|(-> & _)]; done).
    rewrite Hs. by apply IH; [apply carried_step| |].
Qed.

Lemma hull_partitioned m prices : carried m -> Forall (fun p => is_finite p = true -> ok p) prices ->
  partitioned (fun m => negb (pred m)) (ExitIndex.hull step m prices).
Proof.
  intros Hm Hok. apply partitioned_once. intros k x y Hx Hy.
  revert m k Hm Hok Hx Hy. induction prices as [|p prices IH]; intros m k Hm Hok Hx Hy; [done|].
  inversion_clear Hok as [|? ? Hp Hrest]. pose proof (carried_step m p Hm Hp) as Hs.
  destruct k as [|k]; [|exact (IH (step m p) k Hs Hrest Hx Hy)]. cbn in Hx. injection Hx as <-.
  destruct prices as [|p' prices]; [done|]. cbn in Hy. injection Hy as <-. inversion_clear Hrest as [|? ? Hp' _].
  intros Hn%negb_true_iff. apply negb_true_iff. destruct (step_cases (step m p) p') as [E|(E & Fp & Hb)]; rewrite E in Hn; [done|].
  destruct (pred (step m p)) eqn:Em; [|done]. pose proof (pred_finite _ Em) as Fm.
  destruct Hs as [Hi|[_ Om]].
  - by rewrite Hi, init_inf in Fm.
  - by rewrite (pred_mono (step m p) p' Fm Fp Om (Hp' Fp) (better_le _ _ Hb) Em) in Hn.
Qed.
End hull.

(** ** The price queries *)

Definition prices_valid (prices : list f64) : Prop := Forall (fun p => is_finite p = true -> valid p = true) prices.

Lemma gt_le p m : (p >. m) = true -> (m <=. p) = true.
Proof. apply flt_fle. Qed.

Lemma not_gt_le p m : is_nan p = false -> is_nan m = false -> (p >. m) = false -> (p <=. m) = true.
Proof. intros Hp Hm H. by apply flt_total. Qed.

Lemma not_lt_ge p m : is_nan p = false -> is_nan m = false -> (p <. m) = false -> (m <=. p) = true.
Proof. intros Hp Hm H. by apply flt_total. Qed.

Lemma finite_inf p : is_finite p = true -> (p >. f_neg_inf) = true /\ (p <. f_inf) = true.
Proof. by destruct p as [[]|[]| |[]]. Qed.

Lemma between_finite x y z : is_finite x = true -> is_finite z = true -> (x <=. y) = true -> (y <=. z) = true ->
  is_finite y = true.
Proof. destruct y as [[]|[]| |[]]; try done; destruct x as [[]|[]| |[]], z as [[]|[]| |[]]; try done. Qed.

Section pnl_query.
Context (e : f64) (c : Condition) (tol : f64).
Context (e_finite : is_finite e = true) (e_valid : valid e = true) (e_pos : (f_zero <. e) = true).

Let ctx := at_fill e 0.
Let pred (price : f64) : bool := eval [[c]] (pnl ctx price) tol.

Lemma pnl_pred_finite p : pred p = true -> is_finite p = true.
Proof.
  unfold pred. intros H. destruct (is_finite p) eqn:Fp; [done|].
  rewrite eval_finite in H; [done|done|]. unfold pnl. by rewrite Fp, andb_false_r.
Qed.

Lemma pnl_le x y : is_finite x = true -> is_finite y = true -> valid x = true -> valid y = true ->
  (x <=. y) = true -> (pnl ctx x <=. pnl ctx y) = true.
Proof. intros. by apply pnl_number. Qed.

(** At most, or at least, a price whose [pnl] is finite. *)
Definition below (top x : f64) : Prop := valid x = true /\ (x <=. top) = true.
Definition above (low x : f64) : Prop := valid x = true /\ (low <=. x) = true.

Lemma rising_pred top : rising (c_operator c) = true -> is_finite top = true -> valid top = true ->
  is_finite (pnl ctx top) = true ->
  forall x y, is_finite x = true -> is_finite y = true -> below top x -> below top y ->
  (x <=. y) = true -> pred x = true -> pred y = true.
Proof.
  intros Hop Ft Vt Hfin x y Fx Fy [Vx _] [Vy Hy] Hle. unfold pred. rewrite !eval_lone. intros H.
  assert (Fpx : is_finite (pnl ctx x) = true) by (unfold eval_one in H; by destruct (is_finite (pnl ctx x))).
  apply (rising_holds c tol (pnl ctx x)); [done|by apply pnl_le| |exact H].
  apply (between_finite (pnl ctx x) _ (pnl ctx top)); [done|done|by apply pnl_le..].
Qed.

Lemma falling_pred low : falling (c_operator c) = true -> is_finite low = true -> valid low = true ->
  is_finite (pnl ctx low) = true ->
  forall x y, is_finite x = true -> is_finite y = true -> above low x -> above low y ->
  (y <=. x) = true -> pred x = true -> pred y = true.
Proof.
  intros Hop Fl Vl Hfin x y Fx Fy [Vx _] [Vy Hy] Hle. unfold pred. rewrite !eval_lone. intros H.
  assert (Fpx : is_finite (pnl ctx x) = true) by (unfold eval_one in H; by destruct (is_finite (pnl ctx x))).
  apply (falling_holds c tol (pnl ctx x)); [done|by apply pnl_le| |exact H].
  apply (between_finite (pnl ctx low) _ (pnl ctx x)); [done|done|by apply pnl_le..].
Qed.

Lemma first_of_none prices i : Forall (fun p => is_finite p = false) prices -> first_at pred prices i = None.
Proof.
  intros H. revert i. induction H as [|p prices Hp _ IH]; intros i; [done|]. cbn.
  destruct (pred p) eqn:E; [|done]. apply pnl_pred_finite in E. congruence.
Qed.

(** The query over a running extreme, when the [pnl] of the extreme did not overflow. *)
Lemma max_query prices i : rising (c_operator c) = true -> prices_valid prices ->
  is_some_and (last (ExitIndex.hull ExitIndex.raise f_neg_inf prices)) (fun v => is_finite v && negb (is_finite (pnl ctx v))) = false ->
  first_at pred (ExitIndex.hull ExitIndex.raise f_neg_inf prices) i = first_at pred prices i /\
  partitioned (fun m => negb (pred m)) (ExitIndex.hull ExitIndex.raise f_neg_inf prices).
Proof.
  intros Hop Hv Hx. destruct (last (ExitIndex.hull ExitIndex.raise f_neg_inf prices)) as [top|] eqn:El.
  2: { apply last_None in El. destruct prices; [|done]. by split. }
  destruct (hull_end (fun p m => p >. m) (fun x y => x <=. y) fle_refl fle_trans gt_le not_gt_le f_neg_inf _ _ eq_refl El) as (H1 & H2 & H3).
  cbn [is_some_and] in Hx. 
  assert (Hok : Forall (fun p => is_finite p = true -> below top p /\ is_finite top = true) prices).
  { apply Forall_forall. intros p Hp Fp. unfold prices_valid in Hv. rewrite Forall_forall in Hv, H2.
    specialize (Hv p Hp Fp). split; [split; [done|by apply H2]|]. destruct H3 as [->|[_ ?]]; [|done].
    specialize (H2 p Hp Fp). by destruct p as [[]|[]| |[]]. }
  assert (Hmono : forall x y, is_finite x = true -> is_finite y = true -> below top x /\ is_finite top = true ->
    below top y /\ is_finite top = true -> (x <=. y) = true -> pred x = true -> pred y = true).
  { intros x y Fx Fy [Bx Ft] [By _]. rewrite Ft in Hx. apply negb_false_iff in Hx.
    apply (rising_pred top); try done. destruct H3 as [->|[Hin _]]; [done|].
    unfold prices_valid in Hv. rewrite Forall_forall in Hv. by apply Hv. }
  assert (Hi : pred f_neg_inf = false) by (apply not_true_is_false; by intros ?%pnl_pred_finite).
  split.
  - by apply (hull_first (fun p m => p >. m) _ f_neg_inf not_gt_le (fun p Hp => proj1 (finite_inf p Hp)) _ _ pnl_pred_finite Hmono); [left| |].
  - by apply (hull_partitioned (fun p m => p >. m) _ f_neg_inf gt_le eq_refl _ _ pnl_pred_finite Hmono); [left|].
Qed.

Lemma min_query prices i : falling (c_operator c) = true -> prices_valid prices ->
  is_some_and (last (ExitIndex.hull ExitIndex.lower f_inf prices)) (fun v => is_finite v && negb (is_finite (pnl ctx v))) = false ->
  first_at pred (ExitIndex.hull ExitIndex.lower f_inf prices) i = first_at pred prices i /\
  partitioned (fun m => negb (pred m)) (ExitIndex.hull ExitIndex.lower f_inf prices).
Proof.
  intros Hop Hv Hx. destruct (last (ExitIndex.hull ExitIndex.lower f_inf prices)) as [low|] eqn:El.
  2: { apply last_None in El. destruct prices; [|done]. by split. }
  destruct (hull_end (fun p m => p <. m) (fun x y => y <=. x) fle_refl (fun x y z Hxy Hyz => fle_trans _ _ _ Hyz Hxy)
    (fun p m => flt_fle p m) not_lt_ge f_inf _ _ eq_refl El) as (H1 & H2 & H3).
  cbn [is_some_and] in Hx.
  assert (Hok : Forall (fun p => is_finite p = true -> above low p /\ is_finite low = true) prices).
  { apply Forall_forall. intros p Hp Fp. unfold prices_valid in Hv. rewrite Forall_forall in Hv, H2.
    specialize (Hv p Hp Fp). split; [split; [done|by apply H2]|]. destruct H3 as [->|[_ ?]]; [|done].
    specialize (H2 p Hp Fp). by destruct p as [[]|[]| |[]]. }
  assert (Hmono : forall x y, is_finite x = true -> is_finite y = true -> above low x /\ is_finite low = true ->
    above low y /\ is_finite low = true -> (y <=. x) = true -> pred x = true -> pred y = true).
  { intros x y Fx Fy [Bx Ft] [By _]. rewrite Ft in Hx. apply negb_false_iff in Hx.
    apply (falling_pred low); try done. destruct H3 as [->|[Hin _]]; [done|].
    unfold prices_valid in Hv. rewrite Forall_forall in Hv. by apply Hv. }
  assert (Hi : pred f_inf = false) by (apply not_true_is_false; by intros ?%pnl_pred_finite).
  split.
  - by apply (hull_first (fun p m => p <. m) _ f_inf not_lt_ge (fun p Hp => proj2 (finite_inf p Hp)) _ _ pnl_pred_finite Hmono); [left| |].
  - by apply (hull_partitioned (fun p m => p <. m) _ f_inf (fun p m => flt_fle p m) eq_refl _ _ pnl_pred_finite Hmono); [left|].
Qed.
End pnl_query.

(** An entry price no [pnl] can be computed from. *)
Lemma unusable_pnl e t x : FastExit.usable_entry_price e = false -> is_finite (pnl (at_fill e t) x) = false.
Proof.
  unfold FastExit.usable_entry_price, pnl. change (px_entry_price (at_fill e t)) with e.
  destruct (e >. f_zero) eqn:E; [|done]. rewrite andb_true_r. intros He. cbn [andb].
  destruct (is_finite x) eqn:Fx; [|done]. destruct e as [[]|[]| |[]]; try done. by destruct x as [[]|[]| |[]].
Qed.

(** ** Picking the earliest line *)

Definition best_step (f : FastLine -> option nat) (best : option (nat * FastLine)) (l : FastLine) : option (nat * FastLine) :=
  match f l with
  | Some row => if is_none_or best (fun b => (row <? b.1)%nat) then Some (row, l) else best
  | None => best
  end.

Definition best_of (f : FastLine -> option nat) (lines : list FastLine) : option (nat * FastLine) :=
  foldl (best_step f) None lines.

Lemma best_ext f g lines best : Forall (fun l => f l = g l) lines -> foldl (best_step f) best lines = foldl (best_step g) best lines.
Proof.
  intros H. revert best. induction H as [|l lines Hl _ IH]; intros best; [done|]. cbn. unfold best_step at 2 4.
  by rewrite Hl, IH.
Qed.

Lemma best_keeps f lines row l : Forall (fun l => forall r, f l = Some r -> (row <= r)%nat) lines ->
  foldl (best_step f) (Some (row, l)) lines = Some (row, l).
Proof.
  intros H. induction H as [|x lines Hx _ IH]; [done|]. cbn. unfold best_step at 2.
  destruct (f x) as [r|]; [|done]. cbn [is_none_or fst]. rewrite (proj2 (Nat.ltb_ge r row)); [done|]. by apply Hx.
Qed.

Lemma best_first f lines j l : Forall (fun l => forall r, f l = Some r -> (j <= r)%nat) lines ->
  find_first (fun l => bool_decide (f l = Some j)) lines = Some l -> best_of f lines = Some (j, l).
Proof.
  intros H Hf. unfold best_of.
  assert (Hb : is_none_or (@None (nat * FastLine)) (fun b => (j <? b.1)%nat) = true) by done.
  revert Hb. generalize (@None (nat * FastLine)). induction H as [|x lines Hx Hr IH]; [done|]. intros best Hb.
  cbn [foldl find_first] in Hf |- *. destruct (bool_decide (f x = Some j)) eqn:E.
  - injection Hf as ->. apply bool_decide_eq_true in E. unfold best_step at 2. rewrite E, Hb. by apply best_keeps.
  - apply IH; [done|]. apply bool_decide_eq_false in E. unfold best_step. destruct (f x) as [r|] eqn:Er; [|done].
    specialize (Hx r eq_refl). assert (r <> j) by congruence.
    destruct (is_none_or best (fun b => (r <? b.1)%nat)); [|exact Hb]. cbn [is_none_or fst]. apply Nat.ltb_lt. lia.
Qed.

Lemma best_in f lines row l : best_of f lines = Some (row, l) -> f l = Some row /\ l ∈ lines.
Proof.
  unfold best_of. intros H.
  assert (G : forall best, foldl (best_step f) best lines = Some (row, l) ->
    best = Some (row, l) \/ (f l = Some row /\ l ∈ lines)).
  { clear H. induction lines as [|x lines IH]; intros best H; [by left|]. cbn in H.
    destruct (IH _ H) as [E|[E Hin]]; [|right; split; [done|by right]]. unfold best_step in E.
    destruct (f x) as [r|] eqn:Er; [|by left]. destruct (is_none_or best _); [|by left]. injection E as -> ->.
    right. split; [done|left]. }
  by destruct (G None H).
Qed.

Lemma best_none f lines : Forall (fun l => f l = None) lines -> best_of f lines = None.
Proof. unfold best_of. intros H. induction H as [|x lines Hx _ IH]; [done|]. cbn. unfold best_step at 2. by rewrite Hx. Qed.

(** ** The walk on a flat held side *)

Section flat.
Context `{TrackOps} {T : Type} `{TradeRow T} `{!VenueRow T}.
Implicit Types (s : MetricSeries) (b : BoundCombo).

(** One line at row [j], its price already folded into the position. *)
Definition line_fires (s : MetricSeries) (l : FastLine) (ctx : PositionCtx) (j : nat) : bool :=
  eval (mq_conds (fl_req l)) (position_value (mr_metric (mq_r (fl_req l))) ctx (row_price s j) (row_at s j))
    (mq_tolerance (fl_req l)).

Fixpoint first_firing (s : MetricSeries) (fires : PositionCtx -> nat -> bool) (rows : list nat) (ctx : PositionCtx) : option nat :=
  match rows with
  | [] => None
  | j :: rest =>
      let ctx := fold_price ctx (row_price s j) in
      if fires ctx j then Some j else first_firing s fires rest ctx
  end.

(** The first row that ends the position: dead, or with the line that fires. *)
Fixpoint flat_walk (s : MetricSeries) (lines : list FastLine) (rows : list nat) (ctx : PositionCtx) : option (nat * option FastLine) :=
  match rows with
  | [] => None
  | j :: rest =>
      if row_dead s j then Some (j, None)
      else
        let ctx := fold_price ctx (row_price s j) in
        match find_first (fun l => line_fires s l ctx j) lines with
        | Some l => Some (j, Some l)
        | None => flat_walk s lines rest ctx
        end
  end.

Definition flat_tag (b : BoundCombo) (l : option FastLine) : ExitTag := map_or l DEAD (fun l => line_tag b (fl_index l)).

Lemma close_same trades s tag fill h h' j at_ p : hd_sold_bps h = hd_sold_bps h' -> hd_legs h = hd_legs h' ->
  close trades s tag fill h j at_ p = close trades s tag fill h' j at_ p.
Proof. intros E1 E2. unfold close. by rewrite E1, E2. Qed.

Lemma find_first_app {A} (f : A -> bool) l1 l2 :
  find_first f (l1 ++ l2) = match find_first f l1 with Some x => Some x | None => find_first f l2 end.
Proof. induction l1 as [|x l1 IH]; [done|]. cbn. by destruct (f x). Qed.

(** A flat line and its compiled line. *)
Lemma fast_line_spec l fl : fast_line l = Some fl ->
  exists sell, ln_sell l = Some sell /\ cs_bps sell = None /\ ln_go l = None /\ fl_index fl = ln_index l /\
  ln_conds l = [ReqMetric (fl_req fl)] /\ classify (fl_req fl) = Some (fl_class fl).
Proof.
  unfold fast_line. destruct (ln_sell l) as [sell|]; cbn [mbind option_bind]; [|done].
  destruct (cs_bps sell) eqn:Eb, (ln_go l) eqn:Eg; try done. cbn [is_someb orb].
  destruct (ln_conds l) as [|[m|] [|]]; try done. destruct (classify m) eqn:E; cbn [mbind option_bind]; [|done].
  intros [= <-]. exists sell. by split_and!.
Qed.

Lemma classify_position q c : classify q = Some c -> mq_read_id q = POSITION_READ.
Proof. unfold classify. destruct (mq_read_id q =? POSITION_READ) eqn:E; [by apply Z.eqb_eq in E|done]. Qed.

Lemma acts_fires b s l fl j slot pos : fast_line l = Some fl ->
  line_acts (bc_rule b) (reads b s j slot) pos 0 (row_at s j) None l = line_fires s fl pos j.
Proof.
  intros Hl. destruct (fast_line_spec l fl Hl) as (sell & Hs & Hb & Hg & _ & Hc & Hk). apply classify_position in Hk.
  unfold line_acts, idle_in, line_holds, all_hold, line_fires. cbn [is_some_and]. rewrite Hg, Hc. cbn [negb andb forallb].
  rewrite (bool_decide_eq_false_2 (None = Some 0)) by done. cbn [negb andb cond_holds].
  unfold req_holds, req_read. rewrite Hk. rewrite andb_true_r. done.
Qed.

Lemma flat_held_line b s plan j slot pos : cr_tree (bc_rule b) = None -> fast_plan (bc_rule b) = Some plan ->
  match find_first (fun l => line_fires s l pos j) plan with
  | Some fl => exists l sell, held_line (bc_rule b) (reads b s j slot) pos 0 (row_at s j) = StepLine l /\
      ln_sell l = Some sell /\ cs_bps sell = None /\ ln_index l = fl_index fl
  | None => held_line (bc_rule b) (reads b s j slot) pos 0 (row_at s j) = StepNone
  end.
Proof.
  intros Ht Hp. unfold fast_plan in Hp. destruct (cr_stages (bc_rule b)) as [|st [|]] eqn:Es; try done.
  destruct (sg_ends st) eqn:Ee; [done|]. destruct (sg_at_end st) eqn:Ea; [|done]. cbn [is_noneb is_empty andb] in Hp.
  assert (Hh : held_line (bc_rule b) (reads b s j slot) pos 0 (row_at s j)
    = step_of (find_first (line_acts (bc_rule b) (reads b s j slot) pos 0 (row_at s j) None) (held_lines (bc_rule b)))).
  { unfold held_line, held_line_bound, held_lines, stage_at. rewrite Ht, Es. cbn [mbind list_bind]. rewrite Ea.
    rewrite !app_nil_r, find_first_app. destruct (find_first _ (cr_always _)); [done|].
    change ([st] !! Z.to_nat 0) with (Some st). cbv iota. unfold deadline_reached. by rewrite Ee. }
  rewrite Hh. apply mapM_Some in Hp. clear Hh. induction Hp as [|l fl ls fls Hl _ IH]; [done|]. cbn [find_first].
  rewrite (acts_fires b s l fl) by done. destruct (line_fires s fl pos j); [|exact IH].
  destruct (fast_line_spec l fl Hl) as (sell & ? & ? & _ & ? & _). by exists l, sell.
Qed.

Lemma walk_flat trades s b plan fill p rows h slot : cr_tree (bc_rule b) = None -> fast_plan (bc_rule b) = Some plan ->
  hd_stage h = 0 ->
  Walk.walk_rows trades s b fill p rows h slot =
  match flat_walk s plan rows (hd_pos h) with
  | Some (j, l) => inl (close trades s (flat_tag b l) fill h j (row_at s j) p)
  | None => inr (foldl (fun h j => fold_held h (row_price s j)) h rows)
  end.
Proof.
  intros Ht Hp. revert h slot. induction rows as [|j rows IH]; intros h slot Hh; [done|]. cbn [Walk.walk_rows flat_walk].
  destruct (row_dead s j); [done|]. change (fold_price (hd_pos h) (row_price s j)) with (hd_pos (fold_held h (row_price s j))).
  set (h' := fold_held h (row_price s j)). assert (Hh' : hd_stage h' = 0) by done. rewrite Hh'.
  pose proof (flat_held_line b s plan j (slot_after s j slot) (hd_pos h') Ht Hp) as Hl.
  destruct (find_first _ plan) as [fl|].
  - destruct Hl as (l & sell & -> & Hs & Hb & Hi). unfold apply_step. rewrite Hs, Hb. cbn [flat_tag map_or].
    rewrite Hi. by rewrite (close_same trades s _ fill h' h).
  - rewrite Hl. cbn [apply_step]. rewrite (IH h') by done. destruct (flat_walk s plan rows (hd_pos h')) as [[k l]|]; [|done].
    by rewrite (close_same trades s _ fill h' h).
Qed.

(** ** The earliest of the lines' rows *)

Lemma first_firing_ge s fires i n ctx r : first_firing s fires (seq i n) ctx = Some r -> (i <= r)%nat.
Proof.
  revert i ctx. induction n as [|n IH]; intros i ctx; [done|]. cbn [seq first_firing].
  destruct (fires _ i); [by intros [= ->]|]. intros E%IH. lia.
Qed.

Lemma find_first_ext {A} (f g : A -> bool) l : Forall (fun x => f x = g x) l -> find_first f l = find_first g l.
Proof. induction 1 as [|x l Hx _ IH]; [done|]. cbn. by rewrite Hx, IH. Qed.

Definition winner (dead : option nat) (best : option (nat * FastLine)) : option (nat * option FastLine) :=
  match dead, best with
  | Some dead, Some (row, l) => if (dead <=? row)%nat then Some (dead, None) else Some (row, Some l)
  | Some dead, None => Some (dead, None)
  | None, Some (row, l) => Some (row, Some l)
  | None, None => None
  end.

Lemma flat_walk_winner s plan i n ctx :
  flat_walk s plan (seq i n) ctx =
  winner (find_first (row_dead s) (seq i n)) (best_of (fun l => first_firing s (line_fires s l) (seq i n) ctx) plan).
Proof.
  revert i ctx. induction n as [|n IH]; intros i ctx.
  { cbn. by rewrite best_none by (by apply Forall_true). }
  cbn [seq flat_walk find_first]. destruct (row_dead s i) eqn:Ed.
  { destruct (best_of _ plan) as [[row l]|] eqn:Eb; [|done]. apply best_in in Eb as [Er _].
    change (i :: seq (S i) n) with (seq i (S n)) in Er. apply first_firing_ge in Er. unfold winner.
    by rewrite (proj2 (Nat.leb_le i row)). }
  set (ctx' := fold_price ctx (row_price s i)).
  destruct (find_first (fun l => line_fires s l ctx' i) plan) as [l|] eqn:Ef.
  - rewrite (best_first _ plan i l).
    + destruct (find_first (row_dead s) (seq (S i) n)) as [dead|] eqn:Ex; [|done].
      apply find_first_Some in Ex as [Hin _]. apply elem_of_seq in Hin. unfold winner.
      by rewrite (proj2 (Nat.leb_gt dead i)) by lia.
    + apply Forall_true. intros x r. change (i :: seq (S i) n) with (seq i (S n)). apply first_firing_ge.
    + rewrite <- Ef. apply find_first_ext, Forall_true. intros x. cbn [first_firing]. fold ctx'.
      destruct (line_fires s x ctx' i); [by apply bool_decide_eq_true_2|]. apply bool_decide_eq_false_2.
      intros E%first_firing_ge. lia.
  - rewrite IH. f_equal. unfold best_of. apply best_ext, Forall_forall. intros x Hx. cbn [first_firing]. fold ctx'.
    rewrite find_first_None in Ef. by rewrite (Ef x Hx).
Qed.

(** ** Each line's query *)

(** Two scans that fold the same prices and agree on what fires. *)
Lemma first_firing_rel s (R : PositionCtx -> PositionCtx -> Prop) f g rows c1 c2 :
  (forall x y p, R x y -> R (fold_price x p) (fold_price y p)) -> (forall x y j, R x y -> f x j = g y j) -> R c1 c2 ->
  first_firing s f rows c1 = first_firing s g rows c2.
Proof.
  intros Hf Hg. revert c1 c2. induction rows as [|j rows IH]; intros c1 c2 HR; [done|]. cbn [first_firing].
  rewrite (Hg _ (fold_price c2 (row_price s j))) by auto. by rewrite (IH _ (fold_price c2 (row_price s j))) by auto.
Qed.

Lemma folded_firing s fires rows ctx :
  FastExit.first_folded_row s fires rows ctx = first_firing s (fun c j => fires c (row_price s j)) rows ctx.
Proof. revert ctx. induction rows as [|j rows IH]; intros ctx; [done|]. cbn. by rewrite IH. Qed.

(** A read that no fold changes is a scan of a column. *)
Lemma unfolded_firing {A} s (f : A -> bool) (col : nat -> A) (P : PositionCtx -> Prop) g i n ctx :
  (forall c p, P c -> P (fold_price c p)) -> (forall c j, P c -> g c j = f (col j)) -> P ctx ->
  first_firing s g (seq i n) ctx = first_at f (map col (seq i n)) i.
Proof.
  intros Hp Hg. revert i ctx. induction n as [|n IH]; intros i ctx HP; [done|]. cbn [seq first_firing map first_at].
  rewrite Hg by auto. destruct (f (col i)); [done|]. apply IH; auto.
Qed.

Definition same_extremes (c1 c2 : PositionCtx) : Prop :=
  px_entry_price c1 = px_entry_price c2 /\ px_peak_price c1 = px_peak_price c2 /\ px_trough_price c1 = px_trough_price c2.

Lemma fold_same_extremes c1 c2 p : same_extremes c1 c2 -> same_extremes (fold_price c1 p) (fold_price c2 p).
Proof.
  intros (H1 & H2 & H3). unfold fold_price. destruct (negb (is_finite p)); [done|]. unfold same_extremes. cbn. by rewrite H1, H2, H3.
Qed.

Lemma row_prices_valid s rows : prices_valid (ms_price s) -> prices_valid (map (row_price s) rows).
Proof.
  intros Hv. apply Forall_forall. intros p (j & -> & _)%list_elem_of_fmap. unfold row_price.
  unfold prices_valid in Hv. rewrite Forall_forall in Hv.
  destruct (nth_in_or_default j (ms_price s) f_nan) as [Hin| ->]; [|done]. by apply Hv, list_elem_of_In.
Qed.

Definition entry_price_valid (f : Fill) : Prop := is_finite (fl_price f) = true -> valid (fl_price f) = true.

Lemma lone_cond_eq q c : lone_cond q = Some c -> mq_conds q = [[c]].
Proof. unfold lone_cond. destruct (mq_conds q) as [|[|x [|]] [|]]; try done. by intros [= ->]. Qed.

Lemma classify_pnl q up : classify q = Some (PnlBound up) ->
  mr_metric (mq_r q) = PnlPct /\ exists c, mq_conds q = [[c]] /\ (if up then rising (c_operator c) else falling (c_operator c)) = true.
Proof.
  unfold classify. destruct (negb _); [done|]. destruct (mr_metric (mq_r q)); try done.
  - destruct (lone_cond q) as [c|] eqn:E; [|done]. apply lone_cond_eq in E. cbn.
    destruct (c_operator c) eqn:Eo; try done; intros [= <-]; (split; [done|exists c; split; [done|by rewrite Eo]]).
  - destruct (lone_cond q) as [c|] eqn:E; [|done]. cbn. by destruct (c_operator c).
Qed.

Lemma classify_held q : classify q = Some HeldBound ->
  mr_metric (mq_r q) = HeldSec /\ exists c, mq_conds q = [[c]] /\ rising (c_operator c) = true.
Proof.
  unfold classify. destruct (negb _); [done|]. destruct (mr_metric (mq_r q)); try done.
  - destruct (lone_cond q) as [c|] eqn:E; [|done]. cbn. by destruct (c_operator c).
  - destruct (lone_cond q) as [c|] eqn:E; [|done]. apply lone_cond_eq in E. cbn.
    destruct (c_operator c) eqn:Eo; try done; intros _; (split; [done|exists c; split; [done|by rewrite Eo]]).
Qed.

Lemma classify_extreme q :
  (classify q = Some Trailing -> mr_metric (mq_r q) = RetracePct) /\ (classify q = Some Bounce -> mr_metric (mq_r q) = BouncePct).
Proof.
  unfold classify. destruct (negb _); [done|]. destruct (mr_metric (mq_r q)); try done.
  all: destruct (lone_cond q) as [c|]; [|done]; cbn; by destruct (c_operator c).
Qed.

Definition line_row s (fill : Fill) (l : FastLine) : option nat :=
  first_firing s (line_fires s l) (Walk.rows_after s (fl_row fill)) (fill_position fill).

Lemma fold_entry c p : px_entry_price (fold_price c p) = px_entry_price c /\ px_entered_at (fold_price c p) = px_entered_at c.
Proof. unfold fold_price. by destruct (negb (is_finite p)). Qed.

Lemma pnl_entry c1 c2 p : px_entry_price c1 = px_entry_price c2 -> pnl c1 p = pnl c2 p.
Proof. intros E. unfold pnl. by rewrite E. Qed.

Lemma pnl_line_row s fill l c : mr_metric (mq_r (fl_req l)) = PnlPct -> mq_conds (fl_req l) = [[c]] ->
  line_row s fill l = first_at (fun p => eval [[c]] (pnl (at_fill (fl_price fill) 0) p) (mq_tolerance (fl_req l)))
    (map (row_price s) (Walk.rows_after s (fl_row fill))) (S (fl_row fill)).
Proof.
  intros Hm Hc. unfold line_row, Walk.rows_after.
  apply (unfolded_firing s _ _ (fun x => px_entry_price x = fl_price fill)); [|intros x j Hx|done].
  - intros x p Hx. by rewrite (proj1 (fold_entry x p)).
  - unfold line_fires. rewrite Hm, Hc. cbn [position_value]. by rewrite (pnl_entry x (at_fill (fl_price fill) 0)).
Qed.

Lemma first_of_at f (hull : list f64) x i : ExitIndex.ready x = true -> ExitIndex.start x = i ->
  ExitIndex.first_of x hull f = first_at f hull i.
Proof.
  intros Hr <-. unfold ExitIndex.first_of. rewrite Hr. cbn [negb orb]. destruct hull as [|h hs]; [done|].
  cbn [is_empty]. apply partition_first.
Qed.

Lemma pnl_query s fill l up r : prices_valid (ms_price s) -> entry_price_valid fill -> fl_class l = PnlBound up ->
  classify (fl_req l) = Some (fl_class l) ->
  FastExit.first_pnl_row (ExitIndex.rebuild s (fl_row fill)) (fl_req l) (fl_price fill) up = inr r -> r = line_row s fill l.
Proof.
  intros Hp He Hk Hc. rewrite Hk in Hc. apply classify_pnl in Hc as (Hm & c & Hc & Hop).
  rewrite (pnl_line_row s fill l c Hm Hc). unfold FastExit.first_pnl_row. rewrite Hc.
  destruct (FastExit.usable_entry_price (fl_price fill)) eqn:Hu; cbn [negb].
  2: { intros [= <-]. generalize (S (fl_row fill)). induction (map (row_price s) _) as [|x xs IH]; intros i; [done|].
    cbn [first_at]. rewrite eval_finite by (done || by apply unusable_pnl). apply IH. }
  apply andb_true_iff in Hu as [Fe Pe]. specialize (He Fe).
  pose proof (row_prices_valid s (Walk.rows_after s (fl_row fill)) Hp) as Hv.
  destruct up; cbv iota.
  - change (ExitIndex.hull_max (ExitIndex.rebuild s (fl_row fill)))
      with (ExitIndex.hull ExitIndex.raise f_neg_inf (map (row_price s) (Walk.rows_after s (fl_row fill)))).
    destruct (is_some_and _ _) eqn:Hx; [done|]. intros [= <-]. unfold ExitIndex.first_max_row.
    rewrite (first_of_at _ _ _ (S (fl_row fill))) by done. by apply max_query.
  - change (ExitIndex.hull_min (ExitIndex.rebuild s (fl_row fill)))
      with (ExitIndex.hull ExitIndex.lower f_inf (map (row_price s) (Walk.rows_after s (fl_row fill)))).
    destruct (is_some_and _ _) eqn:Hx; [done|]. intros [= <-]. unfold ExitIndex.first_min_row.
    rewrite (first_of_at _ _ _ (S (fl_row fill))) by done. by apply min_query.
Qed.

Lemma held_query s fill l r : fl_class l = HeldBound -> classify (fl_req l) = Some (fl_class l) ->
  FastExit.first_held_row s (ExitIndex.rebuild s (fl_row fill)) (fl_row fill) (fl_at fill) (fl_req l) = inr r ->
  r = line_row s fill l.
Proof.
  intros Hk Hc. rewrite Hk in Hc. apply classify_held in Hc as (Hm & c & Hc & _). unfold FastExit.first_held_row.
  destruct (ExitIndex.at_nondecreasing _); [|done]. cbn [negb].
  assert (E : line_row s fill l = first_at (fun now => eval (mq_conds (fl_req l)) (held (at_fill f_one (fl_at fill)) now)
    (mq_tolerance (fl_req l))) (map (row_at s) (Walk.rows_after s (fl_row fill))) (S (fl_row fill))).
  { unfold line_row, Walk.rows_after.
    apply (unfolded_firing s _ _ (fun x => px_entered_at x = fl_at fill)); [|intros x j Hx|done].
    - intros x p Hx. by rewrite (proj2 (fold_entry x p)).
    - unfold line_fires. rewrite Hm. cbn [position_value]. unfold held. by rewrite Hx. }
  destruct (Nat.leb_spec (n_rows s) (S (fl_row fill))).
  - intros [= <-]. rewrite E. unfold Walk.rows_after. by replace (n_rows s - S (fl_row fill))%nat with O by lia.
  - intros [= <-]. rewrite E. symmetry. etransitivity; [symmetry; apply partition_first|done].
Qed.

Lemma trailing_query s fill l : classify (fl_req l) = Some Trailing ->
  FastExit.first_trailing_row s (fl_row fill) (fl_price fill) (fl_req l) = line_row s fill l.
Proof.
  intros Hc. apply classify_extreme in Hc as Hm. unfold FastExit.first_trailing_row, line_row.
  assert (G : forall f, (forall v, f v = eval (mq_conds (fl_req l)) v (mq_tolerance (fl_req l))) ->
    FastExit.first_folded_row s (fun ctx p => f (retrace ctx p)) (Walk.rows_after s (fl_row fill)) (at_fill (fl_price fill) 0)
    = first_firing s (line_fires s l) (Walk.rows_after s (fl_row fill)) (fill_position fill)).
  { intros f Hf. rewrite folded_firing. apply (first_firing_rel s same_extremes); [apply fold_same_extremes| |done].
    intros x y j (_ & Hp & _). unfold line_fires. rewrite Hm, Hf. cbn [position_value]. unfold retrace. by rewrite Hp. }
  destruct (lone_cond (fl_req l)) as [c|] eqn:El; [|by apply (G (fun v => eval _ v _))].
  destruct (FastExit.is_ordering_op (c_operator c)) eqn:Eo; [|by apply (G (fun v => eval _ v _))].
  apply (G (fun v => FastExit.cmp_ordering (c_operator c) v (c_value c))). intros v.
  rewrite (lone_cond_eq _ _ El), eval_lone. unfold FastExit.cmp_ordering, eval_one.
  destruct (negb (is_finite v)); [done|]. by destruct (c_operator c).
Qed.

Lemma bounce_query s fill l : classify (fl_req l) = Some Bounce ->
  FastExit.first_bounce_row s (fl_row fill) (fl_price fill) (fl_req l) = line_row s fill l.
Proof.
  intros Hc. apply classify_extreme in Hc as Hm. unfold FastExit.first_bounce_row, line_row. rewrite folded_firing.
  apply (first_firing_rel s same_extremes); [apply fold_same_extremes| |done].
  intros x y j (_ & _ & Hp). unfold line_fires. rewrite Hm. cbn [position_value]. unfold bounce. by rewrite Hp.
Qed.

Lemma line_query s fill l r : prices_valid (ms_price s) -> entry_price_valid fill -> classify (fl_req l) = Some (fl_class l) ->
  FastExit.first_row s (ExitIndex.rebuild s (fl_row fill)) fill l = inr r -> r = line_row s fill l.
Proof.
  intros Hp He Hc. unfold FastExit.first_row. destruct (fl_class l) as [up| | |] eqn:Ek.
  - by apply pnl_query; rewrite ?Ek.
  - by apply held_query; rewrite ?Ek.
  - intros [= <-]. by apply trailing_query.
  - intros [= <-]. by apply bounce_query.
Qed.

Lemma best_line_rows s fill plan r : prices_valid (ms_price s) -> entry_price_valid fill ->
  Forall (fun l => classify (fl_req l) = Some (fl_class l)) plan ->
  FastExit.best_line s (ExitIndex.rebuild s (fl_row fill)) fill plan None = inr r -> r = best_of (line_row s fill) plan.
Proof.
  intros Hp He Hc. unfold best_of. generalize (@None (nat * FastLine)). induction Hc as [|l plan Hl _ IH]; intros best.
  - by intros [= <-].
  - cbn [FastExit.best_line foldl]. destruct (FastExit.first_row _ _ _ _) as [|o] eqn:Eo; [done|].
    apply line_query in Eo as ->; [|done..]. unfold best_step at 2. destruct (line_row s fill l); apply IH.
Qed.

Lemma plan_classified rule plan : fast_plan rule = Some plan -> Forall (fun l => classify (fl_req l) = Some (fl_class l)) plan.
Proof.
  unfold fast_plan. destruct (cr_stages rule) as [|st [|]]; try done. destruct (is_noneb _ && is_empty _); [|done].
  intros Hm%mapM_Some. induction Hm as [|l fl ls fls Hl _ IH]; constructor; [|done].
  by destruct (fast_line_spec l fl Hl) as (? & ? & ? & ? & ? & ? & ?).
Qed.

Definition entry_valid (e : EntryResolution) : Prop :=
  match e with NoEntry => True | Entered _ price _ => is_finite price = true -> valid price = true end.

Lemma last_finite_again s : match last_finite s with Some k => if is_finite (row_price s k) then Some k else None | None => None end
  = last_finite s.
Proof.
  unfold last_finite. destruct (find_first _ _) as [k|] eqn:E; [|done]. apply find_first_Some in E as [_ E]. by rewrite E.
Qed.

(** C32: the indexed exit of a combo, with the index the sweep builds for its entry, is
    the row-by-row walk's: the hulls of prices, the binary search on row time and the
    running-extreme scans find the row, the line and so the outcome the walk does, for
    every price [f64] can hold, and every shape they cannot serve falls back to it. *)
Theorem fast_exit_is_the_walk trades s b entry p tail :
  cr_tree (bc_rule b) = None -> bc_fast b = fast_plan (bc_rule b) -> prices_valid (ms_price s) -> entry_valid entry ->
  FastExit.resolve_exit_indexed trades s b entry p (FastExit.build_exit_ctx s b entry) tail
  = Walk.resolve_exit_walk trades s b entry p tail.
Proof.
  intros Ht Hf Hp He. unfold FastExit.resolve_exit_indexed. destruct entry as [|fill_row price at_]; [done|].
  set (w := Walk.resolve_exit_walk trades s b (Entered fill_row price at_) p tail).
  destruct (fill_of s (Entered fill_row price at_)) as [fill|] eqn:Efill; [|done].
  assert (Hrow : fl_row fill = fill_row /\ entry_price_valid fill) by (cbn in Efill; by injection Efill as <-).
  destruct Hrow as [<- Hev]. unfold FastExit.build_exit_ctx, FastExit.wants_exit_index.
  destruct (bc_fast b) as [plan|] eqn:Eb; [|done]. cbn [is_someb andb ExitIndex.ready ExitIndex.rebuild negb].
  symmetry in Hf. fold (ExitIndex.rebuild s (fl_row fill)).
  destruct (FastExit.best_line s _ fill plan None) as [|best] eqn:El; [done|].
  apply best_line_rows in El as ->; [|done|done|by eapply plan_classified]. subst w.
  unfold Walk.resolve_exit_walk. rewrite Efill. rewrite (walk_flat trades s b plan) by done.
  unfold Walk.rows_after at 1. rewrite (flat_walk_winner s plan). fold (Walk.rows_after s (fl_row fill)).
  change (best_of (fun l => _) plan) with (best_of (line_row s fill) plan). cbv zeta.
  change (ExitIndex.dead_row (ExitIndex.rebuild s (fl_row fill)))
    with (find_first (row_dead s) (Walk.rows_after s (fl_row fill))).
  destruct (find_first (row_dead s) _) as [dead|], (best_of (line_row s fill) plan) as [[row l]|]; cbn [winner]; try done.
  - by destruct (dead <=? row)%nat.
  - unfold FastExit.open_tail, last_mark. cbv zeta.
    change (ExitIndex.last_finite_row (ExitIndex.rebuild s (fl_row fill))) with (last_finite s).
    by rewrite last_finite_again.
Qed.

(** ** The binary searches *)

Lemma held_finite ctx now : num_milliseconds (now - px_entered_at ctx) <= i64_max -> is_finite (held ctx now) = true.
Proof.
  intros Hb. destruct (f_of_Z_mono _ _ Hb) as [N1 L1].
  assert (N : number (f_of_Z i64_max)) by by split; vm_compute.
  destruct (fdiv_mono _ _ (f_of_Z 1000) N1 N eq_refl eq_refl eq_refl L1) as [N2 L2].
  assert (N' : number (f_of_Z i64_max ⊘ f_of_Z 1000)) by by split; vm_compute.
  destruct (fmax_zero_mono _ _ N2 N' L2) as [_ L3]. unfold held, secs_between.
  apply (between_finite f_zero _ (fmax (f_of_Z i64_max ⊘ f_of_Z 1000) f_zero)); [done|by vm_compute| |done].
  by apply fmax_ge_r.
Qed.

Lemma nondecreasing_rows s fill_row k (a a' : Ts) :
  ExitIndex.at_nondecreasing (ExitIndex.rebuild s fill_row) = true ->
  map (row_at s) (Walk.rows_after s fill_row) !! k = Some a ->
  map (row_at s) (Walk.rows_after s fill_row) !! S k = Some a' -> a <= a'.
Proof.
  cbn [ExitIndex.at_nondecreasing ExitIndex.rebuild]. rewrite forallb_forall. intros Hn Ha Hb.
  apply list_lookup_fmap_Some in Ha as (i & -> & Hi). apply list_lookup_fmap_Some in Hb as (j & -> & Hj).
  apply list_elem_of_lookup_2 in Hj as Hin. specialize (Hn j ltac:(by apply list_elem_of_In)).
  apply lookup_seq in Hi as [-> _]. apply lookup_seq in Hj as [-> _].
  rewrite (proj2 (Nat.leb_gt _ _)) in Hn by lia. cbn [orb] in Hn. apply Z.leb_le in Hn.
  by replace (S fill_row + S k - 1)%nat with (S fill_row + k)%nat in Hn by lia.
Qed.

(** What the binary search of a line is applied to. *)
Definition searched s (fill : Fill) (l : FastLine) : Prop :=
  let x := ExitIndex.rebuild s (fl_row fill) in
  let holds v := eval (mq_conds (fl_req l)) v (mq_tolerance (fl_req l)) in
  match fl_class l with
  | PnlBound up =>
      partitioned (fun m => negb (holds (pnl (at_fill (fl_price fill) 0) m))) (if up then ExitIndex.hull_max x else ExitIndex.hull_min x)
  | HeldBound =>
      partitioned (fun now => negb (holds (held (at_fill f_one (fl_at fill)) now))) (map (row_at s) (Walk.rows_after s (fl_row fill)))
  | Trailing | Bounce => True
  end.

(** The binary searches of the fast exits are used within their contract: whenever a
    query answers rather than falls back, the list it searches is partitioned into rows
    that do not fire followed by rows that do. *)
Theorem binary_searches_are_partitioned s fill plan rule l r :
  fast_plan rule = Some plan -> l ∈ plan -> prices_valid (ms_price s) -> entry_price_valid fill ->
  Forall (fun now => num_milliseconds (now - fl_at fill) <= i64_max) (map (row_at s) (Walk.rows_after s (fl_row fill))) ->
  FastExit.usable_entry_price (fl_price fill) = true ->
  FastExit.first_row s (ExitIndex.rebuild s (fl_row fill)) fill l = inr r -> searched s fill l.
Proof.
  intros Hplan Hl Hp He Hms Hu Hr. apply plan_classified in Hplan. rewrite Forall_forall in Hplan. specialize (Hplan l Hl).
  unfold searched. unfold FastExit.first_row in Hr. cbv zeta. destruct (fl_class l) as [up| | |]; try done.
  - apply classify_pnl in Hplan as (Hm & c & Hc & Hop). unfold FastExit.first_pnl_row in Hr. rewrite Hu in Hr. cbn [negb] in Hr.
    apply andb_true_iff in Hu as [Fe Pe]. specialize (He Fe). rewrite Hc.
    pose proof (row_prices_valid s (Walk.rows_after s (fl_row fill)) Hp) as Hv.
    destruct up; destruct (is_some_and _ _) eqn:Hx in Hr; try done.
    + by apply (max_query (fl_price fill) c (mq_tolerance (fl_req l)) Fe He Pe _ O).
    + by apply (min_query (fl_price fill) c (mq_tolerance (fl_req l)) Fe He Pe _ O).
  - apply classify_held in Hplan as (Hm & c & Hc & Hop). unfold FastExit.first_held_row in Hr.
    destruct (ExitIndex.at_nondecreasing _) eqn:Hn; [|done]. rewrite Hc. apply partitioned_once.
    intros k x y Hx Hy. pose proof (nondecreasing_rows s _ k x y Hn Hx Hy) as Hle. rewrite !eval_lone.
    intros Hny%negb_true_iff. apply negb_true_iff, not_true_is_false. intros Ht.
    rewrite Forall_forall in Hms. pose proof (Hms y (list_elem_of_lookup_2 _ _ _ Hy)) as Hb.
    rewrite (rising_holds c _ (held (at_fill f_one (fl_at fill)) x)) in Hny; [done|done| |by apply held_finite|done].
    by apply held_mono.
Qed.
End flat.

(** ** Every exit resolves

    The frozen tail's next tick is always later and never past the horizon, so its fuel is
    enough, and the walk of a held position ends with an outcome of that position. *)

Import Scan FrozenTail.

Section tail_facts.
Context `{TrackOps} {T : Type} `{TradeRow T} `{!VenueRow T}.

(** A tick that may come after [m]. *)
Definition later (m m_max : Z) (best : option Z) : Prop := forall k, best = Some k -> m < k <= m_max.

Lemma consider_tick_later m m_max best k : later m m_max best -> later m m_max (consider_tick m m_max best k).
Proof.
  intros Hb. unfold consider_tick. destruct ((m <? k) && (k <=? m_max)) eqn:E; cbn [andb]; [|done].
  destruct (is_none_or _ _); [|done]. intros k' [= <-]. lia.
Qed.

Lemma foldl_later {A} m m_max (f : option Z -> A -> option Z) l best :
  (forall o x, later m m_max o -> later m m_max (f o x)) -> later m m_max best -> later m m_max (foldl f best l).
Proof. intros Hf. revert best. induction l as [|x l IH]; intros best Hb; [done|]. by apply IH, Hf. Qed.

Lemma consider_later m m_max best base theta : later m m_max best -> later m m_max (consider m m_max best base theta).
Proof.
  intros Hb. unfold consider. destruct (_ || _); [done|]. apply foldl_later; [|done].
  intros o x. apply consider_tick_later.
Qed.

Lemma next_tick_later rule track h s now m m_max force_next :
  later m m_max (next_tick rule track h s now m m_max force_next).
Proof.
  unfold next_tick. cbv zeta.
  assert (H0' : later m m_max (if force_next && (m <? m_max) then Some (m + 1) else None)).
  { destruct (force_next && (m <? m_max)) eqn:E; [|done]. intros k [= <-]. lia. }
  match goal with |- later _ _ (match _ with None => ?b | Some _ => _ end) => assert (Hb : later m m_max b) end.
  { do 3 (apply foldl_later; [intros ? ? ?|done]). by apply consider_later. }
  destruct (st ← _; _) as [[basis secs]|]; [|done]. by apply consider_later.
Qed.

Lemma tail_loop_ends fuel trades s b fill p last m_max h m force_next : (Z.to_nat (m_max - m) < fuel)%nat ->
  tail_loop fuel trades s b fill p last m_max h m force_next <> TailOut.
Proof.
  revert h m force_next. induction fuel as [|fuel IH]; intros h m force_next Hf; [lia|]. cbn [tail_loop]. cbv zeta.
  destruct (next_tick _ _ _ _ _ _ _ _) as [next|] eqn:En; [|done]. apply next_tick_later in En.
  destruct (apply_step _ _ _ _ _) as [h' [tag|]]; [done|]. apply IH. lia.
Qed.

Lemma resolve_ends trades s b fill h p tail : resolve trades s b fill h p tail <> TailOut.
Proof.
  unfold resolve. destruct tail as [horizon|]; [|done]. destruct (n_rows s =? 0)%nat; [done|]. cbv zeta.
  destruct (_ || _); [done|]. destruct (_ <? _); [done|]. apply tail_loop_ends. lia.
Qed.

(** The outcome of a position that filled at [fill]. *)
Definition outcome_of (fill : Fill) (o : TokenOutcome) : Prop :=
  to_fired o = true /\ to_entry_time o = Some (fl_at fill) /\ to_entry_price o = Some (fl_price fill) /\
  to_entry_slot o = fl_slot fill /\
  (to_exit o = Kernel.Open <-> to_exit_time o = None) /\ (to_exit o = Kernel.Open -> to_holding_secs o = 0).

Lemma close_outcome trades s tag fill h j at_ p : et_code tag <> Kernel.Open -> outcome_of fill (close trades s tag fill h j at_ p).
Proof.
  intros Ht. unfold close. destruct (exit_fill_or_spot trades s j (pr_fill_model p)) as [f row]. cbv zeta.
  match goal with |- context [let '(_, _) := ?x in _] => destruct x as [sol pct] end.
  split_and!; done.
Qed.

Lemma open_outcome trades s fill h mark p : outcome_of fill (open trades s fill h mark p).
Proof.
  unfold open. cbv zeta. match goal with |- context [let '(_, _) := ?x in _] => destruct x as [sol pct] end.
  split_and!; done.
Qed.

Lemma tag_codes rule : Forall (fun t => et_code t <> Kernel.Open) (line_tags rule).
Proof.
  unfold line_tags.
  assert (G : forall ls acc, Forall (fun t => et_code t <> Kernel.Open) acc.1 ->
    Forall (fun t => et_code t <> Kernel.Open) (foldl tag_line acc ls).1).
  { induction ls as [|l ls IH]; intros acc Hacc; [done|]. cbn. apply IH. destruct acc as [tags next]. unfold tag_line.
    destruct (match map_or (ln_sell l) ExitDead cs_reason with ExitLine _ => _ | _ => _ end) as [[label slot] next'].
    apply Forall_insert; [done|]. by destruct (map_or (ln_sell l) ExitDead cs_reason). }
  apply G. cbn [fst]. by apply Forall_replicate.
Qed.

Lemma line_tag_code b index : bc_line_tags b = line_tags (bc_rule b) -> et_code (line_tag b index) <> Kernel.Open.
Proof.
  intros Hb. unfold line_tag. rewrite Hb. pose proof (tag_codes (bc_rule b)) as Ht. rewrite Forall_forall in Ht.
  destruct (nth_in_or_default (Z.to_nat index) (line_tags (bc_rule b)) DEAD) as [Hin| ->]; [|done].
  by apply Ht, list_elem_of_In.
Qed.

Lemma step_tag b h step now leg h' tag : bc_line_tags b = line_tags (bc_rule b) ->
  apply_step b h step now leg = (h', Some tag) -> et_code tag <> Kernel.Open.
Proof.
  intros Hb. unfold apply_step. destruct step as [|l|]; [done| |done]. destruct (ln_sell l) as [sell|]; [|done].
  destruct (cs_bps sell) as [bps|]; [destruct (hd_sold_bps h + bps <? 10000); [done|]|]; intros [= _ <-]; by apply line_tag_code.
Qed.

Lemma walk_outcome trades s b fill p rows h slot o : bc_line_tags b = line_tags (bc_rule b) ->
  Walk.walk_rows trades s b fill p rows h slot = inl o -> outcome_of fill o.
Proof.
  intros Hb. revert h slot. induction rows as [|j rows IH]; intros h slot; [done|]. cbn [Walk.walk_rows].
  destruct (row_dead s j); [intros [= <-]; by apply close_outcome|]. cbv zeta.
  destruct (apply_step _ _ _ _ _) as [h' [tag|]] eqn:Es; [|by apply IH].
  intros [= <-]. apply close_outcome. by eapply step_tag.
Qed.

Lemma tail_outcome fuel trades s b fill p last m_max h m force_next o : bc_line_tags b = line_tags (bc_rule b) ->
  tail_loop fuel trades s b fill p last m_max h m force_next = TailClosed o -> outcome_of fill o.
Proof.
  intros Hb. revert h m force_next. induction fuel as [|fuel IH]; intros h m force_next; [done|]. cbn [tail_loop]. cbv zeta.
  destruct (next_tick _ _ _ _ _ _ _ _) as [next|]; [|done].
  destruct (apply_step _ _ _ _ _) as [h' [tag|]] eqn:Es; [|by apply IH].
  intros [= <-]. apply close_outcome. by eapply step_tag.
Qed.

Lemma resolve_outcome trades s b fill h p tail o : bc_line_tags b = line_tags (bc_rule b) ->
  resolve trades s b fill h p tail = TailClosed o -> outcome_of fill o.
Proof.
  intros Hb. unfold resolve. destruct tail as [horizon|]; [|done]. destruct (n_rows s =? 0)%nat; [done|]. cbv zeta.
  destruct (_ || _); [done|]. destruct (_ <? _); [done|]. by apply tail_outcome.
Qed.

(** The held walk ends with an outcome, whatever the rule, the rows and the horizon:
    an entry that filled gives a fired outcome with that fill's time and price, which is
    closed exactly when it has an exit time; no entry gives the empty outcome. *)
Theorem every_exit_resolves trades s b entry p tail : bc_line_tags b = line_tags (bc_rule b) ->
  exists o, Walk.resolve_exit_walk trades s b entry p tail = Some o /\
    match fill_of s entry with Some fill => outcome_of fill o | None => o = no_entry end.
Proof.
  intros Hb. unfold Walk.resolve_exit_walk. destruct (fill_of s entry) as [fill|]; [|by exists no_entry]. cbv zeta.
  destruct (Walk.walk_rows _ _ _ _ _ _ _ _) as [o|h] eqn:Ew; [exists o; split; [done|by eapply walk_outcome]|].
  unfold Walk.end_open. destruct (resolve _ _ _ _ _ _ _) as [o|h'|] eqn:Er.
  - exists o. split; [done|by eapply resolve_outcome].
  - eexists. split; [done|apply open_outcome].
  - by apply resolve_ends in Er.
Qed.
End tail_facts.
