(* ===== verification/Projection.v ===== *)
(** * Projection: the corpus row

    [lab/src/sweep/projection.rs]: the slim trade row the sweep loads, its reading as a
    [TradeRow], the mapping to the engine's [TradeLite] and the creator stand-in a coin
    without a creator wallet gets.  Loading and hashing the columns is not modelled. *)

From S2P Require Export Scan TradeKeys ScanProps FastExitProps.
From S2P Require Import Events Track Float64 PaperFill.
Import Scan.

Module Corpus.

Record FlowKeys := { fl_labels : LabelKeys; fl_wallet_hash : Z; fl_fee : FeeKeys }.

Record CorpusTrade := {
  ct_block_time : Ts;
  ct_amount_sol : f64;
  ct_token_amount : f64;
  ct_price_per_token : f64;
  ct_reserve_sol : option f64;
  ct_reserve_token : option f64;
  ct_real_reserve_sol : option f64;
  ct_real_token_reserves : option f64;
  ct_slot : Z;
  ct_tx_index : Z;
  ct_leg_index : Z;
  ct_is_buy : bool;
  ct_on_curve : bool;
  ct_venue_fee_bps : option spec_float;
  ct_tx_signature : option string;
  ct_flow : FlowKeys;
}.

#[export] Instance corpus_row : TradeRow CorpusTrade := {|
  is_buy := ct_is_buy;
  amount_sol := ct_amount_sol;
  token_amount := ct_token_amount;
  price_per_token := ct_price_per_token;
  slot := ct_slot;
  block_time := ct_block_time;
  reserve_sol := ct_reserve_sol;
  reserve_token := ct_reserve_token;
  real_reserve_sol := ct_real_reserve_sol;
  real_token_reserves := ct_real_token_reserves;
  tx_signature := fun t => unwrap_or (ct_tx_signature t) ""%string;
|}.

#[export] Instance corpus_venue : VenueRow CorpusTrade := {| row_venue_fee_bps := fun t => f64_of_f32 <$> ct_venue_fee_bps t |}.

Definition to_trade_lite (ct : CorpusTrade) : TradeLite :=
  let keys := fl_labels (ct_flow ct) in {|
  t_side := if ct_is_buy ct then Buy else Sell;
  t_sol := ct_amount_sol ct;
  t_price := unwrap_or (chart_spot_price ct) (ct_price_per_token ct);
  t_reserve_sol := unwrap_or (ct_real_reserve_sol ct) f_nan;
  t_priced_reserve_sol := unwrap_or (ct_reserve_sol ct) f_nan;
  t_at := ct_block_time ct;
  t_ix_hash := lk_ix_hash keys;
  t_wallet_hash := fl_wallet_hash (ct_flow ct);
  t_slot := ct_slot ct;
  t_marker_bits := lk_marker_bits keys;
  t_leg_index := Z.min (ct_leg_index ct) u8_max;
  t_tx_index := Some (ct_tx_index ct);
  t_template_hash := lk_template_hash keys;
  t_program_hash := lk_program_hash keys;
  t_build_hash := lk_build_hash keys;
  t_core_hash := lk_core_hash keys;
  t_core_marks := lk_core_marks keys;
  t_on_curve := ct_on_curve ct;
  t_is_launch := lk_is_launch keys;
  t_fee := fl_fee (ct_flow ct);
  t_token_amount := ct_token_amount ct;
  t_build_day_public := None |}.

Definition creation_slot (trades : list CorpusTrade) : option Z := ct_slot <$> head trades.

(** [min_by_key((tx_index, leg_index))] keeps the first of equal keys. *)
Definition earlier_leg (a b : CorpusTrade) : bool :=
  (ct_tx_index a <? ct_tx_index b) || ((ct_tx_index a =? ct_tx_index b) && (ct_leg_index a <? ct_leg_index b)).

Definition keep_earlier (best : option CorpusTrade) (t : CorpusTrade) : option CorpusTrade :=
  match best with Some b => if earlier_leg t b then Some t else Some b | None => Some t end.

Definition creation_slot_first_buyer (trades : list CorpusTrade) : option Z :=
  slot ← creation_slot trades;
  first ← foldl keep_earlier None (List.filter (fun t => (ct_slot t =? slot) && ct_is_buy t) trades);
  let h := fl_wallet_hash (ct_flow first) in
  if h =? 0 then None else Some h.
End Corpus.

(** ** A small coin the sweep's theorems are applied to *)

Import Scan Corpus.

Definition demo_flow : FlowKeys :=
  {| fl_labels := label_keys_of []; fl_wallet_hash := 7; fl_fee := FeeKeys_default |}.

Definition demo_trade (slot sol tokens : Z) (buy : bool) : CorpusTrade := {|
  ct_block_time := slot * 400000000; ct_amount_sol := f_of_Z sol; ct_token_amount := f_of_Z tokens;
  ct_price_per_token := f_of_Z sol ⊘ f_of_Z tokens; ct_reserve_sol := Some (f_of_Z (30 + sol));
  ct_reserve_token := Some (f_of_Z tokens); ct_real_reserve_sol := None; ct_real_token_reserves := None;
  ct_slot := slot; ct_tx_index := 0; ct_leg_index := 0; ct_is_buy := buy; ct_on_curve := true;
  ct_venue_fee_bps := None; ct_tx_signature := None; ct_flow := demo_flow |}.

Definition demo_trades : list CorpusTrade :=
  [demo_trade 10 2 10 true; demo_trade 11 4 10 true; demo_trade 12 9 10 true; demo_trade 13 3 10 false].

(** The rows of those trades, with the prices [1, 2, 4, 1] and one tick. *)
Definition demo_series : MetricSeries (H := token_track) := {|
  ms_track := track_new 0; ms_columns := []; ms_last_meaningful_at := 0; ms_n_cols := 0; ms_values := [];
  ms_at := [10; 11; 12; 13; 14]; ms_slot := [Some 10; Some 11; None; Some 12; Some 13];
  ms_price := map f_of_Z [1; 2; 2; 4; 1]; ms_reserve_sol := replicate 5 f_nan;
  ms_priced_reserve_sol := map f_of_Z [32; 34; 34; 39; 33]; ms_dead := replicate 5 false; ms_record_from := None |}.

Lemma demo_series_wf : series_wf demo_series.
Proof. by constructor. Qed.

(** Take profit at 50 %, stop at 30 %, sell after an hour. *)
Definition demo_params : RuleParams := {|
  rp_enter := Enter_default; rp_take_profit := Some (f_of_Z 50); rp_stop_loss := Some (f_of_Z 30); rp_signals := [];
  rp_always := [{| l_when := [CondMetric (mref_life HeldSec) [[{| c_operator := OpGte; c_value := f_of_Z 3600 |}]] false];
                   l_sell := Some {| se_label := None; se_pct := None; se_of_bag := false |}; l_go := None; l_off := false |}];
  rp_stages := []; rp_tree := None; rp_reentry := None; rp_exclusive := false; rp_priority := 0; rp_copy := None;
  rp_follow := FollowAll |}.

Definition demo_rule (p : RuleParams) : CompiledRule := compile {|
  lr_id := 1; lr_fingerprint_id := 0; lr_trade_mode := Paper; lr_buy_amount_lamports := 10 ^ 8;
  lr_max_concurrent_tokens := u32_max; lr_max_total_tokens := 0; lr_params := p; lr_entry_enabled := true |}.

Definition demo_combo : BoundCombo := bind [] (demo_rule demo_params).

Definition demo_pricing : Pricing := {| pr_buy_amount_sol := f_of_Z 1; pr_fill_model := SignalPrice; pr_cost := frictionless |}.

Example demo_plan : (fun l => map fl_class l) <$> bc_fast demo_combo = Some [PnlBound false; PnlBound true; HeldBound].
Proof. vm_compute. reflexivity. Qed.

Example demo_prices_valid : prices_valid (ms_price demo_series).
Proof. repeat constructor. Qed.

Lemma series_samples_the_track_witness :
  value_at (foldl push_event (series_new (H := token_track) 0 [(mref_life AgeSec, None)]) [EvTick 5; EvTick 9]) 1 0
  = track_value (foldl fold_event (ms_track (series_new (H := token_track) 0 [(mref_life AgeSec, None)])) [EvTick 5; EvTick 9])
      (mref_life AgeSec) None 9.
Proof.
  exact (series_samples_the_track (series_new 0 [(mref_life AgeSec, None)]) [EvTick 5; EvTick 9] 1 (EvTick 9) 0
    (mref_life AgeSec, None) (series_new_wf 0 _) eq_refl eq_refl eq_refl).
Defined.

Lemma shared_walk_is_the_reference_witness :
  (resolve_entry_from demo_trades demo_series demo_combo (entry_candidates demo_combo) demo_pricing).1
  = resolve_entry demo_trades demo_series demo_combo demo_pricing.
Proof.
  apply (shared_walk_is_the_reference demo_trades demo_series demo_pricing demo_combo demo_combo).
  - exact demo_series_wf.
  - apply bind_bound. reflexivity.
  - apply same_entry_refl.
  - apply shared_open.
Defined.

Lemma fast_exit_is_the_walk_witness :
  FastExit.resolve_exit_indexed demo_trades demo_series demo_combo (Entered 0 (f_of_Z 1) 10) demo_pricing
    (FastExit.build_exit_ctx demo_series demo_combo (Entered 0 (f_of_Z 1) 10)) None
  = Walk.resolve_exit_walk demo_trades demo_series demo_combo (Entered 0 (f_of_Z 1) 10) demo_pricing None.
Proof.
  apply fast_exit_is_the_walk; [reflexivity|reflexivity|exact demo_prices_valid|]. intros _. reflexivity.
Defined.

Lemma every_exit_resolves_witness :
  exists o, Walk.resolve_exit_walk demo_trades demo_series demo_combo (Entered 0 (f_of_Z 1) 10) demo_pricing None = Some o /\
    to_fired o = true.
Proof.
  destruct (every_exit_resolves demo_trades demo_series demo_combo (Entered 0 (f_of_Z 1) 10) demo_pricing None eq_refl)
    as (o & Ho & Hout).
  exists o. split; [exact Ho|exact (proj1 Hout)].
Defined.

Definition demo_fill : Fill := {| fl_row := 0; fl_price := f_of_Z 1; fl_at := 10; fl_slot := Some 10; fl_reserve := None |}.

Definition demo_lines : list FastLine := unwrap_or (bc_fast demo_combo) [].

(** The take-profit line. *)
Lemma binary_searches_are_partitioned_witness :
  exists l, demo_lines !! 1%nat = Some l /\ searched demo_series demo_fill l.
Proof.
  eexists. split; [reflexivity|].
  eapply (binary_searches_are_partitioned demo_series demo_fill demo_lines (bc_rule demo_combo)).
  - reflexivity.
  - apply (list_elem_of_lookup_2 demo_lines 1). reflexivity.
  - exact demo_prices_valid.
  - intros _. reflexivity.
  - repeat constructor; vm_compute; congruence.
  - reflexivity.
  - reflexivity.
Defined.
