(* ===== verification/Programs.v ===== *)
(** * Programs: code that talks to a world, as trees of requests

    The live tasks of the bot are straight-line asynchronous code around requests to the
    wallet, the chain, the feed and the database.  A [Prog] is such a task: it returns, or it
    makes a request and goes on with the answer.  [World] says what an answer may be in a
    given shared state and how the request moves it: a request the code under src/ answers
    itself (a registry, a lock) has one answer, one the outside answers has any.

    [run] executes a task against an oracle.  [obeys] is its weakest precondition: along every
    run each request meets a policy on the history before it, and the result meets a
    postcondition on the whole history.  A [pool] interleaves tasks over one state. *)

From S2P Require Export Prelude.

Inductive Prog {Call : Type -> Type} (A : Type) : Type :=
  | Ret (a : A)
  | Do {B : Type} (c : Call B) (k : B -> Prog A).
Arguments Prog : clear implicits.
Arguments Ret {Call A} a.
Arguments Do {Call A B} c k.

Fixpoint seq_prog {Call A B} (p : Prog Call A) (f : A -> Prog Call B) : Prog Call B :=
  match p with
  | Ret a => f a
  | Do c k => Do c (fun b => seq_prog (k b) f)
  end.

(** One request. *)
Definition req {Call A} (c : Call A) : Prog Call A := Do c Ret.

Notation "x <~ c ; k" := (Do c (fun x => k)) (at level 20, c at level 100, k at level 200, right associativity,
  only parsing) : engine_scope.
Notation "x <-- p ; k" := (seq_prog p (fun x => k)) (at level 20, p at level 100, k at level 200, right associativity,
  only parsing) : engine_scope.
Notation "'run!' p ; k" := (seq_prog p (fun _ => k)) (at level 20, p at level 100, k at level 200, right associativity,
  only parsing) : engine_scope.
Notation "'do!' c ; k" := (Do c (fun _ => k)) (at level 20, c at level 100, k at level 200, right associativity,
  only parsing) : engine_scope.

(** One request made, with its answer. *)
Inductive Done {Call : Type -> Type} : Type := | did {B : Type} (c : Call B) (b : B).
Arguments Done : clear implicits.

(** Newest first. *)
Abbreviation History Call := (list (Done Call)) (only parsing).

(** What a request may be answered in a state, and the state after it. *)
Class World (Call : Type -> Type) (St : Type) := {
  may : forall {B}, St -> Call B -> B -> Prop;
  after : forall {B}, St -> Call B -> B -> St;
}.

Section programs.
Context {Call : Type -> Type} {St : Type} `{!World Call St}.
Implicit Types (h : History Call) (st : St).

(** ** Runs *)

Definition Oracle := forall B, History Call -> St -> Call B -> B.

(** The oracle's answers are the world's. *)
Definition honest (o : Oracle) : Prop := forall B h st (c : Call B), may st c (o B h st c).

Fixpoint run {A} (o : Oracle) (p : Prog Call A) (h : History Call) (st : St) : A * History Call * St :=
  match p with
  | Ret a => (a, h, st)
  | Do c k => let b := o _ h st c in run o (k b) (did c b :: h) (after st c b)
  end.

(** What a run added to the history it was given. *)
Definition newly (h' h : History Call) : History Call := take (length h' - length h) h'.

Lemma run_newly o (p : Prog Call unit) h st :
  let h' := (run o p h st).1.2 in
  exists st', h' = newly h' h ++ h /\ run o p h st = (tt, h', st').
Proof.
  assert (Hex : exists new st', run o p h st = (tt, new ++ h, st')).
  { revert h st. induction p as [[]|B c k IH]; intros h st; cbn; [by exists [], st|].
    set (b := o B h st c). destruct (IH b (did c b :: h) (after st c b)) as (new & st' & ->).
    exists (new ++ [did c b]), st'. by rewrite <- app_assoc. }
  destruct Hex as (new & st' & ->). exists st'. cbn. unfold newly.
  by rewrite length_app, Nat.add_sub, take_app_length.
Qed.

(** ** Policies *)

(** What a request may follow on. *)
Definition Policy := forall B, History Call -> Call B -> Prop.
Implicit Types ok : Policy.

Fixpoint obeys {A} ok (p : Prog Call A) h st (Q : A -> History Call -> St -> Prop) : Prop :=
  match p with
  | Ret a => Q a h st
  | Do c k => ok _ h c /\ forall b, may st c b -> obeys ok (k b) (did c b :: h) (after st c b) Q
  end.

Lemma obeys_mono {A} ok (p : Prog Call A) h st (Q R : A -> History Call -> St -> Prop) :
  obeys ok p h st Q -> (forall a h' st', Q a h' st' -> R a h' st') -> obeys ok p h st R.
Proof.
  intros Hp HQ. revert h st Hp. induction p as [a|B c k IH]; intros h st; cbn; [by apply HQ|].
  intros [Hok Hk]. split; [done|]. intros b Hb. by apply IH, Hk.
Qed.

Lemma obeys_seq {A B} ok (p : Prog Call A) (f : A -> Prog Call B) h st (Q : B -> History Call -> St -> Prop) :
  obeys ok p h st (fun a h' st' => obeys ok (f a) h' st' Q) -> obeys ok (seq_prog p f) h st Q.
Proof.
  revert h st. induction p as [a|X c k IH]; intros h st; cbn; [done|].
  intros [Hok Hk]. split; [done|]. intros b Hb. by apply IH, Hk.
Qed.

(** The rule a proof walks a program with: the specification of its first half, then the
    second half from any point that meets it. *)
Lemma obeys_then {A B} ok (p : Prog Call A) (f : A -> Prog Call B) h st (Q : A -> History Call -> St -> Prop)
    (R : B -> History Call -> St -> Prop) :
  obeys ok p h st Q -> (forall a h' st', Q a h' st' -> obeys ok (f a) h' st' R) -> obeys ok (seq_prog p f) h st R.
Proof. intros Hp Hf. apply obeys_seq. exact (obeys_mono ok p h st _ _ Hp Hf). Qed.

Lemma obeys_weaken {A} ok ok' (p : Prog Call A) h st (Q : A -> History Call -> St -> Prop) :
  (forall B h (c : Call B), ok _ h c -> ok' _ h c) -> obeys ok p h st Q -> obeys ok' p h st Q.
Proof.
  intros Himp. revert h st. induction p as [a|B c k IH]; intros h st; cbn; [done|].
  intros [Hok Hk]. split; [by apply Himp|]. intros b Hb. by apply IH, Hk.
Qed.

(** Two policies met by one program. *)
Lemma obeys_and {A} ok ok' (p : Prog Call A) h st (Q R : A -> History Call -> St -> Prop) :
  obeys ok p h st Q -> obeys ok' p h st R ->
  obeys (fun B h c => ok B h c /\ ok' B h c) p h st (fun a h' st' => Q a h' st' /\ R a h' st').
Proof.
  revert h st. induction p as [a|B c k IH]; intros h st; cbn; [done|].
  intros [H1 H2] [H3 H4]. split; [done|]. intros b Hb. by apply IH; [apply H2|apply H4].
Qed.

(** ** Results *)

(** Every result of a program, whatever it is answered. *)
Fixpoint returns {A} (P : A -> Prop) (p : Prog Call A) : Prop :=
  match p with
  | Ret a => P a
  | Do c k => forall b, returns P (k b)
  end.

Lemma returns_seq {A B} (P : A -> Prop) (R : B -> Prop) (p : Prog Call A) (f : A -> Prog Call B) :
  returns P p -> (forall a, P a -> returns R (f a)) -> returns R (seq_prog p f).
Proof. intros Hp Hf. induction p as [a|X c k IH]; cbn in *; auto. Qed.

Lemma obeys_returns {A} ok (p : Prog Call A) (P : A -> Prop) h st (Q : A -> History Call -> St -> Prop) :
  returns P p -> obeys ok p h st Q -> obeys ok p h st (fun a h' st' => P a /\ Q a h' st').
Proof.
  revert h st. induction p as [a|B c k IH]; intros h st; cbn; [done|].
  intros Hp [Hok Hk]. split; [done|]. intros b Hb. apply IH; [done|by apply Hk].
Qed.

(** ** Soundness *)

(** Every request of a history met the policy when it was made. *)
Fixpoint lawful ok h : Prop :=
  match h with
  | [] => True
  | did c _ :: h => ok _ h c /\ lawful ok h
  end.

Lemma run_obeys {A} ok (p : Prog Call A) o h st (Q : A -> History Call -> St -> Prop) :
  honest o -> lawful ok h -> obeys ok p h st Q ->
  exists new a st', run o p h st = (a, new ++ h, st') /\ lawful ok (new ++ h) /\ Q a (new ++ h) st'.
Proof.
  intros Ho. revert h st. induction p as [a|B c k IH]; intros h st Hl; cbn.
  - intros HQ. by exists [], a, st.
  - intros [Hok Hk]. set (b := o B h st c).
    destruct (IH b (did c b :: h) (after st c b)) as (new & a & st' & Hr & Hl' & HQ); [done|apply Hk, Ho|].
    exists (new ++ [did c b]), a, st'. rewrite <- app_assoc. cbn in *. by rewrite Hr.
Qed.

(** A request of a lawful history met the policy on what came before it. *)
Lemma lawful_at ok new {B} (c : Call B) b h : lawful ok (new ++ did c b :: h) -> ok _ h c.
Proof. induction new as [|[X c' b'] new IH]; cbn; intros [H1 H2]; [done|by apply IH]. Qed.

(** ** Programs of requests of one kind *)

Section kinds.
Variable kind : forall B, Call B -> bool.

Fixpoint only {A} (p : Prog Call A) : Prop :=
  match p with
  | Ret _ => True
  | Do c k => kind _ c = true /\ forall b, only (k b)
  end.

Lemma only_seq {A B} (p : Prog Call A) (f : A -> Prog Call B) :
  only p -> (forall a, only (f a)) -> only (seq_prog p f).
Proof. intros Hp Hf. induction p as [a|X c k IH]; cbn in *; [done|]. destruct Hp as [H1 H2]. split; auto. Qed.

Definition is_kind (d : Done Call) : Prop := match d with did c _ => kind _ c = true end.

(** Such a program meets any policy that lets its kind through, adds only requests of its
    kind, and keeps what they all keep of the state. *)
Lemma obeys_only {A X} ok (view : St -> X) (p : Prog Call A) h st :
  (forall B h (c : Call B), kind _ c = true -> ok _ h c) ->
  (forall B st (c : Call B) b, kind _ c = true -> view (after st c b) = view st) ->
  only p ->
  obeys ok p h st (fun _ h' st' => (exists new, h' = new ++ h /\ Forall is_kind new) /\ view st' = view st).
Proof.
  intros Hok Hview. revert h st. induction p as [a|B c k IH]; intros h st; cbn.
  - intros _. by split; [exists []|].
  - intros [Hc Hk]. split; [by apply Hok|]. intros b Hb. eapply obeys_mono; [by apply IH, Hk|].
    intros _ h' st' [(new & -> & Hnew) ->]. rewrite Hview by done. split; [|done].
    exists (new ++ [did c b]). rewrite <- app_assoc. split; [done|]. apply Forall_app. by split; [|constructor].
Qed.

(** The same under a fact of the history the kind needs and keeps. *)
Lemma obeys_within {A} ok (I : History Call -> Prop) (p : Prog Call A) h st :
  (forall B h (c : Call B), kind _ c = true -> I h -> ok _ h c) ->
  (forall B h (c : Call B) b, kind _ c = true -> I h -> I (did c b :: h)) ->
  only p -> I h -> obeys ok p h st (fun _ h' _ => I h').
Proof.
  intros Hok Hkeep. revert h st. induction p as [a|B c k IH]; intros h st; cbn; [done|].
  intros [Hc Hk] HI. split; [by apply Hok|]. intros b Hb. apply IH; [done|by apply Hkeep].
Qed.

Lemma only_seq_value {A B} (P : A -> Prop) (p : Prog Call A) (f : A -> Prog Call B) :
  only p -> returns P p -> (forall a, P a -> only (f a)) -> only (seq_prog p f).
Proof.
  intros Hp Hr Hf. induction p as [a|X c k IH]; cbn in *; [by apply Hf|]. destruct Hp as [H1 H2]. split; [done|auto].
Qed.
End kinds.

Lemma only_mono (k1 k2 : forall B, Call B -> bool) {A} (p : Prog Call A) :
  (forall B (c : Call B), k1 B c = true -> k2 B c = true) -> only k1 p -> only k2 p.
Proof. intros Hk. induction p as [a|X c k IH]; cbn; [done|]. intros [H1 H2]. split; [by apply Hk|auto]. Qed.

(** ** Pools: tasks interleaved over one state *)

Record Task := { tk_prog : Prog Call unit; tk_done : History Call }.

Definition Pool := (St * list Task)%type.

(** Tasks of one kind are spawned at any time. *)
Inductive pool_step (spawns : Prog Call unit -> Prop) : Pool -> Pool -> Prop :=
  | PoolCall st ts i B (c : Call B) k h b :
      ts !! i = Some {| tk_prog := Do c k; tk_done := h |} -> may st c b ->
      pool_step spawns (st, ts) (after st c b, <[i := {| tk_prog := k b; tk_done := did c b :: h |}]> ts)
  | PoolSpawn st ts p :
      spawns p ->
      pool_step spawns (st, ts) (st, ts ++ [{| tk_prog := p; tk_done := [] |}]).

Definition reaches (spawns : Prog Call unit -> Prop) : Pool -> Pool -> Prop := rtc (pool_step spawns).
End programs.

(** A world with no state, where any answer may come: what holds of a task there holds
    whatever other tasks do to the state it shares. *)
Definition any_world (Call : Type -> Type) : World Call unit :=
  {| may := fun B st (c : Call B) b => True; after := fun B st (c : Call B) b => tt |}.

Arguments Oracle Call St : clear implicits.
Arguments Policy Call : clear implicits.
Arguments Task Call : clear implicits.
Arguments Pool Call St : clear implicits.
