(* ===== verification/Live.v ===== *)
(** * Live: the stores the live tasks share

    [live/src/strategies/engine/mod.rs]: the in-flight guards (Module [InFlight]), the
    position registry (Module [Registry]), the armed snapshot (Module [Armed]), the fill
    signatures an executor leaves for the sink, the journal of signed buys (Module
    [Journal]); [core/src/state/trade_signals.rs]: the feed's wakeups and the preview of our
    own legs (Module [Signals]); and the leg sums of [trade_repo.rs].

    A [DashMap] is a [gmap]; a guard's [Drop] is an operation.  A UUID is the number it
    wraps. *)

From S2P Require Export Events Programs.
From S2P Require Import Float64 Kernel.

Abbreviation Uuid := Z (only parsing).

(** ** Claims on positions and mints *)

Module InFlight.

(** One exit at a time owns a mint; the exits that wait for it queue behind it in order.
    Both are named by their position. *)
Record MintLock := { ml_holder : Uuid; ml_queue : list Uuid }.

Record t := { entry : gset Uuid; exit_ : gset Uuid; exit_mints : gmap string MintLock }.

Definition new : t := {| entry := ∅; exit_ := ∅; exit_mints := ∅ |}.

Definition set_entry (s : t) (e : gset Uuid) : t := {| entry := e; exit_ := exit_ s; exit_mints := exit_mints s |}.
Definition set_exit (s : t) (e : gset Uuid) : t := {| entry := entry s; exit_ := e; exit_mints := exit_mints s |}.
Definition set_mints (s : t) (m : gmap string MintLock) : t :=
  {| entry := entry s; exit_ := exit_ s; exit_mints := m |}.

Definition entry_held (s : t) (pg : Uuid) : bool := bool_decide (pg ∈ entry s).
Definition exit_held (s : t) (pg : Uuid) : bool := bool_decide (pg ∈ exit_ s).
Definition exit_mint_held (s : t) (key : string) : bool := is_someb (exit_mints s !! key).

(** Whether the claim was made, and the guards after. *)
Definition try_begin_entry (s : t) (pg : Uuid) : bool * t :=
  if entry_held s pg then (false, s) else (true, set_entry s ({[pg]} ∪ entry s)).

Definition try_begin_exit (s : t) (pg : Uuid) : bool * t :=
  if exit_held s pg then (false, s) else (true, set_exit s ({[pg]} ∪ exit_ s)).

Definition drop_entry (s : t) (pg : Uuid) : t := set_entry s (entry s ∖ {[pg]}).
Definition drop_exit (s : t) (pg : Uuid) : t := set_exit s (exit_ s ∖ {[pg]}).

Definition try_begin_exit_mint (s : t) (key : string) (pg : Uuid) : bool * t :=
  match exit_mints s !! key with
  | Some _ => (false, s)
  | None => (true, set_mints s (<[key := {| ml_holder := pg; ml_queue := [] |}]> (exit_mints s)))
  end.

(** The first poll of [lock_owned]: the lock, or a place in its queue. *)
Definition queue_exit_mint (s : t) (key : string) (pg : Uuid) : t :=
  match exit_mints s !! key with
  | None => set_mints s (<[key := {| ml_holder := pg; ml_queue := [] |}]> (exit_mints s))
  | Some l => set_mints s (<[key := {| ml_holder := ml_holder l; ml_queue := ml_queue l ++ [pg] |}]> (exit_mints s))
  end.

Definition owns_exit_mint (s : t) (key : string) (pg : Uuid) : bool :=
  is_some_and (exit_mints s !! key) (fun l => ml_holder l =? pg).

(** The wait ran out: the waiter leaves the queue. *)
Definition leave_exit_mint (s : t) (key : string) (pg : Uuid) : t :=
  match exit_mints s !! key with
  | None => s
  | Some l =>
      set_mints s (<[key := {| ml_holder := ml_holder l;
                               ml_queue := List.filter (fun x => negb (x =? pg)) (ml_queue l) |}]> (exit_mints s))
  end.

(** [ExitMintGuard::drop]: the lock goes to the next in the queue, or the entry is pruned. *)
Definition drop_exit_mint (s : t) (key : string) : t :=
  match exit_mints s !! key with
  | None => s
  | Some l =>
      match ml_queue l with
      | [] => set_mints s (delete key (exit_mints s))
      | pg :: rest => set_mints s (<[key := {| ml_holder := pg; ml_queue := rest |}]> (exit_mints s))
      end
  end.

Definition exit_lock_key (wallet mint : string) : string := (wallet ++ ":" ++ mint)%string.
End InFlight.

(** ** The sums of our own legs *)

Record SigLegs := {
  sl_token_amount : Z; sl_amount_sol : f64; sl_wallet_lamports : option Z;
  sl_first_block_time : Ts; sl_last_block_time : Ts;
  sl_first_slot : option Z; sl_last_slot : option Z; sl_post_spot : option f64;
}.

Definition price_per_token (l : SigLegs) : f64 :=
  if 0 <? sl_token_amount l then sl_amount_sol l ⊘ f_of_Z (sl_token_amount l) else f_zero.

Definition entry_price (l : SigLegs) : f64 :=
  match sl_post_spot l with
  | Some p => if is_finite p && (p >. f_zero) then p else price_per_token l
  | None => price_per_token l
  end.

(** The amount, and whether it is the wallet's own flow. *)
Definition wallet_paid_sol (l : SigLegs) : f64 * bool :=
  match sl_wallet_lamports l with
  | Some x => (lamports_to_sol (- x), true)
  | None => (sl_amount_sol l, false)
  end.

Definition wallet_received_sol (l : SigLegs) : f64 * bool :=
  match sl_wallet_lamports l with
  | Some x => (lamports_to_sol x, true)
  | None => (sl_amount_sol l, false)
  end.

(** ** The feed's own-leg preview and its wakeups *)

Module Signals.

Definition OWN_LEG_TTL : Duration := dur_seconds 60.

Record Slot := { sg_waiters : Z; sg_seq : Z }.

(** Every leg of one transaction, and when the last of them was seen. *)
Record OwnLegEntry := { ol_legs : SigLegs; ol_seen_at : Ts }.

Record t := {
  wallets : gmap string (gmap string Slot);
  own_legs : gmap string OwnLegEntry;
  feed_slot : Z;
}.

Definition new : t := {| wallets := ∅; own_legs := ∅; feed_slot := 0 |}.

Definition set_wallets (s : t) w : t := {| wallets := w; own_legs := own_legs s; feed_slot := feed_slot s |}.
Definition set_own_legs (s : t) o : t := {| wallets := wallets s; own_legs := o; feed_slot := feed_slot s |}.

Definition observe_slot (s : t) (slot : Z) : t :=
  {| wallets := wallets s; own_legs := own_legs s; feed_slot := Z.max (feed_slot s) slot |}.

Definition latest_feed_slot (s : t) : option Z := if feed_slot s =? 0 then None else Some (feed_slot s).

Definition slot_of (s : t) (wallet mint : string) : option Slot := m ← wallets s !! wallet; m !! mint.

Definition has_waiter (s : t) (wallet mint : string) : bool :=
  is_some_and (slot_of s wallet mint) (fun x => 0 <? sg_waiters x).

Definition set_slot (s : t) (wallet mint : string) (x : Slot) : t :=
  set_wallets s (<[wallet := <[mint := x]> (unwrap_or (wallets s !! wallet) ∅)]> (wallets s)).

Definition register (s : t) (wallet mint : string) : t :=
  let x := unwrap_or (slot_of s wallet mint) {| sg_waiters := 0; sg_seq := 0 |} in
  set_slot s wallet mint {| sg_waiters := sg_waiters x + 1; sg_seq := sg_seq x |}.

(** [WaitGuard::drop]: the last waiter takes the slot with it, and the last slot the wallet. *)
Definition unregister (s : t) (wallet mint : string) : t :=
  match wallets s !! wallet with
  | None => s
  | Some m =>
      let m := match m !! mint with
               | None => m
               | Some x =>
                   let w := sg_waiters x - 1 in
                   if w =? 0 then delete mint m else <[mint := {| sg_waiters := w; sg_seq := sg_seq x |}]> m
               end in
      set_wallets s (if bool_decide (m = ∅) then delete wallet (wallets s) else <[wallet := m]> (wallets s))
  end.

Definition notify (s : t) (wallet mint : string) : t :=
  match slot_of s wallet mint with
  | None => s
  | Some x => set_slot s wallet mint {| sg_waiters := sg_waiters x; sg_seq := wrap_u 64 (sg_seq x + 1) |}
  end.

Definition seq (s : t) (wallet mint : string) : Z := map_or (slot_of s wallet mint) 0 sg_seq.

(** One leg as the feed reports it. *)
Record Leg := {
  lg_tokens : Z; lg_sol : f64; lg_time : Ts; lg_slot : Z; lg_payer_net : option Z; lg_post_spot : option f64;
}.

Definition first_leg (l : Leg) : SigLegs := {|
  sl_token_amount := lg_tokens l; sl_amount_sol := lg_sol l; sl_wallet_lamports := lg_payer_net l;
  sl_first_block_time := lg_time l; sl_last_block_time := lg_time l;
  sl_first_slot := Some (lg_slot l); sl_last_slot := Some (lg_slot l); sl_post_spot := lg_post_spot l |}.

Definition add_leg (e : SigLegs) (l : Leg) : SigLegs := {|
  sl_token_amount := sat_add u64_max (sl_token_amount e) (lg_tokens l);
  sl_amount_sol := sl_amount_sol e ⊕ lg_sol l;
  sl_wallet_lamports := sl_wallet_lamports e;
  sl_first_block_time := if lg_time l <? sl_first_block_time e then lg_time l else sl_first_block_time e;
  sl_last_block_time := if sl_last_block_time e <? lg_time l then lg_time l else sl_last_block_time e;
  sl_first_slot := Some (map_or (sl_first_slot e) (lg_slot l) (fun s => Z.min s (lg_slot l)));
  sl_last_slot := Some (map_or (sl_last_slot e) (lg_slot l) (fun s => Z.max s (lg_slot l)));
  sl_post_spot := if (sl_last_block_time e <=? lg_time l) && is_someb (lg_post_spot l) then lg_post_spot l
                  else sl_post_spot e |}.

Definition prune_own_legs (s : t) (now : Ts) : t :=
  if (size (own_legs s) <? 32)%nat then s
  else set_own_legs s (filter (fun e => now - ol_seen_at e.2 <= OWN_LEG_TTL) (own_legs s)).

Definition observe_own_leg (s : t) (wallet mint signature : string) (l : Leg) (now : Ts) : t :=
  if negb (has_waiter s wallet mint) then s
  else
    let legs := match own_legs s !! signature with Some e => add_leg (ol_legs e) l | None => first_leg l end in
    let s := set_own_legs s (<[signature := {| ol_legs := legs; ol_seen_at := now |}]> (own_legs s)) in
    prune_own_legs (notify s wallet mint) now.

Definition observed_legs (s : t) (signature : string) (now : Ts) : option SigLegs :=
  e ← own_legs s !! signature; if OWN_LEG_TTL <? now - ol_seen_at e then None else Some (ol_legs e).

Definition opt_both (f : Z -> Z -> Z) (a b : option Z) : option Z :=
  match a, b with Some x, Some y => Some (f x y) | _, _ => or_else a b end.

(** The last spot of two sums: the later sum's, when it has one. *)
Definition sum_pair (a l : SigLegs) : SigLegs :=
  let last := if sl_last_block_time a <? sl_last_block_time l then sl_last_block_time l else sl_last_block_time a in {|
  sl_token_amount := sat_add u64_max (sl_token_amount a) (sl_token_amount l);
  sl_amount_sol := sl_amount_sol a ⊕ sl_amount_sol l;
  sl_wallet_lamports :=
    match sl_wallet_lamports a, sl_wallet_lamports l with Some x, Some y => Some (x + y) | _, _ => None end;
  sl_first_block_time :=
    if sl_first_block_time l <? sl_first_block_time a then sl_first_block_time l else sl_first_block_time a;
  sl_last_block_time := last;
  sl_first_slot := opt_both Z.min (sl_first_slot a) (sl_first_slot l);
  sl_last_slot := opt_both Z.max (sl_last_slot a) (sl_last_slot l);
  sl_post_spot := if (last <=? sl_last_block_time l) && is_someb (sl_post_spot l) then sl_post_spot l
                  else sl_post_spot a |}.

Definition sum_observed_legs (s : t) (signatures : list string) (now : Ts) : option SigLegs :=
  foldl (fun acc sig =>
    match observed_legs s sig now with
    | None => acc
    | Some l => Some (match acc with None => l | Some a => sum_pair a l end)
    end) None signatures.
End Signals.

(** ** What a fill leaves for the sink *)

Record PrintKey := { pk_slot : Z; pk_tx_index : Z; pk_leg_index : Z; pk_block_time : Ts }.

Record FillSigs := {
  fs_sigs : list string; fs_token_account : option string; fs_slot : option Z; fs_print : option PrintKey;
}.

#[export] Instance IntentId_countable : Countable IntentId.
Proof.
  refine (inj_countable' (fun i => (i_rule i, i_mint i, i_seq i))
            (fun x => {| i_rule := x.1.1; i_mint := x.1.2; i_seq := x.2 |}) _).
  by intros [].
Defined.

Abbreviation FillSigStore := (gmap IntentId FillSigs) (only parsing).

Definition put_sigs (s : FillSigStore) (intent : IntentId) (f : FillSigs) : FillSigStore := <[intent := f]> s.
Definition take_sigs (s : FillSigStore) (intent : IntentId) : option FillSigs * FillSigStore :=
  (s !! intent, delete intent s).

(** ** The journal of signed buys *)

Module Journal.
Record Entry := { first_signed_at : Ts; sigs_of : list string }.

Abbreviation t := (gmap Uuid Entry) (only parsing).

Definition append (j : t) (pg : Uuid) (sig : string) (now : Ts) : t :=
  match j !! pg with
  | Some e => <[pg := {| first_signed_at := first_signed_at e;
                         sigs_of := if contains (sigs_of e) sig then sigs_of e else sigs_of e ++ [sig] |}]> j
  | None => <[pg := {| first_signed_at := now; sigs_of := [sig] |}]> j
  end.

Definition sigs (j : t) (pg : Uuid) : list string := map_or (j !! pg) [] sigs_of.
Definition signed (j : t) (pg : Uuid) : option (Ts * list string) :=
  (fun e => (first_signed_at e, sigs_of e)) <$> j !! pg.
Definition clear (j : t) (pg : Uuid) : t := delete pg j.
End Journal.

(** ** The registry of live positions *)

Record TargetSnapshot := { tg_price : f64; tg_token_amount : Z; tg_print : PrintKey }.

Record PositionMeta := {
  pm_pg_id : Uuid; pm_run_id : Uuid; pm_rule_id : RuleId; pm_mint : string; pm_trade_mode : TradeMode;
  pm_token_program_id : option string; pm_creator : option string; pm_entry_token_amount : option Z;
  pm_sold_token_amount : Z; pm_scale_stage : Z; pm_token_account : option string;
  pm_entry_price : option f64; pm_entry_sol : option f64; pm_entry_time : option Ts;
  pm_reverted_buy_fee_sol : f64; pm_target_snapshot : option TargetSnapshot; pm_cashback_enabled : bool;
  pm_wallet : string; pm_inflight_intent : option IntentId;
}.

Module Registry.
Record t := { by_id : gmap PositionId PositionMeta; by_pg : gmap Uuid PositionId }.

Definition new : t := {| by_id := ∅; by_pg := ∅ |}.

Definition upsert (r : t) (id : PositionId) (m : PositionMeta) : t :=
  {| by_id := <[id := m]> (by_id r); by_pg := <[pm_pg_id m := id]> (by_pg r) |}.

Definition update (r : t) (id : PositionId) (f : PositionMeta -> PositionMeta) : t :=
  {| by_id := alter f id (by_id r); by_pg := by_pg r |}.

Definition get (r : t) (id : PositionId) : option PositionMeta := by_id r !! id.
Definition engine_id (r : t) (pg : Uuid) : option PositionId := by_pg r !! pg.

(** A hash map's iteration has no order: a list stands for the set it lists. *)
Definition ids_where (r : t) (f : PositionMeta -> bool) : list PositionId :=
  (filter (fun e => f e.2 = true) (entries (by_id r))).*1.

Definition positions_for_rule (r : t) (rule : RuleId) : list PositionId := ids_where r (fun m => pm_rule_id m =? rule).
Definition positions_for_mode (r : t) (mode : TradeMode) : list PositionId :=
  ids_where r (fun m => bool_decide (pm_trade_mode m = mode)).

Definition is_mint_held (r : t) (mint : string) : bool :=
  existsb (fun m => bool_decide (pm_mint m = mint)) (values (by_id r)).

Definition is_sibling (wallet mint : string) (exclude : Uuid) (m : PositionMeta) : bool :=
  bool_decide (pm_wallet m = wallet) && bool_decide (pm_mint m = mint) && negb (pm_pg_id m =? exclude) &&
  is_someb (pm_token_account m).

(** Any of the siblings' accounts: [find] on an unordered map. *)
Definition sibling_token_account (r : t) (wallet mint : string) (exclude : Uuid) (answer : option string) : Prop :=
  match answer with
  | Some a => exists id m, by_id r !! id = Some m /\ is_sibling wallet mint exclude m = true /\ pm_token_account m = Some a
  | None => forall id m, by_id r !! id = Some m -> is_sibling wallet mint exclude m = false
  end.

Definition remove (r : t) (id : PositionId) : t :=
  match by_id r !! id with
  | None => r
  | Some m => {| by_id := delete id (by_id r); by_pg := delete (pm_pg_id m) (by_pg r) |}
  end.

Definition open_rule_ids (r : t) : gset RuleId := list_to_set (map pm_rule_id (values (by_id r))).
End Registry.

(** ** What is armed now *)

Module Armed.
Abbreviation t := (gmap (RuleId * string) Ts) (only parsing).

(** The episode's start, and whether it is new. *)
Definition set_armed (s : t) (rule : RuleId) (mint : string) (now : Ts) : (Ts * bool) * t :=
  match s !! (rule, mint) with
  | Some armed_at => ((armed_at, false), s)
  | None => ((now, true), <[(rule, mint) := now]> s)
  end.

Definition clear (s : t) (rule : RuleId) (mint : string) : option Ts * t :=
  (s !! (rule, mint), delete (rule, mint) s).
End Armed.
