(* ===== verification/RealExec.v ===== *)
(** * RealExec: a real buy or sell, from order to outcome

    [live/src/strategies/engine/exec_real.rs], with the send halves of
    [executor/pumpfun/src/trader/{buy,sell,amm}.rs] split where they sign: a transaction
    exists from its signature on, whether or not its send returns.

    A task is a [Prog] over [Call]: the clock, the wallet's trader, the chain, the feed, the
    token cache and the database answer whatever they answer; the guards, the journal, the
    registry, the fill signatures and the trader's record of signed sells are the stores of
    [Live] and answer as they are ([Live_world]).  Logging is left out, and so is the
    latency line's [latest_feed_slot]. *)

From stdpp Require Import pretty.
From S2P Require Export Live Executor.
From S2P Require Import Float64 Events Kernel.
#[local] Open Scope Z_scope.

Import Retry.

(** ** Constants *)

Definition dur_millis (n : Z) : Duration := dur_milliseconds n.

Definition ENTRY_FEED_WINDOW : Duration := dur_seconds 12.
Definition ENTRY_EARLY_STATUS : Duration := dur_millis 1500.
Definition SNIPE_RETRY_MAX_AGE : Duration := dur_seconds 5.
Definition BUY_SEND_TIMEOUT_SECS : Z := 20.
Definition EXTENDED_FEED_WINDOW : Duration := dur_seconds 20.
Definition BUY_LEGS_QUERY_EVERY : Duration := dur_millis 500.
Definition SELL_LEGS_QUERY_EVERY : Duration := dur_millis 250.
Definition SELL_ATTEMPTS : nat := 6.
Definition SELL_CONFIRM_WINDOW : Duration := dur_seconds 5.
Definition SELL_SEND_TIMEOUT : Duration := dur_seconds 15.
Definition SELL_UNCONFIRMED_EXTENDED : Duration := dur_seconds 20.
Definition RECLAIM_CLOSE_DELAYS : list Duration := [dur_seconds 1; dur_seconds 2; dur_seconds 4].
Definition EXIT_MINT_WAIT : Duration :=
  Z.of_nat SELL_ATTEMPTS * (SELL_SEND_TIMEOUT + SELL_CONFIRM_WINDOW) + SELL_UNCONFIRMED_EXTENDED.
Definition PARTIAL_FILL_THRESHOLD : Z := 0.
Definition NOTE_ENTRY_ERROR_ATTEMPTS : nat := 8.
Definition NOTE_ENTRY_ERROR_BACKOFF : Duration := dur_millis 25.
Definition PERSIST_AUDIT_DELAY : Duration := dur_seconds 30.
Definition PERSIST_AUDIT_LOOKBACK : Duration := dur_seconds 1800.
Definition COMPUTE_UNIT_LIMIT_AMM : Z := 180000.

(** ** What a signature turned out to be *)

Inductive SigStatus := Succeeded | RevertedWith (custom : option Z) | Pending.

(** A read that may fail, with the failure's text. *)
Abbreviation Res A := (A + string)%type (only parsing).

Inductive SilentSendOutcome := Resend | RefreshCreatorThenResend | WaitThenSettle | GiveUp.

Definition snipe_retry_expired (lane : option string) (first_signed_at now : Ts) : bool :=
  bool_decide (lane = Some "create"%string) && (0 <=? now - first_signed_at) && (SNIPE_RETRY_MAX_AGE <? now - first_signed_at).

Definition classify_silent_send (status : Res SigStatus) : SilentSendOutcome :=
  match status with
  | inl (RevertedWith custom) =>
      match classify_swap_revert custom Curve Buy with
      | RetrySwap => Resend
      | RefreshCreator => RefreshCreatorThenResend
      | _ => GiveUp
      end
  | inl Succeeded => WaitThenSettle
  | inl Pending | inr _ => GiveUp
  end.

Inductive CreatorRecheck := CreatorChanged (creator : string) | CreatorUnchanged | CreatorFailed (error : string).

Definition creator_recheck_verdict (used : option string) (chain : string) : CreatorRecheck :=
  if bool_decide (used = Some chain) then CreatorUnchanged else CreatorChanged chain.

Inductive BuyRecoveryVerdict := RecDrop | RecWait.

Definition classify_submitted_buy (status : Res (option bool)) : BuyRecoveryVerdict :=
  match status with inl (Some false) => RecDrop | _ => RecWait end.

Inductive SellConfirmAction := Reclassify (d : SwapRetryDecision) | WaitConfirm.

Definition classify_sell_confirm (state : Res SigStatus) (used_migrated now_migrated : bool) : SellConfirmAction :=
  match state with
  | inl (RevertedWith custom) =>
      if Bool.eqb used_migrated now_migrated
      then Reclassify (classify_swap_revert custom (if used_migrated then Amm else Curve) Sell)
      else Reclassify RetrySwap
  | _ => WaitConfirm
  end.

(** [describe_status], for the row. *)
Definition describe_status (status : Res SigStatus) : string :=
  match status with
  | inl (RevertedWith (Some code)) => "reverted on-chain, curve buy error " ++ pretty code
  | inl (RevertedWith None) => "reverted on-chain, no Anchor code (account / funds error)"
  | inl Pending => "never landed (pending or dropped)"
  | inl Succeeded => "tx succeeded but no own buy leg on the feed"
  | inr e => "signature status unavailable: " ++ e
  end%string.

(** ** Orders *)

Record BuyOrder := {
  bo_intent : IntentId; bo_pg_id : Uuid; bo_mint : string; bo_creator : string; bo_token_program_id : string;
  bo_lamports : Z; bo_cashback_enabled : bool; bo_slippage_bps : option Z; bo_token_account : option string;
  bo_lane : option string; bo_decided_at : Ts; bo_wallet : string;
}.

Record SellOrder := {
  so_intent : IntentId; so_pg_id : Uuid; so_mint : string; so_token_amount : Z; so_token_account : option string;
  so_creator : option string; so_token_program_id : option string; so_cashback_enabled : bool;
  so_slippage_bps : option Z; so_empties_bag : bool; so_wallet : string;
}.

Definition with_holder (o : SellOrder) (wallet : string) (account : option string) : SellOrder := {|
  so_intent := so_intent o; so_pg_id := so_pg_id o; so_mint := so_mint o; so_token_amount := so_token_amount o;
  so_token_account := account; so_creator := so_creator o; so_token_program_id := so_token_program_id o;
  so_cashback_enabled := so_cashback_enabled o; so_slippage_bps := so_slippage_bps o;
  so_empties_bag := so_empties_bag o; so_wallet := wallet |}.

Definition with_creator (o : SellOrder) (creator : string) : SellOrder := {|
  so_intent := so_intent o; so_pg_id := so_pg_id o; so_mint := so_mint o; so_token_amount := so_token_amount o;
  so_token_account := so_token_account o; so_creator := Some creator; so_token_program_id := so_token_program_id o;
  so_cashback_enabled := so_cashback_enabled o; so_slippage_bps := so_slippage_bps o;
  so_empties_bag := so_empties_bag o; so_wallet := so_wallet o |}.

(** ** Requests *)

(** What a task reports to the fold. *)
Inductive Report :=
  | RepConfirmed (intent : IntentId) (fill : Fill)
  | RepFailed (intent : IntentId) (reason : FillFailReason) (at_ : Ts).

Definition report_event {TagDoc} (r : Report) : Events.Event TagDoc :=
  match r with
  | RepConfirmed i f => Events.FillConfirmed i f
  | RepFailed i reason at_ => Events.FillFailed i reason (Some at_)
  end.

(** Work a task leaves behind. *)
Inductive Background :=
  | BgMarkBuySubmitted (pg : Uuid) (sig : string)
  | BgAppendExitSig (pg : Uuid) (sig : string)
  | BgMarkMigrated (mint : string)
  | BgAudit (trader mint : string) (sigs : list string) (since : Ts) (heal : bool)
  | BgReclaim (trader mint : string) (account : option string).

(** Signing: the transaction's signature, or why there is none. *)
Inductive Signing := SignedAs (sig : string) | SignFailed (error : string) | SignTimedOut.

Inductive BuySending := BuySent (account : string) | BuySendFailed (error : string) | BuySendTimedOut.

(** The sell of one attempt: which venue, with what. *)
Record SellSpec := {
  ss_amm : bool; ss_mint : string; ss_amount : Z; ss_creator : option string; ss_program : string;
  ss_cashback : bool; ss_account : option string; ss_slippage_bps : option Z; ss_tip_level : Z;
  ss_reserves : option (Z * Z);
}.

Record BuySpec := {
  bs_mint : string; bs_creator : string; bs_program : string; bs_sol : f64; bs_slippage_bps : option Z;
  bs_reserves : option (Z * Z); bs_cashback : bool; bs_reuse_account : option string; bs_tip_level : Z;
}.

(** A trader is its wallet's pubkey; a row read is the holder and the account of the bag. *)
Inductive Call : Type -> Type :=
  | Now : Call Ts
  | Wakes : Call nat
  | WaitWake (wallet mint : string) (until : Ts) : Call unit
  | Sleep (d : Duration) : Call unit
  (* wallets *)
  | LoadedTrader (wallet : string) : Call bool
  | ReadPosition (pg : Uuid) : Call (option (string * option string))
  | IsFrozen (wallet : string) : Call bool
  | WaitThaw (wallet : string) : Call unit
  | ReleaseSol (trader : string) (pg : Uuid) : Call unit
  | SettleSol (trader : string) (pg : Uuid) (slot : option Z) : Call unit
  (* guards *)
  | TryBeginEntry (pg : Uuid) : Call bool
  | DropEntry (pg : Uuid) : Call unit
  | TryBeginExit (pg : Uuid) : Call bool
  | DropExit (pg : Uuid) : Call unit
  | TryBeginExitMint (key : string) (pg : Uuid) : Call bool
  | QueueExitMint (key : string) (pg : Uuid) : Call unit
  | AwaitExitMint (key : string) (pg : Uuid) (wait : Duration) : Call bool
  | DropExitMint (key : string) : Call unit
  (* reports and rows *)
  | SendReport (r : Report) : Call unit
  | PutFillSigs (intent : IntentId) (f : FillSigs) : Call unit
  | NoteLastEntryError (pg : Uuid) (cause : string) : Call (Res bool)
  | AddRevertedFee (pg : Uuid) (fee : Z) : Call (Res bool)
  | Spawn (b : Background) : Call unit
  (* the journal and the registry *)
  | JournalSigned (pg : Uuid) : Call (option (Ts * list string))
  | JournalSigs (pg : Uuid) : Call (list string)
  | JournalAppend (pg : Uuid) (sig : string) (now : Ts) : Call unit
  | EngineId (pg : Uuid) : Call (option PositionId)
  | GetMeta (id : PositionId) : Call (option PositionMeta)
  | AddRevertedBuyFee (id : PositionId) (sol : f64) : Call unit
  | SiblingAccount (wallet mint : string) (exclude : Uuid) : Call (option string)
  | FindReusableAccount (wallet mint : string) : Call (Res (option string))
  (* the feed *)
  | RegisterWait (wallet mint : string) : Call unit
  | DropWait (wallet mint : string) : Call unit
  | FeedSeq (wallet mint : string) : Call Z
  | ObservedLegs (sig : string) : Call (option SigLegs)
  | SumObservedLegs (sigs : list string) : Call (option SigLegs)
  | FindFill (wallet mint sig : string) (since : Ts) : Call (Res (option SigLegs))
  | SumSellLegs (wallet mint : string) (sigs : list string) (since : Ts) : Call (Res (option SigLegs))
  (* the token cache and the stored token *)
  | CacheMigrated (mint : string) : Call (option bool)
  | CacheReserves (mint : string) : Call (option (option f64 * option f64))
  | DurableMigrated (mint : string) : Call (Res bool)
  | SetCurveCreator (mint creator : string) : Call unit
  | SetCashback (mint : string) (enabled : bool) : Call unit
  | SetMigrated (mint : string) : Call unit
  | CachedAccount (trader mint : string) : Call (option string)
  (* the chain *)
  | SignBuy (trader : string) (s : BuySpec) : Call Signing
  | SendBuy (trader sig : string) : Call BuySending
  | SignSell (trader : string) (s : SellSpec) : Call Signing
  | NoteSignedSell (trader mint sig : string) : Call unit
  | ClearSignedSell (trader mint sig : string) : Call unit
  | TakeSignedSell (trader mint : string) : Call (option string)
  | SendSell (trader sig : string) : Call (Res unit)
  | BurnNonce (trader sig : string) : Call Nonce.NonceTxState
  | SigState (trader sig : string) : Call (Res SigStatus)
  | ChainCreator (trader mint : string) : Call (Res string)
  | RefreshAmmPool (trader mint program : string) : Call (Res bool)
  | RefreshCurveFacts (trader mint : string) : Call (Res bool)
  | HealSellLegs (trader mint : string) (sigs : list string) (since : Ts) : Call Z
  | HasOtherOpen (wallet mint : string) (exclude : Uuid) : Call (Res bool)
  (* background work *)
  | MarkBuySubmitted (pg : Uuid) (sig : string) : Call (Res bool)
  | AppendExitSig (pg : Uuid) (sig : string) : Call (Res unit)
  | UpdateMigrationStatus (mint : string) : Call (Res unit)
  | SignaturesWithLegs (mint : string) (sigs : list string) (since : Ts) : Call (Res (gset string))
  | CloseTokenAccount (trader mint : string) (account : option string) : Call (Res unit).

(** ** The stores behind the requests *)

Record LiveState := {
  lv_inflight : InFlight.t;
  lv_journal : Journal.t;
  lv_registry : Registry.t;
  lv_fill_sigs : FillSigStore;
  lv_signed_sells : gmap (string * string) string;
}.

Definition set_inflight (s : LiveState) (i : InFlight.t) : LiveState := {|
  lv_inflight := i; lv_journal := lv_journal s; lv_registry := lv_registry s; lv_fill_sigs := lv_fill_sigs s;
  lv_signed_sells := lv_signed_sells s |}.
Definition set_journal (s : LiveState) (j : Journal.t) : LiveState := {|
  lv_inflight := lv_inflight s; lv_journal := j; lv_registry := lv_registry s; lv_fill_sigs := lv_fill_sigs s;
  lv_signed_sells := lv_signed_sells s |}.
Definition set_registry (s : LiveState) (r : Registry.t) : LiveState := {|
  lv_inflight := lv_inflight s; lv_journal := lv_journal s; lv_registry := r; lv_fill_sigs := lv_fill_sigs s;
  lv_signed_sells := lv_signed_sells s |}.
Definition set_fill_sigs (s : LiveState) (f : FillSigStore) : LiveState := {|
  lv_inflight := lv_inflight s; lv_journal := lv_journal s; lv_registry := lv_registry s; lv_fill_sigs := f;
  lv_signed_sells := lv_signed_sells s |}.
Definition set_signed_sells (s : LiveState) (m : gmap (string * string) string) : LiveState := {|
  lv_inflight := lv_inflight s; lv_journal := lv_journal s; lv_registry := lv_registry s;
  lv_fill_sigs := lv_fill_sigs s; lv_signed_sells := m |}.

Definition add_reverted_buy_fee (sol : f64) (m : PositionMeta) : PositionMeta := {|
  pm_pg_id := pm_pg_id m; pm_run_id := pm_run_id m; pm_rule_id := pm_rule_id m; pm_mint := pm_mint m;
  pm_trade_mode := pm_trade_mode m; pm_token_program_id := pm_token_program_id m; pm_creator := pm_creator m;
  pm_entry_token_amount := pm_entry_token_amount m; pm_sold_token_amount := pm_sold_token_amount m;
  pm_scale_stage := pm_scale_stage m; pm_token_account := pm_token_account m; pm_entry_price := pm_entry_price m;
  pm_entry_sol := pm_entry_sol m; pm_entry_time := pm_entry_time m;
  pm_reverted_buy_fee_sol := pm_reverted_buy_fee_sol m ⊕ sol; pm_target_snapshot := pm_target_snapshot m;
  pm_cashback_enabled := pm_cashback_enabled m; pm_wallet := pm_wallet m; pm_inflight_intent := pm_inflight_intent m |}.

Definition live_may {B} (s : LiveState) (c : Call B) : B -> Prop :=
  match c with
  | TryBeginEntry pg => fun b => b = (InFlight.try_begin_entry (lv_inflight s) pg).1
  | TryBeginExit pg => fun b => b = (InFlight.try_begin_exit (lv_inflight s) pg).1
  | TryBeginExitMint key pg => fun b => b = (InFlight.try_begin_exit_mint (lv_inflight s) key pg).1
  | AwaitExitMint key pg _ => fun b => b = InFlight.owns_exit_mint (lv_inflight s) key pg
  | JournalSigned pg => fun b => b = Journal.signed (lv_journal s) pg
  | JournalSigs pg => fun b => b = Journal.sigs (lv_journal s) pg
  | EngineId pg => fun b => b = Registry.engine_id (lv_registry s) pg
  | GetMeta id => fun b => b = Registry.get (lv_registry s) id
  | SiblingAccount w m pg => fun b => Registry.sibling_token_account (lv_registry s) w m pg b
  | TakeSignedSell tr m => fun b => b = lv_signed_sells s !! (tr, m)
  | _ => fun _ => True
  end.

Definition live_after {B} (s : LiveState) (c : Call B) : B -> LiveState :=
  let i := lv_inflight s in
  match c with
  | TryBeginEntry pg => fun _ => set_inflight s (InFlight.try_begin_entry i pg).2
  | DropEntry pg => fun _ => set_inflight s (InFlight.drop_entry i pg)
  | TryBeginExit pg => fun _ => set_inflight s (InFlight.try_begin_exit i pg).2
  | DropExit pg => fun _ => set_inflight s (InFlight.drop_exit i pg)
  | TryBeginExitMint key pg => fun _ => set_inflight s (InFlight.try_begin_exit_mint i key pg).2
  | QueueExitMint key pg => fun _ => set_inflight s (InFlight.queue_exit_mint i key pg)
  | AwaitExitMint key pg _ => fun b : bool => if b then s else set_inflight s (InFlight.leave_exit_mint i key pg)
  | DropExitMint key => fun _ => set_inflight s (InFlight.drop_exit_mint i key)
  | PutFillSigs intent f => fun _ => set_fill_sigs s (put_sigs (lv_fill_sigs s) intent f)
  | JournalAppend pg sig now => fun _ => set_journal s (Journal.append (lv_journal s) pg sig now)
  | AddRevertedBuyFee id sol => fun _ => set_registry s (Registry.update (lv_registry s) id (add_reverted_buy_fee sol))
  | NoteSignedSell tr m sig => fun _ => set_signed_sells s (<[(tr, m) := sig]> (lv_signed_sells s))
  | ClearSignedSell tr m sig => fun _ =>
      if bool_decide (lv_signed_sells s !! (tr, m) = Some sig) then set_signed_sells s (delete (tr, m) (lv_signed_sells s))
      else s
  | TakeSignedSell tr m => fun _ => set_signed_sells s (delete (tr, m) (lv_signed_sells s))
  | _ => fun _ => s
  end.

#[export] Instance Live_world : Programs.World Call LiveState := {| Programs.may := @live_may; Programs.after := @live_after |}.

(** ** Shared steps *)

Section exec.
(** The fee settings, the program's primary wallet, and the SDK's pubkey parser. *)
Context (tuning : FeeTuning) (primary : string) (parse_pubkey : string -> option string).

Abbreviation P := (Prog Call) (only parsing).

Definition fail_with (intent : IntentId) (reason : FillFailReason) : P unit :=
  now <~ Now; do! SendReport (RepFailed intent reason now); Ret tt.

Definition cache_is_migrated (mint : string) : P bool :=
  m <~ CacheMigrated mint; Ret (unwrap_or m false).

(** [note_entry_error]: a write that finds no row yet is tried again, a failed one is not. *)
Fixpoint note_entry_error_loop (n : nat) (pg : Uuid) (cause : string) : P unit :=
  match n with
  | O => Ret tt
  | S n =>
      r <~ NoteLastEntryError pg cause;
      match r with
      | inl true => Ret tt
      | inl false => do! Sleep NOTE_ENTRY_ERROR_BACKOFF; note_entry_error_loop n pg cause
      | inr _ => Ret tt
      end
  end.

Definition note_entry_error (order : BuyOrder) (cause : string) : P unit :=
  note_entry_error_loop NOTE_ENTRY_ERROR_ATTEMPTS (bo_pg_id order) cause.

Fixpoint note_reverted_fee_loop (n : nat) (pg : Uuid) (fee : Z) : P unit :=
  match n with
  | O => Ret tt
  | S n =>
      r <~ AddRevertedFee pg fee;
      match r with
      | inl true => Ret tt
      | inl false => do! Sleep NOTE_ENTRY_ERROR_BACKOFF; note_reverted_fee_loop n pg fee
      | inr _ => Ret tt
      end
  end.

Definition note_reverted_fee (pg : Uuid) (cu_limit : Z) : P Z :=
  let fee := network_fee_lamports tuning cu_limit in
  run! note_reverted_fee_loop NOTE_ENTRY_ERROR_ATTEMPTS pg fee; Ret fee.

Definition recheck_curve_creator (trader mint : string) (used : option string) : P CreatorRecheck :=
  chain <~ ChainCreator trader mint;
  match chain with
  | inr e => Ret (CreatorFailed e)
  | inl chain =>
      let verdict := creator_recheck_verdict used chain in
      match verdict with
      | CreatorChanged creator =>
          if is_someb (parse_pubkey creator) then do! SetCurveCreator mint creator; Ret verdict else Ret verdict
      | _ => Ret verdict
      end
  end.

(** [await_own_legs]: the pass that reaches the deadline is the last; the world says how
    often the wait is woken before. *)
Fixpoint await_passes (n : nat) (wallet mint : string) (deadline query_every : Ts) (next_query : Ts)
    (queried_seq : option Z) (preview query : P (option SigLegs)) : P (option SigLegs) :=
  p <-- preview;
  match p with
  | Some legs => Ret (Some legs)
  | None =>
      now <~ Now;
      let at_deadline := deadline <=? now in
      let go_on (next_query : Ts) (queried_seq : option Z) : P (option SigLegs) :=
        if at_deadline then Ret None
        else do! WaitWake wallet mint (Z.min next_query deadline);
             match n with
             | O => Ret None
             | S n => await_passes n wallet mint deadline query_every next_query queried_seq preview query
             end in
      if at_deadline || (next_query <=? now) then
        seq <~ FeedSeq wallet mint;
        if bool_decide (queried_seq = Some seq) then
          now <~ Now; go_on (now + query_every) queried_seq
        else
          q <-- query;
          match q with
          | Some legs => Ret (Some legs)
          | None => now <~ Now; go_on (now + query_every) (Some seq)
          end
      else go_on next_query queried_seq
  end.

Definition await_own_legs (wallet mint : string) (window query_every : Duration)
    (preview query : P (option SigLegs)) : P (option SigLegs) :=
  now <~ Now; now' <~ Now; n <~ Wakes;
  await_passes n wallet mint (now + window) query_every (now' + query_every) None preview query.

(** Legs that bought something. *)
Definition filled (legs : option SigLegs) : option SigLegs :=
  l ← legs; if PARTIAL_FILL_THRESHOLD <? sl_token_amount l then Some l else None.

Definition res_flat {A} (r : Res (option A)) : option A := match r with inl o => o | inr _ => None end.

Definition poll_feed_buy (wallet mint sig : string) (since : Ts) (window : Duration) : P (option SigLegs) :=
  await_own_legs wallet mint window BUY_LEGS_QUERY_EVERY
    (l <~ ObservedLegs sig; Ret (filled l))
    (r <~ FindFill wallet mint sig since; Ret (filled (res_flat r))).

Definition audit_persisted (trader mint : string) (sigs : list string) (since : Ts) (heal : bool) : P unit :=
  match sigs with [] => Ret tt | _ => do! Spawn (BgAudit trader mint sigs since heal); Ret tt end.

(** [snipe_reserves_from_cache]. *)
Definition snipe_reserves_from_cache (reserve_token reserve_sol : option f64) : option (Z * Z) :=
  vt ← reserve_token; vsol ← reserve_sol;
  if (vt <=. f_zero) || (vsol <=. f_zero) then None
  else Some (f_as_int 0 u128_max vt, f_as_int 0 u128_max (vsol ⊗ f_of_Z LAMPORTS_PER_SOL)).

Definition reserves_from_cache (mint : string) : P (option (Z * Z)) :=
  e <~ CacheReserves mint;
  let '(t, s) := unwrap_or e (None, None) in Ret (snipe_reserves_from_cache t s).

(** ** A buy *)

Inductive EntryOutcome := OutFilled (legs : SigLegs) | OutRetry (cause : string) | OutFatal (cause : string) | OutAmbiguous.

Definition is_reverted (s : Res SigStatus) : bool := match s with inl (RevertedWith _) => true | _ => false end.

Fixpoint adopt_from (wallet mint : string) (first_signed_at : Ts) (sigs : list string) : P (option (string * SigLegs)) :=
  match sigs with
  | [] => Ret None
  | sig :: rest =>
      o <~ ObservedLegs sig;
      match filled o with
      | Some legs => Ret (Some (sig, legs))
      | None =>
          r <~ FindFill wallet mint sig first_signed_at;
          match filled (res_flat r) with
          | Some legs => Ret (Some (sig, legs))
          | None => adopt_from wallet mint first_signed_at rest
          end
      end
  end.

Definition adopt_existing_fill (wallet : string) (order : BuyOrder) : P (option (string * SigLegs)) :=
  j <~ JournalSigned (bo_pg_id order);
  match j with
  | None => Ret None
  | Some (first_signed_at, sigs) => adopt_from wallet (bo_mint order) first_signed_at sigs
  end.

Definition booked_wallet_sol (legs : SigLegs) (buy : bool) : f64 :=
  (if buy then wallet_paid_sol legs else wallet_received_sol legs).1.

Definition known_account (trader mint : string) (known : option string) : P (option string) :=
  match known with
  | Some a => Ret (Some a)
  | None => req (CachedAccount trader mint)
  end.

Definition emit_entry_filled (trader : string) (order : BuyOrder) (sig : string) (funded_account : option string)
    (legs : SigLegs) : P unit :=
  token_account <-- known_account trader (bo_mint order) funded_account;
  do! SettleSol trader (bo_pg_id order) (sl_last_slot legs);
  run! audit_persisted trader (bo_mint order) [sig] (bo_decided_at order) false;
  do! PutFillSigs (bo_intent order)
        {| fs_sigs := [sig]; fs_token_account := token_account; fs_slot := sl_first_slot legs; fs_print := None |};
  do! SendReport (RepConfirmed (bo_intent order)
        {| fl_price := entry_price legs; fl_sol := booked_wallet_sol legs true;
           fl_token_amount := sl_token_amount legs; fl_at := sl_last_block_time legs |});
  Ret tt.

(** The status of a buy the feed never showed. *)
Definition settle_silent (trader wallet : string) (order : BuyOrder) (sig : string) (status : Res SigStatus) : P EntryOutcome :=
  match classify_silent_send status with
  | Resend => Ret (OutRetry (describe_status status))
  | RefreshCreatorThenResend =>
      r <-- recheck_curve_creator trader (bo_mint order) (Some (bo_creator order));
      Ret (match r with
           | CreatorChanged _ => OutRetry "reverted 2006 (stale creator); creator refreshed, retrying"
           | CreatorUnchanged => OutFatal "reverted 2006 but the buy already used the chain creator"
           | CreatorFailed e => OutFatal ("reverted 2006 and the creator re-read failed: " ++ e)%string
           end)
  | WaitThenSettle =>
      p <-- poll_feed_buy wallet (bo_mint order) sig (bo_decided_at order) EXTENDED_FEED_WINDOW;
      Ret (match p with Some legs => OutFilled legs | None => OutAmbiguous end)
  | GiveUp =>
      Ret (match status with
           | inl (RevertedWith _) => OutFatal (describe_status status)
           | _ => OutAmbiguous
           end)
  end.

Definition charge_reverted_buy (order : BuyOrder) : P unit :=
  fee <-- note_reverted_fee (bo_pg_id order) COMPUTE_UNIT_LIMIT_CURVE_BUY;
  id <~ EngineId (bo_pg_id order);
  match id with
  | Some id => do! AddRevertedBuyFee id (lamports_to_sol fee); Ret tt
  | None => Ret tt
  end.

(** The early look: the fill if the rest of the window shows it, else the revert if there
    is one. *)
Definition early_look (trader wallet : string) (order : BuyOrder) (sig : string) (window early : Duration)
    : P (option (Res SigStatus) + SigLegs) :=
  if early <? window then
    status <~ SigState trader sig;
    if is_reverted status then Ret (inl (Some status))
    else
      p <-- poll_feed_buy wallet (bo_mint order) sig (bo_decided_at order) (window - early);
      Ret (match p with Some legs => inr legs | None => inl None end)
  else Ret (inl None).

Definition early_status (trader sig : string) (early_revert : option (Res SigStatus)) : P (Res SigStatus) :=
  match early_revert with Some s => Ret s | None => req (SigState trader sig) end.

Definition confirm_entry (trader wallet : string) (order : BuyOrder) (sig : string) (window : Duration) : P EntryOutcome :=
  let early := Z.min window ENTRY_EARLY_STATUS in
  p <-- poll_feed_buy wallet (bo_mint order) sig (bo_decided_at order) early;
  match p with
  | Some legs => Ret (OutFilled legs)
  | None =>
      e <-- early_look trader wallet order sig window early;
      match e with
      | inr legs => Ret (OutFilled legs)
      | inl early_revert =>
          migrated <-- cache_is_migrated (bo_mint order);
          if migrated then Ret (OutFatal "token migrated during the buy window (a curve-only snipe cannot fill)")
          else
            status <-- early_status trader sig early_revert;
            run! (if is_reverted status then charge_reverted_buy order else Ret tt);
            settle_silent trader wallet order sig status
      end
  end.

Definition emit_entry_outcome (trader : string) (order : BuyOrder) (sig : string) (funded_account : option string)
    (outcome : EntryOutcome) (send_error : option string) : P unit :=
  match outcome with
  | OutFilled legs => emit_entry_filled trader order sig funded_account legs
  | OutRetry cause => run! note_entry_error order cause; fail_with (bo_intent order) Reverted
  | OutFatal cause =>
      run! note_entry_error order cause;
      do! ReleaseSol trader (bo_pg_id order);
      fail_with (bo_intent order) Fatal
  | OutAmbiguous =>
      match send_error with
      | Some cause => note_entry_error order (cause ++ " (tx was signed; left BuySubmitted for the reaper)")%string
      | None => Ret tt
      end
  end.

Definition resolve_sibling_account (trader wallet mint : string) (exclude : Uuid) : P (option string) :=
  c <~ CachedAccount trader mint;
  match c with
  | None => Ret None
  | Some _ =>
      s <~ SiblingAccount wallet mint exclude;
      match s with
      | Some a => Ret (Some a)
      | None => r <~ FindReusableAccount wallet mint; Ret (res_flat r)
      end
  end.

Definition reuse_account (trader wallet : string) (order : BuyOrder) : P (option string) :=
  match bo_token_account order with
  | Some a => Ret (parse_pubkey a)
  | None => s <-- resolve_sibling_account trader wallet (bo_mint order) (bo_pg_id order); Ret (match s with Some a => parse_pubkey a | None => None end)
  end.

Definition buy_send_error (r : BuySending) : option string :=
  match r with
  | BuySent _ => None
  | BuySendFailed e => Some ("buy send failed: " ++ e)%string
  | BuySendTimedOut => Some ("buy send timed out after " ++ pretty BUY_SEND_TIMEOUT_SECS ++ "s")%string
  end.

Definition never_signed (order : BuyOrder) (cause : string) : P unit :=
  run! note_entry_error order cause; fail_with (bo_intent order) Reverted.

(** The buy's signature is journaled, and its row marked, before its send. *)
Definition send_and_confirm (trader wallet : string) (order : BuyOrder) : P unit :=
  reserves <-- reserves_from_cache (bo_mint order);
  sigs <~ JournalSigs (bo_pg_id order);
  reuse <-- reuse_account trader wallet order;
  sg <~ SignBuy trader {|
    bs_mint := bo_mint order; bs_creator := bo_creator order; bs_program := bo_token_program_id order;
    bs_sol := f_of_Z (bo_lamports order) ⊘ f_of_Z 1000000000; bs_slippage_bps := bo_slippage_bps order;
    bs_reserves := reserves; bs_cashback := bo_cashback_enabled order; bs_reuse_account := reuse;
    bs_tip_level := Z.min (Z.of_nat (length sigs)) u8_max |};
  match sg with
  | SignedAs sig =>
      now <~ Now;
      do! JournalAppend (bo_pg_id order) sig now;
      do! Spawn (BgMarkBuySubmitted (bo_pg_id order) sig);
      r <~ SendBuy trader sig;
      outcome <-- confirm_entry trader wallet order sig ENTRY_FEED_WINDOW;
      emit_entry_outcome trader order sig
        (match r with BuySent account => Some account | _ => bo_token_account order end) outcome (buy_send_error r)
  | SignFailed e => never_signed order ("buy send failed: " ++ e)%string
  | SignTimedOut => never_signed order ("buy send timed out after " ++ pretty BUY_SEND_TIMEOUT_SECS ++ "s")%string
  end.

Definition drop_entry_fatally (trader : string) (order : BuyOrder) (cause : string) : P unit :=
  do! ReleaseSol trader (bo_pg_id order);
  run! note_entry_error order cause;
  fail_with (bo_intent order) Fatal.

Definition retry_expired (order : BuyOrder) : P bool :=
  j <~ JournalSigned (bo_pg_id order);
  match j with
  | Some (first_signed_at, _) => now <~ Now; Ret (snipe_retry_expired (bo_lane order) first_signed_at now)
  | None => Ret false
  end.

Definition entry_body (trader : string) (order : BuyOrder) : P unit :=
  adopted <-- adopt_existing_fill trader order;
  match adopted with
  | Some (sig, legs) => emit_entry_filled trader order sig (bo_token_account order) legs
  | None =>
      expired <-- retry_expired order;
      if expired then drop_entry_fatally trader order "snipe retry dropped: too long after the first buy"
      else
        migrated <-- cache_is_migrated (bo_mint order);
        if migrated
        then drop_entry_fatally trader order "skipped before send: token already migrated (curve-only snipe)"
        else
          do! RegisterWait trader (bo_mint order);
          run! send_and_confirm trader trader order;
          do! DropWait trader (bo_mint order);
          Ret tt
  end.

Definition entry_guarded (trader : string) (order : BuyOrder) : P unit :=
  claimed <~ TryBeginEntry (bo_pg_id order);
  if negb claimed then fail_with (bo_intent order) Reverted
  else run! entry_body trader order; do! DropEntry (bo_pg_id order); Ret tt.

Definition run_entry (order : BuyOrder) : P unit :=
  loaded <~ LoadedTrader (bo_wallet order);
  if loaded : bool then entry_guarded (bo_wallet order) order
  else if negb (bool_decide (bo_wallet order = ""%string)) && negb (bool_decide (bo_wallet order = primary))
  then fail_with (bo_intent order) Fatal
  else entry_guarded primary order.

(** ** A sell *)

(** The bag's holder, read again after a freeze. *)
Fixpoint settle_holder (n : nat) (order : SellOrder) : P SellOrder :=
  match n with
  | O => Ret order
  | S n =>
      p <~ ReadPosition (so_pg_id order);
      let order := match p with
                   | Some (wallet, account) =>
                       with_holder order
                         (if negb (bool_decide (wallet = ""%string)) && negb (bool_decide (wallet = "paper"%string))
                          then wallet else so_wallet order)
                         (if is_someb account then account else so_token_account order)
                   | None => order
                   end in
      frozen <~ IsFrozen (so_wallet order);
      if negb frozen then Ret order else do! WaitThaw (so_wallet order); settle_holder n order
  end.

(** [for_position]. *)
Definition for_position (recorded : string) : P (string * option string) :=
  if bool_decide (recorded = ""%string) || bool_decide (recorded = "paper"%string) then Ret (primary, Some primary)
  else loaded <~ LoadedTrader recorded; Ret (recorded, if loaded : bool then Some recorded else None).

Definition exit_still_current (order : SellOrder) : P bool :=
  id <~ EngineId (so_pg_id order);
  match id with
  | None => Ret false
  | Some id =>
      m <~ GetMeta id;
      Ret (is_some_and m (fun m => bool_decide (pm_inflight_intent m = Some (so_intent order))))
  end.

(** Legs that cover the order. *)
Definition cleared (order : SellOrder) (legs : option SigLegs) : option SigLegs :=
  l ← legs;
  if so_token_amount order <=? sat_add u64_max (sl_token_amount l) PARTIAL_FILL_THRESHOLD then Some l else None.

Definition confirm_sell (wallet : string) (order : SellOrder) (sell_sigs : list string) (since : Ts) (window : Duration)
    : P (option SigLegs) :=
  match sell_sigs with
  | [] => Ret None
  | _ =>
      await_own_legs wallet (so_mint order) window SELL_LEGS_QUERY_EVERY
        (l <~ SumObservedLegs sell_sigs; Ret (cleared order l))
        (r <~ SumSellLegs wallet (so_mint order) sell_sigs since; Ret (cleared order (res_flat r)))
  end.

(** The send of a sell, and the signature that is this exit's: the one it returned, or the
    one its failed send left on the trader.  A send that succeeds always returns its signature
    ([execute_sell] in [trader/sell.rs], [amm_sell_inner] in [trader/amm.rs]: their one [Ok] is
    [Ok(Some(sig))]), so the [Ok(None)] of the type is no outcome. *)
Definition submit_one_sell (trader : string) (order : SellOrder) (attempt : Z) (is_migrated cashback : bool)
    : P (bool * option string) :=
  reserves <-- (if is_migrated then Ret None else reserves_from_cache (so_mint order));
  sg <~ SignSell trader {|
    ss_amm := is_migrated; ss_mint := so_mint order; ss_amount := so_token_amount order;
    ss_creator := if is_migrated then None else so_creator order;
    ss_program := unwrap_or (so_token_program_id order) ""%string; ss_cashback := cashback;
    ss_account := so_token_account order; ss_slippage_bps := so_slippage_bps order; ss_tip_level := attempt;
    ss_reserves := reserves |};
  match sg with
  | SignedAs sig =>
      do! NoteSignedSell trader (so_mint order) sig;
      r <~ SendSell trader sig;
      match r with
      | inl _ => do! ClearSignedSell trader (so_mint order) sig; Ret (false, Some sig)
      | inr _ => s <~ TakeSignedSell trader (so_mint order); Ret (true, s)
      end
  | _ => s <~ TakeSignedSell trader (so_mint order); Ret (true, s)
  end.

(** An exit's failure names every sell it sent. *)
Definition exit_failed (trader : string) (order : SellOrder) (sell_sigs : list string) (reason : FillFailReason) : P unit :=
  run! match sell_sigs with
       | [] => Ret tt
       | _ =>
           token_account <-- known_account trader (so_mint order) (so_token_account order);
           do! PutFillSigs (so_intent order)
                 {| fs_sigs := sell_sigs; fs_token_account := token_account; fs_slot := None; fs_print := None |};
           Ret tt
       end;
  fail_with (so_intent order) reason.

Fixpoint landed_of (sigs : list string) : P (list string) :=
  match sigs with
  | [] => Ret []
  | sig :: rest =>
      o <~ ObservedLegs sig;
      l <-- landed_of rest;
      Ret (if is_someb o then sig :: l else l)
  end.

Definition has_other_open_position (wallet mint : string) (exclude : Uuid) : P bool :=
  r <~ HasOtherOpen wallet mint exclude; Ret (match r with inl other => other | inr _ => true end).

Definition finish_cleared_sell (trader : string) (order : SellOrder) (sell_sigs : list string) (legs : SigLegs) : P unit :=
  token_account <-- known_account trader (so_mint order) (so_token_account order);
  landed <-- landed_of sell_sigs;
  now <~ Now;
  run! audit_persisted trader (so_mint order) landed (now - PERSIST_AUDIT_LOOKBACK) true;
  do! PutFillSigs (so_intent order)
        {| fs_sigs := sell_sigs; fs_token_account := token_account; fs_slot := sl_last_slot legs; fs_print := None |};
  reclaims <-- (if so_empties_bag order
                then other <-- has_other_open_position trader (so_mint order) (so_pg_id order); Ret (negb other)
                else Ret false);
  let sol := booked_wallet_sol legs false in
  do! SendReport (RepConfirmed (so_intent order)
        {| fl_price := price_per_token legs; fl_sol := if reclaims : bool then sol ⊖ close_account_fee_sol else sol;
           fl_token_amount := sl_token_amount legs; fl_at := sl_last_block_time legs |});
  if reclaims then do! Spawn (BgReclaim trader (so_mint order) (so_token_account order)); Ret tt else Ret tt.

(** What a classified revert does to the next attempt: the order, the cashback flag and the
    route, or the end of the exit. *)
Definition heal_revert (trader : string) (order : SellOrder) (cashback route_migrated : bool) (d : SwapRetryDecision)
    : P (option (SellOrder * bool * bool)) :=
  match d with
  | StopFeeBurn => Ret None
  | RefreshCreator =>
      r <-- recheck_curve_creator trader (so_mint order) (so_creator order);
      Ret (match r with
           | CreatorChanged creator => Some (with_creator order creator, cashback, route_migrated)
           | _ => None
           end)
  | RefreshCoinCreator =>
      r <~ RefreshAmmPool trader (so_mint order) (unwrap_or (so_token_program_id order) ""%string);
      Ret (match r with inl true => Some (order, cashback, route_migrated) | _ => None end)
  | RefreshCashback =>
      r <~ RefreshCurveFacts trader (so_mint order);
      match r with
      | inl enabled => do! SetCashback (so_mint order) enabled; Ret (Some (order, enabled, route_migrated))
      | inr _ => Ret None
      end
  | RerouteMigrated =>
      do! SetMigrated (so_mint order);
      do! Spawn (BgMarkMigrated (so_mint order));
      Ret (Some (order, cashback, true))
  | RetrySwap => Ret (Some (order, cashback, route_migrated))
  end.

(** A sell the chain may still show: wait for its legs, heal them once when it is known to
    have landed, and never send another. *)
Definition wait_confirm (trader : string) (order : SellOrder) (sell_sigs : list string) (started : Ts)
    (state : Res SigStatus) : P unit :=
  let too_late := exit_failed trader order sell_sigs Unconfirmed in
  c <-- confirm_sell trader order sell_sigs started SELL_UNCONFIRMED_EXTENDED;
  match c with
  | Some legs => finish_cleared_sell trader order sell_sigs legs
  | None =>
      match state with
      | inl Succeeded =>
          n <~ HealSellLegs trader (so_mint order) sell_sigs started;
          if 0 <? n then
            c <-- confirm_sell trader order sell_sigs started 0;
            match c with
            | Some legs => finish_cleared_sell trader order sell_sigs legs
            | None => too_late
            end
          else too_late
      | _ => too_late
      end
  end.

(** The attempts of one exit.  [cache_is_migrated] of a token that more the cache keeps what
    this attempt assumed. *)
Fixpoint exit_attempts (more : nat) (trader : string) (order : SellOrder) (started : Ts) (sell_sigs : list string)
    (cashback route_migrated : bool) : P unit :=
  match more with
  | O => exit_failed trader order sell_sigs (match sell_sigs with [] => Reverted | _ => Unconfirmed end)
  | S more =>
      let attempt := Z.of_nat (SELL_ATTEMPTS - S more) in
      is_migrated <-- (if route_migrated then Ret true else cache_is_migrated (so_mint order));
      do! TakeSignedSell trader (so_mint order);
      sent <-- submit_one_sell trader order attempt is_migrated cashback;
      let '(send_failed, sig) := sent in
      let sell_sigs := sell_sigs ++ option_list sig in
      run! match sig with Some sig => do! Spawn (BgAppendExitSig (so_pg_id order) sig); Ret tt | None => Ret tt end;
      c <-- confirm_sell trader order sell_sigs started SELL_CONFIRM_WINDOW;
      match c, sig with
      | Some legs, _ => finish_cleared_sell trader order sell_sigs legs
      | None, None => exit_attempts more trader order started sell_sigs cashback route_migrated
      | None, Some sig =>
          now_migrated <-- (if route_migrated then Ret true
                            else m <~ CacheMigrated (so_mint order); Ret (unwrap_or m is_migrated));
          burned <-- (if send_failed then b <~ BurnNonce trader sig; Ret (match b with Nonce.Dead => true | _ => false end) else Ret false);
          state <~ SigState trader sig;
          if burned && match state with inl Pending => true | _ => false end
          then exit_attempts more trader order started sell_sigs cashback route_migrated
          else
            run! (if is_reverted state
                  then run! note_reverted_fee (so_pg_id order)
                         (if is_migrated then COMPUTE_UNIT_LIMIT_AMM else COMPUTE_UNIT_LIMIT_CURVE_SELL); Ret tt
                  else Ret tt);
            match classify_sell_confirm state is_migrated now_migrated with
            | WaitConfirm => wait_confirm trader order sell_sigs started state
            | Reclassify d =>
                next <-- heal_revert trader order cashback route_migrated d;
                match next with
                | None => exit_failed trader order sell_sigs Fatal
                | Some (order, cashback, route_migrated) =>
                    exit_attempts more trader order started sell_sigs cashback route_migrated
                end
            end
      end
  end.

Definition durable_migrated (mint : string) : P bool :=
  cached <-- cache_is_migrated mint;
  if cached then Ret true else r <~ DurableMigrated mint; Ret (match r with inl m => m | inr _ => false end).

Definition exit_body (trader : string) (order : SellOrder) : P unit :=
  do! ReleaseSol trader (so_pg_id order);
  if so_token_amount order =? 0 then
    now <~ Now;
    do! SendReport (RepConfirmed (so_intent order)
          {| fl_price := f_zero; fl_sol := f_zero; fl_token_amount := 0; fl_at := now |});
    Ret tt
  else
    do! RegisterWait trader (so_mint order);
    started <~ Now;
    migrated <-- durable_migrated (so_mint order);
    run! exit_attempts SELL_ATTEMPTS trader order started [] (so_cashback_enabled order) migrated;
    do! DropWait trader (so_mint order);
    Ret tt.

(** The mint's lock: at once, or behind the exit that holds it. *)
Definition with_exit_mint (key : string) (order : SellOrder) (body : P unit) : P unit :=
  free <~ TryBeginExitMint key (so_pg_id order);
  if (free : bool) then run! body; do! DropExitMint key; Ret tt
  else
    do! QueueExitMint key (so_pg_id order);
    got <~ AwaitExitMint key (so_pg_id order) EXIT_MINT_WAIT;
    if negb got then fail_with (so_intent order) Reverted
    else
      current <-- exit_still_current order;
      run! (if current then body else Ret tt);
      do! DropExitMint key;
      Ret tt.

Definition exit_guarded (wallet trader : string) (order : SellOrder) : P unit :=
  claimed <~ TryBeginExit (so_pg_id order);
  if negb claimed then Ret tt
  else
    run! with_exit_mint (InFlight.exit_lock_key wallet (so_mint order)) order (exit_body trader order);
    do! DropExit (so_pg_id order);
    Ret tt.

Definition run_exit (order : SellOrder) : P unit :=
  order <-- settle_holder 2 order;
  holder <-- for_position (so_wallet order);
  let '(wallet, trader) := holder in
  match trader with
  | None => fail_with (so_intent order) Reverted
  | Some trader => exit_guarded wallet trader order
  end.

(** ** What a task leaves running *)

(** The write-ahead row of a signed buy: tried again while the row is not there yet.  The
    whole is cut off after 400 ms, which only ends it earlier. *)
Fixpoint mark_buy_submitted (n : nat) (pg : Uuid) (sig : string) : P unit :=
  match n with
  | O => Ret tt
  | S n =>
      r <~ MarkBuySubmitted pg sig;
      match r with
      | inl false => if (n =? 0)%nat then Ret tt else do! Sleep (dur_millis 25); mark_buy_submitted n pg sig
      | _ => Ret tt
      end
  end.

Definition audit_task (trader mint : string) (sigs : list string) (since : Ts) (heal : bool) : P unit :=
  do! Sleep PERSIST_AUDIT_DELAY;
  r <~ SignaturesWithLegs mint sigs since;
  match r with
  | inr _ => Ret tt
  | inl present =>
      let missing := List.filter (fun s => bool_decide (s ∉ present)) sigs in
      match missing with
      | [] => Ret tt
      | _ => if heal then do! HealSellLegs trader mint missing since; Ret tt else Ret tt
      end
  end.

Fixpoint reclaim_close (delays : list Duration) (trader mint : string) (account : option string) : P unit :=
  match delays with
  | [] => Ret tt
  | d :: delays =>
      do! Sleep d;
      r <~ CloseTokenAccount trader mint account;
      match r with inl _ => Ret tt | inr _ => reclaim_close delays trader mint account end
  end.

Definition background (b : Background) : P unit :=
  match b with
  | BgMarkBuySubmitted pg sig => mark_buy_submitted 8 pg sig
  | BgAppendExitSig pg sig => do! AppendExitSig pg sig; Ret tt
  | BgMarkMigrated mint => do! UpdateMigrationStatus mint; Ret tt
  | BgAudit trader mint sigs since heal => audit_task trader mint sigs since heal
  | BgReclaim trader mint account => reclaim_close RECLAIM_CLOSE_DELAYS trader mint account
  end.
End exec.
