(* ===== verification/ExecFacts.v ===== *)
(** * ExecFacts: what the live tasks' requests leave in their history

    The signatures signed, the reports made and the proofs seen along a history; the
    requests that touch none of them ([plain]) and the steps of [RealExec] made of those; and
    the specifications of its larger steps, shared by the theorems of [ExecProps]. *)

From S2P Require Export RealExec.
From S2P Require Import Float64 Events Kernel Executor Live.
#[local] Open Scope Z_scope.

Import Retry.

Abbreviation Hist := (list (Done Call)) (only parsing).

(** ** What a history holds *)

Definition buy_signature (d : Done Call) : option string :=
  match d with
  | did c b => (match c in Call B return B -> option string with
                | SignBuy _ _ => fun b => match b with SignedAs sig => Some sig | _ => None end
                | _ => fun _ => None
                end) b
  end.

Definition sell_signature (d : Done Call) : option string :=
  match d with
  | did c b => (match c in Call B return B -> option string with
                | SignSell _ _ => fun b => match b with SignedAs sig => Some sig | _ => None end
                | _ => fun _ => None
                end) b
  end.

Definition report_of (d : Done Call) : option Report :=
  match d with
  | did c b => (match c in Call B return B -> option Report with SendReport r => fun _ => Some r | _ => fun _ => None end) b
  end.

Definition signed_buys (h : Hist) : list string := omap buy_signature h.
Definition signed_sells (h : Hist) : list string := omap sell_signature h.
Definition reports (h : Hist) : list Report := omap report_of h.

Lemma report_made (h : Hist) i f : RepConfirmed i f ∈ reports h ->
  exists later u old, h = later ++ did (SendReport (RepConfirmed i f)) u :: old.
Proof.
  unfold reports. intros (d & Hd & Hr)%list_elem_of_omap. apply list_elem_of_split in Hd as (l1 & l2 & ->).
  destruct d as [B c b]. destruct c; try done. cbn in Hr. injection Hr as ->. by exists l1, b, l2.
Qed.

(** The status of [sig] was read, and was this. *)
Definition status_seen (f : Res SigStatus -> bool) (sig : string) (d : Done Call) : bool :=
  match d with
  | did c b => (match c in Call B return B -> bool with
                | SigState _ s => fun b => bool_decide (s = sig) && f b
                | _ => fun _ => false
                end) b
  end.

(** The nonce of [sig] was seen to have moved on. *)
Definition nonce_gone (sig : string) (d : Done Call) : bool :=
  match d with
  | did c b => (match c in Call B return B -> bool with
                | BurnNonce _ s => fun b => bool_decide (s = sig) && match b with Nonce.Dead => true | _ => false end
                | _ => fun _ => false
                end) b
  end.

Definition is_pending (s : Res SigStatus) : bool := match s with inl Pending => true | _ => false end.

Definition reverted (h : Hist) (sig : string) : bool := existsb (status_seen is_reverted sig) h.

(** Its nonce had moved on, and only then the chain was asked and had not seen it. *)
Fixpoint unexecutable (h : Hist) (sig : string) : bool :=
  match h with
  | [] => false
  | d :: h => (status_seen is_pending sig d && existsb (nonce_gone sig) h) || unexecutable h sig
  end.

(** It can no longer execute: it reverted, or never will run. *)
Definition harmless (h : Hist) (sig : string) : bool := reverted h sig || unexecutable h sig.

(** Every signature of one side, [signed_buys] or [signed_sells]. *)
Definition all_harmless (side : Hist -> list string) (h : Hist) : Prop := forall sig, sig ∈ side h -> harmless h sig = true.

(** ** How it grows *)

Lemma signed_buys_app h1 h2 : signed_buys (h1 ++ h2) = signed_buys h1 ++ signed_buys h2.
Proof. apply omap_app. Qed.
Lemma signed_sells_app h1 h2 : signed_sells (h1 ++ h2) = signed_sells h1 ++ signed_sells h2.
Proof. apply omap_app. Qed.
Lemma sent_reports_app h1 h2 : reports (h1 ++ h2) = reports h1 ++ reports h2.
Proof. apply omap_app. Qed.

Lemma harmless_app h1 h2 sig : harmless h2 sig = true -> harmless (h1 ++ h2) sig = true.
Proof.
  unfold harmless, reverted. rewrite !orb_true_iff, existsb_app, orb_true_iff. intros [H|H]; [by left; right|right].
  induction h1 as [|d h1 IH]; [done|]. cbn. by rewrite IH, orb_true_r.
Qed.

(** ** Requests that sign, report and keep nothing *)

Definition plain B (c : Call B) : bool :=
  match c with
  | SignBuy _ _ | SignSell _ _ | SendBuy _ _ | SendSell _ _ | SendReport _ | PutFillSigs _ _ | JournalAppend _ _ _
  | NoteSignedSell _ _ _ | ClearSignedSell _ _ _ | TakeSignedSell _ _ => false
  | _ => true
  end.

(** The history after some plain requests. *)
Definition grown (h h' : Hist) : Prop := exists new, h' = new ++ h /\ Forall (is_kind plain) new.

Lemma plain_nothing new : Forall (is_kind plain) new ->
  signed_buys new = [] /\ signed_sells new = [] /\ reports new = [].
Proof.
  induction 1 as [|[B c b] new Hd _ (E1 & E2 & E3)]; [done|]. cbn in Hd |- *.
  unfold signed_buys, signed_sells, reports in *. cbn. rewrite E1, E2, E3. by destruct c.
Qed.

Lemma grown_refl h : grown h h.
Proof. by exists []. Qed.

Lemma grown_step h h' {B} (c : Call B) b : plain B c = true -> grown h h' -> grown h (did c b :: h').
Proof. intros Hc (new & -> & Hn). exists (did c b :: new). split; [done|]. by constructor. Qed.

Lemma grown_trans h1 h2 h3 : grown h1 h2 -> grown h2 h3 -> grown h1 h3.
Proof.
  intros (n1 & -> & H1) (n2 & -> & H2). exists (n2 ++ n1). rewrite <- app_assoc. split; [done|]. by apply Forall_app.
Qed.

Lemma grown_signed h h' : grown h h' ->
  signed_buys h' = signed_buys h /\ signed_sells h' = signed_sells h /\ reports h' = reports h.
Proof.
  intros (new & -> & Hn). destruct (plain_nothing new Hn) as (E1 & E2 & E3).
  by rewrite signed_buys_app, signed_sells_app, sent_reports_app, E1, E2, E3.
Qed.

Lemma grown_harmless h h' sig : grown h h' -> harmless h sig = true -> harmless h' sig = true.
Proof. intros (new & -> & _). apply harmless_app. Qed.

Lemma grown_all_harmless side h h' : side = signed_buys \/ side = signed_sells ->
  grown h h' -> all_harmless side h -> all_harmless side h'.
Proof.
  intros Hside Hg Ha sig. destruct (grown_signed h h' Hg) as (E1 & E2 & _).
  replace (side h') with (side h) by (destruct Hside; by subst). intros Hs. by apply (grown_harmless h), Ha.
Qed.

(** One more signature, itself harmless. *)
Lemma all_harmless_cons side sig new h : side (new ++ h) = sig :: side h ->
  all_harmless side h -> harmless (new ++ h) sig = true -> all_harmless side (new ++ h).
Proof.
  intros E Ha Hs s Hin. rewrite E in Hin. apply elem_of_cons in Hin as [-> |Hin]; [done|]. by apply harmless_app, Ha.
Qed.

Lemma reverted_harmless h sig : reverted h sig = true -> harmless h sig = true.
Proof. unfold harmless. by intros ->. Qed.

#[export] Hint Resolve grown_refl grown_trans : exec.

(** Walks a program of plain requests. *)
Ltac plain_step :=
  match goal with
  | |- only _ (Ret _) => exact I
  | |- only _ (Do _ _) => split; [reflexivity|intros ?]
  | |- only _ (seq_prog _ _) => apply only_seq; [|intros ?]
  | |- only _ (match ?x with _ => _ end) => destruct x
  | |- only _ (let '(_, _) := ?x in _) => destruct x
  | |- only _ _ => solve [eauto with exec]
  end.
Ltac plain := repeat (progress (cbv zeta) || plain_step).

Section plain_steps.
Context (tuning : FeeTuning) (primary : string) (parse_pubkey : string -> option string).

Lemma plain_migrated mint : only plain (cache_is_migrated mint).
Proof. unfold cache_is_migrated. plain. Qed.

Lemma plain_note_loop n pg cause : only plain (note_entry_error_loop n pg cause).
Proof. induction n; cbn [note_entry_error_loop]; plain. Qed.

Lemma plain_fee_loop n pg fee : only plain (note_reverted_fee_loop n pg fee).
Proof. induction n; cbn [note_reverted_fee_loop]; plain. Qed.

Lemma plain_note order cause : only plain (note_entry_error order cause).
Proof. apply plain_note_loop. Qed.

Lemma plain_fee pg cu : only plain (note_reverted_fee tuning pg cu).
Proof. unfold note_reverted_fee. cbv zeta. apply only_seq; [apply plain_fee_loop|intros ?; exact I]. Qed.

Lemma plain_recheck trader mint used : only plain (recheck_curve_creator parse_pubkey trader mint used).
Proof. unfold recheck_curve_creator. plain. Qed.

Lemma plain_await_passes n w m deadline every next seen preview query :
  only plain preview -> only plain query -> only plain (await_passes n w m deadline every next seen preview query).
Proof. intros Hp Hq. revert next seen. induction n; intros next seen; cbn [await_passes]; plain. Qed.

Lemma plain_await w m window every preview query :
  only plain preview -> only plain query -> only plain (await_own_legs w m window every preview query).
Proof. intros. unfold await_own_legs. plain. by apply plain_await_passes. Qed.

Lemma plain_poll w m sig since window : only plain (poll_feed_buy w m sig since window).
Proof. apply plain_await; plain. Qed.

Lemma plain_audit trader mint sigs since heal : only plain (audit_persisted trader mint sigs since heal).
Proof. unfold audit_persisted. plain. Qed.

Lemma plain_reserves mint : only plain (reserves_from_cache mint).
Proof. unfold reserves_from_cache. plain. Qed.

Lemma plain_adopt_from w m first sigs : only plain (adopt_from w m first sigs).
Proof. induction sigs; cbn [adopt_from]; plain. Qed.

Lemma plain_adopt w order : only plain (adopt_existing_fill w order).
Proof. unfold adopt_existing_fill. plain. apply plain_adopt_from. Qed.

Lemma plain_known trader mint known : only plain (known_account trader mint known).
Proof. unfold known_account. destruct known; cbn; by repeat split. Qed.

Lemma plain_charge order : only plain (charge_reverted_buy tuning order).
Proof. unfold charge_reverted_buy. apply only_seq; [apply plain_fee|intros ?]. plain. Qed.

Lemma plain_sibling trader w m pg : only plain (resolve_sibling_account trader w m pg).
Proof. unfold resolve_sibling_account. plain. Qed.

Lemma plain_reuse trader w order : only plain (reuse_account parse_pubkey trader w order).
Proof. unfold reuse_account. destruct (bo_token_account order); [done|]. apply only_seq; [apply plain_sibling|done]. Qed.

Lemma plain_retry_expired order : only plain (retry_expired order).
Proof. unfold retry_expired. plain. Qed.

Lemma plain_settle_silent trader w order sig status : only plain (settle_silent parse_pubkey trader w order sig status).
Proof.
  unfold settle_silent. destruct (classify_silent_send status); try done.
  - apply only_seq; [apply plain_recheck|done].
  - apply only_seq; [apply plain_poll|done].
Qed.

Lemma plain_holder n order : only plain (settle_holder n order).
Proof. revert order. induction n; intros order; cbn [settle_holder]; plain. Qed.

Lemma plain_for_position recorded : only plain (for_position primary recorded).
Proof. unfold for_position. plain. Qed.

Lemma plain_current order : only plain (exit_still_current order).
Proof. unfold exit_still_current. plain. Qed.

Lemma plain_confirm_sell w order sigs since window : only plain (confirm_sell w order sigs since window).
Proof. unfold confirm_sell. destruct sigs; [done|]. apply plain_await; plain. Qed.

Lemma plain_landed sigs : only plain (landed_of sigs).
Proof. induction sigs; cbn [landed_of]; plain. Qed.

Lemma plain_other w m pg : only plain (has_other_open_position w m pg).
Proof. unfold has_other_open_position. plain. Qed.

Lemma plain_heal trader order cashback route d : only plain (heal_revert parse_pubkey trader order cashback route d).
Proof.
  unfold heal_revert. destruct d; try done; plain. apply plain_recheck.
Qed.

Lemma plain_durable mint : only plain (durable_migrated mint).
Proof. unfold durable_migrated. apply only_seq; [apply plain_migrated|intros ?]. plain. Qed.
End plain_steps.

#[export] Hint Resolve plain_migrated plain_note_loop plain_fee_loop plain_note plain_fee plain_recheck plain_poll
  plain_audit plain_reserves plain_adopt plain_known plain_charge plain_sibling plain_reuse plain_retry_expired
  plain_settle_silent plain_holder plain_for_position plain_current plain_confirm_sell plain_landed plain_other
  plain_heal plain_durable : exec.

(** ** Plain steps inside a larger program *)

Definition lets_plain (ok : Policy Call) : Prop := forall B h (c : Call B), plain B c = true -> ok _ h c.

Lemma plain_keeps B (st : LiveState) (c : Call B) b :
  plain B c = true -> lv_signed_sells (live_after st c b) = lv_signed_sells st.
Proof. intros Hc. destruct c; try done; cbn. by destruct b. Qed.

Lemma obeys_plain {A} ok (p : Prog Call A) h st : lets_plain ok -> only plain p ->
  obeys ok p h st (fun _ h' st' => grown h h' /\ lv_signed_sells st' = lv_signed_sells st).
Proof. intros Hok Hp. apply (obeys_only plain ok lv_signed_sells); [done|intros; by apply plain_keeps|done]. Qed.

Lemma plain_then {A B} ok (p : Prog Call A) (f : A -> Prog Call B) h st R : lets_plain ok -> only plain p ->
  (forall a h' st', grown h h' -> lv_signed_sells st' = lv_signed_sells st -> obeys ok (f a) h' st' R) ->
  obeys ok (seq_prog p f) h st R.
Proof. intros Hok Hp Hf. eapply obeys_then; [by apply obeys_plain|]. intros a h' st' [Hg Hs]. by apply Hf. Qed.

(** With what the step can answer. *)
Lemma plain_then_value {A B} ok (P : A -> Prop) (p : Prog Call A) (f : A -> Prog Call B) h st R :
  lets_plain ok -> only plain p -> returns P p ->
  (forall a h' st', P a -> grown h h' -> lv_signed_sells st' = lv_signed_sells st -> obeys ok (f a) h' st' R) ->
  obeys ok (seq_prog p f) h st R.
Proof.
  intros Hok Hp Hr Hf. eapply obeys_then; [apply obeys_returns, obeys_plain; done|].
  intros a h' st' (HP & Hg & Hs). by apply Hf.
Qed.

Lemma plain_do {A B} ok (c : Call B) (k : B -> Prog Call A) h st R : lets_plain ok -> plain B c = true ->
  (forall b, live_may st c b -> obeys ok (k b) (did c b :: h) (live_after st c b) R) -> obeys ok (Do c k) h st R.
Proof. intros Hok Hc Hk. split; [by apply Hok|done]. Qed.

(** ** The policies *)

(** A transaction is signed, and an order is reported safe to try again, only when nothing
    signed before on that side can still execute. *)
Definition sends_once (side : Hist -> list string) : Policy Call := fun B h c =>
  match c with
  | SignBuy _ _ | SignSell _ _ | SendReport (RepFailed _ Reverted _) => all_harmless side h
  | _ => True
  end.

Definition journaled (sig : string) (d : Done Call) : bool :=
  match d with
  | did c b => (match c in Call B return B -> bool with
                | JournalAppend _ s _ => fun _ => bool_decide (s = sig)
                | _ => fun _ => false
                end) b
  end.

(** The task that marks the row was started with this signature; nobody waits for its write,
    which may land after the send or fail. *)
Definition row_mark_started (sig : string) (d : Done Call) : bool :=
  match d with
  | did c b => (match c in Call B return B -> bool with
                | Spawn (BgMarkBuySubmitted _ s) => fun _ => bool_decide (s = sig)
                | _ => fun _ => false
                end) b
  end.

Definition kept_for_burn (sig : string) (d : Done Call) : bool :=
  match d with
  | did c b => (match c in Call B return B -> bool with
                | NoteSignedSell _ _ s => fun _ => bool_decide (s = sig)
                | _ => fun _ => false
                end) b
  end.

(** Nothing leaves the process before its signature is on record. *)
Definition writes_ahead : Policy Call := fun B h c =>
  match c with
  | SendBuy _ sig => existsb (journaled sig) h = true /\ existsb (row_mark_started sig) h = true
  | SendSell _ sig => existsb (kept_for_burn sig) h = true
  | _ => True
  end.

(** What a confirmed order moved, and the signatures its fill names. *)
Definition puts (intent : IntentId) (sig : string) (d : Done Call) : bool :=
  match d with
  | did c b => (match c in Call B return B -> bool with
                | PutFillSigs i f => fun _ => bool_decide (i = intent) && contains (fs_sigs f) sig
                | _ => fun _ => false
                end) b
  end.

(** A buy is confirmed with tokens in hand. *)
Definition confirms_buys : Policy Call := fun B h c =>
  match c with
  | SendReport (RepConfirmed intent f) => 0 < fl_token_amount f
  | _ => True
  end.

(** A sell is confirmed for the whole order; its report, good or bad, comes after every
    signature it made was left for the sink. *)
Definition accounts_sells (amount : Z) : Policy Call := fun B h c =>
  match c with
  | SendReport (RepConfirmed intent f) =>
      amount <= fl_token_amount f /\ forall sig, sig ∈ signed_sells h -> existsb (puts intent sig) h = true
  | SendReport (RepFailed intent _ _) => forall sig, sig ∈ signed_sells h -> existsb (puts intent sig) h = true
  | _ => True
  end.

Definition buys_safely : Policy Call := fun B h c =>
  (sends_once signed_buys B h c /\ writes_ahead B h c) /\ confirms_buys B h c.

Definition sells_safely (amount : Z) : Policy Call := fun B h c =>
  (sends_once signed_sells B h c /\ writes_ahead B h c) /\ accounts_sells amount B h c.

Lemma buys_plain : lets_plain buys_safely.
Proof. intros B h c Hc. by destruct c. Qed.

Lemma sells_plain amount : lets_plain (sells_safely amount).
Proof. intros B h c Hc. by destruct c. Qed.

#[export] Hint Resolve buys_plain sells_plain : exec.

(** ** How a task ends *)

(** No report since [h0]. *)
Definition quiet_since (h0 h : Hist) : Prop := exists new, h = new ++ h0 /\ reports new = [].

(** At most one report since [h0]; a retry is asked for only when [calm] holds; no report at
    all only when [silent] holds of what was done. *)
Definition ended (silent calm : Hist -> Prop) (h0 h : Hist) : Prop :=
  exists new, h = new ++ h0 /\
    match reports new with
    | [] => silent new
    | [RepFailed _ Reverted _] => calm h
    | [_] => True
    | _ => False
    end.

Definition steady (silent : Hist -> Prop) : Prop :=
  forall new more, Forall (is_kind plain) more -> silent new -> silent (more ++ new).

(** Plain requests and reports leave it. *)
Definition stays (calm : Hist -> Prop) : Prop :=
  (forall h h', grown h h' -> calm h -> calm h') /\ (forall h r u, calm h -> calm (did (SendReport r) u :: h)).

Lemma quiet_refl h : quiet_since h h.
Proof. by exists []. Qed.

Lemma quiet_grown h0 h h' : quiet_since h0 h -> grown h h' -> quiet_since h0 h'.
Proof.
  intros (n & -> & Hn) (m & -> & Hm). exists (m ++ n). rewrite <- app_assoc, sent_reports_app, Hn.
  by destruct (plain_nothing m Hm) as (_ & _ & ->).
Qed.

Lemma quiet_do h0 h {B} (c : Call B) b : report_of (did c b) = None -> quiet_since h0 h -> quiet_since h0 (did c b :: h).
Proof. intros Hc (n & -> & Hn). exists (did c b :: n). split; [done|]. unfold reports in *. cbn in *. by rewrite Hc. Qed.

Lemma all_harmless_stays side : side = signed_buys \/ side = signed_sells -> stays (all_harmless side).
Proof.
  intros Hside. split; [intros h h' Hg Ha; by apply (grown_all_harmless side h)|]. intros h r u Ha sig Hs.
  change (did (SendReport r) u :: h) with ([did (SendReport r) u] ++ h). apply harmless_app, Ha.
  by destruct Hside; subst side.
Qed.

#[export] Hint Resolve quiet_refl quiet_grown : exec.

Section ends.
Context (silent calm : Hist -> Prop) (Hsilent : steady silent) (Hcalm : stays calm).

Lemma ended_grown h0 h h' : ended silent calm h0 h -> grown h h' -> ended silent calm h0 h'.
Proof.
  intros (n & -> & Hn) Hg. pose proof Hg as (m & -> & Hm). exists (m ++ n). split; [by rewrite app_assoc|].
  rewrite sent_reports_app. destruct (plain_nothing m Hm) as (_ & _ & ->). cbn.
  destruct (reports n) as [|[i f|i reason t] [|]]; [by apply Hsilent|done|done| |done].
  destruct reason; try done. by eapply (proj1 Hcalm).
Qed.

Lemma ended_step h0 h {B} (c : Call B) b : plain B c = true -> ended silent calm h0 h -> ended silent calm h0 (did c b :: h).
Proof. intros Hc He. apply (ended_grown h0 h); [done|]. apply grown_step; [done|apply grown_refl]. Qed.

(** Reporting ends a quiet stretch. *)
Lemma report_ends (ok : Policy Call) h0 h st r :
  ok _ h (SendReport r) -> quiet_since h0 h ->
  (forall i t, r = RepFailed i Reverted t -> calm h) ->
  obeys ok (Do (SendReport r) (fun _ => Ret tt)) h st (fun _ h' st' => ended silent calm h0 h').
Proof.
  intros Hok (n & -> & Hn) Hr. split; [done|]. intros u _. exists (did (SendReport r) u :: n). split; [done|].
  unfold reports. cbn. fold (reports n). rewrite Hn. destruct r as [i f|i [] t]; try done.
  apply (proj2 Hcalm). by eapply Hr.
Qed.

Lemma fail_ends (ok : Policy Call) h0 h st intent reason : lets_plain ok ->
  (forall h' t, grown h h' -> ok _ h' (SendReport (RepFailed intent reason t))) ->
  quiet_since h0 h -> (reason = Reverted -> calm h) ->
  obeys ok (fail_with intent reason) h st (fun _ h' st' => ended silent calm h0 h').
Proof.
  intros Hplain Hok Hq Hr. unfold fail_with. apply plain_do; [done|done|]. intros now _.
  assert (Hg : grown h (did Now now :: h)) by (apply grown_step; [done|apply grown_refl]).
  apply report_ends; [by apply Hok|by eapply quiet_grown|].
  intros i t Ei. injection Ei as _ -> _. apply (proj1 Hcalm h); auto.
Qed.
End ends.

(** ** What a poll can answer *)

Lemma returns_await_passes (P : SigLegs -> Prop) n w m deadline every next seen preview query :
  returns (fun o => forall l, o = Some l -> P l) preview -> returns (fun o => forall l, o = Some l -> P l) query ->
  returns (fun o => forall l, o = Some l -> P l) (await_passes n w m deadline every next seen preview query).
Proof.
  intros Hp Hq. revert next seen. induction n as [|n IH]; intros next seen; cbn [await_passes];
    (eapply returns_seq; [exact Hp|]); intros [l|] Hl; [by intros ? [= <-]; apply Hl| |by intros ? [= <-]; apply Hl|].
  all: intros now; cbv zeta.
  all: destruct (_ || _); [intros seq; destruct (bool_decide _)|].
  all: try (eapply returns_seq; [exact Hq|]; intros [l|] Hl'; [by intros ? [= <-]; apply Hl'|]).
  all: try intros now'.
  all: destruct (deadline <=? now); try done; intros u; try done; apply IH.
Qed.

Lemma returns_await (P : SigLegs -> Prop) w m window every preview query :
  returns (fun o => forall l, o = Some l -> P l) preview -> returns (fun o => forall l, o = Some l -> P l) query ->
  returns (fun o => forall l, o = Some l -> P l) (await_own_legs w m window every preview query).
Proof. intros Hp Hq now now' n. by apply returns_await_passes. Qed.

Lemma filled_pos o l : filled o = Some l -> 0 < sl_token_amount l.
Proof.
  unfold filled. destruct o as [x|]; [|done]. cbn [mbind option_bind]. unfold PARTIAL_FILL_THRESHOLD.
  destruct (0 <? sl_token_amount x) eqn:E; [|done]. intros [= <-]. lia.
Qed.

Lemma cleared_covers order o l : cleared order o = Some l -> so_token_amount order <= sl_token_amount l.
Proof.
  unfold cleared. destruct o as [x|]; [|done]. cbn [mbind option_bind].
  destruct (so_token_amount order <=? _) eqn:E; [|done]. intros [= <-]. apply Z.leb_le in E.
  unfold sat_add, PARTIAL_FILL_THRESHOLD in E. lia.
Qed.

Lemma returns_poll w m sig since window :
  returns (fun o => forall l, o = Some l -> 0 < sl_token_amount l) (poll_feed_buy w m sig since window).
Proof. apply returns_await; intros o; intros l; apply filled_pos. Qed.

Lemma returns_adopt_from w m first sigs :
  returns (fun o => forall s l, o = Some (s, l) -> 0 < sl_token_amount l) (adopt_from w m first sigs).
Proof.
  induction sigs as [|sig sigs IH]; cbn [adopt_from]; [done|]. intros o. destruct (filled o) eqn:E.
  - intros s' l' [= <- <-]. by eapply filled_pos.
  - intros r. destruct (filled (res_flat r)) eqn:E'; [|done]. intros s' l' [= <- <-]. by eapply filled_pos.
Qed.

Lemma returns_adopt w order :
  returns (fun o => forall s l, o = Some (s, l) -> 0 < sl_token_amount l) (adopt_existing_fill w order).
Proof. intros [[first sigs]|]; [apply returns_adopt_from|done]. Qed.

Lemma returns_confirm_sell w order sigs since window :
  returns (fun o => forall l, o = Some l -> so_token_amount order <= sl_token_amount l) (confirm_sell w order sigs since window).
Proof. unfold confirm_sell. destruct sigs; [done|]. apply returns_await; intros o; intros l; apply cleared_covers. Qed.

(** A heal keeps the order's size and mint. *)
Lemma heal_keeps parse_pubkey trader order cashback route d :
  returns (fun next => forall o c r, next = Some (o, c, r) ->
             so_token_amount o = so_token_amount order /\ so_mint o = so_mint order)
    (heal_revert parse_pubkey trader order cashback route d).
Proof.
  unfold heal_revert. destruct d.
  - by intros o c r [= <- _ _].
  - done.
  - eapply (returns_seq (fun _ => True)); [|by intros [] _ o c r [= <- _ _]].
    unfold recheck_curve_creator. intros [chain|]; [|done]. cbv zeta. destruct (creator_recheck_verdict _ _); try done.
    by destruct (is_someb _).
  - intros [[]|] o c r; [by intros [= <- _ _]|done..].
  - intros [e|]; [|done]. intros [] o c r. by intros [= <- _ _].
  - intros [] [] o c r. by intros [= <- _ _].
Qed.
