(* ===== verification/ExecProps.v ===== *)
(** * ExecProps: what the live executor guarantees *)

From S2P Require Import Float64 Events Kernel Executor Live RealExec ExecFacts.
#[local] Open Scope Z_scope.

Import Retry.

(** ** Buys *)

Section entry.
Context (tuning : FeeTuning) (primary : string) (parse_pubkey : string -> option string).

Abbreviation ok := buys_safely (only parsing).

(** A buy task that reports nothing left a signature for the reaper. *)
Definition left_a_buy (new : Hist) : Prop := signed_buys new <> [].

Lemma left_a_buy_steady : steady left_a_buy.
Proof.
  intros new more Hm Hs. unfold left_a_buy. rewrite signed_buys_app. by destruct (plain_nothing more Hm) as (-> & _).
Qed.

Lemma buy_fails h0 h st intent reason :
  quiet_since h0 h -> (reason = Reverted -> all_harmless signed_buys h) ->
  obeys ok (fail_with intent reason) h st (fun _ h' _ => ended left_a_buy (all_harmless signed_buys) h0 h').
Proof.
  intros Hq Hr. apply fail_ends; [by apply all_harmless_stays; left|auto with exec| |done|done].
  intros h' t Hg. split; [|done]. split; [|done]. destruct reason; try done.
  apply (grown_all_harmless signed_buys h); [by left|done|auto].
Qed.

Lemma note_then_fail h0 h st order cause reason :
  quiet_since h0 h -> (reason = Reverted -> all_harmless signed_buys h) ->
  obeys ok (seq_prog (note_entry_error order cause) (fun _ => fail_with (bo_intent order) reason)) h st
    (fun _ h' _ => ended left_a_buy (all_harmless signed_buys) h0 h').
Proof.
  intros Hq Hr. apply plain_then; [auto with exec..|]. intros _ h' st' Hg _. apply buy_fails; [eauto with exec|].
  intros E. apply (grown_all_harmless signed_buys h); [by left|done|auto].
Qed.

Lemma filled_ends h0 h st trader order sig account legs :
  quiet_since h0 h -> 0 < sl_token_amount legs ->
  obeys ok (emit_entry_filled trader order sig account legs) h st (fun _ h' _ => ended left_a_buy (all_harmless signed_buys) h0 h').
Proof.
  intros Hq Hpos. unfold emit_entry_filled. apply plain_then; [auto with exec..|]. intros acc h1 st1 Hg1 _.
  apply plain_do; [auto with exec|done|]. intros u _. apply plain_then; [auto with exec..|]. intros u2 h2 st2 Hg2 _.
  split; [by split|]. intros u3 _. apply report_ends; [by apply all_harmless_stays; left|by repeat split| |done].
  apply quiet_do; [done|]. eapply quiet_grown; [|exact Hg2]. apply quiet_do; [done|]. eauto with exec.
Qed.

Lemma early_look_spec h st trader wallet order sig window early :
  obeys ok (early_look trader wallet order sig window early) h st (fun e h' _ => grown h h' /\
    match e with
    | inl (Some s) => is_reverted s = true /\ reverted h' sig = true
    | inl None => True
    | inr legs => 0 < sl_token_amount legs
    end).
Proof.
  unfold early_look. destruct (early <? window); [|by split; [apply grown_refl|]].
  apply plain_do; [auto with exec|done|]. intros status _.
  assert (Hg : grown h (did (SigState trader sig) status :: h)) by (apply grown_step; [done|apply grown_refl]).
  destruct (is_reverted status) eqn:E.
  - split; [done|]. split; [done|]. unfold reverted. cbn. by rewrite bool_decide_eq_true_2, E.
  - eapply plain_then_value; [auto with exec..|apply returns_poll|]. intros p h' st' Hp Hg' _.
    destruct p; (split; [by eapply grown_trans|]); [by apply Hp|done].
Qed.

Lemma settle_silent_spec h st trader wallet order sig status :
  obeys ok (settle_silent parse_pubkey trader wallet order sig status) h st (fun out h' _ => grown h h' /\
    match out with
    | OutRetry _ => is_reverted status = true
    | OutFilled legs => 0 < sl_token_amount legs
    | _ => True
    end).
Proof.
  unfold settle_silent. destruct (classify_silent_send status) eqn:E.
  - split; [apply grown_refl|]. by destruct status as [[]|].
  - apply plain_then; [auto with exec..|]. intros r h' st' Hg _. split; [done|].
    destruct r; [|done..]. by destruct status as [[]|].
  - eapply plain_then_value; [auto with exec..|apply returns_poll|]. intros p h' st' Hp Hg _. split; [done|].
    destruct p; [by apply Hp|done].
  - split; [apply grown_refl|]. by destruct status as [[]|].
Qed.

(** A confirmation asks for a retry only after the chain showed the revert. *)
Lemma confirm_entry_spec h st trader wallet order sig window :
  obeys ok (confirm_entry tuning parse_pubkey trader wallet order sig window) h st (fun out h' _ => grown h h' /\
    match out with
    | OutRetry _ => reverted h' sig = true
    | OutFilled legs => 0 < sl_token_amount legs
    | _ => True
    end).
Proof.
  unfold confirm_entry. cbv zeta. eapply plain_then_value; [auto with exec..|apply returns_poll|]. intros p h1 st1 Hp Hg1 _.
  destruct p; [by split; [|apply Hp]|]. eapply obeys_then; [apply early_look_spec|]. intros e h2 st2 [Hg2 He].
  pose proof (grown_trans _ _ _ Hg1 Hg2) as Hg. destruct e as [early|legs]; [|by split].
  apply plain_then; [auto with exec..|]. intros m h3 st3 Hg3 _. pose proof (grown_trans _ _ _ Hg Hg3) as Hg'.
  destruct m; [by split|].
  assert (Hst : obeys ok (early_status trader sig early) h3 st3 (fun s h' _ => grown h h' /\
                  (is_reverted s = true -> reverted h' sig = true))).
  { destruct early as [s|]; cbn.
    - split; [done|]. intros _. destruct Hg3 as (n & -> & _). destruct He as [_ He]. unfold reverted in *.
      by rewrite existsb_app, He, orb_true_r.
    - split; [by split|]. intros s _. split; [by apply grown_step|]. intros E. unfold reverted. cbn.
      by rewrite bool_decide_eq_true_2, E. }
  eapply obeys_then; [exact Hst|]. clear Hst. intros s h4 st4 [Hg4 Hs].
  apply plain_then; [auto with exec| |].
  { destruct (is_reverted s); [auto with exec|done]. }
  intros u h5 st5 Hg5 _. eapply obeys_mono; [apply settle_silent_spec|]. intros out h6 st6 [Hg6 Ho].
  split; [eauto using grown_trans|]. destruct out; [exact Ho| |exact I..]. apply Hs in Ho.
  destruct (grown_trans _ _ _ Hg5 Hg6) as (n & -> & _). unfold reverted in *. by rewrite existsb_app, Ho, orb_true_r.
Qed.

(** The part after the network is involved. *)
Lemma outcome_ends h0 h st trader order sig account outcome err :
  quiet_since h0 h -> signed_buys h <> signed_buys h0 ->
  (match outcome with
   | OutRetry _ => all_harmless signed_buys h
   | OutFilled legs => 0 < sl_token_amount legs
   | _ => True
   end) ->
  obeys ok (emit_entry_outcome trader order sig account outcome err) h st
    (fun _ h' _ => ended left_a_buy (all_harmless signed_buys) h0 h').
Proof.
  intros Hq Hnew Ho. destruct outcome; cbn [emit_entry_outcome].
  - by apply filled_ends.
  - by apply note_then_fail.
  - apply plain_then; [auto with exec..|]. intros u h1 st1 Hg1 _. apply plain_do; [auto with exec|done|]. intros u2 _.
    apply buy_fails; [|done]. apply quiet_do; [done|eauto with exec].
  - assert (He : forall h' : Hist, grown h h' -> ended left_a_buy (all_harmless signed_buys) h0 h').
    { intros h' Hg. pose proof (quiet_grown _ _ _ Hq Hg) as (n & -> & Hn). exists n. split; [done|]. rewrite Hn.
      unfold left_a_buy. intros E. apply Hnew. destruct (grown_signed _ _ Hg) as (E' & _).
      rewrite <- E', signed_buys_app, E. done. }
    destruct err; [|exact (He h (grown_refl h))].
    eapply obeys_mono; [apply obeys_plain; auto with exec|]. intros u h' st' [Hg _]. by apply He.
Qed.

Lemma send_ends h0 h st trader wallet order :
  quiet_since h0 h -> signed_buys h = signed_buys h0 -> all_harmless signed_buys h ->
  obeys ok (send_and_confirm tuning parse_pubkey trader wallet order) h st
    (fun _ h' _ => ended left_a_buy (all_harmless signed_buys) h0 h').
Proof.
  intros Hq Hs0 Ha. unfold send_and_confirm. apply plain_then; [auto with exec..|]. intros r h1 st1 Hg1 _.
  apply plain_do; [auto with exec|done|]. intros sigs _. apply plain_then; [auto with exec..|]. intros acc h2 st2 Hg2 _.
  assert (Hg : grown h h2).
  { eapply grown_trans; [|exact Hg2]. by apply grown_step. }
  assert (Ha2 : all_harmless signed_buys h2) by (apply (grown_all_harmless _ h); [by left|done..]).
  split; [by repeat split|]. intros sg _. destruct sg as [sig|e|].
  - apply plain_do; [auto with exec|done|]. intros now _. split; [by repeat split|]. intros u _.
    apply plain_do; [auto with exec|done|]. intros u2 _. split.
    { repeat split; cbn; by rewrite !bool_decide_eq_true_2. }
    intros res _. eapply obeys_then; [apply confirm_entry_spec|]. intros out h3 st3 [Hg3 Ho].
    destruct Hg3 as (n & -> & Hn).
    match goal with |- context[n ++ ?a :: ?b :: ?c :: ?d :: ?e :: h2] =>
      replace (n ++ a :: b :: c :: d :: e :: h2) with ((n ++ [a; b; c; d; e]) ++ h2) by (by rewrite <- app_assoc);
      set (mid := n ++ [a; b; c; d; e]) end.
    assert (Em : signed_buys mid = [sig]).
    { unfold mid. rewrite signed_buys_app. by destruct (plain_nothing n Hn) as (-> & _). }
    assert (Er : reports mid = []).
    { unfold mid. rewrite sent_reports_app. by destruct (plain_nothing n Hn) as (_ & _ & ->). }
    assert (Es : signed_buys (mid ++ h2) = sig :: signed_buys h2) by (by rewrite signed_buys_app, Em).
    apply outcome_ends.
    + destruct (quiet_grown _ _ _ Hq Hg) as (m & -> & Hm). exists (mid ++ m). by rewrite <- app_assoc, sent_reports_app, Er, Hm.
    + rewrite Es. destruct (grown_signed _ _ Hg) as (E2 & _). rewrite E2, Hs0. intros E.
      apply (f_equal length) in E. cbn in E. lia.
    + destruct out; [exact Ho| |exact I..]. apply (all_harmless_cons signed_buys sig); [done..|]. apply reverted_harmless.
      unfold mid. rewrite <- app_assoc. exact Ho.
  - apply note_then_fail; [|intros _].
    + apply quiet_do; [done|eauto with exec].
    + change (did ?c (SignFailed e) :: h2) with ([did c (SignFailed e)] ++ h2). intros s Hin. apply harmless_app, Ha2, Hin.
  - apply note_then_fail; [|intros _].
    + apply quiet_do; [done|eauto with exec].
    + change (did ?c SignTimedOut :: h2) with ([did c SignTimedOut] ++ h2). intros s Hin. apply harmless_app, Ha2, Hin.
Qed.

Lemma entry_body_ends h0 h st trader order :
  quiet_since h0 h -> signed_buys h = signed_buys h0 -> all_harmless signed_buys h ->
  obeys ok (entry_body tuning parse_pubkey trader order) h st (fun _ h' _ => ended left_a_buy (all_harmless signed_buys) h0 h').
Proof.
  intros Hq Hs Ha. unfold entry_body. eapply plain_then_value; [auto with exec..|apply returns_adopt|]. intros adopted h1 st1 Hpos Hg1 _.
  destruct adopted as [[sig legs]|]; [apply filled_ends; [eauto with exec|by eapply Hpos]|].
  apply plain_then; [auto with exec..|]. intros expired h2 st2 Hg2 _.
  assert (Hdrop : forall h' st' cause, grown h h' ->
    obeys ok (drop_entry_fatally trader order cause) h' st' (fun _ h' _ => ended left_a_buy (all_harmless signed_buys) h0 h')).
  { intros h' st' cause Hg. apply plain_do; [auto with exec|done|]. intros u _. apply note_then_fail; [|done].
    apply quiet_do; [done|eauto with exec]. }
  pose proof (grown_trans _ _ _ Hg1 Hg2) as Hg. destruct expired; [by apply Hdrop|].
  apply plain_then; [auto with exec..|]. intros m h3 st3 Hg3 _. pose proof (grown_trans _ _ _ Hg Hg3) as Hg'.
  destruct m; [by apply Hdrop|]. apply plain_do; [auto with exec|done|]. intros u _.
  assert (Hg4 : grown h (did (RegisterWait trader (bo_mint order)) u :: h3)) by by apply grown_step.
  eapply obeys_then.
  - apply (send_ends h0); [eauto with exec| |].
    + destruct (grown_signed _ _ Hg4) as (-> & _). exact Hs.
    + by apply (grown_all_harmless _ h); [left|..].
  - intros u2 h5 st5 He. apply plain_do; [auto with exec|done|]. intros u3 _.
    apply ended_step; [apply left_a_buy_steady|by apply all_harmless_stays; left|done|done].
Qed.

Lemma entry_guarded_ends h0 h st trader order :
  quiet_since h0 h -> signed_buys h = signed_buys h0 -> all_harmless signed_buys h ->
  obeys ok (entry_guarded tuning parse_pubkey trader order) h st (fun _ h' _ => ended left_a_buy (all_harmless signed_buys) h0 h').
Proof.
  intros Hq Hs Ha. unfold entry_guarded. apply plain_do; [auto with exec|done|]. intros claimed _.
  assert (Hg : grown h (did (TryBeginEntry (bo_pg_id order)) claimed :: h)) by (apply grown_step; [done|apply grown_refl]).
  assert (Ha' : all_harmless signed_buys (did (TryBeginEntry (bo_pg_id order)) claimed :: h))
    by (by apply (grown_all_harmless _ h); [left|..]).
  destruct (negb claimed); [apply buy_fails; [eauto with exec|done]|].
  eapply obeys_then; [apply (entry_body_ends h0); [eauto with exec|done|done]|].
  intros u h1 st1 He. apply plain_do; [auto with exec|done|]. intros u2 _.
  apply ended_step; [apply left_a_buy_steady|by apply all_harmless_stays; left|done|done].
Qed.

(** One buy task, started when nothing signed for the position can execute. *)
Lemma run_entry_ends h st order : all_harmless signed_buys h ->
  obeys ok (run_entry tuning primary parse_pubkey order) h st (fun _ h' _ => ended left_a_buy (all_harmless signed_buys) h h').
Proof.
  intros Ha. unfold run_entry. apply plain_do; [auto with exec|done|]. intros t _.
  assert (Hg : grown h (did (LoadedTrader (bo_wallet order)) t :: h)) by (apply grown_step; [done|apply grown_refl]).
  assert (Ha' : all_harmless signed_buys (did (LoadedTrader (bo_wallet order)) t :: h))
    by (by apply (grown_all_harmless _ h); [left|..]).
  destruct t; [by apply entry_guarded_ends; [eauto with exec|..]|].
  destruct (_ && _); [by apply buy_fails; [eauto with exec|]|].
  by apply entry_guarded_ends; [eauto with exec|..].
Qed.
End entry.

(** ** Sells *)

Section exit.
Context (tuning : FeeTuning) (primary : string) (parse_pubkey : string -> option string).

(** A sell task that reports nothing signed nothing. *)
Definition sold_nothing (new : Hist) : Prop := signed_sells new = [].

Lemma sold_nothing_steady : steady sold_nothing.
Proof.
  intros new more Hm Hs. unfold sold_nothing in *. rewrite signed_sells_app. by destruct (plain_nothing more Hm) as (_ & -> & _).
Qed.

(** A sell is tried again only while the position never sold. *)
Definition unsold (h : Hist) : Prop := signed_sells h = [].

Lemma unsold_stays : stays unsold.
Proof.
  split; [|done]. intros h h' Hg. unfold unsold. by destruct (grown_signed _ _ Hg) as (_ & -> & _).
Qed.

Lemma unsold_harmless h : unsold h -> all_harmless signed_sells h.
Proof. intros E sig Hs. rewrite E in Hs. by apply not_elem_of_nil in Hs. Qed.

Lemma puts_grown h h' intent sig : grown h h' -> existsb (puts intent sig) h = true -> existsb (puts intent sig) h' = true.
Proof. intros (n & -> & _) E. by rewrite existsb_app, E, orb_true_r. Qed.

(** The signatures are left for the sink, and then the report is made. *)
Lemma put_covers h (order : SellOrder) f u h' sig : sig ∈ fs_sigs f ->
  grown (did (PutFillSigs (so_intent order) f) u :: h) h' -> existsb (puts (so_intent order) sig) h' = true.
Proof.
  intros Hin Hg. eapply puts_grown; [exact Hg|]. cbn. rewrite bool_decide_eq_true_2 by done.
  by rewrite (proj2 (contains_spec _ _) Hin).
Qed.

Lemma sell_fails h0 h st trader order sigs reason :
  quiet_since h0 h -> (forall sig, sig ∈ signed_sells h -> sig ∈ sigs) ->
  (reason = Reverted -> unsold h) ->
  obeys (sells_safely (so_token_amount order)) (exit_failed trader order sigs reason) h st
    (fun _ h' _ => ended sold_nothing unsold h0 h').
Proof.
  intros Hq Hin Hr. unfold exit_failed. destruct sigs as [|s sigs].
  - apply fail_ends; [apply unsold_stays|auto with exec| |done|done]. intros h' t Hg.
    destruct (grown_signed _ _ Hg) as (_ & E & _). split; [split; [|done]|].
    + destruct reason; try done. apply unsold_harmless. unfold unsold. rewrite E. by apply Hr.
    + intros sig Hs. rewrite E in Hs. apply Hin in Hs. by apply not_elem_of_nil in Hs.
  - apply obeys_seq. apply plain_then; [auto with exec..|]. intros acc h1 st1 Hg1 _.
    split; [by repeat split|]. intros u _. cbn [obeys].
    set (f := {| fs_sigs := s :: sigs; fs_token_account := acc; fs_slot := None; fs_print := None |}).
    assert (Ha : reason = Reverted -> unsold (did (PutFillSigs (so_intent order) f) u :: h1)).
    { intros E. unfold unsold. cbn. destruct (grown_signed _ _ Hg1) as (_ & E1 & _). unfold signed_sells in E1.
      rewrite E1. by apply Hr. }
    apply fail_ends; [apply unsold_stays|auto with exec| | |done].
    + intros h' t Hg. destruct (grown_signed _ _ Hg) as (_ & E & _). destruct (grown_signed _ _ Hg1) as (_ & E1 & _).
      split; [split; [|done]|].
      * destruct reason; try done. apply unsold_harmless. unfold unsold. rewrite E. by apply Ha.
      * intros sig Hs. apply (put_covers h1 order f u); [|done]. apply Hin. rewrite E in Hs. cbn in Hs.
        by rewrite <- E1.
    + apply quiet_do; [done|eauto with exec].
Qed.

Lemma finish_ends h0 h st trader order sigs legs :
  quiet_since h0 h -> (forall sig, sig ∈ signed_sells h -> sig ∈ sigs) ->
  so_token_amount order <= sl_token_amount legs ->
  obeys (sells_safely (so_token_amount order)) (finish_cleared_sell trader order sigs legs) h st
    (fun _ h' _ => ended sold_nothing unsold h0 h').
Proof.
  intros Hq Hin Hcov. unfold finish_cleared_sell.
  apply plain_then; [auto with exec..|]. intros acc h1 st1 Hg1 _. apply plain_then; [auto with exec..|]. intros landed h2 st2 Hg2 _.
  apply plain_do; [auto with exec|done|]. intros now _. apply plain_then; [auto with exec..|]. intros u h3 st3 Hg3 _.
  split; [by repeat split|]. intros u2 _. cbv zeta.
  set (f := {| fs_sigs := sigs; fs_token_account := acc; fs_slot := sl_last_slot legs; fs_print := None |}).
  apply plain_then; [auto with exec| |].
  { destruct (so_empties_bag order); [|done]. apply only_seq; [auto with exec|done]. }
  intros reclaims h4 st4 Hg4 _.
  assert (Hg : grown h h3).
  { eapply grown_trans; [eapply grown_trans; [exact Hg1|exact Hg2]|]. eapply grown_trans; [|exact Hg3].
    apply grown_step; [done|apply grown_refl]. }
  assert (Hq3 : quiet_since h0 (did (PutFillSigs (so_intent order) f) u2 :: h3)) by (apply quiet_do; [done|eauto with exec]).
  set (r := RepConfirmed _ _).
  change (Do (SendReport r) ?k) with (seq_prog (Do (SendReport r) (fun _ : unit => Ret tt)) k).
  eapply obeys_then; [apply (report_ends sold_nothing unsold unsold_stays _ h0)|].
  - split; [by split|]. split; [done|]. intros sig Hs. apply (put_covers h3 order f u2); [|done]. apply Hin.
    destruct (grown_signed _ _ Hg4) as (_ & E4 & _). destruct (grown_signed _ _ Hg) as (_ & E & _).
    rewrite E4 in Hs. cbn in Hs. by rewrite <- E.
  - eauto with exec.
  - done.
  - intros u3 h5 st5 He. destruct reclaims; [|done]. apply plain_do; [auto with exec|done|]. intros u4 _.
    apply ended_step; [apply sold_nothing_steady|apply unsold_stays|done|done].
Qed.

Lemma submit_spec amount h st trader order attempt migrated cashback :
  lv_signed_sells st !! (trader, so_mint order) = None -> all_harmless signed_sells h ->
  obeys (sells_safely amount) (submit_one_sell trader order attempt migrated cashback) h st (fun sent h' _ =>
    exists new, h' = new ++ h /\ reports new = [] /\ signed_sells new = option_list sent.2).
Proof.
  intros Hnone Ha. unfold submit_one_sell. apply plain_then; [auto with exec|destruct migrated; [done|auto with exec]|].
  intros reserves h1 st1 Hg1 Hs1. pose proof Hg1 as (n & -> & Hn). destruct (plain_nothing n Hn) as (_ & E1 & E2).
  split; [split; [split|]; [|done..]|].
  { by apply (grown_all_harmless signed_sells h); [right|..]. }
  intros sg _. destruct sg as [sig|e|].
  - split; [by repeat split|]. intros u _. split; [repeat split; cbn; by rewrite bool_decide_eq_true_2|]. intros r _.
    destruct r as [[]|e].
    + split; [by repeat split|]. intros u2 _. cbn [obeys].
      match goal with |- exists new, ?a :: ?b :: ?c :: ?d :: n ++ h = _ /\ _ => exists ([a; b; c; d] ++ n) end.
      split; [done|]. rewrite sent_reports_app, signed_sells_app, E1, E2. by split.
    + split; [by repeat split|]. intros s Hs. cbn in Hs. rewrite lookup_insert_eq in Hs. subst s. cbn [obeys].
      match goal with |- exists new, ?a :: ?b :: ?c :: ?d :: n ++ h = _ /\ _ => exists ([a; b; c; d] ++ n) end.
      split; [done|]. rewrite sent_reports_app, signed_sells_app, E1, E2. by split.
  - split; [by repeat split|]. intros s Hs. cbn in Hs. rewrite Hs1, Hnone in Hs. subst s. cbn [obeys].
    match goal with |- exists new, ?a :: ?b :: n ++ h = _ /\ _ => exists ([a; b] ++ n) end.
    split; [done|]. rewrite sent_reports_app, signed_sells_app, E1, E2. by split.
  - split; [by repeat split|]. intros s Hs. cbn in Hs. rewrite Hs1, Hnone in Hs. subst s. cbn [obeys].
    match goal with |- exists new, ?a :: ?b :: n ++ h = _ /\ _ => exists ([a; b] ++ n) end.
    split; [done|]. rewrite sent_reports_app, signed_sells_app, E1, E2. by split.
Qed.

(** Waiting on a sell never sends another. *)
Lemma wait_confirm_ends h0 h st trader order sigs started state :
  quiet_since h0 h -> (forall sig, sig ∈ signed_sells h -> sig ∈ sigs) ->
  obeys (sells_safely (so_token_amount order)) (wait_confirm trader order sigs started state) h st
    (fun _ h' _ => ended sold_nothing unsold h0 h').
Proof.
  intros Hq Hin. unfold wait_confirm. cbv zeta.
  eapply plain_then_value; [auto with exec..|apply returns_confirm_sell|]. intros c h1 st1 Hc Hg1 _.
  assert (Hin' : forall h', grown h h' -> forall sig, sig ∈ signed_sells h' -> sig ∈ sigs).
  { intros h' Hg. destruct (grown_signed _ _ Hg) as (_ & -> & _). exact Hin. }
  assert (Hup : forall h' st', grown h h' -> obeys (sells_safely (so_token_amount order))
                  (exit_failed trader order sigs Unconfirmed) h' st' (fun _ h' _ => ended sold_nothing unsold h0 h')).
  { intros h' st' Hg. apply sell_fails; [eauto with exec|by apply Hin'|done]. }
  destruct c as [legs|]; [apply finish_ends; [eauto with exec|by apply Hin'|by apply Hc]|].
  destruct state as [[]|]; try (by apply Hup). apply plain_do; [auto with exec|done|]. intros n _.
  set (h2 := did _ n :: h1). assert (Hg2 : grown h h2) by by apply grown_step.
  destruct (0 <? n); [|by apply Hup]. eapply plain_then_value; [auto with exec..|apply returns_confirm_sell|].
  intros c h3 st3 Hc' Hg3 _. pose proof (grown_trans _ _ _ Hg2 Hg3) as Hg.
  destruct c as [legs|]; [apply finish_ends; [eauto with exec|by apply Hin'|by apply Hc']|by apply Hup].
Qed.

(** The attempts of an exit, started with every sell signed so far harmless. *)
Lemma exit_attempts_ends amount more : forall h0 h st trader order started sigs cashback route,
  so_token_amount order = amount -> quiet_since h0 h -> all_harmless signed_sells h ->
  (forall sig, sig ∈ signed_sells h -> sig ∈ sigs) ->
  obeys (sells_safely amount) (exit_attempts tuning parse_pubkey more trader order started sigs cashback route) h st
    (fun _ h' _ => ended sold_nothing unsold h0 h').
Proof.
  induction more as [|more IH]; intros h0 h st trader order started sigs cashback route <- Hq Ha Hin;
    cbn [exit_attempts]; cbv zeta.
  - apply sell_fails; [done..|]. destruct sigs as [|s sigs]; [|done]. intros _. unfold unsold.
    destruct (signed_sells h) as [|s l]; [done|]. exfalso. by apply (not_elem_of_nil s), Hin; left.
  - apply plain_then; [auto with exec|destruct route; [done|auto with exec]|]. intros mig h1 st1 Hg1 _.
    split; [by repeat split|]. intros taken _.
    set (h2 := did _ taken :: h1).
    assert (Ha2 : all_harmless signed_sells h2).
    { change h2 with ([did (TakeSignedSell trader (so_mint order)) taken] ++ h1). intros s Hs. apply harmless_app.
      by apply (grown_all_harmless signed_sells h); [right|..]. }
    eapply obeys_then; [apply submit_spec; [by cbn; rewrite lookup_delete_eq|exact Ha2]|].
    intros [failed sig] h3 st3 (new & -> & Hrep & Hsig). cbn [snd] in Hsig.
    set (sigs' := sigs ++ option_list sig).
    assert (Hq3 : quiet_since h0 (new ++ h2)).
    { destruct (quiet_do h0 h1 (TakeSignedSell trader (so_mint order)) taken eq_refl) as (m & Em & Hm); [eauto with exec|].
      exists (new ++ m). unfold h2. rewrite Em, <- app_assoc, sent_reports_app, Hrep. done. }
    assert (Es : signed_sells (new ++ h2) = option_list sig ++ signed_sells h).
    { rewrite signed_sells_app, Hsig. by destruct (grown_signed _ _ Hg1) as (_ & <- & _). }
    assert (Hin3 : forall h', grown (new ++ h2) h' -> forall s, s ∈ signed_sells h' -> s ∈ sigs').
    { intros h' Hg s. destruct (grown_signed _ _ Hg) as (_ & -> & _). rewrite Es, elem_of_app. unfold sigs'.
      intros [Hs|Hs]; apply elem_of_app; [by right|left; by apply Hin]. }
    apply plain_then; [auto with exec|by destruct sig|]. intros u4 h4 st4 Hg4 _.
    eapply plain_then_value; [auto with exec..|apply returns_confirm_sell|]. intros c h5 st5 Hc Hg5 _.
    pose proof (grown_trans _ _ _ Hg4 Hg5) as Hg35.
    destruct c as [legs|]; [apply finish_ends; [eauto with exec|by apply Hin3|by apply Hc]|].
    (* what is needed to go round again *)
    assert (Hagain : forall h' st' o c r, grown (new ++ h2) h' ->
      (forall s, sig = Some s -> harmless h' s = true) -> so_token_amount o = so_token_amount order ->
      obeys (sells_safely (so_token_amount order)) (exit_attempts tuning parse_pubkey more trader o started sigs' c r) h' st'
        (fun _ h' _ => ended sold_nothing unsold h0 h')).
    { intros h' st' o c r Hg Hs Ho. apply IH; [done|eauto with exec| |by apply Hin3].
      intros s Hin'. destruct (grown_signed _ _ Hg) as (_ & E & _). rewrite E, Es in Hin'.
      apply elem_of_app in Hin' as [Hin'|Hin'].
      - destruct sig; [|by apply not_elem_of_nil in Hin']. apply list_elem_of_singleton in Hin' as ->. by apply Hs.
      - destruct Hg as (n & -> & _). rewrite app_assoc. apply harmless_app, Ha2. unfold h2.
        cbn. change (omap sell_signature h1) with (signed_sells h1).
        by destruct (grown_signed _ _ Hg1) as (_ & -> & _). }
    destruct sig as [sig|]; [|by apply Hagain].
    apply plain_then; [auto with exec| |].
    { destruct route; [done|]. split; [done|]. by intros m. }
    intros nm h6 st6 Hg6 _. pose proof (grown_trans _ _ _ Hg35 Hg6) as Hg36.
    eapply obeys_then.
    { instantiate (1 := fun burned h' _ => grown (new ++ h2) h' /\ (burned = true -> existsb (nonce_gone sig) h' = true)).
      destruct failed; [|by split]. apply plain_do; [auto with exec|done|]. intros b _. cbn [obeys].
      split; [by apply grown_step|]. intros Hb. cbn. rewrite bool_decide_eq_true_2 by done. by destruct b. }
    intros burned h7 st7 [Hg37 Hburn]. apply plain_do; [auto with exec|done|]. intros state _.
    set (h8 := did (SigState trader sig) state :: h7). assert (Hg8 : grown (new ++ h2) h8) by by apply grown_step.
    destruct (burned && _) eqn:Eb.
    + apply Hagain; [done| |done]. intros s [= <-]. apply andb_true_iff in Eb as [-> Ep].
      unfold harmless. apply orb_true_iff. right. cbn. rewrite Hburn by done. rewrite bool_decide_eq_true_2 by done.
      by destruct state as [[]|].
    + clear Eb. apply plain_then; [auto with exec| |].
      { destruct (is_reverted state); [|done]. apply only_seq; [auto with exec|done]. }
      intros u9 h9 st9 Hg9 _. pose proof (grown_trans _ _ _ Hg8 Hg9) as Hg39.
      destruct (classify_sell_confirm state mig nm) as [d|] eqn:Ec;
        [|by apply wait_confirm_ends; [eauto with exec|apply Hin3]].
      assert (Hrev : harmless h9 sig = true).
      { destruct Hg9 as (n & -> & _). apply harmless_app, reverted_harmless. unfold reverted. cbn.
        rewrite bool_decide_eq_true_2 by done. destruct state as [[| |]|]; try done. }
      eapply plain_then_value; [auto with exec..|apply heal_keeps|]. intros next h10 st10 Hnext Hg10 _.
      pose proof (grown_trans _ _ _ Hg39 Hg10) as Hg310.
      destruct next as [[[o c] r]|].
      * destruct (Hnext o c r eq_refl) as [Hamt _]. apply Hagain; [done| |done]. intros s [= <-].
        by apply (grown_harmless h9).
      * by apply sell_fails; [eauto with exec|apply Hin3|].
Qed.

Lemma exit_body_ends h0 h st trader order : quiet_since h0 h -> unsold h ->
  obeys (sells_safely (so_token_amount order)) (exit_body tuning parse_pubkey trader order) h st
    (fun _ h' _ => ended sold_nothing unsold h0 h').
Proof.
  intros Hq Hu. unfold exit_body. apply plain_do; [auto with exec|done|]. intros u _.
  destruct (so_token_amount order =? 0) eqn:E.
  - apply plain_do; [auto with exec|done|]. intros now _. apply Z.eqb_eq in E. rewrite E.
    apply report_ends; [apply unsold_stays| | |done].
    + split; [by split|]. split; [done|]. intros sig Hs. cbn in Hs. unfold unsold, signed_sells in Hu. rewrite Hu in Hs. by apply not_elem_of_nil in Hs.
    + repeat (apply quiet_do; [done|]). done.
  - apply plain_do; [auto with exec|done|]. intros u2 _. apply plain_do; [auto with exec|done|]. intros started _.
    apply plain_then; [auto with exec..|]. intros migrated h1 st1 Hg1 _.
    assert (Hg : grown h h1).
    { eapply grown_trans; [|exact Hg1]. repeat (apply grown_step; [done|]). apply grown_refl. }
    assert (Hu1 : unsold h1) by (by apply (proj1 unsold_stays h)).
    eapply obeys_then; [apply (exit_attempts_ends _ _ h0)|].
    + done.
    + eauto with exec.
    + by apply unsold_harmless.
    + intros sig Hs. rewrite Hu1 in Hs. by apply not_elem_of_nil in Hs.
    + intros u3 h2 st2 He. apply plain_do; [auto with exec|done|]. intros u4 _.
      apply ended_step; [apply sold_nothing_steady|apply unsold_stays|done|done].
Qed.

(** Nothing signed, nothing said. *)
Lemma nothing_ends h0 h : grown h0 h -> ended sold_nothing unsold h0 h.
Proof.
  intros (n & -> & Hn). exists n. split; [done|]. destruct (plain_nothing n Hn) as (_ & E & ->). exact E.
Qed.

Lemma plain_fails h0 h st amount intent : grown h0 h -> unsold h0 ->
  obeys (sells_safely amount) (fail_with intent Reverted) h st (fun _ h' _ => ended sold_nothing unsold h0 h').
Proof.
  intros Hg Hu. assert (Hu' : forall h', grown h0 h' -> unsold h') by (intros; by apply (proj1 unsold_stays h0)).
  apply fail_ends; [apply unsold_stays|auto with exec| | |by intros; apply Hu'].
  - intros h' t Hg'. pose proof (Hu' h' (grown_trans _ _ _ Hg Hg')) as E. split; [split; [|done]|].
    + by apply unsold_harmless.
    + intros sig Hs. rewrite E in Hs. by apply not_elem_of_nil in Hs.
  - destruct Hg as (n & -> & Hn). exists n. split; [done|]. by destruct (plain_nothing n Hn) as (_ & _ & ->).
Qed.

Lemma grown_quiet h0 h : grown h0 h -> quiet_since h0 h.
Proof. intros (n & -> & Hn). exists n. split; [done|]. by destruct (plain_nothing n Hn) as (_ & _ & ->). Qed.

Lemma with_exit_mint_ends h0 h st key trader order : grown h0 h -> unsold h0 ->
  obeys (sells_safely (so_token_amount order))
    (with_exit_mint key order (exit_body tuning parse_pubkey trader order)) h st
    (fun _ h' _ => ended sold_nothing unsold h0 h').
Proof.
  intros Hg Hu. assert (Hu' : forall h', grown h0 h' -> unsold h') by (intros; by apply (proj1 unsold_stays h0)).
  assert (Hbody : forall h' st', grown h0 h' -> obeys (sells_safely (so_token_amount order))
                    (exit_body tuning parse_pubkey trader order) h' st' (fun _ h' _ => ended sold_nothing unsold h0 h'))
    by (intros; apply exit_body_ends; [by apply grown_quiet|auto]).
  unfold with_exit_mint. apply plain_do; [auto with exec|done|]. intros free _.
  set (h1 := did _ free :: h). assert (Hg1 : grown h0 h1) by by apply grown_step.
  destruct free.
  - eapply obeys_then; [by apply Hbody|]. intros u h2 st2 He. apply plain_do; [auto with exec|done|]. intros u2 _.
    apply ended_step; [apply sold_nothing_steady|apply unsold_stays|done|done].
  - apply plain_do; [auto with exec|done|]. intros u _. apply plain_do; [auto with exec|done|]. intros got _.
    set (h2 := did _ got :: _). assert (Hg2 : grown h0 h2) by (by repeat apply grown_step).
    destruct (negb got); [by apply plain_fails|]. apply plain_then; [auto with exec..|]. intros current h3 st3 Hg3 _.
    pose proof (grown_trans _ _ _ Hg2 Hg3) as Hg4. eapply obeys_then.
    + instantiate (1 := fun _ h' _ => ended sold_nothing unsold h0 h').
      destruct current; [by apply Hbody|by apply nothing_ends].
    + intros u5 h5 st5 He. apply plain_do; [auto with exec|done|]. intros u6 _.
      apply ended_step; [apply sold_nothing_steady|apply unsold_stays|done|done].
Qed.

Lemma holder_keeps n order : returns (fun o => so_token_amount o = so_token_amount order) (settle_holder n order).
Proof.
  revert order. induction n as [|n IH]; intros order; cbn [settle_holder]; [done|]. intros p. cbv zeta. intros frozen.
  destruct p as [[w a]|]; (destruct (negb frozen); [done|intros u]); [exact (IH (with_holder order _ _))|exact (IH order)].
Qed.

(** One sell task of a position that never sold. *)
Lemma run_exit_ends h st order : unsold h ->
  obeys (sells_safely (so_token_amount order)) (run_exit tuning primary parse_pubkey order) h st
    (fun _ h' _ => ended sold_nothing unsold h h').
Proof.
  intros Hu. unfold run_exit.
  eapply plain_then_value; [auto with exec..|apply holder_keeps|]. intros o h1 st1 <- Hg1 _.
  apply plain_then; [auto with exec..|]. intros [wallet trader] h2 st2 Hg2 _. pose proof (grown_trans _ _ _ Hg1 Hg2) as Hg.
  destruct trader as [trader|]; [|by apply plain_fails].
  unfold exit_guarded. apply plain_do; [auto with exec|done|]. intros claimed _.
  set (h3 := did _ claimed :: h2). assert (Hg3 : grown h h3) by by apply grown_step.
  destruct (negb claimed); [by apply nothing_ends|].
  eapply obeys_then; [by apply with_exit_mint_ends|]. intros u h4 st4 He. apply plain_do; [auto with exec|done|]. intros u2 _.
  apply ended_step; [apply sold_nothing_steady|apply unsold_stays|done|done].
Qed.
End exit.

(** ** The life of a position *)

Section lives.
Context (tuning : FeeTuning) (primary : string) (parse_pubkey : string -> option string).

(** The fold submits a buy or a sell again when the report of the last try asks for it
    ([FillProps.failed_sell_outcome]). *)
Definition asks_again (new : Hist) : bool := match reports new with RepFailed _ Reverted _ :: _ => true | _ => false end.

(** The tries of one position's buy, each against a world of its own, whatever the shared
    state has become in between; the flag says whether another may follow. *)
Inductive buy_tries : Hist -> bool -> Prop :=
  | BuyFirst : buy_tries [] true
  | BuyAgain h order o st new st' :
      buy_tries h true -> honest o ->
      run o (run_entry tuning primary parse_pubkey order) h st = (tt, new ++ h, st') ->
      buy_tries (new ++ h) (asks_again new).

Inductive sell_tries : Hist -> bool -> Prop :=
  | SellFirst : sell_tries [] true
  | SellAgain h order o st new st' :
      sell_tries h true -> honest o ->
      run o (run_exit tuning primary parse_pubkey order) h st = (tt, new ++ h, st') ->
      sell_tries (new ++ h) (asks_again new).

Lemma ended_asks silent calm h new : ended silent calm h (new ++ h) -> asks_again new = true -> calm (new ++ h).
Proof.
  intros (n & E & Hn). apply app_inv_tail in E as <-. unfold asks_again.
  destruct (reports new) as [|[i f|i [] t] [|]]; done.
Qed.

Lemma buy_tries_lawful h again : buy_tries h again ->
  lawful buys_safely h /\ (again = true -> all_harmless signed_buys h).
Proof.
  induction 1 as [|h order o st new st' Hb [IHl IHa] Ho Hrun]; [split; [done|intros _ s Hs; by destruct (not_elem_of_nil s Hs)]|].
  destruct (run_obeys buys_safely _ o h st _ Ho IHl (run_entry_ends tuning primary parse_pubkey h st order (IHa eq_refl)))
    as (n & [] & st2 & Hr & Hl & He).
  rewrite Hrun in Hr. injection Hr as E _. apply app_inv_tail in E as <-. split; [done|].
  exact (ended_asks _ _ _ _ He).
Qed.

(** A sell's policy without the size of its order. *)
Lemma sell_tries_lawful h again : sell_tries h again ->
  lawful (fun B h c => sends_once signed_sells B h c /\ writes_ahead B h c) h /\ (again = true -> unsold h).
Proof.
  induction 1 as [|h order o st new st' Hb [IHl IHa] Ho Hrun]; [done|].
  pose proof (run_exit_ends tuning primary parse_pubkey h st order (IHa eq_refl)) as Hob.
  eapply (obeys_weaken _ (fun B h c => sends_once signed_sells B h c /\ writes_ahead B h c)) in Hob; [|by intros B h' c [H _]].
  destruct (run_obeys _ _ o h st _ Ho IHl Hob) as (n & [] & st2 & Hr & Hl & He).
  rewrite Hrun in Hr. injection Hr as E _. apply app_inv_tail in E as <-. split; [done|].
  exact (ended_asks _ _ _ _ He).
Qed.

(** C9: no double buy.  Over all the tries of a position's buy, whatever the chain, the feed
    and the database answer: when a buy is signed, every buy signed before it was seen
    reverted on chain or can no longer execute; and when one is handed to the network its
    signature is already in the journal and the write that marks its row was started (the
    write itself is not awaited, and may land later or fail). *)
Theorem no_double_buy h again : buy_tries h again ->
  (forall new trader spec sg old, h = new ++ did (SignBuy trader spec) sg :: old ->
     forall sig, sig ∈ signed_buys old -> harmless old sig = true) /\
  (forall new trader sig r old, h = new ++ did (SendBuy trader sig) r :: old ->
     existsb (journaled sig) old = true /\ existsb (row_mark_started sig) old = true).
Proof.
  intros [Hl _]%buy_tries_lawful. split; intros new trader x y old ->;
    by apply (lawful_at buys_safely) in Hl as [[H1 H2] _].
Qed.

(** C10: no double sell.  Over all the tries of a position's sell: when a sell is signed,
    every sell signed before it was seen reverted on chain, or its nonce had moved on and the
    chain, asked after that, had not seen it; and when one is handed to the network its
    signature is already on the trader's record. *)
Theorem no_double_sell h again : sell_tries h again ->
  (forall new trader spec sg old, h = new ++ did (SignSell trader spec) sg :: old ->
     forall sig, sig ∈ signed_sells old -> harmless old sig = true) /\
  (forall new trader sig r old, h = new ++ did (SendSell trader sig) r :: old -> existsb (kept_for_burn sig) old = true).
Proof.
  intros [Hl _]%sell_tries_lawful. split; intros new trader x y old ->; by apply lawful_at in Hl as [H1 H2].
Qed.

(** C12: a buy task speaks once or leaves a trace.  On a history [h] of the position's earlier
    tries, none of whose buys can execute any more, it makes at most one report; it confirms
    only with tokens in hand, it asks for a retry only when nothing it or a try of [h] signed
    can execute, and when it says nothing it has signed a buy.  A try that runs at the same
    time and holds the position's entry guard is not in [h]: the retry asked for under a held
    guard says nothing of what the holder signed. *)
Theorem buy_speaks_once o h st order : honest o -> lawful buys_safely h -> all_harmless signed_buys h ->
  exists new st', run o (run_entry tuning primary parse_pubkey order) h st = (tt, new ++ h, st') /\
    match reports new with
    | [] => signed_buys new <> []
    | [RepFailed _ Reverted _] => all_harmless signed_buys (new ++ h)
    | [RepConfirmed _ f] => 0 < fl_token_amount f
    | [_] => True
    | _ => False
    end.
Proof.
  intros Ho Hl Ha.
  destruct (run_obeys buys_safely _ o h st _ Ho Hl (run_entry_ends tuning primary parse_pubkey h st order Ha))
    as (new & [] & st' & Hr & Hl' & (n & E & Hn)).
  apply app_inv_tail in E as <-. exists new, st'. split; [done|]. clear Hr.
  destruct (reports new) as [|[i f|i r t] [|]] eqn:Er; try done.
  destruct (report_made new i f) as (n1 & u & n2 & ->); [by rewrite Er; left|].
  rewrite <- app_assoc in Hl'. cbn in Hl'. by apply (lawful_at buys_safely) in Hl' as [_ Hc].
Qed.

(** C13: a sell task accounts for what it signed.  On a position that never sold, it makes at
    most one report and is silent only when it signed nothing; a confirmation covers the
    whole order; a retry is asked for only when nothing was signed; and before any report
    every signature it made was left, under its intent, for the sink. *)
Theorem sell_accounts_for_itself o h st order : honest o -> unsold h ->
  lawful (sells_safely (so_token_amount order)) h ->
  exists new st', run o (run_exit tuning primary parse_pubkey order) h st = (tt, new ++ h, st') /\
    match reports new with
    | [] => signed_sells new = []
    | [RepFailed _ Reverted _] => signed_sells new = []
    | [RepConfirmed _ f] => so_token_amount order <= fl_token_amount f
    | [_] => True
    | _ => False
    end /\
    forall later r u old, new = later ++ did (SendReport r) u :: old ->
      forall sig, sig ∈ signed_sells old ->
        existsb (puts (match r with RepConfirmed i _ | RepFailed i _ _ => i end) sig) (old ++ h) = true.
Proof.
  intros Ho Hu Hl.
  destruct (run_obeys _ _ o h st _ Ho Hl (run_exit_ends tuning primary parse_pubkey h st order Hu))
    as (new & [] & st' & Hr & Hl' & (n & E & Hn)).
  apply app_inv_tail in E as <-. exists new, st'. split; [done|]. clear Hr. split.
  - destruct (reports new) as [|[i f|i r t] [|]] eqn:Er; try done.
    + destruct (report_made new i f) as (n1 & u & n2 & ->); [by rewrite Er; left|].
      rewrite <- app_assoc in Hl'. cbn in Hl'. by apply lawful_at in Hl' as [_ [Hc _]].
    + destruct r; try done. unfold unsold in Hn. rewrite signed_sells_app in Hn. by apply app_nil in Hn as [-> _].
  - intros later r u old -> sig Hs. rewrite <- app_assoc in Hl'. cbn in Hl'. apply lawful_at in Hl' as [_ Hc].
    assert (Hin : sig ∈ signed_sells (old ++ h)) by (rewrite signed_sells_app; apply elem_of_app; by left).
    destruct r as [i f|i r t]; cbn in Hc; [by apply Hc|by apply Hc].
Qed.
End lives.
