(* ===== verification/ExitLock.v ===== *)
(** * ExitLock: concurrent tasks never sell from one account at once

    The guards of [InFlight] under any interleaving of buy tasks, sell tasks and the work
    they leave behind ([pool_step]).  A task's claims are read off its own history; [guarded]
    is how a task uses the guards, whatever others do; [Consistent] relates the claims of all
    tasks to the shared guards. *)

From S2P Require Import Float64 Events Kernel Executor Live RealExec ExecFacts.
#[local] Open Scope Z_scope.

Import Retry.

Record Claims := { cl_entry : gset Uuid; cl_exit : gset Uuid; cl_mint : gmap string Uuid }.

Definition no_claims : Claims := {| cl_entry := ∅; cl_exit := ∅; cl_mint := ∅ |}.

Definition with_mint (c : Claims) (m : gmap string Uuid) : Claims :=
  {| cl_entry := cl_entry c; cl_exit := cl_exit c; cl_mint := m |}.

Lemma with_mint_id c : with_mint c (cl_mint c) = c.
Proof. by destruct c. Qed.

Definition claim {B} (cl : Claims) (c : Call B) : B -> Claims :=
  match c with
  | TryBeginEntry pg => fun b : bool =>
      if b then {| cl_entry := {[pg]} ∪ cl_entry cl; cl_exit := cl_exit cl; cl_mint := cl_mint cl |} else cl
  | DropEntry pg => fun _ => {| cl_entry := cl_entry cl ∖ {[pg]}; cl_exit := cl_exit cl; cl_mint := cl_mint cl |}
  | TryBeginExit pg => fun b : bool =>
      if b then {| cl_entry := cl_entry cl; cl_exit := {[pg]} ∪ cl_exit cl; cl_mint := cl_mint cl |} else cl
  | DropExit pg => fun _ => {| cl_entry := cl_entry cl; cl_exit := cl_exit cl ∖ {[pg]}; cl_mint := cl_mint cl |}
  | TryBeginExitMint key pg => fun b : bool => if b then with_mint cl (<[key := pg]> (cl_mint cl)) else cl
  | AwaitExitMint key pg _ => fun b : bool => if b then with_mint cl (<[key := pg]> (cl_mint cl)) else cl
  | DropExitMint key => fun _ => with_mint cl (delete key (cl_mint cl))
  | _ => fun _ => cl
  end.

Fixpoint claims (h : Hist) : Claims :=
  match h with [] => no_claims | did c b :: h => claim (claims h) c b end.

(** How a task uses the guards: it releases what it claimed, it claims a mint for a position
    whose exit it owns, it journals a buy of a position whose entry it owns, and it signs a
    sell of an account whose lock it owns. *)
Definition guarded : Policy Call := fun B h c =>
  let cl := claims h in
  match c with
  | DropEntry pg => pg ∈ cl_entry cl
  | JournalAppend pg _ _ => pg ∈ cl_entry cl
  | DropExit pg => pg ∈ cl_exit cl /\ forall key, cl_mint cl !! key <> Some pg
  | TryBeginExitMint _ pg | QueueExitMint _ pg | AwaitExitMint _ pg _ => pg ∈ cl_exit cl
  | DropExitMint key => is_Some (cl_mint cl !! key)
  | SignSell trader s => is_Some (cl_mint cl !! InFlight.exit_lock_key trader (ss_mint s))
  | _ => True
  end.

(** ** The tasks keep to it *)

Definition unguarded B (c : Call B) : bool :=
  match c with
  | TryBeginEntry _ | DropEntry _ | TryBeginExit _ | DropExit _ | TryBeginExitMint _ _ | QueueExitMint _ _
  | AwaitExitMint _ _ _ | DropExitMint _ | JournalAppend _ _ _ | SignSell _ _ => false
  | _ => true
  end.

(** Inside the claim of one entry, or of one account. *)
Definition in_entry (pg : Uuid) B (c : Call B) : bool :=
  unguarded B c || match c with JournalAppend p _ _ => p =? pg | _ => false end.

Definition in_exit (key : string) B (c : Call B) : bool :=
  unguarded B c || match c with SignSell tr s => bool_decide (InFlight.exit_lock_key tr (ss_mint s) = key) | _ => false end.

Lemma claims_unguarded B h (c : Call B) b : unguarded B c = true -> claims (did c b :: h) = claims h.
Proof. by destruct c. Qed.

Lemma unguarded_fine B h (c : Call B) : unguarded B c = true -> guarded B h c.
Proof. by destruct c. Qed.

(** Such a stretch of a task leaves its claims as they were. *)
Lemma stretch {A X} (W : World Call X) k (C : Claims) (p : Prog Call A) h st :
  (forall B h (c : Call B), k B c = true -> claims h = C -> guarded B h c) ->
  (forall B h (c : Call B) b, k B c = true -> claims (did c b :: h) = claims h) ->
  only k p -> claims h = C -> obeys guarded p h st (fun _ h' _ => claims h' = C).
Proof.
  intros Hok Hkeep Hp HC. apply (obeys_within k guarded (fun h => claims h = C)); [by intros; apply Hok| |done|done].
  intros B h' c b Hc <-. by apply Hkeep.
Qed.

Lemma unguarded_stretch {A X} (W : World Call X) (p : Prog Call A) h st :
  only unguarded p -> obeys guarded p h st (fun _ h' _ => claims h' = claims h).
Proof. intros Hp. apply (stretch W unguarded); [by intros; apply unguarded_fine|intros; by apply claims_unguarded|done..]. Qed.

Lemma in_entry_stretch {A X} (W : World Call X) pg (p : Prog Call A) h st :
  pg ∈ cl_entry (claims h) -> only (in_entry pg) p -> obeys guarded p h st (fun _ h' _ => claims h' = claims h).
Proof.
  intros Hpg Hp. apply (stretch W (in_entry pg)); [| |done..].
  - intros B h' c Hc E. destruct (unguarded B c) eqn:Eu; [by apply unguarded_fine|].
    unfold in_entry in Hc. rewrite Eu in Hc. destruct c; try done. cbn in Hc |- *. apply Z.eqb_eq in Hc as ->. by rewrite E.
  - intros B h' c b Hc. destruct (unguarded B c) eqn:Eu; [by apply claims_unguarded|].
    unfold in_entry in Hc. rewrite Eu in Hc. by destruct c.
Qed.

Lemma in_exit_stretch {A X} (W : World Call X) key (p : Prog Call A) h st :
  is_Some (cl_mint (claims h) !! key) -> only (in_exit key) p -> obeys guarded p h st (fun _ h' _ => claims h' = claims h).
Proof.
  intros Hk Hp. apply (stretch W (in_exit key)); [| |done..].
  - intros B h' c Hc E. destruct (unguarded B c) eqn:Eu; [by apply unguarded_fine|].
    unfold in_exit in Hc. rewrite Eu in Hc. destruct c; try done. cbn in Hc |- *. apply bool_decide_eq_true in Hc as ->.
    by rewrite E.
  - intros B h' c b Hc. destruct (unguarded B c) eqn:Eu; [by apply claims_unguarded|].
    unfold in_exit in Hc. rewrite Eu in Hc. by destruct c.
Qed.

(** Plain requests other than the guards' are unguarded. *)
Ltac guard_step :=
  match goal with
  | |- only _ (Ret _) => exact I
  | |- only _ (Do _ _) => split; [try reflexivity|intros ?]
  | |- only _ (seq_prog _ _) => apply only_seq; [|intros ?]
  | |- only _ (match ?x with _ => _ end) => destruct x
  | |- only _ (let '(_, _) := ?x in _) => destruct x
  | |- only _ _ => solve [eauto with lock]
  end.
Ltac unguard := repeat (progress (cbv zeta) || guard_step).

Create HintDb lock.

Section steps.
Context (tuning : FeeTuning) (primary : string) (parse_pubkey : string -> option string).

Lemma free_fail intent reason : only unguarded (fail_with intent reason).
Proof. unfold fail_with. unguard. Qed.
Lemma free_migrated mint : only unguarded (cache_is_migrated mint).
Proof. unfold cache_is_migrated. unguard. Qed.
Lemma free_note_loop n pg cause : only unguarded (note_entry_error_loop n pg cause).
Proof. induction n; cbn [note_entry_error_loop]; unguard. Qed.
Lemma free_note order cause : only unguarded (note_entry_error order cause).
Proof. apply free_note_loop. Qed.
Lemma free_fee_loop n pg fee : only unguarded (note_reverted_fee_loop n pg fee).
Proof. induction n; cbn [note_reverted_fee_loop]; unguard. Qed.
Lemma free_fee pg cu : only unguarded (note_reverted_fee tuning pg cu).
Proof. unfold note_reverted_fee. cbv zeta. apply only_seq; [apply free_fee_loop|done]. Qed.
Lemma free_recheck trader mint used : only unguarded (recheck_curve_creator parse_pubkey trader mint used).
Proof. unfold recheck_curve_creator. unguard. Qed.

Lemma free_await w m window every preview query :
  only unguarded preview -> only unguarded query -> only unguarded (await_own_legs w m window every preview query).
Proof.
  intros Hp Hq. unfold await_own_legs. split; [done|intros now]. split; [done|intros now']. split; [done|intros n].
  generalize (now' + every) (@None Z). induction n; intros next seen; cbn [await_passes]; unguard.
Qed.

Lemma free_poll w m sig since window : only unguarded (poll_feed_buy w m sig since window).
Proof. apply free_await; unguard. Qed.
Lemma free_audit trader mint sigs since heal : only unguarded (audit_persisted trader mint sigs since heal).
Proof. unfold audit_persisted. unguard. Qed.
Lemma free_reserves mint : only unguarded (reserves_from_cache mint).
Proof. unfold reserves_from_cache. unguard. Qed.
Lemma free_adopt w order : only unguarded (adopt_existing_fill w order).
Proof.
  unfold adopt_existing_fill. split; [done|]. intros [[first sigs]|]; [|done].
  induction sigs; cbn [adopt_from]; unguard.
Qed.
Lemma free_known trader mint known : only unguarded (known_account trader mint known).
Proof. unfold known_account. by destruct known. Qed.
Lemma free_confirm_sell w order sigs since window : only unguarded (confirm_sell w order sigs since window).
Proof. unfold confirm_sell. destruct sigs; [done|]. apply free_await; unguard. Qed.
Lemma free_landed sigs : only unguarded (landed_of sigs).
Proof. induction sigs; cbn [landed_of]; unguard. Qed.
#[local] Hint Resolve free_fail free_migrated free_note free_fee free_recheck free_poll free_audit free_reserves free_adopt
  free_known free_confirm_sell free_landed : lock.

Lemma free_filled trader order sig account legs : only unguarded (emit_entry_filled trader order sig account legs).
Proof. unfold emit_entry_filled. unguard. Qed.
Lemma free_charge order : only unguarded (charge_reverted_buy tuning order).
Proof. unfold charge_reverted_buy. unguard. Qed.
Lemma free_silent trader w order sig status : only unguarded (settle_silent parse_pubkey trader w order sig status).
Proof. unfold settle_silent. destruct (classify_silent_send status); unguard. Qed.
#[local] Hint Resolve free_filled free_charge free_silent : lock.

Lemma free_confirm_entry trader w order sig window :
  only unguarded (confirm_entry tuning parse_pubkey trader w order sig window).
Proof. unfold confirm_entry, early_look, early_status, req. unguard. Qed.
Lemma free_outcome trader order sig account out err : only unguarded (emit_entry_outcome trader order sig account out err).
Proof. unfold emit_entry_outcome. destruct out; unguard. Qed.
Lemma free_reuse trader w order : only unguarded (reuse_account parse_pubkey trader w order).
Proof. unfold reuse_account, resolve_sibling_account. unguard. Qed.
Lemma free_expired order : only unguarded (retry_expired order).
Proof. unfold retry_expired. unguard. Qed.
Lemma free_exit_failed trader order sigs reason : only unguarded (exit_failed trader order sigs reason).
Proof. unfold exit_failed. unguard. Qed.
Lemma free_finish trader order sigs legs : only unguarded (finish_cleared_sell trader order sigs legs).
Proof. unfold finish_cleared_sell, has_other_open_position. unguard. Qed.
Lemma free_heal trader order cashback route d : only unguarded (heal_revert parse_pubkey trader order cashback route d).
Proof. unfold heal_revert. destruct d; unguard. Qed.
Lemma free_holder n order : only unguarded (settle_holder n order).
Proof. revert order. induction n; intros order; cbn [settle_holder]; unguard. Qed.
Lemma free_for recorded : only unguarded (for_position primary recorded).
Proof. unfold for_position. unguard. Qed.
Lemma free_current order : only unguarded (exit_still_current order).
Proof. unfold exit_still_current. unguard. Qed.
Lemma free_durable mint : only unguarded (durable_migrated mint).
Proof. unfold durable_migrated. unguard. Qed.
Lemma free_background b : only unguarded (background b).
Proof.
  destruct b as [pg sig|pg sig|mint|tr mint sigs since heal|tr mint account]; cbn [background]; try by unguard.
  - generalize 8%nat. induction n; cbn [mark_buy_submitted]; unguard.
  - unfold audit_task. unguard.
  - generalize RECLAIM_CLOSE_DELAYS. induction l; cbn [reclaim_close]; unguard.
Qed.
#[local] Hint Resolve free_confirm_entry free_outcome free_reuse free_expired free_exit_failed free_finish free_heal free_holder
  free_for free_current free_durable : lock.
End steps.

#[export] Hint Resolve free_fail free_migrated free_note free_fee free_recheck free_poll free_audit free_reserves free_adopt
  free_known free_confirm_sell free_landed free_filled free_charge free_silent free_confirm_entry free_outcome free_reuse
  free_expired free_exit_failed free_finish free_heal free_holder free_for free_current free_durable : lock.

Section tasks.
Context (tuning : FeeTuning) (primary : string) (parse_pubkey : string -> option string).

#[local] Existing Instance any_world.

Lemma free_in_entry pg {A} (p : Prog Call A) : only unguarded p -> only (in_entry pg) p.
Proof. apply only_mono. intros B c. unfold in_entry. by intros ->. Qed.

Lemma free_in_exit key {A} (p : Prog Call A) : only unguarded p -> only (in_exit key) p.
Proof. apply only_mono. intros B c. unfold in_exit. by intros ->. Qed.

#[local] Hint Resolve free_in_entry free_in_exit : lock.

Lemma entry_body_in trader order :
  only (in_entry (bo_pg_id order)) (entry_body tuning parse_pubkey trader order).
Proof.
  unfold entry_body, drop_entry_fatally, send_and_confirm, never_signed. unguard.
  cbn. by rewrite Z.eqb_refl.
Qed.

Lemma exit_attempts_in more : forall trader order started sigs cashback route,
  only (in_exit (InFlight.exit_lock_key trader (so_mint order)))
    (exit_attempts tuning parse_pubkey more trader order started sigs cashback route).
Proof.
  induction more as [|more IH]; intros trader order started sigs cashback route; cbn [exit_attempts]; cbv zeta;
    [by apply free_in_exit, free_exit_failed|].
  apply only_seq; [destruct route; [done|eauto with lock]|intros mig]. split; [done|intros taken].
  apply only_seq; [|intros [failed sig]].
  { unfold submit_one_sell. unguard; cbn; try by rewrite bool_decide_eq_true_2. }
  apply only_seq; [destruct sig; by repeat split|intros u]. apply only_seq; [eauto with lock|intros c].
  destruct c; [eauto with lock|]. destruct sig as [sig|]; [|apply IH].
  apply only_seq; [destruct route; [done|by split]|intros nm].
  apply only_seq; [destruct failed; [by split|done]|intros burned]. split; [done|intros state].
  destruct (burned && _); [apply IH|]. apply only_seq; [destruct (is_reverted state); [apply free_in_exit; unguard|done]|intros u2].
  destruct (classify_sell_confirm state mig nm) as [d|].
  - eapply only_seq_value; [apply free_in_exit, free_heal|apply heal_keeps|]. intros [[[o c] r]|] Ho; [|eauto with lock].
    destruct (Ho o c r eq_refl) as [_ <-]. apply IH.
  - unfold wait_confirm. unguard.
Qed.

Lemma exit_body_in trader order :
  only (in_exit (InFlight.exit_lock_key trader (so_mint order))) (exit_body tuning parse_pubkey trader order).
Proof. unfold exit_body. pose proof (fun m => exit_attempts_in m trader order). unguard. Qed.

(** ** Whole tasks *)

(** What is proved of a task that starts with claims [C]. *)
Abbreviation keeps_to C p := (forall h, claims h = C -> obeys guarded p h tt (fun _ h' _ => claims h' = C)) (only parsing).

Lemma claims_put_entry C pg : pg ∉ cl_entry C ->
  {| cl_entry := ({[pg]} ∪ cl_entry C) ∖ {[pg]}; cl_exit := cl_exit C; cl_mint := cl_mint C |} = C.
Proof. intros Hn. destruct C as [e x m]. cbn in *. f_equal. set_solver. Qed.

Lemma claims_put_exit C pg : pg ∉ cl_exit C ->
  {| cl_entry := cl_entry C; cl_exit := ({[pg]} ∪ cl_exit C) ∖ {[pg]}; cl_mint := cl_mint C |} = C.
Proof. intros Hn. destruct C as [e x m]. cbn in *. f_equal. set_solver. Qed.

Lemma unguarded_keeps (p : Prog Call unit) C : only unguarded p -> keeps_to C p.
Proof. intros Hp h <-. by apply unguarded_stretch. Qed.

Lemma entry_guarded_keeps trader order : keeps_to no_claims (entry_guarded tuning parse_pubkey trader order).
Proof.
  intros h HC. unfold entry_guarded. split; [done|]. intros [] _; cbn [negb].
  - set (h1 := did _ _ :: h). assert (H1 : claims h1 = {| cl_entry := {[bo_pg_id order]} ∪ ∅; cl_exit := ∅; cl_mint := ∅ |})
      by (subst h1; cbn; by rewrite HC).
    eapply obeys_then; [eapply in_entry_stretch, entry_body_in; rewrite H1; cbn; set_solver|]. intros [] h2 [] H2.
    rewrite H1 in H2. split; [cbn; rewrite H2; cbn; set_solver|]. intros [] _. cbn. rewrite H2.
    apply (claims_put_entry no_claims). set_solver.
  - apply (unguarded_keeps (fail_with (bo_intent order) Reverted) no_claims); [auto with lock|]. cbn. by rewrite HC.
Qed.

Lemma run_entry_keeps order : keeps_to no_claims (run_entry tuning primary parse_pubkey order).
Proof.
  intros h HC. unfold run_entry. split; [done|]. intros b _.
  assert (H1 : claims (did (LoadedTrader (bo_wallet order)) b :: h) = no_claims) by done. revert H1. generalize (did (LoadedTrader (bo_wallet order)) b :: h).
  intros h1 H1. destruct (b : bool); [by apply entry_guarded_keeps|]. destruct (_ && _); [|by apply entry_guarded_keeps].
  apply (unguarded_keeps (fail_with (bo_intent order) Fatal)); [auto with lock|done].
Qed.

Lemma with_exit_mint_keeps key trader order C :
  key = InFlight.exit_lock_key trader (so_mint order) -> so_pg_id order ∈ cl_exit C -> cl_mint C = ∅ ->
  keeps_to C (with_exit_mint key order (exit_body tuning parse_pubkey trader order)).
Proof.
  intros -> Hpg Hm h HC. set (key := InFlight.exit_lock_key trader (so_mint order)) in *.
  assert (Hbody : forall h1, claims h1 = with_mint C (<[key := so_pg_id order]> (cl_mint C)) ->
    obeys guarded (exit_body tuning parse_pubkey trader order) h1 tt (fun _ h' _ => claims h' = claims h1)).
  { intros h1 H1. eapply in_exit_stretch, exit_body_in. rewrite H1. cbn. rewrite lookup_insert_eq. by eexists. }
  assert (Hdrop : forall h1, claims h1 = with_mint C (<[key := so_pg_id order]> (cl_mint C)) ->
    obeys guarded (do! DropExitMint key; Ret tt) h1 tt (fun _ h' _ => claims h' = C)).
  { intros h1 H1. split; [cbn; rewrite H1; cbn; rewrite lookup_insert_eq; by eexists|]. intros [] _. cbn. rewrite H1, Hm.
    unfold with_mint. cbn. rewrite delete_insert_eq, delete_empty. destruct C. cbn in *. by subst. }
  unfold with_exit_mint. split; [cbn; by rewrite HC|]. intros [] _.
  - eapply obeys_then; [apply Hbody; cbn; by rewrite HC|]. intros [] h2 [] H2. apply Hdrop. rewrite H2. cbn. by rewrite HC.
  - split; [cbn; by rewrite HC|]. intros [] _. split; [cbn; by rewrite HC|]. intros [] _; cbn [negb].
    + eapply obeys_then; [apply unguarded_stretch; auto with lock|]. intros cur h2 [] H2.
      assert (H2' : claims h2 = with_mint C (<[key := so_pg_id order]> (cl_mint C))) by (rewrite H2; cbn; by rewrite HC).
      eapply obeys_then; [instantiate (1 := fun _ h' _ => claims h' = claims h2); destruct cur; [by apply Hbody|done]|].
      intros [] h3 [] H3. apply Hdrop. by rewrite H3.
    + apply (unguarded_keeps (fail_with (so_intent order) Reverted) C); [auto with lock|]. cbn. by rewrite HC.
Qed.

Lemma exit_guarded_keeps trader order : keeps_to no_claims (exit_guarded tuning parse_pubkey trader trader order).
Proof.
  intros h HC. unfold exit_guarded. split; [done|]. intros [] _; cbn [negb]; [|cbn; by rewrite HC].
  set (h1 := did _ _ :: h). assert (H1 : claims h1 = {| cl_entry := ∅; cl_exit := {[so_pg_id order]} ∪ ∅; cl_mint := ∅ |})
    by (subst h1; cbn; by rewrite HC).
  eapply obeys_then; [eapply with_exit_mint_keeps; [done| | |exact H1]; [cbn; set_solver|done]|]. intros [] h2 [] H2.
  split; [cbn; rewrite H2; cbn; split; [set_solver|]; intros key; by rewrite lookup_empty|]. intros [] _. cbn. rewrite H2.
  apply (claims_put_exit no_claims). set_solver.
Qed.

(** The wallet a sell is locked under is the wallet that signs it. *)
Lemma for_position_same recorded :
  returns (fun p : string * option string => forall tr, p.2 = Some tr -> p.1 = tr) (for_position primary recorded).
Proof. unfold for_position. destruct (_ || _); [by intros tr [= <-]|]. intros [] tr [=]. done. Qed.

Lemma run_exit_keeps order : keeps_to no_claims (run_exit tuning primary parse_pubkey order).
Proof.
  intros h HC. unfold run_exit. eapply obeys_then; [apply unguarded_stretch; auto with lock|].
  intros order' h1 [] H1. eapply obeys_then; [eapply obeys_returns; [apply for_position_same|]; apply unguarded_stretch; auto with lock|].
  intros [wallet [trader|]] h2 [] [Hw H2]; rewrite H1, HC in H2.
  - specialize (Hw trader eq_refl). cbn in Hw. subst wallet. by apply exit_guarded_keeps.
  - apply (unguarded_keeps (fail_with (so_intent order') Reverted)); [auto with lock|done].
Qed.

Lemma background_keeps b : keeps_to no_claims (background b).
Proof. apply unguarded_keeps, free_background. Qed.

(** The tasks the executor starts. *)
Inductive spawned : Prog Call unit -> Prop :=
  | SpawnEntry order : spawned (run_entry tuning primary parse_pubkey order)
  | SpawnExit order : spawned (run_exit tuning primary parse_pubkey order)
  | SpawnBackground b : spawned (background b).

Lemma spawned_guarded p : spawned p -> obeys guarded p [] tt (fun _ _ _ => True).
Proof.
  intros [order|order|b]; (eapply obeys_mono; [|done]).
  - by apply run_entry_keeps.
  - by apply run_exit_keeps.
  - by apply background_keeps.
Qed.
End tasks.

(** ** Interleavings *)

(** The claims of all tasks against the shared guards: a position is claimed by one task, and
    the task that claims a mint is the one its lock names. *)
Record Consistent (s : InFlight.t) (cs : list Claims) : Prop := {
  cs_entry i C pg : cs !! i = Some C -> pg ∈ cl_entry C -> pg ∈ InFlight.entry s;
  cs_entry_one i j C D pg : cs !! i = Some C -> cs !! j = Some D -> pg ∈ cl_entry C -> pg ∈ cl_entry D -> i = j;
  cs_exit i C pg : cs !! i = Some C -> pg ∈ cl_exit C -> pg ∈ InFlight.exit_ s;
  cs_exit_one i j C D pg : cs !! i = Some C -> cs !! j = Some D -> pg ∈ cl_exit C -> pg ∈ cl_exit D -> i = j;
  cs_mint i C key pg : cs !! i = Some C -> cl_mint C !! key = Some pg ->
    pg ∈ cl_exit C /\ InFlight.owns_exit_mint s key pg = true;
}.

(** No two tasks claim one mint. *)
Lemma one_mint_claim s cs i j C D key p q :
  Consistent s cs -> cs !! i = Some C -> cs !! j = Some D ->
  cl_mint C !! key = Some p -> cl_mint D !! key = Some q -> i = j.
Proof.
  intros Hc Hi Hj Hp Hq. destruct (cs_mint _ _ Hc _ _ _ _ Hi Hp) as [Hp1 Hp2].
  destruct (cs_mint _ _ Hc _ _ _ _ Hj Hq) as [Hq1 Hq2]. unfold InFlight.owns_exit_mint, is_some_and in *.
  destruct (InFlight.exit_mints s !! key); [|done]. apply Z.eqb_eq in Hp2, Hq2. subst.
  by eapply (cs_exit_one _ _ Hc); eauto.
Qed.

(** One task's claims move from [C] to [C'] as the guards move from [s] to [s']: it claims
    only what was free, and takes nothing of the others'. *)
Lemma consistent_move s s' cs i C C' :
  Consistent s cs -> cs !! i = Some C ->
  (forall pg, pg ∈ cl_entry C' -> pg ∈ InFlight.entry s' /\ (pg ∈ cl_entry C \/ pg ∉ InFlight.entry s)) ->
  (forall pg, pg ∈ InFlight.entry s -> pg ∉ cl_entry C -> pg ∈ InFlight.entry s') ->
  (forall pg, pg ∈ cl_exit C' -> pg ∈ InFlight.exit_ s' /\ (pg ∈ cl_exit C \/ pg ∉ InFlight.exit_ s)) ->
  (forall pg, pg ∈ InFlight.exit_ s -> pg ∉ cl_exit C -> pg ∈ InFlight.exit_ s') ->
  (forall key pg, cl_mint C' !! key = Some pg -> pg ∈ cl_exit C' /\ InFlight.owns_exit_mint s' key pg = true) ->
  (forall key pg, InFlight.owns_exit_mint s key pg = true -> pg ∉ cl_exit C -> InFlight.owns_exit_mint s' key pg = true) ->
  Consistent s' (<[i := C']> cs).
Proof.
  intros [E1 E2 X1 X2 M] Hi He He' Hx Hx' Hm Hm'.
  assert (Hlook : forall j D, <[i := C']> cs !! j = Some D -> (i = j /\ D = C') \/ (i <> j /\ cs !! j = Some D)).
  { intros j D. rewrite list_lookup_insert_Some. intros [(-> & <- & _)|[? ?]]; auto. }
  split.
  - intros j D pg [[-> ->]|[Hne Hj]]%Hlook Hpg; [by apply He|]. apply He'; [by eapply E1|].
    intros Hin. by apply Hne; eapply E2.
  - intros j k D F pg [[<- ->]|[Hne Hj]]%Hlook [[<- ->]|[Hne' Hk]]%Hlook HD HF; [done| | |by eapply E2].
    + apply He in HD as [_ [HD|HD]]; [by eapply E2|]. by destruct HD; eapply E1.
    + apply He in HF as [_ [HF|HF]]; [by eapply E2|]. by destruct HF; eapply E1.
  - intros j D pg [[-> ->]|[Hne Hj]]%Hlook Hpg; [by apply Hx|]. apply Hx'; [by eapply X1|].
    intros Hin. by apply Hne; eapply X2.
  - intros j k D F pg [[<- ->]|[Hne Hj]]%Hlook [[<- ->]|[Hne' Hk]]%Hlook HD HF; [done| | |by eapply X2].
    + apply Hx in HD as [_ [HD|HD]]; [by eapply X2|]. by destruct HD; eapply X1.
    + apply Hx in HF as [_ [HF|HF]]; [by eapply X2|]. by destruct HF; eapply X1.
  - intros j D key pg [[-> ->]|[Hne Hj]]%Hlook Hpg; [by apply Hm|]. destruct (M _ _ _ _ Hj Hpg) as [H1 H2].
    split; [done|]. apply Hm'; [done|]. intros Hin. by apply Hne; eapply X2.
Qed.

(** A lock that stays, or is taken, keeps its owner. *)
Lemma owns_set s key l key' pg :
  InFlight.owns_exit_mint (InFlight.set_mints s (<[key := l]> (InFlight.exit_mints s))) key' pg =
  if bool_decide (key = key') then InFlight.ml_holder l =? pg else InFlight.owns_exit_mint s key' pg.
Proof.
  unfold InFlight.owns_exit_mint. cbn. case_bool_decide as E; [subst; by rewrite lookup_insert_eq|by rewrite lookup_insert_ne].
Qed.

Lemma owns_lookup s key pg :
  InFlight.owns_exit_mint s key pg = true <-> exists q, InFlight.exit_mints s !! key = Some {| InFlight.ml_holder := pg; InFlight.ml_queue := q |}.
Proof.
  unfold InFlight.owns_exit_mint, is_some_and. split; [|intros [q ->]; cbn; lia].
  destruct (_ !! key) as [[h q]|]; [|done]. cbn. intros ->%Z.eqb_eq. by exists q.
Qed.

Lemma owns_begin s key key' pg pg' :
  InFlight.owns_exit_mint s key' pg' = true -> InFlight.owns_exit_mint (InFlight.try_begin_exit_mint s key pg).2 key' pg' = true.
Proof.
  intros Ho. unfold InFlight.try_begin_exit_mint. destruct (_ !! key) eqn:E; cbn [snd]; [done|].
  rewrite owns_set. case_bool_decide as Ek; [|done]. subst. apply owns_lookup in Ho as [q Hq]. congruence.
Qed.

Lemma owns_queue s key key' pg pg' :
  InFlight.owns_exit_mint s key' pg' = true -> InFlight.owns_exit_mint (InFlight.queue_exit_mint s key pg) key' pg' = true.
Proof.
  intros Ho. unfold InFlight.queue_exit_mint. destruct (_ !! key) eqn:E; cbn; rewrite owns_set; case_bool_decide as Ek; try done; subst;
    apply owns_lookup in Ho as [q Hq]; rewrite Hq in E; [|done]. injection E as <-. cbn. lia.
Qed.

Lemma owns_leave s key key' pg pg' :
  InFlight.owns_exit_mint s key' pg' = true -> InFlight.owns_exit_mint (InFlight.leave_exit_mint s key pg) key' pg' = true.
Proof.
  intros Ho. unfold InFlight.leave_exit_mint. destruct (InFlight.exit_mints s !! key) eqn:E; [|done]. rewrite owns_set. case_bool_decide as Ek; [|done].
  subst. apply owns_lookup in Ho as [q Hq]. rewrite Hq in E. injection E as <-. cbn. lia.
Qed.

Lemma owns_drop s key key' pg' :
  key <> key' -> InFlight.owns_exit_mint s key' pg' = true -> InFlight.owns_exit_mint (InFlight.drop_exit_mint s key) key' pg' = true.
Proof.
  intros Hne Ho. unfold InFlight.drop_exit_mint. destruct (_ !! key) as [[h [|p q]]|] eqn:E; [| |done]; cbn.
  - unfold InFlight.owns_exit_mint in *. cbn. by rewrite lookup_delete_ne.
  - by rewrite owns_set, bool_decide_eq_false_2.
Qed.

(** The same where only the locks of the mints move. *)
Lemma consistent_mints s s' cs i C M :
  Consistent s cs -> cs !! i = Some C ->
  InFlight.entry s' = InFlight.entry s -> InFlight.exit_ s' = InFlight.exit_ s ->
  (forall key pg, M !! key = Some pg -> pg ∈ cl_exit C /\ InFlight.owns_exit_mint s' key pg = true) ->
  (forall key pg, InFlight.owns_exit_mint s key pg = true -> pg ∉ cl_exit C -> InFlight.owns_exit_mint s' key pg = true) ->
  Consistent s' (<[i := with_mint C M]> cs).
Proof.
  intros Hc Hi Ee Ex Hm Ho. pose proof (cs_entry _ _ Hc i C) as He. pose proof (cs_exit _ _ Hc i C) as Hx.
  eapply consistent_move; [done..| | | | | |]; cbn; rewrite ?Ee, ?Ex; auto.
Qed.

Lemma queue_sets s key pg :
  InFlight.entry (InFlight.queue_exit_mint s key pg) = InFlight.entry s /\
  InFlight.exit_ (InFlight.queue_exit_mint s key pg) = InFlight.exit_ s.
Proof. unfold InFlight.queue_exit_mint. by destruct (_ !! key). Qed.

Lemma leave_sets s key pg :
  InFlight.entry (InFlight.leave_exit_mint s key pg) = InFlight.entry s /\
  InFlight.exit_ (InFlight.leave_exit_mint s key pg) = InFlight.exit_ s.
Proof. unfold InFlight.leave_exit_mint. by destruct (_ !! key). Qed.

Lemma drop_sets s key :
  InFlight.entry (InFlight.drop_exit_mint s key) = InFlight.entry s /\
  InFlight.exit_ (InFlight.drop_exit_mint s key) = InFlight.exit_ s.
Proof. unfold InFlight.drop_exit_mint. by destruct (_ !! key) as [[? []]|]. Qed.

(** A request of a task that keeps to [guarded]. *)
Lemma consistent_call st cs i h B (c : Call B) b :
  Consistent (lv_inflight st) cs -> cs !! i = Some (claims h) -> guarded B h c -> live_may st c b ->
  Consistent (lv_inflight (live_after st c b)) (<[i := claim (claims h) c b]> cs).
Proof.
  intros Hc Hi Hg Hb. pose proof (cs_mint _ _ Hc i (claims h)) as Hm. pose proof (cs_entry _ _ Hc i (claims h)) as He.
  pose proof (cs_exit _ _ Hc i (claims h)) as Hx.
  destruct c; try (cbn; by rewrite list_insert_id).
  all: cbn in Hb, Hg; cbn [live_after set_inflight lv_inflight claim].
  - unfold InFlight.try_begin_entry, InFlight.entry_held in *. case_bool_decide as E; cbn in *; subst b.
    + by rewrite list_insert_id.
    + eapply consistent_move; [done..| | | | | |]; cbn; set_solver.
  - eapply consistent_move; [done..| | | | | |]; cbn; set_solver.
  - unfold InFlight.try_begin_exit, InFlight.exit_held in *. case_bool_decide as E; cbn in *; subst b.
    + by rewrite list_insert_id.
    + eapply consistent_move; [done..| | | | | |]; cbn; set_solver.
  - destruct Hg as [Hpg Hno]. eapply consistent_move; [done..| | | | | |]; cbn; set_solver.
  - pose proof (owns_begin (lv_inflight st) key) as Hown. revert Hb Hown. unfold InFlight.try_begin_exit_mint.
    destruct (InFlight.exit_mints (lv_inflight st) !! key) eqn:E; cbn; intros -> Hown; [by rewrite list_insert_id|].
    apply (consistent_mints (lv_inflight st)); [done..| |intros; by apply Hown].
    intros k p [[<- <-]|[Hne Hk]]%lookup_insert_Some; [by rewrite owns_set, bool_decide_eq_true_2, Z.eqb_refl|].
    destruct (Hm k p Hi Hk). auto.
  - rewrite <- (with_mint_id (claims h)). destruct (queue_sets (lv_inflight st) key pg).
    apply (consistent_mints (lv_inflight st)); [done..| |intros; by apply owns_queue].
    intros k p Hk. destruct (Hm k p Hi Hk). auto using owns_queue.
  - subst b. destruct (InFlight.owns_exit_mint _ key pg) eqn:E; cbn.
    + apply (consistent_mints (lv_inflight st)); [done..| |done]. intros k p [[<- <-]|[Hne Hk]]%lookup_insert_Some; [done|by apply Hm].
    + rewrite <- (with_mint_id (claims h)). destruct (leave_sets (lv_inflight st) key pg).
      apply (consistent_mints (lv_inflight st)); [done..| |intros; by apply owns_leave].
      intros k p Hk. destruct (Hm k p Hi Hk). auto using owns_leave.
  - destruct (drop_sets (lv_inflight st) key). destruct Hg as [q Hq].
    apply (consistent_mints (lv_inflight st)); [done..| |].
    + intros k p [Hne Hk]%lookup_delete_Some. destruct (Hm k p Hi Hk). auto using owns_drop.
    + intros k p Ho Hp. destruct (decide (key = k)) as [<-|Hne]; [|by apply owns_drop]. destruct (Hm key q Hi Hq) as [Hin Hq'].
      apply owns_lookup in Ho as [? Ho], Hq' as [? Hq']. rewrite Ho in Hq'. injection Hq' as -> _. done.
  - cbn. case_bool_decide; by rewrite list_insert_id.
Qed.

Lemma consistent_spawn s cs : Consistent s cs -> Consistent s (cs ++ [no_claims]).
Proof.
  intros [E1 E2 X1 X2 M].
  assert (Hlook : forall i C, (cs ++ [no_claims]) !! i = Some C -> cs !! i = Some C \/ C = no_claims).
  { intros i C [H|[_ H]]%lookup_app_Some; [by left|]. right. by apply list_lookup_singleton_Some in H as [_ ->]. }
  split.
  - intros i C pg [Hi| ->]%Hlook; [by eapply E1|cbn; set_solver].
  - intros i j C D pg [Hi| ->]%Hlook [Hj| ->]%Hlook; [by eapply E2|cbn; set_solver..].
  - intros i C pg [Hi| ->]%Hlook; [by eapply X1|cbn; set_solver].
  - intros i j C D pg [Hi| ->]%Hlook [Hj| ->]%Hlook; [by eapply X2|cbn; set_solver..].
  - intros i C key pg [Hi| ->]%Hlook; [by eapply M|]. cbn. by rewrite lookup_empty.
Qed.

(** ** The invariant of a pool *)

Section pools.
Context (tuning : FeeTuning) (primary : string) (parse_pubkey : string -> option string).

Abbreviation spawns := (spawned tuning primary parse_pubkey) (only parsing).

(** Each task keeps to [guarded] from where it is, its past did, and the claims fit. *)
Definition pool_ok (p : Pool Call LiveState) : Prop :=
  (forall i t, p.2 !! i = Some t ->
     @obeys _ _ (any_world Call) _ guarded (tk_prog t) (tk_done t) tt (fun _ _ _ => True) /\ lawful guarded (tk_done t)) /\
  Consistent (lv_inflight p.1) ((fun t => claims (tk_done t)) <$> p.2).

Lemma pool_ok_step p q : pool_step spawns p q -> pool_ok p -> pool_ok q.
Proof.
  intros Hs [Ht Hc]. destruct Hs as [st ts i B c k h b Hi Hmay|st ts t Hsp]; cbn [fst snd] in *.
  - destruct (Ht _ _ Hi) as [[Hg Hk] Hl]. split; cbn [fst snd].
    + intros j t. rewrite list_lookup_insert_Some. intros [(-> & <- & _)|[_ Hj]]; [|by eapply Ht].
      split; [by apply Hk|by split].
    + rewrite list_fmap_insert. apply consistent_call; [done| |done..]. rewrite list_lookup_fmap, Hi. done.
  - split; cbn [fst snd].
    + intros j u [Hj|[_ Hj]]%lookup_app_Some; [by eapply Ht|]. apply list_lookup_singleton_Some in Hj as [_ <-].
      split; [by eapply spawned_guarded|done].
    + rewrite fmap_app. by apply consistent_spawn.
Qed.

Lemma pool_ok_reach p q : reaches spawns p q -> pool_ok p -> pool_ok q.
Proof. induction 1 as [|x y z Hs _ IH]; [done|]. intros Hp. by eapply IH, pool_ok_step. Qed.

Lemma pool_ok_start st : lv_inflight st = InFlight.new -> pool_ok (st, []).
Proof. intros E. split; [done|]. cbn. rewrite E. by split. Qed.

(** C11: one exit per account.  Whatever buys, sells and leftovers are in flight and however they interleave, no two
    sells are between the claim of a (wallet, mint) account and its release at once, and every
    sell is signed inside such a claim of the account it sells from. *)
Theorem one_exit_per_account st st' ts :
  lv_inflight st = InFlight.new -> reaches spawns (st, []) (st', ts) ->
  (forall i j t u key, ts !! i = Some t -> ts !! j = Some u ->
     is_Some (cl_mint (claims (tk_done t)) !! key) -> is_Some (cl_mint (claims (tk_done u)) !! key) -> i = j) /\
  (forall i t new old trader s b, ts !! i = Some t -> tk_done t = new ++ did (SignSell trader s) b :: old ->
     is_Some (cl_mint (claims old) !! InFlight.exit_lock_key trader (ss_mint s))).
Proof.
  intros Hst Hr. destruct (pool_ok_reach _ _ Hr (pool_ok_start st Hst)) as [Ht Hc]. cbn [fst snd] in *. split.
  - intros i j t u key Hi Hj [p Hp] [q Hq].
    apply (one_mint_claim _ _ i j (claims (tk_done t)) (claims (tk_done u)) key p q Hc);
      [by rewrite list_lookup_fmap, Hi|by rewrite list_lookup_fmap, Hj|done..].
  - intros i t new old trader s b Hi E. destruct (Ht _ _ Hi) as [_ Hl]. rewrite E in Hl. apply (lawful_at _ _ _ _ _ Hl).
Qed.
End pools.
