(* ===== verification/ExecDemo.v ===== *)
(** * ExecDemo: live tasks run against scripted worlds

    An oracle that answers for the stores and takes the rest from a script, and the runs the
    theorems of [ExecProps] and [ExitLock] are applied to. *)


From S2P Require Import Float64 Events Kernel Executor Live RealExec ExecFacts ExecProps ExitLock.
#[local] Open Scope Z_scope.

Import Retry.

(** ** Answering a task *)

Definition sibling_answer (r : Registry.t) (wallet mint : string) (exclude : Uuid) : option string :=
  find_map (fun e => if Registry.is_sibling wallet mint exclude e.2 then pm_token_account e.2 else None)
    (entries (Registry.by_id r)).

(** The stores answer for themselves, [ext] for the rest. *)
Definition live_oracle (ext : forall B, Hist -> Call B -> B) : Oracle Call LiveState := fun B h st c =>
  (match c in Call B return B -> B with
   | TryBeginEntry pg => fun _ => (InFlight.try_begin_entry (lv_inflight st) pg).1
   | TryBeginExit pg => fun _ => (InFlight.try_begin_exit (lv_inflight st) pg).1
   | TryBeginExitMint key pg => fun _ => (InFlight.try_begin_exit_mint (lv_inflight st) key pg).1
   | AwaitExitMint key pg _ => fun _ => InFlight.owns_exit_mint (lv_inflight st) key pg
   | JournalSigned pg => fun _ => Journal.signed (lv_journal st) pg
   | JournalSigs pg => fun _ => Journal.sigs (lv_journal st) pg
   | EngineId pg => fun _ => Registry.engine_id (lv_registry st) pg
   | GetMeta id => fun _ => Registry.get (lv_registry st) id
   | SiblingAccount w m pg => fun _ => sibling_answer (lv_registry st) w m pg
   | TakeSignedSell tr m => fun _ => lv_signed_sells st !! (tr, m)
   | _ => fun b => b
   end) (ext B h c).

Lemma sibling_answer_is_one r w m pg : Registry.sibling_token_account r w m pg (sibling_answer r w m pg).
Proof.
  unfold sibling_answer. destruct (find_map _ _) as [a|] eqn:E; cbn.
  - assert (Hin : exists e, e ∈ entries (Registry.by_id r) /\
              (if Registry.is_sibling w m pg e.2 then pm_token_account e.2 else None) = Some a).
    { revert E. generalize (entries (Registry.by_id r)). induction l as [|e l IH]; cbn; [done|].
      destruct (if Registry.is_sibling w m pg e.2 then pm_token_account e.2 else None) eqn:Ee.
      - intros [= ->]. exists e. split; [left|done].
      - intros Hl. destruct (IH Hl) as (e' & H1 & H2). exists e'. split; [by right|done]. }
    destruct Hin as ([id x] & Hin & Hx). apply elem_of_entries in Hin. cbn in Hx.
    destruct (Registry.is_sibling w m pg x) eqn:Es; [|done]. by exists id, x.
  - intros id x Hx. destruct (Registry.is_sibling w m pg x) eqn:Es; [|done]. exfalso.
    assert (Hin : (id, x) ∈ entries (Registry.by_id r)) by by apply elem_of_entries.
    revert Hin E. generalize (entries (Registry.by_id r)). induction l as [|e l IH]; cbn; [by intros ?%not_elem_of_nil|].
    intros [<- |Hin]%elem_of_cons; cbn; [|by case_match; [|apply IH]].
    rewrite Es. unfold Registry.is_sibling in Es. destruct (pm_token_account x); [done|].
    cbn in Es. by rewrite !andb_false_r in Es.
Qed.

Lemma live_oracle_honest ext : honest (live_oracle ext).
Proof. intros B h st c. destruct c; try done. apply sibling_answer_is_one. Qed.

(** A feed that shows nothing and a chain that answers [status]; signatures are taken from
    [names] in turn, and a sell the feed will not show is not taken by the network. *)
Definition quiet_legs : SigLegs := {|
  sl_token_amount := 1000; sl_amount_sol := f_of_Z 1; sl_wallet_lamports := Some (-1000000000);
  sl_first_block_time := 0; sl_last_block_time := 0; sl_first_slot := Some 1; sl_last_slot := Some 1;
  sl_post_spot := None |}.

Definition scripted (names : list string) (status : string -> Res SigStatus) (seen : string -> option SigLegs)
    (migrated : Hist -> bool) : forall B, Hist -> Call B -> B := fun B h c =>
  match c in Call B return B with
  | Now => 0 | Wakes => 0%nat | WaitWake _ _ _ => tt | Sleep _ => tt
  | LoadedTrader w => true | ReadPosition _ => None | IsFrozen _ => false | WaitThaw _ => tt
  | ReleaseSol _ _ => tt | SettleSol _ _ _ => tt
  | TryBeginEntry _ => true | DropEntry _ => tt | TryBeginExit _ => true | DropExit _ => tt
  | TryBeginExitMint _ _ => true | QueueExitMint _ _ => tt | AwaitExitMint _ _ _ => true | DropExitMint _ => tt
  | SendReport _ => tt | PutFillSigs _ _ => tt | NoteLastEntryError _ _ => inl true | AddRevertedFee _ _ => inl true
  | Spawn _ => tt
  | JournalSigned _ => None | JournalSigs _ => [] | JournalAppend _ _ _ => tt
  | EngineId _ => None | GetMeta _ => None | AddRevertedBuyFee _ _ => tt
  | SiblingAccount _ _ _ => None | FindReusableAccount _ _ => inl None
  | RegisterWait _ _ => tt | DropWait _ _ => tt | FeedSeq _ _ => 0
  | ObservedLegs sig => seen sig
  | SumObservedLegs sigs => foldl (fun acc sig => match seen sig with
                                    | Some l => Some (match acc with Some a => Signals.sum_pair a l | None => l end)
                                    | None => acc end) None sigs
  | FindFill _ _ _ _ => inl None | SumSellLegs _ _ _ _ => inl None
  | CacheMigrated _ => Some (migrated h) | CacheReserves _ => None | DurableMigrated _ => inl false
  | SetCurveCreator _ _ => tt | SetCashback _ _ => tt | SetMigrated _ => tt | CachedAccount _ _ => None
  | SignBuy _ _ => match names !! length (signed_buys h) with Some s => SignedAs s | None => SignTimedOut end
  | SendBuy _ _ => BuySent "account"%string
  | SignSell _ _ => match names !! length (signed_sells h) with Some s => SignedAs s | None => SignTimedOut end
  | NoteSignedSell _ _ _ => tt | ClearSignedSell _ _ _ => tt | TakeSignedSell _ _ => None
  | SendSell _ sig => if is_someb (seen sig) then inl tt else inr "dropped"%string
  | BurnNonce _ _ => Nonce.Dead
  | SigState _ sig => status sig
  | ChainCreator _ _ => inr "rpc"%string | RefreshAmmPool _ _ _ => inl true | RefreshCurveFacts _ _ => inl true
  | HealSellLegs _ _ _ _ => 0 | HasOtherOpen _ _ _ => inl false
  | MarkBuySubmitted _ _ => inl true | AppendExitSig _ _ => inl tt | UpdateMigrationStatus _ => inl tt
  | SignaturesWithLegs _ _ _ => inl ∅ | CloseTokenAccount _ _ _ => inl tt
  end.

(** ** The runs *)

Definition tuning0 : FeeTuning := mkTuning (f_of_Z 0) 100000.

Definition parse_any (s : string) : option string := Some s.

Definition live0 : LiveState := {|
  lv_inflight := InFlight.new; lv_journal := ∅; lv_registry := Registry.new; lv_fill_sigs := ∅; lv_signed_sells := ∅ |}.

Definition buy_demo : BuyOrder := {|
  bo_intent := {| i_rule := 1; i_mint := "mint"; i_seq := 1 |}; bo_pg_id := 7; bo_mint := "mint"; bo_creator := "creator"; bo_token_program_id := "token";
  bo_lamports := 1000000000; bo_cashback_enabled := false; bo_slippage_bps := Some 500; bo_token_account := None;
  bo_lane := None; bo_decided_at := 0; bo_wallet := "wallet" |}.

Definition sell_demo : SellOrder := {|
  so_intent := {| i_rule := 1; i_mint := "mint"; i_seq := 2 |}; so_pg_id := 7; so_mint := "mint"; so_token_amount := 1000; so_token_account := Some "account"%string;
  so_creator := Some "creator"%string; so_token_program_id := Some "token"%string; so_cashback_enabled := false;
  so_slippage_bps := Some 500; so_empties_bag := true; so_wallet := "wallet" |}.

Definition script names status seen : Oracle Call LiveState := live_oracle (scripted names status seen (fun _ => false)).

(** A first buy that reverts on slippage, and a second that fills. *)
Definition reverts (_ : string) : Res SigStatus := inl (RevertedWith (Some 6002)).
Definition unseen (_ : string) : Res SigStatus := inl Pending.
Definition lands (_ : string) : Res SigStatus := inl Succeeded.
Definition none_seen (_ : string) : option SigLegs := None.
Definition sees (name sig : string) : option SigLegs := if bool_decide (sig = name) then Some quiet_legs else None.

Definition buy_run names status seen (h : Hist) :=
  run (script names status seen) (run_entry tuning0 "wallet" parse_any buy_demo) h live0.
Definition sell_run names status seen (h : Hist) :=
  run (script names status seen) (run_exit tuning0 "wallet" parse_any sell_demo) h live0.

Lemma buy_runs_try names status seen h :
  buy_tries tuning0 "wallet" parse_any h true ->
  let h' := (buy_run names status seen h).1.2 in
  buy_tries tuning0 "wallet" parse_any h' (asks_again (newly h' h)).
Proof.
  intros Hh h'. destruct (run_newly (script names status seen) (run_entry tuning0 "wallet" parse_any buy_demo) h live0) as (st' & Eh & Er).
  fold (buy_run names status seen h) h' in Eh, Er. rewrite Eh at 1. rewrite Eh in Er.
  by eapply BuyAgain; [|apply live_oracle_honest|].
Qed.

Lemma sell_runs_try names status seen h :
  sell_tries tuning0 "wallet" parse_any h true ->
  let h' := (sell_run names status seen h).1.2 in
  sell_tries tuning0 "wallet" parse_any h' (asks_again (newly h' h)).
Proof.
  intros Hh h'. destruct (run_newly (script names status seen) (run_exit tuning0 "wallet" parse_any sell_demo) h live0) as (st' & Eh & Er).
  fold (sell_run names status seen h) h' in Eh, Er. rewrite Eh at 1. rewrite Eh in Er.
  by eapply SellAgain; [|apply live_oracle_honest|].
Qed.

(** ** The theorems on them *)

Abbreviation tries_demo := (buy_tries tuning0 "wallet" parse_any) (only parsing).

(** A buy that reverts on its slippage, and the next that fills. *)
Definition buy_1 : Hist := (buy_run ["a"; "b"]%string reverts none_seen []).1.2.
Definition buy_2 : Hist := (buy_run ["a"; "b"]%string lands (sees "b") buy_1).1.2.

(** A sell the network would not take, its nonce burned, and the attempt that clears. *)
Definition sell_1 : Hist := (sell_run ["a"; "b"]%string unseen (sees "b") []).1.2.

Lemma buy_2_tries : buy_tries tuning0 "wallet" parse_any buy_2 false.
Proof.
  assert (E : asks_again (newly buy_2 buy_1) = false) by by vm_compute. rewrite <- E. apply buy_runs_try.
  assert (E1 : asks_again (newly buy_1 []) = true) by by vm_compute. rewrite <- E1. apply buy_runs_try. constructor.
Qed.

Lemma sell_1_tries : sell_tries tuning0 "wallet" parse_any sell_1 false.
Proof.
  assert (E : asks_again (newly sell_1 []) = false) by by vm_compute. rewrite <- E. apply sell_runs_try. constructor.
Qed.

Lemma no_double_buy_witness :
  signed_buys buy_2 = ["b"; "a"]%string /\
  forall new trader spec sg old, buy_2 = new ++ did (SignBuy trader spec) sg :: old ->
     forall sig, sig ∈ signed_buys old -> harmless old sig = true.
Proof. split; [by vm_compute|apply (no_double_buy tuning0 "wallet" parse_any buy_2 false), buy_2_tries]. Defined.

Lemma no_double_sell_witness :
  signed_sells sell_1 = ["b"; "a"]%string /\
  forall new trader spec sg old, sell_1 = new ++ did (SignSell trader spec) sg :: old ->
     forall sig, sig ∈ signed_sells old -> harmless old sig = true.
Proof. split; [by vm_compute|apply (no_double_sell tuning0 "wallet" parse_any sell_1 false), sell_1_tries]. Defined.

Lemma buy_speaks_once_witness : exists new st',
  buy_run ["a"]%string lands (sees "a") [] = (tt, new ++ [], st') /\
  match reports new with
  | [] => signed_buys new <> []
  | [RepFailed _ Reverted _] => all_harmless signed_buys (new ++ [])
  | [RepConfirmed _ f] => 0 < fl_token_amount f
  | [_] => True
  | _ => False
  end.
Proof.
  apply (buy_speaks_once tuning0 "wallet" parse_any); [apply live_oracle_honest|done|].
  intros sig Hs. by apply not_elem_of_nil in Hs.
Defined.

Lemma sell_accounts_for_itself_witness : exists new st',
  sell_run ["a"; "b"]%string unseen (sees "b") [] = (tt, new ++ [], st') /\
  match reports new with
  | [] => signed_sells new = []
  | [RepFailed _ Reverted _] => signed_sells new = []
  | [RepConfirmed _ f] => so_token_amount sell_demo <= fl_token_amount f
  | [_] => True
  | _ => False
  end.
Proof.
  destruct (sell_accounts_for_itself tuning0 "wallet" parse_any (script ["a"; "b"]%string unseen (sees "b")) [] live0 sell_demo)
    as (new & st' & Hr & Hm & _); [apply live_oracle_honest|reflexivity|exact I|].
  exists new, st'. split; [exact Hr|exact Hm].
Defined.

(** ** Two sells of one account *)

(** One request of task [i], if it has one left. *)
Definition drive1 (o : Oracle Call LiveState) (p : Pool Call LiveState) (i : nat) : Pool Call LiveState :=
  let '(st, ts) := p in
  match ts !! i with
  | Some {| tk_prog := Do c k; tk_done := h |} =>
      let b := o _ h st c in (live_after st c b, <[i := {| tk_prog := k b; tk_done := did c b :: h |}]> ts)
  | _ => p
  end.

Definition drive (o : Oracle Call LiveState) (p : Pool Call LiveState) (schedule : list nat) : Pool Call LiveState :=
  foldl (drive1 o) p schedule.

Lemma drive_reaches spawns o p schedule : honest o -> reaches spawns p (drive o p schedule).
Proof.
  intros Ho. revert p. induction schedule as [|i schedule IH]; intros [st ts]; [done|]. cbn [drive foldl].
  etrans; [|apply IH]. unfold drive1. destruct (ts !! i) as [[[[]|B c k] h]|] eqn:Hi; [done| |done].
  apply rtc_once. cbv zeta.
  exact (PoolCall spawns st ts i B c k h (o B h st c) Hi (Ho B h st c)).
Qed.

Definition other_sell : SellOrder := {|
  so_intent := {| i_rule := 2; i_mint := "mint"; i_seq := 1 |}; so_pg_id := 8; so_mint := "mint"; so_token_amount := 500;
  so_token_account := Some "account"%string; so_creator := Some "creator"%string; so_token_program_id := Some "token"%string;
  so_cashback_enabled := false; so_slippage_bps := Some 500; so_empties_bag := false; so_wallet := "wallet" |}.

Definition fresh (p : Prog Call unit) : Task Call := {| tk_prog := p; tk_done := [] |}.

Definition two_sells : Pool Call LiveState :=
  (live0, [fresh (run_exit tuning0 "wallet" parse_any sell_demo); fresh (run_exit tuning0 "wallet" parse_any other_sell)]).

(** The first takes the account, and the second queues behind it and goes on when it is done. *)
Definition contest (more : list nat) : Pool Call LiveState :=
  drive (script ["a"]%string lands (sees "a")) two_sells (replicate 12 0%nat ++ replicate 6 1%nat ++ more).

Definition locked (p : Pool Call LiveState) :=
  (map (fun t => entries (cl_mint (claims (tk_done t)))) p.2,
   map (fun e => (e.1, InFlight.ml_holder e.2, InFlight.ml_queue e.2)) (entries (InFlight.exit_mints (lv_inflight p.1)))).

Lemma contest_reached more : reaches (spawned tuning0 "wallet" parse_any) (live0, []) (contest more).
Proof.
  unfold contest. etrans; [|apply (drive_reaches _ _ two_sells), live_oracle_honest].
  eapply rtc_l; [apply PoolSpawn, SpawnExit|]. eapply rtc_l; [apply PoolSpawn, SpawnExit|]. apply rtc_refl.
Qed.

Example contest_handed_over :
  map (fun more => locked (contest more)) [[]; replicate 60 0%nat; replicate 60 0%nat ++ [1%nat]] =
  [([[("wallet:mint", 7)]; []], [("wallet:mint", 7, [8])]);
   ([[]; []], [("wallet:mint", 8, [])]);
   ([[]; [("wallet:mint", 8)]], [("wallet:mint", 8, [])])]%string.
Proof. vm_compute. reflexivity. Qed.

Lemma one_exit_per_account_witness :
  reaches (spawned tuning0 "wallet" parse_any) (live0, []) (contest []) /\
  forall i j t u key, (contest []).2 !! i = Some t -> (contest []).2 !! j = Some u ->
    is_Some (cl_mint (claims (tk_done t)) !! key) -> is_Some (cl_mint (claims (tk_done u)) !! key) -> i = j.
Proof.
  split; [apply contest_reached|].
  apply (one_exit_per_account tuning0 "wallet" parse_any live0 (contest []).1 (contest []).2); [reflexivity|].
  rewrite <- surjective_pairing. apply contest_reached.
Defined.
