(* ===== verification/Grid.v ===== *)
(** * Grid: trades interleaved with the ticks the engine decides on

    [metrics/grid.rs].  A coin's trades are folded into a series with the grid ticks of each
    gap: the first [MAX_TICKS_PER_GAP] up to the horizon past which nothing is taken to
    change.  The loop keeps a cursor and a row budget; [sparse_events] is the same replay
    without either.  The theorems: the fold is that replay cut at the budget, and which ticks
    of a quiet tail it holds. *)

From S2P Require Export Series Compile.
From S2P Require Import Float64 Track Scenario.

Definition TICK_MS : Z := 200.
Definition MAX_TICKS_PER_GAP : Z := 2 * 24 * 3600 * 2.

Record SparseGrid := { max_window_secs : f64; time_horizon_secs : f64; stall_horizon_secs : f64 }.

Definition SparseGrid_default : SparseGrid :=
  {| max_window_secs := f_zero; time_horizon_secs := f_zero; stall_horizon_secs := f_zero |}.

Definition for_windows (windows : list f64) : SparseGrid :=
  {| max_window_secs := foldl fmax f_zero windows; time_horizon_secs := f_zero; stall_horizon_secs := f_zero |}.

Definition widen (g other : SparseGrid) : SparseGrid := {|
  max_window_secs := fmax (max_window_secs g) (max_window_secs other);
  time_horizon_secs := fmax (time_horizon_secs g) (time_horizon_secs other);
  stall_horizon_secs := fmax (stall_horizon_secs g) (stall_horizon_secs other) |}.

(** The local [secs] of [gap_horizon]. *)
Definition gap_secs (s : f64) : Duration :=
  let ms := fceil (clamp_secs s ⊗ f_of_Z 1000) in
  let ms_i := if is_finite ms then f_as_i64 (fmin ms (f_of_Z (i64_max / 2))) else 0 in
  dur_milliseconds (Z.max ms_i 0).

Definition gap_horizon (g : SparseGrid) (created last_trade_at last_meaningful_at : Ts) : Ts :=
  let h := last_trade_at in
  let h := Z.max h (last_trade_at + gap_secs (max_window_secs g)) in
  let h := Z.max h (created + gap_secs (time_horizon_secs g)) in
  let h := Z.max h (last_trade_at + gap_secs (stall_horizon_secs g)) in
  Z.max h (last_meaningful_at + dur_seconds Deadness.DEAD_QUIET_SECS).

Record SparseFold := { sf_rows : Z; sf_truncated : bool; sf_covered_until : Ts; sf_covered_from : Ts }.

Section grid.
Context `{TrackOps}.

Abbreviation series := MetricSeries (only parsing).

Definition rows_of (s : series) : Z := Z.of_nat (n_rows s).

(** The loop of [emit_gap_ticks]: whether the budget stopped it, and the cursor.  [room] is
    what the gap's cap still allows. *)
Fixpoint emit_loop (room : nat) (s : series) (next_tick stop horizon : Ts) (budget : Z) : bool * series * Ts :=
  if (next_tick <? stop) && (next_tick <=? horizon) then
    if budget <=? rows_of s then (true, s, next_tick)
    else match room with
         | O => (false, s, next_tick)
         | S room => emit_loop room (push_tick s next_tick) (next_tick + dur_milliseconds TICK_MS) stop horizon budget
         end
  else (false, s, next_tick).

Definition emit_gap_ticks (s : series) (next_tick stop horizon created : Ts) (budget : Z) : bool * series * Ts :=
  let '(out, s, next_tick) := emit_loop (Z.to_nat MAX_TICKS_PER_GAP) s next_tick stop horizon budget in
  if out : bool then (true, s, next_tick)
  else if next_tick <? stop then
    let k := Z.quot (num_milliseconds (stop - created) + TICK_MS - 1) TICK_MS in
    (false, s, created + dur_milliseconds (k * TICK_MS))
  else (false, s, next_tick).

Fixpoint fold_gaps (grid : SparseGrid) (created : Ts) (budget : Z) (s : series) (next_tick last_trade_at : Ts)
    (trades : list (TradeLite * option Z)) : bool * series * Ts * Ts :=
  match trades with
  | [] => (false, s, next_tick, last_trade_at)
  | (t, slot) :: rest =>
      let horizon := gap_horizon grid created last_trade_at (ms_last_meaningful_at s) in
      let '(out, s, next_tick) := emit_gap_ticks s next_tick (t_at t) horizon created budget in
      if (out : bool) || (budget <=? rows_of s) then (true, s, next_tick, last_trade_at)
      else
        fold_gaps grid created budget (push_trade_at s t slot) next_tick
          (if last_trade_at <? t_at t then t_at t else last_trade_at) rest
  end.

Definition is_nil {A} (l : list A) : bool := match l with [] => true | _ => false end.

Definition fold_sparse (s : series) (created : Ts) (trades : list (TradeLite * option Z)) (grid : SparseGrid) (as_of : Ts)
    (max_rows : option Z) : series * SparseFold :=
  let budget := unwrap_or max_rows u64_max in
  let '(truncated, s, next_tick, last_trade_at) :=
    fold_gaps grid created budget s (created + dur_milliseconds TICK_MS) created trades in
  let '(truncated, s) :=
    if negb (is_nil trades) && negb truncated then
      let cap := last_trade_at + dur_seconds (Deadness.DEAD_QUIET_SECS + Deadness.TAIL_MARGIN_SECS) in
      let horizon := gap_horizon grid created last_trade_at (ms_last_meaningful_at s) in
      let '(out, s, _) := emit_gap_ticks s next_tick (Z.min as_of cap) horizon created budget in
      (out, s)
    else (truncated, s) in
  (s, {| sf_rows := rows_of s; sf_truncated := truncated; sf_covered_until := unwrap_or (last (ms_at s)) created;
         sf_covered_from := unwrap_or (head (ms_at s)) created |}).

(** The estimate's state: the rows so far and the newest instant. *)
Definition estimate_sparse_rows (created : Ts) (trade_times : list Ts) (grid : SparseGrid) (as_of : Ts) : Z :=
  let tick_ms := Z.max TICK_MS 1 in
  let widest := fmax (fmax (clamp_secs (max_window_secs grid)) (clamp_secs (time_horizon_secs grid)))
                  (clamp_secs (stall_horizon_secs grid)) in
  let horizon_ms := f_as_i64 (fceil ((widest ⊕ f_of_Z Deadness.DEAD_QUIET_SECS) ⊗ f_of_Z 1000)) in
  let step '(rows, prev) at_ :=
    let gap_ms := Z.max (num_milliseconds (at_ - prev)) 0 in
    let ticks := Z.quot (Z.max (Z.min gap_ms horizon_ms) 0) tick_ms in
    (sat_add u64_max (sat_add u64_max rows 1) ticks, if prev <? at_ then at_ else prev) in
  let '(rows, prev) := foldl step (0, created) trade_times in
  if is_nil trade_times then 0
  else
    let tail_cap := prev + dur_seconds (Deadness.DEAD_QUIET_SECS + Deadness.TAIL_MARGIN_SECS) in
    let tail_ms := Z.max (num_milliseconds (Z.min as_of tail_cap - prev)) 0 in
    sat_add u64_max rows (Z.quot (Z.max (Z.min tail_ms horizon_ms) 0) tick_ms).

(** ** The replay without a cursor *)

Definition grid_tick (created : Ts) (k : Z) : Ts := created + dur_milliseconds (k * TICK_MS).

(** The first grid index at or after an instant. *)
Definition first_index (created t : Ts) : Z := Z.max 1 (- ((created - t) / dur_milliseconds TICK_MS)).

(** The indices of the grid ticks from [from] on, before [stop] and at most [horizon]. *)
Definition due_indices (created from stop horizon : Ts) : list Z :=
  let k := first_index created from in
  seqZ k (Z.min (first_index created stop - k) ((horizon - created) / dur_milliseconds TICK_MS - k + 1)).

(** Of these a gap holds the first [MAX_TICKS_PER_GAP]; the others are lost. *)
Definition gap_indices (created from stop horizon : Ts) : list Z :=
  take (Z.to_nat MAX_TICKS_PER_GAP) (due_indices created from stop horizon).

Definition gap_events (created from stop horizon : Ts) : list SeriesEvent :=
  map (fun k => EvTick (grid_tick created k)) (gap_indices created from stop horizon).

(** The deadness clock after a trade. *)
Definition meaningful_after (lm : Ts) (t : TradeLite) : Ts :=
  if (t_sol t >=. Deadness.DEAD_MEANINGFUL_TRADE_SOL) && (lm <=? t_at t) then t_at t else lm.

Fixpoint events_from (grid : SparseGrid) (created as_of last lm : Ts) (trades : list (TradeLite * option Z))
    : list SeriesEvent :=
  match trades with
  | [] =>
      gap_events created last
        (Z.min as_of (last + dur_seconds (Deadness.DEAD_QUIET_SECS + Deadness.TAIL_MARGIN_SECS)))
        (gap_horizon grid created last lm)
  | (t, slot) :: rest =>
      gap_events created last (t_at t) (gap_horizon grid created last lm) ++
      EvTrade t slot :: events_from grid created as_of (t_at t) (meaningful_after lm t) rest
  end.

Definition sparse_events (grid : SparseGrid) (created as_of lm : Ts) (trades : list (TradeLite * option Z))
    : list SeriesEvent :=
  match trades with [] => [] | _ => events_from grid created as_of created lm trades end.

(** Trades in time order from the creation on, at whole milliseconds after it. *)
Fixpoint in_order (created last : Ts) (trades : list (TradeLite * option Z)) : Prop :=
  match trades with
  | [] => True
  | (t, _) :: rest => last <= t_at t /\ (ns_per_ms | t_at t - created) /\ in_order created (t_at t) rest
  end.
End grid.

(** ** The grid fold is a replay cut at its budget *)

Section grid.
Context `{TrackOps}.

Abbreviation series := MetricSeries (only parsing).
Abbreviation tick := (dur_milliseconds TICK_MS) (only parsing).

Lemma tick_pos : 0 < dur_milliseconds TICK_MS.
Proof. done. Qed.

(** ** The cursor *)

Lemma grid_tick_lt created k t : (grid_tick created k < t) <-> k < - ((created - t) / dur_milliseconds TICK_MS).
Proof.
  unfold grid_tick. replace (dur_milliseconds (k * TICK_MS)) with (k * dur_milliseconds TICK_MS) by (unfold dur_milliseconds; lia).
  pose proof tick_pos. set (T := dur_milliseconds TICK_MS) in *.
  pose proof (Z.div_mod (created - t) T ltac:(lia)). pose proof (Z.mod_pos_bound (created - t) T ltac:(lia)). split; nia.
Qed.

Lemma grid_tick_le created k t : (grid_tick created k <= t) <-> k <= (t - created) / dur_milliseconds TICK_MS.
Proof.
  unfold grid_tick. replace (dur_milliseconds (k * TICK_MS)) with (k * dur_milliseconds TICK_MS) by (unfold dur_milliseconds; lia).
  pose proof tick_pos. set (T := dur_milliseconds TICK_MS) in *.
  pose proof (Z.div_mod (t - created) T ltac:(lia)). pose proof (Z.mod_pos_bound (t - created) T ltac:(lia)). split; nia.
Qed.

Lemma grid_tick_next created k : grid_tick created k + dur_milliseconds TICK_MS = grid_tick created (k + 1).
Proof. unfold grid_tick, dur_milliseconds. lia. Qed.

Lemma first_index_mono created s t : s <= t -> first_index created s <= first_index created t.
Proof.
  intros Hst. unfold first_index. pose proof (Z.div_le_mono (created - t) (created - s) _ tick_pos ltac:(lia)). lia.
Qed.

Lemma first_index_pos created t : 1 <= first_index created t.
Proof. unfold first_index. lia. Qed.

(** ** One gap *)

Definition ticks_of (created : Ts) (l : list Z) : list SeriesEvent := map (fun k => EvTick (grid_tick created k)) l.

(** What a budget of rows leaves of a replay. *)
Definition cut (budget : Z) (s : series) (es : list SeriesEvent) : series :=
  foldl push_event s (take (Z.to_nat (budget - rows_of s)) es).

Lemma rows_push s es : ms_record_from s = None -> rows_of (foldl push_event s es) = rows_of s + Z.of_nat (length es).
Proof. intros Hr. unfold rows_of. rewrite n_rows_push by done. lia. Qed.

Lemma record_push s es : ms_record_from (foldl push_event s es) = ms_record_from s.
Proof. apply push_events_keep. Qed.

Lemma cut_spent budget s es es' : ms_record_from s = None -> budget <= rows_of (cut budget s es) ->
  cut budget s (es ++ es') = cut budget s es.
Proof.
  unfold cut. intros Hr Hb. rewrite rows_push in Hb by done. rewrite length_take in Hb.
  by rewrite take_app_le by lia.
Qed.

(** The indices the loop runs over from [k] with [room] left. *)
Definition loop_indices (created : Ts) (room k : Z) (stop horizon : Ts) : list Z :=
  seqZ k (Z.min room (Z.min (first_index created stop - k) ((horizon - created) / dur_milliseconds TICK_MS - k + 1))).

Lemma take_seqZ m n k : 0 <= k -> take (Z.to_nat k) (seqZ m n) = seqZ m (Z.min k n).
Proof.
  intros Hk. apply list_eq. intros i. destruct (decide (Z.of_nat i < Z.min k n)).
  - rewrite lookup_take_lt by lia. by rewrite !lookup_seqZ_lt by lia.
  - rewrite (lookup_seqZ_ge m (Z.min k n)) by lia. destruct (decide (i < Z.to_nat k)%nat).
    + rewrite lookup_take_lt by done. by rewrite lookup_seqZ_ge by lia.
    + by rewrite lookup_take_ge by lia.
Qed.

Lemma gap_indices_loop created from stop horizon :
  gap_indices created from stop horizon = loop_indices created MAX_TICKS_PER_GAP (first_index created from) stop horizon.
Proof. unfold gap_indices, due_indices. by rewrite take_seqZ. Qed.

(** A stretch of the fold from [s]: it pushes [es], unless the budget stops it. *)
Definition stretch (budget : Z) (s : series) (es : list SeriesEvent) (out : bool) (s' : series) : Prop :=
  s' = cut budget s es /\ (if out then budget <= rows_of s' else s' = foldl push_event s es).

Lemma stretch_nil budget s : stretch budget s [] false s.
Proof. unfold stretch, cut. by rewrite take_nil. Qed.

Lemma stretch_full budget s es : budget <= rows_of s -> stretch budget s es true s.
Proof. intros Hb. unfold stretch, cut. replace (Z.to_nat _) with O by lia. done. Qed.

Lemma stretch_app budget s es s1 es' out s' : ms_record_from s = None ->
  stretch budget s es false s1 -> stretch budget s1 es' out s' -> stretch budget s (es ++ es') out s'.
Proof.
  intros Hr [E1 E2] [-> E3]. assert (Hl : rows_of s1 = rows_of s + Z.of_nat (length es)) by (rewrite E2; by apply rows_push).
  assert (Hc : cut budget s (es ++ es') = cut budget s1 es').
  { assert (Hle : es = [] \/ Z.of_nat (length es) <= budget - rows_of s).
    { destruct es as [|e es]; [by left|right]. rewrite E1 in Hl. unfold cut in Hl. rewrite rows_push in Hl by done.
      rewrite length_take in Hl. cbn [length] in *. lia. }
    unfold cut. destruct Hle as [->|Hle]; [by rewrite E2|]. rewrite take_app_ge by lia. rewrite foldl_app, <- E2, Hl.
    do 2 f_equal. lia. }
  split; [done|]. destruct out; [done|]. rewrite foldl_app, <- E2. done.
Qed.

Lemma stretch_stop budget s es es' s' : ms_record_from s = None ->
  stretch budget s es true s' -> stretch budget s (es ++ es') true s'.
Proof. intros Hr [-> Hb]. split; [|done]. symmetry. by apply cut_spent. Qed.

Lemma emit_loop_spec created stop horizon budget room : forall s k, 1 <= k -> ms_record_from s = None ->
  let es := ticks_of created (loop_indices created (Z.of_nat room) k stop horizon) in
  exists out s' k', emit_loop room s (grid_tick created k) stop horizon budget = (out, s', grid_tick created k') /\
    stretch budget s es out s' /\ (out = false -> k' = k + Z.of_nat (length es)).
Proof.
  assert (Hstop : forall k, 1 <= k -> (grid_tick created k <? stop) && (grid_tick created k <=? horizon) = true <->
                     0 < Z.min (first_index created stop - k) ((horizon - created) / dur_milliseconds TICK_MS - k + 1)).
  { intros k Hk. rewrite andb_true_iff, Z.ltb_lt, Z.leb_le, grid_tick_lt, grid_tick_le. unfold first_index. lia. }
  induction room as [|room IH]; intros s k Hk Hr es; cbn [emit_loop].
  - assert (Hes : es = []) by (unfold es, loop_indices; by rewrite (seqZ_nil _ _) by lia).
    rewrite Hes. destruct (_ && _); [destruct (budget <=? rows_of s) eqn:Eb|].
    + exists true, s, k. split; [done|]. split; [apply stretch_full; lia|done].
    + exists false, s, k. split; [done|]. split; [apply stretch_nil|cbn; lia].
    + exists false, s, k. split; [done|]. split; [apply stretch_nil|cbn; lia].
  - destruct (_ && _) eqn:Ec.
    + apply Hstop in Ec; [|done]. destruct (budget <=? rows_of s) eqn:Eb.
      { exists true, s, k. split; [done|]. split; [apply stretch_full; lia|done]. }
      rewrite grid_tick_next. set (s1 := push_tick s (grid_tick created k)).
      assert (Hr1 : ms_record_from s1 = None) by (rewrite <- Hr; apply (push_event_keeps s (EvTick _))).
      destruct (IH s1 (k + 1) ltac:(lia) Hr1) as (out & s' & k' & -> & Hs & Hk').
      assert (Hes : es = EvTick (grid_tick created k) :: ticks_of created (loop_indices created (Z.of_nat room) (k + 1) stop horizon)).
      { unfold es, loop_indices. rewrite seqZ_cons by lia. cbn. do 3 f_equal; lia. }
      exists out, s', k'. split; [done|]. rewrite Hes. split.
      * apply (stretch_app budget s [EvTick (grid_tick created k)] s1); [done| |done].
        unfold stretch, cut. destruct (Z.to_nat (budget - rows_of s)) eqn:E; [lia|]. cbn. by rewrite take_nil.
      * intros ->. cbn [length]. rewrite Hk' by done. lia.
    + assert (Hes : es = []).
      { unfold es, loop_indices. rewrite (seqZ_nil _ _); [done|].
        destruct (Z.le_gt_cases (Z.min (first_index created stop - k) ((horizon - created) / dur_milliseconds TICK_MS - k + 1)) 0); [lia|].
        apply not_true_iff_false in Ec. by destruct Ec; apply Hstop. }
      rewrite Hes. exists false, s, k. split; [done|]. split; [apply stretch_nil|cbn; lia].
Qed.

Lemma jump_target created stop : created < stop -> (ns_per_ms | stop - created) ->
  created + dur_milliseconds (Z.quot (num_milliseconds (stop - created) + TICK_MS - 1) TICK_MS * TICK_MS)
  = grid_tick created (first_index created stop).
Proof.
  intros Hlt [m Hm]. unfold grid_tick. do 3 f_equal. rewrite Hm. unfold num_milliseconds.
  rewrite Z.quot_mul by done. assert (Hpos : 0 < m) by (unfold ns_per_ms in *; lia).
  rewrite Z.quot_div_nonneg by (unfold TICK_MS; lia). unfold first_index.
  replace (created - stop) with (- m * ns_per_ms) by lia.
  unfold dur_milliseconds. rewrite Z.div_mul_cancel_r by done.
  pose proof (Z.div_mod (m + TICK_MS - 1) TICK_MS ltac:(done)). pose proof (Z.mod_pos_bound (m + TICK_MS - 1) TICK_MS ltac:(done)).
  pose proof (Z.div_mod (- m) TICK_MS ltac:(done)). pose proof (Z.mod_pos_bound (- m) TICK_MS ltac:(done)).
  unfold TICK_MS in *. lia.
Qed.

(** A gap, from the cursor at its start to the cursor at its end. *)
Lemma emit_gap_spec created from stop horizon budget s : ms_record_from s = None ->
  exists out s' next, emit_gap_ticks s (grid_tick created (first_index created from)) stop horizon created budget = (out, s', next) /\
    stretch budget s (gap_events created from stop horizon) out s' /\
    (out = false -> created <= from <= stop -> (ns_per_ms | stop - created) -> next = grid_tick created (first_index created stop)).
Proof.
  intros Hr. unfold emit_gap_ticks. pose proof (first_index_pos created from) as Hp.
  destruct (emit_loop_spec created stop horizon budget (Z.to_nat MAX_TICKS_PER_GAP) s _ Hp Hr) as (out & s' & k & -> & Hs & Hk).
  rewrite Z2Nat.id, <- gap_indices_loop in Hs, Hk by done. change (ticks_of created _) with (gap_events created from stop horizon) in Hs, Hk.
  destruct out; [by exists true, s', (grid_tick created k)|]. specialize (Hk eq_refl).
  destruct (grid_tick created k <? stop) eqn:E; eexists false, s', _; (split; [reflexivity|]); (split; [done|]); intros _ Hle Hms.
  - apply jump_target; [|done]. apply Z.ltb_lt in E. unfold grid_tick, dur_milliseconds, TICK_MS, ns_per_ms in *. lia.
  - f_equal. apply Z.ltb_ge in E. assert (Hge : ~ grid_tick created k < stop) by lia. rewrite grid_tick_lt in Hge.
    pose proof (first_index_mono created from stop ltac:(lia)).
    assert (Hlen : Z.of_nat (length (gap_events created from stop horizon)) <= first_index created stop - first_index created from).
    { unfold gap_events. rewrite gap_indices_loop. unfold loop_indices. rewrite length_map, length_seqZ. lia. }
    unfold first_index in *. lia.
Qed.

(** ** The fold *)

Lemma push_meaningful s e : ms_last_meaningful_at (push_event s e) =
  match e with EvTrade t _ => meaningful_after (ms_last_meaningful_at s) t | EvTick _ => ms_last_meaningful_at s end.
Proof. destruct e; unfold push_event, push_trade_at, push_tick, series_record, meaningful_after; cbn; by destruct (is_some_and _ _). Qed.

Lemma gap_meaningful s created from stop horizon :
  ms_last_meaningful_at (foldl push_event s (gap_events created from stop horizon)) = ms_last_meaningful_at s.
Proof.
  unfold gap_events. generalize (gap_indices created from stop horizon). intros l. revert s.
  induction l as [|k l IH]; intros s; [done|]. cbn. rewrite IH. apply (push_meaningful s (EvTick _)).
Qed.

(** The events of the gaps up to the last trade, and those of the tail. *)
Fixpoint gaps_events (grid : SparseGrid) (created last lm : Ts) (trades : list (TradeLite * option Z)) : list SeriesEvent :=
  match trades with
  | [] => []
  | (t, slot) :: rest =>
      gap_events created last (t_at t) (gap_horizon grid created last lm) ++
      EvTrade t slot :: gaps_events grid created (t_at t) (meaningful_after lm t) rest
  end.

Fixpoint last_trade (last : Ts) (trades : list (TradeLite * option Z)) : Ts :=
  match trades with [] => last | (t, _) :: rest => last_trade (t_at t) rest end.

Definition last_meaningful (lm : Ts) (trades : list (TradeLite * option Z)) : Ts :=
  foldl (fun lm x => meaningful_after lm x.1) lm trades.

Lemma events_split grid created as_of trades : forall last lm,
  events_from grid created as_of last lm trades =
  gaps_events grid created last lm trades ++
  gap_events created (last_trade last trades)
    (Z.min as_of (last_trade last trades + dur_seconds (Deadness.DEAD_QUIET_SECS + Deadness.TAIL_MARGIN_SECS)))
    (gap_horizon grid created (last_trade last trades) (last_meaningful lm trades)).
Proof.
  induction trades as [|[t slot] rest IH]; intros last lm; [done|]. cbn [events_from gaps_events last_trade].
  rewrite IH, <- app_assoc. done.
Qed.

Lemma fold_gaps_spec grid created budget trades : forall s last,
  created <= last -> in_order created last trades -> ms_record_from s = None ->
  exists out s' next last', fold_gaps grid created budget s (grid_tick created (first_index created last)) last trades
      = (out, s', next, last') /\
    stretch budget s (gaps_events grid created last (ms_last_meaningful_at s) trades) out s' /\
    (out = false -> next = grid_tick created (first_index created last') /\ last' = last_trade last trades /\
       ms_last_meaningful_at s' = last_meaningful (ms_last_meaningful_at s) trades).
Proof.
  induction trades as [|[t slot] rest IH]; intros s last Hc Ho Hr; cbn [fold_gaps gaps_events last_trade].
  { eexists false, s, _, last. split; [done|]. split; [apply stretch_nil|done]. }
  destruct Ho as (Hle & Hms & Ho). set (horizon := gap_horizon _ _ _ _).
  destruct (emit_gap_spec created last (t_at t) horizon budget s Hr) as (out & s1 & next & -> & Hs1 & Hnext).
  destruct out; cbn [orb].
  { eexists true, s1, next, last. split; [done|]. split; [by apply stretch_stop|done]. }
  specialize (Hnext eq_refl ltac:(lia) Hms). destruct Hs1 as [Hs1 E1].
  assert (Hr1 : ms_record_from s1 = None) by (rewrite E1, record_push; done).
  destruct (budget <=? rows_of s1) eqn:Eb.
  { eexists true, s1, next, last. split; [done|]. split; [|done]. apply stretch_stop; [done|]. split; [done|lia]. }
  subst next. assert (Hl : (if last <? t_at t then t_at t else last) = t_at t) by (destruct (last <? t_at t) eqn:E; lia).
  rewrite Hl. set (s2 := push_trade_at s1 t slot).
  assert (Hm2 : ms_last_meaningful_at s2 = meaningful_after (ms_last_meaningful_at s) t).
  { transitivity (meaningful_after (ms_last_meaningful_at s1) t); [apply (push_meaningful s1 (EvTrade t slot))|].
    by rewrite E1, gap_meaningful. }
  assert (Hr2 : ms_record_from s2 = None) by (rewrite <- Hr1; apply (push_event_keeps s1 (EvTrade t slot))).
  destruct (IH s2 (t_at t) ltac:(lia) Ho Hr2) as (out & s' & next & last' & -> & Hs' & Hn).
  rewrite Hm2 in Hs', Hn. exists out, s', next, last'. split; [done|]. split; [|done].
  apply (stretch_app budget s _ s1); [done|by split|]. apply (stretch_app budget s1 [EvTrade t slot] s2); [done| |done].
  unfold stretch, cut. destruct (Z.to_nat (budget - rows_of s1)) eqn:E; [lia|]. cbn. by rewrite take_nil.
Qed.

(** C40: for trades in time order from the creation on, at whole milliseconds after it, and a
    series that records from its first row: the sparse fold is a replay of the trades with,
    of each gap, the first [MAX_TICKS_PER_GAP] of its grid ticks up to its horizon, and of the
    tail likewise up to its end.  Every row it holds is the next event of that replay, a fold
    that does not report truncation holds all of it, and a truncated one has filled its row
    budget. *)
Theorem sparse_fold_is_the_replay s created trades grid as_of max_rows :
  in_order created created trades -> ms_record_from s = None ->
  let budget := unwrap_or max_rows u64_max in
  let es := sparse_events grid created as_of (ms_last_meaningful_at s) trades in
  let '(s', f) := fold_sparse s created trades grid as_of max_rows in
  s' = foldl push_event s (take (Z.to_nat (budget - rows_of s)) es) /\
  (if sf_truncated f then budget <= rows_of s' else s' = foldl push_event s es) /\
  sf_rows f = rows_of s'.
Proof.
  intros Ho Hr budget es. unfold fold_sparse. fold budget.
  assert (E0 : created + dur_milliseconds TICK_MS = grid_tick created (first_index created created)).
  { unfold first_index. rewrite Z.sub_diag, Z.div_0_l by done. unfold grid_tick. done. }
  rewrite E0. destruct (fold_gaps_spec grid created budget trades s created ltac:(lia) Ho Hr)
    as (out & s1 & next & last & -> & Hs1 & Hn).
  destruct trades as [|x trades].
  { destruct Hs1 as [-> Hs1]. cbn [is_nil negb andb sf_truncated sf_rows]. unfold cut in *. cbn in *. done. }
  change es with (events_from grid created as_of created (ms_last_meaningful_at s) (x :: trades)) in *.
  rewrite events_split. cbn [is_nil negb andb]. destruct out; cbn [negb].
  { destruct (stretch_stop budget s _ (gap_events created (last_trade created (x :: trades)) (Z.min as_of
       (last_trade created (x :: trades) + dur_seconds (Deadness.DEAD_QUIET_SECS + Deadness.TAIL_MARGIN_SECS)))
       (gap_horizon grid created (last_trade created (x :: trades)) (last_meaningful (ms_last_meaningful_at s) (x :: trades)))) s1 Hr Hs1)
      as [H1 H2]. by split; [|split]. }
  destruct (Hn eq_refl) as (-> & -> & Hm). rewrite Hm. set (last := last_trade created (x :: trades)). clear Hn.
  assert (Hr1 : ms_record_from s1 = None) by (destruct Hs1 as [_ ->]; by rewrite record_push).
  match goal with |- context [emit_gap_ticks s1 _ ?stop ?hor created budget] =>
    destruct (emit_gap_spec created last stop hor budget s1 Hr1) as (out & s2 & nx & -> & Hs2 & _) end.
  destruct (stretch_app budget s _ s1 _ out s2 Hr Hs1 Hs2) as [H1 H2]. by split; [|split].
Qed.
End grid.

(** ** The tail of a quiet coin *)

Definition tail_events (grid : SparseGrid) (created as_of last lm : Ts) : list SeriesEvent :=
  gap_events created last (Z.min as_of (last + dur_seconds (Deadness.DEAD_QUIET_SECS + Deadness.TAIL_MARGIN_SECS)))
    (gap_horizon grid created last lm).

Lemma gap_events_elem created from stop horizon now :
  EvTick now ∈ gap_events created from stop horizon <->
  exists k, now = grid_tick created k /\ k ∈ gap_indices created from stop horizon.
Proof.
  unfold gap_events. change (map ?f ?l) with (f <$> l). rewrite list_elem_of_fmap. split; intros (k & E & Hk); exists k.
  - by injection E as ->.
  - by rewrite E.
Qed.

(** The ticks that are due in a gap: those of the grid in it, up to the horizon. *)
Lemma due_indices_elem created from stop horizon k :
  k ∈ due_indices created from stop horizon <->
  1 <= k /\ from <= grid_tick created k < stop /\ grid_tick created k <= horizon.
Proof.
  unfold due_indices. rewrite elem_of_seqZ, grid_tick_lt, grid_tick_le. pose proof (grid_tick_lt created k from).
  unfold first_index. lia.
Qed.

Lemma gap_indices_elem created from stop horizon k :
  k ∈ gap_indices created from stop horizon <->
  1 <= k /\ from <= grid_tick created k < stop /\ grid_tick created k <= horizon /\ k - first_index created from < MAX_TICKS_PER_GAP.
Proof.
  rewrite gap_indices_loop. unfold loop_indices. rewrite elem_of_seqZ, grid_tick_lt, grid_tick_le.
  assert (Hf : from <= grid_tick created k <-> - ((created - from) / dur_milliseconds TICK_MS) <= k).
  { pose proof (grid_tick_lt created k from). lia. }
  rewrite Hf. unfold first_index. lia.
Qed.

(** A tail that only waits for the deadness clock reaches the instant of death exactly
    when the last meaningful trade lies on the tick grid; the tail of any other coin stops a
    tick short of it, and no row of it is dead. *)
Theorem tail_books_death_on_the_grid grid created as_of last lm :
  created <= lm <= last -> last <= lm + dur_seconds Deadness.DEAD_QUIET_SECS ->
  lm + dur_seconds Deadness.DEAD_QUIET_SECS < as_of ->
  gap_horizon grid created last lm = lm + dur_seconds Deadness.DEAD_QUIET_SECS ->
  ((exists now r, EvTick now ∈ tail_events grid created as_of last lm /\ Deadness.is_dead_verdict r lm now = true) <->
   (dur_milliseconds TICK_MS | lm - created)).
Proof.
  intros Hlm Hlast Has Hh. unfold tail_events. rewrite Hh. split.
  - intros (now & r & (k & -> & Hk)%gap_events_elem & Hd). apply gap_indices_elem in Hk as (_ & _ & Hle & _).
    apply Deadness.is_dead_verdict_iff in Hd as [_ Hge].
    exists (k - 1500). unfold grid_tick, dur_milliseconds, dur_seconds, TICK_MS, Deadness.DEAD_QUIET_SECS, ns_per_ms, ns_per_sec in *. lia.
  - intros [j Hj]. exists (lm + dur_seconds Deadness.DEAD_QUIET_SECS), (Some f_zero). split.
    + apply gap_events_elem. exists (j + 1500). split.
      { unfold grid_tick, dur_milliseconds, dur_seconds, TICK_MS, Deadness.DEAD_QUIET_SECS, ns_per_ms, ns_per_sec in *. lia. }
      apply gap_indices_elem.
      unfold first_index, grid_tick, dur_milliseconds, dur_seconds, TICK_MS, Deadness.DEAD_QUIET_SECS, Deadness.TAIL_MARGIN_SECS, MAX_TICKS_PER_GAP, ns_per_ms, ns_per_sec in *.
      pose proof (Z.div_mod (created - last) (200 * 10 ^ 6) ltac:(done)). pose proof (Z.mod_pos_bound (created - last) (200 * 10 ^ 6) ltac:(done)).
      lia.
    + apply Deadness.is_dead_verdict_iff. split; [by exists f_zero|lia].
Qed.

(** ** Concrete coins *)

(** A buy of [sol] at [ms] milliseconds. *)
Definition buy_at (sol ms : Z) : TradeLite := {|
  t_side := Buy; t_sol := f_of_Z sol; t_price := f_one; t_reserve_sol := f_of_Z 40; t_priced_reserve_sol := f_of_Z 40;
  t_at := dur_milliseconds ms; t_ix_hash := None; t_wallet_hash := 11; t_slot := 100; t_marker_bits := 0; t_leg_index := 0;
  t_tx_index := None; t_template_hash := None; t_program_hash := None; t_build_hash := None; t_core_hash := None;
  t_core_marks := 0; t_on_curve := true; t_is_launch := false; t_fee := FeeKeys_default; t_token_amount := f_of_Z 1000;
  t_build_day_public := None |}.

Definition two_buys : list (TradeLite * option Z) := [(buy_at 1 150, None); (buy_at 1 250, None)].

Lemma sparse_fold_is_the_replay_witness :
  let s := series_new (H := token_track) 0 [(mref_life AgeSec, None)] in
  let es := sparse_events SparseGrid_default 0 (dur_seconds 400) 0 two_buys in
  let '(s', f) := fold_sparse s 0 two_buys SparseGrid_default (dur_seconds 400) (Some 9) in
  s' = foldl push_event s (take 9 es) /\
  (if sf_truncated f then 9 <= rows_of s' else s' = foldl push_event s es) /\ sf_rows f = rows_of s'.
Proof.
  intros s es. apply (sparse_fold_is_the_replay s 0 two_buys SparseGrid_default (dur_seconds 400) (Some 9)); [|reflexivity].
  repeat split; try done; by eexists.
Defined.

Lemma tail_books_death_on_the_grid_witness :
  ~ (exists now r, EvTick now ∈ tail_events SparseGrid_default 0 (dur_seconds 900) (dur_milliseconds 250) (dur_milliseconds 250)
                   /\ Deadness.is_dead_verdict r (dur_milliseconds 250) now = true).
Proof.
  intros H. apply (tail_books_death_on_the_grid SparseGrid_default 0 (dur_seconds 900) (dur_milliseconds 250) (dur_milliseconds 250))
    in H as [k Hk]; [unfold dur_milliseconds, TICK_MS, ns_per_ms in Hk; lia|by vm_compute..].
Defined.

(** The admission estimate can fall short of the rows it bounds: two gaps shorter than a tick
    share the tick between them. *)
Example estimate_can_undercount :
  estimate_sparse_rows 0 (map (fun x => t_at x.1) two_buys) SparseGrid_default (dur_milliseconds 250) = 2 /\
  length (sparse_events SparseGrid_default 0 (dur_milliseconds 250) 0 two_buys) = 3%nat.
Proof. by vm_compute. Qed.

(** A window longer than the deadness clock is left a tick before it empties: the replay of
    two buys 500 s apart holds the tick at 400 s, where a 400 s window still counts the
    first, and no event after it before the second buy. *)
Definition far_buys : list (TradeLite * option Z) := [(buy_at 6 0, None); (buy_at 6 500000, None)].

Definition long_read : MetricRef :=
  {| mr_metric := BuySol; mr_tag := None; mr_span := span_window {| w_unit := UnitSec; w_size := f_of_Z 400; w_lag := f_zero |} |}.

Definition long_track : TokenTrack := ms_track (series_new (H := token_track) 0 [(long_read, None)]).

Definition long_value (es : list SeriesEvent) (now : Ts) : f64 :=
  track_value (foldl fold_event long_track es) long_read None now.

Example long_window_edge_is_skipped :
  let es := sparse_events (for_windows [f_of_Z 400]) 0 (dur_seconds 500) 0 far_buys in
  filter (fun t => dur_milliseconds 399900 < t) (map event_at es) = map dur_milliseconds [400000; 500000] /\
  long_value [EvTrade (buy_at 6 0) None; EvTick (dur_seconds 400)] (dur_seconds 400) = f_of_Z 6 /\
  long_value [EvTrade (buy_at 6 0) None; EvTick (dur_seconds 400); EvTick (dur_milliseconds 400200)] (dur_milliseconds 400200) = f_zero /\
  long_value [EvTrade (buy_at 6 0) None; EvTick (dur_seconds 400); EvTrade (buy_at 6 500000) None] (dur_seconds 500) = f_of_Z 6.
Proof. vm_compute. repeat split. Qed.
