(* ===== verification/RuleDoc.v ===== *)
(** * RuleDoc: a rule document parsed, validated and printed

    [rule_params.rs RuleParams::parse / validate / check_tree / to_value] over document
    values, with the readers it calls: [metrics/metric_ref.rs from_json / write_json],
    [metrics/span.rs Span::parse], [metrics/mod.rs WindowSpec::parse],
    [metrics/registry.rs metric_by_path] and [metrics/evaluator.rs
    parse_condition_expr].  An error keeps what its text names, not the path of the
    element it was found at.  A [serde_json] map is kept sorted by key, as its
    [BTreeMap] is. *)

From Stdlib Require Export Ascii.
From S2P Require Export RuleParams Labels Tags Text.

(** ** Numbers written in a document and in a text *)

Definition as_f64 (v : Value) : option f64 :=
  match v with VUint n | VNeg n => Some (f_of_Z n) | VFloat x => Some x | _ => None end.

Definition as_i64 (v : Value) : option Z :=
  match v with VUint n => if n <=? i64_max then Some n else None | VNeg n => Some n | _ => None end.

(** [json!] of a float and of an integer. *)
Definition json_f64 (x : f64) : Value := if is_finite x then VFloat x else VNull.
Definition json_int (z : Z) : Value := if z <? 0 then VNeg z else VUint z.

(** The float nearest to [digits * 10 ^ exp10]. *)
Definition f_decimal (neg : bool) (digits exp10 : Z) : f64 :=
  match digits with
  | Zpos m =>
      if 0 <=? exp10 then binary_normalize 53 1024 (if neg then - (digits * 10 ^ exp10) else digits * 10 ^ exp10) 0 false
      else
        let '(q, e, l) := SFdiv_core_binary 53 1024 digits 0 (10 ^ (- exp10)) 0 in
        binary_round_aux 53 1024 neg q e l
  | _ => S754_zero neg
  end.

(** The digits a text starts with, and the rest. *)
Fixpoint span_digits (s : string) : string * string :=
  match s with
  | String c r =>
      if is_someb (digit_of c) then let p := span_digits r in (String c p.1, p.2) else (EmptyString, s)
  | EmptyString => (EmptyString, EmptyString)
  end.

Definition digits_value (s : string) : Z :=
  foldl (fun acc c => 10 * acc + unwrap_or (digit_of c) 0) 0 (chars s).

Definition take_sign (s : string) : bool * string :=
  match s with
  | String c r => if Ascii.eqb c "-" then (true, r) else if Ascii.eqb c "+" then (false, r) else (false, s)
  | EmptyString => (false, s)
  end.

Definition lower (c : ascii) : ascii :=
  let n := byte_at c in if (65 <=? n) && (n <=? 90) then ascii_of_nat (Z.to_nat (n + 32)) else c.

Definition lowercase (s : string) : string := String.string_of_list_ascii (map lower (chars s)).

(** The exponent part: nothing, or [e] with a sign and at least one digit. *)
Definition exponent_part (s : string) : option Z :=
  match s with
  | EmptyString => Some 0
  | String c r =>
      if Ascii.eqb (lower c) "e" then
        let '(neg, r) := take_sign r in
        let '(digits, rest) := span_digits r in
        if bool_decide (digits = "") || negb (bool_decide (rest = "")) then None
        else Some (if neg then - digits_value digits else digits_value digits)
      else None
  end.

(** [str::parse::<f64>]. *)
Definition f64_from_str (s : string) : option f64 :=
  let '(neg, s) := take_sign s in
  if bool_decide (s = "") then None
  else if contains ["inf"; "infinity"]%string (lowercase s) then Some (S754_infinity neg)
  else if bool_decide (lowercase s = "nan") then Some S754_nan
  else
    let '(whole, rest) := span_digits s in
    let '(frac, rest) :=
      match rest with String "." r => span_digits r | _ => (EmptyString, rest) end in
    if bool_decide (whole = "") && bool_decide (frac = "") then None
    else
      exp ← exponent_part rest;
      Some (f_decimal neg (digits_value (whole +:+ frac)) (exp - Z.of_nat (String.length frac))).

Definition at_least_zero (v : f64) : bool := is_finite v && (v >=. f_zero).

(** ** Windows and spans *)

(** The unit a window text ends in, and its size text. *)
Definition take_unit (head : string) : WindowUnit * string :=
  unwrap_or
    (find_map (fun u => (fun rest => (u, rest)) <$> strip_suffix (unit_suffix u) head)
      [UnitSlot; UnitPrint; UnitSec])
    (UnitSec, head).

Definition window_parse (s : string) : option WindowSpec :=
  let s := Text.trim s in
  '(head, lag) ←
    match split_once "@" s with
    | Some (head, l) => v ← f64_from_str (Text.trim l); if at_least_zero v then Some (head, v) else None
    | None => Some (s, f_zero)
    end;
  let '(unit, size_str) := take_unit head in
  size ← f64_from_str (Text.trim size_str);
  if is_finite size && (size >. f_zero) then Some {| w_size := size; w_lag := lag; w_unit := unit |} else None.

Inductive SpanError :=
  | BadAgeSpan (s : string) | BadWindow (s : string) | SliceAlone | BadSlice (s : string)
  | SliceUnit (s : string) | SliceLag (s : string) | SliceWide (s : string).

(** A present text that is not blank, trimmed. *)
Definition written (t : option string) : option string :=
  t ← t; let t := Text.trim t in if bool_decide (t = "") then None else Some t.

Definition span_base (s : string) : SpanError + Span :=
  if bool_decide (s = "amm") then
    inr {| sp_window := None; sp_slice := None; sp_since_age := None; sp_since_amm := true |}
  else
    match strip_prefix "age" s with
    | Some rest =>
        let secs :=
          n ← strip_suffix "s" rest;
          v ← f64_from_str (Text.trim n);
          if at_least_zero v then Some v else None in
        let? secs := ok_or secs (BadAgeSpan s) in
        inr {| sp_window := None; sp_slice := None; sp_since_age := Some (anchor_secs secs); sp_since_amm := false |}
    | None => let? w := ok_or (window_parse s) (BadWindow s) in inr (span_window w)
    end.

Definition span_slice (out : Span) (s : string) : SpanError + Span :=
  let? w := ok_or (sp_window out) SliceAlone in
  let? sl := ok_or (window_parse s) (BadSlice s) in
  if negb (bool_decide (w_unit sl = w_unit w)) then inl (SliceUnit s)
  else if negb (w_lag sl =. f_zero) then inl (SliceLag s)
  else if w_size sl >. w_size w then inl (SliceWide s)
  else inr {| sp_window := sp_window out;
              sp_slice := Some {| w_size := w_size sl; w_lag := w_lag w; w_unit := w_unit w |};
              sp_since_age := sp_since_age out; sp_since_amm := sp_since_amm out |}.

Definition span_parse (span slice : option string) : SpanError + Span :=
  let? out := match written span with Some s => span_base s | None => inr SPAN_LIFE end in
  match written slice with Some s => span_slice out s | None => inr out end.

(** ** Metrics by path *)

Definition FAMILIES : list Family := [FamState; FamPrice; FamFlow; FamHoldings; FamCrowd; FamPrint; FamPosition].

Definition METRICS : list Metric :=
  [AgeSec; LiquiditySol; PeakLiquiditySol; OnCurve; RisePct; TrailPct; StallSec; BuySol; SellSol; NetSol;
   GrossSol; BuyCount; SellCount; TradeCount; BuyTxCount; SellTxCount; BuySharePct; TagSharePct;
   SliceTradeSharePct; SliceSolSharePct; ProfitSol; BagSharePct; BagSoldPct; UniqueWallets; TradesPerWallet;
   UniqueIxShapes; BuyerCount; BuyerIsNew; SinceBuySec; SoldBagPct; FlatBefore; PnlPct; HeldSec; RetracePct;
   BouncePct; RoomTakenPct; StageSec; SoldPct].

Definition family_by_name (name : string) : option Family :=
  find_first (fun f => bool_decide (family_name f = name)) FAMILIES.

Definition metric_by_path (path : string) : option Metric :=
  '(fam, name) ← split_once "." path;
  fam ← family_by_name fam;
  find_first (fun m => bool_decide (family m = fam) && bool_decide (ms_name (metric_spec m) = name)) METRICS.

(** ** Errors *)

Inductive DocError :=
  | NotObject | NotArray | NotNumber | NotFlag (key : string) | UnknownKey (key : string)
  | NotName | BadName (s : string) | KeyMissing (key : string)
  | NoMetric | UnknownMetric (path : string) | NotText (key : string) | BadTag (e : NameError)
  | BadSpanText (e : SpanError) | RefRefused (r : MetricRef) (e : RefProblem)
  | BadExpr | EmptyArm | EmptyExpr | ValueNotFinite | NeverHolds (e : Unsatisfiable)
  | SellNotLabel | PctWithoutSell | SellOfNotBag | SellOfWithoutSell | SellOfWithPct | DoesNothing
  | EndsOneClock | UnknownClock (key : string) | EndsNegative
  | TreeNeedsBoth | CellNotPair | BadLock | BadFollow | FollowEach | CopyAlone | BadCopy | NotWhole (key : string)
  | CopyMinBuy | FollowWithoutCopy | OutOfRange (key : string) | CooldownNegative | MaxBelowOne
  | SignalEmptyGroup (name : string) | SignalNests (name : string) | NoSignal (name : string)
  | SignalReadsPosition (name : string) | ReadsPosition (r : MetricRef) | LockNeedsEvent
  | TooManyStages | StageTwice (name : string) | NoStage (name : string) | NoCondition | SellPctRange
  | PartSellMustGo | GoesToItself (stage : string) | AtEndWithoutEnds (stage : string)
  | ThenWithoutEnds (stage : string) | EndsLastStage (stage : string) | CellsWithoutTree
  | StagesAndTree | TreeEmpty | TreeTooBig | PhaseTwice (name : string) | SituationTwice (name : string)
  | LastPhaseUntil (name : string) | PhaseNeedsUntil (name : string) | UntilNotMetric (name : string)
  | UntilCanFall (r : MetricRef) | UntilOperator (name : string) | LastSituationWhen (name : string)
  | SituationNeedsWhen (name : string) | NoPhase (name : string) | NoSituation (name : string)
  | CellTwice (c : CellRef) | CellGo | PartSellRepeats | CellAmbiguous (phase situation : string)
  | DeadlineLoop (path : list nat).

Definition err_of {E A} (f : E -> DocError) (r : E + A) : DocError + A :=
  match r with inl e => inl (f e) | inr a => inr a end.

(** [if !b { return Err(e) }]. *)
Definition ensure (b : bool) (e : DocError) : DocError + unit := if b then inr tt else inl e.

(** [iter().map(f).collect::<Result<_, _>>()], and a [for] of checks. *)
Fixpoint rmap {A B} (f : A -> DocError + B) (l : list A) : DocError + list B :=
  match l with [] => inr [] | x :: l => let? y := f x in let? ys := rmap f l in inr (y :: ys) end.

Fixpoint rall {A} (f : A -> DocError + unit) (l : list A) : DocError + unit :=
  match l with [] => inr tt | x :: l => let? _ := f x in rall f l end.

(** [option.map(f).transpose()]. *)
Definition ropt {A B} (f : A -> DocError + B) (o : option A) : DocError + option B :=
  match o with None => inr None | Some a => let? b := f a in inr (Some b) end.

(** ** Parsing *)

Abbreviation Obj := (list (string * Value)) (only parsing).

Definition obj (v : Value) : DocError + Obj := ok_or (as_object v) NotObject.
Definition arr (v : Value) : DocError + list Value := ok_or (as_array v) NotArray.

Definition num (v : Value) : DocError + f64 :=
  match as_f64 v with Some x => if is_finite x then inr x else inl NotNumber | None => inl NotNumber end.

Definition flag (o : Obj) (key : string) : DocError + bool :=
  match get o key with
  | None | Some VNull => inr false
  | Some (VBool b) => inr b
  | Some _ => inl (NotFlag key)
  end.

Definition unknown_keys (o : Obj) (allowed : list string) : DocError + unit :=
  match find_first (fun k => negb (contains allowed k)) (fst <$> o) with
  | Some k => inl (UnknownKey k)
  | None => inr tt
  end.

(** A signal or stage name: one to 32 bytes of [a-z0-9_]. *)
Definition check_doc_name (s : string) : DocError + unit :=
  ensure (negb (bool_decide (s = "")) && (String.length s <=? 32)%nat && str_all name_char s) (BadName s).

Definition doc_name (v : Value) : DocError + string :=
  let? s := ok_or (as_str v) NotName in
  let? _ := check_doc_name s in inr s.

Definition require (o : Obj) (key : string) : DocError + Value := ok_or (get o key) (KeyMissing key).

(** *** A read *)

Definition text_key (o : Obj) (key : string) : DocError + option string :=
  match get o key with
  | None | Some VNull => inr None
  | Some (VString s) => inr (Some s)
  | Some _ => inl (NotText key)
  end.

Definition mref_from_json (o : Obj) : DocError + MetricRef :=
  let? path := ok_or (v ← get o "metric"; as_str v) NoMetric in
  let? metric := ok_or (metric_by_path path) (UnknownMetric path) in
  let? tag := text_key o "tag" in
  let? tag := ropt (fun t => err_of BadTag (tag_ref_parse t)) tag in
  let? span := text_key o "span" in
  let? slice := text_key o "slice" in
  let? span := err_of BadSpanText (span_parse span slice) in
  let r := {| mr_metric := metric; mr_tag := tag; mr_span := span |} in
  let? _ := err_of (RefRefused r) (mref_check r) in
  inr r.

(** *** A condition expression *)

Definition operator_of_symbol (s : string) : option Operator :=
  find_first (fun o => bool_decide (symbol o = s)) [OpGt; OpGte; OpLt; OpLte; OpEq; OpNe].

(** The derived reader of [Operator]: a variant by its name, which [serde] also takes as
    the one key of an object whose value is [null]. *)
Definition operator_from_value (v : Value) : option Operator :=
  match v with
  | VString s | VObject [(s, VNull)] => operator_of_symbol s
  | _ => None
  end.

(** The derived reader of [Condition] ([deny_unknown_fields]): the two fields by name, or
    in order from an array. *)
Definition condition_from_value (v : Value) : DocError + Condition :=
  let fields op x :=
    op ← operator_from_value op; x ← as_f64 x; Some {| c_operator := op; c_value := x |} in
  ok_or
    match v with
    | VObject o =>
        if forallb (fun e => contains ["operator"; "value"]%string e.1) o then
          op ← get o "operator"; x ← get o "value"; fields op x
        else None
    | VArray [op; x] => fields op x
    | _ => None
    end BadExpr.

Definition condition_arm (v : Value) : DocError + list Condition :=
  let? arm := ok_or (as_array v) BadExpr in
  if is_empty arm then inl EmptyArm else rmap condition_from_value arm.

Definition parse_condition_expr (v : Value) : DocError + ConditionExpr :=
  let? arms := ok_or (as_array v) BadExpr in
  match arms with
  | [] => inr []
  | VArray _ :: _ => rmap condition_arm arms
  | _ => let? arm := rmap condition_from_value arms in inr [arm]
  end.

(** *** Conditions, lines and stages *)

Definition cond_keys : list string := ["metric"; "tag"; "span"; "slice"; "is"; "off"].

Definition parse_cond (v : Value) : DocError + Cond :=
  let? o := obj v in
  let? off := flag o "off" in
  match get o "signal" with
  | Some sig =>
      let? _ := unknown_keys o ["signal"; "not"; "off"] in
      let? name := doc_name sig in
      let? negated := flag o "not" in
      inr (CondSignal name negated off)
  | None =>
      let? _ := unknown_keys o cond_keys in
      let? r := mref_from_json o in
      let tol := ms_eq_tolerance (metric_spec (mr_metric r)) in
      let? raw := require o "is" in
      let? expr := parse_condition_expr raw in
      let? _ := ensure (negb (is_empty expr || existsb is_empty expr)) EmptyExpr in
      let? _ := ensure (forallb (fun c => is_finite (c_value c)) (concat expr)) ValueNotFinite in
      let? _ := err_of NeverHolds (check_expr_satisfiable expr tol) in
      inr (CondMetric r (normalize_condition_expr expr tol) off)
  end.

(** A list under a key that may be absent. *)
Definition parse_list {A} (f : Value -> DocError + A) (v : option Value) : DocError + list A :=
  match v with None => inr [] | Some v => let? l := arr v in rmap f l end.

(** The same where [null] is absent too. *)
Definition not_null (v : option Value) : option Value :=
  match v with Some VNull => None | v => v end.

Definition parse_conds (v : option Value) : DocError + list Cond := parse_list parse_cond v.

(** [Some None]: a sell labelled from the line's first condition. *)
Definition sell_label (v : option Value) : DocError + option (option string) :=
  match v with
  | None | Some VNull | Some (VBool false) => inr None
  | Some (VBool true) => inr (Some None)
  | Some (VString s) =>
      let s := Text.trim s in if bool_decide (s = "") then inl SellNotLabel else inr (Some (Some s))
  | Some _ => inl SellNotLabel
  end.

Definition sell_of_bag (v : option Value) : DocError + bool :=
  match v with
  | None | Some VNull => inr false
  | Some (VString s) => if bool_decide (s = "bag") then inr true else inl SellOfNotBag
  | Some _ => inl SellOfNotBag
  end.

Definition line_keys (bag : bool) : list string :=
  ["if"; "sell"; "sell_pct"; "go"; "off"] ++ if bag then ["sell_of"] else [].

Definition parse_line (bag : bool) (v : Value) : DocError + Line :=
  let? o := obj v in
  let? _ := unknown_keys o (line_keys bag) in
  let? when := parse_conds (get o "if") in
  let? label := sell_label (get o "sell") in
  let? pct := ropt num (get o "sell_pct") in
  let? _ := ensure (is_noneb pct || is_someb label) PctWithoutSell in
  let? of_bag := sell_of_bag (get o "sell_of") in
  let? _ := ensure (negb of_bag || is_someb label) SellOfWithoutSell in
  let? _ := ensure (negb of_bag || is_noneb pct) SellOfWithPct in
  let sell := (fun label => {| se_label := label; se_pct := pct; se_of_bag := of_bag |}) <$> label in
  let? go := ropt doc_name (get o "go") in
  let? _ := ensure (is_someb sell || is_someb go) DoesNothing in
  let? off := flag o "off" in
  inr {| l_when := when; l_sell := sell; l_go := go; l_off := off |}.

Definition parse_lines (bag : bool) (v : option Value) : DocError + list Line := parse_list (parse_line bag) v.

Definition basis_key (b : DeadlineBasis) : string :=
  match b with BasisAge => "age_sec" | BasisHeld => "held_sec" | BasisStage => "stage_sec" end.

Definition basis_of_key (k : string) : option DeadlineBasis :=
  find_first (fun b => bool_decide (basis_key b = k)) [BasisAge; BasisHeld; BasisStage].

Definition parse_ends (v : Value) : DocError + Deadline :=
  let? eo := obj v in
  match eo with
  | [(k, v)] =>
      let? basis := ok_or (basis_of_key k) (UnknownClock k) in
      let? secs := num v in
      let? _ := ensure (negb (secs <. f_zero)) EndsNegative in
      inr {| dl_basis := basis; dl_secs := secs |}
  | _ => inl EndsOneClock
  end.

Definition stage_keys : list string := ["name"; "ends"; "on"; "at_end"; "then"].

Definition parse_stage (bag : bool) (v : Value) : DocError + Stage :=
  let? o := obj v in
  let? _ := unknown_keys o stage_keys in
  let? name := require o "name" in
  let? name := doc_name name in
  let? ends := ropt parse_ends (not_null (get o "ends")) in
  let? on := parse_lines bag (get o "on") in
  let? at_end := parse_lines bag (get o "at_end") in
  let? next := ropt doc_name (get o "then") in
  inr {| st_name := name; st_ends := ends; st_on := on; st_at_end := at_end; st_then := next |}.

(** *** The stage tree *)

(** A phase or situation name in a cell; a star is every one. *)
Definition cell_name (v : Value) : DocError + option string :=
  if bool_decide (as_str v = Some "*"%string) then inr None else let? n := doc_name v in inr (Some n).

(** A name with the conditions under [key]. *)
Definition parse_named (key : string) (v : Value) : DocError + (string * list Cond) :=
  let? o := obj v in
  let? _ := unknown_keys o ["name"%string; key] in
  let? name := require o "name" in
  let? name := doc_name name in
  let? conds := parse_conds (get o key) in
  inr (name, conds).

Definition parse_phase (v : Value) : DocError + Phase :=
  let? p := parse_named "until" v in inr {| ph_name := p.1; ph_until := p.2 |}.

Definition parse_situation (v : Value) : DocError + Situation :=
  let? p := parse_named "when" v in inr {| si_name := p.1; si_when := p.2 |}.

Definition parse_cell (v : Value) : DocError + Cell :=
  let? o := obj v in
  let? _ := unknown_keys o ["phase"; "situation"; "on"]%string in
  let? phase := require o "phase" in
  let? phase := cell_name phase in
  let? situation := require o "situation" in
  let? situation := cell_name situation in
  let? on := parse_lines false (get o "on") in
  inr {| cl_phase := phase; cl_situation := situation; cl_on := on |}.

Definition has_key (o : Obj) (key : string) : bool := is_someb (get o key).

Definition parse_tree (root : Obj) : DocError + option Tree :=
  match get root "phases", get root "situations" with
  | Some ph, Some si =>
      let? phases := parse_list parse_phase (Some ph) in
      let? situations := parse_list parse_situation (Some si) in
      let? cells := parse_list parse_cell (not_null (get root "cells")) in
      inr (Some {| tr_phases := phases; tr_situations := situations; tr_cells := cells |})
  | _, _ =>
      if has_key root "phases" || has_key root "situations" || has_key root "cells" then inl TreeNeedsBoth
      else inr None
  end.

(** *** The entry and the document *)

Definition parse_cell_ref (v : Value) : DocError + CellRef :=
  match v with
  | VArray [p; s] => let? p := cell_name p in let? s := cell_name s in inr (p, s)
  | _ => inl CellNotPair
  end.

Definition lock_text (l : EntryLock) : string := match l with LockSlot => "slot" | LockToken => "token" end.

Definition lock_parse (v : Value) : DocError + EntryLock :=
  match v with
  | VString "slot" => inr LockSlot
  | VString "token" => inr LockToken
  | _ => inl BadLock
  end.

Definition enter_keys : list string :=
  ["event"; "filters"; "final_filters"; "lock"; "size_pct_of_pool"; "slippage_pct"; "cells"].

Definition parse_enter (v : option Value) : DocError + Enter :=
  match v with
  | None => inr Enter_default
  | Some v =>
      let? o := obj v in
      let? _ := unknown_keys o enter_keys in
      let? event := parse_conds (get o "event") in
      let? filters := parse_conds (get o "filters") in
      let? final_filters := parse_conds (get o "final_filters") in
      let? lock := ropt lock_parse (not_null (get o "lock")) in
      let? size := ropt num (get o "size_pct_of_pool") in
      let? slippage := ropt num (not_null (get o "slippage_pct")) in
      let? cells := parse_list parse_cell_ref (get o "cells") in
      inr {| en_event := event; en_filters := filters; en_final_filters := final_filters; en_lock := lock;
             en_size_pct_of_pool := size; en_slippage_pct := slippage; en_cells := cells |}
  end.

Definition follow_text (f : CopyFollow) : string := match f with FollowAll => "all" | FollowBought => "bought" end.

Definition follow_parse (v : Value) : DocError + CopyFollow :=
  match v with
  | VString "all" => inr FollowAll
  | VString "bought" => inr FollowBought
  | VString "each" => inl FollowEach
  | _ => inl BadFollow
  end.

Definition copy_spec_parse (v : Value) : DocError + CopySpec :=
  let? o := obj v in
  let? _ := unknown_keys o ["min_buy_sol"]%string in
  let? m := require o "min_buy_sol" in
  let? m := num m in
  inr {| min_buy_sol := m |}.

(** [Map::insert] and [BTreeMap::insert] on text keys. *)
Fixpoint put {V} (k : string) (v : V) (m : list (string * V)) : list (string * V) :=
  match m with
  | [] => [(k, v)]
  | (k', w) :: m' =>
      match String.compare k k' with
      | Lt => (k, v) :: m
      | Eq => (k, v) :: m'
      | Gt => (k', w) :: put k v m'
      end
  end.

Definition parse_group (v : Value) : DocError + list Cond := parse_conds (Some v).

Definition parse_signal (signals : list (string * list (list Cond))) (e : string * Value) :
    DocError + list (string * list (list Cond)) :=
  let? _ := check_doc_name e.1 in
  let? groups := parse_list parse_group (Some e.2) in
  inr (put e.1 groups signals).

Definition parse_signals (v : option Value) : DocError + list (string * list (list Cond)) :=
  match v with None => inr [] | Some v => let? o := obj v in rfold parse_signal [] o end.

Definition parse_reentry (v : Value) : DocError + ReEntry :=
  let? o := obj v in
  let? _ := unknown_keys o ["cooldown_sec"; "max_per_coin"]%string in
  let? cooldown := require o "cooldown_sec" in
  let? cooldown := num cooldown in
  let? max := ok_or (v ← get o "max_per_coin"; n ← as_u64 v; if n <=? u32_max then Some n else None)
                (NotWhole "max_per_coin") in
  inr {| re_cooldown_sec := cooldown; re_max_per_coin := max |}.

Definition parse_exclusive (v : option Value) : DocError + bool :=
  match v with
  | None => inr false
  | Some v => ok_or (as_bool v) (NotFlag "exclusive")
  end.

Definition parse_priority (v : option Value) : DocError + Z :=
  match v with
  | None => inr 0
  | Some v =>
      ok_or (n ← as_i64 v; if (- 2 ^ 31 <=? n) && (n <? 2 ^ 31) then Some n else None) (NotWhole "priority")
  end.

Definition root_keys (bag : bool) : list string :=
  ["enter"; "take_profit"; "stop_loss"; "signals"; "always"; "stages"; "phases"; "situations"; "cells";
   "reentry"; "exclusive"; "priority"] ++ if bag then ["copy"; "follow"] else [].

(** ** Validation *)

Definition MAX_STAGES : nat := 32.
Definition MAX_PHASES : nat := 16.
Definition MAX_SITUATIONS : nat := 16.

(** [x > lo && x <= hi] of an optional value. *)
Definition in_range (key : string) (v : option f64) (lo hi : f64) : DocError + unit :=
  match v with Some x => ensure ((x >. lo) && (x <=. hi)) (OutOfRange key) | None => inr tt end.

Definition is_signal (c : Cond) : bool := match c with CondSignal _ _ _ => true | _ => false end.

Definition check_signal (s : string * list (list Cond)) : DocError + unit :=
  let? _ := ensure (negb (is_empty s.2 || existsb is_empty s.2)) (SignalEmptyGroup s.1) in
  ensure (negb (existsb is_signal (concat s.2))) (SignalNests s.1).

Definition signal_of (p : RuleParams) (name : string) : option (list (list Cond)) :=
  snd <$> find_first (fun s => String.eqb s.1 name) (rp_signals p).

Definition cond_reads_position (c : Cond) : bool :=
  match c with CondMetric r _ _ => is_position r | _ => false end.

Definition signal_ok (p : RuleParams) (entry : bool) (c : Cond) : DocError + unit :=
  match c with
  | CondSignal name _ _ =>
      let? groups := ok_or (signal_of p name) (NoSignal name) in
      ensure (negb (entry && existsb cond_reads_position (concat groups))) (SignalReadsPosition name)
  | CondMetric r _ _ => ensure (negb (entry && is_position r)) (ReadsPosition r)
  end.

(** The first name met twice. *)
Fixpoint first_twice (seen : list string) (names : list string) : option string :=
  match names with
  | [] => None
  | n :: names => if contains seen n then Some n else first_twice (n :: seen) names
  end.

Definition unique (names : list string) (e : string -> DocError) : DocError + unit :=
  match first_twice [] names with Some n => inl (e n) | None => inr tt end.

Definition stage_names (p : RuleParams) : list string := st_name <$> rp_stages p.

Definition target (p : RuleParams) (t : string) : DocError + unit := ensure (contains (stage_names p) t) (NoStage t).

Definition opt_check {A} (f : A -> DocError + unit) (o : option A) : DocError + unit :=
  match o with Some a => f a | None => inr tt end.

Definition check_part (go : option string) (pct : f64) : DocError + unit :=
  let? _ := ensure ((pct >. f_zero) && (pct <=. MAX_SELL_PCT)) SellPctRange in
  ensure (is_someb go) PartSellMustGo.

Definition sell_pct (l : Line) : option f64 := s ← l_sell l; se_pct s.

Definition check_line (p : RuleParams) (conditional : bool) (l : Line) : DocError + unit :=
  let? _ := ensure (negb (conditional && forallb is_off (l_when l) && negb (l_off l))) NoCondition in
  let? _ := rall (signal_ok p false) (l_when l) in
  let? _ := opt_check (target p) (l_go l) in
  opt_check (check_part (l_go l)) (sell_pct l).

Definition sells_all (l : Line) : bool :=
  match l_sell l with Some s => is_noneb (se_pct s) && negb (se_of_bag s) | None => false end.

Definition not_to_itself (s : Stage) (l : Line) : DocError + unit :=
  ensure (negb (bool_decide (l_go l = Some (st_name s)) && negb (sells_all l))) (GoesToItself (st_name s)).

Definition check_stage_line (p : RuleParams) (s : Stage) (conditional : bool) (l : Line) : DocError + unit :=
  let? _ := check_line p conditional l in not_to_itself s l.

Definition check_stage (p : RuleParams) (last : bool) (s : Stage) : DocError + unit :=
  let? _ := rall (check_stage_line p s true) (st_on s) in
  let? _ := rall (check_stage_line p s false) (st_at_end s) in
  let? _ := ensure (is_empty (st_at_end s) || is_someb (st_ends s)) (AtEndWithoutEnds (st_name s)) in
  match st_then s with
  | Some t => let? _ := ensure (is_someb (st_ends s)) (ThenWithoutEnds (st_name s)) in target p t
  | None => ensure (negb (is_someb (st_ends s) && last)) (EndsLastStage (st_name s))
  end.

(** A [for] over elements that says which one is the last. *)
Fixpoint rall_last {A} (f : bool -> A -> DocError + unit) (l : list A) : DocError + unit :=
  match l with [] => inr tt | x :: l => let? _ := f (is_empty l) x in rall_last f l end.

(** *** The stage tree *)

Definition at_least_op (c : Condition) : bool :=
  match c_operator c with OpGt | OpGte => true | _ => false end.

Definition check_until (name : string) (c : Cond) : DocError + unit :=
  match c with
  | CondSignal _ _ _ => inl (UntilNotMetric name)
  | CondMetric r expr _ =>
      let? _ := ensure (negb (is_position r || negb (is_monotonic r))) (UntilCanFall r) in
      ensure (forallb at_least_op (concat expr)) (UntilOperator name)
  end.

Definition check_phase (last : bool) (p : Phase) : DocError + unit :=
  let? _ := ensure (negb (last && live_cond (ph_until p))) (LastPhaseUntil (ph_name p)) in
  let? _ := ensure (last || live_cond (ph_until p)) (PhaseNeedsUntil (ph_name p)) in
  rall (check_until (ph_name p)) (ph_until p).

Definition check_situation (p : RuleParams) (last : bool) (s : Situation) : DocError + unit :=
  let? _ := ensure (negb (last && live_cond (si_when s))) (LastSituationWhen (si_name s)) in
  let? _ := ensure (last || live_cond (si_when s)) (SituationNeedsWhen (si_name s)) in
  rall (signal_ok p false) (si_when s).

Definition phase_ok (t : Tree) (n : string) : DocError + unit :=
  ensure (contains (ph_name <$> tr_phases t) n) (NoPhase n).
Definition situation_ok (t : Tree) (n : string) : DocError + unit :=
  ensure (contains (si_name <$> tr_situations t) n) (NoSituation n).

Definition check_cell_ref (t : Tree) (c : CellRef) : DocError + unit :=
  let? _ := opt_check (phase_ok t) c.1 in opt_check (situation_ok t) c.2.

(** The line as a sell of everything: a part sell its own range stops needs no [go]. *)
Definition whole_sell (l : Line) : Line :=
  {| l_when := l_when l;
     l_sell := (fun s => {| se_label := se_label s; se_pct := None; se_of_bag := se_of_bag s |}) <$> l_sell l;
     l_go := l_go l; l_off := l_off l |}.

Definition check_cell_line (p : RuleParams) (l : Line) : DocError + unit :=
  let? _ := ensure (is_noneb (l_go l)) CellGo in
  match sell_pct l with
  | None => check_line p true l
  | Some pct =>
      let? _ := ensure ((pct >. f_zero) && (pct <=. MAX_SELL_PCT)) SellPctRange in
      let? _ := ensure (part_sell_stops l pct) PartSellRepeats in
      check_line p true (whole_sell l)
  end.

Definition cell_ref (c : Cell) : CellRef := (cl_phase c, cl_situation c).

(** The cells in order; [covered] are the entries met. *)
Fixpoint check_cells (p : RuleParams) (t : Tree) (covered : list CellRef) (cells : list Cell) : DocError + list CellRef :=
  match cells with
  | [] => inr covered
  | c :: cells =>
      let? _ := check_cell_ref t (cell_ref c) in
      let? _ := ensure (negb (contains covered (cell_ref c))) (CellTwice (cell_ref c)) in
      let? _ := rall (check_cell_line p) (cl_on c) in
      check_cells p t (cell_ref c :: covered) cells
  end.

(** One cell two half-open entries both cover, and no entry of its own. *)
Definition cell_clear (covered : list CellRef) (ph si : string) : DocError + unit :=
  ensure (negb (negb (contains covered (Some ph, Some si)) && contains covered (Some ph, None) &&
                contains covered (None, Some si))) (CellAmbiguous ph si).

Definition check_tree (p : RuleParams) (t : Tree) : DocError + unit :=
  let? _ := ensure (is_empty (rp_stages p)) StagesAndTree in
  let? _ := ensure (negb (is_empty (tr_phases t) || is_empty (tr_situations t))) TreeEmpty in
  let? _ := ensure ((length (tr_phases t) <=? MAX_PHASES)%nat && (length (tr_situations t) <=? MAX_SITUATIONS)%nat)
              TreeTooBig in
  let? _ := unique (ph_name <$> tr_phases t) PhaseTwice in
  let? _ := unique (si_name <$> tr_situations t) SituationTwice in
  let? _ := rall_last check_phase (tr_phases t) in
  let? _ := rall_last (check_situation p) (tr_situations t) in
  let? covered := check_cells p t [] (tr_cells t) in
  let? _ := rall (fun ph => rall (fun si => cell_clear covered (ph_name ph) (si_name si)) (tr_situations t))
              (tr_phases t) in
  rall (check_cell_ref t) (en_cells (rp_enter p)).

(** *** The whole document *)

Definition check_ranges (p : RuleParams) : DocError + unit :=
  let? _ := in_range "take_profit" (rp_take_profit p) f_zero f_inf in
  let? _ := in_range "stop_loss" (rp_stop_loss p) f_zero f_inf in
  let? _ := in_range "enter.size_pct_of_pool" (en_size_pct_of_pool (rp_enter p)) f_zero MAX_SIZE_PCT_OF_POOL in
  in_range "enter.slippage_pct" (en_slippage_pct (rp_enter p)) f_zero MAX_ENTRY_SLIPPAGE_PCT.

Definition check_reentry (r : ReEntry) : DocError + unit :=
  let? _ := ensure (negb (re_cooldown_sec r <. f_zero)) CooldownNegative in
  ensure (1 <=? re_max_per_coin r) MaxBelowOne.

Definition check_enter (p : RuleParams) : DocError + unit :=
  let e := rp_enter p in
  let? _ := rall (signal_ok p true) (en_event e) in
  let? _ := rall (signal_ok p true) (en_filters e) in
  let? _ := rall (signal_ok p true) (en_final_filters e) in
  ensure (negb (is_someb (en_lock e) && forallb is_off (en_event e))) LockNeedsEvent.

Definition check_stages (p : RuleParams) : DocError + unit :=
  let? _ := ensure (length (rp_stages p) <=? MAX_STAGES)%nat TooManyStages in
  let? _ := unique (stage_names p) StageTwice in
  let? _ := rall (check_line p true) (rp_always p) in
  rall_last (check_stage p) (rp_stages p).

(** What [validate] checks of a rule that is not the shortcut. *)
Definition validate_episode (p : RuleParams) : DocError + unit :=
  let? _ := ensure (bool_decide (rp_follow p = FollowAll) || is_someb (rp_copy p)) FollowWithoutCopy in
  let? _ := check_ranges p in
  let? _ := opt_check check_reentry (rp_reentry p) in
  let? _ := rall check_signal (rp_signals p) in
  let? _ := check_enter p in
  let? _ := check_stages p in
  let? _ := match rp_tree p with
            | Some t => check_tree p t
            | None => ensure (is_empty (en_cells (rp_enter p))) CellsWithoutTree
            end in
  match check_deadline_loops p with Some path => inl (DeadlineLoop path) | None => inr tt end.

Definition validate (p : RuleParams) : DocError + unit :=
  match rp_copy p with
  | Some (CopyShortcut c) => ensure (is_finite (min_buy_sol c) && (min_buy_sol c >. f_zero)) CopyMinBuy
  | _ => validate_episode p
  end.

(** ** [RuleParams::parse] *)

Definition copy_shortcut (c : CopySpec) : RuleParams :=
  {| rp_enter := Enter_default; rp_take_profit := None; rp_stop_loss := None; rp_signals := [];
     rp_always := []; rp_stages := []; rp_tree := None; rp_reentry := None; rp_exclusive := false;
     rp_priority := 0; rp_copy := Some (CopyShortcut c); rp_follow := FollowAll |}.

(** The shape walk of a document that is not the shortcut. *)
Definition parse_episode (root : Obj) (bag : bool) (form : option CopyForm) : DocError + RuleParams :=
  let? follow := match not_null (get root "follow") with Some v => follow_parse v | None => inr FollowAll end in
  let? _ := unknown_keys root (root_keys bag) in
  let? signals := parse_signals (get root "signals") in
  let? reentry := ropt parse_reentry (not_null (get root "reentry")) in
  let? enter := parse_enter (get root "enter") in
  let? take_profit := ropt num (not_null (get root "take_profit")) in
  let? stop_loss := ropt num (not_null (get root "stop_loss")) in
  let? always := parse_lines bag (get root "always") in
  let? stages := parse_list (parse_stage bag) (not_null (get root "stages")) in
  let? tree := parse_tree root in
  let? exclusive := parse_exclusive (not_null (get root "exclusive")) in
  let? priority := parse_priority (not_null (get root "priority")) in
  inr {| rp_enter := enter; rp_take_profit := take_profit; rp_stop_loss := stop_loss; rp_signals := signals;
         rp_always := always; rp_stages := stages; rp_tree := tree; rp_reentry := reentry;
         rp_exclusive := exclusive; rp_priority := priority; rp_copy := form; rp_follow := follow |}.

Definition validated (p : RuleParams) : DocError + RuleParams := let? _ := validate p in inr p.

Definition rule_parse (json : Value) : DocError + RuleParams :=
  let? root := obj json in
  match get root "copy" with
  | None => let? p := parse_episode root false None in validated p
  | Some (VObject o) =>
      if (length root =? 1)%nat then let? c := copy_spec_parse (VObject o) in validated (copy_shortcut c)
      else inl CopyAlone
  | Some (VBool true) => let? p := parse_episode root true (Some CopyDocument) in validated p
  | Some _ => inl BadCopy
  end.

(** ** Printing, the inverse of the parse *)

Definition put_opt {V} (k : string) (v : option V) (m : list (string * V)) : list (string * V) :=
  match v with Some v => put k v m | None => m end.

(** A part written only when it has elements. *)
Definition listed {A} (f : list A -> Value) (l : list A) : option Value :=
  match l with [] => None | _ => Some (f l) end.

(** A flag written only when set. *)
Definition raised (b : bool) : option Value := if b then Some (VBool true) else None.

Definition write_ref (r : MetricRef) (o : Obj) : Obj :=
  put_opt "slice" (VString <$> slice_text (mr_span r))
    (put_opt "span" (VString <$> span_text (mr_span r))
      (put_opt "tag" ((fun t => VString (tag_text t)) <$> mr_tag r)
        (put "metric" (VString (metric_path (metric_spec (mr_metric r)))) o))).

(** The derived writer of [Condition]. *)
Definition condition_to_value (c : Condition) : Value :=
  VObject (put "value" (json_f64 (c_value c)) (put "operator" (VString (symbol (c_operator c))) [])).

Definition arm_to_value (arm : list Condition) : Value := VArray (condition_to_value <$> arm).

Definition condition_expr_to_value (arms : ConditionExpr) : Value :=
  match arms with [arm] => arm_to_value arm | _ => VArray (arm_to_value <$> arms) end.

Definition cond_to_value (c : Cond) : Value :=
  match c with
  | CondMetric r expr off =>
      VObject (put_opt "off" (raised off) (put "is" (condition_expr_to_value expr) (write_ref r [])))
  | CondSignal name negated off =>
      VObject (put_opt "off" (raised off) (put_opt "not" (raised negated) (put "signal" (VString name) [])))
  end.

Definition conds_to_value (cs : list Cond) : Value := VArray (cond_to_value <$> cs).

Definition label_to_value (s : SellSpec) : Value :=
  match se_label s with Some t => VString t | None => VBool true end.

Definition line_to_value (l : Line) : Value :=
  VObject (put_opt "off" (raised (l_off l))
    (put_opt "go" (VString <$> l_go l)
      (put_opt "sell_of" (s ← l_sell l; if se_of_bag s then Some (VString "bag") else None)
        (put_opt "sell_pct" (json_f64 <$> sell_pct l)
          (put_opt "sell" (label_to_value <$> l_sell l)
            (put_opt "if" (listed conds_to_value (l_when l)) [])))))).

Definition lines_to_value (ls : list Line) : Value := VArray (line_to_value <$> ls).

Definition ends_to_value (d : Deadline) : Value := VObject [(basis_key (dl_basis d), json_f64 (dl_secs d))].

Definition stage_to_value (s : Stage) : Value :=
  VObject (put_opt "then" (VString <$> st_then s)
    (put_opt "at_end" (listed lines_to_value (st_at_end s))
      (put_opt "on" (listed lines_to_value (st_on s))
        (put_opt "ends" (ends_to_value <$> st_ends s) (put "name" (VString (st_name s)) []))))).

Definition star (n : option string) : Value := VString (unwrap_or n "*"%string).

Definition named_to_value (name key : string) (conds : list Cond) : Value :=
  VObject (put_opt key (listed conds_to_value conds) (put "name" (VString name) [])).

Definition cell_to_value (c : Cell) : Value :=
  VObject (put "on" (lines_to_value (cl_on c))
    (put "situation" (star (cl_situation c)) (put "phase" (star (cl_phase c)) []))).

Definition cell_ref_to_value (c : CellRef) : Value := VArray [star c.1; star c.2].

Definition enter_obj (e : Enter) : Obj :=
  put_opt "cells" (listed (fun l => VArray (cell_ref_to_value <$> l)) (en_cells e))
    (put_opt "slippage_pct" (json_f64 <$> en_slippage_pct e)
      (put_opt "size_pct_of_pool" (json_f64 <$> en_size_pct_of_pool e)
        (put_opt "lock" ((fun l => VString (lock_text l)) <$> en_lock e)
          (put_opt "final_filters" (listed conds_to_value (en_final_filters e))
            (put_opt "filters" (listed conds_to_value (en_filters e))
              (put_opt "event" (listed conds_to_value (en_event e)) [])))))).

Definition groups_to_value (groups : list (list Cond)) : Value := VArray (conds_to_value <$> groups).

Definition signals_to_value (signals : list (string * list (list Cond))) : Value :=
  VObject (foldl (fun m s => put s.1 (groups_to_value s.2) m) [] signals).

Definition reentry_to_value (r : ReEntry) : Value :=
  VObject (put "max_per_coin" (json_int (re_max_per_coin r)) (put "cooldown_sec" (json_f64 (re_cooldown_sec r)) [])).

Definition phases_to_value (t : Tree) : Value :=
  VArray ((fun p => named_to_value (ph_name p) "until" (ph_until p)) <$> tr_phases t).
Definition situations_to_value (t : Tree) : Value :=
  VArray ((fun s => named_to_value (si_name s) "when" (si_when s)) <$> tr_situations t).
Definition cells_to_value (t : Tree) : option Value := listed (fun l => VArray (cell_to_value <$> l)) (tr_cells t).

(** The parts of an episode, in the order they are written. *)
Definition episode_obj (p : RuleParams) : Obj :=
  put_opt "follow" (if bool_decide (rp_follow p = FollowAll) then None else Some (VString (follow_text (rp_follow p))))
    (put_opt "copy" (raised (is_someb (rp_copy p)))
      (put_opt "priority" (if rp_priority p =? 0 then None else Some (json_int (rp_priority p)))
        (put_opt "exclusive" (raised (rp_exclusive p))
          (put_opt "reentry" (reentry_to_value <$> rp_reentry p)
            (put_opt "cells" (rp_tree p ≫= cells_to_value)
              (put_opt "situations" (situations_to_value <$> rp_tree p)
                (put_opt "phases" (phases_to_value <$> rp_tree p)
                  (put_opt "stages" (listed (fun l => VArray (stage_to_value <$> l)) (rp_stages p))
                    (put_opt "always" (listed lines_to_value (rp_always p))
                      (put_opt "signals" (listed signals_to_value (rp_signals p))
                        (put_opt "stop_loss" (json_f64 <$> rp_stop_loss p)
                          (put_opt "take_profit" (json_f64 <$> rp_take_profit p)
                            (put_opt "enter" (listed VObject (enter_obj (rp_enter p))) []))))))))))))).

(** The episode a shortcut writes, marked as a document. *)
Definition as_document (p : RuleParams) : RuleParams :=
  {| rp_enter := rp_enter p; rp_take_profit := rp_take_profit p; rp_stop_loss := rp_stop_loss p;
     rp_signals := rp_signals p; rp_always := rp_always p; rp_stages := rp_stages p;
     rp_tree := rp_tree p; rp_reentry := rp_reentry p; rp_exclusive := rp_exclusive p;
     rp_priority := rp_priority p; rp_copy := Some CopyDocument; rp_follow := rp_follow p |}.

(** What a save keeps of a rule. *)
Definition saved_form (p : RuleParams) : RuleParams :=
  match rp_copy p with Some (CopyShortcut _) => as_document (expand_copy p) | _ => p end.

Definition to_value (p : RuleParams) : Value := VObject (episode_obj (saved_form p)).
