(* ===== verification/RuleDocFacts.v ===== *)
(** * RuleDocFacts: the document walk, part by part

    The maps a document is written in, and for each part of a rule: what its parser only
    ever returns (its shape), and that the parser reads back what the printer wrote of a
    part of that shape. *)

From S2P Require Import RuleDoc.

(** ** Results *)

Lemma ensure_ok b e u : ensure b e = inr u -> b = true.
Proof. by destruct b. Qed.

Lemma ok_or_ok {E A} (o : option A) (e : E) a : ok_or o e = inr a -> o = Some a.
Proof. destruct o; simpl; congruence. Qed.

Lemma err_of_ok {E A} (f : E -> DocError) (r : E + A) a : err_of f r = inr a -> r = inr a.
Proof. destruct r; simpl; congruence. Qed.

(** Undo a chain of binds that succeeded. *)
Ltac unbind H :=
  repeat match type of H with
  | rbind _ _ = inr _ =>
      let a := fresh "a" in let E := fresh "E" in
      apply rbind_inr in H as (a & E & H); cbv beta in H
  end;
  repeat match goal with
  | E : ensure _ _ = inr _ |- _ => apply ensure_ok in E
  | E : ok_or _ _ = inr _ |- _ => apply ok_or_ok in E
  | E : err_of _ _ = inr _ |- _ => apply err_of_ok in E
  end.

Lemma rmap_ok {A B} (f : A -> DocError + B) l : forall l', rmap f l = inr l' -> Forall2 (fun x y => f x = inr y) l l'.
Proof.
  induction l as [|x l IH]; intros l' H; simpl in H; [injection H as <-; constructor|].
  unbind H. injection H as <-. constructor; [done|by apply IH].
Qed.

Lemma rmap_all {A B} (P : B -> Prop) (f : A -> DocError + B) l l' :
  (forall x y, f x = inr y -> P y) -> rmap f l = inr l' -> Forall P l'.
Proof. intros Hf H. apply rmap_ok in H. induction H; constructor; eauto. Qed.

Lemma rmap_back {A B} (f : B -> DocError + A) (g : A -> B) l :
  Forall (fun x => f (g x) = inr x) l -> rmap f (g <$> l) = inr l.
Proof.
  induction 1 as [|x l Hx _ IH]; [done|]. rewrite fmap_cons. cbn [rmap]. rewrite Hx. cbn [rbind]. by rewrite IH.
Qed.

Lemma rall_ok {A} (f : A -> DocError + unit) l u : rall f l = inr u <-> Forall (fun x => f x = inr tt) l.
Proof.
  destruct u. induction l as [|x l IH]; simpl; [split; [constructor|done]|].
  rewrite Forall_cons, <- IH. destruct (f x) as [|[]]; simpl; intuition congruence.
Qed.

Lemma ropt_ok {A B} (P : B -> Prop) (f : A -> DocError + B) o o' :
  (forall x y, f x = inr y -> P y) -> ropt f o = inr o' -> forall y, o' = Some y -> P y.
Proof.
  intros Hf. destruct o as [a|]; simpl; intros H y ->; [|congruence]. unbind H. injection H as <-. eauto.
Qed.

Lemma ropt_back {A B} (f : B -> DocError + A) (g : A -> B) o :
  (forall x, o = Some x -> f (g x) = inr x) -> ropt f (g <$> o) = inr o.
Proof. destruct o as [x|]; simpl; intros H; [|done]. by rewrite (H x eq_refl). Qed.

Lemma parse_list_all {A} (P : A -> Prop) (f : Value -> DocError + A) v l :
  (forall x y, f x = inr y -> P y) -> parse_list f v = inr l -> Forall P l.
Proof.
  intros Hf. destruct v as [v|]; simpl; intros H; [|injection H as <-; constructor].
  unbind H. by eapply rmap_all.
Qed.

Lemma parse_list_back {A} (f : Value -> DocError + A) (g : A -> Value) l :
  Forall (fun x => f (g x) = inr x) l -> parse_list f (Some (VArray (g <$> l))) = inr l.
Proof. intros H. simpl. by apply rmap_back. Qed.

Lemma parse_listed {A} (f : Value -> DocError + A) (g : A -> Value) l :
  Forall (fun x => f (g x) = inr x) l -> parse_list f (listed (fun l => VArray (g <$> l)) l) = inr l.
Proof. intros H. destruct l as [|x l]; [done|]. by apply parse_list_back. Qed.

(** ** Objects *)

Lemma get_nil k : get [] k = None.
Proof. done. Qed.

Lemma get_put k v m k' : get (put k v m) k' = if String.eqb k k' then Some v else get m k'.
Proof.
  unfold get. induction m as [|[k0 w] m IH]; simpl; [by destruct (String.eqb k k')|].
  destruct (String.compare k k0) eqn:C; simpl.
  - apply String.compare_eq_iff in C as <-. by destruct (String.eqb k k').
  - by destruct (String.eqb k k').
  - destruct (String.eqb k0 k') eqn:E0; [|by rewrite IH].
    destruct (String.eqb k k') eqn:E1; [|done].
    apply String.eqb_eq in E0 as ->, E1 as ->.
    pose proof (String.compare_antisym k' k') as A. rewrite C in A. done.
Qed.

Lemma get_put_opt k v m k' :
  get (put_opt k v m) k' = if String.eqb k k' then match v with Some v => Some v | None => get m k' end else get m k'.
Proof. destruct v as [v|]; simpl; [apply get_put|by destruct (String.eqb k k')]. Qed.

Definition keys_in (ks : list string) (o : list (string * Value)) : Prop := Forall (fun e => contains ks e.1 = true) o.

Lemma keys_in_put ks k v o : contains ks k = true -> keys_in ks o -> keys_in ks (put k v o).
Proof.
  intros Hk H. induction H as [|[k0 w] o H0 H IH]; simpl; [by repeat constructor|].
  destruct (String.compare k k0); repeat constructor; done.
Qed.

Lemma keys_in_put_opt ks k v o : contains ks k = true -> keys_in ks o -> keys_in ks (put_opt k v o).
Proof. destruct v; simpl; [apply keys_in_put|done]. Qed.

Lemma keys_in_none ks k o : keys_in ks o -> keys_in ks (put_opt k None o).
Proof. done. Qed.

Lemma keys_in_nil ks : keys_in ks [].
Proof. constructor. Qed.

Lemma keys_in_cons ks k v o : contains ks k = true -> keys_in ks o -> keys_in ks ((k, v) :: o).
Proof. by constructor. Qed.

#[export] Hint Resolve keys_in_cons keys_in_put keys_in_put_opt keys_in_none keys_in_nil : doc.
#[export] Hint Extern 1 (contains _ _ = true) => reflexivity : doc.

Lemma unknown_keys_back o ks : keys_in ks o -> unknown_keys o ks = inr tt.
Proof.
  intros H. unfold unknown_keys. replace (find_first _ _) with (@None string); [done|]. symmetry.
  apply find_first_None. intros k Hk. apply list_elem_of_fmap in Hk as (e & -> & He).
  unfold keys_in in H. rewrite Forall_forall in H. by rewrite (H e He).
Qed.

Lemma put_not_nil {V} k (v : V) m : put k v m <> [].
Proof. destruct m as [|[k0 w] m]; simpl; [done|]. by destruct (String.compare k k0). Qed.

Lemma get_put_eq k v m : get (put k v m) k = Some v.
Proof. by rewrite get_put, String.eqb_refl. Qed.
Lemma get_put_ne k v m k' : String.eqb k k' = false -> get (put k v m) k' = get m k'.
Proof. intros E. by rewrite get_put, E. Qed.
Lemma get_put_opt_eq k v m : get (put_opt k v m) k = match v with Some v => Some v | None => get m k end.
Proof. by rewrite get_put_opt, String.eqb_refl. Qed.
Lemma get_put_opt_ne k v m k' : String.eqb k k' = false -> get (put_opt k v m) k' = get m k'.
Proof. intros E. by rewrite get_put_opt, E. Qed.

(** Read a key of a printed object. *)
Ltac read_step :=
  match goal with
  | |- context [get (put_opt ?k ?v ?m) ?k'] =>
      let e := eval compute in (String.eqb k k') in
      match e with
      | true => rewrite (get_put_opt_eq k v m)
      | false => rewrite (get_put_opt_ne k v m k' eq_refl)
      end
  | |- context [get (put ?k ?v ?m) ?k'] =>
      let e := eval compute in (String.eqb k k') in
      match e with
      | true => rewrite (get_put_eq k v m)
      | false => rewrite (get_put_ne k v m k' eq_refl)
      end
  end.
Ltac read_key := repeat read_step; rewrite ?get_nil.

(** ** Names and numbers *)

Definition name_ok (s : string) : Prop := check_doc_name s = inr tt.

Lemma doc_name_ok v s : doc_name v = inr s -> name_ok s.
Proof. unfold doc_name, name_ok. intros H. unbind H. injection H as <-. by destruct a0. Qed.

Lemma doc_name_back s : name_ok s -> doc_name (VString s) = inr s.
Proof. unfold doc_name, name_ok. simpl. by intros ->. Qed.

Lemma num_ok v x : num v = inr x -> is_finite x = true.
Proof. unfold num. destruct (as_f64 v) as [y|]; [|done]. destruct (is_finite y) eqn:E; [|done]. by intros [= <-]. Qed.

Lemma num_back x : is_finite x = true -> num (json_f64 x) = inr x.
Proof. intros H. unfold json_f64, num. rewrite H. simpl. by rewrite H. Qed.

Lemma flag_raised o key b : get o key = raised b -> flag o key = inr b.
Proof. unfold flag. intros ->. by destruct b. Qed.

Lemma not_null_raised b : not_null (raised b) = raised b.
Proof. by destruct b. Qed.

(** ** Reads *)

Lemma str_all_chars f s : str_all f s = true <-> Forall (fun c => f c = true) (chars s).
Proof.
  induction s as [|c s IH]; simpl; [split; [constructor|done]|].
  by rewrite andb_true_iff, Forall_cons, IH.
Qed.

Lemma name_char_plain c : name_char c = true -> plain c = true.
Proof.
  unfold name_char, plain. change (byte_of c) with (byte_at c). cbv zeta.
  rewrite !orb_true_iff, !andb_true_iff, !Z.leb_le, Z.eqb_eq. lia.
Qed.

Lemma tag_name_trim s : check_name s = inr tt -> trim s = s /\ str_strip_prefix "!" s = None.
Proof.
  unfold check_name. destruct (String.eqb s _ || _) eqn:E; [done|]. apply orb_false_iff in E as [E _].
  destruct (str_all name_char s) eqn:A; [|done]. intros _. apply str_all_chars in A.
  split.
  - apply trim_tight, plain_tight; [by apply String.eqb_neq|].
    eapply Forall_impl; [exact A|]. apply name_char_plain.
  - destruct s as [|c s]; [done|]. apply Forall_cons in A as [Hc _].
    assert (Ascii.eqb "!" c = false) as Hn by (apply Ascii.eqb_neq; intros <-; done).
    change (str_strip_prefix "!" (String c s)) with (if Ascii.eqb "!" c then Some s else None). by rewrite Hn.
Qed.

Definition tag_ok (t : TagRef) : Prop :=
  t = tag_ref (tag_name t) (tag_negated t) /\ check_name (tag_name t) = inr tt.

Lemma tag_parse_ok s t : tag_ref_parse s = inr t -> tag_ok t.
Proof.
  unfold tag_ref_parse. destruct (str_strip_prefix _ _) as [r|]; intros H;
    apply rbind_inr in H as ([] & E & [= <-]); by split.
Qed.

Lemma tag_parse_back t : tag_ok t -> tag_ref_parse (tag_text t) = inr t.
Proof.
  intros [Ht Hn]. destruct (tag_name_trim _ Hn) as (T & S). rewrite Ht at 2.
  unfold tag_ref_parse, tag_text. destruct (tag_negated t).
  - assert (trim (String.append "!" (tag_name t)) = String.append "!" (tag_name t)) as ->.
    { apply trim_tight, plain_tight; [done|]. cbn [String.append chars String.list_ascii_of_string].
      constructor; [done|]. unfold check_name in Hn. destruct (_ || _); [done|].
      destruct (str_all _ _) eqn:A; [|done]. apply str_all_chars in A.
      eapply Forall_impl; [exact A|]. apply name_char_plain. }
    change (str_strip_prefix "!" (String.append "!" (tag_name t))) with (Some (tag_name t)).
    cbv beta iota. by rewrite T, Hn.
  - rewrite T, S. cbv beta iota. by rewrite Hn.
Qed.

Lemma metric_by_path_back m : metric_by_path (metric_path (metric_spec m)) = Some m.
Proof. destruct m; vm_compute; reflexivity. Qed.

(** A read whose tag is a well-formed one and which its metric accepts. *)
Definition ref_ok (r : MetricRef) : Prop :=
  (forall t, mr_tag r = Some t -> tag_ok t) /\ mref_check r = inr tt.

(** The texts of a span parse to that span. *)
Definition span_prints_back (s : Span) : Prop := span_parse (span_text s) (slice_text s) = inr s.

Lemma mref_parse_ok o r : mref_from_json o = inr r -> ref_ok r.
Proof.
  unfold mref_from_json. intros H. unbind H. injection H as <-. split; cbn [mr_tag]; [|by destruct a6].
  eapply (ropt_ok tag_ok); [|exact E2]. intros x y Hxy. apply err_of_ok in Hxy. by eapply tag_parse_ok.
Qed.

Lemma text_key_back o key t : get o key = VString <$> t -> text_key o key = inr t.
Proof. unfold text_key. intros ->. by destruct t. Qed.

Lemma mref_back o r :
  ref_ok r -> span_prints_back (mr_span r) ->
  get o "metric" = Some (VString (metric_path (metric_spec (mr_metric r)))) ->
  get o "tag" = (fun t => VString (tag_text t)) <$> mr_tag r ->
  get o "span" = VString <$> span_text (mr_span r) ->
  get o "slice" = VString <$> slice_text (mr_span r) ->
  mref_from_json o = inr r.
Proof.
  intros [Ht Hr] Hs Gm Gt Gs Gl. unfold mref_from_json. rewrite Gm.
  cbn [mbind option_bind as_str ok_or rbind]. rewrite metric_by_path_back. cbn [ok_or rbind].
  rewrite (text_key_back o "tag" (tag_text <$> mr_tag r)) by (rewrite Gt; by destruct (mr_tag r)).
  cbn [rbind]. rewrite ropt_back by (intros t Et; by rewrite tag_parse_back by auto). cbn [rbind].
  rewrite (text_key_back _ _ _ Gs), (text_key_back _ _ _ Gl). cbn [rbind]. rewrite Hs. cbn [err_of rbind].
  destruct r as [m t s]. cbn [mr_metric mr_tag mr_span] in *. by rewrite Hr.
Qed.

(** ** Conditions *)

Lemma condition_back c : is_finite (c_value c) = true -> condition_from_value (condition_to_value c) = inr c.
Proof.
  destruct c as [op x]. cbn [c_value]. intros Hx. unfold condition_to_value, json_f64. cbn [c_value c_operator].
  rewrite Hx. by destruct op.
Qed.

Lemma arm_back arm : arm <> [] -> Forall (fun c => is_finite (c_value c) = true) arm ->
  condition_arm (arm_to_value arm) = inr arm /\ rmap condition_from_value (condition_to_value <$> arm) = inr arm.
Proof.
  intros Hne H.
  assert (rmap condition_from_value (condition_to_value <$> arm) = inr arm) as R.
  { apply rmap_back. eapply Forall_impl; [exact H|]. apply condition_back. }
  split; [|done]. unfold condition_arm, arm_to_value. cbn [as_array ok_or rbind].
  destruct arm as [|c arm]; [done|]. exact R.
Qed.

(** An expression with a condition in every arm, all finite, that some value satisfies. *)
Definition expr_ok (m : Metric) (expr : list (list Condition)) : Prop :=
  expr <> [] /\ Forall (fun arm => arm <> []) expr /\
  Forall (Forall (fun c => is_finite (c_value c) = true)) expr /\
  check_expr_satisfiable expr (ms_eq_tolerance (metric_spec m)) = inr tt.

Lemma expr_back m expr : expr_ok m expr -> parse_condition_expr (condition_expr_to_value expr) = inr expr.
Proof.
  intros (Hne & Ha & Hf & _). destruct expr as [|arm expr]; [done|].
  apply Forall_cons in Ha as [Ha Has], Hf as [Hf Hfs]. destruct (arm_back arm Ha Hf) as [Ra Rl].
  destruct expr as [|arm2 expr].
  - unfold condition_expr_to_value, arm_to_value, parse_condition_expr. cbn [as_array ok_or rbind].
    destruct arm as [|c arm]; [done|].
    transitivity (let? a := rmap condition_from_value (condition_to_value <$> c :: arm) in inr [a]); [done|].
    by rewrite Rl.
  - unfold condition_expr_to_value, parse_condition_expr. cbn [as_array ok_or rbind].
    transitivity (rmap condition_arm (arm_to_value <$> arm :: arm2 :: expr)); [done|].
    assert (rmap condition_arm (arm_to_value <$> arm :: arm2 :: expr) = inr (arm :: arm2 :: expr)) as R.
    { apply rmap_back. constructor; [done|]. clear -Has Hfs.
      generalize dependent Hfs. induction Has as [|a l Ha _ IH]; intros Hf; constructor.
      - apply Forall_cons in Hf as [Hf _]. by apply arm_back.
      - apply Forall_cons in Hf as [_ Hf]. by apply IH. }
    exact R.
Qed.

(** What the check accepts, the normalisation leaves alone. *)
Lemma normalize_satisfiable expr tol :
  check_expr_satisfiable expr tol = inr tt -> Forall (fun arm => arm <> []) expr -> normalize_condition_expr expr tol = expr.
Proof.
  destruct expr as [|arm [|arm2 expr]]; [done| |done]. simpl. intros H Ha. apply Forall_cons in Ha as [Ha _].
  destruct arm as [|c arm]; [done|]. unfold coalesce_contributions.
  destruct (check_arm_satisfiable _ _) as [e|[]]; [done|done].
Qed.

Definition cond_ok (c : Cond) : Prop :=
  match c with
  | CondMetric r expr _ => ref_ok r /\ expr_ok (mr_metric r) expr
  | CondSignal name _ _ => name_ok name
  end.

Definition cond_prints_back (c : Cond) : Prop :=
  match c with CondMetric r _ _ => span_prints_back (mr_span r) | _ => True end.

Lemma parse_cond_ok v c : parse_cond v = inr c -> cond_ok c.
Proof.
  unfold parse_cond. intros H. apply rbind_inr in H as (o & _ & H). apply rbind_inr in H as (off & _ & H).
  destruct (get o "signal") as [sig|].
  { unbind H. injection H as <-. by eapply doc_name_ok. }
  unbind H. injection H as <-. apply negb_true_iff, orb_false_iff in E3 as [Hne Ha].
  apply mref_parse_ok in E0.
  assert (Forall (fun arm => arm <> []) a2) as Hall.
  { apply Forall_forall. intros arm Hin ->. rewrite <- not_true_iff_false, existsb_exists in Ha. apply Ha.
    exists []. split; [by apply list_elem_of_In|done]. }
  destruct a5. rewrite normalize_satisfiable by done. split; [done|].
  split_and!; [by destruct a2|done| |done].
  apply forallb_Forall_true in E4. by apply Forall_concat.
Qed.

Lemma write_ref_keys r : keys_in cond_keys (write_ref r []).
Proof. unfold write_ref. auto 10 with doc. Qed.

Lemma cond_back c : cond_ok c -> cond_prints_back c -> parse_cond (cond_to_value c) = inr c.
Proof.
  destruct c as [r expr off|name negated off]; intros Hc Hp; unfold parse_cond, cond_to_value; cbn [obj as_object ok_or rbind].
  - destruct Hc as [Hr He]. pose proof He as (Hne & Ha & Hf & Hs).
    rewrite (flag_raised _ _ off) by (unfold write_ref; read_key; by destruct off). cbn [rbind].
    replace (get _ "signal") with (@None Value) by (unfold write_ref; by read_key).
    rewrite unknown_keys_back by (pose proof (write_ref_keys r); auto with doc). cbn [rbind].
    rewrite (mref_back _ r) by (try done; unfold write_ref; read_key; try done;
      match goal with |- context [match ?o with Some _ => _ | None => _ end] => by destruct o end).
    cbn [rbind]. unfold require. replace (get _ "is") with (Some (condition_expr_to_value expr)) by (by read_key).
    cbn [ok_or rbind]. rewrite (expr_back _ _ He). cbn [rbind].
    replace (existsb is_empty expr) with false.
    2: { symmetry. apply not_true_iff_false. rewrite existsb_exists. intros (arm & Hin & Hemp).
         rewrite Forall_forall in Ha. apply (Ha arm); [by apply list_elem_of_In|]. by destruct arm. }
    rewrite orb_false_r. replace (is_empty expr) with false by (by destruct expr). cbn [negb ensure rbind].
    replace (forallb _ (concat expr)) with true
      by (symmetry; apply forallb_Forall_true; by apply Forall_concat).
    cbn [ensure rbind]. rewrite Hs. cbn [err_of rbind]. by rewrite normalize_satisfiable.
  - rewrite (flag_raised _ _ off) by (read_key; by destruct off). cbn [rbind].
    replace (get _ "signal") with (Some (VString name)) by (by read_key).
    rewrite unknown_keys_back by auto with doc. cbn [rbind]. rewrite doc_name_back by done. cbn [rbind].
    by rewrite (flag_raised _ _ negated) by (read_key; by destruct negated).
Qed.

(** ** Lines *)

Definition label_ok (s : string) : Prop := trim s = s /\ s <> "".

Definition sell_ok (bag : bool) (s : SellSpec) : Prop :=
  (forall t, se_label s = Some t -> label_ok t) /\
  (forall p, se_pct s = Some p -> is_finite p = true) /\
  (se_of_bag s = true -> bag = true /\ se_pct s = None).

Definition line_ok (bag : bool) (l : Line) : Prop :=
  Forall cond_ok (l_when l) /\ (forall s, l_sell l = Some s -> sell_ok bag s) /\
  (forall g, l_go l = Some g -> name_ok g) /\ (l_sell l <> None \/ l_go l <> None).

Definition line_prints_back (l : Line) : Prop := Forall cond_prints_back (l_when l).

Lemma parse_conds_ok v cs : parse_conds v = inr cs -> Forall cond_ok cs.
Proof. apply parse_list_all. apply parse_cond_ok. Qed.

Lemma conds_back cs : Forall cond_ok cs -> Forall cond_prints_back cs ->
  Forall (fun c => parse_cond (cond_to_value c) = inr c) cs.
Proof. rewrite !Forall_forall. intros H1 H2 c Hc. by apply cond_back; auto. Qed.

Lemma parse_conds_back cs : Forall cond_ok cs -> Forall cond_prints_back cs ->
  parse_conds (listed conds_to_value cs) = inr cs.
Proof. intros. by apply parse_listed, conds_back. Qed.

(** *** Trimming twice is trimming once *)

Lemma strip_prefix_inv w s r : strip_prefix w s = Some r -> s = w +:+ r.
Proof.
  revert s. induction w as [|a w IH]; intros s H; simpl in H; [by injection H as ->|].
  destruct s as [|b s]; [done|]. destruct (Ascii.eqb a b) eqn:E; [|done]. apply Ascii.eqb_eq in E as ->.
  apply IH in H as ->. done.
Qed.

Lemma length_app_string a b : String.length (a +:+ b) = (String.length a + String.length b)%nat.
Proof. by rewrite !length_chars, chars_app, length_app. Qed.

Section trim_by.
Context (spaces : list string) (Hsp : Forall (fun w => w <> "") spaces).

(** No white space at the front. *)
Definition bare (s : string) : Prop := forall w, w ∈ spaces -> strip_prefix w s = None.

Lemma bare_find s : find_map (fun w => strip_prefix w s) spaces = None <-> bare s.
Proof. unfold bare. apply find_map_None. Qed.

Lemma trim_by_bare s n : bare s -> trim_by spaces n s = s.
Proof. intros H. destruct n; simpl; [done|]. by rewrite (proj2 (bare_find s) H). Qed.

Lemma trim_by_result n : forall s, (String.length s <= n)%nat -> bare (trim_by spaces n s).
Proof.
  induction n as [|n IH]; intros s Hn; simpl.
  - destruct s; [|simpl in Hn; lia]. intros w Hw. rewrite Forall_forall in Hsp. specialize (Hsp w Hw). by destruct w.
  - destruct (find_map _ _) as [r|] eqn:E; [|by apply bare_find].
    apply find_map_Some in E as (w & Hw & E). apply strip_prefix_inv in E as ->.
    apply IH. rewrite length_app_string in Hn. rewrite Forall_forall in Hsp. specialize (Hsp w Hw).
    destruct w; [done|simpl in Hn; lia].
Qed.

Lemma trim_by_suffix n : forall s, exists p, s = p +:+ trim_by spaces n s.
Proof.
  induction n as [|n IH]; intros s; simpl; [by exists ""|].
  destruct (find_map _ _) as [r|] eqn:E; [|by exists ""].
  apply find_map_Some in E as (w & Hw & E). apply strip_prefix_inv in E as ->.
  destruct (IH r) as [p Hp]. exists (w +:+ p). by rewrite append_assoc, <- Hp.
Qed.

Lemma bare_prefix s t : bare (s +:+ t) -> bare s.
Proof.
  intros H w Hw. specialize (H w Hw). destruct (strip_prefix w s) as [r|] eqn:E; [|done].
  apply strip_prefix_inv in E as ->. by rewrite append_assoc, strip_prefix_app in H.
Qed.
End trim_by.

Lemma nonempty_texts l : forallb (fun w => negb (String.eqb w "")) l = true -> Forall (fun w => w <> "") l.
Proof. rewrite forallb_Forall_true. intros H. eapply Forall_impl; [exact H|]. intros w Hw ->. done. Qed.

Lemma white_space_nonempty : Forall (fun w => w <> "") white_space /\ Forall (fun w => w <> "") (map string_rev white_space).
Proof. split; apply nonempty_texts; vm_compute; reflexivity. Qed.

Lemma trim_twice s : trim (trim s) = trim s.
Proof.
  destruct white_space_nonempty as [W1 W2]. unfold trim.
  set (t := trim_start s). assert (bare white_space t) as Bt by (by apply trim_by_result).
  destruct (trim_by_suffix (map string_rev white_space) (String.length t) (string_rev t)) as [p Hp].
  assert (t = trim_back t +:+ string_rev p) as Ht.
  { unfold trim_back. rewrite <- string_rev_app, <- Hp. by rewrite string_rev_involutive. }
  assert (bare white_space (trim_back t)) as Bb by (rewrite Ht in Bt; by apply bare_prefix in Bt).
  unfold trim_start at 1. rewrite trim_by_bare by done.
  unfold trim_back at 1. rewrite trim_by_bare; [apply string_rev_involutive|].
  unfold trim_back. rewrite string_rev_involutive. apply trim_by_result; [done|]. by rewrite string_rev_length.
Qed.

(** *** A line *)

Lemma sell_label_ok v l : sell_label v = inr l -> forall t, l = Some (Some t) -> label_ok t.
Proof.
  unfold sell_label. intros H t ->. destruct v as [[|[]| | | |s| | ]|]; try discriminate.
  destruct (bool_decide (trim s = "")) eqn:E; [done|]. apply bool_decide_eq_false in E. injection H as <-.
  split; [apply trim_twice|done].
Qed.

Lemma parse_line_ok bag v l : parse_line bag v = inr l -> line_ok bag l.
Proof.
  unfold parse_line. intros H. unbind H. injection H as <-.
  apply parse_conds_ok in E1. unfold line_ok. cbn [l_when l_sell l_go].
  split_and!; [done| | |].
  - intros s Hs. destruct a2 as [label|]; [|done]. injection Hs as <-. unfold sell_ok. cbn [se_label se_pct se_of_bag].
    split_and!.
    + intros t ->. by eapply sell_label_ok.
    + eapply (ropt_ok (fun x => is_finite x = true)); [|exact E3]. intros. by eapply num_ok.
    + intros ->. split; [|by destruct a3].
      destruct bag; [done|]. exfalso. unfold sell_of_bag in E5.
      destruct (get a "sell_of") as [w|] eqn:G; [|done]. unfold unknown_keys in E0.
      destruct (find_first _ _) eqn:F; [done|]. rewrite find_first_None in F.
      unfold get in G. destruct (find_first (fun e => String.eqb e.1 "sell_of") a) as [[k w']|] eqn:F2; [|done].
      apply find_first_Some in F2 as [Hin Hk]. apply String.eqb_eq in Hk. simpl in Hk. subst k.
      specialize (F "sell_of"). rewrite negb_false_iff in F. vm_compute (contains _ _) in F.
      discriminate F. by apply list_elem_of_fmap_2' with (x := ("sell_of", w')).
  - eapply (ropt_ok name_ok); [|exact E8]. intros. by eapply doc_name_ok.
  - destruct a2; [by left|]. right. by destruct a8.
Qed.

Lemma line_back bag l : line_ok bag l -> line_prints_back l -> parse_line bag (line_to_value l) = inr l.
Proof.
  intros (Hw & Hs & Hg & Ha) Hp. unfold parse_line, line_to_value. cbn [obj as_object ok_or rbind].
  destruct l as [w s g off]. unfold sell_pct. cbn [l_when l_sell l_go l_off] in *.
  assert (s = None \/ exists x, s = Some x /\ sell_ok bag x) as Hx.
  { destruct s as [x|]; [right; exists x; auto|by left]. }
  rewrite unknown_keys_back.
  2: { destruct Hx as [->|(x & -> & _ & _ & Hb)]; cbn [mbind option_bind fmap option_fmap option_map put_opt].
       - unfold line_keys. destruct bag; auto 10 with doc.
       - destruct (se_of_bag x); [destruct (Hb eq_refl) as [-> _]|destruct bag]; unfold line_keys; auto 10 with doc. }
  cbn [rbind].
  replace (get _ "if") with (listed conds_to_value w) by (read_key; by destruct w).
  rewrite parse_conds_back by done. cbn [rbind].
  replace (get _ "sell") with (label_to_value <$> s) by (read_key; by destruct s).
  replace (get _ "sell_pct") with (json_f64 <$> (s ← s; se_pct s)) by (read_key; by destruct s as [[? [] ?]|], w).
  replace (get _ "sell_of") with (s ← s; if se_of_bag s then Some (VString "bag") else None)
    by (read_key; by destruct s as [[? ? []]|], w).
  replace (get _ "go") with (VString <$> g) by (read_key; by destruct g).
  assert (sell_label (label_to_value <$> s) = inr (se_label <$> s)) as ->.
  { destruct Hx as [->|(x & -> & Hl & _)]; [done|]. unfold label_to_value. cbn [fmap option_fmap option_map].
    destruct (se_label x) as [t|]; [|done]. destruct (Hl t eq_refl) as [Ht Hne]. unfold sell_label. rewrite Ht.
    by rewrite bool_decide_eq_false_2. }
  cbn [rbind]. rewrite ropt_back.
  2: { intros q Hq. apply num_back. destruct Hx as [->|(x & -> & _ & Hf & _)]; [done|]. by apply Hf. }
  cbn [rbind]. rewrite ropt_back by (intros; apply doc_name_back; auto).
  rewrite (flag_raised _ _ off) by (read_key; by destruct off).
  destruct Hx as [->|([lab pct b] & -> & _ & _ & Hb)].
  - cbn. destruct g; [done|]. by destruct Ha.
  - cbn [se_of_bag se_pct se_label mbind option_bind fmap option_fmap option_map] in *. destruct b; [|by destruct pct].
    by destruct (Hb eq_refl) as [_ ->].
Qed.

Lemma parse_lines_ok bag v ls : parse_lines bag v = inr ls -> Forall (line_ok bag) ls.
Proof. apply parse_list_all. apply parse_line_ok. Qed.

Lemma lines_each bag ls : Forall (line_ok bag) ls -> Forall line_prints_back ls ->
  Forall (fun l => parse_line bag (line_to_value l) = inr l) ls.
Proof. rewrite !Forall_forall. intros H1 H2 l Hl. by apply line_back; auto. Qed.

Lemma parse_lines_back bag ls : Forall (line_ok bag) ls -> Forall line_prints_back ls ->
  parse_lines bag (listed lines_to_value ls) = inr ls.
Proof. intros. by apply parse_listed, lines_each. Qed.

(** ** Stages *)

Definition ends_ok (d : Deadline) : Prop := is_finite (dl_secs d) = true /\ (dl_secs d <. f_zero) = false.

Definition stage_ok (bag : bool) (s : Stage) : Prop :=
  name_ok (st_name s) /\ (forall d, st_ends s = Some d -> ends_ok d) /\ Forall (line_ok bag) (st_on s) /\
  Forall (line_ok bag) (st_at_end s) /\ (forall t, st_then s = Some t -> name_ok t).

Definition stage_prints_back (s : Stage) : Prop :=
  Forall line_prints_back (st_on s) /\ Forall line_prints_back (st_at_end s).

Lemma parse_ends_ok v d : parse_ends v = inr d -> ends_ok d.
Proof.
  unfold parse_ends. intros H. apply rbind_inr in H as ([|[k w] [|]] & _ & H); try done.
  unbind H. injection H as <-. split; cbn [dl_secs]; [by eapply num_ok|by apply negb_true_iff].
Qed.

Lemma ends_back d : ends_ok d -> parse_ends (ends_to_value d) = inr d.
Proof.
  destruct d as [b x]. intros [Hf Hn]. unfold parse_ends, ends_to_value. cbn [obj as_object ok_or rbind dl_basis dl_secs] in *.
  replace (basis_of_key (basis_key b)) with (Some b) by (by destruct b). cbn [ok_or rbind].
  rewrite num_back by done. cbn [rbind]. by rewrite Hn.
Qed.

Lemma parse_stage_ok bag v s : parse_stage bag v = inr s -> stage_ok bag s.
Proof.
  unfold parse_stage. intros H. unbind H. injection H as <-. unfold stage_ok. cbn.
  split_and!.
  - by eapply doc_name_ok.
  - eapply (ropt_ok ends_ok); [|exact E3]. apply parse_ends_ok.
  - by eapply parse_lines_ok.
  - by eapply parse_lines_ok.
  - eapply (ropt_ok name_ok); [|exact E6]. apply doc_name_ok.
Qed.

Lemma stage_back bag s : stage_ok bag s -> stage_prints_back s -> parse_stage bag (stage_to_value s) = inr s.
Proof.
  destruct s as [n e on ae t]. intros (Hn & He & Ho & Ha & Ht) [Po Pa]. cbn [st_name st_ends st_on st_at_end st_then] in *.
  unfold parse_stage, stage_to_value. cbn [obj as_object ok_or rbind st_name st_ends st_on st_at_end st_then].
  rewrite unknown_keys_back by (unfold stage_keys; auto 10 with doc). cbn [rbind]. unfold require.
  replace (get _ "name") with (Some (VString n)) by (by read_key). cbn [ok_or rbind].
  rewrite doc_name_back by done. cbn [rbind].
  replace (get _ "ends") with (ends_to_value <$> e) by (read_key; by destruct e).
  replace (not_null _) with (ends_to_value <$> e) by (by destruct e).
  rewrite ropt_back by (intros; apply ends_back; auto). cbn [rbind].
  replace (get _ "on") with (listed lines_to_value on) by (read_key; by destruct on).
  rewrite parse_lines_back by done. cbn [rbind].
  replace (get _ "at_end") with (listed lines_to_value ae) by (read_key; by destruct ae).
  rewrite parse_lines_back by done. cbn [rbind].
  replace (get _ "then") with (VString <$> t) by (read_key; by destruct t).
  by rewrite ropt_back by (intros; apply doc_name_back; auto).
Qed.

(** ** The stage tree *)

Definition named_ok (n : string) (cs : list Cond) : Prop := name_ok n /\ Forall cond_ok cs.

Definition ref_name_ok (n : option string) : Prop := forall s, n = Some s -> name_ok s.

Definition cell_ok (c : Cell) : Prop :=
  ref_name_ok (cl_phase c) /\ ref_name_ok (cl_situation c) /\ Forall (line_ok false) (cl_on c).

Definition tree_ok (t : Tree) : Prop :=
  Forall (fun p => named_ok (ph_name p) (ph_until p)) (tr_phases t) /\
  Forall (fun s => named_ok (si_name s) (si_when s)) (tr_situations t) /\ Forall cell_ok (tr_cells t).

Definition tree_prints_back (t : Tree) : Prop :=
  Forall (fun p => Forall cond_prints_back (ph_until p)) (tr_phases t) /\
  Forall (fun s => Forall cond_prints_back (si_when s)) (tr_situations t) /\
  Forall (fun c => Forall line_prints_back (cl_on c)) (tr_cells t).

Lemma cell_name_ok v n : cell_name v = inr n -> ref_name_ok n.
Proof.
  unfold cell_name. intros H s ->. destruct (bool_decide _); [done|].
  apply rbind_inr in H as (y & E & [= ->]). by eapply doc_name_ok.
Qed.

Lemma cell_name_back n : ref_name_ok n -> cell_name (star n) = inr n.
Proof.
  intros H. destruct n as [s|]; [|done]. specialize (H s eq_refl). unfold star. cbn [unwrap_or].
  assert (s <> "*") as Hs by (intros ->; vm_compute in H; discriminate).
  unfold cell_name. rewrite bool_decide_eq_false_2 by (simpl; congruence). by rewrite doc_name_back.
Qed.

Lemma parse_named_ok key v p : parse_named key v = inr p -> named_ok p.1 p.2.
Proof.
  unfold parse_named. intros H. unbind H. injection H as <-. split; [by eapply doc_name_ok|by eapply parse_conds_ok].
Qed.

Lemma named_back key n cs : key <> "name" -> named_ok n cs -> Forall cond_prints_back cs ->
  parse_named key (named_to_value n key cs) = inr (n, cs).
Proof.
  intros Hk [Hn Hc] Hp. apply String.eqb_neq in Hk.
  unfold parse_named, named_to_value. cbn [obj as_object ok_or rbind].
  rewrite unknown_keys_back.
  2: { apply keys_in_put_opt; [|apply keys_in_put; [done|apply keys_in_nil]]. apply contains_spec. set_solver. }
  cbn [rbind]. unfold require. rewrite !get_put_opt, !get_put, Hk.
  rewrite (String.eqb_sym "name" key), Hk, !String.eqb_refl. cbn [ok_or rbind].
  rewrite doc_name_back by done. cbn [rbind].
  replace (match listed conds_to_value cs with Some _ => _ | None => _ end) with (listed conds_to_value cs)
    by (by destruct cs).
  by rewrite parse_conds_back.
Qed.

Lemma parse_cell_ok v c : parse_cell v = inr c -> cell_ok c.
Proof.
  unfold parse_cell. intros H. unbind H. injection H as <-. unfold cell_ok. cbn.
  split_and!; [by eapply cell_name_ok..|by eapply parse_lines_ok].
Qed.

Lemma cell_back c : cell_ok c -> Forall line_prints_back (cl_on c) -> parse_cell (cell_to_value c) = inr c.
Proof.
  destruct c as [p s on]. intros (Hp & Hs & Ho) Hb. cbn [cl_phase cl_situation cl_on] in *. unfold parse_cell, cell_to_value.
  cbn [obj as_object ok_or rbind cl_phase cl_situation cl_on].
  rewrite unknown_keys_back by auto 10 with doc. cbn [rbind]. unfold require.
  replace (get _ "phase") with (Some (star p)) by (by read_key). cbn [ok_or rbind].
  rewrite cell_name_back by done. cbn [rbind].
  replace (get _ "situation") with (Some (star s)) by (by read_key). cbn [ok_or rbind].
  rewrite cell_name_back by done. cbn [rbind].
  replace (get _ "on") with (Some (lines_to_value on)) by (by read_key).
  unfold parse_lines, lines_to_value. by rewrite parse_list_back by (by apply lines_each).
Qed.

Lemma parse_tree_ok o t : parse_tree o = inr (Some t) -> tree_ok t.
Proof.
  unfold parse_tree. intros H. destruct (get o "phases") as [ph|]; [|by destruct (_ || _)].
  destruct (get o "situations") as [si|]; [|by destruct (_ || _)].
  apply rbind_inr in H as (phs & E1 & H). apply rbind_inr in H as (sis & E2 & H).
  apply rbind_inr in H as (cs & E3 & [= <-]). unfold tree_ok. cbn. split_and!.
  - eapply parse_list_all; [|exact E1]. intros v p. unfold parse_phase. intros Hv. unbind Hv. injection Hv as <-.
    by eapply parse_named_ok.
  - eapply parse_list_all; [|exact E2]. intros v p. unfold parse_situation. intros Hv. unbind Hv. injection Hv as <-.
    by eapply parse_named_ok.
  - eapply parse_list_all; [|exact E3]. apply parse_cell_ok.
Qed.

Lemma tree_back o t :
  tree_ok t -> tree_prints_back t ->
  get o "phases" = Some (phases_to_value t) -> get o "situations" = Some (situations_to_value t) ->
  get o "cells" = cells_to_value t -> parse_tree o = inr (Some t).
Proof.
  destruct t as [phs sis cs]. intros (Hp & Hs & Hc) (Pp & Ps & Pc) G1 G2 G3. cbn [tr_phases tr_situations tr_cells] in *. unfold parse_tree. rewrite G1, G2, G3.
  unfold phases_to_value, situations_to_value, cells_to_value. cbn [tr_phases tr_situations tr_cells].
  rewrite Forall_forall in Hp. rewrite Forall_forall in Hs. rewrite Forall_forall in Hc.
  rewrite Forall_forall in Pp. rewrite Forall_forall in Ps. rewrite Forall_forall in Pc.
  rewrite parse_list_back.
  2: { apply Forall_forall. intros [n cs'] Hin. unfold parse_phase. cbn [ph_name ph_until].
       by rewrite (named_back "until" n cs' ltac:(done) (Hp _ Hin) (Pp _ Hin)). }
  cbn [rbind]. rewrite parse_list_back.
  2: { apply Forall_forall. intros [n cs'] Hin. unfold parse_situation. cbn [si_name si_when].
       by rewrite (named_back "when" n cs' ltac:(done) (Hs _ Hin) (Ps _ Hin)). }
  cbn [rbind].
  replace (not_null _) with (listed (fun l => VArray (cell_to_value <$> l)) cs) by (by destruct cs).
  rewrite parse_listed; [done|]. apply Forall_forall. intros c Hin. by apply cell_back; auto.
Qed.

(** ** Signals, kept sorted by name *)

Definition name_lt {V} (a b : string * V) : Prop := String.compare a.1 b.1 = Lt.

Lemma compare_lt_trans a b c : String.compare a b = Lt -> String.compare b c = Lt -> String.compare a c = Lt.
Proof.
  intros H1 H2. pose proof (key_leb_trans (K := string) a b c) as T. cbn in T. unfold String.leb in T.
  rewrite H1, H2 in T. specialize (T eq_refl eq_refl). destruct (String.compare a c) eqn:E; try done.
  apply String.compare_eq_iff in E as <-. pose proof (String.compare_antisym a b) as A. by rewrite H1, H2 in A.
Qed.

Lemma put_end {V} k (v : V) m : Forall (fun e => String.compare e.1 k = Lt) m -> put k v m = m ++ [(k, v)].
Proof.
  induction 1 as [|[k0 w] m H _ IH]; simpl; [done|]. simpl in H.
  rewrite (String.compare_antisym k k0), H. simpl. by rewrite IH.
Qed.

Lemma put_keys {V} (P : string * V -> Prop) k v m : P (k, v) -> Forall P m -> Forall P (put k v m).
Proof.
  intros Hk H. induction H as [|[k0 w] m H0 H IH]; simpl; [by repeat constructor|].
  destruct (String.compare k k0); repeat constructor; done.
Qed.

Lemma put_sorted {V} k (v : V) m : StronglySorted name_lt m -> StronglySorted name_lt (put k v m).
Proof.
  induction 1 as [|[k0 w] m Hs IH Hf]; simpl; [by repeat constructor|].
  destruct (String.compare k k0) eqn:C.
  - apply String.compare_eq_iff in C as <-. by constructor.
  - constructor; [by constructor|]. constructor; [done|]. eapply Forall_impl; [exact Hf|].
    intros e He. by eapply compare_lt_trans.
  - constructor; [done|]. apply put_keys; [|done]. unfold name_lt. simpl.
    rewrite (String.compare_antisym k0 k), C. done.
Qed.

Definition signal_shape (s : string * list (list Cond)) : Prop := name_ok s.1 /\ Forall (Forall cond_ok) s.2.

Definition signals_shape (l : list (string * list (list Cond))) : Prop :=
  StronglySorted name_lt l /\ Forall signal_shape l.

Definition signal_prints_back (s : string * list (list Cond)) : Prop := Forall (Forall cond_prints_back) s.2.

Lemma parse_signal_ok acc e out : signals_shape acc -> parse_signal acc e = inr out -> signals_shape out.
Proof.
  unfold parse_signal. intros [Hs Hf] H. unbind H. injection H as <-. split; [by apply put_sorted|].
  apply put_keys; [|done]. split; simpl; [by destruct a|].
  eapply parse_list_all; [|exact E0]. intros v cs. apply parse_conds_ok.
Qed.

Lemma parse_signals_ok v l : parse_signals v = inr l -> signals_shape l.
Proof.
  assert (signals_shape []) as H0 by by split; constructor.
  destruct v as [v|]; simpl; intros H; [|by injection H as <-].
  apply rbind_inr in H as (o & _ & H). revert H0 H. generalize (@nil (string * list (list Cond))).
  induction o as [|e o IH]; intros acc Ha H; simpl in H; [by injection H as <-|].
  unbind H. eapply IH; [|exact H]. by eapply parse_signal_ok.
Qed.

Lemma sorted_app_end {V} (m : list (string * V)) e l :
  StronglySorted name_lt (m ++ e :: l) -> Forall (fun x => String.compare x.1 e.1 = Lt) m.
Proof.
  induction m as [|x m IH]; intros H; [constructor|]. apply StronglySorted_inv in H as [H Hf].
  constructor; [|by apply IH]. apply Forall_app in Hf as [_ Hf]. apply Forall_cons in Hf as [Hf _]. exact Hf.
Qed.

Lemma signals_written l : forall acc, StronglySorted name_lt (acc ++ l) ->
  foldl (fun m s => put s.1 (groups_to_value s.2) m) ((fun s => (s.1, groups_to_value s.2)) <$> acc) l =
  (fun s => (s.1, groups_to_value s.2)) <$> acc ++ l.
Proof.
  induction l as [|e l IH]; intros acc Hs; simpl; [by rewrite app_nil_r|].
  rewrite put_end.
  - change ([(e.1, groups_to_value e.2)]) with ((fun s => (s.1, groups_to_value s.2)) <$> [e]).
    rewrite <- fmap_app, IH by (by rewrite <- app_assoc). by rewrite <- app_assoc.
  - apply Forall_fmap. eapply Forall_impl; [by apply sorted_app_end in Hs|]. done.
Qed.

Lemma signal_back acc s : signal_shape s -> signal_prints_back s ->
  Forall (fun x => String.compare x.1 s.1 = Lt) acc ->
  parse_signal acc (s.1, groups_to_value s.2) = inr (acc ++ [s]).
Proof.
  destruct s as [k gs]. intros [Hk Hg] Hp Ha. unfold name_ok in Hk. cbn [fst snd] in *.
  unfold parse_signal. cbn [fst snd]. rewrite Hk. cbn [rbind]. unfold groups_to_value.
  rewrite parse_list_back; [cbn [rbind]; by rewrite put_end|].
  unfold signal_prints_back in Hp. cbn [snd] in Hp. rewrite Forall_forall in Hg. rewrite Forall_forall in Hp.
  apply Forall_forall. intros cs Hin. apply parse_list_back. by apply conds_back; auto.
Qed.

Lemma signals_back l : signals_shape l -> Forall signal_prints_back l -> parse_signals (listed signals_to_value l) = inr l.
Proof.
  intros [Hs Hf] Hp. destruct l as [|s0 l0] eqn:El; [done|]. rewrite <- El in *. 
  assert (listed signals_to_value l = Some (signals_to_value l)) as -> by (by rewrite El). clear El.
  unfold signals_to_value. cbn [parse_signals obj as_object ok_or rbind].
  pose proof (signals_written l [] Hs) as W. cbn [fmap list_fmap app] in W. rewrite W. clear W.
  assert (forall acc rest, StronglySorted name_lt (acc ++ rest) -> Forall signal_shape rest -> Forall signal_prints_back rest ->
    rfold parse_signal acc ((fun s => (s.1, groups_to_value s.2)) <$> rest) = inr (acc ++ rest)) as G; [|by apply (G [])].
  clear. intros acc rest. revert acc. induction rest as [|s rest IH]; intros acc Hs Hf Hp; simpl; [by rewrite app_nil_r|].
  apply Forall_cons in Hf as [Hf Hfs], Hp as [Hp Hps].
  rewrite signal_back by (try done; by eapply sorted_app_end). simpl.
  rewrite IH; rewrite <- ?app_assoc; done.
Qed.

(** ** Entry, re-entry and the scalars *)

Definition cell_ref_ok (c : CellRef) : Prop := ref_name_ok c.1 /\ ref_name_ok c.2.

Definition finite_if (o : option f64) : Prop := forall x, o = Some x -> is_finite x = true.

Definition enter_ok (e : Enter) : Prop :=
  Forall cond_ok (en_event e) /\ Forall cond_ok (en_filters e) /\ Forall cond_ok (en_final_filters e) /\
  finite_if (en_size_pct_of_pool e) /\ finite_if (en_slippage_pct e) /\ Forall cell_ref_ok (en_cells e).

Definition enter_prints_back (e : Enter) : Prop :=
  Forall cond_prints_back (en_event e) /\ Forall cond_prints_back (en_filters e) /\
  Forall cond_prints_back (en_final_filters e).

Lemma parse_cell_ref_ok v c : parse_cell_ref v = inr c -> cell_ref_ok c.
Proof.
  intros H. destruct v as [| | | | | |[|p [|s [|]]]|]; try done. simpl in H. unbind H. injection H as <-.
  split; by eapply cell_name_ok.
Qed.

Lemma cell_ref_back c : cell_ref_ok c -> parse_cell_ref (cell_ref_to_value c) = inr c.
Proof. destruct c as [p s]. intros [Hp Hs]. simpl in *. by rewrite !cell_name_back by done. Qed.

Lemma opt_num_ok o o' : ropt num o = inr o' -> finite_if o'.
Proof. unfold finite_if. intros H. eapply (ropt_ok (fun x => is_finite x = true)); [|exact H]. apply num_ok. Qed.

Lemma opt_num_back o : finite_if o -> ropt num (json_f64 <$> o) = inr o.
Proof. intros H. apply ropt_back. intros. apply num_back. auto. Qed.

Lemma not_null_num o : finite_if o -> not_null (json_f64 <$> o) = json_f64 <$> o.
Proof. intros H. destruct o as [x|]; [|done]. simpl. unfold json_f64. by rewrite (H x eq_refl). Qed.

Lemma parse_enter_ok v e : parse_enter v = inr e -> enter_ok e.
Proof.
  destruct v as [v|]; cbn [parse_enter]; intros H.
  2: { injection H as <-. repeat split; try constructor; done. }
  unbind H. injection H as <-. unfold enter_ok. cbn. split_and!; try (by eapply parse_conds_ok); try (by eapply opt_num_ok).
  eapply parse_list_all; [|exact E7]. apply parse_cell_ref_ok.
Qed.

Lemma lock_back l : ropt lock_parse ((fun l => VString (lock_text l)) <$> l) = inr l.
Proof. by destruct l as [[]|]. Qed.

Lemma enter_obj_back e : enter_ok e -> enter_prints_back e -> parse_enter (Some (VObject (enter_obj e))) = inr e.
Proof.
  destruct e as [ev fi ff lk sz sl ce]. intros (H1 & H2 & H3 & H4 & H5 & H6) (P1 & P2 & P3).
  cbn [en_event en_filters en_final_filters en_lock en_size_pct_of_pool en_slippage_pct en_cells] in *.
  unfold enter_obj. cbn [parse_enter obj as_object ok_or rbind en_event en_filters en_final_filters en_lock
    en_size_pct_of_pool en_slippage_pct en_cells].
  rewrite unknown_keys_back by (unfold enter_keys; auto 10 with doc). cbn [rbind].
  replace (get _ "event") with (listed conds_to_value ev) by (read_key; by destruct ev).
  rewrite parse_conds_back by done. cbn [rbind].
  replace (get _ "filters") with (listed conds_to_value fi) by (read_key; by destruct fi).
  rewrite parse_conds_back by done. cbn [rbind].
  replace (get _ "final_filters") with (listed conds_to_value ff) by (read_key; by destruct ff).
  rewrite parse_conds_back by done. cbn [rbind].
  replace (get _ "lock") with ((fun l => VString (lock_text l)) <$> lk) by (read_key; by destruct lk).
  replace (not_null _) with ((fun l => VString (lock_text l)) <$> lk) by (by destruct lk).
  rewrite lock_back. cbn [rbind].
  replace (get _ "size_pct_of_pool") with (json_f64 <$> sz) by (read_key; by destruct sz).
  rewrite opt_num_back by done. cbn [rbind].
  replace (get _ "slippage_pct") with (json_f64 <$> sl) by (read_key; by destruct sl).
  rewrite not_null_num, opt_num_back by done. cbn [rbind].
  replace (get _ "cells") with (listed (fun l => VArray (cell_ref_to_value <$> l)) ce)
    by (read_key; by destruct ce).
  rewrite parse_listed; [done|]. eapply Forall_impl; [exact H6|]. apply cell_ref_back.
Qed.

Lemma put_opt_nil {V} k (v : option V) m : put_opt k v m = [] -> v = None /\ m = [].
Proof. destruct v as [v|]; [|done]. intros H. by apply put_not_nil in H. Qed.

Lemma enter_back e : enter_ok e -> enter_prints_back e -> parse_enter (listed VObject (enter_obj e)) = inr e.
Proof.
  intros H1 H2. destruct (enter_obj e) as [|x l] eqn:E.
  - simpl. unfold enter_obj in E.
    repeat match type of E with put_opt _ _ _ = [] => apply put_opt_nil in E as [? E] end.
    destruct e as [[] [] [] [] [] [] []]; try discriminate; done.
  - rewrite <- enter_obj_back by done. by rewrite E.
Qed.

Definition reentry_ok (r : ReEntry) : Prop :=
  is_finite (re_cooldown_sec r) = true /\ 1 <= re_max_per_coin r <= u32_max /\ (re_cooldown_sec r <. f_zero) = false.

Lemma reentry_back r : reentry_ok r -> parse_reentry (reentry_to_value r) = inr r.
Proof.
  destruct r as [c n]. intros (Hc & Hn & _). cbn [re_cooldown_sec re_max_per_coin] in *. unfold parse_reentry, reentry_to_value.
  cbn [obj as_object ok_or rbind re_cooldown_sec re_max_per_coin]. rewrite unknown_keys_back by auto with doc.
  cbn [rbind]. unfold require. replace (get _ "cooldown_sec") with (Some (json_f64 c)) by (by read_key).
  cbn [ok_or rbind]. rewrite num_back by done. cbn [rbind].
  replace (get _ "max_per_coin") with (Some (json_int n)) by (by read_key).
  unfold json_int. replace (n <? 0) with false by lia. cbn [mbind option_bind as_u64].
  by replace (n <=? u32_max) with true by lia.
Qed.

Definition priority_ok (z : Z) : Prop := - 2 ^ 31 <= z < 2 ^ 31.

Lemma parse_priority_ok v z : parse_priority v = inr z -> priority_ok z.
Proof.
  unfold parse_priority, priority_ok. destruct v as [v|]; [|intros [= <-]; lia]. intros H. apply ok_or_ok in H.
  destruct (as_i64 v) as [n|]; [|done]. cbn [mbind option_bind] in H.
  destruct (_ && _) eqn:E; [|done]. injection H as <-. lia.
Qed.

Lemma priority_back z : priority_ok z ->
  parse_priority (not_null (if z =? 0 then None else Some (json_int z))) = inr z.
Proof.
  unfold priority_ok. intros Hz. destruct (z =? 0) eqn:E0; [simpl; f_equal; lia|].
  unfold json_int, parse_priority. assert (2 ^ 31 <= i64_max) by done.
  destruct (z <? 0) eqn:En; cbn [not_null as_i64].
  - cbn [mbind option_bind]. by replace ((- 2 ^ 31 <=? z) && (z <? 2 ^ 31)) with true by lia.
  - replace (z <=? i64_max) with true by lia. cbn [mbind option_bind].
    by replace ((- 2 ^ 31 <=? z) && (z <? 2 ^ 31)) with true by lia.
Qed.

Lemma exclusive_back b : parse_exclusive (not_null (raised b)) = inr b.
Proof. by destruct b. Qed.

(** ** The document *)

(** The parts of a rule that is not the shortcut; [bag]: a copy document. *)
Definition shape_ok (bag : bool) (p : RuleParams) : Prop :=
  enter_ok (rp_enter p) /\ finite_if (rp_take_profit p) /\ finite_if (rp_stop_loss p) /\
  signals_shape (rp_signals p) /\ Forall (line_ok bag) (rp_always p) /\ Forall (stage_ok bag) (rp_stages p) /\
  (forall t, rp_tree p = Some t -> tree_ok t) /\ priority_ok (rp_priority p) /\
  (forall r, rp_reentry p = Some r -> is_finite (re_cooldown_sec r) = true /\ re_max_per_coin r <= u32_max).

Definition reentry_wf (p : RuleParams) : Prop :=
  forall r, rp_reentry p = Some r -> 1 <= re_max_per_coin r /\ (re_cooldown_sec r <. f_zero) = false.

Definition prints_back (p : RuleParams) : Prop :=
  enter_prints_back (rp_enter p) /\ Forall signal_prints_back (rp_signals p) /\
  Forall line_prints_back (rp_always p) /\ Forall stage_prints_back (rp_stages p) /\
  (forall t, rp_tree p = Some t -> tree_prints_back t).

Lemma parse_reentry_ok v r : parse_reentry v = inr r ->
  is_finite (re_cooldown_sec r) = true /\ re_max_per_coin r <= u32_max.
Proof.
  unfold parse_reentry. intros H. unbind H. injection H as <-. cbn. split; [by eapply num_ok|].
  destruct (get a "max_per_coin") as [v'|]; [|done]. cbn in E3. destruct (as_u64 v') as [n|]; [|done]. cbn in E3.
  destruct (n <=? u32_max) eqn:En; [|done]. injection E3 as <-. lia.
Qed.

Lemma parse_episode_ok root bag form p : parse_episode root bag form = inr p -> shape_ok bag p /\ rp_copy p = form.
Proof.
  unfold parse_episode. intros H. unbind H. injection H as <-. split; [|done]. unfold shape_ok.
  cbn [rp_enter rp_take_profit rp_stop_loss rp_signals rp_always rp_stages rp_tree rp_reentry rp_priority].
  split_and!; try (by eapply opt_num_ok).
  - by eapply parse_enter_ok.
  - by eapply parse_signals_ok.
  - by eapply parse_lines_ok.
  - eapply parse_list_all; [|exact E7]. apply parse_stage_ok.
  - intros t ->. by eapply parse_tree_ok.
  - by eapply parse_priority_ok.
  - eapply (ropt_ok (fun r => is_finite (re_cooldown_sec r) = true /\ re_max_per_coin r <= u32_max)); [|exact E2].
    apply parse_reentry_ok.
Qed.

Lemma episode_keys p bag : (bag = false -> rp_follow p = FollowAll) -> (bag = false -> rp_copy p = None) ->
  keys_in (root_keys bag) (episode_obj p).
Proof.
  intros Hf Hc. unfold episode_obj, root_keys. destruct bag; [auto 20 with doc|].
  rewrite Hf, Hc by done. cbn [is_someb raised]. rewrite bool_decide_eq_true_2 by done. auto 20 with doc.
Qed.

Lemma episode_back p bag :
  shape_ok bag p -> reentry_wf p -> prints_back p -> rp_copy p = (if bag then Some CopyDocument else None) ->
  (bag = false -> rp_follow p = FollowAll) ->
  parse_episode (episode_obj p) bag (rp_copy p) = inr p.
Proof.
  intros (H1 & H2 & H3 & H4 & H5 & H6 & H7 & H8 & H9) Hr (P1 & P2 & P3 & P4 & P5) Hc Hf.
  unfold parse_episode.
  assert (not_null (get (episode_obj p) "follow") =
    if bool_decide (rp_follow p = FollowAll) then None else Some (VString (follow_text (rp_follow p)))) as ->.
  { unfold episode_obj. read_key. by destruct (bool_decide _). }
  assert (match (if bool_decide (rp_follow p = FollowAll) then None else Some (VString (follow_text (rp_follow p)))) with
    | Some v => follow_parse v | None => inr FollowAll end = inr (rp_follow p)) as ->
    by (destruct (rp_follow p); by vm_compute).
  cbn [rbind]. rewrite unknown_keys_back by (apply episode_keys; [done|]; intros ->; done). cbn [rbind].
  replace (get _ "signals") with (listed signals_to_value (rp_signals p))
    by (unfold episode_obj; read_key; by destruct (rp_signals p)).
  rewrite signals_back by done. cbn [rbind].
  replace (get _ "reentry") with (reentry_to_value <$> rp_reentry p)
    by (unfold episode_obj; read_key; by destruct (rp_reentry p)).
  replace (not_null _) with (reentry_to_value <$> rp_reentry p) by (by destruct (rp_reentry p)).
  rewrite ropt_back.
  2: { intros r Er. apply reentry_back. destruct (Hr r Er), (H9 r Er). by unfold reentry_ok; split_and!. }
  cbn [rbind].
  replace (get _ "enter") with (listed VObject (enter_obj (rp_enter p)))
    by (unfold episode_obj; read_key; by destruct (enter_obj (rp_enter p))).
  rewrite enter_back by done. cbn [rbind].
  replace (get _ "take_profit") with (json_f64 <$> rp_take_profit p)
    by (unfold episode_obj; read_key; by destruct (rp_take_profit p)).
  rewrite not_null_num, opt_num_back by done. cbn [rbind].
  replace (get _ "stop_loss") with (json_f64 <$> rp_stop_loss p)
    by (unfold episode_obj; read_key; by destruct (rp_stop_loss p)).
  rewrite not_null_num, opt_num_back by done. cbn [rbind].
  replace (get _ "always") with (listed lines_to_value (rp_always p))
    by (unfold episode_obj; read_key; by destruct (rp_always p)).
  rewrite parse_lines_back by done. cbn [rbind].
  replace (get _ "stages") with (listed (fun l => VArray (stage_to_value <$> l)) (rp_stages p))
    by (unfold episode_obj; read_key; by destruct (rp_stages p)).
  replace (not_null _) with (listed (fun l => VArray (stage_to_value <$> l)) (rp_stages p)) by (by destruct (rp_stages p)).
  rewrite parse_listed.
  2: { rewrite Forall_forall in H6. rewrite Forall_forall in P4. apply Forall_forall. intros s Hs. apply stage_back; auto. }
  cbn [rbind].
  assert (parse_tree (episode_obj p) = inr (rp_tree p)) as ->.
  { destruct (rp_tree p) as [t|] eqn:Et.
    - apply tree_back; auto; unfold episode_obj; read_key; rewrite Et; try done.
      cbn [mbind option_bind]. by destruct (cells_to_value t).
    - assert (get (episode_obj p) "phases" = None) as G1 by (unfold episode_obj; read_key; by rewrite Et).
      assert (get (episode_obj p) "situations" = None) as G2 by (unfold episode_obj; read_key; by rewrite Et).
      assert (get (episode_obj p) "cells" = None) as G3 by (unfold episode_obj; read_key; by rewrite Et).
      unfold parse_tree, has_key. by rewrite G1, G2, G3. }
  cbn [rbind].
  replace (get _ "exclusive") with (raised (rp_exclusive p))
    by (unfold episode_obj; read_key; by destruct (rp_exclusive p)).
  rewrite exclusive_back. cbn [rbind].
  replace (get _ "priority") with (if rp_priority p =? 0 then None else Some (json_int (rp_priority p)))
    by (unfold episode_obj; read_key; by destruct (rp_priority p =? 0)).
  rewrite priority_back by done. cbn [rbind]. by destruct p.
Qed.
