(* ===== verification/RuleDocProps.v ===== *)
(** * RuleDocProps: what an accepted rule document is, and that it survives a save

    [RuleParams::parse] as a type: every rule it returns is well formed.  [to_value] as
    its inverse: a rule whose window texts read back is loaded unchanged from what was
    saved of it, the copy shortcut as the episode it expands to.  A window finer than the
    six decimals a text keeps is the exception. *)

From S2P Require Export RuleDoc RuleDocFacts.

(** ** The copy shortcut as a document *)

Definition shortcut_doc (c : CopySpec) : RuleParams := as_document (copy_expand c).

Lemma one_print_prints_back : span_prints_back one_print.
Proof. vm_compute. reflexivity. Qed.

Lemma life_prints_back : span_prints_back SPAN_LIFE.
Proof. vm_compute. reflexivity. Qed.

Lemma targets_ok r : mr_tag r = Some targets_tag -> mref_check r = inr tt -> ref_ok r.
Proof. intros Ht Hc. split; [|done]. intros t E. rewrite Ht in E. injection E as <-. by vm_compute. Qed.

Lemma at_least_satisfiable x tol : is_finite x = true ->
  check_expr_satisfiable [[{| c_operator := OpGte; c_value := x |}]] tol = inr tt.
Proof. intros Hx. cbn. destruct x as [[]|[]| |[] m e]; done. Qed.

Lemma one_cond_ok r op x : ref_ok r -> is_finite x = true ->
  check_expr_satisfiable [[{| c_operator := op; c_value := x |}]] (ms_eq_tolerance (metric_spec (mr_metric r))) = inr tt ->
  cond_ok (one_cond r op x).
Proof. intros Hr Hx Hs. split; [done|]. split_and!; [done|by repeat constructor..|done]. Qed.

Lemma mirror_line_ok go : name_ok go -> line_ok true (mirror_line go).
Proof.
  intros Hg. split_and!.
  - constructor; [|constructor]. apply one_cond_ok; [by apply targets_ok; vm_compute|done|by vm_compute].
  - intros s [= <-]. split_and!; [|done|done]. intros t [= <-]. by vm_compute.
  - by intros g [= <-].
  - by left.
Qed.

Lemma shortcut_shape c : is_finite (min_buy_sol c) = true -> shape_ok true (shortcut_doc c).
Proof.
  intros Hc. unfold shape_ok, shortcut_doc, as_document, copy_expand.
  cbn [rp_enter rp_take_profit rp_stop_loss rp_signals rp_always rp_stages rp_tree rp_reentry rp_priority].
  split_and!; try done.
  - unfold enter_ok. cbn. split_and!; try done; try constructor.
    + apply one_cond_ok; [by apply targets_ok; vm_compute|done|by apply at_least_satisfiable].
    + constructor; [|constructor]. apply one_cond_ok; [by apply targets_ok; vm_compute|done|by vm_compute].
  - split; constructor.
  - assert (forall n g, name_ok n -> name_ok g -> stage_ok true (mirror_stage n g)) as H.
    { intros n g Hn Hg. split_and!; try done; try constructor; [by apply mirror_line_ok|constructor]. }
    by constructor; [apply H|constructor; [apply H|constructor]].
  - intros r [= <-]. done.
Qed.

Lemma shortcut_prints_back c : prints_back (shortcut_doc c).
Proof.
  unfold prints_back. split_and!; try done; try constructor.
  - constructor; [by vm_compute|]. constructor; [by vm_compute|constructor].
  - split; constructor.
  - split; [|constructor]. repeat constructor.
  - repeat constructor.
Qed.

Lemma shortcut_validates c : validate (shortcut_doc c) = inr tt.
Proof. vm_compute. reflexivity. Qed.

(** ** What an accepted document went through *)

Definition copy_form (bag : bool) : option CopyForm := if bag then Some CopyDocument else None.

(** A shortcut, or an episode of its shape that passed every check. *)
Inductive Accepted (p : RuleParams) : Prop :=
  | AcceptedShortcut c : p = copy_shortcut c -> is_finite (min_buy_sol c) = true -> Accepted p
  | AcceptedEpisode bag : shape_ok bag p -> rp_copy p = copy_form bag -> validate p = inr tt -> Accepted p.

Lemma validated_ok p q : validated p = inr q -> q = p /\ validate p = inr tt.
Proof. unfold validated. intros H. apply rbind_inr in H as ([] & H & [= <-]). done. Qed.

Lemma rule_parse_accepted v p : rule_parse v = inr p -> Accepted p.
Proof.
  unfold rule_parse. intros H. apply rbind_inr in H as (root & _ & H).
  destruct (get root "copy") as [[|[]| | | | | |o]|]; try done.
  - apply rbind_inr in H as (q & Hq & H). apply validated_ok in H as [-> Hv].
    apply parse_episode_ok in Hq as [Hs Hc]. by apply (AcceptedEpisode q true).
  - destruct (_ =? _)%nat; [|done]. apply rbind_inr in H as (c & _ & H). apply validated_ok in H as [-> Hv].
    cbn in Hv. apply ensure_ok in Hv. apply andb_prop in Hv as [Hf _]. by apply (AcceptedShortcut _ c).
  - apply rbind_inr in H as (q & Hq & H). apply validated_ok in H as [-> Hv].
    apply parse_episode_ok in Hq as [Hs Hc]. by apply (AcceptedEpisode q false).
Qed.

(** The checks of an episode, one by one. *)
Record Checked (p : RuleParams) : Prop := {
  ck_follow : rp_follow p = FollowAll \/ rp_copy p <> None;
  ck_ranges : check_ranges p = inr tt;
  ck_reentry : opt_check check_reentry (rp_reentry p) = inr tt;
  ck_signals : Forall (fun s => check_signal s = inr tt) (rp_signals p);
  ck_enter : check_enter p = inr tt;
  ck_stages : check_stages p = inr tt;
  ck_tree : match rp_tree p with Some t => check_tree p t | None => ensure (is_empty (en_cells (rp_enter p))) CellsWithoutTree end = inr tt;
  ck_loops : check_deadline_loops p = None;
}.

Lemma validate_checked p bag : rp_copy p = copy_form bag -> validate p = inr tt -> Checked p.
Proof.
  intros Hc H. assert (validate_episode p = inr tt) as E by (unfold validate in H; rewrite Hc in H; by destruct bag).
  clear H. unfold validate_episode in E. unbind E.
  repeat match goal with u : unit |- _ => destruct u end.
  split; try done.
  - apply orb_prop in E0 as [F|F]; [left; by apply bool_decide_eq_true in F|right]. by destruct (rp_copy p).
  - by apply rall_ok in E3.
  - by destruct (check_deadline_loops p).
Qed.

Lemma checked_reentry p : Checked p -> reentry_wf p.
Proof.
  intros H r Er. pose proof (ck_reentry p H) as C. rewrite Er in C. cbn in C. unfold check_reentry in C. unbind C.
  apply negb_true_iff in E. split; [lia|done].
Qed.

Lemma checked_follow p bag : Checked p -> rp_copy p = copy_form bag -> bag = false -> rp_follow p = FollowAll.
Proof. intros H Hc ->. by destruct (ck_follow p H) as [|Hn]; [|rewrite Hc in Hn]. Qed.

(** ** Every condition of a rule *)

Definition entry_conds (p : RuleParams) : list Cond :=
  en_event (rp_enter p) ++ en_filters (rp_enter p) ++ en_final_filters (rp_enter p).

Definition tree_conds (p : RuleParams) : list Cond :=
  match rp_tree p with
  | Some t => (tr_phases t ≫= ph_until) ++ (tr_situations t ≫= si_when)
  | None => []
  end.

Definition signal_conds (p : RuleParams) : list Cond := rp_signals p ≫= fun s => concat s.2.

(** Every condition of the rule. *)
Definition rule_conds (p : RuleParams) : list Cond :=
  entry_conds p ++ signal_conds p ++ tree_conds p ++ (all_lines p ≫= l_when).

Lemma forall_bind {A B} (P : B -> Prop) (f : A -> list B) l :
  Forall P (l ≫= f) <-> Forall (fun x => Forall P (f x)) l.
Proof.
  rewrite !Forall_forall. split.
  - intros H x Hx. apply Forall_forall. intros y Hy. apply H, list_elem_of_bind. by exists x.
  - intros H y (x & Hy & Hx)%list_elem_of_bind. specialize (H x Hx). rewrite Forall_forall in H. auto.
Qed.

Lemma conds_print_back p : Forall cond_prints_back (rule_conds p) -> prints_back p.
Proof.
  unfold rule_conds, entry_conds, signal_conds, tree_conds, all_lines, tree_lines.
  rewrite !Forall_app, !forall_bind, !Forall_app, !forall_bind.
  intros ((He & Hf & Hff) & Hs & Ht & Ha & Hst & Htl). split_and!.
  - done.
  - eapply Forall_impl; [exact Hs|]. intros s H. by apply Forall_concat.
  - done.
  - eapply Forall_impl; [exact Hst|]. intros s H. by apply Forall_app in H.
  - intros t Et. rewrite Et in *. rewrite Forall_app, !forall_bind in Ht. rewrite forall_bind in Htl.
    destruct Ht. by split_and!.
Qed.

(** ** The round trip *)

Lemma episode_loads p bag :
  shape_ok bag p -> rp_copy p = copy_form bag -> validate p = inr tt -> prints_back p ->
  rule_parse (VObject (episode_obj p)) = inr p.
Proof.
  intros Hs Hc Hv Hp. pose proof (validate_checked p bag Hc Hv) as Hk.
  pose proof (episode_back p bag Hs (checked_reentry p Hk) Hp Hc (checked_follow p bag Hk Hc)) as B.
  unfold rule_parse. cbn [obj as_object ok_or rbind].
  replace (get (episode_obj p) "copy") with (raised (is_someb (rp_copy p)))
    by (unfold episode_obj; read_key; by destruct (rp_copy p)).
  rewrite Hc in *. destruct bag; cbn [is_someb copy_form raised] in *; rewrite B; cbn [rbind];
    unfold validated; by rewrite Hv.
Qed.

Lemma accepted_loads p : Accepted p -> prints_back p -> rule_parse (to_value p) = inr (saved_form p).
Proof.
  intros [c -> Hc|bag Hs Hc Hv] Hp; unfold to_value.
  - change (saved_form (copy_shortcut c)) with (shortcut_doc c).
    by apply (episode_loads _ true); [apply shortcut_shape|done|apply shortcut_validates|apply shortcut_prints_back].
  - replace (saved_form p) with p by (unfold saved_form; rewrite Hc; by destruct bag). by eapply episode_loads.
Qed.

Lemma saved_form_copy p : expand_copy (saved_form p) = expand_copy p.
Proof. unfold saved_form, expand_copy. by destruct (rp_copy p) as [[c|]|] eqn:E; rewrite ?E. Qed.

(** C8: saving a rule and loading it back changes nothing the engine reads: for every
    document the parser accepts whose window texts read back, the printed document is
    accepted, loads as the rule itself - a copy shortcut as the episode it stands for -
    compiles from the same episode, and prints as itself again. *)
Theorem saved_rules_load_unchanged (v : Value) (p : RuleParams) :
  rule_parse v = inr p -> Forall cond_prints_back (rule_conds p) ->
  rule_parse (to_value p) = inr (saved_form p) /\ expand_copy (saved_form p) = expand_copy p /\
  to_value (saved_form p) = to_value p.
Proof.
  intros H Hp. split; [|split].
  - by apply accepted_loads; [eapply rule_parse_accepted|apply conds_print_back].
  - apply saved_form_copy.
  - unfold to_value. f_equal. f_equal. unfold saved_form. by destruct (rp_copy p) as [[c|]|] eqn:E; rewrite ?E.
Qed.

(** ** Accepted rules are well formed *)

(** Lines that need a live condition: all but the checkpoint lines of a deadline. *)
Definition watching_lines (p : RuleParams) : list Line :=
  rp_always p ++ (rp_stages p ≫= st_on) ++ tree_lines p.

(** A condition reads nothing of a position, itself or through the signal it names. *)
Definition blind (p : RuleParams) (c : Cond) : Prop :=
  match c with
  | CondMetric r _ _ => is_position r = false
  | CondSignal name _ _ =>
      exists groups, signal_of p name = Some groups /\ forall g, g ∈ concat groups -> cond_reads_position g = false
  end.

Definition pct_in_range (pct : f64) : Prop := (pct >. f_zero) = true /\ (pct <=. MAX_SELL_PCT) = true.

(** A part sell cannot fire again at the next print: it moves to another stage, or it is a
    cell's line whose own bounds on the sold share close behind it. *)
Definition part_sell_ends (p : RuleParams) (l : Line) (pct : f64) : Prop :=
  l_go l <> None \/ (l ∈ tree_lines p /\ part_sell_stops l pct = true).

(** A phase that has passed stays passed. *)
Definition one_way (c : Cond) : Prop :=
  exists r expr off, c = CondMetric r expr off /\ is_position r = false /\ is_monotonic r = true /\
    Forall (fun c => at_least_op c = true) (concat expr).

Record TreeWellFormed (p : RuleParams) (t : Tree) : Prop := {
  tw_alone : rp_stages p = [];
  tw_phases : tr_phases t <> [] /\ NoDup (ph_name <$> tr_phases t);
  tw_situations : tr_situations t <> [] /\ NoDup (si_name <$> tr_situations t);
  tw_one_way : forall ph c, ph ∈ tr_phases t -> c ∈ ph_until ph -> one_way c;
  tw_cells : NoDup (cell_ref <$> tr_cells t);
  tw_refs : forall c, c ∈ (cell_ref <$> tr_cells t) ++ en_cells (rp_enter p) ->
    (forall n, c.1 = Some n -> n ∈ ph_name <$> tr_phases t) /\ (forall n, c.2 = Some n -> n ∈ si_name <$> tr_situations t);
  tw_no_moves : forall l, l ∈ tree_lines p -> l_go l = None;
}.

Record WellFormed (p : RuleParams) : Prop := {
  wf_conds : Forall cond_ok (rule_conds p);
  wf_signals_flat : forall s, s ∈ rp_signals p -> s.2 <> [] /\ [] ∉ s.2 /\ forall c, c ∈ concat s.2 -> is_signal c = false;
  wf_signals_known : forall name neg off, CondSignal name neg off ∈ rule_conds p -> is_Some (signal_of p name);
  wf_entry_blind : Forall (blind p) (entry_conds p);
  wf_lock : en_lock (rp_enter p) <> None -> exists c, c ∈ en_event (rp_enter p) /\ is_off c = false;
  wf_stage_names : NoDup (stage_names p) /\ (length (rp_stages p) <= MAX_STAGES)%nat;
  wf_moves : forall l g, l ∈ all_lines p -> l_go l = Some g -> g ∈ stage_names p;
  wf_thens : forall s t, s ∈ rp_stages p -> st_then s = Some t -> t ∈ stage_names p /\ st_ends s <> None;
  wf_last : forall s, last (rp_stages p) = Some s -> st_ends s <> None -> st_then s <> None;
  wf_act : forall l, l ∈ all_lines p -> l_sell l <> None \/ l_go l <> None;
  wf_watch : forall l, l ∈ watching_lines p -> l_off l = false -> exists c, c ∈ l_when l /\ is_off c = false;
  wf_part_sells : forall l pct, l ∈ all_lines p -> sell_pct l = Some pct -> pct_in_range pct /\ part_sell_ends p l pct;
  wf_self_moves : forall s l, s ∈ rp_stages p -> l ∈ st_on s ++ st_at_end s -> l_go l = Some (st_name s) -> sells_all l = true;
  wf_loops : check_deadline_loops p = None;
  wf_tree : forall t, rp_tree p = Some t -> TreeWellFormed p t;
}.

Lemma forallb_off_false cs : forallb is_off cs = false -> exists c, c ∈ cs /\ is_off c = false.
Proof.
  induction cs as [|c cs IH]; [done|]. simpl. destruct (is_off c) eqn:E; simpl.
  - intros (d & Hd & Ho)%IH. exists d. split; [by right|done].
  - intros _. exists c. split; [by left|done].
Qed.

(** *** Lines *)

(** A line's conditions, its move and its part sell, as [check_line] leaves them. *)
Record LineChecked (p : RuleParams) (conditional : bool) (l : Line) : Prop := {
  lc_watch : conditional = true -> l_off l = false -> exists c, c ∈ l_when l /\ is_off c = false;
  lc_signals : Forall (fun c => signal_ok p false c = inr tt) (l_when l);
  lc_go : forall g, l_go l = Some g -> g ∈ stage_names p;
  lc_pct : forall pct, sell_pct l = Some pct -> pct_in_range pct /\ l_go l <> None;
}.

Lemma check_line_ok p conditional l : check_line p conditional l = inr tt -> LineChecked p conditional l.
Proof.
  unfold check_line. intros H. unbind H. destruct a, a0, a1. apply negb_true_iff in E. split.
  - intros -> Ho. apply forallb_off_false. rewrite Ho in E. by destruct (forallb is_off _).
  - by apply rall_ok in E0.
  - intros g Hg. rewrite Hg in E1. cbn in E1. apply ensure_ok in E1. by apply contains_spec.
  - intros pct Hp. rewrite Hp in H. cbn in H. unfold check_part in H. unbind H.
    apply andb_prop in E2 as [? ?]. split; [done|]. by destruct (l_go l).
Qed.

Lemma signal_known p e name neg off : signal_ok p e (CondSignal name neg off) = inr tt -> is_Some (signal_of p name).
Proof. cbn. intros H. apply rbind_inr in H as (g & H & _). apply ok_or_ok in H. by exists g. Qed.

Lemma signal_blind p c : signal_ok p true c = inr tt -> blind p c.
Proof.
  destruct c as [r expr off|name neg off]; cbn; intros H.
  - apply ensure_ok in H. by apply negb_true_iff.
  - apply rbind_inr in H as (g & E & H). apply ok_or_ok in E. apply ensure_ok in H. apply negb_true_iff in H.
    exists g. split; [done|]. intros c Hc. apply not_true_iff_false. intros Hr.
    rewrite <- not_true_iff_false, existsb_exists in H. apply H. exists c. split; [by apply list_elem_of_In|done].
Qed.

Lemma unique_ok names e : unique names e = inr tt -> NoDup names.
Proof.
  unfold unique. intros H. destruct (first_twice [] names) as [n|] eqn:E; [done|]. clear H.
  assert (forall seen, first_twice seen names = None -> NoDup names /\ forall n, n ∈ names -> n ∉ seen) as G; [|by apply (G [])].
  clear. induction names as [|n names IH]; intros seen; simpl; [intros _; split; [constructor|by intros n ?%elem_of_nil]|].
  destruct (contains seen n) eqn:C; [done|]. intros [Hd Hn]%IH.
  assert (n ∉ seen) as Hns by (intros ?%contains_spec; congruence). split.
  - constructor; [|done]. intros Hin. apply (Hn n Hin). by left.
  - intros m [->|Hm]%elem_of_cons; [done|]. intros Hs. apply (Hn m Hm). by right.
Qed.

Lemma rall_last_ok {A} (f : bool -> A -> DocError + unit) l : rall_last f l = inr tt ->
  (forall x, x ∈ l -> exists b, f b x = inr tt) /\ (forall x, last l = Some x -> f true x = inr tt).
Proof.
  induction l as [|x l IH]; simpl; [split; [by intros ? ?%elem_of_nil|done]|].
  intros H. apply rbind_inr in H as ([] & E & H). destruct (IH H) as [H1 H2]. split.
  - intros y [->|Hy]%elem_of_cons; [by exists (is_empty l)|by apply H1].
  - intros y. destruct l as [|z l]; [by intros [= <-]|]. intros Hy. by apply H2.
Qed.

(** *** Stages *)

Record StageChecked (p : RuleParams) (s : Stage) : Prop := {
  sc_on : forall l, l ∈ st_on s -> LineChecked p true l;
  sc_at_end : forall l, l ∈ st_at_end s -> LineChecked p false l;
  sc_self : forall l, l ∈ st_on s ++ st_at_end s -> l_go l = Some (st_name s) -> sells_all l = true;
  sc_then : forall t, st_then s = Some t -> t ∈ stage_names p /\ st_ends s <> None;
}.

Lemma stage_line_ok p s b ls : rall (check_stage_line p s b) ls = inr tt ->
  (forall l, l ∈ ls -> LineChecked p b l) /\ (forall l, l ∈ ls -> l_go l = Some (st_name s) -> sells_all l = true).
Proof.
  rewrite rall_ok, Forall_forall. intros H.
  assert (forall l, l ∈ ls -> LineChecked p b l /\ (l_go l = Some (st_name s) -> sells_all l = true)) as G.
  { intros l Hl. specialize (H l Hl). unfold check_stage_line in H. apply rbind_inr in H as ([] & E & H).
    split; [by apply check_line_ok|]. intros Hg. apply ensure_ok in H. rewrite bool_decide_eq_true_2 in H by done.
    by destruct (sells_all l). }
  split; intros l Hl; by apply G.
Qed.

Lemma check_stage_ok p b s : check_stage p b s = inr tt ->
  StageChecked p s /\ (b = true -> st_ends s <> None -> st_then s <> None).
Proof.
  unfold check_stage. intros H. apply rbind_inr in H as ([] & E1 & H). apply rbind_inr in H as ([] & E2 & H).
  apply rbind_inr in H as (u & _ & H). apply stage_line_ok in E1 as [O1 O2], E2 as [A1 A2]. split.
  - split; [done|done| |].
    + intros l [?|?]%elem_of_app; auto.
    + intros t Ht. rewrite Ht in H. unbind H. unfold target in H. apply ensure_ok, contains_spec in H.
      split; [done|]. by destruct (st_ends s).
  - intros -> He Ht. rewrite Ht in H. apply ensure_ok in H. by destruct (st_ends s).
Qed.

Record StagesChecked (p : RuleParams) : Prop := {
  ss_few : (length (rp_stages p) <= MAX_STAGES)%nat;
  ss_names : NoDup (stage_names p);
  ss_always : forall l, l ∈ rp_always p -> LineChecked p true l;
  ss_stage : forall s, s ∈ rp_stages p -> StageChecked p s;
  ss_last : forall s, last (rp_stages p) = Some s -> st_ends s <> None -> st_then s <> None;
}.

Lemma check_stages_ok p : check_stages p = inr tt -> StagesChecked p.
Proof.
  unfold check_stages. intros H. apply rbind_inr in H as (u & E & H). apply ensure_ok in E.
  apply rbind_inr in H as ([] & E1 & H). apply rbind_inr in H as ([] & E2 & H).
  apply rall_last_ok in H as [H1 H2]. rewrite rall_ok, Forall_forall in E2. split.
  - by apply Nat.leb_le.
  - by eapply unique_ok.
  - intros l Hl. by apply check_line_ok, E2.
  - intros s Hs. destruct (H1 s Hs) as [b Hb]. by apply check_stage_ok in Hb as [Hb _].
  - intros s Hs. specialize (H2 s Hs). apply check_stage_ok in H2 as [_ H2]. by apply H2.
Qed.

(** *** The tree *)

(** A cell's line, and the one reading of its part sell. *)
Record CellLineChecked (p : RuleParams) (l : Line) : Prop := {
  cc_go : l_go l = None;
  cc_watch : l_off l = false -> exists c, c ∈ l_when l /\ is_off c = false;
  cc_signals : Forall (fun c => signal_ok p false c = inr tt) (l_when l);
  cc_pct : forall pct, sell_pct l = Some pct -> pct_in_range pct /\ part_sell_stops l pct = true;
}.

Lemma check_cell_line_ok p l : check_cell_line p l = inr tt -> CellLineChecked p l.
Proof.
  unfold check_cell_line. intros H. apply rbind_inr in H as (u & E & H). apply ensure_ok in E.
  assert (l_go l = None) as Hg by (by destruct (l_go l)).
  destruct (sell_pct l) as [pct|] eqn:Ep.
  - unbind H. apply check_line_ok in H as [W S _ _]. cbn [l_when l_off whole_sell] in *.
    split; [done|by apply W|done|]. intros q [= <-]%(eq_trans (eq_sym Ep)).
    apply andb_prop in E0 as [? ?]. done.
  - apply check_line_ok in H as [W S _ _]. split; [done|by apply W|done|]. intros q Hq. congruence.
Qed.

Lemma check_cells_ok p t cells : forall covered out, check_cells p t covered cells = inr out ->
  Forall (fun c => check_cell_ref t (cell_ref c) = inr tt /\ forall l, l ∈ cl_on c -> CellLineChecked p l) cells /\
  NoDup (cell_ref <$> cells) /\ (forall c, c ∈ cells -> cell_ref c ∉ covered).
Proof.
  induction cells as [|c cells IH]; intros covered out H; simpl in H.
  { split_and!; [constructor|constructor|by intros ? ?%elem_of_nil]. }
  apply rbind_inr in H as ([] & E1 & H). apply rbind_inr in H as (u & E2 & H). apply rbind_inr in H as ([] & E3 & H).
  apply ensure_ok, negb_true_iff in E2. apply IH in H as (H1 & H2 & H3).
  assert (cell_ref c ∉ covered) as Hc by (intros ?%contains_spec; congruence). split_and!.
  - constructor; [|done]. split; [done|]. rewrite rall_ok, Forall_forall in E3. intros l Hl. by apply check_cell_line_ok, E3.
  - rewrite fmap_cons. constructor; [|done]. intros (d & Hd & Hin)%list_elem_of_fmap. apply (H3 d Hin).
    rewrite <- Hd. by left.
  - intros d [->|Hd]%elem_of_cons; [done|]. intros Hin. apply (H3 d Hd). by right.
Qed.

Lemma check_cell_ref_ok t c : check_cell_ref t c = inr tt ->
  (forall n, c.1 = Some n -> n ∈ ph_name <$> tr_phases t) /\ (forall n, c.2 = Some n -> n ∈ si_name <$> tr_situations t).
Proof.
  unfold check_cell_ref. intros H. apply rbind_inr in H as ([] & E & H).
  split; intros n Hn; [rewrite Hn in E|rewrite Hn in H]; cbn in *; apply contains_spec;
    [by eapply ensure_ok|by eapply ensure_ok].
Qed.

Lemma check_until_ok n c : check_until n c = inr tt -> one_way c.
Proof.
  destruct c as [r expr off|]; [|done]. cbn. intros H. unbind H. apply negb_true_iff, orb_false_iff in E as [E1 E2].
  exists r, expr, off. split_and!; [done|done|by apply negb_false_iff|].
  by apply forallb_Forall_true.
Qed.

Record TreeChecked (p : RuleParams) (t : Tree) : Prop := {
  tc_wf : TreeWellFormed p t;
  tc_lines : forall l, l ∈ tree_lines p -> CellLineChecked p l;
  tc_situations : forall s c, s ∈ tr_situations t -> c ∈ si_when s -> signal_ok p false c = inr tt;
}.

Lemma check_tree_ok p t : rp_tree p = Some t -> check_tree p t = inr tt -> TreeChecked p t.
Proof.
  unfold check_tree. intros Ht H. unbind H. repeat match goal with u : unit |- _ => destruct u end.
  apply negb_true_iff, orb_false_iff in E0 as [Np Ns].
  apply rall_last_ok in E4 as [Hph _], E5 as [Hsi _]. apply check_cells_ok in E6 as (Hc & Hnd & _).
  rewrite rall_ok, Forall_forall in H. rewrite Forall_forall in Hc.
  assert (forall l, l ∈ tree_lines p -> CellLineChecked p l) as Hl.
  { unfold tree_lines. rewrite Ht. intros l (c & Hin & Hcl)%list_elem_of_bind. by apply (Hc c Hcl). }
  split; [|done|].
  - split.
    + by destruct (rp_stages p).
    + split; [by destruct (tr_phases t)|by eapply unique_ok].
    + split; [by destruct (tr_situations t)|by eapply unique_ok].
    + intros ph c Hp Hin. destruct (Hph ph Hp) as [b Hb]. unfold check_phase in Hb. unbind Hb.
      rewrite rall_ok, Forall_forall in Hb. by eapply check_until_ok, Hb.
    + done.
    + intros c [(d & -> & Hd)%list_elem_of_fmap|Hin]%elem_of_app; apply check_cell_ref_ok; [by apply Hc|by apply H].
    + intros l Hin. by apply Hl.
  - intros s c Hs Hin. destruct (Hsi s Hs) as [b Hb]. unfold check_situation in Hb. unbind Hb.
    rewrite rall_ok, Forall_forall in Hb. by apply Hb.
Qed.

(** *** The whole rule *)

Lemma all_lines_elem p l : l ∈ all_lines p <->
  l ∈ rp_always p \/ (exists s, s ∈ rp_stages p /\ l ∈ st_on s ++ st_at_end s) \/ l ∈ tree_lines p.
Proof. unfold all_lines. rewrite !elem_of_app, list_elem_of_bind. firstorder. Qed.

Lemma shape_lines bag p : shape_ok bag p -> Forall (line_ok bag) (all_lines p).
Proof.
  intros (_ & _ & _ & _ & Ha & Hs & Ht & _). unfold all_lines. rewrite !Forall_app. split_and!; [done| |].
  - rewrite Forall_forall in Hs. apply Forall_forall. intros l (s & Hl & Hin)%list_elem_of_bind.
    destruct (Hs s Hin) as (_ & _ & Ho & He & _). rewrite Forall_forall in Ho. rewrite Forall_forall in He.
    apply elem_of_app in Hl as [?|?]; auto.
  - unfold tree_lines. destruct (rp_tree p) as [t|]; [|constructor]. destruct (Ht t eq_refl) as (_ & _ & Hc).
    rewrite Forall_forall in Hc. apply Forall_forall. intros l (c & Hl & Hin)%list_elem_of_bind.
    destruct (Hc c Hin) as (_ & _ & Ho). rewrite Forall_forall in Ho.
    destruct (Ho l Hl) as (H1 & H2 & H3 & H4). split_and!; try done.
    intros s Hs'. destruct (H2 s Hs') as (L1 & L2 & L3). split_and!; try done. intros Hb. by destruct (L3 Hb).
Qed.

Lemma shape_conds bag p : shape_ok bag p -> Forall cond_ok (rule_conds p).
Proof.
  intros Hs. pose proof (shape_lines bag p Hs) as Hl. destruct Hs as (He & _ & _ & Hg & _ & _ & Ht & _).
  unfold rule_conds, entry_conds, signal_conds, tree_conds. rewrite !Forall_app. split_and!.
  - apply He.
  - apply He.
  - apply He.
  - destruct Hg as [_ Hg]. rewrite Forall_forall in Hg. apply Forall_forall. intros c (s & Hc & Hin)%list_elem_of_bind.
    destruct (Hg s Hin) as [_ Hgs]. apply Forall_concat in Hgs. rewrite Forall_forall in Hgs. auto.
  - destruct (rp_tree p) as [t|]; [|constructor]. destruct (Ht t eq_refl) as (Hp & Hsi & _). rewrite Forall_app.
    rewrite Forall_forall in Hp. rewrite Forall_forall in Hsi. split; apply Forall_forall.
    + intros c (ph & Hc & Hin)%list_elem_of_bind. destruct (Hp ph Hin) as [_ Hcs]. rewrite Forall_forall in Hcs. auto.
    + intros c (si & Hc & Hin)%list_elem_of_bind. destruct (Hsi si Hin) as [_ Hcs]. rewrite Forall_forall in Hcs. auto.
  - rewrite Forall_forall in Hl. apply Forall_forall. intros c (l & Hc & Hin)%list_elem_of_bind.
    destruct (Hl l Hin) as (Hcs & _). rewrite Forall_forall in Hcs. auto.
Qed.

Lemma check_signal_ok s : check_signal s = inr tt -> s.2 <> [] /\ [] ∉ s.2 /\ forall c, c ∈ concat s.2 -> is_signal c = false.
Proof.
  unfold check_signal. intros H. unbind H. apply negb_true_iff, orb_false_iff in E as [E1 E2]. apply negb_true_iff in H.
  split_and!; [by destruct s.2| |].
  - intros Hin. rewrite <- not_true_iff_false, existsb_exists in E2. apply E2. exists []. split; [by apply list_elem_of_In|done].
  - intros c Hc. apply not_true_iff_false. intros Hs. rewrite <- not_true_iff_false, existsb_exists in H. apply H.
    exists c. split; [by apply list_elem_of_In|done].
Qed.

Lemma check_enter_ok p : check_enter p = inr tt ->
  Forall (fun c => signal_ok p true c = inr tt) (entry_conds p) /\
  (en_lock (rp_enter p) <> None -> exists c, c ∈ en_event (rp_enter p) /\ is_off c = false).
Proof.
  unfold check_enter, entry_conds. intros H. unbind H. destruct a, a0, a1. rewrite rall_ok in E, E0, E1.
  split; [by rewrite !Forall_app|]. intros Hl. apply forallb_off_false. apply negb_true_iff in H.
  by destruct (en_lock (rp_enter p)).
Qed.

Section checked.
Context (p : RuleParams) (bag : bool) (Hshape : shape_ok bag p) (Hck : Checked p).

Let Hstages : StagesChecked p := check_stages_ok p (ck_stages p Hck).

Lemma tree_checked t : rp_tree p = Some t -> TreeChecked p t.
Proof using Hck. intros Ht. pose proof (ck_tree p Hck) as H. rewrite Ht in H. by apply check_tree_ok. Qed.

Lemma cell_line_checked l : l ∈ tree_lines p -> CellLineChecked p l.
Proof using Hck.
  intros Hl. destruct (rp_tree p) as [t|] eqn:Ht; [|unfold tree_lines in Hl; rewrite Ht in Hl; by apply elem_of_nil in Hl].
  by apply (tc_lines p t (tree_checked t Ht)).
Qed.

(** A line of the rule is checked as a line of the list it stands in. *)
Lemma line_cases l : l ∈ all_lines p -> (exists b, LineChecked p b l) \/ (l ∈ tree_lines p /\ CellLineChecked p l).
Proof using Hck.
  intros [Hl|[(s & Hs & Hl)|Hl]]%all_lines_elem.
  - left. exists true. by apply (ss_always p Hstages).
  - left. apply elem_of_app in Hl as [Hl|Hl]; [exists true; by eapply sc_on; [apply (ss_stage p Hstages)|]|
      exists false; by eapply sc_at_end; [apply (ss_stage p Hstages)|]].
  - right. split; [done|]. by apply cell_line_checked.
Qed.

Lemma line_signals l c : l ∈ all_lines p -> c ∈ l_when l -> signal_ok p false c = inr tt.
Proof using Hck.
  intros Hl Hc. destruct (line_cases l Hl) as [[b H]|[_ H]];
    [pose proof (lc_signals p b l H) as G|pose proof (cc_signals p l H) as G]; rewrite Forall_forall in G; auto.
Qed.

Lemma signals_known name neg off : CondSignal name neg off ∈ rule_conds p -> is_Some (signal_of p name).
Proof using Hck.
  unfold rule_conds. rewrite !elem_of_app. destruct (check_enter_ok p (ck_enter p Hck)) as [He _].
  rewrite Forall_forall in He. intros [Hc|[Hc|[Hc|Hc]]].
  - eapply signal_known, He, Hc.
  - apply list_elem_of_bind in Hc as (s & Hc & Hs). pose proof (ck_signals p Hck) as Hg. rewrite Forall_forall in Hg.
    destruct (check_signal_ok s (Hg s Hs)) as (_ & _ & Hf). by specialize (Hf _ Hc).
  - unfold tree_conds in Hc. destruct (rp_tree p) as [t|] eqn:Ht; [|by apply elem_of_nil in Hc].
    pose proof (tree_checked t Ht) as T. apply elem_of_app in Hc as [Hc|Hc]; apply list_elem_of_bind in Hc as (x & Hc & Hx).
    + destruct (tw_one_way p t (tc_wf p t T) x _ Hx Hc) as (r & e & o & ? & _). done.
    + eapply signal_known, (tc_situations p t T); done.
  - apply list_elem_of_bind in Hc as (l & Hc & Hl). eapply signal_known, line_signals; done.
Qed.

Lemma checked_well_formed : WellFormed p.
Proof using Hshape Hck.
  destruct (check_enter_ok p (ck_enter p Hck)) as [He Hlock].
  split.
  - by eapply shape_conds.
  - intros s Hs. pose proof (ck_signals p Hck) as Hg. rewrite Forall_forall in Hg. by apply check_signal_ok, Hg.
  - apply signals_known.
  - eapply Forall_impl; [exact He|]. intros c. apply signal_blind.
  - done.
  - split; [by apply (ss_names p Hstages)|by apply (ss_few p Hstages)].
  - intros l g Hl Hg. destruct (line_cases l Hl) as [[b H]|[_ H]]; [by apply (lc_go p b l H)|].
    pose proof (cc_go p l H). congruence.
  - intros s t Hs. apply (sc_then p s (ss_stage p Hstages s Hs)).
  - apply (ss_last p Hstages).
  - intros l Hl. pose proof (shape_lines bag p Hshape) as H. rewrite Forall_forall in H. by destruct (H l Hl) as (_ & _ & _ & ?).
  - intros l [Hl|[(s & Hl & Hs)%list_elem_of_bind|Hl]%elem_of_app]%elem_of_app.
    + by apply (lc_watch p true l (ss_always p Hstages l Hl)).
    + by apply (lc_watch p true l (sc_on p s (ss_stage p Hstages s Hs) l Hl)).
    + by apply (cc_watch p l (cell_line_checked l Hl)).
  - intros l pct Hl Hp. destruct (line_cases l Hl) as [[b H]|[Ht H]].
    + destruct (lc_pct p b l H pct Hp). split; [done|by left].
    + destruct (cc_pct p l H pct Hp). split; [done|by right].
  - intros s l Hs. apply (sc_self p s (ss_stage p Hstages s Hs)).
  - by apply ck_loops.
  - intros t Ht. by apply (tc_wf p t (tree_checked t Ht)).
Qed.
End checked.

(** C6: the parser's promise.  Every rule it returns, the copy shortcut read as the
    episode it stands for, is well formed: every condition, parked ones included, names a
    metric that takes its tag and span and an expression some value satisfies; every
    signal named exists and nests no other; nothing before the buy reads our position;
    stage and cell names are distinct and every move leads to one that exists; a line
    acts, and watches for something unless it is a checkpoint; a part sell cannot repeat
    at the next print; no loop of deadlines runs without a wait. *)
Theorem accepted_rules_are_well_formed (v : Value) (p : RuleParams) :
  rule_parse v = inr p -> WellFormed (saved_form p).
Proof.
  intros H. destruct (rule_parse_accepted v p H) as [c -> Hc|bag Hs Hc Hv].
  - apply (checked_well_formed _ true); [by apply shortcut_shape|].
    by apply (validate_checked _ true); [|apply shortcut_validates].
  - replace (saved_form p) with p by (unfold saved_form; rewrite Hc; by destruct bag).
    eapply checked_well_formed; [done|]. by eapply validate_checked.
Qed.

(** ** A document, and the window it cannot keep *)

#[export] Instance f64_eq_dec : EqDecision f64.
Proof. solve_decision. Defined.
#[export] Instance WindowSpec_eq_dec : EqDecision WindowSpec.
Proof. solve_decision. Defined.
#[export] Instance Span_eq_dec : EqDecision Span.
Proof. solve_decision. Defined.

Definition js_is (op : string) (v : Z) : Value :=
  VArray [VObject [("operator", VString op); ("value", VUint v)]].

Definition js_cond (metric : string) (more : list (string * Value)) (op : string) (v : Z) : Value :=
  VObject (("is"%string, js_is op v) :: ("metric"%string, VString metric) :: more).

(** [{"enter": {"event": [m_flow.buy_sol @!volume [<span>] >= 2], "lock": "token"},
     "always": [...cashout -> sell], "signals": {"cashout": [[trail >= 30]]},
     "stages": [open (60 s), ride], "stop_loss": 30}]. *)
Definition doc_with_span (span : string) : Value := VObject
  [("enter", VObject
      [("event", VArray [js_cond "m_flow.buy_sol" [("span", VString span); ("tag", VString "!volume")] ">=" 2]);
       ("lock", VString "token")]);
   ("always", VArray [VObject [("if", VArray [VObject [("signal", VString "cashout")]]); ("sell", VString "cash out")]]);
   ("signals", VObject [("cashout", VArray [VArray [js_cond "m_price.trail_pct" [] ">=" 30]])]);
   ("stages", VArray
      [VObject [("ends", VObject [("held_sec", VUint 60)]); ("name", VString "open"); ("then", VString "ride");
                ("on", VArray [VObject [("go", VString "ride");
                         ("if", VArray [js_cond "m_position.pnl_pct" [] ">=" 50]); ("sell", VBool true);
                         ("sell_pct", VUint 40)]])];
       VObject [("name", VString "ride")]]);
   ("stop_loss", VUint 30)]%string.

Definition parsed (v : Value) : RuleParams := match rule_parse v with inr p => p | inl _ => RuleParams_default end.

Lemma doc_parses : rule_parse (doc_with_span "10s@2") = inr (parsed (doc_with_span "10s@2")).
Proof. vm_compute. reflexivity. Qed.

Definition cond_reads_back (c : Cond) : bool :=
  match c with
  | CondMetric r _ _ =>
      match span_parse (span_text (mr_span r)) (slice_text (mr_span r)) with
      | inr s => bool_decide (s = mr_span r)
      | inl _ => false
      end
  | CondSignal _ _ _ => true
  end.

Lemma cond_reads_back_spec c : cond_reads_back c = true -> cond_prints_back c.
Proof.
  destruct c as [r expr off|]; [|done]. cbn. unfold span_prints_back. destruct (span_parse _ _) as [|s]; [done|].
  by intros ->%bool_decide_eq_true.
Qed.

Lemma doc_prints_back : Forall cond_prints_back (rule_conds (parsed (doc_with_span "10s@2"))).
Proof.
  eapply Forall_impl; [|apply cond_reads_back_spec]. apply forallb_Forall_true. vm_compute. reflexivity.
Qed.

Lemma saved_rules_load_unchanged_witness :
  rule_parse (to_value (parsed (doc_with_span "10s@2"))) = inr (saved_form (parsed (doc_with_span "10s@2"))).
Proof. apply (saved_rules_load_unchanged (doc_with_span "10s@2")); [exact doc_parses|exact doc_prints_back]. Defined.

Lemma accepted_rules_are_well_formed_witness : WellFormed (saved_form (parsed (doc_with_span "10s@2"))).
Proof. apply (accepted_rules_are_well_formed (doc_with_span "10s@2")). exact doc_parses. Defined.

(** A window finer than the six decimals its text keeps is accepted and judged, but
    its rule does not load again from what a save wrote: the window prints as [0s]. *)
Theorem fine_window_does_not_load :
  exists p, rule_parse (doc_with_span "0.0000004s") = inr p /\
    rule_parse (to_value p) = inl (BadSpanText (BadWindow "0s")).
Proof. exists (parsed (doc_with_span "0.0000004s")). split; vm_compute; reflexivity. Qed.

(** A flat list no value satisfies is refused, not rewritten to alternatives. *)
Example flat_contradiction_is_refused :
  parse_cond (VObject
    [("is", VArray [VObject [("operator", VString ">"); ("value", VUint 30)];
                    VObject [("operator", VString "<"); ("value", VUint 10)]]);
     ("metric", VString "m_state.age_sec")]%string) = inl (NeverHolds (BoundsCross (f_of_Z 30))).
Proof. vm_compute. reflexivity. Qed.
