(* ===== verification/SweepAxes.v ===== *)
(** * SweepAxes: the grid of a grouped sweep, and the rules its combos are

    [lab/src/sweep/generic/axes.rs]: the axes of a request and their checks, the mixed-radix
    numbering of the combos, the key of a combo's entry side and the rule a combo assembles.
    The parser of a read is [RuleDoc.mref_from_json], the rule's own.  A pick out of a list's
    range, which panics, is [None].  Texts of the errors are constructors. *)

From S2P Require Export RuleDocProps.
From S2P Require Import Kernel Compile Rounding.
#[local] Open Scope Z_scope.

(** [SWEEP_FLOW_FP], the nil uuid. *)
Definition SWEEP_FLOW_FP : FingerprintId := 0.

Inductive AxisSide := SideEntry | SideExit.

#[export] Instance AxisSide_eq_dec : EqDecision AxisSide.
Proof. solve_decision. Defined.

Record AxisSpec := {
  as_kind : string;
  as_side : option AxisSide;
  as_metric : option string;
  as_tag : option string;
  as_span : option string;
  as_slice : option string;
  as_operator : option Operator;
  as_values : list (option f64)
}.

Definition default_kind : string := "metric".

(** [None] among the values of a metric axis is the off pick. *)
Inductive ResolvedAxis :=
  | AxMetric (side : AxisSide) (r : MetricRef) (op : Operator) (values : list (option f64))
  | AxTakeProfit (values : list f64)
  | AxStopLoss (values : list f64).

Definition value_count (a : ResolvedAxis) : Z :=
  match a with
  | AxMetric _ _ _ values => Z.of_nat (length values)
  | AxTakeProfit values | AxStopLoss values => Z.of_nat (length values)
  end.

Definition value_at (a : ResolvedAxis) (pick : Z) : option (option f64) :=
  match a with
  | AxMetric _ _ _ values => values !! Z.to_nat pick
  | AxTakeProfit values | AxStopLoss values => Some <$> values !! Z.to_nat pick
  end.

Definition is_entry (a : ResolvedAxis) : bool :=
  match a with AxMetric SideEntry _ _ _ => true | _ => false end.

Definition axis_column (a : ResolvedAxis) : option (MetricRef * option FingerprintId) :=
  match a with
  | AxMetric _ r _ _ =>
      if negb (is_position r) then Some (r, if is_fingerprint_scoped r then Some SWEEP_FLOW_FP else None) else None
  | _ => None
  end.

(** ** Resolving a request *)

Inductive AxisError :=
  | NoValues
  | ValuesNotFinite
  | OnlyOff
  | OffOnTpSl
  | TpSlNotPositive
  | NeedsSide
  | NeedsOperator
  | NeedsMetric
  | BadRead (e : DocError)
  | PositionAtEntry (r : MetricRef)
  | UnknownKind (kind : string).

Inductive RequestError := NoAxes | AxisRefused (i : nat) (e : AxisError).

Definition EPSILON : f64 := f_of_Z 1 ⊘ f_of_Z (2 ^ 52).

(** [dedup_by]: a value close to the last one kept is dropped. *)
Fixpoint dedup_close (kept : f64) (l : list f64) : list f64 :=
  match l with
  | [] => []
  | x :: l => if fabs (x ⊖ kept) <. EPSILON then dedup_close kept l else x :: dedup_close x l
  end.

Definition dedup_values (l : list f64) : list f64 :=
  match l with [] => [] | x :: l => x :: dedup_close x l end.

(** The object the read is parsed from. *)
Definition read_obj (s : AxisSpec) (metric : string) : Obj :=
  put_opt "slice" (VString <$> as_slice s)
    (put_opt "span" (VString <$> as_span s) (put_opt "tag" (VString <$> as_tag s) (put "metric" (VString metric) []))).

Definition axis_ensure (b : bool) (e : AxisError) : AxisError + unit := if b then inr tt else inl e.

Definition axis_ok_or {A} (o : option A) (e : AxisError) : AxisError + A :=
  match o with Some x => inr x | None => inl e end.

Definition ax_bind {A B} (m : AxisError + A) (f : A -> AxisError + B) : AxisError + B :=
  match m with inl e => inl e | inr x => f x end.

#[local] Notation "'ax!' x := m 'in' k" := (ax_bind m (fun x => k))
  (at level 200, x pattern, m at level 100, k at level 200).

Definition resolve_metric (s : AxisSpec) (has_off : bool) (numbers : list f64) : AxisError + ResolvedAxis :=
  ax! side := axis_ok_or (as_side s) NeedsSide in
  ax! op := axis_ok_or (as_operator s) NeedsOperator in
  ax! metric := axis_ok_or (as_metric s) NeedsMetric in
  ax! r := match mref_from_json (read_obj s metric) with inl e => inl (BadRead e) | inr r => inr r end in
  ax! _ := axis_ensure (negb (is_position r && bool_decide (side = SideEntry))) (PositionAtEntry r) in
  inr (AxMetric side r op ((if has_off then [None] else []) ++ (Some <$> numbers))).

Definition resolve_one (s : AxisSpec) : AxisError + ResolvedAxis :=
  ax! _ := axis_ensure (negb (is_empty (as_values s))) NoValues in
  let has_off := existsb is_noneb (as_values s) in
  let numbers := omap id (as_values s) in
  ax! _ := axis_ensure (forallb is_finite numbers) ValuesNotFinite in
  ax! _ := axis_ensure (negb (is_empty numbers)) OnlyOff in
  let numbers := dedup_values (sort_f64 numbers) in
  if bool_decide (as_kind s = "take_profit" \/ as_kind s = "stop_loss") then
    ax! _ := axis_ensure (negb has_off) OffOnTpSl in
    ax! _ := axis_ensure (negb (existsb (fun v => v <=. f_zero) numbers)) TpSlNotPositive in
    inr (if bool_decide (as_kind s = "take_profit") then AxTakeProfit numbers else AxStopLoss numbers)
  else if bool_decide (as_kind s = "metric") then resolve_metric s has_off numbers
  else inl (UnknownKind (as_kind s)).

Fixpoint resolve_from (i : nat) (specs : list AxisSpec) : RequestError + list ResolvedAxis :=
  match specs with
  | [] => inr []
  | s :: specs =>
      match resolve_one s with
      | inl e => inl (AxisRefused i e)
      | inr a => match resolve_from (S i) specs with inl e => inl e | inr l => inr (a :: l) end
      end
  end.

(** [AxesModel::resolve]: the axes, those of the entry first. *)
Definition resolve (specs : list AxisSpec) : RequestError + list ResolvedAxis :=
  match specs with
  | [] => inl NoAxes
  | _ =>
      match resolve_from 0 specs with
      | inl e => inl e
      | inr l => inr (sort_by (fun a b => is_entry a || negb (is_entry b)) l)
      end
  end.

(** ** The combos *)

Definition radix (a : ResolvedAxis) : Z := Z.max 1 (value_count a).

Fixpoint count_from (n : Z) (axes : list ResolvedAxis) : Z :=
  match axes with
  | [] => n
  | a :: axes => if u64_max <? n * radix a then u64_max else count_from (n * radix a) axes
  end.

Definition combo_count (axes : list ResolvedAxis) : Z := count_from 1 axes.

(** The picks of these axes, and what is left of the index above them. *)
Fixpoint picks_from (axes : list ResolvedAxis) (idx : Z) : list Z * Z :=
  match axes with
  | [] => ([], idx)
  | a :: axes => let '(picks, rem) := picks_from axes idx in (rem mod radix a :: picks, rem / radix a)
  end.

Definition combo_picks (axes : list ResolvedAxis) (idx : Z) : list Z := (picks_from axes idx).1.

Definition key_step (key : Z) (x : ResolvedAxis * Z) : Z :=
  if is_entry x.1 then (key * (value_count x.1 + 1) + (x.2 + 1)) mod 2 ^ 64 else key.

Definition entry_key (axes : list ResolvedAxis) (idx : Z) : Z :=
  foldl key_step 0 (zip axes (combo_picks axes idx)).

(** ** What the axes read *)

Definition push_new {A} (same : A -> A -> bool) (l : list A) (x : A) : list A :=
  if existsb (same x) l then l else l ++ [x].

Definition columns (axes : list ResolvedAxis) : list (MetricRef * option FingerprintId) :=
  foldl (push_new column_eqb) [] (omap axis_column axes).

Definition axis_tag (a : ResolvedAxis) : option string :=
  match a with
  | AxMetric _ r _ _ => t ← mr_tag r; if is_builtin t then None else Some (tag_name t)
  | _ => None
  end.

Definition tag_names (axes : list ResolvedAxis) : list string :=
  foldl (push_new (fun a b => bool_decide (a = b))) [] (omap axis_tag axes).

Definition references_tags (axes : list ResolvedAxis) : bool :=
  existsb (fun a => match a with AxMetric _ r _ _ => is_someb (mr_tag r) | _ => false end) axes.

Definition window_secs (w : WindowSpec) : f64 :=
  match w_unit w with
  | UnitSec => w_size w ⊕ w_lag w
  | UnitSlot => (w_size w ⊕ w_lag w) ⊗ NOMINAL_SLOT_SECS
  | UnitPrint => f_zero
  end.

Definition axis_windows (a : ResolvedAxis) : list WindowSpec :=
  match a with
  | AxMetric _ r _ _ => omap id [sp_window (mr_span r); sp_slice (mr_span r)]
  | _ => []
  end.

Definition max_window_secs (axes : list ResolvedAxis) : f64 :=
  foldl fmax f_zero (window_secs <$> (axes ≫= axis_windows)).

Definition swept_values (metric : Metric) (a : ResolvedAxis) : list f64 :=
  match a with
  | AxMetric _ r _ values => if bool_decide (mr_metric r = metric) then omap id values else []
  | _ => []
  end.

Definition metric_value_ceiling (axes : list ResolvedAxis) (metric : Metric) : f64 :=
  let top := foldl (fun m v => Some (match m with None => v | Some m => fmax m v end)) None (axes ≫= swept_values metric) in
  match top with None => f_zero | Some m => m ⊕ ms_eq_tolerance (metric_spec metric) end.

Definition entry_axis_count (axes : list ResolvedAxis) : nat := length (List.filter is_entry axes).

(** ** The rule of a combo *)

Definition Reads : Type := list (MetricRef * list Condition).

Fixpoint add_condition (r : MetricRef) (c : Condition) (l : Reads) : Reads :=
  match l with
  | [] => [(r, [c])]
  | (x, cs) :: l => if mref_eqb x r then (x, cs ++ [c]) :: l else (x, cs) :: add_condition r c l
  end.

Record Assembly := { a_tp : option f64; a_sl : option f64; a_entry : Reads; a_exit : Reads }.

Definition nothing : Assembly := {| a_tp := None; a_sl := None; a_entry := []; a_exit := [] |}.

(** One axis and its pick; [None] is an index out of range. *)
Definition assemble_step (acc : Assembly) (a : ResolvedAxis) (pick : Z) : option Assembly :=
  match a with
  | AxTakeProfit values =>
      v ← values !! Z.to_nat pick;
      Some {| a_tp := Some v; a_sl := a_sl acc; a_entry := a_entry acc; a_exit := a_exit acc |}
  | AxStopLoss values =>
      v ← values !! Z.to_nat pick;
      Some {| a_tp := a_tp acc; a_sl := Some v; a_entry := a_entry acc; a_exit := a_exit acc |}
  | AxMetric side r op values =>
      v ← values !! Z.to_nat pick;
      match v with
      | None => Some acc
      | Some v =>
          let c := {| c_operator := op; c_value := v |} in
          Some match side with
               | SideEntry => {| a_tp := a_tp acc; a_sl := a_sl acc;
                                 a_entry := add_condition r c (a_entry acc); a_exit := a_exit acc |}
               | SideExit => {| a_tp := a_tp acc; a_sl := a_sl acc; a_entry := a_entry acc;
                                a_exit := add_condition r c (a_exit acc) |}
               end
      end
  end.

Fixpoint assemble_from (acc : Assembly) (axes : list ResolvedAxis) (picks : list Z) : option Assembly :=
  match axes, picks with
  | a :: axes, p :: picks => acc ← assemble_step acc a p; assemble_from acc axes picks
  | _, _ => Some acc
  end.

Definition read_cond (x : MetricRef * list Condition) : Cond :=
  CondMetric x.1 (coalesce_contributions x.2 (ms_eq_tolerance (metric_spec (mr_metric x.1)))) false.

Definition sell_line (x : MetricRef * list Condition) : Line := {|
  l_when := [read_cond x]; l_sell := Some {| se_label := None; se_pct := None; se_of_bag := false |};
  l_go := None; l_off := false |}.

Definition rule_of (acc : Assembly) : RuleParams := {|
  rp_enter := {| en_event := []; en_filters := read_cond <$> a_entry acc; en_final_filters := []; en_lock := None;
                 en_size_pct_of_pool := None; en_slippage_pct := None; en_cells := [] |};
  rp_take_profit := a_tp acc; rp_stop_loss := a_sl acc; rp_signals := [];
  rp_always := sell_line <$> a_exit acc; rp_stages := []; rp_tree := None; rp_reentry := None;
  rp_exclusive := false; rp_priority := 0; rp_copy := None; rp_follow := FollowAll |}.

Definition assemble (axes : list ResolvedAxis) (picks : list Z) : option RuleParams :=
  rule_of <$> assemble_from nothing axes picks.

Definition combo_params (axes : list ResolvedAxis) (idx : Z) : option RuleParams :=
  assemble axes (combo_picks axes idx).

(** ** The values of a resolved axis *)

Lemma dedup_close_sub kept l x : x ∈ dedup_close kept l -> x ∈ l.
Proof.
  revert kept. induction l as [|y l IH]; intros kept; cbn; [done|].
  destruct (_ <. _); [by intros ?%IH; right|]. intros [->|?%IH]%elem_of_cons; by constructor.
Qed.

Lemma dedup_values_sub l x : x ∈ dedup_values l -> x ∈ l.
Proof. destruct l as [|y l]; [done|]. cbn. intros [->|?%dedup_close_sub]%elem_of_cons; by constructor. Qed.

Lemma dedup_values_nonempty l : l <> [] -> dedup_values l <> [].
Proof. by destruct l. Qed.

Lemma kept_numbers_sub l x : x ∈ dedup_values (sort_f64 l) -> x ∈ l.
Proof. intros H%dedup_values_sub. unfold sort_f64 in H. by rewrite sort_by_perm in H. Qed.

Lemma kept_numbers_nonempty l : l <> [] -> dedup_values (sort_f64 l) <> [].
Proof.
  intros Hl. apply dedup_values_nonempty. intros E. apply Hl. unfold sort_f64 in E.
  apply Permutation_nil_r. rewrite <- E. by rewrite sort_by_perm.
Qed.

(** What [resolve_one] lets through. *)
Definition axis_ok (a : ResolvedAxis) : Prop :=
  match a with
  | AxMetric side r _ values =>
      ref_ok r /\ values <> [] /\ (forall v, Some v ∈ values -> is_finite v = true)
      /\ (side = SideEntry -> is_position r = false)
  | AxTakeProfit values | AxStopLoss values =>
      values <> [] /\ forall v, v ∈ values -> is_finite v = true /\ (v <=. f_zero) = false
  end.

(** The numbers an axis carries. *)
Definition axis_values (a : ResolvedAxis) : list f64 :=
  match a with AxMetric _ _ _ values => omap id values | AxTakeProfit values | AxStopLoss values => values end.

Lemma axis_ensure_ok b e u : axis_ensure b e = inr u -> b = true.
Proof. by destruct b. Qed.

Lemma ax_bind_inr {A B} (m : AxisError + A) (f : A -> AxisError + B) y :
  ax_bind m f = inr y -> exists x, m = inr x /\ f x = inr y.
Proof. destruct m as [e|x]; [done|]. by exists x. Qed.

Lemma is_nil_false {A} (l : list A) : negb (is_empty l) = true -> l <> [].
Proof. by destruct l. Qed.

Lemma resolve_metric_ok s off numbers a :
  resolve_metric s off numbers = inr a -> numbers <> [] -> forallb is_finite numbers = true ->
  axis_ok a /\ axis_values a = numbers.
Proof.
  unfold resolve_metric. intros H Hn Hf. apply ax_bind_inr in H as (side & _ & H).
  apply ax_bind_inr in H as (op & _ & H). apply ax_bind_inr in H as (metric & _ & H).
  apply ax_bind_inr in H as (r & Hr & H). apply ax_bind_inr in H as (u & Hp & [= <-]).
  apply axis_ensure_ok, negb_true_iff in Hp.
  destruct (mref_from_json _) as [e|r'] eqn:E; [done|]. injection Hr as ->. apply mref_parse_ok in E.
  split.
  - split_and!; [done| |intros v Hv|].
    + destruct off; [done|]. by destruct numbers.
    + rewrite forallb_forall in Hf. apply Hf, list_elem_of_In. apply elem_of_app in Hv as [Hv|Hv].
      * destruct off; [by apply list_elem_of_singleton in Hv|by apply elem_of_nil in Hv].
      * by apply list_elem_of_fmap in Hv as (w & [= ->] & Hw).
    + intros ->. rewrite bool_decide_eq_true_2, andb_true_r in Hp by done. done.
  - cbn. rewrite omap_app. assert (E2 : forall l : list f64, omap id (Some <$> l) = l)
      by (induction l as [|x l IH]; [done|]; cbn; by f_equal).
    destruct off; cbn; apply E2.
Qed.

Lemma resolve_one_ok s a :
  resolve_one s = inr a -> axis_ok a /\ forall v, v ∈ axis_values a -> Some v ∈ as_values s.
Proof.
  unfold resolve_one. intros H. apply ax_bind_inr in H as (u1 & _ & H). apply ax_bind_inr in H as (u2 & Hf & H).
  apply ax_bind_inr in H as (u3 & Hn & H). apply axis_ensure_ok in Hf. apply axis_ensure_ok, is_nil_false in Hn.
  set (raw := omap id (as_values s)) in *. set (numbers := dedup_values (sort_f64 raw)) in *.
  assert (Hsub : forall v, v ∈ numbers -> Some v ∈ as_values s).
  { intros v Hv%kept_numbers_sub. apply list_elem_of_omap in Hv as (o & Ho & E). cbn in E. by subst. }
  assert (Hf' : forallb is_finite numbers = true).
  { rewrite forallb_forall in Hf |- *. intros v Hv%list_elem_of_In. apply Hf, list_elem_of_In. by apply kept_numbers_sub. }
  assert (Hn' : numbers <> []) by (by apply kept_numbers_nonempty).
  case_bool_decide.
  - apply ax_bind_inr in H as (u4 & _ & H). apply ax_bind_inr in H as (u5 & Hp & H).
    apply axis_ensure_ok, negb_true_iff in Hp. rewrite forallb_forall in Hf'. rewrite <- not_true_iff_false, existsb_exists in Hp.
    assert (Ho : forall v, v ∈ numbers -> is_finite v = true /\ (v <=. f_zero) = false).
    { intros v Hv. split; [by apply Hf', list_elem_of_In|]. apply not_true_iff_false. intros E. apply Hp.
      exists v. split; [by apply list_elem_of_In|done]. }
    injection H as <-. case_bool_decide; by split.
  - case_bool_decide; [|done]. apply resolve_metric_ok in H as [Ha E]; [|done..]. split; [done|]. by rewrite E.
Qed.

Lemma resolve_from_ok specs : forall i axes,
  resolve_from i specs = inr axes ->
  Forall axis_ok axes /\ forall a v, a ∈ axes -> v ∈ axis_values a -> exists s, s ∈ specs /\ Some v ∈ as_values s.
Proof.
  induction specs as [|s specs IH]; intros i axes H; cbn in H; [injection H as <-; split; [done|by intros a v ?%elem_of_nil]|].
  destruct (resolve_one s) as [e|a] eqn:Ea; [done|]. destruct (resolve_from (S i) specs) as [e|l] eqn:El; [done|].
  injection H as <-. apply resolve_one_ok in Ea as [Ha Hv]. apply IH in El as [Hl Hvl]. split; [by constructor|].
  intros b v [->|Hb]%elem_of_cons Hbv.
  - exists s. split; [by constructor|]. by apply Hv.
  - destruct (Hvl b v Hb Hbv) as (s' & ? & ?). exists s'. split; [by constructor|done].
Qed.

Lemma resolve_ok specs axes :
  resolve specs = inr axes ->
  Forall axis_ok axes /\ (forall a v, a ∈ axes -> v ∈ axis_values a -> exists s, s ∈ specs /\ Some v ∈ as_values s)
  /\ StronglySorted (fun a b => is_entry a || negb (is_entry b) = true) axes.
Proof.
  unfold resolve. destruct specs as [|s specs]; [done|]. destruct (resolve_from 0 (s :: specs)) as [e|l] eqn:El; [done|].
  intros [= <-]. apply resolve_from_ok in El as [Ho Hv]. set (le := fun a b => _). split_and!.
  - by rewrite (sort_by_perm le).
  - intros a v Ha. apply Hv. by rewrite (sort_by_perm le) in Ha.
  - apply sort_by_sorted.
    + intros a b. unfold le. destruct (is_entry a), (is_entry b); auto.
    + intros a b c. unfold le. by destruct (is_entry a), (is_entry b), (is_entry c).
Qed.

(** ** Numbering *)

(** The combos of these axes, and the index of a choice of picks. *)
Fixpoint size (axes : list ResolvedAxis) : Z :=
  match axes with [] => 1 | a :: axes => radix a * size axes end.

Fixpoint number (axes : list ResolvedAxis) (picks : list Z) : Z :=
  match axes, picks with
  | a :: axes, p :: picks => p * size axes + number axes picks
  | _, _ => 0
  end.

Definition picks_in_range (axes : list ResolvedAxis) (picks : list Z) : Prop :=
  Forall2 (fun a p => 0 <= p < radix a) axes picks.

Lemma radix_pos a : 1 <= radix a.
Proof. unfold radix. lia. Qed.

Lemma size_pos axes : 1 <= size axes.
Proof. induction axes as [|a axes IH]; cbn; [lia|]. pose proof (radix_pos a). nia. Qed.

Lemma picks_from_spec axes idx :
  let '(picks, rem) := picks_from axes idx in
  rem = idx / size axes /\ picks_in_range axes picks /\ number axes picks = idx mod size axes.
Proof.
  induction axes as [|a axes IH]; cbn [picks_from size].
  - rewrite Z.div_1_r, Z.mod_1_r. split_and!; [done|constructor|done].
  - destruct (picks_from axes idx) as [picks rem]. destruct IH as (-> & Hr & Hn).
    pose proof (radix_pos a). pose proof (size_pos axes). split_and!.
    + rewrite Z.div_div by lia. f_equal. lia.
    + constructor; [apply Z.mod_pos_bound; lia|done].
    + cbn [number]. rewrite Hn, (Z.mul_comm (radix a)), Z.rem_mul_r by lia. lia.
Qed.

Lemma number_bound axes picks : picks_in_range axes picks -> 0 <= number axes picks < size axes.
Proof.
  induction 1 as [|a p axes picks Hp _ IH]; cbn; [lia|]. pose proof (size_pos axes). nia.
Qed.

Lemma number_inj axes p q : picks_in_range axes p -> picks_in_range axes q -> number axes p = number axes q -> p = q.
Proof.
  intros Hp. revert q. induction Hp as [|a x axes p Hx Hp IH]; intros q Hq E; inversion Hq as [|? y ? q' Hy Hq']; [done|].
  subst. cbn in E. pose proof (number_bound _ _ Hp). pose proof (number_bound _ _ Hq').
  assert (x = y) as -> by nia. f_equal. apply IH; [done|lia].
Qed.

Lemma combo_picks_spec axes idx :
  picks_in_range axes (combo_picks axes idx) /\ number axes (combo_picks axes idx) = idx mod size axes.
Proof. unfold combo_picks. pose proof (picks_from_spec axes idx). destruct (picks_from axes idx) as [p r]. naive_solver. Qed.

Lemma count_from_spec axes n :
  1 <= n <= u64_max -> count_from n axes = if n * size axes <=? u64_max then n * size axes else u64_max.
Proof.
  revert n. induction axes as [|a axes IH]; intros n Hn; cbn [count_from size].
  - rewrite Z.mul_1_r. by rewrite (proj2 (Z.leb_le n u64_max)) by lia.
  - pose proof (radix_pos a). pose proof (size_pos axes). destruct (Z.ltb_spec u64_max (n * radix a)).
    + destruct (Z.leb_spec (n * (radix a * size axes)) u64_max); [nia|done].
    + rewrite IH by nia. by rewrite Z.mul_assoc.
Qed.

Lemma radix_of_ok a : axis_ok a -> radix a = value_count a /\ 0 < value_count a.
Proof.
  unfold radix. destruct a as [side r op [|v vs]|[|v vs]|[|v vs]]; cbn; try lia;
    intros H; destruct_and?; try done; lia.
Qed.

(** C39: the combos of a request are its grid.  Every choice of one value of each axis is the
    choice of exactly one index below the number of combos, every index chooses a value that
    exists, and the number of combos is the product of the counts, or the largest word
    when the product does not fit one. *)
Theorem combos_are_the_grid specs axes :
  resolve specs = inr axes ->
  (forall picks, Forall2 (fun a p => 0 <= p < value_count a) axes picks
     <-> exists! idx, 0 <= idx < size axes /\ combo_picks axes idx = picks)
  /\ (forall idx, Forall2 (fun a p => is_Some (value_at a p)) axes (combo_picks axes idx))
  /\ combo_count axes = Z.min u64_max (foldr Z.mul 1 (value_count <$> axes)).
Proof.
  intros Hr. apply resolve_ok in Hr as (Ho & _ & _).
  assert (Hrad : Forall (fun a => radix a = value_count a /\ 0 < value_count a) axes)
    by (eapply Forall_impl; [exact Ho|]; apply radix_of_ok).
  assert (Hin : forall picks, Forall2 (fun a p => 0 <= p < value_count a) axes picks <-> picks_in_range axes picks).
  { intros picks. unfold picks_in_range. clear -Hrad. revert picks. induction Hrad as [|a axes [Ha _] _ IH]; intros picks.
    - split; inversion 1; constructor.
    - split; inversion 1; subst; constructor; try lia; by apply IH. }
  split_and!.
  - intros picks. rewrite Hin. split.
    + intros Hp. exists (number axes picks). pose proof (number_bound _ _ Hp). split.
      * split; [done|]. destruct (combo_picks_spec axes (number axes picks)) as [Hq E].
        apply (number_inj axes); [done..|]. by rewrite E, Z.mod_small.
      * intros i [Hi <-]. destruct (combo_picks_spec axes i) as [_ ->]. by rewrite Z.mod_small.
    + intros (i & [_ <-] & _). apply combo_picks_spec.
  - intros idx. destruct (combo_picks_spec axes idx) as [Hq _]. apply Hin in Hq.
    eapply Forall2_impl; [exact Hq|]. intros a p Hp. cbn in Hp.
    destruct a as [side r op vs|vs|vs]; cbn in *; [apply lookup_lt_is_Some; lia|..];
      apply fmap_is_Some, lookup_lt_is_Some; lia.
  - unfold combo_count. rewrite count_from_spec by (unfold u64_max; lia). rewrite Z.mul_1_l.
    assert (size axes = foldr Z.mul 1 (value_count <$> axes)) as ->
      by (clear -Hrad; induction Hrad as [|a axes [Ha _] _ IH]; [done|]; cbn; by rewrite Ha, IH).
    destruct (Z.leb_spec (foldr Z.mul 1 (value_count <$> axes)) u64_max); lia.
Qed.

(** ** The entry side of a combo *)

Lemma picks_from_app l1 l2 idx :
  picks_from (l1 ++ l2) idx =
  ((picks_from l1 (idx / size l2)).1 ++ (picks_from l2 idx).1, (picks_from l1 (idx / size l2)).2).
Proof.
  induction l1 as [|a l1 IH]; cbn.
  - pose proof (picks_from_spec l2 idx) as H. destruct (picks_from l2 idx) as [p r]. cbn. by destruct H as (-> & _).
  - rewrite IH. by destruct (picks_from l1 (idx / size l2)).
Qed.

Lemma combo_picks_app l1 l2 idx : combo_picks (l1 ++ l2) idx = combo_picks l1 (idx / size l2) ++ combo_picks l2 idx.
Proof. unfold combo_picks. by rewrite picks_from_app. Qed.

Lemma size_app l1 l2 : size (l1 ++ l2) = size l1 * size l2.
Proof. induction l1 as [|a l1 IH]; cbn; [lia|]. rewrite IH. lia. Qed.

(** The room the keys of these axes take. *)
Definition key_room (axes : list ResolvedAxis) : Z := foldr Z.mul 1 ((fun a => value_count a + 1) <$> axes).

Lemma key_room_pos axes : 1 <= key_room axes.
Proof. unfold key_room. induction axes as [|a axes IH]; cbn; [lia|]. assert (0 <= value_count a) by (destruct a; cbn; lia). nia. Qed.

Lemma key_step_exits axes picks k :
  Forall (fun a => is_entry a = false) axes -> foldl key_step k (zip axes picks) = k.
Proof.
  intros H. revert picks k. induction H as [|a axes Ha _ IH]; intros [|p picks] k; try done. cbn.
  unfold key_step at 2. cbn [fst snd]. by rewrite Ha, IH.
Qed.

Lemma key_step_inj axes p q : forall k m,
  Forall (fun a => is_entry a = true) axes ->
  Forall2 (fun a p => 0 <= p < value_count a) axes p -> Forall2 (fun a p => 0 <= p < value_count a) axes q ->
  forall room, 0 <= k < room -> 0 <= m < room -> room * key_room axes <= 2 ^ 64 ->
  foldl key_step k (zip axes p) = foldl key_step m (zip axes q) -> k = m /\ p = q.
Proof.
  intros k m He Hp. revert k m q. induction Hp as [|a x axes p Hx Hp IH]; intros k m q Hq room Hk Hm Hroom E;
    inversion Hq as [|? y ? q' Hy Hq']; subst; [done|].
  apply Forall_cons in He as [Ha He]. cbn [zip zip_with foldl] in E. unfold key_step at 2 4 in E. cbn [fst snd] in E.
  rewrite Ha in E. unfold key_room in Hroom. cbn in Hroom. fold (key_room axes) in Hroom.
  pose proof (key_room_pos axes).
  assert (room * (value_count a + 1) <= 2 ^ 64) by nia.
  rewrite !Z.mod_small in E by nia.
  apply IH with (room := room * (value_count a + 1)) in E as [E ->]; [|done|done|nia|nia|lia].
  assert (k = m) by nia. subst. split; [done|]. f_equal. lia.
Qed.

(** What the exit axes do not touch. *)
Lemma assemble_from_app l1 l2 p1 p2 acc :
  length l1 = length p1 ->
  assemble_from acc (l1 ++ l2) (p1 ++ p2) = acc ← assemble_from acc l1 p1; assemble_from acc l2 p2.
Proof.
  revert p1 acc. induction l1 as [|a l1 IH]; intros [|p p1] acc Hl; try done. cbn.
  destruct (assemble_step acc a p) as [acc'|]; [|done]. cbn. apply IH. cbn in Hl. lia.
Qed.

Lemma assemble_exits l p acc acc' :
  Forall (fun a => is_entry a = false) l -> assemble_from acc l p = Some acc' -> a_entry acc' = a_entry acc.
Proof.
  intros H. revert p acc. induction H as [|a l Ha _ IH]; intros [|x p] acc E; cbn in E; try by injection E as <-.
  destruct (assemble_step acc a x) as [acc1|] eqn:E1; [|done]. cbn in E. apply IH in E. rewrite E. clear -E1 Ha.
  destruct a as [side r op vs|vs|vs]; cbn in E1; destruct (vs !! Z.to_nat x) as [v|]; try done;
    [|by injection E1 as <-..]. cbn in E1. destruct v as [v|]; [|by injection E1 as <-].
  destruct side; [done|]. by injection E1 as <-.
Qed.

(** A sorted list of axes is its entry axes and its exit axes. *)
Lemma entries_first axes :
  StronglySorted (fun a b => is_entry a || negb (is_entry b) = true) axes ->
  exists ens exs, axes = ens ++ exs /\ Forall (fun a => is_entry a = true) ens /\ Forall (fun a => is_entry a = false) exs.
Proof.
  induction 1 as [|a axes _ (ens & exs & -> & He & Hx) Ha]; [by exists [], []|].
  destruct (is_entry a) eqn:Ea; [exists (a :: ens), exs; split_and!; by try constructor|].
  assert (ens = []) as ->.
  { destruct ens as [|b ens]; [done|]. apply Forall_cons in He as [He _]. apply Forall_cons in Ha as [Ha _].
    cbn in Ha. by rewrite He in Ha. }
  exists [], (a :: exs). split_and!; by try constructor.
Qed.

Lemma length_picks axes idx : length (combo_picks axes idx) = length axes.
Proof. destruct (combo_picks_spec axes idx) as [H _]. symmetry. by eapply Forall2_length. Qed.

Lemma filter_all {A} (f : A -> bool) l : Forall (fun x => f x = true) l -> List.filter f l = l.
Proof. induction 1 as [|x l Hx _ IH]; cbn; [done|]. by rewrite Hx, IH. Qed.

Lemma filter_none {A} (f : A -> bool) l : Forall (fun x => f x = false) l -> List.filter f l = [].
Proof. induction 1 as [|x l Hx _ IH]; cbn; [done|]. by rewrite Hx, IH. Qed.

Lemma filter_entries (g : bool -> bool) (ens exs : list ResolvedAxis) :
  Forall (fun a => is_entry a = true) ens -> Forall (fun a => is_entry a = false) exs ->
  g true = negb (g false) ->
  List.filter (fun a => g (is_entry a)) (ens ++ exs) = if g true then ens else exs.
Proof.
  intros He Hx Hg. rewrite List.filter_app. destruct (g true) eqn:Et.
  - rewrite (filter_all _ ens), (filter_none _ exs), app_nil_r; [done| |].
    + eapply Forall_impl; [exact Hx|]. intros a ->. by destruct (g false).
    + eapply Forall_impl; [exact He|]. by intros a ->.
  - rewrite (filter_none _ ens), (filter_all _ exs); [done| |].
    + eapply Forall_impl; [exact Hx|]. intros a ->. by destruct (g false).
    + eapply Forall_impl; [exact He|]. by intros a ->.
Qed.

Lemma counts_in_range axes picks :
  Forall axis_ok axes -> picks_in_range axes picks -> Forall2 (fun a p => 0 <= p < value_count a) axes picks.
Proof.
  intros Ho Hp. revert Ho. induction Hp as [|a p axes picks Hp _ IH]; intros Ho; [constructor|].
  apply Forall_cons in Ho as [Ha Ho]. apply radix_of_ok in Ha as [E _]. constructor; [lia|by apply IH].
Qed.

Lemma combo_picks_inj axes i j : 0 <= i < size axes -> 0 <= j < size axes -> combo_picks axes i = combo_picks axes j -> i = j.
Proof.
  intros Hi Hj E. destruct (combo_picks_spec axes i) as [_ Ni], (combo_picks_spec axes j) as [_ Nj].
  rewrite Z.mod_small in Ni, Nj by done. congruence.
Qed.

Lemma entry_key_app ens exs idx :
  Forall (fun a => is_entry a = false) exs ->
  entry_key (ens ++ exs) idx = foldl key_step 0 (zip ens (combo_picks ens (idx / size exs))).
Proof.
  intros Hx. unfold entry_key. rewrite combo_picks_app, zip_with_app by (symmetry; apply length_picks).
  rewrite foldl_app. by apply key_step_exits.
Qed.

Lemma combo_enter ens exs idx p :
  Forall (fun a => is_entry a = false) exs -> combo_params (ens ++ exs) idx = Some p ->
  exists acc, assemble_from nothing ens (combo_picks ens (idx / size exs)) = Some acc
  /\ rp_enter p = rp_enter (rule_of acc).
Proof.
  intros Hx. unfold combo_params, assemble. rewrite combo_picks_app, assemble_from_app by (symmetry; apply length_picks).
  destruct (assemble_from nothing ens _) as [acc|]; [|done]. cbn [mbind option_bind].
  destruct (assemble_from acc exs _) as [acc'|] eqn:E; [|done]. intros [= <-]. exists acc. split; [done|].
  apply assemble_exits in E; [|done]. cbn. by rewrite E.
Qed.

(** The key of a combo names its entry side.  While the keys fit a word, two combos have
    the same key exactly when they lie in the same block of consecutive combos, and then
    their rules buy on the same conditions. *)
Theorem entry_key_is_the_entry specs axes i j :
  resolve specs = inr axes -> 0 <= i < size axes -> 0 <= j < size axes ->
  key_room (List.filter is_entry axes) <= 2 ^ 64 ->
  (entry_key axes i = entry_key axes j
   <-> i / size (List.filter (fun a => negb (is_entry a)) axes) = j / size (List.filter (fun a => negb (is_entry a)) axes))
  /\ (entry_key axes i = entry_key axes j ->
      forall p q, combo_params axes i = Some p -> combo_params axes j = Some q -> rp_enter p = rp_enter q).
Proof.
  intros Hr Hi Hj Hk. apply resolve_ok in Hr as (Ho & _ & Hs).
  destruct (entries_first axes Hs) as (ens & exs & -> & He & Hx).
  rewrite (filter_entries negb ens exs) by done. 
  change (List.filter is_entry (ens ++ exs)) with (List.filter (fun a => id (is_entry a)) (ens ++ exs)) in Hk.
  rewrite (filter_entries id ens exs) in Hk by done. cbn [negb id] in *.
  apply Forall_app in Ho as [Hoe _]. rewrite size_app in Hi, Hj. pose proof (size_pos exs). pose proof (size_pos ens).
  assert (Hdiv : forall x, 0 <= x < size ens * size exs -> 0 <= x / size exs < size ens)
    by (intros x Hb; split; [apply Z.div_pos; lia|apply Z.div_lt_upper_bound; lia]).
  assert (E : entry_key (ens ++ exs) i = entry_key (ens ++ exs) j <-> i / size exs = j / size exs).
  { rewrite !entry_key_app by done. split; [|by intros ->]. intros E.
    apply (combo_picks_inj ens); [by apply Hdiv..|].
    eapply (key_step_inj ens) with (room := 1) in E; [by destruct E|done|..|lia|lia|lia];
      (apply counts_in_range; [done|apply combo_picks_spec]). }
  split; [done|]. intros Heq p q Hp Hq. apply E in Heq.
  apply combo_enter in Hp as (acc & Ep & ->); [|done]. apply combo_enter in Hq as (acc' & Eq & ->); [|done]. congruence.
Qed.

(** The off pick of an axis is no axis: a combo that picks it assembles the rule of the
    other axes at the other picks. *)
Theorem off_pick_is_no_axis l1 l2 p1 p2 side r op values pick :
  length l1 = length p1 -> values !! Z.to_nat pick = Some None ->
  assemble (l1 ++ AxMetric side r op values :: l2) (p1 ++ pick :: p2) = assemble (l1 ++ l2) (p1 ++ p2).
Proof.
  intros Hl Ho. unfold assemble. f_equal. rewrite !assemble_from_app by done.
  destruct (assemble_from nothing l1 p1) as [acc|]; [|done]. cbn. by rewrite Ho.
Qed.

(** ** Every combo is a rule *)

Lemma fadd_as_fsub x y : is_finite x = true -> is_finite y = true -> x ⊕ y = x ⊖ fneg y.
Proof.
  intros Hx Hy. destruct x as [sx|[]| |sx mx ex], y as [sy|[]| |sy my ey]; try done.
  - by destruct sx, sy.
  - cbn. by rewrite negb_involutive.
  - unfold fadd, fsub, SFadd, SFsub, fneg, SFopp. f_equal. destruct sy; cbn [negb cond_Zopp]; lia.
Qed.

Definition half_of (m : Metric) : f64 := ms_eq_tolerance (metric_spec m) ⊘ f_two.

Lemma half_ok m : is_finite (half_of m) = true /\ valid (half_of m) = true /\ 0 <= units 1 (half_of m).
Proof. destruct m; vm_compute; by split_and!. Qed.

Lemma band_ordered m v :
  is_finite v = true -> valid v = true -> (v ⊖ half_of m <=. v ⊕ half_of m) = true.
Proof.
  intros Hf Hv. destruct (half_ok m) as (Fh & Vh & Ph). rewrite fadd_as_fsub by done.
  assert (Fn : is_finite (fneg (half_of m)) = true) by (by destruct (half_of m)).
  assert (Vn : valid (fneg (half_of m)) = true) by (by destruct (half_of m)).
  assert (Un : units 1 (fneg (half_of m)) = - units 1 (half_of m)).
  { destruct (half_of m) as [s|s| |s p e]; try done. cbn. unfold signed. destruct s; cbn; lia. }
  eapply rounded_mono; [|by apply fsub_rounded|by apply fsub_rounded|]; lia.
Qed.

Lemma band_bounds_agree a b :
  (a <=. b) = true -> bounds_cross (drop_hi (raise_lo no_bounds a false) b false) = false.
Proof.
  intros Hab. unfold bounds_cross, drop_hi, raise_lo. rewrite !andb_false_r, !orb_false_r.
  assert (Hn : forall x, (x <. f_neg_inf) = false) by (by intros [[]|[]| |[] ? ?]).
  assert (Hp : forall x, (f_inf <. x) = false) by (by intros [[]|[]| |[] ? ?]).
  assert (Hba : (b <. a) = false) by (by apply fle_not_flt).
  unfold no_bounds. cbn [b_lo b_lo_strict b_hi b_hi_strict].
  destruct (a >. f_neg_inf); cbn [b_lo b_lo_strict b_hi b_hi_strict]; destruct (b <. f_inf);
    cbn [b_lo b_lo_strict b_hi b_hi_strict]; unfold fgt; rewrite ?Hn, ?Hp, ?Hba; cbn [orb]; rewrite ?andb_false_r; done.
Qed.

Lemma single_satisfiable m c :
  is_finite (c_value c) = true -> valid (c_value c) = true ->
  check_arm_satisfiable [c] (ms_eq_tolerance (metric_spec m)) = inr tt.
Proof.
  intros Hf Hv. unfold check_arm_satisfiable. fold (half_of m). unfold ne_bands. cbn [foldl List.filter].
  unfold bound_step. destruct (c_operator c); cbn [bool_decide decide].
  1-4: destruct (c_value c) as [[]|[]| |[] ? ?]; by vm_compute.
  - by rewrite band_bounds_agree by (by apply band_ordered).
  - done.
Qed.

Definition cond_wf (c : Condition) : Prop := is_finite (c_value c) = true /\ valid (c_value c) = true.

Lemma coalesced_ok m cs :
  cs <> [] -> Forall cond_wf cs -> expr_ok m (coalesce_contributions cs (ms_eq_tolerance (metric_spec m))).
Proof.
  intros Hn Hc. unfold coalesce_contributions. destruct cs as [|c cs]; [done|]. clear Hn. set (tol := ms_eq_tolerance _).
  destruct (check_arm_satisfiable (c :: cs) tol) as [e|[]] eqn:E; cbn [is_ok].
  - split_and!; [done| | |].
    + apply Forall_fmap, Forall_forall. by intros x _.
    + apply Forall_fmap. eapply Forall_impl; [exact Hc|]. intros x [Hx _]. by repeat constructor.
    + apply Forall_cons in Hc as [[Hf Hv] _]. cbn. by rewrite (single_satisfiable m c Hf Hv).
  - split_and!; [done|by apply Forall_singleton|apply Forall_singleton|unfold check_expr_satisfiable, check_arms; fold tol; by rewrite E].
    eapply Forall_impl; [exact Hc|]. by intros x [? _].
Qed.

(** The reads of an assembly, whose metrics satisfy [P]. *)
Definition reads_wf (P : MetricRef -> Prop) (l : Reads) : Prop :=
  Forall (fun x => P x.1 /\ x.2 <> [] /\ Forall cond_wf x.2) l.

Lemma add_condition_wf P r c l : P r -> cond_wf c -> reads_wf P l -> reads_wf P (add_condition r c l).
Proof.
  intros Hr Hc. induction 1 as [|[x cs] l (Hx & Hn & Hcs) Hl IH]; cbn.
  { apply Forall_singleton. split_and!; [done|done|by apply Forall_singleton]. }
  destruct (mref_eqb x r); constructor; try done. cbn. split_and!; [done|by destruct cs|].
  apply Forall_app. split; [done|by constructor].
Qed.

Definition readable (r : MetricRef) : Prop := ref_ok r /\ span_prints_back (mr_span r).
Definition readable_before (r : MetricRef) : Prop := readable r /\ is_position r = false.
Definition sells_at (o : option f64) : Prop := forall v, o = Some v -> is_finite v = true /\ (v <=. f_zero) = false.

Record assembly_wf (acc : Assembly) : Prop := {
  aw_tp : sells_at (a_tp acc);
  aw_sl : sells_at (a_sl acc);
  aw_entry : reads_wf readable_before (a_entry acc);
  aw_exit : reads_wf readable (a_exit acc)
}.

(** The texts of the axes' spans read back, and the numbers are floats of the format. *)
Definition axis_representable (a : ResolvedAxis) : Prop :=
  match a with AxMetric _ r _ _ => span_prints_back (mr_span r) | _ => True end
  /\ Forall (fun v => valid v = true) (axis_values a).

Lemma assemble_step_wf acc a p :
  assembly_wf acc -> axis_ok a -> axis_representable a -> 0 <= p < value_count a ->
  exists acc', assemble_step acc a p = Some acc' /\ assembly_wf acc'.
Proof.
  intros [Ht Hs He Hx] Ho [Hb Hv] Hp. rewrite Forall_forall in Hv.
  assert (Hat : forall (A : Type) (l : list A), Z.of_nat (length l) = value_count a ->
            exists v, l !! Z.to_nat p = Some v /\ v ∈ l).
  { intros A l El. destruct (lookup_lt_is_Some_2 l (Z.to_nat p)) as [v Ev]; [lia|]. exists v. split; [done|].
    by eapply list_elem_of_lookup_2. }
  destruct a as [side r op vs|vs|vs]; cbn [assemble_step axis_ok] in *.
  - destruct (Hat _ vs eq_refl) as (v & -> & Hin). cbn [mbind option_bind]. destruct Ho as (Hr & _ & Hf & Hpos).
    destruct v as [v|]; [|by exists acc].
    assert (Hc : cond_wf {| c_operator := op; c_value := v |}).
    { split; [by apply Hf|]. apply Hv. cbn. apply list_elem_of_omap. by exists (Some v). }
    destruct side; eexists; (split; [done|]); split; try done; cbn; apply add_condition_wf; try done.
    split; [done|by apply Hpos].
  - destruct (Hat _ vs eq_refl) as (v & -> & Hin). cbn. eexists. split; [done|]. split; try done. cbn.
    intros w [= <-]. by apply Ho.
  - destruct (Hat _ vs eq_refl) as (v & -> & Hin). cbn. eexists. split; [done|]. split; try done. cbn.
    intros w [= <-]. by apply Ho.
Qed.

Lemma assemble_wf axes picks : forall acc,
  Forall axis_ok axes -> Forall axis_representable axes -> picks_in_range axes picks -> assembly_wf acc ->
  exists acc', assemble_from acc axes picks = Some acc' /\ assembly_wf acc'.
Proof.
  intros acc Ho Hr Hp. revert acc Ho Hr. induction Hp as [|a p axes picks Hp _ IH]; intros acc Ho Hr Ha; [by exists acc|].
  apply Forall_cons in Ho as [Hoa Ho]. apply Forall_cons in Hr as [Hra Hr].
  destruct (radix_of_ok a Hoa) as [E _]. destruct (assemble_step_wf acc a p) as (acc1 & E1 & H1); [done..|lia|].
  cbn. rewrite E1. by apply IH.
Qed.

Lemma read_cond_ok P x : (P x.1 -> readable x.1) -> P x.1 /\ x.2 <> [] /\ Forall cond_wf x.2 ->
  cond_ok (read_cond x) /\ cond_prints_back (read_cond x).
Proof.
  intros Hi (Hp & Hn & Hc). destruct (Hi Hp) as [Hr Hs]. split; [|done]. split; [done|]. by apply coalesced_ok.
Qed.

Lemma assembled_shape acc : assembly_wf acc -> shape_ok false (rule_of acc) /\ prints_back (rule_of acc).
Proof.
  intros [Ht Hs He Hx].
  assert (Cen : Forall (fun c => cond_ok c /\ cond_prints_back c) (read_cond <$> a_entry acc)).
  { apply Forall_fmap. eapply Forall_impl; [exact He|]. intros x. apply read_cond_ok. by intros [? _]. }
  assert (Cex : Forall (fun x => cond_ok (read_cond x) /\ cond_prints_back (read_cond x)) (a_exit acc)).
  { eapply Forall_impl; [exact Hx|]. intros x. by apply read_cond_ok. }
  assert (Cl : Forall (line_ok false) (sell_line <$> a_exit acc) /\ Forall line_prints_back (sell_line <$> a_exit acc)).
  { split; apply Forall_fmap; (eapply Forall_impl; [exact Cex|]); intros x [H1 H2].
    - split_and!; [by apply Forall_singleton| |done|by left]. intros s [= <-]. by split_and!.
    - by apply Forall_singleton. }
  split.
  - unfold shape_ok. cbn. split_and!; try done; try apply Cl; [|by intros v [? _]%Ht|by intros v [? _]%Hs|by split; constructor].
    unfold enter_ok. cbn. split_and!; try done. eapply Forall_impl; [exact Cen|]. by intros c [? _].
  - unfold prints_back. cbn. split_and!; try done; try apply Cl. unfold enter_prints_back. cbn. split_and!; try done.
    eapply Forall_impl; [exact Cen|]. by intros c [_ ?].
Qed.

Lemma sells_in_range key o : sells_at o -> in_range key o f_zero f_inf = inr tt.
Proof.
  intros Ho. unfold in_range. destruct o as [v|]; [|done]. destruct (Ho v eq_refl) as [Hf Hz].
  destruct v as [[]|[]| |[] ? ?]; done.
Qed.

Lemma assembled_validates acc : assembly_wf acc -> validate (rule_of acc) = inr tt.
Proof.
  intros [Ht Hs He Hx]. unfold validate. cbn [rule_of rp_copy]. unfold validate_episode, check_ranges.
  cbn [rule_of rp_follow rp_copy rp_take_profit rp_stop_loss rp_enter rp_reentry rp_signals rp_tree en_size_pct_of_pool
       en_slippage_pct en_cells].
  rewrite !sells_in_range by done. cbn [ensure rbind bool_decide decide in_range opt_check rall is_empty].
  assert (check_enter (rule_of acc) = inr tt) as ->.
  { unfold check_enter. cbn [rule_of rp_enter en_event en_filters en_final_filters en_lock rall rbind is_someb andb negb ensure].
    assert (rall (signal_ok (rule_of acc) true) (read_cond <$> a_entry acc) = inr tt) as E; [|by rewrite E].
    apply rall_ok, Forall_fmap. eapply Forall_impl; [exact He|]. intros x ((_ & Hp) & _). cbn. by rewrite Hp. }
  assert (check_stages (rule_of acc) = inr tt) as ->; [|done].
  unfold check_stages. change (stage_names (rule_of acc)) with (@nil string).
  assert (rall (check_line (rule_of acc) true) (rp_always (rule_of acc)) = inr tt) as E; [|by rewrite E].
  apply rall_ok, Forall_fmap, Forall_forall. by intros x _.
Qed.

(** C38: every combo is a rule the engine takes.  Whatever axes a request resolves to, when the
    texts of their spans read back (a window of less than half a microsecond prints as 0s and
    does not): every index assembles a rule, never an index out of range, and the document
    the rule prints as is accepted by the engine's own parser and loads as that very rule.
    What was swept is what can be promoted. *)
Theorem every_combo_promotes specs axes idx :
  resolve specs = inr axes -> Forall axis_representable axes ->
  exists p, combo_params axes idx = Some p /\ rule_parse (to_value p) = inr p.
Proof.
  intros Hr Hb. apply resolve_ok in Hr as (Ho & _ & _).
  destruct (assemble_wf axes (combo_picks axes idx) nothing Ho Hb) as (acc & E & Hw);
    [apply combo_picks_spec|by split; try apply Forall_nil_2; intros v|].
  exists (rule_of acc). unfold combo_params, assemble. rewrite E. split; [done|].
  destruct (assembled_shape acc Hw) as [Hs Hp]. apply (episode_loads _ false); [done..|by apply assembled_validates|done].
Qed.

(** ** A request at work *)

Module AxesDemo.
Definition metric_axis (side : AxisSide) (metric : string) (span : option string) (op : Operator)
    (values : list (option f64)) : AxisSpec := {|
  as_kind := default_kind; as_side := Some side; as_metric := Some metric; as_tag := None; as_span := span;
  as_slice := None; as_operator := Some op; as_values := values |}.

Definition take_profit_axis (values : list (option f64)) : AxisSpec := {|
  as_kind := "take_profit"; as_side := None; as_metric := None; as_tag := None; as_span := None; as_slice := None;
  as_operator := None; as_values := values |}.

Definition n (k : Z) : option f64 := Some (f_of_Z k).

(** Two bounds on one exit read, an entry axis with an off pick, and a take profit given
    twice; the entry axis is last in the request. *)
Definition request : list AxisSpec := [
  take_profit_axis [n 100; n 50; n 100];
  metric_axis SideExit "m_state.liquidity_sol" None OpLt [n 30];
  metric_axis SideExit "m_state.liquidity_sol" None OpGt [n 70; n 20];
  metric_axis SideEntry "m_flow.buy_sol" (Some "10s") OpGte [n 4; None; n 1]].

Definition axes : list ResolvedAxis := match resolve request with inr axes => axes | inl _ => [] end.

Lemma resolves : resolve request = inr axes.
Proof. vm_compute. reflexivity. Qed.

Lemma representable : Forall axis_representable axes.
Proof.
  let v := eval vm_compute in axes in replace axes with v by (vm_compute; reflexivity).
  repeat (apply Forall_cons_2;
    [split; [first [exact I|unfold span_prints_back; vm_compute; reflexivity]
            |cbn [axis_values omap list_omap id]; repeat (apply Forall_cons_2; [vm_compute; reflexivity|]); apply Forall_nil_2]|]).
  apply Forall_nil_2.
Qed.

(** The entry axis is the high digit, its off pick the first; crossed bounds on one read are
    two arms, bounds that agree one. *)
Example counts : combo_count axes = 12.
Proof. vm_compute. reflexivity. Qed.

Definition arms (p : RuleParams) : nat * list nat :=
  (length (en_filters (rp_enter p)),
   map (fun l => match l_when l with [CondMetric _ e _] => length e | _ => O end) (rp_always p)).

Example crossed_bounds_are_two_arms :
  map (option_map arms) [combo_params axes 0; combo_params axes 1; combo_params axes 4]
  = [Some (0, [1]); Some (0, [2]); Some (1, [1])]%nat.
Proof. vm_compute. reflexivity. Qed.

Lemma combos_are_the_grid_witness :
  exists! idx, 0 <= idx < 12 /\ combo_picks axes idx = [2; 0; 0; 1].
Proof.
  destruct (combos_are_the_grid request axes resolves) as (H & _ & _).
  apply (H [2; 0; 0; 1]). vm_compute. repeat constructor; discriminate.
Defined.

Lemma entry_key_is_the_entry_witness : entry_key axes 4 = entry_key axes 7 /\ entry_key axes 4 <> entry_key axes 8.
Proof.
  split.
  - apply (entry_key_is_the_entry request axes 4 7 resolves); vm_compute; repeat split; congruence.
  - intros E. apply (entry_key_is_the_entry request axes 4 8 resolves) in E; vm_compute in E |- *; repeat split; congruence.
Defined.

Lemma every_combo_promotes_witness :
  exists p, combo_params axes 7 = Some p /\ rule_parse (to_value p) = inr p.
Proof. exact (every_combo_promotes request axes 7 resolves representable). Defined.

Lemma off_pick_is_no_axis_witness :
  assemble axes [0; 0; 0; 0] = assemble (tl axes) [0; 0; 0].
Proof. vm_compute. reflexivity. Defined.
End AxesDemo.
