(* ===== verification/RuleBuild.v ===== *)
(** * RuleBuild: what an accepted rule compiles to has no dangling index

    The compiler resolves every name to an index, panicking on one it does not find (here an
    index outside every table), and the hot path indexes with it.  The
    well-formedness the parser promises is what makes each of those indices one of the
    compiled rule's own signals, stages or cell entries. *)

From S2P Require Import RuleDocProps Compile.

(** Every condition the compiled rule judges, outside its signals. *)
Definition judged (c : CompiledRule) : list CondReq :=
  cr_event c ++ cr_filters c ++ cr_final_filters c ++ (held_lines c ≫= ln_conds) ++
  match cr_tree c with Some t => concat (ct_untils t) ++ concat (ct_whens t) | None => [] end.

Record Closed (c : CompiledRule) : Prop := {
  cl_signals : forall i neg, ReqSignal i neg ∈ judged c -> (i < length (cr_signals c))%nat;
  cl_moves : forall l g, l ∈ held_lines c -> ln_go l = Some g -> 0 <= g < Z.of_nat (length (cr_stages c));
  cl_deadlines : forall s t, s ∈ cr_stages c -> sg_then s = Some t -> 0 <= t < Z.of_nat (length (cr_stages c));
  cl_cells : forall t, cr_tree c = Some t ->
    length (ct_cell_entry t) = (length (ct_phase_names t) * length (ct_situation_names t))%nat /\
    forall e, Some e ∈ ct_cell_entry t -> (e < length (ct_entries t))%nat;
}.

(** ** Indices *)

Lemma position_of_lt {A} (f : A -> bool) l i : position_of f l = Some i -> (i < length l)%nat.
Proof.
  revert i. induction l as [|x l IH]; intros i H; simpl in H; [done|]. destruct (f x); [injection H as <-; simpl; lia|].
  destruct (position_of f l) as [j|]; [|done]. injection H as <-. simpl. specialize (IH j eq_refl). lia.
Qed.

Lemma position_of_some {A} (f : A -> bool) l x : x ∈ l -> f x = true -> is_Some (position_of f l).
Proof.
  induction l as [|y l IH]; intros Hx Hf; [by apply elem_of_nil in Hx|]. simpl. destruct (f y) eqn:E; [by eexists|].
  apply elem_of_cons in Hx as [->|Hx]; [congruence|]. destruct (IH Hx Hf) as [i ->]. by eexists.
Qed.

Lemma index_of_lt names n : n ∈ names -> exists i, index_of names n = Some i /\ (i < length names)%nat.
Proof.
  intros Hn. unfold index_of. destruct (position_of_some (fun s => bool_decide (s = n)) names n Hn) as [i Hi].
  { by apply bool_decide_eq_true. }
  exists i. split; [done|]. by eapply position_of_lt.
Qed.

Lemma signal_slot_lt names n : n ∈ names -> (signal_slot names n < length names)%nat.
Proof. intros (i & E & Hi)%index_of_lt. unfold signal_slot. by rewrite E. Qed.

Lemma find_first_name {A} (name : A -> string) l n x :
  find_first (fun a => String.eqb (name a) n) l = Some x -> n ∈ name <$> l.
Proof.
  intros H. apply find_first_Some in H as [Hx E]. apply String.eqb_eq in E as <-. by apply list_elem_of_fmap_2.
Qed.

(** ** The compiler's walk *)

Lemma smap_spec {A B S} (f : S -> A -> B * S) (I : S -> Prop) (P : A -> B -> Prop) l : forall s,
  (forall s x, x ∈ l -> I s -> P x (f s x).1 /\ I (f s x).2) -> I s ->
  Forall2 P l (smap f s l).1 /\ I (smap f s l).2.
Proof.
  induction l as [|x l IH]; intros s Hf Hs; simpl; [by split; [constructor|]|].
  destruct (f s x) as [y s1] eqn:E. destruct (smap f s1 l) as [ys s2] eqn:E2.
  pose proof (Hf s x ltac:(left) Hs) as [Hp Hi]. rewrite E in Hp, Hi. cbn in Hp, Hi.
  specialize (IH s1 ltac:(intros s' x' Hx; apply Hf; by right) Hi). rewrite E2 in IH. cbn in IH. destruct IH.
  split; [by constructor|done].
Qed.

Section names.
Context (stages signals : list string) (Hfew : (length stages <= MAX_STAGES)%nat).

(** The two tables of names never change during a compile. *)
Definition named (cx : Compiler) : Prop := cx_stage_index cx = stages /\ cx_signal_index cx = signals.

Definition req_closed (q : CondReq) : Prop :=
  match q with ReqSignal i _ => (i < length signals)%nat | ReqMetric _ => True end.

Definition go_closed (g : option Z) : Prop := forall i, g = Some i -> 0 <= i < Z.of_nat (length stages).

Definition line_closed (l : CompiledLine) : Prop := Forall req_closed (ln_conds l) /\ go_closed (ln_go l).

Definition signals_named (cs : list Cond) : Prop := forall name neg off, CondSignal name neg off ∈ cs -> name ∈ signals.

Definition moves_named (l : Line) : Prop := forall g, l_go l = Some g -> g ∈ stages.

Definition line_named (l : Line) : Prop := signals_named (l_when l) /\ moves_named l.

Lemma compile_req_named cx r e : named cx -> named (compile_req cx r e).2.
Proof. intros H. unfold compile_req. destruct (is_position r); [done|]. by destruct (position_of _ _). Qed.

Lemma compile_cond_closed cx c : signals_named [c] -> named cx ->
  req_closed (compile_cond cx c).1 /\ named (compile_cond cx c).2.
Proof.
  intros Hn Hcx. destruct c as [r e off|name neg off]; simpl.
  - pose proof (compile_req_named cx r e Hcx). by destruct (compile_req cx r e).
  - split; [|done]. destruct Hcx as [_ ->]. apply signal_slot_lt. eapply (Hn name neg off). by left.
Qed.

Lemma compile_conds_closed cx cs : signals_named cs -> named cx ->
  Forall req_closed (compile_conds cx cs).1 /\ named (compile_conds cx cs).2.
Proof.
  intros Hn Hcx. unfold compile_conds.
  destruct (smap_spec compile_cond named (fun _ q => req_closed q) (List.filter (fun c => negb (is_off c)) cs) cx) as [H1 H2].
  - intros s x Hx Hs. apply compile_cond_closed; [|done]. intros name neg off E%list_elem_of_singleton. subst x.
    apply (Hn name neg off). apply list_elem_of_In, List.filter_In in Hx as [Hx _]. by apply list_elem_of_In.
  - done.
  - split; [|done]. clear -H1. by induction H1; constructor.
Qed.

Lemma stage_index_closed cx n : named cx -> n ∈ stages -> 0 <= compile_stage_index cx n < Z.of_nat (length stages).
Proof.
  intros [H _] Hn. unfold compile_stage_index. rewrite H. destruct (index_of_lt stages n Hn) as (i & -> & Hi). unfold MAX_STAGES in Hfew.
  unfold wrap_u. rewrite Z.mod_small; lia.
Qed.

Lemma compile_line_closed sigs cx l : line_named l -> named cx ->
  line_closed (compile_line sigs cx l).1 /\ named (compile_line sigs cx l).2.
Proof.
  intros [Hs Hm] Hcx. unfold compile_line.
  destruct (compile_conds_closed (set_next_line cx (cx_next_line cx + 1)) (l_when l) Hs Hcx) as [H1 H2].
  destruct (compile_conds _ _) as [conds cx']. cbn in *. split; [|done]. split; [done|].
  intros i Hi. cbn in Hi. destruct (l_go l) as [g|] eqn:Eg; [|done]. injection Hi as <-.
  apply stage_index_closed; [done|by apply Hm].
Qed.

Lemma compile_lines_closed sigs cx ls : Forall line_named ls -> named cx ->
  Forall line_closed (compile_lines sigs cx ls).1 /\ named (compile_lines sigs cx ls).2.
Proof.
  intros Hl Hcx. unfold compile_lines.
  destruct (smap_spec (compile_line sigs) named (fun _ q => line_closed q) (List.filter (fun l => negb (l_off l)) ls) cx) as [H1 H2].
  - intros s x Hx Hs. apply compile_line_closed; [|done]. apply list_elem_of_In, List.filter_In in Hx as [Hx _].
    rewrite Forall_forall in Hl. by apply Hl, list_elem_of_In.
  - done.
  - split; [|done]. clear -H1. by induction H1; constructor.
Qed.

Lemma pnl_line_closed cx op v reason : named cx ->
  line_closed (pnl_line cx op v reason).1 /\ named (pnl_line cx op v reason).2.
Proof.
  intros Hcx. unfold pnl_line.
  pose proof (compile_req_named (set_next_line cx (cx_next_line cx + 1)) (mref_life PnlPct)
    [[{| c_operator := op; c_value := v |}]] Hcx) as H.
  destruct (compile_req _ _ _) as [q cx']. cbn in *. split; [|done]. split; [by repeat constructor|done].
Qed.

Lemma compile_always_closed p cx : Forall line_named (rp_always p) -> named cx ->
  Forall line_closed (compile_always p cx).1 /\ named (compile_always p cx).2.
Proof.
  intros Hl Hcx. unfold compile_always.
  assert (forall o op (neg : f64 -> f64) reason cx, named cx ->
    let r := match o with Some v => let '(l, cx) := pnl_line cx op (neg v) reason in ([l], cx) | None => ([], cx) end in
    Forall line_closed r.1 /\ named r.2) as G.
  { intros o op neg reason cx0 H0. destruct o as [v|]; cbn; [|by split; [constructor|]].
    pose proof (pnl_line_closed cx0 op (neg v) reason H0) as [H1 H2]. destruct (pnl_line _ _ _ _). cbn in *.
    split; [constructor; [done|constructor]|done]. }
  pose proof (G (rp_stop_loss p) OpLte fneg StopLoss cx Hcx) as [S1 S2]. cbv zeta in S1, S2.
  destruct (match rp_stop_loss p with Some _ => _ | None => _ end) as [sl cx1]. cbn in S1, S2.
  pose proof (G (rp_take_profit p) OpGte (fun x => x) TakeProfit cx1 S2) as [T1 T2]. cbv zeta in T1, T2.
  destruct (match rp_take_profit p with Some _ => _ | None => _ end) as [tp cx2]. cbn in T1, T2.
  pose proof (compile_lines_closed (rp_signals p) cx2 (rp_always p) Hl T2) as [A1 A2].
  destruct (compile_lines _ _ _) as [ls cx3]. cbn in *. split; [|done]. by rewrite !Forall_app.
Qed.

Lemma compile_signal_named cx s : named cx ->
  (forall g, g ∈ s.2 -> signals_named g) -> named (compile_signal cx s).2.
Proof.
  intros Hcx Hn. unfold compile_signal.
  match goal with |- context [smap ?f cx s.2] =>
    destruct (smap_spec f named (fun _ _ => True) s.2 cx) as [_ H];
      [|done|by destruct (smap f cx s.2)] end.
  intros cx' g Hg H'. split; [done|]. pose proof (compile_conds_closed cx' g (Hn g Hg) H') as [_ H].
  by destruct (compile_conds cx' g).
Qed.

(** *** Stages *)

(** What a stage needs to compile inside the table; [i] is its place. *)
Definition stage_named (i : nat) (s : Stage) : Prop :=
  Forall line_named (st_on s) /\ Forall line_named (st_at_end s) /\ (forall t, st_then s = Some t -> t ∈ stages) /\
  (st_ends s <> None -> st_then s = None -> (S i < length stages)%nat).

Definition stage_closed (s : CompiledStage) : Prop :=
  Forall line_closed (sg_on s ++ sg_at_end s) /\ go_closed (sg_then s).

Lemma compile_stage_closed sigs i cx s : stage_named i s -> named cx ->
  stage_closed (compile_stage sigs (i, cx) s).1 /\ named (compile_stage sigs (i, cx) s).2.2 /\
  (compile_stage sigs (i, cx) s).2.1 = S i.
Proof.
  intros (Ho & Ha & Ht & Hnext) Hcx. unfold compile_stage.
  pose proof (compile_lines_closed sigs cx (st_on s) Ho Hcx) as [O1 O2]. destruct (compile_lines _ cx _) as [on cx1]. cbn in O1, O2.
  pose proof (compile_lines_closed sigs cx1 (st_at_end s) Ha O2) as [A1 A2]. destruct (compile_lines _ cx1 _) as [ae cx2]. cbn in A1, A2.
  cbn. split_and!; [|done|done]. split; [by apply Forall_app|]. intros t Hs. cbn in Hs.
  destruct (st_ends s) as [d|]; [|done]. destruct (st_then s) as [n|].
  - injection Hs as <-. apply stage_index_closed; auto.
  - injection Hs as <-. specialize (Hnext ltac:(done) eq_refl). unfold MAX_STAGES in Hfew.
    unfold wrap_u. rewrite Z.mod_small; lia.
Qed.

Lemma compile_stages_closed sigs l : forall i cx,
  (forall j s, l !! j = Some s -> stage_named (i + j) s) -> named cx ->
  Forall stage_closed (smap (compile_stage sigs) (i, cx) l).1 /\ named (smap (compile_stage sigs) (i, cx) l).2.2 /\
  length (smap (compile_stage sigs) (i, cx) l).1 = length l.
Proof.
  induction l as [|s l IH]; intros i cx Hs Hcx; cbn [smap]; [by split; [constructor|]|].
  assert (stage_named i s) as H0 by (rewrite <- (Nat.add_0_r i); by apply Hs).
  destruct (compile_stage_closed sigs i cx s H0 Hcx) as (C1 & C2 & C3).
  destruct (compile_stage sigs (i, cx) s) as [y [i' cx']]. cbn in C1, C2, C3. subst i'.
  specialize (IH (S i) cx'). destruct (smap _ _ l) as [ys st]. cbn in *.
  destruct IH as (I1 & I2 & I3); [|done|].
  - intros j t Ht. replace (S (i + j)) with (i + S j)%nat by lia. by apply Hs.
  - split_and!; [by constructor|done|by rewrite I3].
Qed.

(** *** The tree *)

Definition tree_named (t : Tree) : Prop :=
  (forall ph, ph ∈ tr_phases t -> signals_named (ph_until ph)) /\
  (forall si, si ∈ tr_situations t -> signals_named (si_when si)) /\
  (forall c, c ∈ tr_cells t -> Forall line_named (cl_on c)).

Definition tree_closed (t : CompiledTree) : Prop :=
  Forall req_closed (concat (ct_untils t) ++ concat (ct_whens t)) /\
  Forall line_closed (concat (ct_entries t)) /\
  length (ct_cell_entry t) = (length (ct_phase_names t) * length (ct_situation_names t))%nat /\
  (forall e, Some e ∈ ct_cell_entry t -> (e < length (ct_entries t))%nat).

Lemma walk_closed {A} (f : A -> list Cond) l cx : (forall x, x ∈ l -> signals_named (f x)) -> named cx ->
  Forall req_closed (concat (smap (fun cx x => compile_conds cx (f x)) cx l).1) /\
  named (smap (fun cx x => compile_conds cx (f x)) cx l).2.
Proof.
  intros Hl Hcx.
  destruct (smap_spec (fun cx x => compile_conds cx (f x)) named (fun _ => Forall req_closed) l cx) as [H1 H2]; [|done|].
  - intros cx' x Hx H'. by apply compile_conds_closed; [apply Hl|].
  - split; [|done]. apply Forall_concat. clear -H1. by induction H1; constructor.
Qed.

Lemma cells_closed sigs l cx : (forall c, c ∈ l -> Forall line_named (cl_on c)) -> named cx ->
  Forall line_closed (concat (smap (fun cx c => compile_lines sigs cx (cl_on c)) cx l).1) /\
  named (smap (fun cx c => compile_lines sigs cx (cl_on c)) cx l).2 /\
  length (smap (fun cx c => compile_lines sigs cx (cl_on c)) cx l).1 = length l.
Proof.
  intros Hl Hcx.
  destruct (smap_spec (fun cx c => compile_lines sigs cx (cl_on c)) named (fun _ => Forall line_closed) l cx) as [H1 H2]; [|done|].
  - intros cx' x Hx H'. by apply compile_lines_closed; [apply Hl|].
  - split_and!; [|done|by symmetry; eapply Forall2_length].
    apply Forall_concat. clear -H1. by induction H1; constructor.
Qed.

Lemma cell_entry_lt t ph si e : cell_entry t ph si = Some e -> (e < length (tr_cells t))%nat.
Proof.
  unfold cell_entry, find_cell, or_else.
  repeat match goal with |- context [position_of ?f ?l] => destruct (position_of f l) eqn:? end;
    intros H; simplify_eq; by eapply position_of_lt.
Qed.

Lemma grid_length {A B C} (f : A -> B -> C) (l : list A) (m : list B) :
  length (l ≫= fun x => f x <$> m) = (length l * length m)%nat.
Proof.
  induction l as [|x l IH]; [done|].
  change (length ((f x <$> m) ++ (l ≫= fun x => f x <$> m)) = (S (length l) * length m)%nat).
  rewrite length_app, length_fmap, IH. lia.
Qed.

Lemma take_elem {A} n (l : list A) x : x ∈ take n l -> x ∈ l.
Proof. intros H. rewrite <- (take_drop n l). apply elem_of_app. by left. Qed.

Lemma compile_tree_closed p cx t : tree_named t -> named cx -> tree_closed (compile_tree p cx t).1.
Proof.
  intros (Hp & Hs & Hc) Hcx. unfold compile_tree.
  pose proof (walk_closed ph_until (take (length (tr_phases t) - 1) (tr_phases t)) cx
    ltac:(intros x Hx; by apply Hp, (take_elem _ _ _ Hx)) Hcx) as [U1 U2].
  destruct (smap _ cx _) as [us cx1]. cbn in U1, U2.
  pose proof (walk_closed si_when (take (length (tr_situations t) - 1) (tr_situations t)) cx1
    ltac:(intros x Hx; by apply Hs, (take_elem _ _ _ Hx)) U2) as [W1 W2].
  destruct (smap _ cx1 _) as [ws cx2]. cbn in W1, W2.
  pose proof (cells_closed (rp_signals p) (tr_cells t) cx2 Hc W2) as (E1 & E2 & E3).
  destruct (smap _ cx2 _) as [es cx3]. cbn in E1, E2, E3.
  unfold tree_closed. cbn. split_and!.
  - by apply Forall_app.
  - done.
  - rewrite grid_length. by rewrite !length_fmap.
  - intros e (ph & He & _)%list_elem_of_bind. apply list_elem_of_fmap in He as (si & He & _).
    rewrite E3. by eapply cell_entry_lt.
Qed.
End names.

(** ** The whole compile *)

(** What the compiler needs of a well-formed rule: every name it looks up is in a table. *)
Record Linked (p : RuleParams) : Prop := {
  lk_signals : forall name neg off, CondSignal name neg off ∈ rule_conds p -> is_Some (signal_of p name);
  lk_few : (length (rp_stages p) <= MAX_STAGES)%nat;
  lk_moves : forall l g, l ∈ all_lines p -> l_go l = Some g -> g ∈ stage_names p;
  lk_thens : forall s t, s ∈ rp_stages p -> st_then s = Some t -> t ∈ stage_names p;
  lk_last : forall s, last (rp_stages p) = Some s -> st_ends s <> None -> st_then s <> None;
}.

Lemma well_formed_linked p : WellFormed p -> Linked p.
Proof.
  intros H. split; [apply H|by destruct (wf_stage_names p H)|apply H|intros s t Hs Ht; by apply (wf_thens p H s t)|apply H].
Qed.

Lemma accepted_linked v p : rule_parse v = inr p -> Linked (if is_someb (rp_copy p) then expand_copy p else p).
Proof.
  intros H. apply rule_parse_accepted in H as [c -> Hc|bag Hs Hc Hv].
  - destruct (well_formed_linked (shortcut_doc c)); [|by split].
    apply (checked_well_formed _ true); [by apply shortcut_shape|].
    by apply (validate_checked _ true); [|apply shortcut_validates].
  - destruct (well_formed_linked p) as [L1 L2 L3 L4 L5]; [by eapply checked_well_formed; [|eapply validate_checked]|].
    unfold expand_copy. rewrite Hc. by destruct bag; split.
Qed.

Lemma linked_named p : Linked p ->
  signals_named (rp_signals p).*1 (rule_conds p) /\ Forall (line_named (stage_names p) (rp_signals p).*1) (all_lines p).
Proof.
  intros H.
  assert (signals_named (rp_signals p).*1 (rule_conds p)) as Hs.
  { intros name neg off Hc. destruct (lk_signals p H name neg off Hc) as [g Hg]. unfold signal_of in Hg.
    destruct (find_first (fun s => String.eqb s.1 name) (rp_signals p)) as [s|] eqn:E; [|done]. by eapply (find_first_name fst). }
  split; [done|]. apply Forall_forall. intros l Hl. split.
  - intros name neg off Hc. apply (Hs name neg off). unfold rule_conds. rewrite !elem_of_app.
    do 3 right. apply list_elem_of_bind. by exists l.
  - intros g Hg. by eapply lk_moves.
Qed.

Lemma signals_named_part names cs cs' : signals_named names cs' -> cs ⊆ cs' -> signals_named names cs.
Proof. intros H Hsub name neg off Hc. by eapply H, Hsub. Qed.

Lemma stage_place p i s : Linked p -> rp_stages p !! i = Some s ->
  stage_named (stage_names p) (rp_signals p).*1 i s.
Proof.
  intros H Hi. destruct (linked_named p H) as [_ Hl]. pose proof (list_elem_of_lookup_2 _ _ _ Hi) as Hs.
  assert (forall l, l ∈ st_on s ++ st_at_end s -> l ∈ all_lines p) as Hin.
  { intros l Hls. apply all_lines_elem. right. left. by exists s. }
  rewrite Forall_forall in Hl. split_and!.
  - apply Forall_forall. intros l Hl'. apply Hl, Hin, elem_of_app. by left.
  - apply Forall_forall. intros l Hl'. apply Hl, Hin, elem_of_app. by right.
  - intros t Ht. by apply (lk_thens p H s t Hs).
  - intros He Ht. unfold stage_names. rewrite length_fmap. pose proof (lookup_lt_Some _ _ _ Hi).
    destruct (decide (S i = length (rp_stages p))) as [E|]; [|lia]. exfalso.
    apply (lk_last p H s); [|done|done]. rewrite last_lookup, <- E. done.
Qed.

Lemma linked_tree p t : Linked p -> rp_tree p = Some t -> tree_named (stage_names p) (rp_signals p).*1 t.
Proof.
  intros H Ht. destruct (linked_named p H) as [Hs Hl]. unfold rule_conds, tree_conds in Hs. rewrite Ht in Hs.
  split_and!.
  - intros ph Hph. eapply signals_named_part; [exact Hs|]. intros c Hc. rewrite !elem_of_app, !list_elem_of_bind. eauto 10.
  - intros si Hsi. eapply signals_named_part; [exact Hs|]. intros c Hc. rewrite !elem_of_app, !list_elem_of_bind. eauto 10.
  - intros c Hc. rewrite Forall_forall in Hl. apply Forall_forall. intros l Hin. apply Hl, all_lines_elem. right. right.
    unfold tree_lines. rewrite Ht. apply list_elem_of_bind. by exists c.
Qed.


Lemma lines_reqs stages signals ls : Forall (line_closed stages signals) ls -> Forall (req_closed signals) (ls ≫= ln_conds).
Proof. intros H. apply forall_bind. eapply Forall_impl; [exact H|]. by intros l [? _]. Qed.

Lemma smap_length {A B S} (f : S -> A -> B * S) l : forall s, length (smap f s l).1 = length l.
Proof.
  induction l as [|x l IH]; intros s; simpl; [done|]. destruct (f s x) as [y s']. specialize (IH s').
  destruct (smap f s' l). simpl in *. by rewrite IH.
Qed.

(** C7: no index of a compiled rule dangles.  A rule the parser accepted - the copy
    shortcut through its episode - compiles to signals, stage moves, deadlines and cell
    entries that are all its own.  A name the compiler does not find, on which the source
    panics, is an index outside every table ([signal_slot], [NO_STAGE]): so compiling an
    accepted rule meets no unknown name, and the lookups of the hot path never miss. *)
Theorem compiled_rules_are_closed (v : Value) (rule : LoadedRule) :
  rule_parse v = inr (lr_params rule) -> Closed (compile rule).
Proof.
  intros H. pose proof (accepted_linked v _ H) as L. clear H. unfold compile.
  set (p := if is_someb (rp_copy (lr_params rule)) then _ else _) in *. clearbody p. cbv zeta.
  destruct (linked_named p L) as [Hc Hl]. pose proof (lk_few p L) as Hfew.
  assert ((length (stage_names p) <= MAX_STAGES)%nat) as Hfew' by (unfold stage_names; by rewrite length_fmap).
  assert (forall cs, cs ⊆ rule_conds p -> signals_named (rp_signals p).*1 cs) as Hsub
    by (intros cs Hcs; by eapply signals_named_part).
  set (cx := {| cx_fp := _; cx_signal_index := _ |}).
  assert (named (stage_names p) (rp_signals p).*1 cx) as N0 by done. clearbody cx.
  pose proof (compile_conds_closed _ _ cx (en_event (rp_enter p)) ltac:(apply Hsub; unfold rule_conds, entry_conds; set_solver) N0) as [Q1 N1].
  destruct (compile_conds cx _) as [event cx1]. cbn in Q1, N1.
  pose proof (compile_conds_closed _ _ cx1 (en_filters (rp_enter p)) ltac:(apply Hsub; unfold rule_conds, entry_conds; set_solver) N1) as [Q2 N2].
  destruct (compile_conds cx1 _) as [filters cx2]. cbn in Q2, N2.
  pose proof (compile_conds_closed _ _ cx2 (en_final_filters (rp_enter p)) ltac:(apply Hsub; unfold rule_conds, entry_conds; set_solver) N2) as [Q3 N3].
  destruct (compile_conds cx2 _) as [finals cx3]. cbn in Q3, N3.
  pose proof (smap_length compile_signal (rp_signals p) cx3) as Hsl.
  assert (named (stage_names p) (rp_signals p).*1 (smap compile_signal cx3 (rp_signals p)).2) as N4.
  { eapply (smap_spec compile_signal (named _ _) (fun _ _ => True)); [|exact N3].
    intros s0 s Hs Hn. split; [done|]. apply compile_signal_named; [done|]. intros g Hg. apply Hsub. intros c Hcg.
    unfold rule_conds, signal_conds. rewrite !elem_of_app. right. left. apply list_elem_of_bind. exists s.
    split; [|done]. apply list_elem_of_In, in_concat. exists g. by split; apply list_elem_of_In. }
  destruct (smap compile_signal cx3 _) as [sigs cx4]. cbn in Hsl, N4.
  assert (Forall (line_named (stage_names p) (rp_signals p).*1) (rp_always p)) as Hal
    by (unfold all_lines in Hl; by rewrite Forall_app in Hl; destruct Hl).
  pose proof (compile_always_closed _ _ Hfew' p cx4 Hal N4) as [A1 N5].
  destruct (compile_always p cx4) as [always cx5]. cbn in A1, N5.
  pose proof (compile_stages_closed _ _ Hfew' (rp_signals p) (rp_stages p) 0 cx5
    ltac:(intros j s Hj; by apply stage_place) N5) as (S1 & N6 & S2).
  destruct (smap _ (0%nat, cx5) _) as [stgs [i6 cx6]]. cbn in S1, N6, S2.
  set (stages := match stgs with [] => [main_stage] | _ => stgs end).
  assert (Forall (stage_closed (stage_names p) (rp_signals p).*1) stages /\
    (length (stage_names p) <= length stages)%nat) as [St Hlen].
  { unfold stage_names. rewrite length_fmap, <- S2. unfold stages. destruct stgs; [|done].
    split; [|simpl; lia]. constructor; [|constructor]. split; [constructor|done]. }
  assert (exists t cx7, match rp_tree p with Some t => let '(t, cx) := compile_tree p cx6 t in (Some t, cx) | None => (None, cx6) end = (t, cx7) /\
    forall t', t = Some t' -> tree_closed (stage_names p) (rp_signals p).*1 t') as (tree & cx7 & -> & T1).
  { destruct (rp_tree p) as [t|] eqn:Et; [|by exists None, cx6].
    pose proof (compile_tree_closed _ _ Hfew' p cx6 t (linked_tree p t L Et) N6) as T.
    destruct (compile_tree p cx6 t) as [t' cx7]. exists (Some t'), cx7. split; [done|]. by intros ? [= <-]. }
  clearbody stages. clear -Q1 Q2 Q3 A1 St Hlen T1 Hsl.
  match goal with |- Closed ?c => set (out := c) end.
  assert (Forall (line_closed (stage_names p) (rp_signals p).*1) (held_lines out)) as Hheld.
  { unfold held_lines, out. cbn. rewrite !Forall_app. split_and!; [done| |].
    - apply forall_bind. eapply Forall_impl; [exact St|]. by intros s [? _].
    - destruct tree as [t|]; [|constructor]. by apply (T1 t eq_refl). }
  assert (Forall (req_closed (rp_signals p).*1) (judged out)) as Hjudged.
  { unfold judged. rewrite !Forall_app. split_and!; [done|done|done|by eapply lines_reqs|].
    unfold out. cbn. destruct tree as [t|]; [|constructor]. by apply (T1 t eq_refl). }
  rewrite Forall_forall in Hheld. rewrite Forall_forall in Hjudged. rewrite Forall_forall in St. split.
  - intros i neg Hi. specialize (Hjudged _ Hi). cbn in Hjudged. unfold out. cbn. rewrite length_fmap in Hjudged. lia.
  - intros l g Hl Hg. destruct (Hheld l Hl) as [_ Hgo]. specialize (Hgo g Hg). unfold out. cbn. lia.
  - intros s t Hs Ht. destruct (St s Hs) as [_ Hgo]. specialize (Hgo t Ht). unfold out. cbn. lia.
  - intros t Ht. apply (T1 t Ht).
Qed.

Lemma compiled_rules_are_closed_witness :
  Closed (compile {| lr_id := 1; lr_fingerprint_id := 2; lr_trade_mode := Paper; lr_buy_amount_lamports := 1000000;
    lr_max_concurrent_tokens := 1; lr_max_total_tokens := 0; lr_params := parsed (doc_with_span "10s@2");
    lr_entry_enabled := true |}).
Proof. apply (compiled_rules_are_closed (doc_with_span "10s@2")). exact doc_parses. Defined.
