(* ===== verification/Frames.v ===== *)
(** * Frames: the transaction frame a feed delivers, its keys and its sender

    The protobuf messages of [generated/solana.storage.confirmed_block.rs] and
    [generated/geyser.rs] with the fields the decoder reads, the protocol descriptor of
    [protocol.rs], and from [decode/protobuf.rs] the key space of a transaction and who
    sent it.  base58, base64, SHA-256, the derivation of program addresses and Borsh are other crates' code: class [Codecs] holds them.
    A byte is a [Z] below 256, a [u64] a [Z]. *)

From S2P Require Export Text Float64.
#[local] Open Scope Z_scope.

Abbreviation Bytes := (list Z) (only parsing).

(** ** The codecs of other crates *)

(** A Borsh reader takes its value off the front of the bytes. *)
Abbreviation Reader A := (list Z -> option (A * list Z)) (only parsing).

Class Codecs := {
  bs58_encode : Bytes -> string;
  bs58_decode : string -> option Bytes;
  base64_decode : string -> option Bytes;
  sha256 : Bytes -> Bytes;
  pubkey_from_str : string -> option Bytes;
  pubkey_to_string : Bytes -> string;
  find_program_address : list Bytes -> Bytes -> Bytes;
  borsh_tag : Reader Z;
  borsh_u32 : Reader Z;
  borsh_u64 : Reader Z;
  borsh_i64 : Reader Z;
  borsh_bool : Reader bool;
  borsh_key : Reader Bytes;
  borsh_string : Reader string
}.

(** ** Byte slices *)

Definition bytes_eqb (a b : Bytes) : bool := bool_decide (a = b).

(** [data.starts_with(p)]. *)
Definition starts_with (data p : Bytes) : bool := bytes_eqb (take (length p) data) p.

(** [data.get(a..b)]. *)
Definition slice (data : Bytes) (a b : Z) : option Bytes :=
  if (0 <=? a) && (a <=? b) && (b <=? Z.of_nat (length data))
  then Some (take (Z.to_nat (b - a)) (drop (Z.to_nat a) data)) else None.

(** [n] little-endian bytes, and back ([uN::from_le_bytes]). *)
Fixpoint le_bytes (n : nat) (x : Z) : Bytes :=
  match n with O => [] | S n => x mod 256 :: le_bytes n (x / 256) end.

Fixpoint from_le (bs : Bytes) : Z :=
  match bs with [] => 0 | b :: bs => b + 256 * from_le bs end.

Lemma le_bytes_length n x : length (le_bytes n x) = n.
Proof. revert x. induction n; intros; cbn; auto. Qed.

Lemma from_le_bytes n x : 0 <= x < 256 ^ Z.of_nat n -> from_le (le_bytes n x) = x.
Proof.
  revert x. induction n as [|n IH]; intros x H; cbn [le_bytes from_le].
  - change (256 ^ Z.of_nat 0) with 1 in H. lia.
  - rewrite Nat2Z.inj_succ, Z.pow_succ_r in H by lia.
    rewrite IH by (split; [apply Z.div_pos; lia | apply Z.div_lt_upper_bound; lia]).
    pose proof (Z.div_mod x 256). lia.
Qed.

(** [x as i64] and [i64] arithmetic, wrapping. *)
Definition as_i64 (x : Z) : Z := (x + 2 ^ 63) mod 2 ^ 64 - 2 ^ 63.

Lemma as_i64_small x : i64_min <= x <= i64_max -> as_i64 x = x.
Proof. unfold as_i64, i64_min, i64_max. intros. rewrite Z.mod_small by lia. lia. Qed.

(** The text of UTF-8 bytes, and [str::from_utf8]. *)
Definition str_of_bytes (bs : Bytes) : string := of_bytes (Z.to_nat <$> bs).

Definition utf8_cont (b : Z) : bool := (0x80 <=? b) && (b <=? 0xbf).

Fixpoint utf8_valid (fuel : nat) (bs : Bytes) : bool :=
  match fuel, bs with
  | _, [] => true
  | O, _ => false
  | S fuel, b :: bs =>
      if b <? 0x80 then utf8_valid fuel bs
      else if (0xc2 <=? b) && (b <=? 0xdf) then
        match bs with
        | c :: bs => utf8_cont c && utf8_valid fuel bs
        | _ => false
        end
      else if (0xe0 <=? b) && (b <=? 0xef) then
        match bs with
        | c :: d :: bs =>
            utf8_cont c && utf8_cont d
            && (if b =? 0xe0 then 0xa0 <=? c else true)
            && (if b =? 0xed then c <=? 0x9f else true)
            && utf8_valid fuel bs
        | _ => false
        end
      else if (0xf0 <=? b) && (b <=? 0xf4) then
        match bs with
        | c :: d :: e :: bs =>
            utf8_cont c && utf8_cont d && utf8_cont e
            && (if b =? 0xf0 then 0x90 <=? c else true)
            && (if b =? 0xf4 then c <=? 0x8f else true)
            && utf8_valid fuel bs
        | _ => false
        end
      else false
  end.

Definition from_utf8 (bs : Bytes) : option string :=
  if utf8_valid (length bs) bs then Some (str_of_bytes bs) else None.

(** ** The messages *)

Record CompiledInstruction := {
  program_id_index : Z;
  ix_accounts : list Z;
  ix_data : Bytes
}.

(** Inner instructions carry the fields of the outer ones and a stack height nobody reads. *)
Abbreviation InnerInstruction := CompiledInstruction (only parsing).

Record InnerInstructions := {
  inner_index : Z;
  inner_list : list CompiledInstruction
}.

Record Message := {
  num_required_signatures : option Z;
  account_keys : list Bytes;
  instructions : list CompiledInstruction
}.

Record TokenBalance := {
  account_index : Z;
  tb_mint : string;
  ui_amount_raw : option string;
  tb_owner : string
}.

Record TransactionStatusMeta := {
  meta_fee : Z;
  pre_balances : list Z;
  post_balances : list Z;
  inner_instructions : list InnerInstructions;
  log_messages : list string;
  pre_token_balances : list TokenBalance;
  post_token_balances : list TokenBalance;
  loaded_writable_addresses : list Bytes;
  loaded_readonly_addresses : list Bytes
}.

Record Transaction := { tx_message : option Message }.

Record SubscribeUpdateTransactionInfo := {
  info_signature : Bytes;
  info_index : Z;
  info_transaction : option Transaction;
  info_meta : option TransactionStatusMeta
}.

Record SubscribeUpdateTransaction := {
  update_transaction : option SubscribeUpdateTransactionInfo;
  update_slot : Z
}.

(** ** The protocol descriptor *)

Record ProgramId := { pid_bytes : Bytes; pid_base58 : string }.

Definition from_base58 `{Codecs} (s : string) : option ProgramId :=
  v ← bs58_decode s;
  if bool_decide (length v = 32%nat) then Some {| pid_bytes := v; pid_base58 := s |} else None.

Record Programs := {
  pump_fun_id : ProgramId;
  pump_swap_id : ProgramId;
  token_id : ProgramId;
  token_2022_id : ProgramId;
  associated_token_id : ProgramId;
  system_id : ProgramId;
  compute_budget_id : ProgramId;
  wsol_id : ProgramId
}.

Record Discriminators := {
  buy : Bytes; sell : Bytes; sell_v2 : Bytes;
  buy_exact_sol_in : Bytes; buy_exact_quote_in : Bytes;
  buy_v2 : Bytes; buy_exact_quote_in_v2 : Bytes;
  buy_v3 : Bytes; sell_v3 : Bytes; buy_exact_quote_in_v3 : Bytes;
  create_ix : Bytes; create_v2_ix : Bytes;
  migrate_ix : Bytes; migrate_v2_ix : Bytes;
  initialize : Bytes; set_params : Bytes; withdraw : Bytes;
  extend_account : Bytes; collect_creator_fee : Bytes;
  pump_swap_create_pool : Bytes; pump_swap_deposit : Bytes; pump_swap_disable : Bytes;
  pump_swap_update_admin : Bytes; pump_swap_update_fee_config : Bytes;
  trade_event : Bytes; anchor_event_cpi : Bytes; create_event : Bytes;
  pump_swap_buy_event : Bytes; pump_swap_sell_event : Bytes
}.

Record Protocol := {
  programs : Programs;
  discriminators : Discriminators;
  lamports_per_sol : f64;
  min_trade_sol : f64;
  tip_accounts : list Bytes
}.

Definition is_tip_account (p : Protocol) (key : Bytes) : bool :=
  existsb (fun k => bytes_eqb k key) (tip_accounts p).

Definition PUMP_FUN_PROGRAM_ID : string := "6EF8rrecthR5Dkzon8Nwu78hRvfCKubJ14M5uBEwF6P".
Definition PUMP_SWAP_PROGRAM_ID : string := "pAMMBay6oceH9fJKBRHGP5D4bD4sWpmSwMn52FMfXEA".
Definition TOKEN_PROGRAM_ID : string := "TokenkegQfeZyiNwAJbNbGKPFXCWuBvf9Ss623VQ5DA".
Definition TOKEN_2022_PROGRAM_ID : string := "TokenzQdBNbLqP5VEhdkAS6EPFLC1PHnBqCXEpPxuEb".
Definition ASSOCIATED_TOKEN_PROGRAM_ID : string := "ATokenGPvbdGVxr1b2hvZbsiqW5xWH25efTNsLJA8knL".
Definition SYSTEM_PROGRAM_ID : string := "11111111111111111111111111111111".
Definition COMPUTE_BUDGET_PROGRAM_ID : string := "ComputeBudget111111111111111111111111111111".
Definition WSOL_MINT : string := "So11111111111111111111111111111111111111112".

Definition TIP_ACCOUNT_IDS : list string :=
  ["96gYZGLnJYVFmbjzopPSU6QiEV5fGqZNyN9nmNhvrZU5";
   "HFqU5x63VTqvQss8hp11i4wVV8bD44PvwucfZ2bU7gRe";
   "Cw8CFyM9FkoMi7K7Crf6HNQqf4uEMzpKw6QNghXLvLkY";
   "ADaUMid9yfUytqMBgopwjb2DTLSokTSzL1zt6iGPaS49";
   "DfXygSm4jCyNCybVYYK6DwvWqjKee8pbDmJGcLWNDXjh";
   "ADuUkR4vqLUMWXxW9gh6D6L8pMSawimctcNZ5pGwDcEt";
   "DttWaMuVvTiduZRnguLF7jNxTgiMBZ1hyAumKUiL2KRL";
   "3AVi9Tg9Uo68tJfuvoKvqKNWKkC5wPdSSdeBnizKZ6jT";
   "4ACfpUFoaSD9bfPdeu6DBt89gB6ENTeHBXCAi87NhDEE";
   "4vieeGHPYPG2MmyPRcYjdiDmmhN3ww7hsFNap8pVN3Ey";
   "D1Mc6j9xQWgR1o1Z7yU5nVVXFQiAYx7FG9AW1aVfwrUM";
   "3KCKozbAaF75qEU33jtzozcJ29yJuaLJTy2jFdzUY8bT";
   "wyvPkWjVZz1M8fHQnMMCDTQDbkManefNNhweYk5WkcF";
   "5VY91ws6B2hMmBFRsXkoAAdsPHBJwRfBht4DXox3xkwn";
   "9bnz4RShgq1hAnLnZbP8kbgBg1kEmcJBYQq3gQbmnSta";
   "D2L6yPZ2FmmmTKPgzaMKdhu6EWZcTpLy1Vhx8uvZe7NZ";
   "2nyhqdwKcJZR2vcqCyrYsaPVdAnFoJjiksCXJ7hfEYgD";
   "4TQLFNWK8AovT1gFvda5jfw2oJeRMKEmw7aH6MGBJ3or";
   "2q5pghRs6arqVjRvT5gfgWfWcHWmw1ZuCzphgd5KfWGJ";
   "tKq5esiQyvgRyfFa4JEz4uAUmppKyKB1PiQD9JhyGJY"].

Definition LAMPORTS_PER_SOL : f64 := f_of_Z 1000000000.
Definition MIN_TRADE_LAMPORTS : Z := 10000.
Definition PUMP_SWAP_VIRTUAL_QUOTE_LAMPORTS : Z := 17584505288.

Definition pump_discriminators : Discriminators := {|
  buy := [0x66; 0x06; 0x3d; 0x12; 0x01; 0xda; 0xeb; 0xea];
  sell := [0x33; 0xe6; 0x85; 0xa4; 0x01; 0x7f; 0x83; 0xad];
  sell_v2 := [0x5d; 0xf6; 0x82; 0x3c; 0xe7; 0xe9; 0x40; 0xb2];
  buy_exact_sol_in := [0x38; 0xfc; 0x74; 0x08; 0x9e; 0xdf; 0xcd; 0x5f];
  buy_exact_quote_in := [0xc6; 0x2e; 0x15; 0x52; 0xb4; 0xd9; 0xe8; 0x70];
  buy_v2 := [0xb8; 0x17; 0xee; 0x61; 0x67; 0xc5; 0xd3; 0x3d];
  buy_exact_quote_in_v2 := [0xc2; 0xab; 0x1c; 0x46; 0x68; 0x4d; 0x5b; 0x2f];
  buy_v3 := [0x07; 0x05; 0x1d; 0xc4; 0xf5; 0x17; 0x65; 0x50];
  sell_v3 := [0x1c; 0x92; 0xde; 0x77; 0x26; 0xc4; 0x69; 0xd5];
  buy_exact_quote_in_v3 := [0xe1; 0xf7; 0x50; 0x1e; 0xd5; 0xb3; 0x84; 0x88];
  create_ix := [0x18; 0x1e; 0xc8; 0x28; 0x05; 0x1c; 0x07; 0x77];
  create_v2_ix := [0xd6; 0x90; 0x4c; 0xec; 0x5f; 0x8b; 0x31; 0xb4];
  migrate_ix := [0x9b; 0xea; 0xe7; 0x92; 0xec; 0x9e; 0xa2; 0x1e];
  migrate_v2_ix := [0xbb; 0xcb; 0x12; 0x1f; 0xce; 0xed; 0xfe; 0x29];
  initialize := [0xaf; 0xaf; 0x6d; 0x1f; 0x0d; 0x98; 0x9b; 0xed];
  set_params := [0x1b; 0xea; 0xb2; 0x34; 0x93; 0x02; 0xbb; 0x8d];
  withdraw := [0xb7; 0x12; 0x46; 0x9c; 0x94; 0x6d; 0xa1; 0x22];
  extend_account := [0xea; 0x66; 0xc2; 0xcb; 0x96; 0x48; 0x3e; 0xe5];
  collect_creator_fee := [0x14; 0x16; 0x56; 0x7b; 0xc6; 0x1c; 0xdb; 0x84];
  pump_swap_create_pool := [0xe9; 0x92; 0xd1; 0x8e; 0xcf; 0x68; 0x40; 0xbc];
  pump_swap_deposit := [0xf2; 0x23; 0xc6; 0x89; 0x52; 0xe1; 0xf2; 0xb6];
  pump_swap_disable := [0xb9; 0xad; 0xbb; 0x5a; 0xd8; 0x0f; 0xee; 0xe9];
  pump_swap_update_admin := [0xa1; 0xb0; 0x28; 0xd5; 0x3c; 0xb8; 0xb3; 0xe4];
  pump_swap_update_fee_config := [0x68; 0xb8; 0x67; 0xf2; 0x58; 0x97; 0x6b; 0x14];
  trade_event := [0xbd; 0xdb; 0x7f; 0xd3; 0x4e; 0xe6; 0x61; 0xee];
  anchor_event_cpi := [0xe4; 0x45; 0xa5; 0x2e; 0x51; 0xcb; 0x9a; 0x1d];
  create_event := [0x1b; 0x72; 0xa9; 0x4d; 0xde; 0xeb; 0x63; 0x76];
  pump_swap_buy_event := [103; 244; 82; 31; 44; 245; 119; 119];
  pump_swap_sell_event := [62; 47; 55; 10; 165; 3; 220; 42]
|}.

(** [Protocol::pump_fun]; [None] is its panic on an address base58 does not decode. *)
Definition pump_fun `{Codecs} : option Protocol :=
  pump ← from_base58 PUMP_FUN_PROGRAM_ID;
  swap ← from_base58 PUMP_SWAP_PROGRAM_ID;
  token ← from_base58 TOKEN_PROGRAM_ID;
  token22 ← from_base58 TOKEN_2022_PROGRAM_ID;
  ata ← from_base58 ASSOCIATED_TOKEN_PROGRAM_ID;
  system ← from_base58 SYSTEM_PROGRAM_ID;
  cb ← from_base58 COMPUTE_BUDGET_PROGRAM_ID;
  wsol ← from_base58 WSOL_MINT;
  tips ← mapM from_base58 TIP_ACCOUNT_IDS;
  Some {| programs := {| pump_fun_id := pump; pump_swap_id := swap; token_id := token;
                         token_2022_id := token22; associated_token_id := ata;
                         system_id := system; compute_budget_id := cb; wsol_id := wsol |};
          discriminators := pump_discriminators;
          lamports_per_sol := LAMPORTS_PER_SOL;
          min_trade_sol := f_of_Z MIN_TRADE_LAMPORTS ⊘ LAMPORTS_PER_SOL;
          tip_accounts := pid_bytes <$> tips |}.

(** ** The key space of a transaction *)

(** [key_at]: without collecting the three lists. *)
Definition key_at (message : Message) (meta : TransactionStatusMeta) (i : nat) : option Bytes :=
  let n := length (account_keys message) in
  if (i <? n)%nat then account_keys message !! i
  else
    let i := (i - n)%nat in
    let n := length (loaded_writable_addresses meta) in
    if (i <? n)%nat then loaded_writable_addresses meta !! i
    else loaded_readonly_addresses meta !! (i - n)%nat.

(** [LazyKeys]: the memoised encodings are those of the raw keys. *)
Definition keys_new (message : Message) (meta : TransactionStatusMeta) : list Bytes :=
  account_keys message ++ loaded_writable_addresses meta ++ loaded_readonly_addresses meta.

Definition keys_raw (keys : list Bytes) (i : nat) : option Bytes := keys !! i.

Definition keys_get `{Codecs} (keys : list Bytes) (i : nat) : string :=
  match keys !! i with Some k => bs58_encode k | None => EmptyString end.

Definition keys_all `{Codecs} (keys : list Bytes) : list string :=
  keys_get keys <$> seq 0 (length keys).

Lemma key_at_is_the_lazy_key message meta i :
  key_at message meta i = keys_raw (keys_new message meta) i.
Proof.
  unfold key_at, keys_raw, keys_new.
  destruct (i <? _)%nat eqn:E1.
  - apply Nat.ltb_lt in E1. by rewrite lookup_app_l.
  - apply Nat.ltb_ge in E1. rewrite lookup_app_r by done.
    destruct (_ <? _)%nat eqn:E2.
    + apply Nat.ltb_lt in E2. by rewrite lookup_app_l.
    + apply Nat.ltb_ge in E2. by rewrite lookup_app_r.
Qed.

(** ** The sender *)

Record TxSender := { sender_keys : list Bytes; n_signers : option Z }.

Definition sender_new (keys : list Bytes) (message : Message) : TxSender :=
  {| sender_keys := keys; n_signers := num_required_signatures message |}.

Definition payer `{Codecs} (s : TxSender) : string := keys_get (sender_keys s) 0.

Definition is_proxied `{Codecs} (s : TxSender) (actor : string) : option bool :=
  (fun n => negb (existsb (fun i => bool_decide (keys_get (sender_keys s) i = actor))
                    (seq 0 (Z.to_nat n)))) <$> n_signers s.

(** The change of account [i], in [i64]. *)
Definition balance_delta (meta : TransactionStatusMeta) (i : nat) : option Z :=
  pre ← pre_balances meta !! i;
  post ← post_balances meta !! i;
  Some (as_i64 (as_i64 post - as_i64 pre)).

Definition owned_by (payer : string) (b : TokenBalance) : bool :=
  bool_decide (tb_owner b = payer) && negb (account_index b =? 0).

Definition add_delta (meta : TransactionStatusMeta) (net : Z) (b : TokenBalance) : Z :=
  as_i64 (net + unwrap_or (balance_delta meta (Z.to_nat (account_index b))) 0).

Definition net_lamports `{Codecs} (s : TxSender) (meta : TransactionStatusMeta) : option Z :=
  let owned := owned_by (payer s) in
  net ← balance_delta meta 0;
  let net := foldl (add_delta meta) net (List.filter owned (post_token_balances meta)) in
  let closed b :=
    negb (existsb (fun p => account_index p =? account_index b) (post_token_balances meta)) in
  Some (foldl (fun net b => if closed b then add_delta meta net b else net) net
          (List.filter owned (pre_token_balances meta))).
