(* ===== verification/IxLabels.v ===== *)
(** * IxLabels: the names of programs and instructions

    [decode/program_registry.rs], and the labels of [decode/instructions.rs].  The tables
    are the source's; the key of an Anchor name is computed with SHA-256, which is another
    crate's.  [label_instruction] is the function at [parsed_type = None], the only value
    the program passes. *)

From S2P Require Export Frames.
#[local] Open Scope Z_scope.

Definition MEMO_PROGRAM_ID : string := "MemoSq4gqABAXKb96qnH8TysNcWxMyWCqXgDLGmfcHr".

(** ** The tables *)

Definition REGISTRY : list (string * string) :=
  [(PUMP_FUN_PROGRAM_ID, "Pump.Fun");
   (PUMP_SWAP_PROGRAM_ID, "PumpSwap");
   (COMPUTE_BUDGET_PROGRAM_ID, "Compute Budget");
   (SYSTEM_PROGRAM_ID, "System Program");
   (TOKEN_PROGRAM_ID, "Token Program");
   (TOKEN_2022_PROGRAM_ID, "Token 2022");
   (ASSOCIATED_TOKEN_PROGRAM_ID, "Associated Token");
   ("AddressLookupTab1e1111111111111111111111111", "Address Lookup Table");
   ("metaqbxxUerdq28cj1RbAWkYQm3ybzjb6a8bt518x1s", "Token Metadata");
   (MEMO_PROGRAM_ID, "Memo Program");
   ("675kPX9MHTjS2zt1qfr1NYHuzeLXfQM9H24wFSUt1Mp8", "Raydium AMM v4");
   ("CAMMCzo5YL8w4VFF8KVHrK22GGUsp5VTaW7grrKgrWqK", "Raydium CLMM");
   ("CPMMoo8L3F4NbTegBCKVNunggL7H1ZpdTHKxQB5qKP1C", "Raydium CPMM");
   ("LanMV9sAd7wArD4vJFi2qDdfnVhFxYSUg6eADduJ3uj", "Raydium LaunchLab");
   ("whirLbMiicVdio4qvUfM5KAg6Ct8VwpYzGff3uctyCc", "Orca Whirlpool");
   ("LBUZKhRxPF3XUpBCjp4YzTKgLccjZhTSDM9YuVaPwxo", "Meteora DLMM");
   ("Eo7WjKq67rjJQSZxS6z3YkapzY3eMj6Xy8X5EQVn5UaB", "Meteora Dynamic AMM");
   ("cpamdpZCGKUy5JxQXB4dcpGPiikHawvSWAd6mEn1sGG", "Meteora DAMM V2");
   ("dbcij3LWUppWqq96dh6gJWwBifmcGfLSB5D4DuSMaqN", "Meteora DBC");
   ("PhoeNiXZ8ByJGLkxNfZRnkUfjvmuYqLR89jjFHGqdXY", "Phoenix");
   ("2wT8Yq49kHgDzXuPxZSaeLaH1qbmGXWEYUdrsBBWvv3F", "Lifinity V2");
   ("MoonCVVNZFSYkqNXP6bxHLPL6QQJiMagDL3qcqUQTrG", "Moonshot");
   ("JUP6LkbZbjS1jKKwapdHNy74zcZ3tLUZoi5QNyVTaV4", "Jupiter Aggregator V6");
   ("6m2CDdhRgxpH4WjvdzxAYbGxwdGUz5MziiL5jek2kBma", "OKX DEX Router");
   ("proVF4pMXVaYqmy4NjniPh4pqKNfMmsihgd4wdkCX3u", "OKX DEX Router");
   ("DF1ow4tspfHX9JwWJsAb9epbkA8hmpSEAtxXy1V27QBH", "DFlow Aggregator");
   ("G7MVcM9YzGxrmLtmobUgyt8A6WhQ2dgQX3aSJcPejdEp", "deBot Router");
   ("FLASHX8DrLbgeR8FcfNV1F5krxYcYMUdBkrP1EPBtxB9", "Axiom Trade");
   ("BSfD6SHZigAfDWSjzD5Q41jw8LmKwtmjskPH9XW1mrRW", "Photon");
   ("GMgnVFR8Jb39LoXsEVzb3DvBy3ywCmdmJquHUy1Lrkqb", "GMGN Bot");
   ("GMGNreQcJFufBiCTLDBgKhYEfEe9B454UjpDr5CaSLA1", "GMGN Bot");
   ("term9YPb9mzAsABaqN71A4xdbxHmpBNZavpBiQKZzN3", "Terminal");
   ("troyXT7Ty3s2rjJe4bqWaroUrS4Fjd8rbHHNHxcACF4", "Trojan Trade");
   ("TroYL71c8P2XNtDxHs98VtVLuiASJ7Ao5FvUoKyp3Bk", "Trojan Trade");
   ("MaestroAAe9ge5HTc64VbBQZ6fP77pwvrhM8i1XWSAx", "Maestro");
   ("b1oomGGqPKGD6errbyfbVMBuzSC8WtAAYo8MwNafWW1", "Bloom Router");
   ("L2TExMFKdjpN9kozasaurPirfHy9P8sbXoAN1qA3S95", "Lighthouse");
   ("FAdo9NCw1ssek6Z6yeWzWjhLVsr8uiCwcWNUnKgzTnHe", "Arbitrage Bot");
   ("9Zzf9QqTy3TkyXysvJBsXyuRjda5aXCEJ9vXfL2HKSYv", "Arbitrage Bot")].

Definition ANCHOR_IX : list (string * list (string * string)) :=
  [(PUMP_FUN_PROGRAM_ID,
    [("add_quote_mint", "AddQuoteMint");
     ("admin_set_creator", "AdminSetCreator");
     ("admin_set_idl_authority", "AdminSetIdlAuthority");
     ("admin_update_token_incentives", "AdminUpdateTokenIncentives");
     ("buy", "Buy");
     ("buy_exact_quote_in_v2", "BuyExactQuoteInV2");
     ("buy_exact_quote_in_v3", "BuyExactQuoteInV3");
     ("buy_exact_sol_in", "BuyExactSolIn");
     ("buy_v2", "BuyV2");
     ("buy_v3", "BuyV3");
     ("claim_cashback", "ClaimCashback");
     ("claim_cashback_v2", "ClaimCashbackV2");
     ("claim_token_incentives", "ClaimTokenIncentives");
     ("close_user_volume_accumulator", "CloseUserVolumeAccumulator");
     ("collect_creator_fee", "CollectCreatorFee");
     ("collect_creator_fee_v2", "CollectCreatorFeeV2");
     ("create", "Create");
     ("create_v2", "Create_v2");
     ("distribute_creator_fees", "DistributeCreatorFees");
     ("distribute_creator_fees_v2", "DistributeCreatorFeesV2");
     ("extend_account", "ExtendAccount");
     ("get_minimum_distributable_fee", "GetMinimumDistributableFee");
     ("init_user_volume_accumulator", "InitUserVolumeAccumulator");
     ("initialize", "Initialize");
     ("migrate", "Migrate");
     ("migrate_bonding_curve_creator", "MigrateBondingCurveCreator");
     ("migrate_v2", "Migrate_v2");
     ("remove_quote_mint", "RemoveQuoteMint");
     ("sell", "Sell");
     ("sell_v2", "SellV2");
     ("sell_v3", "SellV3");
     ("set_creator", "SetCreator");
     ("set_mayhem_virtual_params", "SetMayhemVirtualParams");
     ("set_metaplex_creator", "SetMetaplexCreator");
     ("set_params", "SetParams");
     ("set_reserved_fee_recipients", "SetReservedFeeRecipients");
     ("set_virtual_quote_reserves", "SetVirtualQuoteReserves");
     ("sync_user_volume_accumulator", "SyncUserVolumeAccumulator");
     ("toggle_cashback_enabled", "ToggleCashbackEnabled");
     ("toggle_create_v2", "ToggleCreateV2");
     ("toggle_mayhem_mode", "ToggleMayhemMode");
     ("update_buyback_config", "UpdateBuybackConfig");
     ("update_global_authority", "UpdateGlobalAuthority")]);
   (PUMP_SWAP_PROGRAM_ID,
    [("admin_set_coin_creator", "AdminSetCoinCreator");
     ("admin_update_token_incentives", "AdminUpdateTokenIncentives");
     ("buy", "Buy");
     ("buy_exact_quote_in", "BuyExactQuoteIn");
     ("buy_exact_quote_in_v2", "BuyExactQuoteInV2");
     ("buy_v2", "BuyV2");
     ("claim_cashback", "ClaimCashback");
     ("claim_token_incentives", "ClaimTokenIncentives");
     ("close_user_volume_accumulator", "CloseUserVolumeAccumulator");
     ("collect_coin_creator_fee", "CollectCoinCreatorFee");
     ("create_config", "CreateConfig");
     ("create_pool", "CreatePool");
     ("deposit", "Deposit");
     ("disable", "Disable");
     ("extend_account", "ExtendAccount");
     ("init_user_volume_accumulator", "InitUserVolumeAccumulator");
     ("migrate_pool_coin_creator", "MigratePoolCoinCreator");
     ("sell", "Sell");
     ("sell_v2", "SellV2");
     ("set_coin_creator", "SetCoinCreator");
     ("set_reserved_fee_recipients", "SetReservedFeeRecipients");
     ("sync_user_volume_accumulator", "SyncUserVolumeAccumulator");
     ("toggle_cashback_enabled", "ToggleCashbackEnabled");
     ("toggle_mayhem_mode", "ToggleMayhemMode");
     ("transfer_creator_fees_to_pump", "TransferCreatorFeesToPump");
     ("transfer_creator_fees_to_pump_v2", "TransferCreatorFeesToPumpV2");
     ("update_admin", "UpdateAdmin");
     ("update_buyback_config", "UpdateBuybackConfig");
     ("update_fee_config", "UpdateFeeConfig");
     ("withdraw", "Withdraw")]);
   ("JUP6LkbZbjS1jKKwapdHNy74zcZ3tLUZoi5QNyVTaV4",
    [("claim", "Claim");
     ("claim_token", "ClaimToken");
     ("close_token", "CloseToken");
     ("create_token_ledger", "CreateTokenLedger");
     ("create_token_account", "CreateTokenAccount");
     ("close_wsol_token_account", "CloseWsolTokenAccount");
     ("exact_out_route", "ExactOutRoute");
     ("route", "Route");
     ("route_with_token_ledger", "RouteWithTokenLedger");
     ("set_token_ledger", "SetTokenLedger");
     ("shared_accounts_exact_out_route", "SharedAccountsExactOutRoute");
     ("shared_accounts_route", "SharedAccountsRoute");
     ("shared_accounts_route_with_token_ledger", "SharedAccountsRouteWithTokenLedger");
     ("exact_out_route_v2", "ExactOutRouteV2");
     ("route_v2", "RouteV2");
     ("shared_accounts_exact_out_route_v2", "SharedAccountsExactOutRouteV2");
     ("shared_accounts_route_v2", "SharedAccountsRouteV2")]);
   ("DF1ow4tspfHX9JwWJsAb9epbkA8hmpSEAtxXy1V27QBH",
    [("close_empty_token_account", "CloseEmptyTokenAccount");
     ("close_order", "CloseOrder");
     ("create_referral_token_account_idempotent", "CreateReferralTokenAccountIdempotent");
     ("fill_order", "FillOrder");
     ("init_market_ledger_idempotent", "InitMarketLedgerIdempotent");
     ("open_order", "OpenOrder");
     ("swap", "Swap");
     ("swap2", "Swap2");
     ("swap2_with_destination", "Swap2WithDestination");
     ("swap2_with_destination_native", "Swap2WithDestinationNative");
     ("swap_with_destination", "SwapWithDestination");
     ("swap_with_destination_native", "SwapWithDestinationNative");
     ("transfer_fee", "TransferFee");
     ("transfer_sol", "TransferSol");
     ("transfer_to_sponsor", "TransferToSponsor");
     ("unwrap_sol", "UnwrapSol");
     ("withdraw_fees", "WithdrawFees");
     ("wrap_sol", "WrapSol")]);
   ("6m2CDdhRgxpH4WjvdzxAYbGxwdGUz5MziiL5jek2kBma",
    [("claim", "Claim");
     ("claim_cashback_pumpfun", "ClaimCashbackPumpfun");
     ("claim_cashback_pumpswap", "ClaimCashbackPumpswap");
     ("create_token_account", "CreateTokenAccount");
     ("create_token_account_with_seed", "CreateTokenAccountWithSeed");
     ("proxy_swap", "ProxySwap");
     ("swap", "Swap");
     ("swap_tob_v3", "SwapTobV3");
     ("swap_tob_v3_enhanced", "SwapTobV3Enhanced");
     ("swap_tob_v3_with_receiver", "SwapTobV3WithReceiver");
     ("swap_v3", "SwapV3");
     ("swap_v3_with_cpi_event", "SwapV3WithCpiEvent");
     ("wrap_unwrap_v3", "WrapUnwrapV3");
     ("wrap_unwrap_v3_with_receiver", "WrapUnwrapV3WithReceiver")]);
   ("proVF4pMXVaYqmy4NjniPh4pqKNfMmsihgd4wdkCX3u",
    [("claim", "Claim");
     ("claim_cashback_pumpfun", "ClaimCashbackPumpfun");
     ("claim_cashback_pumpswap", "ClaimCashbackPumpswap");
     ("create_ata_with_close_authority", "CreateAtaWithCloseAuthority");
     ("create_token_account", "CreateTokenAccount");
     ("create_token_account_with_seed", "CreateTokenAccountWithSeed");
     ("init_token_ledger", "InitTokenLedger");
     ("proxy_swap", "ProxySwap");
     ("set_token_ledger", "SetTokenLedger");
     ("swap", "Swap");
     ("swap_tob", "SwapTob");
     ("swap_tob_enhanced", "SwapTobEnhanced");
     ("swap_tob_v2", "SwapTobV2");
     ("swap_tob_v3", "SwapTobV3");
     ("swap_tob_with_receiver", "SwapTobWithReceiver");
     ("swap_tob_with_receiver_token_ledger", "SwapTobWithReceiverTokenLedger");
     ("swap_tob_with_receiver_token_ledger_v3", "SwapTobWithReceiverTokenLedgerV3");
     ("swap_tob_with_receiver_v3", "SwapTobWithReceiverV3");
     ("swap_tob_with_token_ledger", "SwapTobWithTokenLedger");
     ("swap_tob_with_token_ledger_v3", "SwapTobWithTokenLedgerV3");
     ("swap_toc", "SwapToc");
     ("swap_toc_v2", "SwapTocV2");
     ("swap_toc_v3", "SwapTocV3");
     ("wrap_unwrap", "WrapUnwrap");
     ("wrap_unwrap_with_receiver", "WrapUnwrapWithReceiver")]);
   ("G7MVcM9YzGxrmLtmobUgyt8A6WhQ2dgQX3aSJcPejdEp",
    [("create_token_account", "CreateTokenAccount");
     ("create_token_account_with_seed", "CreateTokenAccountWithSeed");
     ("initialize_router_fee_config", "InitializeRouterFeeConfig");
     ("recover_stuck_sol", "RecoverStuckSol");
     ("recover_stuck_token", "RecoverStuckToken");
     ("recover_stuck_wsol", "RecoverStuckWsol");
     ("set_fee_rate", "SetFeeRate");
     ("set_fee_recipient", "SetFeeRecipient");
     ("swap", "Swap");
     ("swap_compact", "SwapCompact")]);
   ("CAMMCzo5YL8w4VFF8KVHrK22GGUsp5VTaW7grrKgrWqK",
    [("swap", "Swap");
     ("swap_v2", "SwapV2");
     ("swap_router_base_in", "SwapRouterBaseIn")]);
   ("CPMMoo8L3F4NbTegBCKVNunggL7H1ZpdTHKxQB5qKP1C",
    [("swap_base_input", "SwapBaseInput");
     ("swap_base_output", "SwapBaseOutput")]);
   ("LBUZKhRxPF3XUpBCjp4YzTKgLccjZhTSDM9YuVaPwxo",
    [("swap", "Swap");
     ("swap2", "Swap2");
     ("swap_exact_out", "SwapExactOut");
     ("swap_with_price_impact", "SwapWithPriceImpact")]);
   ("cpamdpZCGKUy5JxQXB4dcpGPiikHawvSWAd6mEn1sGG",
    [("swap", "Swap")]);
   ("dbcij3LWUppWqq96dh6gJWwBifmcGfLSB5D4DuSMaqN",
    [("swap", "Swap")]);
   ("MoonCVVNZFSYkqNXP6bxHLPL6QQJiMagDL3qcqUQTrG",
    [("buy", "Buy");
     ("sell", "Sell");
     ("token_mint", "TokenMint");
     ("migrate_funds", "MigrateFunds")]);
   ("term9YPb9mzAsABaqN71A4xdbxHmpBNZavpBiQKZzN3",
    [("validate_nonce", "ValidateNonce");
     ("route_open", "RouteOpen");
     ("route_close", "RouteClose");
     ("v2_buy_exact_in_pump_fun", "V2BuyExactInPumpFun");
     ("v2_sell_exact_in_pump_fun", "V2SellExactInPumpFun");
     ("v2_sell_exact_out_pump_fun", "V2SellExactOutPumpFun")]);
   ("GMgnVFR8Jb39LoXsEVzb3DvBy3ywCmdmJquHUy1Lrkqb",
    [("buy", "Buy");
     ("sell", "Sell")]);
   ("GMGNreQcJFufBiCTLDBgKhYEfEe9B454UjpDr5CaSLA1",
    [("swap", "Swap")]);
   ("BSfD6SHZigAfDWSjzD5Q41jw8LmKwtmjskPH9XW1mrRW",
    [("collect_fee", "CollectFee");
     ("two_hop_swap", "TwoHopSwap");
     ("pump_buy_v2", "PumpBuyV2");
     ("pump_sell_v2", "PumpSellV2")]);
   ("troyXT7Ty3s2rjJe4bqWaroUrS4Fjd8rbHHNHxcACF4",
    [("fee_transfer_with_tip", "FeeTransferWithTip");
     ("fee_transfer", "FeeTransfer");
     ("token_fee_transfer_with_tip", "TokenFeeTransferWithTip");
     ("sell", "Sell")]);
   ("TroYL71c8P2XNtDxHs98VtVLuiASJ7Ao5FvUoKyp3Bk",
    [("fee_transfer_with_tip", "FeeTransferWithTip");
     ("fee_transfer", "FeeTransfer");
     ("token_fee_transfer_with_tip", "TokenFeeTransferWithTip");
     ("sell", "Sell")]);
   ("MaestroAAe9ge5HTc64VbBQZ6fP77pwvrhM8i1XWSAx",
    [("multi_swap2", "MultiSwap2");
     ("save_balance", "SaveBalance");
     ("check_balance_and_transfer", "CheckBalanceAndTransfer");
     ("save_tax_state", "SaveTaxState")]);
   ("6Vo3245eszAb5wuqEMw8mGdbfRUdKbHhDHP5LcaGuTAB",
    [("pump_swap_v3", "PumpSwapV3");
     ("bonding_curve_v3", "BondingCurveV3");
     ("sell_pump_swap_percentage", "SellPumpSwapPercentage");
     ("sell_bonding_curve_percentage", "SellBondingCurvePercentage");
     ("sell_pump_swap_exact_quote_out", "SellPumpSwapExactQuoteOut");
     ("create_coin_and_buy_bonding_curve_v3", "CreateCoinAndBuyBondingCurveV3")]);
   ("m9obQHAPyZeZ88w7XUY8Te6a8rBmhXsfKco7u8G8tnB",
    [("pump_bonding_curve_buy_with_volume_v2", "PumpBondingCurveBuyWithVolumeV2");
     ("pump_swap_sell", "PumpSwapSell");
     ("pump_swap_buy_with_volume", "PumpSwapBuyWithVolume");
     ("pump_bonding_curve_sell", "PumpBondingCurveSell");
     ("usdc_sell_pump_swap", "UsdcSellPumpSwap");
     ("usdc_buy_pump_bonding_curve", "UsdcBuyPumpBondingCurve");
     ("usdc_sell_pump_bonding_curve", "UsdcSellPumpBondingCurve")]);
   ("CxvksNjwhdHDLr3qbCXNKVdeYACW8cs93vFqLqtgyFE5",
    [("close_ata_if_empty", "CloseAtaIfEmpty");
     ("pre_token_swap_v2", "PreTokenSwapV2");
     ("post_token_swap_v2", "PostTokenSwapV2");
     ("pre_token_swap", "PreTokenSwap");
     ("post_token_swap", "PostTokenSwap");
     ("pre_sol_swap", "PreSolSwap");
     ("post_sol_swap", "PostSolSwap");
     ("pre_token_swap_v2_native_sol", "PreTokenSwapV2NativeSol");
     ("post_token_swap_v2_native_sol", "PostTokenSwapV2NativeSol");
     ("pre_token_swap_v3", "PreTokenSwapV3");
     ("post_token_swap_v3", "PostTokenSwapV3")]);
   ("AveaiuA1emN71q9mS2QQ9BEWNAAHmp8sHSvwLFHQjufM",
    [("route_swap", "RouteSwap");
     ("close_order", "CloseOrder");
     ("cancel_order", "CancelOrder");
     ("create_market_token_vault", "CreateMarketTokenVault");
     ("create_order", "CreateOrder");
     ("fulfill_order_via_route_swap", "FulfillOrderViaRouteSwap")]);
   ("4KRSet9YXoCKDamKQfoTc4MsnPU4w847KhPoYBcrRooY",
    [("sell_bc", "SellBc");
     ("sell_amm", "SellAmm");
     ("buy_bc", "BuyBc")]);
   ("H5k1PVjAiZxvca3Fix3LKtpS7GJB6h3JinqZoiDx2N54",
    [("sell_pump_tokens", "SellPumpTokens");
     ("sell_pumpswap_tokens", "SellPumpswapTokens")]);
   ("7bopoA2tnvDYEfp54FhgNDiLR9wSPcEs9J7FaUGURsXj",
    [("sell_pump_pumpswap", "SellPumpPumpswap")]);
   ("tRunsb6NB127ES14E5Y6pUf3dfJC8DJMPTcbEaWZSLe",
    [("balance_below", "BalanceBelow")]);
   ("pumpapii17v9uhRiokHwhG3yWYtB6hgJRmsSC5p5bb2",
    [("forward", "Forward")])].

Inductive IxKey := Disc8 | Tag1.
#[export] Instance IxKey_eq_dec : EqDecision IxKey.
Proof. solve_decision. Defined.

Definition IX_KEY_OVERRIDE : list (string * IxKey) :=
  [("b1oomGGqPKGD6errbyfbVMBuzSC8WtAAYo8MwNafWW1", Disc8);
   ("haqqqMGN35ehCftXca3KWxJFXTBcWTWeNHNtUHLGQdh", Disc8);
   ("9ddjzqYhSTMHaBrrKukRXRfy4WzHUPjdX88uPXZ7MXyn", Disc8)].

Definition EXPLICIT_IX : list (string * IxKey * list (string * string)) :=
  [("J7pourVwqP1VtRNBiFNqbdGxwkx7ta2LHAURURRRJqmd", Disc8,
    [("4be09fdde54f2eb3", "SellPumpfun"); ("a1476cd877c2b059", "BuyPumpfun");
     ("1fa3ccdce0393068", "InitUserWsolAta")]);
   ("B3111yJCeHBcA1bizdJjUFPALfhAfSRnAbJzGUtnt56A", Tag1,
    [("01", "Swap"); ("03", "SwapWithFeeLog"); ("04", "SwapWithSolFeeLog"); ("05", "TakeFeeLog");
     ("06", "TakeSolFeeLog"); ("07", "BatchCreateTokenAccounts"); ("08", "SyncNative");
     ("09", "BatchCloseTokenAccounts")])].

(** A [HashMap] collected from pairs: the last one of a key stays. *)
Definition collect_map {A} (l : list (string * A)) : gmap string A :=
  foldl (fun m kv => <[kv.1 := kv.2]> m) ∅ l.

Definition registry : gmap string string := collect_map REGISTRY.

Definition program_friendly_name (id : string) : option string := registry !! id.

(** ** Instruction keys *)

Definition hex_digit (n : Z) : string :=
  String (ascii_of_nat (Z.to_nat (if n <? 10 then 48 + n else 87 + n))) EmptyString.

Fixpoint hex (bs : Bytes) : string :=
  match bs with
  | [] => EmptyString
  | b :: bs => hex_digit (b / 16) +:+ hex_digit (b mod 16) +:+ hex bs
  end.

Definition bytes_of (s : string) : Bytes := byte_at <$> chars s.

Definition anchor_discriminator `{Codecs} (name : string) : Bytes :=
  take 8 (sha256 (bytes_of ("global:" +:+ name))).

Record IxTable := { table_key : IxKey; table_names : gmap string string }.

Definition anchor_row `{Codecs} (r : string * list (string * string)) : string * IxTable :=
  (r.1, {| table_key := Disc8;
           table_names := collect_map ((fun x => (hex (anchor_discriminator x.1), x.2)) <$> r.2) |}).

Definition explicit_row (r : string * IxKey * list (string * string)) : string * IxTable :=
  (r.1.1, {| table_key := r.1.2; table_names := collect_map r.2 |}).

Definition ix_tables `{Codecs} : gmap string IxTable :=
  collect_map ((anchor_row <$> ANCHOR_IX) ++ (explicit_row <$> EXPLICIT_IX)).

Definition key_overrides : gmap string IxKey := collect_map IX_KEY_OVERRIDE.

Definition program_ix_key `{Codecs} (program_id : string) : IxKey :=
  match key_overrides !! program_id with
  | Some k => k
  | None => map_or (ix_tables !! program_id) Tag1 table_key
  end.

Definition instruction_key (key : IxKey) (data : Bytes) : option string :=
  match key with
  | Disc8 => hex <$> slice data 0 8
  | Tag1 => hex <$> slice data 0 1
  end.

Definition program_instruction_name `{Codecs} (program_id : string) (data : option Bytes)
    : option string :=
  table ← ix_tables !! program_id;
  d ← data;
  key ← instruction_key (table_key table) d;
  table_names table !! key.

Definition program_instruction_label `{Codecs} (program_id : string) (data : option Bytes) : string :=
  match program_instruction_name program_id data with
  | Some name => name
  | None =>
      match d ← data; instruction_key (program_ix_key program_id) d with
      | Some key => "ix#" +:+ key
      | None => "Unknown"
      end
  end.

(** ** Labels *)

Definition system_names : list string :=
  ["CreateAccount"; "Assign"; "Transfer"; "CreateAccountWithSeed"; "AdvanceNonceAccount";
   "WithdrawNonceAccount"; "InitializeNonceAccount"; "AuthorizeNonceAccount"; "Allocate";
   "AllocateWithSeed"; "AssignWithSeed"; "TransferWithSeed"; "UpgradeNonceAccount"].

Definition system_ix_name (data : Bytes) : option string :=
  d ← slice data 0 4;
  system_names !! Z.to_nat (from_le d).

Definition token_names : list string :=
  ["InitializeMint"; "InitializeAccount"; "InitializeMultisig"; "Transfer"; "Approve"; "Revoke";
   "SetAuthority"; "MintTo"; "Burn"; "CloseAccount"; "FreezeAccount"; "ThawAccount";
   "TransferChecked"; "ApproveChecked"; "MintToChecked"; "BurnChecked"; "InitializeAccount2";
   "SyncNative"; "InitializeAccount3"; "InitializeMultisig2"; "InitializeMint2";
   "GetAccountDataSize"; "InitializeImmutableOwner"; "AmountToUiAmount"; "UiAmountToAmount";
   "InitializeMintCloseAuthority"].

Definition token_ix_name (data : Bytes) : option string :=
  b ← head data;
  token_names !! Z.to_nat b.

Definition ata_ix_name (data : option Bytes) : option string :=
  match data with
  | Some [] => Some "Create"%string
  | Some (b :: _) =>
      if b =? 0 then Some "Create"%string
      else if b =? 1 then Some "CreateIdempotent"%string
      else if b =? 2 then Some "RecoverNested"%string
      else None
  | None => None
  end.

Definition label_from_parsed_or_unknown (friendly : string) : string := friendly +:+ ": Unknown".

Definition compute_budget_label (data : option Bytes) : string :=
  match d ← data; head d with
  | Some b =>
      if b =? 1 then "Compute Budget: RequestHeapFrame"
      else if b =? 2 then "Compute Budget: SetComputeUnitLimit"
      else if b =? 3 then "Compute Budget: SetComputeUnitPrice"
      else if b =? 4 then "Compute Budget: SetLoadedAccountsDataSizeLimit"
      else "Compute Budget: Unknown"
  | None => "Compute Budget: Unknown"
  end.

Definition named_label (friendly : string) (name : option string) : string :=
  match name with
  | Some name => friendly +:+ ": " +:+ name
  | None => label_from_parsed_or_unknown friendly
  end.

Definition label_instruction `{Codecs} (program_id : string) (data : option Bytes) (p : Protocol)
    : string :=
  let isp (k : Programs -> ProgramId) := bool_decide (program_id = pid_base58 (k (programs p))) in
  if isp compute_budget_id then compute_budget_label data
  else if isp system_id then named_label "System Program" (d ← data; system_ix_name d)
  else if isp token_id || isp token_2022_id then
    named_label (if isp token_id then "Token Program" else "Token 2022") (d ← data; token_ix_name d)
  else if isp associated_token_id then named_label "Associated Token" (ata_ix_name data)
  else if bool_decide (program_id = MEMO_PROGRAM_ID) then
    match data with
    | Some (_ :: _) => "Memo Program: Memo"
    | _ => "Memo Program: Unknown"
    end
  else
    let ix := program_instruction_label program_id data in
    match program_friendly_name program_id with
    | Some name => name +:+ ": " +:+ ix
    | None => "Unknown (" +:+ program_id +:+ "): " +:+ ix
    end.

(** ** What a label depends on *)

Lemma registry_ids_are_distinct : NoDup REGISTRY.*1.
Proof. by apply (bool_decide_unpack _); vm_compute. Qed.

Lemma instruction_tables_are_distinct : NoDup (ANCHOR_IX.*1 ++ EXPLICIT_IX.*1.*1).
Proof. by apply (bool_decide_unpack _); vm_compute. Qed.

Lemma slice_from_start d n :
  slice d 0 (Z.of_nat n) = if (n <=? length d)%nat then Some (take n d) else None.
Proof.
  unfold slice. change (Z.to_nat 0) with 0%nat. rewrite drop_0, Z.sub_0_r, Nat2Z.id.
  replace ((0 <=? 0) && (0 <=? Z.of_nat n) && (Z.of_nat n <=? Z.of_nat (length d)))
    with (n <=? length d)%nat; [done|].
  rewrite (proj2 (Z.leb_le 0 (Z.of_nat n))) by lia. cbn [andb Z.leb Z.compare].
  destruct (Nat.leb_spec n (length d)); symmetry; [apply Z.leb_le|apply Z.leb_gt]; lia.
Qed.

(** The first [n] bytes of two instructions are the same. *)
Definition same_start (n : nat) (d1 d2 : Bytes) : Prop := take n d1 = take n d2.

Lemma same_start_le n m d1 d2 : (m <= n)%nat -> same_start n d1 d2 -> same_start m d1 d2.
Proof.
  unfold same_start. intros Hm E. apply (f_equal (take m)) in E.
  by rewrite !take_take, !Nat.min_l in E by done.
Qed.

Lemma same_start_slice n d1 d2 :
  same_start n d1 d2 -> slice d1 0 (Z.of_nat n) = slice d2 0 (Z.of_nat n).
Proof.
  intros E. rewrite !slice_from_start. pose proof (f_equal length E) as El. rewrite !length_take in El.
  destruct (Nat.leb_spec n (length d1)), (Nat.leb_spec n (length d2)); try lia; [by rewrite E|done].
Qed.

Lemma same_start_head n d1 d2 : (1 <= n)%nat -> same_start n d1 d2 -> head d1 = head d2.
Proof. intros Hn E. destruct n; [lia|]. by destruct d1, d2; inversion E. Qed.

Section labels.
Context `{Codecs}.

Definition key_width (k : IxKey) : nat := match k with Disc8 => 8 | Tag1 => 1 end.

Lemma instruction_key_start k d1 d2 :
  same_start (key_width k) d1 d2 -> instruction_key k d1 = instruction_key k d2.
Proof.
  intros E. unfold instruction_key.
  destruct k; apply (f_equal (fmap hex)); [exact (same_start_slice 8 d1 d2 E)|exact (same_start_slice 1 d1 d2 E)].
Qed.

Lemma program_label_start id d1 d2 :
  same_start 8 d1 d2 -> program_instruction_label id (Some d1) = program_instruction_label id (Some d2).
Proof.
  intros E.
  assert (Hk : forall k, instruction_key k d1 = instruction_key k d2).
  { intros k. apply instruction_key_start. destruct k; [done|]. eapply same_start_le; [|exact E]. cbn. lia. }
  unfold program_instruction_label, program_instruction_name. cbn [mbind option_bind].
  rewrite (Hk (program_ix_key id)). destruct (ix_tables !! id) as [t|]; [|done].
  cbn [mbind option_bind]. by rewrite (Hk (table_key t)).
Qed.

(** A program without a table is named by one byte. *)
Lemma unlisted_label_is_one_byte id d1 d2 :
  ix_tables !! id = None -> key_overrides !! id = None -> same_start 1 d1 d2 ->
  program_instruction_label id (Some d1) = program_instruction_label id (Some d2).
Proof.
  intros Ht Hk E. unfold program_instruction_label, program_instruction_name, program_ix_key.
  rewrite Hk, Ht. cbn [mbind option_bind map_or]. by rewrite (instruction_key_start Tag1 d1 d2 E).
Qed.

(** A label names an instruction and never its arguments: two instructions of one
    program whose first eight bytes agree have the same label, so the label lists of trades
    that run the same instructions are the same whatever amounts, memos or signers follow. *)
Theorem labels_ignore_arguments id p d1 d2 :
  same_start 8 d1 d2 -> label_instruction id (Some d1) p = label_instruction id (Some d2) p.
Proof.
  intros E. pose proof (same_start_head 8 _ _ ltac:(lia) E) as Eh.
  unfold label_instruction. cbv zeta. cbn [mbind option_bind].
  destruct (bool_decide (id = pid_base58 (compute_budget_id _))).
  { unfold compute_budget_label. cbn [mbind option_bind]. by rewrite Eh. }
  destruct (bool_decide (id = pid_base58 (system_id _))).
  { unfold system_ix_name.
    assert (E4 : same_start 4 d1 d2) by (eapply same_start_le; [|exact E]; lia).
    by rewrite (same_start_slice 4 d1 d2 E4 : slice d1 0 4 = slice d2 0 4). }
  destruct (_ || _).
  { unfold token_ix_name. by rewrite Eh. }
  destruct (bool_decide (id = pid_base58 (associated_token_id _))).
  { unfold ata_ix_name. destruct d1, d2; try done. by injection Eh as ->. }
  destruct (bool_decide (id = MEMO_PROGRAM_ID)); [by destruct d1, d2|].
  by rewrite (program_label_start id d1 d2 E).
Qed.
End labels.
