(* ===== verification/Swaps.v ===== *)
(** * Swaps: the events a transaction carries and what the decoder makes of them

    [core/src/event.rs] without the liquidity and raw-frame events the venue never emits,
    [decode/swap_ix.rs], [decode/trade.rs], [decode/instructions.rs] without its labels and
    [decode/create.rs].  Warnings are not modelled. *)

From S2P Require Export IxLabels.
#[local] Open Scope Z_scope.

(** ** The events out *)

Inductive Side := Buy | Sell.
Inductive Venue := Curve | Amm.

Record Reserves := {
  virtual_sol : option f64;
  virtual_token : option Z;
  real_sol : option f64;
  real_token : option Z;
  virtual_sol_lamports : option Z;
  real_sol_lamports : option Z
}.

Definition no_reserves : Reserves := {|
  virtual_sol := None; virtual_token := None; real_sol := None; real_token := None;
  virtual_sol_lamports := None; real_sol_lamports := None |}.

Inductive BuyInstructionArgs :=
  | ArgsBuy (token_amount max_sol_cost : Z)
  | ArgsBuyV2 (token_amount max_sol_cost : Z)
  | ArgsBuyExactSolIn (spendable_sol_in min_tokens_out : Z)
  | ArgsBuyExactQuoteIn (spendable_sol_in min_tokens_out : Z)
  | ArgsBuyExactQuoteInV2 (spendable_sol_in min_tokens_out : Z)
  | ArgsBuyV3 (token_amount max_sol_cost : Z)
  | ArgsBuyExactQuoteInV3 (spendable_sol_in min_tokens_out : Z).

Record Trade := {
  tr_mint : string;
  wallet : string;
  tr_payer : string;
  tr_is_proxied : option bool;
  side : Side;
  sol : f64;
  sol_lamports : Z;
  tokens : Z;
  price : f64;
  tr_fee_lamports : option Z;
  tr_cu_limit : option Z;
  tr_cu_price : option Z;
  tr_tip_lamports : option Z;
  payer_net_lamports : option Z;
  venue_fee_bps : option f64;
  tr_signature : string;
  tx_index : Z;
  leg_index : Z;
  slot : Z;
  block_time : Z;
  received_at : Z;
  reserves : Reserves;
  venue : Venue;
  instruction_type : string;
  instruction_labels : list string;
  amm_swap_accounts : option (list string);
  curve_creator : option Bytes;
  swap_ix : option BuyInstructionArgs
}.

Record TokenCreated := {
  tc_mint : string;
  tc_creator : string;
  tc_name : string;
  tc_symbol : string;
  tc_uri : option string;
  token_program_id : option string;
  tc_bonding_curve : option string;
  total_supply : option Z;
  initial_buy_tokens : option Z;
  initial_buy_sol : option f64;
  initial_buy_instruction : option BuyInstructionArgs;
  tc_cu_limit : option Z;
  tc_cu_price : option Z;
  tc_is_mayhem_mode : bool;
  tc_is_cashback_enabled : bool;
  tc_quote_mint : option string;
  tc_labels : list string;
  tc_signature : string;
  tc_slot : Z;
  tc_block_time : Z;
  tc_received_at : Z
}.

Record TokenMigrated := {
  tm_mint : string; tm_signature : string; tm_slot : Z; tm_block_time : Z; tm_received_at : Z
}.

(** [CreatorActivityEvent] of kind [Create], the only kind the decoder emits. *)
Record CreatorActivityEvent := {
  ca_creator : string; ca_mint : string; ca_signature : string;
  ca_slot : Z; ca_block_time : Z; ca_received_at : Z
}.

Inductive IngestEvent :=
  | EvTokenCreated (e : TokenCreated)
  | EvTrade (t : Trade)
  | EvTokenMigrated (e : TokenMigrated)
  | EvCreatorActivity (e : CreatorActivityEvent).

(** A zero fee is an absent field. *)
Definition fee_lamports_opt (fee : Z) : option Z := if 0 <? fee then Some fee else None.

(** ** Buy instructions ([swap_ix.rs]) *)

Definition two_u64 `{Codecs} {A} (k : Z -> Z -> A) (b : Bytes) : option A :=
  '(x, b) ← borsh_u64 b;
  '(y, b) ← borsh_u64 b;
  Some (k x y).

Definition parse_buy_ix `{Codecs} (data : Bytes) (p : Protocol) : option BuyInstructionArgs :=
  if (length data <? 8)%nat then None
  else
    let d := discriminators p in
    let disc := take 8 data in
    let rest := drop 8 data in
    if bytes_eqb disc (buy d) then two_u64 ArgsBuy rest
    else if bytes_eqb disc (buy_v2 d) then two_u64 ArgsBuyV2 rest
    else if bytes_eqb disc (buy_exact_sol_in d) then two_u64 ArgsBuyExactSolIn rest
    else if bytes_eqb disc (buy_exact_quote_in d) then two_u64 ArgsBuyExactQuoteIn rest
    else if bytes_eqb disc (buy_exact_quote_in_v2 d) then two_u64 ArgsBuyExactQuoteInV2 rest
    else if bytes_eqb disc (buy_v3 d) then two_u64 ArgsBuyV3 rest
    else if bytes_eqb disc (buy_exact_quote_in_v3 d) then two_u64 ArgsBuyExactQuoteInV3 rest
    else None.

Definition is_buy_disc (data : Bytes) (p : Protocol) : bool :=
  if (length data <? 8)%nat then false
  else
    let disc := take 8 data in
    let d := discriminators p in
    bytes_eqb disc (buy d) || bytes_eqb disc (buy_v2 d) || bytes_eqb disc (buy_exact_sol_in d)
    || bytes_eqb disc (buy_exact_quote_in d) || bytes_eqb disc (buy_exact_quote_in_v2 d)
    || bytes_eqb disc (buy_v3 d) || bytes_eqb disc (buy_exact_quote_in_v3 d).

Definition buy_ixs_in_order `{Codecs} (datas : list Bytes) (p : Protocol)
    : list (option BuyInstructionArgs) :=
  (fun d => parse_buy_ix d p) <$> List.filter (fun d => is_buy_disc d p) datas.

Definition first_buy_ix `{Codecs} (datas : list Bytes) (p : Protocol) : option BuyInstructionArgs :=
  find_map (fun d => parse_buy_ix d p) datas.

(** [BuyCursor]: what is left of the buys; [cursor_take] is its [take]. *)
Abbreviation BuyCursor := (list (option BuyInstructionArgs)) (only parsing).

Definition cursor_take (c : BuyCursor) (is_buy : bool) : option BuyInstructionArgs * BuyCursor :=
  if is_buy then
    match c with
    | a :: c => (a, c)
    | [] => (None, [])
    end
  else (None, c).

(** ** Curve trade events ([trade.rs]) *)

Record RawTradeEvent := {
  rt_mint : Bytes;
  rt_sol_amount : Z;
  rt_token_amount : Z;
  rt_is_buy : bool;
  rt_user : Bytes;
  rt_timestamp : Z;
  rt_virtual_sol : Z;
  rt_virtual_token : Z;
  rt_real_sol : Z;
  rt_real_token : Z
}.

Definition read_trade_event `{Codecs} (b : Bytes) : option (RawTradeEvent * Bytes) :=
  '(mint, b) ← borsh_key b;
  '(sol_amount, b) ← borsh_u64 b;
  '(token_amount, b) ← borsh_u64 b;
  '(is_buy, b) ← borsh_bool b;
  '(user, b) ← borsh_key b;
  '(timestamp, b) ← borsh_i64 b;
  '(virtual_sol, b) ← borsh_u64 b;
  '(virtual_token, b) ← borsh_u64 b;
  '(real_sol, b) ← borsh_u64 b;
  '(real_token, b) ← borsh_u64 b;
  Some ({| rt_mint := mint; rt_sol_amount := sol_amount; rt_token_amount := token_amount;
           rt_is_buy := is_buy; rt_user := user; rt_timestamp := timestamp;
           rt_virtual_sol := virtual_sol; rt_virtual_token := virtual_token;
           rt_real_sol := real_sol; rt_real_token := real_token |}, b).

Record DecodedTradeEvent := {
  de_mint : string;
  de_sol_amount : f64;
  de_sol_lamports : Z;
  de_token_amount : Z;
  de_is_buy : bool;
  de_user : string;
  de_virtual_sol : f64;
  de_virtual_sol_lamports : Z;
  de_virtual_token : Z;
  de_real_sol : f64;
  de_real_sol_lamports : Z;
  de_real_token : Z;
  de_curve_creator : option Bytes
}.

Definition TRADE_EVENT_FEE_FIELDS_LEN : Z := 32 + 8 + 8.

Definition trailing_curve_creator (rest : Bytes) : option Bytes :=
  slice rest TRADE_EVENT_FEE_FIELDS_LEN (TRADE_EVENT_FEE_FIELDS_LEN + 32).

(** [DecodedTradeEvent::from_raw], with the creator [decode_trade_event_body] then sets. *)
Definition from_raw `{Codecs} (raw : RawTradeEvent) (lps : f64) (creator : option Bytes)
    : DecodedTradeEvent := {|
  de_mint := bs58_encode (rt_mint raw);
  de_sol_amount := f_of_Z (rt_sol_amount raw) ⊘ lps;
  de_sol_lamports := rt_sol_amount raw;
  de_token_amount := rt_token_amount raw;
  de_is_buy := rt_is_buy raw;
  de_user := bs58_encode (rt_user raw);
  de_virtual_sol := f_of_Z (rt_virtual_sol raw) ⊘ lps;
  de_virtual_sol_lamports := rt_virtual_sol raw;
  de_virtual_token := rt_virtual_token raw;
  de_real_sol := f_of_Z (rt_real_sol raw) ⊘ lps;
  de_real_sol_lamports := rt_real_sol raw;
  de_real_token := rt_real_token raw;
  de_curve_creator := creator |}.

Definition decode_trade_event_body `{Codecs} (body : Bytes) (lps : f64) : option DecodedTradeEvent :=
  '(raw, rest) ← read_trade_event body;
  Some (from_raw raw lps (trailing_curve_creator rest)).

(** The bytes of a ["Program data: "] log line. *)
Definition program_data `{Codecs} (log : string) : option Bytes :=
  encoded ← Text.strip_prefix "Program data: " log;
  base64_decode encoded.

Definition log_trade_event `{Codecs} (disc : Bytes) (lps : f64) (log : string)
    : option DecodedTradeEvent :=
  bytes ← program_data log;
  if (length bytes <? 8)%nat || negb (bytes_eqb (take 8 bytes) disc) then None
  else decode_trade_event_body (drop 8 bytes) lps.

Definition decode_trade_events_from_logs `{Codecs} (logs : list string) (disc : Bytes) (lps : f64)
    : list DecodedTradeEvent :=
  omap (log_trade_event disc lps) logs.

(** ** PumpSwap events *)

(** [RawPumpSwapBuyEvent] and [RawPumpSwapSellEvent]: the fields that are read. *)
Record RawPumpSwapBuyEvent := {
  base_amount_out : Z;
  buy_pool_base : Z;
  buy_pool_quote : Z;
  quote_amount_in : Z;
  quote_amount_in_with_lp_fee : Z;
  user_quote_amount_in : Z;
  buy_pool : Bytes;
  buy_user : Bytes
}.

Record RawPumpSwapSellEvent := {
  base_amount_in : Z;
  sell_pool_base : Z;
  sell_pool_quote : Z;
  quote_amount_out : Z;
  quote_amount_out_without_lp_fee : Z;
  user_quote_amount_out : Z;
  sell_pool : Bytes;
  sell_user : Bytes
}.

Definition read_buy_event `{Codecs} (b : Bytes) : option RawPumpSwapBuyEvent :=
  '(timestamp, b) ← borsh_i64 b;
  '(base, b) ← borsh_u64 b;
  '(max_quote, b) ← borsh_u64 b;
  '(user_base, b) ← borsh_u64 b;
  '(user_quote_res, b) ← borsh_u64 b;
  '(pool_base, b) ← borsh_u64 b;
  '(pool_quote, b) ← borsh_u64 b;
  '(quote, b) ← borsh_u64 b;
  '(lp_bps, b) ← borsh_u64 b;
  '(lp_fee, b) ← borsh_u64 b;
  '(protocol_bps, b) ← borsh_u64 b;
  '(protocol_fee, b) ← borsh_u64 b;
  '(with_lp, b) ← borsh_u64 b;
  '(user_quote, b) ← borsh_u64 b;
  '(pool, b) ← borsh_key b;
  '(user, b) ← borsh_key b;
  Some {| base_amount_out := base; buy_pool_base := pool_base; buy_pool_quote := pool_quote; quote_amount_in := quote; quote_amount_in_with_lp_fee := with_lp; user_quote_amount_in := user_quote; buy_pool := pool; buy_user := user |}.

Definition read_sell_event `{Codecs} (b : Bytes) : option RawPumpSwapSellEvent :=
  '(timestamp, b) ← borsh_i64 b;
  '(base, b) ← borsh_u64 b;
  '(min_quote, b) ← borsh_u64 b;
  '(user_base, b) ← borsh_u64 b;
  '(user_quote_res, b) ← borsh_u64 b;
  '(pool_base, b) ← borsh_u64 b;
  '(pool_quote, b) ← borsh_u64 b;
  '(quote, b) ← borsh_u64 b;
  '(lp_bps, b) ← borsh_u64 b;
  '(lp_fee, b) ← borsh_u64 b;
  '(protocol_bps, b) ← borsh_u64 b;
  '(protocol_fee, b) ← borsh_u64 b;
  '(without_lp, b) ← borsh_u64 b;
  '(user_quote, b) ← borsh_u64 b;
  '(pool, b) ← borsh_key b;
  '(user, b) ← borsh_key b;
  Some {| base_amount_in := base; sell_pool_base := pool_base; sell_pool_quote := pool_quote; quote_amount_out := quote; quote_amount_out_without_lp_fee := without_lp; user_quote_amount_out := user_quote; sell_pool := pool; sell_user := user |}.

Record DecodedAmmTrade := {
  da_is_buy : bool;
  da_base_amount : Z;
  da_quote_amount : f64;
  da_quote_lamports : Z;
  da_pool : string;
  da_user : string;
  da_pool_base : Z;
  da_pool_quote : f64;
  da_pool_quote_lamports : Z;
  da_pool_vault : f64;
  da_pool_vault_lamports : Z;
  da_fee_bps : option f64
}.

(** [trade::venue_fee_bps]. *)
Definition fee_bps_over (fees pool_amount : Z) : option f64 :=
  if 0 <? pool_amount then Some ((f_of_Z fees ⊘ f_of_Z pool_amount) ⊗ f_of_Z 10000) else None.

Definition priced_quote (vault_lamports : Z) : Z :=
  sat_add u64_max vault_lamports PUMP_SWAP_VIRTUAL_QUOTE_LAMPORTS.

Definition amm_buy_trade `{Codecs} (e : RawPumpSwapBuyEvent) (lps : f64) : DecodedAmmTrade :=
  let paid := Z.max (quote_amount_in e) (user_quote_amount_in e) in
  let pool_amount := Z.min (quote_amount_in e) (user_quote_amount_in e) in
  let post_base := sat_sub (buy_pool_base e) (base_amount_out e) in
  let post_vault := sat_add u64_max (buy_pool_quote e) (quote_amount_in_with_lp_fee e) in
  let post_quote := priced_quote post_vault in
  {| da_is_buy := true;
     da_base_amount := base_amount_out e;
     da_quote_amount := f_of_Z paid ⊘ lps;
     da_quote_lamports := paid;
     da_pool := bs58_encode (buy_pool e);
     da_user := bs58_encode (buy_user e);
     da_pool_base := post_base;
     da_pool_quote := f_of_Z post_quote ⊘ lps;
     da_pool_quote_lamports := post_quote;
     da_pool_vault := f_of_Z post_vault ⊘ lps;
     da_pool_vault_lamports := post_vault;
     da_fee_bps := fee_bps_over (paid - pool_amount) pool_amount |}.

Definition amm_sell_trade `{Codecs} (e : RawPumpSwapSellEvent) (lps : f64) : DecodedAmmTrade :=
  let post_base := sat_add u64_max (sell_pool_base e) (base_amount_in e) in
  let post_vault := sat_sub (sell_pool_quote e) (quote_amount_out_without_lp_fee e) in
  let post_quote := priced_quote post_vault in
  {| da_is_buy := false;
     da_base_amount := base_amount_in e;
     da_quote_amount := f_of_Z (user_quote_amount_out e) ⊘ lps;
     da_quote_lamports := user_quote_amount_out e;
     da_pool := bs58_encode (sell_pool e);
     da_user := bs58_encode (sell_user e);
     da_pool_base := post_base;
     da_pool_quote := f_of_Z post_quote ⊘ lps;
     da_pool_quote_lamports := post_quote;
     da_pool_vault := f_of_Z post_vault ⊘ lps;
     da_pool_vault_lamports := post_vault;
     da_fee_bps := fee_bps_over (sat_sub (quote_amount_out e) (user_quote_amount_out e))
                     (quote_amount_out e) |}.

(** What one PumpSwap event body decodes to, by its discriminator. *)
Definition amm_event `{Codecs} (p : Protocol) (disc body : Bytes) : option DecodedAmmTrade :=
  let d := discriminators p in
  let lps := lamports_per_sol p in
  if bytes_eqb disc (pump_swap_buy_event d) then (fun e => amm_buy_trade e lps) <$> read_buy_event body
  else if bytes_eqb disc (pump_swap_sell_event d) then
    (fun e => amm_sell_trade e lps) <$> read_sell_event body
  else None.

Definition log_amm_trade `{Codecs} (p : Protocol) (log : string) : option DecodedAmmTrade :=
  bytes ← program_data log;
  if (length bytes <? 8)%nat then None else amm_event p (take 8 bytes) (drop 8 bytes).

Definition decode_pump_swap_trades_from_logs `{Codecs} (logs : list string) (p : Protocol)
    : list DecodedAmmTrade :=
  omap (log_amm_trade p) logs.

Definition inner_amm_trade `{Codecs} (p : Protocol) (data : Bytes) : option DecodedAmmTrade :=
  if (length data <? 16)%nat
     || negb (bytes_eqb (take 8 data) (anchor_event_cpi (discriminators p)))
  then None
  else amm_event p (take 8 (drop 8 data)) (drop 16 data).

Definition decode_pump_swap_trades_from_inner `{Codecs} (ix_datas : list Bytes) (p : Protocol)
    : list DecodedAmmTrade :=
  omap (inner_amm_trade p) ix_datas.

(** ** Instruction kinds and the fee budget ([instructions.rs]) *)

Inductive InstructionKind := KCreate | KBuy | KSell | KMigrate | KUnknown.
#[export] Instance InstructionKind_eq_dec : EqDecision InstructionKind.
Proof. solve_decision. Defined.

Definition classify_pump_ix (is_pump_fun : bool) (data : Bytes) (p : Protocol)
    : option InstructionKind :=
  if negb is_pump_fun then None
  else if (length data <? 8)%nat then None
  else
    let d := discriminators p in
    let is_disc (f : Discriminators -> Bytes) := starts_with data (f d) in
    Some
      (if is_disc buy || is_disc buy_exact_sol_in || is_disc buy_exact_quote_in || is_disc buy_v2
          || is_disc buy_exact_quote_in_v2 || is_disc buy_v3 || is_disc buy_exact_quote_in_v3
       then KBuy
       else if is_disc sell || is_disc sell_v2 || is_disc sell_v3 then KSell
       else if is_disc create_ix || is_disc create_v2_ix then KCreate
       else if is_disc migrate_ix || is_disc migrate_v2_ix then KMigrate
       else KUnknown).

Definition count_kind (k : InstructionKind) (kinds : list InstructionKind) : nat :=
  length (List.filter (fun k' => bool_decide (k' = k)) kinds).

Definition determine_instruction_type (kinds : list InstructionKind)
    (decoded_events : list DecodedTradeEvent) : string :=
  let has_buy := contains kinds KBuy in
  let has_sell := contains kinds KSell in
  if has_buy && has_sell then
    let '(buy_sol, sell_sol) :=
      foldl (fun bs ev =>
               if de_is_buy ev then (bs.1 ⊕ de_sol_amount ev, bs.2)
               else (bs.1, bs.2 ⊕ de_sol_amount ev)) (f_zero, f_zero) decoded_events in
    if buy_sol >. sell_sol then "Buy"
    else if sell_sol >. buy_sol then "Sell"
    else if (count_kind KSell kinds <=? count_kind KBuy kinds)%nat then "Buy" else "Sell"
  else if has_buy then "Buy"
  else if has_sell then "Sell"
  else if contains kinds KCreate then "Create"
  else if contains kinds KMigrate then "Migrate"
  else "Unknown".

Record FeeBudget := {
  fee_lamports : option Z;
  cu_limit : option Z;
  cu_price : option Z;
  tip_lamports : option Z
}.

(** [ComputeBudgetIx]: a tag, then its argument.  The reader fails on any other tag. *)
Inductive ComputeBudgetIx :=
  | Unused
  | RequestHeapFrame (n : Z)
  | SetComputeUnitLimit (n : Z)
  | SetComputeUnitPrice (n : Z)
  | SetLoadedAccountsDataSizeLimit (n : Z).

Definition read_compute_budget `{Codecs} (b : Bytes) : option ComputeBudgetIx :=
  '(tag, b) ← borsh_tag b;
  if tag =? 0 then Some Unused
  else if tag =? 1 then (fun r => RequestHeapFrame r.1) <$> borsh_u32 b
  else if tag =? 2 then (fun r => SetComputeUnitLimit r.1) <$> borsh_u32 b
  else if tag =? 3 then (fun r => SetComputeUnitPrice r.1) <$> borsh_u64 b
  else if tag =? 4 then (fun r => SetLoadedAccountsDataSizeLimit r.1) <$> borsh_u32 b
  else None.

Definition note_compute_budget `{Codecs} (f : FeeBudget) (is_compute_budget : bool) (data : Bytes)
    : FeeBudget :=
  if negb is_compute_budget then f
  else match read_compute_budget data with
       | Some (SetComputeUnitLimit u) =>
           {| fee_lamports := fee_lamports f; cu_limit := Some u; cu_price := cu_price f;
              tip_lamports := tip_lamports f |}
       | Some (SetComputeUnitPrice u) =>
           {| fee_lamports := fee_lamports f; cu_limit := cu_limit f; cu_price := Some u;
              tip_lamports := tip_lamports f |}
       | _ => f
       end.

Definition note_transfer (f : FeeBudget) (lamports : Z) (is_tip : bool) : FeeBudget :=
  let acc := unwrap_or (tip_lamports f) 0 in
  {| fee_lamports := fee_lamports f; cu_limit := cu_limit f; cu_price := cu_price f;
     tip_lamports := Some (if is_tip then sat_add u64_max acc lamports else acc) |}.

Definition system_transfer_lamports (is_system : bool) (b : Bytes) : option Z :=
  if negb is_system then None
  else if (length b <? 12)%nat || negb (bytes_eqb (take 4 b) [2; 0; 0; 0]) then None
  else Some (from_le (take 8 (drop 4 b))).

(** ** Token creation ([create.rs]) *)

Record DecodedCreateEvent := {
  dc_name : string;
  dc_symbol : string;
  dc_uri : string;
  dc_mint : string;
  dc_bonding_curve : option string;
  dc_user : string;
  dc_creator : string;
  dc_token_program : option string;
  dc_token_total_supply : Z;
  dc_is_mayhem_mode : bool;
  dc_is_cashback_enabled : bool;
  dc_quote_mint : Bytes
}.

(** [RawCreateEvent], read and turned into a [DecodedCreateEvent]. *)
Definition read_create_event `{Codecs} (b : Bytes) : option DecodedCreateEvent :=
  '(name, b) ← borsh_string b;
  '(symbol, b) ← borsh_string b;
  '(uri, b) ← borsh_string b;
  '(mint, b) ← borsh_key b;
  '(bonding_curve, b) ← borsh_key b;
  '(user, b) ← borsh_key b;
  '(creator, b) ← borsh_key b;
  '(timestamp, b) ← borsh_i64 b;
  '(virtual_token, b) ← borsh_u64 b;
  '(virtual_sol, b) ← borsh_u64 b;
  '(real_token, b) ← borsh_u64 b;
  '(token_total_supply, b) ← borsh_u64 b;
  '(token_program, b) ← borsh_key b;
  '(is_mayhem_mode, b) ← borsh_bool b;
  '(is_cashback_enabled, b) ← borsh_bool b;
  '(quote_mint, b) ← borsh_key b;
  '(virtual_quote, b) ← borsh_u64 b;
  Some {| dc_name := name; dc_symbol := symbol; dc_uri := uri;
          dc_mint := bs58_encode mint;
          dc_bonding_curve := Some (bs58_encode bonding_curve);
          dc_user := bs58_encode user;
          dc_creator := bs58_encode creator;
          dc_token_program := Some (bs58_encode token_program);
          dc_token_total_supply := token_total_supply;
          dc_is_mayhem_mode := is_mayhem_mode;
          dc_is_cashback_enabled := is_cashback_enabled;
          dc_quote_mint := quote_mint |}.

Definition log_create_event `{Codecs} (disc : Bytes) (log : string) : option DecodedCreateEvent :=
  bytes ← program_data log;
  if (length bytes <? 8)%nat || negb (bytes_eqb (take 8 bytes) disc) then None
  else read_create_event (drop 8 bytes).

Definition decode_create_events_from_logs `{Codecs} (logs : list string) (disc : Bytes)
    : list DecodedCreateEvent :=
  omap (log_create_event disc) logs.

(** The readers of the create instruction carry their offset. *)
Definition read_pubkey (data : Bytes) (offset : Z) : option (Bytes * Z) :=
  pk ← slice data offset (offset + 32);
  Some (pk, offset + 32).

Definition read_anchor_string (data : Bytes) (offset : Z) : option (string * Z) :=
  len_bytes ← slice data offset (offset + 4);
  let len := from_le len_bytes in
  let offset := offset + 4 in
  bs ← slice data offset (offset + len);
  s ← from_utf8 bs;
  Some (s, offset + len).

Record CreateInstructionInfo := {
  ci_name : string;
  ci_symbol : string;
  ci_uri : string;
  ci_creator : string;
  ci_is_v2 : bool;
  ci_is_mayhem_mode : bool;
  ci_is_cashback_enabled : bool
}.

Definition decode_create_info `{Codecs} (data : Bytes) (p : Protocol) : option CreateInstructionInfo :=
  if (length data <? 16)%nat then None
  else
    let d := discriminators p in
    let disc := take 8 data in
    let is_v2 := bytes_eqb disc (create_v2_ix d) in
    if negb (bytes_eqb disc (create_ix d)) && negb is_v2 then None
    else
      '(name, offset) ← read_anchor_string data 8;
      '(symbol, offset) ← read_anchor_string data offset;
      '(uri, offset) ← read_anchor_string data offset;
      '(pk, offset) ← read_pubkey data offset;
      let flag o := unwrap_or (data !! Z.to_nat o) 0 =? 1 in
      Some {| ci_name := name; ci_symbol := symbol; ci_uri := uri;
              ci_creator := bs58_encode pk;
              ci_is_v2 := is_v2;
              ci_is_mayhem_mode := is_v2 && flag offset;
              ci_is_cashback_enabled := is_v2 && flag (offset + 1) |}.

Definition INGEST_NON_SOL_QUOTE : bool := false.

Definition sol_quote_key : Bytes := replicate 32 0.

Definition nonempty (s : string) : bool := negb (bool_decide (s = EmptyString)).

Definition quote_mint_address `{Codecs} (create_log : option DecodedCreateEvent)
    (pump_accounts : list string) (wsol : string) : option string :=
  match create_log with
  | Some ev =>
      if bytes_eqb (dc_quote_mint ev) sol_quote_key then None
      else Some (bs58_encode (dc_quote_mint ev))
  | None =>
      match pump_accounts !! 16%nat with
      | Some q =>
          if nonempty q && negb (bool_decide (q = wsol))
             && negb (bool_decide (q = SYSTEM_PROGRAM_ID))
          then Some q else None
      | None => None
      end
  end.

(** [.filter(|s| !s.is_empty())]. *)
Definition if_nonempty (o : option string) : option string :=
  match o with Some s => if nonempty s then Some s else None | None => None end.

Definition pump_user_account (pump_accounts : list string) (is_v2 : bool) : option string :=
  if_nonempty (pump_accounts !! (if is_v2 then 5 else 7)%nat).

Definition resolve_creator_wallet (ix_info : option CreateInstructionInfo)
    (create_log : option DecodedCreateEvent) (pump_accounts : list string) (is_v2 : bool)
    (account_keys : list string) : string :=
  match create_log with
  | Some ev => dc_creator ev
  | None =>
      match if_nonempty (ci_creator <$> ix_info) with
      | Some c => c
      | None =>
          match pump_user_account pump_accounts is_v2 with
          | Some user => user
          | None => unwrap_or (if_nonempty (head account_keys)) EmptyString
          end
      end
  end.

(** What [decode_create] is told about its transaction. *)
Record CreateArgs := {
  ca_sig : string;
  ca_at_slot : Z;
  ca_at_block_time : Z;
  ca_at_received : Z;
  create_data : Bytes;
  ca_pump_accounts : list string;
  ca_account_keys : list string;
  ca_decoded : list DecodedTradeEvent;
  ca_created : list DecodedCreateEvent;
  ca_labels : list string;
  ca_cu_limit : option Z;
  ca_cu_price : option Z;
  ca_pump_datas : list Bytes
}.

(** A field of the create log, else of the instruction. *)
Definition from_either {A} (log : option DecodedCreateEvent) (ix : option CreateInstructionInfo)
    (f : DecodedCreateEvent -> A) (g : CreateInstructionInfo -> A) : option A :=
  or_else (f <$> log) (g <$> ix).

Definition token_created `{Codecs} (p : Protocol) (a : CreateArgs) (mint : string)
    (ix_info : option CreateInstructionInfo) (create_log : option DecodedCreateEvent)
    (quote_mint : option string) (is_v2 : bool) (creator : string) : TokenCreated :=
  let buy_user :=
    unwrap_or (or_else (dc_user <$> create_log)
                 (or_else (pump_user_account (ca_pump_accounts a) is_v2) (head (ca_account_keys a))))
      creator in
  let initial :=
    find_first (fun ev => de_is_buy ev && bool_decide (de_user ev = buy_user)
                          && bool_decide (de_mint ev = mint)) (ca_decoded a) in
  {| tc_mint := mint;
     tc_creator := creator;
     tc_name := unwrap_or (from_either create_log ix_info dc_name ci_name) "Unknown"%string;
     tc_symbol := unwrap_or (from_either create_log ix_info dc_symbol ci_symbol) "UNKNOWN"%string;
     tc_uri := if_nonempty (from_either create_log ix_info dc_uri ci_uri);
     token_program_id :=
       or_else (create_log ≫= dc_token_program)
         (Some (pid_base58 ((if is_v2 then token_2022_id else token_id) (programs p))));
     tc_bonding_curve := or_else (create_log ≫= dc_bonding_curve) (ca_pump_accounts a !! 2%nat);
     total_supply := dc_token_total_supply <$> create_log;
     initial_buy_tokens := de_token_amount <$> initial;
     initial_buy_sol := de_sol_amount <$> initial;
     initial_buy_instruction := first_buy_ix (ca_pump_datas a) p;
     tc_cu_limit := ca_cu_limit a;
     tc_cu_price := ca_cu_price a;
     tc_is_mayhem_mode :=
       unwrap_or (from_either create_log ix_info dc_is_mayhem_mode ci_is_mayhem_mode) false;
     tc_is_cashback_enabled :=
       unwrap_or (from_either create_log ix_info dc_is_cashback_enabled ci_is_cashback_enabled) false;
     tc_quote_mint := quote_mint;
     tc_labels := ca_labels a;
     tc_signature := ca_sig a;
     tc_slot := ca_at_slot a;
     tc_block_time := ca_at_block_time a;
     tc_received_at := ca_at_received a |}.

Definition decode_create `{Codecs} (p : Protocol) (a : CreateArgs) : list IngestEvent :=
  match if_nonempty (head (ca_pump_accounts a)) with
  | None => []
  | Some mint =>
      let ix_info := decode_create_info (create_data a) p in
      let create_log := find_first (fun e => bool_decide (dc_mint e = mint)) (ca_created a) in
      let quote_mint := quote_mint_address create_log (ca_pump_accounts a)
                          (pid_base58 (wsol_id (programs p))) in
      if is_someb quote_mint && negb INGEST_NON_SOL_QUOTE then []
      else
        let is_v2 :=
          map_or ix_info false ci_is_v2
          || is_some_and (create_log ≫= dc_token_program)
               (fun t => bool_decide (t = pid_base58 (token_2022_id (programs p)))) in
        let creator := resolve_creator_wallet ix_info create_log (ca_pump_accounts a) is_v2
                         (ca_account_keys a) in
        if negb (nonempty creator) then []
        else
          [EvTokenCreated (token_created p a mint ix_info create_log quote_mint is_v2 creator);
           EvCreatorActivity
             {| ca_creator := creator; ca_mint := mint; ca_signature := ca_sig a;
                ca_slot := ca_at_slot a; ca_block_time := ca_at_block_time a;
                ca_received_at := ca_at_received a |}]
  end.
