(* ===== verification/Decode.v ===== *)
(** * Decode: from a transaction frame to the events of the feed

    [decode/protobuf.rs], [decode/mod.rs], [pool.rs] and the queries of [venue.rs].  A
    [Decoder] is a state: a migration registers the pool of its coin.  Log lines the decoder
    writes are not modelled. *)

From S2P Require Export Swaps.
#[local] Open Scope Z_scope.

Inductive TxRelevance := RelCreate | RelCurve | RelAmm.

Definition is_curve (r : TxRelevance) : bool := match r with RelAmm => false | _ => true end.

Definition is_create_lane (r : TxRelevance) : bool := match r with RelCreate => true | _ => false end.

(** [DecodeOutput]. *)
Inductive DecodeOutput := Ignored | Events (l : list IngestEvent).

(** [pools_changed]: whether a wake-up is stored. *)
Record Decoder := {
  protocol : Protocol;
  pool_index : option (gmap string string);
  pools_changed : option bool
}.

(** ** The pool index ([pool.rs]) *)

Definition derive_pool `{Codecs} (mint : string) (p : Protocol) : option string :=
  mint_pk ← pubkey_from_str mint;
  pump_pk ← pubkey_from_str (pid_base58 (pump_fun_id (programs p)));
  swap_pk ← pubkey_from_str (pid_base58 (pump_swap_id (programs p)));
  wsol_pk ← pubkey_from_str (pid_base58 (wsol_id (programs p)));
  let authority := find_program_address [bytes_of "pool-authority"; mint_pk] pump_pk in
  let pool := find_program_address [bytes_of "pool"; le_bytes 2 0; authority; mint_pk; wsol_pk] swap_pk in
  Some (pubkey_to_string pool).

(** Whether the pool is new, and the index after. *)
Definition register_pool `{Codecs} (index : gmap string string) (mint : string) (p : Protocol)
    : bool * gmap string string :=
  match derive_pool mint p with
  | Some pool => (is_noneb (index !! pool), <[pool := mint]> index)
  | None => (false, index)
  end.

(** ** Classification *)

Definition contains_str (needle s : string) : bool := is_someb (split_once needle s).

Definition classify_logs (d : Decoder) (logs : list string) : option TxRelevance :=
  let pump_id := pid_base58 (pump_fun_id (programs (protocol d))) in
  let swap_id := pid_base58 (pump_swap_id (programs (protocol d))) in
  if existsb (contains_str pump_id) logs then Some RelCurve
  else if is_someb (pool_index d) && existsb (contains_str swap_id) logs then Some RelAmm
  else None.

Definition is_create_disc (data : Bytes) (p : Protocol) : bool :=
  starts_with data (create_ix (discriminators p)) || starts_with data (create_v2_ix (discriminators p)).

Definition opt_key_eqb (o : option Bytes) (k : Bytes) : bool := bool_decide (o = Some k).

Definition has_create_ix (p : Protocol) (message : Message) (meta : TransactionStatusMeta) : bool :=
  let is_pump ix := opt_key_eqb (key_at message meta (Z.to_nat (program_id_index ix)))
                      (pid_bytes (pump_fun_id (programs p))) in
  let creates ix := is_create_disc (ix_data ix) p && is_pump ix in
  existsb creates (instructions message)
  || existsb (fun group => existsb creates (inner_list group)) (inner_instructions meta).

(** One pass over the keys; [has_swap] is what was seen before [keys]. *)
Fixpoint classify_keys (pump swap : Bytes) (creates : bool) (has_swap : bool) (keys : list Bytes)
    : option TxRelevance :=
  match keys with
  | [] => if has_swap then Some RelAmm else None
  | key :: keys =>
      if bytes_eqb key pump then Some (if creates then RelCreate else RelCurve)
      else classify_keys pump swap creates (has_swap || bytes_eqb key swap) keys
  end.

Definition classify_accounts (d : Decoder) (info : SubscribeUpdateTransactionInfo)
    : option TxRelevance :=
  tx ← info_transaction info;
  message ← tx_message tx;
  meta ← info_meta info;
  let p := protocol d in
  classify_keys (pid_bytes (pump_fun_id (programs p))) (pid_bytes (pump_swap_id (programs p)))
    (has_create_ix p message meta) false (keys_new message meta).

Definition classify (d : Decoder) (update : SubscribeUpdateTransaction) : option TxRelevance :=
  info ← update_transaction update;
  classify_accounts d info.

(** ** Walks over the instructions *)

Definition runs (keys : list Bytes) (program : Bytes) (ix : CompiledInstruction) : bool :=
  opt_key_eqb (keys_raw keys (Z.to_nat (program_id_index ix))) program.

Definition find_program_pb_ixs (message : Message) (meta : TransactionStatusMeta)
    (keys : list Bytes) (program : Bytes) : list CompiledInstruction :=
  List.filter (runs keys program)
    (instructions message ++ (inner_instructions meta ≫= inner_list)).

(** The inner instructions of outer instruction [i]. *)
Definition inner_of (meta : TransactionStatusMeta) (i : nat) : list CompiledInstruction :=
  List.filter (fun g => inner_index g =? Z.of_nat i) (inner_instructions meta) ≫= inner_list.

(** Each outer instruction, then what it invoked. *)
Definition execution_order (message : Message) (meta : TransactionStatusMeta)
    : list CompiledInstruction :=
  imap (fun i ix => ix :: inner_of meta i) (instructions message) ≫= id.

Definition pump_ix_data_in_order (message : Message) (meta : TransactionStatusMeta)
    (keys : list Bytes) (program : Bytes) : list Bytes :=
  ix_data <$> List.filter (runs keys program) (execution_order message meta).

Definition inner_trade_event `{Codecs} (p : Protocol) (ix : CompiledInstruction)
    : option DecodedTradeEvent :=
  let bytes := ix_data ix in
  if (length bytes <? 16)%nat
     || negb (bytes_eqb (take 8 bytes) (anchor_event_cpi (discriminators p)))
     || negb (bytes_eqb (take 8 (drop 8 bytes)) (trade_event (discriminators p)))
  then None
  else decode_trade_event_body (drop 16 bytes) (lamports_per_sol p).

Definition decode_trade_events_from_inner_pb `{Codecs} (pump_ixs : list CompiledInstruction)
    (p : Protocol) : list DecodedTradeEvent :=
  omap (inner_trade_event p) pump_ixs.

Definition collect_kinds_pb (message : Message) (meta : TransactionStatusMeta) (keys : list Bytes)
    (p : Protocol) : list InstructionKind :=
  let pump := pid_bytes (pump_fun_id (programs p)) in
  omap (fun ix => classify_pump_ix (runs keys pump ix) (ix_data ix) p) (instructions message)
  ++ (inner_instructions meta ≫= fun group =>
        omap (fun ix => if runs keys pump ix then classify_pump_ix true (ix_data ix) p else None)
          (inner_list group)).

(** The fee facts of one top-level instruction. *)
Definition note_instruction `{Codecs} (keys : list Bytes) (p : Protocol) (f : FeeBudget)
    (ix : CompiledInstruction) : FeeBudget :=
  let f := note_compute_budget f (runs keys (pid_bytes (compute_budget_id (programs p))) ix)
             (ix_data ix) in
  match system_transfer_lamports (runs keys (pid_bytes (system_id (programs p))) ix) (ix_data ix) with
  | Some lamports =>
      let dest := i ← ix_accounts ix !! 1%nat; keys_raw keys (Z.to_nat i) in
      note_transfer f lamports (is_some_and dest (is_tip_account p))
  | None => f
  end.

Definition build_labels_pb `{Codecs} (message : Message) (meta : TransactionStatusMeta)
    (keys : list Bytes) (p : Protocol) : list string * FeeBudget :=
  ((fun ix => label_instruction (keys_get keys (Z.to_nat (program_id_index ix))) (Some (ix_data ix)) p)
     <$> instructions message,
   foldl (note_instruction keys p)
     {| fee_lamports := fee_lamports_opt (meta_fee meta); cu_limit := None; cu_price := None;
        tip_lamports := None |}
     (instructions message)).

Definition resolve_pump_accounts_pb `{Codecs} (ix : CompiledInstruction) (keys : list Bytes)
    : list string :=
  List.filter nonempty ((fun i => keys_get keys (Z.to_nat i)) <$> ix_accounts ix).

Definition is_migrate_pb (data : Bytes) (p : Protocol) : bool :=
  (8 <=? length data)%nat
  && (bytes_eqb (take 8 data) (migrate_ix (discriminators p))
      || bytes_eqb (take 8 data) (migrate_v2_ix (discriminators p))).

Definition should_consult_inner_events (log_event_count : nat) (logs_truncated : bool) : bool :=
  (log_event_count =? 0)%nat || logs_truncated.

(** The larger of the events of the logs and, when they may be incomplete, of the inner
    instructions. *)
Definition recovered {A} (from_logs : list A) (logs : list string) (inner : list A) : list A :=
  if should_consult_inner_events (length from_logs) (existsb (contains_str "Log truncated") logs)
     && (length from_logs <? length inner)%nat
  then inner else from_logs.

(** ** Building trades *)

(** What every leg of one transaction is stamped with. *)
Record TxStamp := {
  st_signature : string;
  st_index : Z;
  st_slot : Z;
  st_received_at : Z;
  st_labels : list string;
  st_budget : FeeBudget;
  st_net : option Z;
  st_sender : TxSender
}.

Definition price_of (amount : f64) (tokens : Z) : f64 :=
  if 0 <? tokens then amount ⊘ f_of_Z tokens else f_zero.

Definition side_of (is_buy : bool) : Side := if is_buy then Buy else Sell.
Definition side_text (is_buy : bool) : string := if is_buy then "Buy" else "Sell".

Definition curve_trade `{Codecs} (st : TxStamp) (leg : Z) (ev : DecodedTradeEvent)
    (args : option BuyInstructionArgs) : Trade := {|
  tr_mint := de_mint ev;
  wallet := de_user ev;
  tr_payer := payer (st_sender st);
  tr_is_proxied := is_proxied (st_sender st) (de_user ev);
  side := side_of (de_is_buy ev);
  sol := de_sol_amount ev;
  sol_lamports := de_sol_lamports ev;
  tokens := de_token_amount ev;
  price := price_of (de_sol_amount ev) (de_token_amount ev);
  tr_fee_lamports := fee_lamports (st_budget st);
  tr_cu_limit := cu_limit (st_budget st);
  tr_cu_price := cu_price (st_budget st);
  tr_tip_lamports := tip_lamports (st_budget st);
  payer_net_lamports := st_net st;
  venue_fee_bps := None;
  tr_signature := st_signature st;
  tx_index := st_index st;
  leg_index := leg;
  slot := st_slot st;
  block_time := st_received_at st;
  received_at := st_received_at st;
  reserves := {| virtual_sol := Some (de_virtual_sol ev);
                 virtual_token := Some (de_virtual_token ev);
                 real_sol := Some (de_real_sol ev);
                 real_token := Some (de_real_token ev);
                 virtual_sol_lamports := Some (de_virtual_sol_lamports ev);
                 real_sol_lamports := Some (de_real_sol_lamports ev) |};
  venue := Curve;
  instruction_type := side_text (de_is_buy ev);
  instruction_labels := st_labels st;
  amm_swap_accounts := None;
  curve_creator := de_curve_creator ev;
  swap_ix := args |}.

(** Step 3a: every event takes its buy, dust or not; dust is dropped. *)
Fixpoint curve_legs `{Codecs} (p : Protocol) (st : TxStamp) (buys : BuyCursor) (leg : Z)
    (evs : list DecodedTradeEvent) : list IngestEvent :=
  match evs with
  | [] => []
  | ev :: evs =>
      let '(args, buys) := cursor_take buys (de_is_buy ev) in
      let rest := curve_legs p st buys (leg + 1) evs in
      if de_sol_amount ev <. min_trade_sol p then rest
      else EvTrade (curve_trade st leg ev args) :: rest
  end.

(** *** From balances, when no event was decoded *)

Definition compute_sol_change_lamports (wallet : string) (account_keys : list string)
    (pre post : list Z) : Z :=
  match position_of (fun k => bool_decide (k = wallet)) account_keys with
  | Some idx => Z.abs (unwrap_or (pre !! idx) 0 - unwrap_or (post !! idx) 0)
  | None => 0
  end.

Definition compute_sol_change (wallet : string) (account_keys : list string) (pre post : list Z) : f64 :=
  f_of_Z (compute_sol_change_lamports wallet account_keys pre post) ⊘ f_of_Z 1000000000.

Definition token_amount_of (ata_idx : nat) (mint : string) (balances : list TokenBalance) : Z :=
  unwrap_or
    (tb ← find_first (fun tb => (account_index tb =? Z.of_nat ata_idx) && bool_decide (tb_mint tb = mint))
            balances;
     amount ← ui_amount_raw tb;
     parse_uint u64_max amount) 0.

Definition compute_token_change_pb (user_ata mint : string) (account_keys : list string)
    (pre post : list TokenBalance) : Z :=
  match position_of (fun k => bool_decide (k = user_ata)) account_keys with
  | Some idx => Z.abs (token_amount_of idx mint post - token_amount_of idx mint pre)
  | None => 0
  end.

Definition kind_side (kind : InstructionKind) : option Side :=
  match kind with KBuy => Some Buy | KSell => Some Sell | _ => None end.

Definition decode_trade_from_balances_pb `{Codecs} (p : Protocol) (st : TxStamp)
    (kind : InstructionKind) (pump_accounts account_keys : list string)
    (meta : TransactionStatusMeta) (args : option BuyInstructionArgs) : option IngestEvent :=
  mint ← if_nonempty (pump_accounts !! 2%nat);
  user ← if_nonempty (pump_accounts !! 6%nat);
  let user_ata := unwrap_or (pump_accounts !! 5%nat) EmptyString in
  bonding_curve ← if_nonempty (pump_accounts !! 3%nat);
  side ← kind_side kind;
  let sol_amount :=
    compute_sol_change bonding_curve account_keys (pre_balances meta) (post_balances meta) in
  let token_amount :=
    compute_token_change_pb user_ata mint account_keys (pre_token_balances meta)
      (post_token_balances meta) in
  if sol_amount <. min_trade_sol p then None
  else Some (EvTrade {|
    tr_mint := mint;
    wallet := user;
    tr_payer := payer (st_sender st);
    tr_is_proxied := is_proxied (st_sender st) user;
    side := side;
    sol := sol_amount;
    sol_lamports :=
      compute_sol_change_lamports bonding_curve account_keys (pre_balances meta) (post_balances meta);
    tokens := token_amount;
    price := price_of sol_amount token_amount;
    tr_fee_lamports := fee_lamports (st_budget st);
    tr_cu_limit := cu_limit (st_budget st);
    tr_cu_price := cu_price (st_budget st);
    tr_tip_lamports := tip_lamports (st_budget st);
    payer_net_lamports := st_net st;
    venue_fee_bps := None;
    tr_signature := st_signature st;
    tx_index := st_index st;
    leg_index := 0;
    slot := st_slot st;
    block_time := st_received_at st;
    received_at := st_received_at st;
    reserves := no_reserves;
    venue := Curve;
    instruction_type := match side with Buy => "Buy" | Sell => "Sell" end;
    instruction_labels := st_labels st;
    amm_swap_accounts := None;
    curve_creator := None;
    swap_ix := args |}).

(** Step 3b: the first buy or sell kind, on the first instruction of the program. *)
Definition balance_fallback `{Codecs} (p : Protocol) (st : TxStamp) (keys : list Bytes)
    (kinds : list InstructionKind) (pump_ixs : list CompiledInstruction)
    (meta : TransactionStatusMeta) : list IngestEvent :=
  match find_first (fun k => is_someb (kind_side k)) kinds, pump_ixs with
  | Some kind, pump_ix :: _ =>
      let args :=
        if bool_decide (kind = KBuy) then
          or_else (parse_buy_ix (ix_data pump_ix) p) (first_buy_ix (ix_data <$> pump_ixs) p)
        else None in
      option_list
        (decode_trade_from_balances_pb p st kind (resolve_pump_accounts_pb pump_ix keys)
           (keys_all keys) meta args)
  | _, _ => []
  end.

(** *** Migrations *)

Definition emit_migrate `{Codecs} (d : Decoder) (st : TxStamp) (pump_accounts : list string)
    : list IngestEvent * Decoder :=
  match if_nonempty (pump_accounts !! 2%nat) with
  | None => ([], d)
  | Some mint =>
      let d' :=
        match pool_index d with
        | Some index =>
            let '(fresh, index) := register_pool index mint (protocol d) in
            {| protocol := protocol d; pool_index := Some index;
               pools_changed := if fresh then (fun _ => true) <$> pools_changed d
                                else pools_changed d |}
        | None => d
        end in
      ([EvTokenMigrated {| tm_mint := mint; tm_signature := st_signature st; tm_slot := st_slot st;
                           tm_block_time := st_received_at st; tm_received_at := st_received_at st |}],
       d')
  end.

(** ** The curve decode *)

Definition event_rank (e : IngestEvent) : Z :=
  match e with EvTokenCreated _ => 0 | EvCreatorActivity _ => 1 | _ => 2 end.

Definition event_le (a b : IngestEvent) : bool := event_rank a <=? event_rank b.

Definition stamp_of `{Codecs} (p : Protocol) (info : SubscribeUpdateTransactionInfo)
    (message : Message) (meta : TransactionStatusMeta) (slot received_at : Z) : TxStamp :=
  let keys := keys_new message meta in
  let sender := sender_new keys message in
  let '(labels, budget) := build_labels_pb message meta keys p in
  {| st_signature := bs58_encode (info_signature info);
     st_index := wrap_u 32 (info_index info);
     st_slot := slot;
     st_received_at := received_at;
     st_labels := labels;
     st_budget := budget;
     st_net := net_lamports sender meta;
     st_sender := sender |}.

(** Steps 1a: the trade events, from the logs or the inner instructions. *)
Definition curve_events `{Codecs} (p : Protocol) (message : Message) (meta : TransactionStatusMeta)
    : list DecodedTradeEvent :=
  let keys := keys_new message meta in
  recovered
    (decode_trade_events_from_logs (log_messages meta) (trade_event (discriminators p))
       (lamports_per_sol p))
    (log_messages meta)
    (decode_trade_events_from_inner_pb
       (find_program_pb_ixs message meta keys (pid_bytes (pump_fun_id (programs p)))) p).

(** The coins this transaction creates with a quote that is not SOL. *)
Definition non_sol_mints (created : list DecodedCreateEvent) : list string :=
  dc_mint <$> List.filter (fun e => negb (bytes_eqb (dc_quote_mint e) sol_quote_key)) created.

Definition sol_events (non_sol : list string) (evs : list DecodedTradeEvent) : list DecodedTradeEvent :=
  List.filter (fun ev => negb (contains non_sol (de_mint ev))) evs.

(** Step 3c. *)
Definition create_events `{Codecs} (p : Protocol) (st : TxStamp) (keys : list Bytes)
    (pump_ixs : list CompiledInstruction) (evs : list DecodedTradeEvent)
    (created : list DecodedCreateEvent) : list IngestEvent :=
  match find_first (fun ix => is_create_disc (ix_data ix) p) pump_ixs with
  | Some ix =>
      decode_create p
        {| ca_sig := st_signature st; ca_at_slot := st_slot st;
           ca_at_block_time := st_received_at st; ca_at_received := st_received_at st;
           create_data := ix_data ix;
           ca_pump_accounts := resolve_pump_accounts_pb ix keys;
           ca_account_keys := keys_all keys;
           ca_decoded := evs; ca_created := created;
           ca_labels := st_labels st;
           ca_cu_limit := cu_limit (st_budget st); ca_cu_price := cu_price (st_budget st);
           ca_pump_datas := ix_data <$> pump_ixs |}
  | None => []
  end.

Definition decode_curve_pb `{Codecs} (d : Decoder) (info : SubscribeUpdateTransactionInfo)
    (message : Message) (meta : TransactionStatusMeta) (slot received_at : Z)
    : DecodeOutput * Decoder :=
  let p := protocol d in
  let pump := pid_bytes (pump_fun_id (programs p)) in
  let keys := keys_new message meta in
  let st := stamp_of p info message meta slot received_at in
  let created := decode_create_events_from_logs (log_messages meta) (create_event (discriminators p)) in
  let non_sol := non_sol_mints created in
  let evs := sol_events non_sol (curve_events p message meta) in
  let kinds := collect_kinds_pb message meta keys p in
  let pump_ixs := find_program_pb_ixs message meta keys pump in
  let buys := buy_ixs_in_order (pump_ix_data_in_order message meta keys pump) p in
  let legs := curve_legs p st buys 0 evs in
  let fallback :=
    match evs, non_sol with
    | [], [] => balance_fallback p st keys kinds pump_ixs meta
    | _, _ => []
    end in
  let creates := if contains kinds KCreate then create_events p st keys pump_ixs evs created else [] in
  let '(migrated, d) :=
    if contains kinds KMigrate then
      match find_first (fun ix => is_migrate_pb (ix_data ix) p) pump_ixs with
      | Some ix => emit_migrate d st (resolve_pump_accounts_pb ix keys)
      | None => ([], d)
      end
    else ([], d) in
  match legs ++ fallback ++ creates ++ migrated with
  | [] => (Ignored, d)
  | events => (Events (sort_by event_le events), d)
  end.

(** ** The AMM decode *)

Definition amm_events `{Codecs} (p : Protocol) (message : Message) (meta : TransactionStatusMeta)
    : list DecodedAmmTrade :=
  recovered (decode_pump_swap_trades_from_logs (log_messages meta) p) (log_messages meta)
    (decode_pump_swap_trades_from_inner
       (ix_data <$> find_program_pb_ixs message meta (keys_new message meta)
                      (pid_bytes (pump_swap_id (programs p)))) p).

(** The trades worth telling, each with the coin of its pool. *)
Definition resolve_trades (p : Protocol) (index : gmap string string) (trades : list DecodedAmmTrade)
    : list (DecodedAmmTrade * string) :=
  omap (fun ev => (fun mint => (ev, mint)) <$> index !! da_pool ev)
    (List.filter (fun ev => da_quote_amount ev >=. min_trade_sol p) trades).

(** The account lists of the top-level swaps on those pools, the first of each pool. *)
Definition harvest_step `{Codecs} (p : Protocol) (keys : list Bytes)
    (resolved : list (DecodedAmmTrade * string)) (harvested : list (string * list string))
    (ix : CompiledInstruction) : list (string * list string) :=
  let disc := take 8 (ix_data ix) in
  if negb (runs keys (pid_bytes (pump_swap_id (programs p))) ix) || (length (ix_data ix) <? 8)%nat
  then harvested
  else if negb (bytes_eqb disc (buy (discriminators p))) && negb (bytes_eqb disc (sell (discriminators p)))
  then harvested
  else match ix_accounts ix with
       | [] => harvested
       | pool_idx :: _ =>
           let pool := keys_get keys (Z.to_nat pool_idx) in
           if negb (nonempty pool)
              || existsb (fun h => bool_decide (h.1 = pool)) harvested
              || negb (existsb (fun r => bool_decide (da_pool r.1 = pool)) resolved)
           then harvested
           else harvested ++ [(pool, (fun i => keys_get keys (Z.to_nat i)) <$> ix_accounts ix)]
       end.

(** [mem::take] of the list of a pool, if it was not taken. *)
Fixpoint take_accounts (pool : string) (harvested : list (string * list string))
    : option (list string) * list (string * list string) :=
  match harvested with
  | [] => (None, [])
  | (q, l) :: rest =>
      if bool_decide (q = pool) && negb (bool_decide (l = [])) then (Some l, (q, []) :: rest)
      else let '(o, rest) := take_accounts pool rest in (o, (q, l) :: rest)
  end.

Definition build_amm_trade `{Codecs} (st : TxStamp) (leg : Z) (ev : DecodedAmmTrade) (mint : string)
    (accounts : option (list string)) : Trade := {|
  tr_mint := mint;
  wallet := da_user ev;
  tr_payer := payer (st_sender st);
  tr_is_proxied := is_proxied (st_sender st) (da_user ev);
  side := side_of (da_is_buy ev);
  sol := da_quote_amount ev;
  sol_lamports := da_quote_lamports ev;
  tokens := da_base_amount ev;
  price := price_of (da_quote_amount ev) (da_base_amount ev);
  tr_fee_lamports := fee_lamports (st_budget st);
  tr_cu_limit := cu_limit (st_budget st);
  tr_cu_price := cu_price (st_budget st);
  tr_tip_lamports := tip_lamports (st_budget st);
  payer_net_lamports := st_net st;
  venue_fee_bps := da_fee_bps ev;
  tr_signature := st_signature st;
  tx_index := st_index st;
  leg_index := leg;
  slot := st_slot st;
  block_time := st_received_at st;
  received_at := st_received_at st;
  reserves := {| virtual_sol := Some (da_pool_quote ev);
                 virtual_token := Some (da_pool_base ev);
                 real_sol := Some (da_pool_vault ev);
                 real_token := Some (da_pool_base ev);
                 virtual_sol_lamports := Some (da_pool_quote_lamports ev);
                 real_sol_lamports := Some (da_pool_vault_lamports ev) |};
  venue := Amm;
  instruction_type := side_text (da_is_buy ev);
  instruction_labels := st_labels st;
  amm_swap_accounts := accounts;
  curve_creator := None;
  swap_ix := None |}.

Fixpoint amm_legs `{Codecs} (st : TxStamp) (harvested : list (string * list string)) (leg : Z)
    (resolved : list (DecodedAmmTrade * string)) : list IngestEvent :=
  match resolved with
  | [] => []
  | (ev, mint) :: resolved =>
      let '(accounts, harvested) := take_accounts (da_pool ev) harvested in
      EvTrade (build_amm_trade st leg ev mint accounts) :: amm_legs st harvested (leg + 1) resolved
  end.

Definition decode_amm_live_pb `{Codecs} (d : Decoder) (info : SubscribeUpdateTransactionInfo)
    (message : Message) (meta : TransactionStatusMeta) (slot received_at : Z) : DecodeOutput :=
  match pool_index d with
  | None => Ignored
  | Some index =>
      let p := protocol d in
      let keys := keys_new message meta in
      let resolved := resolve_trades p index (amm_events p message meta) in
      match resolved with
      | [] => Ignored
      | _ =>
          let st := stamp_of p info message meta slot received_at in
          let harvested := foldl (harvest_step p keys resolved) [] (instructions message) in
          Events (amm_legs st harvested 0 resolved)
      end
  end.

(** ** The entry points *)

(** The parts a decode needs, all of them present. *)
Definition update_parts (update : SubscribeUpdateTransaction)
    : option (SubscribeUpdateTransactionInfo * Message * TransactionStatusMeta) :=
  info ← update_transaction update;
  tx ← info_transaction info;
  message ← tx_message tx;
  meta ← info_meta info;
  Some (info, message, meta).

Definition decode_relevant_pb `{Codecs} (d : Decoder) (update : SubscribeUpdateTransaction)
    (relevance : TxRelevance) (received_at : Z) : DecodeOutput * Decoder :=
  match update_parts update with
  | None => (Ignored, d)
  | Some (info, message, meta) =>
      if is_curve relevance then decode_curve_pb d info message meta (update_slot update) received_at
      else (decode_amm_live_pb d info message meta (update_slot update) received_at, d)
  end.

Definition decode_protobuf `{Codecs} (d : Decoder) (update : SubscribeUpdateTransaction)
    (received_at : Z) : DecodeOutput * Decoder :=
  match info ← update_transaction update; info_meta info with
  | None => (Ignored, d)
  | Some meta =>
      match classify_logs d (log_messages meta) with
      | Some rel => decode_relevant_pb d update rel received_at
      | None => (Ignored, d)
      end
  end.

Definition decode_amm_protobuf `{Codecs} (d : Decoder) (update : SubscribeUpdateTransaction)
    (received_at : Z) : DecodeOutput :=
  match update_parts update with
  | None => Ignored
  | Some (info, message, meta) =>
      decode_amm_live_pb d info message meta (update_slot update) received_at
  end.
