(* ===== verification/DecodeFacts.v ===== *)
(** * DecodeFacts: what the codecs promise, and the frames of a chain that keeps them

    The laws of the other crates' codecs as a class, the encoding of the events a program
    emits, and the lemmas on events, instruction walks and the order of a decode. *)

From S2P Require Export Decode.
#[local] Open Scope Z_scope.

(** ** Laws of the codecs *)

Class CodecLaws `{Codecs} := {
  base64_encode : Bytes -> string;
  base64_inverse b : base64_decode (base64_encode b) = Some b;
  bs58_inj k1 k2 : bs58_encode k1 = bs58_encode k2 -> k1 = k2;
  borsh_u64_le x rest : 0 <= x <= u64_max -> borsh_u64 (le_bytes 8 x ++ rest) = Some (x, rest);
  borsh_i64_le x rest : 0 <= x <= u64_max -> borsh_i64 (le_bytes 8 x ++ rest) = Some (as_i64 x, rest);
  borsh_bool_byte (b : bool) rest : borsh_bool ((if b then 1 else 0) :: rest) = Some (b, rest);
  borsh_key_raw k rest : length k = 32%nat -> borsh_key (k ++ rest) = Some (k, rest)
}.

(** The pump.fun descriptor: whatever base58 gives for the addresses. *)
Definition pump_like (p : Protocol) : Prop := discriminators p = pump_discriminators.

(** ** Encoded trade events *)

Definition u64 (x : Z) : Prop := 0 <= x <= u64_max.

Record raw_wf (r : RawTradeEvent) : Prop := {
  wf_mint : length (rt_mint r) = 32%nat;
  wf_user : length (rt_user r) = 32%nat;
  wf_amounts : Forall u64 [rt_sol_amount r; rt_token_amount r; rt_virtual_sol r; rt_virtual_token r;
                           rt_real_sol r; rt_real_token r];
  wf_time : i64_min <= rt_timestamp r <= i64_max
}.

Definition encode_trade_event (r : RawTradeEvent) : Bytes :=
  rt_mint r ++ le_bytes 8 (rt_sol_amount r) ++ le_bytes 8 (rt_token_amount r)
  ++ [if rt_is_buy r then 1 else 0] ++ rt_user r ++ le_bytes 8 (rt_timestamp r mod 2 ^ 64)
  ++ le_bytes 8 (rt_virtual_sol r) ++ le_bytes 8 (rt_virtual_token r)
  ++ le_bytes 8 (rt_real_sol r) ++ le_bytes 8 (rt_real_token r).

Lemma as_i64_mod x : i64_min <= x <= i64_max -> as_i64 (x mod 2 ^ 64) = x.
Proof.
  intros H. unfold as_i64. rewrite Zplus_mod_idemp_l.
  unfold i64_min, i64_max in H. rewrite Z.mod_small by lia. lia.
Qed.

Section with_codecs.
Context `{CodecLaws}.

Lemma trade_event_round_trip r tail lps :
  raw_wf r ->
  decode_trade_event_body (encode_trade_event r ++ tail) lps
  = Some (from_raw r lps (trailing_curve_creator tail)).
Proof.
  intros [Hm Hu Ha Ht]. repeat (apply Forall_cons in Ha as [? Ha]). unfold u64 in *.
  assert (0 <= rt_timestamp r mod 2 ^ 64 <= u64_max)
    by (pose proof (Z.mod_pos_bound (rt_timestamp r) (2 ^ 64)); unfold u64_max; lia).
  unfold decode_trade_event_body, read_trade_event, encode_trade_event. rewrite <- !app_assoc.
  rewrite borsh_key_raw by done. cbn [mbind option_bind].
  do 2 (rewrite borsh_u64_le by done; cbn [mbind option_bind]).
  cbn [app]. rewrite borsh_bool_byte. cbn [mbind option_bind].
  rewrite borsh_key_raw by done. cbn [mbind option_bind].
  rewrite borsh_i64_le, as_i64_mod by done. cbn [mbind option_bind].
  do 4 (rewrite borsh_u64_le by done; cbn [mbind option_bind]).
  by destruct r.
Qed.

(** ** Executed swaps, and the frames that carry them *)

(** A swap: its instruction, the event it emitted, and what follows the event's prefix. *)
Record Swap := { sw_ix : Bytes; sw_event : RawTradeEvent; sw_tail : Bytes }.

Definition sw_body (s : Swap) : Bytes := encode_trade_event (sw_event s) ++ sw_tail s.

Definition decoded (p : Protocol) (s : Swap) : DecodedTradeEvent :=
  from_raw (sw_event s) (lamports_per_sol p) (trailing_curve_creator (sw_tail s)).

Definition swap_wf (p : Protocol) (s : Swap) : Prop :=
  raw_wf (sw_event s) /\ is_buy_disc (sw_ix s) p = rt_is_buy (sw_event s).

Lemma take_app_eight (d b : Bytes) : length d = 8%nat -> take 8 (d ++ b) = d /\ drop 8 (d ++ b) = b.
Proof. intros E. rewrite <- E. by rewrite take_app_length, drop_app_length. Qed.

Lemma bytes_eqb_refl b : bytes_eqb b b = true.
Proof. by apply bool_decide_eq_true. Qed.

Lemma bytes_eqb_eq a b : bytes_eqb a b = true <-> a = b.
Proof. apply bool_decide_eq_true. Qed.

(** *** What carries the events: log lines and self-calls, among lines and instructions that
    carry none *)

Section carriers.
Context {S T : Type} (event : S -> Bytes) (is_event : Bytes -> Prop).

Definition event_line (s : S) : string := "Program data: " +:+ base64_encode (event s).

Inductive log_lines : list string -> list S -> Prop :=
  | lines_done : log_lines [] []
  | lines_other l logs swaps :
      (forall b, program_data l = Some b -> ~ is_event b) ->
      log_lines logs swaps -> log_lines (l :: logs) swaps
  | lines_event s logs swaps :
      log_lines logs swaps -> log_lines (event_line s :: logs) (s :: swaps).

Lemma event_line_data s : program_data (event_line s) = Some (event s).
Proof.
  unfold program_data, event_line. rewrite strip_prefix_app. cbn [mbind option_bind].
  apply base64_inverse.
Qed.

Lemma log_lines_decode (wf : S -> Prop) (f : string -> option T) (g : S -> T) logs swaps :
  (forall s, wf s -> f (event_line s) = Some (g s)) ->
  (forall l, (forall b, program_data l = Some b -> ~ is_event b) -> f l = None) ->
  log_lines logs swaps -> Forall wf swaps -> omap f logs = g <$> swaps.
Proof.
  intros Hev Hno. induction 1 as [|l logs swaps Hl _ IH|s logs swaps _ IH]; intros Hwf;
    cbn [omap list_omap]; [done| |].
  - by rewrite Hno, IH.
  - apply Forall_cons in Hwf as [Hs Hwf]. by rewrite Hev, IH.
Qed.

Context (p : Protocol).

Definition self_call (s : S) : Bytes := anchor_event_cpi (discriminators p) ++ event s.

Inductive self_calls : list Bytes -> list S -> Prop :=
  | calls_done : self_calls [] []
  | calls_other data datas swaps :
      (forall b, data = anchor_event_cpi (discriminators p) ++ b -> ~ is_event b) ->
      self_calls datas swaps -> self_calls (data :: datas) swaps
  | calls_event s datas swaps :
      self_calls datas swaps -> self_calls (self_call s :: datas) (s :: swaps).

Lemma self_calls_decode (wf : S -> Prop) (f : Bytes -> option T) (g : S -> T) datas swaps :
  (forall s, wf s -> f (self_call s) = Some (g s)) ->
  (forall data, (forall b, data = anchor_event_cpi (discriminators p) ++ b -> ~ is_event b) -> f data = None) ->
  self_calls datas swaps -> Forall wf swaps -> omap f datas = g <$> swaps.
Proof.
  intros Hev Hno. induction 1 as [|data datas swaps Hl _ IH|s datas swaps _ IH]; intros Hwf;
    cbn [omap list_omap]; [done| |].
  - by rewrite Hno, IH.
  - apply Forall_cons in Hwf as [Hs Hwf]. by rewrite Hev, IH.
Qed.
End carriers.

(** *** Curve events *)

Definition curve_event (p : Protocol) (s : Swap) : Bytes := trade_event (discriminators p) ++ sw_body s.

Definition is_curve_event (p : Protocol) (b : Bytes) : Prop :=
  exists body, b = trade_event (discriminators p) ++ body.

Lemma prefix_of_take (b d : Bytes) n : bytes_eqb (take n b) d = true -> b = d ++ drop n b.
Proof. intros E%bytes_eqb_eq. by rewrite <- E, take_drop. Qed.

Lemma log_trade_event_line p s :
  pump_like p -> swap_wf p s ->
  log_trade_event (trade_event (discriminators p)) (lamports_per_sol p) (event_line (curve_event p) s)
  = Some (decoded p s).
Proof.
  intros Hp [Hr _]. unfold log_trade_event. rewrite event_line_data. cbn [mbind option_bind].
  assert (E8 : length (trade_event (discriminators p)) = 8%nat) by (by rewrite Hp).
  unfold curve_event. destruct (take_app_eight _ (sw_body s) E8) as [-> ->].
  rewrite length_app, E8, bytes_eqb_refl. cbn [Nat.ltb Nat.leb Nat.add orb negb].
  by apply trade_event_round_trip.
Qed.

Lemma log_trade_event_other p l :
  (forall b, program_data l = Some b -> ~ is_curve_event p b) ->
  log_trade_event (trade_event (discriminators p)) (lamports_per_sol p) l = None.
Proof.
  intros Hl. unfold log_trade_event. destruct (program_data l) as [b|]; [|done].
  cbn [mbind option_bind]. destruct (_ || _) eqn:E; [done|].
  apply orb_false_iff in E as [_ E%negb_false_iff%prefix_of_take]. destruct (Hl b); [done|by eexists].
Qed.

Definition inner_event (p : Protocol) (data : Bytes) : option DecodedTradeEvent :=
  inner_trade_event p {| program_id_index := 0; ix_accounts := []; ix_data := data |}.

Lemma inner_trade_event_call p s :
  pump_like p -> swap_wf p s -> inner_event p (self_call (curve_event p) p s) = Some (decoded p s).
Proof.
  intros Hp [Hr _]. unfold inner_event, inner_trade_event, self_call, curve_event. cbn [ix_data].
  assert (E8 : length (trade_event (discriminators p)) = 8%nat) by (by rewrite Hp).
  assert (A8 : length (anchor_event_cpi (discriminators p)) = 8%nat) by (by rewrite Hp).
  destruct (take_app_eight _ (trade_event (discriminators p) ++ sw_body s) A8) as [-> Hd].
  change 16%nat with (8 + 8)%nat. rewrite <- drop_drop, Hd.
  destruct (take_app_eight _ (sw_body s) E8) as [-> ->].
  rewrite !length_app, E8, A8, !bytes_eqb_refl. cbn [Nat.ltb Nat.leb Nat.add orb negb].
  by apply trade_event_round_trip.
Qed.

Lemma inner_trade_event_other p data :
  (forall b, data = anchor_event_cpi (discriminators p) ++ b -> ~ is_curve_event p b) ->
  inner_event p data = None.
Proof.
  intros Hd. unfold inner_event, inner_trade_event. cbn [ix_data]. destruct (_ || _) eqn:E; [done|].
  apply orb_false_iff in E as [[_ E1]%orb_false_iff E2].
  apply negb_false_iff, prefix_of_take in E1, E2. destruct (Hd _ E1). by eexists.
Qed.

Lemma inner_events_by_data ixs p :
  decode_trade_events_from_inner_pb ixs p = omap (inner_event p) (ix_data <$> ixs).
Proof.
  unfold decode_trade_events_from_inner_pb. induction ixs as [|ix ixs IH]; [done|].
  cbn [fmap list_fmap omap list_omap]. by rewrite IH.
Qed.
(** *** PumpSwap events *)

(** A pool swap: its event, the amounts of the event nobody reads, and what follows it. *)
Inductive PoolSwap :=
  | SwapBuy (e : RawPumpSwapBuyEvent) (unread : nat -> Z) (tail : Bytes)
  | SwapSell (e : RawPumpSwapSellEvent) (unread : nat -> Z) (tail : Bytes).

Definition encode_pool_event (base pool_base pool_quote quote lp user_quote : Z) (pool user : Bytes)
    (o : nat -> Z) : Bytes :=
  le_bytes 8 (o 0%nat) ++ le_bytes 8 base ++ le_bytes 8 (o 1%nat) ++ le_bytes 8 (o 2%nat)
  ++ le_bytes 8 (o 3%nat) ++ le_bytes 8 pool_base ++ le_bytes 8 pool_quote ++ le_bytes 8 quote
  ++ le_bytes 8 (o 4%nat) ++ le_bytes 8 (o 5%nat) ++ le_bytes 8 (o 6%nat) ++ le_bytes 8 (o 7%nat)
  ++ le_bytes 8 lp ++ le_bytes 8 user_quote ++ pool ++ user.

Definition pool_event (p : Protocol) (s : PoolSwap) : Bytes :=
  match s with
  | SwapBuy e o tail =>
      pump_swap_buy_event (discriminators p)
      ++ encode_pool_event (base_amount_out e) (buy_pool_base e) (buy_pool_quote e) (quote_amount_in e)
           (quote_amount_in_with_lp_fee e) (user_quote_amount_in e) (buy_pool e) (buy_user e) o ++ tail
  | SwapSell e o tail =>
      pump_swap_sell_event (discriminators p)
      ++ encode_pool_event (base_amount_in e) (sell_pool_base e) (sell_pool_quote e) (quote_amount_out e)
           (quote_amount_out_without_lp_fee e) (user_quote_amount_out e) (sell_pool e) (sell_user e) o
      ++ tail
  end.

Definition is_pool_event (p : Protocol) (b : Bytes) : Prop :=
  exists body, b = pump_swap_buy_event (discriminators p) ++ body
               \/ b = pump_swap_sell_event (discriminators p) ++ body.

Definition pool_trade (p : Protocol) (s : PoolSwap) : DecodedAmmTrade :=
  match s with
  | SwapBuy e _ _ => amm_buy_trade e (lamports_per_sol p)
  | SwapSell e _ _ => amm_sell_trade e (lamports_per_sol p)
  end.

Definition pool_swap_wf (s : PoolSwap) : Prop :=
  match s with
  | SwapBuy e o _ =>
      Forall u64 [base_amount_out e; buy_pool_base e; buy_pool_quote e; quote_amount_in e;
                  quote_amount_in_with_lp_fee e; user_quote_amount_in e]
      /\ (forall i, u64 (o i)) /\ length (buy_pool e) = 32%nat /\ length (buy_user e) = 32%nat
  | SwapSell e o _ =>
      Forall u64 [base_amount_in e; sell_pool_base e; sell_pool_quote e; quote_amount_out e;
                  quote_amount_out_without_lp_fee e; user_quote_amount_out e]
      /\ (forall i, u64 (o i)) /\ length (sell_pool e) = 32%nat /\ length (sell_user e) = 32%nat
  end.

Ltac read_amounts Ho :=
  rewrite borsh_i64_le by apply Ho; cbn [mbind option_bind];
  do 13 (rewrite borsh_u64_le by (apply Ho || assumption); cbn [mbind option_bind]);
  do 2 (rewrite borsh_key_raw by assumption; cbn [mbind option_bind]).

Lemma read_buy_event_encoded e o tail :
  pool_swap_wf (SwapBuy e o tail) ->
  read_buy_event
    (encode_pool_event (base_amount_out e) (buy_pool_base e) (buy_pool_quote e) (quote_amount_in e)
       (quote_amount_in_with_lp_fee e) (user_quote_amount_in e) (buy_pool e) (buy_user e) o ++ tail)
  = Some e.
Proof.
  intros (Ha & Ho & Hp & Hu). repeat (apply Forall_cons in Ha as [? Ha]). unfold u64 in *.
  unfold read_buy_event, encode_pool_event. rewrite <- !app_assoc. read_amounts Ho. by destruct e.
Qed.

Lemma read_sell_event_encoded e o tail :
  pool_swap_wf (SwapSell e o tail) ->
  read_sell_event
    (encode_pool_event (base_amount_in e) (sell_pool_base e) (sell_pool_quote e) (quote_amount_out e)
       (quote_amount_out_without_lp_fee e) (user_quote_amount_out e) (sell_pool e) (sell_user e) o ++ tail)
  = Some e.
Proof.
  intros (Ha & Ho & Hp & Hu). repeat (apply Forall_cons in Ha as [? Ha]). unfold u64 in *.
  unfold read_sell_event, encode_pool_event. rewrite <- !app_assoc. read_amounts Ho. by destruct e.
Qed.

Lemma amm_event_encoded p s :
  pump_like p -> pool_swap_wf s ->
  (8 <= length (pool_event p s))%nat
  /\ amm_event p (take 8 (pool_event p s)) (drop 8 (pool_event p s)) = Some (pool_trade p s).
Proof.
  intros Hp Hs.
  assert (B8 : length (pump_swap_buy_event (discriminators p)) = 8%nat) by (by rewrite Hp).
  assert (S8 : length (pump_swap_sell_event (discriminators p)) = 8%nat) by (by rewrite Hp).
  split; [destruct s; cbn [pool_event]; rewrite length_app, ?B8, ?S8; lia|].
  destruct s as [e o tail|e o tail]; cbn [pool_event pool_trade].
  - destruct (take_app_eight _ (encode_pool_event (base_amount_out e) (buy_pool_base e) (buy_pool_quote e)
      (quote_amount_in e) (quote_amount_in_with_lp_fee e) (user_quote_amount_in e) (buy_pool e) (buy_user e) o
      ++ tail) B8) as [-> ->].
    unfold amm_event. rewrite bytes_eqb_refl. by rewrite read_buy_event_encoded.
  - destruct (take_app_eight _ (encode_pool_event (base_amount_in e) (sell_pool_base e) (sell_pool_quote e)
      (quote_amount_out e) (quote_amount_out_without_lp_fee e) (user_quote_amount_out e) (sell_pool e)
      (sell_user e) o ++ tail) S8) as [-> ->].
    unfold amm_event. rewrite bytes_eqb_refl.
    replace (bytes_eqb (pump_swap_sell_event (discriminators p)) (pump_swap_buy_event (discriminators p)))
      with false by (by rewrite Hp).
    by rewrite read_sell_event_encoded.
Qed.

Lemma amm_event_other p b :
  ~ is_pool_event p b -> amm_event p (take 8 b) (drop 8 b) = None.
Proof.
  intros Hb. unfold amm_event.
  destruct (bytes_eqb _ _) eqn:E1; [apply prefix_of_take in E1; destruct Hb; eexists; by left|].
  destruct (bytes_eqb _ (pump_swap_sell_event _)) eqn:E2; [|done].
  apply prefix_of_take in E2. destruct Hb. eexists. by right.
Qed.

Lemma log_amm_trade_line p s :
  pump_like p -> pool_swap_wf s -> log_amm_trade p (event_line (pool_event p) s) = Some (pool_trade p s).
Proof.
  intros Hp Hs. unfold log_amm_trade. rewrite event_line_data. cbn [mbind option_bind].
  destruct (amm_event_encoded p s Hp Hs) as [Hl ->].
  by rewrite (proj2 (Nat.ltb_ge _ _)).
Qed.

Lemma log_amm_trade_other p l :
  (forall b, program_data l = Some b -> ~ is_pool_event p b) -> log_amm_trade p l = None.
Proof.
  intros Hl. unfold log_amm_trade. destruct (program_data l) as [b|]; [|done].
  cbn [mbind option_bind]. destruct (_ <? _)%nat; [done|]. by apply amm_event_other, Hl.
Qed.

Lemma inner_amm_trade_call p s :
  pump_like p -> pool_swap_wf s ->
  inner_amm_trade p (self_call (pool_event p) p s) = Some (pool_trade p s).
Proof.
  intros Hp Hs. unfold inner_amm_trade, self_call.
  assert (A8 : length (anchor_event_cpi (discriminators p)) = 8%nat) by (by rewrite Hp).
  destruct (take_app_eight _ (pool_event p s) A8) as [-> Hd].
  change 16%nat with (8 + 8)%nat. rewrite <- drop_drop, Hd, bytes_eqb_refl.
  destruct (amm_event_encoded p s Hp Hs) as [Hl ->].
  rewrite length_app, A8, (proj2 (Nat.ltb_ge _ _)) by lia. done.
Qed.

Lemma inner_amm_trade_other p data :
  (forall b, data = anchor_event_cpi (discriminators p) ++ b -> ~ is_pool_event p b) ->
  inner_amm_trade p data = None.
Proof.
  intros Hd. unfold inner_amm_trade. destruct (_ || _) eqn:E; [done|].
  apply orb_false_iff in E as [_ E%negb_false_iff%prefix_of_take].
  change 16%nat with (8 + 8)%nat. rewrite <- drop_drop. by apply amm_event_other, Hd.
Qed.
End with_codecs.

(** ** Recovering the events a validator cut from the logs *)

Lemma recovered_is_complete {A} (full : list A) n logs :
  (n < length full -> existsb (contains_str "Log truncated") logs = true)%nat ->
  recovered (take n full) logs full = full.
Proof.
  intros Hcut. unfold recovered, should_consult_inner_events. rewrite length_take.
  destruct (decide (n < length full)%nat) as [Hn|Hn].
  - rewrite (Hcut Hn), orb_true_r. cbn [andb].
    destruct (_ <? _)%nat eqn:E; [done|]. apply Nat.ltb_ge in E. lia.
  - rewrite take_ge by lia. by destruct (_ && _).
Qed.

(** ** The order of a decode *)

Definition as_trade (e : IngestEvent) : option Trade :=
  match e with EvTrade t => Some t | _ => None end.

Definition events_of (o : DecodeOutput) : list IngestEvent :=
  match o with Ignored => [] | Events l => l end.

Definition trades_of (o : DecodeOutput) : list Trade := omap as_trade (events_of o).

Lemma insert_keeps_trades e l :
  omap as_trade (insert_le event_le e l) = omap as_trade l ++ omap as_trade [e].
Proof.
  induction l as [|x l IH]; [done|]. cbn [insert_le].
  destruct (event_le x e) eqn:E.
  - cbn [omap list_omap] in *. rewrite IH. by destruct (as_trade x).
  - assert (as_trade e = None) as He.
    { destruct e; [done| | |done]; exfalso; unfold event_le in E; by destruct x. }
    cbn [omap list_omap]. rewrite He. by rewrite app_nil_r.
Qed.

Lemma sort_keeps_trades l : omap as_trade (sort_by event_le l) = omap as_trade l.
Proof.
  unfold sort_by. change (omap as_trade l) with (omap as_trade [] ++ omap as_trade l).
  generalize (@nil IngestEvent) at 1 2. induction l as [|e l IH]; intros acc; cbn [foldl].
  - by rewrite app_nil_r.
  - rewrite IH, insert_keeps_trades, <- app_assoc. f_equal. cbn [omap list_omap].
    by destruct (as_trade e).
Qed.

Lemma event_le_total a b : event_le a b = true \/ event_le b a = true.
Proof. unfold event_le. rewrite !Z.leb_le. lia. Qed.

Lemma event_le_trans a b c : event_le a b = true -> event_le b c = true -> event_le a c = true.
Proof. unfold event_le. rewrite !Z.leb_le. lia. Qed.

(** ** The parts of a curve decode that tell no trade *)

Section parts.
Context `{Codecs}.

Lemma decode_create_tells_no_trade p a : omap as_trade (decode_create p a) = [].
Proof.
  unfold decode_create. destruct (if_nonempty _); [|done]. cbv zeta.
  by repeat case_match.
Qed.

Lemma create_events_tell_no_trade p st keys ixs evs created :
  omap as_trade (create_events p st keys ixs evs created) = [].
Proof. unfold create_events. case_match; [apply decode_create_tells_no_trade|done]. Qed.

Lemma emit_migrate_tells_no_trade d st accounts : omap as_trade (emit_migrate d st accounts).1 = [].
Proof. unfold emit_migrate. by repeat case_match. Qed.

(** The legs of the events, and the one of the fallback. *)
Definition curve_part (d : Decoder) (info : SubscribeUpdateTransactionInfo) (message : Message)
    (meta : TransactionStatusMeta) (slot received_at : Z) : list IngestEvent :=
  let p := protocol d in
  let pump := pid_bytes (pump_fun_id (programs p)) in
  let keys := keys_new message meta in
  let st := stamp_of p info message meta slot received_at in
  let non_sol := non_sol_mints
    (decode_create_events_from_logs (log_messages meta) (create_event (discriminators p))) in
  let evs := sol_events non_sol (curve_events p message meta) in
  curve_legs p st (buy_ixs_in_order (pump_ix_data_in_order message meta keys pump) p) 0 evs
  ++ match evs, non_sol with
     | [], [] => balance_fallback p st keys (collect_kinds_pb message meta keys p)
                   (find_program_pb_ixs message meta keys pump) meta
     | _, _ => []
     end.

Lemma trades_of_curve d info message meta slot received_at :
  trades_of (decode_curve_pb d info message meta slot received_at).1
  = omap as_trade (curve_part d info message meta slot received_at).
Proof.
  unfold decode_curve_pb, curve_part. cbv zeta.
  set (creates := if contains _ KCreate then _ else _).
  set (m := if contains _ KMigrate then _ else _).
  assert (Hc : omap as_trade creates = []).
  { subst creates. case_match; [apply create_events_tell_no_trade|done]. }
  assert (Hm : omap as_trade m.1 = []).
  { subst m. repeat case_match; try done; apply emit_migrate_tells_no_trade. }
  destruct m as [migrated d']. cbn [fst] in Hm.
  match goal with |- context [?legs ++ ?fallback ++ creates ++ migrated] =>
    assert (E : omap as_trade (legs ++ fallback ++ creates ++ migrated)
                = omap as_trade (legs ++ fallback))
      by (rewrite !omap_app, Hc, Hm; by rewrite !app_nil_r)
  end.
  rewrite <- E. destruct (_ ++ _ ++ creates ++ _) as [|e l]; [done|]. apply sort_keeps_trades.
Qed.

Definition create_part (d : Decoder) (info : SubscribeUpdateTransactionInfo) (message : Message)
    (meta : TransactionStatusMeta) (slot received_at : Z) : list IngestEvent :=
  let p := protocol d in
  let keys := keys_new message meta in
  let created := decode_create_events_from_logs (log_messages meta) (create_event (discriminators p)) in
  create_events p (stamp_of p info message meta slot received_at) keys
    (find_program_pb_ixs message meta keys (pid_bytes (pump_fun_id (programs p))))
    (sol_events (non_sol_mints created) (curve_events p message meta)) created.

Lemma curve_legs_are_trades p st buys leg evs :
  Forall (fun e => is_Some (as_trade e)) (curve_legs p st buys leg evs).
Proof.
  revert buys leg. induction evs as [|ev evs IH]; intros buys leg; cbn [curve_legs]; [constructor|].
  destruct (cursor_take _ _) as [args buys']. destruct (_ <. _); [done|]. constructor; [by eexists|done].
Qed.

Lemma fallback_is_trades p st keys kinds ixs meta :
  Forall (fun e => is_Some (as_trade e)) (balance_fallback p st keys kinds ixs meta).
Proof.
  unfold balance_fallback. destruct (find_first _ _), ixs as [|ix ixs]; try constructor.
  unfold decode_trade_from_balances_pb. cbv zeta.
  destruct (if_nonempty (_ !! 2%nat)); [|constructor]. cbn [mbind option_bind].
  destruct (if_nonempty (_ !! 6%nat)); [|constructor]. cbn [mbind option_bind].
  destruct (if_nonempty (_ !! 3%nat)); [|constructor]. cbn [mbind option_bind].
  destruct (kind_side _); [|constructor]. cbn [mbind option_bind].
  destruct (_ <. _); [constructor|]. cbn [option_list]. constructor; [by eexists|constructor].
Qed.

Lemma emit_migrate_event d st accounts e :
  e ∈ (emit_migrate d st accounts).1 -> exists m, e = EvTokenMigrated m.
Proof.
  unfold emit_migrate. destruct (if_nonempty _) as [mint|]; [|by intros ?%elem_of_nil].
  cbn [fst]. intros ->%list_elem_of_singleton. by eexists.
Qed.

(** Whatever a curve decode tells is a trade of its curve part, of its creation, or a
    migration. *)
Lemma curve_output_cases d info message meta slot received_at e :
  e ∈ events_of (decode_curve_pb d info message meta slot received_at).1 ->
  e ∈ curve_part d info message meta slot received_at
  \/ e ∈ create_part d info message meta slot received_at
  \/ exists m, e = EvTokenMigrated m.
Proof.
  unfold decode_curve_pb, curve_part, create_part. cbv zeta.
  set (creates := create_events _ _ _ _ _ _).
  set (m := if contains _ KMigrate then _ else _).
  assert (Hm : forall e, e ∈ m.1 -> exists m, e = EvTokenMigrated m).
  { intros e0. subst m. destruct (contains _ KMigrate); [|by intros ?%elem_of_nil].
    destruct (find_first _ _); [apply emit_migrate_event|by intros ?%elem_of_nil]. }
  destruct m as [migrated d']. cbn [fst] in Hm. intros He.
  match type of He with context [?legs ++ ?fallback ++ ?c ++ migrated] =>
    assert (Hin : e ∈ legs ++ fallback ++ c ++ migrated)
  end.
  { destruct (_ ++ _) as [|e0 l]; cbn [fst events_of] in He; [by apply elem_of_nil in He|].
    by rewrite sort_by_perm in He. }
  clear He. rewrite elem_of_app. rewrite !elem_of_app in Hin.
  destruct Hin as [Hl|[Hf|[Hc|Hmi]]]; [by do 2 left|by left; right| |right; right; by apply Hm].
  right; left. destruct (contains _ KCreate); [done|]. by apply elem_of_nil in Hc.
Qed.

Lemma curve_part_is_trades d info message meta slot received_at :
  Forall (fun e => is_Some (as_trade e)) (curve_part d info message meta slot received_at).
Proof.
  unfold curve_part. cbv zeta. apply Forall_app. split; [apply curve_legs_are_trades|].
  case_match; [case_match; [apply fallback_is_trades|constructor]|constructor].
Qed.
End parts.

(** ** Creates *)

Lemma starts_with_eight data d : length d = 8%nat -> starts_with data d = bytes_eqb (take 8 data) d.
Proof. intros E. unfold starts_with. by rewrite E. Qed.

Lemma create_disc_is_the_create_kind p data :
  pump_like p -> is_create_disc data p = true <-> classify_pump_ix true data p = Some KCreate.
Proof.
  intros Hp. unfold is_create_disc, classify_pump_ix. rewrite Hp, !starts_with_eight by done.
  cbn [negb]. destruct (length data <? 8)%nat eqn:E.
  - split; [|done]. intros [Hd|Hd]%orb_true_iff; apply bytes_eqb_eq in Hd;
      apply (f_equal length) in Hd; rewrite length_take in Hd; cbn [length] in Hd;
      apply Nat.ltb_lt in E; unfold pump_discriminators in Hd; cbn [length create_ix create_v2_ix] in Hd; lia.
  - clear E. generalize (take 8 data). intros t. split.
    + by intros [->%bytes_eqb_eq| ->%bytes_eqb_eq]%orb_true_iff.
    + intros [= Hk]. destruct (_ || _) in Hk; [done|]. destruct (_ || _) in Hk; [done|].
      by destruct (_ || _) in Hk |- *; [|destruct (_ || _) in Hk].
Qed.

Lemma has_create_is_the_create_kind p message meta :
  pump_like p ->
  has_create_ix p message meta = true
  <-> KCreate ∈ collect_kinds_pb message meta (keys_new message meta) p.
Proof.
  intros Hp. unfold has_create_ix, collect_kinds_pb. cbv zeta.
  assert (Hix : forall ix,
    is_create_disc (ix_data ix) p
      && opt_key_eqb (key_at message meta (Z.to_nat (program_id_index ix))) (pid_bytes (pump_fun_id (programs p)))
    = true
    <-> runs (keys_new message meta) (pid_bytes (pump_fun_id (programs p))) ix = true
        /\ classify_pump_ix true (ix_data ix) p = Some KCreate).
  { intros ix. rewrite andb_true_iff, (create_disc_is_the_create_kind p _ Hp), key_at_is_the_lazy_key.
    unfold runs. tauto. }
  rewrite orb_true_iff, elem_of_app, !existsb_exists, list_elem_of_omap, list_elem_of_bind. f_equiv.
  - f_equiv. intros ix. rewrite list_elem_of_In, Hix. f_equiv.
    destruct (runs _ _ ix); [by intuition|]. cbn. intuition congruence.
  - f_equiv. intros g. rewrite list_elem_of_omap, existsb_exists, <- list_elem_of_In.
    rewrite (and_comm (g ∈ _)). apply and_iff_compat_r. f_equiv. intros ix.
    rewrite <- list_elem_of_In, Hix. f_equiv. destruct (runs _ _ ix); intuition congruence.
Qed.
