(* ===== verification/DecodeProps.v ===== *)
(** * DecodeProps: what the feed tells the engine about a transaction *)

From S2P Require Export DecodeFacts.
#[local] Open Scope Z_scope.

(** ** Every swap, with its own arguments *)

(** What a transaction ran: each top-level instruction, then everything it invoked, in the
    order of execution. *)
Record TopLevel := { tl_ix : CompiledInstruction; tl_inner : list CompiledInstruction }.

Definition chronicle (ran : list TopLevel) : list CompiledInstruction := ran ≫= fun t => tl_ix t :: tl_inner t.

(** How a frame reports a run: the message lists the top-level instructions, and the meta, for
    each one that invoked something, what it invoked under its index. *)
Fixpoint groups_from (i : nat) (ran : list TopLevel) : list InnerInstructions :=
  match ran with
  | [] => []
  | t :: ran =>
      match tl_inner t with
      | [] => groups_from (S i) ran
      | inner => {| inner_index := Z.of_nat i; inner_list := inner |} :: groups_from (S i) ran
      end
  end.

Definition reports_run (ran : list TopLevel) (message : Message) (meta : TransactionStatusMeta) : Prop :=
  instructions message = tl_ix <$> ran /\ inner_instructions meta = groups_from 0 ran.

Definition event_call (p : Protocol) (data : Bytes) : Prop :=
  exists b, data = anchor_event_cpi (discriminators p) ++ b /\ is_curve_event p b.

Definition idle (p : Protocol) (data : Bytes) : Prop := is_buy_disc data p = false /\ ~ event_call p data.

(** The program ran [swaps]: each by its instruction, and before the next swap it told the
    swap's event in a call to itself; between them anything that neither buys nor tells. *)
Inductive ran_swaps `{Codecs} (p : Protocol) : list Bytes -> list Swap -> Prop :=
  | ran_none : ran_swaps p [] []
  | ran_idle data datas swaps : idle p data -> ran_swaps p datas swaps -> ran_swaps p (data :: datas) swaps
  | ran_swap s between datas swaps :
      ~ event_call p (sw_ix s) -> Forall (idle p) between -> ran_swaps p datas swaps ->
      ran_swaps p (sw_ix s :: between ++ self_call (curve_event p) p s :: datas) (s :: swaps).

(** The frame of a transaction that ran [swaps]: its logs show the first [n] of their events
    and say so when they were cut, no top-level instruction is a program's call to itself, and
    no coin the transaction creates is priced in anything but SOL. *)
Record carries `{CodecLaws} (p : Protocol) (message : Message) (meta : TransactionStatusMeta)
    (ran : list TopLevel) (swaps : list Swap) (n : nat) : Prop := {
  carried_wf : Forall (swap_wf p) swaps;
  carried_logs : log_lines (curve_event p) (is_curve_event p) (log_messages meta) (take n swaps);
  carried_cut : (n < length swaps)%nat ->
                existsb (contains_str "Log truncated") (log_messages meta) = true;
  carried_run : reports_run ran message meta;
  carried_top : Forall (fun t => ~ event_call p (ix_data (tl_ix t))) ran;
  carried_swaps : ran_swaps p
    (ix_data <$> List.filter (runs (keys_new message meta) (pid_bytes (pump_fun_id (programs p)))) (chronicle ran)) swaps;
  carried_sol :
    non_sol_mints (decode_create_events_from_logs (log_messages meta) (create_event (discriminators p)))
    = []
}.

(** *** The decoder's walks over a reported run *)

Lemma groups_before i k ran : (i < k)%nat ->
  List.filter (fun g => inner_index g =? Z.of_nat i) (groups_from k ran) = [].
Proof.
  revert k. induction ran as [|t ran IH]; intros k Hk; [done|]. cbn [groups_from].
  destruct (tl_inner t); [by apply IH; lia|]. cbn [List.filter inner_index].
  replace (Z.of_nat k =? Z.of_nat i) with false by lia. apply IH. lia.
Qed.

Lemma groups_at k ran i t : ran !! i = Some t ->
  (List.filter (fun g => inner_index g =? Z.of_nat (k + i)) (groups_from k ran) ≫= inner_list) = tl_inner t.
Proof.
  revert k i. induction ran as [|u ran IH]; intros k [|i] Hi; [done|done| |].
  - injection Hi as ->. rewrite Nat.add_0_r. cbn [groups_from]. pose proof (groups_before k (S k) ran ltac:(lia)) as E.
    destruct (tl_inner t) as [|x l]; [by rewrite E|]. cbn [List.filter inner_index]. rewrite Z.eqb_refl, E.
    change ((x :: l) ++ [] = x :: l). apply app_nil_r.
  - specialize (IH (S k) i Hi). rewrite <- Nat.add_succ_comm. cbn [groups_from].
    destruct (tl_inner u); [done|]. cbn [List.filter inner_index].
    destruct (Z.eqb_spec (Z.of_nat k) (Z.of_nat (S k + i))) as [E|_]; [lia|done].
Qed.

Lemma execution_order_is_the_run ran message meta : reports_run ran message meta ->
  execution_order message meta = chronicle ran.
Proof.
  intros [Hm Hi]. unfold execution_order, chronicle. rewrite Hm, imap_fmap.
  rewrite (imap_ext _ (fun _ t => tl_ix t :: tl_inner t)).
  2: { intros i t Ht. cbn. f_equal. unfold inner_of. rewrite Hi. by apply (groups_at 0). }
  clear. change (imap _ ran) with (imap (const (fun t => tl_ix t :: tl_inner t)) ran). rewrite imap_const.
  induction ran as [|t ran IH]; [done|]. cbn. f_equal. f_equal. exact IH.
Qed.

Lemma groups_flat k ran : (groups_from k ran ≫= inner_list) = ran ≫= tl_inner.
Proof.
  revert k. induction ran as [|t ran IH]; intros k; [done|]. cbn [groups_from]. specialize (IH (S k)).
  change ((t :: ran) ≫= tl_inner) with (tl_inner t ++ (ran ≫= tl_inner)). rewrite <- IH. by destruct (tl_inner t).
Qed.

(** Top-level instructions that tell nothing can be read apart from the rest. *)
Lemma tell_apart {A} (f : CompiledInstruction -> option A) (ran : list TopLevel) :
  Forall (fun t => f (tl_ix t) = None) ran ->
  omap f ((tl_ix <$> ran) ++ (ran ≫= tl_inner)) = omap f (chronicle ran).
Proof.
  intros H. rewrite omap_app. replace (omap f (tl_ix <$> ran)) with (@nil A).
  - cbn [app]. induction H as [|t ran Ht _ IH]; [done|].
    change (chronicle (t :: ran)) with ((tl_ix t :: tl_inner t) ++ chronicle ran).
    change ((t :: ran) ≫= tl_inner) with (tl_inner t ++ (ran ≫= tl_inner)).
    rewrite !omap_app, IH. cbn [omap list_omap]. by rewrite Ht.
  - induction H as [|t ran Ht _ IH]; [done|]. cbn [fmap list_fmap omap list_omap]. by rewrite Ht.
Qed.

Lemma omap_filter_data {A} (f : Bytes -> option A) (P : CompiledInstruction -> bool) l :
  omap f (ix_data <$> List.filter P l) = omap (fun ix => if P ix then f (ix_data ix) else None) l.
Proof.
  induction l as [|x l IH]; [done|]. cbn [List.filter omap list_omap]. destruct (P x); [|done].
  cbn [fmap list_fmap omap list_omap]. by rewrite <- IH.
Qed.

Section swaps.
Context `{CodecLaws}.

Definition sw_args (p : Protocol) (s : Swap) : option BuyInstructionArgs :=
  if rt_is_buy (sw_event s) then parse_buy_ix (sw_ix s) p else None.

(** The trade of each swap that is not dust, numbered by its place in the transaction. *)
Fixpoint told (p : Protocol) (st : TxStamp) (leg : Z) (swaps : list Swap) : list Trade :=
  match swaps with
  | [] => []
  | s :: swaps =>
      let rest := told p st (leg + 1) swaps in
      if de_sol_amount (decoded p s) <. min_trade_sol p then rest
      else curve_trade st leg (decoded p s) (sw_args p s) :: rest
  end.

Lemma curve_legs_tell p st leg swaps :
  omap as_trade
    (curve_legs p st
       ((fun d => parse_buy_ix d p) <$> (sw_ix <$> List.filter (fun s => rt_is_buy (sw_event s)) swaps))
       leg (decoded p <$> swaps))
  = told p st leg swaps.
Proof.
  revert leg. induction swaps as [|s swaps IH]; intros leg; [done|].
  cbn [fmap list_fmap List.filter told curve_legs]. unfold sw_args.
  change (de_is_buy (decoded p s)) with (rt_is_buy (sw_event s)).
  destruct (rt_is_buy (sw_event s)); cbn [fmap list_fmap cursor_take];
    (destruct (_ <. _); [|cbn [omap list_omap as_trade]; f_equal]); apply IH.
Qed.

Lemma idle_tells_nothing p data : ~ event_call p data -> inner_event p data = None.
Proof. intros Hn. apply inner_trade_event_other. intros b -> Hb. apply Hn. by exists b. Qed.

Lemma call_is_no_buy p s : pump_like p -> is_buy_disc (self_call (curve_event p) p s) p = false.
Proof.
  intros Hp. unfold is_buy_disc, self_call. case_match; [done|]. cbv zeta.
  assert (A8 : length (anchor_event_cpi (discriminators p)) = 8%nat) by (by rewrite Hp).
  destruct (take_app_eight _ (curve_event p s) A8) as [-> _]. by rewrite Hp.
Qed.

(** The buys a run made, and the events it told, in its order. *)
Lemma ran_buys p datas swaps : pump_like p -> ran_swaps p datas swaps -> Forall (swap_wf p) swaps ->
  List.filter (fun d => is_buy_disc d p) datas = sw_ix <$> List.filter (fun s => rt_is_buy (sw_event s)) swaps.
Proof.
  intros Hp. induction 1 as [|data datas swaps [Hb _] _ IH|s between datas swaps _ Hi _ IH]; intros Hwf; [done| |].
  - cbn [List.filter]. rewrite Hb. by apply IH.
  - apply Forall_cons in Hwf as [[_ Hs] Hwf].
    assert (E : List.filter (fun d => is_buy_disc d p) between = []).
    { clear -Hi. induction Hi as [|d l [Hd _] _ IH]; [done|]. cbn [List.filter]. by rewrite Hd. }
    cbn [List.filter]. rewrite List.filter_app, E, app_nil_l. cbn [List.filter].
    rewrite (call_is_no_buy p s Hp), Hs, (IH Hwf). by destruct (rt_is_buy (sw_event s)).
Qed.

Lemma ran_events p datas swaps : pump_like p -> ran_swaps p datas swaps -> Forall (swap_wf p) swaps ->
  omap (inner_event p) datas = decoded p <$> swaps.
Proof.
  intros Hp. induction 1 as [|data datas swaps [_ Hn] _ IH|s between datas swaps Hix Hi _ IH]; intros Hwf; [done| |].
  - cbn [omap list_omap]. rewrite idle_tells_nothing by done. by apply IH.
  - apply Forall_cons in Hwf as [Hs Hwf].
    assert (E : omap (inner_event p) between = []).
    { clear -Hi. induction Hi as [|d l [_ Hd] _ IH]; [done|]. cbn [omap list_omap]. by rewrite idle_tells_nothing. }
    cbn [omap list_omap]. rewrite idle_tells_nothing, omap_app, E by done. cbn [app omap list_omap fmap list_fmap].
    rewrite inner_trade_event_call by done. by rewrite (IH Hwf).
Qed.

Lemma carried_calls p message meta ran swaps n : pump_like p -> carries p message meta ran swaps n ->
  omap (inner_event p) (ix_data <$> find_program_pb_ixs message meta (keys_new message meta)
                                     (pid_bytes (pump_fun_id (programs p)))) = decoded p <$> swaps.
Proof.
  intros Hp Hc. destruct (carried_run _ _ _ _ _ _ Hc) as [Em Ei].
  rewrite <- (ran_events p _ _ Hp (carried_swaps _ _ _ _ _ _ Hc) (carried_wf _ _ _ _ _ _ Hc)).
  unfold find_program_pb_ixs. rewrite !omap_filter_data, Em, Ei, groups_flat. apply tell_apart.
  eapply Forall_impl; [apply (carried_top _ _ _ _ _ _ Hc)|]. intros t Ht. cbn. case_match; [|done].
  by apply idle_tells_nothing.
Qed.

Lemma carried_events p message meta ran swaps n :
  pump_like p -> carries p message meta ran swaps n -> curve_events p message meta = decoded p <$> swaps.
Proof.
  intros Hp Hc. pose proof (carried_calls _ _ _ _ _ _ Hp Hc) as Hcalls. destruct Hc as [Hwf Hlogs Hcut _ _ _ _].
  unfold curve_events. unfold decode_trade_events_from_logs. rewrite inner_events_by_data, Hcalls.
  rewrite (log_lines_decode (curve_event p) (is_curve_event p) (swap_wf p) _ (decoded p) _ (take n swaps));
    [|by intros; apply log_trade_event_line|apply log_trade_event_other|done|by apply Forall_take].
  rewrite <- firstn_map. apply recovered_is_complete. by rewrite length_fmap.
Qed.

(** C14: a transaction's swaps are told once each and in order, whatever its logs lost: when it
    ran them in that order, at the top level or invoked, and created no coin priced in
    anything but SOL, then for every swap that is not dust the curve decode emits one trade,
    with the amounts and reserves of the swap's own event, the arguments of the swap's own buy
    instruction (a sell takes none, so it cannot shift the buys after it) and its place in the
    transaction as leg index. *)
Theorem every_swap_is_told_with_its_arguments d info message meta slot received_at ran swaps n :
  pump_like (protocol d) -> swaps <> [] -> carries (protocol d) message meta ran swaps n ->
  trades_of (decode_curve_pb d info message meta slot received_at).1
  = told (protocol d) (stamp_of (protocol d) info message meta slot received_at) 0 swaps.
Proof.
  intros Hp Hne Hc. rewrite trades_of_curve. unfold curve_part. cbv zeta.
  rewrite (carried_events _ _ _ ran swaps n), (carried_sol _ _ _ _ _ _ Hc) by done.
  unfold sol_events. rewrite List.forallb_filter_id by (by apply forallb_forall).
  unfold buy_ixs_in_order, pump_ix_data_in_order.
  rewrite (execution_order_is_the_run _ _ _ (carried_run _ _ _ _ _ _ Hc)).
  rewrite (ran_buys _ _ _ Hp (carried_swaps _ _ _ _ _ _ Hc) (carried_wf _ _ _ _ _ _ Hc)).
  destruct swaps as [|s swaps]; [done|]. rewrite app_nil_r. apply curve_legs_tell.
Qed.
End swaps.

(** ** A concrete chain *)

Module Demo.

Fixpoint bits (p : positive) : string :=
  match p with
  | xH => EmptyString
  | xO p => String "0" (bits p)
  | xI p => String "1" (bits p)
  end.

Fixpoint unbits (s : string) : positive :=
  match s with
  | EmptyString => xH
  | String c s => if Ascii.eqb c "1" then xI (unbits s) else xO (unbits s)
  end.

Lemma unbits_bits p : unbits (bits p) = p.
Proof. induction p as [p IH|p IH|]; cbn; [by rewrite IH|by rewrite IH|done]. Qed.

Definition text (b : Bytes) : string := bits (encode b).
Definition untext (s : string) : option Bytes := decode (unbits s).

Lemma untext_text b : untext (text b) = Some b.
Proof. unfold untext, text. by rewrite unbits_bits, decode_encode. Qed.

Definition take_le (n : nat) (b : Bytes) : option (Z * Bytes) :=
  if (length b <? n)%nat then None else Some (from_le (take n b), drop n b).

Lemma take_le_bytes n x rest :
  0 <= x < 256 ^ Z.of_nat n -> take_le n (le_bytes n x ++ rest) = Some (x, rest).
Proof.
  intros H. unfold take_le.
  rewrite length_app, le_bytes_length, (proj2 (Nat.ltb_ge _ _)) by lia.
  rewrite <- (le_bytes_length n x) at 1 3. rewrite take_app_length, drop_app_length.
  by rewrite from_le_bytes.
Qed.

#[global] Instance codecs : Codecs := {|
  bs58_encode := text;
  bs58_decode s := Some (take 32 (bytes_of s ++ replicate 32 0));
  base64_decode := untext;
  sha256 b := b;
  pubkey_from_str s := Some (bytes_of s);
  pubkey_to_string := text;
  find_program_address seeds p := concat seeds ++ p;
  borsh_tag b := match b with t :: b => Some (t, b) | [] => None end;
  borsh_u32 := take_le 4;
  borsh_u64 := take_le 8;
  borsh_i64 b := (fun r => (as_i64 r.1, r.2)) <$> take_le 8 b;
  borsh_bool b :=
    match b with t :: b => if t =? 0 then Some (false, b) else if t =? 1 then Some (true, b) else None
            | [] => None end;
  borsh_key b := if (length b <? 32)%nat then None else Some (take 32 b, drop 32 b);
  borsh_string b :=
    '(n, b) ← take_le 4 b;
    bs ← slice b 0 n;
    s ← from_utf8 bs;
    Some (s, drop (Z.to_nat n) b)
|}.

#[global] Instance codec_laws : CodecLaws.
Proof.
  refine {| base64_encode := text; base64_inverse := untext_text |}.
  - intros k1 k2 E. cbn in E. apply (f_equal untext) in E. rewrite !untext_text in E. congruence.
  - intros x rest Hx. apply take_le_bytes. unfold u64_max in Hx. change (256 ^ Z.of_nat 8) with (2 ^ 64). lia.
  - intros x rest Hx. cbn -[take_le le_bytes]. rewrite take_le_bytes; [done|].
    unfold u64_max in Hx. change (256 ^ Z.of_nat 8) with (2 ^ 64). lia.
  - by intros [].
  - intros k rest Hk. cbn. rewrite length_app, Hk. cbn. rewrite <- Hk.
    by rewrite take_app_length, drop_app_length.
Defined.

Definition key (n : Z) : Bytes := replicate 32 n.

Definition protocol_id (s : string) : ProgramId :=
  {| pid_bytes := take 32 (bytes_of s ++ replicate 32 0); pid_base58 := s |}.

Definition pumpfun : Protocol :=
  Eval vm_compute in
    default {| programs := {| pump_fun_id := protocol_id ""; pump_swap_id := protocol_id "";
                              token_id := protocol_id ""; token_2022_id := protocol_id "";
                              associated_token_id := protocol_id ""; system_id := protocol_id "";
                              compute_budget_id := protocol_id ""; wsol_id := protocol_id "" |};
               discriminators := pump_discriminators; lamports_per_sol := f_zero;
               min_trade_sol := f_zero; tip_accounts := [] |} pump_fun.

Lemma pumpfun_is_the_descriptor : pump_fun = Some pumpfun.
Proof. by vm_compute. Qed.

Definition event (is_buy : bool) (user lamports amount : Z) : RawTradeEvent := {|
  rt_mint := key 5; rt_sol_amount := lamports; rt_token_amount := amount; rt_is_buy := is_buy;
  rt_user := key user; rt_timestamp := 7; rt_virtual_sol := 30000000000;
  rt_virtual_token := 1000000; rt_real_sol := 1000000000; rt_real_token := 900000 |}.

Definition ix_of (disc : Bytes) (a b : Z) : Bytes := disc ++ le_bytes 8 a ++ le_bytes 8 b.

Definition first_swap : Swap :=
  {| sw_ix := ix_of (buy pump_discriminators) 100 2000000;
     sw_event := event true 3 1000000 100; sw_tail := [] |}.

(** A buy, a sell and a second buy; the logs lose the last two. *)
Definition swaps : list Swap :=
  [first_swap;
   {| sw_ix := ix_of (sell pump_discriminators) 40 1; sw_event := event false 3 500000 40; sw_tail := [] |};
   {| sw_ix := ix_of (buy_exact_sol_in pump_discriminators) 900000 7;
      sw_event := event true 4 900000 70; sw_tail := [] |}].

Definition outer (data : Bytes) : CompiledInstruction :=
  {| program_id_index := 1; ix_accounts := [0; 1]; ix_data := data |}.

(** The first buy runs inside a router's instruction, behind a call to a third program; the
    sell and the second buy are top level. *)
Definition router (data : Bytes) : CompiledInstruction :=
  {| program_id_index := 2; ix_accounts := [0]; ix_data := data |}.

Definition told_by (s : Swap) : CompiledInstruction := outer (self_call (curve_event pumpfun) pumpfun s).

Definition ran : list TopLevel :=
  match swaps with
  | s :: rest =>
      {| tl_ix := router [9]; tl_inner := [router [7]; outer (sw_ix s); router [8]; told_by s] |}
      :: ((fun s => {| tl_ix := outer (sw_ix s); tl_inner := [told_by s] |}) <$> rest)
  | [] => []
  end.

Definition message : Message := {|
  num_required_signatures := Some 1;
  account_keys := [key 3; pid_bytes (pump_fun_id (programs pumpfun)); key 9];
  instructions := tl_ix <$> ran |}.

Definition meta : TransactionStatusMeta := {|
  meta_fee := 5000;
  pre_balances := [10000000; 1]; post_balances := [8595000; 1];
  inner_instructions := groups_from 0 ran;
  log_messages :=
    ["Program 6EF8 invoke [1]"%string;
     event_line (curve_event pumpfun) first_swap;
     "Log truncated"%string];
  pre_token_balances := []; post_token_balances := [];
  loaded_writable_addresses := []; loaded_readonly_addresses := [] |}.

Definition info : SubscribeUpdateTransactionInfo := {|
  info_signature := [1; 2; 3]; info_index := 9;
  info_transaction := Some {| tx_message := Some message |}; info_meta := Some meta |}.

Definition decoder : Decoder :=
  {| protocol := pumpfun; pool_index := Some ∅; pools_changed := Some false |}.

Lemma swaps_wf : Forall (swap_wf pumpfun) swaps.
Proof.
  repeat constructor; cbn; unfold u64; try done; unfold u64_max, i64_min, i64_max; lia.
Qed.

Lemma swap_ix_is_no_call disc a b : bytes_eqb (take 8 (disc ++ le_bytes 8 a)) (anchor_event_cpi pump_discriminators) = false ->
  length disc = 8%nat -> ~ event_call pumpfun (ix_of disc a b).
Proof.
  intros Hd H8 (c & E & _). apply (f_equal (take 8)) in E. unfold ix_of in E.
  destruct (take_app_eight disc (le_bytes 8 a ++ le_bytes 8 b) H8) as [E1 _].
  destruct (take_app_eight disc (le_bytes 8 a) H8) as [E2 _]. rewrite E2 in Hd. rewrite E1 in E. rewrite E in Hd.
  change (anchor_event_cpi (discriminators pumpfun)) with (anchor_event_cpi pump_discriminators) in Hd.
  destruct (take_app_eight (anchor_event_cpi pump_discriminators) c eq_refl) as [E3 _].
  change (anchor_event_cpi (discriminators pumpfun)) with (anchor_event_cpi pump_discriminators) in Hd.
  rewrite E3 in Hd. by rewrite bytes_eqb_refl in Hd.
Qed.

Lemma carried : carries pumpfun message meta ran swaps 1.
Proof.
  split.
  - apply swaps_wf.
  - apply lines_other; [by vm_compute|].
    apply lines_event. apply lines_other; [by vm_compute|]. constructor.
  - by vm_compute.
  - done.
  - repeat constructor; [by intros (b & [=] & _)|by apply swap_ix_is_no_call..].
  - match goal with |- ran_swaps _ ?d _ =>
      replace d with (swaps ≫= fun s => [sw_ix s; self_call (curve_event pumpfun) pumpfun s]) by (by vm_compute)
    end.
    repeat (apply (ran_swap pumpfun _ []); [by apply swap_ix_is_no_call|constructor|]). constructor.
  - by vm_compute.
Qed.
End Demo.

Lemma every_swap_is_told_witness :
  trades_of (decode_curve_pb Demo.decoder Demo.info Demo.message Demo.meta 1000 5).1
  = told Demo.pumpfun (stamp_of Demo.pumpfun Demo.info Demo.message Demo.meta 1000 5) 0 Demo.swaps.
Proof.
  apply (every_swap_is_told_with_its_arguments Demo.decoder _ _ _ _ _ Demo.ran _ 1); [done|done|apply Demo.carried].
Defined.

(** ** The pre-filter *)

Lemma classify_keys_spec pump swap creates has_swap keys :
  classify_keys pump swap creates has_swap keys
  = if bool_decide (pump ∈ keys) then Some (if creates then RelCreate else RelCurve)
    else if has_swap || bool_decide (swap ∈ keys) then Some RelAmm else None.
Proof.
  revert has_swap. induction keys as [|k keys IH]; intros hs; cbn [classify_keys].
  - rewrite !bool_decide_eq_false_2 by apply not_elem_of_nil. by rewrite orb_false_r.
  - unfold bytes_eqb. destruct (decide (k = pump)) as [->|Hk].
    + by rewrite !bool_decide_eq_true_2 by (try done; left).
    + rewrite (bool_decide_eq_false_2 (k = pump)), IH by done.
      rewrite (bool_decide_ext (pump ∈ k :: keys) (pump ∈ keys)) by (rewrite elem_of_cons; intuition congruence).
      case_bool_decide; [done|]. rewrite <- orb_assoc.
      replace (bool_decide (k = swap) || bool_decide (swap ∈ keys)) with (bool_decide (swap ∈ k :: keys)); [done|].
      repeat case_bool_decide; set_solver.
Qed.

(** C15: the pre-filter forwards exactly the frames that name one of the two programs among
    their keys, loaded ones included, with the curve before the AMM, and its create lane is
    the decoder's own reading: a frame takes it exactly when the instruction walk of the
    decode finds a create, top-level or inner. *)
Theorem prefilter_agrees_with_decode d info tx message meta :
  pump_like (protocol d) ->
  info_transaction info = Some tx -> tx_message tx = Some message -> info_meta info = Some meta ->
  let p := protocol d in
  let keys := keys_new message meta in
  classify_accounts d info
  = if bool_decide (pid_bytes (pump_fun_id (programs p)) ∈ keys)
    then Some (if bool_decide (KCreate ∈ collect_kinds_pb message meta keys p) then RelCreate else RelCurve)
    else if bool_decide (pid_bytes (pump_swap_id (programs p)) ∈ keys) then Some RelAmm else None.
Proof.
  intros Hp Ht Hm Hme p keys. unfold classify_accounts. rewrite Ht. cbn [mbind option_bind].
  rewrite Hm. cbn [mbind option_bind]. rewrite Hme. cbn [mbind option_bind]. cbv zeta.
  rewrite classify_keys_spec. cbn [orb].
  pose proof (has_create_is_the_create_kind p message meta Hp) as Hc.
  destruct (has_create_ix _ _ _).
  - by rewrite (bool_decide_eq_true_2 (KCreate ∈ _)) by (by apply Hc).
  - by rewrite (bool_decide_eq_false_2 (KCreate ∈ _)) by (by intros ?%Hc).
Qed.

Lemma prefilter_agrees_witness :
  classify_accounts Demo.decoder Demo.info = Some RelCurve.
Proof.
  rewrite (prefilter_agrees_with_decode Demo.decoder Demo.info {| tx_message := Some Demo.message |}
             Demo.message Demo.meta) by done.
  by vm_compute.
Defined.

(** ** Quotes that are not SOL *)

Section quotes.
Context `{Codecs}.

Definition creations_of (o : DecodeOutput) : list TokenCreated :=
  omap (fun e => match e with EvTokenCreated c => Some c | _ => None end) (events_of o).

Lemma curve_legs_mints p st buys leg evs t :
  t ∈ omap as_trade (curve_legs p st buys leg evs) -> tr_mint t ∈ de_mint <$> evs.
Proof.
  revert buys leg. induction evs as [|ev evs IH]; intros buys leg; [by intros ?%elem_of_nil|].
  cbn [curve_legs]. destruct (cursor_take _ _) as [args buys']. cbn [fmap list_fmap].
  destruct (_ <. _).
  - intros Ht. right. by eapply IH.
  - cbn [omap list_omap as_trade]. intros [->|Ht]%elem_of_cons; [left|right; by eapply IH].
Qed.

Lemma decode_create_is_sol p a c :
  EvTokenCreated c ∈ decode_create p a -> tc_quote_mint c = None.
Proof.
  unfold decode_create. destruct (if_nonempty _) as [mint|]; [|by intros ?%elem_of_nil]. cbv zeta.
  destruct (quote_mint_address _ _ _) as [q|]; cbn [is_someb andb negb INGEST_NON_SOL_QUOTE].
  - by intros ?%elem_of_nil.
  - destruct (nonempty _); [|by intros ?%elem_of_nil].
    intros [[= ->]|[?|?%elem_of_nil]%elem_of_cons]%elem_of_cons; done.
Qed.

(** A coin priced in anything but SOL stays out of the tape of the transaction that
    creates it: no trade of the decode is on its mint, the one rebuilt from balances
    included, and every creation the decode tells is a SOL coin. *)
Theorem non_sol_coins_stay_out d info message meta slot received_at :
  let out := (decode_curve_pb d info message meta slot received_at).1 in
  Forall (fun t => tr_mint t ∉ non_sol_mints
            (decode_create_events_from_logs (log_messages meta) (create_event (discriminators (protocol d)))))
    (trades_of out)
  /\ Forall (fun c => tc_quote_mint c = None) (creations_of out).
Proof.
  intros out. split.
  - apply Forall_forall. intros t. unfold out. rewrite trades_of_curve. unfold curve_part. cbv zeta.
    set (non_sol := non_sol_mints _). rewrite omap_app, elem_of_app. intros [Ht|Ht].
    + apply curve_legs_mints in Ht. apply list_elem_of_fmap in Ht as (ev & -> & Hev).
      unfold sol_events in Hev. apply list_elem_of_In, filter_In in Hev as [_ Hev].
      apply negb_true_iff in Hev. intros Hin. by rewrite (proj2 (contains_spec _ _) Hin) in Hev.
    + destruct (sol_events _ _), non_sol; try by apply elem_of_nil in Ht. apply not_elem_of_nil.
  - apply Forall_forall. intros c Hc. unfold out, creations_of in Hc.
    apply list_elem_of_omap in Hc as ([c'| | |] & He & [= ->]).
    apply curve_output_cases in He as [He|[He|[m [=]]]].
    + pose proof (curve_part_is_trades d info message meta slot received_at) as Hf.
      rewrite Forall_forall in Hf. by destruct (Hf _ He) as [t [=]].
    + unfold create_part, create_events in He. cbv zeta in He.
      destruct (find_first _ _); [by eapply decode_create_is_sol|by apply elem_of_nil in He].
Qed.
End quotes.

(** ** What identifies a trade *)

Section legs.
Context `{Codecs}.

Definition stamped (st : TxStamp) (t : Trade) : Prop :=
  tr_signature t = st_signature st /\ tx_index t = st_index st /\ slot t = st_slot st
  /\ payer_net_lamports t = st_net st /\ tr_payer t = payer (st_sender st).

(** The legs of a list are stamped, and numbered upwards from [leg]. *)
Definition legs_from (st : TxStamp) (leg : Z) (l : list Trade) : Prop :=
  Forall (stamped st) l /\ Forall (fun t => leg <= leg_index t) l /\ NoDup (leg_index <$> l).

Lemma legs_from_nil st leg : legs_from st leg [].
Proof. repeat split; constructor. Qed.

Lemma legs_from_cons st leg t l :
  stamped st t -> leg_index t = leg -> legs_from st (leg + 1) l -> legs_from st leg (t :: l).
Proof.
  intros Ht El (Hs & Hl & Hn). rewrite Forall_forall in Hl. split; [by constructor|]. split.
  - constructor; [lia|]. apply Forall_forall. intros u Hu. specialize (Hl u Hu). lia.
  - cbn [fmap list_fmap]. constructor; [|done]. intros (u & E & Hu)%list_elem_of_fmap.
    specialize (Hl u Hu). lia.
Qed.

Lemma legs_from_weaken st leg leg' l : leg' <= leg -> legs_from st leg l -> legs_from st leg' l.
Proof.
  intros Hle (Hs & Hl & Hn). split; [done|]. split; [|done].
  eapply Forall_impl; [exact Hl|]. cbn. lia.
Qed.

Lemma curve_legs_numbered p st buys leg evs :
  legs_from st leg (omap as_trade (curve_legs p st buys leg evs)).
Proof.
  revert buys leg. induction evs as [|ev evs IH]; intros buys leg; [apply legs_from_nil|].
  cbn [curve_legs]. destruct (cursor_take _ _) as [args buys']. destruct (_ <. _).
  - eapply legs_from_weaken; [|apply IH]. lia.
  - cbn [omap list_omap as_trade]. by apply legs_from_cons.
Qed.

Lemma amm_legs_numbered st harvested leg resolved :
  legs_from st leg (omap as_trade (amm_legs st harvested leg resolved)).
Proof.
  revert harvested leg. induction resolved as [|[ev mint] resolved IH]; intros h leg; [apply legs_from_nil|].
  cbn [amm_legs]. destruct (take_accounts _ _) as [accounts h'].
  cbn [omap list_omap as_trade]. by apply legs_from_cons.
Qed.

Lemma fallback_numbered p st keys kinds ixs meta :
  legs_from st 0 (omap as_trade (balance_fallback p st keys kinds ixs meta)).
Proof.
  unfold balance_fallback. destruct (find_first _ _), ixs as [|ix ixs]; try apply legs_from_nil.
  unfold decode_trade_from_balances_pb. cbv zeta.
  destruct (if_nonempty (_ !! 2%nat)); [|apply legs_from_nil]. cbn [mbind option_bind].
  destruct (if_nonempty (_ !! 6%nat)); [|apply legs_from_nil]. cbn [mbind option_bind].
  destruct (if_nonempty (_ !! 3%nat)); [|apply legs_from_nil]. cbn [mbind option_bind].
  destruct (kind_side _); [|apply legs_from_nil]. cbn [mbind option_bind].
  destruct (_ <. _); [apply legs_from_nil|]. cbn [option_list omap list_omap as_trade].
  by apply legs_from_cons; [| |apply legs_from_nil].
Qed.

Lemma curve_trades_numbered d info message meta slot received_at :
  legs_from (stamp_of (protocol d) info message meta slot received_at) 0
    (trades_of (decode_curve_pb d info message meta slot received_at).1).
Proof.
  rewrite trades_of_curve. unfold curve_part. cbv zeta. rewrite omap_app.
  set (evs := sol_events _ _). destruct evs as [|ev evs].
  - cbn [curve_legs omap list_omap app]. case_match; [apply fallback_numbered|apply legs_from_nil].
  - rewrite app_nil_r. apply curve_legs_numbered.
Qed.

(** (signature, transaction index, leg index) identifies a trade: the trades a decode
    tells of one frame carry the frame's own signature, index and slot, the same payer and
    the same payer flow, and no two of them share a leg index. *)
Theorem legs_identify_trades d update relevance received_at info message meta :
  update_parts update = Some (info, message, meta) ->
  let trades := trades_of (decode_relevant_pb d update relevance received_at).1 in
  NoDup (leg_index <$> trades)
  /\ Forall (stamped (stamp_of (protocol d) info message meta (update_slot update) received_at)) trades.
Proof.
  intros Hu trades. subst trades. unfold decode_relevant_pb. rewrite Hu.
  destruct (is_curve relevance).
  - by destruct (curve_trades_numbered d info message meta (update_slot update) received_at) as (? & _ & ?).
  - cbn [fst]. unfold decode_amm_live_pb. destruct (pool_index d) as [index|]; [|split; constructor].
    cbv zeta. destruct (resolve_trades _ _ _) as [|r rs] eqn:E; [split; constructor|].
    unfold trades_of, events_of.
    destruct (amm_legs_numbered (stamp_of (protocol d) info message meta (update_slot update) received_at)
                (foldl (harvest_step (protocol d) (keys_new message meta) (r :: rs)) [] (instructions message))
                0 (r :: rs)) as (? & _ & ?). done.
Qed.
End legs.

Definition demo_update : SubscribeUpdateTransaction :=
  {| update_transaction := Some Demo.info; update_slot := 1000 |}.

Lemma legs_identify_witness :
  NoDup (leg_index <$> trades_of (decode_relevant_pb Demo.decoder demo_update RelCurve 5).1).
Proof.
  apply (legs_identify_trades Demo.decoder demo_update RelCurve 5 Demo.info Demo.message Demo.meta). done.
Defined.

(** ** What the payer moved *)

Section payer_flow.
Context `{Codecs}.
Context (meta : TransactionStatusMeta).

(** The change of an account over the transaction; one without both balances changes nothing. *)
Definition change (i : Z) : Z :=
  match pre_balances meta !! Z.to_nat i, post_balances meta !! Z.to_nat i with
  | Some pre, Some post => post - pre
  | _, _ => 0
  end.

Definition total (l : list Z) : Z := foldr Z.add 0 (change <$> l).
Definition volume (l : list Z) : Z := foldr Z.add 0 ((fun i => Z.abs (change i)) <$> l).

Definition balances_fit : Prop :=
  Forall (fun b => 0 <= b <= i64_max) (pre_balances meta)
  /\ Forall (fun b => 0 <= b <= i64_max) (post_balances meta).

Lemma delta_is_change i : balances_fit -> unwrap_or (balance_delta meta (Z.to_nat i)) 0 = change i.
Proof.
  intros [Hpre Hpost]. unfold balance_delta, change.
  destruct (pre_balances meta !! _) as [a|] eqn:Ea; [|done].
  destruct (post_balances meta !! _) as [b|] eqn:Eb; [|done].
  cbn [mbind option_bind unwrap_or].
  assert (Ha := Forall_lookup_1 _ _ _ _ Hpre Ea). assert (Hb := Forall_lookup_1 _ _ _ _ Hpost Eb).
  cbv beta in Ha, Hb. unfold i64_max in *.
  rewrite (as_i64_small a), (as_i64_small b), as_i64_small; unfold i64_min, i64_max; lia.
Qed.

Lemma total_perm l l' : l ≡ₚ l' -> total l = total l'.
Proof. unfold total. induction 1; cbn; lia. Qed.

Lemma volume_perm l l' : l ≡ₚ l' -> volume l = volume l'.
Proof. unfold volume. induction 1; cbn; lia. Qed.

Lemma volume_app l l' : volume (l ++ l') = volume l + volume l'.
Proof. unfold volume. induction l; cbn; lia. Qed.

Lemma total_app l l' : total (l ++ l') = total l + total l'.
Proof. unfold total. induction l; cbn; lia. Qed.

Lemma total_le_volume l : Z.abs (total l) <= volume l.
Proof.
  unfold total, volume, compose. induction l as [|i l IH]; cbn [fmap list_fmap foldr] in *; [done|lia].
Qed.

(** No step of the sum wraps while the volume fits. *)
Lemma fold_is_total net l :
  balances_fit -> Z.abs net + volume (account_index <$> l) <= i64_max ->
  foldl (add_delta meta) net l = net + total (account_index <$> l).
Proof.
  intros Hb. revert net. induction l as [|b l IH]; intros net Hv; [unfold total; cbn; lia|].
  cbn [foldl]. unfold add_delta at 2. rewrite delta_is_change by done.
  change (volume (account_index <$> b :: l)) with (Z.abs (change (account_index b)) + volume (account_index <$> l)) in Hv.
  change (total (account_index <$> b :: l)) with (change (account_index b) + total (account_index <$> l)).
  assert (Hnn : 0 <= volume (account_index <$> l)) by (pose proof (total_le_volume (account_index <$> l)); lia).
  rewrite as_i64_small by (unfold i64_min, i64_max in *; lia).
  rewrite IH by lia. lia.
Qed.

Definition closed_by (b : TokenBalance) : bool :=
  negb (existsb (fun p => account_index p =? account_index b) (post_token_balances meta)).

Lemma fold_if_is_filter {A B} (f : A -> bool) (g : B -> A -> B) l acc :
  foldl (fun acc x => if f x then g acc x else acc) acc l = foldl g acc (List.filter f l).
Proof. revert acc. induction l as [|x l IH]; intros acc; [done|]. cbn. destruct (f x); apply IH. Qed.

(** The payer's accounts: the fee account, the token accounts it owns after, and those it
    owned and the transaction closed. *)
Definition own_account (payer : string) (i : Z) : Prop :=
  i = 0
  \/ (exists b, b ∈ post_token_balances meta /\ owned_by payer b = true /\ account_index b = i)
  \/ (exists b, b ∈ pre_token_balances meta /\ owned_by payer b = true /\ account_index b = i
                /\ ~ exists p, p ∈ post_token_balances meta /\ account_index p = i).

Definition own_list (payer : string) : list Z :=
  0 :: (account_index <$> List.filter (owned_by payer) (post_token_balances meta))
  ++ (account_index <$> List.filter closed_by (List.filter (owned_by payer) (pre_token_balances meta))).

Lemma elem_of_filterb {A} (f : A -> bool) l x : x ∈ List.filter f l <-> x ∈ l /\ f x = true.
Proof. by rewrite !list_elem_of_In, filter_In. Qed.

Lemma closed_by_spec b :
  closed_by b = true <-> ~ exists p, p ∈ post_token_balances meta /\ account_index p = account_index b.
Proof.
  unfold closed_by. rewrite negb_true_iff, <- not_true_iff_false, existsb_exists.
  setoid_rewrite Z.eqb_eq. by setoid_rewrite list_elem_of_In.
Qed.

Lemma elem_of_own_list payer i : i ∈ own_list payer <-> own_account payer i.
Proof.
  unfold own_list, own_account. rewrite elem_of_cons, elem_of_app, !list_elem_of_fmap.
  setoid_rewrite elem_of_filterb. setoid_rewrite elem_of_filterb. setoid_rewrite closed_by_spec.
  split.
  - intros [?|[(b & -> & ? & ?)|(b & -> & (? & ?) & ?)]]; [by left|right; left; eauto|right; right; eauto 6].
  - intros [?|[(b & ? & ? & <-)|(b & ? & ? & <- & ?)]]; [by left|right; left; eauto|right; right; eauto 6].
Qed.

Lemma fmap_filter_NoDup {A} (g : A -> Z) (f : A -> bool) l :
  NoDup (g <$> l) -> NoDup (g <$> List.filter f l).
Proof.
  induction l as [|x l IH]; [done|]. cbn [fmap list_fmap List.filter]. intros [Hx Hl]%NoDup_cons.
  destruct (f x); [|by apply IH]. cbn [fmap list_fmap]. constructor; [|by apply IH].
  rewrite list_elem_of_fmap in Hx |- *. intros (y & E & [Hy _]%elem_of_filterb). apply Hx. by exists y.
Qed.

Lemma own_list_NoDup payer :
  NoDup (account_index <$> post_token_balances meta) ->
  NoDup (account_index <$> pre_token_balances meta) -> NoDup (own_list payer).
Proof.
  intros Hpost Hpre. unfold own_list. constructor.
  - rewrite elem_of_app, !list_elem_of_fmap. setoid_rewrite elem_of_filterb.
    setoid_rewrite elem_of_filterb. unfold owned_by.
    intros [(b & E & _ & Ho)|(b & E & (_ & Ho) & _)]; apply andb_true_iff in Ho as [_ Ho]; by rewrite <- E in Ho.
  - apply NoDup_app. split; [by apply fmap_filter_NoDup|]. split; [|by do 2 apply fmap_filter_NoDup].
    intros i (b & -> & [Hb _]%elem_of_filterb)%list_elem_of_fmap (c & E & [_ Hc]%elem_of_filterb)%list_elem_of_fmap.
    apply closed_by_spec in Hc. apply Hc. by exists b.
Qed.

(** [payer_net_lamports] is the payer's exact net flow: the changes of its fee account,
    of every token account it owns after the transaction and of every one it owned that the
    transaction closed, each counted once, and no addition wraps. *)
Theorem payer_flow_is_exact sender own pre post :
  balances_fit ->
  pre_balances meta !! 0%nat = Some pre -> post_balances meta !! 0%nat = Some post ->
  NoDup (account_index <$> post_token_balances meta) ->
  NoDup (account_index <$> pre_token_balances meta) ->
  NoDup own -> (forall i, i ∈ own <-> own_account (payer sender) i) ->
  volume own <= i64_max ->
  net_lamports sender meta = Some (total own).
Proof.
  intros Hb Hpre Hpost Hnpost Hnpre Hn Hown Hv.
  assert (Hp : own ≡ₚ own_list (payer sender)).
  { apply NoDup_Permutation; [done|by apply own_list_NoDup|]. intros i. by rewrite Hown, elem_of_own_list. }
  rewrite (total_perm _ _ Hp). rewrite (volume_perm _ _ Hp) in Hv. clear Hp Hown Hn own.
  unfold net_lamports. cbv zeta.
  pose proof (delta_is_change 0 Hb) as E0. change (Z.to_nat 0) with 0%nat in E0.
  assert (Ed : balance_delta meta 0 = Some (change 0)).
  { revert E0. unfold balance_delta. rewrite Hpre, Hpost. cbn [mbind option_bind unwrap_or]. by intros ->. }
  rewrite Ed. cbn [mbind option_bind]. f_equal.
  rewrite (fold_if_is_filter closed_by). unfold own_list in Hv |- *.
  set (l1 := List.filter (owned_by _) _) in *. set (l2 := List.filter closed_by _) in *.
  change (volume (0 :: ?l)) with (Z.abs (change 0) + volume l) in Hv.
  change (total (0 :: ?l)) with (change 0 + total l).
  rewrite volume_app in Hv. rewrite total_app.
  pose proof (total_le_volume (account_index <$> l1)). pose proof (total_le_volume (account_index <$> l2)).
  rewrite (fold_is_total (change 0) l1), (fold_is_total _ l2) by (try done; lia). lia.
Qed.
End payer_flow.

Definition demo_sender : TxSender := sender_new (keys_new Demo.message Demo.meta) Demo.message.

Lemma payer_flow_witness : net_lamports demo_sender Demo.meta = Some (-1405000).
Proof.
  refine (payer_flow_is_exact Demo.meta demo_sender [0] 10000000 8595000 _ _ _ _ _ _ _ _); try done.
  - split; repeat constructor; done.
  - constructor.
  - constructor.
  - apply NoDup_singleton.
  - intros i. rewrite list_elem_of_singleton. unfold own_account. cbn.
    split; [by left|]. intros [?|[(b & Hb & _)|(b & Hb & _)]]; [done| |]; by apply elem_of_nil in Hb.
Defined.

(** ** Pool swaps *)

Section pool.
Context `{CodecLaws}.

Record carries_pool (p : Protocol) (message : Message) (meta : TransactionStatusMeta)
    (swaps : list PoolSwap) (n : nat) : Prop := {
  pool_wf : Forall pool_swap_wf swaps;
  pool_logs : log_lines (pool_event p) (is_pool_event p) (log_messages meta) (take n swaps);
  pool_cut : (n < length swaps)%nat ->
             existsb (contains_str "Log truncated") (log_messages meta) = true;
  pool_calls : self_calls (pool_event p) (is_pool_event p) p
    (ix_data <$> find_program_pb_ixs message meta (keys_new message meta)
                   (pid_bytes (pump_swap_id (programs p)))) swaps
}.

Lemma carried_pool_events p message meta swaps n :
  pump_like p -> carries_pool p message meta swaps n -> amm_events p message meta = pool_trade p <$> swaps.
Proof.
  intros Hp [Hwf Hlogs Hcut Hcalls]. unfold amm_events.
  unfold decode_pump_swap_trades_from_logs, decode_pump_swap_trades_from_inner.
  rewrite (log_lines_decode (pool_event p) (is_pool_event p) pool_swap_wf _ (pool_trade p) _ (take n swaps));
    [|by intros; apply log_amm_trade_line|apply log_amm_trade_other|done|by apply Forall_take].
  rewrite (self_calls_decode (pool_event p) (is_pool_event p) p pool_swap_wf _ (pool_trade p) _ swaps);
    [|by intros; apply inner_amm_trade_call|apply inner_amm_trade_other|done|done].
  rewrite <- firstn_map. apply recovered_is_complete. by rewrite length_fmap.
Qed.

(** The account lists harvested for the executor are apart from what a trade tells. *)
Definition without_accounts (t : Trade) : Trade := {|
  tr_mint := tr_mint t; wallet := wallet t; tr_payer := tr_payer t; tr_is_proxied := tr_is_proxied t;
  side := side t; sol := sol t; sol_lamports := sol_lamports t; tokens := tokens t; price := price t;
  tr_fee_lamports := tr_fee_lamports t; tr_cu_limit := tr_cu_limit t; tr_cu_price := tr_cu_price t;
  tr_tip_lamports := tr_tip_lamports t; payer_net_lamports := payer_net_lamports t;
  venue_fee_bps := venue_fee_bps t; tr_signature := tr_signature t; tx_index := tx_index t;
  leg_index := leg_index t; slot := slot t; block_time := block_time t; received_at := received_at t;
  reserves := reserves t; venue := venue t; instruction_type := instruction_type t;
  instruction_labels := instruction_labels t; amm_swap_accounts := None;
  curve_creator := curve_creator t; swap_ix := swap_ix t |}.

Lemma amm_legs_tell st harvested leg resolved :
  without_accounts <$> omap as_trade (amm_legs st harvested leg resolved)
  = imap (fun i r => build_amm_trade st (leg + Z.of_nat i) r.1 r.2 None) resolved.
Proof.
  revert harvested leg. induction resolved as [|[ev mint] resolved IH]; intros h leg; [done|].
  cbn [amm_legs]. destruct (take_accounts _ _) as [accounts h'].
  cbn [omap list_omap as_trade fmap list_fmap imap]. f_equal.
  - unfold without_accounts, build_amm_trade. cbn. by rewrite Z.add_0_r.
  - change (list_fmap Trade Trade without_accounts ?l) with (without_accounts <$> l). rewrite IH.
    apply imap_ext. intros i r _. cbn. f_equal. lia.
Qed.

(** A transaction's pool swaps are told once each and in order, whatever its logs lost:
    the AMM decode emits one trade per swap that is not dust and whose pool is tracked, with
    the amounts, reserves and fee read off the swap's own event, on the coin of its pool. *)
Theorem every_pool_swap_is_told d info message meta slot received_at swaps n index :
  pump_like (protocol d) -> pool_index d = Some index ->
  carries_pool (protocol d) message meta swaps n ->
  without_accounts <$> trades_of (decode_amm_live_pb d info message meta slot received_at)
  = imap (fun i r => build_amm_trade (stamp_of (protocol d) info message meta slot received_at)
                       (Z.of_nat i) r.1 r.2 None)
      (resolve_trades (protocol d) index (pool_trade (protocol d) <$> swaps)).
Proof.
  intros Hp Hi Hc. unfold decode_amm_live_pb. rewrite Hi. cbv zeta.
  rewrite (carried_pool_events _ _ _ swaps n) by done.
  destruct (resolve_trades _ _ _) as [|r rs] eqn:E; [done|].
  unfold trades_of, events_of. rewrite amm_legs_tell. done.
Qed.

(** A buy fills its event one way when it names the tokens and the other way when it names
    the spend; the trade told is the same, and its fee is what was paid over the pool's own
    amount. *)
Lemma either_buy_instruction_tells_the_same e lps pool_amount paid :
  pool_amount <= paid ->
  quote_amount_in e = pool_amount -> user_quote_amount_in e = paid ->
  let e' := {| base_amount_out := base_amount_out e; buy_pool_base := buy_pool_base e;
               buy_pool_quote := buy_pool_quote e; quote_amount_in := paid;
               quote_amount_in_with_lp_fee := quote_amount_in_with_lp_fee e;
               user_quote_amount_in := pool_amount; buy_pool := buy_pool e; buy_user := buy_user e |} in
  amm_buy_trade e' lps = amm_buy_trade e lps
  /\ da_quote_lamports (amm_buy_trade e lps) = paid
  /\ da_fee_bps (amm_buy_trade e lps) = fee_bps_over (paid - pool_amount) pool_amount.
Proof.
  intros Hle E1 E2 e'. unfold amm_buy_trade, e'. cbn. rewrite E1, E2, Z.max_l, Z.min_r, Z.max_r, Z.min_l by done.
  done.
Qed.
End pool.

Definition demo_pool_swap (base quote : Z) : PoolSwap :=
  SwapBuy {| base_amount_out := base; buy_pool_base := 1000000; buy_pool_quote := 2000000000;
             quote_amount_in := quote; quote_amount_in_with_lp_fee := quote;
             user_quote_amount_in := quote + 3000; buy_pool := Demo.key 6; buy_user := Demo.key 3 |}
    (fun _ => 0) [].

Definition demo_pool_swaps : list PoolSwap := [demo_pool_swap 10 500000; demo_pool_swap 20 900000].

Definition demo_pool_ix (s : PoolSwap) : CompiledInstruction :=
  {| program_id_index := 1; ix_accounts := [2];
     ix_data := self_call (pool_event Demo.pumpfun) Demo.pumpfun s |}.

Definition demo_pool_message : Message := {|
  num_required_signatures := Some 1;
  account_keys := [Demo.key 3; pid_bytes (pump_swap_id (programs Demo.pumpfun)); Demo.key 6];
  instructions := [] |}.

Definition demo_pool_meta : TransactionStatusMeta := {|
  meta_fee := 5000; pre_balances := []; post_balances := [];
  inner_instructions := [{| inner_index := 0; inner_list := demo_pool_ix <$> demo_pool_swaps |}];
  log_messages := ["Log truncated"%string];
  pre_token_balances := []; post_token_balances := [];
  loaded_writable_addresses := []; loaded_readonly_addresses := [] |}.

Definition demo_pool_index : gmap string string := {["1" := "x"; Demo.text (Demo.key 6) := "coin"]}%string.

Lemma every_pool_swap_witness :
  length (trades_of (decode_amm_live_pb
    {| protocol := Demo.pumpfun; pool_index := Some demo_pool_index; pools_changed := None |}
    Demo.info demo_pool_message demo_pool_meta 7 8)) = 2%nat.
Proof.
  rewrite <- (length_fmap without_accounts).
  rewrite (every_pool_swap_is_told _ _ _ _ _ _ demo_pool_swaps 0 demo_pool_index).
  - by vm_compute.
  - done.
  - done.
  - split.
    + repeat constructor; cbn; unfold u64, u64_max; lia.
    + apply lines_other; [by vm_compute|]. constructor.
    + by vm_compute.
    + match goal with |- self_calls _ _ _ ?d _ =>
        replace d with (self_call (pool_event Demo.pumpfun) Demo.pumpfun <$> demo_pool_swaps) by (by vm_compute)
      end.
      do 2 apply calls_event. constructor.
Defined.

Lemma labels_ignore_arguments_witness :
  label_instruction MEMO_PROGRAM_ID (Some [1; 2; 3; 4; 5; 6; 7; 8; 9]) Demo.pumpfun
  = label_instruction MEMO_PROGRAM_ID (Some [1; 2; 3; 4; 5; 6; 7; 8; 10; 11]) Demo.pumpfun.
Proof. by apply labels_ignore_arguments. Defined.
