(* ===== verification/Handover.v ===== *)
(** * Handover: which feed carries the curve, and how it changes

    [assembly.rs] of the venue crate, [StreamScope] and [FeedCaps] of [core/src/feed.rs] and
    the subscription list of [venue.rs].  The translator task is a machine that takes one
    atomic step at a time ([run]) between the operator's sends; each send of a scope to a
    feed is a step.  [EvTimer] ends the wait of [HANDOVER]; the passing of time is not
    modelled, so the timer may end it at any point. *)

From S2P Require Export Decode.

(** ** Scopes *)

Record FeedCaps := { replay : bool; server_filter : bool; in_place_resubscribe : bool }.

Definition reconnect_on_backpressure (c : FeedCaps) : bool := replay c.

Definition LASERSTREAM_CAPS : FeedCaps :=
  {| replay := true; server_filter := true; in_place_resubscribe := true |}.

Definition NATS_CAPS : FeedCaps :=
  {| replay := false; server_filter := false; in_place_resubscribe := false |}.

Record StreamScope := { program : bool; pools : bool }.

Definition scope_is_empty (s : StreamScope) : bool := negb (program s) && negb (pools s).

Inductive FeedKind := Grpc | Nats.
#[export] Instance FeedKind_eq_dec : EqDecision FeedKind.
Proof. solve_decision. Defined.

Definition scope_for (kind curve : FeedKind) (filter : bool) : StreamScope :=
  {| program := bool_decide (kind = curve); pools := filter |}.

(** [PumpFunVenue::subscription_accounts]; the index is iterated in no particular order. *)
Definition subscription_accounts (p : Protocol) (index : gmap string string) (scope : StreamScope)
    : list string :=
  (if program scope then [pid_base58 (pump_fun_id (programs p))] else [])
  ++ (if pools scope then (map_to_list index).*1 else []).

Definition feed_count (nats_configured nats_feature : bool) : nat :=
  1 + (if nats_configured && nats_feature then 1 else 0).

Definition resolve_curve (curve : FeedKind) (nats_configured nats_feature : bool) : FeedKind :=
  if negb (bool_decide (curve = Nats)) then curve
  else if negb nats_configured then Grpc
  else if nats_feature then Nats else Grpc.

(** ** The translator *)

(** A spawned feed and the scope last sent to it. *)
Record FeedSlot := { kind : FeedKind; filters : bool; scope : StreamScope }.

Inductive Pc :=
  | Top
  | Waiting
  | Widening (next : FeedKind) (i : nat)
  | Holding (next : FeedKind)
  | Narrowing (next : FeedKind) (i : nat)
  | Ended.

(** [wanted] is the value of the watch channel, [unseen] whether it was written since the
    task last looked, [closed] whether its sender is gone. *)
Record Switch := {
  wanted : FeedKind;
  unseen : bool;
  closed : bool;
  current : FeedKind;
  pc : Pc;
  feeds : list FeedSlot
}.

Definition spawn_slot (curve : FeedKind) (k : FeedKind) (caps : FeedCaps) : FeedSlot :=
  {| kind := k; filters := server_filter caps; scope := scope_for k curve (server_filter caps) |}.

(** [spawn_feeds]. *)
Definition spawn_feeds (nats_configured : bool) (curve : FeedKind) : Switch := {|
  wanted := curve; unseen := false; closed := false; current := curve; pc := Top;
  feeds := spawn_slot curve Grpc LASERSTREAM_CAPS
           :: (if nats_configured then [spawn_slot curve Nats NATS_CAPS] else []) |}.

Definition goto (s : Switch) (seen : bool) (c : FeedKind) (q : Pc) : Switch := {|
  wanted := wanted s; unseen := if seen then false else unseen s; closed := closed s;
  current := c; pc := q; feeds := feeds s |}.

Definition set_feeds (s : Switch) (q : Pc) (fs : list FeedSlot) : Switch := {|
  wanted := wanted s; unseen := unseen s; closed := closed s; current := current s; pc := q; feeds := fs |}.

Definition rescope (next : FeedKind) (f : FeedSlot) : FeedSlot :=
  {| kind := kind f; filters := filters f; scope := scope_for (kind f) next (filters f) |}.

(** One turn of a loop over the feeds: the scope is sent only if [sends] it. *)
Definition send_scope (sends : StreamScope -> bool) (next : FeedKind) (f : FeedSlot) : FeedSlot :=
  if sends (scope_for (kind f) next (filters f)) then rescope next f else f.

(** [watch::Receiver::changed]: a write not seen yet, or the end of the sender. *)
Definition changed (s : Switch) : option (bool * Switch) :=
  if unseen s then Some (true, goto s true (current s) (pc s))
  else if closed s then Some (false, s)
  else None.

(** The next atomic step of the task; [None] while it waits. *)
Definition run (s : Switch) : option Switch :=
  match pc s with
  | Top =>
      if bool_decide (wanted s = current s) then Some (goto s true (current s) Waiting)
      else Some (goto s true (current s) (Widening (wanted s) 0))
  | Waiting =>
      '(ok, s) ← changed s;
      Some (goto s false (current s) (if (ok : bool) then Top else Ended))
  | Widening next i =>
      match feeds s !! i with
      | Some _ => Some (set_feeds s (Widening next (S i)) (alter (send_scope program next) i (feeds s)))
      | None => Some (goto s false (current s) (Holding next))
      end
  | Holding next =>
      '(ok, s) ← changed s;
      Some (goto s false (current s) (if (ok : bool) then Top else Ended))
  | Narrowing next i =>
      match feeds s !! i with
      | Some _ =>
          Some (set_feeds s (Narrowing next (S i)) (alter (send_scope (negb ∘ program) next) i (feeds s)))
      | None => Some (goto s false next Top)
      end
  | Ended => None
  end.

Inductive SwitchEvent := EvSend (k : FeedKind) | EvDrop | EvRun | EvTimer.

Definition step (s : Switch) (e : SwitchEvent) : option Switch :=
  match e with
  | EvSend k =>
      Some {| wanted := k; unseen := true; closed := closed s; current := current s; pc := pc s;
              feeds := feeds s |}
  | EvDrop =>
      Some {| wanted := wanted s; unseen := unseen s; closed := true; current := current s; pc := pc s;
              feeds := feeds s |}
  | EvRun => run s
  | EvTimer => match pc s with Holding next => Some (goto s false (current s) (Narrowing next 0)) | _ => None end
  end.

(** The machine from start-up, under a condition on what is sent. *)
Inductive reachable (ok : FeedKind -> Prop) (s0 : Switch) : Switch -> Prop :=
  | reach_start : reachable ok s0 s0
  | reach_step s e s' :
      reachable ok s0 s -> (forall k, e = EvSend k -> ok k) -> step s e = Some s' -> reachable ok s0 s'.

(** Left alone: the task runs until it waits, the hold ends by its timer. *)
Fixpoint settle (fuel : nat) (s : Switch) : Switch :=
  match fuel with
  | O => s
  | S fuel =>
      match run s with
      | Some s' => settle fuel s'
      | None => match step s EvTimer with Some s' => settle fuel s' | None => s end
      end
  end.

(** ** The curve always has an owner *)

Definition carries (fs : list FeedSlot) (k : FeedKind) : Prop :=
  Forall (fun f => kind f = k -> program (scope f) = true) fs.

Definition configured (fs : list FeedSlot) (k : FeedKind) : Prop := k ∈ kind <$> fs.

(** Who is sure to carry the curve at each point of the task. *)
Definition owners (s : Switch) : list FeedKind :=
  match pc s with
  | Holding next => [current s; next]
  | Narrowing next _ => [next]
  | _ => [current s]
  end.

Record switch_inv (s : Switch) : Prop := {
  inv_pools : Forall (fun f => pools (scope f) = filters f) (feeds s);
  inv_wanted : configured (feeds s) (wanted s);
  inv_owner : Forall (fun k => configured (feeds s) k /\ carries (feeds s) k) (owners s);
  inv_widening : forall next i, pc s = Widening next i ->
                 configured (feeds s) next /\ carries (take i (feeds s)) next
}.

Lemma send_scope_kind sends next f : kind (send_scope sends next f) = kind f.
Proof. unfold send_scope. by destruct (sends _). Qed.

Lemma send_scope_pools sends next f :
  pools (scope f) = filters f ->
  pools (scope (send_scope sends next f)) = filters (send_scope sends next f).
Proof. unfold send_scope. by destruct (sends _). Qed.

Lemma alter_kinds sends next (i : nat) (fs : list FeedSlot) : kind <$> alter (send_scope sends next) i fs = kind <$> fs.
Proof.
  revert i. induction fs as [|f fs IH]; intros [|i]; try done; cbn.
  - by rewrite send_scope_kind.
  - change (list_fmap FeedSlot FeedKind kind ?l) with (kind <$> l). f_equal. apply IH.
Qed.

Lemma alter_pools sends next (i : nat) (fs : list FeedSlot) :
  Forall (fun f => pools (scope f) = filters f) fs ->
  Forall (fun f => pools (scope f) = filters f) (alter (send_scope sends next) i fs).
Proof. intros H. apply Forall_alter; [done|]. intros f _ Hf. by apply send_scope_pools. Qed.

(** A loop that sends only scopes with the program takes the curve from nobody. *)
Lemma widen_keeps next k (i : nat) (fs : list FeedSlot) : carries fs k -> carries (alter (send_scope program next) i fs) k.
Proof.
  intros H. apply Forall_alter; [done|]. intros f _ Hf. rewrite send_scope_kind. intros E.
  unfold send_scope. destruct (program (scope_for _ _ _)) eqn:Ep; [done|]. by apply Hf.
Qed.

Lemma narrow_keeps next (i : nat) (fs : list FeedSlot) :
  carries fs next -> carries (alter (send_scope (negb ∘ program) next) i fs) next.
Proof.
  intros H. apply Forall_alter; [done|]. intros f _ Hf. rewrite send_scope_kind. intros E.
  unfold send_scope, compose. cbn [scope_for program]. rewrite bool_decide_eq_true_2 by done. cbn [negb].
  by apply Hf.
Qed.

Lemma widen_reaches next (i : nat) (fs : list FeedSlot) :
  carries (take i fs) next -> carries (take (S i) (alter (send_scope program next) i fs)) next.
Proof.
  revert i. induction fs as [|f fs IH]; intros [|i] H; cbn; try done.
  - constructor; [|constructor]. rewrite send_scope_kind. intros E. unfold send_scope.
    cbn [scope_for program]. rewrite bool_decide_eq_true_2 by done. cbn. by apply bool_decide_eq_true.
  - cbn in H. apply Forall_cons in H as [Hf H]. constructor; [done|]. by apply IH.
Qed.

Lemma spawn_feeds_inv nats curve :
  configured (feeds (spawn_feeds nats curve)) curve -> switch_inv (spawn_feeds nats curve).
Proof.
  intros Hc. split; [by destruct nats; repeat constructor|done| |done].
  constructor; [|constructor]. split; [done|].
  destruct nats, curve; repeat constructor; done.
Qed.

Lemma configured_alter sends next (i : nat) (fs : list FeedSlot) k :
  configured (alter (send_scope sends next) i fs) k <-> configured fs k.
Proof. unfold configured. by rewrite alter_kinds. Qed.

Lemma take_all_carries (fs : list FeedSlot) k i : fs !! i = None -> carries (take i fs) k -> carries fs k.
Proof. intros Hi. by rewrite take_ge by (by apply lookup_ge_None). Qed.

Lemma step_inv s e s' :
  switch_inv s -> (forall k, e = EvSend k -> configured (feeds s) k) -> step s e = Some s' ->
  switch_inv s' /\ kind <$> feeds s' = kind <$> feeds s.
Proof.
  intros [Hp Hw Ho Hwi] Hok. destruct e as [k| | |]; cbn [step].
  - intros [= <-]. split; [|done]. by split; [|apply Hok| |].
  - intros [= <-]. split; [|done]. by split.
  - unfold run, changed, owners in *. destruct (pc s) as [| |next i|next|next i|] eqn:Epc.
    + case_bool_decide; intros [= <-]; (split; [|done]); split; try done; cbn [goto pc feeds].
      intros next i [= <- <-]. split; [done|]. rewrite take_0. constructor.
    + destruct (unseen s); [|destruct (closed s); [|done]]; cbn [mbind option_bind];
        intros [= <-]; (split; [|done]); by split.
    + destruct (Hwi _ _ eq_refl) as [Hn Hcar]. apply Forall_cons in Ho as [[Hc1 Hc2] _].
      destruct (feeds s !! i) eqn:Ei; intros [= <-]; cbn [set_feeds goto feeds pc].
      * split; [|by rewrite alter_kinds]. split; cbn [set_feeds feeds wanted pc].
        -- by apply alter_pools.
        -- by apply configured_alter.
        -- unfold owners. cbn [set_feeds pc current]. constructor; [|constructor].
           split; [by apply configured_alter|by apply widen_keeps].
        -- intros n j [= <- <-]. split; [by apply configured_alter|by apply widen_reaches].
      * split; [|done]. split; try done. constructor; [done|]. constructor; [|constructor].
        split; [done|]. by eapply take_all_carries.
    + apply Forall_cons in Ho as [Hc _].
      destruct (unseen s); [|destruct (closed s); [|done]]; cbn [mbind option_bind];
        intros [= <-]; (split; [|done]); (split; try done); (constructor; [done|constructor]).
    + apply Forall_cons in Ho as [[Hc1 Hc2] _].
      destruct (feeds s !! i) eqn:Ei; intros [= <-]; cbn [set_feeds goto feeds pc].
      * split; [|by rewrite alter_kinds]. split; cbn [set_feeds feeds wanted pc]; [|by apply configured_alter| |done].
        -- by apply alter_pools.
        -- unfold owners. cbn [set_feeds pc]. constructor; [|constructor].
           split; [by apply configured_alter|by apply narrow_keeps].
      * split; [|done]. split; try done. constructor; [done|constructor].
    + done.
  - destruct (pc s) eqn:Epc; try done. intros [= <-]. unfold owners in Ho. rewrite Epc in Ho.
    apply Forall_cons in Ho as [_ Ho]. split; [|done]. by split.
Qed.

Lemma switch_reachable_inv nats curve s :
  configured (feeds (spawn_feeds nats curve)) curve ->
  reachable (configured (feeds (spawn_feeds nats curve))) (spawn_feeds nats curve) s ->
  switch_inv s /\ kind <$> feeds s = kind <$> feeds (spawn_feeds nats curve).
Proof.
  intros Hc. induction 1 as [|s e s' _ [Hi Hk] Hok Hs]; [split; [by apply spawn_feeds_inv|done]|].
  destruct (step_inv s e s' Hi) as [Hi' Hk'];
    [intros k E; unfold configured; rewrite Hk; by apply Hok|done|].
  split; [done|congruence].
Qed.

(** C16: while only configured feeds are asked for, the bonding curve is never without a feed,
    at any point of any sequence of hand-overs, switches back and shutdowns included; and no
    hand-over moves the pools: every feed that can filter for them keeps them throughout. *)
Theorem the_curve_is_never_unowned nats curve s :
  configured (feeds (spawn_feeds nats curve)) curve ->
  reachable (configured (feeds (spawn_feeds nats curve))) (spawn_feeds nats curve) s ->
  (exists f, f ∈ feeds s /\ program (scope f) = true)
  /\ Forall (fun f => pools (scope f) = filters f) (feeds s).
Proof.
  intros Hc Hr. destruct (switch_reachable_inv _ _ _ Hc Hr) as [[Hp _ Ho _] _]. split; [|done].
  assert (exists k, k ∈ owners s) as [k Hk].
  { unfold owners. destruct (pc s); eexists; left. }
  rewrite Forall_forall in Ho. destruct (Ho k Hk) as [Hcfg Hcar].
  apply list_elem_of_fmap in Hcfg as (f & -> & Hf). exists f. split; [done|].
  unfold carries in Hcar. rewrite Forall_forall in Hcar. by apply Hcar.
Qed.

(** ** What a hand-over ends in *)

Lemma run_widening s next i :
  pc s = Widening next i ->
  run s = match feeds s !! i with
          | Some _ => Some (set_feeds s (Widening next (S i)) (alter (send_scope program next) i (feeds s)))
          | None => Some (goto s false (current s) (Holding next))
          end.
Proof. intros E. unfold run. by rewrite E. Qed.

Lemma send_both next f : send_scope (negb ∘ program) next (send_scope program next f) = rescope next f.
Proof.
  unfold send_scope, rescope, compose. destruct f as [k fl sc]. cbn.
  destruct (bool_decide (k = next)) eqn:E; cbn; by rewrite ?E.
Qed.

Lemma alter_prefix (g : FeedSlot -> FeedSlot) (done todo : list FeedSlot) f :
  alter g (length done) (done ++ f :: todo) = (done ++ [g f]) ++ todo.
Proof. rewrite <- (Nat.add_0_r (length done)), alter_app_r. cbn. by rewrite <- app_assoc. Qed.

(** The loop of [Widening] over what is left of the feeds, and that of [Narrowing]. *)
Lemma settle_widening todo : forall s next done fuel,
  pc s = Widening next (length done) -> feeds s = done ++ todo ->
  settle (length todo + fuel) s
  = settle fuel (set_feeds s (Widening next (length (done ++ todo)))
                   (done ++ (send_scope program next <$> todo))).
Proof.
  induction todo as [|f todo IH]; intros s next done fuel Hpc Hfs.
  - cbn [length Nat.add fmap list_fmap]. f_equal. destruct s; cbn in *; subst. by rewrite !app_nil_r.
  - cbn [length Nat.add settle]. unfold run. rewrite Hpc, Hfs.
    rewrite (list_lookup_middle done todo f (length done) eq_refl).
    rewrite alter_prefix.
    rewrite (IH _ next (done ++ [send_scope program next f]) fuel);
      [|cbn; by rewrite length_app, Nat.add_1_r|done].
    rewrite <- !app_assoc, !length_app. done.
Qed.

Lemma settle_narrowing todo : forall s next done fuel,
  pc s = Narrowing next (length done) -> feeds s = done ++ todo ->
  settle (length todo + fuel) s
  = settle fuel (set_feeds s (Narrowing next (length (done ++ todo)))
                   (done ++ (send_scope (negb ∘ program) next <$> todo))).
Proof.
  induction todo as [|f todo IH]; intros s next done fuel Hpc Hfs.
  - cbn [length Nat.add fmap list_fmap]. f_equal. destruct s; cbn in *; subst. by rewrite !app_nil_r.
  - cbn [length Nat.add settle]. unfold run. rewrite Hpc, Hfs.
    rewrite (list_lookup_middle done todo f (length done) eq_refl).
    rewrite alter_prefix.
    rewrite (IH _ next (done ++ [send_scope (negb ∘ program) next f]) fuel);
      [|cbn; by rewrite length_app, Nat.add_1_r|done].
    rewrite <- !app_assoc, !length_app. done.
Qed.

Definition settled (k : FeedKind) (fs : list FeedSlot) : Switch :=
  {| wanted := k; unseen := false; closed := false; current := k; pc := Waiting; feeds := fs |}.

Lemma settle_waiting k fs fuel : settle fuel (settled k fs) = settled k fs.
Proof. by destruct fuel. Qed.

Lemma handover_ends w u cur fs fuel :
  w <> cur -> (2 * length fs + 5 <= fuel)%nat ->
  settle fuel {| wanted := w; unseen := u; closed := false; current := cur; pc := Top; feeds := fs |}
  = settled w (rescope w <$> fs).
Proof.
  intros Hne Hfuel.
  replace fuel with
    (S (length fs + S (S (length fs + S (S (fuel - (2 * length fs + 5)))))))%nat by lia.
  cbn [settle]. unfold run at 1. cbn [pc wanted current]. rewrite bool_decide_eq_false_2 by done.
  unfold goto at 1. cbn.
  rewrite (settle_widening fs _ w []) by done.
  cbn [app length set_feeds settle wanted current closed unseen].
  unfold run at 1. cbn [pc feeds set_feeds].
  rewrite (lookup_ge_None_2 (send_scope program w <$> fs)) by (by rewrite length_fmap).
  unfold goto at 1. cbn [set_feeds wanted unseen closed current feeds]. cbn [settle].
  unfold run at 1, changed. cbn [pc unseen closed mbind option_bind step]. unfold goto at 1. cbn.
  rewrite <- (length_fmap (send_scope program w) fs) at 1.
  rewrite (settle_narrowing (send_scope program w <$> fs) _ w []) by done.
  cbn [app length set_feeds settle wanted current closed unseen].
  unfold run at 1. cbn [pc feeds set_feeds].
  rewrite (lookup_ge_None_2 (send_scope (negb ∘ program) w <$> _)) by (by rewrite length_fmap).
  unfold goto at 1. cbn [set_feeds wanted unseen closed current feeds]. cbn [settle].
  unfold run at 1. cbn [pc wanted current]. rewrite bool_decide_eq_true_2 by done.
  unfold goto at 1. cbn [wanted unseen closed current feeds].
  replace (send_scope (negb ∘ program) w <$> (send_scope program w <$> fs)) with (rescope w <$> fs).
  - apply settle_waiting.
  - rewrite <- list_fmap_compose. apply list_fmap_ext. intros i f _. symmetry. apply send_both.
Qed.

(** C17: a hand-over left alone ends, and ends exactly: from any state in which a feed other
    than the current owner was asked for, the task comes to wait after at most two steps per
    feed and five more, with every feed in the scope the rule gives it for the new owner,
    whatever scopes it had before. *)
Theorem undisturbed_handover_is_exact s fuel :
  pc s = Top -> wanted s <> current s -> closed s = false ->
  (2 * length (feeds s) + 5 <= fuel)%nat ->
  let s' := settle fuel s in
  pc s' = Waiting /\ unseen s' = false /\ current s' = wanted s
  /\ feeds s' = rescope (wanted s) <$> feeds s.
Proof.
  intros Hpc Hne Hcl Hfuel. destruct s as [w u c cur q fs]. cbn [pc wanted current closed feeds] in *.
  subst. cbv zeta. rewrite handover_ends by done. done.
Qed.

(** ** Two ways it does not end exactly *)

(** A switch back during the hold leaves two feeds on the curve: from any hold, when the
    operator asks for the old owner again the task comes to wait for good, and the feed that
    was gaining the curve keeps it. *)
Theorem switch_back_leaves_two_feeds s next :
  switch_inv s -> pc s = Holding next -> next <> current s ->
  exists s1 s2 s3,
    step s (EvSend (current s)) = Some s1 /\ run s1 = Some s2 /\ run s2 = Some s3
    /\ pc s3 = Waiting /\ wanted s3 = current s3 /\ current s3 = current s
    /\ (closed s = false -> run s3 = None)
    /\ exists f g, f ∈ feeds s3 /\ g ∈ feeds s3 /\ kind f = current s /\ kind g = next
                  /\ program (scope f) = true /\ program (scope g) = true.
Proof.
  intros [_ _ Ho _] Hpc Hne. destruct s as [w u c cur q fs]. cbn [pc current closed feeds] in *. subst q.
  unfold owners in Ho. cbn [pc current feeds] in Ho.
  apply Forall_cons in Ho as [[Hc1 Hc2] [[Hn1 Hn2] _]%Forall_cons].
  eexists _, _, _. split; [done|]. split; [done|]. split.
  { unfold run. cbn. by rewrite bool_decide_eq_true_2. }
  do 3 (split; [done|]). split; [cbn; by intros ->|].
  apply list_elem_of_fmap in Hc1 as (f & Ef & Hf), Hn1 as (g & Eg & Hg).
  unfold carries in *. rewrite Forall_forall in Hc2. rewrite Forall_forall in Hn2.
  exists f, g. repeat split; [done|done|done|done|by apply Hc2|by apply Hn2].
Qed.

Lemma unconfigured_feed_stops_the_curve :
  let s := settle 20 (default (spawn_feeds false Grpc) (step (spawn_feeds false Grpc) (EvSend Nats))) in
  pc s = Waiting /\ Forall (fun f => program (scope f) = false) (feeds s).
Proof. split; [done|]. by repeat constructor. Qed.

(** ** At a concrete session *)

Lemma grpc_is_configured : configured (feeds (spawn_feeds true Nats)) Nats.
Proof. right. left. Defined.

Definition asked : Switch :=
  {| wanted := Grpc; unseen := true; closed := false; current := Nats; pc := Top;
     feeds := feeds (spawn_feeds true Nats) |}.

Definition at_hold : Switch := Nat.iter 4 (fun s => default s (run s)) asked.

Lemma run_reachable ok s0 s n :
  reachable ok s0 s -> reachable ok s0 (Nat.iter n (fun s => default s (run s)) s).
Proof.
  intros H. induction n as [|n IH]; [done|]. cbn [Nat.iter]. set (s' := Nat.iter n _ s) in *. cbn.
  change (nat_rect _ s _ n) with s'. destruct (run s') as [s1|] eqn:E; [|done].
  by eapply (reach_step _ _ _ EvRun).
Qed.

Lemma the_curve_is_never_unowned_witness :
  exists f, f ∈ feeds at_hold /\ program (scope f) = true.
Proof.
  refine (proj1 (the_curve_is_never_unowned true Nats at_hold grpc_is_configured _)).
  assert (Hok : forall k, configured (feeds (spawn_feeds true Nats)) k)
    by (intros []; [left|right; left]).
  apply run_reachable. eapply (reach_step _ _ _ (EvSend Grpc)); [apply reach_start|intros; apply Hok|reflexivity].
Defined.

Lemma undisturbed_handover_witness :
  feeds (settle 9 {| wanted := Grpc; unseen := false; closed := false; current := Nats; pc := Top;
                     feeds := feeds (spawn_feeds true Nats) |})
  = [{| kind := Grpc; filters := true; scope := {| program := true; pools := true |} |};
     {| kind := Nats; filters := false; scope := {| program := false; pools := false |} |}].
Proof.
  refine (proj2 (proj2 (proj2 (undisturbed_handover_is_exact _ _ _ _ _ _)))); [done|done|done|cbn; lia].
Defined.

Lemma at_hold_inv : switch_inv at_hold.
Proof.
  split.
  - by repeat constructor.
  - left.
  - constructor; [|constructor; [|constructor]]; (split; [(left || (right; left))|by repeat constructor]).
  - by intros next i [=].
Qed.

Lemma switch_back_witness :
  exists s3, pc s3 = Waiting /\ exists g, g ∈ feeds s3 /\ kind g = Grpc /\ program (scope g) = true.
Proof.
  destruct (switch_back_leaves_two_feeds at_hold Grpc at_hold_inv eq_refl ltac:(done))
    as (s1 & s2 & s3 & _ & _ & _ & Hw & _ & _ & _ & f & g & _ & Hg & _ & Eg & _ & Hp).
  exists s3. split; [done|]. by exists g.
Defined.
