(* ===== verification/Supervisor.v ===== *)
(** * Supervisor: one feed, from the wire to the decode lanes

    [supervisor.rs], [push.rs], [config.rs] and the seams of [feed.rs] and [venue.rs] of the
    ingest core, with the pool tracking of [session.rs].  The loop of [run] is a machine
    ([task_step]) that moves when something it waits for happens: each event comes with the
    instant, what the task reads of the host then ([Host]), and the answer of the code the
    task calls (the wire, the lane).  Times are nanoseconds of one monotonic clock; the log
    lines, and the clock that paces them, are not modelled.  A [changed] of a watch channel
    may fire at any time, so the flag that tells a write from none is not kept. *)

From S2P Require Import Dedupe.
From S2P Require Export Handover.
#[local] Open Scope Z_scope.

(** ** Time *)

Definition secs (n : Z) : Z := n * 1000000000.
Definition millis (n : Z) : Z := n * 1000000.

(** [Instant::elapsed], which never runs backwards, and [Duration::as_secs]. *)
Definition elapsed (now since : Z) : Z := Z.max 0 (now - since).
Definition as_secs (d : Z) : Z := d / 1000000000.

(** ** What a wire says and is asked *)

Inductive Commitment := Processed | Confirmed | Finalized.

Record Subscription := {
  sub_filter_key : string;
  account_include : list string;
  sub_from_slot : option Z;
  sub_commitment : Commitment;
  blocks_meta : bool;
  sub_watch_accounts : list string
}.

Inductive FeedUpdate :=
  | TransactionUpdate (tx : SubscribeUpdateTransaction)
  | BlockMeta (slot : Z) (blockhash : string) (block_time : option Z)
  | AccountUpdate (slot : Z) (pubkey : string) (lamports : Z) (data : Bytes)
  | Tick.

Inductive FeedError :=
  | ConnectFailed (m : string)
  | SubscribeFailed (m : string)
  | StreamFailed (m : string)
  | ExhaustedBy (m : string)
  | ClosedByServer.

Record FeedPolicy := {
  reconnect_base : Z;
  reconnect_max_backoff : Z;
  idle_reconnect_timeout : Z;
  idle_check_interval : Z;
  pipeline_send_timeout : Z;
  resubscribe_debounce : Z;
  commitment : Commitment
}.

Definition default_policy : FeedPolicy := {|
  reconnect_base := secs 1;
  reconnect_max_backoff := secs 30;
  idle_reconnect_timeout := secs 10;
  idle_check_interval := secs 2;
  pipeline_send_timeout := secs 10;
  resubscribe_debounce := millis 250;
  commitment := Processed |}.

Definition MAX_REPLAY_ATTEMPTS : Z := 3.
Definition HEALTHY_UPTIME : Z := secs 30.

(** ** Why an attempt ended *)

Inductive DisconnectReason :=
  | Graceful
  | DownstreamClosed
  | IdleTimeout
  | PipelineBackpressure
  | Exhausted
  | StreamError
  | ConnectError.
#[export] Instance DisconnectReason_eq_dec : EqDecision DisconnectReason.
Proof. solve_decision. Defined.

Definition reason_label (r : DisconnectReason) : string :=
  match r with
  | Graceful => "graceful"
  | DownstreamClosed => "downstream_closed"
  | IdleTimeout => "idle_timeout"
  | PipelineBackpressure => "pipeline_backpressure"
  | Exhausted => "exhausted"
  | StreamError => "stream_error"
  | ConnectError => "connect_error"
  end.

Definition is_terminal (r : DisconnectReason) : bool :=
  match r with DownstreamClosed => true | _ => false end.

Definition forbids_replay (r : DisconnectReason) : bool :=
  match r with PipelineBackpressure | Exhausted => true | _ => false end.

Definition reason_of (e : FeedError) : DisconnectReason :=
  match e with
  | ConnectFailed _ => ConnectError
  | SubscribeFailed _ | StreamFailed _ => StreamError
  | ExhaustedBy _ => Exhausted
  | ClosedByServer => Graceful
  end.

Definition error_label (e : FeedError) : string :=
  match e with
  | ConnectFailed _ => "connect"
  | SubscribeFailed _ => "subscribe"
  | StreamFailed _ => "stream"
  | ExhaustedBy _ => "exhausted"
  | ClosedByServer => "closed"
  end.

Record ReconnectCounts := {
  n_graceful : Z; n_downstream_closed : Z; n_idle_timeout : Z; n_backpressure : Z;
  n_exhausted : Z; n_stream_error : Z; n_connect_error : Z
}.

Definition no_reconnects : ReconnectCounts := {|
  n_graceful := 0; n_downstream_closed := 0; n_idle_timeout := 0; n_backpressure := 0;
  n_exhausted := 0; n_stream_error := 0; n_connect_error := 0 |}.

Definition record_reason (r : DisconnectReason) (n : ReconnectCounts) : ReconnectCounts :=
  let up (here : bool) (k : Z) := if here then k + 1 else k in
  {| n_graceful := up (bool_decide (r = Graceful)) (n_graceful n);
     n_downstream_closed := up (bool_decide (r = DownstreamClosed)) (n_downstream_closed n);
     n_idle_timeout := up (bool_decide (r = IdleTimeout)) (n_idle_timeout n);
     n_backpressure := up (bool_decide (r = PipelineBackpressure)) (n_backpressure n);
     n_exhausted := up (bool_decide (r = Exhausted)) (n_exhausted n);
     n_stream_error := up (bool_decide (r = StreamError)) (n_stream_error n);
     n_connect_error := up (bool_decide (r = ConnectError)) (n_connect_error n) |}.

Record FeedStats := { updates : Z; routed : Z; duplicates : Z; irrelevant : Z; shed : Z }.

Definition no_stats : FeedStats := {| updates := 0; routed := 0; duplicates := 0; irrelevant := 0; shed := 0 |}.

Definition one_update (s : FeedStats) : FeedStats :=
  {| updates := updates s + 1; routed := routed s; duplicates := duplicates s; irrelevant := irrelevant s; shed := shed s |}.
Definition one_routed (s : FeedStats) : FeedStats :=
  {| updates := updates s; routed := routed s + 1; duplicates := duplicates s; irrelevant := irrelevant s; shed := shed s |}.
Definition one_duplicate (s : FeedStats) : FeedStats :=
  {| updates := updates s; routed := routed s; duplicates := duplicates s + 1; irrelevant := irrelevant s; shed := shed s |}.
Definition one_irrelevant (s : FeedStats) : FeedStats :=
  {| updates := updates s; routed := routed s; duplicates := duplicates s; irrelevant := irrelevant s + 1; shed := shed s |}.
Definition one_shed (s : FeedStats) : FeedStats :=
  {| updates := updates s; routed := routed s; duplicates := duplicates s; irrelevant := irrelevant s; shed := shed s + 1 |}.

(** Where a reconnect would resume from, and when that slot was seen. *)
Record ReplayAnchor := { anchor_slot : Z; seen_at : Z }.

Record Attempt := { reason : DisconnectReason; att_progress : option ReplayAnchor }.

(** A delay and up to 49% more; [nanos] are the sub-second nanoseconds of the wall clock. *)
Definition with_jitter (base nanos : Z) : Z :=
  let extra_ms := Z.min u64_max ((base / 1000000) mod 2 ^ 64 * (nanos mod 50)) / 100 in
  base + millis extra_ms.

(** ** The host *)

(** [PushHooks]: which callbacks are set, and the watched accounts now. *)
Record PushHooks := { on_block_meta : bool; on_account : bool; watch_accounts : list string }.

Definition wants_blocks_meta (p : PushHooks) : bool := on_block_meta p.
Definition account_filter (p : PushHooks) : list string := if on_account p then watch_accounts p else [].
Definition is_nil {A} (l : list A) : bool := match l with [] => true | _ => false end.
Definition wants_stream (p : PushHooks) : bool := negb (is_nil (account_filter p)).

(** What a venue promises to the supervisor. *)
Class IngestVenue := {
  Relevance : Type;
  filter_key : string;
  accounts_for : gmap string string -> StreamScope -> list string;
  venue_classify : SubscribeUpdateTransaction -> option Relevance;
  on_create_lane : Relevance -> bool;
  venue_derive_pool : string -> option string
}.

Definition PumpFunVenue `{Codecs} (d : Decoder) : IngestVenue := {|
  Relevance := TxRelevance;
  filter_key := "pumpfun";
  accounts_for := subscription_accounts (protocol d);
  venue_classify := classify d;
  on_create_lane := is_create_lane;
  venue_derive_pool := fun mint => derive_pool mint (protocol d) |}.

(** What a feed reads of the rest of the program at an instant: the pool index, the hooks,
    the live gate, its own scope, the gap-replay setting, the dedupe ring and the wall clock. *)
Record Host := {
  h_index : gmap string string;
  h_push : PushHooks;
  h_live : bool;
  h_scope : StreamScope;
  h_gap : bool * Z;
  h_ring : option Dedupe.t;
  h_nanos : Z
}.

#[export] Instance StreamScope_eq_dec : EqDecision StreamScope.
Proof. solve_decision. Defined.

(** ** The decisions *)

Section Decisions.
Context `{IngestVenue} (caps : FeedCaps) (policy : FeedPolicy).

Definition idle_reason (h : Host) (sc : StreamScope) : option string :=
  if scope_is_empty sc then Some "another feed carries this traffic"
  else if server_filter caps && is_nil (accounts_for (h_index h) sc) && negb (wants_stream (h_push h))
  then Some "no accounts to watch — waiting for a tracked pool"
  else None.

Inductive IdleBasis := Transactions | AnyFrame.

Definition idle_basis (sc : StreamScope) (meta : bool) : option (IdleBasis * string) :=
  if negb (server_filter caps) then Some (AnyFrame, "frame")
  else if program sc then Some (Transactions, "transaction update")
  else if meta then Some (AnyFrame, "stream frame")
  else None.

Definition carries_transactions (include : list string) : bool :=
  negb (server_filter caps) || negb (is_nil include).

Definition build_subscription (h : Host) (sc : StreamScope) (from_slot : option Z) : Subscription :=
  let include := if server_filter caps then accounts_for (h_index h) sc else [] in
  {| sub_filter_key := filter_key;
     blocks_meta := wants_blocks_meta (h_push h) && carries_transactions include;
     account_include := include;
     sub_from_slot := from_slot;
     sub_commitment := commitment policy;
     sub_watch_accounts := account_filter (h_push h) |}.

(** The slot to resume at, and the anchor after. *)
Definition resolve_from_slot (anchor : option ReplayAnchor) (gap_replay_on : bool) (gap_max_secs now : Z)
    : option Z * option ReplayAnchor :=
  match anchor with
  | None => (None, None)
  | Some a =>
      if negb gap_replay_on then (None, anchor)
      else if gap_max_secs <? as_secs (elapsed now (seen_at a)) then (None, None)
      else (Some ((anchor_slot a + 1) mod 2 ^ 64), anchor)
  end.

(** ** Routing *)

Inductive SendResult := Sent | SendTimedOut | SendClosed.

Inductive Routed := RoutedOk | Dropped | Backpressure | RoutedClosed.

(** What the task does to the rest of the program. *)
Inductive Effect :=
  | Asked (sub : Subscription)
  | ToLane (create : bool) (tx : SubscribeUpdateTransaction) (rel : Relevance)
  | MetaHook (slot : Z) (blockhash : string) (block_time : option Z)
  | AccountHook (slot : Z) (pubkey : string) (lamports : Z) (data : Bytes).

Definition admit_fresh (ring : option Dedupe.t) (tx : SubscribeUpdateTransaction) : bool * option Dedupe.t :=
  match ring with
  | None => (true, None)
  | Some d =>
      match update_transaction tx with
      | None => (false, Some d)
      | Some info => let '(d, fresh) := Dedupe.insert_new d (info_signature info) in (fresh, Some d)
      end
  end.

Definition route (ring : option Dedupe.t) (tx : SubscribeUpdateTransaction) (send : SendResult) (st : FeedStats)
    : Routed * FeedStats * option Dedupe.t * list Effect :=
  let '(fresh, ring) := admit_fresh ring tx in
  if negb fresh then (Dropped, one_duplicate st, ring, [])
  else
    match venue_classify tx with
    | None => (Dropped, one_irrelevant st, ring, [])
    | Some rel =>
        match send with
        | Sent => (RoutedOk, one_routed st, ring, [ToLane (on_create_lane rel) tx rel])
        | SendTimedOut =>
            (if reconnect_on_backpressure caps then Backpressure else Dropped, one_shed st, ring, [])
        | SendClosed => (RoutedClosed, st, ring, [])
        end
    end.

(** ** One connection *)

(** [wire] is the filter the open connection was last asked for; [debouncing] whether the
    task sits in the inner loop that lets a burst of pool changes pass. *)
Record Conn := {
  wire : Subscription;
  conn_scope : StreamScope;
  sub_blocks_meta : bool;
  progress : option ReplayAnchor;
  stats : FeedStats;
  last_update : Z;
  last_frame : Z;
  watched_live : bool;
  debouncing : bool
}.

Definition opened (sub : Subscription) (sc : StreamScope) (now : Z) : Conn := {|
  wire := sub; conn_scope := sc; sub_blocks_meta := blocks_meta sub; progress := None; stats := no_stats;
  last_update := now; last_frame := now; watched_live := true; debouncing := false |}.

Inductive Outcome := Goes (c : Conn) | Ends (a : Attempt).

Definition finish (c : Conn) (r : DisconnectReason) : Outcome :=
  Ends {| reason := r; att_progress := progress c |}.

Definition set_stats (c : Conn) (st : FeedStats) : Conn := {|
  wire := wire c; conn_scope := conn_scope c; sub_blocks_meta := sub_blocks_meta c; progress := progress c;
  stats := st; last_update := last_update c; last_frame := last_frame c; watched_live := watched_live c;
  debouncing := debouncing c |}.

Definition frame_arrived (c : Conn) (now : Z) : Conn := {|
  wire := wire c; conn_scope := conn_scope c; sub_blocks_meta := sub_blocks_meta c; progress := progress c;
  stats := one_update (stats c); last_update := last_update c; last_frame := now;
  watched_live := watched_live c; debouncing := debouncing c |}.

Definition advances (c : Conn) (slot : Z) : bool :=
  match progress c with None => true | Some p => anchor_slot p <? slot end.

Definition slot_seen (c : Conn) (slot : Z) : Conn :=
  if advances c slot then {|
    wire := wire c; conn_scope := conn_scope c; sub_blocks_meta := sub_blocks_meta c;
    progress := Some {| anchor_slot := slot; seen_at := last_frame c |};
    stats := stats c; last_update := last_frame c; last_frame := last_frame c;
    watched_live := watched_live c; debouncing := debouncing c |}
  else c.

Definition with_filter (c : Conn) (sc : StreamScope) (sub : Subscription) : Conn := {|
  wire := sub; conn_scope := sc; sub_blocks_meta := blocks_meta sub; progress := progress c;
  stats := stats c; last_update := last_update c; last_frame := last_frame c;
  watched_live := watched_live c; debouncing := false |}.

Definition set_flags (c : Conn) (sc : StreamScope) (watched deb : bool) : Conn := {|
  wire := wire c; conn_scope := sc; sub_blocks_meta := sub_blocks_meta c; progress := progress c;
  stats := stats c; last_update := last_update c; last_frame := last_frame c;
  watched_live := watched; debouncing := deb |}.

(** [EvPools] is a wake-up for the pool set, [EvQuiet] the end of the quiet window after it;
    an answer [Some e] is a failed resubscribe. *)
Inductive ConnEvent :=
  | EvUpdate (r : FeedError + FeedUpdate) (send : SendResult)
  | EvPools
  | EvQuiet (answer : option FeedError)
  | EvWatched (closed : bool) (answer : option FeedError)
  | EvLive (closed : bool)
  | EvScope (closed : bool) (answer : option FeedError)
  | EvIdleTick.

Definition on_update (h : Host) (now : Z) (u : FeedUpdate) (send : SendResult) (c : Conn)
    : Outcome * option Dedupe.t * list Effect :=
  let c := frame_arrived c now in
  match u with
  | BlockMeta slot hash time =>
      (Goes c, h_ring h, if on_block_meta (h_push h) then [MetaHook slot hash time] else [])
  | AccountUpdate slot key lamports data =>
      (Goes c, h_ring h, if on_account (h_push h) then [AccountHook slot key lamports data] else [])
  | Tick => (Goes c, h_ring h, [])
  | TransactionUpdate tx =>
      let c := slot_seen c (update_slot tx) in
      let '(r, st, ring, fx) := route (h_ring h) tx send (stats c) in
      let c := set_stats c st in
      (match r with
       | RoutedOk | Dropped => Goes c
       | Backpressure => finish c PipelineBackpressure
       | RoutedClosed => finish c DownstreamClosed
       end, ring, fx)
  end.

(** Ask the wire for the filter of the scope as the host stands, or reconnect to apply it. *)
Definition refilter (h : Host) (answer : option FeedError) (c : Conn) (sc : StreamScope)
    : Outcome * list Effect :=
  if negb (in_place_resubscribe caps) then (finish c Graceful, [])
  else
    let sub := build_subscription h sc None in
    let c := with_filter c sc sub in
    (match answer with Some e => finish c (reason_of e) | None => Goes c end, [Asked sub]).

Definition on_scope (h : Host) (answer : option FeedError) (c : Conn) : Outcome * list Effect :=
  let sc := h_scope h in
  if bool_decide (sc = conn_scope c) then (Goes c, [])
  else
    let c := set_flags c sc (watched_live c) (debouncing c) in
    match idle_reason h sc with
    | Some _ => (finish c Graceful, [])
    | None => if server_filter caps then refilter h answer c sc else (Goes c, [])
    end.

Definition on_idle_tick (now : Z) (c : Conn) : Outcome :=
  match idle_basis (conn_scope c) (sub_blocks_meta c) with
  | None => Goes c
  | Some (basis, _) =>
      let idle := match basis with
                  | Transactions => elapsed now (last_update c)
                  | AnyFrame => elapsed now (last_frame c)
                  end in
      if idle_reconnect_timeout policy <=? idle then finish c IdleTimeout else Goes c
  end.

(** One arm of the loop; [None] when the arm is not polled. *)
Definition conn_step (h : Host) (now : Z) (e : ConnEvent) (c : Conn)
    : option (Outcome * option Dedupe.t * list Effect) :=
  if debouncing c then
    match e with
    | EvPools => Some (Goes c, h_ring h, [])
    | EvQuiet answer =>
        let '(o, fx) := refilter h answer c (conn_scope c) in Some (o, h_ring h, fx)
    | _ => None
    end
  else
    match e with
    | EvUpdate (inl err) _ => Some (finish c (reason_of err), h_ring h, [])
    | EvUpdate (inr u) send => Some (on_update h now u send c)
    | EvPools =>
        if server_filter caps
        then Some (Goes (set_flags c (conn_scope c) (watched_live c) true), h_ring h, [])
        else None
    | EvQuiet _ => None
    | EvWatched closed answer =>
        if watched_live c && server_filter caps then
          if closed then Some (Goes (set_flags c (conn_scope c) false false), h_ring h, [])
          else let '(o, fx) := refilter h answer c (conn_scope c) in Some (o, h_ring h, fx)
        else None
    | EvLive closed =>
        Some (if closed then finish c DownstreamClosed
              else if negb (h_live h) then finish c Graceful else Goes c, h_ring h, [])
    | EvScope closed answer =>
        if closed then Some (finish c DownstreamClosed, h_ring h, [])
        else let '(o, fx) := on_scope h answer c in Some (o, h_ring h, fx)
    | EvIdleTick => Some (on_idle_tick now c, h_ring h, [])
    end.

(** ** The feed across its connections *)

Record Book := {
  anchor : option ReplayAnchor;
  backoff : Z;
  counts : ReconnectCounts;
  replay_attempts : Z;
  warned_no_replay : bool
}.

Definition new_book : Book := {|
  anchor := None; backoff := reconnect_base policy; counts := no_reconnects; replay_attempts := 0;
  warned_no_replay := false |}.

(** The resume point of the attempt about to start. *)
Definition resume_point (gap : bool * Z) (now : Z) (b : Book) : option Z * Book :=
  let '(on, max_secs) := gap in
  if replay caps then
    let '(from, a) := resolve_from_slot (anchor b) on max_secs now in
    (from, {| anchor := a; backoff := backoff b; counts := counts b; replay_attempts := replay_attempts b;
              warned_no_replay := warned_no_replay b |})
  else
    (None, {| anchor := anchor b; backoff := backoff b; counts := counts b;
              replay_attempts := replay_attempts b; warned_no_replay := warned_no_replay b || on |}).

(** Anchor and replay attempts after an attempt. *)
Definition anchor_after (from : option Z) (att : Attempt) (b : Book) : option ReplayAnchor * Z :=
  let '(a, n) :=
    match att_progress att with
    | Some p => (Some p, 0)
    | None =>
        match from with
        | Some _ =>
            let n := replay_attempts b + 1 in
            if MAX_REPLAY_ATTEMPTS <=? n then (None, 0) else (anchor b, n)
        | None => (anchor b, replay_attempts b)
        end
    end in
  if forbids_replay (reason att) then (None, 0) else (a, n).

(** The delay before the next attempt, and the next step of the ramp. *)
Definition ramp (att : Attempt) (uptime : Z) (b : Book) : Z * Z :=
  if is_someb (att_progress att) || (HEALTHY_UPTIME <=? uptime)
  then (reconnect_base policy, reconnect_base policy)
  else (backoff b, Z.min (backoff b * 2) (reconnect_max_backoff policy)).

Inductive Next := Return | AtOnce | SleepFor (d : Z).

(** [sc] is the scope the attempt was started with. *)
Definition after_attempt (from : option Z) (att : Attempt) (uptime : Z) (sc : StreamScope) (nanos : Z) (b : Book)
    : Book * Next :=
  let '(a, n) := anchor_after from att b in
  let cs := record_reason (reason att) (counts b) in
  if is_terminal (reason att) then
    ({| anchor := a; backoff := backoff b; counts := cs; replay_attempts := n;
        warned_no_replay := warned_no_replay b |}, Return)
  else
    let '(delay, bk) := ramp att uptime b in
    ({| anchor := a; backoff := bk; counts := cs; replay_attempts := n;
        warned_no_replay := warned_no_replay b |},
     if bool_decide (reason att = Graceful) && scope_is_empty sc then AtOnce
     else SleepFor (with_jitter delay nanos)).

(** ** The task *)

(** The locals of a turn of the loop: the gap-replay setting it read, the resume point, the
    instant it started and the scope it started with. *)
Record Locals := { l_gap : bool * Z; from_slot : option Z; started : Z; l_scope : StreamScope }.

Inductive Phase :=
  | Paused
  | Idle
  | Connecting (l : Locals) (sub : Subscription)
  | Connected (l : Locals) (c : Conn)
  | Sleeping (until : Z)
  | Stopped.

Record Task := { book : Book; phase : Phase }.

Inductive TaskEvent := WireAnswered (answer : option FeedError) | On (e : ConnEvent) | Woken.

(** From the top of the loop to where the task waits next. *)
Definition enter (h : Host) (now : Z) (b : Book) : Task * list Effect :=
  if negb (h_live h) then ({| book := b; phase := Paused |}, [])
  else
    match idle_reason h (h_scope h) with
    | Some _ => ({| book := b; phase := Idle |}, [])
    | None =>
        let '(from, b) := resume_point (h_gap h) now b in
        let sub := build_subscription h (h_scope h) from in
        let l := {| l_gap := h_gap h; from_slot := from; started := now; l_scope := h_scope h |} in
        ({| book := b; phase := Connecting l sub |}, [Asked sub])
    end.

Definition end_attempt (h : Host) (now : Z) (l : Locals) (att : Attempt) (b : Book) : Task * list Effect :=
  let '(b, next) := after_attempt (from_slot l) att (elapsed now (started l)) (l_scope l) (h_nanos h) b in
  match next with
  | Return => ({| book := b; phase := Stopped |}, [])
  | AtOnce => enter h now b
  | SleepFor d => ({| book := b; phase := Sleeping (now + d) |}, [])
  end.

(** Where a task that waited for the live gate or for something to carry goes. *)
Definition wake_idle (h : Host) (now : Z) (closed : bool) (b : Book) : Task * list Effect :=
  if closed then ({| book := b; phase := Stopped |}, []) else enter h now b.

Definition task_step (h : Host) (now : Z) (e : TaskEvent) (t : Task)
    : option (Task * option Dedupe.t * list Effect) :=
  let keep (r : Task * list Effect) := Some (r.1, h_ring h, r.2) in
  match phase t, e with
  | Paused, On (EvLive closed) => keep (wake_idle h now closed (book t))
  | Idle, On (EvLive closed) | Idle, On (EvScope closed _) => keep (wake_idle h now closed (book t))
  | Idle, On EvPools => keep (wake_idle h now false (book t))
  | Connecting l sub, WireAnswered None =>
      keep ({| book := book t; phase := Connected l (opened sub (l_scope l) now) |}, [])
  | Connecting l sub, WireAnswered (Some err) =>
      keep (end_attempt h now l {| reason := reason_of err; att_progress := None |} (book t))
  | Connected l c, On e =>
      '(o, ring, fx) ← conn_step h now e c;
      match o with
      | Goes c => Some ({| book := book t; phase := Connected l c |}, ring, fx)
      | Ends att => let '(t, fx') := end_attempt h now l att (book t) in Some (t, ring, fx ++ fx')
      end
  | Sleeping until, Woken => if until <=? now then keep (enter h now (book t)) else None
  | _, _ => None
  end.

(** The task from its start: [At h now e] is an event in the host as it stands at [now]. *)
Record Moment := { m_host : Host; m_now : Z; m_event : TaskEvent }.

Definition start (h : Host) (now : Z) : Task * list Effect := enter h now new_book.

Fixpoint run_task (ms : list Moment) (t : Task) : option (Task * list Effect) :=
  match ms with
  | [] => Some (t, [])
  | m :: ms =>
      '(t, _, fx) ← task_step (m_host m) (m_now m) (m_event m) t;
      '(t, fx') ← run_task ms t;
      Some (t, fx ++ fx')
  end.

(** ** Pool tracking ([IngestHandle]) *)

(** The index after, and whether the feeds are told. *)
Definition track_pool (acc : bool * gmap string string) (mint : string) : bool * gmap string string :=
  let '(added, index) := acc in
  match venue_derive_pool mint with
  | Some pool => (added || is_noneb (index !! pool), <[pool := mint]> index)
  | None => acc
  end.

Definition track_pools (index : gmap string string) (mints : list string) : bool * gmap string string :=
  fold_left track_pool mints (false, index).

Definition untrack_pool (acc : bool * gmap string string) (mint : string) : bool * gmap string string :=
  let '(removed, index) := acc in
  match venue_derive_pool mint with
  | Some pool => (removed || is_someb (index !! pool), delete pool index)
  | None => acc
  end.

Definition untrack_pools (index : gmap string string) (mints : list string) : bool * gmap string string :=
  fold_left untrack_pool mints (false, index).

End Decisions.
