(* ===== verification/SupervisorProps.v ===== *)
(** * SupervisorProps: a feed loses no gap it can replay, and always comes back

    The turns of the task ([course]), the gap a reconnect replays, the reconnect ramp, the
    verdict of the idle guard and the counters of a connection. *)

From S2P Require Export Supervisor.
#[local] Open Scope Z_scope.

(** A turn of the loop that ended: what it started with, what it achieved, how long it took. *)
Record Turn := { u_locals : Locals; u_attempt : Attempt; u_uptime : Z }.

Section Feed.
Context `{IngestVenue} (caps : FeedCaps) (policy : FeedPolicy).

(** ** Courses of the task *)

(** The turn an event ends, if it ends one. *)
Definition ended (h : Host) (now : Z) (e : TaskEvent) (t : Task) : list Turn :=
  match phase t, e with
  | Connecting l _, WireAnswered (Some err) =>
      [{| u_locals := l; u_attempt := {| reason := reason_of err; att_progress := None |};
          u_uptime := elapsed now (started l) |}]
  | Connected l c, On e =>
      match conn_step caps policy h now e c with
      | Some (Ends att, _, _) => [{| u_locals := l; u_attempt := att; u_uptime := elapsed now (started l) |}]
      | _ => []
      end
  | _, _ => []
  end.

(** The task after any events, and the turns it has behind it. *)
Inductive course : list Turn -> Task -> Prop :=
  | course_start h now : course [] (start caps policy h now).1
  | course_step us t h now e t' ring fx :
      course us t -> task_step caps policy h now e t = Some (t', ring, fx) ->
      course (us ++ ended h now e t) t'.

(** A step keeps [P] of the phases, given what ends a turn, what enters one and what stays
    inside a connection. *)
Section Steps.
Variables (P : list Turn -> Task -> Prop).
Hypothesis P_start : forall h now, P [] (start caps policy h now).1.
Hypothesis P_enter : forall us b h now,
  P us {| book := b; phase := Paused |} \/ P us {| book := b; phase := Idle |}
  \/ (exists u, P us {| book := b; phase := Sleeping u |}) ->
  P us (enter caps policy h now b).1.
Hypothesis P_stop : forall us b ph, P us {| book := b; phase := ph |} ->
  ph = Paused \/ ph = Idle -> P us {| book := b; phase := Stopped |}.
Hypothesis P_opened : forall us b l sub sc now,
  P us {| book := b; phase := Connecting l sub |} ->
  sc = l_scope l -> P us {| book := b; phase := Connected l (opened sub sc now) |}.
Hypothesis P_serve : forall us b l c h now e c' ring fx,
  P us {| book := b; phase := Connected l c |} ->
  conn_step caps policy h now e c = Some (Goes c', ring, fx) ->
  P us {| book := b; phase := Connected l c' |}.
Hypothesis P_end : forall us b l att h now,
  (exists sub, P us {| book := b; phase := Connecting l sub |})
  \/ (exists c, P us {| book := b; phase := Connected l c |}) ->
  P (us ++ [{| u_locals := l; u_attempt := att; u_uptime := elapsed now (started l) |}]) (end_attempt caps policy h now l att b).1.

Lemma course_ind' us t : course us t -> P us t.
Proof using All.
  induction 1 as [h now|us t h now e t' ring fx _ IH Hs]; [apply P_start|].
  destruct t as [b ph]. unfold task_step, ended in *. cbn [phase book] in *.
  destruct ph as [| |l sub|l c|u|], e as [ans|e|]; try done.
  - destruct e; try done. unfold wake_idle in Hs. rewrite app_nil_r.
    destruct closed; injection Hs as <- _ _; [by eapply P_stop; [|left]|by apply P_enter; left].
  - unfold wake_idle in Hs. rewrite app_nil_r. destruct e as [| | | |closed|closed ans|]; try done;
      [|destruct closed..]; injection Hs as <- _ _;
      solve [by apply P_enter; right; left|by eapply P_stop; [|right]].
  - destruct ans as [err|]; injection Hs as <- _ _.
    + apply P_end. left. by eexists.
    + rewrite app_nil_r. by apply P_opened.
  - destruct (conn_step caps policy h now e c) as [[[o ring'] fx']|] eqn:Ec; [|done].
    cbn [mbind option_bind] in Hs. destruct o as [c'|att].
    + injection Hs as <- _ _. rewrite app_nil_r. by eapply P_serve.
    + destruct (end_attempt _ _ _ _ _ _ _) as [t1 fx1] eqn:Ee. injection Hs as <- _ _.
      change t1 with (t1, fx1).1. rewrite <- Ee. apply P_end. right. by eexists.
  - destruct (u <=? now); [|done]. injection Hs as <- _ _. rewrite app_nil_r. apply P_enter. right. right. by eexists.
Qed.
End Steps.

(** A run computed, with the turns it ends. *)
Fixpoint run_turns (ms : list Moment) (us : list Turn) (t : Task) : option (list Turn * Task) :=
  match ms with
  | [] => Some (us, t)
  | m :: ms =>
      '(t', _, _) ← task_step caps policy (m_host m) (m_now m) (m_event m) t;
      run_turns ms (us ++ ended (m_host m) (m_now m) (m_event m) t) t'
  end.

Lemma course_run ms : forall us t us' t', course us t -> run_turns ms us t = Some (us', t') -> course us' t'.
Proof.
  induction ms as [|m ms IH]; intros us t us' t' Hc Hr; cbn [run_turns] in Hr; [by injection Hr as <- <-|].
  destruct (task_step _ _ _ _ _ _) as [[[t1 ring] fx]|] eqn:E; [|done]. cbn [mbind option_bind] in Hr.
  eapply IH; [|exact Hr]. by eapply course_step.
Qed.

(** ** The gap a reconnect replays *)

Definition in_window (l : Locals) (a : ReplayAnchor) : Prop :=
  as_secs (elapsed (started l) (seen_at a)) <= (l_gap l).2.

(** After these turns the feed last saw the slot of [a], nothing has arrived since, and [k]
    attempts asked for what came after it in vain.  The gap is given up when an attempt
    ends for a reason that forbids replay, when it is found too old while replay is on, or
    after the third vain request. *)
Inductive gap : list Turn -> ReplayAnchor -> Z -> Prop :=
  | gap_opens us u a :
      att_progress (u_attempt u) = Some a -> forbids_replay (reason (u_attempt u)) = false ->
      gap (us ++ [u]) a 0
  | gap_waits us u a k :
      gap us a k -> att_progress (u_attempt u) = None ->
      forbids_replay (reason (u_attempt u)) = false -> (l_gap (u_locals u)).1 = false ->
      gap (us ++ [u]) a k
  | gap_resists us u a k :
      gap us a k -> att_progress (u_attempt u) = None ->
      forbids_replay (reason (u_attempt u)) = false -> (l_gap (u_locals u)).1 = true ->
      in_window (u_locals u) a -> k + 1 < MAX_REPLAY_ATTEMPTS ->
      gap (us ++ [u]) a (k + 1).

Lemma gap_snoc us u a k :
  gap (us ++ [u]) a k ->
  forbids_replay (reason (u_attempt u)) = false
  /\ match att_progress (u_attempt u) with
     | Some p => p = a /\ k = 0
     | None =>
         if (l_gap (u_locals u)).1
         then in_window (u_locals u) a /\ k < MAX_REPLAY_ATTEMPTS /\ gap us a (k - 1)
         else gap us a k
     end.
Proof.
  inversion 1 as [us' u' a' Hp Hf E1 E2 E3|us' u' a' k' Hg Hp Hf Ht E1 E2 E3|us' u' a' k' Hg Hp Hf Ht Hw Hk E1 E2 E3];
    apply app_inj_tail in E1 as [-> ->]; rewrite Hp; split; try done.
  - by rewrite Ht.
  - rewrite Ht. split; [done|]. split; [done|]. by replace (k' + 1 - 1) with k' by lia.
Qed.

Lemma gap_nil a k : ~ gap [] a k.
Proof. inversion 1 as [us u ? _ _ E|us u ? ? _ _ _ _ E|us u ? ? _ _ _ _ _ _ E]; by destruct us. Qed.

(** The two fields of the book that follow the gap. *)
Definition follows (us : list Turn) (a : option ReplayAnchor) (n : Z) : Prop :=
  match a with
  | Some a => gap us a n /\ (forall a' k, gap us a' k -> a' = a /\ k = n)
  | None => forall a k, ~ gap us a k
  end.

Lemma follows_turn us l att up b n :
  replay caps = true -> follows us (anchor b) (replay_attempts b) ->
  let r := resume_point caps (l_gap l) (started l) b in
  from_slot l = r.1 -> n = anchor_after (from_slot l) att r.2 ->
  follows (us ++ [{| u_locals := l; u_attempt := att; u_uptime := up |}]) n.1 n.2.
Proof.
  intros Hr Hf r Efrom ->. subst r. rewrite Efrom. clear Efrom.
  set (u := {| u_locals := l; u_attempt := att; u_uptime := up |}).
  unfold resume_point. destruct (l_gap l) as [on mx] eqn:El. rewrite Hr.
  unfold anchor_after. destruct (forbids_replay (reason att)) eqn:Hfb.
  { destruct (match att_progress att with Some _ => _ | None => _ end) as [? ?].
    intros a k Hg. apply gap_snoc in Hg as [Hg _]. cbn in Hg. congruence. }
  destruct (resolve_from_slot (anchor b) on mx (started l)) as [from a1] eqn:Er.
  destruct (att_progress att) as [p|] eqn:Hp.
  { cbn. split; [by apply gap_opens|]. intros a k Hg. apply gap_snoc in Hg as [_ Hg]. cbn in Hg.
    rewrite Hp in Hg. naive_solver. }
  assert (Hs : forall a' k, gap (us ++ [u]) a' k ->
    if on then in_window l a' /\ k < MAX_REPLAY_ATTEMPTS /\ gap us a' (k - 1) else gap us a' k).
  { intros a' k Hg. apply gap_snoc in Hg as [_ Hg]. cbn in Hg. by rewrite Hp, El in Hg. }
  unfold resolve_from_slot in Er. cbn [fst snd anchor replay_attempts].
  destruct (anchor b) as [a|]; cbn [follows] in Hf.
  2:{ injection Er as <- <-. cbn. intros a k Hg. apply Hs in Hg.
      destruct on; [destruct Hg as (_ & _ & Hg)|]; by apply Hf in Hg. }
  destruct Hf as [Hg Hone]. destruct on; cbn [negb] in Er.
  2:{ injection Er as <- <-. cbn. split; [by apply gap_waits; cbn; rewrite ?El|].
      intros a' k Hg'. apply Hone. by apply Hs in Hg'. }
  assert (Hw : in_window l a <-> (mx <? as_secs (elapsed (started l) (seen_at a))) = false)
    by (unfold in_window; rewrite El; cbn; lia).
  destruct (mx <? as_secs (elapsed (started l) (seen_at a))); injection Er as <- <-; cbn [fst snd].
  { intros a' k Hg'. apply Hs in Hg' as (Hw' & _ & Hg'). apply Hone in Hg' as [-> _]. by apply Hw in Hw'. }
  destruct (MAX_REPLAY_ATTEMPTS <=? replay_attempts b + 1) eqn:Em; cbn [fst snd follows].
  - intros a' k Hg'. apply Hs in Hg' as (_ & Hk & Hg'). apply Hone in Hg' as [-> Hk']. lia.
  - split; [apply gap_resists; cbn; rewrite ?El; cbn; try done; [by apply Hw|lia]|].
    intros a' k Hg'. apply Hs in Hg' as (_ & _ & Hg'). apply Hone in Hg' as [-> Hk']. split; [done|lia].
Qed.

(** What a course keeps: the book follows the gap, and a turn in progress asked for what the
    book before it resolved to. *)
Definition resumed (us : list Turn) (l : Locals) (b : Book) : Prop :=
  exists b0, follows us (anchor b0) (replay_attempts b0)
  /\ resume_point caps (l_gap l) (started l) b0 = (from_slot l, b).

Definition keeps_gap (us : list Turn) (t : Task) : Prop :=
  match phase t with
  | Connecting l sub => resumed us l (book t) /\ sub_from_slot sub = from_slot l
  | Connected l _ => resumed us l (book t)
  | Stopped => True
  | _ => follows us (anchor (book t)) (replay_attempts (book t))
  end.

Lemma keeps_gap_enter us b h now :
  follows us (anchor b) (replay_attempts b) -> keeps_gap us (enter caps policy h now b).1.
Proof.
  intros Hf. unfold enter. destruct (h_live h); [|done]. cbn [negb].
  destruct (idle_reason caps h (h_scope h)); [done|].
  destruct (resume_point caps (h_gap h) now b) as [from b'] eqn:Er. cbn. split; [|done]. by exists b.
Qed.

Lemma course_keeps_gap us t : replay caps = true -> course us t -> keeps_gap us t.
Proof.
  intros Hr. apply course_ind'.
  - intros h now. apply keeps_gap_enter. intros a k. apply gap_nil.
  - intros us' b h now [Hk|[Hk|[u Hk]]]; by apply keeps_gap_enter.
  - done.
  - intros us' b l sub sc now [Hk _] _. exact Hk.
  - done.
  - intros us' b l att h now Hk.
    assert (Hb : resumed us' l b) by (destruct Hk as [[sub [Hk _]]|[c Hk]]; exact Hk). clear Hk.
    destruct Hb as (b0 & Hf & Hres).
    pose proof (follows_turn us' l att (elapsed now (started l)) b0 _ Hr Hf ltac:(by rewrite Hres) eq_refl) as Hn.
    rewrite Hres in Hn. cbn [snd] in Hn. unfold end_attempt, after_attempt.
    destruct (anchor_after (from_slot l) att b) as [a n]. cbn [fst snd] in Hn.
    destruct (is_terminal _); [done|]. destruct (ramp _ _ _ _) as [delay bk].
    destruct (_ && _); [by apply keeps_gap_enter|done].
Qed.

(** C18: a feed that can replay resumes exactly the gap it has.  Whatever its turns were, a
    connection request asks for a slot when, and only when, gap replay is on, the feed saw
    the slot before it, everything since was lost without a reason that forbids replay and
    without three vain requests, and the gap was never too old when it was looked at; every
    other request is live. *)
Theorem requests_follow_the_gap us t l sub n :
  replay caps = true -> course us t -> phase t = Connecting l sub ->
  sub_from_slot sub = Some n
  <-> exists a k, gap us a k /\ (l_gap l).1 = true /\ in_window l a /\ n = (anchor_slot a + 1) mod 2 ^ 64.
Proof.
  intros Hr Hc Hp. pose proof (course_keeps_gap _ _ Hr Hc) as Hk. unfold keeps_gap in Hk. rewrite Hp in Hk.
  destruct Hk as [(b0 & Hf & Hres) ->]. unfold resume_point, in_window in *.
  destruct (l_gap l) as [on mx]. rewrite Hr in Hres. cbn [fst snd].
  destruct (resolve_from_slot _ _ _ _) as [from a1] eqn:Er. injection Hres as <- _.
  unfold resolve_from_slot in Er. destruct (anchor b0) as [a|]; cbn [follows] in Hf.
  2:{ injection Er as <- _. split; [done|]. intros (a & k & Hg & _). by apply Hf in Hg. }
  destruct Hf as [Hg Hone]. destruct on; cbn [negb] in Er; [|injection Er as <- _; naive_solver].
  destruct (Z.ltb_spec mx (as_secs (elapsed (started l) (seen_at a)))); injection Er as <- _.
  - split; [done|]. intros (a' & k & Hg' & _ & Hw & _). apply Hone in Hg' as [-> _]. lia.
  - split.
    + intros [= <-]. by exists a, (replay_attempts b0).
    + intros (a' & k & Hg' & _ & _ & ->). by apply Hone in Hg' as [-> _].
Qed.

(** A feed that cannot replay never asks for a slot. *)
Theorem a_feed_without_replay_is_live us t l sub :
  replay caps = false -> course us t -> phase t = Connecting l sub -> sub_from_slot sub = None.
Proof.
  intros Hr Hc. revert l sub.
  refine (course_ind' (fun _ t => forall l sub, phase t = Connecting l sub -> sub_from_slot sub = None)
    _ _ _ _ _ _ us t Hc); try done.
  all: assert (He : forall h now b l sub, phase (enter caps policy h now b).1 = Connecting l sub ->
                                    sub_from_slot sub = None)
    by (intros h now b l sub; unfold enter, resume_point; rewrite Hr; destruct (h_live h); [|done]; cbn [negb];
        destruct (idle_reason _ _ _); [done|]; destruct (h_gap h); cbn; by intros [= _ <-]).
  - intros h now l sub. apply He.
  - intros us' b h now _ l sub. apply He.
  - intros us' b l att h now _ l' sub. unfold end_attempt. destruct (after_attempt _ _ _ _ _ _ _) as [b' [| |d]];
      [done|apply He|done].
Qed.

(** A reason that forbids replay, a stalled decode lane among them, brings the feed back live:
    what the stall cost is not asked for again. *)
Theorem backpressure_comes_back_live us u t l sub :
  replay caps = true -> forbids_replay (reason (u_attempt u)) = true ->
  course (us ++ [u]) t -> phase t = Connecting l sub -> sub_from_slot sub = None.
Proof.
  intros Hr Hf Hc Hp. destruct (sub_from_slot sub) as [n|] eqn:E; [|done].
  apply (requests_follow_the_gap _ _ _ _ n Hr Hc Hp) in E as (a & k & Hg & _).
  apply gap_snoc in Hg as [Hg _]. congruence.
Qed.

(** ** The reconnect ramp *)

Definition fast_failure (u : Turn) : bool :=
  is_noneb (att_progress (u_attempt u)) && (u_uptime u <? HEALTHY_UPTIME).

(** The fast failures at the end of the turns. *)
Definition streak (us : list Turn) : Z := fold_left (fun k u => if fast_failure u then k + 1 else 0) us 0.

Lemma streak_snoc us u : streak (us ++ [u]) = if fast_failure u then streak us + 1 else 0.
Proof. unfold streak. by rewrite fold_left_app. Qed.

Lemma streak_nonneg us : 0 <= streak us.
Proof. induction us as [|u us IH] using rev_ind; [done|]. rewrite streak_snoc. destruct (fast_failure u); lia. Qed.

Definition step_of_ramp (k : Z) : Z := Z.min (reconnect_base policy * 2 ^ k) (reconnect_max_backoff policy).

Lemma step_of_ramp_bounds k :
  0 < reconnect_base policy <= reconnect_max_backoff policy -> 0 <= k ->
  reconnect_base policy <= step_of_ramp k <= reconnect_max_backoff policy.
Proof. intros Hm Hk. unfold step_of_ramp. pose proof (Z.pow_pos_nonneg 2 k). nia. Qed.

Lemma with_jitter_bounds base nanos :
  0 <= base -> base <= with_jitter base nanos <= base + base / 2.
Proof.
  intros Hb. unfold with_jitter, millis. set (m := base / 1000000).
  assert (0 <= m) by (apply Z.div_pos; lia).
  assert (0 <= m mod 2 ^ 64 <= m) by (split; [apply Z.mod_pos_bound; lia|apply Z.mod_le; lia]).
  assert (0 <= nanos mod 50 < 50) by (apply Z.mod_pos_bound; lia).
  set (e := Z.min u64_max (m mod 2 ^ 64 * (nanos mod 50)) / 100).
  assert (0 <= e).
  { apply Z.div_pos; [|lia]. apply Z.min_glb; [unfold u64_max; lia|nia]. }
  assert (e * 100 <= m * 50).
  { assert (e * 100 <= Z.min u64_max (m mod 2 ^ 64 * (nanos mod 50))) by (unfold e; rewrite Z.mul_comm; apply Z.mul_div_le; lia).
    nia. }
  assert (m * 1000000 <= base) by (unfold m; rewrite Z.mul_comm; apply Z.mul_div_le; lia).
  split; [lia|]. apply Z.add_le_mono_l. apply Z.div_le_lower_bound; lia.
Qed.

Lemma backoff_climbs us b l att now d bk :
  0 < reconnect_base policy <= reconnect_max_backoff policy ->
  backoff b = step_of_ramp (streak us) ->
  ramp policy att (elapsed now (started l)) b = (d, bk) ->
  let u := {| u_locals := l; u_attempt := att; u_uptime := elapsed now (started l) |} in
  d = step_of_ramp (if fast_failure u then streak us else 0) /\ bk = step_of_ramp (streak (us ++ [u])).
Proof.
  intros Hm Hb. unfold ramp. cbv zeta. rewrite streak_snoc. unfold fast_failure. cbn [u_attempt u_uptime].
  assert (E0 : step_of_ramp 0 = reconnect_base policy) by (unfold step_of_ramp; lia).
  destruct (att_progress att); cbn [is_someb orb];
    [intros [= <- <-]; unfold is_noneb; cbn [is_someb negb andb]; by rewrite E0|].
  unfold is_noneb. cbn [is_someb negb andb]. rewrite Z.leb_antisym. destruct (_ <? _); cbn [negb]; intros [= <- <-]; [|by rewrite E0].
  split; [done|]. rewrite Hb. unfold step_of_ramp. rewrite Z.pow_add_r by (pose proof (streak_nonneg us); lia). lia.
Qed.

Definition keeps_ramp (us : list Turn) (t : Task) : Prop :=
  match phase t with
  | Stopped => True
  | Connecting l _ | Connected l _ =>
      backoff (book t) = step_of_ramp (streak us) /\ scope_is_empty (l_scope l) = false
  | _ => backoff (book t) = step_of_ramp (streak us)
  end.

Lemma keeps_ramp_enter us b h now :
  backoff b = step_of_ramp (streak us) -> keeps_ramp us (enter caps policy h now b).1.
Proof.
  intros Hb. unfold enter, idle_reason, resume_point. destruct (h_live h); [|done]. cbn [negb].
  destruct (scope_is_empty (h_scope h)) eqn:Es; [done|]. destruct (_ && _); [done|].
  destruct (h_gap h). destruct (replay caps); [|done]. by destruct (resolve_from_slot _ _ _ _).
Qed.

Lemma end_attempt_sleeps us b l att h now :
  0 < reconnect_base policy <= reconnect_max_backoff policy ->
  backoff b = step_of_ramp (streak us) -> scope_is_empty (l_scope l) = false ->
  let u := {| u_locals := l; u_attempt := att; u_uptime := elapsed now (started l) |} in
  let t := (end_attempt caps policy h now l att b).1 in
  if is_terminal (reason att) then phase t = Stopped
  else backoff (book t) = step_of_ramp (streak (us ++ [u]))
       /\ phase t = Sleeping (now + with_jitter (step_of_ramp (if fast_failure u then streak us else 0)) (h_nanos h)).
Proof.
  intros Hm Hb Hs. cbv zeta. unfold end_attempt, after_attempt. destruct (anchor_after _ _ _) as [a n].
  destruct (is_terminal _); [done|]. destruct (ramp _ _ _ _) as [d bk] eqn:Er.
  apply (backoff_climbs us) in Er as [-> ->]; [|done..]. rewrite Hs, andb_false_r. done.
Qed.

Lemma course_keeps_ramp us t :
  0 < reconnect_base policy <= reconnect_max_backoff policy -> course us t -> keeps_ramp us t.
Proof.
  intros Hm. apply course_ind'; try done.
  - intros h now. apply keeps_ramp_enter. cbn. unfold step_of_ramp, streak. cbn. lia.
  - intros us' b h now [Hk|[Hk|[u Hk]]]; by apply keeps_ramp_enter.
  - intros us' b l att h now Hk.
    assert (Hb : keeps_ramp us' {| book := b; phase := Connecting l (build_subscription caps policy h (l_scope l) None) |})
      by (destruct Hk as [[sub Hk]|[c Hk]]; exact Hk).
    destruct Hb as [Hb Hs]. pose proof (end_attempt_sleeps us' b l att h now Hm Hb Hs) as He. cbv zeta in He.
    destruct (is_terminal _); unfold keeps_ramp; [by rewrite He|]. destruct He as [He1 He2]. by rewrite He2.
Qed.

(** C19: a connection that is lost is tried again.  Whatever ended it, unless the rest of the
    program is gone, the task sleeps: one base delay after an attempt that saw a slot or ran
    for thirty seconds, else a delay that doubles with each failure up to the cap, plus at
    most half of it for jitter; and once the sleep is over it connects as soon as it has
    something to carry. *)
Theorem a_lost_connection_is_retried us t h now e t' ring fx u :
  0 < reconnect_base policy <= reconnect_max_backoff policy ->
  course us t -> task_step caps policy h now e t = Some (t', ring, fx) -> ended h now e t = [u] ->
  if is_terminal (reason (u_attempt u)) then phase t' = Stopped
  else exists d until,
    d = step_of_ramp (if fast_failure u then streak us else 0)
    /\ reconnect_base policy <= d <= reconnect_max_backoff policy
    /\ phase t' = Sleeping until /\ d <= until - now <= d + d / 2
    /\ forall h' now', until <= now' -> h_live h' = true -> idle_reason caps h' (h_scope h') = None ->
         exists t'' l sub ring' fx', task_step caps policy h' now' Woken t' = Some (t'', ring', fx')
                                     /\ phase t'' = Connecting l sub /\ l_scope l = h_scope h'.
Proof.
  intros Hm Hc Hs He. pose proof (course_keeps_ramp _ _ Hm Hc) as Hk.
  assert (exists l att, u = {| u_locals := l; u_attempt := att; u_uptime := elapsed now (started l) |}
            /\ t' = (end_attempt caps policy h now l att (book t)).1
            /\ backoff (book t) = step_of_ramp (streak us) /\ scope_is_empty (l_scope l) = false)
    as (l & att & -> & -> & Hb & Hsc).
  { unfold ended, task_step in *. unfold keeps_ramp in Hk. destruct (phase t) as [| |l sub|l c| |]; try done; destruct e as [[err|]|e|]; try done.
    - injection He as <-. injection Hs as <- _ _.
      by exists l, {| reason := reason_of err; att_progress := None |}.
    - destruct (conn_step _ _ _ _ _ _) as [[[[c'|att] r] f]|]; try done. injection He as <-. exists l, att.
      cbn [mbind option_bind] in Hs. destruct (end_attempt _ _ _ _ _ _ _) as [t1 f1]. by injection Hs as <- _ _. }
  pose proof (end_attempt_sleeps us (book t) l att h now Hm Hb Hsc) as Hz. cbv zeta in Hz. cbn [u_attempt].
  destruct (is_terminal _); [done|]. destruct Hz as [_ Hp].
  match type of Hp with _ = Sleeping (_ + with_jitter ?x _) => set (d := x) in * end. exists d, (now + with_jitter d (h_nanos h)). rewrite Hp.
  assert (Hd : reconnect_base policy <= d <= reconnect_max_backoff policy).
  { apply step_of_ramp_bounds; [done|]. pose proof (streak_nonneg us). destruct (fast_failure _); lia. }
  pose proof (with_jitter_bounds d (h_nanos h) ltac:(lia)). split_and!; try done; try lia.
  intros h' now' Hn Hl Hi. unfold task_step. rewrite Hp. replace (_ <=? now') with true by lia.
  unfold enter. rewrite Hl, Hi. cbn [negb]. destruct (resume_point _ _ _ _) as [from b2]. eexists _, _, _, _, _. split; [done|]. split; done.
Qed.

(** ** What one connection keeps *)

(** The connection placed at [t0], after these events at their instants and these effects. *)
Inductive served (sub : Subscription) (sc : StreamScope) (t0 : Z)
    : list (Z * ConnEvent) -> list Effect -> Conn -> Prop :=
  | served_none : served sub sc t0 [] [] (opened sub sc t0)
  | served_more es fx c h now e c' ring fx' :
      served sub sc t0 es fx c -> conn_step caps policy h now e c = Some (Goes c', ring, fx') ->
      served sub sc t0 (es ++ [(now, e)]) (fx ++ fx') c'.

Definition frame_of (x : Z * ConnEvent) : option (Z * FeedUpdate) :=
  match x.2 with EvUpdate (inr u) _ => Some (x.1, u) | _ => None end.
Definition tx_of (f : Z * FeedUpdate) : option (Z * SubscribeUpdateTransaction) :=
  match f.2 with TransactionUpdate tx => Some (f.1, tx) | _ => None end.
Definition asked_of (f : Effect) : option Subscription :=
  match f with Asked s => Some s | _ => None end.
Definition lane_of (f : Effect) : option SubscribeUpdateTransaction :=
  match f with ToLane _ tx _ => Some tx | _ => None end.

Definition frames (es : list (Z * ConnEvent)) : list (Z * FeedUpdate) := omap frame_of es.
Definition txs (es : list (Z * ConnEvent)) : list (Z * SubscribeUpdateTransaction) := omap tx_of (frames es).

(** [p] is the highest slot of these transactions, at the instant it was first seen. *)
Definition first_sight (l : list (Z * SubscribeUpdateTransaction)) (p : ReplayAnchor) : Prop :=
  exists before tx after,
    l = before ++ (seen_at p, tx) :: after /\ update_slot tx = anchor_slot p
    /\ Forall (fun x => update_slot x.2 < anchor_slot p) before
    /\ Forall (fun x => update_slot x.2 <= anchor_slot p) after.

Definition sighted (l : list (Z * SubscribeUpdateTransaction)) (p : option ReplayAnchor) : Prop :=
  match p with None => l = [] | Some p => first_sight l p end.

Lemma first_sight_max l p : first_sight l p -> Forall (fun x => update_slot x.2 <= anchor_slot p) l.
Proof.
  intros (b & tx & a & -> & Hs & Hb & Ha). apply Forall_app. split; [|constructor; [cbn; lia|done]].
  eapply Forall_impl; [exact Hb|]. cbn. lia.
Qed.

Lemma slot_seen_sights l c slot tx :
  sighted l (progress c) -> update_slot tx = slot ->
  sighted (l ++ [(last_frame c, tx)]) (progress (slot_seen c slot)).
Proof.
  intros Hl Hs. unfold slot_seen, advances. destruct (progress c) as [p|] eqn:Ep; cbn [sighted] in Hl.
  - destruct (Z.ltb_spec (anchor_slot p) slot); cbn [progress]; rewrite ?Ep; cbn [sighted].
    + exists l, tx, []. cbn. split_and!; try done. eapply Forall_impl; [by apply first_sight_max|]. cbn. lia.
    + destruct Hl as (b & tx' & a & -> & Hs' & Hb & Ha). exists b, tx', (a ++ [(last_frame c, tx)]).
      rewrite <- app_assoc. cbn. split_and!; try done. apply Forall_app. split; [done|]. constructor; [|done].
      cbn. lia.
  - subst l. exists [], tx, []. cbn. by split_and!; try constructor.
Qed.

Record kept (sub : Subscription) (t0 : Z) (es : list (Z * ConnEvent)) (fx : list Effect) (c : Conn) : Prop := {
  kept_wire : wire c = default sub (last (omap asked_of fx));
  kept_meta : sub_blocks_meta c = blocks_meta (wire c);
  kept_frame : last_frame c = default t0 (fst <$> last (frames es));
  kept_update : last_update c = default t0 (seen_at <$> progress c);
  kept_sight : sighted (txs es) (progress c);
  kept_updates : updates (stats c) = Z.of_nat (length (frames es));
  kept_fates : routed (stats c) + duplicates (stats c) + irrelevant (stats c) + shed (stats c)
               = Z.of_nat (length (txs es));
  kept_lanes : routed (stats c) = Z.of_nat (length (omap lane_of fx))
}.

(** Routing tells the fate of its transaction once. *)
Lemma route_counts ring tx send st r st' ring' fx :
  route caps ring tx send st = (r, st', ring', fx) -> r <> RoutedClosed ->
  updates st' = updates st
  /\ routed st' + duplicates st' + irrelevant st' + shed st'
     = routed st + duplicates st + irrelevant st + shed st + 1
  /\ routed st' = routed st + Z.of_nat (length (omap lane_of fx))
  /\ omap asked_of fx = [].
Proof.
  unfold route. destruct (admit_fresh ring tx) as [[] ring1]; cbn [negb].
  2:{ intros [= <- <- <- <-] _. cbn. split_and!; try done; lia. }
  destruct (venue_classify tx); [destruct send|]; intros [= <- <- <- <-]; cbn; try done; intros _;
    split_and!; try done; lia.
Qed.

Lemma slot_seen_stats c slot : stats (slot_seen c slot) = stats c.
Proof. unfold slot_seen. by destruct (advances c slot). Qed.

Lemma slot_seen_clocks c slot :
  last_frame (slot_seen c slot) = last_frame c /\ wire (slot_seen c slot) = wire c
  /\ sub_blocks_meta (slot_seen c slot) = sub_blocks_meta c
  /\ forall t0, last_update c = default t0 (seen_at <$> progress c) ->
      last_update (slot_seen c slot) = default t0 (seen_at <$> progress (slot_seen c slot)).
Proof. unfold slot_seen. by destruct (advances c slot). Qed.

Lemma frames_snoc es x : frames (es ++ [x]) = frames es ++ option_list (frame_of x).
Proof. unfold frames. rewrite omap_app. cbn. by destruct (frame_of x). Qed.

Lemma txs_snoc es x : txs (es ++ [x]) = txs es ++ option_list (x ← frame_of x; tx_of x).
Proof.
  unfold txs. rewrite frames_snoc, omap_app. destruct (frame_of x) as [f|]; [|done]. cbn. by destruct (tx_of f).
Qed.

(** Events that are no frame leave all of it but the filter. *)
Lemma kept_filter sub t0 es fx c now e c' fx' :
  kept sub t0 es fx c -> frame_of (now, e) = None ->
  progress c' = progress c -> stats c' = stats c -> last_update c' = last_update c ->
  last_frame c' = last_frame c -> omap lane_of fx' = [] ->
  wire c' = default (wire c) (last (omap asked_of fx')) -> sub_blocks_meta c' = blocks_meta (wire c') ->
  kept sub t0 (es ++ [(now, e)]) (fx ++ fx') c'.
Proof.
  intros [] He Hp Hst Hu Hf Hl Hw Hm. split; rewrite ?frames_snoc, ?txs_snoc, ?omap_app, ?He, ?Hl, ?app_nil_r,
    ?Hp, ?Hst, ?Hu, ?Hf; cbn; rewrite ?app_nil_r; try done.
  rewrite Hw, last_app. destruct (last (omap asked_of fx')); cbn; congruence.
Qed.

Lemma kept_frame_step sub t0 es fx c h now u send c' ring fx' :
  kept sub t0 es fx c -> on_update caps h now u send c = (Goes c', ring, fx') ->
  kept sub t0 (es ++ [(now, EvUpdate (inr u) send)]) (fx ++ fx') c'.
Proof.
  intros [Kw Km Kf Ku Ks Kn Kt Kl] Hs. unfold on_update in Hs.
  assert (Ksimple : forall fx1, match u with TransactionUpdate _ => False | _ => True end ->
            omap asked_of fx1 = [] -> omap lane_of fx1 = [] ->
            kept sub t0 (es ++ [(now, EvUpdate (inr u) send)]) (fx ++ fx1) (frame_arrived c now)).
  { intros fx1 Hu Ha Hl. split; rewrite ?frames_snoc, ?txs_snoc, ?omap_app, ?Ha, ?Hl, ?app_nil_r; cbn;
      rewrite ?last_snoc, ?length_app; cbn; try done.
    - destruct u; try done; cbn; by rewrite ?app_nil_r.
    - lia.
    - destruct u; try done; cbn; rewrite ?app_nil_r; lia. }
  destruct u as [tx|slot hash time|slot key lamports data|].
  2-4: injection Hs as <- _ <-; apply Ksimple; try done; cbn; by repeat case_match.
  clear Ksimple. destruct (route _ _ _ _ _) as [[[r st] ring1] fx1] eqn:Er.
  assert (c' = set_stats (slot_seen (frame_arrived c now) (update_slot tx)) st /\ fx1 = fx' /\ r <> RoutedClosed)
    as (-> & -> & Hr) by (destruct r; unfold finish in Hs; try discriminate Hs; by injection Hs as <- _ <-).
  apply route_counts in Er as (Eu & Ef & El & Ea); [|done]. rewrite slot_seen_stats in Eu, Ef, El. cbn in Eu, Ef, El.
  destruct (slot_seen_clocks (frame_arrived c now) (update_slot tx)) as (Cf & Cw & Cm & Cu).
  split; rewrite ?frames_snoc, ?txs_snoc, ?omap_app, ?Ea, ?app_nil_r;
    unfold option_list; cbn [option_rect set_stats wire sub_blocks_meta progress stats
    last_update last_frame frame_of tx_of option_list snd fst mbind option_bind];
    rewrite ?Cf, ?Cw, ?Cm, ?last_snoc, ?length_app; cbn [length]; try done; try lia.
  - by apply Cu.
  - by apply (slot_seen_sights _ (frame_arrived c now)).
Qed.

(** Asking the wire again, and nothing else. *)
Lemma refilter_goes h answer c sc c' fx :
  refilter caps policy h answer c sc = (Goes c', fx) ->
  c' = with_filter c sc (build_subscription caps policy h sc None) /\ fx = [Asked (wire c')].
Proof.
  unfold refilter. destruct (in_place_resubscribe caps); cbn [negb]; [|done].
  destruct answer; [done|]. by intros [= <- <-].
Qed.

Lemma served_kept sub sc t0 es fx c : served sub sc t0 es fx c -> kept sub t0 es fx c.
Proof.
  induction 1 as [|es fx c h now e c' ring fx' _ IH Hs]; [by split|].
  assert (Hfil : forall c1 sc1 ans fx1, refilter caps policy h ans c1 sc1 = (Goes c', fx1) ->
      progress c1 = progress c -> stats c1 = stats c -> last_update c1 = last_update c ->
      last_frame c1 = last_frame c -> frame_of (now, e) = None -> kept sub t0 (es ++ [(now, e)]) (fx ++ fx1) c').
  { intros c1 sc1 ans fx1 [-> ->]%refilter_goes Hp Hst Hu Hf He. by eapply kept_filter. }
  assert (Hsame : progress c' = progress c -> stats c' = stats c -> last_update c' = last_update c ->
      last_frame c' = last_frame c -> wire c' = wire c -> sub_blocks_meta c' = sub_blocks_meta c ->
      frame_of (now, e) = None -> kept sub t0 (es ++ [(now, e)]) (fx ++ []) c').
  { intros Hp Hst Hu Hf Hw Hm He. eapply kept_filter; try done. rewrite Hm, Hw. apply IH. }
  unfold conn_step in Hs. destruct (debouncing c).
  { destruct e as [| |ans| | | |]; try done; [injection Hs as <- _ <-; by apply Hsame|].
    destruct (refilter _ _ _ _ _ _) as [o f] eqn:Er. injection Hs as -> _ <-. by eapply Hfil. }
  destruct e as [[err|u] send| |ans|closed ans|closed|closed ans|]; try done.
  - injection Hs as Hs. by eapply kept_frame_step.
  - destruct (server_filter caps); [|done]. injection Hs as <- _ <-. by apply Hsame.
  - destruct (watched_live c && server_filter caps); [|done]. destruct closed; [injection Hs as <- _ <-; by apply Hsame|].
    destruct (refilter _ _ _ _ _ _) as [o f] eqn:Er. injection Hs as -> _ <-. by eapply Hfil.
  - destruct closed; [done|]. destruct (h_live h); [|done]. cbn in Hs. injection Hs as <- _ <-. by apply Hsame.
  - destruct closed; [done|]. unfold on_scope in Hs. case_bool_decide; [injection Hs as <- _ <-; by apply Hsame|].
    destruct (idle_reason _ _ _); [done|]. destruct (server_filter caps).
    + destruct (refilter _ _ _ _ _ _) as [o f] eqn:Er. injection Hs as -> _ <-. by eapply Hfil.
    + injection Hs as <- _ <-. by apply Hsame.
  - unfold on_idle_tick in Hs. destruct (idle_basis _ _ _) as [[basis w]|]; [|injection Hs as <- _ <-; by apply Hsame].
    destruct (_ <=? _); [done|]. injection Hs as <- _ <-. by apply Hsame.
Qed.

(** ** The idle guard *)

(** The last thing the wire was asked for on this connection. *)
Definition last_asked (sub : Subscription) (fx : list Effect) : Subscription :=
  default sub (last (omap asked_of fx)).

(** When what [basis] listens for was last heard: any frame, or the highest slot so far. *)
Inductive heard (t0 : Z) (es : list (Z * ConnEvent)) : IdleBasis -> Z -> Prop :=
  | heard_nothing : frames es = [] -> heard t0 es AnyFrame t0
  | heard_frame f : last (frames es) = Some f -> heard t0 es AnyFrame f.1
  | heard_no_slot : txs es = [] -> heard t0 es Transactions t0
  | heard_slot p : first_sight (txs es) p -> heard t0 es Transactions (seen_at p).

Lemma first_sight_unique l p p' : first_sight l p -> first_sight l p' -> p = p'.
Proof.
  intros H1 H2. pose proof (first_sight_max _ _ H1) as M1. pose proof (first_sight_max _ _ H2) as M2.
  destruct p as [s a], p' as [s' a'], H1 as (b & tx & r & E & Hs & Hb & _), H2 as (b' & tx' & r' & E' & Hs' & Hb' & _).
  cbn in *. assert (s = s') as <-.
  { rewrite Forall_forall in M1. rewrite Forall_forall in M2.
    pose proof (M1 (a', tx') ltac:(rewrite E'; set_solver)). pose proof (M2 (a, tx) ltac:(rewrite E; set_solver)). cbn in *. lia. }
  f_equal. rewrite E in E'. clear -E' Hb Hb' Hs Hs'. revert b' E' Hb'.
  induction Hb as [|x b Hx Hb IH]; intros [|x' b'] E' Hb'.
  - by injection E'.
  - apply Forall_cons in Hb' as [Hx' _]. injection E' as <- _. cbn in Hx'. lia.
  - injection E' as -> _. cbn in Hx. lia.
  - apply Forall_cons in Hb' as [_ Hb']. injection E' as _ E'. by eapply IH.
Qed.

Lemma served_heard sub sc t0 es fx c basis t :
  served sub sc t0 es fx c ->
  heard t0 es basis t <-> t = match basis with Transactions => last_update c | AnyFrame => last_frame c end.
Proof.
  intros Hs. destruct (served_kept _ _ _ _ _ _ Hs) as [_ _ Kf Ku Ks _ _ _]. split.
  - destruct 1 as [E|f E|E|p E]; rewrite ?Kf, ?Ku, ?E; try done.
    + destruct (progress c) as [p|]; [|done]. destruct Ks as (b & tx & a & Eb & _). rewrite E in Eb. by destruct b.
    + destruct (progress c) as [p'|]; cbn in Ks; [by rewrite (first_sight_unique _ _ _ E Ks)|].
      destruct E as (b & tx & a & Eb & _). rewrite Ks in Eb. by destruct b.
  - intros ->. destruct basis; rewrite ?Kf, ?Ku.
    + destruct (progress c) as [p|]; [by apply heard_slot|by apply heard_no_slot].
    + destruct (last (frames es)) as [f|] eqn:E; [by apply heard_frame|]. apply heard_nothing. by apply last_None.
Qed.

(** C20: the idle guard judges a connection by what the wire was last asked for on it, never by
    a stream that was not requested: it ends the connection exactly when, for the whole
    timeout, a wire without a filter or a pools-only filter with block metas sent no frame at
    all, or a filter with the program sent no transaction of a new slot; a pools-only filter
    without block metas is never found idle. *)
Theorem silence_is_judged_by_the_subscription sub sc t0 es fx c h now :
  served sub sc t0 es fx c -> debouncing c = false ->
  conn_step caps policy h now EvIdleTick c = Some (finish c IdleTimeout, h_ring h, [])
  <-> exists basis t what,
       idle_basis caps (conn_scope c) (blocks_meta (last_asked sub fx)) = Some (basis, what)
       /\ heard t0 es basis t /\ idle_reconnect_timeout policy <= elapsed now t.
Proof.
  intros Hs Hd. destruct (served_kept _ _ _ _ _ _ Hs) as [Kw Km _ _ _ _ _ _].
  unfold last_asked. rewrite <- Kw, <- Km. unfold conn_step, on_idle_tick. rewrite Hd.
  destruct (idle_basis _ _ _) as [[basis what]|]; [|split; [done|naive_solver]].
  set (t := match basis with Transactions => last_update c | AnyFrame => last_frame c end).
  assert (E : match basis with Transactions => elapsed now (last_update c) | AnyFrame => elapsed now (last_frame c) end
              = elapsed now t) by (by destruct basis).
  rewrite E. destruct (Z.leb_spec (idle_reconnect_timeout policy) (elapsed now t)).
  - split; [|done]. intros _. exists basis, t, what. split; [done|]. split; [|done]. by eapply served_heard.
  - split; [done|]. intros (b & t' & w & [= <- <-] & Ht & Hi). apply (served_heard _ _ _ _ _ _ _ _ Hs) in Ht.
    subst t'. fold t in Hi. lia.
Qed.

(** Every transaction of a connection has one fate, and the lanes got those counted as routed. *)
Theorem transactions_are_accounted sub sc t0 es fx c :
  served sub sc t0 es fx c ->
  updates (stats c) = Z.of_nat (length (frames es))
  /\ routed (stats c) + duplicates (stats c) + irrelevant (stats c) + shed (stats c) = Z.of_nat (length (txs es))
  /\ routed (stats c) = Z.of_nat (length (omap lane_of fx)).
Proof. intros Hs. by destruct (served_kept _ _ _ _ _ _ Hs). Qed.

(** The record of progress is the highest slot of the connection and its first sight. *)
Theorem progress_is_first_sight sub sc t0 es fx c : served sub sc t0 es fx c -> sighted (txs es) (progress c).
Proof. intros Hs. by destruct (served_kept _ _ _ _ _ _ Hs). Qed.

(** A scope change that adds the program to a filter applied in place does not restart
    the guard's transaction clock.  When the pools were quiet for the timeout, the change is
    accepted on the open connection and the first idle check after it ends the connection,
    however many frames arrive and however young the new filter is. *)
Theorem widening_cuts_a_live_connection sub sc t0 es fx c h now :
  served sub sc t0 es fx c -> debouncing c = false ->
  server_filter caps = true -> in_place_resubscribe caps = true ->
  program (conn_scope c) = false -> program (h_scope h) = true -> idle_reason caps h (h_scope h) = None ->
  (exists t, heard t0 es Transactions t /\ idle_reconnect_timeout policy <= elapsed now t) ->
  exists c', conn_step caps policy h now (EvScope false None) c = Some (Goes c', h_ring h, [Asked (wire c')])
    /\ wire c' = build_subscription caps policy h (h_scope h) None
    /\ forall h', conn_step caps policy h' now EvIdleTick c' = Some (finish c' IdleTimeout, h_ring h', []).
Proof.
  intros Hs Hd Hf Hi Hp Hp' Hr (t & Hh & Ht). apply (served_heard _ _ _ _ _ _ _ _ Hs) in Hh. subst t. unfold conn_step, on_scope, refilter. rewrite Hd.
  rewrite bool_decide_eq_false_2 by congruence. rewrite Hr, Hf, Hi. cbn [negb].
  exists (with_filter (set_flags c (h_scope h) (watched_live c) (debouncing c)) (h_scope h)
            (build_subscription caps policy h (h_scope h) None)).
  split; [done|].
  split; [done|]. intros h'. cbn [with_filter debouncing set_flags]. unfold on_idle_tick, idle_basis.
  cbn [with_filter conn_scope]. rewrite Hf, Hp'. cbn [negb]. cbn [with_filter last_update set_flags].
  cbn. by rewrite (proj2 (Z.leb_le _ _) Ht).
Qed.

End Feed.
