(* ===== verification/PoolNotify.v ===== *)
(** * PoolNotify: how the feeds learn of a pool

    The feeds of one session share a pool index and one [Notify] ([PumpFunVenue::pools_changed]);
    whoever adds or drops a pool ([track_pools], [untrack_pools], the decoder on a migration)
    calls [notify_one].  Of the [Notify] only its contract is used: a call wakes one task that
    waits for it, or stores a permit, and a stored permit is taken by one task that comes to
    wait.  A change of the index and its call are one step. *)

From S2P Require Export SupervisorProps.
From S2P Require Import DecodeProps.
#[local] Open Scope Z_scope.

(** What the supervisor needs of the venue's account list: it depends on the pools alone, not
    on the order or the coins of the index. *)
Class VenueLaws `{IngestVenue} := {
  accounts_by_pool index index' sc x :
    (forall k, is_Some (index !! k) <-> is_Some (index' !! k)) ->
    x ∈ accounts_for index sc <-> x ∈ accounts_for index' sc
}.

#[export] Instance pumpfun_venue_laws `{Codecs} (d : Decoder) : @VenueLaws (PumpFunVenue d).
Proof.
  constructor. intros index index' sc x Hk. cbn. unfold subscription_accounts.
  rewrite !elem_of_app. destruct (pools sc); [|done].
  assert (E : forall m : gmap string string, x ∈ (map_to_list m).*1 <-> is_Some (m !! x)).
  { intros m. rewrite list_elem_of_fmap. split.
    - intros ([k v] & -> & Hkv). exists v. by apply elem_of_map_to_list in Hkv.
    - intros [v Hv]. exists (x, v). split; [done|]. by apply elem_of_map_to_list. }
  rewrite !E, Hk. done.
Qed.

Section Session.
Context `{IngestVenue} (policy : FeedPolicy).

(** ** The session *)

Record FeedTask := { f_caps : FeedCaps; f_task : Task }.

Record Session := { index : gmap string string; permit : bool; tasks : list FeedTask }.

(** The host of a feed, with the index of the session. *)
Definition host_in (s : Session) (h : Host) : Host := {|
  h_index := index s; h_push := h_push h; h_live := h_live h; h_scope := h_scope h; h_gap := h_gap h;
  h_ring := h_ring h; h_nanos := h_nanos h |}.

Definition set_task (s : Session) (i : nat) (f : FeedTask) (t : Task) (p : bool) : Session := {|
  index := index s; permit := p; tasks := <[i := {| f_caps := f_caps f; f_task := t |}]> (tasks s) |}.

Definition same_pools (m m' : gmap string string) : Prop := forall k, is_Some (m !! k) <-> is_Some (m' !! k).

(** A feed moves on an event of its own; a pool is added or dropped and nobody waits, or one
    waiting feed is woken; a feed that waits takes the permit; or an entry is rewritten. *)
Inductive session_step (s : Session) : Session -> Prop :=
  | own_event i f h now e t ring fx :
      tasks s !! i = Some f -> e <> On EvPools ->
      task_step (f_caps f) policy (host_in s h) now e (f_task f) = Some (t, ring, fx) ->
      session_step s (set_task s i f t (permit s))
  | takes_permit i f h now t ring fx :
      tasks s !! i = Some f -> permit s = true ->
      task_step (f_caps f) policy (host_in s h) now (On EvPools) (f_task f) = Some (t, ring, fx) ->
      session_step s (set_task s i f t false)
  | stores_permit m :
      session_step s {| index := m; permit := true; tasks := tasks s |}
  | wakes_one m i f h now t ring fx :
      tasks s !! i = Some f ->
      let s' := {| index := m; permit := permit s; tasks := tasks s |} in
      task_step (f_caps f) policy (host_in s' h) now (On EvPools) (f_task f) = Some (t, ring, fx) ->
      session_step s (set_task s' i f t (permit s))
  | rewrites m :
      same_pools (index s) m ->
      session_step s {| index := m; permit := permit s; tasks := tasks s |}.

(** The session from its feeds' start. *)
Inductive session (caps : list FeedCaps) : Session -> Prop :=
  | session_start m (hs : list (Host * Z)) :
      length hs = length caps ->
      session caps
        {| index := m; permit := false;
           tasks := zip_with (fun c x =>
             {| f_caps := c;
                f_task := (start c policy (host_in {| index := m; permit := false; tasks := [] |} x.1) x.2).1 |})
             caps hs |}
  | session_more s s' : session caps s -> session_step s s' -> session caps s'.

(** ** A feed alone *)

(** The filter on the wire names what the scope is to carry now. *)
Definition names (include : list string) (m : gmap string string) (sc : StreamScope) : Prop :=
  forall x, x ∈ include <-> x ∈ accounts_for m sc.

Definition fresh (m : gmap string string) (t : Task) : Prop :=
  match phase t with
  | Connecting l sub => names (account_include sub) m (l_scope l)
  | Connected _ c => debouncing c = true \/ names (account_include (wire c)) m (conn_scope c)
  | _ => True
  end.

Lemma enter_fresh caps h now b : server_filter caps = true -> fresh (h_index h) (enter caps policy h now b).1.
Proof.
  intros Hf. unfold enter. destruct (h_live h); [|done]. cbn [negb]. destruct (idle_reason _ _ _); [done|].
  destruct (resume_point _ _ _ _) as [from b']. cbn. by rewrite Hf.
Qed.

Lemma end_attempt_fresh caps h now l att b :
  server_filter caps = true -> fresh (h_index h) (end_attempt caps policy h now l att b).1.
Proof.
  intros Hf. unfold end_attempt. destruct (after_attempt _ _ _ _ _ _ _) as [b' [| |d]]; [done| |done].
  by apply enter_fresh.
Qed.

Lemma conn_step_fresh caps h now e c c' ring fx :
  server_filter caps = true -> conn_step caps policy h now e c = Some (Goes c', ring, fx) ->
  debouncing c' = true
  \/ names (account_include (wire c')) (h_index h) (conn_scope c')
  \/ e <> EvPools /\ debouncing c' = debouncing c /\ wire c' = wire c /\ conn_scope c' = conn_scope c.
Proof.
  intros Hf Hs.
  assert (Hfil : forall c1 sc1 ans fx1, refilter caps policy h ans c1 sc1 = (Goes c', fx1) ->
             names (account_include (wire c')) (h_index h) (conn_scope c')).
  { intros c1 sc1 ans fx1 [-> _]%refilter_goes. cbn. by rewrite Hf. }
  unfold conn_step in Hs. destruct (debouncing c) eqn:Ed.
  { destruct e as [| |ans| | | |]; try done; [injection Hs as <- _ _; by left|].
    destruct (refilter _ _ _ _ _ _) as [o f] eqn:Er. injection Hs as -> _ _. right. left. by eapply Hfil. }
  destruct e as [[err|u] send| |ans|closed ans|closed|closed ans|]; try done.
  - injection Hs as Hs. right. right. rewrite <- Ed. unfold on_update in Hs. split; [done|].
    destruct u as [tx| | |]; try (by injection Hs as <- _ _).
    destruct (route _ _ _ _ _) as [[[r st] ring1] fx1].
    assert (c' = set_stats (slot_seen (frame_arrived c now) (update_slot tx)) st) as ->
      by (destruct r; unfold finish in Hs; try discriminate Hs; by injection Hs as <- _ _).
    unfold slot_seen. by destruct (advances _ _).
  - rewrite Hf in Hs. injection Hs as <- _ _. by left.
  - rewrite Hf, andb_true_r in Hs. destruct (watched_live c); [|done].
    destruct closed; [injection Hs as <- _ _; by right; right; rewrite ?Ed|].
    destruct (refilter _ _ _ _ _ _) as [o f] eqn:Er. injection Hs as -> _ _. right. left. by eapply Hfil.
  - destruct closed; [done|]. destruct (h_live h); [|done]. cbn in Hs. injection Hs as <- _ _. by right; right.
  - destruct closed; [done|]. unfold on_scope in Hs. case_bool_decide; [injection Hs as <- _ _; by right; right|].
    destruct (idle_reason _ _ _); [done|]. rewrite Hf in Hs.
    destruct (refilter _ _ _ _ _ _) as [o f] eqn:Er. injection Hs as -> _ _. right. left. by eapply Hfil.
  - unfold on_idle_tick in Hs. right. right.
    destruct (idle_basis _ _ _) as [[basis w]|]; [|by injection Hs as <- _ _].
    destruct (_ <=? _); [done|]. by injection Hs as <- _ _.
Qed.

(** A step leaves the feed fresh for the index it read, and one that answers the [Notify]
    does so whatever the filter was before. *)
Lemma task_step_fresh caps h now e t t' ring fx :
  server_filter caps = true -> task_step caps policy h now e t = Some (t', ring, fx) ->
  fresh (h_index h) t \/ e = On EvPools -> fresh (h_index h) t'.
Proof.
  intros Hf Hs Hb. destruct t as [b ph]. unfold task_step in Hs. cbn [phase book] in Hs.
  destruct ph as [| |l sub|l c|u|], e as [ans|e|]; try done.
  - destruct e; try done. unfold wake_idle in Hs. destruct closed; injection Hs as <- _ _; [done|by apply enter_fresh].
  - unfold wake_idle in Hs. destruct e as [| | | |closed|closed ans|]; try done;
      [|destruct closed..]; injection Hs as <- _ _; try done; by apply enter_fresh.
  - destruct ans as [err|]; injection Hs as <- _ _; [by apply end_attempt_fresh|].
    destruct Hb as [Hb|]; [|done]. right. exact Hb.
  - destruct (conn_step caps policy h now e c) as [[[o ring'] fx']|] eqn:Ec; [|done].
    cbn [mbind option_bind] in Hs. destruct o as [c'|att].
    + injection Hs as <- _ _. apply conn_step_fresh in Ec as [E|[E|(Ne & E1 & E2 & E3)]]; [by left|by right| |done].
      cbn. rewrite E1, E2, E3. by destruct Hb as [Hb|[= ->]].
    + destruct (end_attempt _ _ _ _ _ _ _) as [t1 fx1] eqn:Ee. injection Hs as <- _ _.
      change t1 with (t1, fx1).1. rewrite <- Ee. by apply end_attempt_fresh.
  - destruct (u <=? now); [|done]. injection Hs as <- _ _. by apply enter_fresh.
Qed.

Lemma fresh_same_pools `{!VenueLaws} m m' t : same_pools m m' -> fresh m t -> fresh m' t.
Proof.
  intros Hm. unfold fresh, names. destruct (phase t) as [| |l sub|l c| |]; try done.
  - intros Hn x. rewrite Hn. by apply accounts_by_pool.
  - intros [Hd|Hn]; [by left|right]. intros x. rewrite Hn. by apply accounts_by_pool.
Qed.

Lemma lone_session `{!VenueLaws} caps s :
  server_filter caps = true -> session [caps] s ->
  exists t, tasks s = [{| f_caps := caps; f_task := t |}] /\ (permit s = true \/ fresh (index s) t).
Proof.
  intros Hf. induction 1 as [m hs Hl|s s' _ (t & Ht & Hp) Hs].
  - destruct hs as [|[h now] [|? ?]]; try done. eexists. split; [done|]. right. by apply enter_fresh.
  - destruct Hs as [i f h now e t' ring fx Hi Hne Hs|i f h now t' ring fx Hi Hp' Hs|m|m i f h now t' ring fx Hi s' Hs|m Hm].
    + rewrite Ht in Hi. destruct i; [|done]. injection Hi as <-. unfold set_task. rewrite Ht. cbn.
      eexists. split; [done|]. destruct Hp as [Hp|Hp]; [by left|right].
      change (index s) with (h_index (host_in s h)). eapply task_step_fresh; [done..|]. by left.
    + rewrite Ht in Hi. destruct i; [|done]. injection Hi as <-. unfold set_task. rewrite Ht. cbn.
      eexists. split; [done|]. right. change (index s) with (h_index (host_in s h)).
      eapply task_step_fresh; [done..|]. by right.
    + exists t. split; [done|by left].
    + rewrite Ht in Hi. destruct i; [|done]. injection Hi as <-. unfold set_task, s'. rewrite Ht. cbn.
      eexists. split; [done|]. right. change m with (h_index (host_in s' h)).
      eapply task_step_fresh; [done..|]. by right.
    + exists t. split; [done|]. destruct Hp as [Hp|Hp]; [by left|right]. by eapply fresh_same_pools.
Qed.

(** C21: a feed that has the session to itself never misses a pool.  At every point of any
    run, once no notification is pending and no burst is being waited out, the filter on
    its open connection names exactly what its scope is to carry, every pool tracked by
    then included and every pool dropped by then gone. *)
Theorem a_lone_feed_tracks_every_pool `{!VenueLaws} caps s l c t :
  server_filter caps = true -> session [caps] s -> tasks s = [t] -> phase (f_task t) = Connected l c ->
  permit s = false -> debouncing c = false ->
  forall x, x ∈ account_include (wire c) <-> x ∈ accounts_for (index s) (conn_scope c).
Proof.
  intros Hf Hs Ht Hp Hn Hd. destruct (lone_session _ _ Hf Hs) as (t' & Ht' & Hfr).
  rewrite Ht in Ht'. injection Ht' as ->. cbn in Hp. destruct Hfr as [Hfr|Hfr]; [congruence|].
  unfold fresh in Hfr. rewrite Hp in Hfr. destruct Hfr as [Hfr|Hfr]; [congruence|exact Hfr].
Qed.

(** ** Two feeds *)

(** A feed with nothing to carry waits for the same notification as the feed that carries
    the pools, and takes it: a pool is tracked, the idle feed is the one woken and goes back
    to sleep, and no notification is left.  The feed that carries the pools stays on its old
    filter, which does not name the pool. *)
Theorem an_idle_feed_swallows_the_change caps s i fi l c j fj pool mint h (now : Z) :
  session caps s -> permit s = false ->
  tasks s !! i = Some fi -> phase (f_task fi) = Connected l c -> pool ∉ account_include (wire c) ->
  tasks s !! j = Some fj -> phase (f_task fj) = Idle ->
  h_live h = true -> scope_is_empty (h_scope h) = true ->
  exists s', session_step s s' /\ session caps s'
    /\ index s' = <[pool := mint]> (index s) /\ permit s' = false
    /\ tasks s' !! i = Some fi /\ pool ∉ account_include (wire c)
    /\ tasks s' = tasks s.
Proof.
  intros Hs Hp Hi Hpi Hnot Hj Hpj Hl He.
  set (s1 := {| index := <[pool := mint]> (index s); permit := permit s; tasks := tasks s |}).
  assert (Hstep : task_step (f_caps fj) policy (host_in s1 h) now (On EvPools) (f_task fj)
                  = Some (f_task fj, h_ring h, [])).
  { unfold task_step. rewrite Hpj. unfold wake_idle, enter. cbn [host_in h_live h_scope h_ring].
    rewrite Hl. cbn [negb]. unfold idle_reason. rewrite He. destruct (f_task fj) as [b ph]. cbn in Hpj |- *.
    by rewrite Hpj. }
  assert (E : set_task s1 j fj (f_task fj) (permit s) = s1).
  { unfold set_task, s1. cbn. f_equal. apply list_insert_id. by destruct fj. }
  exists s1. assert (session_step s s1).
  { rewrite <- E. by eapply (wakes_one s (<[pool := mint]> (index s)) j fj). }
  split_and!; try done. by eapply session_more.
Qed.

End Session.

(** ** A session at work *)

Module FeedDemo.
Definition venue : IngestVenue := PumpFunVenue Demo.decoder.
#[global] Existing Instance venue.

Definition ALL : StreamScope := {| program := true; pools := true |}.
Definition POOLS : StreamScope := {| program := false; pools := true |}.
Definition NONE : StreamScope := {| program := false; pools := false |}.

Definition host (sc : StreamScope) : Host := {|
  h_index := {[ "pool1" := "mint1" ]};
  h_push := {| on_block_meta := true; on_account := false; watch_accounts := [] |};
  h_live := true; h_scope := sc; h_gap := (true, 300); h_ring := None; h_nanos := 0 |}.

Definition slot (n : Z) : SubscribeUpdateTransaction := {| update_transaction := None; update_slot := n |}.

Definition moment (t : Z) (e : TaskEvent) : Moment := {| m_host := host ALL; m_now := secs t; m_event := e |}.

(** Slot 500 is seen, the stream fails, and two attempts to connect fail. *)
Definition until_failure : list Moment :=
  [moment 0 (WireAnswered None); moment 1 (On (EvUpdate (inr (TransactionUpdate (slot 500))) Sent))].

Definition outage : list Moment :=
  until_failure
  ++ [moment 2 (On (EvUpdate (inl (StreamFailed "reset")) Sent)); moment 10 Woken;
      moment 11 (WireAnswered (Some (ConnectFailed "refused"))); moment 20 Woken;
      moment 21 (WireAnswered (Some (ConnectFailed "refused"))); moment 30 Woken].

Definition at_start : Task := (start LASERSTREAM_CAPS default_policy (host ALL) 0).1.

Definition after (ms : list Moment) : list Turn * Task :=
  default ([], at_start) (run_turns LASERSTREAM_CAPS default_policy ms [] at_start).

Lemma course_after ms :
  is_someb (run_turns LASERSTREAM_CAPS default_policy ms [] at_start) = true ->
  course LASERSTREAM_CAPS default_policy (after ms).1 (after ms).2.
Proof.
  intros Hs. unfold after. destruct (run_turns _ _ _ _ _) as [[us t]|] eqn:E; [|done].
  eapply course_run; [|exact E]. apply course_start.
Qed.

Lemma requests_follow_the_gap_witness :
  exists us l sub a k,
    course LASERSTREAM_CAPS default_policy us (after outage).2
    /\ phase (after outage).2 = Connecting l sub /\ sub_from_slot sub = Some 501
    /\ gap us a k /\ (l_gap l).1 = true /\ in_window l a /\ 501 = (anchor_slot a + 1) mod 2 ^ 64.
Proof.
  assert (Hc : course LASERSTREAM_CAPS default_policy (after outage).1 (after outage).2)
    by (apply course_after; vm_compute; reflexivity).
  destruct (phase (after outage).2) as [| |l sub| | |] eqn:Ep;
    try (exfalso; vm_compute in Ep; discriminate Ep).
  assert (Hs : sub_from_slot sub = Some 501) by (vm_compute in Ep; injection Ep as <- <-; reflexivity).
  destruct (proj1 (requests_follow_the_gap LASERSTREAM_CAPS default_policy _ _ l sub 501 eq_refl Hc Ep) Hs)
    as (a & k & Hg & Ht & Hw & En).
  exists (after outage).1, l, sub, a, k. repeat split; assumption.
Defined.

Lemma a_lost_connection_is_retried_witness :
  exists us t t' fx u,
    task_step LASERSTREAM_CAPS default_policy (host ALL) (secs 2) (On (EvUpdate (inl (StreamFailed "reset")) Sent)) t
      = Some (t', None, fx)
    /\ course LASERSTREAM_CAPS default_policy us t
    /\ exists d until, d = step_of_ramp default_policy (if fast_failure u then streak us else 0)
      /\ secs 1 <= d <= secs 30 /\ phase t' = Sleeping until /\ d <= until - secs 2 <= d + d / 2.
Proof.
  assert (Hc : course LASERSTREAM_CAPS default_policy (after until_failure).1 (after until_failure).2)
    by (apply course_after; vm_compute; reflexivity).
  destruct (task_step LASERSTREAM_CAPS default_policy (host ALL) (secs 2)
              (On (EvUpdate (inl (StreamFailed "reset")) Sent)) (after until_failure).2) as [[[t' ring] fx]|] eqn:Es;
    [|exfalso; vm_compute in Es; discriminate Es].
  assert (Er : ring = None) by (vm_compute in Es; injection Es as _ <- _; reflexivity). subst ring.
  destruct (ended LASERSTREAM_CAPS default_policy (host ALL) (secs 2)
              (On (EvUpdate (inl (StreamFailed "reset")) Sent)) (after until_failure).2) as [|u [|? ?]] eqn:Ee;
    try (exfalso; vm_compute in Ee; discriminate Ee).
  assert (Et : is_terminal (reason (u_attempt u)) = false) by (vm_compute in Ee; injection Ee as <-; reflexivity).
  pose proof (a_lost_connection_is_retried LASERSTREAM_CAPS default_policy _ _ _ _ _ _ _ _ u
    ltac:(vm_compute; split; congruence) Hc Es Ee) as Hr.
  rewrite Et in Hr. destruct Hr as (d & until & Hd & Hb & Hp & Hu & _).
  exists (after until_failure).1, (after until_failure).2, t', fx, u.
  split; [exact Es|]. split; [exact Hc|]. exists d, until. repeat split; try assumption; apply Hb || apply Hu.
Defined.

Definition quiet_sub : Subscription := build_subscription LASERSTREAM_CAPS default_policy (host POOLS) POOLS None.

Definition quiet_frame : ConnEvent := EvUpdate (inr (BlockMeta 7 "hash" None)) Sent.

(** Pools alone, opened at 0, with one block meta at 11 s. *)
Lemma quiet_served :
  served LASERSTREAM_CAPS default_policy quiet_sub POOLS 0 [(secs 11, quiet_frame)] [MetaHook 7 "hash" None]
    (frame_arrived (opened quiet_sub POOLS 0) (secs 11)).
Proof.
  change [(secs 11, quiet_frame)] with ([] ++ [(secs 11, quiet_frame)]).
  change [MetaHook 7 "hash" None] with ([] ++ [MetaHook 7 "hash" None]).
  by eapply (served_more _ _ _ _ _ _ _ _ (host POOLS)); [constructor|].
Qed.

Lemma silence_is_judged_by_the_subscription_witness :
  let c := frame_arrived (opened quiet_sub POOLS 0) (secs 11) in
  conn_step LASERSTREAM_CAPS default_policy (host POOLS) (secs 21) EvIdleTick c = Some (finish c IdleTimeout, None, []).
Proof.
  cbv zeta. apply (silence_is_judged_by_the_subscription LASERSTREAM_CAPS default_policy quiet_sub POOLS 0
    [(secs 11, quiet_frame)] [MetaHook 7 "hash" None] _ (host POOLS) (secs 21) quiet_served eq_refl).
  exists AnyFrame, (secs 11), "stream frame". split; [vm_compute; reflexivity|].
  split; [|vm_compute; congruence]. apply (heard_frame 0 _ (secs 11, BlockMeta 7 "hash" None)). reflexivity.
Defined.

Lemma widening_cuts_a_live_connection_witness :
  exists c', conn_step LASERSTREAM_CAPS default_policy (host ALL) (secs 12) (EvScope false None)
               (frame_arrived (opened quiet_sub POOLS 0) (secs 11)) = Some (Goes c', None, [Asked (wire c')])
    /\ conn_step LASERSTREAM_CAPS default_policy (host ALL) (secs 12) EvIdleTick c'
       = Some (finish c' IdleTimeout, None, []).
Proof.
  destruct (widening_cuts_a_live_connection LASERSTREAM_CAPS default_policy quiet_sub POOLS 0
    [(secs 11, quiet_frame)] [MetaHook 7 "hash" None] _ (host ALL) (secs 12) quiet_served eq_refl eq_refl eq_refl
    eq_refl eq_refl eq_refl) as (c' & H1 & _ & H2).
  - exists 0. split; [apply heard_no_slot; reflexivity|vm_compute; congruence].
  - exists c'. split; [exact H1|exact (H2 (host ALL))].
Defined.

(** One feed, connected, and the session of both with the curve on gRPC. *)
Definition session_of (caps : list FeedCaps) (hs : list (Host * Z)) : Session := {|
  index := {[ "pool1" := "mint1" ]}; permit := false;
  tasks := zip_with (fun c x => {| f_caps := c; f_task := (start c default_policy x.1 x.2).1 |}) caps hs |}.

Lemma session_of_starts caps hs :
  length hs = length caps -> Forall (fun x => h_index x.1 = {[ "pool1" := "mint1" ]}) hs ->
  session default_policy caps (session_of caps hs).
Proof.
  intros Hl Hh. pose proof (session_start default_policy caps {[ "pool1" := "mint1" ]} hs Hl) as Hs.
  unfold session_of. replace (zip_with _ caps hs) with (zip_with (fun c x =>
    {| f_caps := c; f_task := (start c default_policy
         (host_in {| index := {[ "pool1" := "mint1" ]}; permit := false; tasks := [] |} x.1) x.2).1 |}) caps hs);
    [exact Hs|].
  clear Hs. revert hs Hl Hh. induction caps as [|cp caps IH]; intros [|[h n] hs] Hl Hh; try done.
  apply Forall_cons in Hh as [Hx Hh]. cbn in *. f_equal; [|by apply IH; [lia|]]. destruct h. cbn in Hx. by subst.
Qed.

Definition connected (sub : Subscription) (l : Locals) : Task := {|
  book := new_book default_policy; phase := Connected l (opened sub ALL 0) |}.

Definition all_sub : Subscription := build_subscription LASERSTREAM_CAPS default_policy (host ALL) ALL None.
Definition all_locals : Locals := {| l_gap := (true, 300); from_slot := None; started := 0; l_scope := ALL |}.

Definition grpc_connected (s : Session) : Session :=
  set_task s 0 {| f_caps := LASERSTREAM_CAPS; f_task := connected all_sub all_locals |}
    (connected all_sub all_locals) false.

Lemma grpc_connects caps hs :
  let s := session_of (LASERSTREAM_CAPS :: caps) ((host ALL, 0) :: hs) in
  length hs = length caps -> Forall (fun x => h_index x.1 = {[ "pool1" := "mint1" ]}) hs ->
  session default_policy (LASERSTREAM_CAPS :: caps) (grpc_connected s).
Proof.
  intros s Hl Hh. eapply session_more; [apply (session_of_starts (LASERSTREAM_CAPS :: caps) ((host ALL, 0) :: hs))|].
  - cbn. lia.
  - by constructor.
  - apply (own_event default_policy s 0
             {| f_caps := LASERSTREAM_CAPS; f_task := (start LASERSTREAM_CAPS default_policy (host ALL) 0).1 |}
             (host ALL) 0 (WireAnswered None) (connected all_sub all_locals) None []); [reflexivity|done|].
    vm_compute. reflexivity.
Qed.

Lemma a_lone_feed_tracks_every_pool_witness :
  "pool1" ∈ account_include (wire (opened all_sub ALL 0)).
Proof.
  assert (Hs : session default_policy [LASERSTREAM_CAPS] (grpc_connected (session_of [LASERSTREAM_CAPS] [(host ALL, 0)])))
    by (apply (grpc_connects [] []); [reflexivity|constructor]).
  apply (a_lone_feed_tracks_every_pool default_policy LASERSTREAM_CAPS _ all_locals (opened all_sub ALL 0)
    {| f_caps := LASERSTREAM_CAPS; f_task := connected all_sub all_locals |} eq_refl Hs eq_refl eq_refl eq_refl eq_refl).
  apply (bool_decide_eq_true_1 _). vm_compute. reflexivity.
Defined.

Lemma an_idle_feed_swallows_the_change_witness :
  let s := grpc_connected (session_of [LASERSTREAM_CAPS; NATS_CAPS] [(host ALL, 0); (host NONE, 0)]) in
  exists s', session_step default_policy s s' /\ index s' !! "pool2" = Some "mint2" /\ permit s' = false
    /\ tasks s' = tasks s /\ "pool2" ∉ account_include all_sub.
Proof.
  cbv zeta. assert (Hs : session default_policy [LASERSTREAM_CAPS; NATS_CAPS]
      (grpc_connected (session_of [LASERSTREAM_CAPS; NATS_CAPS] [(host ALL, 0); (host NONE, 0)])))
    by (apply (grpc_connects [NATS_CAPS] [(host NONE, 0)]); [reflexivity|repeat constructor]).
  assert (Hn : "pool2" ∉ account_include all_sub) by (apply (bool_decide_eq_true_1 _); vm_compute; reflexivity).
  destruct (an_idle_feed_swallows_the_change default_policy _ _ 0
    {| f_caps := LASERSTREAM_CAPS; f_task := connected all_sub all_locals |} all_locals (opened all_sub ALL 0) 1
    {| f_caps := NATS_CAPS; f_task := {| book := new_book default_policy; phase := Idle |} |} "pool2" "mint2"
    (host NONE) 0 Hs eq_refl eq_refl eq_refl Hn eq_refl eq_refl eq_refl eq_refl)
    as (s' & H1 & _ & H2 & H3 & _ & _ & H4).
  exists s'. split; [exact H1|]. rewrite H2. split; [apply lookup_insert_eq|]. split; [exact H3|]. split; [exact H4|exact Hn].
Defined.
End FeedDemo.
