(* ===== verification/EventLog.v ===== *)
(** * EventLog: the log of the live events and its writer

    [engine/event_log.rs] is the format: the names of the files (dated, cut into numbered
    segments) and [Logged.t], the events that are written.  The first half of
    [live/strategies/engine/event_log.rs] is the writer: segments, rotation, and the pruning
    that keeps the directory in its budget.  A disk maps the names of the directory to bytes;
    what the file system answers at a moment is a [World].  Dates are day numbers; their
    texts (chrono) are class [LogDates], one line of JSON is class [LogCodec].  The theorems:
    what a name says, what pruning spares, and that the files, read in the order of their
    names, are a tail of what was recorded, within the budget. *)

From S2P Require Export Events Text.

(** ** File names *)

Abbreviation Date := Z (only parsing).

Class LogDates := { date_show : Date -> string; date_read : string -> option Date }.

(** The dates whose text is four digits, two and two: the years 0 to 9999. *)
Definition plain_date (d : Date) : Prop := -719528 <= d <= 2932896.

Definition dot : ascii := "."%char.

Class LogDatesLaws `{LogDates} := {
  date_reads_back : forall d, plain_date d -> date_read (date_show d) = Some d;
  date_has_no_dot : forall d, plain_date d -> dot ∉ chars (date_show d);
}.

Definition LOG_FILE_PREFIX : string := "events-".
Definition LOG_FILE_SUFFIX : string := ".jsonl".

Record LogFileName := { lf_date : Date; lf_seq : Z }.

#[export] Instance LogFileName_eq_dec : EqDecision LogFileName.
Proof. solve_decision. Defined.

(** The derived order: by date, then by segment. *)
Definition name_le (a b : LogFileName) : bool :=
  (lf_date a <? lf_date b) || ((lf_date a =? lf_date b) && (lf_seq a <=? lf_seq b)).

(** [{seq:02}]. *)
Definition two_digits (seq : Z) : string := if seq <? 10 then "0" +:+ pretty seq else pretty seq.

Section names.
Context `{LogDates}.

Definition log_file_name (date : Date) (seq : Z) : string :=
  if seq =? 0 then LOG_FILE_PREFIX +:+ date_show date +:+ LOG_FILE_SUFFIX
  else LOG_FILE_PREFIX +:+ date_show date +:+ "." +:+ two_digits seq +:+ LOG_FILE_SUFFIX.

Definition parse_log_file_name (name : string) : option LogFileName :=
  rest ← strip_prefix LOG_FILE_PREFIX name;
  stem ← strip_suffix LOG_FILE_SUFFIX rest;
  match split_once "." stem with
  | None => date ← date_read stem; Some {| lf_date := date; lf_seq := 0 |}
  | Some (date, seq) =>
      parsed ← parse_uint u32_max seq;
      date ← date_read date;
      if 0 <? parsed then Some {| lf_date := date; lf_seq := parsed |} else None
  end.

Definition is_log (name : string) : bool := is_someb (parse_log_file_name name).
End names.

(** ** What is written *)

Module Logged.
Inductive t :=
  | TokenCreated (mint : Mint) (fp : TokenFingerprint) (at_ : Ts) (creator_wallet_hash : option Z)
      (identity : option IdentityHash) (creation_slot : option Z)
  | FirstSlotSettled (mint : Mint) (buy_lamports sell_lamports : Z) (at_ : Ts)
      (creator_stand_in_wallet_hash : option Z)
  | Trade (mint : Mint) (trade : TradeLite)
  | FillConfirmed (intent : IntentId) (fill : Fill)
  | FillFailed (intent : IntentId) (reason : FillFailReason) (at_ : option Ts)
  | Migrated (mint : Mint) (at_ : Ts)
  | ManualBuy (mint : Mint) (rule : RuleId) (lamports : Z) (at_ : Ts) (exit : option ManualExit)
  | SetManualExit (position : PositionId) (exit : option ManualExit)
  | ManualClose (position : PositionId) (portion : Portion)
  | ExternallyCleared (position : PositionId) (fill : Fill).

Definition from_event {TagDoc} (event : Event TagDoc) : option t :=
  match event with
  | Events.TokenCreated mint fp at_ creator identity slot => Some (TokenCreated mint fp at_ creator identity slot)
  | Events.FirstSlotSettled mint buy sell at_ stand_in => Some (FirstSlotSettled mint buy sell at_ stand_in)
  | Events.Trade mint trade => Some (Trade mint trade)
  | Events.FillConfirmed intent fill => Some (FillConfirmed intent fill)
  | Events.FillFailed intent reason at_ => Some (FillFailed intent reason at_)
  | Events.Migrated mint at_ => Some (Migrated mint at_)
  | Events.ManualBuy mint rule lamports at_ exit => Some (ManualBuy mint rule lamports at_ exit)
  | Events.SetManualExit position exit => Some (SetManualExit position exit)
  | Events.ManualClose position portion => Some (ManualClose position portion)
  | Events.ExternallyCleared position fill => Some (ExternallyCleared position fill)
  | Tick _ | RulesReloaded _ _ _ | LaunchBuildStatsReloaded _ | BuildBreadthReloaded _ => None
  end.

Definition into_event {TagDoc} (e : t) : Event TagDoc :=
  match e with
  | TokenCreated mint fp at_ creator identity slot => Events.TokenCreated mint fp at_ creator identity slot
  | FirstSlotSettled mint buy sell at_ stand_in => Events.FirstSlotSettled mint buy sell at_ stand_in
  | Trade mint trade => Events.Trade mint trade
  | FillConfirmed intent fill => Events.FillConfirmed intent fill
  | FillFailed intent reason at_ => Events.FillFailed intent reason at_
  | Migrated mint at_ => Events.Migrated mint at_
  | ManualBuy mint rule lamports at_ exit => Events.ManualBuy mint rule lamports at_ exit
  | SetManualExit position exit => Events.SetManualExit position exit
  | ManualClose position portion => Events.ManualClose position portion
  | ExternallyCleared position fill => Events.ExternallyCleared position fill
  end.

Definition mint_of (e : t) : option Mint :=
  match e with
  | TokenCreated mint _ _ _ _ _ | FirstSlotSettled mint _ _ _ _ | Trade mint _
  | ManualBuy mint _ _ _ _ | Migrated mint _ => Some mint
  | _ => None
  end.

Definition time_of (e : t) : option Ts :=
  match e with
  | TokenCreated _ _ at_ _ _ _ | FirstSlotSettled _ _ _ at_ _ | ManualBuy _ _ _ at_ _ | Migrated _ at_ => Some at_
  | Trade _ trade => Some (t_at trade)
  | FillConfirmed _ fill | ExternallyCleared _ fill => Some (fl_at fill)
  | FillFailed _ _ at_ => at_
  | _ => None
  end.

Definition is_pre_entry (e : t) : bool :=
  match e with TokenCreated _ _ _ _ _ _ | FirstSlotSettled _ _ _ _ _ | Trade _ _ | Migrated _ _ => true | _ => false end.
End Logged.

(** One line of the log: [serde_json::to_string] and [serde_json::from_slice]. *)
Class LogCodec := { line_of : Logged.t -> option (list ascii); event_of : list ascii -> option Logged.t }.

Definition newline : ascii := ascii_of_nat 10.

(** [u8::is_ascii_whitespace]. *)
Definition ascii_space (c : ascii) : bool :=
  let n := byte_at c in (n =? 32) || (n =? 9) || (n =? 10) || (n =? 12) || (n =? 13).

Definition blank (line : list ascii) : bool := forallb ascii_space line.

(** A JSON text holds no raw line break and is not blank. *)
Class LogCodecLaws `{LogCodec} := {
  line_is_one : forall e line, line_of e = Some line -> newline ∉ line;
  line_not_blank : forall e line, line_of e = Some line -> blank line = false;
}.

(** [split] of a byte slice at line breaks: one piece more than there are breaks. *)
Fixpoint split_lines (bytes : list ascii) : list (list ascii) :=
  match bytes with
  | [] => [[]]
  | c :: rest =>
      if Ascii.eqb c newline then [] :: split_lines rest
      else match split_lines rest with line :: lines => (c :: line) :: lines | [] => [[c]] end
  end.

(** The events of a file's bytes: its lines that parse, in order. *)
Definition line_event `{LogCodec} (line : list ascii) : option Logged.t := if blank line then None else event_of line.
Definition file_events `{LogCodec} (bytes : list ascii) : list Logged.t := omap line_event (split_lines bytes).

(** ** The writer *)

Abbreviation Disk := (gmap string (list ascii)) (only parsing).

Definition len (bytes : list ascii) : Z := Z.of_nat (length bytes).

(** What the file system answers in one step of the writer.  [writes] is handed the bytes
    the [BufWriter] has to write and says which of them reach the file and which it still
    holds after a failed or short write; the others are lost. *)
Record World := {
  read_dir : Disk -> option (list string);
  can_open : string -> bool;
  can_remove : string -> bool;
  writes : list ascii -> list ascii * list ascii;
}.

Definition DEFAULT_RETENTION_DAYS : Z := 7.
Definition DEFAULT_MAX_TOTAL_BYTES : Z := 6 * 1024 * 1024 * 1024.
Definition DEFAULT_SEGMENT_BYTES : Z := 256 * 1024 * 1024.
Definition MIN_SEGMENT_BYTES : Z := 1024 * 1024.

Record Limits := { retention_days : Z; max_total_bytes : Z; segment_bytes : Z }.

(** [str::parse] of an [i64]. *)
Definition parse_i64 (s : string) : option Z :=
  match s with
  | String "-" "" => None
  | String "-" r => Z.opp <$> parse_digits (i64_max + 1) 0 r
  | _ => parse_uint i64_max s
  end.

(** [parse_env] of the three variables, [None] for one that is not set. *)
Definition limits_from_env (retention max_bytes segment : option string) : Limits :=
  let retention_days := unwrap_or (s ← retention; parse_i64 (trim s)) DEFAULT_RETENTION_DAYS in
  let max_total := unwrap_or (s ← max_bytes; parse_uint u64_max (trim s)) DEFAULT_MAX_TOTAL_BYTES in
  let segment := unwrap_or (s ← segment; parse_uint u64_max (trim s)) DEFAULT_SEGMENT_BYTES in
  {| retention_days := retention_days; max_total_bytes := max_total;
     segment_bytes := Z.min (Z.max segment MIN_SEGMENT_BYTES) (Z.max max_total MIN_SEGMENT_BYTES) |}.

(** [sg_buffer] is what the [BufWriter] still holds. *)
Record Segment := { sg_date : Date; sg_seq : Z; sg_written : Z; sg_buffer : list ascii }.

Definition should_roll (s : Segment) (today : Date) (limits : Limits) : bool :=
  negb (sg_date s =? today) || (segment_bytes limits <=? sg_written s).

Record Kept := { k_name : LogFileName; k_path : string; k_bytes : Z }.

Definition kept_le (a b : Kept) : bool := name_le (k_name a) (k_name b).

Record Writer := { w_disk : Disk; w_open : option Segment }.

Section writer.
Context `{LogDates, LogCodec}.

Definition path_of (s : Segment) : string := log_file_name (sg_date s) (sg_seq s).

Definition next_seq_for (world : World) (disk : Disk) (today : Date) : Z :=
  match read_dir world disk with
  | None => 0
  | Some entries =>
      foldr Z.max 0 (lf_seq <$> List.filter (fun n => lf_date n =? today) (omap parse_log_file_name entries))
  end.

(** The first loop of [prune]: what age removes, and the files kept with their sizes. *)
Fixpoint prune_age (world : World) (limits : Limits) (today : Date) (open : string) (entries : list string)
    (disk : Disk) : Disk * list Kept :=
  match entries with
  | [] => (disk, [])
  | name :: entries =>
      match parse_log_file_name name with
      | None => prune_age world limits today open entries disk
      | Some parsed =>
          if negb (String.eqb name open) && (retention_days limits <? today - lf_date parsed) then
            prune_age world limits today open entries (if can_remove world name then delete name disk else disk)
          else
            let '(disk', kept) := prune_age world limits today open entries disk in
            (disk', {| k_name := parsed; k_path := name; k_bytes := map_or (disk !! name) 0 len |} :: kept)
      end
  end.

(** The second loop: the oldest go until the rest fits. *)
Fixpoint evict (world : World) (limits : Limits) (open : string) (kept : list Kept) (total : Z) (disk : Disk) : Disk :=
  match kept with
  | [] => disk
  | k :: kept =>
      if total <=? max_total_bytes limits then disk
      else if String.eqb (k_path k) open then evict world limits open kept total disk
      else if can_remove world (k_path k) then
        evict world limits open kept (sat_sub total (k_bytes k)) (delete (k_path k) disk)
      else evict world limits open kept total disk
  end.

Definition total_bytes (kept : list Kept) : Z := foldr (fun k n => k_bytes k + n) 0 kept.

(** The sizes of the files of one disk add up below [2^64]. *)
Definition prune (world : World) (limits : Limits) (today : Date) (open : string) (disk : Disk) : Disk :=
  match read_dir world disk with
  | None => disk
  | Some entries =>
      let '(disk, kept) := prune_age world limits today open entries disk in
      let total := total_bytes kept in
      if total <=? max_total_bytes limits then disk
      else evict world limits open (sort_by kept_le kept) total disk
  end.

Definition rotate (world : World) (limits : Limits) (today : Date) (seq : Z) (disk : Disk) : option (Disk * Segment) :=
  let path := log_file_name today seq in
  if can_open world path then
    let bytes := unwrap_or (disk !! path) [] in
    Some (prune world limits today path (<[path := bytes]> disk),
          {| sg_date := today; sg_seq := seq; sg_written := len bytes; sg_buffer := [] |})
  else None.

(** The segment number a roll opens. *)
Definition roll_seq (world : World) (disk : Disk) (open : option Segment) (today : Date) : Z :=
  match open with
  | Some s => if sg_date s =? today then wrap_u 32 (sg_seq s + 1) else next_seq_for world disk today
  | None => next_seq_for world disk today
  end.

(** [writeln] and the flush; their results are ignored, and [written] counts the whole line
    whatever became of it. *)
Definition append_line (world : World) (w : Writer) (s : Segment) (line : list ascii) : Writer :=
  let '(landed, held) := writes world (sg_buffer s ++ line ++ [newline]) in {|
  w_disk := alter (fun bytes => bytes ++ landed) (path_of s) (w_disk w);
  w_open := Some {| sg_date := sg_date s; sg_seq := sg_seq s; sg_written := sg_written s + len line + 1; sg_buffer := held |} |}.

(** The segment that is replaced is dropped, and its [BufWriter] tries once more. *)
Definition close (world : World) (open : option Segment) (disk : Disk) : Disk :=
  match open with
  | Some s => alter (fun bytes => bytes ++ (writes world (sg_buffer s)).1) (path_of s) disk
  | None => disk
  end.

(** One event through the loop of [writer_loop]. *)
Definition writer_step (limits : Limits) (world : World) (today : Date) (logged : Logged.t) (w : Writer) : Writer :=
  let write w :=
    match w_open w with
    | Some s => match line_of logged with Some line => append_line world w s line | None => w end
    | None => w
    end in
  if is_none_or (w_open w) (fun s => should_roll s today limits) then
    match rotate world limits today (roll_seq world (w_disk w) (w_open w) today) (w_disk w) with
    | Some (disk, s) => write {| w_disk := close world (w_open w) disk; w_open := Some s |}
    | None => w
    end
  else write w.

(** A restart leaves the files and loses what the open segment still held.  A crash in the
    middle of a line is a [Record_] whose [writes] lands a part of it, and a [Restart]. *)
Inductive WriterEvent := Record_ (world : World) (today : Date) (logged : Logged.t) | Restart.

Definition writer_event (limits : Limits) (w : Writer) (e : WriterEvent) : Writer :=
  match e with
  | Record_ world today logged => writer_step limits world today logged w
  | Restart => {| w_disk := w_disk w; w_open := None |}
  end.

(** [EventLogRecorder::record]: what the loop is handed, when the queue has room. *)
Definition record {TagDoc} (room : bool) (event : Event TagDoc) : option Logged.t :=
  logged ← Logged.from_event event; if room then Some logged else None.

(** ** Reading the directory *)

Definition named_le (a b : LogFileName * string) : bool := name_le a.1 b.1.

(** The log files of a listing, in the order of their names. *)
Definition log_files (entries : list string) : list (LogFileName * string) :=
  sort_by named_le (omap (fun name => parsed ← parse_log_file_name name; Some (parsed, name)) entries).

(** The events of the log on a disk. *)
Definition log_events (disk : Disk) (entries : list string) : list Logged.t :=
  flat_map (fun f => file_events (unwrap_or (disk !! f.2) [])) (log_files entries).

(** The bytes of the log on a disk. *)
Definition log_bytes (disk : Disk) : Z :=
  foldr (fun f n => (if is_log f.1 then len f.2 else 0) + n) 0 (map_to_list disk).
End writer.

(** ** Boot recovery *)

Definition RECOVERY_SCAN_MARGIN_SECS : Z := 300.
Definition REVERSE_CHUNK_BYTES : Z := 2 ^ 20.

Section recovery.
Context `{LogDates, LogCodec}.

(** The lines of one chunk, newest first, pushed onto [newest_first]; whether one was older
    than [stop_before]. *)
Fixpoint scan_lines (stop_before : Ts) (lines : list (list ascii)) (newest_first : list Logged.t)
    : list Logged.t * bool :=
  match lines with
  | [] => (newest_first, false)
  | line :: lines =>
      if blank line then scan_lines stop_before lines newest_first
      else match event_of line with
           | Some ev =>
               if is_some_and (Logged.time_of ev) (fun t => t <? stop_before) then (newest_first, true)
               else scan_lines stop_before lines (newest_first ++ [ev])
           | None => scan_lines stop_before lines newest_first
           end
  end.

(** The bytes from [pos], [take] of them; [None] is a failed seek or read. *)
Definition read_at (readable : Z -> bool) (bytes : list ascii) (pos n : Z) : option (list ascii) :=
  if readable pos then Some (take (Z.to_nat n) (drop (Z.to_nat pos) bytes)) else None.

(** The loop of [read_log_tail_chunked]; every turn reads at least one byte, so the length of
    the file is fuel enough. *)
Fixpoint tail_loop (fuel : nat) (readable : Z -> bool) (bytes : list ascii) (stop_before : Ts) (chunk_bytes pos : Z)
    (carry : list ascii) (newest_first : list Logged.t) : list Logged.t * bool :=
  if 0 <? pos then
    match fuel with
    | O => (newest_first, false)
    | S fuel =>
        let n := Z.min (Z.max chunk_bytes 1) pos in
        let pos := pos - n in
        match read_at readable bytes pos n with
        | None => (newest_first, false)
        | Some buf =>
            let lines := split_lines (buf ++ carry) in
            let '(carry, lines) :=
              match lines with first :: rest => if 0 <? pos then (first, rest) else ([], lines) | [] => ([], []) end in
            let '(newest_first, reached) := scan_lines stop_before (rev lines) newest_first in
            if reached then (newest_first, true)
            else tail_loop fuel readable bytes stop_before chunk_bytes pos carry newest_first
        end
    end
  else (newest_first, false).

Definition read_log_tail_chunked (readable : Z -> bool) (bytes : list ascii) (stop_before : Ts) (chunk_bytes : Z)
    : list Logged.t * bool :=
  let '(newest_first, reached) :=
    tail_loop (length bytes) readable bytes stop_before chunk_bytes (len bytes) [] [] in
  (rev newest_first, reached).

(** [read_log_tail]: [None] is a file that does not open. *)
Definition read_log_tail (readable : option (Z -> bool)) (bytes : list ascii) (stop_before : Ts) : list Logged.t * bool :=
  match readable with
  | Some readable => read_log_tail_chunked readable bytes stop_before REVERSE_CHUNK_BYTES
  | None => ([], false)
  end.

Definition recent_log_files (entries : option (list string)) (stop_before : Ts) : list string :=
  match entries with
  | None => []
  | Some entries =>
      let oldest_useful := utc_day stop_before in
      (sort_by named_le (omap (fun name =>
        parsed ← parse_log_file_name name;
        if oldest_useful <=? lf_date parsed then Some (parsed, name) else None) entries)).*2
  end.

(** The files from the newest back, until one is read past [stop_before]; the events in the
    order of the log. *)
Fixpoint read_back (reads : string -> option (Z -> bool)) (disk : Disk) (stop_before : Ts) (newest_first : list string)
    : list Logged.t :=
  match newest_first with
  | [] => []
  | path :: older =>
      let '(buf, reached) := read_log_tail (reads path) (unwrap_or (disk !! path) []) stop_before in
      if reached then buf else read_back reads disk stop_before older ++ buf
  end.

(** The mints the log shows filled, or an entry of which failed. *)
Definition settled_by (e : Logged.t) : option Mint :=
  match e with
  | Logged.FillConfirmed intent _ | Logged.FillFailed intent _ _ => Some (i_mint intent)
  | _ => None
  end.

Definition rearms (cutoff : Ts) (settled : list Mint) (e : Logged.t) : bool :=
  Logged.is_pre_entry e && negb (is_some_and (Logged.time_of e) (fun t => t <? cutoff)) &&
  negb (is_some_and (Logged.mint_of e) (contains settled)).

Definition recover_armed {TagDoc} (entries : option (list string)) (reads : string -> option (Z -> bool)) (disk : Disk)
    (max_age_secs : Z) (now : Ts) (held_mints : list Mint) : list (Event TagDoc) :=
  let cutoff := now - dur_seconds max_age_secs in
  let stop_before := cutoff - dur_seconds RECOVERY_SCAN_MARGIN_SECS in
  let all := read_back reads disk stop_before (rev (recent_log_files entries stop_before)) in
  let settled := held_mints ++ omap settled_by all in
  Logged.into_event <$> List.filter (rearms cutoff settled) all.
End recovery.
(** ** Names *)

Lemma strip_suffix_app s sfx : strip_suffix sfx (s +:+ sfx) = Some s.
Proof. unfold strip_suffix. rewrite string_rev_app, strip_prefix_app. cbn. by rewrite string_rev_involutive. Qed.

Lemma split_once_dot_none s : dot ∉ chars s -> split_once "." s = None.
Proof.
  induction s as [|c s IH]; intros Hd; [done|]. cbn [split_once]. change (dot ∉ c :: chars s) in Hd. apply not_elem_of_cons in Hd as [Hc Hs].
  rewrite (strip_other "." "" c _ (proj2 (Ascii.eqb_neq _ _) Hc)). by rewrite (IH Hs).
Qed.

Lemma split_once_dot s t : dot ∉ chars s -> split_once "." (s +:+ "." +:+ t) = Some (s, t).
Proof.
  induction s as [|c s IH]; intros Hd.
  - done.
  - change (String c s +:+ "." +:+ t) with (String c (s +:+ "." +:+ t)). cbn [split_once].
    change (dot ∉ c :: chars s) in Hd. apply not_elem_of_cons in Hd as [Hc Hs].
    rewrite (strip_other "." "" c _ (proj2 (Ascii.eqb_neq _ _) Hc)). by rewrite (IH Hs).
Qed.

Lemma parse_uint_zero top s : 0 <= top -> s <> "" -> Forall (fun c => is_digit c = true) (chars s) ->
  parse_uint top ("0" +:+ s) = parse_uint top s.
Proof.
  intros Ht Hs Hd. unfold parse_uint. cbn [String.append]. destruct s as [|c s]; [done|].
  apply Forall_cons in Hd as [Hc _]. replace (Ascii.eqb c "+") with false.
  2: { symmetry. apply Ascii.eqb_neq. by intros ->. }
  change ("0" +:+ String c s) with (String "0" (String c s)). cbv beta iota.
  change (Ascii.eqb "0" "+") with false. cbv iota. cbn [parse_digits]. change (digit_of "0") with (Some 0).
  cbv beta iota zeta. by replace (top <? 10 * 0 + 0) with false by lia.
Qed.

Lemma parse_two_digits n : 0 <= n <= u32_max -> parse_uint u32_max (two_digits n) = Some n.
Proof.
  intros Hn. unfold two_digits. case_match.
  - rewrite parse_uint_zero; [by apply parse_uint_pretty|unfold u32_max; lia|apply pretty_nonempty; lia|apply pretty_digits; lia].
  - by apply parse_uint_pretty.
Qed.

Definition name_ok (k : LogFileName) : Prop := plain_date (lf_date k) /\ 0 <= lf_seq k <= u32_max.

Section name_facts.
Context `{LogDatesLaws}.

Definition fname (k : LogFileName) : string := log_file_name (lf_date k) (lf_seq k).

Lemma parse_fname k : name_ok k -> parse_log_file_name (fname k) = Some k.
Proof.
  intros [Hd Hn]. destruct k as [d n]. unfold fname, log_file_name, parse_log_file_name. cbn [lf_date lf_seq] in *.
  destruct (n =? 0) eqn:E.
  - apply Z.eqb_eq in E as ->. rewrite strip_prefix_app. cbn [mbind option_bind]. rewrite strip_suffix_app.
    cbn [mbind option_bind]. rewrite split_once_dot_none by by apply date_has_no_dot. by rewrite date_reads_back.
  - rewrite strip_prefix_app. cbn [mbind option_bind].
    replace (date_show d +:+ "." +:+ two_digits n +:+ LOG_FILE_SUFFIX)
      with ((date_show d +:+ "." +:+ two_digits n) +:+ LOG_FILE_SUFFIX) by by rewrite !append_assoc.
    rewrite strip_suffix_app. cbn [mbind option_bind]. rewrite split_once_dot by by apply date_has_no_dot.
    rewrite parse_two_digits by done. cbn [mbind option_bind]. rewrite date_reads_back by done. cbn [mbind option_bind].
    by replace (0 <? n) with true by (apply Z.eqb_neq in E; lia).
Qed.

Lemma fname_is_log k : name_ok k -> is_log (fname k) = true.
Proof. intros Hk. unfold is_log. by rewrite parse_fname. Qed.

Lemma fname_inj k k' : name_ok k -> name_ok k' -> fname k = fname k' -> k = k'.
Proof. intros Hk Hk' E. pose proof (parse_fname k Hk) as P. rewrite E, parse_fname in P by done. congruence. Qed.

(** The name of a segment reads back as its date and number, and so two segments never share
    a name. *)
Theorem names_round_trip d n d' n' :
  plain_date d -> 0 <= n <= u32_max -> plain_date d' -> 0 <= n' <= u32_max ->
  parse_log_file_name (log_file_name d n) = Some {| lf_date := d; lf_seq := n |} /\
  (log_file_name d n = log_file_name d' n' -> d = d' /\ n = n').
Proof.
  intros Hd Hn Hd' Hn'. split; [by apply (parse_fname {| lf_date := d; lf_seq := n |})|].
  intros E. assert ({| lf_date := d; lf_seq := n |} = {| lf_date := d'; lf_seq := n' |}) as [=]; [|done].
  by apply fname_inj.
Qed.

(** A segment number has other spellings than the one the writer uses: a name with the
    number unpadded is read as the same segment. *)
Theorem a_segment_has_two_spellings d : plain_date d ->
  let other := LOG_FILE_PREFIX +:+ date_show d +:+ ".1" +:+ LOG_FILE_SUFFIX in
  parse_log_file_name other = parse_log_file_name (log_file_name d 1) /\ other <> log_file_name d 1.
Proof.
  intros Hd other. split.
  - change (log_file_name d 1) with (fname {| lf_date := d; lf_seq := 1 |}). rewrite parse_fname by (split; done).
    unfold other, parse_log_file_name. rewrite strip_prefix_app. cbn [mbind option_bind].
    replace (date_show d +:+ ".1" +:+ LOG_FILE_SUFFIX) with ((date_show d +:+ "." +:+ "1") +:+ LOG_FILE_SUFFIX)
      by by rewrite !append_assoc.
    rewrite strip_suffix_app. cbn [mbind option_bind]. rewrite split_once_dot by by apply date_has_no_dot.
    cbn [parse_uint Ascii.eqb Bool.eqb]. change (parse_uint u32_max "1") with (Some 1). cbn [mbind option_bind].
    by rewrite date_reads_back.
  - unfold other, log_file_name. change (1 =? 0) with false. cbv iota. change (two_digits 1) with "01".
    intros E. apply (f_equal (fun s => length (chars s))) in E. rewrite !chars_app, !length_app in E. cbn in E. lia.
Qed.
End name_facts.
