(* ===== verification/EventLogProps.v ===== *)
(** * EventLogProps: the log is a tail, in its budget, and recovery reads enough of it

    Theorems about [EventLog], by component: the files of a directory in the order of their
    names, what pruning removes and spares, the invariant of a run of the writer over
    rotations and restarts ([tracks]), and boot recovery: the backward reader is a scan of the
    lines, and all that the whole log asks for is replayed, with what is replayed beyond it.  [LogDemo] is a directory of
    small segments on which the hypotheses hold. *)

From S2P Require Export EventLog.


(** ** Files in order *)

Arguments parse_log_file_name : simpl never.
Arguments log_file_name : simpl never.
Arguments fname : simpl never.
Arguments is_log : simpl never.

Definition name_lt (a b : LogFileName) : Prop :=
  lf_date a < lf_date b \/ (lf_date a = lf_date b /\ lf_seq a < lf_seq b).

Lemma name_le_spec a b : name_le a b = true <-> a = b \/ name_lt a b.
Proof.
  unfold name_le, name_lt. destruct a as [d n], b as [d' n']. cbn.
  rewrite orb_true_iff, andb_true_iff, Z.ltb_lt, Z.eqb_eq, Z.leb_le. split.
  - intros [?|[-> ?]]; [auto|]. destruct (decide (n = n')) as [->|]; [auto|]. right. right. split; [done|lia].
  - intros [[= -> ->]|[?|[-> ?]]]; [right; split; [done|lia]|by left|right; split; [done|lia]].
Qed.

Lemma name_le_total a b : name_le a b = true \/ name_le b a = true.
Proof. unfold name_le. destruct a, b. cbn. bool_to_prop. lia. Qed.

Lemma name_le_trans a b c : name_le a b = true -> name_le b c = true -> name_le a c = true.
Proof. unfold name_le. destruct a, b, c. cbn. bool_to_prop. lia. Qed.

Lemma name_lt_irrefl a : ~ name_lt a a.
Proof. unfold name_lt. lia. Qed.

Lemma name_le_antisym a b : name_le a b = true -> name_le b a = true -> a = b.
Proof.
  intros H1%name_le_spec H2%name_le_spec. destruct H1 as [H1|H1], H2 as [H2|H2]; try done.
  unfold name_lt in *. lia.
Qed.

(** A list sorted by a key is the one list of its elements in that order. *)
Lemma sorted_by_name_unique {A} (f : A -> LogFileName) (l l' : list A) :
  l ≡ₚ l' -> StronglySorted (fun a b => name_le (f a) (f b) = true) l ->
  StronglySorted (fun a b => name_lt (f a) (f b)) l' -> l = l'.
Proof.
  intros Hp Hl Hl'. apply (StronglySorted_unique_strong (fun a b => name_le (f a) (f b) = true)); [|done| |done].
  - intros x y Hx Hy H1 H2. rewrite Hp in Hx. assert (E : f x = f y) by by apply name_le_antisym.
    clear -Hl' Hx Hy E. induction Hl' as [|z l Hl' IH HF]; [by apply not_elem_of_nil in Hx|].
    rewrite Forall_forall in HF. apply elem_of_cons in Hx as [->|Hx], Hy as [->|Hy]; [done| | |by apply IH].
    + pose proof (HF y Hy) as G. rewrite E in G. by apply name_lt_irrefl in G.
    + pose proof (HF x Hx) as G. rewrite E in G. by apply name_lt_irrefl in G.
  - eapply StronglySorted_impl; [|exact Hl']. intros a b Hab. apply name_le_spec. by right.
Qed.

Abbreviation Files := (list (LogFileName * list ascii)) (only parsing).

(** What the listing of a directory says. *)
Definition lists (disk : Disk) (entries : list string) : Prop := entries ≡ₚ (map_to_list disk).*1.

Lemma lists_NoDup disk entries : lists disk entries -> NoDup entries.
Proof. intros ->. apply NoDup_fst_map_to_list. Qed.

Lemma lists_elem disk entries name : lists disk entries -> name ∈ entries <-> is_Some (disk !! name).
Proof.
  intros ->. rewrite list_elem_of_fmap. split.
  - intros ([k b] & -> & Hk%elem_of_map_to_list). by exists b.
  - intros [b Hb]. exists (name, b). split; [done|]. by apply elem_of_map_to_list.
Qed.

Section files.
Context `{LogDatesLaws, LogCodec}.

(** The log files of a disk are these, in the order of their names. *)
Record holds (disk : Disk) (fs : Files) : Prop := {
  h_sorted : StronglySorted (fun a b => name_lt a.1 b.1) fs;
  h_ok : Forall (fun f => name_ok f.1) fs;
  h_in : forall k b, (k, b) ∈ fs -> disk !! fname k = Some b;
  h_only : forall name, is_log name = true -> is_Some (disk !! name) -> exists f, f ∈ fs /\ name = fname f.1;
}.

Lemma fs_ok disk fs f : holds disk fs -> f ∈ fs -> name_ok f.1.
Proof. intros Hh Hf. pose proof (h_ok _ _ Hh) as F. rewrite Forall_forall in F. by apply F. Qed.

Lemma sorted_fst_inj fs (f g : LogFileName * list ascii) :
  StronglySorted (fun a b => name_lt a.1 b.1) fs -> f ∈ fs -> g ∈ fs -> f.1 = g.1 -> f = g.
Proof.
  induction 1 as [|z l Hl IH HF]; intros Hf Hg E; [by apply not_elem_of_nil in Hf|].
  rewrite Forall_forall in HF. apply elem_of_cons in Hf as [->|Hf], Hg as [->|Hg]; [done| | |by apply IH].
  - pose proof (HF g Hg) as G. rewrite E in G. by apply name_lt_irrefl in G.
  - pose proof (HF f Hf) as G. rewrite E in G. by apply name_lt_irrefl in G.
Qed.

Lemma sorted_NoDup fs : StronglySorted (fun a b : LogFileName * list ascii => name_lt a.1 b.1) fs -> NoDup fs.
Proof.
  induction 1 as [|z l Hl IH HF]; constructor; [|done]. intros Hz. rewrite Forall_forall in HF.
  by apply (name_lt_irrefl z.1), HF.
Qed.

(** The log names of a listing are those of the files. *)
Lemma names_of_listing {A} disk entries fs (keep : string -> LogFileName -> option A) :
  holds disk fs -> lists disk entries ->
  omap (fun name => parsed ← parse_log_file_name name; keep name parsed) entries
  ≡ₚ omap (fun f => keep (fname f.1) f.1) fs.
Proof.
  intros Hh Hl.
  assert (P : List.filter is_log entries ≡ₚ (fun f => fname f.1) <$> fs).
  { apply NoDup_Permutation.
    - apply NoDup_ListNoDup, List.NoDup_filter, NoDup_ListNoDup. by eapply lists_NoDup.
    - apply NoDup_fmap_2_strong; [|by apply sorted_NoDup, (h_sorted _ _ Hh)].
      intros f g Hf Hg E. apply (sorted_fst_inj fs); [apply Hh|done|done|].
      apply fname_inj; [by eapply fs_ok|by eapply fs_ok|done].
    - intros name. rewrite list_elem_of_In, List.filter_In, <- list_elem_of_In, (lists_elem _ _ _ Hl), list_elem_of_fmap. split.
      + intros [Hs Hn]. destruct (h_only _ _ Hh name Hn Hs) as (f & Hf & ->). by exists f.
      + intros ([k b] & -> & Hf). split; [exists b; by apply (h_in _ _ Hh)|]. by eapply fname_is_log, (fs_ok _ _ (k, b)). }
  assert (Q : omap (fun name => parsed ← parse_log_file_name name; keep name parsed) entries =
              omap (fun name => parsed ← parse_log_file_name name; keep name parsed) (List.filter is_log entries)).
  { clear. induction entries as [|name l IH]; [done|]. cbn. unfold is_log at 1, is_someb.
    destruct (parse_log_file_name name) as [p|] eqn:E; cbn; [|exact IH].
    rewrite E. cbn. destruct (keep name p); [by f_equal|exact IH]. }
  rewrite Q. etrans; [apply omap_Permutation, P|]. clear P Q.
  pose proof (h_ok _ _ Hh) as F. clear Hh Hl. induction F as [|f l Hf F IH]; [done|]. csimpl.
  rewrite (parse_fname f.1 Hf). cbn. destruct (keep _ _); [by constructor|done].
Qed.

Lemma log_files_holds disk entries fs : holds disk fs -> lists disk entries ->
  log_files entries = (fun f => (f.1, fname f.1)) <$> fs.
Proof.
  intros Hh Hl. unfold log_files. apply (sorted_by_name_unique fst).
  - rewrite sort_by_perm. pose proof (names_of_listing disk entries fs (fun name p => Some (p, name)) Hh Hl) as P.
    etrans; [exact P|].
    clear. induction fs as [|f l IH]; [done|]. csimpl. by rewrite IH.
  - apply sort_by_sorted; intros; unfold named_le in *; [by apply name_le_total|by eapply name_le_trans].
  - pose proof (h_sorted _ _ Hh) as S. clear Hh Hl. induction S; csimpl; constructor; [done|]. by apply Forall_fmap.
Qed.
End files.

(** ** Lines of a file *)

Lemma split_lines_nonempty b : split_lines b <> [].
Proof. destruct b as [|c b]; cbn; [done|]. destruct (Ascii.eqb c newline); [done|]. by destruct (split_lines b). Qed.

Lemma split_lines_break a x : split_lines (a ++ newline :: x) = split_lines a ++ split_lines x.
Proof.
  induction a as [|c a IH]; cbn [app split_lines].
  - by rewrite Ascii.eqb_refl.
  - destruct (Ascii.eqb c newline); rewrite IH; [done|].
    destruct (split_lines a) eqn:E; [by apply split_lines_nonempty in E|done].
Qed.

Lemma split_lines_one line : newline ∉ line -> split_lines line = [line].
Proof.
  induction line as [|c line IH]; cbn; intros Hn; [done|]. apply not_elem_of_cons in Hn as [Hc Hn].
  by rewrite (proj2 (Ascii.eqb_neq _ _) (not_eq_sym Hc)), IH.
Qed.

(** A file whose lines are all ended. *)
Definition complete (b : list ascii) : Prop := b = [] \/ exists b', b = b' ++ [newline].

Lemma complete_append b line : complete (b ++ line ++ [newline]).
Proof. right. exists (b ++ line). by rewrite app_assoc. Qed.

Lemma file_events_append `{LogCodecLaws} b line e : complete b -> line_of e = Some line ->
  file_events (b ++ line ++ [newline]) = file_events b ++ option_list (event_of line).
Proof.
  intros Hb Hl. pose proof (line_is_one _ _ Hl) as Hn. pose proof (line_not_blank _ _ Hl) as Hk.
  assert (G : omap line_event (split_lines (line ++ [newline])) = option_list (event_of line)).
  { rewrite split_lines_break, split_lines_one by done. cbn. unfold line_event at 1. rewrite Hk. by destruct (event_of line). }
  unfold file_events. destruct Hb as [->|[b' ->]]; [exact G|].
  rewrite <- app_assoc. cbn [app]. rewrite (split_lines_break b' (line ++ [newline])), (split_lines_break b' []), !omap_app, G. cbn. by rewrite app_nil_r.
Qed.

(** A line the crash cut short takes the next one with it. *)
Lemma file_events_torn `{LogCodec} b torn line : complete b -> newline ∉ torn -> newline ∉ line ->
  file_events (b ++ torn ++ line ++ [newline]) = file_events b ++ option_list (line_event (torn ++ line)).
Proof.
  intros Hb Ht Hn. assert (G : omap line_event (split_lines (torn ++ line ++ [newline])) = option_list (line_event (torn ++ line))).
  { rewrite app_assoc, split_lines_break, split_lines_one by by apply not_elem_of_app. cbn. by destruct (line_event _). }
  unfold file_events. destruct Hb as [->|[b' ->]]; [exact G|].
  rewrite <- app_assoc. cbn [app]. rewrite (split_lines_break b' (torn ++ line ++ [newline])), (split_lines_break b' []), !omap_app, G. cbn. by rewrite app_nil_r.
Qed.

Lemma len_app a b : len (a ++ b) = len a + len b.
Proof. unfold len. rewrite length_app. lia. Qed.

Lemma len_nonneg b : 0 <= len b.
Proof. unfold len. lia. Qed.

Definition sizes {A} (fs : list (A * list ascii)) : Z := foldr (fun f n => len f.2 + n) 0 fs.

Lemma sizes_app {A} (fs gs : list (A * list ascii)) : sizes (fs ++ gs) = sizes fs + sizes gs.
Proof. unfold sizes. induction fs as [|f fs IH]; cbn; lia. Qed.

Lemma sizes_nonneg {A} (fs : list (A * list ascii)) : 0 <= sizes fs.
Proof. unfold sizes. induction fs as [|f fs IH]; cbn; [lia|]. pose proof (len_nonneg f.2). lia. Qed.

Lemma sizes_perm {A} (fs gs : list (A * list ascii)) : fs ≡ₚ gs -> sizes fs = sizes gs.
Proof. unfold sizes. induction 1; cbn; lia. Qed.

(** ** What a directory holds after pruning *)

Definition without (disk : Disk) (names : list string) : Disk := foldl (fun d n => delete n d) disk names.

Lemma lookup_without disk names name :
  without disk names !! name = if bool_decide (name ∈ names) then None else disk !! name.
Proof.
  revert disk. induction names as [|n l IH]; intros disk; cbn.
  { by rewrite bool_decide_eq_false_2 by apply not_elem_of_nil. }
  rewrite IH. destruct (decide (name = n)) as [->|Hn].
  - rewrite (bool_decide_eq_true_2 (n ∈ n :: l)) by left. rewrite lookup_delete_eq. by case_bool_decide.
  - rewrite lookup_delete_ne by done.
    by rewrite (bool_decide_ext (name ∈ n :: l) (name ∈ l)) by (rewrite elem_of_cons; naive_solver).
Qed.

Section pruning.
Context `{LogDatesLaws, LogCodec}.

Definition fnames (fs : Files) : list string := (fun f => fname f.1) <$> fs.

Lemma holds_drop disk disk' fs i : holds disk fs ->
  (forall name, disk' !! name = without disk (fnames (take i fs)) !! name) -> holds disk' (drop i fs).
Proof.
  intros Hh Hd. pose proof (h_sorted _ _ Hh) as S.
  assert (Hdis : forall f g, f ∈ take i fs -> g ∈ drop i fs -> name_lt f.1 g.1).
  { intros f g Hf Hg. rewrite <- (take_drop i fs) in S. by eapply StronglySorted_app_1_elem_of in S. }
  assert (Hin : forall f, f ∈ drop i fs -> f ∈ fs).
  { intros f Hf. rewrite <- (take_drop i fs). apply elem_of_app. by right. }
  constructor.
  - rewrite <- (take_drop i fs) in S. by apply StronglySorted_app in S as (_ & _ & S).
  - apply Forall_drop, Hh.
  - intros k b Hk. rewrite Hd, lookup_without, bool_decide_eq_false_2; [by apply Hh, Hin|].
    intros ([k' b'] & E & Hf)%list_elem_of_fmap. pose proof (Hdis _ _ Hf Hk) as L. cbn in *.
    apply fname_inj in E; [subst; by apply name_lt_irrefl in L|by eapply (fs_ok _ _ (k, b)), Hin|].
    eapply (fs_ok _ _ (k', b')); [done|]. rewrite <- (take_drop i fs). apply elem_of_app. by left.
  - intros name Hn Hs. rewrite Hd, lookup_without in Hs. case_bool_decide as Hm; [by destruct Hs|].
    destruct (h_only _ _ Hh name Hn Hs) as (f & Hf & ->). exists f. split; [|done].
    rewrite <- (take_drop i fs) in Hf. apply elem_of_app in Hf as [Hf|Hf]; [|done].
    destruct Hm. unfold fnames. apply list_elem_of_fmap. by exists f.
Qed.

Definition aged (limits : Limits) (today : Date) (open name : string) (parsed : LogFileName) : bool :=
  negb (String.eqb name open) && (retention_days limits <? today - lf_date parsed).

Definition kept_of (disk : Disk) (name : string) (parsed : LogFileName) : Kept :=
  {| k_name := parsed; k_path := name; k_bytes := map_or (disk !! name) 0 len |}.

(** The first loop, on a listing without repetitions. *)
Lemma prune_age_spec world limits today open entries disk : (forall n, can_remove world n = true) -> NoDup entries ->
  let r := prune_age world limits today open entries disk in
  (forall name, r.1 !! name =
    if bool_decide (name ∈ entries) && is_some_and (parse_log_file_name name) (aged limits today open name)
    then None else disk !! name) /\
  r.2 = omap (fun name => parsed ← parse_log_file_name name;
    if aged limits today open name parsed then None else Some (kept_of disk name parsed)) entries.
Proof.
  intros Hw. revert disk. induction entries as [|n l IH]; intros disk Hnd; [done|].
  apply NoDup_cons in Hnd as [Hn Hnd]. cbn [prune_age].
  assert (Hskip : is_some_and (parse_log_file_name n) (aged limits today open n) = false ->
    forall name, (if bool_decide (name ∈ l) && is_some_and (parse_log_file_name name) (aged limits today open name)
                  then None else disk !! name) =
                 (if bool_decide (name ∈ n :: l) && is_some_and (parse_log_file_name name) (aged limits today open name)
                  then None else disk !! name)).
  { intros Hf name. destruct (decide (name = n)) as [->|Hne]; [by rewrite Hf, !andb_false_r|].
    by rewrite (bool_decide_ext (name ∈ n :: l) (name ∈ l)) by (rewrite elem_of_cons; naive_solver). }
  destruct (parse_log_file_name n) as [p|] eqn:E.
  2: { destruct (IH disk Hnd) as [P1 P2]. split; [intros name; rewrite P1; by apply Hskip|].
       rewrite P2. csimpl. by rewrite E. }
  destruct (aged limits today open n p) eqn:A; unfold aged in A; rewrite A.
  - rewrite Hw. destruct (IH (delete n disk) Hnd) as [P1 P2]. split.
    + intros name. rewrite P1. destruct (decide (name = n)) as [->|Hne].
      * rewrite lookup_delete_eq, E, (bool_decide_eq_true_2 (n ∈ n :: l)) by left. cbn. unfold aged. rewrite A. by case_match.
      * rewrite lookup_delete_ne by done. by rewrite (bool_decide_ext (name ∈ n :: l) (name ∈ l)) by (rewrite elem_of_cons; naive_solver).
    + rewrite P2. csimpl. rewrite E. cbn. unfold aged at 2. rewrite A. clear -Hn.
      induction l as [|x l IH]; [done|]. apply not_elem_of_cons in Hn as [Hx Hn]. csimpl.
      destruct (parse_log_file_name x) as [q|]; cbn; [|by apply IH].
      replace (kept_of (delete n disk) x q) with (kept_of disk x q) by (unfold kept_of; by rewrite lookup_delete_ne).
      destruct (aged limits today open x q); [by apply IH|]. f_equal. by apply IH.
  - destruct (IH disk Hnd) as [P1 P2]. destruct (prune_age _ _ _ _ _ _) as [d' kept]. cbn in *. split.
    + intros name. rewrite P1. by apply Hskip.
    + rewrite P2, E. cbn. unfold aged at 2. by rewrite A.
Qed.
End pruning.

Section directory.
Context `{LogDatesLaws, LogCodec}.

(** What the theorems ask of the file system: it lists the directory, opens, removes and
    writes all it is handed. *)
Record world_ok (world : World) : Prop := {
  lists_all : forall disk, exists entries, read_dir world disk = Some entries /\ lists disk entries;
  opens_all : forall name, can_open world name = true;
  removes_all : forall name, can_remove world name = true;
  writes_all : forall bytes, writes world bytes = (bytes, []);
}.

Definition to_kept (f : LogFileName * list ascii) : Kept :=
  {| k_name := f.1; k_path := fname f.1; k_bytes := len f.2 |}.

Lemma total_bytes_perm l l' : l ≡ₚ l' -> total_bytes l = total_bytes l'.
Proof. unfold total_bytes. induction 1; cbn; lia. Qed.

Lemma total_bytes_kept fs : total_bytes (to_kept <$> fs) = sizes fs.
Proof. unfold total_bytes, sizes. induction fs as [|f fs IH]; csimpl; lia. Qed.

Lemma evict_spec world limits k b l disk total : (forall n, can_remove world n = true) ->
  (forall f, f ∈ l -> fname f.1 <> fname k) -> total = sizes l + len b ->
  exists m, (m <= length l)%nat /\
    evict world limits (fname k) (to_kept <$> (l ++ [(k, b)])) total disk = without disk (fnames (take m l)) /\
    (sizes (drop m l) + len b <= max_total_bytes limits \/ drop m l = []) /\
    (total <= max_total_bytes limits -> m = 0%nat).
Proof.
  intros Hw. revert disk total. induction l as [|f l IH]; intros disk total Hne Ht.
  - exists 0%nat. split; [done|]. split; [|split; [by right|done]]. cbn. rewrite String.eqb_refl. by case_match.
  - csimpl. destruct (total <=? max_total_bytes limits) eqn:E.
    { apply Z.leb_le in E. exists 0%nat. split; [lia|]. split; [done|]. split; [left; cbn [drop]; lia|done]. }
    rewrite (proj2 (String.eqb_neq _ _) (Hne f ltac:(left))), Hw.
    destruct (IH (delete (fname f.1) disk) (sat_sub total (len f.2))) as (m & Hm & He & Hb & _).
    { intros g Hg. apply Hne. by right. }
    { unfold sat_sub. subst total. cbn [sizes foldr]. pose proof (sizes_nonneg l). pose proof (len_nonneg b). fold (sizes l). lia. }
    exists (S m). split; [cbn; lia|]. split; [exact He|]. split; [exact Hb|]. apply Z.leb_gt in E. lia.
Qed.

(** Age removes a front part of the files. *)
Lemma old_front limits today fs : StronglySorted (fun a b : LogFileName * list ascii => name_lt a.1 b.1) fs ->
  let old f := retention_days limits <? today - lf_date f.1 in
  exists i, (i <= length fs)%nat /\ List.filter (fun f => negb (old f)) fs = drop i fs /\
    (forall f, f ∈ take i fs -> old f = true) /\ (forall f, f ∈ drop i fs -> old f = false).
Proof.
  intros S old. induction S as [|f l S IH HF]; [by exists 0%nat; split; [|split; [|split; intros ? Hf; apply not_elem_of_nil in Hf]]|].
  destruct (old f) eqn:E.
  - destruct IH as (i & Hi & Hf & Ho & Hn). exists (Datatypes.S i). cbn. rewrite E. cbn. split; [lia|].
    split; [done|]. split; [|done]. by intros g [->|Hg]%elem_of_cons; [|apply Ho].
  - exists 0%nat. split; [lia|]. assert (Hall : forall g, g ∈ f :: l -> old g = false).
    { intros g [->|Hg]%elem_of_cons; [done|]. rewrite Forall_forall in HF. pose proof (HF g Hg) as L.
      unfold old, name_lt in *. lia. }
    split; [|split; [by intros ? ?%not_elem_of_nil|done]]. cbn [drop]. clear -Hall.
    induction (f :: l) as [|g l' IH]; [done|]. cbn. rewrite (Hall g) by left. cbn. f_equal. apply IH.
    intros x Hx. apply Hall. by right.
Qed.

(** One pruning, with the open segment last. *)
Section one_prune.
Context (world : World) (limits : Limits) (today : Date) (disk : Disk) (fs : Files) (k : LogFileName) (b : list ascii)
  (entries : list string) (Hw : world_ok world) (Hh : holds disk (fs ++ [(k, b)])) (Hl : lists disk entries).

Let old (f : LogFileName * list ascii) : bool := retention_days limits <? today - lf_date f.1.
Let aged_pass := prune_age world limits today (fname k) entries disk.

Context (i : nat) (Hi : (i <= length fs)%nat) (Hfilter : List.filter (fun f => negb (old f)) fs = drop i fs)
  (Hold : forall f, f ∈ take i fs -> old f = true) (Hnew : forall f, f ∈ drop i fs -> old f = false).

Lemma open_differs f : f ∈ fs -> fname f.1 <> fname k.
Proof.
  intros Hf E. assert (Hk : name_ok k) by (eapply (fs_ok _ _ (k, b)); [done|]; apply elem_of_app; right; left).
  apply fname_inj in E; [|by eapply fs_ok, elem_of_app; [done|left]|done].
  pose proof (StronglySorted_app_1_elem_of _ _ _ f (k, b) (h_sorted _ _ Hh) Hf ltac:(left)) as L.
  cbn in L. rewrite E in L. by apply name_lt_irrefl in L.
Qed.

Lemma front_elem f : f ∈ take i fs \/ f ∈ drop i fs <-> f ∈ fs.
Proof. rewrite <- elem_of_app. by rewrite take_drop. Qed.

Lemma aged_pass_holds : holds aged_pass.1 (drop i fs ++ [(k, b)]).
Proof.
  pose proof (prune_age_spec world limits today (fname k) entries disk (removes_all _ Hw) (lists_NoDup _ _ Hl)) as [P1 _].
  rewrite <- drop_app_le by done. apply (holds_drop disk); [done|]. intros name.
  unfold aged_pass. rewrite P1, lookup_without, (take_app_le fs) by done.
  apply (f_equal (fun c : bool => if c then None else disk !! name)).
  apply eq_true_iff_eq. rewrite andb_true_iff, !bool_decide_eq_true. split.
  - intros [Hin Ha]. destruct (parse_log_file_name name) as [p|] eqn:Ep; [|done]. cbn in Ha.
    apply (lists_elem _ _ _ Hl) in Hin. destruct (h_only _ _ Hh name) as (f & Hf & ->); [by unfold is_log; rewrite Ep|done|].
    rewrite parse_fname in Ep by by eapply fs_ok. injection Ep as <-. unfold aged in Ha. apply andb_true_iff in Ha as [Hx Ho].
    apply elem_of_app in Hf as [Hf| ->%list_elem_of_singleton]; [|by rewrite String.eqb_refl in Hx].
    apply list_elem_of_fmap. exists f. split; [done|]. apply front_elem in Hf as [Hf|Hf]; [done|].
    apply Hnew in Hf. unfold old in Hf. congruence.
  - intros (f & -> & Hf)%list_elem_of_fmap. assert (Hf' : f ∈ fs) by (apply front_elem; by left).
    assert (Hf'' : f ∈ fs ++ [(k, b)]) by (apply elem_of_app; by left). split.
    + apply (lists_elem _ _ _ Hl). exists f.2. apply Hh. by destruct f.
    + rewrite parse_fname by by eapply fs_ok. cbn. unfold aged. rewrite (proj2 (String.eqb_neq _ _) (open_differs f Hf')).
      by apply Hold.
Qed.

Lemma kept_front l : (forall f, f ∈ l -> fname f.1 <> fname k /\ disk !! fname f.1 = Some f.2) ->
  omap (fun f : LogFileName * list ascii =>
    if aged limits today (fname k) (fname f.1) f.1 then None else Some (kept_of disk (fname f.1) f.1)) l
  = to_kept <$> List.filter (fun f => negb (old f)) l.
Proof.
  induction l as [|f l IH]; intros G; [done|]. destruct (G f ltac:(left)) as [Hne Hf]. csimpl.
  unfold aged at 1, kept_of at 1. rewrite (proj2 (String.eqb_neq _ _) Hne), Hf. fold (old f).
  rewrite IH by (intros; apply G; by right). by destruct (old f).
Qed.

Lemma aged_pass_kept : sort_by kept_le aged_pass.2 = to_kept <$> (drop i fs ++ [(k, b)]).
Proof.
  pose proof (prune_age_spec world limits today (fname k) entries disk (removes_all _ Hw) (lists_NoDup _ _ Hl)) as [_ P2].
  assert (Hp : aged_pass.2 ≡ₚ to_kept <$> (drop i fs ++ [(k, b)])).
  { unfold aged_pass. rewrite P2. etrans; [by apply (names_of_listing disk entries (fs ++ [(k, b)]))|].
    rewrite omap_app, fmap_app, kept_front, Hfilter.
    - apply Permutation_app; [done|]. cbn. unfold aged. rewrite String.eqb_refl. cbn. unfold kept_of. cbn.
      rewrite (h_in _ _ Hh k b); [done|]. apply elem_of_app. right. left.
    - intros f Hf. split; [by apply open_differs|]. apply Hh. destruct f. apply elem_of_app. by left. }
  apply (sorted_by_name_unique k_name); [by rewrite sort_by_perm| |].
  - apply sort_by_sorted; intros; unfold kept_le in *; [by apply name_le_total|by eapply name_le_trans].
  - pose proof (h_sorted _ _ aged_pass_holds) as S. clear -S. induction S; csimpl; constructor; [done|]. by apply Forall_fmap.
Qed.
End one_prune.

(** Pruning removes the oldest files until the rest fits or only the open one is left, and
    nothing when everything is recent and fits. *)
Lemma prune_holds world limits today disk fs k b : world_ok world -> holds disk (fs ++ [(k, b)]) ->
  exists j, (j <= length fs)%nat /\ holds (prune world limits today (fname k) disk) (drop j fs ++ [(k, b)]) /\
    (sizes (drop j fs) + len b <= max_total_bytes limits \/ drop j fs = []) /\
    ((forall f, f ∈ fs -> today - lf_date f.1 <= retention_days limits) ->
     sizes fs + len b <= max_total_bytes limits -> j = 0%nat).
Proof.
  intros Hw Hh. destruct (lists_all _ Hw disk) as (entries & He & Hl).
  destruct (old_front limits today fs) as (i & Hi & Hfilter & Hold & Hnew).
  { pose proof (h_sorted _ _ Hh) as S. by apply StronglySorted_app in S as (_ & ? & _). }
  pose proof (aged_pass_holds world limits today disk fs k b entries Hw Hh Hl i Hi Hold Hnew) as Hh1.
  pose proof (aged_pass_kept world limits today disk fs k b entries Hw Hh Hl i Hi Hfilter Hold Hnew) as Hsort.
  unfold prune. rewrite He. destruct (prune_age _ _ _ _ _ _) as [disk1 kept]. cbn [fst snd] in *.
  assert (Htot : total_bytes kept = sizes (drop i fs) + len b).
  { rewrite <- (total_bytes_perm (sort_by kept_le kept)) by apply sort_by_perm.
    rewrite Hsort, total_bytes_kept, sizes_app. cbn. lia. }
  assert (Hi0 : (forall f, f ∈ fs -> today - lf_date f.1 <= retention_days limits) -> i = 0%nat).
  { intros Hy. destruct i as [|i], fs as [|f fs']; try done; [cbn in Hi; lia|].
    pose proof (Hold f ltac:(left)) as Ho. pose proof (Hy f ltac:(left)). lia. }
  rewrite Hsort. destruct (total_bytes kept <=? max_total_bytes limits) eqn:E.
  - exists i. split; [done|]. split; [done|]. split; [left; apply Z.leb_le in E; lia|]. intros Hy _. by apply Hi0.
  - destruct (evict_spec world limits k b (drop i fs) disk1 (total_bytes kept) (removes_all _ Hw))
      as (m & Hm & Hev & Hb & _); [|done|].
    { intros f Hf. apply (open_differs disk fs k b Hh), (front_elem fs i). by right. }
    rewrite length_drop in Hm. rewrite drop_drop in Hb. exists (i + m)%nat. split; [lia|]. split.
    + rewrite <- drop_drop, <- (drop_app_le (drop i fs)) by (rewrite length_drop; lia). apply (holds_drop disk1); [done|].
      intros name. by rewrite Hev, (take_app_le (drop i fs)) by (rewrite length_drop; lia).
    + split; [done|]. intros Hy Hsz. apply Z.leb_gt in E. rewrite (Hi0 Hy), drop_0 in Htot. lia.
Qed.
End directory.

(** ** A run of the writer *)

Section runs.
Context `{LogDatesLaws, LogCodecLaws}.

Lemma log_events_holds disk entries fs : holds disk fs -> lists disk entries ->
  log_events disk entries = flat_map (fun f => file_events f.2) fs.
Proof.
  intros Hh Hl. unfold log_events. rewrite (log_files_holds disk entries fs) by done. pose proof (h_in _ _ Hh) as G.
  clear Hh Hl. induction fs as [|[k b] l IH]; [done|]. csimpl. rewrite (G k b) by left. cbn. f_equal.
  apply IH. intros k' b' Hk. apply G. by right.
Qed.

Lemma log_bytes_holds disk fs : holds disk fs -> log_bytes disk = sizes fs.
Proof.
  intros Hh. assert (P : List.filter (fun f => is_log f.1) (map_to_list disk) ≡ₚ (fun f => (fname f.1, f.2)) <$> fs).
  { apply NoDup_Permutation.
    - apply NoDup_ListNoDup, List.NoDup_filter, NoDup_ListNoDup, NoDup_map_to_list.
    - apply NoDup_fmap_2_strong; [|by apply sorted_NoDup, (h_sorted _ _ Hh)].
      intros f g Hf Hg [= E _]. apply (sorted_fst_inj fs); [apply Hh|done|done|].
      apply fname_inj; [by eapply fs_ok|by eapply fs_ok|done].
    - intros [name b]. rewrite list_elem_of_In, List.filter_In, <- list_elem_of_In, elem_of_map_to_list, list_elem_of_fmap.
      cbn. split.
      + intros [Hb Hn]. destruct (h_only _ _ Hh name Hn) as ([k b'] & Hf & ->); [by exists b|].
        cbn in Hb. rewrite (h_in _ _ Hh _ _ Hf) in Hb. injection Hb as <-. by exists (k, b').
      + intros ([k b'] & [= -> ->] & Hf). split; [by apply (h_in _ _ Hh)|]. by eapply fname_is_log, (fs_ok _ _ (k, b')). }
  trans (sizes (List.filter (fun f : string * list ascii => is_log f.1) (map_to_list disk))).
  - unfold log_bytes, sizes. clear. induction (map_to_list disk) as [|f l IH]; [done|]. cbn. rewrite IH.
    destruct (is_log f.1); cbn; lia.
  - rewrite (sizes_perm _ _ P). unfold sizes. clear. induction fs as [|f l IH]; [done|]. csimpl. by rewrite IH.
Qed.

(** The newest of the files is the last one. *)
Lemma newest_is_last fs f : StronglySorted (fun a b : LogFileName * list ascii => name_lt a.1 b.1) fs -> f ∈ fs ->
  (forall g, g ∈ fs -> ~ name_lt f.1 g.1) -> exists front, fs = front ++ [f].
Proof.
  intros S (l & r & ->)%list_elem_of_split Hmax. destruct r as [|g r]; [by exists l|]. exfalso.
  apply (Hmax g); [apply elem_of_app; right; right; left|].
  apply StronglySorted_app in S as (_ & _ & S). apply StronglySorted_inv in S as [_ S]. by apply Forall_cons in S as [S _].
Qed.

Lemma next_seq_spec world disk fs today : world_ok world -> holds disk fs ->
  let v := next_seq_for world disk today in
  (forall f, f ∈ fs -> lf_date f.1 = today -> lf_seq f.1 <= v) /\
  (v = 0 \/ exists f, f ∈ fs /\ lf_date f.1 = today /\ lf_seq f.1 = v).
Proof.
  intros Hw Hh. destruct (lists_all _ Hw disk) as (entries & He & Hl). unfold next_seq_for. rewrite He. cbv zeta.
  assert (P : forall p, p ∈ List.filter (fun n => lf_date n =? today) (omap parse_log_file_name entries) <->
              exists f, f ∈ fs /\ f.1 = p /\ lf_date p = today).
  { intros p. rewrite list_elem_of_In, List.filter_In, <- list_elem_of_In, list_elem_of_omap, Z.eqb_eq. split.
    - intros [(name & Hn & Hp) Hd]. apply (lists_elem _ _ _ Hl) in Hn.
      destruct (h_only _ _ Hh name) as (f & Hf & ->); [by unfold is_log; rewrite Hp|done|].
      rewrite parse_fname in Hp by by eapply fs_ok. injection Hp as <-. by exists f.
    - intros (f & Hf & <- & Hd). split; [|done]. exists (fname f.1). split; [|by apply parse_fname, (fs_ok _ _ _ Hh)].
      apply (lists_elem _ _ _ Hl). exists f.2. apply Hh. by destruct f. }
  assert (Q : forall l : list LogFileName, let v := foldr Z.max 0 (lf_seq <$> l) in
              (forall p, p ∈ l -> lf_seq p <= v) /\ (v = 0 \/ exists p, p ∈ l /\ lf_seq p = v)).
  { induction l as [|p l [IH1 IH2]]; csimpl; [split; [by intros p Hp%not_elem_of_nil|by left]|]. split.
    - intros q [->|Hq]%elem_of_cons; [lia|]. specialize (IH1 q Hq). lia.
    - destruct (Z.max_spec (lf_seq p) (foldr Z.max 0 (lf_seq <$> l))) as [[_ ->]|[_ ->]].
      + destruct IH2 as [?|(q & Hq & E)]; [by left|]. right. exists q. split; [by right|done].
      + right. exists p. split; [left|done]. }
  destruct (Q (List.filter (fun n => lf_date n =? today) (omap parse_log_file_name entries))) as [Q1 Q2]. split.
  - intros f Hf Hd. apply Q1, P. by exists f.
  - destruct Q2 as [?|(p & Hp & E)]; [by left|]. right. apply P in Hp as (f & Hf & <- & Hd). by exists f.
Qed.

(** A new last file. *)
Lemma holds_snoc disk fs k : holds disk fs -> name_ok k -> (forall f, f ∈ fs -> name_lt f.1 k) ->
  disk !! fname k = None /\ holds (<[fname k := []]> disk) (fs ++ [(k, [])]).
Proof.
  intros Hh Hk Hlt.
  assert (Hnew : forall f, f ∈ fs -> fname f.1 <> fname k).
  { intros f Hf E. apply fname_inj in E; [|by eapply fs_ok|done]. pose proof (Hlt f Hf) as L. rewrite E in L.
    by apply name_lt_irrefl in L. }
  split.
  - destruct (disk !! fname k) as [b|] eqn:E; [|done]. exfalso.
    destruct (h_only _ _ Hh (fname k)) as (f & Hf & E'); [by apply fname_is_log|by exists b|]. by apply (Hnew f).
  - constructor.
    + apply StronglySorted_app. split; [|split; [apply Hh|by repeat constructor]].
      intros f g Hf Hg. apply list_elem_of_singleton in Hg as ->. by apply Hlt.
    + apply Forall_app. split; [apply Hh|by constructor].
    + intros k' b' [Hf|[= -> ->]%list_elem_of_singleton]%elem_of_app; [|by rewrite lookup_insert_eq].
      rewrite lookup_insert_ne; [by apply Hh|]. by apply not_eq_sym, (Hnew (k', b')).
    + intros name Hn Hs. destruct (decide (name = fname k)) as [->|Hne].
      * exists (k, []). split; [apply elem_of_app; right; left|done].
      * rewrite lookup_insert_ne in Hs by done. destruct (h_only _ _ Hh name Hn Hs) as (f & Hf & ->).
        exists f. split; [apply elem_of_app; by left|done].
Qed.

(** Bytes written to the last file. *)
Lemma holds_append disk front k b b' : holds disk (front ++ [(k, b)]) ->
  holds (<[fname k := b']> disk) (front ++ [(k, b')]).
Proof.
  intros Hh. pose proof (h_sorted _ _ Hh) as S. apply StronglySorted_app in S as (Slt & Sf & _).
  pose proof (h_ok _ _ Hh) as F. apply Forall_app in F as [Ff Fk]. apply Forall_cons in Fk as [Fk _]. cbn [fst] in Fk.
  assert (Hne : forall f, f ∈ front -> fname f.1 <> fname k).
  { intros f Hf E. apply fname_inj in E; [|by rewrite Forall_forall in Ff; apply Ff|exact Fk].
    pose proof (Slt f (k, b) Hf ltac:(left)) as L. cbn in L. rewrite E in L. by apply name_lt_irrefl in L. }
  constructor.
  - apply StronglySorted_app. split; [|split; [done|by repeat constructor]].
    intros f g Hf Hg. apply list_elem_of_singleton in Hg as ->. apply (Slt f (k, b)); [done|left].
  - apply Forall_app. split; [done|by constructor].
  - intros k' x [Hf|[= -> ->]%list_elem_of_singleton]%elem_of_app; [|by rewrite lookup_insert_eq].
    rewrite lookup_insert_ne by by apply not_eq_sym, (Hne (k', x)). apply Hh, elem_of_app. by left.
  - intros name Hn Hs. destruct (decide (name = fname k)) as [->|Hd].
    + exists (k, b'). split; [apply elem_of_app; right; left|done].
    + rewrite lookup_insert_ne in Hs by done. destruct (h_only _ _ Hh name Hn Hs) as (f & Hf & ->).
      apply elem_of_app in Hf as [Hf| ->%list_elem_of_singleton]; [|done].
      exists f. split; [apply elem_of_app; by left|done].
Qed.

(** What a run is handed: the events whose line the reader takes back, the bytes of their
    lines, the restarts, the days. *)
Definition recorded (es : list WriterEvent) : list Logged.t :=
  flat_map (fun e => match e with Record_ _ _ logged => option_list (line ← line_of logged; event_of line) | Restart => [] end) es.

Definition line_bytes (e : WriterEvent) : Z :=
  match e with Record_ _ _ logged => map_or (line_of logged) 0 (fun line => len line + 1) | Restart => 0 end.

Definition spent (es : list WriterEvent) : Z := foldr (fun e n => line_bytes e + n) 0 es.

Definition restarts (es : list WriterEvent) : Z :=
  foldr (fun e n => match e with Restart => 1 + n | _ => n end) 0 es.

Fixpoint last_day (day : Date) (es : list WriterEvent) : Date :=
  match es with [] => day | Record_ _ today _ :: es => last_day today es | Restart :: es => last_day day es end.

(** The clock never goes back, and no line is longer than [L]. *)
Fixpoint run_ok (L : Z) (day : Date) (es : list WriterEvent) : Prop :=
  match es with
  | [] => True
  | Record_ world today _ as e :: es =>
      world_ok world /\ plain_date today /\ day <= today /\ line_bytes e <= L /\ run_ok L today es
  | Restart :: es => run_ok L day es
  end.

Definition seg_key (s : Segment) : LogFileName := {| lf_date := sg_date s; lf_seq := sg_seq s |}.

(** What holds after [r] restarts, with [n] segment numbers to spare. *)
Record tracks (limits : Limits) (L r : Z) (first day : Date) (n : Z) (rec : list Logged.t) (bytes : Z)
    (fs : Files) (gone : list Logged.t) (w : Writer) : Prop := {
  tr_holds : holds (w_disk w) fs;
  tr_complete : Forall (fun f => complete f.2) fs;
  tr_days : Forall (fun f => first <= lf_date f.1 <= day) fs;
  tr_seqs : Forall (fun f => lf_seq f.1 + n <= u32_max) fs;
  tr_events : rec = gone ++ flat_map (fun f => file_events f.2) fs;
  tr_bytes : sizes fs <= bytes;
  tr_all : bytes <= max_total_bytes limits -> day - first <= retention_days limits -> gone = [];
  tr_file : Forall (fun f => len f.2 <= segment_bytes limits + (r + match w_open w with Some _ => 1 | None => 0 end) * L) fs;
  tr_open : match w_open w with
            | Some s => exists front b, fs = front ++ [(seg_key s, b)] /\ sg_written s = len b /\
                        sizes front <= max_total_bytes limits /\ sg_buffer s = []
            | None => sizes fs <= max_total_bytes limits + segment_bytes limits + r * L
            end;
}.

Lemma flat_map_snoc {A B} (f : A -> list B) l x : flat_map f (l ++ [x]) = flat_map f l ++ f x.
Proof. rewrite flat_map_app. cbn. by rewrite app_nil_r. Qed.

(** Writing to the open segment. *)
Lemma write_tracks limits L r first day n rec bytes front b gone s disk world e line : world_ok world -> sg_buffer s = [] ->
  tracks limits L r first day n rec bytes (front ++ [(seg_key s, b)]) gone {| w_disk := disk; w_open := Some s |} ->
  sizes front <= max_total_bytes limits -> sg_written s = len b ->
  line_of e = Some line -> 0 <= L -> len line + 1 <= L -> len b <= segment_bytes limits + r * L ->
  exists fs', tracks limits L r first day n (rec ++ option_list (event_of line)) (bytes + (len line + 1)) fs' gone
    (append_line world {| w_disk := disk; w_open := Some s |} s line).
Proof.
  intros Hworld Hbuf T Hfront Hwr Hline HL Hlen Hb. exists (front ++ [(seg_key s, b ++ line ++ [newline])]).
  pose proof (h_in _ _ (tr_holds _ _ _ _ _ _ _ _ _ _ _ T) (seg_key s) b) as Hin. cbn in Hin.
  assert (Hd : disk !! fname (seg_key s) = Some b) by (apply Hin, elem_of_app; right; left).
  assert (Hnl : len (b ++ line ++ [newline]) = len b + (len line + 1)) by (rewrite !len_app; change (len [newline]) with 1; lia).
  destruct T as [Th Tc Td Ts Te Tb Ta Tf To]. cbn in *. apply Forall_app in Tc as [Tc Tcb], Td as [Td Tdb], Ts as [Ts Tsb], Tf as [Tf Tfb].
  apply Forall_cons in Tcb as [Tcb _], Tdb as [Tdb _], Tsb as [Tsb _], Tfb as [Tfb _]. cbn [fst snd] in *.
  unfold append_line. rewrite Hbuf, (writes_all _ Hworld). cbn [app].
  constructor; cbn.
  - replace (alter _ _ disk) with (<[fname (seg_key s) := b ++ line ++ [newline]]> disk); [by eapply holds_append|].
    apply map_eq. intros x. destruct (decide (x = fname (seg_key s))) as [->|Hx].
    + rewrite lookup_insert_eq, lookup_alter_eq. change (path_of s) with (fname (seg_key s)). by rewrite Hd.
    + rewrite lookup_insert_ne, lookup_alter_ne by done. done.
  - apply Forall_app. split; [done|]. constructor; [apply complete_append|done].
  - apply Forall_app. split; [done|]. by constructor.
  - apply Forall_app. split; [done|]. by constructor.
  - rewrite flat_map_snoc. cbn [snd]. rewrite (file_events_append b line e Tcb Hline), Te, flat_map_snoc. cbn [snd].
    by rewrite <- !app_assoc.
  - rewrite sizes_app in *. cbn in *. lia.
  - intros Q1 Q2. pose proof (len_nonneg line). apply Ta; lia.
  - apply Forall_app. split; [done|]. constructor; [cbn; lia|done].
  - eexists front, _. split; [done|]. split; [cbn; lia|by split].
Qed.

(** The segment a roll opens: a new last file, or after a restart today's newest. *)
Lemma roll_target limits L r first day n rec bytes fs gone w world today :
  tracks limits L r first day (1 + n) rec bytes fs gone w -> world_ok world -> plain_date today -> day <= today -> 0 <= n ->
  is_none_or (w_open w) (fun s => should_roll s today limits) = true -> 1 + n <= u32_max ->
  let k := {| lf_date := today; lf_seq := roll_seq world (w_disk w) (w_open w) today |} in
  let b := unwrap_or (w_disk w !! fname k) [] in
  name_ok k /\ lf_seq k + n <= u32_max /\
  exists front, holds (<[fname k := b]> (w_disk w)) (front ++ [(k, b)]) /\
    (front = fs /\ b = [] \/ fs = front ++ [(k, b)] /\ w_open w = None).
Proof.
  intros T Hw Hd Hday Hn Hroll Hmax. destruct T as [Th Tc Td Ts Te Tb Ta Tf To].
  destruct (next_seq_spec world (w_disk w) fs today Hw Th) as [V1 V2].
  assert (Hok : forall f, f ∈ fs -> name_ok f.1) by (intros f Hf; by eapply fs_ok).
  rewrite Forall_forall in Td. rewrite Forall_forall in Ts.
  assert (Hnew : forall k, name_ok k -> lf_seq k + n <= u32_max -> (forall f, f ∈ fs -> name_lt f.1 k) ->
    let b := unwrap_or (w_disk w !! fname k) [] in
    name_ok k /\ lf_seq k + n <= u32_max /\ exists front, holds (<[fname k := b]> (w_disk w)) (front ++ [(k, b)]) /\
      (front = fs /\ b = [] \/ fs = front ++ [(k, b)] /\ w_open w = None)).
  { intros k Hk Hkn Hlt. destruct (holds_snoc _ _ k Th Hk Hlt) as [E Hh]. rewrite E. cbn.
    split; [done|]. split; [done|]. exists fs. split; [done|by left]. }
  unfold roll_seq. destruct (w_open w) as [s|] eqn:Eo.
  - cbn in Hroll. destruct To as (front & b0 & Efs & Ewr & _ & _).
    assert (Hs : (seg_key s, b0) ∈ fs) by (rewrite Efs; apply elem_of_app; right; left).
    pose proof (Hok _ Hs) as [_ Hsq]. pose proof (Ts _ Hs) as Hsn. pose proof (Td _ Hs) as Hsd. cbn in Hsq, Hsn, Hsd.
    assert (Hlast : forall f, f ∈ fs -> f.1 = seg_key s \/ name_lt f.1 (seg_key s)).
    { intros f Hf. rewrite Efs in Hf. apply elem_of_app in Hf as [Hf|Hf]; [right|left; by apply list_elem_of_singleton in Hf as ->].
      pose proof (h_sorted _ _ Th) as S. rewrite Efs in S. by apply (StronglySorted_app_1_elem_of _ _ _ f (seg_key s, b0) S Hf ltac:(left)). }
    destruct (sg_date s =? today) eqn:Ed.
    + apply Z.eqb_eq in Ed. rewrite wrap_u_small by (unfold u32_max in *; lia). apply Hnew; [split; cbn; [done|lia]|cbn; lia|].
      intros f Hf. unfold name_lt. destruct (Hlast f Hf) as [E|G]; [rewrite E; cbn; lia|unfold name_lt in G; cbn in *; lia].
    + assert (Hnone : forall f, f ∈ fs -> lf_date f.1 < today).
      { intros f Hf. apply Z.eqb_neq in Ed. pose proof (Td f Hf). destruct (Hlast f Hf) as [E|G]; [rewrite E; cbn; lia|unfold name_lt in G; cbn in *; lia]. }
      destruct V2 as [->|(f & Hf & Hfd & _)]; [|specialize (Hnone f Hf); lia].
      apply Hnew; [split; cbn; [done|lia]|cbn; lia|]. intros f Hf. left. cbn. by apply Hnone.
  - set (v := next_seq_for world (w_disk w) today) in *. set (k := {| lf_date := today; lf_seq := v |}).
    assert (Hle : forall f, f ∈ fs -> f.1 = k \/ name_lt f.1 k).
    { intros f Hf. apply name_le_spec. pose proof (Td f Hf). pose proof (V1 f Hf). unfold name_le. cbn. bool_to_prop. lia. }
    destruct (decide (k ∈ fs.*1)) as [Hin|Hno].
    + apply list_elem_of_fmap in Hin as ([k' b'] & -> & Hf). cbn [fst] in *.
      destruct (newest_is_last fs (k', b') (h_sorted _ _ Th) Hf) as [front Efs].
      { intros g Hg G. cbn in G. destruct (Hle g Hg) as [E|G']; [by rewrite E in G; apply name_lt_irrefl in G|].
        unfold name_lt in *. lia. }
      assert (Hb : w_disk w !! fname k' = Some b') by by apply Th. rewrite Hb. cbn [unwrap_or].
      split; [by apply (Hok _ Hf)|]. split; [pose proof (Ts _ Hf); cbn in *; lia|]. exists front.
      rewrite insert_id by done. rewrite <- Efs. split; [done|by right].
    + assert (Hv : v = 0).
      { destruct V2 as [?|(f & Hf & Hfd & Hfv)]; [done|]. destruct Hno. apply list_elem_of_fmap. exists f.
        split; [|done]. unfold k. rewrite <- Hfd, <- Hfv. by destruct f.1. }
      apply Hnew; [split; cbn; [done|lia]|cbn; lia|]. intros f Hf. destruct (Hle f Hf) as [E|?]; [|done].
      destruct Hno. rewrite <- E. by apply list_elem_of_fmap_2.
Qed.

(** The files with the segment that was opened, before pruning. *)
Lemma opened_files limits L r first day today n rec bytes fs gone w front k b :
  tracks limits L r first day (1 + n) rec bytes fs gone w -> day <= today -> first <= today -> lf_date k = today ->
  lf_seq k + n <= u32_max -> 0 <= L -> 0 <= r -> 0 <= segment_bytes limits ->
  (front = fs /\ b = [] \/ fs = front ++ [(k, b)] /\ w_open w = None) ->
  Forall (fun f => complete f.2) (front ++ [(k, b)]) /\ Forall (fun f => first <= lf_date f.1 <= today) (front ++ [(k, b)]) /\
  Forall (fun f => lf_seq f.1 + n <= u32_max) (front ++ [(k, b)]) /\
  flat_map (fun f => file_events f.2) (front ++ [(k, b)]) = flat_map (fun f => file_events f.2) fs /\
  sizes (front ++ [(k, b)]) = sizes fs /\
  Forall (fun f => len f.2 <= segment_bytes limits + (r + 1) * L) front /\ len b <= segment_bytes limits + r * L.
Proof.
  intros T Hday Hfirst Hkd Hkn HL Hr HS Hcase.
  destruct T as [Th Tc Td Ts Te Tb Ta Tf To].
  assert (Td' : Forall (fun f => first <= lf_date f.1 <= today) fs) by (eapply Forall_impl; [exact Td|]; cbn; intros; lia).
  assert (Ts' : Forall (fun f => lf_seq f.1 + n <= u32_max) fs) by (eapply Forall_impl; [exact Ts|]; cbn; intros; lia).
  destruct Hcase as [[-> ->]|[Efs Eo]].
  - split_and!.
    + apply Forall_app. split; [done|]. constructor; [by left|done].
    + apply Forall_app. split; [done|]. constructor; [cbn; lia|done].
    + apply Forall_app. split; [done|]. constructor; [done|done].
    + rewrite flat_map_snoc. cbn. by rewrite app_nil_r.
    + rewrite sizes_app. unfold sizes at 2. cbn. unfold len. cbn. lia.
    + eapply Forall_impl; [exact Tf|]. cbn. intros f Hf. destruct (w_open w); nia.
    + change (len []) with 0. nia.
  - rewrite Eo in Tf. rewrite <- Efs. split_and!; try done.
    + rewrite Efs in Tf. apply Forall_app in Tf as [Tf _]. eapply Forall_impl; [exact Tf|]. cbn. intros f Hf. nia.
    + rewrite Efs in Tf. apply Forall_app in Tf as [_ Tf]. apply Forall_cons in Tf as [Tf _]. cbn in Tf.
      by rewrite Z.add_0_r in Tf.
Qed.

(** Opening a segment and pruning around it. *)
Lemma rotate_tracks limits L r first day n rec bytes fs gone w world today :
  tracks limits L r first day (1 + n) rec bytes fs gone w -> world_ok world -> plain_date today -> day <= today ->
  first <= today -> 0 <= n -> 1 + n <= u32_max -> 0 <= L -> 0 <= r -> 0 <= max_total_bytes limits ->
  0 <= segment_bytes limits ->
  is_none_or (w_open w) (fun s => should_roll s today limits) = true ->
  exists disk s front b gone',
    rotate world limits today (roll_seq world (w_disk w) (w_open w) today) (w_disk w) = Some (disk, s) /\
    tracks limits L r first today n rec bytes (front ++ [(seg_key s, b)]) gone' {| w_disk := disk; w_open := Some s |} /\
    sizes front <= max_total_bytes limits /\ sg_written s = len b /\ len b <= segment_bytes limits + r * L /\ sg_buffer s = [].
Proof.
  intros T Hw Hd Hday Hfirst Hn Hmax HL Hr HM HS Hroll.
  destruct (roll_target _ _ _ _ _ _ _ _ _ _ _ _ _ T Hw Hd Hday Hn Hroll Hmax) as (Hk & Hkn & front & Hh & Hcase).
  set (k := {| lf_date := today; lf_seq := roll_seq world (w_disk w) (w_open w) today |}) in *.
  set (b := unwrap_or (w_disk w !! fname k) []) in *.
  destruct (opened_files _ _ _ _ _ today _ _ _ _ _ _ front k b T Hday Hfirst eq_refl Hkn HL Hr HS Hcase)
    as (Bc & Bd & Bs & Be & Bz & Bf & Bb).
  destruct (prune_holds world limits today _ front k b Hw Hh) as (j & Hj & Hp & Hbudget & Hnone).
  pose proof (sizes_nonneg (drop j front)) as Hdn. pose proof (len_nonneg b) as Hlb.
  assert (Hdrop : forall P, Forall P (front ++ [(k, b)]) -> Forall P (drop j front ++ [(k, b)])).
  { intros P HP. apply Forall_app in HP as [HP HQ]. apply Forall_app. split; [by apply Forall_drop|done]. }
  assert (Hsz : sizes front = sizes (take j front) + sizes (drop j front)) by (rewrite <- sizes_app; by rewrite take_drop).
  exists (prune world limits today (fname k) (<[fname k := b]> (w_disk w))),
    {| sg_date := today; sg_seq := lf_seq k; sg_written := len b; sg_buffer := [] |}, (drop j front), b,
    (gone ++ flat_map (fun f => file_events f.2) (take j front)).
  split; [unfold rotate; by rewrite (opens_all _ Hw)|].
  assert (Hfront : sizes (drop j front) <= max_total_bytes limits) by (destruct Hbudget as [?| ->]; [lia|cbn; lia]).
  split; [|by split_and!]. pose proof (sizes_nonneg (take j front)) as Htn.
  destruct T as [Th Tc Td Ts Te Tb Ta Tf To]. rewrite sizes_app in Bz. cbn in Bz.
  constructor; cbn [w_disk w_open].
  - exact Hp.
  - by apply Hdrop.
  - by apply Hdrop.
  - by apply Hdrop.
  - rewrite Te, <- Be, <- app_assoc, <- flat_map_app. by rewrite (app_assoc (take j front)), take_drop.
  - rewrite sizes_app. cbn. lia.
  - intros Q1 Q2. assert (j = 0%nat) as ->.
    { apply Hnone; [|lia]. intros f Hf. rewrite Forall_forall in Bd.
      assert (G : f ∈ front ++ [(k, b)]) by (apply elem_of_app; by left). specialize (Bd f G). cbn in Bd. lia. }
    rewrite take_0. cbn. rewrite app_nil_r. apply Ta; lia.
  - apply Forall_app. split; [by apply Forall_drop|]. constructor; [cbn; nia|done].
  - exists (drop j front), b. done.
Qed.

(** Nothing is left to write when a segment is replaced. *)
Lemma close_clean world open (disk : Disk) : world_ok world ->
  match open with Some s => sg_buffer s = [] | None => True end -> close world open disk = disk.
Proof.
  intros Hw. destruct open as [s|]; [|done]. intros Hs. cbn. rewrite Hs, (writes_all _ Hw). cbn.
  apply alter_id. intros. apply app_nil_r.
Qed.

Lemma tracks_later limits L r first day today n rec bytes fs gone w :
  tracks limits L r first day (1 + n) rec bytes fs gone w -> day <= today ->
  tracks limits L r first today n rec bytes fs gone w.
Proof.
  intros [Th Tc Td Ts Te Tb Ta Tf To] Hd. constructor; try done.
  - eapply Forall_impl; [exact Td|]. cbn. lia.
  - eapply Forall_impl; [exact Ts|]. cbn. lia.
  - intros. apply Ta; lia.
Qed.

(** One event of a run. *)
Lemma event_tracks limits L r first day n rec bytes fs gone w world today logged :
  tracks limits L r first day (1 + n) rec bytes fs gone w -> run_ok L day [Record_ world today logged] ->
  first <= day -> 0 <= n -> 1 + n <= u32_max -> 0 <= L -> 0 <= r -> 0 <= max_total_bytes limits -> 0 <= segment_bytes limits ->
  exists fs' gone', tracks limits L r first today n (rec ++ option_list (line ← line_of logged; event_of line))
    (bytes + line_bytes (Record_ world today logged)) fs' gone' (writer_step limits world today logged w).
Proof.
  intros T (Hw & Hd & Hday & Hlb & _) Hf Hn Hmax HL Hr HM HS. unfold writer_step.
  assert (G : forall disk s front b gone', 
    tracks limits L r first today n rec bytes (front ++ [(seg_key s, b)]) gone' {| w_disk := disk; w_open := Some s |} ->
    sizes front <= max_total_bytes limits -> sg_written s = len b -> len b <= segment_bytes limits + r * L -> sg_buffer s = [] ->
    exists fs' gone', tracks limits L r first today n (rec ++ option_list (line ← line_of logged; event_of line))
      (bytes + line_bytes (Record_ world today logged)) fs' gone'
      (match line_of logged with Some line => append_line world {| w_disk := disk; w_open := Some s |} s line
       | None => {| w_disk := disk; w_open := Some s |} end)).
  { intros disk s front b gone' T' H1' H2' H3' H4'. cbn [line_bytes] in *. destruct (line_of logged) as [line|] eqn:E; cbn [map_or mbind option_bind] in *.
    - destruct (write_tracks _ _ _ _ _ _ _ _ _ _ _ _ _ world logged line Hw H4' T' H1' H2' E HL Hlb H3') as [fs' T2]. by exists fs', gone'.
    - exists (front ++ [(seg_key s, b)]), gone'. cbn. by rewrite app_nil_r, Z.add_0_r. }
  destruct (is_none_or (w_open w) (fun s => should_roll s today limits)) eqn:Eroll.
  - destruct (rotate_tracks _ _ _ _ _ _ _ _ _ _ _ _ _ T Hw Hd Hday ltac:(lia) Hn Hmax HL Hr HM HS Eroll)
      as (disk & s & front & b & gone' & -> & T' & Hfront & Hwr & Hb & Hbuf). cbn [w_open].
    rewrite close_clean; [|done|]; [by apply (G disk s front b gone')|].
    pose proof (tr_open _ _ _ _ _ _ _ _ _ _ _ T) as To. destruct (w_open w); [|done]. by destruct To as (?&?&_&_&_&?).
  - pose proof (tracks_later _ _ _ _ _ today _ _ _ _ _ _ T Hday) as T'. destruct w as [disk [s|]]; [|done]. cbn [w_open w_disk is_none_or] in *.
    destruct (tr_open _ _ _ _ _ _ _ _ _ _ _ T') as (front & b & -> & Hwr & Hfront & Hbuf).
    apply (G disk s front b gone); [done|done|done| |done]. unfold should_roll in Eroll. apply orb_false_iff in Eroll as [_ Er]. nia.
Qed.

Lemma restart_tracks limits L r first day n rec bytes fs gone w : 0 <= L ->
  tracks limits L r first day n rec bytes fs gone w ->
  tracks limits L (1 + r) first day n rec bytes fs gone {| w_disk := w_disk w; w_open := None |}.
Proof.
  intros HL [Th Tc Td Ts Te Tb Ta Tf To]. constructor; cbn [w_disk w_open]; try done.
  - eapply Forall_impl; [exact Tf|]. cbn. intros f Hf. destruct (w_open w); nia.
  - destruct (w_open w) as [s|]; [|lia]. destruct To as (front & b & -> & _ & Hfront & _).
    apply Forall_app in Tf as [_ Tf]. apply Forall_cons in Tf as [Tf _]. cbn in Tf. rewrite sizes_app. cbn. lia.
Qed.

Lemma run_tracks limits L es : forall r first day rec bytes fs gone w,
  tracks limits L r first day (Z.of_nat (length es)) rec bytes fs gone w -> run_ok L day es -> first <= day ->
  Z.of_nat (length es) <= u32_max -> 0 <= L -> 0 <= r -> 0 <= max_total_bytes limits -> 0 <= segment_bytes limits ->
  exists fs' gone', tracks limits L (restarts es + r) first (last_day day es) 0 (rec ++ recorded es) (bytes + spent es) fs' gone'
    (foldl (writer_event limits) w es).
Proof.
  induction es as [|e es IH]; intros r first day rec bytes fs gone w T Hrun Hf Hlen HL Hr HM HS.
  - exists fs, gone. unfold spent. cbn. by rewrite app_nil_r, Z.add_0_r.
  - cbn [length] in *. rewrite Nat2Z.inj_succ, <- Z.add_1_l in T, Hlen. cbn [foldl]. destruct e as [world today logged|].
    + destruct Hrun as (Hw & Hd & Hday & Hlb & Hrun).
      destruct (event_tracks _ _ _ _ _ _ _ _ _ _ _ world today logged T) as (fs1 & gone1 & T1); [exact (conj Hw (conj Hd (conj Hday (conj Hlb I))))|lia..|].
      destruct (IH r first today _ _ _ _ _ T1) as (fs2 & gone2 & T2); [done|lia..|]. exists fs2, gone2.
      cbn [restarts last_day recorded flat_map spent foldr writer_event] in *. rewrite <- app_assoc, <- Z.add_assoc in T2. exact T2.
    + destruct (IH (1 + r) first day rec bytes fs gone {| w_disk := w_disk w; w_open := None |}) as (fs2 & gone2 & T2); [|done|lia..|].
      { apply restart_tracks; [done|]. by eapply tracks_later. }
      exists fs2, gone2. change (recorded (Restart :: es)) with (recorded es).
      change (spent (Restart :: es)) with (0 + spent es). change (restarts (Restart :: es)) with (1 + restarts es).
      rewrite Z.add_0_l. by replace (1 + restarts es + r) with (restarts es + (1 + r)) by lia.
Qed.

Definition start (disk : Disk) : Writer := {| w_disk := disk; w_open := None |}.

Lemma start_tracks limits L first n disk : (forall name, is_log name = true -> disk !! name = None) ->
  0 <= max_total_bytes limits -> 0 <= segment_bytes limits ->
  tracks limits L 0 first first n [] 0 [] [] (start disk).
Proof.
  intros Hd HM HS. constructor; try done; [|cbn; lia]. constructor; try by constructor.
  - intros k b Hk. by apply not_elem_of_nil in Hk.
  - intros name Hn [b Hb]. cbn in Hb. by rewrite Hd in Hb.
Qed.

(** C33: From a directory without a log, over any run of the writer on a clock that never goes
    back and a file system that lists, opens, removes and writes in full, whatever the restarts
    between two lines (and with no line longer than some [L], at most [u32::MAX] events): the
    files read in the order of their names are a tail of the events recorded.  Nothing is lost,
    doubled or reordered but what pruning removed from the front, and that is nothing while the
    lines fit the budget and the days the retention. *)
Theorem the_log_is_a_tail limits L first es disk entries :
  (forall name, is_log name = true -> disk !! name = None) -> run_ok L first es ->
  Z.of_nat (length es) <= u32_max -> 0 <= L -> 0 <= max_total_bytes limits -> 0 <= segment_bytes limits ->
  let w := foldl (writer_event limits) (start disk) es in
  lists (w_disk w) entries ->
  exists gone, recorded es = gone ++ log_events (w_disk w) entries /\
    (spent es <= max_total_bytes limits -> last_day first es - first <= retention_days limits -> gone = []).
Proof.
  intros Hd Hrun Hlen HL HM HS w Hl.
  destruct (run_tracks limits L es 0 first first [] 0 [] [] (start disk)) as (fs & gone & T); try done; [by apply start_tracks|].
  exists gone. rewrite (log_events_holds _ _ fs) by (done || apply T). split; [apply (tr_events _ _ _ _ _ _ _ _ _ _ _ T)|].
  apply (tr_all _ _ _ _ _ _ _ _ _ _ _ T).
Qed.

(** C34: Over any such run (a clock that never goes back, a working file system) the log never holds more than its budget, one segment and one
    line, plus one line for every restart. *)
Theorem the_log_keeps_its_budget limits L first es disk :
  (forall name, is_log name = true -> disk !! name = None) -> run_ok L first es ->
  Z.of_nat (length es) <= u32_max -> 0 <= L -> 0 <= max_total_bytes limits -> 0 <= segment_bytes limits ->
  log_bytes (w_disk (foldl (writer_event limits) (start disk) es)) <=
  max_total_bytes limits + segment_bytes limits + (1 + restarts es) * L.
Proof.
  intros Hd Hrun Hlen HL HM HS.
  destruct (run_tracks limits L es 0 first first [] 0 [] [] (start disk)) as (fs & gone & T); try done; [by apply start_tracks|].
  destruct T as [Th _ _ _ _ _ _ Tf To]. rewrite (log_bytes_holds _ fs Th).
  destruct (w_open _) as [s|]; [|lia]. destruct To as (front & b & -> & _ & Hfront & _).
  apply Forall_app in Tf as [_ Tf]. apply Forall_cons in Tf as [Tf _]. cbn in Tf. rewrite sizes_app. cbn. lia.
Qed.

(** ** What pruning never touches *)

Lemma prune_age_spares world limits today open entries disk name : name = open \/ is_log name = false ->
  let r := prune_age world limits today open entries disk in
  r.1 !! name = disk !! name /\ Forall (fun k => is_log (k_path k) = true) r.2.
Proof.
  intros Hn. revert disk. induction entries as [|x l IH]; intros disk; cbn; [by split|].
  destruct (parse_log_file_name x) as [p|] eqn:E; [|apply IH].
  destruct (negb (String.eqb x open) && _) eqn:A.
  - destruct (can_remove world x); [|apply IH]. destruct (IH (delete x disk)) as [-> Hk]. split; [|done].
    apply andb_true_iff in A as [A _]. apply negb_true_iff, String.eqb_neq in A. apply lookup_delete_ne.
    destruct Hn as [->|Hn]; [done|]. intros ->. unfold is_log in Hn. by rewrite E in Hn.
  - specialize (IH disk). destruct (prune_age _ _ _ _ _ _) as [d k]. cbn in *. destruct IH as [IH1 IH2]. split; [done|].
    constructor; [|done]. cbn. unfold is_log. by rewrite E.
Qed.

Lemma evict_spares world limits open kept total disk name : name = open \/ is_log name = false ->
  Forall (fun k => is_log (k_path k) = true) kept -> evict world limits open kept total disk !! name = disk !! name.
Proof.
  intros Hn F. revert total disk. induction F as [|k l Hk F IH]; intros total disk; cbn; [done|].
  destruct (total <=? max_total_bytes limits); [done|]. destruct (String.eqb (k_path k) open) eqn:E; [done|].
  destruct (can_remove world (k_path k)); [|done]. rewrite IH. apply lookup_delete_ne. apply String.eqb_neq in E.
  destruct Hn as [->|Hn]; [done|]. intros E'. by rewrite E', Hn in Hk.
Qed.

(** Whatever the directory holds and the file system answers, pruning leaves the open
    segment and every file that is not a log untouched. *)
Theorem pruning_spares_the_open_segment world limits today open disk name :
  name = open \/ is_log name = false -> prune world limits today open disk !! name = disk !! name.
Proof.
  intros Hn. unfold prune. destruct (read_dir world disk) as [entries|]; [|done].
  pose proof (prune_age_spares world limits today open entries disk name Hn) as [P1 P2].
  destruct (prune_age _ _ _ _ _ _) as [d kept]. cbn in *. case_match; [done|]. rewrite evict_spares; [done|done|].
  by rewrite (sort_by_perm kept_le kept).
Qed.

(** A line cut short by a crash takes the next recorded event with it: the writer resumes
    right behind the torn bytes. *)
Theorem a_torn_line_takes_the_next world b torn s disk w e line :
  world_ok world -> sg_buffer s = [] -> complete b -> newline ∉ torn -> w_disk w = disk -> disk !! path_of s = Some (b ++ torn) ->
  line_of e = Some line -> event_of (torn ++ line) = None ->
  exists bytes, w_disk (append_line world w s line) !! path_of s = Some bytes /\ file_events bytes = file_events b.
Proof.
  intros Hw Hbuf Hb Ht <- Hd Hl Hev. exists (b ++ torn ++ line ++ [newline]). split.
  - unfold append_line. rewrite Hbuf, (writes_all _ Hw). cbn. rewrite lookup_alter_eq, Hd. cbn. by rewrite <- !app_assoc.
  - rewrite file_events_torn by (done || by eapply line_is_one). unfold line_event. rewrite Hev. case_match; apply app_nil_r.
Qed.
End runs.

(** An event is written exactly when it cannot be had again (no ticks, no reloads), and
    reading a written event gives the event back. *)
Theorem logged_events_round_trip {TagDoc} (event : Event TagDoc) :
  (forall e, Logged.from_event event = Some e -> Logged.into_event e = event) /\
  (Logged.from_event event = None <-> match event with
    | Tick _ | RulesReloaded _ _ _ | LaunchBuildStatsReloaded _ | BuildBreadthReloaded _ => True | _ => False end).
Proof. split; [by intros e; destruct event; intros [= <-]|by destruct event]. Qed.

(** The limits never let a segment outgrow the whole budget. *)
Lemma limits_clamp retention max_bytes segment :
  let l := limits_from_env retention max_bytes segment in
  MIN_SEGMENT_BYTES <= segment_bytes l <= Z.max (max_total_bytes l) MIN_SEGMENT_BYTES.
Proof. cbn. lia. Qed.

(** ** Boot recovery *)

Section recovery.
Context `{LogDates, LogCodec}.

Lemma scan_lines_app stop a b acc :
  scan_lines stop (a ++ b) acc =
  (let '(x, reached) := scan_lines stop a acc in if reached then (x, true) else scan_lines stop b x).
Proof.
  revert acc. induction a as [|line a IH]; intros acc; cbn; [done|]. destruct (blank line); [done|].
  destruct (event_of line) as [ev|]; [|done]. by destruct (is_some_and _ _).
Qed.

Lemma split_first_plain x first rest : split_lines x = first :: rest -> newline ∉ first.
Proof.
  revert first rest. induction x as [|c x IH]; cbn; intros first rest.
  - intros [= <- _]. apply not_elem_of_nil.
  - destruct (Ascii.eqb c newline) eqn:E; [intros [= <- _]; apply not_elem_of_nil|].
    destruct (split_lines x) as [|l ls]; intros [= <- _]; apply Ascii.eqb_neq in E; apply not_elem_of_cons; (split; [done|]).
    + apply not_elem_of_nil.
    + by eapply IH.
Qed.

(** Bytes put before a text end in its first line. *)
Lemma split_before p x first rest : split_lines x = first :: rest -> split_lines (p ++ x) = split_lines (p ++ first) ++ rest.
Proof.
  intros E. induction p as [|c p IH]; cbn [app].
  - by rewrite E, (split_lines_one first) by by eapply split_first_plain.
  - cbn [split_lines]. rewrite IH. destruct (Ascii.eqb c newline); [done|].
    destruct (split_lines (p ++ first)) eqn:F; [by apply split_lines_nonempty in F|done].
Qed.

Lemma read_at_before bytes pos n : 0 <= n -> 0 <= pos - n -> pos <= len bytes ->
  take (Z.to_nat pos) bytes = take (Z.to_nat (pos - n)) bytes ++ take (Z.to_nat n) (drop (Z.to_nat (pos - n)) bytes).
Proof.
  intros Hn Hp Hl. unfold len in Hl. rewrite take_drop_commute. replace (Z.to_nat (pos - n) + Z.to_nat n)%nat with (Z.to_nat pos) by lia.
  rewrite <- (take_drop (Z.to_nat (pos - n)) (take (Z.to_nat pos) bytes)) at 1. by rewrite take_take, Nat.min_l by lia.
Qed.

Lemma tail_loop_done fuel bytes stop chunk carry acc : tail_loop fuel (fun _ => true) bytes stop chunk 0 carry acc = (acc, false).
Proof. by destruct fuel. Qed.

Lemma tail_loop_spec fuel bytes stop chunk pos carry acc : 0 < pos <= len bytes -> pos <= Z.of_nat fuel ->
  tail_loop fuel (fun _ => true) bytes stop chunk pos carry acc =
  scan_lines stop (rev (split_lines (take (Z.to_nat pos) bytes ++ carry))) acc.
Proof.
  revert pos carry acc. induction fuel as [|fuel IH]; intros pos carry acc Hpos Hfuel; [lia|].
  cbn [tail_loop]. replace (0 <? pos) with true by lia. cbv zeta. unfold read_at. set (n := Z.min (Z.max chunk 1) pos).
  assert (Hn : 0 < n <= pos) by lia. set (buf := take (Z.to_nat n) (drop (Z.to_nat (pos - n)) bytes)).
  assert (Htake : take (Z.to_nat pos) bytes = take (Z.to_nat (pos - n)) bytes ++ buf) by (apply read_at_before; lia).
  clearbody buf. rewrite Htake, <- app_assoc. destruct (split_lines (buf ++ carry)) as [|first rest] eqn:E; [by apply split_lines_nonempty in E|].
  destruct (0 <? pos - n) eqn:P.
  - rewrite (split_before _ _ _ _ E), rev_app_distr, scan_lines_app.
    destruct (scan_lines stop (rev rest) acc) as [x []]; [done|]. apply Z.ltb_lt in P. apply IH; lia.
  - apply Z.ltb_ge in P. assert (pos - n = 0) as -> by lia. change (Z.to_nat 0) with 0%nat. rewrite take_0, app_nil_l, E.
    destruct (scan_lines stop (rev (first :: rest)) acc) as [x []]; [done|]. apply tail_loop_done.
Qed.

(** C35: Reading a file backwards in chunks of any size finds what scanning its lines from the
    last to the first finds: no line is lost or cut where chunks meet, and the scan stops at the
    same line. *)
Theorem chunked_tail_is_the_line_scan bytes stop chunk :
  read_log_tail_chunked (fun _ => true) bytes stop chunk =
  (let '(newest_first, reached) := scan_lines stop (rev (split_lines bytes)) [] in (rev newest_first, reached)).
Proof.
  unfold read_log_tail_chunked. destruct (decide (bytes = [])) as [->|Hne]; [done|].
  assert (0 < len bytes) by (destruct bytes; [done|unfold len; cbn; lia]).
  rewrite tail_loop_spec by (unfold len in *; lia). unfold len. rewrite Nat2Z.id, firstn_all. by rewrite app_nil_r.
Qed.

(** What a scan takes of the events. *)
Lemma scan_lines_spec stop lines acc :
  exists x y, omap line_event lines = x ++ y /\
    (scan_lines stop lines acc).1 = acc ++ x /\
    Forall (fun e => forall t, Logged.time_of e = Some t -> stop <= t) x /\
    (if (scan_lines stop lines acc).2 then exists e t y', y = e :: y' /\ Logged.time_of e = Some t /\ t < stop else y = []).
Proof.
  revert acc. induction lines as [|line lines IH]; intros acc; cbn.
  { exists [], []. split; [done|]. split; [by rewrite app_nil_r|]. by split. }
  unfold line_event at 1. destruct (blank line); [apply IH|]. destruct (event_of line) as [ev|]; [|apply IH].
  destruct (is_some_and (Logged.time_of ev) (fun t => t <? stop)) eqn:E.
  - exists [], (ev :: omap line_event lines). cbn. split; [done|]. split; [by rewrite app_nil_r|]. split; [done|].
    destruct (Logged.time_of ev) as [t|] eqn:Et; [|done]. cbn in E. apply Z.ltb_lt in E. by eexists ev, t, _.
  - destruct (IH (acc ++ [ev])) as (x & y & E1 & E2 & E3 & E4). exists (ev :: x), y. split; [cbn; by f_equal|].
    split; [by rewrite E2, <- app_assoc|]. split; [|done]. constructor; [|done]. intros t Ht. rewrite Ht in E. cbn in E. lia.
Qed.

(** The tail of one file. *)
Lemma file_tail bytes stop :
  let '(buf, reached) := read_log_tail (Some (fun _ => true)) bytes stop in
  exists older, file_events bytes = older ++ buf /\
    (if reached then exists older' e t, older = older' ++ [e] /\ Logged.time_of e = Some t /\ t < stop else older = []).
Proof.
  unfold read_log_tail. rewrite chunked_tail_is_the_line_scan.
  destruct (scan_lines_spec stop (rev (split_lines bytes)) []) as (x & y & E1 & E2 & _ & E4).
  destruct (scan_lines _ _ _) as [acc reached]. cbn in E2, E4. subst acc. exists (rev y). split.
  - unfold file_events. rewrite <- rev_app_distr, <- E1. clear. induction (split_lines bytes) as [|l ls IH]; [done|].
    cbn [rev]. rewrite omap_app, rev_app_distr, <- IH. cbn. by destruct (line_event l).
  - destruct reached; [|by subst]. destruct E4 as (e & t & y' & -> & Ht & Hlt). by exists (rev y'), e, t.
Qed.

Definition all_readable (reads : string -> option (Z -> bool)) : Prop := forall name, reads name = Some (fun _ => true).

(** The tail of the files of a list, newest first. *)
Lemma read_back_tail reads disk stop newest_first : all_readable reads ->
  exists older, flat_map (fun name => file_events (unwrap_or (disk !! name) [])) (rev newest_first)
    = older ++ read_back reads disk stop newest_first /\
    (older = [] \/ exists older' e t, older = older' ++ [e] /\ Logged.time_of e = Some t /\ t < stop).
Proof.
  intros Hr. induction newest_first as [|name l IH]; cbn [rev read_back]; [by exists []; split; [|left]|].
  rewrite flat_map_app. cbn [flat_map]. rewrite app_nil_r, Hr.
  pose proof (file_tail (unwrap_or (disk !! name) []) stop) as F.
  destruct (read_log_tail _ _ stop) as [buf reached]. destruct F as (o & E & Ho). rewrite E. destruct reached.
  - destruct Ho as (o' & e & t & -> & Ht & Hlt). eexists. split; [by rewrite app_assoc|]. right.
    eexists _, e, t. split; [by rewrite app_assoc|done].
  - subst o. destruct IH as (older & E' & Ho). exists older. cbn [app]. by rewrite E', <- app_assoc.
Qed.

(** Filtering after a stable sort. *)
Lemma filter_insert_le {A} (le : A -> A -> bool) (P : A -> bool) x l :
  (forall a b, le a b = true \/ le b a = true) -> (forall a b c, le a b = true -> le b c = true -> le a c = true) ->
  StronglySorted (fun a b => le a b = true) l ->
  List.filter P (insert_le le x l) = if P x then insert_le le x (List.filter P l) else List.filter P l.
Proof.
  intros Ht Htr S. induction S as [|y l S IH HF]; cbn; [done|]. destruct (le y x) eqn:E; cbn.
  - rewrite IH. destruct (P y), (P x) eqn:Px; cbn; try done. by rewrite E.
  - destruct (P x) eqn:Px, (P y) eqn:Py; cbn; rewrite ?Py; try done; [by rewrite E|].
    assert (G : Forall (fun z => le z x = false) (List.filter P l)).
    { apply Forall_forall. intros z Hz%list_elem_of_In%List.filter_In. destruct Hz as [Hz%list_elem_of_In _].
      rewrite Forall_forall in HF. destruct (le z x) eqn:Z; [|done]. specialize (HF z Hz).
      rewrite (Htr _ _ _ HF Z) in E. done. }
    destruct (List.filter P l) as [|z l']; [done|]. apply Forall_cons in G as [G _]. cbn. by rewrite G.
Qed.

Lemma filter_sort_by {A} (le : A -> A -> bool) (P : A -> bool) l :
  (forall a b, le a b = true \/ le b a = true) -> (forall a b c, le a b = true -> le b c = true -> le a c = true) ->
  List.filter P (sort_by le l) = sort_by le (List.filter P l).
Proof.
  intros Ht Htr. unfold sort_by. cut (forall acc, StronglySorted (fun a b => le a b = true) acc ->
    List.filter P (foldl (fun acc x => insert_le le x acc) acc l)
    = foldl (fun acc x => insert_le le x acc) (List.filter P acc) (List.filter P l)); [intros G; apply (G []); constructor|].
  induction l as [|x l IH]; intros acc S; cbn; [done|]. rewrite IH by by apply insert_le_sorted.
  rewrite (filter_insert_le le P x acc) by done. by destruct (P x).
Qed.
(** The files recovery looks at are the last ones of the log. *)
Lemma recent_files entries stop : exists i,
  recent_log_files (Some entries) stop = (drop i (log_files entries)).*2 /\
  (forall f, f ∈ take i (log_files entries) -> lf_date f.1 < utc_day stop).
Proof.
  set (recent := fun f : LogFileName * string => utc_day stop <=? lf_date f.1).
  assert (E : omap (fun name => parsed ← parse_log_file_name name;
      if utc_day stop <=? lf_date parsed then Some (parsed, name) else None) entries =
    List.filter recent (omap (fun name => parsed ← parse_log_file_name name; Some (parsed, name)) entries)).
  { induction entries as [|n l IH]; [done|]. csimpl. destruct (parse_log_file_name n) as [p|]; cbn; [|done].
    change (recent (p, n)) with (utc_day stop <=? lf_date p). destruct (utc_day stop <=? lf_date p); [|exact IH]. f_equal. exact IH. }
  unfold recent_log_files. rewrite E, <- filter_sort_by.
  2: { intros. unfold named_le. apply name_le_total. }
  2: { intros ? ? ?. unfold named_le. apply name_le_trans. }
  fold (log_files entries). assert (S : StronglySorted (fun a b => named_le a b = true) (log_files entries)).
  { apply sort_by_sorted; unfold named_le; intros; [apply name_le_total|by eapply name_le_trans]. }
  clear E. induction S as [|f l S (i & IH1 & IH2) HF]; [by exists 0%nat; split; [|intros ? Hf; apply not_elem_of_nil in Hf]|].
  cbn. destruct (recent f) eqn:E.
  - exists 0%nat. split; [|by intros ? Hf%not_elem_of_nil]. cbn. f_equal.
    assert (G : Forall (fun g => recent g = true) l).
    { eapply Forall_impl; [exact HF|]. cbn. unfold recent, named_le, name_le in *. intros g. bool_to_prop. lia. }
    clear -G. induction G as [|g l Hg G IH]; cbn; [done|]. rewrite Hg. cbn. by f_equal.
  - exists (Datatypes.S i). split; [exact IH1|]. intros g [->|Hg]%elem_of_cons; [|by apply IH2]. unfold recent in E. lia.
Qed.

Definition file_of (disk : Disk) (name : string) : list Logged.t := file_events (unwrap_or (disk !! name) []).

Lemma file_in_log disk entries f e : f ∈ log_files entries -> e ∈ file_of disk f.2 -> e ∈ log_events disk entries.
Proof.
  intros Hf He. unfold log_events. apply list_elem_of_In, in_flat_map. exists f. by split; apply list_elem_of_In.
Qed.

(** What recovery reads is a tail of the log. *)
Lemma recovery_reads_a_tail disk entries reads stop : all_readable reads ->
  exists i older, log_events disk entries =
      flat_map (fun f => file_of disk f.2) (take i (log_files entries)) ++ older ++
      read_back reads disk stop (rev (recent_log_files (Some entries) stop)) /\
    (forall f, f ∈ take i (log_files entries) -> lf_date f.1 < utc_day stop) /\
    (older = [] \/ exists older' e t, older = older' ++ [e] /\ Logged.time_of e = Some t /\ t < stop).
Proof.
  intros Hr. destruct (recent_files entries stop) as (i & -> & Hd).
  destruct (read_back_tail reads disk stop (rev (drop i (log_files entries)).*2) Hr) as (older & E & Ho).
  rewrite rev_involutive in E. exists i, older. rewrite <- E. split; [|by split].
  unfold log_events. rewrite <- (take_drop i (log_files entries)) at 1. rewrite flat_map_app. f_equal.
  generalize (drop i (log_files entries)). intros l. induction l as [|f l IH]; [done|]. csimpl. by rewrite IH.
Qed.

(** Every event recovery replays was logged, before any fill was seen of its coin: after it
    the log shows no fill of the coin and no failed entry, and the coin was not held. *)
Theorem no_filled_coin_is_rearmed {TagDoc} disk entries reads max_age now held (e : Event TagDoc) :
  all_readable reads -> e ∈ recover_armed (Some entries) reads disk max_age now held ->
  exists l1 le l2, log_events disk entries = l1 ++ le :: l2 /\ e = Logged.into_event le /\ Logged.is_pre_entry le = true /\
    forall mint, Logged.mint_of le = Some mint -> mint ∉ held /\ forall f, f ∈ l2 -> settled_by f <> Some mint.
Proof.
  intros Hr He. unfold recover_armed in He.
  set (stop := now - dur_seconds max_age - dur_seconds RECOVERY_SCAN_MARGIN_SECS) in *.
  destruct (recovery_reads_a_tail disk entries reads stop Hr) as (i & older & -> & _).
  set (read := read_back reads disk stop (rev (recent_log_files (Some entries) stop))) in *.
  apply list_elem_of_fmap in He as (le & -> & [Hin Hre]%list_elem_of_In%List.filter_In).
  apply list_elem_of_In, list_elem_of_split in Hin as (l1 & l2 & E). rewrite E, !app_assoc.
  eexists _, le, l2. split; [done|]. split; [done|].
  unfold rearms in Hre. apply andb_true_iff in Hre as [[Hp _]%andb_true_iff Hs]. split; [done|].
  intros mint Hm. rewrite Hm in Hs. apply negb_true_iff in Hs. cbv beta iota delta [is_some_and] in Hs.
  assert (Hn : mint ∉ held ++ omap settled_by read) by (intros Hx%contains_spec; congruence).
  apply not_elem_of_app in Hn as [Hh Hn]. split; [done|]. intros f Hf Hfm. apply Hn, list_elem_of_omap. exists f.
  split; [|done]. rewrite E. apply elem_of_app. right. by right.
Qed.

(** Event times run back by no more than the margin, and no event is dated after the day of its
    file. *)
Definition nearly_ordered (log : list Logged.t) : Prop :=
  forall l1 l2 a b ta tb, log = l1 ++ l2 -> a ∈ l1 -> b ∈ l2 -> Logged.time_of a = Some ta -> Logged.time_of b = Some tb ->
  ta - dur_seconds RECOVERY_SCAN_MARGIN_SECS <= tb.

Definition dated_by_name (disk : Disk) (entries : list string) : Prop :=
  forall f e t, f ∈ log_files entries -> e ∈ file_of disk f.2 -> Logged.time_of e = Some t -> utc_day t <= lf_date f.1.

Lemma old_events_do_not_rearm cutoff settled l : (forall e t, e ∈ l -> Logged.time_of e = Some t -> t < cutoff) ->
  List.filter (rearms cutoff settled) l = [].
Proof.
  induction l as [|e l IH]; intros Hl; [done|]. cbn [List.filter]. rewrite IH by (intros e' t Hin; apply Hl; by right).
  unfold rearms. destruct (Logged.is_pre_entry e) eqn:P; [|done].
  assert (exists t, Logged.time_of e = Some t) as [t Ht] by (destruct e; try done; by eexists).
  rewrite Ht. cbn. pose proof (Hl e t ltac:(left) Ht). by replace (t <? cutoff) with true by lia.
Qed.

(** What a reading of a log asks for: its recent pre-entry events of coins that are not held
    and that no fill or failed entry of the log names. *)
Definition asked_for (cutoff : Ts) (held : list Mint) (log : list Logged.t) : list Logged.t :=
  List.filter (rearms cutoff (held ++ omap settled_by log)) log.

Definition settled_in (log : list Logged.t) (e : Logged.t) : bool :=
  is_some_and (Logged.mint_of e) (contains (omap settled_by log)).

Lemma contains_app {A} `{EqDecision A} (a b : list A) x : contains (a ++ b) x = contains a x || contains b x.
Proof. apply existsb_app. Qed.

Lemma filter_twice {A} (P Q : A -> bool) l : List.filter P (List.filter Q l) = List.filter (fun x => P x && Q x) l.
Proof. induction l as [|x l IH]; cbn; [done|]. destruct (Q x); cbn; destruct (P x); cbn; by rewrite IH. Qed.

Lemma rearms_app cutoff held a b e :
  rearms cutoff (held ++ omap settled_by (a ++ b)) e = negb (settled_in a e) && rearms cutoff (held ++ omap settled_by b) e.
Proof.
  unfold rearms, settled_in. rewrite omap_app. destruct (Logged.mint_of e) as [m|]; cbn; [|done].
  rewrite !contains_app. destruct (contains held m), (contains (omap settled_by a) m), (contains (omap settled_by b) m),
    (Logged.is_pre_entry e), (is_some_and _ _); reflexivity.
Qed.

(** C36: Where every file can be read, event times run back by no more than the margin and no
    event is later than the day of its file: though it reads back only to the first event past
    the margin, recovery replays, in order, every event a reading of the whole log asks for.
    What it replays beyond that are only events of coins whose fills all lie in the part it
    never read, which is older than the re-arm age. *)
Theorem recovery_misses_nothing {TagDoc} disk entries reads max_age now held :
  let log := log_events disk entries in
  all_readable reads -> nearly_ordered log -> dated_by_name disk entries ->
  let cutoff := now - dur_seconds max_age in
  exists older read replayed, log = older ++ read /\
    (forall e t, e ∈ older -> Logged.time_of e = Some t -> t < cutoff) /\
    recover_armed (TagDoc := TagDoc) (Some entries) reads disk max_age now held = Logged.into_event <$> replayed /\
    List.filter (fun e => negb (settled_in older e)) replayed = asked_for cutoff held log /\
    (forall e, e ∈ replayed -> e ∉ asked_for cutoff held log -> settled_in older e = true /\ settled_in read e = false).
Proof.
  intros log Hr Hord Hdat cutoff. unfold log in *. clear log. unfold recover_armed. fold cutoff.
  set (stop := cutoff - dur_seconds RECOVERY_SCAN_MARGIN_SECS).
  destruct (recovery_reads_a_tail disk entries reads stop Hr) as (i & older & E & Hd & Ho).
  set (read := read_back reads disk stop (rev (recent_log_files (Some entries) stop))) in *.
  set (dropped := flat_map (fun f => file_of disk f.2) (take i (log_files entries))) in *.
  assert (Hm : 0 < dur_seconds RECOVERY_SCAN_MARGIN_SECS) by done.
  assert (Hold : forall e t, e ∈ dropped ++ older -> Logged.time_of e = Some t -> t < cutoff).
  { intros e t [Hin|Hin]%elem_of_app Ht.
    - apply list_elem_of_In, in_flat_map in Hin as (f & Hf%list_elem_of_In & Hin%list_elem_of_In).
      pose proof (Hd f Hf) as L. assert (Hf' : f ∈ log_files entries) by (rewrite <- (take_drop i (log_files entries)); apply elem_of_app; by left).
      pose proof (Hdat f e t Hf' Hin Ht) as U. unfold utc_day in *.
      assert (t < stop); [|unfold stop in *; lia]. apply Z.nle_gt. intros Hle.
      pose proof (Z.div_le_mono stop t ns_per_day ltac:(done) Hle). lia.
    - destruct Ho as [->|(older' & e' & t' & -> & Ht' & Hlt)]; [by apply not_elem_of_nil in Hin|].
      apply elem_of_app in Hin as [Hin| ->%list_elem_of_singleton]; [|rewrite Ht in Ht'; injection Ht' as ->; unfold stop in *; lia].
      assert (t - dur_seconds RECOVERY_SCAN_MARGIN_SECS <= t'); [|unfold stop in *; lia].
      apply (Hord (dropped ++ older') (e' :: read) e e' t t'); [|apply elem_of_app; by right|left|done|done].
      by rewrite E, <- !app_assoc. }
  exists (dropped ++ older), read, (asked_for cutoff held read). rewrite E, app_assoc.
  split; [done|]. split; [exact Hold|]. split; [done|].
  assert (Hask : List.filter (fun e => negb (settled_in (dropped ++ older) e)) (asked_for cutoff held read)
    = asked_for cutoff held ((dropped ++ older) ++ read)).
  { unfold asked_for. rewrite List.filter_app, (old_events_do_not_rearm cutoff _ (dropped ++ older) Hold). cbn [app].
    generalize (dropped ++ older). intros l. rewrite filter_twice. apply List.filter_ext. intros e. symmetry. apply rearms_app. }
  split; [exact Hask|]. intros e He Hno. rewrite <- Hask in Hno. apply list_elem_of_In in He. split.
  - apply not_false_is_true. intros Hs. apply Hno, list_elem_of_In, filter_In. by rewrite Hs.
  - apply filter_In in He as [_ He]. unfold rearms in He. apply andb_true_iff in He as [_ He]. unfold settled_in.
    destruct (Logged.mint_of e) as [m|]; [|done]. unfold is_some_and in *.
    apply negb_true_iff in He. rewrite contains_app in He. by apply orb_false_iff in He as [_ ?].
Qed.
End recovery.

(** ** A small directory *)

Module LogDemo.
#[local] Instance dates : LogDates := {|
  date_show d := pretty (d + 719528);
  date_read s := (fun v => v - 719528) <$> parse_uint 3652424 s |}.

#[local] Instance dates_laws : LogDatesLaws.
Proof.
  split; unfold plain_date; intros d Hd; cbn [date_show date_read dates].
  - rewrite parse_uint_pretty by lia. cbn. f_equal. lia.
  - intros Hin. pose proof (pretty_digits (d + 719528) ltac:(lia)) as F. rewrite Forall_forall in F. by apply F in Hin.
Qed.

#[local] Instance codec : LogCodec := {|
  line_of e :=
    match e with
    | Logged.Migrated mint _ =>
        if bool_decide (newline ∉ chars mint) && negb (blank (chars mint)) then Some (chars mint) else None
    | _ => None
    end;
  event_of line := if forallb (fun c => Ascii.eqb c "m" || is_digit c) line
    then Some (Logged.Migrated (String.string_of_list_ascii line) 0) else None |}.

#[local] Instance codec_laws : LogCodecLaws.
Proof.
  split; intros [] line; cbn; try done; case_match; intros [= <-];
    match goal with E : _ && _ = true |- _ => apply andb_true_iff in E as [E1%bool_decide_eq_true E2%negb_true_iff] end; done.
Qed.

Definition honest : World :=
  {| read_dir disk := Some (map_to_list disk).*1; can_open _ := true; can_remove _ := true; writes bytes := (bytes, []) |}.

Lemma honest_ok : world_ok honest.
Proof. split; try done. intros disk. eexists. split; [done|]. by unfold lists. Qed.

(** Two bytes of lines a segment, six a directory. *)
Definition limits : Limits := {| retention_days := 7; max_total_bytes := 6; segment_bytes := 2 |}.

Definition put (day : Date) (mint : string) : WriterEvent := Record_ honest day (Logged.Migrated mint 0).

Definition run : list WriterEvent := [put 0 "m1"; put 0 "m2"; Restart; put 0 "m3"; put 1 "m4"].

Definition final : Writer := foldl (writer_event limits) (start ∅) run.

Lemma run_is_ok : run_ok 3 0 run.
Proof. repeat split; first [exact (lists_all _ honest_ok)|vm_compute; discriminate]. Qed.

Lemma the_log_is_a_tail_witness :
  exists gone, recorded run = gone ++ log_events (w_disk final) (map_to_list (w_disk final)).*1 /\
    (spent run <= 6 -> last_day 0 run - 0 <= 7 -> gone = []).
Proof. apply (the_log_is_a_tail limits 3 0 run ∅); [done|exact run_is_ok|vm_compute; discriminate..|by unfold lists]. Defined.

Lemma the_log_keeps_its_budget_witness :
  log_bytes (w_disk final) <= 6 + 2 + (1 + 1) * 3.
Proof. apply (the_log_keeps_its_budget limits 3 0 run ∅); [done|exact run_is_ok|vm_compute; discriminate..]. Defined.

(** After a restart the writer resumes a segment that is full and rolls only on the line
    after; here the second segment ends with twice its size. *)
Lemma a_full_segment_is_resumed :
  log_events (w_disk final) (map_to_list (w_disk final)).*1 =
    [Logged.Migrated "m2" 0; Logged.Migrated "m3" 0; Logged.Migrated "m4" 0] /\
  len <$> w_disk final !! log_file_name 0 1 = Some (3 * segment_bytes limits).
Proof. by vm_compute. Qed.

Definition names : list string := (map_to_list (w_disk final)).*1.
Definition reads (name : string) : option (Z -> bool) := Some (fun _ => true).
Definition now : Ts := dur_seconds 10.

Lemma pruning_spares_the_open_segment_witness :
  prune honest limits 9 (log_file_name 0 1) (w_disk final) !! log_file_name 0 1 = w_disk final !! log_file_name 0 1.
Proof. apply pruning_spares_the_open_segment. by left. Defined.

Lemma no_filled_coin_is_rearmed_witness :
  exists l1 le l2, log_events (w_disk final) names = l1 ++ le :: l2 /\
    Events.Migrated "m4" 0 = Logged.into_event (TagDoc := unit) le /\ Logged.is_pre_entry le = true /\
    forall mint, Logged.mint_of le = Some mint -> mint ∉ ["m2"%string] /\ forall f, f ∈ l2 -> settled_by f <> Some mint.
Proof.
  apply (no_filled_coin_is_rearmed (w_disk final) names reads 30 now ["m2"%string]); [done|].
  vm_compute. right. left.
Defined.

Lemma all_at_zero e : e ∈ log_events (w_disk final) names -> Logged.time_of e = Some 0.
Proof.
  assert (F : Forall (fun e => Logged.time_of e = Some 0) (log_events (w_disk final) names)) by (vm_compute; by repeat constructor).
  rewrite Forall_forall in F. apply F.
Qed.

Lemma demo_ordered : nearly_ordered (log_events (w_disk final) names).
Proof.
  intros l1 l2 a b ta tb E Ha Hb Hta Htb. assert (Ga : a ∈ log_events (w_disk final) names) by (rewrite E; apply elem_of_app; by left).
  assert (Gb : b ∈ log_events (w_disk final) names) by (rewrite E; apply elem_of_app; by right).
  apply all_at_zero in Ga, Gb. rewrite Ga in Hta. rewrite Gb in Htb. injection Hta as <-. injection Htb as <-. done.
Qed.

Lemma demo_dated : dated_by_name (w_disk final) names.
Proof.
  intros f e t Hf He Ht. pose proof (file_in_log _ _ _ _ Hf He) as G.
  apply all_at_zero in G. rewrite G in Ht. injection Ht as <-.
  assert (F : Forall (fun f => 0 <= lf_date f.1) (log_files names)) by (vm_compute; repeat constructor; discriminate).
  rewrite Forall_forall in F. by apply F.
Qed.

Lemma recovery_misses_nothing_witness :
  let cutoff := now - dur_seconds 30 in let log := log_events (w_disk final) names in
  exists older read replayed, log = older ++ read /\
    (forall e t, e ∈ older -> Logged.time_of e = Some t -> t < cutoff) /\
    recover_armed (TagDoc := unit) (Some names) reads (w_disk final) 30 now ["m2"%string] = Logged.into_event <$> replayed /\
    List.filter (fun e => negb (settled_in older e)) replayed = asked_for cutoff ["m2"%string] log /\
    (forall e, e ∈ replayed -> e ∉ asked_for cutoff ["m2"%string] log -> settled_in older e = true /\ settled_in read e = false).
Proof. apply recovery_misses_nothing; [done|exact demo_ordered|exact demo_dated]. Defined.
End LogDemo.
