(* ===== verification/LogReplay.v ===== *)
(** * LogReplay: the log through the engine again

    The two readers of the log that run the fold: boot recovery
    ([live/strategies/engine/decision_loop.rs], [boot_recover]) hands the recovered events to
    an observing engine; the inspector ([lab/strategies/replay_inspect.rs]) folds a whole log
    with synthetic ticks in between and keeps the steps its filter passes.  What a step keeps
    of an event is the event itself (the source keeps its JSON).  The theorems: recovery takes
    no position and sends nothing, and an inspection is one replay of the log and of grid
    ticks, each before the event it precedes, none dropped while a coin is tracked. *)

From S2P Require Export EventLogProps Reduce.
From S2P Require Import Float64 SweepProps Track Scenario Grid.

Section replay.
Context `{TrackOps}.

(** ** Boot recovery *)

Definition boot_recover (st : EngineState) (events : list (Event TagDoc)) : EngineState := foldl observe st events.

(** ** The inspector *)

Definition TICK : Duration := dur_milliseconds TICK_MS.

Record InspectConfig := {
  ic_mint : option Mint;
  ic_since : option Ts;
  ic_until : option Ts;
  ic_synthetic_ticks : bool;
  ic_max_steps : nat;
  ic_own_wallets : gset Z;
}.

(** What a step keeps of an effect. *)
Inductive InspectEffect :=
  | InSubmitBuy (intent : IntentId) (rule : RuleId) (mint : Mint) (lamports : Z)
  | InSubmitSell (intent : IntentId) (position : PositionId) (reason : ExitReason) (portion : Portion)
  | InPositionUpdate (position : PositionId) (rule : RuleId) (mint : Mint) (status : PositionStatus) (fill : option Fill)
      (reason : option ExitReason) (intent : option IntentId) (stage : option Z) (stage_since : option Ts)
  | InArmedChanged (mint : Mint) (rule : RuleId) (state : ArmedStateTag)
  | InStageMoved (position : PositionId) (rule : RuleId) (mint : Mint) (stage : Z) (since : Ts).

Definition inspect_effect (fx : Effect) : InspectEffect :=
  match fx with
  | SubmitBuy intent rule mint lamports => InSubmitBuy intent rule mint lamports
  | SubmitSell intent position reason portion => InSubmitSell intent position reason portion
  | PositionUpdate d =>
      InPositionUpdate (pd_position d) (pd_rule d) (pd_mint d) (pd_status d) (pd_fill d) (pd_reason d) (pd_intent d)
        (pd_stage d) (pd_stage_since d)
  | ArmedChanged d => InArmedChanged (ar_mint d) (ar_rule d) (ar_state d)
  | StageMoved m => InStageMoved (sm_position m) (sm_rule m) (sm_mint m) (sm_stage m) (sm_since m)
  end.

(** The input of a step: a logged event or a synthetic tick. *)
Inductive StepInput := InLogged (e : Logged.t) | InTick (now : Ts).

Record InspectStep := { is_seq : Z; is_at : option Ts; is_event : StepInput; is_effects : list InspectEffect }.

Record Inspector := {
  in_state : EngineState;
  in_steps : list InspectStep;
  in_seq : Z;
  in_logged : Z;
  in_ticks : Z;
  in_next_tick : option Ts;
  in_truncated : bool;
}.

Definition inspector_new (rules : list LoadedRule) (fps : list (Fingerprint TagDoc)) (cfg : InspectConfig) : Inspector := {|
  in_state := (reduce EngineState_new (RulesReloaded rules fps (ic_own_wallets cfg))).1;
  in_steps := []; in_seq := 0; in_logged := 0; in_ticks := 0; in_next_tick := None; in_truncated := false |}.

Definition effect_touches_mint (fx : Effect) (mint : Mint) : bool :=
  match fx with
  | SubmitBuy _ _ m _ => bool_decide (m = mint)
  | SubmitSell intent _ _ _ => bool_decide (i_mint intent = mint)
  | PositionUpdate d => bool_decide (pd_mint d = mint)
  | ArmedChanged d => bool_decide (ar_mint d = mint)
  | StageMoved m => bool_decide (sm_mint m = mint)
  end.

Definition logged_touches_mint (le : Logged.t) (mint : Mint) : bool :=
  if bool_decide (Logged.mint_of le = Some mint) then true
  else match le with
       | Logged.FillConfirmed intent _ | Logged.FillFailed intent _ _ => bool_decide (i_mint intent = mint)
       | _ => false
       end.

Definition is_tick_input (v : StepInput) : bool := match v with InTick _ => true | _ => false end.

Definition set_in_fold (s : Inspector) (st : EngineState) (logged ticks : Z) : Inspector := {|
  in_state := st; in_steps := in_steps s; in_seq := in_seq s; in_logged := logged; in_ticks := ticks;
  in_next_tick := in_next_tick s; in_truncated := in_truncated s |}.

Definition set_in_steps (s : Inspector) (steps : list InspectStep) (seq : Z) (truncated : bool) : Inspector := {|
  in_state := in_state s; in_steps := steps; in_seq := seq; in_logged := in_logged s; in_ticks := in_ticks s;
  in_next_tick := in_next_tick s; in_truncated := truncated |}.

Definition set_in_next_tick (s : Inspector) (next : option Ts) : Inspector := {|
  in_state := in_state s; in_steps := in_steps s; in_seq := in_seq s; in_logged := in_logged s; in_ticks := in_ticks s;
  in_next_tick := next; in_truncated := in_truncated s |}.

Definition record_step (cfg : InspectConfig) (s : Inspector) (at_ : option Ts) (value : StepInput) (effects : list Effect)
    : Inspector :=
  if is_some_and (ic_mint cfg) (fun mint => is_tick_input value && negb (existsb (fun fx => effect_touches_mint fx mint) effects))
  then s
  else if is_some_and at_ (fun a => is_some_and (ic_since cfg) (fun s => a <? s) || is_some_and (ic_until cfg) (fun u => u <? a))
  then s
  else if (ic_max_steps cfg <=? length (in_steps s))%nat then set_in_steps s (in_steps s) (in_seq s) true
  else set_in_steps s (in_steps s ++ [{| is_seq := in_seq s; is_at := at_; is_event := value; is_effects := inspect_effect <$> effects |}])
         (in_seq s + 1) (in_truncated s).

Definition record_filtered (cfg : InspectConfig) (s : Inspector) (at_ : option Ts) (value : StepInput) (effects : list Effect)
    (input_touches : option bool) : Inspector :=
  match input_touches with
  | Some touches =>
      let mint := unwrap_or (ic_mint cfg) "" in
      if negb touches && negb (existsb (fun fx => effect_touches_mint fx mint) effects) then s
      else record_step cfg s at_ value effects
  | None => record_step cfg s at_ value effects
  end.

Definition fold_logged (cfg : InspectConfig) (s : Inspector) (le : Logged.t) (at_ : option Ts) : Inspector :=
  let input_touches := (fun m => logged_touches_mint le m) <$> ic_mint cfg in
  let '(st, effects) := reduce (in_state s) (Logged.into_event le) in
  record_filtered cfg (set_in_fold s st (in_logged s + 1) (in_ticks s)) at_ (InLogged le) effects input_touches.

(** One synthetic tick. *)
Definition fold_tick (cfg : InspectConfig) (s : Inspector) (now : Ts) : Inspector :=
  let '(st, effects) := reduce (in_state s) (Tick now) in
  record_step cfg (set_in_fold s st (in_logged s) (in_ticks s + 1)) (Some now) (InTick now) effects.

(** [as i32] of the number of ticks a jump skips. *)
Definition as_i32 (n : Z) : Z := wrap_u 32 (n + 2 ^ 31) - 2 ^ 31.

(** The loop of [emit_ticks_until]; [fuel] bounds the ticks of the gap. *)
Fixpoint tick_gap (fuel : nat) (cfg : InspectConfig) (s : Inspector) (nt until : Ts) : Inspector * Ts :=
  if (nt <? until) && negb (in_truncated s) then
    if bool_decide (es_tokens (in_state s) = ∅) then
      let gap_ms := num_milliseconds (until - nt) in
      let steps := Z.quot gap_ms (num_milliseconds TICK) + 1 in
      (s, nt + TICK * as_i32 steps)
    else match fuel with
         | O => (s, nt)
         | S fuel => tick_gap fuel cfg (fold_tick cfg s nt) (nt + TICK) until
         end
  else (s, nt).

(** How many ticks fit before an instant. *)
Definition gap_ticks (nt until : Ts) : nat := Z.to_nat ((until - nt) / TICK + 1).

Definition emit_ticks_until (cfg : InspectConfig) (s : Inspector) (until : Ts) : Inspector :=
  match in_next_tick s with
  | None => s
  | Some nt => let '(s, nt) := tick_gap (gap_ticks nt until) cfg s nt until in set_in_next_tick s (Some nt)
  end.

(** The grid after an event at [a]. *)
Definition realign (next : option Ts) (a : Ts) : option Ts :=
  match next with
  | None => Some (a + TICK)
  | Some nt =>
      if nt <=? a then
        let behind := Z.quot (num_milliseconds (a - nt)) (num_milliseconds TICK) + 1 in
        Some (nt + TICK * as_i32 behind)
      else Some nt
  end.

Definition inspect_one (cfg : InspectConfig) (s : Inspector) (le : Logged.t) : Inspector :=
  if in_truncated s then s
  else
    let at_ := Logged.time_of le in
    let s := match at_ with Some target => if ic_synthetic_ticks cfg then emit_ticks_until cfg s target else s | None => s end in
    let s := fold_logged cfg s le at_ in
    match at_ with Some a => set_in_next_tick s (realign (in_next_tick s) a) | None => s end.

Definition inspector_run (cfg : InspectConfig) (s : Inspector) (events : list Logged.t) : Inspector :=
  foldl (inspect_one cfg) s events.

Definition inspect (rules : list LoadedRule) (fps : list (Fingerprint TagDoc)) (events : list Logged.t)
    (cfg : InspectConfig) : Inspector :=
  inspector_run cfg (inspector_new rules fps cfg) events.

(** ** Recovery only re-arms *)

Lemma observe_keeps st (e : Event TagDoc) : market_event e = true ->
  es_positions (observe st e) = es_positions st /\ es_manual_rules (observe st e) = es_manual_rules st /\
  es_intent_seq (observe st e) = es_intent_seq st /\ es_position_seq (observe st e) = es_position_seq st /\
  es_counters (observe st e) = es_counters st /\
  reports (reduce (set_es_observing st true) e).2 = [].
Proof.
  intros He. unfold observe. destruct (observing_sends_nothing (set_es_observing st true) e He eq_refl) as (Q0 & Q1 & Q2 & Q3 & Q4 & Q5).
  by cbn in *.
Qed.

Lemma pre_entry_is_market (le : Logged.t) : Logged.is_pre_entry le = true -> market_event (Logged.into_event (TagDoc := TagDoc) le) = true.
Proof. by destruct le. Qed.

(** C37: Replaying what recovery returns at boot takes no position: the open positions, the
    one-off exits, the caps and the order and position numbers are those before, and no order
    comes out of any event. *)
Theorem boot_recovery_only_rearms `{LogDates, LogCodec} st entries reads disk max_age now held :
  let events := recover_armed (TagDoc := TagDoc) entries reads disk max_age now held in
  let st' := boot_recover st events in
  es_positions st' = es_positions st /\ es_manual_rules st' = es_manual_rules st /\
  es_intent_seq st' = es_intent_seq st /\ es_position_seq st' = es_position_seq st /\ es_counters st' = es_counters st /\
  forall pre e post, events = pre ++ e :: post ->
    reports (reduce (set_es_observing (boot_recover st pre) true) e).2 = [].
Proof.
  intros events st'. assert (Hm : Forall (fun e => market_event e = true) events).
  { apply Forall_forall. intros e (le & -> & Hin)%list_elem_of_fmap.
    apply list_elem_of_In, List.filter_In in Hin as [_ Hre]. apply pre_entry_is_market.
    unfold rearms in Hre. apply andb_true_iff in Hre as [[? _]%andb_true_iff _]. done. }
  clearbody events. subst st'. unfold boot_recover. revert st. induction Hm as [|e l He Hm IH]; intros st; cbn [foldl].
  { split_and!; try done. intros [|] ? ? ?; done. }
  destruct (observe_keeps st e He) as (<- & <- & <- & <- & <- & Hr).
  destruct (IH (observe st e)) as (-> & -> & -> & -> & -> & IHr). split_and!; try done.
  intros [|x pre] e' post E; cbn in E; injection E as -> E; [done|]. cbn [foldl]. by apply (IHr pre e' post).
Qed.

(** ** The ticks of a gap *)

Definition grid (nt : Ts) (n : nat) : list Ts := (fun k => nt + TICK * Z.of_nat k) <$> seq 0 n.

Lemma tick_positive : 0 < TICK.
Proof. done. Qed.

Lemma grid_succ nt n : grid nt (S n) = nt :: grid (nt + TICK) n.
Proof.
  unfold grid. cbn [seq fmap list_fmap]. f_equal; [lia|]. rewrite <- seq_shift, <- list_fmap_compose.
  apply list_fmap_ext. intros _ k _. cbn [compose]. lia.
Qed.

(** Whole ticks between two instants, counted in milliseconds as the source does. *)
Lemma ticks_between nt until : nt <= until ->
  Z.quot (num_milliseconds (until - nt)) (num_milliseconds TICK) = (until - nt) / TICK.
Proof.
  intros Hle. unfold num_milliseconds. change (Z.quot TICK ns_per_ms) with 200.
  rewrite !Z.quot_div_nonneg by (first [lia|done|apply Z.quot_pos; [lia|done]]).
  rewrite Z.div_div by done. done.
Qed.

Lemma as_i32_small n : 0 <= n < 2 ^ 31 -> as_i32 n = n.
Proof. intros Hn. unfold as_i32. rewrite wrap_u_small by lia. lia. Qed.

(** In the gap before an event the inspector folds the ticks of the grid in order, until the
    event, the first instant without a coin or the end of its steps; it never runs out of fuel,
    and the next tick it notes is the first of the grid not before the event, or the one after
    an event that falls on the grid. *)
Theorem a_gap_is_ticked_on_the_grid cfg s nt until : (until - nt) / TICK + 1 < 2 ^ 31 ->
  let '(s', nt') := tick_gap (gap_ticks nt until) cfg s nt until in
  exists n, s' = foldl (fold_tick cfg) s (grid nt n) /\ (forall t, t ∈ grid nt n -> t < until) /\
    (in_truncated s' = true /\ nt' = nt + TICK * Z.of_nat n \/
     until <= nt' /\ nt' = nt + TICK * Z.of_nat n \/
     es_tokens (in_state s') = ∅ /\ until < nt' <= until + TICK /\ (TICK | nt' - nt)).
Proof.
  intros Hbig. unfold gap_ticks. pose proof tick_positive as HT.
  assert (Hfuel : until - nt <= TICK * Z.of_nat (Z.to_nat ((until - nt) / TICK + 1))).
  { pose proof (Z.div_mod (until - nt) TICK ltac:(lia)). pose proof (Z.mod_pos_bound (until - nt) TICK HT). nia. }
  revert Hfuel. generalize (Z.to_nat ((until - nt) / TICK + 1)). intros fuel. revert s nt Hbig.
  induction fuel as [|fuel IH]; intros s nt Hbig Hfuel; cbn [tick_gap].
  - replace (nt <? until) with false by lia. cbn. exists 0%nat. split; [done|]. split; [by intros t ?%not_elem_of_nil|]. right. left. lia.
  - destruct (nt <? until) eqn:E; cbn [andb].
    2: { exists 0%nat. split; [done|]. split; [by intros t ?%not_elem_of_nil|]. right. left. lia. }
    destruct (in_truncated s) eqn:Et; cbn [negb].
    { exists 0%nat. split; [done|]. split; [by intros t ?%not_elem_of_nil|]. left. split; [done|lia]. }
    apply Z.ltb_lt in E. case_bool_decide as Htok.
    + exists 0%nat. split; [done|]. split; [by intros t ?%not_elem_of_nil|]. right. right. split; [done|].
      rewrite ticks_between by lia. pose proof (Z.div_pos (until - nt) TICK ltac:(lia) HT).
      rewrite as_i32_small by lia. pose proof (Z.div_mod (until - nt) TICK ltac:(lia)).
      pose proof (Z.mod_pos_bound (until - nt) TICK HT). split; [nia|]. exists ((until - nt) / TICK + 1). lia.
    + assert (Hbig' : (until - (nt + TICK)) / TICK + 1 < 2 ^ 31).
      { replace (until - (nt + TICK)) with (until - nt + (-1) * TICK) by lia. rewrite Z.div_add by lia. lia. }
      specialize (IH (fold_tick cfg s nt) (nt + TICK) Hbig' ltac:(lia)).
      destruct (tick_gap fuel cfg _ _ until) as [s' nt']. destruct IH as (n & -> & Hin & Hcase).
      exists (S n). rewrite grid_succ. cbn [foldl]. split; [done|]. split; [by intros t [->|Ht]%elem_of_cons; [|apply Hin]|].
      destruct Hcase as [[? ->]|[[? ->]|(? & ? & [q Hq])]]; [left; split; [done|lia]|right; left; split; [done|lia]|].
      right. right. split; [done|]. split; [done|]. exists (q + 1). lia.
Qed.
End replay.
